(* ===== verification/_CoqProject ===== *)
-Q . S2P
Prelude.v
Varint.v
PacketNumber.v
WireFrames.v
WireParser.v
StreamTypes.v
Reassembly.v
FlowControl.v
RecvStream.v
SendStream.v
StreamConn.v
WsMask.v
WsHeader.v
WsParser.v
WsConn.v
Intern.v
HpackInt.v
Huffman.v
Hpack.v
H2Frames.v
H2Fsm.v
H2Server.v
H2ServerInv.v
H2Exchange.v
QuicPacket.v
TransportParams.v
QpackBase.v
QpackInstr.v
QpackTable.v
QpackBlocking.v
QpackEncoder.v
QpackDecoder.v
QpackSession.v
H1Base.v
H1Chunked.v
UriArgs.v
H1Scanner.v
