(* ===== verification/Prelude.v ===== *)
(** * mach: a verification library for its protocol engines

    mach is an HTTP engine in Go with its own QUIC transport, HTTP/2 server and
    WebSocket implementation.  This library verifies the parts of it that decide
    whether bytes arrive: the QUIC wire codec under [src/net/quic/varint] and
    [src/net/quic/core/wire], the stream layer under [src/net/quic/core/stream],
    the WebSocket package [src/proto/ws], and header compression for HTTP/2,
    [src/proto/codec/hpack] with the interning of names of [src/proto/headkit],
    and HTTP/2 itself: the frames [src/proto/h2], their state machine, and the
    server connection [src/server/h2].  On the QUIC side the library also covers
    what surrounds the frames: packet headers and their protection, and the
    transport parameters of [src/net/quic/core/handshake]; and header compression
    for HTTP/3, [src/proto/codec/qpack].  Of HTTP/1.1 it covers what frames a message,
    the chunked coding and the header scanner of [src/proto/h1], and the query
    arguments of [src/proto/semantic/uri].

    ** The program and its parts

    A datagram holds packets.  A packet has a header, whose first byte and number
    are masked, and an encrypted payload; the payload is a sequence of frames.
    The limits that both sides start from are announced in the handshake as
    transport parameters.  Frames are read by [ParseNextFrame] and written by the
    [Append...] functions, all of it on top of variable-length integers.  STREAM
    frames belong to streams.  A stream has a sending half, which queues the
    application's bytes within the peer's flow-control limits and hands them out
    as frames, and a receiving half, which puts arriving frames into a
    reassembly buffer and lets the application read what is contiguous.  Both
    halves of all streams share one connection-level flow controller.

    A WebSocket connection runs over any byte stream.  Its frames have a header
    and a payload that clients mask; a connection reads frames, answers control
    frames, assembles fragments, inflates compressed messages and closes on any
    violation; an incremental parser serves callers that read the bytes
    themselves.

    HPACK turns header fields into bytes: a field is an index into a static or a
    dynamic table, or a literal, of prefix integers and strings that may be
    Huffman coded.  Encoder and decoder keep a dynamic table each, and the two
    must evolve alike.

    QPACK does the same over streams that are not ordered among each other.  The
    encoder inserts entries with instructions on a control stream and refers to them
    in header blocks; a block says how many insertions it needs, and the decoder lets
    it wait until they have arrived.  On a second control stream the decoder tells
    which blocks and insertions it has, and the encoder evicts only what no
    unacknowledged block can refer to.

    An HTTP/2 server connection feeds what it reads to a state machine that cuts it
    into frames and reports events.  The handlers of the events keep a table of
    streams, collect header blocks and bodies, and start a goroutine per request,
    which calls the handler and writes the response.

    An HTTP/1.1 message is lines.  The header scanner cuts a header block into
    fields, in place; a chunked body is a sequence of sizes, data and a trailer
    section, read through a buffered reader and limited in size.  Query arguments are
    escaped pairs, kept in slots that are used again for the next request.

    ** Files

    - [Prelude] (this file): results of Go calls ([res]: return, error, panic),
      machine integers, byte slices, big-endian bytes, the tactics and the
      lemmas the components share.
    - [Varint]: [varint/varint.go], [core/handshake/varint.go] and
      [appendVarint] of [core/wire/header.go], the three copies of the integer
      codec.
    - [PacketNumber]: [core/wire/packet_number.go].
    - [WireFrames]: [core/wire/frames.go], [frame_serializer.go], and the
      abstract frames [qframe] with their wire image [qenc].
    - [WireParser]: [core/wire/frame_parser.go], one definition per frame type
      in a state-and-error monad, and the iterator [Frames].
    - [StreamTypes]: [core/stream/id.go], [state.go], [error.go].
    - [Reassembly]: [core/stream/reassembly.go]; the specification of a buffer
      is a partial map from offsets to bytes.
    - [FlowControl]: [core/stream/flowcontrol.go], and the system of one
      connection controller with any number of stream controllers.
    - [RecvStream]: [core/stream/receive_stream.go].
    - [SendStream]: [core/stream/send_stream.go], and the end-to-end theorem
      from a sending stream to the reassembly buffer.
    - [StreamConn]: [core/stream/stream.go] and [conn.go], the two halves of a
      bidirectional stream on one flow controller, and the connection that opens,
      accepts, feeds and retires streams.
    - [WsMask]: [proto/ws/mask.go], the masking kernel, with byte order and
      alignment as arguments.
    - [WsHeader]: [proto/ws/header.go], [opcode.go], [errors.go].
    - [WsParser]: [proto/ws/parser.go]; its specification is an automaton that
      takes one byte at a time.
    - [WsConn]: [proto/ws/conn.go] and [deflate.go], over an abstract DEFLATE
      codec (class [Flate]).
    - [Intern]: [proto/headkit/intern.go].
    - [HpackInt], [Huffman], [Hpack]: [proto/codec/hpack/hpack.go] and
      [huffman.go], the integers, the Huffman code (portable build), and the
      tables with encoder and decoder.
    - [H2Frames]: [proto/h2], frames, frame headers, settings and the checks on
      header fields.
    - [H2Fsm]: [proto/h2/overlay/frame.go], [proto/h2/fsm/fsm.go], and the buffer of
      the read loop.
    - [H2Server]: [server/h2], the connection and its streams, with the header
      writer of [proto/h2/utils.go].
    - [H2ServerInv]: the steps of a connection (reads, handlers, shutdown) and their
      invariant.
    - [H2Exchange]: a request and a response from end to end, and the defects.
    - [QuicPacket]: [core/wire/header.go], [version.go], [header_protection.go] and
      [aead.go]; the AES block and the AEAD ciphers are the class [Crypto] with the
      laws [CryptoLaws].
    - [TransportParams]: [core/handshake/transport_parameters.go],
      [connection_id.go] and the perspectives of [version.go].
    - [QpackBase], [QpackInstr], [QpackTable], [QpackBlocking], [QpackEncoder],
      [QpackDecoder]: [proto/codec/qpack], from bottom to top: fields, the static table,
      indices and counts; instructions with their encoder and resumable decoder; the
      ring buffer and the dynamic tables; the manager of unacknowledged blocks; the
      encoder; the decoder with its progressive decoders, which the table calls back.
    - [QpackSession]: both ends connected, under any schedule.
    - [H1Base]: [proto/h1/vector.go] and the token table of [headerscanner.go], with the
      scanning primitives of the foundation module as the class [Silicon] and its laws
      [SiliconLaws]; and the [bufio.Reader] of the standard library.
    - [H1Chunked]: [proto/h1/chunked.go], and the grammar of chunked messages.
    - [UriArgs]: [args.go], [args_decode.go], [escape.go] and [num.go] of
      [proto/semantic/uri], and the decoders of [proto/h1/vector.go].
    - [H1Scanner]: [proto/h1/headerscanner.go].

    ** How the code is represented

    A Go struct is a record, a method is a function returning the new record
    (and the shared connection controller, passed as [option flow], [None] for a
    nil pointer).  Unsigned integers are [Z] with the wrap-around written out
    ([u8], [u64]); [int] conversions are [i64].  A method that returns an error
    returns [res]; an index or slice out of range is [Panic], so "does not
    panic" is part of the theorems.  Calls to callbacks are returned as lists of
    events.  [time.Now], the round-trip time and user callbacks are arguments.
    Memory obtained from [sync.Pool] has arbitrary contents, an argument of the
    operations that allocate.  Each method runs under the lock it takes and is
    one step; where the code takes a lock twice ([Write]) or blocks in a
    [select] ([Read], [Write]), the sections are separate definitions, so that
    interleavings can be stated.

    ** What the theorems show

    - Codec: the encoders agree, decoding inverts encoding for varints, packet
      numbers and all frames; the parser is total, panic-free and only accepts
      frames that can be serialized again; the iterators visit every element.
    - Reassembly: [Push] and [Read] refine the map of received bytes; any order,
      repetition and overlap of frames gives the reader the stream in order.
    - Flow control: with checks and charges as separate steps, under every
      interleaving, no stream's limit and no receive limit is exceeded and connection
      totals of received data are the sums of the streams' totals; the connection's
      send limit holds while no two writers are between check and charge; windows
      only grow and always leave room.
    - Stream halves: invariants over arbitrary runs, the RFC 9000 state tables,
      what resets announce and credit, termination of writes, and end-to-end
      delivery from writer to reader.
    - Connections: over any history of application calls and peer frames the
      identifier tables agree with the stream objects, limits hold, streams are
      accepted once and in order and retired exactly when done; frames reach the
      stream they name.
    - WebSocket: the unrolled kernel is byte-wise masking; headers round-trip and
      the parser accepts exactly the minimal encodings; incremental decoding does
      not depend on how the input is cut; what one side writes, in any
      interleaving with control frames, the other reads; reading is total,
      bounded by the read limit and then without panic, and fails closed with the
      right code.
    - HPACK: integers and Huffman strings round-trip, and the Huffman decoder
      accepts exactly what the encoder writes; encoder and decoder stay in step
      over any blocks and size changes and the fields arrive (but for one field the
      static table has wrong); decoding is total
      and the table bounded; sensitive fields are never stored.
    - HTTP/2: frames have the wire format of the RFC and round-trip, reading is total, the in-place accessors agree
      with the deserializers, and events do not depend on how the bytes are cut;
      the server's tables, windows, buffers and recycled stream objects stay
      consistent over any reads and handlers (while no extended CONNECT is released
      twice); header blocks are contiguous; handlers see well-formed requests, once
      each, until frames are served behind a fatal error; what a client sends arrives
      at a handler, what a handler answers arrives at the client.
    - QUIC packets: headers of every type and version are parsed back; what is
      sealed opens to the same header and payload, with the header masked in
      between; opening anything is panic-free; the ChaCha20 mask gives the sample
      of RFC 9001.
    - Transport parameters: what is announced arrives, some zeros and incomplete
      preferred addresses apart; any input is decided without
      panic, values are in range, duplicates are refused.
    - QPACK: instructions survive any cutting of the bytes, and decoding them is total
      and independent of the cut; the tables of both sides implement one abstract
      table, and the room the encoder computes is exact; the blocking manager
      implements the set of unacknowledged blocks; and end to end, under any
      interleaving of blocks, instructions and feedback, every block is decoded to the
      fields that were encoded, at once or when its entries arrive.
    - HTTP/1.1: a chunked body is accepted exactly when it is well formed and within
      the limit, whatever the cuts of the network and the slices read into, unless the
      connection ends inside it, and what the writer writes is read back; chunk extensions are accepted exactly; the
      scanner yields the fields of any header block, folded lines included, and is
      total on any bytes.
    - Query arguments: the four decoders are one function; a query string parses to the
      arguments it was made of; the operations on recycled slots are operations on a
      list of pairs, but for setting a key that has several entries and for telling an
      empty value from none.
    - Defects, each as a theorem about a concrete run or an arbitrary state:
      credit checked and charged in two steps lets streams overrun MAX_DATA; a
      MAX_DATA between check and registration is a lost wake-up; an empty FIN
      frame never completes the receive side; changing a deadline times out a
      blocked reader; a stale DATA_BLOCKED hides the next; contiguous chunks are
      not always merged; the limit on the peer's streams is never raised; a
      cancelled receive stream forgets its STOP_SENDING and its flow control;
      [ReadMessageBuf] has no limit on messages and disturbs [ReadMessage];
      without a read limit an announced length makes the WebSocket readers panic;
      [ReadFrame] loses synchronisation; concurrent data writers corrupt each
      other; [AppendFrame] can emit stale header bytes; the header ring of the
      parser is overwritten; the masking kernel assumes little-endian; an empty
      accept-encoding field changes its value in HPACK; the HTTP/2 server ignores
      the peer's windows, does not credit padding, loses HPACK synchronisation on a
      malformed request, applies HEADER_TABLE_SIZE to the wrong side, rejects
      trailers, serves frames behind a fatal error, releases the object of an extended
      CONNECT twice so that later streams share it, and more ([H2Exchange]); QUIC
      version 2 has the wrong number; some transport parameters overflow, are lost,
      are accepted out of range or make [Append] panic; in QPACK a reduced capacity
      evicts entries that blocks on their way need, a stream that was reset is still
      acknowledged, and a trailing semicolon of a cookie is lost; a chunked body that
      is cut off is accepted as complete, and the largest limit makes every body
      empty; whether an argument is present can depend on the capacity of a slice.

    ** Fuel

    The loops over a slice that are not structural take fuel: the length of the
    slice.  Each completed iteration consumes at least one byte, and the
    theorems prove that this is enough: the varint and frame iterators give the
    same result with more fuel ([frames_any_payload]) and a write always has an
    outcome ([send_write_total]).  The WebSocket readers take the length of the
    input that is left plus one, since each iteration that goes on has consumed a
    header ([ws_read_message_total], [ws_readers_terminate]); the HPACK decoder the
    same ([hpack_decode_total]).  The HTTP/2 state machine takes the length of the
    data ([h2_events_any_split]), header blocks and bodies theirs plus one
    ([h2_request_delivered], [h2_response_delivered]), and decimal numbers twenty
    digits, enough for 64 bits.  [Unmarshal_loop] takes the length of the data plus
    one ([transport_parameters_total]).  The QPACK instruction decoder takes twelve
    passes per byte and twelve more, where ten and nine are enough
    ([qpack_decoder_total]); evictions and observers are bounded by the entries and
    observers there are ([qpack_tables_refine], [qpack_session]).  The loops of
    [bufio.Reader] take one step per piece of input and three more; a chunk line that
    is too long at most as many parts as it may have bytes, 16384; reading a chunked
    body one more than the bytes there are ([chunked_any_split]); extensions and
    argument decoders the length of their input ([chunk_extensions_exact],
    [decoders_exact]); and the scanner of header fields the length of the block and one
    ([header_scan_total]).

    ** Not modelled

    A STREAM frame that opens a stream and its delivery are one step of
    [StreamConn], although the code releases the connection's lock in between.  In
    [H2Server] a pipe to a handler takes any amount at once, each handler of an event
    is one step, although a goroutine may end and release its stream while the read
    loop holds it, and an object that another connection has released counts as new.
    The memory a program can have is only bounded where the peer announces a length
    ([WsConn]).  [QpackSession] leaves out what breaks
    the agreement of the two sides (cancellations of blocked streams and a capacity
    that is reduced: see the defects).  The assembly Huffman kernels and their
    generated table are not modelled, nor pools, arenas and the buffers behind header
    fields.  The WebSocket opening handshake, deadlines and the DEFLATE codec itself
    are not modelled, nor the QUIC connection that composes packets, frames and
    streams, which is goroutines around a TLS library, the HTTP/2 client and the
    HTTP/3 connections.  Of HTTP/1.1 the request line, the packed table of headers
    and the connection loops are not modelled; of the query arguments sorting, floating
    point and scoped borrows.  The large text-processing API of HTTP messages, headers
    and the other fields is not modelled: it is independent of the engines verified
    here.
    Cryptography, key derivation, TLS, sockets, HTTP handlers, the client pool and
    error texts are outside the library. *)

From stdpp Require Export base list numbers.
From Stdlib Require Export ZArith Lia.
From Stdlib Require Ascii String.
From coqutil Require Export Datatypes.RecordSetters.
Export OCamlLikeNotations.
#[global] Arguments constant {E} newValue _ /.
Open Scope Z_scope.

(** ** Results of Go functions

    A Go call either returns normally, returns a non-nil [error], or panics
    (index out of range, explicit [panic]).  [res E A] keeps the three apart,
    so "never panics" is a statement one can prove. *)
Inductive res (E A : Type) : Type :=
| Ok (a : A)
| Err (e : E)
| Panic.
Arguments Ok {E A} a.
Arguments Err {E A} e.
Arguments Panic {E A}.

Definition res_bind {E A B : Type} (m : res E A) (f : A -> res E B) : res E B :=
  match m with
  | Ok a => f a
  | Err e => Err e
  | Panic => Panic
  end.

Declare Scope mach_scope.
Delimit Scope mach_scope with mach.
Notation "'let*' x ':=' m 'in' k" := (res_bind m (fun x => k))
  (at level 10, x pattern, m at level 100, k at level 200) : mach_scope.
Open Scope mach_scope.

(** ** Machine integers and bytes

    A [w]-bit unsigned Go value is a [Z] in [0, 2^w); the conversions below
    are Go's truncating conversions, written out wherever the source wraps. *)
Definition u8 (x : Z) : Z := x mod 2 ^ 8.
Definition u16 (x : Z) : Z := x mod 2 ^ 16.
Definition u32 (x : Z) : Z := x mod 2 ^ 32.
Definition u64 (x : Z) : Z := x mod 2 ^ 64.

(** Conversion to the signed 64-bit [int]. *)
Definition i64 (x : Z) : Z := let y := u64 x in if y <? 2 ^ 63 then y else y - 2 ^ 64.

(** Byte slices are lists of [Z]; [bytes_ok] is the typing invariant Go gives
    for free. *)
Abbreviation bytes := (list Z).
Definition is_byte (x : Z) : Prop := 0 <= x < 256.
Definition bytes_ok (l : bytes) : Prop := Forall is_byte l.
Definition is_u64 (x : Z) : Prop := 0 <= x < 2 ^ 64.

#[export] Instance is_byte_dec x : Decision (is_byte x).
Proof. unfold is_byte. apply _. Defined.
#[export] Instance bytes_ok_dec l : Decision (bytes_ok l).
Proof. unfold bytes_ok. apply _. Defined.

(** [len(s)], [s[n:]], [s[:n]] and [s[lo:hi]] of a Go slice, with integer
    indices.  [zdrop]/[ztake] are the total list operations; [slice] is Go's
    slicing, which panics out of range. *)
Definition zlen {A} (l : list A) : Z := Z.of_nat (length l).
Definition zdrop {A} (n : Z) (l : list A) : list A := drop (Z.to_nat n) l.
Definition ztake {A} (n : Z) (l : list A) : list A := take (Z.to_nat n) l.
Definition znth (l : bytes) (i : Z) : Z := nth (Z.to_nat i) l 0.
Definition slice {E A} (l : list A) (lo hi : Z) : res E (list A) :=
  if (0 <=? lo) && (lo <=? hi) && (hi <=? zlen l)
  then Ok (ztake (hi - lo) (zdrop lo l)) else Panic.
Definition index {E} (l : bytes) (i : Z) : res E Z :=
  if (0 <=? i) && (i <? zlen l) then Ok (znth l i) else Panic.

(** The bytes of a string literal. *)
Definition bytes_of_string (s : String.string) : bytes :=
  map (fun c => Z.of_N (Ascii.N_of_ascii c)) (String.list_ascii_of_string s).

(** [encoding/binary.BigEndian]: [be_put n v] is the [n]-byte big-endian
    encoding of [v], [be_get] reads a big-endian value back. *)
Fixpoint be_put (n : nat) (v : Z) : bytes :=
  match n with
  | O => []
  | S m => u8 (Z.shiftr v (8 * Z.of_nat m)) :: be_put m v
  end.
Definition be_get (l : bytes) : Z :=
  fold_left (fun acc b => Z.lor (Z.shiftl acc 8) b) l 0.

(** ** Automation *)
Create HintDb mach.
Create Rewrite HintDb mach.

Ltac Zify.zify_post_hook ::= Z.div_mod_to_equations.

(** Turn the boolean tests of the code into propositions and split on them. *)
Ltac bool_simpl :=
  repeat match goal with
  | H : (_ && _)%bool = true |- _ => apply andb_true_iff in H as [? ?]
  | H : (_ || _)%bool = false |- _ => apply orb_false_iff in H as [? ?]
  | H : negb _ = true |- _ => apply negb_true_iff in H
  | H : negb _ = false |- _ => apply negb_false_iff in H
  | H : (_ <? _) = true |- _ => apply Z.ltb_lt in H
  | H : (_ <? _) = false |- _ => apply Z.ltb_ge in H
  | H : (_ <=? _) = true |- _ => apply Z.leb_le in H
  | H : (_ <=? _) = false |- _ => apply Z.leb_gt in H
  | H : (_ >? _) = true |- _ => rewrite Z.gtb_ltb in H; apply Z.ltb_lt in H
  | H : (_ >? _) = false |- _ => rewrite Z.gtb_ltb in H; apply Z.ltb_ge in H
  | H : (_ >=? _) = true |- _ => rewrite Z.geb_leb in H; apply Z.leb_le in H
  | H : (_ >=? _) = false |- _ => rewrite Z.geb_leb in H; apply Z.leb_gt in H
  | H : (_ =? _) = true |- _ => apply Z.eqb_eq in H
  | H : (_ =? _) = false |- _ => apply Z.eqb_neq in H
  end.

(** Decide the next Boolean comparison of the goal. *)
Ltac case_test :=
  match goal with
  | |- context [if ?b then _ else _] =>
      lazymatch b with context [if _ then _ else _] => fail | _ => destruct b eqn:? end
  end; bool_simpl.

(** Evaluate a comparison whose outcome follows by [lia]. *)
Ltac test_true e := replace e with true by (symmetry; rewrite ?andb_true_iff, ?Z.leb_le, ?Z.ltb_lt, ?Z.eqb_eq; lia).
Ltac test_false e := replace e with false by (symmetry; rewrite ?Z.leb_gt, ?Z.ltb_ge, ?Z.eqb_neq; lia).

(** Evaluate the comparisons between closed integers in the goal. *)
Ltac eval_tests :=
  repeat match goal with
  | |- context [?a =? ?b] =>
      let v := eval vm_compute in (a =? b) in
      first [constr_eq v true | constr_eq v false]; change (a =? b) with v
  | |- context [?a <=? ?b] =>
      let v := eval vm_compute in (a <=? b) in
      first [constr_eq v true | constr_eq v false]; change (a <=? b) with v
  | |- context [?a >=? ?b] =>
      let v := eval vm_compute in (a >=? b) in
      first [constr_eq v true | constr_eq v false]; change (a >=? b) with v
  end; cbn [orb andb negb Bool.eqb].

(** Split on the first Boolean test of a hypothesis, keeping the outcome. *)
Ltac case_hyp H :=
  match type of H with
  | context [if ?b then _ else _] =>
      lazymatch b with context [if _ then _ else _] => fail | _ => destruct b eqn:? end
  end; bool_simpl.

(** Compare two explicit lists element by element. *)
Ltac list_eq := repeat (apply (f_equal2 cons)); try done.

(** ** Lists and slices *)
Lemma zlen_nil {A} : zlen (@nil A) = 0.
Proof. done. Qed.
Lemma zlen_cons {A} (x : A) l : zlen (x :: l) = 1 + zlen l.
Proof. unfold zlen. simpl length. lia. Qed.
Lemma zlen_app {A} (l k : list A) : zlen (l ++ k) = zlen l + zlen k.
Proof. unfold zlen. rewrite length_app. lia. Qed.
Lemma zlen_nonneg {A} (l : list A) : 0 <= zlen l.
Proof. unfold zlen. lia. Qed.
Lemma zlen_zero {A} (l : list A) : zlen l = 0 -> l = [].
Proof. unfold zlen. destruct l; simpl; [done | lia]. Qed.
Lemma zlen_zdrop {A} n (l : list A) : 0 <= n <= zlen l -> zlen (zdrop n l) = zlen l - n.
Proof. unfold zlen, zdrop. intros. rewrite length_drop. lia. Qed.
Lemma zlen_ztake {A} n (l : list A) : 0 <= n <= zlen l -> zlen (ztake n l) = n.
Proof. unfold zlen, ztake. intros. rewrite length_take. lia. Qed.
#[export] Hint Rewrite @zlen_nil @zlen_cons @zlen_app : mach.

Lemma zdrop_0 {A} (l : list A) : zdrop 0 l = l.
Proof. done. Qed.
Lemma zdrop_zdrop {A} a b (l : list A) : 0 <= a -> 0 <= b -> zdrop a (zdrop b l) = zdrop (b + a) l.
Proof. intros. unfold zdrop. rewrite drop_drop. f_equal. lia. Qed.
Lemma zdrop_app {A} (l k : list A) : zdrop (zlen l) (l ++ k) = k.
Proof. unfold zdrop, zlen. rewrite Nat2Z.id. apply drop_app_length. Qed.
Lemma zdrop_app_eq {A} n (l k : list A) : n = zlen l -> zdrop n (l ++ k) = k.
Proof. intros ->. apply zdrop_app. Qed.
Lemma ztake_app {A} (l k : list A) : ztake (zlen l) (l ++ k) = l.
Proof. unfold ztake, zlen. rewrite Nat2Z.id. apply take_app_length. Qed.
Lemma ztake_app_eq {A} n (l k : list A) : n = zlen l -> ztake n (l ++ k) = l.
Proof. intros ->. apply ztake_app. Qed.
Lemma ztake_all {A} (l : list A) n : zlen l <= n -> ztake n l = l.
Proof. unfold ztake, zlen. intros. apply take_ge. lia. Qed.
Lemma zdrop_all {A} (l : list A) n : zlen l <= n -> zdrop n l = [].
Proof. unfold zdrop, zlen. intros. apply drop_ge. lia. Qed.
Lemma ztake_zdrop {A} n (l : list A) : ztake n l ++ zdrop n l = l.
Proof. apply take_drop. Qed.

Lemma ztake_split {A} a b (l : list A) :
  0 <= a -> 0 <= b -> ztake a l ++ ztake b (zdrop a l) = ztake (a + b) l.
Proof.
  intros. unfold ztake, zdrop. rewrite Z2Nat.inj_add by lia. apply take_take_drop.
Qed.

Lemma slice_ok {E A} (l : list A) lo hi :
  0 <= lo <= hi -> hi <= zlen l -> slice (E:=E) l lo hi = Ok (ztake (hi - lo) (zdrop lo l)).
Proof.
  intros. unfold slice. by test_true ((0 <=? lo) && (lo <=? hi) && (hi <=? zlen l)).
Qed.

Lemma bytes_ok_app l k : bytes_ok (l ++ k) <-> bytes_ok l /\ bytes_ok k.
Proof. apply Forall_app. Qed.
Lemma bytes_ok_cons x l : bytes_ok (x :: l) <-> is_byte x /\ bytes_ok l.
Proof. apply Forall_cons_iff. Qed.
Lemma bytes_ok_zdrop n l : bytes_ok l -> bytes_ok (zdrop n l).
Proof. apply Forall_drop. Qed.
Lemma bytes_ok_ztake n l : bytes_ok l -> bytes_ok (ztake n l).
Proof. apply Forall_take. Qed.
#[export] Hint Resolve bytes_ok_zdrop bytes_ok_ztake zlen_nonneg : mach.

(** ** Bit operations as arithmetic *)
Lemma u8_range x : is_byte (u8 x).
Proof. unfold u8, is_byte. lia. Qed.
Lemma u8_small x : is_byte x -> u8 x = x.
Proof. unfold u8, is_byte. intros. apply Z.mod_small. lia. Qed.
Lemma u64_range x : is_u64 (u64 x).
Proof. unfold u64, is_u64. apply Z.mod_pos_bound. lia. Qed.
Lemma u64_small x : is_u64 x -> u64 x = x.
Proof. unfold u64, is_u64. intros. by apply Z.mod_small. Qed.
#[export] Hint Resolve u8_range u64_range : mach.

(** Disjoint bit fields: [|] is [+]. *)
Lemma lor_add a b k : 0 <= k -> 0 <= b < 2 ^ k -> Z.lor (a * 2 ^ k) b = a * 2 ^ k + b.
Proof.
  intros Hk Hb. rewrite <- Z.lxor_lor, <- Z.add_nocarry_lxor; [done | |].
  all: apply Z.bits_inj'; intros i Hi; rewrite Z.land_spec, Z.bits_0;
    destruct (Z.lt_ge_cases i k);
    [ rewrite Z.mul_pow2_bits_low by lia; done
    | rewrite <- (Z.mod_small b (2 ^ k)) by lia;
      rewrite Z.mod_pow2_bits_high by lia; apply andb_false_r ].
Qed.

Lemma lor_shiftl a b k : 0 <= k -> 0 <= b < 2 ^ k -> Z.lor (Z.shiftl a k) b = a * 2 ^ k + b.
Proof. intros. rewrite Z.shiftl_mul_pow2 by lia. by apply lor_add. Qed.

Lemma land_mask x k : 0 <= k -> Z.land x (2 ^ k - 1) = x mod 2 ^ k.
Proof. intros. rewrite <- Z.land_ones by lia. by rewrite Z.ones_equiv. Qed.

(** ** Big-endian round trips *)
Lemma be_put_length n v : length (be_put n v) = n.
Proof. induction n; simpl; congruence. Qed.
Lemma be_put_zlen n v : zlen (be_put n v) = Z.of_nat n.
Proof. unfold zlen. by rewrite be_put_length. Qed.
Lemma be_put_ok n v : bytes_ok (be_put n v).
Proof. induction n; simpl; constructor; auto with mach. Qed.
#[export] Hint Resolve be_put_ok : mach.

(** Facts about bytes, by exhaustion. *)
Definition all_bytes : list Z := map Z.of_nat (seq 0 256).
Lemma all_bytes_spec (P : Z -> bool) : forallb P all_bytes = true -> forall b, is_byte b -> P b = true.
Proof.
  intros H b Hb. rewrite forallb_forall in H. apply H. unfold all_bytes, is_byte in *.
  apply in_map_iff. exists (Z.to_nat b). split; [lia|]. apply in_seq. lia.
Qed.

Lemma bytes_of_string_ok s : bytes_ok (bytes_of_string s).
Proof.
  unfold bytes_of_string, bytes_ok. rewrite Forall_map. apply Forall_true. intros a. unfold is_byte.
  destruct a as [[] [] [] [] [] [] [] []]; cbn; lia.
Qed.

Lemma be_get_snoc l b : be_get (l ++ [b]) = Z.lor (Z.shiftl (be_get l) 8) b.
Proof. unfold be_get. by rewrite fold_left_app. Qed.

Lemma be_get_acc l acc :
  bytes_ok l ->
  fold_left (fun acc b => Z.lor (Z.shiftl acc 8) b) l acc
  = acc * 2 ^ (8 * zlen l) + be_get l.
Proof.
  intros Hl. revert acc. unfold be_get. induction Hl as [|b l Hb Hl IH]; intros acc.
  - simpl fold_left. rewrite (@zlen_nil Z), Z.mul_0_r. lia.
  - simpl fold_left. rewrite IH, (IH (Z.lor _ _)). unfold is_byte in Hb.
    rewrite !lor_shiftl by lia. rewrite zlen_cons.
    replace (8 * (1 + zlen l)) with (8 + 8 * zlen l) by lia.
    rewrite Z.pow_add_r by (pose proof (zlen_nonneg l); lia). lia.
Qed.

Lemma be_get_cons b l :
  is_byte b -> bytes_ok l -> be_get (b :: l) = b * 2 ^ (8 * zlen l) + be_get l.
Proof.
  intros Hb Hl. unfold be_get at 1. simpl fold_left. rewrite be_get_acc by done.
  rewrite lor_shiftl by (unfold is_byte in Hb; lia). lia.
Qed.

Lemma be_get_range l : bytes_ok l -> 0 <= be_get l < 2 ^ (8 * zlen l).
Proof.
  induction 1 as [|b l Hb Hl IH]; [done|].
  rewrite be_get_cons by done. rewrite zlen_cons.
  replace (8 * (1 + zlen l)) with (8 + 8 * zlen l) by lia.
  rewrite Z.pow_add_r by (pose proof (zlen_nonneg l); lia).
  unfold is_byte in Hb. nia.
Qed.

Lemma be_get_put n v : be_get (be_put n v) = v mod 2 ^ (8 * Z.of_nat n).
Proof.
  induction n as [|n IH]; [simpl; by rewrite Z.mul_0_r, Z.mod_1_r|].
  cbn [be_put]. rewrite be_get_cons by auto with mach.
  rewrite IH, be_put_zlen. unfold u8.
  rewrite Z.shiftr_div_pow2 by lia.
  replace (8 * Z.of_nat (S n)) with (8 * Z.of_nat n + 8) by lia.
  rewrite Z.pow_add_r by lia. rewrite (Z.rem_mul_r v) by lia. lia.
Qed.

Lemma be_put_mod n v : be_put n (v mod 2 ^ (8 * Z.of_nat n)) = be_put n v.
Proof.
  assert (H : forall m, (m <= n)%nat -> be_put m (v mod 2 ^ (8 * Z.of_nat n)) = be_put m v).
  { induction m as [|m IH]; intros Hm; [done|]. cbn [be_put]. rewrite IH by lia. f_equal.
    unfold u8. rewrite !Z.shiftr_div_pow2 by lia.
    replace (8 * Z.of_nat n) with (8 * Z.of_nat m + 8 * (Z.of_nat n - Z.of_nat m)) by lia.
    rewrite Z.pow_add_r by lia.
    rewrite Z.rem_mul_r by lia.
    rewrite (Z.mul_comm (2 ^ _) (_ mod _)), Z.div_add by lia.
    rewrite Z.div_small by (apply Z.mod_pos_bound; lia). rewrite Z.add_0_l.
    replace (8 * (Z.of_nat n - Z.of_nat m)) with (8 + 8 * (Z.of_nat n - Z.of_nat m - 1)) by lia.
    rewrite Z.pow_add_r by lia. rewrite Z.rem_mul_r by lia.
    rewrite (Z.mul_comm (2 ^ 8) (_ mod _)), Z.mod_add, Z.mod_mod by lia. done. }
  by apply H.
Qed.

Lemma be_put_get l : bytes_ok l -> be_put (length l) (be_get l) = l.
Proof.
  induction 1 as [|b l Hb Hl IH]; [done|]. cbn [length be_put].
  pose proof (be_get_range l Hl) as Hr. rewrite be_get_cons by done.
  assert (Hz : 8 * Z.of_nat (length l) = 8 * zlen l) by done. rewrite Hz in *.
  f_equal.
  - unfold u8. rewrite Z.shiftr_div_pow2 by (pose proof (zlen_nonneg l); lia).
    rewrite (Z.add_comm (_ * _)), Z.div_add by (apply Z.pow_nonzero; pose proof (zlen_nonneg l); lia).
    rewrite Z.div_small by lia. unfold is_byte in Hb. apply Z.mod_small. lia.
  - transitivity (be_put (length l) (be_get l)); [|done].
    rewrite <- (be_put_mod _ (_ + _)), Hz.
    rewrite (Z.add_comm (_ * _)), Z.mod_add by (apply Z.pow_nonzero; pose proof (zlen_nonneg l); lia).
    by rewrite Z.mod_small by lia.
Qed.

Lemma i64_small x : 0 <= x < 2 ^ 63 -> i64 x = x.
Proof.
  intros. unfold i64. rewrite u64_small by (unfold is_u64; lia). by test_true (x <? 2 ^ 63).
Qed.
Lemma i64_le x : 0 <= x -> i64 x <= x.
Proof.
  intros H. unfold i64, u64. pose proof (Z.mod_le x (2 ^ 64) H ltac:(lia)). cbn zeta.
  destruct (x mod 2 ^ 64 <? 2 ^ 63) eqn:E; lia.
Qed.
Lemma u64_add_l a b : u64 (u64 a + b) = u64 (a + b).
Proof. unfold u64. by rewrite Zplus_mod_idemp_l. Qed.

Lemma lxor_range a b k : 0 <= k -> 0 <= a < 2 ^ k -> 0 <= b < 2 ^ k -> 0 <= Z.lxor a b < 2 ^ k.
Proof.
  intros Hk Ha Hb. assert (H0 : 0 <= Z.lxor a b) by (apply Z.lxor_nonneg; lia). split; [done|].
  destruct (Z.eq_dec (Z.lxor a b) 0) as [->|Hn]; [lia|]. apply Z.log2_lt_pow2; [lia|]. pose proof (Z.log2_lxor a b ltac:(lia) ltac:(lia)).
  assert (forall x, 0 <= x < 2 ^ k -> Z.log2 x < k \/ x = 0) as Hlog by (intros x Hx; destruct (Z.eq_dec x 0); [by right|left; apply Z.log2_lt_pow2; lia]).
  destruct (Z.eq_dec k 0) as [->|]; [exfalso; apply Hn; change (2 ^ 0) with 1 in *; by replace a with 0 by lia; replace b with 0 by lia|].
  destruct (Hlog a Ha) as [| ->], (Hlog b Hb) as [| ->]; cbn in *; lia.
Qed.
Lemma lxor_byte a b : is_byte a -> is_byte b -> is_byte (Z.lxor a b).
Proof. unfold is_byte. change 256 with (2 ^ 8). intros. by apply lxor_range. Qed.

(** ** Sums over lists *)
Definition sum_of {A} (f : A -> Z) (l : list A) : Z := fold_right (fun a acc => f a + acc) 0 l.

Lemma sum_of_insert {A} (f : A -> Z) l i a b :
  l !! i = Some a -> sum_of f (<[i := b]> l) = sum_of f l - f a + f b.
Proof.
  revert i. induction l as [|x l IH]; intros [|i] H; try done.
  - injection H as ->. cbn. lia.
  - change (f x + sum_of f (<[i := b]> l) = f x + sum_of f l - f a + f b). rewrite (IH i H). lia.
Qed.
Lemma sum_of_nonneg {A} (f : A -> Z) l : Forall (fun a => 0 <= f a) l -> 0 <= sum_of f l.
Proof. induction 1; [done|]. change (0 <= f x + sum_of f l). lia. Qed.
Lemma sum_of_lookup {A} (f : A -> Z) l i a :
  Forall (fun a => 0 <= f a) l -> l !! i = Some a -> f a <= sum_of f l.
Proof.
  intros Hl. revert i. induction Hl as [|x l Hx Hl IH]; intros [|i] H; try done;
    change (f a <= f x + sum_of f l).
  - injection H as ->. apply sum_of_nonneg in Hl. lia.
  - specialize (IH i H). lia.
Qed.
