(* ===== verification/Varint.v ===== *)
(** * QUIC variable-length integers (RFC 9000 section 16)

    Models [src/net/quic/varint/varint.go] (module [Varint]), the independent
    copy in [src/net/quic/core/handshake/varint.go] (module [HsVarint]) and the
    append-style writer of [src/net/quic/core/wire/header.go] ([wire_appendVarint]).
    The theorems: every encoder writes the same bytes, every decoder inverts
    them and the two decoders agree on every input, the length function is
    exact, values of 2^62 and above panic, and the push iterators visit exactly
    the encoded values. *)

From S2P Require Import Prelude.

Module Varint.

(** Constants and sentinel errors of varint.go. *)
Definition Max : Z := 4611686018427387903.
Definition Max1Byte : Z := 63.
Definition Max2Byte : Z := 16383.
Definition Max4Byte : Z := 1073741823.
Definition Max8Byte : Z := 4611686018427387903.

Inductive error := ErrTruncated | ErrInvalidTag.

(** [Len]. *)
Definition Len (v : Z) : res error Z :=
  if v <? Z.shiftl 1 6 then Ok 1
  else if v <? Z.shiftl 1 14 then Ok 2
  else if v <? Z.shiftl 1 30 then Ok 4
  else if v <? Z.shiftl 1 62 then Ok 8
  else Panic.

(** [Append]: byte by byte, with the two tag bits in the first byte. *)
Definition Append (b : bytes) (v : Z) : res error bytes :=
  if v <? Z.shiftl 1 6 then Ok (b ++ [u8 v])
  else if v <? Z.shiftl 1 14 then
    Ok (b ++ [Z.lor (u8 (Z.shiftr v 8)) 0x40; u8 v])
  else if v <? Z.shiftl 1 30 then
    Ok (b ++ [Z.lor (u8 (Z.shiftr v 24)) 0x80; u8 (Z.shiftr v 16);
              u8 (Z.shiftr v 8); u8 v])
  else if v <? Z.shiftl 1 62 then
    Ok (b ++ [Z.lor (u8 (Z.shiftr v 56)) 0xc0; u8 (Z.shiftr v 48);
              u8 (Z.shiftr v 40); u8 (Z.shiftr v 32); u8 (Z.shiftr v 24);
              u8 (Z.shiftr v 16); u8 (Z.shiftr v 8); u8 v])
  else Panic.

(** [EncodeSlice]: writes into the front of [b], which must be long enough,
    and returns the updated slice with the number of bytes written. *)
Definition put_front (enc b : bytes) : res error (bytes * Z) :=
  if zlen enc <=? zlen b then Ok (enc ++ zdrop (zlen enc) b, zlen enc) else Panic.

Definition EncodeSlice (v : Z) (b : bytes) : res error (bytes * Z) :=
  if v <? Z.shiftl 1 6 then put_front [u8 v] b
  else if v <? Z.shiftl 1 14 then
    put_front (be_put 2 (Z.lor (u16 v) 0x4000)) b
  else if v <? Z.shiftl 1 30 then
    put_front (be_put 4 (Z.lor (u32 v) 0x80000000)) b
  else if v <? Z.shiftl 1 62 then
    put_front (be_put 8 (Z.lor v 0xc000000000000000)) b
  else Panic.

(** [Encode]: the allocating variant. *)
Definition Encode (val : Z) : res error bytes :=
  if val <=? 63 then Ok [u8 val]
  else if val <=? 16383 then Ok (be_put 2 (Z.lor (u16 val) 0x4000))
  else if val <=? 1073741823 then Ok (be_put 4 (Z.lor (u32 val) 0x80000000))
  else if val <? Z.shiftl 1 62 then Ok (be_put 8 (Z.lor val 0xc000000000000000))
  else Panic.

(** [Decode]: value and number of bytes read. *)
Definition Decode (payload : bytes) : res error (Z * Z) :=
  match payload with
  | [] => Err ErrTruncated
  | first :: _ =>
      match Z.shiftr first 6 with
      | 0 => Ok (first, 1)
      | 1 =>
          if zlen payload <? 2 then Err ErrTruncated
          else Ok (Z.land (be_get (ztake 2 payload)) 0x3fff, 2)
      | 2 =>
          if zlen payload <? 4 then Err ErrTruncated
          else Ok (Z.land (be_get (ztake 4 payload)) 0x3fffffff, 4)
      | _ =>
          if zlen payload <? 8 then Err ErrTruncated
          else Ok (Z.land (be_get (ztake 8 payload)) 0x3fffffffffffffff, 8)
      end
  end.

(** [DecodeSeq]: a push iterator.  The consumer [yield] is a function on a
    consumer state that also says whether to continue; the loop body consumes
    at least one byte, so [length payload] iterations are enough. *)
Section Iterators.
Context {St : Type}.

Fixpoint DecodeSeq_loop (fuel : nat) (yield : St -> Z -> Z -> St * bool)
    (payload : bytes) (s : St) : St :=
  match fuel with
  | O => s
  | S fuel' =>
      if 0 <? zlen payload then
        match Decode payload with
        | Ok (val, n) =>
            let '(s', more) := yield s val n in
            if negb more then s'
            else DecodeSeq_loop fuel' yield (zdrop n payload) s'
        | _ => s
        end
      else s
  end.

Definition DecodeSeq (yield : St -> Z -> Z -> St * bool) (payload : bytes) (s : St) : St :=
  DecodeSeq_loop (length payload) yield payload s.

(** [Values]: the same loop, yielding the value only. *)
Fixpoint Values_loop (fuel : nat) (yield : St -> Z -> St * bool)
    (payload : bytes) (s : St) : St :=
  match fuel with
  | O => s
  | S fuel' =>
      if 0 <? zlen payload then
        match Decode payload with
        | Ok (val, n) =>
            let '(s', more) := yield s val in
            if negb more then s'
            else Values_loop fuel' yield (zdrop n payload) s'
        | _ => s
        end
      else s
  end.

Definition Values (yield : St -> Z -> St * bool) (payload : bytes) (s : St) : St :=
  Values_loop (length payload) yield payload s.
End Iterators.

End Varint.

(** The copy in core/handshake, whose writer has no range check. *)
Module HsVarint.

Definition MaxVarint : Z := Z.shiftl 1 62 - 1.
Inductive hs_error := errVarintUnexpected.

Definition varintLen (v : Z) : Z :=
  if v <=? 63 then 1
  else if v <=? 16383 then 2
  else if v <=? 1073741823 then 4
  else 8.

Definition appendVarint (b : bytes) (v : Z) : bytes :=
  if v <=? 63 then b ++ [u8 v]
  else if v <=? 16383 then
    b ++ [Z.lor 0x40 (u8 (Z.shiftr v 8)); u8 v]
  else if v <=? 1073741823 then
    b ++ [Z.lor 0x80 (u8 (Z.shiftr v 24)); u8 (Z.shiftr v 16);
          u8 (Z.shiftr v 8); u8 v]
  else
    b ++ [Z.lor 0xc0 (u8 (Z.shiftr v 56)); u8 (Z.shiftr v 48);
          u8 (Z.shiftr v 40); u8 (Z.shiftr v 32); u8 (Z.shiftr v 24);
          u8 (Z.shiftr v 16); u8 (Z.shiftr v 8); u8 v].

(** The [for i := 1; i < length; i++] loop of [readVarint]: [k] iterations left. *)
Fixpoint readVarint_loop (k : nat) (i : Z) (b : bytes) (val : Z) : Z :=
  match k with
  | O => val
  | S k' => readVarint_loop k' (i + 1) b (u64 (Z.lor (Z.shiftl val 8) (znth b i)))
  end.

Definition readVarint (b : bytes) : res hs_error (Z * Z) :=
  if zlen b <? 1 then Err errVarintUnexpected
  else
    let first := znth b 0 in
    let prefix := Z.shiftr first 6 in
    let length := Z.shiftl 1 prefix in
    if zlen b <? length then Err errVarintUnexpected
    else
      let val := Z.land first 0x3f in
      Ok (readVarint_loop (Z.to_nat (length - 1)) 1 b val, length).

End HsVarint.

(** The writer private to core/wire: the checked [append] style, with an
    explicit panic above [varint.Max]. *)
Definition wire_appendVarint {E} (dst : bytes) (val : Z) : res E bytes :=
  if val <=? 63 then Ok (dst ++ [u8 val])
  else if val <=? 16383 then
    Ok (dst ++ [Z.lor (u8 (Z.shiftr val 8)) 0x40; u8 val])
  else if val <=? 1073741823 then
    Ok (dst ++ [Z.lor (u8 (Z.shiftr val 24)) 0x80; u8 (Z.shiftr val 16);
                u8 (Z.shiftr val 8); u8 val])
  else if val <=? Varint.Max then
    Ok (dst ++ [Z.lor (u8 (Z.shiftr val 56)) 0xc0; u8 (Z.shiftr val 48);
                u8 (Z.shiftr val 40); u8 (Z.shiftr val 32); u8 (Z.shiftr val 24);
                u8 (Z.shiftr val 16); u8 (Z.shiftr val 8); u8 val])
  else Panic.

(** ** Specification

    RFC 9000 section 16 as one equation: the value in big-endian order on
    1, 2, 4 or 8 bytes, the two top bits holding log2 of that length. *)
Definition vi_size (v : Z) : nat :=
  if v <? 2 ^ 6 then 1%nat
  else if v <? 2 ^ 14 then 2%nat
  else if v <? 2 ^ 30 then 4%nat
  else 8%nat.

Definition vi_enc (v : Z) : bytes :=
  if v <? 2 ^ 6 then be_put 1 v
  else if v <? 2 ^ 14 then be_put 2 (v + 1 * 2 ^ 14)
  else if v <? 2 ^ 30 then be_put 4 (v + 2 * 2 ^ 30)
  else be_put 8 (v + 3 * 2 ^ 62).

Definition vi_ok (v : Z) : Prop := 0 <= v < 2 ^ 62.

#[export] Instance vi_ok_dec v : Decision (vi_ok v).
Proof. unfold vi_ok. apply _. Defined.

Lemma vi_enc_length v : length (vi_enc v) = vi_size v.
Proof. unfold vi_enc, vi_size. repeat case_test; apply be_put_length. Qed.

Lemma vi_enc_zlen v : zlen (vi_enc v) = Z.of_nat (vi_size v).
Proof. unfold zlen. by rewrite vi_enc_length. Qed.

Lemma vi_size_pos v : 1 <= Z.of_nat (vi_size v) <= 8.
Proof. unfold vi_size. repeat case_test; lia. Qed.

Lemma vi_enc_ok v : bytes_ok (vi_enc v).
Proof. unfold vi_enc. repeat case_test; apply be_put_ok. Qed.

Lemma vi_enc_nonempty v : vi_enc v <> [].
Proof.
  intros H. pose proof (vi_enc_zlen v) as Hl. rewrite H, zlen_nil in Hl.
  pose proof (vi_size_pos v). lia.
Qed.
#[export] Hint Resolve vi_enc_ok : mach.

(** [x | tag] for a byte whose upper bits are clear. *)
Lemma lor_tag x t k : 0 <= k -> 0 <= x < 2 ^ k -> Z.lor x (t * 2 ^ k) = x + t * 2 ^ k.
Proof. intros. rewrite Z.lor_comm, lor_add by lia. lia. Qed.

Ltac shifts := rewrite ?Z.shiftr_div_pow2 by lia.

Lemma lor_0x40 x : 0 <= x < 64 -> Z.lor x 0x40 = x + 64.
Proof. apply (lor_tag x 1 6); lia. Qed.
Lemma lor_0x80 x : 0 <= x < 128 -> Z.lor x 0x80 = x + 128.
Proof. apply (lor_tag x 1 7); lia. Qed.
Lemma lor_0xc0 x : 0 <= x < 64 -> Z.lor x 0xc0 = x + 192.
Proof. apply (lor_tag x 3 6); lia. Qed.

Lemma enc2 v : 2 ^ 6 <= v < 2 ^ 14 ->
  [Z.lor (u8 (Z.shiftr v 8)) 0x40; u8 v] = vi_enc v.
Proof.
  intros. unfold vi_enc. test_false (v <? 2 ^ 6). test_true (v <? 2 ^ 14).
  cbn [be_put]. unfold u8. shifts. rewrite lor_0x40 by lia.
  list_eq; lia.
Qed.

Lemma enc4 v : 2 ^ 14 <= v < 2 ^ 30 ->
  [Z.lor (u8 (Z.shiftr v 24)) 0x80; u8 (Z.shiftr v 16); u8 (Z.shiftr v 8); u8 v] = vi_enc v.
Proof.
  intros. unfold vi_enc. test_false (v <? 2 ^ 6). test_false (v <? 2 ^ 14).
  test_true (v <? 2 ^ 30). cbn [be_put]. unfold u8. shifts.
  rewrite lor_0x80 by lia. list_eq; lia.
Qed.

Lemma enc8 v : 2 ^ 30 <= v < 2 ^ 62 ->
  [Z.lor (u8 (Z.shiftr v 56)) 0xc0; u8 (Z.shiftr v 48); u8 (Z.shiftr v 40);
   u8 (Z.shiftr v 32); u8 (Z.shiftr v 24); u8 (Z.shiftr v 16); u8 (Z.shiftr v 8); u8 v]
  = vi_enc v.
Proof.
  intros. unfold vi_enc. test_false (v <? 2 ^ 6). test_false (v <? 2 ^ 14).
  test_false (v <? 2 ^ 30). cbn [be_put]. unfold u8. shifts.
  rewrite lor_0xc0 by lia. list_eq; lia.
Qed.

Lemma enc1 v : 0 <= v < 2 ^ 6 -> [u8 v] = vi_enc v.
Proof.
  intros. unfold vi_enc. test_true (v <? 2 ^ 6). cbn [be_put]. unfold u8. shifts.
  list_eq; lia.
Qed.

Lemma be2_tag v : 2 ^ 6 <= v < 2 ^ 14 -> be_put 2 (Z.lor (u16 v) 0x4000) = vi_enc v.
Proof.
  intros. unfold vi_enc. test_false (v <? 2 ^ 6). test_true (v <? 2 ^ 14).
  unfold u16. rewrite Z.mod_small by lia. change 0x4000 with (1 * 2 ^ 14).
  by rewrite lor_tag by lia.
Qed.

Lemma be4_tag v : 2 ^ 14 <= v < 2 ^ 30 -> be_put 4 (Z.lor (u32 v) 0x80000000) = vi_enc v.
Proof.
  intros. unfold vi_enc. test_false (v <? 2 ^ 6). test_false (v <? 2 ^ 14).
  test_true (v <? 2 ^ 30). unfold u32. rewrite Z.mod_small by lia.
  change 0x80000000 with (2 * 2 ^ 30).
  by rewrite lor_tag by lia.
Qed.

Lemma be8_tag v : 2 ^ 30 <= v < 2 ^ 62 -> be_put 8 (Z.lor v 0xc000000000000000) = vi_enc v.
Proof.
  intros. unfold vi_enc. test_false (v <? 2 ^ 6). test_false (v <? 2 ^ 14).
  test_false (v <? 2 ^ 30). change 0xc000000000000000 with (3 * 2 ^ 62).
  by rewrite lor_tag by lia.
Qed.

(** Close a branch of an encoder by the equation of its size class; the tests
    of the code become the bounds of the class. *)
Ltac enc_branch :=
  rewrite ?(Z.lor_comm 0x40), ?(Z.lor_comm 0x80), ?(Z.lor_comm 0xc0);
  first [ rewrite enc1 by lia | rewrite enc2 by lia | rewrite enc4 by lia
        | rewrite enc8 by lia | rewrite be2_tag by lia | rewrite be4_tag by lia
        | rewrite be8_tag by lia ].
Ltac enc_tests :=
  change (Z.shiftl 1 6) with (2 ^ 6); change (Z.shiftl 1 14) with (2 ^ 14);
  change (Z.shiftl 1 30) with (2 ^ 30); change (Z.shiftl 1 62) with (2 ^ 62);
  unfold Varint.Max in *.

Lemma Append_enc b v : vi_ok v -> Varint.Append b v = Ok (b ++ vi_enc v).
Proof.
  unfold vi_ok, Varint.Append. intros. enc_tests.
  repeat (case_test; [by enc_branch|]). lia.
Qed.

Lemma Encode_enc v : vi_ok v -> Varint.Encode v = Ok (vi_enc v).
Proof.
  unfold vi_ok, Varint.Encode. intros. enc_tests.
  repeat (case_test; [by enc_branch|]). lia.
Qed.

Lemma EncodeSlice_enc v b :
  vi_ok v -> Varint.EncodeSlice v b = Varint.put_front (vi_enc v) b.
Proof.
  unfold vi_ok, Varint.EncodeSlice. intros. enc_tests.
  repeat (case_test; [by enc_branch|]). lia.
Qed.

Lemma Len_enc v : vi_ok v -> Varint.Len v = Ok (zlen (vi_enc v)).
Proof.
  unfold vi_ok, Varint.Len. rewrite vi_enc_zlen. intros. enc_tests. unfold vi_size.
  repeat (case_test; [done|]). lia.
Qed.

Lemma hs_append_enc b v : vi_ok v -> HsVarint.appendVarint b v = b ++ vi_enc v.
Proof.
  unfold vi_ok, HsVarint.appendVarint. intros.
  repeat (case_test; [by enc_branch|]). by enc_branch.
Qed.

Lemma hs_len_enc v : vi_ok v -> HsVarint.varintLen v = zlen (vi_enc v).
Proof.
  unfold vi_ok, HsVarint.varintLen. rewrite vi_enc_zlen. unfold vi_size. intros.
  repeat case_test; lia.
Qed.

Lemma wire_append_enc {E} dst v :
  vi_ok v -> wire_appendVarint (E:=E) dst v = Ok (dst ++ vi_enc v).
Proof.
  unfold vi_ok, wire_appendVarint. intros. enc_tests.
  repeat (case_test; [by enc_branch|]). lia.
Qed.

(** ** Decoding

    Both decoders in one arithmetic form: the two top bits of the first byte
    give the length [n], the value is the big-endian reading of [n] bytes with
    the tag removed. *)
Definition vi_dec {E} (trunc : E) (b : bytes) : res E (Z * Z) :=
  match b with
  | [] => Err trunc
  | first :: _ =>
      let n := 2 ^ (first / 64) in
      if zlen b <? n then Err trunc
      else Ok (be_get (ztake n b) mod 2 ^ (8 * n - 2), n)
  end.

Lemma byte_tag b : is_byte b -> b / 64 = 0 \/ b / 64 = 1 \/ b / 64 = 2 \/ b / 64 = 3.
Proof. unfold is_byte. lia. Qed.

Lemma Decode_vi_dec b : bytes_ok b -> Varint.Decode b = vi_dec Varint.ErrTruncated b.
Proof.
  intros Hb. destruct Hb as [|b l Hb Hl]; [done|]. unfold Varint.Decode, vi_dec.
  rewrite Z.shiftr_div_pow2 by lia. change (2 ^ 6) with 64.
  pose proof (zlen_nonneg l). unfold is_byte in Hb.
  destruct (byte_tag b Hb) as [H1|[H1|[H1|H1]]]; rewrite H1.
  - change (2 ^ 0) with 1. rewrite zlen_cons. case_test; [lia|].
    do 2 f_equal. change (ztake 1 (b :: l)) with [b].
    change (be_get [b]) with b. change (8 * 1 - 2) with 6. rewrite Z.mod_small; lia.
  - change (2 ^ 1) with 2. by rewrite (land_mask _ 14) by lia.
  - change (2 ^ 2) with 4. by rewrite (land_mask _ 30) by lia.
  - change (2 ^ 3) with 8. by rewrite (land_mask _ 62) by lia.
Qed.

Lemma vi_dec_be {E} (trunc : E) k w rest :
  0 <= k <= 3 -> 0 <= w < 2 ^ (8 * 2 ^ k) -> w / 2 ^ (8 * 2 ^ k - 2) = k ->
  vi_dec trunc (be_put (Z.to_nat (2 ^ k)) w ++ rest)
  = Ok (w mod 2 ^ (8 * 2 ^ k - 2), 2 ^ k).
Proof.
  intros Hk Hw Htag.
  assert (Hn : 1 <= 2 ^ k) by lia.
  assert (Hfirst : exists l, be_put (Z.to_nat (2 ^ k)) w
                   = u8 (Z.shiftr w (8 * (2 ^ k - 1))) :: l
                   /\ u8 (Z.shiftr w (8 * (2 ^ k - 1))) / 64 = k).
  { destruct (Z.to_nat (2 ^ k)) as [|n] eqn:En; [lia|].
    exists (be_put n w). cbn [be_put].
    replace (8 * Z.of_nat n) with (8 * (2 ^ k - 1)) by lia. split; [done|].
    unfold u8. rewrite Z.shiftr_div_pow2 by lia.
    replace (8 * 2 ^ k) with (8 * (2 ^ k - 1) + 8) in Hw by lia.
    rewrite Z.pow_add_r in Hw by lia.
    rewrite (Z.mod_small (w / _)).
    - rewrite Z.div_div by lia. rewrite <- Htag at 2. f_equal.
      replace (8 * 2 ^ k - 2) with (8 * (2 ^ k - 1) + 6) by lia.
      by rewrite Z.pow_add_r by lia.
    - split; [apply Z.div_pos; lia | apply Z.div_lt_upper_bound; lia]. }
  destruct Hfirst as (l & Hl & Ht). unfold vi_dec.
  destruct (be_put (Z.to_nat (2 ^ k)) w ++ rest) as [|b t] eqn:Eb.
  { apply (f_equal (@length Z)) in Eb. rewrite length_app, be_put_length in Eb.
    simpl in Eb. lia. }
  assert (b = u8 (Z.shiftr w (8 * (2 ^ k - 1)))) as -> by (rewrite Hl in Eb; by injection Eb).
  rewrite Ht, <- Eb. case_test.
  - rewrite zlen_app, be_put_zlen in *. pose proof (zlen_nonneg rest). lia.
  - rewrite ztake_app_eq by (rewrite be_put_zlen; lia).
    rewrite be_get_put. replace (Z.of_nat (Z.to_nat (2 ^ k))) with (2 ^ k) by lia.
    by rewrite (Z.mod_small w) by lia.
Qed.

Lemma vi_dec_enc {E} (trunc : E) v rest :
  vi_ok v -> vi_dec trunc (vi_enc v ++ rest) = Ok (v, zlen (vi_enc v)).
Proof.
  intros Hv. rewrite vi_enc_zlen. unfold vi_ok in Hv. unfold vi_enc, vi_size.
  repeat case_test.
  - rewrite (vi_dec_be trunc 0 v) by (cbn; lia). do 2 f_equal; cbn; lia.
  - rewrite (vi_dec_be trunc 1 (v + 1 * 2 ^ 14)) by (cbn; lia). do 2 f_equal; cbn; lia.
  - rewrite (vi_dec_be trunc 2 (v + 2 * 2 ^ 30)) by (cbn; lia). do 2 f_equal; cbn; lia.
  - rewrite (vi_dec_be trunc 3 (v + 3 * 2 ^ 62)) by (cbn; lia). do 2 f_equal; cbn; lia.
Qed.

Lemma zdrop_cons_znth (b : bytes) i :
  0 <= i < zlen b -> zdrop i b = znth b i :: zdrop (i + 1) b.
Proof.
  unfold zlen, zdrop, znth. intros.
  destruct (lookup_lt_is_Some_2 b (Z.to_nat i)) as [x Hx]; [lia|].
  rewrite (nth_lookup_Some _ _ _ _ Hx).
  replace (Z.to_nat (i + 1)) with (S (Z.to_nat i)) by lia. by apply drop_S.
Qed.

Lemma ztake_S (x : Z) l k : ztake (Z.of_nat (S k)) (x :: l) = x :: ztake (Z.of_nat k) l.
Proof. unfold ztake. by rewrite !Nat2Z.id. Qed.

Lemma znth_byte b i : bytes_ok b -> 0 <= i < zlen b -> is_byte (znth b i).
Proof.
  intros Hb Hi. apply (bytes_ok_zdrop i) in Hb. rewrite zdrop_cons_znth in Hb by done.
  apply bytes_ok_cons in Hb. tauto.
Qed.

Lemma readVarint_loop_spec k : forall i b val m,
  bytes_ok b -> 0 <= i -> i + Z.of_nat k <= zlen b ->
  0 <= val < 2 ^ m -> 0 <= m -> m + 8 * Z.of_nat k <= 64 ->
  HsVarint.readVarint_loop k i b val
  = val * 2 ^ (8 * Z.of_nat k) + be_get (ztake (Z.of_nat k) (zdrop i b)).
Proof.
  induction k as [|k IH]; intros i b val m Hb Hi Hlen Hval Hm Hw.
  - change (ztake (Z.of_nat 0) (zdrop i b)) with (@nil Z). change (be_get []) with 0.
    change (2 ^ (8 * Z.of_nat 0)) with 1. cbn [HsVarint.readVarint_loop]. lia.
  - cbn [HsVarint.readVarint_loop].
    assert (Hx : is_byte (znth b i)) by (apply znth_byte; [done|lia]).
    pose proof Hx as Hx'. unfold is_byte in Hx'.
    rewrite (zdrop_cons_znth b i) by lia. rewrite ztake_S.
    rewrite be_get_cons by auto with mach.
    rewrite zlen_ztake by (rewrite zlen_zdrop; lia).
    rewrite lor_shiftl by lia.
    assert (Hp : 2 ^ (m + 8) = 2 ^ m * 2 ^ 8) by (apply Z.pow_add_r; lia).
    assert (Hmax : 2 ^ (m + 8) <= 2 ^ 64) by (apply Z.pow_le_mono_r; lia).
    rewrite u64_small by (unfold is_u64; lia).
    rewrite (IH _ _ _ (m + 8)) by (try lia; done).
    replace (8 * Z.of_nat (S k)) with (8 + 8 * Z.of_nat k) by lia.
    rewrite Z.pow_add_r by lia. lia.
Qed.

Lemma readVarint_vi_dec b :
  bytes_ok b -> HsVarint.readVarint b = vi_dec HsVarint.errVarintUnexpected b.
Proof.
  intros Hb. unfold HsVarint.readVarint, vi_dec. destruct b as [|f l]; [done|].
  apply bytes_ok_cons in Hb as [Hf Hl]. pose proof (zlen_nonneg l).
  assert (Hz : zlen (f :: l) = 1 + zlen l) by apply zlen_cons.
  test_false (zlen (f :: l) <? 1). change (znth (f :: l) 0) with f.
  rewrite Z.shiftr_div_pow2, Z.shiftl_1_l by lia. change (2 ^ 6) with 64.
  set (n := 2 ^ (f / 64)).
  assert (Hn : 1 <= n <= 8).
  { unfold n. destruct (byte_tag f Hf) as [->|[->|[->| ->]]]; cbn; lia. }
  case_test; [done|].
  do 2 f_equal. change 0x3f with (2 ^ 6 - 1). rewrite land_mask by lia.
  rewrite (readVarint_loop_spec _ 1 (f :: l) _ 6); try lia.
  2: { by apply bytes_ok_cons. }
  replace (Z.of_nat (Z.to_nat (n - 1))) with (n - 1) by lia.
  change (zdrop 1 (f :: l)) with l.
  assert (Htk : ztake n (f :: l) = f :: ztake (n - 1) l).
  { replace n with (Z.of_nat (S (Z.to_nat (n - 1)))) at 1 by lia. rewrite ztake_S.
    by replace (Z.of_nat (Z.to_nat (n - 1))) with (n - 1) by lia. }
  rewrite Htk, be_get_cons by auto with mach.
  rewrite zlen_ztake by lia.
  pose proof (be_get_range (ztake (n - 1) l) ltac:(auto with mach)) as Hr.
  rewrite zlen_ztake in Hr by lia.
  replace (8 * n - 2) with (8 * (n - 1) + 6) by lia. rewrite Z.pow_add_r by lia.
  rewrite Z.rem_mul_r by lia.
  rewrite (Z.add_comm (f * _)), Z.mod_add, Z.div_add by lia.
  rewrite (Z.mod_small (be_get _)), (Z.div_small (be_get _)) by lia.
  rewrite Z.add_0_l. ring.
Qed.

Lemma vi_dec_range {E} (trunc : E) b v n :
  bytes_ok b -> vi_dec trunc b = Ok (v, n) -> vi_ok v /\ 1 <= n <= 8 /\ n <= zlen b.
Proof.
  unfold vi_dec, vi_ok. destruct b as [|f l]; [done|]. intros Hb.
  apply bytes_ok_cons in Hb as [Hf Hl]. case_test; [done|]. intros [= <- <-].
  destruct (byte_tag f Hf) as [Ht|[Ht|[Ht|Ht]]]; rewrite Ht in *;
    [change (2 ^ 0) with 1 in * | change (2 ^ 1) with 2 in *
     | change (2 ^ 2) with 4 in * | change (2 ^ 3) with 8 in *];
    pose proof (zlen_nonneg l); rewrite zlen_cons in *; lia.
Qed.

Lemma Decode_enc v rest :
  vi_ok v -> bytes_ok rest -> Varint.Decode (vi_enc v ++ rest) = Ok (v, zlen (vi_enc v)).
Proof.
  intros. rewrite Decode_vi_dec by (apply bytes_ok_app; auto with mach).
  by apply vi_dec_enc.
Qed.

Lemma Decode_range b v n :
  bytes_ok b -> Varint.Decode b = Ok (v, n) -> vi_ok v /\ 1 <= n <= 8 /\ n <= zlen b.
Proof. intros Hb. rewrite Decode_vi_dec by done. by apply vi_dec_range. Qed.

Lemma Decode_no_panic b : Varint.Decode b <> Panic.
Proof.
  unfold Varint.Decode. destruct b; [done|].
  repeat (case_match; try done).
Qed.

(** ** Iterators *)
Section IteratorFacts.
Context {St : Type}.

(** What a consumer sees of a list of values: one call per value, in order,
    until it asks to stop. *)
Fixpoint feed (yield : St -> Z -> Z -> St * bool) (vs : list Z) (s : St) : St :=
  match vs with
  | [] => s
  | v :: vs' =>
      let '(s', more) := yield s v (zlen (vi_enc v)) in
      if negb more then s' else feed yield vs' s'
  end.

Lemma DecodeSeq_loop_feed yield vs : forall tail s fuel,
  Forall vi_ok vs -> bytes_ok tail -> (forall r, Varint.Decode tail <> Ok r) ->
  (length (concat (map vi_enc vs) ++ tail) <= fuel)%nat ->
  Varint.DecodeSeq_loop fuel yield (concat (map vi_enc vs) ++ tail) s = feed yield vs s.
Proof.
  induction vs as [|v vs IH]; intros tail s fuel Hvs Hok Htail Hfuel.
  - simpl. destruct fuel as [|fuel]; [done|]. simpl. case_test; [|done].
    destruct (Varint.Decode tail); [by destruct (Htail a)|done|done].
  - apply Forall_cons_iff in Hvs as [Hv Hvs]. cbn [map concat] in *.
    rewrite <- app_assoc in *.
    assert (Hrest : bytes_ok (concat (map vi_enc vs) ++ tail)).
    { apply bytes_ok_app; split; [|done]. clear. induction vs; simpl; [constructor|].
      apply bytes_ok_app; auto with mach. }
    pose proof (vi_size_pos v) as Hsz. pose proof (vi_enc_length v) as Hl.
    rewrite length_app in Hfuel.
    destruct fuel as [|fuel]; [lia|]. cbn [Varint.DecodeSeq_loop feed].
    rewrite zlen_app, vi_enc_zlen. pose proof (zlen_nonneg (concat (map vi_enc vs) ++ tail)).
    case_test; [|lia]. rewrite Decode_enc by done. rewrite vi_enc_zlen.
    destruct (yield s v _) as [s' more]. destruct more; [|done]. cbn [negb].
    rewrite zdrop_app_eq by (by rewrite vi_enc_zlen). apply IH; [done..|lia].
Qed.

Lemma Values_DecodeSeq (yield : St -> Z -> St * bool) fuel : forall payload s,
  Varint.Values_loop fuel yield payload s
  = Varint.DecodeSeq_loop fuel (fun s v _ => yield s v) payload s.
Proof.
  induction fuel as [|fuel IH]; intros payload s; [done|]. simpl.
  case_test; [|done]. destruct (Varint.Decode payload) as [[v n]| |]; [|done..].
  destruct (yield s v) as [s' []]; [apply IH|done].
Qed.
End IteratorFacts.

(** ** Properties *)

(** All writers of QUIC variable-length integers produce the same bytes.
    For every value below 2^62, [Append], [Encode], [EncodeSlice] (given room),
    the handshake package's [appendVarint] and the wire package's
    [appendVarint] emit the RFC 9000 encoding, and [Len]/[varintLen] return
    exactly its length. *)
Theorem varint_encoders_agree v b :
  vi_ok v ->
  Varint.Append b v = Ok (b ++ vi_enc v)
  /\ Varint.Encode v = Ok (vi_enc v)
  /\ (zlen (vi_enc v) <= zlen b ->
      Varint.EncodeSlice v b = Ok (vi_enc v ++ zdrop (zlen (vi_enc v)) b, zlen (vi_enc v)))
  /\ (zlen b < zlen (vi_enc v) -> Varint.EncodeSlice v b = Panic)
  /\ HsVarint.appendVarint b v = b ++ vi_enc v
  /\ wire_appendVarint (E:=unit) b v = Ok (b ++ vi_enc v)
  /\ Varint.Len v = Ok (zlen (vi_enc v))
  /\ HsVarint.varintLen v = zlen (vi_enc v).
Proof.
  intros Hv. split_and!; auto using Append_enc, Encode_enc, hs_append_enc,
    wire_append_enc, Len_enc, hs_len_enc.
  - intros. rewrite EncodeSlice_enc by done. unfold Varint.put_front. case_test; [done|lia].
  - intros. rewrite EncodeSlice_enc by done. unfold Varint.put_front. case_test; [lia|done].
Qed.

Lemma varint_encoders_agree_witness :
  vi_ok 15293 /\ Varint.Append [7] 15293 = Ok [7; 0x7b; 0xbd].
Proof. split; [vm_compute; done|]. exact (proj1 (varint_encoders_agree 15293 [7] ltac:(vm_compute; done))). Defined.

(** Decoding inverts encoding.  Whatever follows on the wire, [Decode]
    reads an encoded value back together with its exact length, so a sequence
    of encoded integers is self-delimiting. *)
Theorem varint_roundtrip v rest :
  vi_ok v -> bytes_ok rest ->
  (let* b := Varint.Append [] v in Varint.Decode (b ++ rest)) = Ok (v, zlen (vi_enc v)).
Proof. intros. rewrite Append_enc by done. simpl. by apply Decode_enc. Qed.

Lemma varint_roundtrip_witness :
  (let* b := Varint.Append [] 494878333 in Varint.Decode (b ++ [1; 2])) = Ok (494878333, 4).
Proof. exact (varint_roundtrip 494878333 [1; 2] ltac:(vm_compute; done) ltac:(repeat constructor; done)). Defined.

(** The two independent decoders are the same function.  On every byte
    string, well formed or truncated, the varint package's [Decode] and the
    handshake package's [readVarint] succeed together with the same value and
    length, or fail together; a successful read is in range and never reads
    past the buffer. *)
Theorem varint_decoders_agree b :
  bytes_ok b ->
  match Varint.Decode b with
  | Ok (v, n) => HsVarint.readVarint b = Ok (v, n) /\ vi_ok v /\ 1 <= n <= 8 /\ n <= zlen b
  | Err e => e = Varint.ErrTruncated /\ HsVarint.readVarint b = Err HsVarint.errVarintUnexpected
  | Panic => False
  end.
Proof.
  intros Hb. rewrite readVarint_vi_dec by done.
  destruct (Varint.Decode b) as [[v n]|e|] eqn:E.
  - split; [|by eapply Decode_range]. rewrite Decode_vi_dec in E by done.
    unfold vi_dec in *. destruct b; [done|]. case_match; [done|]. congruence.
  - rewrite Decode_vi_dec in E by done. unfold vi_dec in *. destruct b; [by injection E as <-|].
    case_match; [|done]. by injection E as <-.
  - by apply Decode_no_panic in E.
Qed.

Lemma varint_decoders_agree_witness :
  HsVarint.readVarint [0xc2; 0x19; 0x7c; 0x5e; 0xff; 0x14; 0xe8; 0x8c; 9] = Ok (151288809941952652, 8).
Proof.
  exact (proj1 (varint_decoders_agree [0xc2; 0x19; 0x7c; 0x5e; 0xff; 0x14; 0xe8; 0x8c; 9]
                  ltac:(repeat constructor; done))).
Defined.

(** The push iterators visit exactly the encoded values.  Over the
    concatenation of encodings followed by an undecodable (empty or truncated)
    tail, [DecodeSeq] calls its consumer once per value, in order, with the
    value and its length, stopping early iff the consumer says so; [Values]
    does the same without the length. *)
Theorem varint_iterators_visit {St : Type} (yield : St -> Z -> Z -> St * bool)
    (yield1 : St -> Z -> St * bool) vs tail s :
  Forall vi_ok vs -> bytes_ok tail -> (forall r, Varint.Decode tail <> Ok r) ->
  Varint.DecodeSeq yield (concat (map vi_enc vs) ++ tail) s = feed yield vs s
  /\ Varint.Values yield1 (concat (map vi_enc vs) ++ tail) s
     = feed (fun s v _ => yield1 s v) vs s.
Proof.
  intros. split.
  - by apply DecodeSeq_loop_feed.
  - unfold Varint.Values. rewrite Values_DecodeSeq. by apply DecodeSeq_loop_feed.
Qed.

Lemma varint_iterators_visit_witness :
  Varint.Values (fun s v => (s ++ [v], v <? 100)) [0x25; 0x40; 0x64; 0x07; 0x80] [] = [37; 100].
Proof.
  exact (proj2 (varint_iterators_visit (fun s v _ => (s ++ [v], true)) (fun s v => (s ++ [v], v <? 100))
     [37; 100; 7] [0x80] [] ltac:(repeat constructor; done) ltac:(repeat constructor; done)
     ltac:(vm_compute; done))).
Defined.

(** Out-of-range values.  At 2^62 and above the varint and wire writers
    and [Len] panic, while the handshake package's unchecked [appendVarint]
    writes eight bytes that decode to the value modulo 2^62. *)
Theorem varint_out_of_range v b rest :
  2 ^ 62 <= v < 2 ^ 64 -> bytes_ok rest ->
  Varint.Append b v = Panic /\ Varint.Encode v = Panic /\ Varint.EncodeSlice v b = Panic
  /\ Varint.Len v = Panic /\ wire_appendVarint (E:=unit) b v = Panic
  /\ HsVarint.readVarint (HsVarint.appendVarint [] v ++ rest) = Ok (v mod 2 ^ 62, 8).
Proof.
  intros Hv Hr.
  split_and!;
    try (unfold Varint.Append, Varint.Encode, Varint.EncodeSlice, Varint.Len,
           wire_appendVarint; enc_tests; repeat (case_test; [lia|]); done).
  unfold HsVarint.appendVarint. repeat (case_test; [lia|]).
  replace ([] ++ _) with (be_put 8 (v mod 2 ^ 62 + 3 * 2 ^ 62)).
  - rewrite readVarint_vi_dec by (apply bytes_ok_app; auto with mach).
    rewrite (vi_dec_be _ 3) by (cbn; lia). do 2 f_equal. cbn. lia.
  - cbn [be_put app]. rewrite Z.lor_comm. unfold u8. shifts.
    replace (Z.lor ((v / 2 ^ 56) mod 2 ^ 8) 0xc0) with ((v / 2 ^ 56) mod 64 + 192).
    + list_eq; lia.
    + replace ((v / 2 ^ 56) mod 2 ^ 8) with (((v / 2 ^ 56) mod 2 ^ 8 / 64) * 2 ^ 6 + (v / 2 ^ 56) mod 64) by lia.
      rewrite <- lor_add, (Z.lor_comm (_ * _)), <- Z.lor_assoc by lia.
      assert (0 <= (v / 2 ^ 56) mod 2 ^ 8 / 64 < 4) as Hq by lia.
      replace (Z.lor ((v / 2 ^ 56) mod 2 ^ 8 / 64 * 2 ^ 6) 192) with 192.
      * rewrite (lor_0xc0 (_ mod 64)); lia.
      * revert Hq. generalize ((v / 2 ^ 56) mod 2 ^ 8 / 64). intros q Hq.
        assert (q = 0 \/ q = 1 \/ q = 2 \/ q = 3) as [->|[->|[->| ->]]] by lia; done.
Qed.

Lemma varint_out_of_range_witness :
  HsVarint.readVarint (HsVarint.appendVarint [] (2 ^ 62 + 5) ++ []) = Ok (5, 8).
Proof.
  exact (proj2 (proj2 (proj2 (proj2 (proj2 (varint_out_of_range (2 ^ 62 + 5) [] []
    ltac:(lia) ltac:(constructor))))))).
Defined.
