(* ===== verification/PacketNumber.v ===== *)
(** * QUIC packet number encoding (RFC 9000 section 17.1, appendix A)

    Models [src/net/quic/core/wire/packet_number.go].  The theorems: a packet
    number survives truncation and reconstruction whenever it lies in the
    half-window around the receiver's expectation (for every window the sender
    can choose), the wire bytes round-trip, and reconstruction always yields a
    representable packet number. *)

From S2P Require Import Prelude Varint.

Definition InvalidPacketNumber : Z := 2 ^ 64 - 1.
Definition MaxPacketNumber : Z := Z.shiftl 1 62 - 1.

(** [DecodePacketNumber]; all arithmetic is on uint64. *)
Definition DecodePacketNumber (largestPN truncatedPN pnLen : Z) : Z :=
  let pnNbits := pnLen * 8 in
  let expectedPN := if largestPN =? InvalidPacketNumber then 0 else u64 (largestPN + 1) in
  let pnWin := u64 (Z.shiftl 1 pnNbits) in
  let pnHwin := pnWin / 2 in
  let pnMask := u64 (pnWin - 1) in
  let candidatePN := Z.lor (Z.ldiff expectedPN pnMask) truncatedPN in
  let candidatePN :=
    if (u64 (candidatePN + pnHwin) <=? expectedPN)
       && (candidatePN <? u64 (Z.shiftl 1 62 - pnWin))
    then u64 (candidatePN + pnWin)
    else if (candidatePN >? u64 (expectedPN + pnHwin)) && (candidatePN >=? pnWin)
    then u64 (candidatePN - pnWin)
    else candidatePN in
  if candidatePN >? MaxPacketNumber then MaxPacketNumber else candidatePN.

Definition PacketNumberLength (pn largestAcked : Z) : Z :=
  let diff :=
    if largestAcked =? InvalidPacketNumber then u64 (pn + 1)
    else if pn <? largestAcked then u64 (largestAcked - pn)
    else u64 (pn - largestAcked) in
  let diff := u64 (diff * 2) in
  if diff <? Z.shiftl 1 8 then 1
  else if diff <? Z.shiftl 1 16 then 2
  else if diff <? Z.shiftl 1 24 then 3
  else 4.

Definition EncodePacketNumber (pn largestAcked : Z) : Z * Z :=
  let pnLen := PacketNumberLength pn largestAcked in
  let mask :=
    match pnLen with
    | 1 => 0xff
    | 2 => 0xffff
    | 3 => 0xffffff
    | _ => 0xffffffff
    end in
  (Z.land pn mask, pnLen).

Definition AppendPacketNumber (dst : bytes) (pn pnLen : Z) : res unit bytes :=
  match pnLen with
  | 1 => Ok (dst ++ [u8 pn])
  | 2 => Ok (dst ++ [u8 (Z.shiftr pn 8); u8 pn])
  | 3 => Ok (dst ++ [u8 (Z.shiftr pn 16); u8 (Z.shiftr pn 8); u8 pn])
  | 4 => Ok (dst ++ [u8 (Z.shiftr pn 24); u8 (Z.shiftr pn 16); u8 (Z.shiftr pn 8); u8 pn])
  | _ => Panic
  end.

Definition ReadPacketNumber (b : bytes) (pnLen : Z) : res unit Z :=
  if zlen b <? pnLen then Panic
  else
    match pnLen with
    | 1 => Ok (znth b 0)
    | 2 => Ok (be_get (ztake 2 b))
    | 3 => Ok (Z.lor (Z.lor (Z.shiftl (znth b 0) 16) (Z.shiftl (znth b 1) 8)) (znth b 2))
    | 4 => Ok (be_get (ztake 4 b))
    | _ => Panic
    end.

(** ** Specification

    The receiver's expectation and the RFC 9000 appendix A.3 window: the
    unique number congruent to the truncated one that is closest to it. *)
Definition pn_expected (largestPN : Z) : Z :=
  if largestPN =? InvalidPacketNumber then 0 else largestPN + 1.

Definition pn_valid (pn : Z) : Prop := 0 <= pn < 2 ^ 62.
Definition pn_or_invalid (pn : Z) : Prop := pn_valid pn \/ pn = InvalidPacketNumber.

Definition in_window (largestPN pn pnLen : Z) : Prop :=
  pn_expected largestPN - 2 ^ (8 * pnLen - 1) < pn
  <= pn_expected largestPN + 2 ^ (8 * pnLen - 1).

Lemma pn_expected_range largest :
  pn_or_invalid largest -> 0 <= pn_expected largest <= 2 ^ 62.
Proof.
  unfold pn_or_invalid, pn_valid, pn_expected, InvalidPacketNumber. intros. case_test; lia.
Qed.

(** The candidate of the code is the window-aligned base plus the truncated
    number. *)
Lemma candidate_arith e t k :
  0 <= k -> 0 <= t < 2 ^ k ->
  Z.lor (Z.ldiff e (2 ^ k - 1)) t = e / 2 ^ k * 2 ^ k + t.
Proof.
  intros. rewrite <- (lor_add (e / 2 ^ k)) by lia. f_equal.
  replace (2 ^ k - 1) with (Z.ones k) by (rewrite Z.ones_equiv; lia).
  rewrite Z.ldiff_ones_r by lia.
  by rewrite Z.shiftl_mul_pow2, Z.shiftr_div_pow2 by lia.
Qed.

(** The reconstruction on plain integers, for a window [w = 2 * h]. *)
Definition pn_reconstruct (e t w h : Z) : Z :=
  let c := e / w * w + t in
  let c' := if (c + h <=? e) && (c <? 2 ^ 62 - w) then c + w
            else if (c >? e + h) && (c >=? w) then c - w else c in
  if c' >? 2 ^ 62 - 1 then 2 ^ 62 - 1 else c'.

Lemma DecodePacketNumber_reconstruct largest t n :
  1 <= n <= 4 -> pn_or_invalid largest -> 0 <= t < 2 ^ (8 * n) ->
  DecodePacketNumber largest t n
  = pn_reconstruct (pn_expected largest) t (2 ^ (8 * n)) (2 ^ (8 * n - 1)).
Proof.
  intros Hn Hl Ht. pose proof (pn_expected_range largest Hl) as He.
  unfold DecodePacketNumber, pn_reconstruct.
  replace (if largest =? InvalidPacketNumber then 0 else u64 (largest + 1))
    with (pn_expected largest).
  2: { unfold pn_expected in *. case_test; [done|]. unfold u64. symmetry. apply Z.mod_small. lia. }
  generalize dependent (pn_expected largest). intros e He.
  rewrite (Z.mul_comm n 8). rewrite Z.shiftl_1_l.
  assert (Hw : 2 ^ (8 * n) = 2 * 2 ^ (8 * n - 1)).
  { replace (8 * n) with (1 + (8 * n - 1)) at 1 by lia. by rewrite Z.pow_add_r by lia. }
  assert (Hb : 2 ^ 7 <= 2 ^ (8 * n - 1) <= 2 ^ 31)
    by (split; apply Z.pow_le_mono_r; lia).
  rewrite (u64_small (2 ^ (8 * n))), (u64_small (2 ^ (8 * n) - 1)) by (unfold is_u64; lia).
  rewrite candidate_arith by lia.
  assert (Hh : 2 ^ (8 * n) / 2 = 2 ^ (8 * n - 1)) by lia. rewrite Hh. clear Hh.
  set (w := 2 ^ (8 * n)) in *. set (h := 2 ^ (8 * n - 1)) in *.
  assert (Hc : 0 <= e / w * w + t < 2 ^ 63).
  { assert (0 <= e / w * w <= e); [|lia].
    pose proof (Z.div_pos e w ltac:(lia) ltac:(lia)).
    pose proof (Z.mul_div_le e w ltac:(lia)). lia. }
  set (c := e / w * w + t) in *. clearbody c h w. subst w.
  unfold MaxPacketNumber. change (Z.shiftl 1 62) with (2 ^ 62).
  rewrite (u64_small (c + h)), (u64_small (2 ^ 62 - 2 * h)), (u64_small (e + h))
    by (unfold is_u64; lia).
  repeat case_test; try lia; try (rewrite u64_small in * by (unfold is_u64; lia)); lia.
Qed.

Lemma pn_reconstruct_window e pn w h :
  0 < h -> w = 2 * h -> 0 <= pn < 2 ^ 62 -> 0 <= e -> e - h < pn <= e + h ->
  pn_reconstruct e (pn mod w) w h = pn.
Proof.
  intros Hh Hw Hpn He Hwin. unfold pn_reconstruct.
  pose proof (Z.div_mod pn w ltac:(lia)) as Hd. pose proof (Z.mod_pos_bound pn w ltac:(lia)) as Hm.
  pose proof (Z.div_mod e w ltac:(lia)) as Hd'. pose proof (Z.mod_pos_bound e w ltac:(lia)) as Hm'.
  set (q := pn / w) in *. set (r := pn mod w) in *. set (q' := e / w) in *. set (r' := e mod w) in *.
  clearbody q r q' r'.
  assert (q = q' \/ q = q' + 1 \/ q = q' - 1) as Hq by nia.
  assert (Hk : pn = q' * w + r \/ pn = q' * w + r + w \/ pn = q' * w + r - w) by nia.
  set (c := q' * w + r) in *. clearbody c. clear Hd Hd' Hq Hm Hm'.
  repeat case_test; lia.
Qed.

Lemma DecodePacketNumber_window largest pn n :
  1 <= n <= 4 -> pn_or_invalid largest -> pn_valid pn -> in_window largest pn n ->
  DecodePacketNumber largest (pn mod 2 ^ (8 * n)) n = pn.
Proof.
  intros Hn Hl Hpn Hw. pose proof (pn_expected_range largest Hl) as He.
  rewrite DecodePacketNumber_reconstruct by (try done; apply Z.mod_pos_bound; lia).
  assert (2 ^ (8 * n) = 2 * 2 ^ (8 * n - 1)).
  { replace (8 * n) with (1 + (8 * n - 1)) at 1 by lia. by rewrite Z.pow_add_r by lia. }
  apply pn_reconstruct_window; [lia|done|done|lia|exact Hw].
Qed.

Lemma PacketNumberLength_range pn la : 1 <= PacketNumberLength pn la <= 4.
Proof. unfold PacketNumberLength. repeat case_test; lia. Qed.

Lemma EncodePacketNumber_mod pn la :
  EncodePacketNumber pn la
  = (pn mod 2 ^ (8 * PacketNumberLength pn la), PacketNumberLength pn la).
Proof.
  unfold EncodePacketNumber. pose proof (PacketNumberLength_range pn la).
  generalize dependent (PacketNumberLength pn la). intros n Hn.
  assert (n = 1 \/ n = 2 \/ n = 3 \/ n = 4) as [->|[->|[->| ->]]] by lia; f_equal;
    [apply (land_mask pn 8)|apply (land_mask pn 16)|apply (land_mask pn 24)|apply (land_mask pn 32)]; lia.
Qed.

(** The chosen length covers twice the distance to the largest acknowledged
    packet as long as that distance fits the largest window. *)
Lemma PacketNumberLength_covers pn la :
  pn_valid pn -> (la = InvalidPacketNumber \/ 0 <= la <= pn) ->
  pn - (if la =? InvalidPacketNumber then -1 else la) < 2 ^ 31 ->
  pn - (if la =? InvalidPacketNumber then -1 else la) < 2 ^ (8 * PacketNumberLength pn la - 1).
Proof.
  unfold pn_valid, PacketNumberLength. intros Hpn Hla.
  change (Z.shiftl 1 8) with (2 ^ 8). change (Z.shiftl 1 16) with (2 ^ 16).
  change (Z.shiftl 1 24) with (2 ^ 24).
  destruct (la =? InvalidPacketNumber) eqn:E; bool_simpl.
  - intros. rewrite !(u64_small (pn + 1)), (u64_small ((pn + 1) * 2)) by (unfold is_u64; lia).
    repeat case_test; cbn; lia.
  - assert (0 <= la <= pn) by lia. intros. test_false (pn <? la).
    rewrite !(u64_small (pn - la)), (u64_small ((pn - la) * 2)) by (unfold is_u64; lia).
    repeat case_test; cbn; lia.
Qed.

Lemma AppendPacketNumber_be dst pn n :
  1 <= n <= 4 -> AppendPacketNumber dst pn n = Ok (dst ++ be_put (Z.to_nat n) pn).
Proof.
  intros. assert (n = 1 \/ n = 2 \/ n = 3 \/ n = 4) as [->|[->|[->| ->]]] by lia;
    cbn [AppendPacketNumber]; do 2 f_equal; cbn -[Z.shiftr u8]; by rewrite ?Z.shiftr_0_r.
Qed.

Lemma ReadPacketNumber_be pn n rest :
  1 <= n <= 4 ->
  ReadPacketNumber (be_put (Z.to_nat n) pn ++ rest) n = Ok (pn mod 2 ^ (8 * n)).
Proof.
  intros Hn. unfold ReadPacketNumber. pose proof (zlen_nonneg rest).
  rewrite zlen_app, be_put_zlen. case_test; [lia|].
  assert (Hg : forall k, n = Z.of_nat k -> be_get (ztake n (be_put k pn ++ rest)) = pn mod 2 ^ (8 * n)).
  { intros k ->. rewrite ztake_app_eq by (by rewrite be_put_zlen). by rewrite be_get_put. }
  assert (n = 1 \/ n = 2 \/ n = 3 \/ n = 4) as [->|[->|[->| ->]]] by lia; f_equal.
  - by rewrite <- (Hg 2%nat eq_refl).
  - rewrite <- (Hg 3%nat eq_refl). rewrite ztake_app_eq by done.
    change (Z.to_nat 3) with 3%nat. cbn [be_put app]. change (znth _ 0) with (u8 (pn ≫ 16)).
    change (znth _ 1) with (u8 (pn ≫ 8)). change (znth _ 2) with (u8 (pn ≫ 0)).
    unfold be_get. cbn [fold_left]. by rewrite Z.shiftl_0_l, Z.lor_0_l, Z.shiftl_lor, Z.shiftl_shiftl by lia.
  - by rewrite <- (Hg 4%nat eq_refl).
Qed.

(** ** Properties *)

(** Truncation and reconstruction are inverse.  A sender that knows
    [largestAcked] truncates [pn] with [EncodePacketNumber]; a receiver whose
    largest authenticated packet number is at least that and is less than half
    a window ahead of [pn] reconstructs exactly [pn], as long as fewer than 2^31
    packets are outstanding (the most four bytes can express). *)
Theorem packet_number_roundtrip pn largestAcked largestPN :
  pn_valid pn -> 0 <= largestAcked <= pn -> pn - largestAcked < 2 ^ 31 ->
  largestAcked <= largestPN < 2 ^ 62 ->
  largestPN + 1 - 2 ^ (8 * snd (EncodePacketNumber pn largestAcked) - 1) < pn ->
  let '(t, n) := EncodePacketNumber pn largestAcked in
  DecodePacketNumber largestPN t n = pn.
Proof.
  intros Hpn Hla Hd Hl Hw. rewrite EncodePacketNumber_mod in *. cbn [snd] in Hw.
  unfold pn_valid in Hpn.
  assert (Hinv : (largestAcked =? InvalidPacketNumber) = false)
    by (apply Z.eqb_neq; unfold InvalidPacketNumber; lia).
  pose proof (PacketNumberLength_covers pn largestAcked Hpn (or_intror Hla)) as Hc.
  rewrite Hinv in Hc. specialize (Hc Hd).
  apply DecodePacketNumber_window;
    [apply PacketNumberLength_range|left; unfold pn_valid; lia|done|].
  unfold in_window, pn_expected.
  assert ((largestPN =? InvalidPacketNumber) = false) as ->
    by (apply Z.eqb_neq; unfold InvalidPacketNumber; lia).
  lia.
Qed.

Lemma packet_number_roundtrip_witness :
  EncodePacketNumber 0xac5c02 0xabe8b3 = (0x5c02, 2) /\ DecodePacketNumber 0xabe8bd 0x5c02 2 = 0xac5c02.
Proof.
  split; [reflexivity|].
  exact (packet_number_roundtrip 0xac5c02 0xabe8b3 0xabe8bd ltac:(unfold pn_valid; lia)
           ltac:(lia) ltac:(lia) ltac:(lia) ltac:(vm_compute; reflexivity)).
Defined.

(** The first flight.  Before anything is acknowledged (sender) or
    received (receiver) both sides use the invalid packet number, and every
    packet number below 2^31 - 1 still survives encoding and reconstruction. *)
Theorem packet_number_first_flight pn :
  0 <= pn < 2 ^ 31 - 1 ->
  let '(t, n) := EncodePacketNumber pn InvalidPacketNumber in
  DecodePacketNumber InvalidPacketNumber t n = pn.
Proof.
  intros Hpn. rewrite EncodePacketNumber_mod.
  pose proof (PacketNumberLength_covers pn InvalidPacketNumber) as Hc.
  unfold pn_valid in Hc. rewrite Z.eqb_refl in Hc.
  specialize (Hc ltac:(lia) ltac:(auto) ltac:(lia)).
  apply DecodePacketNumber_window;
    [apply PacketNumberLength_range|by right|unfold pn_valid; lia|].
  unfold in_window, pn_expected. rewrite Z.eqb_refl. lia.
Qed.

Lemma packet_number_first_flight_witness :
  DecodePacketNumber InvalidPacketNumber 1000 2 = 1000.
Proof. exact (packet_number_first_flight 1000 ltac:(lia)). Defined.

(** Reconstruction is safe on any input.  For every largest packet
    number, every truncated value of the announced length and every length
    1 to 4, the result is a representable packet number, and it is congruent
    to the truncated value modulo the window unless it was clamped to the
    maximum. *)
Theorem packet_number_decode_bounds largest t n :
  1 <= n <= 4 -> pn_or_invalid largest -> 0 <= t < 2 ^ (8 * n) ->
  pn_valid (DecodePacketNumber largest t n)
  /\ (DecodePacketNumber largest t n mod 2 ^ (8 * n) = t
      \/ DecodePacketNumber largest t n = MaxPacketNumber).
Proof.
  intros Hn Hl Ht. pose proof (pn_expected_range largest Hl) as He.
  rewrite DecodePacketNumber_reconstruct by done.
  generalize dependent (pn_expected largest). intros e He. unfold pn_reconstruct, pn_valid.
  set (w := 2 ^ (8 * n)) in *. set (h := 2 ^ (8 * n - 1)) in *.
  change MaxPacketNumber with (2 ^ 62 - 1).
  assert (0 <= e / w * w + t).
  { pose proof (Z.div_pos e w ltac:(lia) ltac:(lia)). lia. }
  assert (H0 : (e / w * w + t) mod w = t)
    by (rewrite Z.add_comm, Z.mod_add by lia; by apply Z.mod_small).
  assert (H1 : (e / w * w + t + w) mod w = t)
    by (rewrite <- (Z.mul_1_l w) at 3; rewrite Z.mod_add by lia; done).
  assert (H2 : (e / w * w + t - w) mod w = t)
    by (replace (e / w * w + t - w) with (e / w * w + t + (-1) * w) by lia;
        rewrite Z.mod_add by lia; done).
  set (c := e / w * w + t) in *. clearbody c h. clear Hl.
  assert (0 < w) by (unfold w; lia). clearbody w.
  repeat case_test; (split; [lia|]); auto.
Qed.

Lemma packet_number_decode_bounds_witness :
  pn_valid (DecodePacketNumber MaxPacketNumber 0 1).
Proof.
  exact (proj1 (packet_number_decode_bounds MaxPacketNumber 0 1 ltac:(lia)
    ltac:(left; vm_compute; split; congruence) ltac:(lia))).
Defined.

(** The packet number field round-trips through the header bytes: what
    [AppendPacketNumber] writes for a length 1 to 4, [ReadPacketNumber] reads
    back as the number modulo 2^(8*length), whatever follows; any other length
    panics. *)
Theorem packet_number_bytes_roundtrip dst pn n rest :
  (1 <= n <= 4 ->
   exists enc, AppendPacketNumber dst pn n = Ok (dst ++ enc) /\ zlen enc = n
     /\ ReadPacketNumber (enc ++ rest) n = Ok (pn mod 2 ^ (8 * n)))
  /\ (~ 1 <= n <= 4 -> AppendPacketNumber dst pn n = Panic /\ ReadPacketNumber rest n = Panic).
Proof.
  split.
  - intros Hn. exists (be_put (Z.to_nat n) pn). rewrite AppendPacketNumber_be, ReadPacketNumber_be by done.
    split_and!; [done| |done]. rewrite be_put_zlen. lia.
  - intros Hn. unfold AppendPacketNumber, ReadPacketNumber.
    destruct n as [|p|p]; [by split; [|case_test]| |by split; [|case_test]].
    do 3 (destruct p as [p|p|]; try lia; try (by split; [|case_test])).
Qed.
