(* ===== verification/WireFrames.v ===== *)
(** * QUIC frames: data model and serializer (RFC 9000 section 19)

    Models [src/net/quic/core/wire/frames.go] (the frame structs, the ACK range
    storage, [Reset]) and [src/net/quic/core/wire/frame_serializer.go] (every
    [Append*Frame] function and the dispatcher [AppendFrame]).  The abstract
    frame [qframe] and its wire image [qenc] specify what a [Frame] means and
    what bytes it stands for; [AppendFrame_qenc] is the refinement lemma. *)

From S2P Require Import Prelude Varint.

(** ** Frame types *)
Definition FrameTypePadding : Z := 0x00.
Definition FrameTypePing : Z := 0x01.
Definition FrameTypeAck : Z := 0x02.
Definition FrameTypeAckECN : Z := 0x03.
Definition FrameTypeResetStream : Z := 0x04.
Definition FrameTypeStopSending : Z := 0x05.
Definition FrameTypeCrypto : Z := 0x06.
Definition FrameTypeNewToken : Z := 0x07.
Definition FrameTypeStream : Z := 0x08.
Definition FrameTypeMaxData : Z := 0x10.
Definition FrameTypeMaxStreamData : Z := 0x11.
Definition FrameTypeMaxStreamsBidi : Z := 0x12.
Definition FrameTypeMaxStreamsUni : Z := 0x13.
Definition FrameTypeDataBlocked : Z := 0x14.
Definition FrameTypeStreamDataBlocked : Z := 0x15.
Definition FrameTypeStreamsBlockedBidi : Z := 0x16.
Definition FrameTypeStreamsBlockedUni : Z := 0x17.
Definition FrameTypeNewConnectionID : Z := 0x18.
Definition FrameTypeRetireConnectionID : Z := 0x19.
Definition FrameTypePathChallenge : Z := 0x1a.
Definition FrameTypePathResponse : Z := 0x1b.
Definition FrameTypeConnectionCloseTransport : Z := 0x1c.
Definition FrameTypeConnectionCloseApp : Z := 0x1d.
Definition FrameTypeHandshakeDone : Z := 0x1e.
Definition FrameTypeDatagram : Z := 0x30.
Definition FrameTypeDatagramWithLen : Z := 0x31.

(** ** Frame structs *)
#[projections(primitive)]
Record AckRange := mkAckRange { Gap : Z; Length : Z }.

#[projections(primitive)]
Record ECNCounts := mkECNCounts { ECT0 : Z; ECT1 : Z; ECNCE : Z }.

(** [InlineRanges] is a Go array of 8; [NumInlineRanges] of them are in use,
    the overflow goes to [ExtraRanges]. *)
#[projections(primitive)]
Record AckFrame := mkAckFrame {
  LargestAcked : Z;
  AckDelay : Z;
  FirstAckRange : Z;
  InlineRanges : list AckRange;
  NumInlineRanges : Z;
  ExtraRanges : list AckRange;
  HasECN : bool;
  ECN : ECNCounts
}.

#[projections(primitive)]
Record ResetStreamFrame := mkResetStreamFrame
  { rs_StreamID : Z; rs_ErrorCode : Z; rs_FinalSize : Z }.
#[projections(primitive)]
Record StopSendingFrame := mkStopSendingFrame { ss_StreamID : Z; ss_ErrorCode : Z }.
#[projections(primitive)]
Record CryptoFrame := mkCryptoFrame { cr_Offset : Z; cr_Data : bytes }.
#[projections(primitive)]
Record NewTokenFrame := mkNewTokenFrame { nt_Token : bytes }.
#[projections(primitive)]
Record StreamFrame := mkStreamFrame
  { st_StreamID : Z; st_Offset : Z; st_Fin : bool; st_HasLen : bool; st_Data : bytes }.
#[projections(primitive)]
Record MaxDataFrame := mkMaxDataFrame { md_MaximumData : Z }.
#[projections(primitive)]
Record MaxStreamDataFrame := mkMaxStreamDataFrame
  { msd_StreamID : Z; msd_MaximumStreamData : Z }.
#[projections(primitive)]
Record MaxStreamsFrame := mkMaxStreamsFrame { ms_MaxStreams : Z; ms_Unidirectional : bool }.
#[projections(primitive)]
Record DataBlockedFrame := mkDataBlockedFrame { db_MaximumData : Z }.
#[projections(primitive)]
Record StreamDataBlockedFrame := mkStreamDataBlockedFrame
  { sdb_StreamID : Z; sdb_MaximumStreamData : Z }.
#[projections(primitive)]
Record StreamsBlockedFrame := mkStreamsBlockedFrame
  { sb_StreamLimit : Z; sb_Unidirectional : bool }.
#[projections(primitive)]
Record NewConnectionIDFrame := mkNewConnectionIDFrame
  { nc_SequenceNumber : Z; nc_RetirePriorTo : Z; nc_ConnID : bytes;
    nc_StatelessResetToken : bytes }.
#[projections(primitive)]
Record RetireConnectionIDFrame := mkRetireConnectionIDFrame { rc_SequenceNumber : Z }.
#[projections(primitive)]
Record PathChallengeFrame := mkPathChallengeFrame { pc_Data : bytes }.
#[projections(primitive)]
Record PathResponseFrame := mkPathResponseFrame { pr_Data : bytes }.
#[projections(primitive)]
Record ConnectionCloseFrame := mkConnectionCloseFrame
  { cc_IsApplication : bool; cc_ErrorCode : Z; cc_FrameType : Z; cc_Reason : bytes }.
#[projections(primitive)]
Record DatagramFrame := mkDatagramFrame { dg_HasLen : bool; dg_Data : bytes }.

(** [Frame] holds every sub-frame side by side so that one value can be reused
    for a whole packet; only the part named by [Type] is meaningful. *)
#[projections(primitive)]
Record Frame := mkFrame {
  Type_ : Z;
  PaddingCount : Z;
  Ack : AckFrame;
  ResetStream : ResetStreamFrame;
  StopSending : StopSendingFrame;
  Crypto : CryptoFrame;
  NewToken : NewTokenFrame;
  Stream : StreamFrame;
  MaxData : MaxDataFrame;
  MaxStreamData : MaxStreamDataFrame;
  MaxStreams : MaxStreamsFrame;
  DataBlocked : DataBlockedFrame;
  StreamDataBlocked : StreamDataBlockedFrame;
  StreamsBlocked : StreamsBlockedFrame;
  NewConnectionID : NewConnectionIDFrame;
  RetireConnectionID : RetireConnectionIDFrame;
  PathChallenge : PathChallengeFrame;
  PathResponse : PathResponseFrame;
  ConnectionClose : ConnectionCloseFrame;
  Datagram : DatagramFrame
}.

(** ** Methods of AckFrame and Frame *)
Definition RangeCount (a : AckFrame) : Z := NumInlineRanges a + zlen (ExtraRanges a).

(** [Range(i)]: an out-of-range index panics. *)
Definition list_at {A} (l : list A) (i : Z) : res unit A :=
  match (if 0 <=? i then l !! Z.to_nat i else None) with
  | Some x => Ok x
  | None => Panic
  end.

Definition Range (a : AckFrame) (i : Z) : res unit AckRange :=
  if i <? NumInlineRanges a then list_at (InlineRanges a) i
  else list_at (ExtraRanges a) (i - NumInlineRanges a).

Definition AppendRange (a : AckFrame) (gap length : Z) : AckFrame :=
  if NumInlineRanges a <? zlen (InlineRanges a) then
    { a with InlineRanges := <[Z.to_nat (NumInlineRanges a) := mkAckRange gap length]> (InlineRanges a);
             NumInlineRanges := NumInlineRanges a + 1 }
  else { a with ExtraRanges := ExtraRanges a ++ [mkAckRange gap length] }.

Definition AckFrame_Reset (a : AckFrame) : AckFrame :=
  { a with LargestAcked := 0; AckDelay := 0; FirstAckRange := 0; NumInlineRanges := 0;
           ExtraRanges := []; HasECN := false; ECN := mkECNCounts 0 0 0 }.

Definition Frame_Reset (f : Frame) : Frame :=
  { f with Type_ := 0; PaddingCount := 0; Ack := AckFrame_Reset (Ack f);
           Crypto -> cr_Data := []; NewToken -> nt_Token := []; Stream -> st_Data := [];
           NewConnectionID -> nc_ConnID := []; ConnectionClose -> cc_Reason := [];
           Datagram -> dg_Data := [] }.

(** ** Serializer (frame_serializer.go) *)
Definition zeroBuf : bytes := replicate 64 0.

(** The loop of [AppendPadding]: each round appends at most [len(zeroBuf)]
    bytes, so [count] rounds are enough. *)
Fixpoint AppendPadding_loop (fuel : nat) (dst : bytes) (count : Z) : bytes :=
  match fuel with
  | O => dst
  | S fuel' =>
      if count >? 0 then
        let n := if count >? zlen zeroBuf then zlen zeroBuf else count in
        AppendPadding_loop fuel' (dst ++ ztake n zeroBuf) (count - n)
      else dst
  end.

Definition AppendPadding (dst : bytes) (count : Z) : bytes :=
  AppendPadding_loop (Z.to_nat count) dst count.

Definition AppendPing (dst : bytes) : bytes := dst ++ [u8 FrameTypePing].

(** The loop over the ACK ranges: [k] iterations left, starting at index [i]. *)
Fixpoint append_ranges (k : nat) (i : Z) (dst : bytes) (a : AckFrame) : res unit bytes :=
  match k with
  | O => Ok dst
  | S k' =>
      let* r := Range a i in
      let* dst := wire_appendVarint dst (Gap r) in
      let* dst := wire_appendVarint dst (Length r) in
      append_ranges k' (i + 1) dst a
  end.

Definition AppendAckFrame (dst : bytes) (a : AckFrame) : res unit bytes :=
  let dst := if HasECN a then dst ++ [u8 FrameTypeAckECN] else dst ++ [u8 FrameTypeAck] in
  let* dst := wire_appendVarint dst (LargestAcked a) in
  let* dst := wire_appendVarint dst (AckDelay a) in
  let* dst := wire_appendVarint dst (RangeCount a) in
  let* dst := wire_appendVarint dst (FirstAckRange a) in
  let count := RangeCount a in
  let* dst := append_ranges (Z.to_nat count) 0 dst a in
  if HasECN a then
    let* dst := wire_appendVarint dst (ECT0 (ECN a)) in
    let* dst := wire_appendVarint dst (ECT1 (ECN a)) in
    wire_appendVarint dst (ECNCE (ECN a))
  else Ok dst.

Definition AppendResetStreamFrame (dst : bytes) (r : ResetStreamFrame) : res unit bytes :=
  let dst := dst ++ [u8 FrameTypeResetStream] in
  let* dst := wire_appendVarint dst (rs_StreamID r) in
  let* dst := wire_appendVarint dst (rs_ErrorCode r) in
  wire_appendVarint dst (rs_FinalSize r).

Definition AppendStopSendingFrame (dst : bytes) (s : StopSendingFrame) : res unit bytes :=
  let dst := dst ++ [u8 FrameTypeStopSending] in
  let* dst := wire_appendVarint dst (ss_StreamID s) in
  wire_appendVarint dst (ss_ErrorCode s).

Definition AppendCryptoFrame (dst : bytes) (c : CryptoFrame) : res unit bytes :=
  let dst := dst ++ [u8 FrameTypeCrypto] in
  let* dst := wire_appendVarint dst (cr_Offset c) in
  let* dst := wire_appendVarint dst (zlen (cr_Data c)) in
  Ok (dst ++ cr_Data c).

Definition AppendNewTokenFrame (dst : bytes) (n : NewTokenFrame) : res unit bytes :=
  let dst := dst ++ [u8 FrameTypeNewToken] in
  let* dst := wire_appendVarint dst (zlen (nt_Token n)) in
  Ok (dst ++ nt_Token n).

Definition AppendStreamFrame (dst : bytes) (s : StreamFrame) : res unit bytes :=
  let typ := u8 FrameTypeStream in
  let typ := if negb (st_Offset s =? 0) then Z.lor typ 0x04 else typ in
  let typ := if st_HasLen s then Z.lor typ 0x02 else typ in
  let typ := if st_Fin s then Z.lor typ 0x01 else typ in
  let dst := dst ++ [typ] in
  let* dst := wire_appendVarint dst (st_StreamID s) in
  let* dst := if negb (st_Offset s =? 0) then wire_appendVarint dst (st_Offset s) else Ok dst in
  let* dst := if st_HasLen s then wire_appendVarint dst (zlen (st_Data s)) else Ok dst in
  Ok (dst ++ st_Data s).

Definition AppendMaxDataFrame (dst : bytes) (m : MaxDataFrame) : res unit bytes :=
  let dst := dst ++ [u8 FrameTypeMaxData] in
  wire_appendVarint dst (md_MaximumData m).

Definition AppendMaxStreamDataFrame (dst : bytes) (m : MaxStreamDataFrame) : res unit bytes :=
  let dst := dst ++ [u8 FrameTypeMaxStreamData] in
  let* dst := wire_appendVarint dst (msd_StreamID m) in
  wire_appendVarint dst (msd_MaximumStreamData m).

Definition AppendMaxStreamsFrame (dst : bytes) (m : MaxStreamsFrame) : res unit bytes :=
  let dst := if ms_Unidirectional m then dst ++ [u8 FrameTypeMaxStreamsUni]
             else dst ++ [u8 FrameTypeMaxStreamsBidi] in
  wire_appendVarint dst (ms_MaxStreams m).

Definition AppendDataBlockedFrame (dst : bytes) (d : DataBlockedFrame) : res unit bytes :=
  let dst := dst ++ [u8 FrameTypeDataBlocked] in
  wire_appendVarint dst (db_MaximumData d).

Definition AppendStreamDataBlockedFrame (dst : bytes) (s : StreamDataBlockedFrame) : res unit bytes :=
  let dst := dst ++ [u8 FrameTypeStreamDataBlocked] in
  let* dst := wire_appendVarint dst (sdb_StreamID s) in
  wire_appendVarint dst (sdb_MaximumStreamData s).

Definition AppendStreamsBlockedFrame (dst : bytes) (s : StreamsBlockedFrame) : res unit bytes :=
  let dst := if sb_Unidirectional s then dst ++ [u8 FrameTypeStreamsBlockedUni]
             else dst ++ [u8 FrameTypeStreamsBlockedBidi] in
  wire_appendVarint dst (sb_StreamLimit s).

Definition AppendNewConnectionIDFrame (dst : bytes) (n : NewConnectionIDFrame) : res unit bytes :=
  let dst := dst ++ [u8 FrameTypeNewConnectionID] in
  let* dst := wire_appendVarint dst (nc_SequenceNumber n) in
  let* dst := wire_appendVarint dst (nc_RetirePriorTo n) in
  let dst := dst ++ [u8 (zlen (nc_ConnID n))] in
  let dst := dst ++ nc_ConnID n in
  Ok (dst ++ nc_StatelessResetToken n).

Definition AppendRetireConnectionIDFrame (dst : bytes) (r : RetireConnectionIDFrame) : res unit bytes :=
  let dst := dst ++ [u8 FrameTypeRetireConnectionID] in
  wire_appendVarint dst (rc_SequenceNumber r).

Definition AppendPathChallengeFrame (dst : bytes) (p : PathChallengeFrame) : bytes :=
  (dst ++ [u8 FrameTypePathChallenge]) ++ pc_Data p.

Definition AppendPathResponseFrame (dst : bytes) (p : PathResponseFrame) : bytes :=
  (dst ++ [u8 FrameTypePathResponse]) ++ pr_Data p.

Definition AppendConnectionCloseFrame (dst : bytes) (c : ConnectionCloseFrame) : res unit bytes :=
  let* dst :=
    if cc_IsApplication c then
      let dst := dst ++ [u8 FrameTypeConnectionCloseApp] in
      wire_appendVarint dst (cc_ErrorCode c)
    else
      let dst := dst ++ [u8 FrameTypeConnectionCloseTransport] in
      let* dst := wire_appendVarint dst (cc_ErrorCode c) in
      wire_appendVarint dst (cc_FrameType c) in
  let* dst := wire_appendVarint dst (zlen (cc_Reason c)) in
  Ok (dst ++ cc_Reason c).

Definition AppendHandshakeDoneFrame (dst : bytes) : bytes := dst ++ [u8 FrameTypeHandshakeDone].

Definition AppendDatagramFrame (dst : bytes) (d : DatagramFrame) : res unit bytes :=
  let* dst :=
    if dg_HasLen d then
      let dst := dst ++ [u8 FrameTypeDatagramWithLen] in
      wire_appendVarint dst (zlen (dg_Data d))
    else Ok (dst ++ [u8 FrameTypeDatagram]) in
  Ok (dst ++ dg_Data d).

Definition AppendFrame (dst : bytes) (f : Frame) : res unit bytes :=
  let t := Type_ f in
  if t =? FrameTypePadding then Ok (AppendPadding dst (PaddingCount f))
  else if t =? FrameTypePing then Ok (AppendPing dst)
  else if (t =? FrameTypeAck) || (t =? FrameTypeAckECN) then AppendAckFrame dst (Ack f)
  else if t =? FrameTypeResetStream then AppendResetStreamFrame dst (ResetStream f)
  else if t =? FrameTypeStopSending then AppendStopSendingFrame dst (StopSending f)
  else if t =? FrameTypeCrypto then AppendCryptoFrame dst (Crypto f)
  else if t =? FrameTypeNewToken then AppendNewTokenFrame dst (NewToken f)
  else if t =? FrameTypeMaxData then AppendMaxDataFrame dst (MaxData f)
  else if t =? FrameTypeMaxStreamData then AppendMaxStreamDataFrame dst (MaxStreamData f)
  else if (t =? FrameTypeMaxStreamsBidi) || (t =? FrameTypeMaxStreamsUni) then
    AppendMaxStreamsFrame dst (MaxStreams f)
  else if t =? FrameTypeDataBlocked then AppendDataBlockedFrame dst (DataBlocked f)
  else if t =? FrameTypeStreamDataBlocked then
    AppendStreamDataBlockedFrame dst (StreamDataBlocked f)
  else if (t =? FrameTypeStreamsBlockedBidi) || (t =? FrameTypeStreamsBlockedUni) then
    AppendStreamsBlockedFrame dst (StreamsBlocked f)
  else if t =? FrameTypeNewConnectionID then AppendNewConnectionIDFrame dst (NewConnectionID f)
  else if t =? FrameTypeRetireConnectionID then
    AppendRetireConnectionIDFrame dst (RetireConnectionID f)
  else if t =? FrameTypePathChallenge then Ok (AppendPathChallengeFrame dst (PathChallenge f))
  else if t =? FrameTypePathResponse then Ok (AppendPathResponseFrame dst (PathResponse f))
  else if (t =? FrameTypeConnectionCloseTransport) || (t =? FrameTypeConnectionCloseApp) then
    AppendConnectionCloseFrame dst (ConnectionClose f)
  else if t =? FrameTypeHandshakeDone then Ok (AppendHandshakeDoneFrame dst)
  else if (t =? FrameTypeDatagram) || (t =? FrameTypeDatagramWithLen) then
    AppendDatagramFrame dst (Datagram f)
  else if (t >=? 0x08) && (t <=? 0x0f) then AppendStreamFrame dst (Stream f)
  else Panic.

(** ** Specification: abstract frames and their wire image *)
Inductive qframe :=
| QPadding (count : Z)
| QPing
| QAck (largest delay first : Z) (ranges : list AckRange) (ecn : option ECNCounts)
| QResetStream (r : ResetStreamFrame)
| QStopSending (s : StopSendingFrame)
| QCrypto (c : CryptoFrame)
| QNewToken (n : NewTokenFrame)
| QStream (s : StreamFrame)
| QMaxData (m : MaxDataFrame)
| QMaxStreamData (m : MaxStreamDataFrame)
| QMaxStreams (m : MaxStreamsFrame)
| QDataBlocked (d : DataBlockedFrame)
| QStreamDataBlocked (s : StreamDataBlockedFrame)
| QStreamsBlocked (s : StreamsBlockedFrame)
| QNewConnectionID (n : NewConnectionIDFrame)
| QRetireConnectionID (r : RetireConnectionIDFrame)
| QPathChallenge (p : PathChallengeFrame)
| QPathResponse (p : PathResponseFrame)
| QConnectionClose (c : ConnectionCloseFrame)
| QHandshakeDone
| QDatagram (d : DatagramFrame).

(** The ACK ranges an [AckFrame] stands for, in order. *)
Definition ack_ranges (a : AckFrame) : list AckRange :=
  ztake (NumInlineRanges a) (InlineRanges a) ++ ExtraRanges a.

(** The type byte of a STREAM frame is determined by its contents. *)
Definition stream_type (s : StreamFrame) : Z :=
  0x08 + (if st_Offset s =? 0 then 0 else 4) + (if st_HasLen s then 2 else 0)
  + (if st_Fin s then 1 else 0).

(** What a [Frame] means: the abstract frame named by its [Type], or nothing
    when the type is unknown or disagrees with the contents. *)
Definition view (f : Frame) : option qframe :=
  let t := Type_ f in
  let guard (b : bool) (q : qframe) := if b then Some q else None in
  if t =? FrameTypePadding then Some (QPadding (PaddingCount f))
  else if t =? FrameTypePing then Some QPing
  else if (t =? FrameTypeAck) || (t =? FrameTypeAckECN) then
    guard (Bool.eqb (HasECN (Ack f)) (t =? FrameTypeAckECN))
      (QAck (LargestAcked (Ack f)) (AckDelay (Ack f)) (FirstAckRange (Ack f))
         (ack_ranges (Ack f)) (if HasECN (Ack f) then Some (ECN (Ack f)) else None))
  else if t =? FrameTypeResetStream then Some (QResetStream (ResetStream f))
  else if t =? FrameTypeStopSending then Some (QStopSending (StopSending f))
  else if t =? FrameTypeCrypto then Some (QCrypto (Crypto f))
  else if t =? FrameTypeNewToken then Some (QNewToken (NewToken f))
  else if (8 <=? t) && (t <=? 15) then Some (QStream (Stream f))
  else if t =? FrameTypeMaxData then Some (QMaxData (MaxData f))
  else if t =? FrameTypeMaxStreamData then Some (QMaxStreamData (MaxStreamData f))
  else if (t =? FrameTypeMaxStreamsBidi) || (t =? FrameTypeMaxStreamsUni) then
    guard (Bool.eqb (ms_Unidirectional (MaxStreams f)) (t =? FrameTypeMaxStreamsUni))
      (QMaxStreams (MaxStreams f))
  else if t =? FrameTypeDataBlocked then Some (QDataBlocked (DataBlocked f))
  else if t =? FrameTypeStreamDataBlocked then Some (QStreamDataBlocked (StreamDataBlocked f))
  else if (t =? FrameTypeStreamsBlockedBidi) || (t =? FrameTypeStreamsBlockedUni) then
    guard (Bool.eqb (sb_Unidirectional (StreamsBlocked f)) (t =? FrameTypeStreamsBlockedUni))
      (QStreamsBlocked (StreamsBlocked f))
  else if t =? FrameTypeNewConnectionID then Some (QNewConnectionID (NewConnectionID f))
  else if t =? FrameTypeRetireConnectionID then Some (QRetireConnectionID (RetireConnectionID f))
  else if t =? FrameTypePathChallenge then Some (QPathChallenge (PathChallenge f))
  else if t =? FrameTypePathResponse then Some (QPathResponse (PathResponse f))
  else if (t =? FrameTypeConnectionCloseTransport) || (t =? FrameTypeConnectionCloseApp) then
    guard (Bool.eqb (cc_IsApplication (ConnectionClose f)) (t =? FrameTypeConnectionCloseApp))
      (QConnectionClose (ConnectionClose f))
  else if t =? FrameTypeHandshakeDone then Some QHandshakeDone
  else if (t =? FrameTypeDatagram) || (t =? FrameTypeDatagramWithLen) then
    guard (Bool.eqb (dg_HasLen (Datagram f)) (t =? FrameTypeDatagramWithLen))
      (QDatagram (Datagram f))
  else None.

Definition enc_ranges (l : list AckRange) : bytes :=
  concat (map (fun r => vi_enc (Gap r) ++ vi_enc (Length r)) l).
Definition enc_block (l : bytes) : bytes := vi_enc (zlen l) ++ l.

(** The wire image, straight from RFC 9000 section 19. *)
Definition qenc (q : qframe) : bytes :=
  match q with
  | QPadding n => replicate (Z.to_nat n) 0
  | QPing => [0x01]
  | QAck la d fr rs ecn =>
      (match ecn with Some _ => 0x03 | None => 0x02 end) :: vi_enc la ++ vi_enc d ++ vi_enc (zlen rs) ++ vi_enc fr
        ++ enc_ranges rs
        ++ match ecn with
           | Some e => vi_enc (ECT0 e) ++ vi_enc (ECT1 e) ++ vi_enc (ECNCE e)
           | None => []
           end
  | QResetStream r => 0x04 :: vi_enc (rs_StreamID r) ++ vi_enc (rs_ErrorCode r) ++ vi_enc (rs_FinalSize r)
  | QStopSending s => 0x05 :: vi_enc (ss_StreamID s) ++ vi_enc (ss_ErrorCode s)
  | QCrypto c => 0x06 :: vi_enc (cr_Offset c) ++ enc_block (cr_Data c)
  | QNewToken n => 0x07 :: enc_block (nt_Token n)
  | QStream s =>
      stream_type s :: vi_enc (st_StreamID s)
        ++ (if st_Offset s =? 0 then [] else vi_enc (st_Offset s))
        ++ (if st_HasLen s then enc_block (st_Data s) else st_Data s)
  | QMaxData m => 0x10 :: vi_enc (md_MaximumData m)
  | QMaxStreamData m => 0x11 :: vi_enc (msd_StreamID m) ++ vi_enc (msd_MaximumStreamData m)
  | QMaxStreams m => (if ms_Unidirectional m then 0x13 else 0x12) :: vi_enc (ms_MaxStreams m)
  | QDataBlocked d => 0x14 :: vi_enc (db_MaximumData d)
  | QStreamDataBlocked s => 0x15 :: vi_enc (sdb_StreamID s) ++ vi_enc (sdb_MaximumStreamData s)
  | QStreamsBlocked s => (if sb_Unidirectional s then 0x17 else 0x16) :: vi_enc (sb_StreamLimit s)
  | QNewConnectionID n =>
      0x18 :: vi_enc (nc_SequenceNumber n) ++ vi_enc (nc_RetirePriorTo n)
        ++ [zlen (nc_ConnID n)] ++ nc_ConnID n ++ nc_StatelessResetToken n
  | QRetireConnectionID r => 0x19 :: vi_enc (rc_SequenceNumber r)
  | QPathChallenge p => 0x1a :: pc_Data p
  | QPathResponse p => 0x1b :: pr_Data p
  | QConnectionClose c =>
      (if cc_IsApplication c then 0x1d else 0x1c) :: vi_enc (cc_ErrorCode c)
        ++ (if cc_IsApplication c then [] else vi_enc (cc_FrameType c)) ++ enc_block (cc_Reason c)
  | QHandshakeDone => [0x1e]
  | QDatagram d =>
      (if dg_HasLen d then 0x31 else 0x30)
        :: (if dg_HasLen d then enc_block (dg_Data d) else dg_Data d)
  end.

(** Frames that can be put on the wire: every integer fits a varint, every
    fixed-size array has its size, byte strings hold bytes.  Slices are
    bounded by memory (2^62 bytes is far beyond any Go slice). *)
Definition block_ok (l : bytes) : Prop := bytes_ok l /\ vi_ok (zlen l).
Definition range_ok (r : AckRange) : Prop := vi_ok (Gap r) /\ vi_ok (Length r).
Definition qframe_ok (q : qframe) : Prop :=
  match q with
  | QPadding n => 0 < n
  | QPing | QHandshakeDone => True
  | QAck la d fr rs ecn =>
      vi_ok la /\ vi_ok d /\ vi_ok fr /\ fr <= la /\ vi_ok (zlen rs) /\ Forall range_ok rs
      /\ match ecn with
         | Some e => vi_ok (ECT0 e) /\ vi_ok (ECT1 e) /\ vi_ok (ECNCE e)
         | None => True
         end
  | QResetStream r => vi_ok (rs_StreamID r) /\ vi_ok (rs_ErrorCode r) /\ vi_ok (rs_FinalSize r)
  | QStopSending s => vi_ok (ss_StreamID s) /\ vi_ok (ss_ErrorCode s)
  | QCrypto c => vi_ok (cr_Offset c) /\ block_ok (cr_Data c)
  | QNewToken n => block_ok (nt_Token n)
  | QStream s => vi_ok (st_StreamID s) /\ vi_ok (st_Offset s) /\ block_ok (st_Data s)
  | QMaxData m => vi_ok (md_MaximumData m)
  | QMaxStreamData m => vi_ok (msd_StreamID m) /\ vi_ok (msd_MaximumStreamData m)
  | QMaxStreams m => vi_ok (ms_MaxStreams m)
  | QDataBlocked d => vi_ok (db_MaximumData d)
  | QStreamDataBlocked s => vi_ok (sdb_StreamID s) /\ vi_ok (sdb_MaximumStreamData s)
  | QStreamsBlocked s => vi_ok (sb_StreamLimit s)
  | QNewConnectionID n =>
      vi_ok (nc_SequenceNumber n) /\ vi_ok (nc_RetirePriorTo n) /\ bytes_ok (nc_ConnID n)
      /\ 1 <= zlen (nc_ConnID n) <= 20
      /\ bytes_ok (nc_StatelessResetToken n) /\ zlen (nc_StatelessResetToken n) = 16
  | QRetireConnectionID r => vi_ok (rc_SequenceNumber r)
  | QPathChallenge p => bytes_ok (pc_Data p) /\ zlen (pc_Data p) = 8
  | QPathResponse p => bytes_ok (pr_Data p) /\ zlen (pr_Data p) = 8
  | QConnectionClose c =>
      vi_ok (cc_ErrorCode c) /\ vi_ok (cc_FrameType c) /\ block_ok (cc_Reason c)
      /\ (cc_IsApplication c = true -> cc_FrameType c = 0)
  | QDatagram d => block_ok (dg_Data d)
  end.

(** A frame without a length field extends to the end of the packet, and a run
    of PADDING is maximal, so these constrain what may follow. *)
Definition rest_ok (q : qframe) (rest : bytes) : Prop :=
  match q with
  | QPadding _ => match rest with 0 :: _ => False | _ => True end
  | QStream s => st_HasLen s = true \/ rest = []
  | QDatagram d => dg_HasLen d = true \/ rest = []
  | _ => True
  end.

(** Go's typing invariant of [InlineRanges [8]AckRange] with its counter. *)
Definition ack_typed (a : AckFrame) : Prop :=
  length (InlineRanges a) = 8%nat /\ 0 <= NumInlineRanges a <= 8
  /\ (ExtraRanges a <> [] -> NumInlineRanges a = 8).

(** ** Lemmas on the serializer *)
Lemma AppendPadding_loop_spec fuel : forall dst count,
  count <= Z.of_nat fuel ->
  AppendPadding_loop fuel dst count = dst ++ replicate (Z.to_nat count) 0.
Proof.
  induction fuel as [|fuel IH]; intros dst count Hf.
  - cbn [AppendPadding_loop]. replace (Z.to_nat count) with 0%nat by lia. by rewrite app_nil_r.
  - cbn [AppendPadding_loop]. case_test.
    + set (n := if count >? zlen zeroBuf then zlen zeroBuf else count).
      assert (Hn : 1 <= n <= 64 /\ n <= count).
      { unfold n. change (zlen zeroBuf) with 64. case_test; lia. }
      rewrite IH by lia. rewrite <- app_assoc. f_equal.
      unfold ztake, zeroBuf. rewrite take_replicate, <- replicate_add. f_equal. lia.
    + replace (Z.to_nat count) with 0%nat by lia. by rewrite app_nil_r.
Qed.

Lemma AppendPadding_spec dst count :
  AppendPadding dst count = dst ++ replicate (Z.to_nat count) 0.
Proof. apply AppendPadding_loop_spec. lia. Qed.

Lemma ack_ranges_length a : ack_typed a -> zlen (ack_ranges a) = RangeCount a.
Proof.
  intros (Hl & Hn & _). unfold ack_ranges, RangeCount. rewrite zlen_app, zlen_ztake; [done|].
  unfold zlen. lia.
Qed.

Lemma Range_lookup a i :
  ack_typed a -> 0 <= i < RangeCount a ->
  exists r, Range a i = Ok r /\ ack_ranges a !! Z.to_nat i = Some r.
Proof.
  intros Ht Hi. pose proof (ack_ranges_length a Ht) as Hlen.
  destruct (lookup_lt_is_Some_2 (ack_ranges a) (Z.to_nat i)) as [r Hr].
  { unfold zlen in Hlen. lia. }
  exists r. split; [|done]. destruct Ht as (Hl & Hn & _). unfold Range, list_at, ack_ranges in *.
  case_test.
  - test_true (0 <=? i). rewrite lookup_app_l in Hr by (unfold ztake; rewrite length_take; lia).
    unfold ztake in Hr. rewrite lookup_take_lt in Hr by lia. by rewrite Hr.
  - test_true (0 <=? i - NumInlineRanges a).
    rewrite lookup_app_r in Hr by (unfold ztake; rewrite length_take; lia).
    unfold ztake in Hr. rewrite length_take in Hr.
    replace (Z.to_nat i - Z.to_nat (NumInlineRanges a) `min` length (InlineRanges a))%nat
      with (Z.to_nat (i - NumInlineRanges a)) in Hr by lia.
    by rewrite Hr.
Qed.

Lemma append_ranges_spec a k : forall i dst,
  ack_typed a -> Forall range_ok (ack_ranges a) ->
  0 <= i -> i + Z.of_nat k = RangeCount a ->
  append_ranges k i dst a = Ok (dst ++ enc_ranges (drop (Z.to_nat i) (ack_ranges a))).
Proof.
  induction k as [|k IH]; intros i dst Ht Hok Hi Hk.
  - cbn [append_ranges]. rewrite drop_ge; [cbn; by rewrite app_nil_r|].
    pose proof (ack_ranges_length a Ht). unfold zlen in *. lia.
  - cbn [append_ranges]. destruct (Range_lookup a i Ht ltac:(lia)) as (r & -> & Hr).
    cbn [res_bind]. assert (Hrok : range_ok r).
    { by eapply Forall_lookup_1 in Hr. }
    destruct Hrok. rewrite !wire_append_enc by done. cbn [res_bind].
    rewrite wire_append_enc by done. cbn [res_bind]. rewrite IH by (try done; lia).
    rewrite (drop_S _ _ _ Hr). replace (Z.to_nat (i + 1)) with (S (Z.to_nat i)) by lia.
    unfold enc_ranges. cbn [map concat]. by rewrite !app_assoc.
Qed.

Ltac wire_steps :=
  repeat (rewrite wire_append_enc by done; cbn [res_bind]).

Lemma AppendStreamFrame_spec dst s :
  qframe_ok (QStream s) -> AppendStreamFrame dst s = Ok (dst ++ qenc (QStream s)).
Proof.
  intros (Hid & Hoff & Hdata & Hlen). unfold AppendStreamFrame. wire_steps.
  cbn [qenc]. unfold stream_type, enc_block.
  destruct (st_Offset s =? 0), (st_HasLen s), (st_Fin s); cbn [negb res_bind]; wire_steps;
    by rewrite <- ?app_assoc.
Qed.

Lemma AppendAckFrame_spec dst a :
  ack_typed a ->
  let q := QAck (LargestAcked a) (AckDelay a) (FirstAckRange a) (ack_ranges a)
             (if HasECN a then Some (ECN a) else None) in
  qframe_ok q -> AppendAckFrame dst a = Ok (dst ++ qenc q).
Proof.
  intros Ht q (Hla & Hd & Hfr & _ & Hn & Hrs & Hecn). unfold AppendAckFrame, q.
  cbn [qenc]. pose proof (ack_ranges_length a Ht) as Hlen. rewrite Hlen in *. wire_steps.
  assert (0 <= RangeCount a) by (rewrite <- Hlen; apply zlen_nonneg).
  rewrite append_ranges_spec by (try done; lia). cbn [res_bind]. change (Z.to_nat 0) with 0%nat.
  rewrite drop_0. destruct (HasECN a).
  - destruct Hecn as (? & ? & ?). wire_steps. rewrite <- !app_assoc. done.
  - rewrite app_nil_r, <- !app_assoc. done.
Qed.

Lemma or_type_cases (t a b : Z) : (t =? a) || (t =? b) = true -> t = a \/ t = b.
Proof. rewrite orb_true_iff, !Z.eqb_eq. done. Qed.

(** The serializers of the frames whose layout is a plain sequence of fields. *)
Lemma AppendSimple_spec dst :
  (forall r, qframe_ok (QResetStream r) ->
     AppendResetStreamFrame dst r = Ok (dst ++ qenc (QResetStream r)))
  /\ (forall s, qframe_ok (QStopSending s) ->
     AppendStopSendingFrame dst s = Ok (dst ++ qenc (QStopSending s)))
  /\ (forall c, qframe_ok (QCrypto c) -> AppendCryptoFrame dst c = Ok (dst ++ qenc (QCrypto c)))
  /\ (forall n, qframe_ok (QNewToken n) ->
     AppendNewTokenFrame dst n = Ok (dst ++ qenc (QNewToken n)))
  /\ (forall m, qframe_ok (QMaxData m) -> AppendMaxDataFrame dst m = Ok (dst ++ qenc (QMaxData m)))
  /\ (forall m, qframe_ok (QMaxStreamData m) ->
     AppendMaxStreamDataFrame dst m = Ok (dst ++ qenc (QMaxStreamData m)))
  /\ (forall m, qframe_ok (QMaxStreams m) ->
     AppendMaxStreamsFrame dst m = Ok (dst ++ qenc (QMaxStreams m)))
  /\ (forall d, qframe_ok (QDataBlocked d) ->
     AppendDataBlockedFrame dst d = Ok (dst ++ qenc (QDataBlocked d)))
  /\ (forall s, qframe_ok (QStreamDataBlocked s) ->
     AppendStreamDataBlockedFrame dst s = Ok (dst ++ qenc (QStreamDataBlocked s)))
  /\ (forall s, qframe_ok (QStreamsBlocked s) ->
     AppendStreamsBlockedFrame dst s = Ok (dst ++ qenc (QStreamsBlocked s)))
  /\ (forall n, qframe_ok (QNewConnectionID n) ->
     AppendNewConnectionIDFrame dst n = Ok (dst ++ qenc (QNewConnectionID n)))
  /\ (forall r, qframe_ok (QRetireConnectionID r) ->
     AppendRetireConnectionIDFrame dst r = Ok (dst ++ qenc (QRetireConnectionID r)))
  /\ (forall c, qframe_ok (QConnectionClose c) ->
     AppendConnectionCloseFrame dst c = Ok (dst ++ qenc (QConnectionClose c)))
  /\ (forall d, qframe_ok (QDatagram d) ->
     AppendDatagramFrame dst d = Ok (dst ++ qenc (QDatagram d))).
Proof.
  split_and!; intros x; cbn [qframe_ok qenc]; unfold block_ok, enc_block; intros; destruct_and?;
    cbv beta delta [AppendResetStreamFrame AppendStopSendingFrame AppendCryptoFrame
      AppendNewTokenFrame AppendMaxDataFrame AppendMaxStreamDataFrame AppendMaxStreamsFrame
      AppendDataBlockedFrame AppendStreamDataBlockedFrame AppendStreamsBlockedFrame
      AppendNewConnectionIDFrame AppendRetireConnectionIDFrame AppendConnectionCloseFrame
      AppendDatagramFrame] zeta;
    try match goal with |- context [if ?b then _ else _] => destruct b end;
    cbn [res_bind]; wire_steps; rewrite <- ?app_assoc; try done.
  rewrite (u8_small (zlen _)) by (unfold is_byte; lia). done.
Qed.

(** The serializer refines the specification: a well-formed frame is appended
    as exactly its wire image, and nothing panics. *)
Lemma AppendFrame_qenc dst f q :
  view f = Some q -> qframe_ok q -> ack_typed (Ack f) ->
  AppendFrame dst f = Ok (dst ++ qenc q).
Proof.
  intros Hv Hok Ht. unfold view in Hv. cbv zeta in Hv.
  repeat (case_hyp Hv;
    [ repeat match goal with
      | E : (_ =? _) || (_ =? _) = true |- _ => apply or_type_cases in E as [E|E]
      end;
      match goal with
      | E : Type_ f = _ |- _ =>
          unfold AppendFrame; cbv zeta; revert Hv; rewrite E; eval_tests; intros Hv
      | E : 8 <= Type_ f |- _ => idtac
      end;
      try (case_hyp Hv; [|done]);
      injection Hv as <-;
      first [ by rewrite AppendPadding_spec | done
            | by apply AppendAckFrame_spec | by apply AppendSimple_spec
            | by unfold AppendPathChallengeFrame, AppendPathResponseFrame; rewrite <- app_assoc
            | idtac ]
    |]).
  2: done.
  unfold AppendFrame, FrameTypePadding, FrameTypePing in *. cbv zeta.
  unfold FrameTypePadding, FrameTypePing, FrameTypeAck, FrameTypeAckECN, FrameTypeResetStream,
    FrameTypeStopSending, FrameTypeCrypto, FrameTypeNewToken, FrameTypeMaxData,
    FrameTypeMaxStreamData, FrameTypeMaxStreamsBidi, FrameTypeMaxStreamsUni, FrameTypeDataBlocked,
    FrameTypeStreamDataBlocked, FrameTypeStreamsBlockedBidi, FrameTypeStreamsBlockedUni,
    FrameTypeNewConnectionID, FrameTypeRetireConnectionID, FrameTypePathChallenge,
    FrameTypePathResponse, FrameTypeConnectionCloseTransport, FrameTypeConnectionCloseApp,
    FrameTypeHandshakeDone, FrameTypeDatagram, FrameTypeDatagramWithLen.
  repeat match goal with
  | |- context [Type_ f =? ?c] => test_false (Type_ f =? c)
  end.
  cbn [orb]. rewrite Z.geb_leb. test_true ((8 <=? Type_ f) && (Type_ f <=? 15)).
  by apply AppendStreamFrame_spec.
Qed.
