(* ===== verification/WireParser.v ===== *)
(** * QUIC frame parser (RFC 9000 section 19)

    Models [src/net/quic/core/wire/frame_parser.go]: [ParseNextFrame], one
    definition per frame type, and the iterator [Frames].  The parser works on
    the packet [b], a read offset and the reused [Frame], threaded through a
    small state-and-error monad; a Go slice expression that would be out of
    range panics.  The theorems: the parser inverts the serializer, it never
    panics and never runs past the packet on any input, whatever it accepts can
    be serialized and parsed back to the same frame, and the iterator walks a
    serialized packet frame by frame. *)

From S2P Require Import Prelude Varint WireFrames.

(** Sentinel errors of core/wire/errors.go and [io.EOF]. *)
Inductive wire_error :=
| io_EOF
| ErrTruncatedPacket
| ErrTruncatedHeader
| ErrTruncatedFrame
| ErrInvalidFixedBit
| ErrInvalidReservedBits
| ErrInvalidPacketNumber
| ErrInvalidVersion
| ErrInvalidConnectionIDLen
| ErrInvalidFrameType
| ErrSampleOutOfBounds
| ErrDecryptionFailed.

(** ** The parser monad: read offset and frame under construction *)
#[projections(primitive)]
Record pst := mkPst { p_off : Z; p_frame : Frame }.

Definition PM (A : Type) : Type := bytes -> pst -> pst * res wire_error A.

Definition pret {A} (a : A) : PM A := fun _ s => (s, Ok a).
Definition pfail {A} (e : wire_error) : PM A := fun _ s => (s, Err e).
Definition pbind {A B} (m : PM A) (k : A -> PM B) : PM B := fun b s =>
  let '(s', r) := m b s in
  match r with
  | Ok a => k a b s'
  | Err e => (s', Err e)
  | Panic => (s', Panic)
  end.
Notation "'let!' x ':=' m 'in' k" := (pbind m (fun x => k))
  (at level 10, x pattern, m at level 100, k at level 200) : mach_scope.
Notation "m ';!' k" := (pbind m (fun _ => k))
  (at level 100, k at level 200, right associativity) : mach_scope.

Definition modify (g : Frame -> Frame) : PM unit := fun _ s =>
  ({ s with p_frame := g (p_frame s) }, Ok tt).

(** [x, n, err := varint.Decode(b[offset:])] with its error return and
    [offset += n]. *)
Definition next_varint : PM Z := fun b s =>
  match slice b (p_off s) (zlen b) with
  | Ok rest =>
      match Varint.Decode rest with
      | Ok (v, n) => ({ s with p_off := p_off s + n }, Ok v)
      | Err _ => (s, Err ErrTruncatedFrame)
      | Panic => (s, Panic)
      end
  | Err e => (s, Err e)
  | Panic => (s, Panic)
  end.

(** [if uint64(len(b)-offset) < length { error }], then
    [b[offset : offset+int(length)]] and [offset += int(length)]. *)
Definition next_block (length : Z) : PM bytes := fun b s =>
  if u64 (zlen b - p_off s) <? length then (s, Err ErrTruncatedFrame)
  else
    match slice b (p_off s) (p_off s + length) with
    | Ok data => ({ s with p_off := p_off s + length }, Ok data)
    | Err e => (s, Err e)
    | Panic => (s, Panic)
    end.

(** [if len(b) < offset+n { error }], then [copy(dst, b[offset:offset+n])]. *)
Definition next_array (n : Z) : PM bytes := fun b s =>
  if zlen b <? p_off s + n then (s, Err ErrTruncatedFrame)
  else
    match slice b (p_off s) (p_off s + n) with
    | Ok data => ({ s with p_off := p_off s + n }, Ok data)
    | Err e => (s, Err e)
    | Panic => (s, Panic)
    end.

(** [data = b[offset:]; offset = len(b)]. *)
Definition take_rest : PM bytes := fun b s =>
  match slice b (p_off s) (zlen b) with
  | Ok data => ({ s with p_off := zlen b }, Ok data)
  | Err e => (s, Err e)
  | Panic => (s, Panic)
  end.

(** ** One parser per frame type *)

(** STREAM, types 0x08 to 0x0f. *)
Definition parse_stream (rawType : Z) : PM unit :=
  modify (fun f => { f with Type_ := rawType }) ;!
  let hasOff := negb (Z.land rawType 0x04 =? 0) in
  let hasLen := negb (Z.land rawType 0x02 =? 0) in
  let fin := negb (Z.land rawType 0x01 =? 0) in
  let! streamID := next_varint in
  let! streamOffset := (if hasOff then next_varint else pret 0) in
  let! data :=
    (if hasLen then let! dataLen := next_varint in next_block dataLen else take_rest) in
  modify (fun f => { f with Stream := mkStreamFrame streamID streamOffset fin hasLen data }).

(** The loop over the ACK ranges, [i] counting up to [rangeCount].  An
    iteration that succeeds consumes at least two bytes, so a fuel of one more
    than the packet length is never exhausted; exhaustion would be reported as
    a panic, which [parse_never_panics] excludes. *)
Fixpoint parse_ranges (fuel : nat) (i rangeCount : Z) : PM unit :=
  match fuel with
  | O => fun _ s => (s, Panic)
  | S fuel' =>
      if i <? rangeCount then
        let! gap := next_varint in
        let! length := next_varint in
        modify (fun f => { f with Ack := AppendRange (Ack f) gap length }) ;!
        parse_ranges fuel' (i + 1) rangeCount
      else pret tt
  end.

Definition parse_ack (typ : Z) : PM unit := fun b s =>
  (let! largestAcked := next_varint in
   let! ackDelay := next_varint in
   let! rangeCount := next_varint in
   let! firstRange := next_varint in
   if firstRange >? largestAcked then pfail ErrTruncatedFrame
   else
     modify (fun f => { f with Ack -> LargestAcked := largestAcked; Ack -> AckDelay := ackDelay;
                               Ack -> FirstAckRange := firstRange }) ;!
     parse_ranges (S (length b)) 0 rangeCount ;!
     if typ =? FrameTypeAckECN then
       modify (fun f => { f with Ack -> HasECN := true }) ;!
       let! ect0 := next_varint in
       let! ect1 := next_varint in
       let! ecnce := next_varint in
       modify (fun f => { f with Ack -> ECN := mkECNCounts ect0 ect1 ecnce })
     else pret tt) b s.

Definition parse_reset_stream : PM unit :=
  let! streamID := next_varint in
  let! errorCode := next_varint in
  let! finalSize := next_varint in
  modify (fun f => { f with ResetStream := mkResetStreamFrame streamID errorCode finalSize }).

Definition parse_stop_sending : PM unit :=
  let! streamID := next_varint in
  let! errorCode := next_varint in
  modify (fun f => { f with StopSending := mkStopSendingFrame streamID errorCode }).

Definition parse_crypto : PM unit :=
  let! cryptoOffset := next_varint in
  let! length := next_varint in
  let! data := next_block length in
  modify (fun f => { f with Crypto := mkCryptoFrame cryptoOffset data }).

Definition parse_new_token : PM unit :=
  let! length := next_varint in
  let! data := next_block length in
  modify (fun f => { f with NewToken := mkNewTokenFrame data }).

Definition parse_max_data : PM unit :=
  let! maxData := next_varint in
  modify (fun f => { f with MaxData := mkMaxDataFrame maxData }).

Definition parse_max_stream_data : PM unit :=
  let! streamID := next_varint in
  let! maxStreamData := next_varint in
  modify (fun f => { f with MaxStreamData := mkMaxStreamDataFrame streamID maxStreamData }).

Definition parse_max_streams (typ : Z) : PM unit :=
  let! maxStreams := next_varint in
  modify (fun f => { f with MaxStreams := mkMaxStreamsFrame maxStreams (typ =? FrameTypeMaxStreamsUni) }).

Definition parse_data_blocked : PM unit :=
  let! maxData := next_varint in
  modify (fun f => { f with DataBlocked := mkDataBlockedFrame maxData }).

Definition parse_stream_data_blocked : PM unit :=
  let! streamID := next_varint in
  let! maxStreamData := next_varint in
  modify (fun f => { f with StreamDataBlocked := mkStreamDataBlockedFrame streamID maxStreamData }).

Definition parse_streams_blocked (typ : Z) : PM unit :=
  let! streamLimit := next_varint in
  modify (fun f => { f with StreamsBlocked :=
    mkStreamsBlockedFrame streamLimit (typ =? FrameTypeStreamsBlockedUni) }).

(** NEW_CONNECTION_ID reads a length byte, checks it together with the room
    for the identifier and the token, then fills the struct field by field. *)
Definition parse_new_connection_id : PM unit :=
  let! seq := next_varint in
  let! retirePriorTo := next_varint in
  let! lenByte := next_array 1 in
  let cidLen := znth lenByte 0 in
  (fun b s =>
     if (cidLen <? 1) || (cidLen >? 20) || (zlen b <? p_off s + cidLen + 16)
     then (s, Err ErrTruncatedFrame)
     else
       (let! connID := next_array cidLen in
        modify (fun f => { f with NewConnectionID -> nc_SequenceNumber := seq;
                                  NewConnectionID -> nc_RetirePriorTo := retirePriorTo;
                                  NewConnectionID -> nc_ConnID := connID }) ;!
        let! token := next_array 16 in
        modify (fun f => { f with NewConnectionID -> nc_StatelessResetToken := token })) b s).

Definition parse_retire_connection_id : PM unit :=
  let! seq := next_varint in
  modify (fun f => { f with RetireConnectionID := mkRetireConnectionIDFrame seq }).

Definition parse_path_challenge : PM unit :=
  let! data := next_array 8 in
  modify (fun f => { f with PathChallenge := mkPathChallengeFrame data }).

Definition parse_path_response : PM unit :=
  let! data := next_array 8 in
  modify (fun f => { f with PathResponse := mkPathResponseFrame data }).

Definition parse_connection_close (typ : Z) : PM unit :=
  let! errorCode := next_varint in
  let! triggerFrameType :=
    (if typ =? FrameTypeConnectionCloseTransport then next_varint else pret 0) in
  let! reasonLen := next_varint in
  let! reason := next_block reasonLen in
  modify (fun f => { f with ConnectionClose :=
    mkConnectionCloseFrame (typ =? FrameTypeConnectionCloseApp) errorCode triggerFrameType reason }).

Definition parse_datagram (typ : Z) : PM unit :=
  if typ =? FrameTypeDatagramWithLen then
    let! dataLen := next_varint in
    let! data := next_block dataLen in
    modify (fun f => { f with Datagram := mkDatagramFrame true data })
  else
    let! data := take_rest in
    modify (fun f => { f with Datagram := mkDatagramFrame false data }).

(** The dispatcher on the frame type. *)
Definition parse_body (rawType : Z) : PM unit :=
  if (rawType >=? 0x08) && (rawType <=? 0x0f) then parse_stream rawType
  else
    let typ := rawType in
    modify (fun f => { f with Type_ := typ }) ;!
    if typ =? FrameTypePing then pret tt
    else if (typ =? FrameTypeAck) || (typ =? FrameTypeAckECN) then parse_ack typ
    else if typ =? FrameTypeResetStream then parse_reset_stream
    else if typ =? FrameTypeStopSending then parse_stop_sending
    else if typ =? FrameTypeCrypto then parse_crypto
    else if typ =? FrameTypeNewToken then parse_new_token
    else if typ =? FrameTypeMaxData then parse_max_data
    else if typ =? FrameTypeMaxStreamData then parse_max_stream_data
    else if (typ =? FrameTypeMaxStreamsBidi) || (typ =? FrameTypeMaxStreamsUni) then
      parse_max_streams typ
    else if typ =? FrameTypeDataBlocked then parse_data_blocked
    else if typ =? FrameTypeStreamDataBlocked then parse_stream_data_blocked
    else if (typ =? FrameTypeStreamsBlockedBidi) || (typ =? FrameTypeStreamsBlockedUni) then
      parse_streams_blocked typ
    else if typ =? FrameTypeNewConnectionID then parse_new_connection_id
    else if typ =? FrameTypeRetireConnectionID then parse_retire_connection_id
    else if typ =? FrameTypePathChallenge then parse_path_challenge
    else if typ =? FrameTypePathResponse then parse_path_response
    else if (typ =? FrameTypeConnectionCloseTransport) || (typ =? FrameTypeConnectionCloseApp) then
      parse_connection_close typ
    else if typ =? FrameTypeHandshakeDone then pret tt
    else if (typ =? FrameTypeDatagram) || (typ =? FrameTypeDatagramWithLen) then
      parse_datagram typ
    else pfail ErrInvalidFrameType.

(** The PADDING fast path: length of the leading run of zero bytes. *)
Fixpoint count_zeros (b : bytes) : Z :=
  match b with
  | x :: b' => if x =? 0 then 1 + count_zeros b' else 0
  | [] => 0
  end.

(** [ParseNextFrame]: the frame it leaves behind and the number of bytes
    consumed, or the error. *)
Definition ParseNextFrame (b : bytes) (f : Frame) : Frame * res wire_error Z :=
  match b with
  | [] => (f, Err io_EOF)
  | b0 :: _ =>
      if b0 =? 0 then
        let f := Frame_Reset f in
        let padCount := count_zeros b in
        ({ f with Type_ := FrameTypePadding; PaddingCount := padCount }, Ok padCount)
      else
        match Varint.Decode b with
        | Ok (rawType, n) =>
            let '(s, r) := parse_body rawType b (mkPst n (Frame_Reset f)) in
            (p_frame s, let* _ := r in Ok (p_off s))
        | _ => (f, Err ErrTruncatedFrame)
        end
  end.

(** [Frames]: the push iterator over a packet payload.  The consumer receives
    either the shared frame or the error that ends the iteration. *)
Fixpoint Frames_loop {St} (fuel : nat) (yield : St -> Frame + wire_error -> St * bool)
    (payload : bytes) (f : Frame) (s : St) : St :=
  match fuel with
  | O => s
  | S fuel' =>
      if 0 <? zlen payload then
        let '(f', r) := ParseNextFrame payload f in
        match r with
        | Ok n =>
            let '(s', more) := yield s (inl f') in
            if negb more then s'
            else Frames_loop fuel' yield (zdrop n payload) f' s'
        | Err e => fst (yield s (inr e))
        | Panic => s
        end
      else s
  end.

Definition zero_ack : AckFrame :=
  mkAckFrame 0 0 0 (replicate 8 (mkAckRange 0 0)) 0 [] false (mkECNCounts 0 0 0).
Definition zero_frame : Frame :=
  mkFrame 0 0 zero_ack (mkResetStreamFrame 0 0 0) (mkStopSendingFrame 0 0) (mkCryptoFrame 0 [])
    (mkNewTokenFrame []) (mkStreamFrame 0 0 false false []) (mkMaxDataFrame 0)
    (mkMaxStreamDataFrame 0 0) (mkMaxStreamsFrame 0 false) (mkDataBlockedFrame 0)
    (mkStreamDataBlockedFrame 0 0) (mkStreamsBlockedFrame 0 false)
    (mkNewConnectionIDFrame 0 0 [] (replicate 16 0)) (mkRetireConnectionIDFrame 0)
    (mkPathChallengeFrame (replicate 8 0)) (mkPathResponseFrame (replicate 8 0))
    (mkConnectionCloseFrame false 0 0 []) (mkDatagramFrame false []).

Definition Frames {St} (yield : St -> Frame + wire_error -> St * bool) (payload : bytes) (s : St) : St :=
  Frames_loop (length payload) yield payload zero_frame s.

(** ** Reading a serialized frame *)
Definition reads (b : bytes) (off : Z) (rest : bytes) : Prop :=
  0 <= off /\ off <= zlen b /\ zdrop off b = rest.

Lemma reads_off b off rest : reads b off rest -> off = zlen b - zlen rest.
Proof. intros (H0 & H1 & <-). rewrite zlen_zdrop by lia. lia. Qed.

Lemma reads_advance b off l rest :
  reads b off (l ++ rest) -> reads b (off + zlen l) rest.
Proof.
  intros (H0 & H1 & H2). pose proof (zlen_nonneg l).
  assert (Hl : zlen b - off = zlen l + zlen rest)
    by (rewrite <- zlen_zdrop by lia; rewrite H2; apply zlen_app).
  pose proof (zlen_nonneg rest). split_and!; [lia|lia|].
  rewrite <- zdrop_zdrop by lia. rewrite H2. apply zdrop_app.
Qed.

Lemma reads_slice {E} b off l rest :
  reads b off (l ++ rest) -> slice (E:=E) b off (off + zlen l) = Ok l.
Proof.
  intros H. pose proof (reads_advance _ _ _ _ H) as (H1 & H2 & H3). destruct H as (H4 & H5 & H6).
  pose proof (zlen_nonneg l). rewrite slice_ok by lia. rewrite H6. f_equal. apply ztake_app_eq. lia.
Qed.

Section Runs.
Context (b : bytes) (Hb : bytes_ok b).

Lemma next_varint_reads off f v rest :
  vi_ok v -> reads b off (vi_enc v ++ rest) ->
  next_varint b (mkPst off f) = (mkPst (off + zlen (vi_enc v)) f, Ok v)
  /\ reads b (off + zlen (vi_enc v)) rest.
Proof.
  intros Hv Hr. split; [|by apply reads_advance]. pose proof Hr as (H0 & H1 & H2).
  unfold next_varint. cbn [p_off]. rewrite slice_ok by lia.
  rewrite ztake_all by (rewrite zlen_zdrop; lia). rewrite H2, Decode_enc; [done|done|].
  apply (bytes_ok_zdrop off) in Hb as Hd. rewrite H2 in Hd. apply bytes_ok_app in Hd. tauto.
Qed.

Lemma next_block_reads off f l rest :
  zlen b < 2 ^ 64 -> reads b off (l ++ rest) ->
  next_block (zlen l) b (mkPst off f) = (mkPst (off + zlen l) f, Ok l)
  /\ reads b (off + zlen l) rest.
Proof.
  intros Hlen Hr. split; [|by apply reads_advance]. unfold next_block. cbn [p_off].
  pose proof (reads_off _ _ _ Hr) as Ho. rewrite zlen_app in Ho.
  pose proof (zlen_nonneg l). pose proof (zlen_nonneg rest).
  pose proof Hr as (Ha & Hc & _).
  rewrite u64_small by (unfold is_u64; lia). case_test; [lia|]. by rewrite (reads_slice _ _ _ _ Hr).
Qed.

Lemma next_array_reads off f l rest n :
  n = zlen l -> reads b off (l ++ rest) ->
  next_array n b (mkPst off f) = (mkPst (off + zlen l) f, Ok l)
  /\ reads b (off + zlen l) rest.
Proof.
  intros -> Hr. split; [|by apply reads_advance]. unfold next_array. cbn [p_off].
  pose proof (reads_advance _ _ _ _ Hr) as (? & ? & _). case_test; [lia|].
  by rewrite (reads_slice _ _ _ _ Hr).
Qed.

Lemma take_rest_reads off f l :
  reads b off l ->
  take_rest b (mkPst off f) = (mkPst (off + zlen l) f, Ok l) /\ reads b (off + zlen l) [].
Proof.
  intros Hr. rewrite <- (app_nil_r l) in Hr. split; [|by apply reads_advance].
  pose proof (reads_off _ _ _ Hr) as Ho. rewrite app_nil_r in Ho.
  unfold take_rest. cbn [p_off]. replace (zlen b) with (off + zlen l) at 1 by lia.
  rewrite (reads_slice _ _ _ _ Hr). by replace (zlen b) with (off + zlen l) by lia.
Qed.

Lemma pbind_run {A B} (m : PM A) (k : A -> PM B) s s' a :
  m b s = (s', Ok a) -> pbind m k b s = k a b s'.
Proof. intros H. unfold pbind. by rewrite H. Qed.

Lemma modify_bind {B} g (k : unit -> PM B) off f :
  pbind (modify g) k b (mkPst off f) = k tt b (mkPst off (g f)).
Proof. done. Qed.
Lemma modify_run g off f : modify g b (mkPst off f) = (mkPst off (g f), Ok tt).
Proof. done. Qed.
Lemma pret_bind {A B} (a : A) (k : A -> PM B) s : pbind (pret a) k b s = k a b s.
Proof. done. Qed.
Lemma pret_run {A} (a : A) s : pret a b s = (s, Ok a).
Proof. done. Qed.
Lemma pbind_assoc {A B D} (m : PM A) (k : A -> PM B) (h : B -> PM D) s :
  pbind (pbind m k) h b s = pbind m (fun a => pbind (k a) h) b s.
Proof. unfold pbind. destruct (m b s) as [s' []]; done. Qed.
End Runs.

(** Run the next primitive of a parser on a known input. *)
Ltac pstep_with L H :=
  let E := fresh "E" in let H' := fresh "Hr" in
  destruct L as [E H'];
  first [ rewrite (pbind_run _ _ _ _ _ _ E) | rewrite E ]; clear E H; rename H' into H.
Ltac pstep :=
  match goal with
  | Hb : bytes_ok ?b, H : reads ?b ?off (vi_enc ?v ++ ?r)
    |- context [next_varint] =>
      match goal with
      | |- context [pbind next_varint _ b (mkPst off ?f)] =>
          pstep_with (next_varint_reads b Hb off f v r ltac:(done) H) H
      end
  | Hl : zlen ?b < 2 ^ 64, H : reads ?b ?off (?l ++ ?r)
    |- context [pbind (next_block (zlen ?l)) _ ?b (mkPst ?off ?f)] =>
      pstep_with (next_block_reads b off f l r Hl H) H
  | H : reads ?b ?off (?l ++ ?r) |- context [pbind (next_array ?n) _ ?b (mkPst ?off ?f)] =>
      pstep_with (next_array_reads b off f l r n ltac:(done) H) H
  | H : reads ?b ?off ?l |- context [pbind take_rest _ ?b (mkPst ?off ?f)] =>
      pstep_with (take_rest_reads b off f l H) H
  end.

Lemma Decode_type t l : 1 <= t < 64 -> Varint.Decode (t :: l) = Ok (t, 1).
Proof.
  intros. unfold Varint.Decode. rewrite Z.shiftr_div_pow2 by lia.
  by replace (t / 2 ^ 6) with 0 by lia.
Qed.

Lemma ParseNextFrame_typed t l f0 :
  1 <= t < 64 ->
  ParseNextFrame (t :: l) f0
  = let '(s, r) := parse_body t (t :: l) (mkPst 1 (Frame_Reset f0)) in
    (p_frame s, let* _ := r in Ok (p_off s)).
Proof.
  intros. unfold ParseNextFrame. case_test; [lia|]. by rewrite Decode_type by done.
Qed.

Lemma reads_after_type t l : reads (t :: l) 1 l.
Proof. pose proof (zlen_nonneg l). split_and!; [lia| rewrite zlen_cons; lia |done]. Qed.

(** ** ACK ranges *)
Definition fold_ranges (a : AckFrame) (rs : list AckRange) : AckFrame :=
  fold_left (fun a r => AppendRange a (Gap r) (Length r)) rs a.

Lemma AppendRange_spec a g l :
  ack_typed a ->
  ack_ranges (AppendRange a g l) = ack_ranges a ++ [mkAckRange g l]
  /\ ack_typed (AppendRange a g l)
  /\ LargestAcked (AppendRange a g l) = LargestAcked a /\ AckDelay (AppendRange a g l) = AckDelay a
  /\ FirstAckRange (AppendRange a g l) = FirstAckRange a /\ HasECN (AppendRange a g l) = HasECN a.
Proof.
  destruct a as [la d fr inl n extra he e]. intros (Hl & Hn & He).
  cbn [InlineRanges NumInlineRanges ExtraRanges] in *.
  assert (Hz : zlen inl = 8) by (unfold zlen; lia).
  unfold AppendRange, ack_ranges, ack_typed. cbn [InlineRanges NumInlineRanges].
  rewrite Hz. case_test; cbn -[ztake].
  - assert (extra = []) as -> by (destruct extra; [done|]; specialize (He ltac:(done)); lia).
    rewrite !app_nil_r. split_and!; try done; try lia.
    + unfold ztake. replace (Z.to_nat (n + 1)) with (S (Z.to_nat n)) by lia.
      rewrite (take_S_r _ _ (mkAckRange g l)) by (apply list_lookup_insert_eq; lia).
      by rewrite take_insert_ge by lia.
    + by rewrite length_insert.
  - split_and!; try done; try lia. by rewrite app_assoc.
Qed.

Lemma fold_ranges_spec rs : forall a,
  ack_typed a ->
  ack_ranges (fold_ranges a rs) = ack_ranges a ++ rs
  /\ ack_typed (fold_ranges a rs)
  /\ LargestAcked (fold_ranges a rs) = LargestAcked a /\ AckDelay (fold_ranges a rs) = AckDelay a
  /\ FirstAckRange (fold_ranges a rs) = FirstAckRange a /\ HasECN (fold_ranges a rs) = HasECN a.
Proof.
  induction rs as [|r rs IH]; intros a Ht; [by rewrite app_nil_r|].
  destruct (AppendRange_spec a (Gap r) (Length r) Ht) as (H1 & H2 & H3 & H4 & H5 & H6).
  destruct (IH _ H2) as (G1 & G2 & G3 & G4 & G5 & G6). cbn [fold_ranges fold_left].
  unfold fold_ranges in *. rewrite G1, G3, G4, G5, G6, H1, <- app_assoc. done.
Qed.

Lemma parse_ranges_reads b rs : forall fuel i n off f rest,
  bytes_ok b -> Forall range_ok rs -> n - i = zlen rs -> (length rs < fuel)%nat ->
  reads b off (enc_ranges rs ++ rest) ->
  parse_ranges fuel i n b (mkPst off f)
  = (mkPst (off + zlen (enc_ranges rs)) { f with Ack := fold_ranges (Ack f) rs }, Ok tt).
Proof.
  induction rs as [|r rs IH]; intros fuel i n off f rest Hb Hok Hn Hfuel Hr;
    (destruct fuel as [|fuel]; [cbn in *; lia|]).
  - cbn [parse_ranges]. rewrite zlen_nil in Hn. test_false (i <? n).
    cbn. by rewrite Z.add_0_r.
  - cbn [parse_ranges]. rewrite zlen_cons in Hn. pose proof (zlen_nonneg rs).
    test_true (i <? n). apply Forall_cons_iff in Hok as [[Hg Hl] Hok].
    unfold enc_ranges in *. cbn [map concat] in *. rewrite <- !app_assoc in Hr.
    do 2 pstep. rewrite modify_bind.
    erewrite IH; [|done|done|lia|cbn in *; lia|eassumption].
    rewrite !zlen_app. cbn [Ack fold_ranges fold_left]. do 2 f_equal. lia.
Qed.

Lemma enc_ranges_length rs : (2 * length rs <= length (enc_ranges rs))%nat.
Proof.
  unfold enc_ranges. induction rs as [|r rs IH]; [done|]. cbn [map concat length].
  rewrite !length_app. pose proof (vi_size_pos (Gap r)). pose proof (vi_size_pos (Length r)).
  rewrite !vi_enc_length. lia.
Qed.

(** The outcome expected of a successful parse: the whole image consumed, the
    frame meaning [q], the ACK storage still well typed. *)
Definition parses_to (b rest : bytes) (q : qframe) (out : pst * res wire_error unit) : Prop :=
  snd out = Ok tt /\ p_off (fst out) = zlen b - zlen rest
  /\ view (p_frame (fst out)) = Some q /\ ack_typed (Ack (p_frame (fst out))).

(** Finish a parser run: the remaining goal is a frame whose view is the
    intended one. *)
Ltac parse_done :=
  rewrite ?modify_bind, ?modify_run; unfold parses_to; cbn [fst snd p_off p_frame];
  split_and!; [done | by eapply reads_off | | done].

Ltac destruct_records :=
  repeat match goal with
  | r : ResetStreamFrame |- _ => destruct r
  | r : MaxStreamsFrame |- _ => destruct r
  | r : StreamsBlockedFrame |- _ => destruct r
  | r : ConnectionCloseFrame |- _ => destruct r
  | r : DatagramFrame |- _ => destruct r
  end; simpl in *; subst; done.

Section ParseBody.
Context (b rest : bytes) (f : Frame).
Context (Hb : bytes_ok b) (Hlen : zlen b < 2 ^ 62) (Hack : ack_typed (Ack f)).

Lemma parse_new_connection_id_reads n :
  qframe_ok (QNewConnectionID n) ->
  reads b 1 (vi_enc (nc_SequenceNumber n) ++ vi_enc (nc_RetirePriorTo n) ++
             zlen (nc_ConnID n) :: nc_ConnID n ++ nc_StatelessResetToken n ++ rest) ->
  parses_to b rest (QNewConnectionID n)
    (parse_new_connection_id b (mkPst 1 { f with Type_ := FrameTypeNewConnectionID })).
Proof using Hb Hack.
  intros (H1 & H2 & H3 & H4 & H5 & H6) Hr. unfold parse_new_connection_id.
  change (zlen (nc_ConnID n) :: ?l) with ([zlen (nc_ConnID n)] ++ l) in Hr.
  do 3 pstep. cbn [p_off]. change (znth [zlen (nc_ConnID n)] 0) with (zlen (nc_ConnID n)).
  pose proof (reads_off _ _ _ Hr) as Ho. rewrite !zlen_app in Ho. pose proof (zlen_nonneg rest).
  replace (_ || _) with false by (symmetry; rewrite !orb_false_iff, Z.gtb_ltb, !Z.ltb_ge; lia).
  pstep. rewrite modify_bind. pstep. parse_done. by destruct n.
Qed.

Lemma parse_fields_reads typ q body :
  qenc q = typ :: body -> qframe_ok q -> reads b 1 (body ++ rest) ->
  match q with QPadding _ | QAck _ _ _ _ _ | QStream _ => False | _ => True end ->
  rest_ok q rest ->
  parses_to b rest q (parse_body typ b (mkPst 1 f)).
Proof using Hb Hlen Hack.
  assert (Hlen' : zlen b < 2 ^ 64) by lia.
  intros He Hok Hr Hq Hrest.
  destruct q; try done; cbn [qenc] in He; injection He as <- <-; unfold enc_block in Hr;
    rewrite <- ?app_assoc in Hr; cbn [qframe_ok rest_ok] in *; unfold block_ok in Hok; destruct_and?.
  all: try match goal with |- context [if ?c then _ else _] => destruct c eqn:? end.
  all: rewrite <- ?app_assoc in Hr; cbn [app] in Hr.
  all: unfold parse_body; eval_tests; rewrite modify_bind.
  all: try by parse_done.
  all: unfold parse_reset_stream, parse_stop_sending, parse_crypto, parse_new_token, parse_max_data,
    parse_max_stream_data, parse_max_streams, parse_data_blocked, parse_stream_data_blocked,
    parse_streams_blocked, parse_retire_connection_id, parse_path_challenge, parse_path_response,
    parse_connection_close, parse_datagram; eval_tests; rewrite ?pret_bind.
  all: try match goal with H : true = true -> _ |- _ => specialize (H eq_refl) end.
  all: try (repeat (pstep; rewrite ?pret_bind); parse_done; try done; by destruct_records).
  - apply parse_new_connection_id_reads; [by cbn; split_and!|].
    by rewrite <- app_assoc in Hr.
  - destruct Hrest as [?| ->]; [done|]. rewrite app_nil_r in Hr.
    pstep. parse_done. by destruct_records.
Qed.
End ParseBody.

Section ParseTyped.
Context (b rest : bytes) (f : Frame).
Context (Hb : bytes_ok b) (Hlen : zlen b < 2 ^ 62) (Hack : ack_typed (Ack f)).

Lemma parse_stream_reads s :
  qframe_ok (QStream s) -> rest_ok (QStream s) rest ->
  b = qenc (QStream s) ++ rest ->
  parses_to b rest (QStream s) (parse_body (stream_type s) b (mkPst 1 f)).
Proof using Hb Hlen Hack.
  assert (Hlen' : zlen b < 2 ^ 64) by lia.
  destruct s as [id off fin haslen data]. intros (H1 & H2 & H3 & H4) Hrest Hq.
  assert (Hr : reads b 1 (tail (qenc (QStream (mkStreamFrame id off fin haslen data))) ++ rest))
    by (rewrite Hq; apply reads_after_type).
  clear Hq. cbn [qenc tail st_StreamID st_Offset st_Fin st_HasLen st_Data rest_ok] in *.
  unfold enc_block in Hr. rewrite <- ?app_assoc in Hr.
  unfold stream_type. cbn [st_StreamID st_Offset st_Fin st_HasLen st_Data].
  destruct (off =? 0) eqn:Eoff, fin, haslen; cbn [app] in Hr; rewrite <- ?app_assoc in Hr;
    unfold parse_body; eval_tests; unfold parse_stream; rewrite modify_bind; eval_tests;
    try (destruct Hrest as [?| ->]; [done|]; rewrite app_nil_r in Hr);
    repeat (pstep; rewrite ?pret_bind, ?pbind_assoc); parse_done;
    bool_simpl; subst; done.
Qed.

Lemma parse_ack_reads la d fr rs ecn :
  qframe_ok (QAck la d fr rs ecn) -> ack_ranges (Ack f) = [] -> HasECN (Ack f) = false ->
  b = qenc (QAck la d fr rs ecn) ++ rest ->
  parses_to b rest (QAck la d fr rs ecn)
    (parse_body (match ecn with Some _ => 0x03 | None => 0x02 end) b (mkPst 1 f)).
Proof using Hb Hlen Hack.
  intros (H1 & H2 & H3 & H4 & H5 & H6 & H7) Hnil Hecn0 Hq.
  assert (Hr : reads b 1 (tail (qenc (QAck la d fr rs ecn)) ++ rest))
    by (rewrite Hq; apply reads_after_type).
  assert (Hfuel : (length rs < S (length b))%nat).
  { pose proof (enc_ranges_length rs). rewrite Hq. cbn [qenc]. rewrite !length_app. cbn [length].
    rewrite !length_app. lia. }
  clear Hq. cbn [qenc tail] in Hr. rewrite <- !app_assoc in Hr.
  set (typ := match ecn with Some _ => 0x03 | None => 0x02 end).
  assert (Htyp : parse_body typ b (mkPst 1 f) = parse_ack typ b (mkPst 1 { f with Type_ := typ })).
  { unfold typ. destruct ecn; unfold parse_body; eval_tests; by rewrite modify_bind. }
  rewrite Htyp. unfold parse_ack. do 4 pstep.
  replace (fr >? la) with false by (symmetry; rewrite Z.gtb_ltb; apply Z.ltb_ge; lia).
  rewrite modify_bind. erewrite pbind_run.
  2: { eapply parse_ranges_reads; [done|done|lia|done|exact Hr]. }
  apply reads_advance in Hr.
  match goal with |- context [fold_ranges ?a rs] => set (a0 := a); assert (Ha0 : ack_typed a0) end.
  { done. }
  destruct (fold_ranges_spec rs a0 Ha0) as (G1 & G2 & G3 & G4 & G5 & G6).
  change (LargestAcked a0) with la in G3. change (AckDelay a0) with d in G4.
  change (FirstAckRange a0) with fr in G5. change (HasECN a0) with (HasECN (Ack f)) in G6.
  change (ack_ranges a0) with (ack_ranges (Ack f)) in G1. rewrite Hnil in G1. rewrite Hecn0 in G6.
  cbn [app] in G1.
  destruct ecn as [e|]; unfold typ; eval_tests.
  - destruct H7 as (? & ? & ?). rewrite modify_bind. rewrite <- !app_assoc in Hr. do 3 pstep. parse_done.
    transitivity (Some (QAck (LargestAcked (fold_ranges a0 rs)) (AckDelay (fold_ranges a0 rs))
      (FirstAckRange (fold_ranges a0 rs)) (ack_ranges (fold_ranges a0 rs)) (Some e))); [done|].
    by rewrite G1, G3, G4, G5.
  - cbn [app] in Hr. rewrite pret_run. parse_done.
    transitivity (if Bool.eqb (HasECN (fold_ranges a0 rs)) false
      then Some (QAck (LargestAcked (fold_ranges a0 rs)) (AckDelay (fold_ranges a0 rs))
      (FirstAckRange (fold_ranges a0 rs)) (ack_ranges (fold_ranges a0 rs))
      (if HasECN (fold_ranges a0 rs) then Some (ECN (fold_ranges a0 rs)) else None)) else None); [done|].
    by rewrite G1, G3, G4, G5, G6.
Qed.
End ParseTyped.

Lemma count_zeros_replicate n rest :
  match rest with 0 :: _ => False | _ => True end ->
  count_zeros (replicate n 0 ++ rest) = Z.of_nat n.
Proof.
  intros H. induction n as [|n IH]; cbn [replicate app count_zeros].
  - destruct rest as [|x l]; [done|]. cbn. case_test; [by subst|done].
  - rewrite Z.eqb_refl, IH. lia.
Qed.

(** The parser inverts the wire image of every well-formed frame. *)
Lemma ParseNextFrame_qenc q rest f0 :
  qframe_ok q -> rest_ok q rest -> bytes_ok (qenc q ++ rest) -> zlen (qenc q ++ rest) < 2 ^ 62 ->
  ack_typed (Ack f0) ->
  let '(f', r) := ParseNextFrame (qenc q ++ rest) f0 in
  r = Ok (zlen (qenc q)) /\ view f' = Some q /\ ack_typed (Ack f').
Proof.
  intros Hok Hrest Hb Hlen Ht.
  assert (Hreset : ack_typed (Ack (Frame_Reset f0))
                   /\ ack_ranges (Ack (Frame_Reset f0)) = []
                   /\ HasECN (Ack (Frame_Reset f0)) = false).
  { destruct Ht as (Hl & _). by split_and!. }
  destruct Hreset as (Ht' & Hnil & Hecn).
  assert (Hgo : forall t body, qenc q = t :: body -> 1 <= t < 64 ->
    parses_to (qenc q ++ rest) rest q (parse_body t (qenc q ++ rest) (mkPst 1 (Frame_Reset f0))) ->
    let '(f', r) := ParseNextFrame (qenc q ++ rest) f0 in
    r = Ok (zlen (qenc q)) /\ view f' = Some q /\ ack_typed (Ack f')).
  { intros t body He Hrange. rewrite He. cbn [app]. rewrite ParseNextFrame_typed by done.
    rewrite app_comm_cons. destruct (parse_body _ _ _) as [s r].
    intros (H1 & H2 & H3 & H4). cbn [fst snd] in *. subst r. cbn [res_bind].
    split_and!; [|done|done]. rewrite H2, zlen_app. f_equal. lia. }
  assert (Hfields : forall t body, qenc q = t :: body -> 1 <= t < 64 ->
    match q with QPadding _ | QAck _ _ _ _ _ | QStream _ => False | _ => True end ->
    let '(f', r) := ParseNextFrame (qenc q ++ rest) f0 in
    r = Ok (zlen (qenc q)) /\ view f' = Some q /\ ack_typed (Ack f')).
  { intros t body He Hrange Hq. apply (Hgo t body He Hrange).
    apply parse_fields_reads with (body := body); try done.
    rewrite He. apply reads_after_type. }
  destruct q; try (eapply Hfields; [reflexivity|by cbn; repeat case_test; lia|done]).
  - (* PADDING *)
    cbn [qframe_ok rest_ok qenc] in *.
    assert (Hn : Z.to_nat count = S (Nat.pred (Z.to_nat count))) by lia.
    pose proof (count_zeros_replicate (Z.to_nat count) rest Hrest) as Hc.
    unfold ParseNextFrame. rewrite Hn in *. cbn [replicate app] in *. rewrite Z.eqb_refl, Hc.
    rewrite zlen_cons. unfold zlen. rewrite length_replicate.
    split_and!; [f_equal; lia| |done]. cbn. do 2 f_equal. lia.
  - eapply Hgo; [reflexivity|destruct ecn; lia|]. by apply parse_ack_reads.
  - eapply Hgo; [reflexivity|unfold stream_type; repeat case_test; lia|]. by apply parse_stream_reads.
Qed.

(** ** Safety: what the parser does on arbitrary input

    [pok b m f Q]: started on frame [f] at any offset inside the packet, [m]
    does not panic, keeps the offset inside the packet, and on success
    establishes [Q] of its result and of the frame it leaves. *)
Definition pok (b : bytes) {A} (m : PM A) (f : Frame) (Q : A -> Frame -> Prop) : Prop :=
  forall off, 0 <= off <= zlen b ->
  match m b (mkPst off f) with
  | (s', Ok a) => off <= p_off s' <= zlen b /\ Q a (p_frame s')
  | (_, Err _) => True
  | (_, Panic) => False
  end.

Section Safety.
Context (b : bytes) (Hb : bytes_ok b) (Hlen : zlen b < 2 ^ 62).

Lemma next_varint_safe off f :
  0 <= off <= zlen b ->
  match next_varint b (mkPst off f) with
  | (s', Ok v) => exists k, s' = mkPst (off + k) f /\ 1 <= k /\ off + k <= zlen b /\ vi_ok v
  | (_, Err _) => True
  | (_, Panic) => False
  end.
Proof using Hb.
  intros Ho. unfold next_varint. cbn [p_off]. rewrite slice_ok by lia.
  set (rest := ztake _ _). assert (Hrest : bytes_ok rest) by (unfold rest; auto with mach).
  assert (Hl : zlen rest = zlen b - off).
  { unfold rest. rewrite zlen_ztake; [lia|]. rewrite zlen_zdrop; lia. }
  destruct (Varint.Decode rest) as [[v n]|e|] eqn:E; [|done|by apply Decode_no_panic in E].
  apply Decode_range in E as (Hv & Hn & Hn'); [|done]. exists n. split_and!; try done; lia.
Qed.

Lemma pok_varint f : pok b next_varint f (fun v f' => f' = f /\ vi_ok v).
Proof using Hb.
  intros off Ho. pose proof (next_varint_safe off f Ho) as H.
  destruct (next_varint b _) as [s' [v|e|]]; [|done..].
  destruct H as (k & -> & H1 & H2 & H3). cbn [p_off p_frame]. split; [lia|done].
Qed.

Lemma slice_safe off n : 0 <= off -> 0 <= n -> off + n <= zlen b ->
  exists l, slice (E:=wire_error) b off (off + n) = Ok l /\ bytes_ok l /\ zlen l = n.
Proof using Hb.
  intros. rewrite slice_ok by lia. eexists. split; [done|]. split; [auto with mach|].
  rewrite zlen_ztake; [lia|]. rewrite zlen_zdrop; lia.
Qed.

Lemma pok_block n f :
  0 <= n -> pok b (next_block n) f (fun l f' => f' = f /\ bytes_ok l /\ zlen l = n /\ n < 2 ^ 62).
Proof using Hb Hlen.
  intros Hn off Ho. unfold next_block. cbn [p_off].
  rewrite u64_small by (unfold is_u64; lia). case_test; [done|].
  destruct (slice_safe off n) as (l & -> & ? & ?); [lia..|]. cbn.
  split; [lia|]. split_and!; try done. lia.
Qed.

Lemma pok_array n f :
  0 <= n -> pok b (next_array n) f (fun l f' => f' = f /\ bytes_ok l /\ zlen l = n).
Proof using Hb.
  intros Hn off Ho. unfold next_array. cbn [p_off]. case_test; [done|].
  destruct (slice_safe off n) as (l & -> & ? & ?); [lia..|]. cbn.
  split; [lia|done].
Qed.

Lemma pok_rest f : pok b take_rest f (fun l f' => f' = f /\ bytes_ok l /\ zlen l < 2 ^ 62).
Proof using Hb Hlen.
  intros off Ho. unfold take_rest. cbn [p_off].
  destruct (slice_safe off (zlen b - off)) as (l & H & ? & ?); [lia..|].
  replace (off + (zlen b - off)) with (zlen b) in H by lia. rewrite H. cbn.
  split; [lia|]. split_and!; try done. lia.
Qed.

Lemma pok_modify g f Q : Q tt (g f) -> pok b (modify g) f Q.
Proof. intros H off Ho. cbn. split; [lia|done]. Qed.

Lemma pok_mono {A} (m : PM A) f (Q R : A -> Frame -> Prop) :
  pok b m f Q -> (forall a f', Q a f' -> R a f') -> pok b m f R.
Proof.
  intros Hm HQR off Ho. specialize (Hm off Ho). destruct (m b _) as [s' []]; [|done..].
  destruct Hm. eauto.
Qed.

Lemma pok_modify_bind {B} g (k : unit -> PM B) f R :
  pok b (k tt) (g f) R -> pok b (pbind (modify g) k) f R.
Proof. intros H. exact H. Qed.

Lemma pok_ret_bind {A B} (a : A) (k : A -> PM B) f R :
  pok b (k a) f R -> pok b (pbind (pret a) k) f R.
Proof. intros H. exact H. Qed.

Lemma pok_ret {A} (a : A) f (Q : A -> Frame -> Prop) : Q a f -> pok b (pret a) f Q.
Proof. intros H off Ho. cbn. split; [lia|done]. Qed.

Lemma pok_fail {A} e f (Q : A -> Frame -> Prop) : pok b (pfail e) f Q.
Proof. done. Qed.

Lemma pok_bind {A B} (m : PM A) (k : A -> PM B) f Q R :
  pok b m f Q -> (forall a f', Q a f' -> pok b (k a) f' R) -> pok b (pbind m k) f R.
Proof.
  intros Hm Hk off Ho. specialize (Hm off Ho). unfold pbind.
  destruct (m b _) as [[off' f'] [a|e|]]; [|done..]. cbn [p_off p_frame] in *.
  destruct Hm as [Ho' HQ]. specialize (Hk a f' HQ off' ltac:(lia)).
  destruct (k a b _) as [s'' [a'|e|]]; [|done..]. split; [lia|apply Hk].
Qed.

Lemma parse_ranges_safe fuel : forall i n off f,
  0 <= off <= zlen b -> zlen b - off < Z.of_nat fuel -> ack_typed (Ack f) -> i <= n ->
  match parse_ranges fuel i n b (mkPst off f) with
  | (s', Ok _) => off <= p_off s' <= zlen b
      /\ exists rs, Forall range_ok rs /\ zlen rs = n - i
           /\ p_frame s' = { f with Ack := fold_ranges (Ack f) rs }
  | (_, Err _) => True
  | (_, Panic) => False
  end.
Proof using Hb.
  induction fuel as [|fuel IH]; intros i n off f Ho Hfuel Ht Hi; [lia|].
  cbn [parse_ranges]. case_test.
  2: { cbn. split; [lia|]. exists []. split_and!; [done| |done]. rewrite zlen_nil. lia. }
  pose proof (next_varint_safe off f Ho) as Hg. unfold pbind at 1.
  destruct (next_varint b (mkPst off f)) as [s1 [gap|e|]]; [|done..].
  destruct Hg as (k1 & -> & Hk1 & Ho1 & Hgap).
  pose proof (next_varint_safe (off + k1) f ltac:(lia)) as Hg. unfold pbind at 1.
  destruct (next_varint b (mkPst (off + k1) f)) as [s2 [len|e|]]; [|done..].
  destruct Hg as (k2 & -> & Hk2 & Ho2 & Hlen2). rewrite modify_bind.
  pose proof (AppendRange_spec (Ack f) gap len Ht) as (_ & Ht' & _).
  specialize (IH (i + 1) n (off + k1 + k2) { f with Ack := AppendRange (Ack f) gap len }
                 ltac:(lia) ltac:(lia) Ht' ltac:(lia)).
  destruct (parse_ranges fuel _ _ _ _) as [s' [u|e|]]; [|done..].
  destruct IH as (Hoff & rs & Hrs & Hn & Hf). split; [lia|].
  exists (mkAckRange gap len :: rs). split_and!; [by constructor| |done].
  rewrite zlen_cons. lia.
Qed.

Lemma pok_ranges n f :
  ack_typed (Ack f) -> 0 <= n ->
  pok b (parse_ranges (S (length b)) 0 n) f (fun _ f' =>
    exists rs, Forall range_ok rs /\ zlen rs = n /\ f' = { f with Ack := fold_ranges (Ack f) rs }).
Proof using Hb.
  intros Ht Hn off Ho.
  pose proof (parse_ranges_safe (S (length b)) 0 n off f Ho ltac:(unfold zlen; lia) Ht Hn) as H.
  destruct (parse_ranges _ _ _ _ _) as [s' []]; [|done..].
  destruct H as (? & rs & ? & ? & ?). split; [done|]. exists rs. split_and!; try done. lia.
Qed.
End Safety.

(** What a successful parse leaves: a meaningful, well-formed frame. *)
Definition accepted (f : Frame) : Prop :=
  exists q, view f = Some q /\ qframe_ok q /\ ack_typed (Ack f).

Ltac psafe_step :=
  lazymatch goal with
  | |- pok _ (pbind next_varint _) _ _ =>
      eapply pok_bind; [by apply pok_varint | intros ? ? [-> ?]]
  | |- pok _ (pbind (modify _) _) _ _ => apply pok_modify_bind
  | |- pok _ (pbind (pret _) _) _ _ => apply pok_ret_bind
  | |- pok _ (pbind (next_block _) _) _ _ =>
      eapply pok_bind; [apply pok_block; [done|done|unfold vi_ok in *; lia]
                       | intros ? ? (-> & ? & ? & ?)]
  | |- pok _ (pbind (next_array _) _) _ _ =>
      eapply pok_bind; [apply pok_array; [done|lia] | intros ? ? (-> & ? & ?)]
  | |- pok _ (pbind take_rest _) _ _ =>
      eapply pok_bind; [by apply pok_rest | intros ? ? (-> & ? & ?)]
  end.
Ltac psafe := repeat psafe_step.
Ltac clear_tests :=
  repeat match goal with H : _ <> _ |- _ => clear H | H : _ && _ = false |- _ => clear H end.
Ltac psafe_end :=
  first [apply pok_modify|apply pok_ret]; eexists; split; [reflexivity|];
  cbn; unfold block_ok, vi_ok in *; split_and!; try done; try lia.

Lemma view_stream f : 8 <= Type_ f <= 15 -> view f = Some (QStream (Stream f)).
Proof.
  intros H. assert (Hc : exists k, 0 <= k <= 7 /\ Type_ f = 8 + k) by (exists (Type_ f - 8); lia).
  destruct Hc as (k & Hk & E). unfold view. cbv zeta. rewrite E.
  assert (k = 0 \/ k = 1 \/ k = 2 \/ k = 3 \/ k = 4 \/ k = 5 \/ k = 6 \/ k = 7) as Hk' by lia.
  by repeat destruct Hk' as [->|Hk']; [..|subst].
Qed.

Section BodySafety.
Context (b : bytes) (f : Frame) (Hb : bytes_ok b) (Hlen : zlen b < 2 ^ 62).
Context (Ht : ack_typed (Ack f)) (Hnil : ack_ranges (Ack f) = []) (Hecn : HasECN (Ack f) = false).

Lemma parse_stream_safe t :
  8 <= t <= 15 -> pok b (parse_stream t) f (fun _ f' => accepted f').
Proof using Hb Hlen Ht.
  intros Hrange. unfold parse_stream. cbv zeta. psafe.
  eapply (pok_bind _ _ _ _ (fun off f' => f' = { f with Type_ := t } /\ vi_ok off)).
  { case_test; [by apply pok_varint|]. apply pok_ret. unfold vi_ok. split; [done|lia]. }
  intros soff f' [-> Hsoff].
  eapply (pok_bind _ _ _ _ (fun l f' => f' = { f with Type_ := t } /\ block_ok l)).
  { case_test; psafe.
    - eapply pok_mono; [apply pok_block; [done|done|unfold vi_ok in *; lia]|].
      intros l f' (-> & ? & ? & ?). unfold block_ok, vi_ok in *. split_and!; try done; lia.
    - eapply pok_mono; [by apply pok_rest|]. intros l f' (-> & ? & ?). pose proof (zlen_nonneg l).
      unfold block_ok, vi_ok. split_and!; try done; lia. }
  intros l f' [-> Hl]. apply pok_modify. eexists. split; [by apply view_stream|]. done.
Qed.

Lemma parse_ack_safe t :
  t = 2 \/ t = 3 -> pok b (parse_ack t) { f with Type_ := t } (fun _ f' => accepted f').
Proof using All.
  intros Htyp.
  set (tail n la d fr := modify (fun f => { f with Ack -> LargestAcked := la; Ack -> AckDelay := d;
                               Ack -> FirstAckRange := fr }) ;!
     parse_ranges (S (length b)) 0 n ;!
     if t =? FrameTypeAckECN then
       modify (fun f => { f with Ack -> HasECN := true }) ;!
       let! ect0 := next_varint in
       let! ect1 := next_varint in
       let! ecnce := next_varint in
       modify (fun f => { f with Ack -> ECN := mkECNCounts ect0 ect1 ecnce })
     else pret tt).
  enough (Hgo : pok b
    (let! la := next_varint in let! d := next_varint in let! n := next_varint in
     let! fr := next_varint in
     if fr >? la then pfail ErrTruncatedFrame else tail n la d fr)
    { f with Type_ := t } (fun _ f' => accepted f')) by exact Hgo.
  psafe. case_test; [apply pok_fail|]. unfold tail. apply pok_modify_bind.
  eapply pok_bind; [apply pok_ranges; [done|done|unfold vi_ok in *; lia]|].
  intros [] f' (rs & Hrs & Hn & ->). cbn [Ack].
  match goal with |- context [fold_ranges ?x rs] => set (a0' := x) end.
  destruct (fold_ranges_spec rs a0' Ht) as (G1 & G2 & G3 & G4 & G5 & G6).
  change (ack_ranges a0') with (ack_ranges (Ack f)) in G1. rewrite Hnil in G1. cbn [app] in G1.
  change (HasECN a0') with (HasECN (Ack f)) in G6. rewrite Hecn in G6.
  set (fr := fold_ranges a0' rs) in *.
  assert (Hok : forall ecn, match ecn with Some e => vi_ok (ECT0 e) /\ vi_ok (ECT1 e) /\ vi_ok (ECNCE e)
                            | None => True end ->
    qframe_ok (QAck (LargestAcked fr) (AckDelay fr) (FirstAckRange fr) (ack_ranges fr) ecn)).
  { intros ecn He. cbn [qframe_ok]. rewrite G1, G3, G4, G5, Hn. by split_and!. }
  destruct Htyp as [-> | ->]; eval_tests.
  - apply pok_ret. eexists. split_and!; [|by apply (Hok None)|done].
    transitivity (if Bool.eqb (HasECN fr) false
      then Some (QAck (LargestAcked fr) (AckDelay fr) (FirstAckRange fr) (ack_ranges fr)
        (if HasECN fr then Some (ECN fr) else None)) else None); [done|]. by rewrite G6.
  - psafe. apply pok_modify. eexists. split_and!; [reflexivity| |done]. by apply (Hok (Some _)).
Qed.

Lemma parse_new_connection_id_safe :
  pok b parse_new_connection_id { f with Type_ := FrameTypeNewConnectionID } (fun _ f' => accepted f').
Proof using Hb Ht.
  unfold parse_new_connection_id. psafe. intros off Ho. cbn [p_off].
  match goal with |- context [znth ?l 0] => set (c := znth l 0) end.
  destruct (_ || _) eqn:E; [done|]. rewrite Z.gtb_ltb in E. bool_simpl.
  refine ((_ : pok b (pbind (next_array c) _) _ (fun _ f' => accepted f')) off Ho).
  psafe. apply pok_modify. eexists. split_and!; [reflexivity| |done].
  change (vi_ok a /\ vi_ok a0 /\ bytes_ok a2 /\ 1 <= zlen a2 <= 20 /\ bytes_ok a3 /\ zlen a3 = 16).
  split_and!; done || lia.
Qed.

(** Every frame body: no panic, no overrun, and on success a well-formed frame. *)
Lemma parse_body_safe t : pok b (parse_body t) f (fun _ f' => accepted f').
Proof using All.
  unfold parse_body. cbv zeta. case_test; [by apply parse_stream_safe|].
  apply pok_modify_bind.
  repeat (case_test; [
    repeat match goal with
      | E : (_ =? _) || (_ =? _) = true |- _ => apply or_type_cases in E as [E|E]
    end; subst t|]); clear_tests.
  all: try (apply parse_ack_safe; auto). all: try apply parse_new_connection_id_safe.
  all: try apply pok_fail.
  all: unfold parse_reset_stream, parse_stop_sending, parse_crypto, parse_new_token, parse_max_data,
    parse_max_stream_data, parse_max_streams, parse_data_blocked, parse_stream_data_blocked,
    parse_streams_blocked, parse_retire_connection_id, parse_path_challenge, parse_path_response,
    parse_connection_close, parse_datagram; eval_tests.
  all: psafe; psafe_end.
  all: pose proof (zlen_nonneg a); lia.
Qed.
End BodySafety.

Lemma count_zeros_bound l : 0 <= count_zeros l <= zlen l.
Proof.
  induction l as [|x l IH]; [done|]. cbn [count_zeros]. rewrite zlen_cons.
  pose proof (zlen_nonneg l). case_test; lia.
Qed.

Lemma ParseNextFrame_safe b f :
  bytes_ok b -> zlen b < 2 ^ 62 -> ack_typed (Ack f) ->
  let '(f', r) := ParseNextFrame b f in
  match r with
  | Ok n => 1 <= n <= zlen b /\ accepted f'
  | Err _ => True
  | Panic => False
  end.
Proof.
  intros Hb Hlen (Hl & _). unfold ParseNextFrame. destruct b as [|b0 b']; [done|].
  set (b := b0 :: b') in *. case_test.
  - pose proof (count_zeros_bound b) as Hc. unfold b in *. subst b0.
    cbn [count_zeros] in *. rewrite Z.eqb_refl in *. pose proof (count_zeros_bound b').
    rewrite zlen_cons. split; [lia|]. eexists. split_and!; [reflexivity|cbn; lia|done|done..].
  - destruct (Varint.Decode b) as [[t n]|e|] eqn:E; [|done..].
    apply Decode_range in E as (_ & Hn & Hn'); [|done].
    pose proof (parse_body_safe b (Frame_Reset f) Hb Hlen) as H.
    specialize (H ltac:(by split_and!) eq_refl eq_refl t n ltac:(lia)).
    destruct (parse_body _ _ _) as [s []]; cbn; [|done..]. destruct H. split; [lia|done].
Qed.

(** ** The wire image of a well-formed frame *)
Lemma enc_ranges_ok rs : bytes_ok (enc_ranges rs).
Proof.
  unfold enc_ranges. induction rs as [|r rs IH]; [constructor|]. cbn [map concat].
  rewrite !bytes_ok_app. auto using vi_enc_ok.
Qed.

Lemma enc_block_ok l : bytes_ok l -> bytes_ok (enc_block l).
Proof. intros. unfold enc_block. rewrite bytes_ok_app. auto using vi_enc_ok. Qed.

Lemma replicate_zero_ok n : bytes_ok (replicate n 0).
Proof. apply Forall_replicate. unfold is_byte. lia. Qed.

Ltac enc_ok :=
  repeat (rewrite ?bytes_ok_cons, ?bytes_ok_app; split_and?);
  auto using vi_enc_ok, enc_ranges_ok, enc_block_ok, replicate_zero_ok;
  try (unfold is_byte; lia); try constructor.

Lemma qenc_ok q : qframe_ok q -> bytes_ok (qenc q).
Proof.
  intros Hok. destruct q; cbn [qframe_ok qenc] in *; unfold block_ok in Hok; destruct_and?;
    unfold stream_type; repeat case_test; try case_match; enc_ok.
Qed.

Lemma qenc_nonempty q : qframe_ok q -> 1 <= zlen (qenc q).
Proof.
  intros Hok. destruct q; cbn [qenc]; rewrite ?zlen_cons;
    try match goal with |- _ <= 1 + zlen ?l => pose proof (zlen_nonneg l); lia end.
  cbn in Hok. unfold zlen. rewrite length_replicate. lia.
Qed.

(** A packet payload as a sequence of frames: each well-formed and allowed to
    be followed by the rest. *)
Fixpoint packet (qs : list qframe) : bytes :=
  match qs with
  | [] => []
  | q :: qs' => qenc q ++ packet qs'
  end.
Fixpoint packet_ok (qs : list qframe) : Prop :=
  match qs with
  | [] => True
  | q :: qs' => qframe_ok q /\ rest_ok q (packet qs') /\ packet_ok qs'
  end.

Lemma packet_bytes qs : packet_ok qs -> bytes_ok (packet qs).
Proof.
  induction qs as [|q qs IH]; [constructor|]. intros (H1 & H2 & H3). cbn.
  rewrite bytes_ok_app. auto using qenc_ok.
Qed.

(** ** Walking a payload *)
Section Iterate.
Context {St : Type} (consume : St -> option qframe + wire_error -> St * bool).

(** A consumer that looks at frames through their meaning. *)
Definition by_view (s : St) (x : Frame + wire_error) : St * bool :=
  consume s (match x with inl f => inl (view f) | inr e => inr e end).

(** The specification of the iteration: the frames in order, until the
    consumer stops. *)
Fixpoint feed_frames (qs : list qframe) (s : St) : St :=
  match qs with
  | [] => s
  | q :: qs' =>
      let '(s', more) := consume s (inl (Some q)) in
      if negb more then s' else feed_frames qs' s'
  end.

Lemma Frames_loop_feed qs : forall fuel f s,
  packet_ok qs -> zlen (packet qs) < 2 ^ 62 -> ack_typed (Ack f) ->
  (length (packet qs) <= fuel)%nat ->
  Frames_loop fuel by_view (packet qs) f s = feed_frames qs s.
Proof.
  induction qs as [|q qs IH]; intros fuel f s Hok Hlen Ht Hfuel; [by destruct fuel|].
  pose proof (packet_bytes _ Hok) as Hb. cbn [packet packet_ok feed_frames] in *.
  destruct Hok as (Hq & Hrest & Hok). pose proof (qenc_nonempty q Hq) as H1.
  pose proof (zlen_nonneg (packet qs)) as H0. rewrite length_app in Hfuel.
  destruct fuel as [|fuel]; [unfold zlen in *; lia|]. cbn [Frames_loop].
  pose proof (ParseNextFrame_qenc q (packet qs) f Hq Hrest Hb Hlen Ht) as Hp.
  rewrite zlen_app in *. test_true (0 <? zlen (qenc q) + zlen (packet qs)).
  destruct (ParseNextFrame _ f) as [f' r]. destruct Hp as (-> & Hv & Ht').
  unfold by_view at 1. rewrite Hv. destruct (consume s _) as [s' more].
  rewrite zdrop_app, IH by (try done; unfold zlen in *; lia). done.
Qed.
End Iterate.

Lemma Frames_loop_fuel {St : Type} (yield : St -> Frame + wire_error -> St * bool) :
  forall fuel1 fuel2 payload f s,
  bytes_ok payload -> zlen payload < 2 ^ 62 -> ack_typed (Ack f) ->
  (length payload <= fuel1)%nat -> (length payload <= fuel2)%nat ->
  Frames_loop fuel1 yield payload f s = Frames_loop fuel2 yield payload f s.
Proof.
  induction fuel1 as [|fuel1 IH]; intros fuel2 payload f s Hb Hlen Ht H1 H2;
    (destruct payload as [|b0 p]; [by destruct fuel2|]); [cbn in *; lia|].
  destruct fuel2 as [|fuel2]; [cbn in *; lia|]. set (payload := b0 :: p) in *.
  cbn [Frames_loop]. case_test; [|done].
  pose proof (ParseNextFrame_safe payload f Hb Hlen Ht) as Hs.
  destruct (ParseNextFrame payload f) as [f' [n|e|]]; [|done..].
  destruct Hs as (Hn & q & _ & _ & Ht'). destruct (yield s _) as [s' more].
  assert (Hd : zlen (zdrop n payload) = zlen payload - n) by (apply zlen_zdrop; lia).
  case_test; [done|]. apply IH; auto with mach; unfold zlen in *; lia.
Qed.

Definition collect (acc : list (Frame + wire_error)) (x : Frame + wire_error) :
    list (Frame + wire_error) * bool := (acc ++ [x], true).

Lemma Frames_loop_collect : forall fuel payload f acc,
  bytes_ok payload -> zlen payload < 2 ^ 62 -> ack_typed (Ack f) ->
  exists fs errs, Frames_loop fuel collect payload f acc = acc ++ map inl fs ++ map inr errs
    /\ Forall accepted fs /\ (length errs <= 1)%nat.
Proof.
  induction fuel as [|fuel IH]; intros payload f acc Hb Hlen Ht; cbn [Frames_loop].
  { exists [], []. cbn. rewrite app_nil_r. split_and!; [done|constructor|lia]. }
  case_test; [|exists [], []; cbn; rewrite app_nil_r; split_and!; [done|constructor|lia]].
  pose proof (ParseNextFrame_safe payload f Hb Hlen Ht) as Hs.
  destruct (ParseNextFrame payload f) as [f' [n|e|]]; [| |done].
  - destruct Hs as (Hn & Hacc). pose proof Hacc as (q & _ & _ & Ht'). cbn [collect negb].
    destruct (IH (zdrop n payload) f' (acc ++ [inl f'])) as (fs & errs & -> & Hfs & He);
      [auto with mach|rewrite zlen_zdrop; lia|done|].
    exists (f' :: fs), errs. rewrite <- app_assoc. split_and!; [done|by constructor|done].
  - exists [], [e]. cbn. split_and!; [done|constructor|lia].
Qed.

(** ** Properties *)

(** C34: [AppendFrame] and [ParseNextFrame] are inverse on the wire.  A frame
    that has a meaning [q] (its type agrees with its contents) and whose fields
    are in range is appended to [dst] as the RFC image of [q], and parsing that
    image, followed by any [rest] the frame may be followed by, consumes exactly
    the image and rebuilds a frame with the same meaning, whatever frame [f0]
    is reused for the result. *)
Theorem frame_roundtrip (f f0 : Frame) (q : qframe) (dst rest : bytes) :
  view f = Some q -> qframe_ok q -> ack_typed (Ack f) -> ack_typed (Ack f0) ->
  bytes_ok rest -> rest_ok q rest -> zlen (qenc q ++ rest) < 2 ^ 62 ->
  AppendFrame dst f = Ok (dst ++ qenc q)
  /\ let '(f', r) := ParseNextFrame (qenc q ++ rest) f0 in
     r = Ok (zlen (qenc q)) /\ view f' = view f.
Proof.
  intros Hv Hq Ht Ht0 Hb Hrest Hlen. split; [by apply AppendFrame_qenc|].
  pose proof (ParseNextFrame_qenc q rest f0 Hq Hrest) as H.
  specialize (H ltac:(apply bytes_ok_app; auto using qenc_ok) Hlen Ht0).
  destruct (ParseNextFrame _ _). rewrite Hv. tauto.
Qed.

Definition sample_frame : Frame :=
  { zero_frame with Type_ := 0x0f; Stream := mkStreamFrame 4 70000 true true [104; 105] }.
Lemma frame_roundtrip_witness :
  AppendFrame [7] sample_frame
    = Ok ([7] ++ qenc (QStream (mkStreamFrame 4 70000 true true [104; 105])))
  /\ view (fst (ParseNextFrame (qenc (QStream (mkStreamFrame 4 70000 true true [104; 105])) ++ [1])
                  zero_frame)) = view sample_frame.
Proof.
  assert (H := frame_roundtrip sample_frame zero_frame
    (QStream (mkStreamFrame 4 70000 true true [104; 105])) [7] [1]).
  destruct H as [H1 H2].
  1: reflexivity.
  1: (split_and!; [split; [vm_compute; discriminate|reflexivity]..|split; [|split; [vm_compute; discriminate|reflexivity]]]; apply (bool_decide_unpack _); vm_compute; exact I).
  1, 2: (split_and!; cbn; (lia || done)).
  1: apply (bool_decide_unpack _); vm_compute; exact I.
  1: by left.
  1: reflexivity.
  split; [exact H1|]. destruct (ParseNextFrame _ _) as [f' r]. exact (proj2 H2).
Defined.

(** The parser is safe on every input.  Given any bytes at all and any
    reused frame, [ParseNextFrame] never panics (no slice out of range, the ACK
    range loop terminates); when it succeeds it has consumed at least one byte
    and no more than the packet holds, and the frame it leaves is meaningful
    and well-formed: every integer below 2^62, every array of its size. *)
Theorem frame_parse_safe (b : bytes) (f : Frame) :
  bytes_ok b -> zlen b < 2 ^ 62 -> ack_typed (Ack f) ->
  let '(f', r) := ParseNextFrame b f in
  match r with
  | Ok n => 1 <= n <= zlen b /\ accepted f'
  | Err _ => True
  | Panic => False
  end.
Proof. apply ParseNextFrame_safe. Qed.

Lemma frame_parse_safe_witness :
  snd (ParseNextFrame [0x02; 0x0a; 0x01; 0x02; 0x03; 0x00] zero_frame) = Err ErrTruncatedFrame
  /\ accepted (fst (ParseNextFrame [0x02; 0x0a; 0x01; 0x00; 0x03; 0x00] zero_frame)).
Proof.
  split; [reflexivity|].
  assert (H := frame_parse_safe [0x02; 0x0a; 0x01; 0x00; 0x03; 0x00] zero_frame).
  refine (proj2 (H _ _ _)).
  - apply (bool_decide_unpack _); vm_compute; exact I.
  - reflexivity.
  - split_and!; cbn; (lia || done).
Defined.

(** Whatever the parser accepts can be sent on.  The frame of a successful
    parse is serialized without panic, and parsing the new image yields the
    same meaning again and consumes all of it, although the input may have used
    longer varints than the serializer does. *)
Theorem frame_reencode (b : bytes) (f0 f f1 : Frame) (n : Z) :
  bytes_ok b -> zlen b < 2 ^ 62 -> ack_typed (Ack f0) -> ack_typed (Ack f1) ->
  ParseNextFrame b f0 = (f, Ok n) ->
  exists enc, AppendFrame [] f = Ok enc
    /\ (zlen enc < 2 ^ 62 ->
        let '(f', r) := ParseNextFrame enc f1 in r = Ok (zlen enc) /\ view f' = view f).
Proof.
  intros Hb Hlen Ht0 Ht1 Hp. pose proof (ParseNextFrame_safe b f0 Hb Hlen Ht0) as H.
  rewrite Hp in H. destruct H as (_ & q & Hv & Hq & Ht).
  exists (qenc q). split; [by apply (AppendFrame_qenc [])|]. intros Hl.
  assert (Hr : rest_ok q []) by (destruct q; cbn; auto).
  pose proof (ParseNextFrame_qenc q [] f1 Hq Hr) as H. rewrite app_nil_r in H.
  specialize (H (qenc_ok q Hq) Hl Ht1). destruct (ParseNextFrame _ f1). rewrite Hv. tauto.
Qed.

Lemma frame_reencode_witness :
  exists enc, AppendFrame [] (fst (ParseNextFrame [0x10; 0x40; 0x05] zero_frame)) = Ok enc
    /\ (zlen enc < 2 ^ 62 ->
        let '(f', r) := ParseNextFrame enc zero_frame in
        r = Ok (zlen enc)
        /\ view f' = view (fst (ParseNextFrame [0x10; 0x40; 0x05] zero_frame))).
Proof.
  apply (frame_reencode [0x10; 0x40; 0x05] zero_frame _ zero_frame 3).
  - apply (bool_decide_unpack _); vm_compute; exact I.
  - reflexivity.
  - split_and!; cbn; (lia || done).
  - split_and!; cbn; (lia || done).
  - reflexivity.
Defined.

(** The push iterator [Frames] delivers a serialized packet frame by frame.
    Over the payload made of the images of [qs] the consumer sees exactly those
    frames in order, until it asks to stop; the model's fuel (the payload
    length) never runs out first. *)
Theorem frames_iterate_packet {St : Type}
    (consume : St -> option qframe + wire_error -> St * bool) (qs : list qframe) (s : St) :
  packet_ok qs -> zlen (packet qs) < 2 ^ 62 ->
  Frames (by_view consume) (packet qs) s = feed_frames consume qs s.
Proof.
  intros Hok Hlen. apply Frames_loop_feed; try done.
Qed.

Lemma frames_iterate_packet_witness :
  Frames (by_view (fun acc x => (acc ++ [x], zlen acc <? 2)))
    (packet [QPing; QPadding 3; QMaxData (mkMaxDataFrame 5); QHandshakeDone]) []
  = [inl (Some QPing); inl (Some (QPadding 3)); inl (Some (QMaxData (mkMaxDataFrame 5)))].
Proof.
  rewrite (frames_iterate_packet (fun acc x => (acc ++ [x], zlen acc <? 2))).
  - reflexivity.
  - cbn; unfold vi_ok. split_and!; (lia || done).
  - reflexivity.
Defined.

(** The iterator on an arbitrary payload.  It terminates (more fuel than
    the payload length changes nothing, for any consumer), delivers only
    well-formed frames, and reports at most one error, as its last event. *)
Theorem frames_any_payload (payload : bytes) :
  bytes_ok payload -> zlen payload < 2 ^ 62 ->
  (exists fs errs, Frames collect payload [] = map inl fs ++ map inr errs
     /\ Forall accepted fs /\ (length errs <= 1)%nat)
  /\ forall St (yield : St -> Frame + wire_error -> St * bool) fuel s,
       (length payload <= fuel)%nat ->
       Frames_loop fuel yield payload zero_frame s = Frames yield payload s.
Proof.
  intros Hb Hlen. assert (Ht : ack_typed (Ack zero_frame)) by (split_and!; cbn; (lia || done)).
  split; [by apply (Frames_loop_collect _ _ _ [])|].
  intros St yield fuel s Hf. apply Frames_loop_fuel; auto.
Qed.

Lemma frames_any_payload_witness :
  exists fs errs, Frames collect [1; 0; 0; 0x21; 1] [] = map inl fs ++ map inr errs
     /\ Forall accepted fs /\ (length errs <= 1)%nat.
Proof.
  apply (frames_any_payload [1; 0; 0; 0x21; 1]).
  - apply (bool_decide_unpack _); vm_compute; exact I.
  - reflexivity.
Defined.
