(* ===== verification/StreamTypes.v ===== *)
(** * Stream identifiers, stream states and errors (RFC 9000 sections 2.1, 3, 20)

    Models [src/net/quic/core/stream/id.go] (identifiers: two low bits for
    initiator and direction, the rest a sequence number), [state.go] (the send
    and receive state machines and their transition tables) and the error values
    of [error.go] (error texts are not modelled).  The theorems: identifiers and
    (type, number) pairs are in bijection, the predicates read the type bits,
    and the transition tables are acyclic with the terminal states as the only
    dead ends. *)

From S2P Require Import Prelude.

(** ** Errors *)
Inductive TransportErrorCode :=
| NoError | InternalError | ConnectionRefused | FlowControlError | StreamLimitError
| StreamStateError | FinalSizeError | FrameEncodingError | TransportParameterError
| ConnectionIDLimitError | ProtocolViolation | InvalidToken | ApplicationErrorErrorCode
| CryptoBufferExceeded | KeyUpdateError | AEADLimitReached | NoViablePath.

#[export] Instance TransportErrorCode_eq_dec : EqDecision TransportErrorCode.
Proof. solve_decision. Defined.

Definition TransportErrorCode_value (e : TransportErrorCode) : Z :=
  match e with
  | NoError => 0x00 | InternalError => 0x01 | ConnectionRefused => 0x02
  | FlowControlError => 0x03 | StreamLimitError => 0x04 | StreamStateError => 0x05
  | FinalSizeError => 0x06 | FrameEncodingError => 0x07 | TransportParameterError => 0x08
  | ConnectionIDLimitError => 0x09 | ProtocolViolation => 0x0a | InvalidToken => 0x0b
  | ApplicationErrorErrorCode => 0x0c | CryptoBufferExceeded => 0x0d | KeyUpdateError => 0x0e
  | AEADLimitReached => 0x0f | NoViablePath => 0x10
  end.

(** The errors the package returns: the three error structs, the sentinels,
    and [io.EOF] and [context.Canceled] of the standard library. *)
Inductive stream_error :=
| TransportError (code : TransportErrorCode)
| StreamError (id code : Z) (remote : bool)
| ApplicationError (code : Z)
| ErrDeadline
| ErrStreamClosed
| ErrStreamReset
| ErrConnClosed
| ErrWouldBlock
| ErrWriteLimitReached
| Err0RTTRejected
| io_EOF
| context_Canceled.

#[export] Instance stream_error_eq_dec : EqDecision stream_error.
Proof. solve_decision. Defined.

(** ** Stream identifiers *)
Inductive Perspective := PerspectiveClient | PerspectiveServer.
Inductive StreamType :=
| StreamTypeClientBidi | StreamTypeServerBidi | StreamTypeClientUni | StreamTypeServerUni.

#[export] Instance Perspective_eq_dec : EqDecision Perspective.
Proof. solve_decision. Defined.
#[export] Instance StreamType_eq_dec : EqDecision StreamType.
Proof. solve_decision. Defined.

Definition StreamType_value (st : StreamType) : Z :=
  match st with
  | StreamTypeClientBidi => 0x00
  | StreamTypeServerBidi => 0x01
  | StreamTypeClientUni => 0x02
  | StreamTypeServerUni => 0x03
  end.

(** The conversion [StreamType(v)] of a two-bit value. *)
Definition StreamType_of (v : Z) : StreamType :=
  if v =? 0 then StreamTypeClientBidi
  else if v =? 1 then StreamTypeServerBidi
  else if v =? 2 then StreamTypeClientUni
  else StreamTypeServerUni.

Definition NewStreamID (st : StreamType) (streamNum : Z) : Z :=
  if streamNum =? 0 then StreamType_value st
  else Z.lor (u64 (Z.shiftl (streamNum - 1) 2)) (StreamType_value st).

Definition Type_of_id (id : Z) : StreamType := StreamType_of (Z.land id 0x03).
Definition Initiator (id : Z) : Perspective :=
  if Z.land id 0x01 =? 0 then PerspectiveClient else PerspectiveServer.
Definition IsClientInitiated (id : Z) : bool := Z.land id 0x01 =? 0.
Definition IsServerInitiated (id : Z) : bool := negb (Z.land id 0x01 =? 0).
Definition IsBidi (id : Z) : bool := Z.land id 0x02 =? 0.
Definition IsUni (id : Z) : bool := negb (Z.land id 0x02 =? 0).
Definition StreamNum (id : Z) : Z := u64 (Z.shiftr id 2 + 1).

(** ** State machines *)
Inductive SendState :=
| SendStateReady | SendStateSend | SendStateDataSent | SendStateResetSent
| SendStateDataRecvd | SendStateResetRecvd.
Inductive RecvState :=
| RecvStateRecv | RecvStateSizeKnown | RecvStateDataRecvd | RecvStateDataRead
| RecvStateResetRecvd | RecvStateResetRead.

#[export] Instance SendState_eq_dec : EqDecision SendState.
Proof. solve_decision. Defined.
#[export] Instance RecvState_eq_dec : EqDecision RecvState.
Proof. solve_decision. Defined.

Definition SendState_IsTerminal (s : SendState) : bool :=
  bool_decide (s = SendStateDataRecvd) || bool_decide (s = SendStateResetRecvd).
Definition CanWrite (s : SendState) : bool :=
  bool_decide (s = SendStateReady) || bool_decide (s = SendStateSend).
Definition RecvState_IsTerminal (s : RecvState) : bool :=
  bool_decide (s = RecvStateDataRead) || bool_decide (s = RecvStateResetRead).
Definition CanRead (s : RecvState) : bool :=
  bool_decide (s = RecvStateRecv) || bool_decide (s = RecvStateSizeKnown)
  || bool_decide (s = RecvStateDataRecvd).

Definition ValidateSendTransition (from to : SendState) : bool :=
  if decide (from = to) then true
  else
    match from with
    | SendStateReady =>
        bool_decide (to = SendStateSend) || bool_decide (to = SendStateDataSent)
        || bool_decide (to = SendStateResetSent)
    | SendStateSend => bool_decide (to = SendStateDataSent) || bool_decide (to = SendStateResetSent)
    | SendStateDataSent =>
        bool_decide (to = SendStateDataRecvd) || bool_decide (to = SendStateResetSent)
    | SendStateResetSent => bool_decide (to = SendStateResetRecvd)
    | SendStateDataRecvd | SendStateResetRecvd => false
    end.

Definition ValidateRecvTransition (from to : RecvState) : bool :=
  if decide (from = to) then true
  else
    match from with
    | RecvStateRecv =>
        bool_decide (to = RecvStateSizeKnown) || bool_decide (to = RecvStateDataRecvd)
        || bool_decide (to = RecvStateResetRecvd)
    | RecvStateSizeKnown =>
        bool_decide (to = RecvStateDataRecvd) || bool_decide (to = RecvStateResetRecvd)
    | RecvStateDataRecvd =>
        bool_decide (to = RecvStateDataRead) || bool_decide (to = RecvStateResetRecvd)
    | RecvStateResetRecvd => bool_decide (to = RecvStateResetRead)
    | RecvStateDataRead | RecvStateResetRead => false
    end.

(** ** Lemmas on identifiers *)
Lemma StreamType_value_range st : 0 <= StreamType_value st < 4.
Proof. destruct st; cbn; lia. Qed.

Lemma StreamType_of_value st : StreamType_of (StreamType_value st) = st.
Proof. by destruct st. Qed.

Lemma StreamType_value_of v : 0 <= v < 4 -> StreamType_value (StreamType_of v) = v.
Proof. intros. unfold StreamType_of. repeat case_test; cbn; lia. Qed.

Lemma land_low2 id : Z.land id 0x03 = id mod 4.
Proof. change 0x03 with (2 ^ 2 - 1). by rewrite land_mask. Qed.

(** Every accessor depends on the two low bits only. *)
Lemma land_via_low2 id m : Z.land 0x03 m = m -> Z.land id m = Z.land (id mod 4) m.
Proof. intros Hm. rewrite <- land_low2, <- Z.land_assoc. by rewrite Hm. Qed.

Lemma low2_cases id : id mod 4 = 0 \/ id mod 4 = 1 \/ id mod 4 = 2 \/ id mod 4 = 3.
Proof. lia. Qed.

Lemma NewStreamID_value st n :
  1 <= n <= 2 ^ 62 -> NewStreamID st n = (n - 1) * 4 + StreamType_value st.
Proof.
  intros Hn. pose proof (StreamType_value_range st). unfold NewStreamID. case_test; [lia|].
  rewrite Z.shiftl_mul_pow2 by lia. rewrite u64_small by (unfold is_u64; lia).
  rewrite lor_add by lia. lia.
Qed.

(** ** Properties *)

(** Stream identifiers are in bijection with (type, ordinal) pairs.  For
    every type and every ordinal from 1 to 2^62, [Type] and [StreamNum] of
    [NewStreamID] give the pair back; conversely every 64-bit identifier is
    rebuilt from its type and ordinal. *)
Theorem stream_id_roundtrip (st : StreamType) (n id : Z) :
  1 <= n <= 2 ^ 62 -> is_u64 id ->
  Type_of_id (NewStreamID st n) = st /\ StreamNum (NewStreamID st n) = n
  /\ NewStreamID (Type_of_id id) (StreamNum id) = id.
Proof.
  intros Hn Hid. pose proof (StreamType_value_range st) as Hst. unfold is_u64 in Hid.
  unfold Type_of_id, StreamNum. rewrite !land_low2, !Z.shiftr_div_pow2 by lia.
  rewrite !u64_small by (unfold is_u64; rewrite ?NewStreamID_value by lia; lia).
  rewrite !NewStreamID_value by lia. split_and!.
  - replace (_ mod 4) with (StreamType_value st) by lia. apply StreamType_of_value.
  - lia.
  - rewrite StreamType_value_of by lia. lia.
Qed.

Lemma stream_id_roundtrip_witness :
  Type_of_id (NewStreamID StreamTypeServerUni (2 ^ 62)) = StreamTypeServerUni
  /\ StreamNum (NewStreamID StreamTypeServerUni (2 ^ 62)) = 2 ^ 62
  /\ NewStreamID (Type_of_id 7) (StreamNum 7) = 7.
Proof. apply (stream_id_roundtrip StreamTypeServerUni (2 ^ 62) 7); unfold is_u64; lia. Defined.

(** The predicates agree with the type bits on every identifier: exactly
    one of client/server holds and matches [Initiator], exactly one of
    bidirectional/unidirectional holds, and together they determine [Type]. *)
Theorem stream_id_predicates (id : Z) :
  IsServerInitiated id = negb (IsClientInitiated id)
  /\ IsUni id = negb (IsBidi id)
  /\ (IsClientInitiated id = true <-> Initiator id = PerspectiveClient)
  /\ Type_of_id id =
       match IsClientInitiated id, IsBidi id with
       | true, true => StreamTypeClientBidi
       | false, true => StreamTypeServerBidi
       | true, false => StreamTypeClientUni
       | false, false => StreamTypeServerUni
       end.
Proof.
  unfold IsServerInitiated, IsClientInitiated, IsUni, IsBidi, Initiator, Type_of_id.
  rewrite land_low2, (land_via_low2 id 1), (land_via_low2 id 2) by done.
  destruct (low2_cases id) as [-> | [-> | [-> | ->]]]; cbn; split_and!; done.
Qed.

(** Position of a state along its machine. *)
Definition send_rank (s : SendState) : Z :=
  match s with
  | SendStateReady => 0 | SendStateSend => 1 | SendStateDataSent => 2 | SendStateResetSent => 3
  | SendStateDataRecvd => 4 | SendStateResetRecvd => 4
  end.
Definition recv_rank (s : RecvState) : Z :=
  match s with
  | RecvStateRecv => 0 | RecvStateSizeKnown => 1 | RecvStateDataRecvd => 2
  | RecvStateResetRecvd => 3 | RecvStateDataRead => 4 | RecvStateResetRead => 4
  end.

(** The RFC transition tables are acyclic and complete.  Every allowed
    change of state strictly increases the rank (so a stream half makes at most
    four moves), a terminal state allows no change, every other state allows
    one, and a receiving half with data can always be reset before it is read
    to the end. *)
Theorem transitions_acyclic (s s' : SendState) (r r' : RecvState) :
  (ValidateSendTransition s s' = true -> s = s' \/ send_rank s < send_rank s')
  /\ (ValidateRecvTransition r r' = true -> r = r' \/ recv_rank r < recv_rank r')
  /\ (SendState_IsTerminal s = true <-> forall t, ValidateSendTransition s t = true -> t = s)
  /\ (RecvState_IsTerminal r = true <-> forall t, ValidateRecvTransition r t = true -> t = r)
  /\ (CanRead r = true -> ValidateRecvTransition r RecvStateResetRecvd = true)
  /\ (CanWrite s = true -> ValidateSendTransition s SendStateResetSent = true).
Proof.
  split_and!.
  - destruct s, s'; cbn; (done || (intros _; right; lia) || auto).
  - destruct r, r'; cbn; (done || (intros _; right; lia) || auto).
  - destruct s; cbn; (split; [try done|intros H; try done]);
      first [by intros _ []|by specialize (H SendStateResetSent eq_refl)
            |by specialize (H SendStateResetRecvd eq_refl)].
  - destruct r; cbn; (split; [try done|intros H; try done]);
      first [by intros _ []|by specialize (H RecvStateResetRecvd eq_refl)
            |by specialize (H RecvStateResetRead eq_refl)].
  - by destruct r.
  - by destruct s.
Qed.
