(* ===== verification/Reassembly.v ===== *)
(** * Stream reassembly buffer (RFC 9000 section 2.2 and 4.5)

    Models [src/net/quic/core/stream/reassembly.go]: the sorted list of
    buffered chunks and [Push], [insertChunk], [Read], [Peek], [Reset],
    [SetFinalSize] and the accessors.  Chunk buffers come from [sync.Pool]; the
    stale bytes such a buffer holds are an argument of the operations that
    allocate ([stale]), so nothing is assumed about them.

    The specification of a buffer is the partial map [content] from stream
    offsets to bytes.  [Push] refines "add these bytes to the map, or report a
    conflict", [Read] refines "take the bytes at the read offset"; the theorems
    lift this to whole runs: whatever the order, duplication and overlap of the
    frames of a stream, the reader sees exactly that stream, in order. *)

From S2P Require Import Prelude Varint StreamTypes.
From stdpp Require Import list.
Open Scope Z_scope.

(** ** Data *)
Definition smallChunkSize : Z := 2048.
Definition largeChunkSize : Z := 16384.

(** [c_pooled] is the capacity of the pooled array behind the chunk, when there
    is one ([pooled != nil]). *)
#[projections(primitive)]
Record reassemblyChunk := mkChunk {
  c_offset : Z;
  c_data : bytes;
  c_pooled : option Z;
  c_isLarge : bool
}.

Definition c_end (c : reassemblyChunk) : Z := u64 (c_offset c + zlen (c_data c)).

#[projections(primitive)]
Record ReassemblyBuffer := mkBuffer {
  readOffset : Z;
  highestOffset : Z;
  finalSize : Z;
  hasFinalSize : bool;
  chunks : list reassemblyChunk
}.

Definition NewReassemblyBuffer : ReassemblyBuffer := mkBuffer 0 0 0 false [].

(** ** Buffers and copies *)

(** The first [n] bytes of a recycled array with contents [stale]. *)
Definition recycled (stale : bytes) (n : Z) : bytes :=
  take (Z.to_nat n) (stale ++ replicate (Z.to_nat n) 0).

(** [allocChunkData]: buffer contents, pooled capacity, large flag. *)
Definition allocChunkData (stale : bytes) (size : Z) : bytes * option Z * bool :=
  if size <=? smallChunkSize then (recycled stale size, Some smallChunkSize, false)
  else if size <=? largeChunkSize then (recycled stale size, Some largeChunkSize, true)
  else (replicate (Z.to_nat size) 0, None, false).

(** [copy(dst[start:], src)]: panics when [start] is past the end, otherwise
    overwrites as much as fits. *)
Definition copy_at {E} (dst : bytes) (start : Z) (src : bytes) : res E bytes :=
  if (0 <=? start) && (start <=? zlen dst) then
    let n := Z.min (zlen dst - start) (zlen src) in
    Ok (ztake start dst ++ ztake n src ++ zdrop (start + n) dst)
  else Panic.

(** [buf, pooled, isLarge := allocChunkData(len(data)); copy(buf, data)] and
    the chunk built from it. *)
Definition new_chunk (stale : bytes) (offset : Z) (data : bytes) : reassemblyChunk :=
  let '(buf, pooled, isLarge) := allocChunkData stale (zlen data) in
  match copy_at (E:=unit) buf 0 data with
  | Ok buf' => mkChunk offset buf' pooled isLarge
  | _ => mkChunk offset buf pooled isLarge
  end.

(** ** insertChunk *)

(** The scan for the chunks touching [offset, end]: [firstOverlap],
    [lastOverlap] and [insertIdx], [-1] standing for "none". *)
Fixpoint scan_chunks (n offset end_ : Z) (cs : list reassemblyChunk)
    (i firstOverlap lastOverlap insertIdx : Z) : Z * Z * Z :=
  match cs with
  | [] => (firstOverlap, lastOverlap, insertIdx)
  | c :: cs' =>
      if (c_offset c <=? end_) && (c_end c >=? offset) then
        let firstOverlap := if firstOverlap =? -1 then i else firstOverlap in
        scan_chunks n offset end_ cs' (i + 1) firstOverlap i insertIdx
      else if (c_offset c >? end_) && (firstOverlap =? -1) then (firstOverlap, lastOverlap, i)
      else
        let insertIdx := if (i =? n - 1) && (firstOverlap =? -1) then n else insertIdx in
        scan_chunks n offset end_ cs' (i + 1) firstOverlap lastOverlap insertIdx
  end.

(** The comparison of the new bytes with the buffered ones. *)
Fixpoint check_overlaps (offset end_ : Z) (data : bytes) (cs : list reassemblyChunk) :
    res stream_error unit :=
  match cs with
  | [] => Ok tt
  | c :: cs' =>
      let overlapStart := Z.max offset (c_offset c) in
      let overlapEnd := Z.min end_ (c_end c) in
      if overlapEnd >? overlapStart then
        let* existingPart := slice (c_data c) (overlapStart - c_offset c) (overlapEnd - c_offset c) in
        let* newPart := slice data (overlapStart - offset) (overlapEnd - offset) in
        if negb (bool_decide (existingPart = newPart)) then Err (TransportError ProtocolViolation)
        else check_overlaps offset end_ data cs'
      else check_overlaps offset end_ data cs'
  end.

Fixpoint copy_chunks (mergedOffset : Z) (cs : list reassemblyChunk) (buf : bytes) :
    res stream_error bytes :=
  match cs with
  | [] => Ok buf
  | c :: cs' =>
      let* buf' := copy_at buf (c_offset c - mergedOffset) (c_data c) in
      copy_chunks mergedOffset cs' buf'
  end.

(** [b.chunks[lo : hi+1]] as a list. *)
Definition chunk_range (cs : list reassemblyChunk) (lo hi : Z) : list reassemblyChunk :=
  ztake (hi + 1 - lo) (zdrop lo cs).

(** The second half of [insertChunk]: compare with the touching chunks, return
    early when the data is contained in one of them, otherwise merge. *)
Definition mergeOverlapping (stale : bytes) (cs : list reassemblyChunk) (offset end_ : Z)
    (data : bytes) (firstOverlap lastOverlap : Z) : res stream_error (list reassemblyChunk) :=
  let mid := chunk_range cs firstOverlap lastOverlap in
  let* _ := check_overlaps offset end_ data mid in
  match mid, last mid with
  | cf :: _, Some cl =>
      if (firstOverlap =? lastOverlap) && (c_offset cf <=? offset) && (c_end cf >=? end_)
      then Ok cs
      else
        let mergedOffset := Z.min offset (c_offset cf) in
        let mergedEnd := Z.max end_ (c_end cl) in
        let mergedLen := mergedEnd - mergedOffset in
        let '(mergedData, mergedPooled, mergedIsLarge) := allocChunkData stale mergedLen in
        let* mergedData := copy_chunks mergedOffset mid mergedData in
        let* mergedData := copy_at mergedData (offset - mergedOffset) data in
        Ok (ztake firstOverlap cs
            ++ [mkChunk mergedOffset mergedData mergedPooled mergedIsLarge]
            ++ zdrop (lastOverlap + 1) cs)
  | _, _ => Panic
  end.

Definition insertChunk (stale : bytes) (cs : list reassemblyChunk) (offset : Z) (data : bytes) :
    res stream_error (list reassemblyChunk) :=
  let end_ := u64 (offset + zlen data) in
  let n := zlen cs in
  match last cs with
  | None => Ok (cs ++ [new_chunk stale offset data])
  | Some c =>
      if offset =? c_end c then
        (if match c_pooled c with Some cap => cap - zlen (c_data c) >=? zlen data | None => false end
         then Ok (ztake (n - 1) cs ++ [{ c with c_data := c_data c ++ data }])
         else Ok (cs ++ [new_chunk stale offset data]))
      else if offset >? c_end c then Ok (cs ++ [new_chunk stale offset data])
      else
        let '(firstOverlap, lastOverlap, insertIdx) := scan_chunks n offset end_ cs 0 (-1) (-1) 0 in
        if firstOverlap =? -1 then
          Ok (ztake insertIdx cs ++ [new_chunk stale offset data] ++ zdrop insertIdx cs)
        else mergeOverlapping stale cs offset end_ data firstOverlap lastOverlap
  end.

(** ** Operations *)

(** [Push]: the buffer after the call and the error, if any.  The final size
    and the highest offset are recorded before [insertChunk] may still fail. *)
Definition Push (stale : bytes) (b : ReassemblyBuffer) (offset : Z) (data : bytes) (fin : bool) :
    ReassemblyBuffer * res stream_error unit :=
  if (offset >? Varint.Max) || (zlen data >? Varint.Max) then
    (b, Err (TransportError FrameEncodingError))
  else
    let end_ := u64 (offset + zlen data) in
    if (end_ <? offset) || (end_ >? Varint.Max) then (b, Err (TransportError FrameEncodingError))
    else if hasFinalSize b && fin && negb (finalSize b =? end_) then
      (b, Err (TransportError FinalSizeError))
    else if hasFinalSize b && (end_ >? finalSize b) then (b, Err (TransportError FinalSizeError))
    else if fin && negb (hasFinalSize b) && (end_ <? highestOffset b) then
      (b, Err (TransportError FinalSizeError))
    else
      let b := if fin && negb (hasFinalSize b)
               then { b with finalSize := end_; hasFinalSize := true } else b in
      let b := if end_ >? highestOffset b then { b with highestOffset := end_ } else b in
      if end_ <=? readOffset b then (b, Ok tt)
      else
        let trim := readOffset b - offset in
        match (if offset <? readOffset b then slice data trim (zlen data) else Ok data) with
        | Ok data' =>
            let offset' := if offset <? readOffset b then readOffset b else offset in
            if zlen data' =? 0 then (b, Ok tt)
            else
              match insertChunk stale (chunks b) offset' data' with
              | Ok cs => ({ b with chunks := cs }, Ok tt)
              | Err e => (b, Err e)
              | Panic => (b, Panic)
              end
        | Err e => (b, Err e)
        | Panic => (b, Panic)
        end.

Definition IsAllDataRead (b : ReassemblyBuffer) : bool :=
  hasFinalSize b && (readOffset b >=? finalSize b).

(** [Read] into a slice of length [plen]: the buffer after the call, the bytes
    copied to the caller and whether [io.EOF] is returned. *)
Definition Read (b : ReassemblyBuffer) (plen : Z) : ReassemblyBuffer * bytes * bool :=
  if plen =? 0 then (b, [], false)
  else
    match chunks b with
    | [] => (b, [], IsAllDataRead b)
    | c :: cs' =>
        if c_offset c >? readOffset b then (b, [], IsAllDataRead b)
        else
          let available := zlen (c_data c) in
          let toCopy := Z.min plen available in
          let out := ztake toCopy (c_data c) in
          let b := { b with readOffset := u64 (readOffset b + toCopy) } in
          let b :=
            if toCopy =? available then { b with chunks := cs' }
            else { b with chunks :=
                     { c with c_offset := u64 (c_offset c + toCopy);
                              c_data := zdrop toCopy (c_data c) } :: cs' } in
          (b, out, IsAllDataRead b)
    end.

(** [Peek]: the bytes copied and whether [io.EOF] is returned. *)
Definition Peek (b : ReassemblyBuffer) (plen : Z) : bytes * bool :=
  if plen =? 0 then ([], false)
  else
    match chunks b with
    | [] => ([], IsAllDataRead b)
    | c :: _ =>
        if c_offset c >? readOffset b then ([], IsAllDataRead b)
        else
          let toCopy := Z.min plen (zlen (c_data c)) in
          (ztake toCopy (c_data c),
           hasFinalSize b && (u64 (readOffset b + toCopy) >=? finalSize b))
    end.

Definition Reset (b : ReassemblyBuffer) : ReassemblyBuffer :=
  { b with chunks := []; readOffset := 0; highestOffset := 0; finalSize := 0;
           hasFinalSize := false }.

Definition AvailableContiguous (b : ReassemblyBuffer) : Z :=
  match chunks b with
  | [] => 0
  | c :: _ => if c_offset c >? readOffset b then 0 else zlen (c_data c)
  end.

Definition FinalSize (b : ReassemblyBuffer) : Z * bool := (finalSize b, hasFinalSize b).

Definition SetFinalSize (b : ReassemblyBuffer) (fs : Z) : ReassemblyBuffer :=
  let b := { b with finalSize := fs; hasFinalSize := true } in
  if fs >? highestOffset b then { b with highestOffset := fs } else b.

(** ** The specification: a partial map from stream offsets to bytes *)
Definition zat (l : bytes) (i : Z) : option Z := if 0 <=? i then l !! Z.to_nat i else None.
Definition chunk_at (c : reassemblyChunk) (x : Z) : option Z := zat (c_data c) (x - c_offset c).
Fixpoint content (cs : list reassemblyChunk) (x : Z) : option Z :=
  match cs with
  | [] => None
  | c :: cs' => match chunk_at c x with Some v => Some v | None => content cs' x end
  end.

(** The map after adding [data] at [offset]. *)
Definition overlay (data : bytes) (offset : Z) (m : Z -> option Z) (x : Z) : option Z :=
  if (offset <=? x) && (x <? offset + zlen data) then zat data (x - offset) else m x.

(** [data] at [offset] contradicts nothing in [m]. *)
Definition agrees (data : bytes) (offset : Z) (m : Z -> option Z) : Prop :=
  forall x v, m x = Some v -> offset <= x < offset + zlen data -> zat data (x - offset) = Some v.

(** Sorted, disjoint, non-empty chunks inside [lo, hi). *)
Fixpoint wf_chunks (lo : Z) (cs : list reassemblyChunk) (hi : Z) : Prop :=
  match cs with
  | [] => lo <= hi
  | c :: cs' =>
      lo <= c_offset c /\ c_data c <> []
      /\ wf_chunks (c_offset c + zlen (c_data c)) cs' hi
  end.

(** ** Indexed access to byte strings *)
Lemma zat_range l i v : zat l i = Some v -> 0 <= i < zlen l.
Proof.
  unfold zat, zlen. case_test; [|done]. intros H. apply lookup_lt_Some in H. lia.
Qed.
Lemma zat_is_Some l i : 0 <= i < zlen l -> is_Some (zat l i).
Proof. unfold zat, zlen. intros. case_test; [|lia]. apply lookup_lt_is_Some_2. lia. Qed.
Lemma zat_None l i : i < 0 \/ zlen l <= i -> zat l i = None.
Proof.
  intros H. destruct (zat l i) eqn:E; [|done]. apply zat_range in E. lia.
Qed.
Lemma zat_app l k i : zat (l ++ k) i = if i <? zlen l then zat l i else zat k (i - zlen l).
Proof.
  unfold zat, zlen. repeat case_test; try lia; try done.
  - rewrite lookup_app_l by lia. done.
  - rewrite lookup_app_r by lia. f_equal. lia.
Qed.
Lemma zat_ztake n l i : zat (ztake n l) i = if i <? n then zat l i else None.
Proof.
  unfold zat, ztake. repeat case_test; try done.
  - by rewrite lookup_take_lt by lia.
  - by rewrite lookup_take_ge by lia.
Qed.
Lemma zat_zdrop n l i : 0 <= n -> zat (zdrop n l) i = if 0 <=? i then zat l (n + i) else None.
Proof.
  intros. unfold zat, zdrop. repeat case_test; try lia; try done.
  rewrite lookup_drop. f_equal. lia.
Qed.
Lemma zat_ext l k : (forall i, 0 <= i -> zat l i = zat k i) -> l = k.
Proof.
  intros H. apply list_eq. intros i. specialize (H (Z.of_nat i) ltac:(lia)). unfold zat in H.
  case_hyp H; [|lia]. by rewrite Nat2Z.id in H.
Qed.

Lemma zlen_pos {A} (l : list A) : l <> [] -> 0 < zlen l.
Proof. destruct l; [done|]. rewrite zlen_cons. pose proof (zlen_nonneg l). lia. Qed.
Lemma zlen_ne {A} (l : list A) : 0 < zlen l -> l <> [].
Proof. by destruct l. Qed.

Lemma copy_at_ok {E} dst start src :
  0 <= start -> start + zlen src <= zlen dst ->
  copy_at (E:=E) dst start src = Ok (ztake start dst ++ src ++ zdrop (start + zlen src) dst).
Proof.
  intros. pose proof (zlen_nonneg src). unfold copy_at.
  test_true ((0 <=? start) && (start <=? zlen dst)). cbv zeta.
  rewrite Z.min_r by lia. by rewrite (ztake_all src) by lia.
Qed.
Lemma copied_zlen (dst : bytes) start (src : bytes) :
  0 <= start -> start + zlen src <= zlen dst ->
  zlen (ztake start dst ++ src ++ zdrop (start + zlen src) dst) = zlen dst.
Proof.
  intros. pose proof (zlen_nonneg src). rewrite !zlen_app, zlen_ztake, zlen_zdrop by lia. lia.
Qed.
Lemma copied_zat dst start src i :
  0 <= start -> start + zlen src <= zlen dst ->
  zat (ztake start dst ++ src ++ zdrop (start + zlen src) dst) i
  = if (start <=? i) && (i <? start + zlen src) then zat src (i - start) else zat dst i.
Proof.
  intros. pose proof (zlen_nonneg src). rewrite !zat_app, zat_ztake, zat_zdrop by lia.
  rewrite zlen_ztake by lia. repeat case_test; try lia; try done; bool_simpl.
  all: try (f_equal; lia). all: try (rewrite andb_false_iff, !Z.ltb_ge, !Z.leb_gt in *; lia).
Qed.

Lemma recycled_zlen stale n : 0 <= n -> zlen (recycled stale n) = n.
Proof.
  intros. unfold recycled, zlen. rewrite length_take, length_app, length_replicate. lia.
Qed.
Lemma allocChunkData_zlen stale n :
  0 <= n -> zlen (fst (fst (allocChunkData stale n))) = n.
Proof.
  intros. unfold allocChunkData. repeat case_test; cbn [fst]; rewrite ?recycled_zlen by lia; [done..|].
  unfold zlen. rewrite length_replicate. lia.
Qed.
Lemma new_chunk_spec stale offset data :
  c_offset (new_chunk stale offset data) = offset /\ c_data (new_chunk stale offset data) = data.
Proof.
  unfold new_chunk. pose proof (zlen_nonneg data).
  pose proof (allocChunkData_zlen stale (zlen data) ltac:(lia)) as Hl.
  destruct (allocChunkData stale (zlen data)) as [[buf pooled] isLarge]. cbn [fst] in Hl.
  rewrite copy_at_ok by lia. cbn [c_offset c_data]. split; [done|].
  rewrite zdrop_all by lia. by rewrite app_nil_r.
Qed.

(** ** Chunk lists *)
Definition c_stop (c : reassemblyChunk) : Z := c_offset c + zlen (c_data c).

Lemma chunk_at_range c x v : chunk_at c x = Some v -> c_offset c <= x < c_stop c.
Proof. unfold chunk_at, c_stop. intros H. apply zat_range in H. lia. Qed.
Lemma chunk_at_None c x : x < c_offset c \/ c_stop c <= x -> chunk_at c x = None.
Proof. unfold chunk_at, c_stop. intros H. apply zat_None. lia. Qed.
Lemma chunk_at_is_Some c x : c_offset c <= x < c_stop c -> is_Some (chunk_at c x).
Proof. unfold chunk_at, c_stop. intros H. apply zat_is_Some. lia. Qed.

Lemma content_app l k x :
  content (l ++ k) x = match content l x with Some v => Some v | None => content k x end.
Proof. induction l as [|c l IH]; [done|]. cbn. by destruct (chunk_at c x). Qed.

Lemma wf_le lo cs hi : wf_chunks lo cs hi -> lo <= hi.
Proof.
  revert lo. induction cs as [|c cs IH]; intros lo; cbn [wf_chunks]; [done|].
  intros (H1 & H2 & H3). apply IH in H3. apply zlen_pos in H2. lia.
Qed.
Lemma wf_weaken lo lo' cs hi hi' :
  lo' <= lo -> hi <= hi' -> wf_chunks lo cs hi -> wf_chunks lo' cs hi'.
Proof.
  intros Hlo Hhi. revert lo lo' Hlo. induction cs as [|c cs IH]; intros lo lo' Hlo;
    cbn [wf_chunks]; [lia|].
  intros (H1 & H2 & H3). split_and!; [lia|done|]. by eapply IH; [|exact H3].
Qed.
Lemma wf_app lo l k hi :
  wf_chunks lo (l ++ k) hi <-> exists m, wf_chunks lo l m /\ wf_chunks m k hi.
Proof.
  revert lo. induction l as [|c l IH]; intros lo; cbn [app wf_chunks].
  - split; [intros H; exists lo; split; [lia|done]|]. intros (m & H1 & H2).
    by eapply wf_weaken; [exact H1| |exact H2].
  - rewrite IH. split.
    + intros (H1 & H2 & m & H3 & H4). eauto.
    + intros (m & (H1 & H2 & H3) & H4). eauto 10.
Qed.
Lemma wf_one lo c hi :
  wf_chunks lo [c] hi <-> lo <= c_offset c /\ c_data c <> [] /\ c_stop c <= hi.
Proof. done. Qed.

Lemma content_outside lo cs hi x :
  wf_chunks lo cs hi -> x < lo \/ hi <= x -> content cs x = None.
Proof.
  revert lo. induction cs as [|c cs IH]; intros lo; cbn [wf_chunks content]; [done|].
  intros (H1 & H2 & H3) Hx. pose proof (wf_le _ _ _ H3). apply zlen_pos in H2.
  rewrite chunk_at_None by (unfold c_stop; lia). eapply IH; [exact H3|lia].
Qed.
Lemma content_range lo cs hi x v :
  wf_chunks lo cs hi -> content cs x = Some v -> lo <= x < hi.
Proof.
  intros Hw Hc. destruct (decide (lo <= x < hi)); [done|].
  rewrite (content_outside lo cs hi) in Hc; [done|done|lia].
Qed.

Lemma c_end_stop lo c hi :
  0 <= lo -> hi < 2 ^ 64 -> lo <= c_offset c -> c_stop c <= hi -> c_end c = c_stop c.
Proof.
  intros. unfold c_end. pose proof (zlen_nonneg (c_data c)). apply u64_small.
  unfold is_u64, c_stop in *. lia.
Qed.

Lemma wf_lookup lo cs hi c :
  wf_chunks lo cs hi -> c ∈ cs -> lo <= c_offset c /\ c_data c <> [] /\ c_stop c <= hi.
Proof.
  intros Hw Hc. apply list_elem_of_split in Hc as (l & k & ->).
  apply wf_app in Hw as (m & H1 & H2). cbn [wf_chunks] in H2. destruct H2 as (H2 & H3 & H4).
  apply wf_le in H1, H4. unfold c_stop. split_and!; [lia|done|lia].
Qed.

(** ** The scan cuts the list in three: before, touching, after *)
Section Scan.
Context (offset end_ lo hi : Z) (Hlo : 0 <= lo) (Hhi : hi < 2 ^ 64) (Hoe : offset < end_).

Definition before (c : reassemblyChunk) : Prop := c_stop c < offset.
Definition touching (c : reassemblyChunk) : Prop := c_offset c <= end_ /\ offset <= c_stop c.
Definition after (c : reassemblyChunk) : Prop := end_ < c_offset c.

Lemma chunks_split cs : forall l,
  wf_chunks l cs hi -> exists pre mid post,
    cs = pre ++ mid ++ post /\ Forall before pre /\ Forall touching mid /\ Forall after post
    /\ (offset <= l -> pre = []) /\ (end_ < l -> mid = []).
Proof using Hoe.
  induction cs as [|c cs IH]; intros l Hw.
  { exists [], [], []. split_and!; done || constructor. }
  cbn [wf_chunks] in Hw. destruct Hw as (H1 & H2 & H3). apply zlen_pos in H2.
  destruct (IH _ H3) as (pre & mid & post & -> & Hpre & Hmid & Hpost & Hp & Hm). clear IH.
  destruct (decide (c_stop c < offset)) as [Hb|Hb].
  { exists (c :: pre), mid, post. split_and!; try done.
    - by constructor.
    - intros. unfold c_stop in Hb. lia.
    - intros. unfold c_stop in Hb. lia. }
  rewrite Hp in * by (unfold c_stop in Hb; lia). cbn [app] in *.
  destruct (decide (c_offset c <= end_)) as [He|He].
  { exists [], (c :: mid), post. split_and!; try done.
    - constructor; [|done]. split; [done|lia].
    - intros. lia. }
  rewrite Hm in * by lia. exists [], [], (c :: post). split_and!; try done. by constructor; [unfold after; lia|].
Qed.

Context (n : Z).

Lemma scan_before pre : forall k i f l ins l0,
  wf_chunks l0 (pre ++ k) hi -> 0 <= l0 -> Forall before pre ->
  exists ins', scan_chunks n offset end_ (pre ++ k) i f l ins
               = scan_chunks n offset end_ k (i + zlen pre) f l ins'.
Proof using Hhi Hoe.
  induction pre as [|c pre IH]; intros k i f l ins l0 Hw Hl0 Hb.
  { exists ins. change (zlen []) with 0. by rewrite Z.add_0_r. }
  apply Forall_cons in Hb as [Hc Hb]. cbn [app wf_chunks scan_chunks] in *.
  destruct Hw as (H1 & H2 & H3). pose proof (wf_le _ _ _ H3). apply zlen_pos in H2.
  unfold before, c_stop in Hc.
  rewrite (c_end_stop l0 c hi) by (unfold c_stop; lia). rewrite Z.geb_leb. unfold c_stop.
  test_false (offset <=? c_offset c + zlen (c_data c)). rewrite andb_false_r.
  rewrite Z.gtb_ltb. test_false (end_ <? c_offset c). cbn [andb].
  edestruct (IH k (i + 1) f l) as [ins' E]; [exact H3|lia|done|]. eexists. rewrite E, zlen_cons.
  f_equal. lia.
Qed.

Lemma scan_touching mid : forall k i f l ins l0,
  wf_chunks l0 (mid ++ k) hi -> 0 <= l0 -> Forall touching mid -> 0 <= i -> mid <> [] ->
  scan_chunks n offset end_ (mid ++ k) i f l ins
  = scan_chunks n offset end_ k (i + zlen mid) (if f =? -1 then i else f) (i + zlen mid - 1) ins.
Proof using Hhi.
  induction mid as [|c mid IH]; intros k i f l ins l0 Hw Hl0 Hm Hi Hne; [done|].
  apply Forall_cons in Hm as [[Hc1 Hc2] Hm]. cbn [app wf_chunks scan_chunks] in *.
  destruct Hw as (H1 & H2 & H3). pose proof (wf_le _ _ _ H3). apply zlen_pos in H2.
  rewrite (c_end_stop l0 c hi) by (unfold c_stop in *; lia). rewrite Z.geb_leb.
  test_true ((c_offset c <=? end_) && (offset <=? c_stop c)). cbv zeta.
  destruct (decide (mid = [])) as [->|Hne'].
  - cbn. rewrite zlen_cons. change (zlen []) with 0. f_equal; lia.
  - erewrite IH; [|exact H3|lia|done|lia|done]. rewrite zlen_cons.
    f_equal; try lia. case_test; [subst; by test_false (i =? -1)|]. by test_false (f =? -1).
Qed.

Lemma scan_after post : forall i f l ins,
  Forall after post ->
  scan_chunks n offset end_ post i f l ins
  = if f =? -1 then match post with [] => (f, l, ins) | _ => (f, l, i) end else (f, l, ins).
Proof using Type.
  induction post as [|c post IH]; intros i f l ins Ha; cbn [scan_chunks]; [by case_test|].
  apply Forall_cons in Ha as [Hc Ha]. unfold after in Hc.
  test_false (c_offset c <=? end_). cbn [andb]. rewrite Z.gtb_ltb. test_true (end_ <? c_offset c).
  cbn [andb]. destruct (f =? -1) eqn:Ef; [done|]. rewrite andb_false_r, IH, Ef by done. done.
Qed.
End Scan.

(** ** Comparing and merging *)
Lemma zat_part l a b i :
  0 <= a -> zat (ztake (b - a) (zdrop a l)) i
            = if (0 <=? i) && (i <? b - a) then zat l (a + i) else None.
Proof.
  intros. rewrite zat_ztake, zat_zdrop by lia. repeat case_test; try done.
  all: rewrite ?andb_false_iff, ?Z.ltb_ge, ?Z.leb_gt in *; lia.
Qed.

Lemma agrees_cons data offset c cs lo hi :
  wf_chunks lo (c :: cs) hi ->
  (agrees data offset (content (c :: cs))
   <-> agrees data offset (chunk_at c) /\ agrees data offset (content cs)).
Proof.
  intros (H1 & H2 & H3). unfold agrees. cbn [content]. split.
  - intros H. split; intros x v Hx Hr.
    + apply H; [by rewrite Hx|done].
    + apply H; [|done]. pose proof (content_range _ _ _ _ _ H3 Hx).
      rewrite chunk_at_None by (unfold c_stop; lia). done.
  - intros [Ha Hb] x v Hx Hr. destruct (chunk_at c x) eqn:E; [|eauto].
    injection Hx as ->. eauto.
Qed.

Section Merge.
Context (offset : Z) (data : bytes) (hi : Z) (Hhi : hi < 2 ^ 64).
Context (Ho : 0 <= offset).

Lemma overlap_agrees c os oe :
  c_offset c <= os -> oe <= c_stop c -> offset <= os -> oe <= offset + zlen data ->
  (forall x, offset <= x < offset + zlen data -> c_offset c <= x < c_stop c -> os <= x < oe) ->
  ztake (oe - c_offset c - (os - c_offset c)) (zdrop (os - c_offset c) (c_data c))
  = ztake (oe - offset - (os - offset)) (zdrop (os - offset) data)
  <-> agrees data offset (chunk_at c).
Proof using Type.
  intros H1 H2 H3 H4 Hall. split.
  - intros E x v Hx Hr. pose proof (chunk_at_range _ _ _ Hx) as Hc.
    pose proof (Hall x Hr Hc) as Hos. unfold chunk_at in Hx.
    assert (Hz := f_equal (fun l => zat l (x - os)) E). cbn beta in Hz. revert Hz.
    rewrite !zat_part by lia.
    replace (oe - c_offset c - (os - c_offset c)) with (oe - os) by lia.
    replace (oe - offset - (os - offset)) with (oe - os) by lia.
    test_true ((0 <=? x - os) && (x - os <? oe - os)). intros Hz. rewrite <- Hx.
    replace (os - c_offset c + (x - os)) with (x - c_offset c) in Hz by lia. rewrite Hz.
    f_equal. lia.
  - intros Ha. apply zat_ext. intros i Hi. rewrite !zat_part by lia.
    replace (oe - c_offset c - (os - c_offset c)) with (oe - os) by lia.
    replace (oe - offset - (os - offset)) with (oe - os) by lia.
    case_test; [|done]. destruct (zat_is_Some (c_data c) (os - c_offset c + i)) as [v Hv].
    { unfold c_stop in H2. lia. }
    rewrite Hv. symmetry. replace (os - offset + i) with (os + i - offset) by lia.
    apply Ha; [|lia]. unfold chunk_at. rewrite <- Hv. f_equal. lia.
Qed.

Lemma check_overlaps_spec cs : forall lo,
  wf_chunks lo cs hi -> 0 <= lo ->
  (agrees data offset (content cs) /\ check_overlaps offset (offset + zlen data) data cs = Ok tt)
  \/ (~ agrees data offset (content cs)
      /\ check_overlaps offset (offset + zlen data) data cs = Err (TransportError ProtocolViolation)).
Proof using Hhi Ho.
  induction cs as [|c cs IH]; intros lo Hw Hlo; [by left|].
  rewrite (agrees_cons _ _ _ _ _ _ Hw). cbn [wf_chunks check_overlaps] in *. cbv zeta.
  destruct Hw as (H1 & H2 & H3). pose proof (wf_le _ _ _ H3). apply zlen_pos in H2.
  pose proof (zlen_nonneg data). specialize (IH _ H3 ltac:(lia)).
  rewrite (c_end_stop lo c hi) by (unfold c_stop; lia).
  pose proof (overlap_agrees c (Z.max offset (c_offset c)) (Z.min (offset + zlen data) (c_stop c)))
    as Heq.
  do 4 (specialize (Heq ltac:(lia))). specialize (Heq ltac:(intros; lia)).
  case_test.
  - rewrite !slice_ok by (unfold c_stop in *; lia). cbn [res_bind].
    destruct (bool_decide _) eqn:Eb; cbn [negb].
    + apply bool_decide_eq_true in Eb. apply Heq in Eb.
      destruct IH as [[Ha ->]|[Ha ->]]; [by left|right]. split; [|done]. by intros [].
    + apply bool_decide_eq_false in Eb. right. split; [|done]. intros [Ha _]. by apply Heq in Ha.
  - assert (Hc : agrees data offset (chunk_at c)).
    { intros x v Hx Hr. apply chunk_at_range in Hx. lia. }
    destruct IH as [[Ha ->]|[Ha ->]]; [by left|right]. split; [|done]. by intros [].
Qed.

Lemma copy_chunks_spec mo cs : forall lo stop buf,
  wf_chunks lo cs stop -> mo <= lo -> stop <= mo + zlen buf ->
  exists buf', copy_chunks mo cs buf = Ok buf' /\ zlen buf' = zlen buf
    /\ forall i, zat buf' i = match content cs (mo + i) with Some v => Some v | None => zat buf i end.
Proof using Type.
  induction cs as [|c cs IH]; intros lo stop buf Hw Hlo Hs.
  { exists buf. done. }
  cbn [wf_chunks copy_chunks content] in *. destruct Hw as (H1 & H2 & H3).
  pose proof (wf_le _ _ _ H3). apply zlen_pos in H2.
  rewrite copy_at_ok by lia. cbn [res_bind].
  match goal with |- context [copy_chunks mo cs ?b] =>
    destruct (IH (c_offset c + zlen (c_data c)) stop b) as (buf' & E & Hlen & Hz); [done|lia| |] end.
  { rewrite copied_zlen by lia. exact Hs. }
  exists buf'. split_and!; [exact E|rewrite Hlen; apply copied_zlen; lia|]. intros i. rewrite Hz.
  rewrite copied_zat by lia. unfold chunk_at.
  replace (i - (c_offset c - mo)) with (mo + i - c_offset c) by lia.
  destruct (decide (c_offset c <= mo + i < c_stop c)) as [Hc|Hc]; unfold c_stop in Hc.
  - rewrite (content_outside _ _ _ _ H3) by lia.
    test_true ((c_offset c - mo <=? i) && (i <? c_offset c - mo + zlen (c_data c))).
    destruct (zat_is_Some (c_data c) (mo + i - c_offset c)) as [v Hv]; [lia|]. by rewrite Hv.
  - rewrite (zat_None (c_data c) (mo + i - c_offset c)) by lia.
    replace (_ && _) with false; [done|]. symmetry. rewrite andb_false_iff, Z.leb_gt, Z.ltb_ge. lia.
Qed.
End Merge.

(** Replacing the middle of a chunk list by one chunk. *)
Lemma splice_spec lo hi offset data pre mid post M :
  wf_chunks lo pre (c_offset M) -> wf_chunks (c_stop M) post hi -> c_data M <> [] ->
  c_offset M <= offset -> offset + zlen data <= c_stop M ->
  (forall x, c_offset M <= x < c_stop M -> chunk_at M x = overlay data offset (content mid) x) ->
  (forall x, x < c_offset M \/ c_stop M <= x -> content mid x = None) ->
  wf_chunks lo (pre ++ [M] ++ post) hi
  /\ forall x, content (pre ++ [M] ++ post) x
               = overlay data offset (content (pre ++ mid ++ post)) x.
Proof.
  intros Hpre Hpost Hne H1 H2 HM Hmid. split.
  { apply wf_app. exists (c_offset M). split; [done|]. cbn. split_and!; [lia|done|done]. }
  intros x. rewrite !content_app. cbn [content].
  destruct (decide (c_offset M <= x < c_stop M)) as [Hx|Hx].
  - rewrite (HM x Hx). rewrite (content_outside _ _ _ x Hpre) by lia.
    rewrite (content_outside _ _ _ x Hpost) by lia. unfold overlay. rewrite !content_app.
    rewrite (content_outside _ _ _ x Hpre) by lia. rewrite (content_outside _ _ _ x Hpost) by lia.
    case_test; [by destruct (zat _ _)|by destruct (content mid x)].
  - rewrite chunk_at_None by lia. unfold overlay.
    replace (_ && _) with false by (symmetry; rewrite andb_false_iff, Z.leb_gt, Z.ltb_ge; lia).
    rewrite !content_app, (Hmid x) by lia. done.
Qed.

(** ** insertChunk refines adding bytes to the map *)
Definition inserted (lo hi : Z) (cs : list reassemblyChunk) (offset : Z) (data : bytes)
    (cs' : list reassemblyChunk) : Prop :=
  wf_chunks lo cs' (Z.max hi (offset + zlen data))
  /\ forall x, content cs' x = overlay data offset (content cs) x.

Lemma wf_last lo cs hi c : wf_chunks lo cs hi -> last cs = Some c -> wf_chunks lo cs (c_stop c).
Proof.
  intros Hw Hl. apply last_Some in Hl as [l ->]. apply wf_app in Hw as (m & H1 & H2).
  apply wf_app. exists m. split; [done|]. destruct H2 as (H2 & H3 & H4). cbn. split_and!; [done..|].
  unfold c_stop. lia.
Qed.

Section Insert.
Context (stale : bytes) (lo hi offset : Z) (data : bytes).
Context (Hlo : 0 <= lo) (Hlo' : lo <= offset) (Hne : data <> []).
Context (Hhi : hi < 2 ^ 63) (Hend : offset + zlen data < 2 ^ 63).

Lemma new_chunk_at x :
  offset <= x < offset + zlen data ->
  chunk_at (new_chunk stale offset data) x = overlay data offset (fun _ => None) x.
Proof using All.
  intros Hx. destruct (new_chunk_spec stale offset data) as [Ho Hd].
  unfold chunk_at, overlay. rewrite Ho, Hd.
  by test_true ((offset <=? x) && (x <? offset + zlen data)).
Qed.

Lemma wf_before l pre m m' :
  wf_chunks l pre m -> l <= m' -> Forall (before offset) pre ->
  m' = offset \/ (m <= m') -> wf_chunks l pre m'.
Proof using All.
  intros Hw Hl Hb Hm. destruct Hm as [-> |Hm]; [|by eapply wf_weaken; [| |exact Hw]; lia].
  revert l Hl Hw. induction pre as [|c pre IH]; intros l Hl; cbn [wf_chunks]; [lia|].
  intros (H1 & H2 & H3). apply Forall_cons in Hb as [Hc Hb]. split_and!; [done..|].
  apply IH; [done|unfold before, c_stop in Hc; lia|done].
Qed.

Lemma wf_after m m' post :
  wf_chunks m post hi -> m' = m \/ m' = offset + zlen data \/ (m' <= m) ->
  Forall (after (offset + zlen data)) post ->
  wf_chunks m' post (Z.max hi (offset + zlen data)).
Proof using All.
  intros Hw Hm Ha. destruct post as [|c post]; cbn [wf_chunks] in *; [lia|].
  apply Forall_cons in Ha as [Hc _]. unfold after in Hc. destruct Hw as (H1 & H2 & H3).
  split_and!; [lia|done|]. by eapply wf_weaken; [| |exact H3]; lia.
Qed.

(** A new chunk between [pre] and [post]. *)
Lemma insert_between pre post :
  wf_chunks lo pre offset -> wf_chunks (offset + zlen data) post (Z.max hi (offset + zlen data)) ->
  inserted lo hi (pre ++ post) offset data (pre ++ [new_chunk stale offset data] ++ post).
Proof using All.
  intros Hpre Hpost. destruct (new_chunk_spec stale offset data) as [Ho Hd].
  apply (splice_spec lo _ offset data pre [] post); unfold c_stop; rewrite ?Ho, ?Hd; try done; try lia.
  intros x Hx. by rewrite new_chunk_at.
Qed.

Lemma append_chunk cs :
  wf_chunks lo cs offset -> inserted lo hi cs offset data (cs ++ [new_chunk stale offset data]).
Proof using All.
  intros Hw. pose proof (insert_between cs [] Hw) as H. rewrite !app_nil_r in H. apply H. cbn. lia.
Qed.

Lemma extend_chunk l c :
  wf_chunks lo (l ++ [c]) hi -> c_stop c = offset ->
  inserted lo hi (l ++ [c]) offset data (l ++ [{ c with c_data := c_data c ++ data }]).
Proof using All.
  destruct c as [o d p g]. change { mkChunk o d p g with c_data := d ++ data }
    with (mkChunk o (d ++ data) p g).
  intros Hw Hc. apply wf_app in Hw as (m & H1 & (H2 & H3 & H4)). pose proof (zlen_nonneg data).
  apply zlen_pos in H3. unfold c_stop in *. cbn [c_offset c_data wf_chunks] in *.
  pose proof (splice_spec lo (Z.max hi (offset + zlen data)) offset data l [mkChunk o d p g] []
    (mkChunk o (d ++ data) p g)) as H'.
  rewrite !app_nil_r in H'. unfold c_stop in H'. cbn [c_offset c_data] in H'.
  rewrite zlen_app in H'. apply H'; try lia.
  - by eapply wf_weaken; [| |exact H1].
  - cbn. lia.
  - intros E. apply app_eq_nil in E as [-> ->]. done.
  - intros x Hx. unfold chunk_at, overlay. cbn [c_offset c_data content]. unfold chunk_at.
    cbn [c_offset c_data]. rewrite zat_app. case_test.
    + test_false (offset <=? x). cbn [andb]. by destruct (zat _ _).
    + test_true ((offset <=? x) && (x <? offset + zlen data)). f_equal. lia.
  - intros x Hx. cbn [content]. rewrite chunk_at_None; [done|]. unfold c_stop. cbn. lia.
Qed.

(** Every offset between the merged bounds comes from the new data or from a
    merged chunk: no stale byte survives. *)
Lemma merged_covered cf mid cl x :
  Forall (touching offset (offset + zlen data)) (cf :: mid) -> last (cf :: mid) = Some cl ->
  Z.min offset (c_offset cf) <= x < Z.max (offset + zlen data) (c_stop cl) ->
  x < offset \/ offset + zlen data <= x ->
  is_Some (content (cf :: mid) x).
Proof using All.
  intros Ht Hl Hx [Hlt|Hge].
  - apply Forall_cons in Ht as [[_ Hc] _]. cbn [content].
    destruct (chunk_at_is_Some cf x) as [v ->]; [lia|]. done.
  - apply last_Some in Hl as [l E]. rewrite E in *. apply Forall_app in Ht as [_ Ht].
    apply Forall_cons in Ht as [[Hc _] _]. rewrite content_app. cbn [content].
    destruct (content l x); [done|]. destruct (chunk_at_is_Some cl x) as [v ->]; [lia|]. done.
Qed.

Lemma merge_chunks pre cf mid' post cl :
  let mid := cf :: mid' in
  let mo := Z.min offset (c_offset cf) in
  let me := Z.max (offset + zlen data) (c_stop cl) in
  wf_chunks lo (pre ++ mid ++ post) hi -> last mid = Some cl ->
  Forall (before offset) pre -> Forall (touching offset (offset + zlen data)) mid ->
  Forall (after (offset + zlen data)) post ->
  forall buf pooled isLarge, zlen buf = me - mo ->
  exists buf1 buf2, copy_chunks mo mid buf = Ok buf1
    /\ copy_at (E:=stream_error) buf1 (offset - mo) data = Ok buf2
    /\ inserted lo hi (pre ++ mid ++ post) offset data
         (pre ++ [mkChunk mo buf2 pooled isLarge] ++ post).
Proof using All.
  intros mid mo me Hw Hl Hpre Hmid Hpost buf pooled isLarge Hbuf.
  apply wf_app in Hw as (m1 & H1 & Hw). apply wf_app in Hw as (m2 & H2 & H3).
  pose proof (wf_last _ _ _ _ H2 Hl) as Hmw. pose proof (zlen_pos _ Hne) as Hd.
  assert (Hm2 : c_stop cl <= m2).
  { apply last_Some in Hl as [l E]. eapply (wf_lookup m1 mid m2); [done|].
    rewrite E. apply elem_of_app. right. apply list_elem_of_here. }
  assert (Htight : wf_chunks (c_offset cf) mid (c_stop cl)).
  { unfold mid in *. cbn [wf_chunks] in *. split_and!; [lia|tauto|tauto]. }
  assert (Hcf : m1 <= c_offset cf) by (unfold mid in H2; cbn in H2; tauto).
  pose proof (wf_le _ _ _ Htight) as Hle.
  destruct (copy_chunks_spec mo mid (c_offset cf) (c_stop cl) buf Htight) as (buf1 & E1 & L1 & Z1);
    [lia|lia|].
  exists buf1, (ztake (offset - mo) buf1 ++ data ++ zdrop (offset - mo + zlen data) buf1).
  split_and!; [done|apply copy_at_ok; lia|].
  assert (Hz : zlen (ztake (offset - mo) buf1 ++ data ++ zdrop (offset - mo + zlen data) buf1)
               = me - mo) by (rewrite copied_zlen by lia; lia).
  apply splice_spec; unfold c_stop; cbn [c_offset c_data]; rewrite ?Hz; try lia.
  - apply wf_before with (m := m1); [done|apply wf_le in H1; lia|done|lia].
  - replace (mo + (me - mo)) with me by lia. apply wf_after with (m := m2); [done|lia|done].
  - apply zlen_ne. lia.
  - intros x Hx. unfold chunk_at, overlay. cbn [c_offset c_data]. rewrite copied_zat by lia.
    replace (x - mo - (offset - mo)) with (x - offset) by lia.
    replace ((offset - mo <=? x - mo) && (x - mo <? offset - mo + zlen data))
      with ((offset <=? x) && (x <? offset + zlen data)).
    2: { apply eq_true_iff_eq. rewrite !andb_true_iff, !Z.leb_le, !Z.ltb_lt. lia. }
    case_test; [done|]. rewrite Z1. replace (mo + (x - mo)) with x by lia.
    destruct (merged_covered cf mid' cl x) as [v Hv]; [done|done|lia| |].
    { rewrite andb_false_iff, Z.leb_gt, Z.ltb_ge in *. lia. }
    unfold mid. by rewrite Hv.
  - intros x Hx. eapply content_outside; [exact Htight|lia].
Qed.

Lemma not_overlapping_agrees cs :
  wf_chunks lo cs offset -> agrees data offset (content cs).
Proof using All.
  intros Hw x v Hx Hr. pose proof (content_range _ _ _ _ _ Hw Hx). lia.
Qed.

Lemma agrees_mid pre mid post :
  wf_chunks lo (pre ++ mid ++ post) hi ->
  Forall (before offset) pre -> Forall (after (offset + zlen data)) post ->
  (agrees data offset (content (pre ++ mid ++ post)) <-> agrees data offset (content mid)).
Proof using All.
  intros Hw Hpre Hpost. apply wf_app in Hw as (m1 & H1 & Hw). apply wf_app in Hw as (m2 & H2 & H3).
  pose proof (wf_before lo pre m1 offset H1 Hlo' Hpre ltac:(lia)) as Hp.
  assert (Hq : wf_chunks (offset + zlen data) post (Z.max hi (offset + zlen data)))
    by (apply (wf_after m2); [done|lia|done]).
  split; intros Ha x v Hx Hr; apply Ha; try done.
  - rewrite !content_app, (content_outside _ _ _ _ Hp), Hx by lia. done.
  - rewrite !content_app, (content_outside _ _ _ _ Hp), (content_outside _ _ _ _ Hq) in Hx by lia.
    by destruct (content mid x).
Qed.

Lemma chunk_range_mid (pre mid post : list reassemblyChunk) :
  chunk_range (pre ++ mid ++ post) (zlen pre) (zlen pre + zlen mid - 1) = mid.
Proof using Type.
  unfold chunk_range. rewrite zdrop_app. apply ztake_app_eq. lia.
Qed.

Definition outcome (cs : list reassemblyChunk) (r : res stream_error (list reassemblyChunk)) : Prop :=
  (agrees data offset (content cs) /\ exists cs', r = Ok cs' /\ inserted lo hi cs offset data cs')
  \/ (~ agrees data offset (content cs) /\ r = Err (TransportError ProtocolViolation)).

Lemma contained_inserted pre cf post :
  wf_chunks lo (pre ++ [cf] ++ post) hi ->
  Forall (before offset) pre -> Forall (after (offset + zlen data)) post ->
  agrees data offset (content [cf]) -> c_offset cf <= offset -> offset + zlen data <= c_stop cf ->
  inserted lo hi (pre ++ [cf] ++ post) offset data (pre ++ [cf] ++ post).
Proof using All.
  intros Hw Hpre Hpost Ha H1 H2.
  split; [by eapply wf_weaken; [| |exact Hw]; lia|]. intros x. unfold overlay. case_test; [|done].
  destruct (chunk_at_is_Some cf x) as [v Hv]; [lia|].
  rewrite (Ha x v) by (cbn [content]; rewrite ?Hv; (done || lia)).
  apply wf_app in Hw as (m1 & Hp & _). rewrite content_app.
  rewrite (content_outside lo pre offset); [cbn; by rewrite Hv| |lia].
  by apply (wf_before lo pre m1); [| | |lia].
Qed.

Lemma mergeOverlapping_spec pre mid post :
  let cs := pre ++ mid ++ post in
  wf_chunks lo cs hi -> mid <> [] ->
  Forall (before offset) pre -> Forall (touching offset (offset + zlen data)) mid ->
  Forall (after (offset + zlen data)) post ->
  outcome cs (mergeOverlapping stale cs offset (offset + zlen data) data
                (zlen pre) (zlen pre + zlen mid - 1)).
Proof using All.
  intros cs Hw Hmne Hpre Hmid Hpost. pose proof (agrees_mid pre mid post Hw Hpre Hpost) as Hag.
  unfold outcome, mergeOverlapping. cbv zeta. unfold cs. rewrite Hag, chunk_range_mid.
  pose proof Hw as Hw'. unfold cs in Hw'.
  apply wf_app in Hw' as (m1 & H1 & Hw'). apply wf_app in Hw' as (m2 & H2 & H3).
  pose proof (wf_le _ _ _ H1). pose proof (wf_le _ _ _ H3).
  destruct (check_overlaps_spec offset data m2 ltac:(lia) ltac:(lia) mid m1 H2 ltac:(lia))
    as [[Ha ->]|[Ha ->]]; [left; split; [done|]|by right].
  cbn [res_bind]. destruct mid as [|cf mid']; [done|]. clear Hmne.
  destruct (last (cf :: mid')) as [cl|] eqn:Hl; [|by apply last_None in Hl].
  assert (Hcf : cf ∈ cf :: mid') by apply list_elem_of_here.
  assert (Hcl : cl ∈ cf :: mid').
  { apply last_Some in Hl as [l ->]. apply elem_of_app. right. apply list_elem_of_here. }
  destruct (wf_lookup _ _ _ _ H2 Hcf) as (? & ? & ?).
  destruct (wf_lookup _ _ _ _ H2 Hcl) as (? & ? & ?).
  rewrite (c_end_stop m1 cf m2), (c_end_stop m1 cl m2) by lia.
  case_test.
  - exists (pre ++ (cf :: mid') ++ post). split; [done|].
    assert (mid' = []) as -> by (apply zlen_zero; rewrite zlen_cons in *; lia).
    by apply contained_inserted.
  - pose proof (zlen_pos _ Hne). pose proof (allocChunkData_zlen stale
      (Z.max (offset + zlen data) (c_stop cl) - Z.min offset (c_offset cf)) ltac:(lia)) as Hbuf.
    destruct (allocChunkData stale _) as [[buf pooled] isLarge]. cbn [fst] in Hbuf.
    destruct (merge_chunks pre cf mid' post cl Hw Hl Hpre Hmid Hpost buf pooled isLarge Hbuf)
      as (buf1 & buf2 & -> & E2 & Hins).
    cbn [res_bind]. rewrite E2. cbn [res_bind]. eexists. split; [done|].
    rewrite ztake_app. replace (zdrop _ _) with post; [done|].
    rewrite app_assoc. symmetry. apply zdrop_app_eq. rewrite zlen_app. lia.
Qed.

Lemma insertChunk_spec cs :
  wf_chunks lo cs hi -> outcome cs (insertChunk stale cs offset data).
Proof using All.
  intros Hw. pose proof (zlen_pos _ Hne) as Hd. unfold insertChunk. cbv zeta.
  rewrite (u64_small (offset + zlen data)) by (unfold is_u64; lia).
  destruct (last cs) as [c|] eqn:Hl.
  2: { apply last_None in Hl as ->. left. split; [done|]. eexists. split; [done|].
       apply append_chunk. cbn. lia. }
  pose proof (wf_last _ _ _ _ Hw Hl) as Hwl. apply last_Some in Hl as [l El].
  assert (Hin : c ∈ cs) by (rewrite El; apply elem_of_app; right; apply list_elem_of_here).
  destruct (wf_lookup _ _ _ _ Hw Hin) as (Hc1 & Hc2 & Hc3).
  rewrite (c_end_stop lo c hi) by lia.
  destruct (decide (c_stop c <= offset)) as [Hfast|Hslow].
  { assert (Hwo : wf_chunks lo cs offset) by (by eapply wf_weaken; [| |exact Hwl]; lia).
    left. split; [by apply not_overlapping_agrees|].
    case_test; [destruct (match c_pooled c with Some _ => _ | None => _ end)|
                test_true (offset >? c_stop c)].
    - eexists. split; [done|]. rewrite El. rewrite ztake_app_eq.
      2: { rewrite zlen_app. change (zlen [c]) with 1. lia. }
      apply extend_chunk; [by rewrite <- El|done].
    - eexists. split; [done|]. by apply append_chunk.
    - eexists. split; [done|]. by apply append_chunk. }
  test_false (offset =? c_stop c). rewrite Z.gtb_ltb. test_false (c_stop c <? offset).
  destruct (chunks_split offset (offset + zlen data) hi ltac:(lia) cs lo Hw)
    as (pre & mid & post & -> & Hpre & Hmid & Hpost & _ & _).
  set (n := zlen (pre ++ mid ++ post)).
  edestruct (scan_before offset (offset + zlen data) hi ltac:(lia) ltac:(lia) n pre (mid ++ post) 0
    (-1) (-1) 0 lo Hw Hlo Hpre) as [ins' ->].
  rewrite Z.add_0_l. pose proof Hw as Hw'.
  apply wf_app in Hw' as (m1 & H1 & Hw'). pose proof (wf_le _ _ _ H1). pose proof (zlen_nonneg pre).
  destruct (decide (mid = [])) as [->|Hmne].
  - cbn [app] in *. rewrite scan_after by done.
    destruct post as [|c' post'].
    { exfalso. rewrite app_nil_r in Hin. eapply Forall_forall in Hpre; [|exact Hin].
      unfold before in Hpre. lia. }
    left. split; [by apply (agrees_mid pre [] (c' :: post'))|].
    eexists. split; [done|].
    rewrite ztake_app, zdrop_app. apply insert_between.
    + by apply (wf_before lo pre m1); [| | |lia].
    + by apply (wf_after m1); [|lia|].
  - rewrite (scan_touching offset (offset + zlen data) hi) with (l0 := m1) by (done || lia).
    change (-1 =? -1) with true. cbv iota. rewrite scan_after by done.
    test_false (zlen pre =? -1). test_false (zlen pre =? -1). by apply mergeOverlapping_spec.
Qed.
End Insert.

(** ** The buffer invariant and the operations *)
Definition wf (b : ReassemblyBuffer) : Prop :=
  0 <= readOffset b /\ highestOffset b <= Varint.Max
  /\ wf_chunks (readOffset b) (chunks b) (highestOffset b)
  /\ (hasFinalSize b = true -> finalSize b = highestOffset b).

Lemma wf_new : wf NewReassemblyBuffer.
Proof. unfold wf, Varint.Max. cbn. split_and!; (lia || done). Qed.

(** RFC 9000 section 4.5: what a frame ending at [end_] may say about the final
    size. *)
Definition final_size_ok (b : ReassemblyBuffer) (end_ : Z) (fin : bool) : Prop :=
  (hasFinalSize b = true -> end_ <= finalSize b /\ (fin = true -> end_ = finalSize b))
  /\ (hasFinalSize b = false -> fin = true -> highestOffset b <= end_).

(** The size bookkeeping of a frame that passed the checks. *)
Definition record_sizes (b : ReassemblyBuffer) (end_ : Z) (fin : bool) : ReassemblyBuffer :=
  mkBuffer (readOffset b) (Z.max (highestOffset b) end_)
    (if hasFinalSize b then finalSize b else if fin then end_ else finalSize b)
    (hasFinalSize b || fin) (chunks b).

Lemma record_sizes_wf b end_ fin :
  wf b -> end_ <= Varint.Max -> final_size_ok b end_ fin -> wf (record_sizes b end_ fin).
Proof.
  intros (H1 & H2 & H3 & H4) He [Hf1 Hf2]. unfold wf, record_sizes. cbn. split_and!; [done|lia| |].
  - by eapply wf_weaken; [| |exact H3]; lia.
  - destruct (hasFinalSize b); cbn in *.
    + intros _. destruct Hf1; [done|]. specialize (H4 eq_refl). lia.
    + intros ->. specialize (Hf2 eq_refl eq_refl). lia.
Qed.

(** The effect of [Push] once the size checks have passed. *)
Definition push_data (stale : bytes) (b : ReassemblyBuffer) (offset : Z) (data : bytes) :
    ReassemblyBuffer * res stream_error unit :=
  let off' := Z.max offset (readOffset b) in
  let data' := zdrop (off' - offset) data in
  if zlen data' =? 0 then (b, Ok tt)
  else match insertChunk stale (chunks b) off' data' with
       | Ok cs => ({ b with chunks := cs }, Ok tt)
       | Err e => (b, Err e)
       | Panic => (b, Panic)
       end.

Lemma Push_sizes stale b offset data fin :
  wf b -> 0 <= offset ->
  let end_ := offset + zlen data in
  (Varint.Max < end_ /\ Push stale b offset data fin = (b, Err (TransportError FrameEncodingError)))
  \/ (end_ <= Varint.Max /\ ~ final_size_ok b end_ fin
      /\ Push stale b offset data fin = (b, Err (TransportError FinalSizeError)))
  \/ (end_ <= Varint.Max /\ final_size_ok b end_ fin
      /\ Push stale b offset data fin = push_data stale (record_sizes b end_ fin) offset data).
Proof.
  destruct b as [ro ho fs has cs]. unfold wf, final_size_ok, record_sizes.
  cbn [readOffset highestOffset finalSize hasFinalSize chunks].
  intros (H1 & H2 & H3 & H4) Ho. set (end_ := offset + zlen data).
  pose proof (zlen_nonneg data) as Hd.
  unfold Push. rewrite !Z.gtb_ltb. unfold Varint.Max in *.
  destruct (_ || _) eqn:E0.
  { left. split; [|done]. rewrite orb_true_iff, !Z.ltb_lt in E0. lia. }
  bool_simpl. cbv zeta. rewrite (u64_small (offset + zlen data)) by (unfold is_u64; lia).
  fold end_. test_false (end_ <? offset). cbn [orb].
  case_test; [left; split; [lia|done]|]. right.
  cbn [readOffset highestOffset finalSize hasFinalSize chunks].
  destruct (has && fin && negb (fs =? end_)) eqn:E1.
  { left. split_and!; [lia| |done]. bool_simpl. intros [Hf _]. destruct Hf; [done|]. lia. }
  destruct (has && (fs <? end_)) eqn:E2.
  { left. split_and!; [lia| |done]. bool_simpl. intros [Hf _]. destruct Hf; [done|]. lia. }
  destruct (fin && negb has && (end_ <? ho)) eqn:E3.
  { left. split_and!; [lia| |done]. bool_simpl. intros [_ Hf]. specialize (Hf ltac:(done) ltac:(done)).
    lia. }
  right. split; [lia|]. split.
  { split; [intros ->; split; [|intros ->]|intros -> ->]; cbn in *; bool_simpl; lia. }
  set (b' := mkBuffer ro (Z.max ho end_) (if has then fs else if fin then end_ else fs)
                      (has || fin) cs).
  match goal with |- context [readOffset ?b1] => replace b1 with b' end.
  2: { unfold b'. destruct has, fin; cbn; case_test; f_equal; lia. }
  unfold push_data. change (readOffset b') with ro. case_test.
  { rewrite Z.max_r by lia. by rewrite (zdrop_all data) by lia. }
  case_test.
  - rewrite Z.max_r by lia. rewrite slice_ok by lia.
    by rewrite ztake_all by (rewrite zlen_zdrop; lia).
  - rewrite Z.max_l by lia. by rewrite Z.sub_diag.
Qed.

Lemma agrees_overlay data offset m :
  agrees data offset m <-> forall x v, m x = Some v -> overlay data offset m x = Some v.
Proof.
  unfold agrees, overlay. split; intros Ha x v Hx; specialize (Ha x v Hx).
  - case_test; [|done]. apply Ha. lia.
  - intros Hr. revert Ha. by test_true ((offset <=? x) && (x <? offset + zlen data)).
Qed.

(** Adding bytes above the read offset of a well-formed buffer. *)
Lemma push_data_spec stale b offset data :
  wf b -> 0 <= offset -> offset + zlen data <= highestOffset b ->
  let '(b', r) := push_data stale b offset data in
  wf b' /\ b' = { b with chunks := chunks b' }
  /\ ((r = Ok tt /\ agrees data offset (content (chunks b))
       /\ forall x, readOffset b <= x ->
            content (chunks b') x = overlay data offset (content (chunks b)) x)
      \/ (r = Err (TransportError ProtocolViolation) /\ b' = b
          /\ ~ agrees data offset (content (chunks b)))).
Proof.
  intros Hwf Ho Hend. pose proof Hwf as (H1 & H2 & H3 & H4). unfold push_data.
  set (off' := Z.max offset (readOffset b)). set (data' := zdrop (off' - offset) data).
  pose proof (zlen_nonneg data) as Hd.
  assert (Hover : forall m x, readOffset b <= x -> overlay data' off' m x = overlay data offset m x).
  { intros m x Hx. unfold overlay, data', off'.
    destruct (decide (off' - offset <= zlen data)) as [Hin|Hout]; unfold off' in *.
    - rewrite zlen_zdrop by lia. rewrite zat_zdrop by lia.
      replace (Z.max offset (readOffset b) + (zlen data - (Z.max offset (readOffset b) - offset)))
        with (offset + zlen data) by lia.
      case_test.
      + test_true ((offset <=? x) && (x <? offset + zlen data)).
        test_true (0 <=? x - Z.max offset (readOffset b)). f_equal. lia.
      + replace ((offset <=? x) && (x <? offset + zlen data)) with false; [done|].
        symmetry. rewrite andb_false_iff, Z.leb_gt, Z.ltb_ge in *. lia.
    - rewrite zdrop_all by lia. change (zlen []) with 0.
      repeat case_test; try lia; done. }
  assert (Hag : agrees data' off' (content (chunks b)) <-> agrees data offset (content (chunks b))).
  { rewrite !agrees_overlay. split; intros Ha x v Hx; pose proof (content_range _ _ _ _ _ H3 Hx);
      [rewrite <- Hover by lia|rewrite Hover by lia]; by apply Ha. }
  case_test.
  - split_and!; [done|by destruct b|]. left. split_and!; [done| |].
    + apply Hag. intros x v Hx Hr. lia.
    + intros x Hx. rewrite <- Hover by done. unfold overlay.
      replace (_ && _) with false; [done|]. symmetry. rewrite andb_false_iff, Z.leb_gt, Z.ltb_ge. lia.
  - pose proof (zlen_nonneg data'). assert (Hlen : off' + zlen data' = offset + zlen data).
    { unfold data', off' in *. destruct (decide (Z.max offset (readOffset b) - offset <= zlen data)).
      - rewrite zlen_zdrop by lia. lia.
      - by rewrite zdrop_all in * by lia. }
    unfold Varint.Max in H2.
    destruct (insertChunk_spec stale (readOffset b) (highestOffset b) off' data') with (cs := chunks b)
      as [(Ha & cs' & -> & Hw & Hc)|(Ha & ->)]; try lia; try done.
    + by apply zlen_ne; lia.
    + rewrite Hlen, Z.max_l in Hw by lia. split_and!; [|by destruct b|].
      * destruct b. unfold wf, Varint.Max. by split_and!.
      * left. split_and!; [done|by apply Hag|]. intros x Hx. cbn. rewrite Hc. by apply Hover.
    + split_and!; [done|by destruct b|]. right. split_and!; [done|done|]. by rewrite <- Hag.
Qed.

(** The whole of [Push]: each outcome with the condition under which it occurs
    and the buffer it leaves. *)
Definition push_post (b : ReassemblyBuffer) (offset : Z) (data : bytes) (fin : bool)
    (b' : ReassemblyBuffer) (r : res stream_error unit) : Prop :=
  let end_ := offset + zlen data in
  match r with
  | Ok _ =>
      end_ <= Varint.Max /\ final_size_ok b end_ fin /\ agrees data offset (content (chunks b))
      /\ b' = { record_sizes b end_ fin with chunks := chunks b' }
      /\ forall x, readOffset b <= x ->
           content (chunks b') x = overlay data offset (content (chunks b)) x
  | Err (TransportError FrameEncodingError) => Varint.Max < end_ /\ b' = b
  | Err (TransportError FinalSizeError) =>
      end_ <= Varint.Max /\ ~ final_size_ok b end_ fin /\ b' = b
  | Err (TransportError ProtocolViolation) =>
      end_ <= Varint.Max /\ final_size_ok b end_ fin
      /\ ~ agrees data offset (content (chunks b)) /\ b' = record_sizes b end_ fin
  | _ => False
  end.

Lemma Push_spec stale b offset data fin :
  wf b -> 0 <= offset ->
  let '(b', r) := Push stale b offset data fin in
  wf b' /\ push_post b offset data fin b' r.
Proof.
  intros Hwf Ho.
  destruct (Push_sizes stale b offset data fin Hwf Ho) as [[H1 ->]|[(H1 & H2 & ->)|(H1 & H2 & ->)]];
    [by split_and!..|].
  pose proof (record_sizes_wf _ _ _ Hwf H1 H2) as Hwf'.
  pose proof (push_data_spec stale _ offset data Hwf' Ho ltac:(cbn; lia)) as H.
  destruct (push_data _ _ _ _) as [b' r]. destruct H as (Hw & Hb & Hr). split; [done|].
  destruct Hr as [(-> & Ha & Hc)|(-> & -> & Ha)]; cbn; by split_and!.
Qed.

(** [Read] takes bytes of the map from the read offset on. *)
Lemma Read_spec b plen :
  wf b -> 0 <= plen ->
  let '(b', out, eof) := Read b plen in
  wf b' /\ readOffset b' = readOffset b + zlen out /\ zlen out <= plen
  /\ (forall i, 0 <= i < zlen out -> content (chunks b) (readOffset b + i) = zat out i)
  /\ (forall x, readOffset b' <= x -> content (chunks b') x = content (chunks b) x)
  /\ (0 < plen -> is_Some (content (chunks b) (readOffset b)) -> 0 < zlen out)
  /\ eof = negb (plen =? 0) && IsAllDataRead b'
  /\ highestOffset b' = highestOffset b /\ finalSize b' = finalSize b
  /\ hasFinalSize b' = hasFinalSize b.
Proof.
  destruct b as [ro ho fs has cs]. intros Hwf Hp. pose proof Hwf as (H1 & H2 & H3 & H4).
  cbn [readOffset highestOffset finalSize hasFinalSize chunks] in H1, H2, H3, H4. unfold Read.
  case_test.
  { change (zlen (@nil Z)) with 0. cbn [chunks readOffset]. split_and!; try done; try lia. }
  cbn [chunks]. destruct cs as [|c cs].
  { change (zlen (@nil Z)) with 0. cbn [chunks readOffset]. split_and!; try done; try lia.
    by intros _ []. }
  cbn [readOffset]. destruct c as [o d p g]. pose proof H3 as H3'.
  cbn [wf_chunks c_offset c_data] in H3. destruct H3 as (Ho & Hd & Hw).
  pose proof (wf_le _ _ _ Hw). apply zlen_pos in Hd as Hd'. cbn [c_offset c_data].
  unfold Varint.Max in *. case_test.
  { change (zlen (@nil Z)) with 0. cbn [chunks readOffset].
    split_and!; try done; try lia.
    cbn [content]. rewrite chunk_at_None by (cbn; lia).
    rewrite (content_outside _ _ _ _ Hw) by lia. by intros _ []. }
  assert (o = ro) as -> by lia.
  set (n := Z.min plen (zlen d)). rewrite !u64_small by (unfold is_u64; lia).
  assert (Hn : 0 < n <= zlen d) by lia.
  assert (Hout : zlen (ztake n d) = n) by (apply zlen_ztake; lia).
  assert (Hget : forall i, 0 <= i < n -> content (mkChunk ro d p g :: cs) (ro + i) = zat (ztake n d) i).
  { intros i Hi. cbn [content]. unfold chunk_at. cbn [c_data c_offset].
    replace (ro + i - ro) with i by lia. rewrite zat_ztake. test_true (i <? n).
    destruct (zat_is_Some d i) as [v ->]; [lia|done]. }
  rewrite Hout. destruct (n =? zlen d) eqn:En; bool_simpl.
  - assert (Hw1 : wf (mkBuffer (ro + n) ho fs has cs)).
    { unfold wf, Varint.Max. cbn. rewrite En. by split_and!; try lia. }
    split_and!; try done; try lia.
    intros x Hx. cbn in Hx |- *. rewrite chunk_at_None; [done|]. unfold c_stop. cbn. lia.
  - assert (Hw1 : wf (mkBuffer (ro + n) ho fs has (mkChunk (ro + n) (zdrop n d) p g :: cs))).
    { unfold wf, Varint.Max. cbn [readOffset highestOffset finalSize hasFinalSize chunks wf_chunks
        c_offset c_data].
      rewrite zlen_zdrop by lia. replace (ro + n + (zlen d - n)) with (ro + zlen d) by lia.
      split_and!; try done; try lia. apply zlen_ne. rewrite zlen_zdrop; lia. }
    split_and!; try done; try lia.
    intros x Hx. change (ro + n <= x) in Hx.
    change (match zat (zdrop n d) (x - (ro + n)) with Some v => Some v | None => content cs x end
            = match zat d (x - ro) with Some v => Some v | None => content cs x end).
    rewrite zat_zdrop by lia.
    test_true (0 <=? x - (ro + n)). by replace (n + (x - (ro + n))) with (x - ro) by lia.
Qed.

(** [Peek] shows what [Read] would return. *)
Lemma Peek_Read b plen : Peek b plen = (snd (fst (Read b plen)), snd (Read b plen)).
Proof.
  destruct b as [ro ho fs has cs]. unfold Peek, Read. case_test; [done|]. cbn [chunks].
  destruct cs as [|c cs]; [done|]. case_test; [done|]. by case_test.
Qed.

(** ** Runs: frames arriving in any order, interleaved with reads *)
Inductive op :=
| OpPush (stale : bytes) (offset : Z) (data : bytes) (fin : bool)
| OpRead (plen : Z).

(** Run the operations; collect the bytes delivered to the reader and whether
    every [Push] succeeded. *)
Fixpoint run (b : ReassemblyBuffer) (ops : list op) : ReassemblyBuffer * bytes * bool :=
  match ops with
  | [] => (b, [], true)
  | OpPush stale offset data fin :: ops' =>
      let '(b', r) := Push stale b offset data fin in
      let '(b'', out, ok) := run b' ops' in
      (b'', out, match r with Ok _ => ok | _ => false end)
  | OpRead plen :: ops' =>
      let '(b', out1, _) := Read b plen in
      let '(b'', out, ok) := run b' ops' in
      (b'', out1 ++ out, ok)
  end.

Section Stream.
(** The stream the peer is sending. *)
Context (S : bytes) (HS : zlen S <= Varint.Max).

(** A frame of that stream: a slice of it, FIN only on a frame reaching its end. *)
Definition frame_of_stream (offset : Z) (data : bytes) (fin : bool) : Prop :=
  0 <= offset /\ offset + zlen data <= zlen S
  /\ data = ztake (zlen data) (zdrop offset S)
  /\ (fin = true -> offset + zlen data = zlen S).

Definition op_of_stream (o : op) : Prop :=
  match o with
  | OpPush _ offset data fin => frame_of_stream offset data fin
  | OpRead plen => 0 <= plen
  end.

(** The buffer holds a part of the stream; [got] says which offsets have been
    received at least once. *)
Definition holds (b : ReassemblyBuffer) (got : Z -> Prop) (fin : bool) : Prop :=
  wf b /\ highestOffset b <= zlen S /\ hasFinalSize b = fin
  /\ (fin = true -> finalSize b = zlen S)
  /\ (forall x v, content (chunks b) x = Some v -> zat S x = Some v)
  /\ (forall x, got x -> readOffset b <= x -> is_Some (content (chunks b) x)).

Lemma frame_zat offset data fin i :
  frame_of_stream offset data fin -> 0 <= i < zlen data -> zat data i = zat S (offset + i).
Proof using Type.
  intros (F1 & F2 & F3 & F4) Hi. rewrite F3, zat_ztake, zat_zdrop by lia.
  test_true (i <? zlen data). by test_true (0 <=? i).
Qed.

Lemma frame_agrees b got fin0 offset data fin :
  holds b got fin0 -> frame_of_stream offset data fin -> agrees data offset (content (chunks b)).
Proof using Type.
  intros (_ & _ & _ & _ & Hc & _) Hf x v Hx Hr. rewrite (frame_zat _ _ _ _ Hf) by lia.
  replace (offset + (x - offset)) with x by lia. by apply Hc.
Qed.

Lemma holds_push stale b got fin0 offset data fin :
  holds b got fin0 -> frame_of_stream offset data fin ->
  let '(b', r) := Push stale b offset data fin in
  r = Ok tt /\ readOffset b' = readOffset b
  /\ holds b' (fun x => got x \/ offset <= x < offset + zlen data) (fin0 || fin).
Proof using HS.
  intros Hh Hf. pose proof (frame_agrees _ _ _ _ _ _ Hh Hf) as Hag.
  destruct Hh as (Hwf & Hhi & Hfin & Hfs & Hc & Hg). pose proof Hf as (F1 & F2 & F3 & F4).
  pose proof (Push_spec stale b offset data fin Hwf F1) as Hp.
  assert (Hfok : final_size_ok b (offset + zlen data) fin).
  { split.
    - intros Hh. rewrite Hfin in Hh. specialize (Hfs Hh). rewrite Hfs. split; [lia|]. intros ->. auto.
    - intros _ ->. specialize (F4 eq_refl). lia. }
  destruct (Push _ _ _ _ _) as [b' [[]|e|]]; destruct Hp as (Hw' & Hp); [| |done].
  2: { exfalso. destruct e as [code| | | | | | | | | | |]; try done. destruct code; cbn in Hp; try done;
       [tauto|lia|tauto]. }
  destruct Hp as (_ & _ & _ & Hb' & Hc'). split; [done|].
  assert (Hro : readOffset b' = readOffset b) by by rewrite Hb'.
  split; [done|]. split_and!; [done| | | | |].
  - rewrite Hb'. cbn. lia.
  - rewrite Hb'. cbn. by rewrite Hfin.
  - intros Ht. rewrite Hb'. cbn. rewrite Hfin. destruct fin0; [by apply Hfs|]. cbn in Ht. subst fin.
    auto.
  - intros x v Hx. destruct Hw' as (_ & _ & Hw' & _). pose proof (content_range _ _ _ _ _ Hw' Hx).
    rewrite Hc' in Hx by lia. unfold overlay in Hx. case_hyp Hx; [|by apply Hc].
    rewrite (frame_zat _ _ _ _ Hf) in Hx by lia. by replace (offset + (x - offset)) with x in Hx by lia.
  - intros x Hx Hr. rewrite Hc' by lia. unfold overlay. case_test; [apply zat_is_Some; lia|].
    destruct Hx as [Hx|Hx]; [apply Hg; [done|lia]|].
    rewrite andb_false_iff, Z.leb_gt, Z.ltb_ge in *. lia.
Qed.

Lemma holds_read b got fin plen :
  holds b got fin -> 0 <= plen ->
  let '(b', out, eof) := Read b plen in
  holds b' got fin /\ readOffset b' = readOffset b + zlen out
  /\ out = ztake (zlen out) (zdrop (readOffset b) S)
  /\ (0 < plen -> got (readOffset b) -> 0 < zlen out).
Proof using Type.
  intros (Hwf & Hhi & Hfin & Hfs & Hc & Hg) Hp. pose proof (Read_spec b plen Hwf Hp) as Hr.
  destruct (Read b plen) as [[b' out] eof].
  destruct Hr as (Hw' & Hro & Hle & Hget & Hkeep & Hprog & _ & E1 & E2 & E3).
  pose proof (zlen_nonneg out). destruct Hwf as (Hz & _ & Hw & _). destruct Hw' as (Hw1 & Hw2 & Hw3 & Hw4).
  split_and!; [split_and!|done| |].
  - by split_and!.
  - lia.
  - by rewrite E3.
  - by rewrite E2.
  - intros x v Hx. pose proof (content_range _ _ _ _ _ Hw3 Hx).
    rewrite Hkeep in Hx by lia. by apply Hc.
  - intros x Hx Hx'. rewrite Hkeep by lia. apply Hg; [done|lia].
  - apply zat_ext. intros i Hi. rewrite zat_ztake, zat_zdrop by lia. test_true (0 <=? i).
    case_test; [|apply zat_None; lia].
    destruct (zat_is_Some out i) as [v Hv]; [lia|]. rewrite Hv. symmetry. apply Hc.
    rewrite Hget by lia. done.
  - intros. apply Hprog; [done|]. apply Hg; [done|lia].
Qed.

(** Offsets received, and FIN seen, in a list of operations. *)
Fixpoint received (ops : list op) (x : Z) : Prop :=
  match ops with
  | [] => False
  | OpPush _ offset data _ :: ops' => offset <= x < offset + zlen data \/ received ops' x
  | OpRead _ :: ops' => received ops' x
  end.
Fixpoint fin_seen (ops : list op) : bool :=
  match ops with
  | [] => false
  | OpPush _ _ _ fin :: ops' => fin || fin_seen ops'
  | OpRead _ :: ops' => fin_seen ops'
  end.

Lemma holds_weaken b (got got' : Z -> Prop) fin fin' :
  (forall x, got' x -> got x) -> fin = fin' -> holds b got fin -> holds b got' fin'.
Proof using Type. intros Hg <- (H1 & H2 & H3 & H4 & H5 & H6). split_and!; eauto. Qed.

Lemma holds_new : holds NewReassemblyBuffer (fun _ => False) false.
Proof using Type.
  split_and!; try done; try apply wf_new. cbn. apply zlen_nonneg.
Qed.

Lemma run_holds ops : forall b got fin,
  holds b got fin -> Forall op_of_stream ops ->
  let '(b', out, ok) := run b ops in
  ok = true /\ readOffset b' = readOffset b + zlen out
  /\ out = ztake (zlen out) (zdrop (readOffset b) S)
  /\ holds b' (fun x => got x \/ received ops x) (fin || fin_seen ops).
Proof using HS.
  induction ops as [|o ops IH]; intros b got fin Hh Hops; cbn [run received fin_seen].
  { split_and!; [done|rewrite zlen_nil; lia|done|]. rewrite orb_false_r.
    eapply holds_weaken; [| |exact Hh]; [tauto|done]. }
  apply Forall_cons in Hops as [Ho Hops]. destruct o as [stale offset data f|plen]; cbn in Ho.
  - pose proof (holds_push stale b got fin offset data f Hh Ho) as Hp.
    destruct (Push _ _ _ _ _) as [b1 r]. destruct Hp as (-> & Hro & Hh1).
    specialize (IH b1 _ _ Hh1 Hops). destruct (run b1 ops) as [[b2 out] ok].
    rewrite Hro in IH. destruct IH as (-> & Hro2 & Hout & Hh2). split_and!; [done..|].
    eapply holds_weaken; [| |exact Hh2]; [tauto|by rewrite orb_assoc].
  - pose proof (holds_read b got fin plen Hh Ho) as Hp.
    destruct (Read b plen) as [[b1 out1] eof]. destruct Hp as (Hh1 & Hro & Hout1 & _).
    specialize (IH b1 _ _ Hh1 Hops). destruct (run b1 ops) as [[b2 out] ok].
    destruct IH as (-> & Hro2 & Hout & Hh2). destruct Hh as ((Hz & _) & _).
    pose proof (zlen_nonneg out1). pose proof (zlen_nonneg out).
    split_and!; [done|rewrite zlen_app; lia| |].
    + rewrite zlen_app. rewrite Hout at 1. rewrite Hout1 at 1. rewrite Hro, <- zdrop_zdrop by lia.
      apply ztake_split; lia.
    + eapply holds_weaken; [| |exact Hh2]; [tauto|done].
Qed.

(** Reading on from a buffer that has received the whole stream. *)
Lemma drain sizes : forall b fin,
  holds b (fun x => 0 <= x < zlen S) fin -> Forall (fun p => 0 < p) sizes ->
  zlen S - readOffset b <= zlen sizes ->
  let '(b', out, ok) := run b (map OpRead sizes) in
  readOffset b' = zlen S /\ out = zdrop (readOffset b) S.
Proof using HS.
  induction sizes as [|p sizes IH]; intros b fin Hh Hp Hlen; cbn [map run].
  - change (zlen []) with 0 in Hlen. destruct Hh as ((_ & _ & Hw & _) & Hhi & _).
    pose proof (wf_le _ _ _ Hw). split; [lia|]. by rewrite zdrop_all by lia.
  - apply Forall_cons in Hp as [Hp Hps]. rewrite zlen_cons in Hlen.
    pose proof (holds_read b _ fin p Hh ltac:(lia)) as Hr.
    destruct (Read b p) as [[b1 out1] eof]. destruct Hr as (Hh1 & Hro & Hout & Hprog).
    destruct Hh as ((Hz & _ & Hw & _) & Hhi & _). pose proof (wf_le _ _ _ Hw).
    pose proof (zlen_nonneg sizes). pose proof (zlen_nonneg out1).
    assert (Hstep : readOffset b < zlen S -> 0 < zlen out1) by (intros; apply Hprog; lia).
    specialize (IH b1 fin Hh1 Hps ltac:(lia)).
    destruct (run b1 _) as [[b2 out] ok]. destruct IH as (Hro2 & ->). split; [done|].
    rewrite Hout at 1. rewrite Hro, <- zdrop_zdrop by lia. apply ztake_zdrop.
Qed.
End Stream.

(** ** Properties *)

(** A run whose frames cover the stream, read to the end. *)
Lemma run_complete (S : bytes) (ops : list op) (sizes : list Z) :
  zlen S <= Varint.Max -> Forall (op_of_stream S) ops ->
  (forall x, 0 <= x < zlen S -> received ops x) -> fin_seen ops = true ->
  Forall (fun p => 0 < p) sizes -> zlen S <= zlen sizes ->
  let '(b, out1, ok) := run NewReassemblyBuffer ops in
  let '(b', out2, _) := run b (map OpRead sizes) in
  out1 ++ out2 = S /\ IsAllDataRead b' = true.
Proof.
  intros HS Hops Hrec Hfin Hsz Hlen. pose proof (run_holds S HS ops _ _ _ (holds_new S) Hops) as H.
  destruct (run _ ops) as [[b out1] ok]. destruct H as (-> & Hro & Hout & Hh).
  change (readOffset NewReassemblyBuffer) with 0 in *. rewrite Z.add_0_l in Hro.
  rewrite Hfin in Hh. cbn [orb] in Hh.
  assert (Hh' : holds S b (fun x => 0 <= x < zlen S) true).
  { eapply holds_weaken; [| |exact Hh]; [|done]. intros x Hx. right. auto. }
  pose proof (zlen_nonneg out1).
  pose proof (drain S HS sizes b true Hh' Hsz ltac:(lia)) as Hd.
  pose proof (run_holds S HS (map OpRead sizes) b _ _ Hh') as Hr.
  destruct (run b _) as [[b' out2] ok2]. destruct Hd as (Hro' & ->).
  destruct Hr as (_ & _ & _ & Hh'').
  { apply Forall_map. eapply Forall_impl; [exact Hsz|]. cbn. lia. }
  split; [rewrite Hout, Hro, zdrop_0; by apply ztake_zdrop|].
  destruct Hh'' as (_ & _ & Hf & Hfs & _). cbn [orb] in Hf, Hfs. unfold IsAllDataRead.
  rewrite Hf, (Hfs eq_refl), Hro'. cbn. rewrite Z.geb_leb. apply Z.leb_le. lia.
Qed.

Lemma received_in ops stale offset data fin x :
  OpPush stale offset data fin ∈ ops -> offset <= x < offset + zlen data -> received ops x.
Proof.
  induction ops as [|o ops IH]; intros Hin Hx; [by apply not_elem_of_nil in Hin|].
  apply elem_of_cons in Hin as [<-|Hin]; cbn [received]; [by left|].
  destruct o; [right|]; by apply IH.
Qed.
Lemma fin_seen_in ops stale offset data : OpPush stale offset data true ∈ ops -> fin_seen ops = true.
Proof.
  induction ops as [|o ops IH]; intros Hin; [by apply not_elem_of_nil in Hin|].
  apply elem_of_cons in Hin as [<-|Hin]; cbn [fin_seen]; [done|].
  destruct o; [rewrite IH by done; apply orb_true_r|by apply IH].
Qed.

(** C7: [Push] refines adding bytes to the buffer's map.  From any well-formed
    buffer, with any stale pool memory: a frame beyond offset 2^62-1 is a
    FrameEncodingError, one breaking the final-size rules is a FinalSizeError
    (both leave the buffer untouched), one whose bytes differ from buffered ones
    is a ProtocolViolation (the buffered bytes are untouched), and every other
    frame is accepted and overlays its bytes on the map above the read offset.
    No call panics, and the chunk list stays sorted, disjoint and in bounds. *)
Theorem reassembly_push_refines (stale : bytes) (b : ReassemblyBuffer) (offset : Z) (data : bytes)
    (fin : bool) :
  wf b -> 0 <= offset ->
  let '(b', r) := Push stale b offset data fin in
  wf b' /\ push_post b offset data fin b' r.
Proof. apply Push_spec. Qed.

Lemma reassembly_push_refines_witness :
  let b := fst (Push [] NewReassemblyBuffer 4 [5; 6] false) in
  let '(b', r) := Push [9; 9; 9; 9; 9; 9] b 3 [4; 5; 6; 7] true in
  wf b' /\ push_post b 3 [4; 5; 6; 7] true b' r.
Proof.
  apply (reassembly_push_refines [9; 9; 9; 9; 9; 9] (fst (Push [] NewReassemblyBuffer 4 [5; 6] false))
    3 [4; 5; 6; 7] true); [|lia].
  assert (H := reassembly_push_refines [] NewReassemblyBuffer 4 [5; 6] false wf_new ltac:(lia)).
  exact (proj1 H).
Defined.

(** C8: [Read] refines consuming the map at the read offset: it returns the
    bytes the map holds from the read offset on, at least one when that offset
    is present and the caller's slice is not empty; it advances the read offset
    by as much, keeps everything above, and reports [io.EOF] exactly when the
    final size is known and reached.  [Peek] returns the same bytes and flag
    without changing the buffer. *)
Theorem reassembly_read_refines (b : ReassemblyBuffer) (plen : Z) :
  wf b -> 0 <= plen ->
  let '(b', out, eof) := Read b plen in
  wf b' /\ readOffset b' = readOffset b + zlen out /\ zlen out <= plen
  /\ (forall i, 0 <= i < zlen out -> content (chunks b) (readOffset b + i) = zat out i)
  /\ (forall x, readOffset b' <= x -> content (chunks b') x = content (chunks b) x)
  /\ (0 < plen -> is_Some (content (chunks b) (readOffset b)) -> 0 < zlen out)
  /\ eof = negb (plen =? 0) && IsAllDataRead b'
  /\ Peek b plen = (out, eof).
Proof.
  intros Hwf Hp. pose proof (Read_spec b plen Hwf Hp) as H. rewrite Peek_Read.
  destruct (Read b plen) as [[b' out] eof]. cbn [fst snd]. tauto.
Qed.

Lemma reassembly_read_refines_witness :
  readOffset (fst (fst (Read (fst (Push [] NewReassemblyBuffer 0 [7; 8; 9] false)) 2))) = 2
  /\ Peek (fst (Push [] NewReassemblyBuffer 0 [7; 8; 9] false)) 2 = ([7; 8], false).
Proof.
  assert (H := reassembly_read_refines (fst (Push [] NewReassemblyBuffer 0 [7; 8; 9] false)) 2).
  assert (Hw : wf (fst (Push [] NewReassemblyBuffer 0 [7; 8; 9] false))).
  { split_and!; cbn; unfold Varint.Max; (lia || done). }
  specialize (H Hw ltac:(lia)). vm_compute in H. vm_compute.
  destruct H as (_ & H2 & _ & _ & _ & _ & _ & H8). split; [exact H2|exact H8].
Defined.

(** In-order delivery whatever the network does.  Take a stream [S] and any
    sequence of operations on a fresh buffer in which every pushed frame is a
    slice of [S] (in any order, repeated, overlapping, with FIN only at the end)
    and reads of any size are interleaved: no [Push] fails, and the bytes handed
    to the reader, in order, are exactly the first [readOffset] bytes of [S]. *)
Theorem reassembly_in_order (S : bytes) (ops : list op) :
  zlen S <= Varint.Max -> Forall (op_of_stream S) ops ->
  let '(b, out, ok) := run NewReassemblyBuffer ops in
  ok = true /\ out = ztake (readOffset b) S /\ wf b
  /\ (hasFinalSize b = true -> finalSize b = zlen S).
Proof.
  intros HS Hops. pose proof (run_holds S HS ops _ _ _ (holds_new S) Hops) as H.
  destruct (run _ ops) as [[b out] ok]. destruct H as (-> & Hro & Hout & Hh).
  change (readOffset NewReassemblyBuffer) with 0 in *. rewrite Z.add_0_l in Hro. rewrite Hro.
  destruct Hh as (Hw & _ & Hfin & Hfs & _). split_and!; try done. rewrite Hfin. done.
Qed.

Definition sample_ops : list op :=
  [OpPush [] 2 [3; 4; 5] true; OpRead 4; OpPush [1; 1] 0 [1; 2; 3] false; OpRead 2;
   OpPush [] 0 [1; 2] false; OpRead 9].
Lemma sample_ops_ok : Forall (op_of_stream [1; 2; 3; 4; 5]) sample_ops.
Proof. repeat constructor; (reflexivity || (cbn; lia) || discriminate). Defined.
Lemma reassembly_in_order_witness :
  let '(b, out, ok) := run NewReassemblyBuffer sample_ops in
  ok = true /\ out = ztake (readOffset b) [1; 2; 3; 4; 5] /\ wf b
  /\ (hasFinalSize b = true -> finalSize b = 5).
Proof.
  apply (reassembly_in_order [1; 2; 3; 4; 5] sample_ops); [vm_compute; discriminate|].
  exact sample_ops_ok.
Defined.

(** C9: nothing is lost.  If, moreover, the frames of the run cover every byte of
    [S] and one carried FIN, then reading on, in pieces of any positive size and
    at least as many times as there are bytes left, delivers the whole of [S]
    and leaves the buffer reporting that all data has been read. *)
Theorem reassembly_complete (S : bytes) (ops : list op) (sizes : list Z) :
  zlen S <= Varint.Max -> Forall (op_of_stream S) ops ->
  (forall x, 0 <= x < zlen S -> received ops x) -> fin_seen ops = true ->
  Forall (fun p => 0 < p) sizes -> zlen S <= zlen sizes ->
  let '(b, out1, ok) := run NewReassemblyBuffer ops in
  let '(b', out2, _) := run b (map OpRead sizes) in
  out1 ++ out2 = S /\ IsAllDataRead b' = true.
Proof. apply run_complete. Qed.

Lemma reassembly_complete_witness :
  let '(b, out1, ok) := run NewReassemblyBuffer sample_ops in
  let '(b', out2, _) := run b (map OpRead [1; 1; 1; 1; 1]) in
  out1 ++ out2 = [1; 2; 3; 4; 5] /\ IsAllDataRead b' = true.
Proof.
  apply (reassembly_complete [1; 2; 3; 4; 5] sample_ops [1; 1; 1; 1; 1]).
  - vm_compute; discriminate.
  - exact sample_ops_ok.
  - intros x Hx. change (zlen [1; 2; 3; 4; 5]) with 5 in Hx. cbn [received sample_ops].
    change (zlen [3; 4; 5]) with 3. change (zlen [1; 2; 3]) with 3. lia.
  - reflexivity.
  - repeat constructor.
  - vm_compute; discriminate.
Defined.

(** [AvailableContiguous] and [Peek] look at the first chunk only, and
    contiguous chunks are not always merged: after two back-to-back frames of
    2048 bytes, 4096 bytes are contiguous in the map and yet both report 2048. *)
Theorem reassembly_adjacent_chunks_not_merged :
  let d := replicate 2048 7 in
  let b := fst (Push [] (fst (Push [] NewReassemblyBuffer 0 d false)) 2048 d true) in
  (forall x, 0 <= x < 4096 -> content (chunks b) x = Some 7)
  /\ AvailableContiguous b = 2048 /\ fst (Peek b 4096) = d /\ snd (Peek b 4096) = false.
Proof.
  intros d b. assert (Hb : b = mkBuffer 0 4096 4096 true
    [mkChunk 0 d (Some 2048) false; mkChunk 2048 d (Some 2048) false]) by (vm_compute; reflexivity).
  rewrite Hb. split_and!; try (vm_compute; reflexivity).
  intros x Hx. cbn [chunks content]. unfold chunk_at, zat. cbn [c_offset c_data].
  assert (Hd : forall i, (i < 2048)%nat -> d !! i = Some 7) by (intros; by apply lookup_replicate_2).
  case_test; [|lia]. destruct (decide (x < 2048)).
  - rewrite Hd by lia. done.
  - rewrite lookup_ge_None_2 by (unfold d; rewrite length_replicate; lia).
    case_test; [|lia]. by rewrite Hd by lia.
Qed.
