(* ===== verification/FlowControl.v ===== *)
(** * Credit-based flow control (RFC 9000 section 4)

    Models [src/net/quic/core/stream/flowcontrol.go]: the connection and the
    stream flow controllers.  The two Go structs carry the same counters; they
    are the record [flow] here, and a stream controller adds its identifier.
    All streams of a connection share one connection controller, so a stream
    operation takes and returns it ([option flow], [None] for a nil pointer).
    [time.Now], the RTT provider and the [allowWindowIncrease] callback are the
    environment [env] of the operations that consult them.

    The theorems: under every interleaving of checks and charges no stream exceeds
    its credit, the connection does not when writers do not overlap, and connection
    totals are the sums over the streams; an incoming offset is
    accepted exactly within both windows; receive windows only grow, stay within
    their configured maximum and always leave the peer room to send; and one
    defect, a stale DATA_BLOCKED frame suppresses the one for the next limit. *)

From S2P Require Import Prelude StreamTypes.
From Stdlib Require Import SpecFloat Sorted.
From stdpp Require Import list gmap.
Open Scope Z_scope.

Definition DefaultInitialStreamReceiveWindow : Z := 512 * 1024.
Definition DefaultMaxStreamReceiveWindow : Z := 6 * 1024 * 1024.
Definition DefaultInitialConnReceiveWindow : Z := 512 * 1024.
Definition DefaultMaxConnReceiveWindow : Z := 15 * 1024 * 1024.

(** ** Floating point, as far as the source uses it *)

(** [float64(n)] for a 64-bit [n], rounded to 53 bits, ties to even; the result
    is an integer. *)
Definition float64_of (n : Z) : Z :=
  if n <? 2 ^ 53 then n
  else
    let e := Z.log2 n - 52 in
    let q := n / 2 ^ e in
    let r := n mod 2 ^ e in
    let up := (2 ^ (e - 1) <? r) || ((2 ^ (e - 1) =? r) && Z.odd q) in
    (if up then q + 1 else q) * 2 ^ e.

(** [uint64(float64(size) * (1.0 - WindowUpdateThreshold))], the threshold
    constant being 0.5: halving is exact, the conversion truncates. *)
Definition update_threshold (size : Z) : Z := u64 (float64_of size / 2).

(** The auto-tuning duration is genuine binary64 arithmetic; [SpecFloat] of the
    standard library gives its semantics. *)
Definition sf_of (n : Z) : spec_float := binary_normalize 53 1024 n 0 false.
Definition sf_trunc (f : spec_float) : option Z :=
  match f with
  | S754_zero _ => Some 0
  | S754_finite s m e =>
      let v := if 0 <=? e then Zpos m * 2 ^ e else Zpos m / 2 ^ (- e) in
      let v := if s then - v else v in
      if (- 2 ^ 63 <=? v) && (v <? 2 ^ 63) then Some v else None
  | _ => None
  end.

(** What an operation sees of the outside: the clock, the smoothed RTT, the
    callback (if any), and the value the platform gives an out-of-range
    conversion of a float to an integer. *)
Record env := mkEnv {
  now : Z;
  SmoothedRTT : Z;
  allowWindowIncrease : option (Z -> bool);
  conv_overflow : Z
}.

(** [time.Duration(4.0 * (float64(a)/float64(b)) * float64(rtt))]. *)
Definition threshold_duration (en : env) (a b : Z) : Z :=
  let fraction := SFdiv 53 1024 (sf_of a) (sf_of b) in
  let d := SFmul 53 1024 (SFmul 53 1024 (sf_of 4) fraction) (sf_of (SmoothedRTT en)) in
  default (conv_overflow en) (sf_trunc d).

(** ** State *)

(** Waiter channels are numbered in order of creation; [closedWaiters] are the
    ones already closed. *)
#[projections(primitive)]
Record flow := mkFlow {
  bytesSent : Z;
  sendWindow : Z;
  lastBlockedOffset : Z;
  dataBlockedQueued : bool;
  hasSentBlocked : bool;
  sendBlockedWaiters : list Z;
  nextWaiter : Z;
  closedWaiters : list Z;
  bytesRead : Z;
  highestReceived : Z;
  receiveWindow : Z;
  receiveWindowSize : Z;
  maxReceiveWindowSize : Z;
  windowUpdateQueued : bool;
  queuedWindowUpdate : Z;
  epochStartTime : Z;
  epochStartOffset : Z
}.

#[projections(primitive)]
Record StreamFlowController := mkStreamFlow { sf_streamID : Z; sf_flow : flow }.

Definition NewConnectionFlowController (en : env)
    (initialReceiveWindow maxReceiveWindow initialSendWindow : Z) : flow :=
  let initialReceiveWindow :=
    if initialReceiveWindow =? 0 then DefaultInitialConnReceiveWindow else initialReceiveWindow in
  let maxReceiveWindow :=
    if maxReceiveWindow =? 0 then DefaultMaxConnReceiveWindow else maxReceiveWindow in
  mkFlow 0 initialSendWindow 0 false false [] 0 [] 0 0 initialReceiveWindow initialReceiveWindow
    maxReceiveWindow false 0 (now en) 0.

Definition NewStreamFlowController (en : env) (streamID : Z)
    (initialReceiveWindow maxReceiveWindow initialSendWindow : Z) : StreamFlowController :=
  let initialReceiveWindow :=
    if initialReceiveWindow =? 0 then DefaultInitialStreamReceiveWindow else initialReceiveWindow in
  let maxReceiveWindow :=
    if maxReceiveWindow =? 0 then DefaultMaxStreamReceiveWindow else maxReceiveWindow in
  mkStreamFlow streamID
    (mkFlow 0 initialSendWindow 0 false false [] 0 [] 0 0 initialReceiveWindow initialReceiveWindow
       maxReceiveWindow false 0 (now en) 0).

(** ** Connection controller *)
Definition SendCreditAvailable (c : flow) : Z :=
  if sendWindow c >? bytesSent c then sendWindow c - bytesSent c else 0.

Definition AddBytesSent (c : flow) (n : Z) : flow := { c with bytesSent := u64 (bytesSent c + n) }.

Definition UpdateSendWindow (c : flow) (newLimit : Z) : flow :=
  if newLimit >? sendWindow c then
    { c with sendWindow := newLimit; hasSentBlocked := false;
             closedWaiters := closedWaiters c ++ sendBlockedWaiters c; sendBlockedWaiters := [] }
  else c.

Definition RegisterSendWaiter (c : flow) : flow * Z :=
  ({ c with sendBlockedWaiters := sendBlockedWaiters c ++ [nextWaiter c];
            nextWaiter := nextWaiter c + 1 }, nextWaiter c).

(** The results [(offset, ok)] of the Go functions are [option Z] here. *)
Definition CheckAndQueueDataBlocked (c : flow) : flow * option Z :=
  if (bytesSent c >=? sendWindow c) && negb (hasSentBlocked c) then
    ({ c with hasSentBlocked := true; dataBlockedQueued := true;
              lastBlockedOffset := sendWindow c }, Some (sendWindow c))
  else (c, None).

Definition UpdateHighestReceived (c : flow) (streamIncrement : Z) : flow * res stream_error unit :=
  let c := { c with highestReceived := u64 (highestReceived c + streamIncrement) } in
  if highestReceived c >? receiveWindow c then (c, Err (TransportError FlowControlError))
  else (c, Ok tt).

Definition AddBytesRead (c : flow) (n : Z) : flow := { c with bytesRead := u64 (bytesRead c + n) }.

Definition maybeAdjustWindowSize (en : env) (c : flow) : flow :=
  let bytesReadInEpoch := u64 (bytesRead c - epochStartOffset c) in
  if bytesReadInEpoch <? receiveWindowSize c / 2 then c
  else
    let rtt := SmoothedRTT en in
    let c :=
      if rtt >? 0 then
        let thresholdDuration := threshold_duration en bytesReadInEpoch (receiveWindowSize c) in
        if now en - epochStartTime c <? thresholdDuration then
          let newSize := Z.min (u64 (2 * receiveWindowSize c)) (maxReceiveWindowSize c) in
          if newSize >? receiveWindowSize c then
            if match allowWindowIncrease en with
               | None => true
               | Some allow => allow (newSize - receiveWindowSize c)
               end
            then { c with receiveWindowSize := newSize } else c
          else c
        else c
      else c in
    { c with epochStartTime := now en; epochStartOffset := bytesRead c }.

Definition bytes_remaining (c : flow) : Z :=
  if receiveWindow c >? bytesRead c then receiveWindow c - bytesRead c else 0.

Definition CheckAndQueueWindowUpdate (en : env) (c : flow) : flow * option Z :=
  let bytesRemaining := bytes_remaining c in
  let threshold := update_threshold (receiveWindowSize c) in
  if bytesRemaining >? threshold then
    if windowUpdateQueued c then (c, Some (queuedWindowUpdate c)) else (c, None)
  else
    let c := maybeAdjustWindowSize en c in
    let c := { c with receiveWindow := u64 (bytesRead c + receiveWindowSize c) } in
    let c := { c with queuedWindowUpdate := receiveWindow c; windowUpdateQueued := true } in
    (c, Some (receiveWindow c)).

Definition GetWindowUpdate (c : flow) : flow * option Z :=
  if windowUpdateQueued c then
    ({ c with windowUpdateQueued := false }, Some (queuedWindowUpdate c))
  else (c, None).

Definition MaybeGetWindowUpdate (en : env) (c : flow) : flow * option Z :=
  if windowUpdateQueued c then
    ({ c with windowUpdateQueued := false }, Some (queuedWindowUpdate c))
  else
    let bytesRemaining := bytes_remaining c in
    let threshold := update_threshold (receiveWindowSize c) in
    if bytesRemaining >? threshold then (c, None)
    else
      let c := maybeAdjustWindowSize en c in
      let c := { c with receiveWindow := u64 (bytesRead c + receiveWindowSize c) } in
      (c, Some (receiveWindow c)).

Definition GetDataBlockedFrame (c : flow) : flow * option Z :=
  if dataBlockedQueued c then
    ({ c with dataBlockedQueued := false; hasSentBlocked := true }, Some (lastBlockedOffset c))
  else if (bytesSent c >=? sendWindow c) && negb (hasSentBlocked c) then
    ({ c with hasSentBlocked := true; lastBlockedOffset := sendWindow c }, Some (sendWindow c))
  else (c, None).

Definition ReclaimBytesSent (c : flow) (n : Z) : flow :=
  { c with bytesSent := if bytesSent c >=? n then bytesSent c - n else 0 }.

(** ** Stream controller *)
Definition Stream_SendCreditAvailable (s : StreamFlowController) (conn : option flow) : Z * Z * Z :=
  let streamCredit :=
    if sendWindow (sf_flow s) >? bytesSent (sf_flow s)
    then sendWindow (sf_flow s) - bytesSent (sf_flow s) else 0 in
  match conn with
  | Some c =>
      let connCredit := SendCreditAvailable c in
      (streamCredit, connCredit, Z.min streamCredit connCredit)
  | None => (streamCredit, streamCredit, streamCredit)
  end.

Definition Stream_AddBytesSent (s : StreamFlowController) (conn : option flow) (n : Z) :
    StreamFlowController * option flow :=
  ({ s with sf_flow := AddBytesSent (sf_flow s) n },
   match conn with Some c => Some (AddBytesSent c n) | None => None end).

Definition Stream_UpdateSendWindow (s : StreamFlowController) (newLimit : Z) : StreamFlowController :=
  { s with sf_flow := UpdateSendWindow (sf_flow s) newLimit }.

Definition Stream_RegisterSendWaiter (s : StreamFlowController) : StreamFlowController * Z :=
  let '(f, ch) := RegisterSendWaiter (sf_flow s) in ({ s with sf_flow := f }, ch).

Definition CheckAndQueueStreamDataBlocked (s : StreamFlowController) :
    StreamFlowController * option Z :=
  let '(f, r) := CheckAndQueueDataBlocked (sf_flow s) in ({ s with sf_flow := f }, r).

Definition Stream_UpdateHighestReceived (s : StreamFlowController) (conn : option flow) (offset : Z) :
    StreamFlowController * option flow * res stream_error unit :=
  let f := sf_flow s in
  let increment := if offset >? highestReceived f then offset - highestReceived f else 0 in
  let s := if offset >? highestReceived f then { s with sf_flow -> highestReceived := offset } else s in
  let currentWindow := receiveWindow f in
  if offset >? currentWindow then (s, conn, Err (TransportError FlowControlError))
  else
    match conn with
    | Some c =>
        if increment >? 0 then
          let '(c', r) := UpdateHighestReceived c increment in (s, Some c', r)
        else (s, conn, Ok tt)
    | None => (s, conn, Ok tt)
    end.

Definition Stream_AddBytesRead (s : StreamFlowController) (conn : option flow) (n : Z) :
    StreamFlowController * option flow :=
  ({ s with sf_flow := AddBytesRead (sf_flow s) n },
   match conn with Some c => Some (AddBytesRead c n) | None => None end).

Definition Stream_CheckAndQueueWindowUpdate (en : env) (s : StreamFlowController) :
    StreamFlowController * option Z :=
  let '(f, r) := CheckAndQueueWindowUpdate en (sf_flow s) in ({ s with sf_flow := f }, r).

Definition Stream_GetWindowUpdate (s : StreamFlowController) : StreamFlowController * option Z :=
  let '(f, r) := GetWindowUpdate (sf_flow s) in ({ s with sf_flow := f }, r).

Definition Stream_MaybeGetWindowUpdate (en : env) (s : StreamFlowController) :
    StreamFlowController * option Z :=
  let '(f, r) := MaybeGetWindowUpdate en (sf_flow s) in ({ s with sf_flow := f }, r).

Definition GetStreamDataBlockedFrame (s : StreamFlowController) : StreamFlowController * option Z :=
  let '(f, r) := GetDataBlockedFrame (sf_flow s) in ({ s with sf_flow := f }, r).

Definition Stream_ReclaimBytesSent (s : StreamFlowController) (conn : option flow) (n : Z) :
    StreamFlowController * option flow :=
  ({ s with sf_flow := ReclaimBytesSent (sf_flow s) n },
   match conn with Some c => Some (ReclaimBytesSent c n) | None => None end).

Definition Stream_maybeAdjustWindowSize (en : env) (s : StreamFlowController) : StreamFlowController :=
  { s with sf_flow := maybeAdjustWindowSize en (sf_flow s) }.

(** ** The receive window *)
Lemma float64_of_small n : n < 2 ^ 53 -> float64_of n = n.
Proof. intros. unfold float64_of. by case_test; [|lia]. Qed.

Lemma float64_of_bound n : 0 <= n -> 0 <= float64_of n <= 2 * n.
Proof.
  intros Hn. unfold float64_of. case_test; [lia|]. cbv zeta.
  assert (He : 1 <= Z.log2 n - 52).
  { assert (Z.log2 (2 ^ 53) <= Z.log2 n) by (apply Z.log2_le_mono; lia).
    rewrite Z.log2_pow2 in * by lia. lia. }
  assert (Hp : 2 ^ (Z.log2 n - 52) <= n).
  { pose proof (Z.log2_spec n ltac:(lia)) as [Hl _]. etransitivity; [|exact Hl].
    apply Z.pow_le_mono_r; lia. }
  set (p := 2 ^ (Z.log2 n - 52)) in *. assert (0 < p) by (apply Z.pow_pos_nonneg; lia).
  pose proof (Z.mod_pos_bound n p ltac:(lia)). pose proof (Z.div_mod n p ltac:(lia)).
  assert (0 <= n / p) by (apply Z.div_pos; lia).
  destruct (_ || _); nia.
Qed.

Lemma update_threshold_bound size : 0 <= size < 2 ^ 64 -> 0 <= update_threshold size <= size.
Proof.
  intros H. unfold update_threshold. pose proof (float64_of_bound size ltac:(lia)).
  rewrite u64_small by (unfold is_u64; lia). lia.
Qed.

(** The receive side of a controller is consistent: the advertised window never
    reaches further than one window size past what has been read, a queued
    update is the current window, and nothing is near overflow. *)
Definition recv_ok (c : flow) : Prop :=
  0 <= bytesRead c /\ 0 < receiveWindowSize c
  /\ 0 <= receiveWindow c <= bytesRead c + receiveWindowSize c
  /\ bytesRead c + Z.max (receiveWindowSize c) (maxReceiveWindowSize c) < 2 ^ 64
  /\ (windowUpdateQueued c = true -> queuedWindowUpdate c = receiveWindow c).

Lemma maybeAdjust_spec en c :
  recv_ok c ->
  let c' := maybeAdjustWindowSize en c in
  receiveWindowSize c <= receiveWindowSize c'
    <= Z.max (receiveWindowSize c) (maxReceiveWindowSize c)
  /\ bytesRead c' = bytesRead c /\ maxReceiveWindowSize c' = maxReceiveWindowSize c
  /\ receiveWindow c' = receiveWindow c /\ highestReceived c' = highestReceived c.
Proof.
  destruct c as [? ? ? ? ? ? ? ? br hr rw rws mx q qw et eo]. intros (H1 & H2 & H3 & H4 & H5).
  cbn in H1, H2, H3, H4. cbv zeta. unfold maybeAdjustWindowSize.
  cbn [bytesRead epochStartOffset receiveWindowSize maxReceiveWindowSize epochStartTime].
  repeat case_test; cbn; split_and!; try done; try lia.
Qed.

(** What the two window-update functions have in common. *)
Lemma new_window_spec en c :
  recv_ok c -> bytes_remaining c <= update_threshold (receiveWindowSize c) ->
  let size' := receiveWindowSize (maybeAdjustWindowSize en c) in
  receiveWindow c <= bytesRead c + size'
  /\ bytesRead c + size' <= bytesRead c + Z.max (receiveWindowSize c) (maxReceiveWindowSize c)
  /\ u64 (bytesRead (maybeAdjustWindowSize en c) + size') = bytesRead c + size'.
Proof.
  intros Hok Hrem. pose proof (maybeAdjust_spec en c Hok) as (Hs & Hb & Hm & Hw & _).
  destruct Hok as (H1 & H2 & H3 & H4 & H5). cbv zeta. rewrite Hb.
  pose proof (update_threshold_bound (receiveWindowSize c) ltac:(lia)).
  rewrite u64_small by (unfold is_u64; lia). unfold bytes_remaining in Hrem.
  case_hyp Hrem; split_and!; lia.
Qed.

(** The effect of either function on the window. *)
Definition window_step (c c' : flow) : Prop :=
  recv_ok c' /\ bytesRead c' = bytesRead c /\ highestReceived c' = highestReceived c
  /\ maxReceiveWindowSize c' = maxReceiveWindowSize c
  /\ receiveWindow c <= receiveWindow c'
  /\ receiveWindowSize c <= receiveWindowSize c'
       <= Z.max (receiveWindowSize c) (maxReceiveWindowSize c).

Lemma window_step_refl c : recv_ok c -> window_step c c.
Proof. intros H. split_and!; try done; lia. Qed.

(** Raise the window to [bytesRead + size'] after adjusting, queueing it or not. *)
Definition raise_window (en : env) (queue : bool) (c : flow) : flow :=
  let c1 := maybeAdjustWindowSize en c in
  let w := u64 (bytesRead c1 + receiveWindowSize c1) in
  if queue then { { c1 with receiveWindow := w } with queuedWindowUpdate := w; windowUpdateQueued := true }
  else { c1 with receiveWindow := w }.

Lemma maybeAdjust_queue en c :
  windowUpdateQueued (maybeAdjustWindowSize en c) = windowUpdateQueued c.
Proof. unfold maybeAdjustWindowSize. by repeat case_test. Qed.

Lemma raise_window_step en queue c :
  recv_ok c -> bytes_remaining c <= update_threshold (receiveWindowSize c) ->
  (queue = false -> windowUpdateQueued c = false) ->
  window_step c (raise_window en queue c) /\ bytesRead c < receiveWindow (raise_window en queue c).
Proof.
  intros Hok Hrem Hq. pose proof (maybeAdjust_spec en c Hok) as (Hs & Hb & Hm & Hw & Hh).
  pose proof (new_window_spec en c Hok Hrem) as (H1 & H2 & H3). pose proof (maybeAdjust_queue en c) as Hq'.
  destruct Hok as (G1 & G2 & G3 & G4 & G5). unfold raise_window, window_step, recv_ok.
  destruct (maybeAdjustWindowSize en c) as [? ? ? ? ? ? ? ? br hr rw rws mx q qw et eo].
  cbn in *. subst br mx hr. destruct queue; cbn; rewrite H3; (split; [split_and!|]); try done; try lia.
  all: rewrite Hq' in *; intros Hx; rewrite Hq in Hx; done.
Qed.

Lemma CheckAndQueue_step en c :
  recv_ok c ->
  let '(c', r) := CheckAndQueueWindowUpdate en c in
  window_step c c' /\ bytesRead c < receiveWindow c'
  /\ (forall w, r = Some w -> w = receiveWindow c' /\ windowUpdateQueued c' = true)
  /\ (r = None -> c' = c /\ update_threshold (receiveWindowSize c) < receiveWindow c - bytesRead c).
Proof.
  intros Hok. unfold CheckAndQueueWindowUpdate. cbv zeta.
  pose proof Hok as (G1 & G2 & G3 & G4 & G5).
  pose proof (update_threshold_bound (receiveWindowSize c) ltac:(lia)) as Ht.
  destruct (bytes_remaining c >? _) eqn:E; bool_simpl.
  - assert (Hpos : update_threshold (receiveWindowSize c) < receiveWindow c - bytesRead c).
    { unfold bytes_remaining in E. case_hyp E; lia. }
    destruct (windowUpdateQueued c) eqn:Eq; (split; [by apply window_step_refl|]); split_and!; try lia;
      try done; intros w [= <-]. split; [by apply G5|done].
  - pose proof (raise_window_step en true c Hok E ltac:(done)) as [Hs Hp].
    change (window_step c (raise_window en true c)
      /\ bytesRead c < receiveWindow (raise_window en true c)
      /\ (forall w, Some (receiveWindow (raise_window en true c)) = Some w ->
            w = receiveWindow (raise_window en true c) /\ true = true)
      /\ (Some (receiveWindow (raise_window en true c)) = None -> raise_window en true c = c
           /\ update_threshold (receiveWindowSize c) < receiveWindow c - bytesRead c)).
    split_and!; try done; try lia. by intros w [= <-].
Qed.

Lemma MaybeGet_step en c :
  recv_ok c ->
  let '(c', r) := MaybeGetWindowUpdate en c in
  window_step c c' /\ (forall w, r = Some w -> w = receiveWindow c')
  /\ (windowUpdateQueued c = false -> bytesRead c < receiveWindow c').
Proof.
  intros Hok. unfold MaybeGetWindowUpdate. cbv zeta.
  pose proof Hok as (G1 & G2 & G3 & G4 & G5).
  pose proof (update_threshold_bound (receiveWindowSize c) ltac:(lia)) as Ht.
  destruct (windowUpdateQueued c) eqn:Eq.
  { destruct c as [? ? ? ? ? ? ? ? br hr rw rws mx q qw et eo]. cbn in *. subst q.
    split_and!; try done; [unfold window_step, recv_ok; cbn; split_and!; try done; lia|].
    intros w [= <-]. by apply G5. }
  destruct (bytes_remaining c >? _) eqn:E; bool_simpl.
  - assert (Hpos : update_threshold (receiveWindowSize c) < receiveWindow c - bytesRead c).
    { unfold bytes_remaining in E. case_hyp E; lia. }
    split_and!; [by apply window_step_refl|done|lia].
  - pose proof (raise_window_step en false c Hok E ltac:(done)) as [Hs Hp].
    change (window_step c (raise_window en false c)
      /\ (forall w, Some (receiveWindow (raise_window en false c)) = Some w ->
            w = receiveWindow (raise_window en false c))
      /\ (false = false -> bytesRead c < receiveWindow (raise_window en false c))).
    split_and!; try done. by intros w [= <-].
Qed.

(** ** Runs of the receive side *)
Inductive recv_op :=
| RRead (n : Z)              (* the application consumed [n] bytes *)
| RReceive (increment : Z)   (* the peer's highest offsets grew *)
| RCheck (en : env)          (* CheckAndQueueWindowUpdate *)
| RGet                       (* GetWindowUpdate: a MAX_DATA frame is built *)
| RMaybe (en : env).         (* MaybeGetWindowUpdate: likewise *)

(** The controller after the step and the limit put on the wire, if any. *)
Definition recv_step (c : flow) (o : recv_op) : flow * option Z :=
  match o with
  | RRead n => (AddBytesRead c n, None)
  | RReceive n => (fst (UpdateHighestReceived c n), None)
  | RCheck en => (fst (CheckAndQueueWindowUpdate en c), None)
  | RGet => GetWindowUpdate c
  | RMaybe en => MaybeGetWindowUpdate en c
  end.
Fixpoint recv_run (c : flow) (ops : list recv_op) : flow * list Z :=
  match ops with
  | [] => (c, [])
  | o :: ops' =>
      let '(c1, r) := recv_step c o in
      let '(c2, ads) := recv_run c1 ops' in
      (c2, match r with Some w => w :: ads | None => ads end)
  end.
Fixpoint total_read (ops : list recv_op) : Z :=
  match ops with
  | [] => 0
  | RRead n :: ops' => n + total_read ops'
  | _ :: ops' => total_read ops'
  end.
Definition recv_op_ok (o : recv_op) : Prop := match o with RRead n => 0 <= n | _ => True end.

(** The largest size the window of [c] may ever have. *)
Definition size_cap (c : flow) : Z := Z.max (receiveWindowSize c) (maxReceiveWindowSize c).

Lemma total_read_nonneg ops : Forall recv_op_ok ops -> 0 <= total_read ops.
Proof. induction 1 as [|o ops Ho _ IH]; [done|]. destruct o; cbn in *; lia. Qed.

Lemma AddBytesRead_ok c n :
  recv_ok c -> 0 <= n -> bytesRead c + n + size_cap c < 2 ^ 64 ->
  recv_ok (AddBytesRead c n) /\ bytesRead (AddBytesRead c n) = bytesRead c + n.
Proof.
  destruct c as [? ? ? ? ? ? ? ? br hr rw rws mx q qw et eo]. intros (H1 & H2 & H3 & H4 & H5) Hn Hb.
  unfold recv_ok, size_cap in *. cbn in *. rewrite u64_small by (unfold is_u64; lia).
  split; [split_and!; try done; lia|done].
Qed.

Lemma UpdateHighest_ok c n : recv_ok c -> recv_ok (fst (UpdateHighestReceived c n)).
Proof. unfold UpdateHighestReceived. intros H. by case_test. Qed.

Lemma recv_step_spec c o :
  recv_ok c -> recv_op_ok o -> bytesRead c + total_read [o] + size_cap c < 2 ^ 64 ->
  let '(c', r) := recv_step c o in
  recv_ok c' /\ bytesRead c' = bytesRead c + total_read [o]
  /\ receiveWindow c <= receiveWindow c' /\ size_cap c' <= size_cap c
  /\ (forall w, r = Some w -> w = receiveWindow c').
Proof.
  intros Hok Ho Hb. unfold size_cap in *. destruct o as [n|n|en| |en]; cbn [recv_step total_read recv_op_ok] in *.
  - destruct (AddBytesRead_ok c n Hok Ho) as [H1 H2]; [unfold size_cap; lia|].
    split_and!; [done|lia|done|done|done].
  - split; [by apply UpdateHighest_ok|]. assert (Hf : exists h, fst (UpdateHighestReceived c n)
      = { c with highestReceived := h }) by (unfold UpdateHighestReceived; case_test; eauto).
    destruct Hf as [h ->]. destruct c. cbn -[Z.max]. split_and!; try done; lia.
  - pose proof (CheckAndQueue_step en c Hok) as H.
    destruct (CheckAndQueueWindowUpdate en c) as [c' r]. destruct H as ((H1 & H2 & H3 & H4 & H5 & H6) & _).
    cbn [fst]. split_and!; try done; lia.
  - pose proof Hok as (G1 & G2 & G3 & G4 & G5). unfold GetWindowUpdate. rewrite Z.add_0_r.
    destruct (windowUpdateQueued c) eqn:E; [|by split_and!].
    destruct c. cbn -[Z.max] in *. split_and!; try done.
    intros w [= <-]. by apply G5.
  - pose proof (MaybeGet_step en c Hok) as H.
    destruct (MaybeGetWindowUpdate en c) as [c' r]. destruct H as ((H1 & H2 & H3 & H4 & H5 & H6) & H7 & _).
    split_and!; try done; lia.
Qed.

Lemma recv_run_spec ops : forall c,
  recv_ok c -> Forall recv_op_ok ops -> bytesRead c + total_read ops + size_cap c < 2 ^ 64 ->
  let '(c', ads) := recv_run c ops in
  recv_ok c' /\ bytesRead c' = bytesRead c + total_read ops
  /\ receiveWindow c <= receiveWindow c' /\ size_cap c' <= size_cap c
  /\ Forall (fun w => receiveWindow c <= w <= receiveWindow c') ads /\ Sorted Z.le ads.
Proof.
  induction ops as [|o ops IH]; intros c Hok Hops Hb; cbn [recv_run].
  { cbn [total_read]. split_and!; try done; try lia; constructor. }
  apply Forall_cons in Hops as [Ho Hops]. pose proof (total_read_nonneg ops Hops) as Hn.
  assert (Ht : total_read (o :: ops) = total_read [o] + total_read ops) by (destruct o; cbn; lia).
  rewrite Ht in *. pose proof (recv_step_spec c o Hok Ho ltac:(lia)) as Hs.
  destruct (recv_step c o) as [c1 r]. destruct Hs as (Hok1 & Hbr1 & Hw1 & Hc1 & Hr).
  specialize (IH c1 Hok1 Hops ltac:(lia)). destruct (recv_run c1 ops) as [c2 ads].
  destruct IH as (Hok2 & Hbr2 & Hw2 & Hc2 & Hads & Hsort).
  assert (Hads' : Forall (fun w => receiveWindow c <= w <= receiveWindow c2) ads).
  { eapply Forall_impl; [exact Hads|]. cbn. lia. }
  split_and!; try done; try lia.
  - destruct r as [w|]; [|done]. rewrite (Hr w eq_refl). constructor; [lia|done].
  - destruct r as [w|]; [|done]. rewrite (Hr w eq_refl). constructor; [done|].
    destruct ads; constructor. apply Forall_cons in Hads as [? _]. lia.
Qed.

(** ** All streams of a connection

    A writer asks for credit in one critical section and is charged for what it took
    in another; in between other streams may do both.  [sys_granted] is the credit the
    writers in between were told, at most one per stream since writes on a stream
    exclude each other; [sys_overlap] records whether two of them ever were in between
    at the same time. *)
#[projections(primitive)]
Record system := mkSys {
  sys_conn : flow;
  sys_streams : list StreamFlowController;
  sys_granted : gmap nat Z;
  sys_overlap : bool
}.

(** Window updates, blocked frames and waiters. *)
Inductive side_op := WCheck (en : env) | WGet | WMaybe (en : env) | BQueue | BFrame | BWait.
Definition conn_side (c : flow) (o : side_op) : flow :=
  match o with
  | WCheck en => fst (CheckAndQueueWindowUpdate en c)
  | WGet => fst (GetWindowUpdate c)
  | WMaybe en => fst (MaybeGetWindowUpdate en c)
  | BQueue => fst (CheckAndQueueDataBlocked c)
  | BFrame => fst (GetDataBlockedFrame c)
  | BWait => fst (RegisterSendWaiter c)
  end.
Definition stream_side (st : StreamFlowController) (o : side_op) : StreamFlowController :=
  match o with
  | WCheck en => fst (Stream_CheckAndQueueWindowUpdate en st)
  | WGet => fst (Stream_GetWindowUpdate st)
  | WMaybe en => fst (Stream_MaybeGetWindowUpdate en st)
  | BQueue => fst (CheckAndQueueStreamDataBlocked st)
  | BFrame => fst (GetStreamDataBlockedFrame st)
  | BWait => fst (Stream_RegisterSendWaiter st)
  end.

(** The operations on the shared controllers.  [SCheck] and [SCharge] are the two
    critical sections of a write, [SGiveUp] a writer that returns without taking
    anything. *)
Inductive sys_op :=
| SCheck (i : nat)
| SCharge (i : nat) (n : Z)
| SGiveUp (i : nat)
| SMaxData (limit : Z)
| SMaxStreamData (i : nat) (limit : Z)
| SReclaim (i : nat) (n : Z)
| SRecv (i : nat) (offset : Z)
| SRead (i : nat) (n : Z)
| SConnSide (o : side_op)
| SStreamSide (i : nat) (o : side_op).

Definition with_stream (s : system) (i : nat)
    (k : StreamFlowController -> system * res stream_error unit) : system * res stream_error unit :=
  match sys_streams s !! i with
  | Some st => k st
  | None => (s, Ok tt)
  end.

(** Write back a stream and the connection controller. *)
Definition put (s : system) (i : nat) (p : StreamFlowController * option flow) : system :=
  { s with sys_conn := match snd p with Some c => c | None => sys_conn s end; sys_streams := <[i := fst p]> (sys_streams s) }.

Definition sys_step (s : system) (o : sys_op) : system * res stream_error unit :=
  match o with
  | SCheck i =>
      with_stream s i (fun st =>
        match sys_granted s !! i with
        | Some _ => (s, Ok tt)
        | None =>
            let '(_, _, effective) := Stream_SendCreditAvailable st (Some (sys_conn s)) in
            if effective =? 0 then (s, Err ErrWouldBlock)
            else ({ s with sys_granted := <[i := effective]> (sys_granted s);
                           sys_overlap := sys_overlap s || negb (bool_decide (sys_granted s = ∅)) }, Ok tt)
        end)
  | SCharge i n =>
      with_stream s i (fun st =>
        match sys_granted s !! i with
        | Some effective =>
            if n <=? effective then
              (put { s with sys_granted := delete i (sys_granted s) } i (Stream_AddBytesSent st (Some (sys_conn s)) n), Ok tt)
            else (s, Ok tt)
        | None => (s, Ok tt)
        end)
  | SGiveUp i => ({ s with sys_granted := delete i (sys_granted s) }, Ok tt)
  | SMaxData limit => ({ s with sys_conn := UpdateSendWindow (sys_conn s) limit }, Ok tt)
  | SMaxStreamData i limit =>
      with_stream s i (fun st =>
        (put s i (Stream_UpdateSendWindow st limit, Some (sys_conn s)), Ok tt))
  | SReclaim i n =>
      with_stream s i (fun st => (put s i (Stream_ReclaimBytesSent st (Some (sys_conn s)) n), Ok tt))
  | SRecv i offset =>
      with_stream s i (fun st =>
        let '(st', conn', r) := Stream_UpdateHighestReceived st (Some (sys_conn s)) offset in
        (put s i (st', conn'), r))
  | SRead i n =>
      with_stream s i (fun st => (put s i (Stream_AddBytesRead st (Some (sys_conn s)) n), Ok tt))
  | SConnSide o => ({ s with sys_conn := conn_side (sys_conn s) o }, Ok tt)
  | SStreamSide i o => with_stream s i (fun st => (put s i (stream_side st o, Some (sys_conn s)), Ok tt))
  end.

(** Arguments as the program supplies them: 64-bit values; a stream reclaims no more
    than it has sent; the application reads what has arrived, less than 2^62 bytes in
    all. *)
Definition sys_op_ok (s : system) (o : sys_op) : Prop :=
  match o with
  | SCharge _ n => 0 <= n
  | SMaxData l | SMaxStreamData _ l => is_u64 l
  | SReclaim i n => 0 <= n /\ forall st, sys_streams s !! i = Some st -> n <= bytesSent (sf_flow st)
  | SRecv _ off => is_u64 off
  | SRead i n =>
      0 <= n /\ bytesRead (sys_conn s) + n < 2 ^ 62
      /\ forall st, sys_streams s !! i = Some st -> bytesRead (sf_flow st) + n <= highestReceived (sf_flow st)
  | _ => True
  end.

(** Fresh controllers, and everything a connection can do from there without a
    flow-control error (which closes it). *)
Definition fresh_flow (f : flow) : Prop :=
  bytesSent f = 0 /\ bytesRead f = 0 /\ highestReceived f = 0 /\ is_u64 (sendWindow f)
  /\ 0 <= receiveWindow f <= receiveWindowSize f /\ 0 < receiveWindowSize f /\ size_cap f <= 2 ^ 62 /\ windowUpdateQueued f = false.

Inductive sys_reachable : system -> Prop :=
| sys_init c sts :
    fresh_flow c -> Forall (fun st => fresh_flow (sf_flow st)) sts -> sys_reachable (mkSys c sts ∅ false)
| sys_next s o s' r :
    sys_reachable s -> sys_op_ok s o -> sys_step s o = (s', r) ->
    r <> Err (TransportError FlowControlError) -> sys_reachable s'.

(** *** The invariant *)
Definition recv_inv (f : flow) : Prop := 0 <= highestReceived f <= receiveWindow f /\ receiveWindow f < 2 ^ 63.
Definition stream_inv (f : flow) : Prop :=
  0 <= bytesSent f <= sendWindow f /\ sendWindow f < 2 ^ 64
  /\ 0 <= highestReceived f <= receiveWindow f /\ receiveWindow f < 2 ^ 63.
(** The receive side: also what the window updates rely on. *)
Definition recv_side (f : flow) : Prop :=
  recv_ok f /\ size_cap f <= 2 ^ 62 /\ bytesRead f <= highestReceived f <= receiveWindow f.

Definition sent_of (st : StreamFlowController) : Z := bytesSent (sf_flow st).
Definition limit_of (st : StreamFlowController) : Z := sendWindow (sf_flow st).
Definition received_of (st : StreamFlowController) : Z := highestReceived (sf_flow st).
Definition read_of (st : StreamFlowController) : Z := bytesRead (sf_flow st).

(** The total of the streams' limits fits 64 bits. *)
Definition limits_fit (s : system) : Prop := sum_of limit_of (sys_streams s) < 2 ^ 64.

Record conn_fine (c : flow) : Prop := {
  cf_sent : 0 <= bytesSent c < 2 ^ 64;
  cf_window : sendWindow c < 2 ^ 64;
  cf_recv : recv_side c;
  cf_read : bytesRead c < 2 ^ 62
}.
Record stream_fine (f : flow) : Prop := {
  sf_sent : 0 <= bytesSent f <= sendWindow f /\ sendWindow f < 2 ^ 64;
  sf_recv : recv_side f
}.
(** Without overlap the credit granted on the connection is there. *)
Definition credit_kept (s : system) : Prop :=
  bytesSent (sys_conn s) <= sendWindow (sys_conn s)
  /\ (forall i e, sys_granted s !! i = Some e -> bytesSent (sys_conn s) + e <= sendWindow (sys_conn s))
  /\ (forall i j, is_Some (sys_granted s !! i) -> is_Some (sys_granted s !! j) -> i = j).
Record sys_inv (s : system) : Prop := {
  iv_conn : conn_fine (sys_conn s);
  iv_streams : Forall (fun st => stream_fine (sf_flow st)) (sys_streams s);
  iv_received : highestReceived (sys_conn s) = sum_of received_of (sys_streams s);
  iv_read : bytesRead (sys_conn s) = sum_of read_of (sys_streams s);
  iv_granted : forall i e, sys_granted s !! i = Some e ->
    0 <= e /\ exists st, sys_streams s !! i = Some st /\ bytesSent (sf_flow st) + e <= sendWindow (sf_flow st);
  iv_credit : sys_overlap s = false -> credit_kept s;
  iv_sent : sys_overlap s = false \/ limits_fit s -> bytesSent (sys_conn s) = sum_of sent_of (sys_streams s)
}.

Lemma recv_side_inv f : recv_side f -> bytesRead f < 2 ^ 62 -> recv_inv f.
Proof. intros ((H1 & H2 & H3 & _) & Hc & Hr) Hb. unfold recv_inv, size_cap in *. lia. Qed.

(** Evaluate the fields of an updated system. *)
Ltac sys_cbn := cbn -[u64 sum_of Z.max Z.min Z.pow Z.add Z.sub insert list_insert delete lookup].

(** Limits that fit now did before. *)
Lemma limits_fit_put s i st st' c' :
  sys_streams s !! i = Some st -> sendWindow (sf_flow st) <= sendWindow (sf_flow st') -> limits_fit (put s i (st', Some c')) -> limits_fit s.
Proof.
  intros Hi Hw. unfold limits_fit. change (sys_streams (put s i (st', Some c'))) with (<[i := st']> (sys_streams s)).
  rewrite (sum_of_insert _ _ _ _ _ Hi). unfold limit_of at 2 3. lia.
Qed.
(** Replacing one stream and the connection controller. *)
Lemma put_inv s i st st' c' g ov :
  sys_inv s -> sys_streams s !! i = Some st -> conn_fine c' -> stream_fine (sf_flow st') ->
  highestReceived c' = highestReceived (sys_conn s) - received_of st + received_of st' ->
  bytesRead c' = bytesRead (sys_conn s) - read_of st + read_of st' ->
  sendWindow (sf_flow st) <= sendWindow (sf_flow st') ->
  (forall j e, g !! j = Some e -> sys_granted s !! j = Some e /\ (j = i -> bytesSent (sf_flow st') <= bytesSent (sf_flow st))) ->
  (ov = false -> sys_overlap s = false) ->
  (ov = false -> credit_kept { put s i (st', Some c') with sys_granted := g; sys_overlap := ov }) ->
  (bytesSent (sys_conn s) = sum_of sent_of (sys_streams s) -> (ov = false \/ limits_fit (put s i (st', Some c'))) ->
     bytesSent c' = bytesSent (sys_conn s) - sent_of st + sent_of st') ->
  sys_inv { put s i (st', Some c') with sys_granted := g; sys_overlap := ov }.
Proof.
  intros [H1 H2 H3 H4 H5 H6 H7] Hi Hc Hs Eh Er Hw Hg Hov Hcr Hsent.
  split; unfold put; sys_cbn; try done.
  - by apply Forall_insert.
  - rewrite (sum_of_insert _ _ _ _ _ Hi). lia.
  - rewrite (sum_of_insert _ _ _ _ _ Hi). lia.
  - intros j e Hj. destruct (Hg j e Hj) as [Hj' Hle]. destruct (H5 j e Hj') as (H0 & stj & Hstj & Hb). split; [done|].
    destruct (decide (i = j)) as [<-|Hn].
    + rewrite list_lookup_insert_eq by (by eapply lookup_lt_Some). exists st'. split; [done|]. specialize (Hle eq_refl). replace stj with st in * by congruence. lia.
    + rewrite list_lookup_insert_ne by done. by exists stj.
  - intros Hor. rewrite (sum_of_insert _ _ _ _ _ Hi). rewrite <- H7.
    + apply Hsent; [|exact Hor]. apply H7. destruct Hor as [Hor|Hor]; [left; by apply Hov|right].
      by apply (limits_fit_put s i st st' c').
    + destruct Hor as [Hor|Hor]; [left; by apply Hov|right].
      by apply (limits_fit_put s i st st' c').
Qed.
(** The common case: grants and overlap stay, the sending side of the connection too. *)
Lemma put_same s i st st' c' :
  sys_inv s -> sys_streams s !! i = Some st -> conn_fine c' -> stream_fine (sf_flow st') ->
  highestReceived c' = highestReceived (sys_conn s) - received_of st + received_of st' ->
  bytesRead c' = bytesRead (sys_conn s) - read_of st + read_of st' ->
  sendWindow (sf_flow st) <= sendWindow (sf_flow st') -> sendWindow c' = sendWindow (sys_conn s) ->
  bytesSent (sf_flow st') <= bytesSent (sf_flow st) -> bytesSent c' <= bytesSent (sys_conn s) ->
  (bytesSent (sys_conn s) = sum_of sent_of (sys_streams s) -> bytesSent c' = bytesSent (sys_conn s) - sent_of st + sent_of st') ->
  sys_inv (put s i (st', Some c')).
Proof.
  intros Hv Hi Hc Hs Eh Er Hw Ew Hb Hbc Hsent. apply (put_inv s i st st' c' (sys_granted s) (sys_overlap s)); try done.
  - intros Ho. destruct (iv_credit s Hv Ho) as (K1 & K2 & K3). unfold credit_kept, put. sys_cbn. rewrite Ew. split; [lia|]. split; [|exact K3].
    intros j e Hj. specialize (K2 j e Hj). lia.
  - intros E _. by apply Hsent.
Qed.
(** Replacing the connection controller only. *)
Lemma conn_inv s c' :
  sys_inv s -> conn_fine c' -> bytesSent c' = bytesSent (sys_conn s) -> sendWindow (sys_conn s) <= sendWindow c' ->
  highestReceived c' = highestReceived (sys_conn s) -> bytesRead c' = bytesRead (sys_conn s) -> sys_inv { s with sys_conn := c' }.
Proof.
  intros [H1 H2 H3 H4 H5 H6 H7] Hc E1 E2 E3 E4. split; sys_cbn; try done; [by rewrite E3|by rewrite E4|..].
  - intros Ho. destruct (H6 Ho) as (K1 & K2 & K3). unfold credit_kept. sys_cbn. rewrite E1. split; [lia|]. split; [|exact K3].
    intros j e Hj. specialize (K2 j e Hj). lia.
  - intros Hor. rewrite E1. by apply H7.
Qed.

(** Side operations leave the counters alone and only raise the window. *)
Definition side_kept (f f' : flow) : Prop :=
  recv_side f' /\ bytesSent f' = bytesSent f /\ sendWindow f' = sendWindow f /\ highestReceived f' = highestReceived f /\ bytesRead f' = bytesRead f.
Lemma window_side f f' : window_step f f' -> bytesSent f' = bytesSent f -> sendWindow f' = sendWindow f -> recv_side f -> side_kept f f'.
Proof. intros (W1 & W2 & W3 & W4 & W5 & W6) E1 E2 (R1 & R2 & R3). unfold side_kept, recv_side, size_cap in *. rewrite W2, W3, W4. split_and!; try done; lia. Qed.
Lemma maybeAdjust_send en c : bytesSent (maybeAdjustWindowSize en c) = bytesSent c /\ sendWindow (maybeAdjustWindowSize en c) = sendWindow c.
Proof. unfold maybeAdjustWindowSize. by repeat case_test. Qed.
Lemma conn_side_kept c o : recv_side c -> side_kept c (conn_side c o).
Proof.
  intros Hs. pose proof Hs as (R1 & R2 & R3). destruct o as [en| |en| | |]; cbn [conn_side].
  - pose proof (CheckAndQueue_step en c R1) as H. destruct (maybeAdjust_send en c) as [M1 M2].
    assert (E : bytesSent (fst (CheckAndQueueWindowUpdate en c)) = bytesSent c /\ sendWindow (fst (CheckAndQueueWindowUpdate en c)) = sendWindow c)
      by (unfold CheckAndQueueWindowUpdate; cbv zeta; case_test; [by case_test|split; [exact M1|exact M2]]).
    destruct (CheckAndQueueWindowUpdate en c) as [c' r]. destruct H as [H _], E as [E1 E2]. by apply window_side.
  - unfold GetWindowUpdate. destruct (windowUpdateQueued c) eqn:E; [|by split_and!]. destruct R1 as (A & B & C & D & F). by split_and!.
  - pose proof (MaybeGet_step en c R1) as H. destruct (maybeAdjust_send en c) as [M1 M2].
    assert (E : bytesSent (fst (MaybeGetWindowUpdate en c)) = bytesSent c /\ sendWindow (fst (MaybeGetWindowUpdate en c)) = sendWindow c)
      by (unfold MaybeGetWindowUpdate; cbv zeta; case_test; [done|]; case_test; [done|split; [exact M1|exact M2]]).
    destruct (MaybeGetWindowUpdate en c) as [c' r]. destruct H as [H _], E as [E1 E2]. by apply window_side.
  - unfold CheckAndQueueDataBlocked. by destruct (_ && _).
  - unfold GetDataBlockedFrame. destruct (dataBlockedQueued c); [done|]. by destruct (_ && _).
  - done.
Qed.
Lemma stream_side_eq st o : stream_side st o = { st with sf_flow := conn_side (sf_flow st) o }.
Proof.
  destruct o as [en| |en| | |]; cbn [stream_side conn_side];
    unfold Stream_CheckAndQueueWindowUpdate, Stream_GetWindowUpdate, Stream_MaybeGetWindowUpdate, CheckAndQueueStreamDataBlocked, GetStreamDataBlockedFrame, Stream_RegisterSendWaiter.
  - by destruct (CheckAndQueueWindowUpdate en (sf_flow st)).
  - by destruct (GetWindowUpdate (sf_flow st)).
  - by destruct (MaybeGetWindowUpdate en (sf_flow st)).
  - by destruct (CheckAndQueueDataBlocked (sf_flow st)).
  - by destruct (GetDataBlockedFrame (sf_flow st)).
  - done.
Qed.

Lemma SendCreditAvailable_max c : SendCreditAvailable c = Z.max 0 (sendWindow c - bytesSent c).
Proof. unfold SendCreditAvailable. case_test; lia. Qed.

Lemma Stream_SendCredit_max s c :
  let a := Z.max 0 (sendWindow (sf_flow s) - bytesSent (sf_flow s)) in
  let b := Z.max 0 (sendWindow c - bytesSent c) in
  Stream_SendCreditAvailable s (Some c) = (a, b, Z.min a b).
Proof.
  cbv zeta. unfold Stream_SendCreditAvailable. cbv zeta. rewrite SendCreditAvailable_max.
  case_test; do 2 f_equal; try f_equal; lia.
Qed.

(** An offset is accepted exactly when it is within both windows. *)
Lemma Stream_UpdateHighest_spec st c off s' :
  recv_inv (sf_flow st) -> recv_inv c -> is_u64 off ->
  s' = Stream_UpdateHighestReceived st (Some c) off ->
  let h := highestReceived (sf_flow st) in
  (off <= receiveWindow (sf_flow st)
     /\ highestReceived c + Z.max 0 (off - h) <= receiveWindow c
     /\ s' = ({ st with sf_flow -> highestReceived := Z.max h off },
              Some { c with highestReceived := highestReceived c + Z.max 0 (off - h) }, Ok tt))
  \/ ((receiveWindow (sf_flow st) < off \/ receiveWindow c < highestReceived c + Z.max 0 (off - h))
     /\ snd s' = Err (TransportError FlowControlError)).
Proof.
  destruct st as [id f]; destruct f; destruct c. unfold recv_inv, is_u64. cbn -[Z.max].
  intros (A3 & A4) (B3 & B4) Ho ->.
  unfold Stream_UpdateHighestReceived, UpdateHighestReceived. cbn -[Z.max Z.min u64].
  destruct (off >? receiveWindow0) eqn:E2; bool_simpl; [right; cbn; split; [lia|done]|].
  destruct (off >? highestReceived0) eqn:E1; bool_simpl.
  - rewrite !Z.max_r in * by lia. replace (off - highestReceived0 >? 0) with true by lia.
    rewrite u64_small by (unfold is_u64; lia).
    case_test; [right; cbn; split; [lia|done]|left]. split_and!; try lia. done.
  - rewrite (Z.max_l highestReceived0) in * by lia. rewrite (Z.max_l 0) in * by lia.
    change (0 >? 0) with false. left. split_and!; try lia. cbn. by rewrite Z.add_0_r.
Qed.

(** *** Each step keeps it *)
Lemma step_check s i s' r : sys_inv s -> sys_step s (SCheck i) = (s', r) -> sys_inv s'.
Proof.
  intros Hv. cbn [sys_step]. unfold with_stream. destruct (sys_streams s !! i) as [st|] eqn:Hi; [|by intros [= <- <-]].
  destruct (sys_granted s !! i) as [e|] eqn:Hg; [by intros [= <- <-]|]. rewrite Stream_SendCredit_max. cbv zeta.
  set (e := Z.min _ _). destruct (e =? 0) eqn:E0; bool_simpl; [by intros [= <- <-]|]. intros [= <- <-].
  pose proof (Forall_lookup_1 _ _ _ _ (iv_streams s Hv) Hi) as [Hb _]. pose proof Hv as [H1 H2 H3 H4 H5 H6 H7]. split; sys_cbn; try done.
  - intros j x. destruct (decide (i = j)) as [<-|Hn]; [rewrite lookup_insert_eq|by rewrite lookup_insert_ne; auto]. intros [= <-]. split; [lia|]. exists st. split; [done|lia].
  - intros Ho. apply orb_false_iff in Ho as [Ho He]. apply negb_false_iff, bool_decide_eq_true in He. destruct (H6 Ho) as (K1 & K2 & K3).
    unfold credit_kept. sys_cbn. rewrite He. split; [done|]. split.
    + intros j x. destruct (decide (i = j)) as [<-|Hn]; [rewrite lookup_insert_eq|rewrite lookup_insert_ne, lookup_empty by done; done]. intros [= <-]. change (bytesSent (sys_conn s) + e <= sendWindow (sys_conn s)). lia.
    + assert (Hone : forall j, is_Some (<[i := e]> (∅ : gmap nat Z) !! j) -> j = i).
      { intros j. destruct (decide (i = j)) as [<-|Hn]; [done|]. rewrite lookup_insert_ne, lookup_empty by done. by intros [? ?]. }
      intros j k Hj Hk. by rewrite (Hone j Hj), (Hone k Hk).
  - intros Ho. apply H7. destruct Ho as [Ho|Ho]; [left; by apply orb_false_iff in Ho as [Ho _]|by right].
Qed.
Lemma step_charge s i n s' r : sys_inv s -> 0 <= n -> sys_step s (SCharge i n) = (s', r) -> sys_inv s'.
Proof.
  intros Hv Hn. cbn [sys_step]. unfold with_stream. destruct (sys_streams s !! i) as [st|] eqn:Hi; [|by intros [= <- <-]].
  destruct (sys_granted s !! i) as [e|] eqn:Hg; [|by intros [= <- <-]]. destruct (n <=? e) eqn:En; bool_simpl; [|by intros [= <- <-]]. intros [= <- <-].
  pose proof (iv_granted s Hv i e Hg) as (H0 & st' & Est & Hle). assert (st' = st) as -> by congruence.
  pose proof (Forall_lookup_1 _ _ _ _ (iv_streams s Hv) Hi) as [Hb Hr]. pose proof (iv_conn s Hv) as [C1 C2 C3 C4].
  assert (Hconn : conn_fine (AddBytesSent (sys_conn s) n)) by (split; [pose proof (u64_range (bytesSent (sys_conn s) + n)) as Hu; exact Hu|done..]).
  assert (Eb : u64 (bytesSent (sf_flow st) + n) = bytesSent (sf_flow st) + n) by (apply u64_small; unfold is_u64; lia).
  enough (Hnew : sys_inv { put s i ({ st with sf_flow := AddBytesSent (sf_flow st) n }, Some (AddBytesSent (sys_conn s) n)) with
    sys_granted := delete i (sys_granted s); sys_overlap := sys_overlap s }) by exact Hnew.
  apply (put_inv s i st { st with sf_flow := AddBytesSent (sf_flow st) n } (AddBytesSent (sys_conn s) n) (delete i (sys_granted s)) (sys_overlap s)); try done.
  - split; [change (0 <= u64 (bytesSent (sf_flow st) + n) <= sendWindow (sf_flow st) /\ sendWindow (sf_flow st) < 2 ^ 64); rewrite Eb; lia|done].
  - change (highestReceived (sys_conn s) = highestReceived (sys_conn s) - received_of st + received_of st). lia.
  - change (bytesRead (sys_conn s) = bytesRead (sys_conn s) - read_of st + read_of st). lia.
  - intros j x Hj. apply lookup_delete_Some in Hj as [Hne Hj]. by split.
  - intros Ho. destruct (iv_credit s Hv Ho) as (K1 & K2 & K3). specialize (K2 i e Hg).
    split; [change (u64 (bytesSent (sys_conn s) + n) <= sendWindow (sys_conn s)); rewrite u64_small; [lia|unfold is_u64; lia]|]. assert (Hnone : forall j x, delete i (sys_granted s) !! j = Some x -> False).
    { intros j x Hj. apply lookup_delete_Some in Hj as [Hne Hj]. apply Hne. apply K3; by eexists. }
    split; [intros j x Hj; by destruct (Hnone j x)|]. intros j k [x Hj] _. by destruct (Hnone j x).
  - intros Esum Hor. change (u64 (bytesSent (sys_conn s) + n) = bytesSent (sys_conn s) - bytesSent (sf_flow st) + u64 (bytesSent (sf_flow st) + n)). rewrite Eb. rewrite u64_small; [lia|]. unfold is_u64. split; [lia|]. destruct Hor as [Ho|Hp].
    + destruct (iv_credit s Hv Ho) as (K1 & K2 & K3). specialize (K2 i e Hg). lia.
    + apply (limits_fit_put s i st) in Hp; [|done|done]. unfold limits_fit in Hp.
      assert (Hs : sum_of sent_of (<[i := { st with sf_flow := AddBytesSent (sf_flow st) n }]> (sys_streams s)) <= sum_of limit_of (sys_streams s)).
      { transitivity (sum_of limit_of (<[i := { st with sf_flow := AddBytesSent (sf_flow st) n }]> (sys_streams s))).
        - assert (Hall : Forall (fun st => sent_of st <= limit_of st) (<[i := { st with sf_flow := AddBytesSent (sf_flow st) n }]> (sys_streams s))).
          { apply Forall_insert; [|change (u64 (bytesSent (sf_flow st) + n) <= sendWindow (sf_flow st)); rewrite Eb; lia]. eapply Forall_impl; [exact (iv_streams s Hv)|]. intros x [Hx _]. unfold sent_of, limit_of. lia. }
          induction Hall as [|x l Hx _ IH]; [done|]. change (sent_of x + sum_of sent_of l <= limit_of x + sum_of limit_of l). lia.
        - rewrite (sum_of_insert _ _ _ _ _ Hi). change (sum_of limit_of (sys_streams s) - limit_of st + limit_of st <= sum_of limit_of (sys_streams s)). lia. }
      rewrite (sum_of_insert _ _ _ _ _ Hi) in Hs. change (sum_of sent_of (sys_streams s) - bytesSent (sf_flow st) + u64 (bytesSent (sf_flow st) + n) <= sum_of limit_of (sys_streams s)) in Hs. rewrite Eb in Hs. lia.
Qed.
Lemma step_reclaim s i n s' r : sys_inv s -> sys_op_ok s (SReclaim i n) -> sys_step s (SReclaim i n) = (s', r) -> sys_inv s'.
Proof.
  intros Hv [Hn Hm]. cbn [sys_step]. unfold with_stream. destruct (sys_streams s !! i) as [st|] eqn:Hi; [|by intros [= <- <-]]. intros [= <- <-]. specialize (Hm st eq_refl).
  pose proof (Forall_lookup_1 _ _ _ _ (iv_streams s Hv) Hi) as [Hb Hr]. pose proof (iv_conn s Hv) as [C1 C2 C3 C4].
  assert (Hpos : Forall (fun st => 0 <= sent_of st) (sys_streams s)) by (eapply Forall_impl; [exact (iv_streams s Hv)|]; intros x [Hx _]; unfold sent_of; lia).
  pose proof (sum_of_lookup _ _ _ _ Hpos Hi) as Hle. unfold sent_of in Hle at 1.
  assert (E1 : ReclaimBytesSent (sf_flow st) n = { sf_flow st with bytesSent := bytesSent (sf_flow st) - n }) by (unfold ReclaimBytesSent; by replace (bytesSent (sf_flow st) >=? n) with true by lia).
  assert (E2 : exists b, ReclaimBytesSent (sys_conn s) n = { sys_conn s with bytesSent := b } /\ 0 <= b <= bytesSent (sys_conn s) /\ (n <= bytesSent (sys_conn s) -> b = bytesSent (sys_conn s) - n)).
  { unfold ReclaimBytesSent. eexists. split; [reflexivity|]. destruct (bytesSent (sys_conn s) >=? n) eqn:E; bool_simpl; lia. }
  destruct E2 as (b & E2 & Hb1 & Hb2). unfold Stream_ReclaimBytesSent. rewrite E1, E2. apply (put_same s i st); try done.
  - split; [change (0 <= b < 2 ^ 64); lia|done..].
  - split; [change (0 <= bytesSent (sf_flow st) - n <= sendWindow (sf_flow st) /\ sendWindow (sf_flow st) < 2 ^ 64); lia|done].
  - change (highestReceived (sys_conn s) = highestReceived (sys_conn s) - received_of st + received_of st). lia.
  - change (bytesRead (sys_conn s) = bytesRead (sys_conn s) - read_of st + read_of st). lia.
  - change (bytesSent (sf_flow st) - n <= bytesSent (sf_flow st)). lia.
  - change (b <= bytesSent (sys_conn s)). lia.
  - intros Es. change (b = bytesSent (sys_conn s) - bytesSent (sf_flow st) + (bytesSent (sf_flow st) - n)). lia.
Qed.
Lemma step_recv s i off s' r : sys_inv s -> is_u64 off -> sys_step s (SRecv i off) = (s', r) -> r <> Err (TransportError FlowControlError) -> sys_inv s'.
Proof.
  intros Hv Ho. cbn [sys_step]. unfold with_stream. destruct (sys_streams s !! i) as [st|] eqn:Hi; [|by intros [= <- <-]].
  destruct (Stream_UpdateHighestReceived st (Some (sys_conn s)) off) as [[st' c'] r'] eqn:E. intros [= <- <-] Hr. symmetry in E.
  pose proof (Forall_lookup_1 _ _ _ _ (iv_streams s Hv) Hi) as [Hb Hrs]. pose proof (iv_conn s Hv) as [C1 C2 C3 C4].
  assert (Hpos : Forall (fun st => 0 <= read_of st) (sys_streams s)) by (eapply Forall_impl; [exact (iv_streams s Hv)|]; intros x [_ ((Hx & _) & _)]; exact Hx).
  pose proof (sum_of_lookup _ _ _ _ Hpos Hi) as Hle. rewrite <- (iv_read s Hv) in Hle. unfold read_of in Hle.
  apply Stream_UpdateHighest_spec in E; [|by apply recv_side_inv; [|lia]|by apply recv_side_inv|done].
  destruct E as [(E1 & E2 & [= -> -> ->])|(_ & E)]; [|cbn [snd] in E; by subst].
  set (h := highestReceived (sf_flow st)) in *. set (hc := highestReceived (sys_conn s)) in *.
  destruct Hrs as (R1 & R2 & R3), C3 as (D1 & D2 & D3). fold h in R3. fold hc in D3. apply (put_same s i st); try done.
  - split; [done|done| |done]. split; [done|]. split; [done|]. change (bytesRead (sys_conn s) <= hc + Z.max 0 (off - h) <= receiveWindow (sys_conn s)). lia.
  - split; [done|]. split; [done|]. split; [done|]. change (bytesRead (sf_flow st) <= Z.max h off <= receiveWindow (sf_flow st)). lia.
  - change (hc + Z.max 0 (off - h) = hc - h + Z.max h off). lia.
  - change (bytesRead (sys_conn s) = bytesRead (sys_conn s) - read_of st + read_of st). lia.
  - intros _. change (bytesSent (sys_conn s) = bytesSent (sys_conn s) - sent_of st + sent_of st). lia.
Qed.
Lemma step_read s i n s' r : sys_inv s -> sys_op_ok s (SRead i n) -> sys_step s (SRead i n) = (s', r) -> sys_inv s'.
Proof.
  intros Hv (Hn & Hmax & Hm). cbn [sys_step]. unfold with_stream. destruct (sys_streams s !! i) as [st|] eqn:Hi; [|by intros [= <- <-]]. intros [= <- <-]. specialize (Hm st eq_refl).
  pose proof (Forall_lookup_1 _ _ _ _ (iv_streams s Hv) Hi) as [Hb (R1 & R2 & R3)]. pose proof (iv_conn s Hv) as [C1 C2 (D1 & D2 & D3) C4].
  assert (Hpos : Forall (fun st => 0 <= read_of st) (sys_streams s)) by (eapply Forall_impl; [exact (iv_streams s Hv)|]; intros x [_ ((Hx & _) & _)]; exact Hx).
  pose proof (sum_of_lookup _ _ _ _ Hpos Hi) as Hle. rewrite <- (iv_read s Hv) in Hle. unfold read_of in Hle.
  assert (Hsum : bytesRead (sys_conn s) + n <= highestReceived (sys_conn s)).
  { assert (Hdiff : Forall (fun st => 0 <= received_of st - read_of st) (sys_streams s)).
    { eapply Forall_impl; [exact (iv_streams s Hv)|]. intros x [_ (_ & _ & Hx)]. unfold received_of, read_of. lia. }
    pose proof (sum_of_lookup _ _ _ _ Hdiff Hi) as Hd. cbv beta in Hd. change (received_of st - read_of st) with (highestReceived (sf_flow st) - bytesRead (sf_flow st)) in Hd.
    assert (Hs : sum_of (fun x => received_of x - read_of x) (sys_streams s) = sum_of received_of (sys_streams s) - sum_of read_of (sys_streams s)).
    { clear. induction (sys_streams s) as [|x l IH]; [done|]. change (received_of x - read_of x + sum_of (fun x => received_of x - read_of x) l = received_of x + sum_of received_of l - (read_of x + sum_of read_of l)). lia. }
    rewrite Hs, <- (iv_received s Hv), <- (iv_read s Hv) in Hd. lia. }
  destruct (AddBytesRead_ok (sf_flow st) n R1 Hn) as [A1 A2]; [lia|]. destruct (AddBytesRead_ok (sys_conn s) n D1 Hn) as [B1 B2]; [lia|].
  apply (put_same s i st); try done.
  - split; [done|done| |by rewrite B2]. split; [done|]. split; [exact D2|]. change (bytesRead (AddBytesRead (sys_conn s) n) <= highestReceived (sys_conn s) <= receiveWindow (sys_conn s)). rewrite B2. lia.
  - split; [done|]. split; [done|]. split; [exact R2|]. change (bytesRead (AddBytesRead (sf_flow st) n) <= highestReceived (sf_flow st) <= receiveWindow (sf_flow st)). rewrite A2. lia.
  - change (highestReceived (sys_conn s) = highestReceived (sys_conn s) - received_of st + received_of st). lia.
  - rewrite B2. change (bytesRead (sys_conn s) + n = bytesRead (sys_conn s) - bytesRead (sf_flow st) + bytesRead (AddBytesRead (sf_flow st) n)). rewrite A2. lia.
  - intros _. change (bytesSent (sys_conn s) = bytesSent (sys_conn s) - sent_of st + sent_of st). lia.
Qed.

Lemma sys_step_inv s o s' r :
  sys_inv s -> sys_op_ok s o -> sys_step s o = (s', r) ->
  r <> Err (TransportError FlowControlError) -> sys_inv s'.
Proof.
  intros Hv Hok Hstep Hr. destruct o as [i|i n|i|l|i l|i n|i off|i n|o|i o].
  - by eapply step_check.
  - by eapply step_charge.
  - injection Hstep as <- <-. destruct Hv as [H1 H2 H3 H4 H5 H6 H7]. split; sys_cbn; try done.
    + intros j e Hj. apply lookup_delete_Some in Hj as [_ Hj]. by apply H5.
    + intros Ho. destruct (H6 Ho) as (K1 & K2 & K3). split; [done|]. split.
      * intros j e Hj. change (delete i (sys_granted s) !! j = Some e) in Hj. apply lookup_delete_Some in Hj as [_ Hj]. by apply (K2 j).
      * intros j k Hj Hk. change (is_Some (delete i (sys_granted s) !! j)) in Hj. change (is_Some (delete i (sys_granted s) !! k)) in Hk.
        destruct Hj as [x Hj], Hk as [y Hk]. apply lookup_delete_Some in Hj as [_ Hj], Hk as [_ Hk]. apply K3; by eexists.
  - injection Hstep as <- <-. pose proof (iv_conn s Hv) as [C1 C2 C3 C4]. unfold UpdateSendWindow. destruct (l >? _) eqn:E; bool_simpl; [|by destruct s].
    change (0 <= l < 2 ^ 64) in Hok. apply conn_inv; try done; [split; try done; change (l < 2 ^ 64); lia|change (sendWindow (sys_conn s) <= l); lia].
  - cbn [sys_step sys_op_ok] in *. unfold with_stream in Hstep. destruct (sys_streams s !! i) as [st|] eqn:Hi; [|by injection Hstep as <- <-]. injection Hstep as <- <-.
    pose proof (Forall_lookup_1 _ _ _ _ (iv_streams s Hv) Hi) as [Hb Hrs]. unfold Stream_UpdateSendWindow. unfold is_u64 in Hok.
    assert (E : exists w d ws, UpdateSendWindow (sf_flow st) l = { sf_flow st with sendWindow := w; hasSentBlocked := d; closedWaiters := fst ws; sendBlockedWaiters := snd ws } /\ sendWindow (sf_flow st) <= w < 2 ^ 64).
    { unfold UpdateSendWindow. destruct (l >? _) eqn:E; bool_simpl; [eexists l, _, (_, _); split; [reflexivity|lia]|].
      exists (sendWindow (sf_flow st)), (hasSentBlocked (sf_flow st)), (closedWaiters (sf_flow st), sendBlockedWaiters (sf_flow st)). split; [by destruct (sf_flow st)|lia]. }
    destruct E as (w & d & ws & -> & Hw). apply (put_same s i st); try done; try (apply (iv_conn s Hv)).
    + split; [change (0 <= bytesSent (sf_flow st) <= w /\ w < 2 ^ 64); lia|done].
    + change (highestReceived (sys_conn s) = highestReceived (sys_conn s) - received_of st + received_of st). lia.
    + change (bytesRead (sys_conn s) = bytesRead (sys_conn s) - read_of st + read_of st). lia.
    + change (sendWindow (sf_flow st) <= w). lia.
    + intros _. change (bytesSent (sys_conn s) = bytesSent (sys_conn s) - sent_of st + sent_of st). lia.
  - by eapply step_reclaim.
  - by eapply step_recv.
  - by eapply step_read.
  - injection Hstep as <- <-. pose proof (iv_conn s Hv) as [C1 C2 C3 C4]. destruct (conn_side_kept (sys_conn s) o C3) as (S1 & S2 & S3 & S4 & S5).
    assert (Hf : conn_fine (conn_side (sys_conn s) o)) by (split; [by rewrite S2|by rewrite S3|done|by rewrite S5]).
    exact (conn_inv s (conn_side (sys_conn s) o) Hv Hf S2 (Z.eq_le_incl _ _ (eq_sym S3)) S4 S5).
  - cbn [sys_step] in Hstep. unfold with_stream in Hstep. destruct (sys_streams s !! i) as [st|] eqn:Hi; [|by injection Hstep as <- <-]. injection Hstep as <- <-.
    pose proof (Forall_lookup_1 _ _ _ _ (iv_streams s Hv) Hi) as [Hb Hrs]. rewrite stream_side_eq. destruct (conn_side_kept (sf_flow st) o Hrs) as (S1 & S2 & S3 & S4 & S5).
    set (f := conn_side (sf_flow st) o) in *. apply (put_same s i st); try done; try (apply (iv_conn s Hv)).
    + split; [change (0 <= bytesSent f <= sendWindow f /\ sendWindow f < 2 ^ 64); by rewrite S2, S3|done].
    + change (highestReceived (sys_conn s) = highestReceived (sys_conn s) - highestReceived (sf_flow st) + highestReceived f). lia.
    + change (bytesRead (sys_conn s) = bytesRead (sys_conn s) - bytesRead (sf_flow st) + bytesRead f). lia.
    + change (sendWindow (sf_flow st) <= sendWindow f). lia.
    + change (bytesSent f <= bytesSent (sf_flow st)). lia.
    + intros _. change (bytesSent (sys_conn s) = bytesSent (sys_conn s) - bytesSent (sf_flow st) + bytesSent f). lia.
Qed.

Lemma fresh_recv f : fresh_flow f -> recv_side f /\ bytesRead f < 2 ^ 62.
Proof.
  intros (H1 & H2 & H3 & H4 & H5 & H6 & H7 & H8). unfold recv_side, recv_ok, size_cap in *. rewrite H2, H3, H8.
  split; [|lia]. split; [split_and!; [lia|lia|lia|lia|lia|done]|]. split; [done|lia].
Qed.
Lemma sys_reachable_inv s : sys_reachable s -> sys_inv s.
Proof.
  induction 1 as [c sts Hc Hs|s o s' r _ IH Hok Hstep Hr]; [|by eapply sys_step_inv].
  assert (Hz : forall g, (forall st, fresh_flow (sf_flow st) -> g st = 0) -> sum_of g sts = 0).
  { intros g Hg. induction Hs as [|st sts Hst Hs IH]; [done|].
    change (g st + sum_of g sts = 0). rewrite (Hg st Hst), IH. done. }
  pose proof (fresh_recv c Hc) as [Hcr Hcb]. pose proof Hc as (C1 & C2 & C3 & C4 & _). unfold is_u64 in C4. split; sys_cbn.
  - split; [rewrite C1; lia|lia|done|done].
  - eapply Forall_impl; [exact Hs|]. intros st Hst. pose proof (fresh_recv _ Hst) as [Hsr _]. destruct Hst as (S1 & S2 & S3 & S4 & _). unfold is_u64 in S4.
    split; [rewrite S1; lia|done].
  - rewrite C3, (Hz received_of); [done|]. intros st Hst. apply Hst.
  - rewrite C2, (Hz read_of); [done|]. intros st Hst. apply Hst.
  - intros i e Hi. by rewrite lookup_empty in Hi.
  - intros _. split; [change (bytesSent c <= sendWindow c); rewrite C1; lia|]. split.
    + intros i e Hi. change ((∅ : gmap nat Z) !! i = Some e) in Hi. by rewrite lookup_empty in Hi.
    + intros i j Hi. change (is_Some ((∅ : gmap nat Z) !! i)) in Hi. destruct Hi as [e Hi]. by rewrite lookup_empty in Hi.
  - intros _. rewrite C1, (Hz sent_of); [done|]. intros st Hst. apply Hst.
Qed.

(** ** Properties *)

(** C10: flow-control safety for any number of streams sharing a connection.  From
    fresh controllers, under every interleaving of writers that ask for credit and
    later are charged for what they take, of raised limits, reclaimed bytes, arriving
    and consumed data, window updates and blocked frames: no stream has sent past the
    peer's limit, nothing was accepted past the advertised windows, and the
    connection's totals of bytes received and read are the sums of the streams'
    totals.  The connection's own send limit holds, and its total of bytes sent is
    the sum of the streams', as long as no two writers were between the two steps at
    the same time; the sum alone also whenever the streams' limits fit 64 bits.  (A
    flow-control error ends the run, as it ends the connection, and less than 2^62
    bytes are read in all.) *)
Theorem flow_control_safe (s : system) :
  sys_reachable s ->
  Forall (fun st => bytesSent (sf_flow st) <= sendWindow (sf_flow st)
       /\ highestReceived (sf_flow st) <= receiveWindow (sf_flow st)) (sys_streams s)
  /\ highestReceived (sys_conn s) <= receiveWindow (sys_conn s)
  /\ highestReceived (sys_conn s) = sum_of received_of (sys_streams s)
  /\ bytesRead (sys_conn s) = sum_of read_of (sys_streams s)
  /\ (sys_overlap s = false -> bytesSent (sys_conn s) <= sendWindow (sys_conn s))
  /\ (sys_overlap s = false \/ limits_fit s -> bytesSent (sys_conn s) = sum_of sent_of (sys_streams s)).
Proof.
  intros H. apply sys_reachable_inv in H as [H1 H2 H3 H4 H5 H6 H7]. split; [|split_and!; try done].
  - eapply Forall_impl; [exact H2|]. intros st [Hb (_ & _ & Hr)]. lia.
  - destruct H1 as [_ _ (_ & _ & Hr) _]. lia.
  - intros Ho. apply (H6 Ho).
Qed.

Definition sample_env : env := mkEnv 0 50000000 None 0.
Definition sample_system : system :=
  mkSys (NewConnectionFlowController sample_env 0 0 100)
    [NewStreamFlowController sample_env 0 0 0 80; NewStreamFlowController sample_env 4 0 0 80] ∅ false.
Definition sys_run (s : system) (ops : list sys_op) : system := fold_left (fun s o => fst (sys_step s o)) ops s.
(** One write after the other, and a third that finds no credit. *)
Lemma flow_control_safe_witness :
  let s := sys_run sample_system [SCheck 0; SCharge 0 80; SCheck 1; SCharge 1 20] in
  sys_overlap s = false /\ bytesSent (sys_conn s) = 100 /\ bytesSent (sys_conn s) <= sendWindow (sys_conn s)
  /\ snd (sys_step s (SCheck 1)) = Err ErrWouldBlock.
Proof.
  assert (Hr : sys_reachable (sys_run sample_system [SCheck 0; SCharge 0 80; SCheck 1; SCharge 1 20])).
  { assert (Hnext : forall s o, sys_reachable s -> sys_op_ok s o -> snd (sys_step s o) <> Err (TransportError FlowControlError) -> sys_reachable (fst (sys_step s o))).
    { intros s o Hs Ho Hn. apply (sys_next s o _ (snd (sys_step s o)) Hs Ho (surjective_pairing _) Hn). }
    unfold sys_run. cbn [fold_left]. do 4 (apply Hnext; [|first [exact I|cbn; lia]|vm_compute; discriminate]).
    apply sys_init; [|apply Forall_cons; split; [|apply Forall_cons; split; [|apply Forall_nil; exact I]]]; split_and!; vm_compute; done. }
  split; [vm_compute; reflexivity|]. split; [vm_compute; reflexivity|]. split; [|vm_compute; reflexivity].
  apply (flow_control_safe _ Hr). vm_compute. reflexivity.
Defined.
(** With overlap the connection's limit of 100 is passed. *)
Example overlap_overruns :
  let s := sys_run sample_system [SCheck 0; SCheck 1; SCharge 0 80; SCharge 1 80] in
  sys_overlap s = true /\ bytesSent (sys_conn s) = 160 /\ sendWindow (sys_conn s) = 100.
Proof. vm_compute. done. Qed.

(** The receive check.  An offset arriving on a stream is accepted exactly
    when it is within the stream's window and its growth fits the connection's;
    both high-water marks then advance to match, and otherwise the result is a
    FLOW_CONTROL_ERROR. *)
Theorem receive_check_exact (st : StreamFlowController) (c : flow) (off : Z) :
  stream_inv (sf_flow st) -> stream_inv c -> is_u64 off ->
  let h := highestReceived (sf_flow st) in
  let out := Stream_UpdateHighestReceived st (Some c) off in
  (snd out = Ok tt <-> off <= receiveWindow (sf_flow st)
                      /\ highestReceived c + Z.max 0 (off - h) <= receiveWindow c)
  /\ (snd out = Ok tt ->
      out = ({ st with sf_flow -> highestReceived := Z.max h off },
             Some { c with highestReceived := highestReceived c + Z.max 0 (off - h) }, Ok tt))
  /\ (snd out <> Ok tt -> snd out = Err (TransportError FlowControlError)).
Proof.
  intros H1 H2 H3 h out.
  destruct (Stream_UpdateHighest_spec st c off out (proj2 (proj2 H1)) (proj2 (proj2 H2)) H3 eq_refl) as [(A & B & E)|(A & E)];
    fold h in A, E; rewrite E.
  - cbn [snd]. by split_and!.
  - split_and!; try done. split; [done|]. fold h. lia.
Qed.

Lemma receive_check_exact_witness :
  let c := NewConnectionFlowController sample_env 100 0 0 in
  let st := NewStreamFlowController sample_env 4 80 0 0 in
  snd (Stream_UpdateHighestReceived st (Some c) 81) = Err (TransportError FlowControlError)
  /\ snd (Stream_UpdateHighestReceived st (Some c) 80) = Ok tt.
Proof.
  split.
  - apply (receive_check_exact (NewStreamFlowController sample_env 4 80 0 0)
      (NewConnectionFlowController sample_env 100 0 0) 81);
      [split_and!; vm_compute; done..|discriminate].
  - apply (receive_check_exact (NewStreamFlowController sample_env 4 80 0 0)
      (NewConnectionFlowController sample_env 100 0 0) 80);
      [split_and!; vm_compute; done..|vm_compute; done].
Defined.

(** Advertised windows only grow.  Over any run of reads, receptions, window
    checks and MAX_DATA emissions (any clock, RTT and callback), the limits put
    on the wire are non-decreasing, each is the window enforced at that moment
    and is never withdrawn later, and no limit exceeds what has been read by
    more than the configured maximum size.  The hypothesis only excludes reading
    about 2^64 bytes. *)
Theorem advertised_windows_grow (c : flow) (ops : list recv_op) :
  recv_ok c -> Forall recv_op_ok ops -> bytesRead c + total_read ops + size_cap c < 2 ^ 64 ->
  let '(c', ads) := recv_run c ops in
  Sorted Z.le ads
  /\ Forall (fun w => receiveWindow c <= w <= receiveWindow c') ads
  /\ receiveWindow c' <= bytesRead c + total_read ops + size_cap c.
Proof.
  intros Hok Hops Hb. pose proof (recv_run_spec ops c Hok Hops Hb) as H.
  destruct (recv_run c ops) as [c' ads]. destruct H as (Hok' & Hbr & Hw & Hcap & Hads & Hs).
  split_and!; try done. destruct Hok' as (_ & _ & Hwin & _). unfold size_cap in *. lia.
Qed.

Lemma advertised_windows_grow_witness :
  let '(c', ads) := recv_run (NewConnectionFlowController sample_env 100 1000 0)
    [RRead 60; RCheck sample_env; RGet; RRead 100; RMaybe sample_env] in
  ads = [260; 560] /\ Sorted Z.le ads.
Proof.
  assert (H := advertised_windows_grow (NewConnectionFlowController sample_env 100 1000 0)
    [RRead 60; RCheck sample_env; RGet; RRead 100; RMaybe sample_env]).
  assert (E : recv_run (NewConnectionFlowController sample_env 100 1000 0)
    [RRead 60; RCheck sample_env; RGet; RRead 100; RMaybe sample_env]
    = (fst (recv_run (NewConnectionFlowController sample_env 100 1000 0)
    [RRead 60; RCheck sample_env; RGet; RRead 100; RMaybe sample_env]), [260; 560])) by (vm_compute; reflexivity).
  rewrite E in *. split; [reflexivity|]. apply H.
  - split_and!; vm_compute; done.
  - repeat constructor; cbn; lia.
  - vm_compute; done.
Defined.

(** No receive-side deadlock.  After [CheckAndQueueWindowUpdate] the window
    always lies strictly beyond what has been read, so a peer whose data has all
    been consumed may send; it reports no update only while more than the
    threshold (half a window, computed in floating point) is still unread, and
    the reported limit is the one enforced. *)
Theorem window_update_progress (en : env) (c : flow) :
  recv_ok c ->
  let '(c', r) := CheckAndQueueWindowUpdate en c in
  recv_ok c' /\ bytesRead c' < receiveWindow c' /\ receiveWindow c <= receiveWindow c'
  /\ (forall w, r = Some w -> w = receiveWindow c' /\ windowUpdateQueued c' = true)
  /\ (r = None -> c' = c /\ update_threshold (receiveWindowSize c) < receiveWindow c - bytesRead c).
Proof.
  intros Hok. pose proof (CheckAndQueue_step en c Hok) as H.
  destruct (CheckAndQueueWindowUpdate en c) as [c' r].
  destruct H as ((H1 & H2 & H3 & H4 & H5 & H6) & H7 & H8 & H9). rewrite H2. by split_and!.
Qed.

Lemma window_update_progress_witness :
  bytesRead (fst (CheckAndQueueWindowUpdate sample_env
    (AddBytesRead (NewConnectionFlowController sample_env 100 1000 0) 100)))
  < receiveWindow (fst (CheckAndQueueWindowUpdate sample_env
    (AddBytesRead (NewConnectionFlowController sample_env 100 1000 0) 100))).
Proof.
  assert (H := window_update_progress sample_env
    (AddBytesRead (NewConnectionFlowController sample_env 100 1000 0) 100)).
  destruct (CheckAndQueueWindowUpdate _ _) as [c' r]. cbn [fst]. apply H.
  split_and!; vm_compute; done.
Defined.

(** A stale DATA_BLOCKED hides the next one.  A sender blocked at limit [L]
    queues DATA_BLOCKED; if MAX_DATA raises the limit before the frame is built,
    building it still reports [L] and marks the sender as having reported, so
    that when it has used up the new limit no DATA_BLOCKED is queued for it. *)
Theorem stale_data_blocked (c : flow) (newLimit : Z) :
  bytesSent c = sendWindow c -> hasSentBlocked c = false -> sendWindow c < newLimit < 2 ^ 64 ->
  0 <= bytesSent c ->
  let c1 := UpdateSendWindow (fst (CheckAndQueueDataBlocked c)) newLimit in
  let '(c2, reported) := GetDataBlockedFrame c1 in
  let c3 := AddBytesSent c2 (newLimit - bytesSent c) in
  reported = Some (sendWindow c) /\ sendWindow c3 = newLimit /\ bytesSent c3 = newLimit
  /\ snd (CheckAndQueueDataBlocked c3) = None.
Proof.
  destruct c. cbn -[u64]. intros -> -> Hl H0. unfold CheckAndQueueDataBlocked. cbn -[u64].
  rewrite Z.geb_leb, Z.leb_refl. cbn -[u64]. unfold UpdateSendWindow. cbn -[u64].
  replace (newLimit >? sendWindow0) with true by lia. cbn -[u64].
  rewrite u64_small by (unfold is_u64; lia). rewrite andb_false_r. split_and!; try done; lia.
Qed.

Lemma stale_data_blocked_witness :
  let c := AddBytesSent (NewConnectionFlowController sample_env 0 0 100) 100 in
  let c1 := UpdateSendWindow (fst (CheckAndQueueDataBlocked c)) 200 in
  let '(c2, reported) := GetDataBlockedFrame c1 in
  reported = Some 100 /\ sendWindow (AddBytesSent c2 (200 - bytesSent c)) = 200
  /\ bytesSent (AddBytesSent c2 (200 - bytesSent c)) = 200
  /\ snd (CheckAndQueueDataBlocked (AddBytesSent c2 (200 - bytesSent c))) = None.
Proof.
  apply (stale_data_blocked (AddBytesSent (NewConnectionFlowController sample_env 0 0 100) 100) 200);
    vm_compute; done.
Defined.
