(* ===== verification/RecvStream.v ===== *)
(** * The receiving half of a stream (RFC 9000 section 3.2)

    Models [src/net/quic/core/stream/receive_stream.go].  A [ReceiveStream]
    combines the reassembly buffer, the stream flow controller (sharing the
    connection's, see FlowControl) and the receive state machine.  Every method
    is one definition, run under the locks it takes; [Read] and [Peek] are one
    pass of their loop, ending in a return or in the blocking [select], whose
    three ways of waking are [wake].  Callbacks (stream sender, final-size
    callback) are collected as [event]s.  Contexts are their cancellation cause.

    The theorems: the state only moves forward and in the ways listed; what the
    application reads is the peer's stream and is credited byte for byte to both
    flow controllers; a reset credits exactly the unread rest; and two defects,
    a FIN on an empty last frame never completes the stream, and changing the
    read deadline times out a blocked reader. *)

From S2P Require Import Prelude Varint StreamTypes Reassembly FlowControl.
From stdpp Require Import list.
Open Scope Z_scope.

(** ** State *)
Inductive event :=
| EvFinalSize (n : Z)        (* receiveFinalSizeCallback *)
| EvCompleted                (* sender.OnStreamCompleted *)
| EvControlFrame.            (* sender.OnHasStreamControlFrame *)

#[export] Instance event_eq_dec : EqDecision event.
Proof. solve_decision. Defined.

(** Deadline channels are numbered; [closedDeadlines] are the closed ones and
    [deadlineTimer] is the channel a pending timer will close.  [rs_ctx] is the
    cause of the stream context once cancelled.  [dataReady] is the content of
    the one-slot channel [dataReadyCh]. *)
#[projections(primitive)]
Record ReceiveStream := mkRecv {
  rs_id : Z;
  rs_hasSender : bool;
  rs_flow : StreamFlowController;
  rs_buf : ReassemblyBuffer;
  rs_state : RecvState;
  rs_ctx : option stream_error;
  finalSizeKnown : bool;
  rs_hasCallback : bool;
  stopSendingQueued : bool;
  stopSendingCode : Z;
  cancelErr : option stream_error;
  shutdownErr : option stream_error;
  readDeadline : option Z;
  deadlineTimer : option Z;
  deadlineCh : Z;
  closedDeadlines : list Z;
  dataReady : bool
}.

Definition NewReceiveStream (id : Z) (hasSender : bool) (fc : StreamFlowController)
    (ctx : option stream_error) : ReceiveStream :=
  mkRecv id hasSender fc NewReassemblyBuffer RecvStateRecv ctx false false false 0 None None None None
    0 [] false.

(** [ctxCancel(err)]: the first cancellation sets the cause; a nil error means
    [context.Canceled]. *)
Definition cancel_ctx (ctx err : option stream_error) : option stream_error :=
  match ctx with
  | Some e => Some e
  | None => Some (match err with Some e => e | None => context_Canceled end)
  end.

(** ** Deadlines *)
Definition close_deadline (s : ReceiveStream) (ch : Z) : ReceiveStream :=
  if bool_decide (ch ∈ closedDeadlines s) then s
  else { s with closedDeadlines := closedDeadlines s ++ [ch] }.

(** [SetReadDeadline]; [None] is the zero time. *)
Definition SetReadDeadline (en : env) (s : ReceiveStream) (t : option Z) : ReceiveStream :=
  let s := { s with readDeadline := t; deadlineTimer := None } in
  let s := close_deadline s (deadlineCh s) in
  let s := { s with deadlineCh := deadlineCh s + 1 } in
  match t with
  | None => s
  | Some t =>
      if t - now en <=? 0 then close_deadline s (deadlineCh s)
      else { s with deadlineTimer := Some (deadlineCh s) }
  end.

(** The function run by [time.AfterFunc]. *)
Definition deadline_fires (s : ReceiveStream) (ch : Z) : ReceiveStream := close_deadline s ch.

Definition SetReceiveFinalSizeCallback (s : ReceiveStream) : ReceiveStream * list event :=
  ({ s with rs_hasCallback := true },
   if finalSizeKnown s then [EvFinalSize (finalSize (rs_buf s))] else []).

Definition signalDataReady (s : ReceiveStream) : ReceiveStream := { s with dataReady := true }.

(** ** Window updates *)
Definition maybeTriggerWindowUpdate (en : env) (s : ReceiveStream) (conn : option flow) :
    ReceiveStream * option flow * list event :=
  let '(fc, su) := Stream_CheckAndQueueWindowUpdate en (rs_flow s) in
  let streamUpdate := match su with Some _ => true | None => false end in
  let s := { s with rs_flow := fc } in
  let '(conn, connUpdate) :=
    match conn with
    | Some c =>
        let '(c', cu) := CheckAndQueueWindowUpdate en c in
        (Some c', match cu with Some _ => true | None => false end)
    | None => (None, false)
    end in
  (s, conn, if (streamUpdate || connUpdate) && rs_hasSender s then [EvControlFrame] else []).

(** ** Reading *)
Inductive read_outcome :=
| Returned (out : bytes) (err : option stream_error)
| Blocked (ch : Z).   (* waiting on dataReadyCh, this deadline channel, and the context *)

Definition deadline_passed (en : env) (s : ReceiveStream) : bool :=
  match readDeadline s with Some t => now en >? t | None => false end.

(** One pass of the loop of [Read] for a slice of length [plen]. *)
Definition Read_pass (en : env) (s : ReceiveStream) (conn : option flow) (plen : Z) :
    ReceiveStream * option flow * list event * read_outcome :=
  if plen =? 0 then (s, conn, [], Returned [] None)
  else
    match cancelErr s, shutdownErr s with
    | Some e, _ => (s, conn, [], Returned [] (Some e))
    | None, Some e => (s, conn, [], Returned [] (Some e))
    | None, None =>
        if bool_decide (rs_state s = RecvStateDataRead) || IsAllDataRead (rs_buf s) then
          (s, conn, [], Returned [] (Some io_EOF))
        else if deadline_passed en s then (s, conn, [], Returned [] (Some ErrDeadline))
        else
          match rs_ctx s with
          | Some e => (s, conn, [], Returned [] (Some e))
          | None =>
              let '(b', out, eof) := Reassembly.Read (rs_buf s) plen in
              let err := if eof : bool then Some io_EOF else None in
              let s := { s with rs_buf := b' } in
              if 0 <? zlen out then
                let '(fc, conn) := Stream_AddBytesRead (rs_flow s) conn (zlen out) in
                let s := { s with rs_flow := fc } in
                let completed := IsAllDataRead (rs_buf s) in
                let s := if completed then { s with rs_state := RecvStateDataRead } else s in
                let ev := if completed && rs_hasSender s then [EvCompleted] else [] in
                let '(s, conn, ev') := maybeTriggerWindowUpdate en s conn in
                (s, conn, ev ++ ev', Returned out err)
              else if eof then
                let s := { s with rs_state := RecvStateDataRead } in
                (s, conn, if rs_hasSender s then [EvCompleted] else [], Returned [] (Some io_EOF))
              else (s, conn, [], Blocked (deadlineCh s))
          end
    end.

(** One pass of the loop of [Peek]. *)
Definition Peek_pass (en : env) (s : ReceiveStream) (plen : Z) : read_outcome :=
  if plen =? 0 then Returned [] None
  else
    match cancelErr s, shutdownErr s with
    | Some e, _ => Returned [] (Some e)
    | None, Some e => Returned [] (Some e)
    | None, None =>
        if bool_decide (rs_state s = RecvStateDataRead) || IsAllDataRead (rs_buf s) then
          Returned [] (Some io_EOF)
        else if deadline_passed en s then Returned [] (Some ErrDeadline)
        else
          let '(out, eof) := Reassembly.Peek (rs_buf s) plen in
          if (zlen out =? plen) || (eof && (0 <? zlen out)) then
            Returned out (if eof then Some io_EOF else None)
          else if eof && (zlen out =? 0) then Returned [] (Some io_EOF)
          else Blocked (deadlineCh s)
    end.

(** The [select] of a blocked reader: which case fires, when it may fire, and
    what it does ([None]: run the loop again). *)
Inductive wake := WakeData | WakeDeadline | WakeContext.
Definition wake_enabled (s : ReceiveStream) (ch : Z) (w : wake) : bool :=
  match w with
  | WakeData => dataReady s
  | WakeDeadline => bool_decide (ch ∈ closedDeadlines s)
  | WakeContext => match rs_ctx s with Some _ => true | None => false end
  end.
Definition resume (s : ReceiveStream) (w : wake) : ReceiveStream * option read_outcome :=
  match w with
  | WakeData => ({ s with dataReady := false }, None)
  | WakeDeadline => (s, Some (Returned [] (Some ErrDeadline)))
  | WakeContext => (s, Some (Returned [] (rs_ctx s)))
  end.

(** ** Cancelling *)
Definition CancelRead (s : ReceiveStream) (code : Z) : ReceiveStream * list event :=
  if RecvState_IsTerminal (rs_state s) || bool_decide (rs_state s = RecvStateResetRead) then (s, [])
  else
    let e := StreamError (rs_id s) code false in
    let s := { s with rs_state := RecvStateResetRead; stopSendingQueued := true;
                      stopSendingCode := code; cancelErr := Some e;
                      rs_ctx := cancel_ctx (rs_ctx s) (Some e) } in
    (signalDataReady s, if rs_hasSender s then [EvControlFrame; EvCompleted] else []).

Definition Close (s : ReceiveStream) : ReceiveStream * list event := CancelRead s 0.
Definition CloseRead (s : ReceiveStream) : ReceiveStream * list event := CancelRead s 0.

(** ** Frames from the peer *)

(** [sz - readOffset] buffered contiguously: [AvailableContiguous() >= int(sz-ReadOffset())]. *)
Definition all_buffered (b : ReassemblyBuffer) : bool :=
  AvailableContiguous b >=? i64 (u64 (finalSize b - readOffset b)).

Definition HandleStreamFrame (stale : bytes) (s : ReceiveStream) (conn : option flow)
    (offset : Z) (data : bytes) (fin : bool) :
    ReceiveStream * option flow * list event * res stream_error unit :=
  if RecvState_IsTerminal (rs_state s) || bool_decide (rs_state s = RecvStateResetRecvd) then
    (s, conn, [], Ok tt)
  else
    let end_ := u64 (offset + zlen data) in
    let '(fc, conn, r1) := Stream_UpdateHighestReceived (rs_flow s) conn end_ in
    let s := { s with rs_flow := fc } in
    match r1 with
    | Ok _ =>
        let '(b', r2) := Push stale (rs_buf s) offset data fin in
        let s := { s with rs_buf := b' } in
        match r2 with
        | Ok _ =>
            let '(s, ev) :=
              if fin && negb (finalSizeKnown s) then
                let s := { s with finalSizeKnown := true } in
                let ev := if rs_hasCallback s then [EvFinalSize (finalSize (rs_buf s))] else [] in
                ({ s with rs_state := if all_buffered (rs_buf s) then RecvStateDataRecvd
                                      else RecvStateSizeKnown }, ev)
              else if bool_decide (rs_state s = RecvStateSizeKnown) then
                ((if all_buffered (rs_buf s) then { s with rs_state := RecvStateDataRecvd } else s), [])
              else (s, []) in
            (signalDataReady s, conn, ev, Ok tt)
        | Err e => (s, conn, [], Err e)
        | Panic => (s, conn, [], Panic)
        end
    | Err e => (s, conn, [], Err e)
    | Panic => (s, conn, [], Panic)
    end.

Definition HandleResetStreamFrame (en : env) (s : ReceiveStream) (conn : option flow)
    (code fsize : Z) : ReceiveStream * option flow * list event * res stream_error unit :=
  if RecvState_IsTerminal (rs_state s) || bool_decide (rs_state s = RecvStateResetRecvd) then
    (s, conn, [], Ok tt)
  else if finalSizeKnown s && negb (fsize =? finalSize (rs_buf s)) then
    (s, conn, [], Err (TransportError FinalSizeError))
  else if fsize <? highestOffset (rs_buf s) then
    (s, conn, [], Err (TransportError FinalSizeError))
  else
    let '(fc, conn, r1) := Stream_UpdateHighestReceived (rs_flow s) conn fsize in
    let s := { s with rs_flow := fc } in
    match r1 with
    | Ok _ =>
        let s := { s with finalSizeKnown := true; rs_buf := SetFinalSize (rs_buf s) fsize } in
        let '(fc, conn) :=
          if fsize >? readOffset (rs_buf s)
          then Stream_AddBytesRead (rs_flow s) conn (fsize - readOffset (rs_buf s))
          else (rs_flow s, conn) in
        let e := StreamError (rs_id s) code true in
        let s := { s with rs_flow := fc; rs_state := RecvStateResetRecvd; cancelErr := Some e;
                          rs_ctx := cancel_ctx (rs_ctx s) (Some e) } in
        let s := signalDataReady s in
        let '(s, conn, ev) := maybeTriggerWindowUpdate en s conn in
        (s, conn, ev ++ (if rs_hasSender s then [EvCompleted] else []), Ok tt)
    | Err e => (s, conn, [], Err e)
    | Panic => (s, conn, [], Panic)
    end.

(** ** Frames to the peer, shutdown *)
Definition recv_GetWindowUpdate (s : ReceiveStream) : ReceiveStream * option Z :=
  let '(fc, r) := Stream_GetWindowUpdate (rs_flow s) in ({ s with rs_flow := fc }, r).

Definition GetStopSendingFrame (s : ReceiveStream) : ReceiveStream * option Z :=
  if stopSendingQueued s then ({ s with stopSendingQueued := false }, Some (stopSendingCode s))
  else (s, None).

Definition recv_CloseForShutdown (s : ReceiveStream) (err : stream_error) : ReceiveStream :=
  signalDataReady { s with shutdownErr := Some err; rs_ctx := cancel_ctx (rs_ctx s) (Some err) }.

(** ** Steps *)
Inductive recv_op :=
| PFrame (stale : bytes) (offset : Z) (data : bytes) (fin : bool)
| PReset (en : env) (code fsize : Z)
| PRead (en : env) (plen : Z)
| PWake (w : wake)
| PCancel (code : Z)
| PSetDeadline (en : env) (t : option Z)
| PFire (ch : Z)
| PCallback
| PWindowUpdate
| PStopSending
| PShutdown (err : stream_error).

#[projections(primitive)]
Record recv_result := mkRes {
  r_stream : ReceiveStream;
  r_conn : option flow;
  r_events : list event;
  r_out : bytes;                         (* bytes handed to the application *)
  r_err : res stream_error unit          (* error returned to the connection *)
}.

Definition recv_step (s : ReceiveStream) (conn : option flow) (o : recv_op) : recv_result :=
  match o with
  | PFrame stale offset data fin =>
      let '(s', conn', ev, r) := HandleStreamFrame stale s conn offset data fin in
      mkRes s' conn' ev [] r
  | PReset en code fsize =>
      let '(s', conn', ev, r) := HandleResetStreamFrame en s conn code fsize in
      mkRes s' conn' ev [] r
  | PRead en plen =>
      let '(s', conn', ev, out) := Read_pass en s conn plen in
      mkRes s' conn' ev (match out with Returned l _ => l | Blocked _ => [] end) (Ok tt)
  | PWake w => mkRes (fst (resume s w)) conn [] [] (Ok tt)
  | PCancel code => let '(s', ev) := CancelRead s code in mkRes s' conn ev [] (Ok tt)
  | PSetDeadline en t => mkRes (SetReadDeadline en s t) conn [] [] (Ok tt)
  | PFire ch => mkRes (deadline_fires s ch) conn [] [] (Ok tt)
  | PCallback => let '(s', ev) := SetReceiveFinalSizeCallback s in mkRes s' conn ev [] (Ok tt)
  | PWindowUpdate => mkRes (fst (recv_GetWindowUpdate s)) conn [] [] (Ok tt)
  | PStopSending => mkRes (fst (GetStopSendingFrame s)) conn [] [] (Ok tt)
  | PShutdown err => mkRes (recv_CloseForShutdown s err) conn [] [] (Ok tt)
  end.

(** A run stops at the first error returned to the connection, which closes on
    it. *)
Fixpoint recv_run (s : ReceiveStream) (conn : option flow) (ops : list recv_op) : recv_result :=
  match ops with
  | [] => mkRes s conn [] [] (Ok tt)
  | o :: ops' =>
      let r := recv_step s conn o in
      match r_err r with
      | Ok _ =>
          let r' := recv_run (r_stream r) (r_conn r) ops' in
          mkRes (r_stream r') (r_conn r') (r_events r ++ r_events r') (r_out r ++ r_out r') (r_err r')
      | _ => r
      end
  end.

(** ** The stream invariant *)
Definition is_reset (st : RecvState) : bool :=
  bool_decide (st = RecvStateResetRecvd) || bool_decide (st = RecvStateResetRead).

Definition recv_inv (s : ReceiveStream) : Prop :=
  wf (rs_buf s)
  /\ hasFinalSize (rs_buf s) = finalSizeKnown s
  /\ match rs_state s with
     | RecvStateRecv => finalSizeKnown s = false
     | RecvStateSizeKnown | RecvStateDataRecvd => finalSizeKnown s = true
     | RecvStateDataRead => IsAllDataRead (rs_buf s) = true
     | RecvStateResetRecvd | RecvStateResetRead => True
     end
  /\ (is_reset (rs_state s) = true <-> is_Some (cancelErr s))
  /\ highestReceived (sf_flow (rs_flow s)) = highestOffset (rs_buf s)
  /\ match rs_state s with
     | RecvStateResetRecvd => bytesRead (sf_flow (rs_flow s)) = finalSize (rs_buf s)
     | RecvStateResetRead => bytesRead (sf_flow (rs_flow s)) = readOffset (rs_buf s)
                             \/ bytesRead (sf_flow (rs_flow s)) = finalSize (rs_buf s)
     | _ => bytesRead (sf_flow (rs_flow s)) = readOffset (rs_buf s)
     end.

(** The moves the stream makes: those of the RFC table, the short cut from
    SizeKnown to DataRead, and cancellation by the application. *)
Definition recv_move (a b : RecvState) : bool :=
  ValidateRecvTransition a b
  || (bool_decide (a = RecvStateSizeKnown) && bool_decide (b = RecvStateDataRead))
  || (negb (RecvState_IsTerminal a) && bool_decide (b = RecvStateResetRead)).

Lemma recv_move_refl a : recv_move a a = true.
Proof. by destruct a. Qed.

(** Arguments off the wire. *)
Definition recv_op_ok (o : recv_op) : Prop :=
  match o with
  | PFrame _ offset _ _ => 0 <= offset
  | PReset _ _ fsize => 0 <= fsize <= Varint.Max
  | PRead _ plen => 0 <= plen
  | _ => True
  end.

(** The two counters the invariant tracks, and what leaves them alone. *)
Definition counters (f : flow) : Z * Z := (bytesRead f, highestReceived f).

Lemma Check_counters en c : counters (fst (CheckAndQueueWindowUpdate en c)) = counters c.
Proof.
  destruct c. unfold CheckAndQueueWindowUpdate, maybeAdjustWindowSize, counters. cbv zeta.
  repeat case_test; reflexivity.
Qed.

Lemma maybeTrigger_spec en s conn :
  let '(s', conn', ev) := maybeTriggerWindowUpdate en s conn in
  s' = { s with rs_flow := rs_flow s' }
  /\ counters (sf_flow (rs_flow s')) = counters (sf_flow (rs_flow s))
  /\ match conn, conn' with
     | Some c, Some c' => counters c' = counters c
     | None, None => True
     | _, _ => False
     end.
Proof.
  destruct s. unfold maybeTriggerWindowUpdate, Stream_CheckAndQueueWindowUpdate.
  cbn [rs_flow]. pose proof (Check_counters en (sf_flow rs_flow0)) as H1.
  destruct (CheckAndQueueWindowUpdate en (sf_flow rs_flow0)) as [f1 su].
  destruct conn as [c|]; [|by cbn in *].
  pose proof (Check_counters en c) as H2. destruct (CheckAndQueueWindowUpdate en c) as [c' cu].
  by cbn in *.
Qed.

Lemma arrival_UpdateHighest_ok st conn off st' conn' :
  Stream_UpdateHighestReceived st conn off = (st', conn', Ok tt) ->
  counters (sf_flow st') = (bytesRead (sf_flow st), Z.max (highestReceived (sf_flow st)) off)
  /\ match conn, conn' with
     | Some c, Some c' => bytesRead c' = bytesRead c
     | None, None => True
     | _, _ => False
     end.
Proof.
  destruct st as [id [? ? ? ? ? ? ? ? br hr rw rws mx q qw et eo]].
  unfold Stream_UpdateHighestReceived, counters. cbn -[Z.max u64 UpdateHighestReceived].
  destruct (off >? hr) eqn:E1, (off >? rw) eqn:E2; bool_simpl; try done;
    (destruct conn as [c|];
     [destruct (_ >? 0) eqn:E3; [destruct (UpdateHighestReceived c _) as [c' r] eqn:E4|]|]);
    intros H; inversion H; subst; clear H; cbn -[Z.max]; (split; [f_equal; lia|]); try done.
  all: unfold UpdateHighestReceived in E4; case_hyp E4; by inversion E4.
Qed.

(** Bytes credited to the connection by a step. *)
Definition conn_credit (conn conn' : option flow) (n : Z) : Prop :=
  match conn, conn' with
  | Some c, Some c' => u64 (bytesRead c') = u64 (bytesRead c + n)
  | None, None => True
  | _, _ => False
  end.

Lemma conn_credit_refl conn : conn_credit conn conn 0.
Proof. destruct conn; [|done]. cbn. by rewrite Z.add_0_r. Qed.

Lemma conn_credit_trans a b c n m :
  conn_credit a b n -> conn_credit b c m -> conn_credit a c (n + m).
Proof.
  destruct a, b, c; cbn; try done. intros H1 H2. rewrite H2.
  rewrite <- u64_add_l, H1, u64_add_l. f_equal. lia.
Qed.

Lemma AddBytesRead_credit st conn n :
  let '(st', conn') := Stream_AddBytesRead st conn n in
  bytesRead (sf_flow st') = u64 (bytesRead (sf_flow st) + n)
  /\ highestReceived (sf_flow st') = highestReceived (sf_flow st) /\ conn_credit conn conn' n.
Proof.
  destruct conn; cbn -[u64]; split_and!; try done.
  rewrite u64_small; [done|apply u64_range].
Qed.

(** Conclusion of a step: the invariant, a legal move, and the credit. *)
Definition step_ok (s : ReceiveStream) (conn : option flow) (s' : ReceiveStream) (conn' : option flow) :
    Prop :=
  recv_inv s' /\ recv_move (rs_state s) (rs_state s') = true
  /\ conn_credit conn conn' (bytesRead (sf_flow (rs_flow s')) - bytesRead (sf_flow (rs_flow s))).

Lemma step_ok_refl s conn : recv_inv s -> step_ok s conn s conn.
Proof.
  intros H. split_and!; [done|apply recv_move_refl|]. rewrite Z.sub_diag. apply conn_credit_refl.
Qed.

(** The parts of the stream the invariant looks at. *)
Definition core (s : ReceiveStream) :=
  (rs_buf s, finalSizeKnown s, rs_state s, cancelErr s, counters (sf_flow (rs_flow s))).

Lemma step_ok_core s conn s' conn' s2 conn2 :
  step_ok s conn s' conn' -> core s2 = core s' -> conn_credit conn' conn2 0 ->
  step_ok s conn s2 conn2.
Proof.
  intros (H1 & H2 & H3) Hc Hcr. unfold core, counters in Hc. injection Hc as E1 E2 E3 E4 E5 E6.
  split_and!.
  - unfold recv_inv in *. rewrite E1, E2, E3, E4, E5, E6. exact H1.
  - by rewrite E3.
  - rewrite E5. rewrite <- (Z.add_0_r (_ - _)). by eapply conn_credit_trans.
Qed.

Lemma HandleStreamFrame_step stale s conn offset data fin :
  recv_inv s -> 0 <= offset ->
  let '(s', conn', ev, r) := HandleStreamFrame stale s conn offset data fin in
  r <> Panic
  /\ (r = Ok tt -> step_ok s conn s' conn'
      /\ bytesRead (sf_flow (rs_flow s')) = bytesRead (sf_flow (rs_flow s))
      /\ (s' = s \/ Push stale (rs_buf s) offset data fin = (rs_buf s', Ok tt))).
Proof.
  intros Hinv Ho. unfold HandleStreamFrame.
  destruct (_ || bool_decide _) eqn:Eterm.
  { split; [done|]. intros _. split_and!; [by apply step_ok_refl|done|by left]. }
  destruct (Stream_UpdateHighestReceived _ _ _) as [[fc conn1] r1] eqn:Eu.
  destruct r1 as [[]|e|]; [|by split|].
  2: { exfalso. revert Eu. unfold Stream_UpdateHighestReceived, UpdateHighestReceived.
       destruct conn; repeat case_test; done. }
  apply arrival_UpdateHighest_ok in Eu as [Ecnt Econn].
  pose proof Hinv as (Hwf & Hfin & Hst & Hreset & Hhi & Hbr).
  pose proof (Push_spec stale (rs_buf s) offset data fin Hwf Ho) as Hp.
  destruct s as [sid hs fc0 buf st ctx fk cb ssq ssc ce se rd dt dc cd dr].
  cbn -[Z.max u64 Push wf] in *.
  destruct (Push stale buf offset data fin) as [b' r2] eqn:EP. destruct Hp as (Hwf' & Hp).
  destruct r2 as [[]|e|]; [|by split|done].
  destruct Hp as (Hend & Hfs & _ & Hb' & _). 
  pose proof (zlen_nonneg data). unfold Varint.Max in Hend.
  rewrite u64_small in Ecnt by (unfold is_u64; lia). unfold counters in Ecnt. injection Ecnt as G1 G2.
  assert (F1 : hasFinalSize b' = hasFinalSize buf || fin) by by rewrite Hb'.
  assert (F2 : highestOffset b' = Z.max (highestOffset buf) (offset + zlen data)) by by rewrite Hb'.
  assert (F3 : readOffset b' = readOffset buf) by by rewrite Hb'.
  assert (Hcr : conn_credit conn conn1 (bytesRead (sf_flow fc) - bytesRead (sf_flow fc0))).
  { rewrite G1, Z.sub_diag. destruct conn, conn1; try done. cbn. by rewrite Econn, Z.add_0_r. }
  clear Hb' Hfs Econn. rewrite Hfin in F1. clear Hfin.
  assert (Hgo : forall st2, match st2 with
      | RecvStateRecv => fk || fin = false
      | RecvStateSizeKnown | RecvStateDataRecvd => fk || fin = true
      | _ => False end -> recv_move st st2 = true ->
    step_ok (mkRecv sid hs fc0 buf st ctx fk cb ssq ssc ce se rd dt dc cd dr) conn
      (mkRecv sid hs fc b' st2 ctx (fk || fin) cb ssq ssc ce se rd dt dc cd true) conn1).
  { intros st2 Hst2 Hmv. split_and!; [|done|done]. unfold recv_inv. cbn [rs_buf finalSizeKnown rs_state
      cancelErr rs_flow]. rewrite F1, F2, F3, G1, G2, Hhi.
    assert (Hnr : is_reset st2 = is_reset st) by by destruct st, st2.
    rewrite Hnr. split_and!; try done; destruct st2, st; try done. }
  destruct st; try done; cbn in Hst; subst fk; destruct fin; cbn [orb andb negb] in *;
    try change (bool_decide (RecvStateSizeKnown = RecvStateSizeKnown)) with true;
    try change (bool_decide (_ = RecvStateSizeKnown)) with false; cbv iota;
    try destruct (all_buffered b'); cbv beta iota zeta;
    (split; [done|intros _; split_and!; [by apply Hgo|exact G1|by right]]).
Qed.

Lemma HandleReset_step en s conn code fsize :
  recv_inv s -> 0 <= fsize <= Varint.Max ->
  let '(s', conn', ev, r) := HandleResetStreamFrame en s conn code fsize in
  r <> Panic
  /\ (r = Ok tt -> step_ok s conn s' conn' /\ readOffset (rs_buf s') = readOffset (rs_buf s)).
Proof.
  intros Hinv Hfs. unfold HandleResetStreamFrame. destruct (_ || bool_decide _) eqn:Eterm.
  { split; [done|]. intros _. split; [by apply step_ok_refl|done]. }
  destruct (_ && negb _) eqn:Ek; [by split|].
  destruct (fsize <? _) eqn:Eh; [by split|]. bool_simpl.
  destruct (Stream_UpdateHighestReceived _ _ _) as [[fc conn1] r1] eqn:Eu.
  destruct r1 as [[]|e|]; [|by split|].
  2: { exfalso. revert Eu. unfold Stream_UpdateHighestReceived, UpdateHighestReceived.
       destruct conn; repeat case_test; done. }
  apply arrival_UpdateHighest_ok in Eu as [Ecnt Econn]. unfold counters in Ecnt. injection Ecnt as G1 G2.
  pose proof Hinv as (Hwf & Hfin & Hst & Hreset & Hhi & Hbr).
  destruct s as [sid hs fc0 buf st ctx fk cb ssq ssc ce se rd dt dc cd dr].
  destruct buf as [ro ho fs has cs]. destruct Hwf as (W1 & W2 & W3 & W4). pose proof (wf_le _ _ _ W3).
  cbn -[Z.max u64] in *.
  assert (Hset : SetFinalSize (mkBuffer ro ho fs has cs) fsize = mkBuffer ro fsize fsize true cs).
  { unfold SetFinalSize. cbn. case_test; f_equal; lia. }
  rewrite Hset. cbn [readOffset]. unfold Varint.Max in *.
  assert (Hcr0 : conn_credit conn conn1 0).
  { destruct conn, conn1; try done. cbn. by rewrite Econn, Z.add_0_r. }
  assert (Hbr0 : bytesRead (sf_flow fc0) = ro) by by destruct st.
  destruct (if fsize >? ro then _ else _) as [fc2 conn2] eqn:Epair.
  assert (Hpair : bytesRead (sf_flow fc2) = fsize /\ highestReceived (sf_flow fc2) = fsize
                  /\ conn_credit conn conn2 (fsize - ro)).
  { destruct (fsize >? ro) eqn:Egt; bool_simpl.
    - pose proof (AddBytesRead_credit fc conn1 (fsize - ro)) as Ha. rewrite Epair in Ha.
      destruct Ha as (-> & -> & Ha). rewrite G1, G2, Hbr0, Hhi, u64_small by (unfold is_u64; lia).
      split_and!; [lia..|]. rewrite <- (Z.add_0_l (fsize - ro)). by eapply conn_credit_trans.
    - injection Epair as <- <-. assert (fsize = ro) by lia. rewrite G1, G2, Hbr0, Hhi.
      split_and!; [lia..|]. by replace (fsize - ro) with 0 by lia. }
  destruct Hpair as (P1 & P2 & P3).
  match goal with |- context [maybeTriggerWindowUpdate en ?s2 conn2] => set (s' := s2) end.
  pose proof (maybeTrigger_spec en s' conn2) as Hm.
  destruct (maybeTriggerWindowUpdate en s' conn2) as [[s3 conn3] ev]. destruct Hm as (Hs3 & Hc3 & Hconn3).
  split; [done|]. intros _. split; [|by rewrite Hs3].
  eapply step_ok_core with (s' := s') (conn' := conn2).
  - split_and!.
    + unfold recv_inv, s'. cbn [rs_buf finalSizeKnown rs_state cancelErr rs_flow].
      unfold wf, Varint.Max. cbn [readOffset highestOffset finalSize hasFinalSize chunks].
      split_and!; try done; try lia. by eapply wf_weaken; [| |exact W3]; lia.
    + unfold s'. cbn [rs_state]. by destruct st.
    + unfold s'. cbn [rs_flow]. by rewrite P1, Hbr0.
  - unfold core. rewrite Hc3. by rewrite Hs3.
  - destruct conn2, conn3; try done. cbn. injection Hconn3 as -> _. by rewrite Z.add_0_r.
Qed.

Definition outcome_bytes (o : read_outcome) : bytes :=
  match o with Returned l _ => l | Blocked _ => [] end.

(** A pass that changes nothing. *)
Definition read_nop (s : ReceiveStream) (conn : option flow)
    (r : ReceiveStream * option flow * list event * read_outcome) : Prop :=
  exists e, r = (s, conn, [], Returned [] e).

Lemma Read_pass_cases en s conn plen :
  0 <= plen ->
  read_nop s conn (Read_pass en s conn plen)
  \/ (0 < plen /\ cancelErr s = None /\ rs_state s <> RecvStateDataRead
      /\ IsAllDataRead (rs_buf s) = false
      /\ Read_pass en s conn plen =
         let '(b', out, eof) := Reassembly.Read (rs_buf s) plen in
         let s1 := { s with rs_buf := b' } in
         if 0 <? zlen out then
           let '(fc, conn1) := Stream_AddBytesRead (rs_flow s) conn (zlen out) in
           let s2 := { s1 with rs_flow := fc;
                       rs_state := if IsAllDataRead b' then RecvStateDataRead else rs_state s } in
           let '(s3, conn2, ev') := maybeTriggerWindowUpdate en s2 conn1 in
           (s3, conn2, (if IsAllDataRead b' && rs_hasSender s then [EvCompleted] else []) ++ ev',
            Returned out (if eof : bool then Some io_EOF else None))
         else if eof then ({ s1 with rs_state := RecvStateDataRead }, conn,
                           if rs_hasSender s then [EvCompleted] else [], Returned [] (Some io_EOF))
         else (s1, conn, [], Blocked (deadlineCh s))).
Proof.
  intros Hp. unfold read_nop, Read_pass. destruct (plen =? 0) eqn:E0; bool_simpl; [left; eauto|].
  destruct (cancelErr s) eqn:E1; [left; eauto|]. destruct (shutdownErr s) eqn:E2; [left; eauto|].
  destruct (_ || IsAllDataRead _) eqn:E3; [left; eauto|].
  destruct (deadline_passed en s); [left; eauto|].
  destruct (rs_ctx s); [left; eauto|]. right. bool_simpl.
  split_and!; [lia|done|by eapply bool_decide_eq_false|done|].
  destruct (Reassembly.Read _ _) as [[b' out] eof]. destruct s; cbn -[Stream_AddBytesRead].
  destruct (0 <? zlen out) eqn:Ez; [|by destruct eof].
  destruct (Stream_AddBytesRead _ _ _) as [fc conn1]. by destruct (IsAllDataRead b').
Qed.

Lemma Read_pass_step en s conn plen :
  recv_inv s -> 0 <= plen ->
  let '(s', conn', ev, o) := Read_pass en s conn plen in
  step_ok s conn s' conn'
  /\ bytesRead (sf_flow (rs_flow s')) = bytesRead (sf_flow (rs_flow s)) + zlen (outcome_bytes o)
  /\ exists p eof, 0 <= p /\ Reassembly.Read (rs_buf s) p = (rs_buf s', outcome_bytes o, eof).
Proof.
  intros Hinv Hp.
  destruct (Read_pass_cases en s conn plen Hp) as [[e ->]|(Hp' & Hc & Hnd & Hall & ->)].
  { split_and!; [by apply step_ok_refl|cbn [outcome_bytes]; rewrite zlen_nil; lia|by exists 0, false]. }
  pose proof Hinv as (Hwf & Hfin & Hst & Hreset & Hhi & Hbr).
  assert (Hnr : is_reset (rs_state s) = false).
  { apply not_true_iff_false. intros Hr. apply Hreset in Hr as [x Hx]. congruence. }
  pose proof (Read_spec (rs_buf s) plen Hwf Hp) as Hr.
  destruct (Reassembly.Read (rs_buf s) plen) as [[b' out] eof] eqn:ER.
  destruct Hr as (Hwf' & Hro & Hle & _ & _ & _ & Heof & E1 & E2 & E3).
  assert (Hro' : 0 <= readOffset b' < 2 ^ 64).
  { destruct Hwf' as (A & B & C & _). apply wf_le in C. unfold Varint.Max in B. lia. }
  assert (Hbr0 : bytesRead (sf_flow (rs_flow s)) = readOffset (rs_buf s))
    by (destruct (rs_state s); done).
  (* the invariant of the stream with the new buffer *)
  assert (Hgo : forall fc st2, is_reset st2 = false ->
    (if IsAllDataRead b' then st2 = RecvStateDataRead else st2 = rs_state s) ->
    bytesRead (sf_flow fc) = readOffset b' ->
    highestReceived (sf_flow fc) = highestReceived (sf_flow (rs_flow s)) ->
    recv_inv { s with rs_buf := b'; rs_flow := fc; rs_state := st2 }
    /\ recv_move (rs_state s) st2 = true).
  { intros fc st2 Hr2 Hst2 B1 B2. destruct s. cbn in *. split.
    - unfold recv_inv. cbn. rewrite Hr2, E1, E3, B1, B2. split_and!; try done.
      + destruct (IsAllDataRead b'); subst st2; [done|]. by destruct rs_state0.
      + split; [done|]. rewrite Hc. by intros [].
      + by destruct st2.
    - destruct (IsAllDataRead b') eqn:Ea; subst st2; [|apply recv_move_refl].
      unfold IsAllDataRead in Ea. bool_simpl. destruct rs_state0; try done; congruence. }
  destruct (0 <? zlen out) eqn:Ez; bool_simpl.
  - pose proof (AddBytesRead_credit (rs_flow s) conn (zlen out)) as Ha.
    destruct (Stream_AddBytesRead (rs_flow s) conn (zlen out)) as [fc conn1].
    destruct Ha as (A1 & A2 & A3). rewrite Hbr0, u64_small in A1 by (unfold is_u64; lia).
    rewrite <- Hro in A1.
    set (st2 := if IsAllDataRead b' then RecvStateDataRead else rs_state s).
    destruct (Hgo fc st2) as [Hi Hm]; [unfold st2; by case_test|unfold st2; by case_test|done|done|].
    cbv zeta. match goal with |- context [maybeTriggerWindowUpdate en ?x conn1] => set (s2 := x) end.
    pose proof (maybeTrigger_spec en s2 conn1) as Ht.
    destruct (maybeTriggerWindowUpdate en s2 conn1) as [[s3 conn3] ev]. destruct Ht as (T1 & T2 & T3).
    split_and!; [|unfold counters in T2; injection T2 as -> _; change (rs_flow s2) with fc;
                   cbn [outcome_bytes]; lia|exists plen, eof; split; [done|]; by rewrite T1].
    eapply step_ok_core with (s' := s2) (conn' := conn1).
    + split_and!; [exact Hi|exact Hm|]. change (rs_flow s2) with fc. rewrite A1, Hbr0, Hro.
      by replace (readOffset (rs_buf s) + zlen out - readOffset (rs_buf s)) with (zlen out) by lia.
    + unfold core. rewrite T2. by rewrite T1.
    + destruct conn1, conn3; try done. cbn. injection T3 as -> _. by rewrite Z.add_0_r.
  - assert (Hz : out = []) by (apply zlen_zero; pose proof (zlen_nonneg out); lia). subst out.
    rewrite zlen_nil, Z.add_0_r in Hro.
    assert (Hsame : IsAllDataRead b' = IsAllDataRead (rs_buf s))
      by (unfold IsAllDataRead; by rewrite Hro, E2, E3).
    rewrite Hall in Hsame. rewrite Hsame, andb_false_r in Heof. subst eof.
    destruct (Hgo (rs_flow s) (rs_state s)) as [Hi Hm]; [done|by rewrite Hsame|by rewrite Hro|done|].
    split_and!; [|cbn [outcome_bytes]; rewrite zlen_nil, Z.add_0_r; by destruct s|by exists plen, false].
    split_and!; [by destruct s|apply recv_move_refl|].
    destruct s. cbn. rewrite Z.sub_diag. apply conn_credit_refl.
Qed.

Lemma CancelRead_step s conn code :
  recv_inv s -> step_ok s conn (fst (CancelRead s code)) conn
  /\ bytesRead (sf_flow (rs_flow (fst (CancelRead s code)))) = bytesRead (sf_flow (rs_flow s))
  /\ rs_buf (fst (CancelRead s code)) = rs_buf s.
Proof.
  intros Hinv. unfold CancelRead. destruct (_ || bool_decide _) eqn:E.
  { split_and!; [by apply step_ok_refl|done|done]. }
  pose proof Hinv as (Hwf & Hfin & Hst & Hreset & Hhi & Hbr). destruct s. cbn in *.
  split_and!; [|done|done]. split_and!.
  - unfold recv_inv. cbn. split_and!; try done. by destruct rs_state0; auto.
  - by destruct rs_state0.
  - cbn. rewrite Z.sub_diag. apply conn_credit_refl.
Qed.

Lemma core_step s conn s' :
  recv_inv s -> core s' = core s -> step_ok s conn s' conn.
Proof.
  intros Hinv Hc. eapply step_ok_core; [by apply step_ok_refl|done|apply conn_credit_refl].
Qed.

Lemma close_deadline_core s ch : core (close_deadline s ch) = core s.
Proof. unfold close_deadline. by case_test. Qed.

Lemma SetReadDeadline_core en s t : core (SetReadDeadline en s t) = core s.
Proof.
  unfold SetReadDeadline. cbv zeta.
  assert (Hc : forall x, core (close_deadline x (deadlineCh x)) = core x)
    by (intros; apply close_deadline_core).
  destruct t as [t|]; [case_test|]; rewrite ?Hc; destruct s; unfold close_deadline; cbn; by case_test.
Qed.

Ltac nil_arith :=
  try intros _; cbn [r_out]; change (zlen (@nil Z)) with 0; rewrite ?Z.add_0_r;
  first [reflexivity | done | cbn; lia].

(** Every operation preserves the invariant, moves the state legally and never
    panics; all but a peer reset credit the bytes they hand out, nothing else. *)
Lemma rstream_step_spec s conn o :
  recv_inv s -> recv_op_ok o ->
  let r := recv_step s conn o in
  r_err r <> Panic
  /\ (r_err r = Ok tt ->
      step_ok s conn (r_stream r) (r_conn r)
      /\ (match o with PReset _ _ _ => False | _ => True end ->
          bytesRead (sf_flow (rs_flow (r_stream r)))
          = bytesRead (sf_flow (rs_flow s)) + zlen (r_out r))).
Proof.
  intros Hinv Hok. destruct o as [stale off data fin|en code fsize|en plen|w|code|en t|ch| | | |err];
    cbn [recv_step recv_op_ok] in *.
  - pose proof (HandleStreamFrame_step stale s conn off data fin Hinv Hok) as H.
    destruct (HandleStreamFrame _ _ _ _ _ _) as [[[s' conn'] ev] r]. cbn. destruct H as [H1 H2].
    split; [done|]. intros Hr. destruct (H2 Hr) as (A & B & _). split; [done|]. intros _. nil_arith.
  - pose proof (HandleReset_step en s conn code fsize Hinv Hok) as H.
    destruct (HandleResetStreamFrame _ _ _ _ _) as [[[s' conn'] ev] r]. cbn. destruct H as [H1 H2].
    split; [done|]. intros Hr. destruct (H2 Hr). by split.
  - pose proof (Read_pass_step en s conn plen Hinv Hok) as H.
    destruct (Read_pass _ _ _ _) as [[[s' conn'] ev] o]. destruct H as (H1 & H2 & _). by split.
  - split; [done|]. intros _. split; [|destruct w; nil_arith].
    apply core_step; [done|]. by destruct w.
  - pose proof (CancelRead_step s conn code Hinv) as (A & B & C).
    destruct (CancelRead s code) as [s' ev]. cbn in *. split; [done|]. intros _. split; [done|nil_arith].
  - split; [done|]. intros _. pose proof (SetReadDeadline_core en s t) as Hc.
    split; [by apply core_step|]. unfold core, counters in Hc. injection Hc as _ _ _ _ Hb _. nil_arith.
  - split; [done|]. intros _. pose proof (close_deadline_core s ch) as Hc.
    split; [by apply core_step|]. unfold core, counters in Hc. injection Hc as _ _ _ _ Hb _.
    unfold deadline_fires. nil_arith.
  - split; [done|]. intros _. split; [by apply core_step|nil_arith].
  - split; [done|]. intros _. unfold recv_GetWindowUpdate, Stream_GetWindowUpdate, GetWindowUpdate.
    split; [apply core_step; [done|]|]; cbn; case_test; first [done | nil_arith].
  - split; [done|]. intros _. unfold GetStopSendingFrame.
    split; [apply core_step; [done|]|]; cbn; case_test; first [done | nil_arith].
  - split; [done|]. intros _. split; [by apply core_step|nil_arith].
Qed.

Lemma recv_move_rank a b : recv_move a b = true -> recv_rank a <= recv_rank b.
Proof. destruct a, b; cbn; done || lia. Qed.
Lemma recv_move_terminal a b :
  recv_move a b = true -> RecvState_IsTerminal a = true -> a = b.
Proof. destruct a, b; cbn; done. Qed.

Lemma rstream_run_spec ops : forall s conn,
  recv_inv s -> Forall recv_op_ok ops ->
  let r := recv_run s conn ops in
  r_err r <> Panic
  /\ (r_err r = Ok tt ->
      recv_inv (r_stream r)
      /\ recv_rank (rs_state s) <= recv_rank (rs_state (r_stream r))
      /\ (RecvState_IsTerminal (rs_state s) = true -> rs_state (r_stream r) = rs_state s)
      /\ conn_credit conn (r_conn r)
           (bytesRead (sf_flow (rs_flow (r_stream r))) - bytesRead (sf_flow (rs_flow s)))).
Proof.
  induction ops as [|o ops IH]; intros s conn Hinv Hops; cbn [recv_run].
  { split; [done|]. intros _. cbn [r_stream r_conn]. split_and!; [done|lia|done|].
    rewrite Z.sub_diag. apply conn_credit_refl. }
  apply Forall_cons in Hops as [Ho Hops]. destruct (rstream_step_spec s conn o Hinv Ho) as [Hnp Hs].
  cbv zeta. destruct (recv_step s conn o) as [s1 conn1 ev1 out1 err1]. cbn [r_err r_stream r_conn] in *.
  destruct err1 as [[]|e|]; [|done..]. destruct (Hs eq_refl) as [(Hi & Hm & Hc) _].
  destruct (IH s1 conn1 Hi Hops) as [Hnp' Hs']. split; [done|]. intros Hr.
  destruct (Hs' Hr) as (A & B & C & D). apply recv_move_rank in Hm as Hrank.
  cbn [r_stream r_conn]. split_and!; [done|lia| |].
  - intros Ht. pose proof (recv_move_terminal _ _ Hm Ht) as E. rewrite <- E in C. auto.
  - replace (_ - _) with ((bytesRead (sf_flow (rs_flow s1)) - bytesRead (sf_flow (rs_flow s)))
      + (bytesRead (sf_flow (rs_flow (r_stream (recv_run s1 conn1 ops))))
         - bytesRead (sf_flow (rs_flow s1)))) by lia.
    by eapply conn_credit_trans.
Qed.

Lemma new_recv_inv id hs fc ctx :
  counters (sf_flow fc) = (0, 0) -> recv_inv (NewReceiveStream id hs fc ctx).
Proof.
  intros [= H1 H2]. unfold recv_inv. cbn. rewrite H1, H2. split_and!; try done.
Qed.

(** ** Delivery of a stream [S] *)
Section Delivery.
Context (S : bytes) (HS : zlen S <= Varint.Max).

(** The operations while the peer sends [S] and does not reset it. *)
Definition recv_op_of_stream (o : recv_op) : Prop :=
  match o with
  | PFrame _ offset data fin => frame_of_stream S offset data fin
  | PReset _ _ _ => False
  | PRead _ plen => 0 <= plen
  | _ => True
  end.

Lemma recv_op_of_stream_ok o : recv_op_of_stream o -> recv_op_ok o.
Proof using Type. destruct o; cbn; try done. unfold frame_of_stream. tauto. Qed.

Lemma step_buffer s conn o :
  recv_inv s -> recv_op_of_stream o -> (exists got fin, holds S (rs_buf s) got fin) ->
  let r := recv_step s conn o in
  r_err r = Ok tt ->
  (exists got fin, holds S (rs_buf (r_stream r)) got fin)
  /\ readOffset (rs_buf (r_stream r)) = readOffset (rs_buf s) + zlen (r_out r)
  /\ r_out r = ztake (zlen (r_out r)) (zdrop (readOffset (rs_buf s)) S).
Proof using HS.
  intros Hinv Ho (got & fin0 & Hh).
  assert (Hsame : forall s', rs_buf s' = rs_buf s ->
    (exists got fin, holds S (rs_buf s') got fin)
    /\ readOffset (rs_buf s') = readOffset (rs_buf s) + zlen (@nil Z)
    /\ [] = ztake (zlen (@nil Z)) (zdrop (readOffset (rs_buf s)) S)).
  { intros s' ->. split_and!; [eauto|rewrite zlen_nil; lia|done]. }
  destruct o as [stale off data fin|en code fsize|en plen|w|code|en t|ch| | | |err];
    cbn [recv_step recv_op_of_stream] in *; try done; cbv zeta.
  - destruct Ho as (F1 & Frest). assert (Hf : frame_of_stream S off data fin) by done.
    pose proof (HandleStreamFrame_step stale s conn off data fin Hinv F1) as H.
    destruct (HandleStreamFrame _ _ _ _ _ _) as [[[s' conn'] ev] r]. cbn [r_stream r_err r_out].
    intros ->. destruct H as [_ H]. destruct (H eq_refl) as (_ & _ & [->|Hp]); [by apply Hsame|].
    pose proof (holds_push S HS stale _ _ _ off data fin Hh Hf) as Hh'. rewrite Hp in Hh'.
    destruct Hh' as (_ & Hro & Hh'). split_and!; [eauto|rewrite zlen_nil; lia|done].
  - pose proof (Read_pass_step en s conn plen Hinv Ho) as H.
    destruct (Read_pass _ _ _ _) as [[[s' conn'] ev] o]. destruct H as (_ & _ & p & eof & Hp & HR).
    cbn [r_stream r_err r_out]. intros _. pose proof (holds_read S _ _ _ p Hh Hp) as Hh'.
    rewrite HR in Hh'. destruct Hh' as (A & B & C & _). split_and!; [eauto|done|done].
  - intros _. apply Hsame. by destruct w.
  - destruct (CancelRead_step s conn code Hinv) as (_ & _ & Hb).
    destruct (CancelRead s code) as [s' ev]. intros _. by apply Hsame.
  - intros _. apply Hsame. pose proof (SetReadDeadline_core en s t) as Hc.
    unfold core in Hc. by injection Hc.
  - intros _. apply Hsame. pose proof (close_deadline_core s ch) as Hc. unfold core in Hc. by injection Hc.
  - intros _. by apply Hsame.
  - intros _. apply Hsame. unfold recv_GetWindowUpdate. by destruct (Stream_GetWindowUpdate _).
  - intros _. apply Hsame. unfold GetStopSendingFrame. by case_test.
  - intros _. by apply Hsame.
Qed.

Lemma run_delivers ops : forall s conn,
  recv_inv s -> Forall recv_op_of_stream ops -> (exists got fin, holds S (rs_buf s) got fin) ->
  let r := recv_run s conn ops in
  r_err r = Ok tt ->
  readOffset (rs_buf (r_stream r)) = readOffset (rs_buf s) + zlen (r_out r)
  /\ r_out r = ztake (zlen (r_out r)) (zdrop (readOffset (rs_buf s)) S)
  /\ bytesRead (sf_flow (rs_flow (r_stream r))) = bytesRead (sf_flow (rs_flow s)) + zlen (r_out r)
  /\ conn_credit conn (r_conn r) (zlen (r_out r)).
Proof using HS.
  induction ops as [|o ops IH]; intros s conn Hinv Hops Hh; cbn [recv_run].
  { intros _. cbn [r_stream r_conn r_out]. change (zlen (@nil Z)) with 0. rewrite !Z.add_0_r.
    split_and!; [done..|apply conn_credit_refl]. }
  apply Forall_cons in Hops as [Ho Hops].
  destruct (rstream_step_spec s conn o Hinv (recv_op_of_stream_ok o Ho)) as [_ Hs].
  pose proof (step_buffer s conn o Hinv Ho Hh) as Hb. cbv zeta in *.
  destruct (recv_step s conn o) as [s1 conn1 ev1 out1 err1].
  cbn [r_err r_stream r_conn r_out] in *. destruct err1 as [[]|e|]; [|done..].
  destruct (Hs eq_refl) as [(Hi & Hm & Hc) Hbr]. destruct (Hb eq_refl) as (Hh1 & Hro & Hout).
  specialize (Hbr ltac:(by destruct o)).
  intros Hr. destruct (IH s1 conn1 Hi Hops Hh1 Hr) as (A & B & C & D). cbn [r_stream r_conn r_out].
  destruct Hh as (got & fin & (Hz & _) & _). pose proof (zlen_nonneg out1).
  set (out2 := r_out (recv_run s1 conn1 ops)) in *. pose proof (zlen_nonneg out2).
  rewrite zlen_app. split_and!; [lia| |lia|].
  - rewrite B at 1. rewrite Hout at 1. rewrite Hro, <- zdrop_zdrop by lia. apply ztake_split; lia.
  - replace (bytesRead _ - bytesRead _) with (zlen out1) in Hc by lia. by eapply conn_credit_trans.
Qed.
End Delivery.

(** ** Properties *)

(** The receive state machine.  Along any run of frames, resets, reads,
    wake-ups, cancellations, deadline changes and shutdown on a fresh stream, no
    method panics, and as long as no error was returned to the connection: the
    buffer is well-formed, its final size is known exactly when the stream says
    so, the state agrees with the buffer and with the pending error, the state
    only moves forward, the high-water mark of flow control is the buffer's, and
    the connection has been credited exactly what the stream counts as read. *)
Theorem recv_stream_safe (id : Z) (hs : bool) (fc : StreamFlowController) (ctx : option stream_error)
    (conn : option flow) (ops : list recv_op) :
  counters (sf_flow fc) = (0, 0) -> Forall recv_op_ok ops ->
  let r := recv_run (NewReceiveStream id hs fc ctx) conn ops in
  r_err r <> Panic
  /\ (r_err r = Ok tt ->
      recv_inv (r_stream r)
      /\ conn_credit conn (r_conn r) (bytesRead (sf_flow (rs_flow (r_stream r))))).
Proof.
  intros Hc Hops. pose proof (new_recv_inv id hs fc ctx Hc) as Hinv.
  destruct (rstream_run_spec ops _ conn Hinv Hops) as [H1 H2]. split; [done|]. intros Hr.
  destruct (H2 Hr) as (A & B & C & D). split; [done|]. cbn [rs_flow NewReceiveStream] in D.
  injection Hc as Hb _. rewrite Hb, Z.sub_0_r in D. exact D.
Qed.

Definition sample_conn : flow := NewConnectionFlowController sample_env 0 0 100.
Definition sample_fc : StreamFlowController := NewStreamFlowController sample_env 4 0 0 80.
Definition sample_recv : ReceiveStream := NewReceiveStream 4 true sample_fc None.
Definition sample_recv_ops : list recv_op :=
  [PFrame [] 2 [3; 4] true; PRead sample_env 8; PFrame [] 0 [1; 2; 3] false; PRead sample_env 3;
   PRead sample_env 3].

Lemma sample_run_inv conn ops :
  Forall recv_op_ok ops -> r_err (recv_run sample_recv conn ops) = Ok tt ->
  recv_inv (r_stream (recv_run sample_recv conn ops)).
Proof.
  intros Hops Hr. assert (Hi : recv_inv sample_recv) by by apply new_recv_inv.
  destruct (rstream_run_spec ops _ conn Hi Hops) as [_ H]. by destruct (H Hr).
Qed.

Lemma recv_stream_safe_witness :
  r_out (recv_run sample_recv (Some sample_conn) sample_recv_ops) = [1; 2; 3; 4]
  /\ recv_inv (r_stream (recv_run sample_recv (Some sample_conn) sample_recv_ops)).
Proof.
  split; [reflexivity|].
  refine (proj1 (proj2 (recv_stream_safe 4 true sample_fc None (Some sample_conn) sample_recv_ops
    eq_refl _) _)).
  - repeat constructor; cbn; lia.
  - reflexivity.
Defined.

(** One step of the machine.  Each operation that does not end in an error
    moves the state along the RFC table, or from SizeKnown directly to DataRead,
    or to ResetRead by the application's cancellation; terminal states are never
    left. *)
Theorem recv_stream_moves (s : ReceiveStream) (conn : option flow) (o : recv_op) :
  recv_inv s -> recv_op_ok o -> r_err (recv_step s conn o) = Ok tt ->
  recv_move (rs_state s) (rs_state (r_stream (recv_step s conn o))) = true
  /\ recv_rank (rs_state s) <= recv_rank (rs_state (r_stream (recv_step s conn o)))
  /\ (RecvState_IsTerminal (rs_state s) = true ->
      rs_state (r_stream (recv_step s conn o)) = rs_state s).
Proof.
  intros Hinv Ho Hr. destruct (rstream_step_spec s conn o Hinv Ho) as [_ Hs].
  destruct (Hs Hr) as [(_ & Hm & _) _]. split_and!; [done|by apply recv_move_rank|].
  intros Ht. symmetry. by apply recv_move_terminal.
Qed.

Lemma recv_stream_moves_witness :
  let s := r_stream (recv_run sample_recv (Some sample_conn) [PFrame [] 0 [1; 2] true; PRead sample_env 1]) in
  recv_move (rs_state s) (rs_state (r_stream (recv_step s (Some sample_conn) (PRead sample_env 9)))) = true.
Proof.
  refine (proj1 (recv_stream_moves
    (r_stream (recv_run sample_recv (Some sample_conn) [PFrame [] 0 [1; 2] true; PRead sample_env 1]))
    (Some sample_conn) (PRead sample_env 9) _ _ _)).
  - apply sample_run_inv; [|reflexivity]. repeat constructor; cbn; lia.
  - cbn. lia.
  - reflexivity.
Defined.

(** The application reads the peer's stream.  If every STREAM frame of the
    run is a slice of [S] and no reset arrives, then, whatever else happens and
    in whatever order, the bytes returned by the successive reads are the first
    bytes of [S], and exactly their number has been credited to the stream's
    and to the connection's receive window. *)
Theorem recv_stream_delivers (S : bytes) (id : Z) (hs : bool) (fc : StreamFlowController)
    (ctx : option stream_error) (conn : option flow) (ops : list recv_op) :
  zlen S <= Varint.Max -> counters (sf_flow fc) = (0, 0) -> Forall (recv_op_of_stream S) ops ->
  let r := recv_run (NewReceiveStream id hs fc ctx) conn ops in
  r_err r = Ok tt ->
  r_out r = ztake (zlen (r_out r)) S
  /\ readOffset (rs_buf (r_stream r)) = zlen (r_out r)
  /\ bytesRead (sf_flow (rs_flow (r_stream r))) = zlen (r_out r)
  /\ conn_credit conn (r_conn r) (zlen (r_out r)).
Proof.
  intros HS Hc Hops r Hr. pose proof (new_recv_inv id hs fc ctx Hc) as Hinv.
  destruct (run_delivers S HS ops _ conn Hinv Hops) as (A & B & C & D).
  - exists (fun _ => False), false. apply holds_new.
  - exact Hr.
  - fold r in A, B, C, D. change (readOffset (rs_buf (NewReceiveStream id hs fc ctx))) with 0 in *.
    cbn [rs_flow NewReceiveStream] in C. injection Hc as Hb _. rewrite Hb in C.
    rewrite zdrop_0 in B. split_and!; [done|lia|lia|done].
Qed.

Lemma recv_stream_delivers_witness :
  r_out (recv_run sample_recv (Some sample_conn) sample_recv_ops) = ztake 4 [1; 2; 3; 4].
Proof.
  refine (proj1 (recv_stream_delivers [1; 2; 3; 4] 4 true sample_fc None (Some sample_conn)
    sample_recv_ops _ _ _ _)).
  - vm_compute; discriminate.
  - reflexivity.
  - repeat constructor; (reflexivity || (cbn; lia) || discriminate).
  - reflexivity.
Defined.

(** RESET_STREAM returns the credit.  A reset that is accepted in a live
    state leaves the stream ResetRecvd with the remote error pending, counts the
    stream as read up to its final size, and credits the connection exactly the
    part that was still unread; a final size that contradicts the known one or
    the data received is a FinalSizeError. *)
Theorem recv_reset_credits (en : env) (s : ReceiveStream) (conn : option flow) (code fsize : Z) :
  recv_inv s -> 0 <= fsize <= Varint.Max -> CanRead (rs_state s) = true ->
  let '(s', conn', ev, r) := HandleResetStreamFrame en s conn code fsize in
  (r = Ok tt ->
     rs_state s' = RecvStateResetRecvd /\ cancelErr s' = Some (StreamError (rs_id s) code true)
     /\ bytesRead (sf_flow (rs_flow s')) = fsize
     /\ conn_credit conn conn' (fsize - readOffset (rs_buf s)))
  /\ (fsize < highestOffset (rs_buf s) \/ finalSizeKnown s = true /\ fsize <> finalSize (rs_buf s) ->
      r = Err (TransportError FinalSizeError) /\ s' = s /\ conn' = conn).
Proof.
  intros Hinv Hf Hcan. pose proof (HandleReset_step en s conn code fsize Hinv Hf) as H.
  assert (Hlive : RecvState_IsTerminal (rs_state s) || bool_decide (rs_state s = RecvStateResetRecvd) = false)
    by by destruct (rs_state s).
  assert (Hshape : forall s' conn' ev, HandleResetStreamFrame en s conn code fsize = (s', conn', ev, Ok tt) ->
    rs_state s' = RecvStateResetRecvd /\ cancelErr s' = Some (StreamError (rs_id s) code true)
    /\ finalSize (rs_buf s') = fsize).
  { intros s' conn' ev. unfold HandleResetStreamFrame. rewrite Hlive.
    destruct (_ && negb _); [done|]. destruct (fsize <? _); [done|].
    destruct (Stream_UpdateHighestReceived _ _ _) as [[fc conn1] [[]|e|]]; [|done..].
    match goal with |- context [if ?c then Stream_AddBytesRead ?a ?b ?n else ?e] =>
      destruct (if c then Stream_AddBytesRead a b n else e) as [fc2 conn2] end.
    match goal with |- context [maybeTriggerWindowUpdate en ?x conn2] => set (s2 := x) end.
    pose proof (maybeTrigger_spec en s2 conn2) as Ht.
    destruct (maybeTriggerWindowUpdate en s2 conn2) as [[s3 conn3] ev3]. destruct Ht as (T1 & _).
    intros [= <- <- <-]. rewrite T1. split_and!; [done..|]. cbn. unfold SetFinalSize. by case_test. }
  assert (Hbad : fsize < highestOffset (rs_buf s)
      \/ finalSizeKnown s = true /\ fsize <> finalSize (rs_buf s) ->
    HandleResetStreamFrame en s conn code fsize = (s, conn, [], Err (TransportError FinalSizeError))).
  { intros Hb. unfold HandleResetStreamFrame. rewrite Hlive.
    destruct Hb as [Hb|[Hb1 Hb2]].
    - destruct (_ && negb _); [done|]. by test_true (fsize <? highestOffset (rs_buf s)).
    - rewrite Hb1. by replace (fsize =? finalSize (rs_buf s)) with false by lia. }
  destruct (HandleResetStreamFrame en s conn code fsize) as [[[s' conn'] ev] r]. destruct H as [_ H].
  split.
  - intros ->. destruct (H eq_refl) as [(Hi & _ & Hc) _].
    destruct (Hshape s' conn' ev eq_refl) as (E1 & E2 & E3). split_and!; try done.
    + destruct Hi as (_ & _ & _ & _ & _ & Hb). rewrite E1 in Hb. by rewrite Hb, E3.
    + destruct Hi as (_ & _ & _ & _ & _ & Hb). rewrite E1, E3 in Hb. rewrite Hb in Hc.
      destruct Hinv as (_ & _ & _ & _ & _ & Hb0). destruct (rs_state s); try done;
        by rewrite Hb0 in Hc.
  - intros Hb. specialize (Hbad Hb). by injection Hbad as -> -> _ ->.
Qed.

Definition reset_sample : ReceiveStream :=
  r_stream (recv_run sample_recv None [PFrame [] 0 [1; 2; 3] false; PRead sample_env 2]).
Lemma reset_sample_inv : recv_inv reset_sample.
Proof. apply sample_run_inv; [|reflexivity]. repeat constructor; cbn; lia. Qed.
Lemma reset_sample_range : 0 <= 10 <= Varint.Max.
Proof. vm_compute; split; discriminate. Qed.
Lemma reset_sample_can : CanRead (rs_state reset_sample) = true.
Proof. vm_compute. reflexivity. Qed.

Lemma recv_reset_credits_witness :
  let '(s', conn', ev, r) := HandleResetStreamFrame sample_env reset_sample (Some sample_conn) 7 10 in
  r = Ok tt /\ bytesRead (sf_flow (rs_flow s')) = 10
  /\ conn_credit (Some sample_conn) conn' (10 - readOffset (rs_buf reset_sample)).
Proof.
  pose proof (recv_reset_credits sample_env reset_sample (Some sample_conn) 7 10
    reset_sample_inv reset_sample_range reset_sample_can) as H.
  assert (E : snd (HandleResetStreamFrame sample_env reset_sample (Some sample_conn) 7 10) = Ok tt)
    by (vm_compute; reflexivity).
  destruct (HandleResetStreamFrame sample_env reset_sample (Some sample_conn) 7 10) as [[[s' conn'] ev] r].
  cbn [snd] in E. destruct (proj1 H E) as (_ & _ & A & B). exact (conj E (conj A B)).
Defined.

(** A FIN on an empty frame never completes the stream.  When everything
    received has been read and the end of the stream arrives as an empty STREAM
    frame with FIN, every later [Read] returns [io.EOF] without changing the
    stream and without calling [OnStreamCompleted], and the state stays DataRecvd
    instead of reaching DataRead. *)
Theorem empty_fin_never_completes (stale : bytes) (s : ReceiveStream) :
  recv_inv s -> rs_state s = RecvStateRecv -> shutdownErr s = None ->
  readOffset (rs_buf s) = highestOffset (rs_buf s) ->
  highestOffset (rs_buf s) <= receiveWindow (sf_flow (rs_flow s)) ->
  let '(s1, _, ev, r) := HandleStreamFrame stale s None (highestOffset (rs_buf s)) [] true in
  r = Ok tt /\ (EvCompleted ∉ ev) /\ rs_state s1 = RecvStateDataRecvd
  /\ forall en conn plen, plen <> 0 ->
       Read_pass en s1 conn plen = (s1, conn, [], Returned [] (Some io_EOF)).
Proof.
  intros Hinv Hst Hsd Hro Hwin. pose proof Hinv as (Hwf & Hfin & Hst' & Hreset & Hhi & Hbr).
  rewrite Hst in *. destruct s as [sid hs fc0 buf st ctx fk cb ssq ssc ce se rd dt dc cd dr].
  destruct fc0 as [fid [? ? ? ? ? ? ? ? br hr rw rws mx q qw et eo]].
  destruct buf as [ro ho fs has cs]. destruct Hwf as (W1 & W2 & W3 & W4).
  cbn in Hst, Hsd, Hro, Hwin, Hfin, Hst', Hreset, Hhi, W1, W2, W3, W4. subst st ro fk has hr se.
  assert (ce = None) as -> by (destruct ce; [|done]; destruct Hreset as [_ Hr]; discriminate Hr; eauto).
  assert (cs = []) as ->.
  { destruct cs as [|c cs]; [done|]. cbn in W3. destruct W3 as (A & B & C). apply wf_le in C.
    apply zlen_pos in B. lia. }
  assert (Hpush : Push stale (mkBuffer ho ho fs false []) ho [] true
    = (mkBuffer ho ho ho true [], Ok tt)).
  { unfold Push, Varint.Max in *. change (zlen (@nil Z)) with 0. cbn [hasFinalSize highestOffset readOffset].
    rewrite Z.add_0_r, u64_small by (unfold is_u64; lia). rewrite !Z.gtb_ltb, !Z.ltb_irrefl.
    replace (4611686018427387903 <? ho) with false by lia.
    change (4611686018427387903 <? 0) with false. cbn [orb andb negb]. cbn.
    by rewrite Z.leb_refl. }
  unfold HandleStreamFrame. cbn [rs_state rs_flow rs_buf highestOffset].
  change (zlen (@nil Z)) with 0. rewrite Z.add_0_r, u64_small by (unfold is_u64, Varint.Max in *; lia).
  unfold Stream_UpdateHighestReceived. cbn -[Push all_buffered Z.gtb].
  replace (ho >? ho) with false by lia. cbn -[Push all_buffered Z.gtb].
  replace (ho >? rw) with false by lia. cbn -[Push all_buffered].
  rewrite Hpush. cbn -[all_buffered].
  assert (Hall : all_buffered (mkBuffer ho ho ho true []) = true)
    by (unfold all_buffered; cbn [finalSize readOffset]; by rewrite Z.sub_diag).
  rewrite Hall. split_and!; [done| |done|].
  - destruct cb; cbn; intros Hin; rewrite ?list_elem_of_singleton, ?elem_of_nil in Hin; done.
  - intros en conn plen Hp. unfold Read_pass. replace (plen =? 0) with false by lia.
    cbn [cancelErr shutdownErr rs_state rs_buf]. unfold IsAllDataRead. cbn [hasFinalSize readOffset finalSize].
    rewrite Z.geb_leb, Z.leb_refl. cbn. done.
Qed.

Lemma empty_fin_never_completes_witness :
  let s := r_stream (recv_run sample_recv None [PFrame [] 0 [1; 2; 3] false; PRead sample_env 9]) in
  let '(s1, _, ev, r) := HandleStreamFrame [] s None 3 [] true in
  r = Ok tt /\ (EvCompleted ∉ ev) /\ rs_state s1 = RecvStateDataRecvd
  /\ forall en conn plen, plen <> 0 ->
       Read_pass en s1 conn plen = (s1, conn, [], Returned [] (Some io_EOF)).
Proof.
  apply (empty_fin_never_completes []
    (r_stream (recv_run sample_recv None [PFrame [] 0 [1; 2; 3] false; PRead sample_env 9]))).
  - apply sample_run_inv; [|reflexivity]. repeat constructor; cbn; lia.
  - reflexivity.
  - reflexivity.
  - reflexivity.
  - vm_compute. discriminate.
Defined.

(** Changing the deadline times out a blocked reader.  A reader blocked on
    the stream waits on the deadline channel of that moment; [SetReadDeadline]
    closes that channel whatever the new deadline is (none, or one in the
    future), so the reader may return [ErrDeadline] at once. *)
Theorem set_deadline_times_out_reader (en en' : env) (s s1 : ReceiveStream) (conn conn1 : option flow)
    (ev : list event) (plen ch : Z) (t : option Z) :
  Read_pass en s conn plen = (s1, conn1, ev, Blocked ch) ->
  let s2 := SetReadDeadline en' s1 t in
  wake_enabled s2 ch WakeDeadline = true
  /\ snd (resume s2 WakeDeadline) = Some (Returned [] (Some ErrDeadline)).
Proof.
  intros Hb. split; [|done]. assert (Hch : ch = deadlineCh s1).
  { revert Hb. unfold Read_pass. destruct (plen =? 0); [done|]. destruct (cancelErr s), (shutdownErr s); try done.
    destruct (_ || IsAllDataRead _); [done|]. destruct (deadline_passed en s); [done|].
    destruct (rs_ctx s); [done|]. destruct (Reassembly.Read _ _) as [[b' out] eof].
    destruct (0 <? zlen out).
    - destruct (Stream_AddBytesRead _ _ _). destruct (maybeTriggerWindowUpdate _ _ _) as [[??]?]. done.
    - destruct eof; [done|]. by intros [= <- <- <- <-]. }
  subst ch. unfold wake_enabled. apply bool_decide_eq_true. unfold SetReadDeadline, close_deadline. clear Hb.
  destruct s1 as [sid hs fc0 buf st ctx fk cb ssq ssc ce se rd dt dc cd dr]. cbn.
  assert (Hsnoc : dc ∈ cd ++ [dc]) by (apply elem_of_app; right; constructor).
  assert (Happ : forall l x, dc ∈ l -> dc ∈ l ++ [x]) by (intros; apply elem_of_app; by left).
  destruct t as [t|]; repeat (case_bool_decide || case_test; cbn); auto.
Qed.

Lemma set_deadline_times_out_reader_witness :
  let s2 := SetReadDeadline sample_env sample_recv None in
  wake_enabled s2 0 WakeDeadline = true
  /\ snd (resume s2 WakeDeadline) = Some (Returned [] (Some ErrDeadline)).
Proof.
  apply (set_deadline_times_out_reader sample_env sample_env sample_recv sample_recv None None [] 5 0 None).
  reflexivity.
Defined.
