(* ===== verification/SendStream.v ===== *)
(** * The sending half of a stream (RFC 9000 section 3.1)

    Models [src/net/quic/core/stream/send_stream.go].  [Write] takes the lock
    twice per iteration, once to check the state and the credit ([write_check])
    and once to queue the bytes ([write_commit]); both critical sections are
    definitions of their own, so that the interleaving of two writers can be
    stated, and [WriteWithLimit] is their sequential composition.  A blocked
    write registers its waiters and stops there ([WBlocked]).

    The theorems: the state follows the RFC table; the frames popped are the
    bytes written, in order, gapless, with FIN once and last; a reset announces
    exactly what was sent and returns the credit of the rest; the popped frames,
    reordered and duplicated at will, are reassembled to the bytes written; and
    checking and taking credit in two steps lets two streams overrun the
    connection's limit. *)

From S2P Require Import Prelude Varint StreamTypes Reassembly FlowControl.
From stdpp Require Import list.
Open Scope Z_scope.

(** ** State *)
Inductive send_event :=
| EvHasData            (* sender.OnHasStreamData *)
| EvHasControl         (* sender.OnHasStreamControlFrame *)
| EvSendCompleted.     (* sender.OnStreamCompleted *)

(** Channels are numbered: [ss_wakeCh] is the current wake channel,
    [ss_closedWakes] and [ss_closedDeadlines] the closed ones. *)
#[projections(primitive)]
Record SendStream := mkSend {
  ss_id : Z;
  ss_hasSender : bool;
  ss_flow : StreamFlowController;
  ss_state : SendState;
  ss_ctx : option stream_error;
  writeOffset : Z;
  sentOffset : Z;
  writeBuffer : bytes;
  finQueued : bool;
  finSent : bool;
  ss_finalSize : Z;
  resetQueued : bool;
  resetSent : bool;
  resetCode : Z;
  resetFinalPos : Z;
  resetErr : option stream_error;
  stopSendingReceived : bool;
  ss_stopSendingCode : Z;
  ss_shutdownErr : option stream_error;
  urgency : Z;
  incremental : bool;
  writeDeadline : option Z;
  ss_deadlineTimer : option Z;
  ss_deadlineCh : Z;
  ss_closedDeadlines : list Z;
  ss_wakeCh : Z;
  ss_closedWakes : list Z
}.

Definition NewSendStream (id : Z) (hasSender : bool) (fc : StreamFlowController)
    (ctx : option stream_error) : SendStream :=
  mkSend id hasSender fc SendStateReady ctx 0 0 [] false false 0 false false 0 0 None false 0 None
    0 false None None 0 [] 0 [].

Definition ss_cancel_ctx (ctx err : option stream_error) : option stream_error :=
  match ctx with
  | Some e => Some e
  | None => Some (match err with Some e => e | None => context_Canceled end)
  end.

Definition notify (s : SendStream) (e : send_event) : list send_event :=
  if ss_hasSender s then [e] else [].

(** [SetPriority]: the urgency is stored as an [int32] and read back as [int8]. *)
Definition SetPriority (s : SendStream) (u : Z) (incr : bool) : SendStream :=
  { s with urgency := u; incremental := incr }.
Definition Priority (s : SendStream) : Z * bool := (urgency s, incremental s).

Definition ss_close_deadline (s : SendStream) (ch : Z) : SendStream :=
  if bool_decide (ch ∈ ss_closedDeadlines s) then s
  else { s with ss_closedDeadlines := ss_closedDeadlines s ++ [ch] }.

Definition SetWriteDeadline (en : env) (s : SendStream) (t : option Z) : SendStream :=
  let s := { s with writeDeadline := t; ss_deadlineTimer := None } in
  let s := ss_close_deadline s (ss_deadlineCh s) in
  let s := { s with ss_deadlineCh := ss_deadlineCh s + 1 } in
  match t with
  | None => s
  | Some t =>
      if t - now en <=? 0 then ss_close_deadline s (ss_deadlineCh s)
      else { s with ss_deadlineTimer := Some (ss_deadlineCh s) }
  end.

Definition broadcastWakeWaiters (s : SendStream) : SendStream :=
  { s with ss_closedWakes := ss_closedWakes s ++ [ss_wakeCh s]; ss_wakeCh := ss_wakeCh s + 1 }.

(** ** Writing *)

(** First critical section of a [Write] iteration: the error to return, or the
    credits [(streamCredit, connCredit, effective)]. *)
Definition write_check (en : env) (s : SendStream) (conn : option flow) :
    stream_error + (Z * Z * Z) :=
  match resetErr s, ss_shutdownErr s with
  | Some e, _ => inl e
  | None, Some e => inl e
  | None, None =>
      if bool_decide (ss_state s = SendStateDataSent) || bool_decide (ss_state s = SendStateDataRecvd)
      then inl ErrStreamClosed
      else if match writeDeadline s with Some t => now en >? t | None => false end then inl ErrDeadline
      else
        match ss_ctx s with
        | Some e => inl e
        | None => inr (Stream_SendCreditAvailable (ss_flow s) conn)
        end
  end.

(** No credit: queue the BLOCKED frames and register the waiters; the result
    names the channels waited on. *)
Definition write_blocked (s : SendStream) (conn : option flow) (streamCredit connCredit : Z) :
    SendStream * option flow * list send_event * (Z * option Z) :=
  let s :=
    if streamCredit <=? connCredit
    then { s with ss_flow := fst (CheckAndQueueStreamDataBlocked (ss_flow s)) } else s in
  let conn :=
    match conn with
    | Some c => if connCredit <=? streamCredit then Some (fst (CheckAndQueueDataBlocked c)) else Some c
    | None => None
    end in
  let ev := notify s EvHasControl in
  let '(fc, sw) := Stream_RegisterSendWaiter (ss_flow s) in
  let s := { s with ss_flow := fc } in
  match conn with
  | Some c => let '(c', cw) := RegisterSendWaiter c in (s, Some c', ev, (sw, Some cw))
  | None => (s, None, ev, (sw, None))
  end.

(** How much of [p] to take, given the credit and the limiter's answer. *)
Definition chunk_len (p : bytes) (effective : Z) (limiter : option (Z -> Z)) : Z :=
  let chunkLen := Z.min (zlen p) effective in
  match limiter with
  | None => chunkLen
  | Some f =>
      let lim := f chunkLen in
      let lim := if lim <? 0 then 0 else lim in
      if lim <? chunkLen then lim else chunkLen
  end.

(** Second critical section: queue [data] and account for it. *)
Definition write_commit (s : SendStream) (conn : option flow) (data : bytes) :
    SendStream * option flow * list send_event :=
  let s := { s with writeBuffer := writeBuffer s ++ data;
                    writeOffset := u64 (writeOffset s + zlen data) } in
  let '(fc, conn) := Stream_AddBytesSent (ss_flow s) conn (zlen data) in
  let s := { s with ss_flow := fc } in
  let s := if bool_decide (ss_state s = SendStateReady) then { s with ss_state := SendStateSend } else s in
  (s, conn, notify s EvHasData).

Inductive write_outcome :=
| WDone
| WErr (e : stream_error)
| WBlocked (waiters : Z * option Z).

(** The loop of [WriteWithLimit].  The limiter callback may answer differently
    as the write progresses: it is given the bytes written so far.  Each
    completed iteration writes at least one byte, so a fuel of [len(p)] is
    enough ([write_terminates]). *)
Fixpoint write_loop (fuel : nat) (en : env) (limiter : option (Z -> Z -> Z))
    (s : SendStream) (conn : option flow) (p : bytes) (totalWritten : Z) :
    SendStream * option flow * list send_event * Z * option write_outcome :=
  if zlen p =? 0 then (s, conn, [], totalWritten, Some WDone)
  else
    match fuel with
    | O => (s, conn, [], totalWritten, None)
    | S fuel' =>
        match write_check en s conn with
        | inl e => (s, conn, [], totalWritten, Some (WErr e))
        | inr (streamCredit, connCredit, effective) =>
            if effective =? 0 then
              let '(s, conn, ev, w) := write_blocked s conn streamCredit connCredit in
              (s, conn, ev, totalWritten, Some (WBlocked w))
            else
              let chunkLen :=
                chunk_len p effective
                  (match limiter with Some f => Some (f totalWritten) | None => None end) in
              if chunkLen =? 0 then (s, conn, [], totalWritten, Some (WErr ErrWriteLimitReached))
              else
                let '(s, conn, ev) := write_commit s conn (ztake chunkLen p) in
                let '(s, conn, ev', total, o) :=
                  write_loop fuel' en limiter s conn (zdrop chunkLen p) (totalWritten + chunkLen) in
                (s, conn, ev ++ ev', total, o)
        end
    end.

Definition WriteWithLimit (en : env) (s : SendStream) (conn : option flow) (p : bytes)
    (limiter : option (Z -> Z -> Z)) :
    SendStream * option flow * list send_event * Z * option write_outcome :=
  write_loop (length p) en limiter s conn p 0.

Definition Write (en : env) (s : SendStream) (conn : option flow) (p : bytes) :=
  WriteWithLimit en s conn p None.

Definition TryWriteAll (s : SendStream) (conn : option flow) (p : bytes) :
    SendStream * option flow * list send_event * res stream_error unit :=
  if zlen p =? 0 then (s, conn, [], Ok tt)
  else
    match resetErr s, ss_shutdownErr s with
    | Some e, _ => (s, conn, [], Err e)
    | None, Some e => (s, conn, [], Err e)
    | None, None =>
        if bool_decide (ss_state s = SendStateDataSent) || bool_decide (ss_state s = SendStateDataRecvd)
        then (s, conn, [], Err ErrStreamClosed)
        else
          let '(_, _, effective) := Stream_SendCreditAvailable (ss_flow s) conn in
          if effective <? zlen p then (s, conn, [], Err ErrWouldBlock)
          else
            let s := { s with writeBuffer := writeBuffer s ++ p;
                              writeOffset := u64 (writeOffset s + zlen p) } in
            let '(fc, conn) := Stream_AddBytesSent (ss_flow s) conn (zlen p) in
            let s := { s with ss_flow := fc } in
            let s := if bool_decide (ss_state s = SendStateReady)
                     then { s with ss_state := SendStateSend } else s in
            (s, conn, notify s EvHasData, Ok tt)
    end.

(** ** Ending the stream *)
Definition send_Close (s : SendStream) : SendStream * list send_event * res stream_error unit :=
  match resetErr s with
  | Some e => (s, [], Err e)
  | None =>
      if bool_decide (ss_state s = SendStateDataSent) || bool_decide (ss_state s = SendStateDataRecvd)
      then (s, [], Ok tt)
      else
        let s := { s with finQueued := true; ss_finalSize := writeOffset s;
                          ss_state := SendStateDataSent; ss_ctx := ss_cancel_ctx (ss_ctx s) None } in
        (s, notify s EvHasData, Ok tt)
  end.
Definition CloseWrite (s : SendStream) := send_Close s.

(** The common body of [CancelWrite] and [HandleStopSending]. *)
Definition reset_with (s : SendStream) (conn : option flow) (code : Z) (remote : bool) :
    SendStream * option flow * list send_event :=
  let s := { s with ss_state := SendStateResetSent; resetQueued := true; resetCode := code;
                    resetFinalPos := sentOffset s } in
  let '(fc, conn) :=
    if writeOffset s >? sentOffset s
    then Stream_ReclaimBytesSent (ss_flow s) conn (writeOffset s - sentOffset s)
    else (ss_flow s, conn) in
  let e := StreamError (ss_id s) code remote in
  let s := { s with ss_flow := fc; writeBuffer := []; resetErr := Some e;
                    ss_ctx := ss_cancel_ctx (ss_ctx s) (Some e) } in
  let s := broadcastWakeWaiters s in
  (s, conn, notify s EvHasControl).

Definition CancelWrite (s : SendStream) (conn : option flow) (code : Z) :
    SendStream * option flow * list send_event :=
  if SendState_IsTerminal (ss_state s) || bool_decide (ss_state s = SendStateResetSent)
  then (s, conn, []) else reset_with s conn code false.

Definition HandleStopSending (s : SendStream) (conn : option flow) (code : Z) :
    SendStream * option flow * list send_event :=
  if SendState_IsTerminal (ss_state s) || bool_decide (ss_state s = SendStateResetSent)
  then (s, conn, [])
  else reset_with { s with stopSendingReceived := true; ss_stopSendingCode := code } conn code true.

Definition send_UpdateSendWindow (s : SendStream) (limit : Z) : SendStream :=
  broadcastWakeWaiters { s with ss_flow := Stream_UpdateSendWindow (ss_flow s) limit }.

(** ** Frames *)

(** A popped STREAM frame: data, offset and FIN. *)
#[projections(primitive)]
Record popped := mkPopped { pf_data : bytes; pf_offset : Z; pf_fin : bool }.

Definition PopStreamFrame (s : SendStream) (maxBytes : Z) : SendStream * option popped :=
  if resetSent s || bool_decide (ss_state s = SendStateResetSent)
     || bool_decide (ss_state s = SendStateResetRecvd)
  then (s, None)
  else
    let bufLen := zlen (writeBuffer s) in
    if (bufLen =? 0) && (negb (finQueued s) || finSent s) then (s, None)
    else
      let offset := sentOffset s in
      let take := Z.min bufLen maxBytes in
      let '(s, data) :=
        if take >? 0 then
          ({ s with writeBuffer := zdrop take (writeBuffer s);
                    sentOffset := u64 (sentOffset s + take) }, ztake take (writeBuffer s))
        else (s, []) in
      let fin := finQueued s && (zlen (writeBuffer s) =? 0) && negb (finSent s) in
      let s := if fin then { s with finSent := true } else s in
      (s, Some (mkPopped data offset fin)).

Definition HandleAck (s : SendStream) (allDataAcked : bool) : SendStream * list send_event :=
  if allDataAcked && finSent s && bool_decide (ss_state s = SendStateDataSent) then
    let s := { s with ss_state := SendStateDataRecvd } in (s, notify s EvSendCompleted)
  else (s, []).

Definition HandleResetAck (s : SendStream) : SendStream * list send_event :=
  if bool_decide (ss_state s = SendStateResetSent) then
    let s := { s with ss_state := SendStateResetRecvd } in (s, notify s EvSendCompleted)
  else (s, []).

(** The frame parameters [(code, finalSize)]. *)
Definition GetResetStreamFrame (s : SendStream) : SendStream * option (Z * Z) :=
  if resetQueued s then ({ s with resetSent := true }, Some (resetCode s, resetFinalPos s))
  else (s, None).

Definition send_GetStreamDataBlockedFrame (s : SendStream) : SendStream * option Z :=
  let '(fc, r) := GetStreamDataBlockedFrame (ss_flow s) in ({ s with ss_flow := fc }, r).

Definition send_CloseForShutdown (s : SendStream) (err : stream_error) : SendStream :=
  broadcastWakeWaiters { s with ss_shutdownErr := Some err; ss_ctx := ss_cancel_ctx (ss_ctx s) (Some err) }.

(** ** Steps *)
Inductive send_op :=
| WWrite (en : env) (p : bytes) (limiter : option (Z -> Z -> Z))
| WTry (p : bytes)
| WClose
| WCancel (code : Z)
| WStop (code : Z)
| WMaxStreamData (limit : Z)
| WMaxData (limit : Z)
| WPop (maxBytes : Z)
| WAck (all : bool)
| WResetAck
| WGetReset
| WGetBlocked
| WSetDeadline (en : env) (t : option Z)
| WPriority (u : Z) (incr : bool)
| WShutdown (err : stream_error).

#[projections(primitive)]
Record send_result := mkSRes {
  w_stream : SendStream;
  w_conn : option flow;
  w_taken : bytes;            (* bytes accepted from the application *)
  w_frames : list popped      (* STREAM frames produced *)
}.

Definition send_step (s : SendStream) (conn : option flow) (o : send_op) : send_result :=
  match o with
  | WWrite en p limiter =>
      let '(s', conn', ev, n, out) := WriteWithLimit en s conn p limiter in
      mkSRes s' conn' (ztake n p) []
  | WTry p =>
      let '(s', conn', ev, r) := TryWriteAll s conn p in
      mkSRes s' conn' (match r with Ok _ => p | _ => [] end) []
  | WClose => let '(s', ev, r) := send_Close s in mkSRes s' conn [] []
  | WCancel code => let '(s', conn', ev) := CancelWrite s conn code in mkSRes s' conn' [] []
  | WStop code => let '(s', conn', ev) := HandleStopSending s conn code in mkSRes s' conn' [] []
  | WMaxStreamData limit => mkSRes (send_UpdateSendWindow s limit) conn [] []
  | WMaxData limit =>
      mkSRes s (match conn with Some c => Some (UpdateSendWindow c limit) | None => None end) [] []
  | WPop m => let '(s', f) := PopStreamFrame s m in mkSRes s' conn [] (option_list f)
  | WAck all => mkSRes (fst (HandleAck s all)) conn [] []
  | WResetAck => mkSRes (fst (HandleResetAck s)) conn [] []
  | WGetReset => mkSRes (fst (GetResetStreamFrame s)) conn [] []
  | WGetBlocked => mkSRes (fst (send_GetStreamDataBlockedFrame s)) conn [] []
  | WSetDeadline en t => mkSRes (SetWriteDeadline en s t) conn [] []
  | WPriority u i => mkSRes (SetPriority s u i) conn [] []
  | WShutdown err => mkSRes (send_CloseForShutdown s err) conn [] []
  end.

Fixpoint send_run (s : SendStream) (conn : option flow) (ops : list send_op) : send_result :=
  match ops with
  | [] => mkSRes s conn [] []
  | o :: ops' =>
      let r := send_step s conn o in
      let r' := send_run (w_stream r) (w_conn r) ops' in
      mkSRes (w_stream r') (w_conn r') (w_taken r ++ w_taken r') (w_frames r ++ w_frames r')
  end.

Definition send_op_ok (o : send_op) : Prop :=
  match o with WMaxStreamData l | WMaxData l => is_u64 l | _ => True end.

(** ** The invariant, relative to the bytes [W] accepted so far *)
Definition sent_flow (s : SendStream) : Z := bytesSent (sf_flow (ss_flow s)).
Definition send_limit (s : SendStream) : Z := sendWindow (sf_flow (ss_flow s)).

Definition send_inv (W : bytes) (s : SendStream) : Prop :=
  0 <= sentOffset s <= zlen W /\ writeOffset s = zlen W /\ zlen W < 2 ^ 64
  /\ 0 <= sent_flow s <= send_limit s /\ send_limit s < 2 ^ 64
  /\ match resetErr s with
     | None =>
         writeBuffer s = zdrop (sentOffset s) W /\ sent_flow s = zlen W
         /\ finQueued s = bool_decide (ss_state s = SendStateDataSent)
                          || bool_decide (ss_state s = SendStateDataRecvd)
         /\ (finQueued s = true -> ss_finalSize s = zlen W)
         /\ (finSent s = true -> finQueued s = true /\ sentOffset s = zlen W)
         /\ ss_state s <> SendStateResetSent /\ ss_state s <> SendStateResetRecvd
         /\ resetSent s = false /\ resetQueued s = false
     | Some _ =>
         writeBuffer s = [] /\ sent_flow s = sentOffset s
         /\ (ss_state s = SendStateResetSent \/ ss_state s = SendStateResetRecvd)
         /\ resetQueued s = true /\ resetFinalPos s = sentOffset s
     end.

(** The stream's share of the connection's counter. *)
Definition conn_ok (s : SendStream) (conn : option flow) : Prop :=
  match conn with
  | Some c => sent_flow s <= bytesSent c <= sendWindow c /\ sendWindow c < 2 ^ 64
  | None => True
  end.
Definition conn_delta (conn conn' : option flow) (d : Z) : Prop :=
  match conn, conn' with
  | Some c, Some c' => bytesSent c' = bytesSent c + d /\ sendWindow c <= sendWindow c' < 2 ^ 64
  | None, None => True
  | _, _ => False
  end.

Definition send_ok (s : SendStream) (conn : option flow) (W' : bytes) (s' : SendStream)
    (conn' : option flow) : Prop :=
  send_inv W' s' /\ conn_ok s' conn'
  /\ ValidateSendTransition (ss_state s) (ss_state s') = true
  /\ conn_delta conn conn' (sent_flow s' - sent_flow s).

Lemma conn_delta_refl s conn : conn_ok s conn -> conn_delta conn conn 0.
Proof. destruct conn; cbn; lia. Qed.
Lemma conn_delta_trans a b c n m : conn_delta a b n -> conn_delta b c m -> conn_delta a c (n + m).
Proof. destruct a, b, c; cbn; try done. lia. Qed.

Lemma send_ok_refl W s conn : send_inv W s -> conn_ok s conn -> send_ok s conn W s conn.
Proof.
  intros H1 H2. split_and!; [done|done|by destruct (ss_state s)|]. rewrite Z.sub_diag.
  by apply (conn_delta_refl s).
Qed.

(** The parts of the stream the invariant looks at. *)
Definition score (s : SendStream) :=
  (sentOffset s, writeOffset s, sent_flow s, send_limit s, resetErr s, writeBuffer s,
   (finQueued s, ss_state s, ss_finalSize s, finSent s, resetSent s, resetQueued s, resetFinalPos s)).

Lemma send_inv_score W s s' : score s' = score s -> send_inv W s -> send_inv W s'.
Proof.
  intros Hc. unfold score in Hc. injection Hc as E1 E2 E3 E4 E5 E6 E7 E8 E9 E10 E11 E12 E13.
  unfold send_inv. by rewrite E1, E2, E3, E4, E5, E6, E7, E8, E9, E10, E11, E12, E13.
Qed.

Lemma send_ok_score s conn W1 s1 conn1 s2 conn2 :
  send_ok s conn W1 s1 conn1 -> score s2 = score s1 -> conn_delta conn1 conn2 0 ->
  send_ok s conn W1 s2 conn2.
Proof.
  intros (H1 & H2 & H3 & H4) Hc Hd. pose proof Hc as Hc'. unfold score in Hc'.
  injection Hc' as E1 E2 E3 E4 E5 E6 E7 E8 E9 E10 E11 E12 E13. split_and!.
  - by eapply send_inv_score.
  - unfold conn_ok in *. rewrite E3. destruct conn1, conn2; cbn in *; try done. lia.
  - by rewrite E8.
  - rewrite E3, <- (Z.add_0_r (_ - _)). by eapply conn_delta_trans.
Qed.

Ltac destruct_send s :=
  destruct s as [sid hs fc st ctx wo so wb fq fs fsz rq rs rc rfp re ssr ssc sde ug inc wd dt dch cds wch cws];
  destruct fc as [fid [bs sw lbo dbq hsb sbw nw cw br hr rw rws mx q qw et eo]].

(** Evaluate the closed state tests. *)
Ltac eval_states :=
  repeat match goal with
  | |- context [@bool_decide ?P ?D] =>
      let v := eval vm_compute in (@bool_decide P D) in
      match v with true => idtac | false => idtac end; change (@bool_decide P D) with v
  | H : context [@bool_decide ?P ?D] |- _ =>
      let v := eval vm_compute in (@bool_decide P D) in
      match v with true => idtac | false => idtac end; change (@bool_decide P D) with v in H
  end.

(** Queueing [data] within the credit. *)
Lemma write_commit_ok W s conn data :
  send_inv W s -> conn_ok s conn -> resetErr s = None ->
  ss_state s <> SendStateDataSent -> ss_state s <> SendStateDataRecvd ->
  zlen data <= send_limit s - sent_flow s ->
  match conn with Some c => zlen data <= sendWindow c - bytesSent c | None => True end ->
  let '(s', conn', ev) := write_commit s conn data in
  send_ok s conn (W ++ data) s' conn' /\ resetErr s' = None
  /\ (ss_state s' = SendStateSend \/ ss_state s' = ss_state s) /\ ss_state s' <> SendStateReady.
Proof.
  intros Hinv Hc Hr Hd1 Hd2 Hl Hlc. pose proof (zlen_nonneg data).
  unfold write_commit, send_inv, conn_ok, send_ok, sent_flow, send_limit in *. destruct_send s.
  cbn -[u64 zlen Stream_AddBytesSent] in *. subst re.
  destruct Hinv as (I1 & I2 & I3 & I4 & I5 & J1 & J2 & J3 & J4 & J5 & J6 & J7 & J8 & J9).
  assert (Hfq : fq = false) by (rewrite J3; by destruct st). rewrite Hfq in *.
  assert (Hfs : fs = false) by (destruct fs; [|done]; by destruct (J5 eq_refl)). subst fs.
  assert (E1 : u64 (wo + zlen data) = zlen (W ++ data)).
  { rewrite zlen_app, u64_small; unfold is_u64; lia. }
  assert (E2 : u64 (bs + zlen data) = zlen (W ++ data)).
  { rewrite zlen_app, u64_small; unfold is_u64; lia. }
  assert (E3 : wb ++ data = zdrop so (W ++ data)).
  { rewrite J1. unfold zdrop. rewrite drop_app_le; [done|]. unfold zlen in *. lia. }
  assert (E4 : match conn with Some c => u64 (bytesSent c + zlen data) = bytesSent c + zlen data
               | None => True end) by (destruct conn; [apply u64_small; unfold is_u64; lia|done]).
  pose proof (zlen_app W data). unfold Stream_AddBytesSent, AddBytesSent.
  destruct st; try done; cbn -[u64 zlen]; rewrite ?E1, ?E2, ?E3;
    destruct conn as [[cbs csw]|]; cbn -[u64 zlen] in *; rewrite ?E4; unfold send_inv, sent_flow, send_limit; eval_states; cbn -[u64 zlen];
    split_and!; try done; try lia; auto.
Qed.

Lemma send_ok_trans s conn W1 s1 conn1 W2 s2 conn2 :
  send_ok s conn W1 s1 conn1 -> send_ok s1 conn1 W2 s2 conn2 ->
  ValidateSendTransition (ss_state s) (ss_state s2) = true -> send_ok s conn W2 s2 conn2.
Proof.
  intros (_ & _ & _ & H4) (K1 & K2 & _ & K4) Hv. split_and!; try done.
  replace (sent_flow s2 - sent_flow s)
    with ((sent_flow s1 - sent_flow s) + (sent_flow s2 - sent_flow s1)) by lia.
  by eapply conn_delta_trans.
Qed.

(** What the first critical section guarantees when it passes. *)
Lemma write_check_inv en W s conn sc cc eff :
  send_inv W s -> conn_ok s conn -> write_check en s conn = inr (sc, cc, eff) ->
  resetErr s = None /\ ss_state s <> SendStateDataSent /\ ss_state s <> SendStateDataRecvd
  /\ 0 <= eff <= send_limit s - sent_flow s
  /\ match conn with Some c => eff <= sendWindow c - bytesSent c | None => True end.
Proof.
  intros (_ & _ & _ & I4 & _) Hc. unfold write_check. destruct (resetErr s); [done|].
  destruct (ss_shutdownErr s); [done|].
  destruct (_ || _) eqn:Hst; [done|]. apply orb_false_iff in Hst as [Hs1 Hs2].
  apply bool_decide_eq_false in Hs1, Hs2.
  destruct (match writeDeadline s with Some t => now en >? t | None => false end); [done|].
  destruct (ss_ctx s); [done|]. unfold Stream_SendCreditAvailable, SendCreditAvailable, conn_ok,
    sent_flow, send_limit in *. intros Hcr. split_and!; try done;
    destruct conn as [[cbs csw]|]; cbn in *; injection Hcr as <- <- <-; repeat case_match; bool_simpl; lia.
Qed.

(** Registering the waiters leaves everything but the flow bookkeeping alone. *)
Lemma write_blocked_score s conn sc cc :
  conn_ok s conn ->
  let '(s', conn', ev, w) := write_blocked s conn sc cc in
  score s' = score s /\ conn_delta conn conn' 0.
Proof.
  intros Hc. unfold write_blocked, CheckAndQueueStreamDataBlocked, CheckAndQueueDataBlocked,
    Stream_RegisterSendWaiter, RegisterSendWaiter, conn_ok in *. destruct_send s.
  destruct conn as [[cbs csw]|]; cbn in *; unfold score, sent_flow, send_limit; repeat (case_match; cbn in * );
    simplify_eq; cbn in *; (split; [done|cbn; try lia; done]).
Qed.

Lemma chunk_len_range p eff lim : 0 <= eff -> 0 <= chunk_len p eff lim <= Z.min (zlen p) eff.
Proof.
  intros. pose proof (zlen_nonneg p). unfold chunk_len. destruct lim as [f|]; [|lia].
  repeat case_match; bool_simpl; lia.
Qed.

Lemma send_transition_send s :
  ss_state s <> SendStateDataSent -> ss_state s <> SendStateDataRecvd ->
  ss_state s <> SendStateResetSent -> ss_state s <> SendStateResetRecvd ->
  ValidateSendTransition (ss_state s) SendStateSend = true.
Proof. by destruct (ss_state s). Qed.

(** The bookkeeping a write leaves alone. *)
Definition untouched (s s' : SendStream) : Prop :=
  sentOffset s' = sentOffset s /\ finSent s' = finSent s /\ resetErr s' = resetErr s
  /\ (ss_state s' = ss_state s \/ ss_state s' = SendStateSend).

Lemma write_commit_untouched s conn data :
  let '(s', conn', ev) := write_commit s conn data in untouched s s'.
Proof.
  unfold write_commit, untouched, Stream_AddBytesSent. destruct_send s. cbn -[u64 zlen].
  destruct (bool_decide _); cbn; auto.
Qed.

(** No more bytes are accepted. *)
Definition closed (s : SendStream) : Prop := finQueued s = true \/ resetErr s <> None.

(** What [write_loop] promises, for the bytes [p] still to write and [t] written. *)
Definition loop_post (W : bytes) (s : SendStream) (conn : option flow) (p : bytes) (t : Z)
    (r : SendStream * option flow * list send_event * Z * option write_outcome) : Prop :=
  let '(s', conn', ev, total, o) := r in
  exists n, 0 <= n <= zlen p /\ total = t + n
    /\ send_ok s conn (W ++ ztake n p) s' conn' /\ untouched s s'
    /\ o <> None /\ (o = Some WDone -> n = zlen p) /\ (closed s -> n = 0).

Lemma untouched_refl s : untouched s s.
Proof. repeat split; auto. Qed.

(** Stopping with nothing written. *)
Lemma loop_stop W s conn p t s' conn' ev o :
  send_inv W s -> conn_ok s conn -> score s' = score s -> conn_delta conn conn' 0 ->
  (o = WDone -> p = []) -> loop_post W s conn p t (s', conn', ev, t, Some o).
Proof.
  intros Hi Hc Hs Hd Ho. pose proof (zlen_nonneg p). exists 0. change (ztake 0 p) with (@nil Z).
  rewrite app_nil_r. split_and!; try done; try lia.
  - eapply send_ok_score; [by apply send_ok_refl|done|done].
  - unfold score in Hs. injection Hs as ? ? ? ? ? ? ? ? ? ? ? ? ?. unfold untouched. auto.
  - intros [= ->]. by rewrite Ho.
Qed.

Lemma inv_open W s :
  send_inv W s -> resetErr s = None ->
  ss_state s <> SendStateDataSent -> ss_state s <> SendStateDataRecvd ->
  ss_state s <> SendStateResetSent /\ ss_state s <> SendStateResetRecvd /\ finQueued s = false.
Proof.
  intros (_ & _ & _ & _ & _ & Hm) Hr H1 H2. rewrite Hr in Hm.
  destruct Hm as (_ & _ & -> & _ & _ & ? & ? & _). split_and!; [done|done|].
  by destruct (ss_state s).
Qed.

(** One completed iteration followed by the rest of the loop. *)
Lemma loop_next W s conn p t k s1 conn1 ev1 r :
  send_inv W s -> resetErr s = None -> ss_state s <> SendStateDataSent ->
  ss_state s <> SendStateDataRecvd -> 0 < k <= zlen p ->
  send_ok s conn (W ++ ztake k p) s1 conn1 -> untouched s s1 -> ss_state s1 = SendStateSend ->
  loop_post (W ++ ztake k p) s1 conn1 (zdrop k p) (t + k) r ->
  loop_post W s conn p t
    (let '(s2, conn2, ev2, total, o) := r in (s2, conn2, ev1 ++ ev2, total, o)).
Proof.
  intros Hinv Hr Hd1 Hd2 Hk Hok Hu1 Hs1. destruct r as [[[[s2 conn2] ev2] total] o].
  intros (n & Hn & Ht & Hok2 & Hu2 & Ho & Hd & _). rewrite zlen_zdrop in * by lia.
  destruct (inv_open _ _ Hinv Hr Hd1 Hd2) as (Hd3 & Hd4 & Hq).
  rewrite <- app_assoc, ztake_split in Hok2 by lia.
  assert (Hs2 : ss_state s2 = SendStateSend)
    by (destruct Hu2 as (_ & _ & _ & [E|E]); by rewrite E).
  exists (k + n). split_and!; try lia; try done.
  - eapply send_ok_trans; [done|done|]. rewrite Hs2. by apply send_transition_send.
  - destruct Hu1 as (E1 & E2 & E3 & _), Hu2 as (F1 & F2 & F3 & _).
    unfold untouched. rewrite F1, F2, F3, Hs2. auto.
  - intros [?|?]; congruence.
Qed.

Lemma write_loop_ok en limiter fuel : forall s conn W p t,
  (length p <= fuel)%nat -> send_inv W s -> conn_ok s conn ->
  loop_post W s conn p t (write_loop fuel en limiter s conn p t).
Proof.
  induction fuel as [|fuel IH]; intros s conn W p t Hf Hinv Hc; cbn [write_loop].
  - replace p with (@nil Z) by (destruct p; [done|cbn in Hf; lia]). cbn [zlen length].
    apply loop_stop; auto. by apply (conn_delta_refl s).
  - pose proof (conn_delta_refl s conn Hc) as Hc0. pose proof (zlen_nonneg p).
    destruct (zlen p =? 0) eqn:Hz; bool_simpl; [apply loop_stop; auto using zlen_zero|].
    destruct (write_check en s conn) as [e|[[sc cc] eff]] eqn:Hw; [by apply loop_stop|].
    pose proof (write_check_inv _ _ _ _ _ _ _ Hinv Hc Hw) as (Hr & Hd1 & Hd2 & He1 & He2).
    destruct (eff =? 0) eqn:He; bool_simpl.
    + pose proof (write_blocked_score s conn sc cc Hc) as Hb.
      destruct (write_blocked s conn sc cc) as [[[s1 conn1] ev] w]. destruct Hb. by apply loop_stop.
    + set (k := chunk_len p eff _) in *.
      assert (Hk : 0 <= k <= Z.min (zlen p) eff) by (apply chunk_len_range; lia).
      destruct (k =? 0) eqn:Hk0; bool_simpl; [by apply loop_stop|].
      pose proof (zlen_ztake k p ltac:(lia)) as Hlk.
      pose proof (write_commit_ok W s conn (ztake k p) Hinv Hc Hr Hd1 Hd2 ltac:(lia)
        ltac:(destruct conn; lia)) as Hco.
      pose proof (write_commit_untouched s conn (ztake k p)) as Hu1.
      destruct (write_commit s conn (ztake k p)) as [[s1 conn1] ev1].
      destruct Hco as (Hok & Hr1 & Hst & Hnr). pose proof Hok as (Hinv1 & Hc1 & _ & _).
      destruct (inv_open _ _ Hinv Hr Hd1 Hd2) as (Hd3 & Hd4 & _).
      eapply loop_next; try done; [lia| |].
      * destruct Hst as [E|E]; [done|]. rewrite E in *. clear - Hd1 Hd2 Hd3 Hd4 Hnr. by destruct (ss_state s).
      * apply IH; [unfold zdrop; rewrite length_drop; lia|done|done].
Qed.

(** ** Popped frames *)

(** [frames] carry the bytes of [W] from [off] to [off'], each starting where the
    previous one stopped; a FIN is on the last frame only and stands at the end
    of [W].  [fin] and [fin'] say whether the FIN is out before and after. *)
Fixpoint frame_chain (W : bytes) (off : Z) (fin : bool) (frames : list popped) (off' : Z) (fin' : bool) : Prop :=
  match frames with
  | [] => off' = off /\ fin' = fin
  | f :: frames' =>
      fin = false /\ pf_offset f = off
      /\ pf_data f = ztake (zlen (pf_data f)) (zdrop off W) /\ off + zlen (pf_data f) <= zlen W
      /\ (pf_fin f = true -> off + zlen (pf_data f) = zlen W)
      /\ frame_chain W (off + zlen (pf_data f)) (pf_fin f) frames' off' fin'
  end.

Lemma frame_chain_app W fs1 : forall off fin off1 fin1 fs2 off2 fin2,
  frame_chain W off fin fs1 off1 fin1 -> frame_chain W off1 fin1 fs2 off2 fin2 ->
  frame_chain W off fin (fs1 ++ fs2) off2 fin2.
Proof.
  induction fs1 as [|f fs1 IH]; intros off fin off1 fin1 fs2 off2 fin2; cbn [frame_chain app].
  - by intros [-> ->].
  - intros (? & ? & ? & ? & ? & Hch1) Hch2. split_and!; eauto.
Qed.

Lemma ztake_zdrop_app (W R : bytes) off n :
  0 <= off -> 0 <= n -> off + n <= zlen W -> ztake n (zdrop off (W ++ R)) = ztake n (zdrop off W).
Proof.
  intros. unfold ztake, zdrop, zlen in *. rewrite drop_app_le by lia. apply take_app_le.
  rewrite length_drop. lia.
Qed.

(** Later writes do not disturb earlier frames, unless the FIN is out. *)
Lemma frame_chain_grow W R fs : forall off fin off' fin',
  0 <= off -> (fin' = true -> R = []) ->
  frame_chain W off fin fs off' fin' -> frame_chain (W ++ R) off fin fs off' fin'.
Proof.
  intros off fin off' fin' Hoff HR Hch. destruct fin'; [by rewrite HR, app_nil_r|]. revert off fin Hoff Hch.
  induction fs as [|f fs IH]; intros off fin Hoff; cbn [frame_chain]; [done|].
  intros (E1 & E2 & E3 & E4 & E5 & H). pose proof (zlen_nonneg (pf_data f)). split_and!; try done.
  - rewrite ztake_zdrop_app by lia. done.
  - rewrite zlen_app. pose proof (zlen_nonneg R). lia.
  - intros Hf. rewrite Hf in H. destruct fs; [by destruct H|by destruct H].
  - apply IH; [lia|done].
Qed.

(** The data of a chain is the stretch of [W] it covers. *)
Lemma frame_chain_data W fs : forall off fin off' fin',
  0 <= off -> frame_chain W off fin fs off' fin' ->
  off <= off' /\ concat (map pf_data fs) = ztake (off' - off) (zdrop off W).
Proof.
  induction fs as [|[d o fi] fs IH]; intros off fin off' fin' Hoff; cbn [frame_chain map concat].
  - intros [-> ->]. by rewrite Z.sub_diag.
  - cbn. intros (E1 & E2 & E3 & E4 & E5 & H). pose proof (zlen_nonneg d).
    apply IH in H as [Hle ->]; [|lia]. split; [lia|].
    set (n := zlen d) in *. rewrite E3.
    rewrite <- (zdrop_zdrop n off W) by lia. rewrite ztake_split by lia. f_equal. lia.
Qed.

(** Every frame is part of the stream [W], as the reassembly sees frames. *)
Lemma frame_chain_frames W fs : forall off fin off' fin',
  0 <= off -> frame_chain W off fin fs off' fin' ->
  Forall (fun f => frame_of_stream W (pf_offset f) (pf_data f) (pf_fin f)) fs.
Proof.
  induction fs as [|f fs IH]; intros off fin off' fin' Hoff; cbn [frame_chain]; [constructor|].
  intros (E1 & E2 & E3 & E4 & E5 & H). pose proof (zlen_nonneg (pf_data f)). constructor.
  - rewrite E2. unfold frame_of_stream. split_and!; auto; try lia.
  - eapply IH; [|done]. lia.
Qed.

(** ** Each operation *)
Definition step_post (W : bytes) (s : SendStream) (conn : option flow) (r : send_result) : Prop :=
  send_ok s conn (W ++ w_taken r) (w_stream r) (w_conn r)
  /\ frame_chain (W ++ w_taken r) (sentOffset s) (finSent s) (w_frames r)
       (sentOffset (w_stream r)) (finSent (w_stream r))
  /\ (closed s -> w_taken r = []).

(** An operation that neither takes bytes nor pops frames. *)
Lemma step_quiet W s conn s' conn' :
  send_ok s conn W s' conn' -> sentOffset s' = sentOffset s -> finSent s' = finSent s ->
  step_post W s conn (mkSRes s' conn' [] []).
Proof. intros. unfold step_post. cbn. by rewrite app_nil_r. Qed.

Lemma step_score W s conn s' :
  send_inv W s -> conn_ok s conn -> score s' = score s -> step_post W s conn (mkSRes s' conn [] []).
Proof.
  intros Hi Hc Hs. apply step_quiet.
  - eapply send_ok_score; [by apply send_ok_refl|done|by apply (conn_delta_refl s)].
  - unfold score in Hs. by injection Hs as ? ? ? ? ? ? ? ? ? ? ? ? ?.
  - unfold score in Hs. by injection Hs as ? ? ? ? ? ? ? ? ? ? ? ? ?.
Qed.

Lemma reset_with_ok W s conn code remote :
  send_inv W s -> conn_ok s conn -> SendState_IsTerminal (ss_state s) = false ->
  ss_state s <> SendStateResetSent ->
  let '(s', conn', ev) := reset_with s conn code remote in
  send_ok s conn W s' conn' /\ sentOffset s' = sentOffset s /\ finSent s' = finSent s
  /\ resetErr s' = Some (StreamError (ss_id s) code remote).
Proof.
  intros Hi Hc Ht Hn. unfold reset_with, send_ok, send_inv, sent_flow, send_limit, conn_ok in *.
  destruct_send s. cbn -[u64 zlen] in *. destruct Hi as (I1 & I2 & I3 & I4 & I5 & Hm).
  destruct re as [e|]; [by destruct Hm as (_ & _ & [->| ->] & _)|].
  destruct Hm as (J1 & J2 & _ & _ & _ & _ & _ & J8 & J9).
  assert (Hv : ValidateSendTransition st SendStateResetSent = true) by (by destruct st).
  destruct (wo >? so) eqn:Hw; bool_simpl; destruct conn as [[cbs csw]|];
    cbn -[u64 zlen] in *; unfold sent_flow; cbn -[zlen];
    repeat (case_test; bool_simpl; try lia); split_and!; auto; try lia; done.
Qed.

Lemma send_Close_ok W s conn :
  send_inv W s -> conn_ok s conn ->
  let '(s', ev, r) := send_Close s in
  send_ok s conn W s' conn /\ sentOffset s' = sentOffset s /\ finSent s' = finSent s.
Proof.
  intros Hi Hc. pose proof (send_ok_refl _ _ _ Hi Hc) as Hrefl. unfold send_Close.
  destruct (resetErr s) eqn:Hr; [done|]. destruct (_ || _) eqn:Hst; [done|].
  apply orb_false_iff in Hst as [Hs1 Hs2]. apply bool_decide_eq_false in Hs1, Hs2.
  destruct (inv_open _ _ Hi Hr Hs1 Hs2) as (Hd3 & Hd4 & _).
  pose proof (conn_delta_refl _ _ Hc). destruct Hrefl as (_ & _ & _ & Hdl).
  unfold send_ok, send_inv, sent_flow, send_limit, conn_ok in *. destruct_send s.
  cbn -[zlen] in *. subst re.
  destruct Hi as (I1 & I2 & I3 & I4 & I5 & J1 & J2 & J3 & J4 & J5 & J6 & J7 & J8 & J9).
  split_and!; auto; try done; try lia; by destruct st.
Qed.

Lemma HandleAck_ok W s conn all :
  send_inv W s -> conn_ok s conn -> step_post W s conn (mkSRes (fst (HandleAck s all)) conn [] []).
Proof.
  intros Hi Hc. unfold HandleAck.
  destruct (all && finSent s && bool_decide (ss_state s = SendStateDataSent)) eqn:Ht;
    [|apply step_quiet; [by apply send_ok_refl|done|done]].
  bool_simpl. pose proof (conn_delta_refl _ _ Hc).
  apply step_quiet; [|done|done]. unfold send_ok, send_inv, sent_flow, send_limit, conn_ok in *.
  destruct_send s. cbn -[zlen] in *. rewrite bool_decide_eq_true in *. subst st.
  destruct Hi as (I1 & I2 & I3 & I4 & I5 & Hm). rewrite Z.sub_diag. split_and!; try done; try lia.
  destruct re; [by destruct Hm as (_ & _ & [?|?] & _)|].
  destruct Hm as (J1 & J2 & J3 & J4 & J5 & J6 & J7 & J8 & J9). by split_and!.
Qed.

Lemma HandleResetAck_ok W s conn :
  send_inv W s -> conn_ok s conn -> step_post W s conn (mkSRes (fst (HandleResetAck s)) conn [] []).
Proof.
  intros Hi Hc. unfold HandleResetAck.
  destruct (bool_decide (ss_state s = SendStateResetSent)) eqn:Ht;
    [|apply step_quiet; [by apply send_ok_refl|done|done]].
  apply bool_decide_eq_true in Ht. pose proof (conn_delta_refl _ _ Hc).
  apply step_quiet; [|done|done]. unfold send_ok, send_inv, sent_flow, send_limit, conn_ok in *.
  destruct_send s. cbn -[zlen] in *. subst st.
  destruct Hi as (I1 & I2 & I3 & I4 & I5 & Hm). rewrite Z.sub_diag. split_and!; try done; try lia.
  destruct re; [|by destruct Hm as (_ & _ & _ & _ & _ & ? & _)].
  destruct Hm as (J1 & J2 & J3 & J4 & J5). split_and!; auto.
Qed.

Lemma GetReset_ok W s conn :
  send_inv W s -> conn_ok s conn ->
  step_post W s conn (mkSRes (fst (GetResetStreamFrame s)) conn [] []).
Proof.
  intros Hi Hc. unfold GetResetStreamFrame.
  destruct (resetQueued s) eqn:Hq; [|apply step_quiet; [by apply send_ok_refl|done|done]].
  pose proof (conn_delta_refl _ _ Hc). apply step_quiet; [|done|done].
  unfold send_ok, send_inv, sent_flow, send_limit, conn_ok in *. destruct_send s. cbn -[zlen] in *.
  destruct Hi as (I1 & I2 & I3 & I4 & I5 & Hm). rewrite Z.sub_diag.
  split_and!; try done; try lia; [|by destruct st].
  destruct re; [done|]. destruct Hm as (_ & _ & _ & _ & _ & _ & _ & _ & J9). congruence.
Qed.

Lemma UpdateSendWindow_ok W s conn limit :
  send_inv W s -> conn_ok s conn -> is_u64 limit ->
  step_post W s conn (mkSRes (send_UpdateSendWindow s limit) conn [] [])
  /\ step_post W s conn
       (mkSRes s (match conn with Some c => Some (UpdateSendWindow c limit) | None => None end) [] []).
Proof.
  intros Hi Hc Hl. pose proof (conn_delta_refl _ _ Hc) as Hd0.
  assert (Hvr : ValidateSendTransition (ss_state s) (ss_state s) = true) by (by destruct (ss_state s)).
  split; (apply step_quiet; [|unfold send_UpdateSendWindow; destruct_send s; cbn; done..]).
  - unfold send_UpdateSendWindow, Stream_UpdateSendWindow, UpdateSendWindow, broadcastWakeWaiters,
      send_ok, send_inv, sent_flow, send_limit, conn_ok, is_u64 in *. destruct_send s.
    cbn -[zlen] in *. case_test; bool_simpl; cbn -[zlen]; rewrite Z.sub_diag;
      destruct Hi as (I1 & I2 & I3 & I4 & I5 & Hm); split_and!; try done; lia.
  - unfold send_ok. rewrite Z.sub_diag. split_and!; try done;
      destruct conn as [[cbs csw]|]; try done; unfold UpdateSendWindow, conn_ok, is_u64 in *;
      cbn in *; case_test; bool_simpl; cbn; lia.
Qed.

Lemma PopStreamFrame_ok W s conn m :
  send_inv W s -> conn_ok s conn ->
  let '(s', f) := PopStreamFrame s m in
  step_post W s conn (mkSRes s' conn [] (option_list f)).
Proof.
  intros Hi Hc. pose proof (conn_delta_refl _ _ Hc) as Hd0. unfold PopStreamFrame.
  destruct (resetSent s || _ || _) eqn:Hrs; [apply step_quiet; [by apply send_ok_refl|done|done]|].
  destruct ((zlen (writeBuffer s) =? 0) && _) eqn:He; [apply step_quiet; [by apply send_ok_refl|done|done]|].
  assert (Hr : resetErr s = None).
  { destruct Hi as (_ & _ & _ & _ & _ & Hm). destruct (resetErr s); [|done].
    apply orb_false_iff in Hrs as [Hrs1 Hrs2]. apply orb_false_iff in Hrs1 as [_ Hrs1].
    apply bool_decide_eq_false in Hrs1, Hrs2. by destruct Hm as (_ & _ & [?|?] & _). }
  clear Hrs. unfold step_post, send_ok, send_inv, sent_flow, send_limit, conn_ok in *. destruct_send s.
  cbn -[u64 zlen] in *. subst re.
  destruct Hi as (I1 & I2 & I3 & I4 & I5 & J1 & J2 & J3 & J4 & J5 & J6 & J7 & J8 & J9).
  assert (Hv : ValidateSendTransition st st = true) by (by destruct st).
  assert (Hwl : zlen wb = zlen W - so) by (rewrite J1; apply zlen_zdrop; lia).
  assert (Hfs : fs = false).
  { destruct fs; [|done]. destruct J5 as [-> E]; [done|].
    rewrite Hwl, E, Z.sub_diag in He. discriminate He. }
  subst fs. pose proof (Z.le_min_l (zlen wb) m) as Hle. set (take := Z.min (zlen wb) m) in *.
  rewrite app_nil_r. destruct (take >? 0) eqn:Ht; bool_simpl; cbn -[u64 zlen].
  - rewrite (u64_small (so + take)) by (unfold is_u64; lia).
    pose proof (zlen_ztake take wb ltac:(lia)) as Hlt. pose proof (zlen_zdrop take wb ltac:(lia)) as Hld.
    assert (Hzd : zdrop take wb = zdrop (so + take) W) by (rewrite J1; apply zdrop_zdrop; lia).
    assert (Hdt : ztake take wb = ztake take (zdrop so W)) by (by rewrite J1).
    destruct (fq && _ && _) eqn:Hf; bool_simpl; cbn -[zlen]; rewrite Hlt, Z.sub_diag;
      split_and!; try done; try lia. split; [done|lia].
  - change (zlen (@nil Z)) with 0. rewrite Z.add_0_r.
    destruct (fq && _ && _) eqn:Hf; bool_simpl; cbn -[zlen]; change (zlen (@nil Z)) with 0;
      rewrite Z.sub_diag, ?Z.add_0_r; split_and!; try done; try lia. split; [done|lia].
Qed.

Lemma TryWriteAll_commit s conn p :
  let '(s', conn', ev, r) := TryWriteAll s conn p in
  match r with
  | Ok _ => zlen p = 0 /\ s' = s /\ conn' = conn
      \/ (s', conn', ev) = write_commit s conn p /\ resetErr s = None
         /\ ss_state s <> SendStateDataSent /\ ss_state s <> SendStateDataRecvd
         /\ zlen p <= snd (Stream_SendCreditAvailable (ss_flow s) conn)
  | _ => s' = s /\ conn' = conn
  end.
Proof.
  unfold TryWriteAll. destruct (zlen p =? 0) eqn:Hz; bool_simpl; [by left|].
  destruct (resetErr s) eqn:Hr; [done|]. destruct (ss_shutdownErr s); [done|].
  destruct (_ || _) eqn:Hst; [done|]. apply orb_false_iff in Hst as [Hs1 Hs2].
  apply bool_decide_eq_false in Hs1, Hs2.
  destruct (Stream_SendCreditAvailable (ss_flow s) conn) as [[sc cc] eff] eqn:Hcr.
  destruct (eff <? zlen p) eqn:He; bool_simpl; [done|].
  unfold write_commit, Stream_AddBytesSent. cbn. right. by split_and!.
Qed.

Lemma credit_bounds W s conn :
  send_inv W s -> conn_ok s conn ->
  let eff := snd (Stream_SendCreditAvailable (ss_flow s) conn) in
  0 <= eff <= send_limit s - sent_flow s
  /\ match conn with Some c => eff <= sendWindow c - bytesSent c | None => True end.
Proof.
  intros (_ & _ & _ & I4 & _) Hc. unfold Stream_SendCreditAvailable, SendCreditAvailable, conn_ok,
    sent_flow, send_limit in *. destruct_send s. destruct conn as [[cbs csw]|]; cbn in *;
    repeat case_match; bool_simpl; lia.
Qed.

Lemma TryWriteAll_ok W s conn p :
  send_inv W s -> conn_ok s conn ->
  let '(s', conn', ev, r) := TryWriteAll s conn p in
  step_post W s conn (mkSRes s' conn' (match r with Ok _ => p | _ => [] end) []).
Proof.
  intros Hi Hc. pose proof (TryWriteAll_commit s conn p) as H. pose proof (credit_bounds W s conn Hi Hc) as Hb.
  destruct (TryWriteAll s conn p) as [[[s' conn'] ev] r]. cbn zeta in Hb.
  assert (Hq : s' = s /\ conn' = conn -> step_post W s conn (mkSRes s' conn' [] [])).
  { intros [-> ->]. apply step_quiet; [by apply send_ok_refl|done|done]. }
  destruct r as [[]|e|]; try by apply Hq.
  destruct H as [(Hz & H)|(Hco & Hr & Hs1 & Hs2 & Hl)]; [apply zlen_zero in Hz as ->; by apply Hq|].
  pose proof (write_commit_ok W s conn p Hi Hc Hr Hs1 Hs2 ltac:(lia) ltac:(destruct conn; lia)) as Hok.
  pose proof (write_commit_untouched s conn p) as Hu. rewrite <- Hco in Hok, Hu.
  destruct Hok as (Hok & _), Hu as (Hu1 & Hu2 & _). unfold step_post. cbn. rewrite Hu1, Hu2.
  destruct (inv_open _ _ Hi Hr Hs1 Hs2) as (_ & _ & Hf). split_and!; try done. intros [?|?]; congruence.
Qed.

Lemma finSent_closed W s : send_inv W s -> finSent s = true -> closed s.
Proof.
  intros (_ & _ & _ & _ & _ & Hm) Hf. unfold closed. destruct (resetErr s); [by right|left].
  by apply Hm.
Qed.

(** The guard [CancelWrite] and [HandleStopSending] share. *)
Lemma reset_guard_ok W s s0 conn code remote :
  send_inv W s -> conn_ok s conn -> score s0 = score s ->
  step_post W s conn
    (let '(s', conn', ev) :=
       if SendState_IsTerminal (ss_state s) || bool_decide (ss_state s = SendStateResetSent)
       then (s, conn, []) else reset_with s0 conn code remote in
     mkSRes s' conn' [] []).
Proof.
  intros Hi Hc Hs. destruct (SendState_IsTerminal (ss_state s) || _) eqn:Ht;
    [apply step_quiet; [by apply send_ok_refl|done|done]|].
  apply orb_false_iff in Ht as [Ht1 Ht2]. apply bool_decide_eq_false in Ht2.
  pose proof Hs as Hs'. unfold score in Hs'. injection Hs' as E1 E2 E3 E4 E5 E6 E7 E8 E9 E10 E11 E12 E13.
  pose proof (reset_with_ok W s0 conn code remote) as H. rewrite E8 in H.
  destruct (reset_with s0 conn code remote) as [[s' conn'] ev].
  destruct H as ((H1 & H2 & H3 & H4) & Hso & Hfs & _); try done.
  { by eapply send_inv_score. }
  { unfold conn_ok in *. by rewrite E3. }
  apply step_quiet; [|congruence|congruence]. rewrite E3 in H4. split_and!; try done. by rewrite E8 in H3.
Qed.

Lemma send_step_ok W s conn o :
  send_inv W s -> conn_ok s conn -> send_op_ok o -> step_post W s conn (send_step s conn o).
Proof.
  intros Hi Hc Ho.
  destruct o; cbn [send_step send_op_ok] in *.
  - pose proof (write_loop_ok en limiter (length p) s conn W p 0 ltac:(lia) Hi Hc) as H.
    unfold WriteWithLimit. destruct (write_loop _ _ _ _ _ _ _) as [[[[s' conn'] ev] n0] out].
    destruct H as (n & Hn & -> & Hok & (Hu1 & Hu2 & _) & _ & _ & Hq). rewrite Z.add_0_l.
    unfold step_post. cbn. rewrite Hu1, Hu2. split_and!; try done. by intros ->%Hq.
  - pose proof (TryWriteAll_ok W s conn p Hi Hc) as H.
    by destruct (TryWriteAll s conn p) as [[[s' conn'] ev] r].
  - pose proof (send_Close_ok W s conn Hi Hc) as H. destruct (send_Close s) as [[s' ev] r].
    destruct H as (? & ? & ?). by apply step_quiet.
  - by apply (reset_guard_ok W s s conn code false).
  - apply (reset_guard_ok W s _ conn code true); [done|done|by destruct_send s].
  - by apply UpdateSendWindow_ok.
  - by apply UpdateSendWindow_ok.
  - pose proof (PopStreamFrame_ok W s conn maxBytes Hi Hc) as H.
    by destruct (PopStreamFrame s maxBytes) as [s' f].
  - by apply HandleAck_ok.
  - by apply HandleResetAck_ok.
  - by apply GetReset_ok.
  - apply step_score; [done|done|]. unfold send_GetStreamDataBlockedFrame, GetStreamDataBlockedFrame,
      GetDataBlockedFrame, score, sent_flow, send_limit. destruct_send s. cbn.
    destruct dbq; [done|]. by destruct (_ && _).
  - apply step_score; [done|done|]. unfold SetWriteDeadline, ss_close_deadline. destruct_send s.
    cbn. by repeat (case_match; cbn).
  - by apply step_score.
  - by apply step_score.
Qed.

Lemma send_run_ok ops : forall W s conn,
  send_inv W s -> conn_ok s conn -> Forall send_op_ok ops ->
  let r := send_run s conn ops in
  send_inv (W ++ w_taken r) (w_stream r) /\ conn_ok (w_stream r) (w_conn r)
  /\ frame_chain (W ++ w_taken r) (sentOffset s) (finSent s) (w_frames r)
       (sentOffset (w_stream r)) (finSent (w_stream r))
  /\ conn_delta conn (w_conn r) (sent_flow (w_stream r) - sent_flow s)
  /\ (finSent s = true -> w_taken r = []).
Proof.
  induction ops as [|o ops IH]; intros W s conn Hi Hc Hops; cbn zeta.
  - cbn. rewrite app_nil_r, Z.sub_diag. split_and!; try done. by apply (conn_delta_refl s).
  - inversion Hops as [|? ? Ho Hops']; subst.
    pose proof (send_step_ok W s conn o Hi Hc Ho) as ((H1 & H2 & H3 & H4) & Hch & Hq).
    cbn [send_run]. destruct (send_step s conn o) as [s1 conn1 t1 f1]. cbn in *.
    specialize (IH (W ++ t1) s1 conn1 H1 H2 Hops'). cbn zeta in IH.
    destruct (send_run s1 conn1 ops) as [s2 conn2 t2 f2]. cbn in *.
    destruct IH as (K1 & K2 & Kch & K4 & K5). rewrite <- app_assoc in *. split_and!; try done.
    + eapply frame_chain_app; [|done]. rewrite app_assoc. apply frame_chain_grow; [|by apply K5|done].
      by destruct Hi as (? & _); lia.
    + replace (sent_flow s2 - sent_flow s)
        with ((sent_flow s1 - sent_flow s) + (sent_flow s2 - sent_flow s1)) by lia.
      by eapply conn_delta_trans.
    + intros Hf. rewrite Hq by (by apply (finSent_closed W)). apply K5.
      destruct f1; [by destruct Hch as [_ ->]|by destruct Hch; congruence].
Qed.

(** ** After a reset *)
Definition reset_params (s : SendStream) := (resetErr s, resetQueued s, resetCode s, resetFinalPos s).

Lemma reset_step W s conn o :
  send_inv W s -> resetErr s <> None ->
  let r := send_step s conn o in
  w_taken r = [] /\ w_frames r = [] /\ reset_params (w_stream r) = reset_params s.
Proof.
  intros (_ & _ & _ & _ & _ & Hm) Hr. destruct (resetErr s) as [e|] eqn:He; [clear Hr|done].
  destruct Hm as (Hb & _ & Hst & Hq & _). destruct o; cbn [send_step].
  - unfold WriteWithLimit. destruct p as [|x p]; cbn [length write_loop]; [done|].
    unfold write_check. rewrite He. by destruct (zlen _ =? 0).
  - unfold TryWriteAll. rewrite He. destruct (zlen p =? 0) eqn:Hz; bool_simpl; [|done].
    by apply zlen_zero in Hz as ->.
  - unfold send_Close. by rewrite He.
  - unfold CancelWrite. by destruct Hst as [-> | ->].
  - unfold HandleStopSending. by destruct Hst as [-> | ->].
  - done.
  - done.
  - unfold PopStreamFrame. destruct Hst as [-> | ->]; eval_states; by rewrite ?orb_true_r.
  - unfold HandleAck. by destruct (_ && _ && _).
  - unfold HandleResetAck. by destruct (bool_decide _).
  - unfold GetResetStreamFrame. by destruct (resetQueued s).
  - unfold send_GetStreamDataBlockedFrame. by destruct (GetStreamDataBlockedFrame _).
  - unfold SetWriteDeadline, ss_close_deadline. destruct_send s. cbn.
    by repeat (case_match; cbn).
  - done.
  - done.
Qed.

Lemma reset_run ops : forall W s conn,
  send_inv W s -> conn_ok s conn -> resetErr s <> None -> Forall send_op_ok ops ->
  let r := send_run s conn ops in
  w_taken r = [] /\ w_frames r = [] /\ reset_params (w_stream r) = reset_params s.
Proof.
  induction ops as [|o ops IH]; intros W s conn Hi Hc Hr Hops; cbn zeta; [done|].
  inversion Hops as [|? ? Ho Hops']; subst.
  pose proof (send_step_ok W s conn o Hi Hc Ho) as ((H1 & H2 & _) & _).
  pose proof (reset_step W s conn o Hi Hr) as (T & F & P). cbn [send_run].
  destruct (send_step s conn o) as [s1 conn1 t1 f1]. cbn in *. subst t1 f1.
  assert (Hr1 : resetErr s1 <> None) by (unfold reset_params in P; congruence).
  specialize (IH (W ++ []) s1 conn1 H1 H2 Hr1 Hops'). cbn zeta in IH. destruct IH as (T' & F' & P').
  rewrite T', F', P'. by rewrite P.
Qed.

(** What the resetting step itself does. *)
Lemma reset_step_sets W s conn r code o :
  r = send_step s conn o -> send_inv W s -> conn_ok s conn -> SendState_IsTerminal (ss_state s) = false ->
  ss_state s <> SendStateResetSent -> o = WCancel code \/ o = WStop code ->
  send_inv W (w_stream r) /\ conn_ok (w_stream r) (w_conn r)
  /\ resetErr (w_stream r) = Some (StreamError (ss_id s) code (match o with WStop _ => true | _ => false end))
  /\ resetCode (w_stream r) = code /\ resetFinalPos (w_stream r) = sentOffset s
  /\ conn_delta conn (w_conn r) (sentOffset s - zlen W).
Proof.
  intros -> Hi Hc Ht Hn Ho.
  assert (Hok : send_op_ok o) by (by destruct Ho as [-> | ->]).
  pose proof (send_step_ok W s conn o Hi Hc Hok) as ((K1 & K2 & _ & K4) & _).
  assert (Hre : resetErr s = None /\ sent_flow s = zlen W).
  { destruct Hi as (_ & _ & _ & _ & _ & Hm). destruct (resetErr s); [|by destruct Hm as (_ & ? & _)].
    by destruct Hm as (_ & _ & [E|E] & _); rewrite E in *. }
  destruct Hre as [Hre Hsf].
  assert (Hst : send_step s conn o =
    let '(s', conn', ev) := reset_with
      (match o with WStop _ => { s with stopSendingReceived := true; ss_stopSendingCode := code } | _ => s end)
      conn code (match o with WStop _ => true | _ => false end) in mkSRes s' conn' [] []).
  { destruct Ho as [-> | ->]; cbn [send_step]; unfold CancelWrite, HandleStopSending;
      rewrite Ht, bool_decide_eq_false_2 by done; reflexivity. }
  assert (Hta : w_taken (send_step s conn o) = []) by (rewrite Hst; by destruct (reset_with _ _ _ _) as [[??]?]).
  rewrite Hta, app_nil_r in K1.
  assert (Hp : reset_params (w_stream (send_step s conn o)) =
    (Some (StreamError (ss_id s) code (match o with WStop _ => true | _ => false end)), true, code, sentOffset s)
    /\ sentOffset (w_stream (send_step s conn o)) = sentOffset s).
  { rewrite Hst. unfold reset_with. destruct_send s.
    destruct Ho as [-> | ->]; cbn; by destruct (wo >? so). }
  destruct Hp as [Hp Hso]. unfold reset_params in Hp. injection Hp as P1 P2 P3 P4. split_and!; try done.
  replace (sentOffset s - zlen W) with (sent_flow (w_stream (send_step s conn o)) - sent_flow s); [done|].
  destruct K1 as (_ & _ & _ & _ & _ & Hm). rewrite P1 in Hm. destruct Hm as (_ & Hm & _). lia.
Qed.

(** ** Fresh streams *)
Definition fresh (s : SendStream) (conn : option flow) : Prop :=
  s = NewSendStream (ss_id s) (ss_hasSender s) (ss_flow s) (ss_ctx s)
  /\ sent_flow s = 0 /\ 0 <= send_limit s < 2 ^ 64
  /\ match conn with
     | Some c => 0 <= bytesSent c <= sendWindow c /\ sendWindow c < 2 ^ 64
     | None => True
     end.

Lemma fresh_inv s conn : fresh s conn -> send_inv [] s /\ conn_ok s conn.
Proof.
  intros (-> & H1 & H2 & H3). unfold send_inv, conn_ok, sent_flow, send_limit in *.
  cbn -[zlen] in *. change (zlen (@nil Z)) with 0. rewrite H1.
  split; [split_and!; try done; lia|]. destruct conn; [lia|done].
Qed.

Lemma fresh_start s conn : fresh s conn -> sentOffset s = 0 /\ finSent s = false.
Proof. by intros (-> & _). Qed.

Lemma write_check_credit en s conn r :
  write_check en s conn = inr r -> r = Stream_SendCreditAvailable (ss_flow s) conn.
Proof.
  unfold write_check. destruct (resetErr s); [done|]. destruct (ss_shutdownErr s); [done|].
  destruct (_ || _); [done|]. destruct (match writeDeadline s with Some _ => _ | None => _ end); [done|].
  destruct (ss_ctx s); [done|]. by intros [= <-].
Qed.

(** A write blocks only without credit, with its waiters registered. *)
Lemma write_loop_blocked en limiter fuel : forall s conn p t,
  let '(s', conn', ev, total, o) := write_loop fuel en limiter s conn p t in
  forall sw cw, o = Some (WBlocked (sw, cw)) ->
  snd (Stream_SendCreditAvailable (ss_flow s') conn') = 0
  /\ sw ∈ sendBlockedWaiters (sf_flow (ss_flow s'))
  /\ match conn', cw with
     | Some c, Some ch => ch ∈ sendBlockedWaiters c
     | None, None => True
     | _, _ => False
     end.
Proof.
  induction fuel as [|fuel IH]; intros s conn p t; cbn [write_loop]; destruct (zlen p =? 0); try done.
  destruct (write_check en s conn) as [e|[[sc cc] eff]] eqn:Hw; [done|].
  destruct (eff =? 0) eqn:He; bool_simpl.
  - assert (Hcr : snd (Stream_SendCreditAvailable (ss_flow s) conn) = 0).
    { apply write_check_credit in Hw. by rewrite <- Hw. }
    clear Hw. unfold write_blocked, CheckAndQueueStreamDataBlocked, CheckAndQueueDataBlocked,
      Stream_RegisterSendWaiter, RegisterSendWaiter, Stream_SendCreditAvailable, SendCreditAvailable in *.
    destruct_send s. destruct conn as [[cbs csw]|]; cbn in *; repeat (case_match; cbn in * );
      simplify_eq; cbn in *; intros sw' cw' [= <- <-];
      (split_and!; [lia|apply elem_of_app; right; constructor..|]; try done;
       apply elem_of_app; right; constructor).
  - destruct (_ =? 0); [done|]. destruct (write_commit _ _ _) as [[s1 conn1] ev1].
    specialize (IH s1 conn1 (zdrop (chunk_len p eff
      match limiter with Some f => Some (f t) | None => None end) p) (t + chunk_len p eff
      match limiter with Some f => Some (f t) | None => None end)).
    by destruct (write_loop _ _ _ _ _ _ _) as [[[[s2 conn2] ev2] total] o].
Qed.

(** Coverage of a chain. *)
Lemma frame_chain_cover W fs : forall off fin off' fin' x,
  frame_chain W off fin fs off' fin' -> off <= x < off' ->
  exists f, f ∈ fs /\ pf_offset f <= x < pf_offset f + zlen (pf_data f).
Proof.
  induction fs as [|f fs IH]; intros off fin off' fin' x; cbn [frame_chain]; [lia|].
  intros (E1 & E2 & E3 & E4 & E5 & H) Hx.
  destruct (decide (x < off + zlen (pf_data f))).
  - exists f. rewrite E2. split; [constructor|lia].
  - destruct (IH _ _ _ _ x H ltac:(lia)) as (g & Hg & Hgx). exists g. split; [by constructor|done].
Qed.

Lemma frame_chain_fin W fs : forall off off',
  frame_chain W off false fs off' true ->
  off' = zlen W /\ exists f, last fs = Some f /\ pf_fin f = true.
Proof.
  induction fs as [|f fs IH]; intros off off'; cbn [frame_chain]; [by intros [_ ?]|].
  intros (E1 & E2 & E3 & E4 & E5 & H). destruct (pf_fin f) eqn:Hf.
  - destruct fs; [|by destruct H]. destruct H as [-> _]. split; [auto|]. exists f. by rewrite Hf.
  - apply IH in H as (-> & g & Hg & Hgf). split; [done|]. exists g. split; [|done].
    destruct fs; [done|]. by rewrite last_cons_cons.
Qed.

(** Only the last frame of a chain can carry FIN. *)
Lemma frame_chain_fins W fs : forall off fin off' fin',
  frame_chain W off fin fs off' fin' ->
  forall i f, fs !! i = Some f -> pf_fin f = true -> S i = length fs /\ fin' = true.
Proof.
  induction fs as [|g fs IH]; intros off fin off' fin'; cbn [frame_chain]; [done|].
  intros (E1 & E2 & E3 & E4 & E5 & H) [|i] f Hi Hf; cbn in Hi.
  - injection Hi as ->. rewrite Hf in H. destruct fs; [|by destruct H]. by destruct H as [_ ->].
  - cbn [length]. destruct (IH _ _ _ _ H i f Hi Hf). split; [lia|done].
Qed.

(** ** Properties *)

(** After any sequence of operations on a fresh stream, [WriteWithLimit]
    returns: it takes the first [n] bytes of [p] and appends exactly them to the
    stream, it reports success only when [n] is all of [p], and when it blocks
    there is no credit left and its waiter is registered with both controllers.
    The state it leaves is within both flow-control limits. *)
Theorem send_write_total (s : SendStream) (conn : option flow) (ops : list send_op)
    (en : env) (p : bytes) (limiter : option (Z -> Z -> Z)) :
  fresh s conn -> Forall send_op_ok ops ->
  let r := send_run s conn ops in
  let '(s', conn', ev, n, o) := WriteWithLimit en (w_stream r) (w_conn r) p limiter in
  0 <= n <= zlen p /\ o <> None /\ (o = Some WDone -> n = zlen p)
  /\ writeOffset s' = writeOffset (w_stream r) + n
  /\ sent_flow s' <= send_limit s' /\ conn_ok s' conn'
  /\ forall sw cw, o = Some (WBlocked (sw, cw)) ->
     snd (Stream_SendCreditAvailable (ss_flow s') conn') = 0
     /\ sw ∈ sendBlockedWaiters (sf_flow (ss_flow s'))
     /\ match conn', cw with
        | Some c, Some ch => ch ∈ sendBlockedWaiters c
        | None, None => True
        | _, _ => False
        end.
Proof.
  intros Hf Hops r. destruct (fresh_inv _ _ Hf) as [Hi Hc].
  destruct (send_run_ok ops [] s conn Hi Hc Hops) as (Hi' & Hc' & _). fold r in Hi', Hc'. cbn [app] in Hi'.
  pose proof (write_loop_ok en limiter (length p) _ _ _ p 0 ltac:(lia) Hi' Hc') as H.
  pose proof (write_loop_blocked en limiter (length p) (w_stream r) (w_conn r) p 0) as Hb.
  unfold WriteWithLimit. destruct (write_loop _ _ _ _ _ _ _) as [[[[s' conn'] ev] n0] o].
  destruct H as (n & Hn & -> & ((K1 & K2 & _ & K4 & _) & Kc & _) & _ & Ho & Hd & _).
  destruct Hi' as (_ & E & _). rewrite zlen_app, zlen_ztake in K2 by lia.
  split_and!; try done; lia.
Qed.

Definition sample_conn : flow := NewConnectionFlowController sample_env 0 0 6.
Definition sample_stream : SendStream :=
  NewSendStream 4 true (NewStreamFlowController sample_env 4 0 0 8) None.
Definition sample_sends : list send_op :=
  [WWrite sample_env [1; 2; 3] None; WPop 2; WTry [4; 5; 6; 7]; WWrite sample_env [4; 5; 6; 7] None;
   WMaxData 20; WWrite sample_env [7] None; WClose; WPop 3; WPop 100; WPop 100].

Lemma sample_fresh : fresh sample_stream (Some sample_conn).
Proof. split; [done|]. vm_compute. by repeat split. Qed.
Lemma sample_sends_ok : Forall send_op_ok sample_sends.
Proof. unfold sample_sends. repeat constructor; vm_compute; congruence. Qed.

Lemma send_write_total_witness :
  let r := send_run sample_stream (Some sample_conn) [WWrite sample_env [1; 2; 3] None] in
  let '(s', conn', ev, n, o) :=
    WriteWithLimit sample_env (w_stream r) (w_conn r) [4; 5; 6; 7] None in
  (n = 3 /\ o = Some (WBlocked (0, Some 0))) /\ conn_ok s' conn'.
Proof.
  pose proof (send_write_total sample_stream (Some sample_conn) [WWrite sample_env [1; 2; 3] None]
    sample_env [4; 5; 6; 7] None sample_fresh ltac:(repeat constructor)) as H.
  cbn zeta in H |- *.
  destruct (WriteWithLimit _ _ _ _ _) as [[[[s' conn'] ev] n] o] eqn:E.
  split; [vm_compute in E; by injection E as <- <- <- <- <-|]. exact (proj1 (proj2 (proj2 (proj2 (proj2 (proj2 H)))))).
Defined.

(** C11: the frames popped from a fresh stream are the bytes accepted from the
    application: each frame starts where the previous one ended, their data put
    together is the accepted bytes up to the sent offset, and a FIN, if popped,
    is on the last frame, at the end of everything accepted, when the whole
    stream has been popped. *)
Theorem send_stream_frames (s : SendStream) (conn : option flow) (ops : list send_op) :
  fresh s conn -> Forall send_op_ok ops ->
  let r := send_run s conn ops in
  frame_chain (w_taken r) 0 false (w_frames r) (sentOffset (w_stream r)) (finSent (w_stream r))
  /\ concat (map pf_data (w_frames r)) = ztake (sentOffset (w_stream r)) (w_taken r)
  /\ Forall (fun f => frame_of_stream (w_taken r) (pf_offset f) (pf_data f) (pf_fin f)) (w_frames r)
  /\ (forall i f, w_frames r !! i = Some f -> pf_fin f = true ->
      S i = length (w_frames r) /\ concat (map pf_data (w_frames r)) = w_taken r).
Proof.
  intros Hf Hops r. destruct (fresh_inv _ _ Hf) as [Hi Hc]. destruct (fresh_start _ _ Hf) as [E1 E2].
  destruct (send_run_ok ops [] s conn Hi Hc Hops) as (_ & _ & Hch & _). fold r in Hch.
  rewrite E1, E2 in Hch. cbn [app] in Hch.
  destruct (frame_chain_data _ _ _ _ _ _ ltac:(done) Hch) as [_ Hd]. rewrite Z.sub_0_r in Hd.
  split_and!; [done|done|by eapply frame_chain_frames|].
  intros i f Hif Hff. destruct (frame_chain_fins _ _ _ _ _ _ Hch i f Hif Hff) as [? Hfin].
  split; [done|]. rewrite Hfin in Hch. apply frame_chain_fin in Hch as [Hso _].
  rewrite Hd, Hso. by apply ztake_all.
Qed.

Lemma send_stream_frames_witness :
  let r := send_run sample_stream (Some sample_conn) sample_sends in
  w_frames r = [mkPopped [1; 2] 0 false; mkPopped [3; 4; 5] 2 false; mkPopped [6; 7] 5 true]
  /\ frame_chain (w_taken r) 0 false (w_frames r) (sentOffset (w_stream r)) (finSent (w_stream r)).
Proof.
  intros r. split; [vm_compute; reflexivity|].
  exact (proj1 (send_stream_frames sample_stream (Some sample_conn) sample_sends sample_fresh sample_sends_ok)).
Defined.

(** C1: end to end.  When a fresh stream has popped its FIN, the popped frames
    can be delivered in any order, any number of times, with reads in between:
    as long as each arrives at least once, the receiver's buffer, read to its
    end in pieces of any size, delivers exactly the bytes accepted from the
    sending application and reports the end of the stream. *)
Theorem stream_end_to_end (s : SendStream) (conn : option flow) (ops : list send_op)
    (arrivals : list op) (sizes : list Z) :
  fresh s conn -> Forall send_op_ok ops ->
  let r := send_run s conn ops in
  finSent (w_stream r) = true -> zlen (w_taken r) <= Varint.Max ->
  Forall (fun a => match a with
                   | OpPush _ off d fin => mkPopped d off fin ∈ w_frames r
                   | OpRead n => 0 <= n
                   end) arrivals ->
  (forall f, f ∈ w_frames r -> exists stale, OpPush stale (pf_offset f) (pf_data f) (pf_fin f) ∈ arrivals) ->
  Forall (fun n => 0 < n) sizes -> zlen (w_taken r) <= zlen sizes ->
  let '(b, out1, ok) := run NewReassemblyBuffer arrivals in
  let '(b', out2, _) := run b (map OpRead sizes) in
  out1 ++ out2 = w_taken r /\ IsAllDataRead b' = true.
Proof.
  intros Hf Hops r Hfin Hmax Harr Hall Hsz Hlen. destruct (fresh_inv _ _ Hf) as [Hi Hc].
  destruct (fresh_start _ _ Hf) as [E1 E2].
  destruct (send_run_ok ops [] s conn Hi Hc Hops) as (_ & _ & Hch & _). fold r in Hch.
  rewrite E1, E2, Hfin in Hch. cbn [app] in Hch.
  pose proof (frame_chain_frames _ _ _ _ _ _ ltac:(done) Hch) as Hfr. rewrite Forall_forall in Hfr.
  destruct (frame_chain_fin _ _ _ _ Hch) as (Hso & g & Hg & Hgf). rewrite Hso in Hch.
  apply run_complete; try done.
  - eapply Forall_impl; [exact Harr|]. intros [stale off d fin|n] Ha; [|done]. exact (Hfr _ Ha).
  - intros x Hx. destruct (frame_chain_cover _ _ _ _ _ _ x Hch Hx) as (f & Hin & Hfx).
    destruct (Hall f Hin) as [stale Hst]. by eapply received_in.
  - apply last_Some_elem_of in Hg. destruct (Hall g Hg) as [stale Hst]. rewrite Hgf in Hst.
    by eapply fin_seen_in.
Qed.

Definition sample_arrivals : list op :=
  [OpPush [] 5 [6; 7] true; OpPush [9] 0 [1; 2] false; OpRead 1; OpPush [] 5 [6; 7] true;
   OpPush [] 2 [3; 4; 5] false].
Definition sample_popped : list popped :=
  [mkPopped [1; 2] 0 false; mkPopped [3; 4; 5] 2 false; mkPopped [6; 7] 5 true].
Lemma sample_sends_frames : w_frames (send_run sample_stream (Some sample_conn) sample_sends) = sample_popped.
Proof. vm_compute. reflexivity. Qed.

Lemma stream_end_to_end_witness :
  let '(b, out1, ok) := run NewReassemblyBuffer sample_arrivals in
  let '(b', out2, _) := run b (map OpRead [2; 2; 2; 2; 2; 2; 2]) in
  out1 ++ out2 = w_taken (send_run sample_stream (Some sample_conn) sample_sends)
  /\ IsAllDataRead b' = true.
Proof.
  generalize (stream_end_to_end sample_stream (Some sample_conn) sample_sends sample_arrivals
    [2; 2; 2; 2; 2; 2; 2] sample_fresh sample_sends_ok). cbn zeta. intros H.
  destruct (run NewReassemblyBuffer sample_arrivals) as [[b out1] ok].
  destruct (run b (map OpRead [2; 2; 2; 2; 2; 2; 2])) as [[b' out2] ok2]. apply H.
  - vm_compute; reflexivity.
  - vm_compute; discriminate.
  - rewrite sample_sends_frames. unfold sample_arrivals, sample_popped.
    repeat (apply List.Forall_cons; [first [lia | rewrite !elem_of_cons; auto]|]). apply List.Forall_nil.
  - rewrite sample_sends_frames. unfold sample_popped, sample_arrivals. intros f Hin.
    rewrite !elem_of_cons in Hin.
    destruct Hin as [->|[->|[->|Hin%not_elem_of_nil]]]; [exists [9]|exists []|exists []|done];
      cbn; rewrite !elem_of_cons; auto 10.
  - repeat constructor.
  - vm_compute; discriminate.
Defined.

(** A reset, local ([CancelWrite]) or on request ([HandleStopSending]), of a
    stream that is not already reset or acknowledged announces as final size
    exactly the number of bytes handed out in frames, gives back to the
    connection the credit of the bytes that were never sent, and is final:
    whatever is called afterwards, no byte is accepted, no frame is popped and
    the RESET_STREAM frame keeps its contents. *)
Theorem send_reset_final (s : SendStream) (conn : option flow) (ops ops' : list send_op)
    (code : Z) (o : send_op) :
  fresh s conn -> Forall send_op_ok ops -> Forall send_op_ok ops' ->
  o = WCancel code \/ o = WStop code ->
  let r := send_run s conn ops in
  SendState_IsTerminal (ss_state (w_stream r)) = false ->
  ss_state (w_stream r) <> SendStateResetSent ->
  let r1 := send_step (w_stream r) (w_conn r) o in
  let r2 := send_run (w_stream r1) (w_conn r1) ops' in
  let sent := zlen (concat (map pf_data (w_frames r))) in
  snd (GetResetStreamFrame (w_stream r2)) = Some (code, sent)
  /\ w_taken r2 = [] /\ w_frames r2 = []
  /\ match w_conn r, w_conn r1 with
     | Some c, Some c1 => bytesSent c1 = bytesSent c - (zlen (w_taken r) - sent)
     | None, None => True
     | _, _ => False
     end.
Proof.
  intros Hf Hops Hops' Ho r Ht Hn r1 r2 sent. destruct (fresh_inv _ _ Hf) as [Hi Hc].
  destruct (fresh_start _ _ Hf) as [E1 E2].
  destruct (send_run_ok ops [] s conn Hi Hc Hops) as (Hi' & Hc' & Hch & _).
  fold r in Hi', Hc', Hch. cbn [app] in Hi', Hch. rewrite E1, E2 in Hch.
  destruct (frame_chain_data _ _ _ _ _ _ ltac:(done) Hch) as [Hle Hd].
  assert (Hsent : sent = sentOffset (w_stream r)).
  { unfold sent. rewrite Hd, Z.sub_0_r, zdrop_0. apply zlen_ztake. by destruct Hi'. }
  destruct (reset_step_sets _ _ _ r1 code o eq_refl Hi' Hc' Ht Hn Ho) as (K1 & K2 & K3 & K4 & K5 & Kc).
  destruct (reset_run ops' _ _ _ K1 K2 ltac:(congruence) Hops') as (T & F & P). fold r2 in T, F, P.
  unfold reset_params in P. injection P as P1 P2 P3 P4. unfold GetResetStreamFrame.
  destruct K1 as (_ & _ & _ & _ & _ & Hm). rewrite K3 in Hm. destruct Hm as (_ & _ & _ & Q & _).
  rewrite P2, Q. cbn [snd]. rewrite P3, P4, K4, K5, Hsent. split_and!; try done.
  destruct (w_conn r), (w_conn r1); cbn in Kc; try done. lia.
Qed.

Lemma send_reset_final_witness :
  let r := send_run sample_stream (Some sample_conn) [WWrite sample_env [1; 2; 3] None; WPop 2] in
  let r1 := send_step (w_stream r) (w_conn r) (WStop 7) in
  let r2 := send_run (w_stream r1) (w_conn r1) sample_sends in
  snd (GetResetStreamFrame (w_stream r2)) = Some (7, 2).
Proof.
  cbn zeta.
  refine (proj1 (send_reset_final sample_stream (Some sample_conn)
    [WWrite sample_env [1; 2; 3] None; WPop 2] sample_sends 7 (WStop 7)
    sample_fresh _ sample_sends_ok _ _ _)).
  - repeat constructor.
  - by right.
  - reflexivity.
  - discriminate.
Defined.

(** Every operation, in every reachable state, moves the send state along
    the RFC 9000 table as [ValidateSendTransition] has it, keeps the bytes
    written within the peer's stream limit and the connection's counter within
    the connection limit, and charges the connection exactly what it charges
    the stream. *)
Theorem send_stream_moves (s : SendStream) (conn : option flow) (ops : list send_op) (o : send_op) :
  fresh s conn -> Forall send_op_ok ops -> send_op_ok o ->
  let r := send_run s conn ops in
  let r' := send_step (w_stream r) (w_conn r) o in
  ValidateSendTransition (ss_state (w_stream r)) (ss_state (w_stream r')) = true
  /\ sent_flow (w_stream r') <= send_limit (w_stream r')
  /\ conn_ok (w_stream r') (w_conn r')
  /\ conn_delta (w_conn r) (w_conn r') (sent_flow (w_stream r') - sent_flow (w_stream r)).
Proof.
  intros Hf Hops Ho r r'. destruct (fresh_inv _ _ Hf) as [Hi Hc].
  destruct (send_run_ok ops [] s conn Hi Hc Hops) as (Hi' & Hc' & _). fold r in Hi', Hc'.
  pose proof (send_step_ok _ _ _ o Hi' Hc' Ho) as ((K1 & K2 & K3 & K4) & _). fold r' in K1, K2, K3, K4.
  split_and!; try done. by destruct K1 as (_ & _ & _ & [_ ?] & _).
Qed.

Lemma send_stream_moves_witness :
  let r := send_run sample_stream (Some sample_conn) sample_sends in
  let r' := send_step (w_stream r) (w_conn r) (WAck true) in
  (ss_state (w_stream r) = SendStateDataSent /\ ss_state (w_stream r') = SendStateDataRecvd)
  /\ conn_ok (w_stream r') (w_conn r').
Proof.
  cbn zeta. split; [split; vm_compute; reflexivity|].
  exact (proj1 (proj2 (proj2 (send_stream_moves sample_stream (Some sample_conn) sample_sends (WAck true)
    sample_fresh sample_sends_ok I)))).
Defined.

(** The credit check and the charge are separate critical sections, so two
    streams of one connection can both pass the check on the same credit: with
    10 bytes of connection credit, two writes of 10 bytes are both accepted and
    both handed out as frames, 20 bytes against a MAX_DATA of 10. *)
Theorem concurrent_writers_overrun :
  let c := NewConnectionFlowController sample_env 0 0 10 in
  let a := NewSendStream 0 true (NewStreamFlowController sample_env 0 0 0 100) None in
  let b := NewSendStream 4 true (NewStreamFlowController sample_env 4 0 0 100) None in
  let p := repeat 7 10 in
  write_check sample_env a (Some c) = inr (100, 10, 10)
  /\ write_check sample_env b (Some c) = inr (100, 10, 10)
  /\ let '(a', c1, _) := write_commit a (Some c) p in
     let '(b', c2, _) := write_commit b c1 p in
     (exists c', c2 = Some c' /\ sendWindow c' = 10 /\ bytesSent c' = 20)
     /\ snd (PopStreamFrame a' 1200) = Some (mkPopped p 0 false)
     /\ snd (PopStreamFrame b' 1200) = Some (mkPopped p 0 false).
Proof. vm_compute. split_and!; try reflexivity. by eexists. Qed.

(** A lost wake-up.  When a MAX_DATA frame arrives between a writer's credit
    check and the registration of its waiters, the raised limit closes neither
    the wake channel nor any waiter the writer then selects on: it stays
    blocked although the very check it made would now let it write. *)
Theorem max_data_wakeup_lost :
  let c := NewConnectionFlowController sample_env 0 0 0 in
  let s := NewSendStream 0 true (NewStreamFlowController sample_env 0 0 0 100) None in
  write_check sample_env s (Some c) = inr (100, 0, 0)
  /\ let c1 := UpdateSendWindow c 1000 in
     let '(s', c2, _, (sw, cw)) := write_blocked s (Some c1) 100 0 in
     write_check sample_env s' c2 = inr (100, 1000, 100)
     /\ ss_closedWakes s' = [] /\ ss_closedDeadlines s' = []
     /\ (sw ∉ closedWaiters (sf_flow (ss_flow s')))
     /\ exists c', c2 = Some c' /\ cw = Some 0 /\ closedWaiters c' = [].
Proof.
  vm_compute. split_and!; try reflexivity; [by intros ?%not_elem_of_nil|]. by eexists.
Qed.
