(* ===== verification/StreamConn.v ===== *)
(** * Bidirectional streams and the stream multiplexer (RFC 9000 sections 2, 3, 4.6)

    Models [src/net/quic/core/stream/stream.go] and [conn.go].  A [Stream] is a
    sending and a receiving half that share one flow controller object; the
    model keeps that object in the [Stream] and lends it to the half that runs.
    A [Conn] holds stream objects by pointer: its maps, its accept channels and
    the application refer to the same object, and an object outlives its entry
    in the map.  Pointers are positions in the lists of objects allocated so
    far.  Operations run under the connection's lock; operations that block
    ([OpenStreamSync], [AcceptStream]) are split at the point where they release
    it.

    The theorems: identifiers are never reused and respect both stream limits;
    every stream is active or retired, never both, and is retired exactly once,
    when both halves are done; peer streams are accepted once each in the order
    they appeared; frames reach exactly the stream they name; and two defects,
    the limit on peer streams is never raised, and frames for a stream whose
    reading was cancelled are not accounted for. *)

From S2P Require Import Prelude Varint StreamTypes Reassembly FlowControl RecvStream SendStream.
From stdpp Require Import gmap list.
Open Scope Z_scope.

(** ** Bidirectional streams *)
#[projections(primitive)]
Record Stream := mkStream {
  sendStr : SendStream;
  recvStr : ReceiveStream;
  str_flow : StreamFlowController;
  str_hasSender : bool;
  sendCompleted : bool;
  recvCompleted : bool;
  streamComplete : bool
}.

Definition NewStream (id : Z) (hasSender : bool) (fc : StreamFlowController)
    (ctx : option stream_error) : Stream :=
  mkStream (NewSendStream id true fc ctx) (NewReceiveStream id true fc ctx) fc hasSender
    false false false.

Definition StreamID_of (s : Stream) : Z := ss_id (sendStr s).

(** The flag says whether [sender.OnStreamCompleted] is called. *)
Definition onHalfCompleted (s : Stream) (isSend : bool) : Stream * bool :=
  let s := if isSend then { s with sendCompleted := true } else { s with recvCompleted := true } in
  let complete := sendCompleted s && recvCompleted s && negb (streamComplete s) in
  let s := if complete then { s with streamComplete := true } else s in
  (s, complete && str_hasSender s).

(** Whether an operation of a half calls its sender's [OnStreamCompleted]. *)
Definition recv_completes (ev : list event) : bool :=
  existsb (fun e => match e with EvCompleted => true | _ => false end) ev.
Definition send_completes (s : SendStream) (o : send_op) : bool :=
  match o with
  | WAck all => match snd (HandleAck s all) with [] => false | _ => true end
  | WResetAck => match snd (HandleResetAck s) with [] => false | _ => true end
  | _ => false
  end.

(** An operation of the receiving half of a bidirectional stream ([Read],
    [Peek], [CancelRead], the frame handlers, ...): it runs on the shared flow
    controller, and completion goes through [coordStreamSender]. *)
Definition stream_recv (s : Stream) (conn : option flow) (o : recv_op) : Stream * bool * recv_result :=
  let r := recv_step { recvStr s with rs_flow := str_flow s } conn o in
  let s := { s with recvStr := r_stream r; str_flow := rs_flow (r_stream r) } in
  let '(s, done) := if recv_completes (r_events r) then onHalfCompleted s false else (s, false) in
  (s, done, r).

(** An operation of the sending half. *)
Definition stream_send (s : Stream) (conn : option flow) (o : send_op) : Stream * bool * send_result :=
  let h := { sendStr s with ss_flow := str_flow s } in
  let r := send_step h conn o in
  let s := { s with sendStr := w_stream r; str_flow := ss_flow (w_stream r) } in
  let '(s, done) := if send_completes h o then onHalfCompleted s true else (s, false) in
  (s, done, r).

Definition SetDeadline (en : env) (s : Stream) (t : option Z) : Stream :=
  { s with recvStr := SetReadDeadline en (recvStr s) t; sendStr := SetWriteDeadline en (sendStr s) t }.

Definition CloseForShutdown (s : Stream) (err : stream_error) : Stream :=
  { s with sendStr := send_CloseForShutdown (sendStr s) err;
           recvStr := recv_CloseForShutdown (recvStr s) err }.

(** ** Connections *)
#[projections(primitive)]
Record ConnConfig := mkConfig {
  cfg_Perspective : Perspective;
  InitialStreamReceiveWindow : Z;
  MaxStreamReceiveWindow : Z;
  InitialConnectionReceiveWindow : Z;
  MaxConnectionReceiveWindow : Z;
  InitialMaxStreamsBidi : Z;
  InitialMaxStreamsUni : Z;
  InitialPeerMaxStreamsBidi : Z;
  InitialPeerMaxStreamsUni : Z;
  InitialPeerMaxData : Z
}.

(** The three lists at the end are the stream objects allocated so far. *)
#[projections(primitive)]
Record Conn := mkConn {
  config : ConnConfig;
  cn_ctx : option stream_error;
  connFlowController : flow;
  bidiStreams : gmap Z nat;
  sendStreams : gmap Z nat;
  recvStreams : gmap Z nat;
  nextLocalBidiStreamNum : Z;
  nextLocalUniStreamNum : Z;
  maxPeerBidiStreams : Z;
  maxPeerUniStreams : Z;
  bidiStreamsWaiters : list Z;
  uniStreamsWaiters : list Z;
  cn_nextWaiter : Z;
  cn_closedWaiters : list Z;
  maxLocalBidiStreams : Z;
  maxLocalUniStreams : Z;
  closedStreams : gset Z;
  acceptBidiCh : list nat;
  acceptBidiQueue : list nat;
  acceptUniCh : list nat;
  acceptUniQueue : list nat;
  cn_closed : bool;
  closeErr : option stream_error;
  bidiObjs : list Stream;
  sendObjs : list SendStream;
  recvObjs : list ReceiveStream
}.

Definition or_default (x d : Z) : Z := if x =? 0 then d else x.

Definition config_defaults (cfg : ConnConfig) : ConnConfig :=
  mkConfig (cfg_Perspective cfg)
    (or_default (InitialStreamReceiveWindow cfg) DefaultInitialStreamReceiveWindow)
    (or_default (MaxStreamReceiveWindow cfg) DefaultMaxStreamReceiveWindow)
    (or_default (InitialConnectionReceiveWindow cfg) DefaultInitialConnReceiveWindow)
    (or_default (MaxConnectionReceiveWindow cfg) DefaultMaxConnReceiveWindow)
    (or_default (InitialMaxStreamsBidi cfg) 100)
    (or_default (InitialMaxStreamsUni cfg) 100)
    (or_default (InitialPeerMaxStreamsBidi cfg) 100)
    (or_default (InitialPeerMaxStreamsUni cfg) 100)
    (or_default (InitialPeerMaxData cfg) DefaultInitialConnReceiveWindow).

Definition NewConn (en : env) (cfg : ConnConfig) : Conn :=
  let cfg := config_defaults cfg in
  let cfc := NewConnectionFlowController en (InitialConnectionReceiveWindow cfg)
               (MaxConnectionReceiveWindow cfg) (InitialPeerMaxData cfg) in
  mkConn cfg None cfc ∅ ∅ ∅ 1 1 (InitialPeerMaxStreamsBidi cfg) (InitialPeerMaxStreamsUni cfg)
    [] [] 0 [] (InitialMaxStreamsBidi cfg) (InitialMaxStreamsUni cfg) ∅ [] [] [] [] false None [] [] [].

(** The capacities of the accept channels are those of [make] in [NewConn]. *)
Definition bidi_cap (c : Conn) : Z := InitialMaxStreamsBidi (config c).
Definition uni_cap (c : Conn) : Z := InitialMaxStreamsUni (config c).

Definition stream_controller (en : env) (c : Conn) (id : Z) : StreamFlowController :=
  NewStreamFlowController en id (InitialStreamReceiveWindow (config c))
    (MaxStreamReceiveWindow (config c)) (InitialStreamReceiveWindow (config c)).

Definition createBidiStreamLocked (en : env) (c : Conn) (id : Z) : Conn * nat :=
  let p := length (bidiObjs c) in
  let str := NewStream id true (stream_controller en c id) (cn_ctx c) in
  ({ c with bidiObjs := bidiObjs c ++ [str]; bidiStreams := <[id := p]> (bidiStreams c) }, p).

Definition createSendStream (en : env) (c : Conn) (id : Z) : Conn * nat :=
  let p := length (sendObjs c) in
  let str := NewSendStream id true (stream_controller en c id) (cn_ctx c) in
  ({ c with sendObjs := sendObjs c ++ [str]; sendStreams := <[id := p]> (sendStreams c) }, p).

Definition createReceiveStream (en : env) (c : Conn) (id : Z) : Conn * nat :=
  let p := length (recvObjs c) in
  let str := NewReceiveStream id true (stream_controller en c id) (cn_ctx c) in
  ({ c with recvObjs := recvObjs c ++ [str]; recvStreams := <[id := p]> (recvStreams c) }, p).

(** ** Opening streams *)
Definition local_type (c : Conn) (bidi : bool) : StreamType :=
  match cfg_Perspective (config c), bidi with
  | PerspectiveClient, true => StreamTypeClientBidi
  | PerspectiveServer, true => StreamTypeServerBidi
  | PerspectiveClient, false => StreamTypeClientUni
  | PerspectiveServer, false => StreamTypeServerUni
  end.

Definition openBidi (en : env) (c : Conn) : Conn * nat :=
  let id := NewStreamID (local_type c true) (nextLocalBidiStreamNum c) in
  let c := { c with nextLocalBidiStreamNum := u64 (nextLocalBidiStreamNum c + 1) } in
  createBidiStreamLocked en c id.

Definition openUni (en : env) (c : Conn) : Conn * nat :=
  let id := NewStreamID (local_type c false) (nextLocalUniStreamNum c) in
  let c := { c with nextLocalUniStreamNum := u64 (nextLocalUniStreamNum c + 1) } in
  createSendStream en c id.

Definition OpenStream (en : env) (c : Conn) : Conn * res stream_error nat :=
  if cn_closed c then (c, Err ErrConnClosed)
  else if u64 (nextLocalBidiStreamNum c - 1) >=? maxPeerBidiStreams c then
    (c, Err (TransportError StreamLimitError))
  else let '(c, p) := openBidi en c in (c, Ok p).

Definition OpenUniStream (en : env) (c : Conn) : Conn * res stream_error nat :=
  if cn_closed c then (c, Err ErrConnClosed)
  else if u64 (nextLocalUniStreamNum c - 1) >=? maxPeerUniStreams c then
    (c, Err (TransportError StreamLimitError))
  else let '(c, p) := openUni en c in (c, Ok p).

(** One pass of the loops of the blocking variants: a result, or the waiter
    channel the caller then selects on. *)
Definition OpenStreamSync_pass (en : env) (c : Conn) : Conn * (res stream_error nat + Z) :=
  if cn_closed c then (c, inl (Err ErrConnClosed))
  else if u64 (nextLocalBidiStreamNum c - 1) <? maxPeerBidiStreams c then
    let '(c, p) := openBidi en c in (c, inl (Ok p))
  else
    let w := cn_nextWaiter c in
    ({ c with bidiStreamsWaiters := bidiStreamsWaiters c ++ [w]; cn_nextWaiter := w + 1 }, inr w).

Definition OpenUniStreamSync_pass (en : env) (c : Conn) : Conn * (res stream_error nat + Z) :=
  if cn_closed c then (c, inl (Err ErrConnClosed))
  else if u64 (nextLocalUniStreamNum c - 1) <? maxPeerUniStreams c then
    let '(c, p) := openUni en c in (c, inl (Ok p))
  else
    let w := cn_nextWaiter c in
    ({ c with uniStreamsWaiters := uniStreamsWaiters c ++ [w]; cn_nextWaiter := w + 1 }, inr w).

(** ** Accepting streams *)
Definition enqueueBidiStreamLocked (c : Conn) (p : nat) : Conn :=
  match acceptBidiQueue c with
  | _ :: _ => { c with acceptBidiQueue := acceptBidiQueue c ++ [p] }
  | [] =>
      if zlen (acceptBidiCh c) <? bidi_cap c then { c with acceptBidiCh := acceptBidiCh c ++ [p] }
      else { c with acceptBidiQueue := acceptBidiQueue c ++ [p] }
  end.

Definition enqueueUniStreamLocked (c : Conn) (p : nat) : Conn :=
  match acceptUniQueue c with
  | _ :: _ => { c with acceptUniQueue := acceptUniQueue c ++ [p] }
  | [] =>
      if zlen (acceptUniCh c) <? uni_cap c then { c with acceptUniCh := acceptUniCh c ++ [p] }
      else { c with acceptUniQueue := acceptUniQueue c ++ [p] }
  end.

(** Move streams from the overflow queue to the channel while it has room. *)
Fixpoint refill (cap : Z) (ch queue : list nat) : list nat * list nat :=
  match queue with
  | [] => (ch, [])
  | p :: queue' => if zlen ch <? cap then refill cap (ch ++ [p]) queue' else (ch, queue)
  end.

(** First section of [AcceptStream]: a result, or [None] to wait. *)
Definition AcceptStream_first (c : Conn) : Conn * option (res stream_error nat) :=
  match acceptBidiQueue c with
  | [] => (c, if cn_closed c then Some (Err ErrConnClosed) else None)
  | p :: queue =>
      let '(ch, queue) := refill (bidi_cap c) (acceptBidiCh c) queue in
      ({ c with acceptBidiCh := ch; acceptBidiQueue := queue }, Some (Ok p))
  end.
Definition AcceptUniStream_first (c : Conn) : Conn * option (res stream_error nat) :=
  match acceptUniQueue c with
  | [] => (c, if cn_closed c then Some (Err ErrConnClosed) else None)
  | p :: queue =>
      let '(ch, queue) := refill (uni_cap c) (acceptUniCh c) queue in
      ({ c with acceptUniCh := ch; acceptUniQueue := queue }, Some (Ok p))
  end.

(** The receive case of its [select], then the refill under the lock. *)
Definition AcceptStream_receive (c : Conn) : Conn * option nat :=
  match acceptBidiCh c with
  | [] => (c, None)
  | p :: ch => ({ c with acceptBidiCh := ch }, Some p)
  end.
Definition AcceptStream_refill (c : Conn) : Conn :=
  match acceptBidiQueue c with
  | p :: queue =>
      if zlen (acceptBidiCh c) <? bidi_cap c
      then { c with acceptBidiCh := acceptBidiCh c ++ [p]; acceptBidiQueue := queue } else c
  | [] => c
  end.
Definition AcceptUniStream_receive (c : Conn) : Conn * option nat :=
  match acceptUniCh c with
  | [] => (c, None)
  | p :: ch => ({ c with acceptUniCh := ch }, Some p)
  end.
Definition AcceptUniStream_refill (c : Conn) : Conn :=
  match acceptUniQueue c with
  | p :: queue =>
      if zlen (acceptUniCh c) <? uni_cap c
      then { c with acceptUniCh := acceptUniCh c ++ [p]; acceptUniQueue := queue } else c
  | [] => c
  end.

(** ** Retiring streams *)
Definition OnStreamCompleted (c : Conn) (id : Z) : Conn :=
  { c with bidiStreams := delete id (bidiStreams c); sendStreams := delete id (sendStreams c);
           recvStreams := delete id (recvStreams c); closedStreams := {[id]} ∪ closedStreams c }.

(** ** Operations on a stream object *)
Definition bidi_recv (c : Conn) (p : nat) (o : recv_op) : Conn * res stream_error unit :=
  match bidiObjs c !! p with
  | Some s =>
      let '(s', done, r) := stream_recv s (Some (connFlowController c)) o in
      let c := { c with bidiObjs := <[p := s']> (bidiObjs c);
                        connFlowController := default (connFlowController c) (r_conn r) } in
      (if done : bool then OnStreamCompleted c (StreamID_of s') else c, r_err r)
  | None => (c, Ok tt)
  end.

Definition bidi_send (c : Conn) (p : nat) (o : send_op) : Conn :=
  match bidiObjs c !! p with
  | Some s =>
      let '(s', done, r) := stream_send s (Some (connFlowController c)) o in
      let c := { c with bidiObjs := <[p := s']> (bidiObjs c);
                        connFlowController := default (connFlowController c) (w_conn r) } in
      if done : bool then OnStreamCompleted c (StreamID_of s') else c
  | None => c
  end.

(** Unidirectional streams report completion to the connection directly. *)
Definition uni_recv (c : Conn) (p : nat) (o : recv_op) : Conn * res stream_error unit :=
  match recvObjs c !! p with
  | Some s =>
      let r := recv_step s (Some (connFlowController c)) o in
      let c := { c with recvObjs := <[p := r_stream r]> (recvObjs c);
                        connFlowController := default (connFlowController c) (r_conn r) } in
      (if recv_completes (r_events r) then OnStreamCompleted c (rs_id (r_stream r)) else c, r_err r)
  | None => (c, Ok tt)
  end.

Definition uni_send (c : Conn) (p : nat) (o : send_op) : Conn :=
  match sendObjs c !! p with
  | Some s =>
      let r := send_step s (Some (connFlowController c)) o in
      let c := { c with sendObjs := <[p := w_stream r]> (sendObjs c);
                        connFlowController := default (connFlowController c) (w_conn r) } in
      if send_completes s o then OnStreamCompleted c (ss_id (w_stream r)) else c
  | None => c
  end.

(** ** Frames from the peer *)
Definition isPeerInitiated (c : Conn) (id : Z) : bool :=
  (IsClientInitiated id && bool_decide (cfg_Perspective (config c) = PerspectiveServer))
  || (IsServerInitiated id && bool_decide (cfg_Perspective (config c) = PerspectiveClient)).

Definition HandleStreamFrame (en : env) (stale : bytes) (c : Conn) (id offset : Z) (data : bytes)
    (fin : bool) : Conn * res stream_error unit :=
  if cn_closed c then (c, Err ErrConnClosed)
  else if IsBidi id then
    match bidiStreams c !! id with
    | Some p => bidi_recv c p (PFrame stale offset data fin)
    | None =>
        if bool_decide (id ∈ closedStreams c) then (c, Ok tt)
        else if negb (isPeerInitiated c id) then
          (if StreamNum id <? nextLocalBidiStreamNum c then (c, Ok tt)
           else (c, Err (TransportError StreamStateError)))
        else if StreamNum id >? maxLocalBidiStreams c then (c, Err (TransportError StreamLimitError))
        else
          let '(c, p) := createBidiStreamLocked en c id in
          let c := enqueueBidiStreamLocked c p in
          bidi_recv c p (PFrame stale offset data fin)
    end
  else if bool_decide (id ∈ closedStreams c) then (c, Ok tt)
  else if negb (isPeerInitiated c id) then
    (if StreamNum id <? nextLocalUniStreamNum c then (c, Ok tt)
     else (c, Err (TransportError StreamStateError)))
  else
    match recvStreams c !! id with
    | Some p => uni_recv c p (PFrame stale offset data fin)
    | None =>
        if StreamNum id >? maxLocalUniStreams c then (c, Err (TransportError StreamLimitError))
        else
          let '(c, p) := createReceiveStream en c id in
          let c := enqueueUniStreamLocked c p in
          uni_recv c p (PFrame stale offset data fin)
    end.

Definition HandleResetStreamFrame (en : env) (c : Conn) (id code fsize : Z) :
    Conn * res stream_error unit :=
  if cn_closed c then (c, Err ErrConnClosed)
  else if isPeerInitiated c id && IsBidi id && (StreamNum id >? maxLocalBidiStreams c) then
    (c, Err (TransportError StreamLimitError))
  else if isPeerInitiated c id && negb (IsBidi id) && (StreamNum id >? maxLocalUniStreams c) then
    (c, Err (TransportError StreamLimitError))
  else if IsBidi id then
    match bidiStreams c !! id with
    | Some p => bidi_recv c p (PReset en code fsize)
    | None =>
        if bool_decide (id ∈ closedStreams c) then (c, Ok tt)
        else if isPeerInitiated c id then
          let '(c, p) := createBidiStreamLocked en c id in
          let c := enqueueBidiStreamLocked c p in
          bidi_recv c p (PReset en code fsize)
        else (c, Ok tt)
    end
  else
    match recvStreams c !! id with
    | Some p => uni_recv c p (PReset en code fsize)
    | None =>
        if bool_decide (id ∈ closedStreams c) then (c, Ok tt)
        else if isPeerInitiated c id then
          let '(c, p) := createReceiveStream en c id in
          let c := enqueueUniStreamLocked c p in
          uni_recv c p (PReset en code fsize)
        else (c, Ok tt)
    end.

(** An operation on the sending half the frame names, if it is active. *)
Definition on_send_half (c : Conn) (id : Z) (o : send_op) : Conn :=
  if IsBidi id then
    match bidiStreams c !! id with Some p => bidi_send c p o | None => c end
  else
    match sendStreams c !! id with Some p => uni_send c p o | None => c end.

Definition HandleStopSendingFrame (c : Conn) (id code : Z) : Conn := on_send_half c id (WStop code).
Definition HandleMaxStreamDataFrame (c : Conn) (id maxStreamData : Z) : Conn :=
  on_send_half c id (WMaxStreamData maxStreamData).

Definition HandleMaxDataFrame (c : Conn) (maxData : Z) : Conn :=
  { c with connFlowController := UpdateSendWindow (connFlowController c) maxData }.

Definition HandleMaxStreamsFrame (c : Conn) (st : StreamType) (maxStreams : Z) : Conn :=
  if bool_decide (st = StreamTypeClientBidi) || bool_decide (st = StreamTypeServerBidi) then
    (if maxStreams >? maxPeerBidiStreams c then
       { c with maxPeerBidiStreams := maxStreams;
                cn_closedWaiters := cn_closedWaiters c ++ bidiStreamsWaiters c; bidiStreamsWaiters := [] }
     else c)
  else
    (if maxStreams >? maxPeerUniStreams c then
       { c with maxPeerUniStreams := maxStreams;
                cn_closedWaiters := cn_closedWaiters c ++ uniStreamsWaiters c; uniStreamsWaiters := [] }
     else c).

(** ** Lookups and connection frames *)
Definition GetSendStream (c : Conn) (id : Z) : option SendStream :=
  if IsBidi id then p ← bidiStreams c !! id; sendStr <$> bidiObjs c !! p
  else p ← sendStreams c !! id; sendObjs c !! p.
Definition GetReceiveStream (c : Conn) (id : Z) : option ReceiveStream :=
  if IsBidi id then p ← bidiStreams c !! id; recvStr <$> bidiObjs c !! p
  else p ← recvStreams c !! id; recvObjs c !! p.

Definition MaybeGetConnWindowUpdate (c : Conn) : Conn * option Z :=
  let '(f, r) := GetWindowUpdate (connFlowController c) in ({ c with connFlowController := f }, r).
Definition conn_GetDataBlockedFrame (c : Conn) : Conn * option Z :=
  let '(f, r) := GetDataBlockedFrame (connFlowController c) in ({ c with connFlowController := f }, r).

(** ** Closing *)

(** Cancelling the connection's context cancels the contexts derived from it:
    those of all its streams, retired ones included. *)
Definition cancel_send (err : stream_error) (s : SendStream) : SendStream :=
  { s with ss_ctx := ss_cancel_ctx (ss_ctx s) (Some err) }.
Definition cancel_recv (err : stream_error) (s : ReceiveStream) : ReceiveStream :=
  { s with rs_ctx := cancel_ctx (rs_ctx s) (Some err) }.
Definition cancel_stream (err : stream_error) (s : Stream) : Stream :=
  { s with sendStr := cancel_send err (sendStr s); recvStr := cancel_recv err (recvStr s) }.

(** [for _, str := range m { f(str) }] on the objects the map points to. *)
Definition for_active {A} (m : gmap Z nat) (f : A -> A) (objs : list A) : list A :=
  imap (fun p s => if bool_decide (p ∈ (map_to_list m).*2) then f s else s) objs.

Definition CloseWithError (c : Conn) (code : Z) : Conn :=
  if cn_closed c then c
  else
    let err := ApplicationError code in
    let c := { c with closeErr := Some err; cn_closed := true;
                      cn_ctx := cancel_ctx (cn_ctx c) (Some err);
                      bidiObjs := cancel_stream err <$> bidiObjs c;
                      sendObjs := cancel_send err <$> sendObjs c;
                      recvObjs := cancel_recv err <$> recvObjs c } in
    let c := { c with cn_closedWaiters := cn_closedWaiters c ++ bidiStreamsWaiters c ++ uniStreamsWaiters c;
                      bidiStreamsWaiters := []; uniStreamsWaiters := [] } in
    { c with bidiObjs := for_active (bidiStreams c) (fun s => CloseForShutdown s err) (bidiObjs c);
             sendObjs := for_active (sendStreams c) (fun s => send_CloseForShutdown s err) (sendObjs c);
             recvObjs := for_active (recvStreams c) (fun s => recv_CloseForShutdown s err) (recvObjs c) }.
Definition Close (c : Conn) : Conn := CloseWithError c 0.

(** ** Steps *)
Inductive conn_op :=
| COpen (en : env) | COpenUni (en : env) | COpenSync (en : env) | COpenUniSync (en : env)
| CAccept | CAcceptReceive | CAcceptRefill
| CAcceptUni | CAcceptUniReceive | CAcceptUniRefill
| CFrame (en : env) (stale : bytes) (id offset : Z) (data : bytes) (fin : bool)
| CReset (en : env) (id code fsize : Z)
| CStopSending (id code : Z)
| CMaxData (n : Z) | CMaxStreamData (id n : Z) | CMaxStreams (st : StreamType) (n : Z)
| CBidiRecv (p : nat) (o : recv_op) | CBidiSend (p : nat) (o : send_op)
| CUniRecv (p : nat) (o : recv_op) | CUniSend (p : nat) (o : send_op)
| CWindowUpdate | CDataBlocked
| CClose (code : Z).

Definition accepted (r : option (res stream_error nat)) : list nat :=
  match r with Some (Ok p) => [p] | _ => [] end.

(** The connection after the step and the streams it hands to the application
    by accepting: bidirectional, unidirectional. *)
Definition conn_step (c : Conn) (o : conn_op) : Conn * list nat * list nat :=
  match o with
  | COpen en => (fst (OpenStream en c), [], [])
  | COpenUni en => (fst (OpenUniStream en c), [], [])
  | COpenSync en => (fst (OpenStreamSync_pass en c), [], [])
  | COpenUniSync en => (fst (OpenUniStreamSync_pass en c), [], [])
  | CAccept => let '(c', r) := AcceptStream_first c in (c', accepted r, [])
  | CAcceptReceive => let '(c', r) := AcceptStream_receive c in (c', option_list r, [])
  | CAcceptRefill => (AcceptStream_refill c, [], [])
  | CAcceptUni => let '(c', r) := AcceptUniStream_first c in (c', [], accepted r)
  | CAcceptUniReceive => let '(c', r) := AcceptUniStream_receive c in (c', [], option_list r)
  | CAcceptUniRefill => (AcceptUniStream_refill c, [], [])
  | CFrame en stale id offset data fin => (fst (HandleStreamFrame en stale c id offset data fin), [], [])
  | CReset en id code fsize => (fst (HandleResetStreamFrame en c id code fsize), [], [])
  | CStopSending id code => (HandleStopSendingFrame c id code, [], [])
  | CMaxData n => (HandleMaxDataFrame c n, [], [])
  | CMaxStreamData id n => (HandleMaxStreamDataFrame c id n, [], [])
  | CMaxStreams st n => (HandleMaxStreamsFrame c st n, [], [])
  | CBidiRecv p o => (fst (bidi_recv c p o), [], [])
  | CBidiSend p o => (bidi_send c p o, [], [])
  | CUniRecv p o => (fst (uni_recv c p o), [], [])
  | CUniSend p o => (uni_send c p o, [], [])
  | CWindowUpdate => (fst (MaybeGetConnWindowUpdate c), [], [])
  | CDataBlocked => (fst (conn_GetDataBlockedFrame c), [], [])
  | CClose code => (CloseWithError c code, [], [])
  end.

Fixpoint conn_run (c : Conn) (ops : list conn_op) : Conn * list nat * list nat :=
  match ops with
  | [] => (c, [], [])
  | o :: ops' =>
      let '(c1, b1, u1) := conn_step c o in
      let '(c2, b2, u2) := conn_run c1 ops' in (c2, b1 ++ b2, u1 ++ u2)
  end.

(** Identifiers and limits come from varints. *)
Definition conn_op_ok (o : conn_op) : Prop :=
  match o with
  | CFrame _ _ id _ _ _ | CReset _ id _ _ => vi_ok id
  | CMaxStreams _ n => vi_ok n
  | _ => True
  end.
Definition config_ok (cfg : ConnConfig) : Prop :=
  vi_ok (InitialMaxStreamsBidi cfg) /\ vi_ok (InitialMaxStreamsUni cfg)
  /\ vi_ok (InitialPeerMaxStreamsBidi cfg) /\ vi_ok (InitialPeerMaxStreamsUni cfg).

(** ** What the halves guarantee *)
Definition recv_done (st : RecvState) : bool :=
  bool_decide (st = RecvStateDataRead) || bool_decide (st = RecvStateResetRecvd)
  || bool_decide (st = RecvStateResetRead).
Definition send_done (st : SendState) : bool := SendState_IsTerminal st.

(** How an operation treats identity and completion. *)
Definition recv_shape (s : ReceiveStream) (s' : ReceiveStream) (ev : list event) : Prop :=
  rs_id s' = rs_id s /\ rs_hasSender s' = rs_hasSender s
  /\ (rs_hasSender s = true -> recv_done (rs_state s') = recv_done (rs_state s) || recv_completes ev).

Lemma recv_shape_same s s' ev :
  rs_id s' = rs_id s -> rs_hasSender s' = rs_hasSender s -> rs_state s' = rs_state s ->
  recv_completes ev = false -> recv_shape s s' ev.
Proof. intros E1 E2 E3 E4. split_and!; try done. intros _. by rewrite E3, E4, orb_false_r. Qed.

Lemma maybeTrigger_events en s conn :
  recv_completes (snd (maybeTriggerWindowUpdate en s conn)) = false.
Proof.
  unfold maybeTriggerWindowUpdate. destruct (Stream_CheckAndQueueWindowUpdate _ _) as [fc su].
  destruct conn as [c|]; [destruct (CheckAndQueueWindowUpdate _ _) as [c' cu]|]; cbn; by case_match.
Qed.

Lemma recv_completes_app a b : recv_completes (a ++ b) = recv_completes a || recv_completes b.
Proof. apply existsb_app. Qed.

Lemma HandleStreamFrame_shape stale s conn offset data fin :
  let '(s', conn', ev, r) := RecvStream.HandleStreamFrame stale s conn offset data fin in
  recv_shape s s' ev.
Proof.
  unfold RecvStream.HandleStreamFrame. destruct (_ || bool_decide _) eqn:Et; [by apply recv_shape_same|].
  destruct (Stream_UpdateHighestReceived _ _ _) as [[fc conn1] [[]|e|]]; [|by apply recv_shape_same..].
  destruct s as [sid hs fc0 buf st ctx fk cb ssq ssc ce se rd dt dc cd dr]. cbn -[Push all_buffered] in *.
  destruct (Push stale buf offset data fin) as [b' [[]|e|]]; [|by apply recv_shape_same..].
  assert (Hd : recv_done st = false) by by destruct st.
  destruct (fin && negb fk); [|destruct (bool_decide (st = RecvStateSizeKnown)) eqn:Es].
  - unfold recv_shape. cbn -[all_buffered]. rewrite Hd. split_and!; try done. intros _.
    destruct (all_buffered b'), cb; done.
  - apply bool_decide_eq_true in Es. subst st. destruct (all_buffered b'); by split_and!.
  - by apply recv_shape_same.
Qed.

Lemma HandleReset_shape en s conn code fsize :
  let '(s', conn', ev, r) := RecvStream.HandleResetStreamFrame en s conn code fsize in
  recv_shape s s' ev.
Proof.
  unfold RecvStream.HandleResetStreamFrame. destruct (_ || bool_decide _); [by apply recv_shape_same|].
  destruct (_ && _); [by apply recv_shape_same|]. destruct (_ <? _); [by apply recv_shape_same|].
  destruct (Stream_UpdateHighestReceived _ _ _) as [[fc conn1] [[]|e|]]; [|by apply recv_shape_same..].
  match goal with |- context [if ?t then Stream_AddBytesRead ?a ?b ?n else ?e] =>
    destruct (if t then Stream_AddBytesRead a b n else e) as [fc2 conn2] end.
  match goal with |- context [maybeTriggerWindowUpdate en ?x conn2] => set (s2 := x) end.
  pose proof (maybeTrigger_spec en s2 conn2) as Ht. pose proof (maybeTrigger_events en s2 conn2) as He.
  destruct (maybeTriggerWindowUpdate en s2 conn2) as [[s3 conn3] ev3]. destruct Ht as (T1 & _).
  cbn [snd] in He. rewrite T1. unfold recv_shape, s2. rewrite recv_completes_app, He.
  destruct s. cbn. split_and!; try done. intros ->. cbn. by rewrite orb_true_r.
Qed.

Lemma Read_pass_shape en s conn plen :
  let '(s', conn', ev, o) := Read_pass en s conn plen in recv_shape s s' ev.
Proof.
  unfold Read_pass. destruct (plen =? 0); [by apply recv_shape_same|].
  destruct (cancelErr s); [by apply recv_shape_same|]. destruct (shutdownErr s); [by apply recv_shape_same|].
  destruct (_ || IsAllDataRead _); [by apply recv_shape_same|].
  destruct (deadline_passed en s); [by apply recv_shape_same|].
  destruct (rs_ctx s); [by apply recv_shape_same|].
  destruct (Reassembly.Read _ _) as [[b' out] eof]. destruct (0 <? zlen out).
  - destruct (Stream_AddBytesRead _ _ _) as [fc conn1].
    match goal with |- context [maybeTriggerWindowUpdate en ?x conn1] => set (s2 := x) end.
    pose proof (maybeTrigger_spec en s2 conn1) as Ht. pose proof (maybeTrigger_events en s2 conn1) as He.
    destruct (maybeTriggerWindowUpdate en s2 conn1) as [[s3 conn3] ev3]. destruct Ht as (T1 & _).
    cbn [snd] in He. rewrite T1. unfold recv_shape, s2. rewrite recv_completes_app, He.
    destruct s as [sid hs fc0 buf st ctx fk cb ssq ssc ce se rd dt dc cd dr]. cbn.
    destruct (IsAllDataRead b'); cbn; (split_and!; try done; intros ->; cbn; by rewrite ?orb_true_r, ?orb_false_r).
  - destruct eof; [|by apply recv_shape_same].
    unfold recv_shape. destruct s. cbn. split_and!; try done. intros ->. cbn. by rewrite orb_true_r.
Qed.

Lemma recv_step_shape s conn o :
  recv_shape s (r_stream (recv_step s conn o)) (r_events (recv_step s conn o)).
Proof.
  destruct o; cbn [recv_step]; try (by apply recv_shape_same).
  - pose proof (HandleStreamFrame_shape stale s conn offset data fin) as H.
    by destruct (RecvStream.HandleStreamFrame _ _ _ _ _ _) as [[[s' conn'] ev] r].
  - pose proof (HandleReset_shape en s conn code fsize) as H.
    by destruct (RecvStream.HandleResetStreamFrame _ _ _ _ _) as [[[s' conn'] ev] r].
  - pose proof (Read_pass_shape en s conn plen) as H.
    by destruct (Read_pass en s conn plen) as [[[s' conn'] ev] r].
  - destruct w; by apply recv_shape_same.
  - unfold CancelRead. destruct (_ || _); [by apply recv_shape_same|]. unfold recv_shape. destruct s. cbn.
    split_and!; try done. intros ->. cbn. by rewrite orb_true_r.
  - apply recv_shape_same; try done; unfold SetReadDeadline, close_deadline; destruct s; cbn;
      by repeat (case_match; cbn).
  - apply recv_shape_same; try done; unfold deadline_fires, close_deadline; by case_bool_decide.
  - unfold SetReceiveFinalSizeCallback. apply recv_shape_same; try done. cbn. by case_match.
  - unfold recv_GetWindowUpdate. destruct (Stream_GetWindowUpdate _). by apply recv_shape_same.
  - unfold GetStopSendingFrame. destruct (stopSendingQueued s); by apply recv_shape_same.
Qed.

(** The sending half.  [reset_known]: a reset state comes with its error. *)
Definition reset_known (s : SendStream) : Prop :=
  resetErr s = None -> ss_state s <> SendStateResetSent /\ ss_state s <> SendStateResetRecvd.
Definition send_shape (s s' : SendStream) (completes : bool) : Prop :=
  ss_id s' = ss_id s /\ ss_hasSender s' = ss_hasSender s
  /\ (ss_hasSender s = true -> reset_known s ->
      reset_known s' /\ send_done (ss_state s') = send_done (ss_state s) || completes).

(** Writing: identity, error and state, the last up to leaving Ready. *)
Definition write_shape (s s' : SendStream) : Prop :=
  ss_id s' = ss_id s /\ ss_hasSender s' = ss_hasSender s /\ resetErr s' = resetErr s
  /\ (ss_state s' = ss_state s \/ ss_state s = SendStateReady /\ ss_state s' = SendStateSend).

Lemma write_shape_refl s : write_shape s s.
Proof. unfold write_shape. auto. Qed.
Lemma write_shape_trans s1 s2 s3 : write_shape s1 s2 -> write_shape s2 s3 -> write_shape s1 s3.
Proof.
  unfold write_shape. intros (A1 & A2 & A3 & A4) (B1 & B2 & B3 & B4). split_and!; try congruence.
  destruct A4 as [A4|[A4 A5]], B4 as [B4|[B4 B5]]; [left|right|right|right]; split || idtac; congruence.
Qed.
Lemma write_shape_send s s' : write_shape s s' -> send_shape s s' false.
Proof.
  intros (E1 & E2 & E3 & E4). split_and!; try done. intros _ Hk. unfold reset_known in *. rewrite E3, orb_false_r.
  destruct E4 as [->|[Er ->]]; [done|]. rewrite Er. by split.
Qed.

Lemma write_commit_shape s conn data :
  let '(s', conn', ev) := write_commit s conn data in write_shape s s'.
Proof.
  unfold write_commit, Stream_AddBytesSent, write_shape. destruct_send s. cbn -[u64 zlen].
  destruct (decide (st = SendStateReady)) as [->|Hn]; [eval_states|rewrite !bool_decide_eq_false_2 by done];
    cbn; auto 10.
Qed.

Lemma write_blocked_shape s conn sc cc :
  let '(s', conn', ev, w) := write_blocked s conn sc cc in write_shape s s'.
Proof.
  unfold write_blocked. destruct (Stream_RegisterSendWaiter _) as [fc sw] eqn:E.
  destruct conn as [c|]; [destruct (cc <=? sc)|]; unfold write_shape; cbn;
    destruct (sc <=? cc); destruct s; cbn; auto.
Qed.

Lemma write_loop_shape en limiter fuel : forall s conn p t,
  let '(s', conn', ev, total, o) := write_loop fuel en limiter s conn p t in write_shape s s'.
Proof.
  induction fuel as [|fuel IH]; intros s conn p t; cbn [write_loop]; destruct (zlen p =? 0);
    try apply write_shape_refl.
  destruct (write_check en s conn) as [e|[[sc cc] eff]]; [apply write_shape_refl|].
  destruct (eff =? 0).
  - pose proof (write_blocked_shape s conn sc cc) as H.
    by destruct (write_blocked s conn sc cc) as [[[s1 conn1] ev] w].
  - destruct (_ =? 0); [apply write_shape_refl|].
    match goal with |- context [write_commit s conn ?d] => pose proof (write_commit_shape s conn d) as H;
      destruct (write_commit s conn d) as [[s1 conn1] ev1] end.
    match goal with |- context [write_loop fuel en limiter s1 conn1 ?q ?u] => specialize (IH s1 conn1 q u);
      destruct (write_loop fuel en limiter s1 conn1 q u) as [[[[s2 conn2] ev2] total] o] end.
    by eapply write_shape_trans.
Qed.

Lemma reset_with_shape s conn code remote :
  send_done (ss_state s) = false ->
  let '(s', conn', ev) := reset_with s conn code remote in send_shape s s' false.
Proof.
  intros Hd. unfold reset_with. destruct (if _ >? _ then _ else _) as [fc' conn']. destruct_send s.
  unfold send_shape, reset_known. cbn in *. split_and!; try done. intros _ _. by rewrite Hd.
Qed.

Lemma send_shape_same s s' :
  ss_id s' = ss_id s -> ss_hasSender s' = ss_hasSender s -> resetErr s' = resetErr s ->
  ss_state s' = ss_state s -> send_shape s s' false.
Proof. intros. apply write_shape_send. unfold write_shape. auto. Qed.

Lemma TryWriteAll_shape s conn p :
  let '(s', conn', ev, r) := TryWriteAll s conn p in send_shape s s' false.
Proof.
  pose proof (TryWriteAll_commit s conn p) as H. pose proof (write_commit_shape s conn p) as Hw.
  destruct (TryWriteAll s conn p) as [[[s' conn'] ev] [[]|e|]]; [|destruct H as [-> _]; by apply send_shape_same..].
  destruct H as [(_ & -> & _)|(E & _)]; [by apply send_shape_same|]. rewrite <- E in Hw. by apply write_shape_send.
Qed.

Lemma send_step_shape s conn o : send_shape s (w_stream (send_step s conn o)) (send_completes s o).
Proof.
  destruct o; cbn [send_step send_completes]; try (by apply send_shape_same).
  - unfold WriteWithLimit. pose proof (write_loop_shape en limiter (length p) s conn p 0) as H.
    destruct (write_loop _ _ _ _ _ _ _) as [[[[s' conn'] ev] n] out]. by apply write_shape_send.
  - pose proof (TryWriteAll_shape s conn p) as H. by destruct (TryWriteAll s conn p) as [[[s' conn'] ev] r].
  - unfold send_Close. destruct (resetErr s) eqn:Hr; [by apply send_shape_same|].
    destruct (_ || _) eqn:Hst; [by apply send_shape_same|]. unfold send_shape, reset_known.
    destruct s; cbn in *. subst. split_and!; try done. intros _ Hk. destruct (Hk eq_refl).
    split; [done|]. by destruct ss_state.
  - unfold CancelWrite. destruct (_ || _) eqn:Ht; [by apply send_shape_same|].
    apply orb_false_iff in Ht as [Ht _]. pose proof (reset_with_shape s conn code false Ht) as H.
    by destruct (reset_with s conn code false) as [[s' conn'] ev].
  - unfold HandleStopSending. destruct (_ || _) eqn:Ht; [by apply send_shape_same|].
    apply orb_false_iff in Ht as [Ht _].
    match goal with |- context [reset_with ?x conn code true] =>
      pose proof (reset_with_shape x conn code true Ht) as H;
      destruct (reset_with x conn code true) as [[s' conn'] ev] end. destruct s. exact H.
  - unfold PopStreamFrame. destruct (_ || _); [by apply send_shape_same|].
    destruct (_ && _); [by apply send_shape_same|]. destruct_send s. cbn -[zlen].
    destruct (_ >? 0); cbn -[zlen]; destruct (_ && _ && _); by apply send_shape_same.
  - unfold HandleAck. destruct (_ && bool_decide _) eqn:Ha; [|by apply send_shape_same].
    apply andb_true_iff in Ha as [_ Ha]. apply bool_decide_eq_true in Ha. unfold send_shape, reset_known.
    destruct s. cbn in *. subst. split_and!; try done. intros -> _. by split.
  - unfold HandleResetAck. case_bool_decide as Ha; [|by apply send_shape_same]. unfold send_shape, reset_known.
    destruct s. cbn in *. subst. split_and!; try done. intros -> Hk. split; [|done].
    intros Hr. by destruct (Hk Hr).
  - unfold GetResetStreamFrame. destruct (resetQueued s); by apply send_shape_same.
  - unfold send_GetStreamDataBlockedFrame. destruct (GetStreamDataBlockedFrame _). by apply send_shape_same.
  - apply send_shape_same; unfold SetWriteDeadline, ss_close_deadline; destruct s; cbn;
      by repeat (case_match; cbn).
Qed.

(** ** Identifier tables *)

(** The objects with identifiers [ids] (in order of allocation), the map of
    active ones and the set of retired identifiers agree. *)
Definition table_ok (ids : list Z) (m : gmap Z nat) (closed : gset Z) : Prop :=
  NoDup ids /\ forall id p, m !! id = Some p <-> ids !! p = Some id /\ id ∉ closed.

Lemma table_absent ids m closed id :
  table_ok ids m closed -> m !! id = None -> id ∉ closed -> id ∉ ids.
Proof.
  intros [_ Ht] Hm Hc Hin. apply list_elem_of_lookup in Hin as [p Hp].
  assert (m !! id = Some p) by by apply Ht. congruence.
Qed.

Lemma table_create ids m closed id :
  table_ok ids m closed -> id ∉ ids -> id ∉ closed ->
  table_ok (ids ++ [id]) (<[id := length ids]> m) closed.
Proof.
  intros [Hnd Ht] Hni Hc. split.
  - apply NoDup_app. split_and!; [done| |apply NoDup_singleton].
    intros x Hx ->%list_elem_of_singleton. done.
  - intros x p. rewrite lookup_insert_Some, lookup_app_Some, list_lookup_singleton_Some, Ht. split.
    + intros [[-> <-]|[Hne [Hp Hx]]]; [|by auto]. split; [right; lia|done].
    + intros [[Hp|[Hp [Hp' ->]]] Hx].
      * right. split; [|done]. intros ->. apply Hni. by eapply list_elem_of_lookup_2.
      * left. split; [done|lia].
Qed.

Lemma table_retire ids m closed id :
  table_ok ids m closed -> table_ok ids (delete id m) ({[id]} ∪ closed).
Proof.
  intros [Hnd Ht]. split; [done|]. intros x p. rewrite lookup_delete_Some, Ht, not_elem_of_union,
    not_elem_of_singleton. split; intros (? & ? & ?); auto.
Qed.

(** ** Identifier classes *)
Definition is_peer (pe : Perspective) (id : Z) : bool :=
  (IsClientInitiated id && bool_decide (pe = PerspectiveServer))
  || (IsServerInitiated id && bool_decide (pe = PerspectiveClient)).

Lemma IsBidi_mod id : IsBidi id = (id mod 4 <? 2).
Proof.
  unfold IsBidi. rewrite (land_via_low2 id 0x02) by done.
  by destruct (low2_cases id) as [->|[->|[->| ->]]].
Qed.
Lemma IsClient_mod id : IsClientInitiated id = (id mod 2 =? 0).
Proof. unfold IsClientInitiated. change 0x01 with (2 ^ 1 - 1). by rewrite land_mask. Qed.
Lemma is_peer_mod pe id :
  is_peer pe id = (id mod 2 =? match pe with PerspectiveServer => 0 | PerspectiveClient => 1 end).
Proof.
  unfold is_peer, IsServerInitiated. change (Z.land id 0x01 =? 0) with (IsClientInitiated id).
  rewrite IsClient_mod. destruct pe; cbn [bool_decide]; eval_states; cbn; lia.
Qed.
Lemma StreamNum_div id : is_u64 id -> StreamNum id = id / 4 + 1.
Proof.
  unfold is_u64, StreamNum. intros. rewrite Z.shiftr_div_pow2 by lia. apply u64_small. unfold is_u64. lia.
Qed.

(** Within a class the ordinal determines the identifier. *)
Lemma StreamNum_inj pe a b :
  is_u64 a -> is_u64 b -> IsBidi a = IsBidi b -> is_peer pe a = is_peer pe b ->
  StreamNum a = StreamNum b -> a = b.
Proof.
  intros Ha Hb. rewrite !IsBidi_mod, !is_peer_mod, !StreamNum_div by done. destruct pe; lia.
Qed.

(** Distinct identifiers of one class with ordinals up to [n]: at most [n]. *)
Lemma class_bound pe (ids : list Z) (bidi : bool) (n : Z) :
  NoDup ids -> 0 <= n ->
  Forall (fun id => is_u64 id /\ IsBidi id = bidi /\ is_peer pe id = true /\ StreamNum id <= n) ids ->
  zlen ids <= n.
Proof.
  intros Hnd Hn Hall. rewrite Forall_forall in Hall.
  assert (H : map StreamNum ids ⊆+ seqZ 1 n).
  { apply NoDup_submseteq.
    - apply NoDup_ListNoDup, NoDup_map_NoDup_ForallPairs; [|by apply NoDup_ListNoDup].
      intros a b Ha%list_elem_of_In Hb%list_elem_of_In E.
      destruct (Hall a Ha) as (A1 & A2 & A3 & _), (Hall b Hb) as (B1 & B2 & B3 & _).
      apply (StreamNum_inj pe); congruence.
    - intros x (id & -> & Hid)%list_elem_of_fmap. destruct (Hall id Hid) as (A1 & _ & _ & A4).
      apply elem_of_seqZ. rewrite StreamNum_div in * by done. unfold is_u64 in A1. lia. }
  apply submseteq_length in H. rewrite length_map, length_seqZ in H. unfold zlen. lia.
Qed.

(** Pointers of the peer's streams in order of allocation. *)
Definition peer_ptrs (pe : Perspective) (ids : list Z) : list nat :=
  concat (imap (fun p id => if is_peer pe id then [p] else []) ids).

#[global] Arguments peer_ptrs : simpl never.

Lemma peer_ptrs_snoc pe ids id :
  peer_ptrs pe (ids ++ [id]) = peer_ptrs pe ids ++ (if is_peer pe id then [length ids] else []).
Proof.
  unfold peer_ptrs. rewrite imap_app, concat_app. cbn. by rewrite app_nil_r, Nat.add_0_r.
Qed.

Lemma peer_ptrs_length pe ids :
  length (peer_ptrs pe ids) = length (filter (fun id => is_peer pe id = true) ids).
Proof.
  induction ids as [|id ids IH] using rev_ind; [done|].
  rewrite peer_ptrs_snoc, filter_app, !length_app, IH. f_equal.
  destruct (is_peer pe id) eqn:E; [rewrite filter_cons_True by done|rewrite filter_cons_False by congruence]; done.
Qed.

(** ** The invariant *)
Definition bidi_good (pe : Perspective) (nextLocal maxLocal : Z) (id : Z) : Prop :=
  is_u64 id /\ IsBidi id = true
  /\ (if is_peer pe id then StreamNum id <= maxLocal else StreamNum id < nextLocal).
Definition send_good (pe : Perspective) (nextLocal : Z) (id : Z) : Prop :=
  is_u64 id /\ IsBidi id = false /\ is_peer pe id = false /\ StreamNum id < nextLocal.
Definition recv_good (pe : Perspective) (maxLocal : Z) (id : Z) : Prop :=
  is_u64 id /\ IsBidi id = false /\ is_peer pe id = true /\ StreamNum id <= maxLocal.

(** All tables together: [closed] holds identifiers of existing objects only. *)
Definition ids_ok (pe : Perspective) (nb nu lb lu : Z) (bids sids rids : list Z)
    (bm sm rm : gmap Z nat) (closed : gset Z) : Prop :=
  table_ok bids bm closed /\ table_ok sids sm closed /\ table_ok rids rm closed
  /\ Forall (bidi_good pe nb lb) bids /\ Forall (send_good pe nu) sids /\ Forall (recv_good pe lu) rids
  /\ forall id, id ∈ closed -> id ∈ bids \/ id ∈ sids \/ id ∈ rids.

(** Streams handed out by accepting, then those waiting, are all the peer's
    streams in order; the overflow queue is not used. *)
Definition accept_ok (accs ch queue ptrs : list nat) : Prop := accs ++ ch = ptrs /\ queue = [].

Definition limits_ok (next max : Z) : Prop := 1 <= next /\ next - 1 <= max < 2 ^ 62.

(** Completion flags against the states of the halves and the retired set. *)
Definition stream_obj_ok (closed : gset Z) (s : Stream) : Prop :=
  str_hasSender s = true /\ ss_hasSender (sendStr s) = true /\ rs_hasSender (recvStr s) = true
  /\ reset_known (sendStr s)
  /\ sendCompleted s = send_done (ss_state (sendStr s))
  /\ recvCompleted s = recv_done (rs_state (recvStr s))
  /\ streamComplete s = sendCompleted s && recvCompleted s
  /\ (StreamID_of s ∈ closed <-> streamComplete s = true).
Definition send_obj_ok (closed : gset Z) (s : SendStream) : Prop :=
  ss_hasSender s = true /\ reset_known s /\ (ss_id s ∈ closed <-> send_done (ss_state s) = true).
Definition recv_obj_ok (closed : gset Z) (s : ReceiveStream) : Prop :=
  rs_hasSender s = true /\ (rs_id s ∈ closed <-> recv_done (rs_state s) = true).
Definition objs_ok (closed : gset Z) (bs : list Stream) (ss : list SendStream) (rs : list ReceiveStream) : Prop :=
  Forall (stream_obj_ok closed) bs /\ Forall (send_obj_ok closed) ss /\ Forall (recv_obj_ok closed) rs.

Definition persp (c : Conn) : Perspective := cfg_Perspective (config c).
Definition bidi_ids (c : Conn) : list Z := map StreamID_of (bidiObjs c).
Definition send_ids (c : Conn) : list Z := map ss_id (sendObjs c).
Definition recv_ids (c : Conn) : list Z := map rs_id (recvObjs c).

Definition conn_inv (c : Conn) (accb accu : list nat) : Prop :=
  limits_ok (nextLocalBidiStreamNum c) (maxPeerBidiStreams c)
  /\ limits_ok (nextLocalUniStreamNum c) (maxPeerUniStreams c)
  /\ vi_ok (bidi_cap c) /\ vi_ok (uni_cap c)
  /\ maxLocalBidiStreams c = bidi_cap c /\ maxLocalUniStreams c = uni_cap c
  /\ ids_ok (persp c) (nextLocalBidiStreamNum c) (nextLocalUniStreamNum c)
       (maxLocalBidiStreams c) (maxLocalUniStreams c)
       (bidi_ids c) (send_ids c) (recv_ids c)
       (bidiStreams c) (sendStreams c) (recvStreams c) (closedStreams c)
  /\ accept_ok accb (acceptBidiCh c) (acceptBidiQueue c) (peer_ptrs (persp c) (bidi_ids c))
  /\ accept_ok accu (acceptUniCh c) (acceptUniQueue c) (peer_ptrs (persp c) (recv_ids c))
  /\ objs_ok (closedStreams c) (bidiObjs c) (sendObjs c) (recvObjs c).

Lemma new_conn_inv en cfg : config_ok cfg -> conn_inv (NewConn en cfg) [] [].
Proof.
  intros (H1 & H2 & H3 & H4). unfold conn_inv, NewConn, config_defaults, limits_ok, or_default, vi_ok, bidi_cap,
    uni_cap in *. cbn. repeat split; try (repeat case_test; lia); try constructor; try done.
  all: by rewrite ?lookup_empty, ?lookup_nil; intros [? ?] || intros ?.
Qed.

(** ** Updating one object *)
Section Objects.
Context {A : Type} (idf : A -> Z) (P : gset Z -> A -> Prop).
(** [P] looks at the retired set only at the object's own identifier. *)
Context (P_own : forall closed closed' s, (idf s ∈ closed <-> idf s ∈ closed') -> P closed s -> P closed' s).
Context (closed closed' : gset Z) (id : Z).
Context (closed_id : forall x, x <> id -> x ∈ closed <-> x ∈ closed').

Lemma objs_others l : id ∉ map idf l -> Forall (P closed) l -> Forall (P closed') l.
Proof using P_own closed_id.
  intros Hn Hl. rewrite Forall_forall in *. intros s Hs. eapply P_own; [|by apply Hl]. apply closed_id.
  intros <-. apply Hn. by apply list_elem_of_fmap_2.
Qed.

Lemma objs_update l p s s' :
  NoDup (map idf l) -> l !! p = Some s -> idf s = id -> P closed' s' ->
  Forall (P closed) l -> Forall (P closed') (<[p := s']> l).
Proof using P_own closed_id.
  intros Hnd Hp Hid Hs' Hl. rewrite Forall_lookup in *. intros q x Hq.
  apply list_lookup_insert_Some in Hq as [(-> & <- & _)|[Hne Hq]]; [done|].
  eapply P_own; [|by apply (Hl q)]. apply closed_id. intros E. apply Hne.
  eapply (NoDup_lookup (map idf l)); [done|..]; rewrite list_lookup_fmap; [by rewrite Hp|].
  rewrite Hq. cbn. congruence.
Qed.
End Objects.

Lemma map_insert_same {A B} (f : A -> B) (l : list A) p s s' :
  l !! p = Some s -> f s' = f s -> map f (<[p := s']> l) = map f l.
Proof.
  intros Hp Hf. change (f <$> <[p := s']> l = f <$> l). rewrite list_fmap_insert, Hf.
  apply list_insert_id. by rewrite list_lookup_fmap, Hp.
Qed.

(** Retiring [id], or not. *)
Definition retire (done : bool) (id : Z) (closed : gset Z) : gset Z :=
  if done then {[id]} ∪ closed else closed.
Definition undo (done : bool) (id : Z) (m : gmap Z nat) : gmap Z nat := if done then delete id m else m.

Lemma retire_other done id closed x : x <> id -> x ∈ closed <-> x ∈ retire done id closed.
Proof. intros. unfold retire. destruct done; [|done]. rewrite elem_of_union, elem_of_singleton. tauto. Qed.
Lemma retire_own done id closed : id ∈ retire done id closed <-> done = true \/ id ∈ closed.
Proof. unfold retire. destruct done; rewrite ?elem_of_union, ?elem_of_singleton; intuition congruence. Qed.

Lemma ids_ok_retire done pe nb nu lb lu bids sids rids bm sm rm closed id :
  ids_ok pe nb nu lb lu bids sids rids bm sm rm closed ->
  (done = true -> id ∈ bids \/ id ∈ sids \/ id ∈ rids) ->
  ids_ok pe nb nu lb lu bids sids rids (undo done id bm) (undo done id sm) (undo done id rm)
    (retire done id closed).
Proof.
  intros (T1 & T2 & T3 & G1 & G2 & G3 & Hc) Hid. unfold undo, retire. destruct done; [|by split_and!].
  split_and!; try done; try by apply table_retire.
  intros x [->%elem_of_singleton|Hx]%elem_of_union; auto.
Qed.

(** The three classes of identifiers are disjoint. *)
Lemma ids_disjoint pe nb nu lb lu bids sids rids bm sm rm closed :
  ids_ok pe nb nu lb lu bids sids rids bm sm rm closed ->
  (forall id, id ∈ bids -> (id ∉ sids) /\ (id ∉ rids)) /\ (forall id, id ∈ sids -> id ∉ rids).
Proof.
  intros (_ & _ & _ & G1 & G2 & G3 & _). rewrite Forall_forall in G1, G2, G3. split.
  - intros id Hb. apply G1 in Hb as (_ & Hb & _). split; intros Hs;
      [apply G2 in Hs as (_ & Hs & _)|apply G3 in Hs as (_ & Hs & _)]; congruence.
  - intros id Hs Hr. apply G2 in Hs as (_ & _ & Hs & _). apply G3 in Hr as (_ & _ & Hr & _). congruence.
Qed.

Lemma stream_obj_own closed closed' s :
  (StreamID_of s ∈ closed <-> StreamID_of s ∈ closed') -> stream_obj_ok closed s -> stream_obj_ok closed' s.
Proof. unfold stream_obj_ok. intros E. by rewrite E. Qed.
Lemma send_obj_own closed closed' s :
  (ss_id s ∈ closed <-> ss_id s ∈ closed') -> send_obj_ok closed s -> send_obj_ok closed' s.
Proof. unfold send_obj_ok. intros E. by rewrite E. Qed.
Lemma recv_obj_own closed closed' s :
  (rs_id s ∈ closed <-> rs_id s ∈ closed') -> recv_obj_ok closed s -> recv_obj_ok closed' s.
Proof. unfold recv_obj_ok. intros E. by rewrite E. Qed.

(** A half reports completion: flags and retirement stay in step. *)
Lemma onHalf_ok s isSend :
  str_hasSender s = true -> streamComplete s = sendCompleted s && recvCompleted s ->
  let '(s', done) := onHalfCompleted s isSend in
  sendStr s' = sendStr s /\ recvStr s' = recvStr s /\ str_hasSender s' = true
  /\ sendCompleted s' = sendCompleted s || isSend /\ recvCompleted s' = recvCompleted s || negb isSend
  /\ streamComplete s' = sendCompleted s' && recvCompleted s'
  /\ streamComplete s' = streamComplete s || done.
Proof.
  intros H1 H2. destruct s as [x y fl hs a b d]. cbn in *. subst hs d. unfold onHalfCompleted.
  destruct isSend, a, b; by cbn.
Qed.

Lemma stream_recv_ok closed s conn o :
  stream_obj_ok closed s ->
  let '(s', done, r) := stream_recv s conn o in
  StreamID_of s' = StreamID_of s /\ stream_obj_ok (retire done (StreamID_of s) closed) s'.
Proof.
  intros (H1 & H2 & H3 & H4 & H5 & H6 & H7 & H8). unfold stream_recv.
  pose proof (recv_step_shape { recvStr s with rs_flow := str_flow s } conn o) as (R1 & R2 & R3).
  set (r := recv_step _ conn o) in *.
  assert (Hr : rs_hasSender { recvStr s with rs_flow := str_flow s } = true) by by destruct (recvStr s).
  specialize (R3 Hr). rewrite Hr in R2.
  assert (E : rs_state { recvStr s with rs_flow := str_flow s } = rs_state (recvStr s)) by by destruct (recvStr s).
  rewrite E, <- H6 in R3. set (s1 := { s with recvStr := r_stream r; str_flow := rs_flow (r_stream r) }).
  destruct (recv_completes (r_events r)) eqn:Ec.
  - pose proof (onHalf_ok s1 false H1 H7) as Hh. destruct (onHalfCompleted s1 false) as [s2 done].
    destruct Hh as (E1 & E2 & E3 & E4 & E5 & E6 & E7).
    assert (Eid : StreamID_of s2 = StreamID_of s) by (unfold StreamID_of; by rewrite E1).
    split; [done|]. unfold stream_obj_ok. rewrite Eid, E1, E2, E4, E5. cbn.
    rewrite orb_false_r, orb_true_r in *. split_and!; try done.
    + by rewrite E6, E4, E5.
    + rewrite retire_own, E7, H8. change (streamComplete s1) with (streamComplete s).
      rewrite orb_true_iff. tauto.
  - rewrite orb_false_r in R3. split; [done|]. by split_and!.
Qed.

Lemma stream_send_ok closed s conn o :
  stream_obj_ok closed s ->
  let '(s', done, r) := stream_send s conn o in
  StreamID_of s' = StreamID_of s /\ stream_obj_ok (retire done (StreamID_of s) closed) s'.
Proof.
  intros (H1 & H2 & H3 & H4 & H5 & H6 & H7 & H8). unfold stream_send.
  set (h := { sendStr s with ss_flow := str_flow s }).
  pose proof (send_step_shape h conn o) as (R1 & R2 & R3). set (r := send_step h conn o) in *.
  assert (Hr : ss_hasSender h = true) by by unfold h; destruct (sendStr s).
  assert (Hk : reset_known h) by (unfold h, reset_known in *; by destruct (sendStr s)).
  destruct (R3 Hr Hk) as [R4 R5]. rewrite Hr in R2.
  assert (E : ss_state h = ss_state (sendStr s)) by by unfold h; destruct (sendStr s).
  assert (Eh : ss_id h = StreamID_of s) by by unfold h, StreamID_of; destruct (sendStr s).
  rewrite E, <- H5 in R5. set (s1 := { s with sendStr := w_stream r; str_flow := ss_flow (w_stream r) }).
  destruct (send_completes h o) eqn:Ec.
  - pose proof (onHalf_ok s1 true H1 H7) as Hh. destruct (onHalfCompleted s1 true) as [s2 done].
    destruct Hh as (E1 & E2 & E3 & E4 & E5 & E6 & E7).
    assert (Eid : StreamID_of s2 = StreamID_of s) by (unfold StreamID_of in *; rewrite E1; cbn; congruence).
    split; [done|]. unfold stream_obj_ok. rewrite Eid, E1, E2, E4, E5. cbn.
    rewrite orb_false_r, orb_true_r in *. split_and!; try done.
    + by rewrite E6, E4, E5.
    + rewrite retire_own, E7, H8. change (streamComplete s1) with (streamComplete s).
      rewrite orb_true_iff. tauto.
  - rewrite orb_false_r in R5. assert (Eid : StreamID_of s1 = StreamID_of s) by (unfold StreamID_of in *; cbn; congruence).
    split; [done|]. unfold stream_obj_ok. cbn [retire]. rewrite Eid. by split_and!.
Qed.

(** ** Steps preserve the invariant *)

(** What an operation on stream objects leaves alone. *)
Definition same_frame (c c' : Conn) : Prop :=
  config c' = config c
  /\ nextLocalBidiStreamNum c' = nextLocalBidiStreamNum c
  /\ nextLocalUniStreamNum c' = nextLocalUniStreamNum c
  /\ maxPeerBidiStreams c' = maxPeerBidiStreams c /\ maxPeerUniStreams c' = maxPeerUniStreams c
  /\ maxLocalBidiStreams c' = maxLocalBidiStreams c /\ maxLocalUniStreams c' = maxLocalUniStreams c
  /\ acceptBidiCh c' = acceptBidiCh c /\ acceptBidiQueue c' = acceptBidiQueue c
  /\ acceptUniCh c' = acceptUniCh c /\ acceptUniQueue c' = acceptUniQueue c
  /\ bidi_ids c' = bidi_ids c /\ send_ids c' = send_ids c /\ recv_ids c' = recv_ids c.

Lemma inv_objects c c' accb accu done id :
  conn_inv c accb accu -> same_frame c c' ->
  (done = true -> id ∈ bidi_ids c \/ id ∈ send_ids c \/ id ∈ recv_ids c) ->
  bidiStreams c' = undo done id (bidiStreams c) -> sendStreams c' = undo done id (sendStreams c) ->
  recvStreams c' = undo done id (recvStreams c) -> closedStreams c' = retire done id (closedStreams c) ->
  objs_ok (closedStreams c') (bidiObjs c') (sendObjs c') (recvObjs c') -> conn_inv c' accb accu.
Proof.
  intros (I1 & I2 & I3 & I4 & I5 & I6 & I7 & I8 & I9 & I10)
    (E1 & E2 & E3 & E4 & E5 & E6 & E7 & E8 & E9 & E10 & E11 & E12 & E13 & E14) Hid F1 F2 F3 F4 Hobj.
  apply (ids_ok_retire done _ _ _ _ _ _ _ _ _ _ _ _ id) in I7; [|done].
  unfold conn_inv, persp, bidi_cap, uni_cap in *.
  rewrite E1, E2, E3, E4, E5, E6, E7, E8, E9, E10, E11, E12, E13, E14, F1, F2, F3, F4.
  rewrite F4 in Hobj. by split_and!.
Qed.

Ltac destruct_conn c :=
  destruct c as [cfg ctx cfl bm sm rm nb nu pb pu wb wu nw cws lb lu clo bch bq uch uq cl ce bobjs sobjs robjs].

Lemma bidi_update_inv c accb accu p s s' done f :
  conn_inv c accb accu -> bidiObjs c !! p = Some s -> StreamID_of s' = StreamID_of s ->
  stream_obj_ok (retire done (StreamID_of s) (closedStreams c)) s' ->
  let c1 := { c with bidiObjs := <[p := s']> (bidiObjs c); connFlowController := f } in
  conn_inv (if done : bool then OnStreamCompleted c1 (StreamID_of s') else c1) accb accu.
Proof.
  intros Hinv Hp Hid Hok c1. pose proof Hinv as (_ & _ & _ & _ & _ & _ & Hids & _ & _ & Ho1 & Ho2 & Ho3).
  destruct (ids_disjoint _ _ _ _ _ _ _ _ _ _ _ _ Hids) as [Hd _].
  assert (Hin : StreamID_of s ∈ bidi_ids c) by (apply list_elem_of_fmap_2; by eapply list_elem_of_lookup_2).
  destruct (Hd _ Hin) as [Hd1 Hd2]. assert (Hnd : NoDup (bidi_ids c)) by by destruct Hids as ((? & _) & _).
  pose proof (fun x => retire_other done (StreamID_of s) (closedStreams c) x) as Hret.
  assert (Hids' : bidi_ids c1 = bidi_ids c) by (by apply (map_insert_same _ _ _ s)).
  apply (inv_objects c _ accb accu done (StreamID_of s)); try done; try (intros _; by left).
  - unfold same_frame. destruct done; by split_and!.
  - destruct done; [cbn; by rewrite Hid|done].
  - destruct done; [cbn; by rewrite Hid|done].
  - destruct done; [cbn; by rewrite Hid|done].
  - destruct done; [cbn; by rewrite Hid|done].
  - replace (closedStreams (if done then _ else _)) with (retire done (StreamID_of s) (closedStreams c))
      by (destruct done; [cbn; by rewrite Hid|done]).
    assert (Hb : Forall (stream_obj_ok (retire done (StreamID_of s) (closedStreams c))) (<[p := s']> (bidiObjs c)))
      by (eapply (objs_update StreamID_of); eauto using stream_obj_own).
    assert (Hs : Forall (send_obj_ok (retire done (StreamID_of s) (closedStreams c))) (sendObjs c))
      by (eapply (objs_others ss_id); eauto using send_obj_own).
    assert (Hr : Forall (recv_obj_ok (retire done (StreamID_of s) (closedStreams c))) (recvObjs c))
      by (eapply (objs_others rs_id); eauto using recv_obj_own).
    destruct done; by split_and!.
Qed.

Lemma send_update_inv c accb accu p s s' done f :
  conn_inv c accb accu -> sendObjs c !! p = Some s -> ss_id s' = ss_id s ->
  send_obj_ok (retire done (ss_id s) (closedStreams c)) s' ->
  let c1 := { c with sendObjs := <[p := s']> (sendObjs c); connFlowController := f } in
  conn_inv (if done : bool then OnStreamCompleted c1 (ss_id s') else c1) accb accu.
Proof.
  intros Hinv Hp Hid Hok c1. pose proof Hinv as (_ & _ & _ & _ & _ & _ & Hids & _ & _ & Ho1 & Ho2 & Ho3).
  destruct (ids_disjoint _ _ _ _ _ _ _ _ _ _ _ _ Hids) as [Hd Hd'].
  assert (Hin : ss_id s ∈ send_ids c) by (apply list_elem_of_fmap_2; by eapply list_elem_of_lookup_2).
  assert (Hd1 : ss_id s ∉ bidi_ids c) by (intros Hb; by destruct (Hd _ Hb)).
  pose proof (Hd' _ Hin) as Hd2.
  assert (Hnd : NoDup (send_ids c)) by by destruct Hids as (_ & (? & _) & _).
  pose proof (fun x => retire_other done (ss_id s) (closedStreams c) x) as Hret.
  assert (Hids' : send_ids c1 = send_ids c) by (by apply (map_insert_same _ _ _ s)).
  apply (inv_objects c _ accb accu done (ss_id s)); try done; try (intros _; by right; left).
  - unfold same_frame. destruct done; by split_and!.
  - destruct done; [cbn; by rewrite Hid|done].
  - destruct done; [cbn; by rewrite Hid|done].
  - destruct done; [cbn; by rewrite Hid|done].
  - destruct done; [cbn; by rewrite Hid|done].
  - replace (closedStreams (if done then _ else _)) with (retire done (ss_id s) (closedStreams c))
      by (destruct done; [cbn; by rewrite Hid|done]).
    assert (Hs : Forall (send_obj_ok (retire done (ss_id s) (closedStreams c))) (<[p := s']> (sendObjs c)))
      by (eapply (objs_update ss_id); eauto using send_obj_own).
    assert (Hb : Forall (stream_obj_ok (retire done (ss_id s) (closedStreams c))) (bidiObjs c))
      by (eapply (objs_others StreamID_of); eauto using stream_obj_own).
    assert (Hr : Forall (recv_obj_ok (retire done (ss_id s) (closedStreams c))) (recvObjs c))
      by (eapply (objs_others rs_id); eauto using recv_obj_own).
    destruct done; by split_and!.
Qed.

Lemma recv_update_inv c accb accu p s s' done f :
  conn_inv c accb accu -> recvObjs c !! p = Some s -> rs_id s' = rs_id s ->
  recv_obj_ok (retire done (rs_id s) (closedStreams c)) s' ->
  let c1 := { c with recvObjs := <[p := s']> (recvObjs c); connFlowController := f } in
  conn_inv (if done : bool then OnStreamCompleted c1 (rs_id s') else c1) accb accu.
Proof.
  intros Hinv Hp Hid Hok c1. pose proof Hinv as (_ & _ & _ & _ & _ & _ & Hids & _ & _ & Ho1 & Ho2 & Ho3).
  destruct (ids_disjoint _ _ _ _ _ _ _ _ _ _ _ _ Hids) as [Hd Hd'].
  assert (Hin : rs_id s ∈ recv_ids c) by (apply list_elem_of_fmap_2; by eapply list_elem_of_lookup_2).
  assert (Hd1 : rs_id s ∉ bidi_ids c) by (intros Hb; by destruct (Hd _ Hb)).
  assert (Hd2 : rs_id s ∉ send_ids c) by (intros Hb; by destruct (Hd' _ Hb)).
  assert (Hnd : NoDup (recv_ids c)) by by destruct Hids as (_ & _ & (? & _) & _).
  pose proof (fun x => retire_other done (rs_id s) (closedStreams c) x) as Hret.
  assert (Hids' : recv_ids c1 = recv_ids c) by (by apply (map_insert_same _ _ _ s)).
  apply (inv_objects c _ accb accu done (rs_id s)); try done; try (intros _; by right; right).
  - unfold same_frame. destruct done; by split_and!.
  - destruct done; [cbn; by rewrite Hid|done].
  - destruct done; [cbn; by rewrite Hid|done].
  - destruct done; [cbn; by rewrite Hid|done].
  - destruct done; [cbn; by rewrite Hid|done].
  - replace (closedStreams (if done then _ else _)) with (retire done (rs_id s) (closedStreams c))
      by (destruct done; [cbn; by rewrite Hid|done]).
    assert (Hr : Forall (recv_obj_ok (retire done (rs_id s) (closedStreams c))) (<[p := s']> (recvObjs c)))
      by (eapply (objs_update rs_id); eauto using recv_obj_own).
    assert (Hb : Forall (stream_obj_ok (retire done (rs_id s) (closedStreams c))) (bidiObjs c))
      by (eapply (objs_others StreamID_of); eauto using stream_obj_own).
    assert (Hs : Forall (send_obj_ok (retire done (rs_id s) (closedStreams c))) (sendObjs c))
      by (eapply (objs_others ss_id); eauto using send_obj_own).
    destruct done; by split_and!.
Qed.

Lemma bidi_recv_inv c accb accu p o :
  conn_inv c accb accu -> conn_inv (fst (bidi_recv c p o)) accb accu.
Proof.
  intros Hinv. unfold bidi_recv. destruct (bidiObjs c !! p) as [s|] eqn:Hp; [|done].
  assert (Hs : stream_obj_ok (closedStreams c) s).
  { destruct Hinv as (_ & _ & _ & _ & _ & _ & _ & _ & _ & Ho & _). rewrite Forall_lookup in Ho. by apply (Ho p). }
  pose proof (stream_recv_ok _ s (Some (connFlowController c)) o Hs) as H.
  destruct (stream_recv _ _ _) as [[s' done] r]. destruct H as [Hid Hok].
  by apply (bidi_update_inv _ _ _ p s s' done).
Qed.

Lemma bidi_send_inv c accb accu p o :
  conn_inv c accb accu -> conn_inv (bidi_send c p o) accb accu.
Proof.
  intros Hinv. unfold bidi_send. destruct (bidiObjs c !! p) as [s|] eqn:Hp; [|done].
  assert (Hs : stream_obj_ok (closedStreams c) s).
  { destruct Hinv as (_ & _ & _ & _ & _ & _ & _ & _ & _ & Ho & _). rewrite Forall_lookup in Ho. by apply (Ho p). }
  pose proof (stream_send_ok _ s (Some (connFlowController c)) o Hs) as H.
  destruct (stream_send _ _ _) as [[s' done] r]. destruct H as [Hid Hok].
  by apply (bidi_update_inv _ _ _ p s s' done).
Qed.

Lemma uni_recv_inv c accb accu p o :
  conn_inv c accb accu -> conn_inv (fst (uni_recv c p o)) accb accu.
Proof.
  intros Hinv. unfold uni_recv. destruct (recvObjs c !! p) as [s|] eqn:Hp; [|done].
  assert (Hs : recv_obj_ok (closedStreams c) s).
  { destruct Hinv as (_ & _ & _ & _ & _ & _ & _ & _ & _ & _ & _ & Ho). rewrite Forall_lookup in Ho. by apply (Ho p). }
  destruct Hs as [H1 H2]. destruct (recv_step_shape s (Some (connFlowController c)) o) as (R1 & R2 & R3).
  specialize (R3 H1). apply (recv_update_inv _ _ _ p s); [done|done|done|].
  unfold recv_obj_ok. rewrite R1, R2, R3, retire_own, H2, orb_true_iff. split; [done|tauto].
Qed.

Lemma uni_send_inv c accb accu p o :
  conn_inv c accb accu -> conn_inv (uni_send c p o) accb accu.
Proof.
  intros Hinv. unfold uni_send. destruct (sendObjs c !! p) as [s|] eqn:Hp; [|done].
  assert (Hs : send_obj_ok (closedStreams c) s).
  { destruct Hinv as (_ & _ & _ & _ & _ & _ & _ & _ & _ & _ & Ho & _). rewrite Forall_lookup in Ho. by apply (Ho p). }
  destruct Hs as (H1 & H2 & H3). destruct (send_step_shape s (Some (connFlowController c)) o) as (R1 & R2 & R3).
  destruct (R3 H1 H2) as [R4 R5]. apply (send_update_inv _ _ _ p s); [done|done|done|].
  unfold send_obj_ok. rewrite R1, R2, R5, retire_own, H3, orb_true_iff. split_and!; [done|done|tauto..].
Qed.

(** ** Creating streams *)
Lemma Forall_snoc {A} (P : A -> Prop) l x : Forall P l -> P x -> Forall P (l ++ [x]).
Proof. intros. apply Forall_app. split; [done|by constructor]. Qed.

Section Create.
Context (pe : Perspective) (nb nu lb lu : Z) (bids sids rids : list Z) (bm sm rm : gmap Z nat) (closed : gset Z).
Context (Hok : ids_ok pe nb nu lb lu bids sids rids bm sm rm closed).

(** A retired identifier belongs to a stream of its class. *)
Lemma closed_class id :
  id ∈ closed ->
  if IsBidi id then id ∈ bids else if is_peer pe id then id ∈ rids else id ∈ sids.
Proof using Hok.
  destruct Hok as (_ & _ & _ & G1 & G2 & G3 & Hc). rewrite Forall_forall in G1, G2, G3.
  intros [H|[H|H]]%Hc; [apply G1 in H as Hg|apply G2 in H as Hg|apply G3 in H as Hg].
  - by destruct Hg as (_ & -> & _).
  - by destruct Hg as (_ & -> & -> & _).
  - by destruct Hg as (_ & -> & -> & _).
Qed.

Lemma ids_ok_bidi id nb' :
  is_u64 id -> IsBidi id = true -> id ∉ bids -> nb <= nb' ->
  (if is_peer pe id then StreamNum id <= lb else StreamNum id < nb') ->
  ids_ok pe nb' nu lb lu (bids ++ [id]) sids rids (<[id := length bids]> bm) sm rm closed /\ (id ∉ closed).
Proof using Hok.
  intros Hu Hb Hn Hnb Hg.
  assert (Hc : id ∉ closed) by (intros H%closed_class; by rewrite Hb in H).
  destruct Hok as (T1 & T2 & T3 & G1 & G2 & G3 & Hcl). split; [|done]. split_and!; try done.
  - by apply table_create.
  - apply Forall_snoc; [|by split_and!]. eapply Forall_impl; [exact G1|].
    intros x (X1 & X2 & X3). split_and!; try done. destruct (is_peer pe x); lia.
  - intros x Hx. rewrite elem_of_app. destruct (Hcl x Hx) as [?|[?|?]]; auto.
Qed.

Lemma ids_ok_send id nu' :
  is_u64 id -> IsBidi id = false -> is_peer pe id = false -> id ∉ sids -> nu <= nu' -> StreamNum id < nu' ->
  ids_ok pe nb nu' lb lu bids (sids ++ [id]) rids bm (<[id := length sids]> sm) rm closed /\ (id ∉ closed).
Proof using Hok.
  intros Hu Hb Hp Hn Hnu Hg.
  assert (Hc : id ∉ closed) by (intros H%closed_class; by rewrite Hb, Hp in H).
  destruct Hok as (T1 & T2 & T3 & G1 & G2 & G3 & Hcl). split; [|done]. split_and!; try done.
  - by apply table_create.
  - apply Forall_snoc; [|by split_and!]. eapply Forall_impl; [exact G2|].
    intros x (X1 & X2 & X3 & X4). split_and!; try done. lia.
  - intros x Hx. rewrite elem_of_app. destruct (Hcl x Hx) as [?|[?|?]]; auto.
Qed.

Lemma ids_ok_recv id :
  is_u64 id -> IsBidi id = false -> is_peer pe id = true -> id ∉ rids -> StreamNum id <= lu ->
  ids_ok pe nb nu lb lu bids sids (rids ++ [id]) bm sm (<[id := length rids]> rm) closed /\ (id ∉ closed).
Proof using Hok.
  intros Hu Hb Hp Hn Hg.
  assert (Hc : id ∉ closed) by (intros H%closed_class; by rewrite Hb, Hp in H).
  destruct Hok as (T1 & T2 & T3 & G1 & G2 & G3 & Hcl). split; [|done]. split_and!; try done.
  - by apply table_create.
  - apply Forall_snoc; [done|by split_and!].
  - intros x Hx. rewrite elem_of_app. destruct (Hcl x Hx) as [?|[?|?]]; auto.
Qed.

(** The peer never has more streams than the limits allow. *)
Lemma peer_bidi_bound : 0 <= lb -> zlen (peer_ptrs pe bids) <= lb.
Proof using Hok.
  intros Hlb. destruct Hok as ((Hnd & _) & _ & _ & G1 & _). unfold zlen. rewrite peer_ptrs_length.
  apply (class_bound pe _ true); [by apply NoDup_filter|done|].
  rewrite Forall_forall in *. intros id [Hp Hin]%list_elem_of_filter. apply G1 in Hin as (? & ? & Hg).
  rewrite Hp in Hg. by split_and!.
Qed.
Lemma peer_recv_bound : 0 <= lu -> zlen (peer_ptrs pe rids) <= lu.
Proof using Hok.
  intros Hlu. destruct Hok as (_ & _ & (Hnd & _) & _ & _ & G3 & _). unfold zlen. rewrite peer_ptrs_length.
  apply (class_bound pe _ false); [by apply NoDup_filter|done|].
  rewrite Forall_forall in *. intros id [Hp Hin]%list_elem_of_filter. apply G3 in Hin as (? & ? & ? & ?).
  by split_and!.
Qed.
End Create.

(** The identifier of the next local stream. *)
Lemma local_id c (bidi : bool) n :
  1 <= n <= 2 ^ 62 ->
  let id := NewStreamID (local_type c bidi) n in
  is_u64 id /\ IsBidi id = bidi /\ is_peer (persp c) id = false /\ StreamNum id = n.
Proof.
  intros Hn id. unfold id. rewrite NewStreamID_value by done.
  assert (Hu : is_u64 ((n - 1) * 4 + StreamType_value (local_type c bidi))).
  { pose proof (StreamType_value_range (local_type c bidi)). unfold is_u64. lia. }
  rewrite IsBidi_mod, is_peer_mod, StreamNum_div by done. unfold local_type, persp.
  destruct (cfg_Perspective (config c)), bidi; cbn [StreamType_value]; unfold is_u64; split_and!; try done; lia.
Qed.

Lemma new_stream_obj_ok closed id fc ctx : id ∉ closed -> stream_obj_ok closed (NewStream id true fc ctx).
Proof. intros Hc. unfold stream_obj_ok, NewStream, reset_known, StreamID_of. cbn. by split_and!. Qed.
Lemma new_send_obj_ok closed id fc ctx : id ∉ closed -> send_obj_ok closed (NewSendStream id true fc ctx).
Proof. intros Hc. unfold send_obj_ok, NewSendStream, reset_known. cbn. by split_and!. Qed.
Lemma new_recv_obj_ok closed id fc ctx : id ∉ closed -> recv_obj_ok closed (NewReceiveStream id true fc ctx).
Proof. intros Hc. unfold recv_obj_ok, NewReceiveStream. cbn. by split_and!. Qed.

Lemma accept_enqueue accs ch ptrs (p : nat) cap :
  accept_ok accs ch [] ptrs -> zlen (ptrs ++ [p]) <= cap ->
  (zlen ch <? cap) = true /\ accept_ok accs (ch ++ [p]) [] (ptrs ++ [p]).
Proof.
  intros [<- _] Hl. rewrite !zlen_app in Hl. change (zlen [p]) with 1 in Hl.
  pose proof (zlen_nonneg accs). split; [lia|]. split; [|done]. by rewrite app_assoc.
Qed.

(** The ten parts of [conn_inv]. *)
Ltac split_inv :=
  split; [|split; [|split; [|split; [|split; [|split; [|split; [|split; [|split]]]]]]]].

Lemma map_snoc {A B} (f : A -> B) l x : map f (l ++ [x]) = map f l ++ [f x].
Proof. apply map_app. Qed.

Lemma openBidi_inv en c accb accu :
  conn_inv c accb accu -> u64 (nextLocalBidiStreamNum c - 1) < maxPeerBidiStreams c ->
  let '(c', p) := openBidi en c in
  conn_inv c' accb accu
  /\ bidiObjs c' = bidiObjs c ++ [NewStream (NewStreamID (local_type c true) (nextLocalBidiStreamNum c)) true
       (stream_controller en c (NewStreamID (local_type c true) (nextLocalBidiStreamNum c))) (cn_ctx c)]
  /\ p = length (bidiObjs c) /\ nextLocalBidiStreamNum c' = nextLocalBidiStreamNum c + 1
  /\ maxPeerBidiStreams c' = maxPeerBidiStreams c.
Proof.
  intros ((L1 & L2) & I2 & I3 & I4 & I5 & I6 & I7 & I8 & I9 & I10) Hlt.
  rewrite u64_small in Hlt by (unfold is_u64; lia).
  destruct (local_id c true (nextLocalBidiStreamNum c) ltac:(lia)) as (U & B & Pn & N).
  unfold openBidi. set (id := NewStreamID _ _) in *.
  assert (Hni : id ∉ bidi_ids c).
  { destruct I7 as (_ & _ & _ & G1 & _). rewrite Forall_forall in G1. intros (_ & _ & H)%G1.
    rewrite Pn in H. lia. }
  destruct (ids_ok_bidi _ _ _ _ _ _ _ _ _ _ _ _ I7 id (nextLocalBidiStreamNum c + 1) U B Hni ltac:(lia)
    ltac:(rewrite Pn; lia)) as [I7' Hc].
  unfold createBidiStreamLocked. destruct_conn c.
  unfold conn_inv, limits_ok, persp, bidi_cap, uni_cap, bidi_ids, send_ids, recv_ids in *. cbn -[u64] in *.
  rewrite u64_small by (unfold is_u64; lia). split; [|by split_and!].
  split_inv; try done; try lia.
  - rewrite map_snoc. cbn. by rewrite length_map in I7'.
  - rewrite map_snoc, peer_ptrs_snoc. cbn. by rewrite Pn, app_nil_r.
  - destruct I10 as (O1 & O2 & O3). split_and!; try done. by apply Forall_snoc, new_stream_obj_ok.
Qed.

Lemma openUni_inv en c accb accu :
  conn_inv c accb accu -> u64 (nextLocalUniStreamNum c - 1) < maxPeerUniStreams c ->
  let '(c', p) := openUni en c in
  conn_inv c' accb accu
  /\ sendObjs c' = sendObjs c ++ [NewSendStream (NewStreamID (local_type c false) (nextLocalUniStreamNum c)) true
       (stream_controller en c (NewStreamID (local_type c false) (nextLocalUniStreamNum c))) (cn_ctx c)]
  /\ p = length (sendObjs c) /\ nextLocalUniStreamNum c' = nextLocalUniStreamNum c + 1
  /\ maxPeerUniStreams c' = maxPeerUniStreams c.
Proof.
  intros (I1 & (L1 & L2) & I3 & I4 & I5 & I6 & I7 & I8 & I9 & I10) Hlt.
  rewrite u64_small in Hlt by (unfold is_u64; lia).
  destruct (local_id c false (nextLocalUniStreamNum c) ltac:(lia)) as (U & B & Pn & N).
  unfold openUni. set (id := NewStreamID _ _) in *.
  assert (Hni : id ∉ send_ids c).
  { destruct I7 as (_ & _ & _ & _ & G2 & _). rewrite Forall_forall in G2. intros (_ & _ & _ & H)%G2. lia. }
  destruct (ids_ok_send _ _ _ _ _ _ _ _ _ _ _ _ I7 id (nextLocalUniStreamNum c + 1) U B Pn Hni ltac:(lia)
    ltac:(lia)) as [I7' Hc].
  unfold createSendStream. destruct_conn c.
  unfold conn_inv, limits_ok, persp, bidi_cap, uni_cap, bidi_ids, send_ids, recv_ids in *. cbn -[u64] in *.
  rewrite u64_small by (unfold is_u64; lia). split; [|by split_and!].
  split_inv; try done; try lia.
  - rewrite map_snoc. cbn. by rewrite length_map in I7'.
  - destruct I10 as (O1 & O2 & O3). split_and!; try done. by apply Forall_snoc, new_send_obj_ok.
Qed.

Lemma peerBidi_inv en c accb accu id :
  conn_inv c accb accu -> is_u64 id -> IsBidi id = true -> isPeerInitiated c id = true ->
  bidiStreams c !! id = None -> id ∉ closedStreams c -> StreamNum id <= maxLocalBidiStreams c ->
  let '(c', p) := createBidiStreamLocked en c id in
  conn_inv (enqueueBidiStreamLocked c' p) accb accu.
Proof.
  intros (I1 & I2 & I3 & I4 & I5 & I6 & I7 & I8 & I9 & I10) U B Pn Hm Hc Hl.
  change (is_peer (persp c) id = true) in Pn.
  assert (Hni : id ∉ bidi_ids c) by (eapply table_absent; [by destruct I7|done|done]).
  destruct (ids_ok_bidi _ _ _ _ _ _ _ _ _ _ _ _ I7 id (nextLocalBidiStreamNum c) U B Hni ltac:(lia)
    ltac:(by rewrite Pn)) as [I7' _].
  pose proof (peer_bidi_bound _ _ _ _ _ _ _ _ _ _ _ _ I7' ltac:(unfold vi_ok in *; lia)) as Hb.
  rewrite peer_ptrs_snoc, Pn in Hb. pose proof I8 as [_ Hq]. rewrite Hq in I8. rewrite I5 in Hb.
  destruct (accept_enqueue _ _ _ _ _ I8 Hb) as [Hroom Hacc].
  unfold createBidiStreamLocked, enqueueBidiStreamLocked. destruct_conn c.
  unfold conn_inv, limits_ok, persp, bidi_cap, uni_cap, bidi_ids, send_ids, recv_ids in *. cbn in *.
  subst bq. rewrite Hroom. cbn. rewrite length_map in *. split_inv; try done.
  - rewrite map_snoc. exact I7'.
  - rewrite map_snoc, peer_ptrs_snoc. cbn. rewrite Pn, length_map. exact Hacc.
  - destruct I10 as (O1 & O2 & O3). split_and!; try done. by apply Forall_snoc, new_stream_obj_ok.
Qed.

Lemma peerUni_inv en c accb accu id :
  conn_inv c accb accu -> is_u64 id -> IsBidi id = false -> isPeerInitiated c id = true ->
  recvStreams c !! id = None -> id ∉ closedStreams c -> StreamNum id <= maxLocalUniStreams c ->
  let '(c', p) := createReceiveStream en c id in
  conn_inv (enqueueUniStreamLocked c' p) accb accu.
Proof.
  intros (I1 & I2 & I3 & I4 & I5 & I6 & I7 & I8 & I9 & I10) U B Pn Hm Hc Hl.
  change (is_peer (persp c) id = true) in Pn.
  assert (Hni : id ∉ recv_ids c) by (eapply table_absent; [by destruct I7 as (_ & _ & ? & _)|done|done]).
  destruct (ids_ok_recv _ _ _ _ _ _ _ _ _ _ _ _ I7 id U B Pn Hni Hl) as [I7' _].
  pose proof (peer_recv_bound _ _ _ _ _ _ _ _ _ _ _ _ I7' ltac:(unfold vi_ok in *; lia)) as Hb.
  rewrite peer_ptrs_snoc, Pn in Hb. pose proof I9 as [_ Hq]. rewrite Hq in I9. rewrite I6 in Hb.
  destruct (accept_enqueue _ _ _ _ _ I9 Hb) as [Hroom Hacc].
  unfold createReceiveStream, enqueueUniStreamLocked. destruct_conn c.
  unfold conn_inv, limits_ok, persp, bidi_cap, uni_cap, bidi_ids, send_ids, recv_ids in *. cbn in *.
  subst uq. rewrite Hroom. cbn. rewrite length_map in *. split_inv; try done.
  - rewrite map_snoc. exact I7'.
  - rewrite map_snoc, peer_ptrs_snoc. cbn. rewrite Pn, length_map. exact Hacc.
  - destruct I10 as (O1 & O2 & O3). split_and!; try done. by apply Forall_snoc, new_recv_obj_ok.
Qed.

Lemma vi_u64 id : vi_ok id -> is_u64 id.
Proof. unfold vi_ok, is_u64. lia. Qed.

Lemma HandleStreamFrame_inv en stale c accb accu id offset data fin :
  conn_inv c accb accu -> vi_ok id ->
  conn_inv (fst (HandleStreamFrame en stale c id offset data fin)) accb accu.
Proof.
  intros Hinv Hid%vi_u64. unfold HandleStreamFrame. destruct (cn_closed c); [done|].
  destruct (IsBidi id) eqn:Hb.
  - destruct (bidiStreams c !! id) as [p|] eqn:Hm; [by apply bidi_recv_inv|].
    case_bool_decide as Hc; [done|]. destruct (isPeerInitiated c id) eqn:Hp; cbn [negb]; [|by case_test].
    case_test; [done|].
    pose proof (peerBidi_inv en c accb accu id Hinv Hid Hb Hp Hm Hc ltac:(done)) as H.
    destruct (createBidiStreamLocked en c id) as [c1 p]. by apply bidi_recv_inv.
  - case_bool_decide as Hc; [done|]. destruct (isPeerInitiated c id) eqn:Hp; cbn [negb]; [|by case_test].
    destruct (recvStreams c !! id) as [p|] eqn:Hm; [by apply uni_recv_inv|].
    case_test; [done|].
    pose proof (peerUni_inv en c accb accu id Hinv Hid Hb Hp Hm Hc ltac:(done)) as H.
    destruct (createReceiveStream en c id) as [c1 p]. by apply uni_recv_inv.
Qed.

Lemma HandleResetStreamFrame_inv en c accb accu id code fsize :
  conn_inv c accb accu -> vi_ok id ->
  conn_inv (fst (HandleResetStreamFrame en c id code fsize)) accb accu.
Proof.
  intros Hinv Hid%vi_u64. unfold HandleResetStreamFrame. destruct (cn_closed c); [done|].
  destruct (_ && _ && _) eqn:E1; [done|]. destruct (_ && negb _ && _) eqn:E2; [done|].
  destruct (IsBidi id) eqn:Hb.
  - destruct (bidiStreams c !! id) as [p|] eqn:Hm; [by apply bidi_recv_inv|].
    case_bool_decide as Hc; [done|]. destruct (isPeerInitiated c id) eqn:Hp; [|done].
    cbn [andb] in E1. bool_simpl.
    pose proof (peerBidi_inv en c accb accu id Hinv Hid Hb Hp Hm Hc ltac:(lia)) as H.
    destruct (createBidiStreamLocked en c id) as [c1 p]. by apply bidi_recv_inv.
  - destruct (recvStreams c !! id) as [p|] eqn:Hm; [by apply uni_recv_inv|].
    case_bool_decide as Hc; [done|]. destruct (isPeerInitiated c id) eqn:Hp; [|done].
    cbn [andb negb] in E2. bool_simpl.
    pose proof (peerUni_inv en c accb accu id Hinv Hid Hb Hp Hm Hc ltac:(lia)) as H.
    destruct (createReceiveStream en c id) as [c1 p]. by apply uni_recv_inv.
Qed.

Lemma on_send_half_inv c accb accu id o : conn_inv c accb accu -> conn_inv (on_send_half c id o) accb accu.
Proof.
  intros Hinv. unfold on_send_half. destruct (IsBidi id).
  - destruct (bidiStreams c !! id); [by apply bidi_send_inv|done].
  - destruct (sendStreams c !! id); [by apply uni_send_inv|done].
Qed.

#[global] Arguments for_active : simpl never.

(** Shutting down touches neither identity nor completion. *)
Lemma for_active_map {A B} (f : A -> B) (g : A -> A) m l :
  (forall s, f (g s) = f s) -> map f (for_active m g l) = map f l.
Proof.
  intros Hg. unfold for_active. apply list_eq. intros i. change (map f) with (fmap (M:=list) f).
  rewrite !list_lookup_fmap, list_lookup_imap. destruct (l !! i) as [s|]; [|done]. cbn.
  case_bool_decide; [by rewrite Hg|done].
Qed.
Lemma for_active_Forall {A} (P : A -> Prop) (g : A -> A) m l :
  (forall s, P s -> P (g s)) -> Forall P l -> Forall P (for_active m g l).
Proof.
  intros Hg Hl. rewrite Forall_lookup in *. intros i s. unfold for_active. rewrite list_lookup_imap.
  destruct (l !! i) as [s0|] eqn:E; [|done]. cbn. intros [= <-]. case_bool_decide; eauto.
Qed.
Lemma map_map_same {A B} (f : A -> B) (g : A -> A) l : (forall s, f (g s) = f s) -> map f (g <$> l) = map f l.
Proof. intros Hg. change (f <$> (g <$> l) = f <$> l). rewrite <- list_fmap_compose. apply list_fmap_ext. intros. apply Hg. Qed.

Lemma CloseWithError_inv c accb accu code : conn_inv c accb accu -> conn_inv (CloseWithError c code) accb accu.
Proof.
  intros Hinv. unfold CloseWithError. destruct (cn_closed c); [done|]. cbv zeta.
  pose proof Hinv as (_ & _ & _ & _ & _ & _ & _ & _ & _ & O1 & O2 & O3).
  apply (inv_objects c _ accb accu false 0); try done.
  - unfold same_frame, bidi_ids, send_ids, recv_ids. split_and!; try done; cbn;
      rewrite for_active_map by (by intros []; cbn || by intros [[] ?]; cbn);
      by apply map_map_same; intros [].
  - split_and!; (apply for_active_Forall; [|apply Forall_fmap; eapply Forall_impl; [eassumption|]]); cbn.
    + intros [[] []]. done.
    + intros [[] []]. done.
    + intros []. done.
    + intros []. done.
    + intros []. done.
    + intros []. done.
Qed.

Lemma HandleMaxStreams_inv c accb accu st n :
  conn_inv c accb accu -> vi_ok n -> conn_inv (HandleMaxStreamsFrame c st n) accb accu.
Proof.
  intros Hinv Hn. unfold HandleMaxStreamsFrame, vi_ok in *.
  pose proof Hinv as (I1 & I2 & I3). destruct_conn c. unfold limits_ok in I1, I2. cbn in I1, I2.
  destruct (_ || _); cbn; (case_test; [|done]).
  - split; [unfold limits_ok; cbn; lia|]. split; [exact I2|exact I3].
  - split; [exact I1|]. split; [unfold limits_ok; cbn; lia|exact I3].
Qed.

Lemma accept_receive_inv c accb accu :
  conn_inv c accb accu ->
  (let '(c', r) := AcceptStream_receive c in conn_inv c' (accb ++ option_list r) accu)
  /\ (let '(c', r) := AcceptUniStream_receive c in conn_inv c' accb (accu ++ option_list r)).
Proof.
  intros Hinv. pose proof Hinv as (I1 & I2 & I3 & I4 & I5 & I6 & I7 & [I8 Q1] & [I9 Q2] & I10).
  unfold AcceptStream_receive, AcceptUniStream_receive. split.
  - destruct (acceptBidiCh c) as [|p ch]; [cbn; by rewrite app_nil_r|].
    split_inv; try done. split; [|done]. by rewrite <- app_assoc.
  - destruct (acceptUniCh c) as [|p ch]; [cbn; by rewrite app_nil_r|].
    split_inv; try done. split; [|done]. by rewrite <- app_assoc.
Qed.

Lemma conn_step_inv c accb accu o :
  conn_inv c accb accu -> conn_op_ok o ->
  let '(c', b, u) := conn_step c o in conn_inv c' (accb ++ b) (accu ++ u).
Proof.
  intros Hinv Ho. pose proof Hinv as (I1 & I2 & I3 & I4 & I5 & I6 & I7 & [I8 Q1] & [I9 Q2] & I10).
  destruct o; cbn [conn_step conn_op_ok] in *; rewrite ?app_nil_r; try done.
  - unfold OpenStream. destruct (cn_closed c); [done|]. case_test; [done|].
    pose proof (openBidi_inv en c accb accu Hinv ltac:(lia)) as H. by destruct (openBidi en c) as [c' p]; destruct H.
  - unfold OpenUniStream. destruct (cn_closed c); [done|]. case_test; [done|].
    pose proof (openUni_inv en c accb accu Hinv ltac:(lia)) as H. by destruct (openUni en c) as [c' p]; destruct H.
  - unfold OpenStreamSync_pass. destruct (cn_closed c); [done|]. case_test; [|done].
    pose proof (openBidi_inv en c accb accu Hinv ltac:(lia)) as H. by destruct (openBidi en c) as [c' p]; destruct H.
  - unfold OpenUniStreamSync_pass. destruct (cn_closed c); [done|]. case_test; [|done].
    pose proof (openUni_inv en c accb accu Hinv ltac:(lia)) as H. by destruct (openUni en c) as [c' p]; destruct H.
  - unfold AcceptStream_first. rewrite Q1. destruct (cn_closed c); cbn; by rewrite ?app_nil_r.
  - destruct (accept_receive_inv c accb accu Hinv) as [H _].
    destruct (AcceptStream_receive c) as [c' r]. by rewrite app_nil_r.
  - unfold AcceptStream_refill. by rewrite Q1.
  - unfold AcceptUniStream_first. rewrite Q2. destruct (cn_closed c); cbn; by rewrite ?app_nil_r.
  - destruct (accept_receive_inv c accb accu Hinv) as [_ H].
    destruct (AcceptUniStream_receive c) as [c' r]. by rewrite app_nil_r.
  - unfold AcceptUniStream_refill. by rewrite Q2.
  - by apply HandleStreamFrame_inv.
  - by apply HandleResetStreamFrame_inv.
  - by apply on_send_half_inv.
  - by apply on_send_half_inv.
  - by apply HandleMaxStreams_inv.
  - by apply bidi_recv_inv.
  - by apply bidi_send_inv.
  - by apply uni_recv_inv.
  - by apply uni_send_inv.
  - unfold MaybeGetConnWindowUpdate. by destruct (GetWindowUpdate _).
  - unfold conn_GetDataBlockedFrame. by destruct (GetDataBlockedFrame _).
  - by apply CloseWithError_inv.
Qed.

Lemma conn_run_inv ops : forall c accb accu,
  conn_inv c accb accu -> Forall conn_op_ok ops ->
  let '(c', b, u) := conn_run c ops in conn_inv c' (accb ++ b) (accu ++ u).
Proof.
  induction ops as [|o ops IH]; intros c accb accu Hinv Hops; cbn [conn_run]; [by rewrite !app_nil_r|].
  inversion Hops as [|? ? Ho Hops']; subst. pose proof (conn_step_inv c accb accu o Hinv Ho) as H.
  destruct (conn_step c o) as [[c1 b1] u1]. specialize (IH c1 _ _ H Hops').
  destruct (conn_run c1 ops) as [[c2 b2] u2]. by rewrite !app_assoc.
Qed.

(** The connections a program can reach, with what it has accepted. *)
Definition reachable (cfg : ConnConfig) (c : Conn) (accb accu : list nat) : Prop :=
  exists en ops, config_ok cfg /\ Forall conn_op_ok ops /\ conn_run (NewConn en cfg) ops = (c, accb, accu).

Lemma reachable_inv cfg c accb accu : reachable cfg c accb accu -> conn_inv c accb accu.
Proof.
  intros (en & ops & Hc & Hops & E).
  pose proof (conn_run_inv ops _ [] [] (new_conn_inv en cfg Hc) Hops) as H. by rewrite E in H.
Qed.

(** The configuration never changes. *)
Lemma conn_step_config c o : config (conn_step c o).1.1 = config c.
Proof.
  assert (Hb : forall c p o, config (fst (bidi_recv c p o)) = config c).
  { intros c0 p o0. unfold bidi_recv. destruct (bidiObjs c0 !! p); [|done].
    destruct (stream_recv _ _ _) as [[s' []] r]; done. }
  assert (Hs : forall c p o, config (bidi_send c p o) = config c).
  { intros c0 p o0. unfold bidi_send. destruct (bidiObjs c0 !! p); [|done].
    destruct (stream_send _ _ _) as [[s' []] r]; done. }
  assert (Hu : forall c p o, config (fst (uni_recv c p o)) = config c).
  { intros c0 p o0. unfold uni_recv. destruct (recvObjs c0 !! p); [|done].
    by destruct (recv_completes _). }
  assert (Hv : forall c p o, config (uni_send c p o) = config c).
  { intros c0 p o0. unfold uni_send. destruct (sendObjs c0 !! p); [|done]. by destruct (send_completes _ _). }
  assert (Eb : forall c p, config (enqueueBidiStreamLocked c p) = config c).
  { intros c0 p. unfold enqueueBidiStreamLocked. destruct (acceptBidiQueue c0); by repeat case_match. }
  assert (Eu : forall c p, config (enqueueUniStreamLocked c p) = config c).
  { intros c0 p. unfold enqueueUniStreamLocked. destruct (acceptUniQueue c0); by repeat case_match. }
  assert (Hh : forall c id o, config (on_send_half c id o) = config c).
  { intros c0 id o0. unfold on_send_half. repeat case_match; by rewrite ?Hs, ?Hv. }
  destruct o; cbn [conn_step]; rewrite ?Hb, ?Hs, ?Hu, ?Hv; try done;
    try (unfold OpenStream, OpenUniStream, OpenStreamSync_pass, OpenUniStreamSync_pass, openBidi, openUni,
      createBidiStreamLocked, createSendStream, AcceptStream_first, AcceptUniStream_first, AcceptStream_receive, AcceptUniStream_receive,
      AcceptStream_refill, AcceptUniStream_refill, HandleMaxStreamsFrame, MaybeGetConnWindowUpdate,
      conn_GetDataBlockedFrame, CloseWithError; repeat case_match; simplify_eq; reflexivity).
  - unfold HandleStreamFrame, createBidiStreamLocked, createReceiveStream.
    repeat case_match; cbn [fst]; rewrite ?Hb, ?Hu, ?Eb, ?Eu; done.
  - unfold HandleResetStreamFrame, createBidiStreamLocked, createReceiveStream.
    repeat case_match; cbn [fst]; rewrite ?Hb, ?Hu, ?Eb, ?Eu; done.
  - apply Hh.
  - apply Hh.
  - apply Hb.
  - apply Hs.
  - apply Hu.
  - apply Hv.
Qed.

Lemma reachable_config cfg c accb accu : reachable cfg c accb accu -> config c = config_defaults cfg.
Proof.
  intros (en & ops & _ & _ & E).
  assert (H : forall ops c0, config (conn_run c0 ops).1.1 = config c0).
  { clear. induction ops as [|o ops IH]; intros c0; cbn [conn_run]; [done|].
    pose proof (conn_step_config c0 o) as H. destruct (conn_step c0 o) as [[c1 b1] u1].
    specialize (IH c1). destruct (conn_run c1 ops) as [[c2 b2] u2]. cbn in *. congruence. }
  specialize (H ops (NewConn en cfg)). by rewrite E in H.
Qed.

(** ** Theorems *)

(** A server that allows two streams of each kind, and a history: the peer
    opens streams 4 and 0, the second ends both halves and is retired; the
    server opens a stream each way. *)
Definition sample_config : ConnConfig := mkConfig PerspectiveServer 0 0 0 0 2 2 2 2 0.
Definition sample_conn_ops : list conn_op :=
  [CFrame sample_env [] 4 0 [7] false; CFrame sample_env [] 0 0 [1; 2] true; CAcceptReceive;
   CBidiRecv 1 (PRead sample_env 5); CBidiSend 1 (WClose); CBidiSend 1 (WPop 1000); CBidiSend 1 (WAck true);
   COpen sample_env; COpenUni sample_env; CFrame sample_env [] 2 0 [9] false].
Definition sample_server : Conn * list nat * list nat :=
  conn_run (NewConn sample_env sample_config) sample_conn_ops.

Lemma sample_conn_ops_ok : config_ok sample_config /\ Forall conn_op_ok sample_conn_ops.
Proof. split; [unfold config_ok, vi_ok; cbn; lia|]. repeat constructor; cbn; unfold vi_ok; lia. Qed.
Lemma sample_reachable : reachable sample_config sample_server.1.1 sample_server.1.2 sample_server.2.
Proof.
  destruct sample_conn_ops_ok. exists sample_env, sample_conn_ops. split_and!; [done..|].
  by rewrite <- !surjective_pairing.
Qed.

Lemma reachable_bidi cfg c accb accu p s :
  reachable cfg c accb accu -> bidiObjs c !! p = Some s -> stream_obj_ok (closedStreams c) s.
Proof.
  intros (_ & _ & _ & _ & _ & _ & _ & _ & _ & H & _)%reachable_inv Hp. by eapply Forall_lookup_1 in H.
Qed.
Lemma reachable_ids cfg c accb accu :
  reachable cfg c accb accu ->
  ids_ok (persp c) (nextLocalBidiStreamNum c) (nextLocalUniStreamNum c)
    (InitialMaxStreamsBidi (config_defaults cfg)) (InitialMaxStreamsUni (config_defaults cfg))
    (bidi_ids c) (send_ids c) (recv_ids c) (bidiStreams c) (sendStreams c) (recvStreams c) (closedStreams c).
Proof.
  intros H. pose proof (reachable_config _ _ _ _ H) as Hcfg.
  apply reachable_inv in H as (_ & _ & _ & _ & E1 & E2 & H & _). rewrite E1, E2 in H.
  unfold bidi_cap, uni_cap in H. by rewrite Hcfg in H.
Qed.
Lemma all_ids_nodup pe nb nu lb lu bids sids rids bm sm rm closed :
  ids_ok pe nb nu lb lu bids sids rids bm sm rm closed -> NoDup (bids ++ sids ++ rids).
Proof.
  intros H. destruct (ids_disjoint _ _ _ _ _ _ _ _ _ _ _ _ H) as [D1 D2].
  destruct H as ((N1 & _) & (N2 & _) & (N3 & _) & _). apply NoDup_app. split_and!; [done| |].
  - intros x Hx. rewrite elem_of_app. destruct (D1 x Hx). tauto.
  - apply NoDup_app. by split_and!.
Qed.

(** C12: the tables of the multiplexer are consistent in every state a connection
    can reach, whatever the application and the peer do.  No two streams share
    an identifier; an identifier leads to a stream object exactly while that
    object exists and is not retired; only streams that existed are retired; the
    streams this side opened are within the peer's limits and the streams the
    peer opened within the limits this side granted. *)
Theorem conn_streams_consistent (cfg : ConnConfig) (c : Conn) (accb accu : list nat) :
  reachable cfg c accb accu ->
  NoDup (bidi_ids c ++ send_ids c ++ recv_ids c)
  /\ (forall id p, bidiStreams c !! id = Some p <-> bidi_ids c !! p = Some id /\ id ∉ closedStreams c)
  /\ (forall id p, sendStreams c !! id = Some p <-> send_ids c !! p = Some id /\ id ∉ closedStreams c)
  /\ (forall id p, recvStreams c !! id = Some p <-> recv_ids c !! p = Some id /\ id ∉ closedStreams c)
  /\ (forall id, id ∈ closedStreams c -> id ∈ bidi_ids c ++ send_ids c ++ recv_ids c)
  /\ (forall id, id ∈ bidi_ids c ->
       StreamNum id <= if isPeerInitiated c id then InitialMaxStreamsBidi (config_defaults cfg)
                       else maxPeerBidiStreams c)
  /\ (forall id, id ∈ send_ids c -> isPeerInitiated c id = false /\ StreamNum id <= maxPeerUniStreams c)
  /\ (forall id, id ∈ recv_ids c ->
       isPeerInitiated c id = true /\ StreamNum id <= InitialMaxStreamsUni (config_defaults cfg)).
Proof.
  intros Hr. pose proof (reachable_ids _ _ _ _ Hr) as Hids. pose proof (all_ids_nodup _ _ _ _ _ _ _ _ _ _ _ _ Hids).
  destruct (reachable_inv _ _ _ _ Hr) as ((_ & L1) & (_ & L2) & _).
  destruct Hids as ((_ & T1) & (_ & T2) & (_ & T3) & G1 & G2 & G3 & Hc). rewrite Forall_forall in G1, G2, G3.
  change (isPeerInitiated c) with (is_peer (persp c)).
  split_and!; try done.
  - intros id Hid. rewrite !elem_of_app. by apply Hc.
  - intros id (_ & _ & Hn)%G1. destruct (is_peer _ id); lia.
  - intros id (_ & _ & Hp & Hn)%G2. split; [done|lia].
  - by intros id (_ & _ & Hp & Hn)%G3.
Qed.

Lemma conn_streams_consistent_witness :
  bidiStreams sample_server.1.1 !! 4 = Some 0%nat
  /\ (0 ∈ closedStreams sample_server.1.1 -> 0 ∈ [4; 0; 1] ++ [3] ++ [2]).
Proof.
  destruct (conn_streams_consistent _ _ _ _ sample_reachable) as (_ & H & _ & _ & Hc & _). split.
  - apply H. split; [reflexivity|]. apply (bool_decide_eq_false_1 (4 ∈ closedStreams sample_server.1.1)).
    vm_compute. reflexivity.
  - exact (Hc 0).
Defined.

(** Opening a stream.  In a reachable state [OpenStream] succeeds exactly when
    the connection is open and the peer's limit allows one more stream; the new
    stream then has the next identifier of its kind, one no stream ever had, and
    is found under it, and all other entries are as before.  When it fails it
    reports why and changes nothing. *)
Theorem open_stream_fresh (cfg : ConnConfig) (c : Conn) (accb accu : list nat) (en : env) :
  reachable cfg c accb accu ->
  match OpenStream en c with
  | (c', Ok p) =>
      let id := NewStreamID (local_type c true) (nextLocalBidiStreamNum c) in
      cn_closed c = false /\ bidi_ids c' = bidi_ids c ++ [id] /\ p = length (bidi_ids c)
      /\ (id ∉ bidi_ids c ++ send_ids c ++ recv_ids c) /\ isPeerInitiated c id = false
      /\ StreamNum id = nextLocalBidiStreamNum c /\ StreamNum id <= maxPeerBidiStreams c
      /\ nextLocalBidiStreamNum c' = nextLocalBidiStreamNum c + 1
      /\ bidiStreams c' = <[id := p]> (bidiStreams c) /\ bidiStreams c !! id = None
  | (c', Err e) =>
      c' = c /\ ((cn_closed c = true /\ e = ErrConnClosed)
                 \/ (cn_closed c = false /\ maxPeerBidiStreams c = nextLocalBidiStreamNum c - 1
                     /\ e = TransportError StreamLimitError))
  | (_, Panic) => False
  end.
Proof.
  intros Hr. pose proof (reachable_inv _ _ _ _ Hr) as Hinv. pose proof Hinv as ((L1 & L2) & _).
  unfold OpenStream. destruct (cn_closed c) eqn:Hcl; [by auto|].
  assert (Hu : u64 (nextLocalBidiStreamNum c - 1) = nextLocalBidiStreamNum c - 1) by (apply u64_small; unfold is_u64; lia).
  rewrite Hu. case_test; [split; [done|]; right; split_and!; [done|lia|done]|].
  pose proof (openBidi_inv en c accb accu Hinv ltac:(lia)) as H.
  destruct (local_id c true (nextLocalBidiStreamNum c) ltac:(lia)) as (U & B & Pn & N).
  destruct (openBidi en c) as [c' p] eqn:Eo. destruct H as ((_ & _ & _ & _ & _ & _ & Hids & _) & Ho & -> & Hn & _).
  apply all_ids_nodup in Hids. unfold openBidi, createBidiStreamLocked in Eo. injection Eo as Ec.
  assert (Hb : bidi_ids c' = bidi_ids c ++ [NewStreamID (local_type c true) (nextLocalBidiStreamNum c)]).
  { unfold bidi_ids. by rewrite Ho, map_snoc. }
  set (id := NewStreamID _ _) in *.
  assert (Hfresh : id ∉ bidi_ids c ++ send_ids c ++ recv_ids c).
  { rewrite Hb in Hids. replace (send_ids c') with (send_ids c) in Hids by by rewrite <- Ec.
    replace (recv_ids c') with (recv_ids c) in Hids by by rewrite <- Ec.
    rewrite <- app_assoc in Hids. apply NoDup_app in Hids as (_ & D & Hids). apply NoDup_cons in Hids as [D' _].
    rewrite elem_of_app. intros [Hx|Hx]; [|done]. apply (D id Hx). by left. }
  split_and!; try done; try lia.
  - unfold bidi_ids. by rewrite length_map.
  - by rewrite <- Ec.
  - destruct (bidiStreams c !! id) as [q|] eqn:Hq; [|done]. exfalso. apply Hfresh, elem_of_app. left.
    pose proof (reachable_ids _ _ _ _ Hr) as ((_ & T1) & _). apply T1 in Hq as [Hq _].
    by eapply list_elem_of_lookup_2.
Qed.

Lemma open_stream_fresh_witness :
  bidi_ids (fst (OpenStream sample_env sample_server.1.1)) = [4; 0; 1] ++ [5].
Proof.
  pose proof (open_stream_fresh _ _ _ _ sample_env sample_reachable) as H.
  change (OpenStream sample_env sample_server.1.1) with
    (fst (OpenStream sample_env sample_server.1.1), @Ok stream_error nat 3%nat) in H.
  exact (proj1 (proj2 H)).
Defined.

(** The streams the peer opens reach the application once each, in the order
    in which they first appeared: those accepted so far followed by those
    waiting in the channel are all of them, and none sits in the overflow
    queue.  The channel is created as large as the limit on the peer's streams,
    so the queue is never needed. *)
Theorem accept_once_in_order (cfg : ConnConfig) (c : Conn) (accb accu : list nat) :
  reachable cfg c accb accu ->
  accb ++ acceptBidiCh c = peer_ptrs (persp c) (bidi_ids c) /\ acceptBidiQueue c = []
  /\ accu ++ acceptUniCh c = peer_ptrs (persp c) (recv_ids c) /\ acceptUniQueue c = []
  /\ zlen (accb ++ acceptBidiCh c) <= InitialMaxStreamsBidi (config_defaults cfg)
  /\ zlen (accu ++ acceptUniCh c) <= InitialMaxStreamsUni (config_defaults cfg).
Proof.
  intros Hr. pose proof (reachable_config _ _ _ _ Hr) as Hcfg.
  destruct (reachable_inv _ _ _ _ Hr) as (_ & _ & V1 & V2 & E1 & E2 & Hids & [A1 A2] & [B1 B2] & _).
  pose proof (peer_bidi_bound _ _ _ _ _ _ _ _ _ _ _ _ Hids ltac:(rewrite E1; apply V1)) as Hb.
  pose proof (peer_recv_bound _ _ _ _ _ _ _ _ _ _ _ _ Hids ltac:(rewrite E2; apply V2)) as Hu.
  rewrite E1 in Hb. rewrite E2 in Hu. unfold bidi_cap, uni_cap in *. rewrite Hcfg in Hb, Hu.
  rewrite A1, B1. by split_and!.
Qed.

Lemma accept_once_in_order_witness :
  sample_server.1.2 ++ acceptBidiCh sample_server.1.1 = [0%nat; 1%nat].
Proof. exact (proj1 (accept_once_in_order _ _ _ _ sample_reachable)). Defined.

(** C14: a stream is retired exactly when it is finished.  A bidirectional stream
    is in the retired set if and only if its sending half and its receiving half are
    both in a terminal state of their state machines (data acknowledged or read,
    reset, cancelled); a unidirectional stream if and only if its one half is.  (An
    end without data in a frame of its own does not take the receiving half there.) *)
Theorem stream_retired_when_done (cfg : ConnConfig) (c : Conn) (accb accu : list nat) :
  reachable cfg c accb accu ->
  (forall p s, bidiObjs c !! p = Some s ->
     StreamID_of s ∈ closedStreams c
     <-> send_done (ss_state (sendStr s)) = true /\ recv_done (rs_state (recvStr s)) = true)
  /\ (forall p s, sendObjs c !! p = Some s -> ss_id s ∈ closedStreams c <-> send_done (ss_state s) = true)
  /\ (forall p s, recvObjs c !! p = Some s -> rs_id s ∈ closedStreams c <-> recv_done (rs_state s) = true).
Proof.
  intros (_ & _ & _ & _ & _ & _ & _ & _ & _ & O1 & O2 & O3)%reachable_inv.
  rewrite Forall_lookup in O1. rewrite Forall_lookup in O2. rewrite Forall_lookup in O3.
  split_and!; intros p s Hp.
  - destruct (O1 p s Hp) as (_ & _ & _ & _ & E1 & E2 & E3 & ->). rewrite E3, E1, E2. apply andb_true_iff.
  - by destruct (O2 p s Hp) as (_ & _ & H).
  - by destruct (O3 p s Hp) as (_ & H).
Qed.

Lemma stream_retired_when_done_witness : 0 ∈ closedStreams sample_server.1.1.
Proof.
  destruct (stream_retired_when_done _ _ _ _ sample_reachable) as (H & _).
  assert (E : ((fun x => (StreamID_of x, send_done (ss_state (sendStr x)), recv_done (rs_state (recvStr x))))
    <$> bidiObjs sample_server.1.1) !! 1%nat = Some (0, true, true)) by (vm_compute; reflexivity).
  rewrite list_lookup_fmap in E. apply fmap_Some in E as (s & Hs & Es). injection Es as E1 E2 E3.
  rewrite E1. apply (H 1%nat s Hs). by split.
Defined.

(** ** Frames *)
Lemma bidi_recv_at c p s o :
  bidiObjs c !! p = Some s ->
  let '(s', done, r) := stream_recv s (Some (connFlowController c)) o in
  let '(c', e) := bidi_recv c p o in
  bidiObjs c' = <[p := s']> (bidiObjs c) /\ sendObjs c' = sendObjs c /\ recvObjs c' = recvObjs c /\ e = r_err r.
Proof.
  intros Hp. unfold bidi_recv. rewrite Hp. by destruct (stream_recv _ _ _) as [[s' []] r].
Qed.
Lemma uni_recv_at c p s o :
  recvObjs c !! p = Some s ->
  let r := recv_step s (Some (connFlowController c)) o in
  let '(c', e) := uni_recv c p o in
  recvObjs c' = <[p := r_stream r]> (recvObjs c) /\ bidiObjs c' = bidiObjs c /\ sendObjs c' = sendObjs c
  /\ e = r_err r.
Proof. intros Hp. unfold uni_recv. rewrite Hp. by destruct (recv_completes _). Qed.

(** The stream object a frame is for: the one it names, or a new one. *)
Definition bidi_target (en : env) (c : Conn) (id : Z) (p : nat) (s : Stream) : Prop :=
  (bidiObjs c !! p = Some s /\ StreamID_of s = id)
  \/ (p = length (bidiObjs c) /\ s = NewStream id true (stream_controller en c id) (cn_ctx c)).
Definition recv_target (en : env) (c : Conn) (id : Z) (p : nat) (s : ReceiveStream) : Prop :=
  (recvObjs c !! p = Some s /\ rs_id s = id)
  \/ (p = length (recvObjs c) /\ s = NewReceiveStream id true (stream_controller en c id) (cn_ctx c)).

(** [c'] and [r] are [c] after the frame operation [o] on its target, all other
    streams unchanged. *)
Definition delivered (en : env) (c : Conn) (id : Z) (o : recv_op) (c' : Conn) (r : res stream_error unit) : Prop :=
  if IsBidi id then
    exists p s, bidi_target en c id p s
    /\ bidiObjs c' !! p = Some (stream_recv s (Some (connFlowController c)) o).1.1
    /\ r = r_err (stream_recv s (Some (connFlowController c)) o).2
  else
    exists p s, recv_target en c id p s
    /\ recvObjs c' !! p = Some (r_stream (recv_step s (Some (connFlowController c)) o))
    /\ r = r_err (recv_step s (Some (connFlowController c)) o).

Definition others_kept (c : Conn) (id : Z) (c' : Conn) : Prop :=
  sendObjs c' = sendObjs c
  /\ (forall p s, bidiObjs c !! p = Some s -> StreamID_of s <> id -> bidiObjs c' !! p = Some s)
  /\ (forall p s, recvObjs c !! p = Some s -> rs_id s <> id -> recvObjs c' !! p = Some s).

Lemma others_kept_refl c id : others_kept c id c.
Proof. by split_and!. Qed.

Lemma bidi_deliver_old en c id p s o :
  IsBidi id = true -> bidiObjs c !! p = Some s -> StreamID_of s = id ->
  let '(c', r) := bidi_recv c p o in delivered en c id o c' r /\ others_kept c id c'.
Proof.
  intros Hb Hp Hid. pose proof (bidi_recv_at c p s o Hp) as H. unfold delivered. rewrite Hb.
  destruct (stream_recv _ _ _) as [[s' d] r] eqn:E. destruct (bidi_recv c p o) as [c' e].
  destruct H as (H1 & H2 & H3 & ->). split.
  - exists p, s. rewrite E, H1, list_lookup_insert_eq by by eapply lookup_lt_Some. unfold bidi_target. auto.
  - unfold others_kept. rewrite H1, H2, H3. split_and!; try done. intros q x Hq Hx.
    rewrite list_lookup_insert_ne; [done|]. congruence.
Qed.
Lemma uni_deliver_old en c id p s o :
  IsBidi id = false -> recvObjs c !! p = Some s -> rs_id s = id ->
  let '(c', r) := uni_recv c p o in delivered en c id o c' r /\ others_kept c id c'.
Proof.
  intros Hb Hp Hid. pose proof (uni_recv_at c p s o Hp) as H. unfold delivered. rewrite Hb.
  destruct (uni_recv c p o) as [c' e]. cbn zeta in H.
  destruct H as (H1 & H2 & H3 & ->). split.
  - exists p, s. rewrite H1, list_lookup_insert_eq by by eapply lookup_lt_Some. unfold recv_target. auto.
  - unfold others_kept. rewrite H1, H2, H3. split_and!; try done. intros q x Hq Hx.
    rewrite list_lookup_insert_ne; [done|]. congruence.
Qed.

Lemma enqueueBidi_same c p :
  bidiObjs (enqueueBidiStreamLocked c p) = bidiObjs c /\ sendObjs (enqueueBidiStreamLocked c p) = sendObjs c
  /\ recvObjs (enqueueBidiStreamLocked c p) = recvObjs c
  /\ connFlowController (enqueueBidiStreamLocked c p) = connFlowController c.
Proof. unfold enqueueBidiStreamLocked. destruct (acceptBidiQueue c); [by destruct (_ <? _)|done]. Qed.
Lemma enqueueUni_same c p :
  bidiObjs (enqueueUniStreamLocked c p) = bidiObjs c /\ sendObjs (enqueueUniStreamLocked c p) = sendObjs c
  /\ recvObjs (enqueueUniStreamLocked c p) = recvObjs c
  /\ connFlowController (enqueueUniStreamLocked c p) = connFlowController c.
Proof. unfold enqueueUniStreamLocked. destruct (acceptUniQueue c); [by destruct (_ <? _)|done]. Qed.

Lemma bidi_deliver_new en c id o :
  IsBidi id = true ->
  let '(c1, p) := createBidiStreamLocked en c id in
  let '(c', r) := bidi_recv (enqueueBidiStreamLocked c1 p) p o in
  delivered en c id o c' r /\ others_kept c id c'.
Proof.
  intros Hb. unfold createBidiStreamLocked. set (s := NewStream _ _ _ _). set (c1 := {c with bidiObjs := _; bidiStreams := _}).
  set (p := length (bidiObjs c)). destruct (enqueueBidi_same c1 p) as (E1 & E2 & E3 & E4).
  assert (Hp : bidiObjs (enqueueBidiStreamLocked c1 p) !! p = Some s).
  { rewrite E1. unfold c1, p. cbn. by rewrite lookup_app_r, Nat.sub_diag by lia. }
  pose proof (bidi_recv_at _ p s o Hp) as H. unfold delivered. rewrite Hb. rewrite E4 in H.
  change (connFlowController c1) with (connFlowController c) in H.
  destruct (stream_recv _ _ _) as [[s' d] r] eqn:E. destruct (bidi_recv _ p o) as [c' e].
  destruct H as (H1 & H2 & H3 & ->). split.
  - exists p, s. rewrite E, H1, list_lookup_insert_eq by by eapply lookup_lt_Some. unfold bidi_target. auto.
  - unfold others_kept. rewrite H1, H2, H3, E1, E2, E3. split_and!; try done. intros q x Hq Hx.
    apply lookup_lt_Some in Hq as Hlt. rewrite list_lookup_insert_ne by (unfold p; lia).
    unfold c1. cbn. by rewrite lookup_app_l.
Qed.
Lemma uni_deliver_new en c id o :
  IsBidi id = false ->
  let '(c1, p) := createReceiveStream en c id in
  let '(c', r) := uni_recv (enqueueUniStreamLocked c1 p) p o in
  delivered en c id o c' r /\ others_kept c id c'.
Proof.
  intros Hb. unfold createReceiveStream. set (s := NewReceiveStream _ _ _ _). set (c1 := {c with recvObjs := _; recvStreams := _}).
  set (p := length (recvObjs c)). destruct (enqueueUni_same c1 p) as (E1 & E2 & E3 & E4).
  assert (Hp : recvObjs (enqueueUniStreamLocked c1 p) !! p = Some s).
  { rewrite E3. unfold c1, p. cbn. by rewrite lookup_app_r, Nat.sub_diag by lia. }
  pose proof (uni_recv_at _ p s o Hp) as H. unfold delivered. rewrite Hb. rewrite E4 in H.
  change (connFlowController c1) with (connFlowController c) in H. cbn zeta in H.
  destruct (uni_recv _ p o) as [c' e].
  destruct H as (H1 & H2 & H3 & ->). split.
  - exists p, s. rewrite H1, list_lookup_insert_eq by by eapply lookup_lt_Some. unfold recv_target. auto.
  - unfold others_kept. rewrite H1, H2, H3, E1, E2, E3. split_and!; try done. intros q x Hq Hx.
    apply lookup_lt_Some in Hq as Hlt. rewrite list_lookup_insert_ne by (unfold p; lia).
    unfold c1. cbn. by rewrite lookup_app_l.
Qed.

(** The limit on the peer's streams of the kind of [id]. *)
Definition peer_limit (cfg : ConnConfig) (id : Z) : Z :=
  if IsBidi id then InitialMaxStreamsBidi (config_defaults cfg) else InitialMaxStreamsUni (config_defaults cfg).

Lemma reachable_limits cfg c accb accu :
  reachable cfg c accb accu ->
  maxLocalBidiStreams c = InitialMaxStreamsBidi (config_defaults cfg)
  /\ maxLocalUniStreams c = InitialMaxStreamsUni (config_defaults cfg).
Proof.
  intros H. pose proof (reachable_config _ _ _ _ H) as Hcfg.
  apply reachable_inv in H as (_ & _ & _ & _ & E1 & E2 & _). rewrite E1, E2. unfold bidi_cap, uni_cap.
  by rewrite Hcfg.
Qed.

(** What an entry of a map stands for. *)
Lemma active_bidi cfg c accb accu id p :
  reachable cfg c accb accu -> bidiStreams c !! id = Some p ->
  exists s, bidiObjs c !! p = Some s /\ StreamID_of s = id /\ (id ∉ closedStreams c)
    /\ (isPeerInitiated c id = true -> StreamNum id <= InitialMaxStreamsBidi (config_defaults cfg))
    /\ (isPeerInitiated c id = false -> StreamNum id < nextLocalBidiStreamNum c).
Proof.
  intros ((_ & T) & _ & _ & G & _)%reachable_ids [Hp Hc]%T. eapply Forall_lookup_1 in G as (_ & _ & G); [|done].
  unfold bidi_ids in Hp. rewrite list_lookup_fmap in Hp. apply fmap_Some in Hp as (s & Hs & ->).
  exists s. change (isPeerInitiated c) with (is_peer (persp c)).
  split_and!; try done; intros E; by rewrite E in G.
Qed.
Lemma active_recv cfg c accb accu id p :
  reachable cfg c accb accu -> recvStreams c !! id = Some p ->
  exists s, recvObjs c !! p = Some s /\ rs_id s = id /\ (id ∉ closedStreams c) /\ isPeerInitiated c id = true
    /\ StreamNum id <= InitialMaxStreamsUni (config_defaults cfg).
Proof.
  intros (_ & _ & (_ & T) & _ & _ & G & _)%reachable_ids [Hp Hc]%T. eapply Forall_lookup_1 in G as (_ & _ & G1 & G2); [|done].
  unfold recv_ids in Hp. rewrite list_lookup_fmap in Hp. apply fmap_Some in Hp as (s & Hs & ->). by exists s.
Qed.



(** The number of streams the peer may open is fixed for the life of the
    connection.  Whatever happened before, and even if every stream is finished
    and retired, a STREAM or RESET_STREAM frame for a peer stream numbered above
    the initial limit closes it out with STREAM_LIMIT_ERROR: no operation raises
    the limit, so no MAX_STREAMS frame can ever be sent. *)
Theorem peer_stream_limit_never_raised (cfg : ConnConfig) (c : Conn) (accb accu : list nat)
    (en : env) (stale : bytes) (id offset code : Z) (data : bytes) (fin : bool) :
  reachable cfg c accb accu -> cn_closed c = false ->
  isPeerInitiated c id = true -> peer_limit cfg id < StreamNum id ->
  HandleStreamFrame en stale c id offset data fin = (c, Err (TransportError StreamLimitError))
  /\ HandleResetStreamFrame en c id code offset = (c, Err (TransportError StreamLimitError)).
Proof.
  intros Hr Ho Hpe Hlim. destruct (reachable_limits _ _ _ _ Hr) as [Lb Lu]. unfold peer_limit in Hlim.
  pose proof (closed_class _ _ _ _ _ _ _ _ _ _ _ _ (reachable_ids _ _ _ _ Hr) id) as Hcl.
  destruct (reachable_ids _ _ _ _ Hr) as (_ & _ & _ & G1 & _ & G3 & _). rewrite Forall_forall in G1, G3.
  change (is_peer (persp c) id) with (isPeerInitiated c id) in Hcl. rewrite Hpe in Hcl.
  assert (Hb : id ∈ bidi_ids c -> StreamNum id <= InitialMaxStreamsBidi (config_defaults cfg)).
  { intros (_ & _ & H)%G1. change (is_peer (persp c) id) with (isPeerInitiated c id) in H. by rewrite Hpe in H. }
  assert (Hc : id ∉ closedStreams c).
  { intros H%Hcl. destruct (IsBidi id); [apply Hb in H; lia|]. apply G3 in H as (_ & _ & _ & H). lia. }
  unfold HandleStreamFrame, HandleResetStreamFrame. rewrite Ho, Hpe, Lb, Lu. rewrite bool_decide_eq_false_2 by done.
  destruct (IsBidi id) eqn:Eb; cbn [andb negb].
  - destruct (bidiStreams c !! id) as [p|] eqn:Hm.
    { destruct (active_bidi _ _ _ _ _ _ Hr Hm) as (s & _ & _ & _ & H & _). apply H in Hpe. lia. }
    by replace (StreamNum id >? InitialMaxStreamsBidi (config_defaults cfg)) with true by lia.
  - destruct (recvStreams c !! id) as [p|] eqn:Hm.
    { destruct (active_recv _ _ _ _ _ _ Hr Hm) as (s & _ & _ & _ & _ & H). lia. }
    by replace (StreamNum id >? InitialMaxStreamsUni (config_defaults cfg)) with true by lia.
Qed.

Lemma peer_stream_limit_never_raised_witness :
  snd (HandleResetStreamFrame sample_env sample_server.1.1 8 1 0) = Err (TransportError StreamLimitError).
Proof.
  rewrite (proj2 (peer_stream_limit_never_raised _ _ _ _ sample_env [] 8 0 1 [] false sample_reachable
    ltac:(vm_compute; reflexivity) ltac:(vm_compute; reflexivity) ltac:(vm_compute; reflexivity))).
  reflexivity.
Defined.

Lemma conn_run_snoc ops o : forall c,
  conn_run c (ops ++ [o]) =
  let '(c1, b1, u1) := conn_run c ops in let '(c2, b2, u2) := conn_step c1 o in (c2, b1 ++ b2, u1 ++ u2).
Proof.
  induction ops as [|x ops IH]; intros c; cbn [conn_run app].
  - destruct (conn_step c o) as [[c1 b1] u1]. by rewrite !app_nil_r.
  - destruct (conn_step c x) as [[c1 b1] u1]. rewrite IH. destruct (conn_run c1 ops) as [[c2 b2] u2].
    destruct (conn_step c2 o) as [[c3 b3] u3]. by rewrite !app_assoc.
Qed.
Lemma reachable_step cfg c accb accu o :
  reachable cfg c accb accu -> conn_op_ok o ->
  let '(c', b, u) := conn_step c o in reachable cfg c' (accb ++ b) (accu ++ u).
Proof.
  intros (en & ops & Hcfg & Hops & E) Ho. destruct (conn_step c o) as [[c' b] u] eqn:Es.
  exists en, (ops ++ [o]). split_and!; [done|by apply Forall_app; split; [|constructor]|].
  by rewrite conn_run_snoc, E, Es.
Qed.

(** Retired streams ignore frames, on both paths. *)
Lemma retired_ignores cfg c accb accu en stale id offset data fin code :
  reachable cfg c accb accu -> cn_closed c = false -> id ∈ closedStreams c ->
  HandleStreamFrame en stale c id offset data fin = (c, Ok tt)
  /\ HandleResetStreamFrame en c id code offset = (c, Ok tt).
Proof.
  intros Hr Ho Hc. destruct (reachable_limits _ _ _ _ Hr) as [Lb Lu].
  pose proof (closed_class _ _ _ _ _ _ _ _ _ _ _ _ (reachable_ids _ _ _ _ Hr) id Hc) as Hcl.
  destruct (reachable_ids _ _ _ _ Hr) as ((_ & T1) & _ & (_ & T3) & G1 & _ & G3 & _).
  rewrite Forall_forall in G1, G3. change (is_peer (persp c)) with (isPeerInitiated c) in *.
  assert (N1 : bidiStreams c !! id = None).
  { destruct (bidiStreams c !! id) eqn:E; [|done]. by apply T1 in E as [_ E]. }
  assert (N3 : recvStreams c !! id = None).
  { destruct (recvStreams c !! id) eqn:E; [|done]. by apply T3 in E as [_ E]. }
  unfold HandleStreamFrame, HandleResetStreamFrame. rewrite Ho, N1, N3, Lb, Lu, (bool_decide_eq_true_2 _ Hc).
  destruct (IsBidi id) eqn:Hb; cbn [andb negb]; rewrite ?andb_true_r, ?andb_false_r; cbn [andb]; (split; [done|]).
  - apply G1 in Hcl as (_ & _ & H). change (is_peer (persp c)) with (isPeerInitiated c) in H.
    destruct (isPeerInitiated c id); cbn [andb]; [|done].
    by replace (StreamNum id >? InitialMaxStreamsBidi (config_defaults cfg)) with false by lia.
  - destruct (isPeerInitiated c id); cbn [andb]; [|done]. apply G3 in Hcl as (_ & _ & _ & H).
    by replace (StreamNum id >? InitialMaxStreamsUni (config_defaults cfg)) with false by lia.
Qed.

Lemma uni_cancel_retires c p s code :
  recvObjs c !! p = Some s -> rs_hasSender s = true -> recv_done (rs_state s) = false ->
  exists s', fst (uni_recv c p (PCancel code))
             = OnStreamCompleted { c with recvObjs := <[p := s']> (recvObjs c) } (rs_id s)
             /\ stopSendingQueued s' = true.
Proof.
  intros Hp Hsend Hd. exists (r_stream (recv_step s (Some (connFlowController c)) (PCancel code))).
  unfold uni_recv. rewrite Hp. clear Hp. cbn [recv_step]. unfold CancelRead.
  replace (_ || _) with false by by destruct (rs_state s).
  destruct s. cbn in *. subst. split; reflexivity.
Qed.

(** Cancelling the reading of a unidirectional stream retires it at once, and
    with it what the connection still owes.  The STOP_SENDING frame the
    cancellation queued is in an object the connection no longer finds, and the
    peer's further STREAM frames and its RESET_STREAM change nothing: the bytes
    they carry are neither charged to the connection's flow controller nor ever
    credited back to the peer. *)
Theorem cancelled_read_forgotten (cfg : ConnConfig) (c : Conn) (accb accu : list nat) (p : nat)
    (s : ReceiveStream) (code : Z) :
  reachable cfg c accb accu -> cn_closed c = false ->
  recvObjs c !! p = Some s -> recv_done (rs_state s) = false ->
  let c' := fst (uni_recv c p (PCancel code)) in
  GetReceiveStream c (rs_id s) = Some s /\ GetReceiveStream c' (rs_id s) = None
  /\ (exists s', recvObjs c' !! p = Some s' /\ stopSendingQueued s' = true)
  /\ forall en stale offset data fin code',
       HandleStreamFrame en stale c' (rs_id s) offset data fin = (c', Ok tt)
       /\ HandleResetStreamFrame en c' (rs_id s) code' offset = (c', Ok tt).
Proof.
  intros Hr Ho Hp Hd c'.
  pose proof (reachable_ids _ _ _ _ Hr) as (_ & _ & (_ & T3) & _ & _ & G3 & _).
  destruct (reachable_inv _ _ _ _ Hr) as (_ & _ & _ & _ & _ & _ & _ & _ & _ & _ & _ & O3).
  rewrite Forall_lookup in O3. destruct (O3 p s Hp) as [Hsend Hcl].
  assert (Hid : recv_ids c !! p = Some (rs_id s)) by (unfold recv_ids; by rewrite list_lookup_fmap, Hp).
  assert (Hnc : rs_id s ∉ closedStreams c) by (rewrite Hcl; by rewrite Hd).
  assert (Hm : recvStreams c !! rs_id s = Some p) by by apply T3.
  apply (Forall_lookup_1 _ _ _ _ G3) in Hid as (_ & Hb & _).
  pose proof (reachable_step _ _ _ _ (CUniRecv p (PCancel code)) Hr I) as Hr'. cbn [conn_step] in Hr'. fold c' in Hr'.
  destruct (uni_cancel_retires c p s code Hp Hsend Hd) as (s' & E & Hq). fold c' in E.
  assert (Hc' : rs_id s ∈ closedStreams c') by (rewrite E; cbn; apply elem_of_union; left; by apply elem_of_singleton).
  assert (Ho' : cn_closed c' = false) by by rewrite E.
  split_and!.
  - unfold GetReceiveStream. by rewrite Hb, Hm.
  - unfold GetReceiveStream. rewrite Hb, E. cbn. by rewrite lookup_delete_eq.
  - exists s'. rewrite E. cbn. split; [|done]. by apply list_lookup_insert_eq; eapply lookup_lt_Some.
  - intros en stale offset data fin code'. by eapply retired_ignores.
Qed.

(** A receiver with 100 bytes of connection window: the peer uses 10 of them on
    stream 2, the application cancels reading, the other 90 arrive and the peer
    resets the stream.  All credit is used, none will be returned. *)
Definition lossy_config : ConnConfig := mkConfig PerspectiveServer 100 100 100 100 2 2 2 2 0.
Definition lossy_start : Conn * list nat * list nat :=
  conn_run (NewConn sample_env lossy_config) [CFrame sample_env [] 2 0 (replicate 10 7) false].

Lemma lossy_reachable : reachable lossy_config lossy_start.1.1 lossy_start.1.2 lossy_start.2.
Proof.
  exists sample_env, [CFrame sample_env [] 2 0 (replicate 10 7) false]. split_and!.
  - unfold config_ok, vi_ok. cbn. lia.
  - repeat constructor; cbn; lia.
  - by rewrite <- !surjective_pairing.
Qed.

Lemma cancelled_read_forgotten_witness :
  let c1 := fst (uni_recv lossy_start.1.1 0 (PCancel 5)) in
  let c2 := fst (HandleStreamFrame sample_env [] c1 2 10 (replicate 90 7) false) in
  let c3 := fst (HandleResetStreamFrame sample_env c2 2 0 100) in
  c3 = c1 /\ bytesRead (connFlowController c1) = 0 /\ receiveWindow (connFlowController c1) = 100
  /\ snd (MaybeGetConnWindowUpdate c1) = None.
Proof.
  assert (Hs : exists s, recvObjs lossy_start.1.1 !! 0%nat = Some s /\ rs_id s = 2 /\ recv_done (rs_state s) = false).
  { eexists. vm_compute. split_and!; reflexivity. }
  assert (Ho : cn_closed lossy_start.1.1 = false) by (vm_compute; reflexivity).
  assert (Hv : let c1 := fst (uni_recv lossy_start.1.1 0 (PCancel 5)) in
    bytesRead (connFlowController c1) = 0 /\ receiveWindow (connFlowController c1) = 100
    /\ snd (MaybeGetConnWindowUpdate c1) = None) by (vm_compute; split_and!; reflexivity).
  destruct Hs as (s & Hs & Hid & Hd). split; [|exact Hv].
  destruct (cancelled_read_forgotten _ _ _ _ 0 s 5 lossy_reachable Ho Hs Hd) as (_ & _ & _ & H).
  rewrite Hid in H. rewrite (proj1 (H sample_env [] 10 (replicate 90 7) false 0)). cbn [fst].
  by rewrite (proj2 (H sample_env [] 100 [] false 0)).
Defined.
