(* ===== verification/WsMask.v ===== *)
(** * WebSocket payload masking (RFC 6455 section 5.3)

    Models [src/proto/ws/mask.go]: the byte-by-byte reference [MaskScalar] and
    the word-at-a-time kernel [MaskWithOffset], which XORs eight bytes per
    operation through pointers.  A word access reads and writes bytes in the
    order of the machine, so the byte order and the address of the slice are
    arguments of the model.

    The theorems: on a little-endian machine the kernel computes the reference
    for every payload, key, offset and address; masking is an involution and can
    be applied chunk by chunk; on a big-endian machine the kernel is wrong. *)

From S2P Require Import Prelude.
Open Scope Z_scope.

Inductive endianness := LittleEndian | BigEndian.

(** ** Memory words *)
Definition word_get (e : endianness) (l : bytes) : Z :=
  match e with LittleEndian => be_get (rev l) | BigEndian => be_get l end.
Definition word_put (e : endianness) (n : nat) (v : Z) : bytes :=
  match e with LittleEndian => rev (be_put n v) | BigEndian => be_put n v end.

(** XOR through an unsafe pointer to an [n]-byte word. *)
Definition xor_word (e : endianness) (n : nat) (k : Z) (w : bytes) : bytes :=
  word_put e n (Z.lxor (word_get e w) k).

(** [m] eight-byte words at the start of the slice: the bytes written and the
    slice advanced past them. *)
Fixpoint xor_words (e : endianness) (k64 : Z) (m : nat) (l : bytes) : bytes * bytes :=
  match m with
  | O => ([], l)
  | S m' =>
      let '(done, rest) := xor_words e k64 m' (zdrop 8 l) in
      (xor_word e 8 k64 (ztake 8 l) ++ done, rest)
  end.

(** A block of [m] words, if the slice is long enough. *)
Definition xor_block (e : endianness) (k64 : Z) (m : nat) (l : bytes) : bytes * bytes :=
  if zlen l >=? 8 * Z.of_nat m then xor_words e k64 m l else ([], l).

(** The 128-byte loop. *)
Fixpoint xor_loop (fuel : nat) (e : endianness) (k64 : Z) (l : bytes) : bytes * bytes :=
  match fuel with
  | O => ([], l)
  | S fuel' =>
      if zlen l >=? 128 then
        let '(done, l1) := xor_words e k64 16 l in
        let '(done', l2) := xor_loop fuel' e k64 l1 in (done ++ done', l2)
      else ([], l)
  end.

(** ** The kernel *)
Definition key_at (key : bytes) (i : Z) : Z := znth key (Z.land i 3).

(** [payload[i] ^= key[(off+i)&3]]. *)
Definition xor_at (key : bytes) (off i : Z) (l : bytes) : bytes :=
  <[Z.to_nat i := Z.lxor (znth l i) (key_at key (off + i))]> l.

(** The [switch] of the short case, each case falling through to the next. *)
Definition mask_tiny (key : bytes) (off n : Z) (l : bytes) : bytes :=
  let l := if n >=? 7 then xor_at key off 6 l else l in
  let l := if n >=? 6 then xor_at key off 5 l else l in
  let l := if n >=? 5 then xor_at key off 4 l else l in
  let l := if n >=? 4 then xor_at key off 3 l else l in
  let l := if n >=? 3 then xor_at key off 2 l else l in
  let l := if n >=? 2 then xor_at key off 1 l else l in
  if n >=? 1 then xor_at key off 0 l else l.

(** [for i := 0; i < n; i++ { payload[i] ^= key[(off+i)&3] }]. *)
Fixpoint mask_bytes (key : bytes) (off i : Z) (l : bytes) : bytes :=
  match l with
  | [] => []
  | b :: l' => Z.lxor b (key_at key (off + i)) :: mask_bytes key off (i + 1) l'
  end.

Definition MaskScalar (payload key : bytes) (offset : Z) : bytes :=
  mask_bytes key (Z.land offset 3) 0 payload.

(** The words of the key in its current phase. *)
Definition k32_of (b0 b1 b2 b3 : Z) : Z :=
  Z.lor (Z.lor (Z.lor b0 (Z.shiftl b1 8)) (Z.shiftl b2 16)) (Z.shiftl b3 24).
Definition k64_of (k32 : Z) : Z := Z.lor k32 (Z.shiftl k32 32).

(** From the aligned position on: blocks, a four-byte chunk, the tail. *)
Definition mask_aligned (e : endianness) (key : bytes) (off : Z) (l : bytes) : bytes :=
  let b0 := key_at key off in
  let b1 := key_at key (off + 1) in
  let b2 := key_at key (off + 2) in
  let b3 := key_at key (off + 3) in
  let k32 := k32_of b0 b1 b2 b3 in
  let k64 := k64_of k32 in
  let '(d1, l) := xor_loop (length l) e k64 l in
  let '(d2, l) := xor_block e k64 8 l in
  let '(d3, l) := xor_block e k64 4 l in
  let '(d4, l) := xor_block e k64 2 l in
  let '(d5, l) := xor_block e k64 1 l in
  let '(d6, l) := if zlen l >=? 4 then (xor_word e 4 k32 (ztake 4 l), zdrop 4 l) else ([], l) in
  let d7 :=
    match l with
    | [x; y; z] => [Z.lxor x b0; Z.lxor y b1; Z.lxor z b2]
    | [x; y] => [Z.lxor x b0; Z.lxor y b1]
    | [x] => [Z.lxor x b0]
    | _ => l
    end in
  d1 ++ d2 ++ d3 ++ d4 ++ d5 ++ d6 ++ d7.

(** [ptr] is the address of [payload[0]]. *)
Definition MaskWithOffset (e : endianness) (ptr : Z) (payload key : bytes) (offset : Z) : bytes :=
  let n := zlen payload in
  if n =? 0 then payload
  else
    let off := Z.land offset 3 in
    if n <? 8 then mask_tiny key off n payload
    else
      let misalign := Z.land ptr 7 in
      if negb (misalign =? 0) then
        let prefix := 8 - misalign in
        let prefix := if prefix >? n then n else prefix in
        let done := mask_bytes key off 0 (ztake prefix payload) in
        let rest := zdrop prefix payload in
        let off := Z.land (off + prefix) 3 in
        if zlen rest <? 8 then done ++ mask_bytes key off 0 rest
        else done ++ mask_aligned e key off rest
      else mask_aligned e key off payload.

Definition Mask (e : endianness) (ptr : Z) (payload key : bytes) : bytes :=
  MaskWithOffset e ptr payload key 0.

(** ** Bytes of a word *)
Lemma lxor_land a b m : Z.lxor (Z.land a m) (Z.land b m) = Z.land (Z.lxor a b) m.
Proof.
  apply Z.bits_inj'. intros i Hi. rewrite !Z.lxor_spec, !Z.land_spec, !Z.lxor_spec.
  by destruct (Z.testbit m i); rewrite ?andb_true_r, ?andb_false_r.
Qed.

Lemma be_put_lxor n a b : be_put n (Z.lxor a b) = zip_with Z.lxor (be_put n a) (be_put n b).
Proof.
  induction n as [|n IH]; [done|]. cbn [be_put zip_with]. rewrite IH. f_equal.
  unfold u8. rewrite Z.shiftr_lxor. rewrite <- !Z.land_ones by lia. symmetry. apply lxor_land.
Qed.

Lemma zip_with_rev {A B C} (f : A -> B -> C) (l : list A) (k : list B) :
  length l = length k -> zip_with f (rev l) (rev k) = rev (zip_with f l k).
Proof.
  revert k. induction l as [|x l IH]; intros [|y k] H; try done. cbn in *.
  rewrite zip_with_app by (rewrite !length_rev; lia). rewrite IH by lia. done.
Qed.

Lemma bytes_ok_rev l : bytes_ok l -> bytes_ok (rev l).
Proof. apply List.Forall_rev. Qed.

(** A little-endian word XOR works byte by byte. *)
Lemma xor_word_bytes w kb :
  bytes_ok w -> length w = length kb ->
  bytes_ok kb ->
  xor_word LittleEndian (length w) (be_get (rev kb)) w = zip_with Z.lxor w kb.
Proof.
  intros Hw Hl Hk. unfold xor_word, word_get, word_put. rewrite be_put_lxor.
  rewrite <- (length_rev w) at 1. rewrite be_put_get by by apply bytes_ok_rev.
  rewrite Hl, <- (length_rev kb), be_put_get by by apply bytes_ok_rev.
  rewrite zip_with_rev by done. apply rev_involutive.
Qed.

(** Bytes known one by one. *)
Ltac known_bytes := first [assumption | repeat first [apply Forall_nil_2 | apply Forall_cons_2; [assumption|]]].

Lemma lor_high x b k : 0 <= k -> 0 <= x < 2 ^ k -> Z.lor x (Z.shiftl b k) = b * 2 ^ k + x.
Proof. intros. rewrite Z.lor_comm. by apply lor_shiftl. Qed.

Lemma k32_value b0 b1 b2 b3 :
  is_byte b0 -> is_byte b1 -> is_byte b2 -> is_byte b3 ->
  k32_of b0 b1 b2 b3 = b0 + 2 ^ 8 * b1 + 2 ^ 16 * b2 + 2 ^ 24 * b3.
Proof.
  unfold is_byte, k32_of. intros H0 H1 H2 H3. rewrite (lor_high b0 b1 8) by lia.
  rewrite (lor_high _ b2 16) by lia. rewrite (lor_high _ b3 24) by lia. lia.
Qed.
Lemma k32_bytes b0 b1 b2 b3 :
  is_byte b0 -> is_byte b1 -> is_byte b2 -> is_byte b3 ->
  k32_of b0 b1 b2 b3 = be_get (rev [b0; b1; b2; b3]).
Proof.
  intros H0 H1 H2 H3. rewrite k32_value by done. cbn [rev app]. rewrite !be_get_cons by known_bytes.
  unfold zlen, be_get. cbn. lia.
Qed.
Lemma k64_bytes b0 b1 b2 b3 :
  is_byte b0 -> is_byte b1 -> is_byte b2 -> is_byte b3 ->
  k64_of (k32_of b0 b1 b2 b3) = be_get (rev [b0; b1; b2; b3; b0; b1; b2; b3]).
Proof.
  intros H0 H1 H2 H3. rewrite k32_value by done. unfold k64_of.
  rewrite lor_high by (unfold is_byte in *; lia). cbn [rev app].
  rewrite !be_get_cons by known_bytes. unfold zlen, be_get. cbn. lia.
Qed.

(** ** The reference *)
Lemma key_at_mod key i j : i mod 4 = j mod 4 -> key_at key i = key_at key j.
Proof.
  intros H. unfold key_at. change 3 with (2 ^ 2 - 1). rewrite !land_mask by lia. change (2 ^ 2) with 4. by rewrite H.
Qed.
Lemma key_at_byte key i : bytes_ok key -> zlen key = 4 -> is_byte (key_at key i).
Proof.
  intros Hk Hl. unfold key_at, znth. change 3 with (2 ^ 2 - 1). rewrite land_mask by lia.
  apply Forall_nth; [done|]. unfold zlen in Hl. lia.
Qed.

Lemma mask_bytes_phase key l : forall off i off' i',
  (off + i) mod 4 = (off' + i') mod 4 -> mask_bytes key off i l = mask_bytes key off' i' l.
Proof.
  induction l as [|b l IH]; intros off i off' i' H; [done|]. cbn. f_equal.
  - f_equal. by apply key_at_mod.
  - apply IH. lia.
Qed.
Lemma mask_bytes_app key l k : forall off i,
  mask_bytes key off i (l ++ k) = mask_bytes key off i l ++ mask_bytes key off (i + zlen l) k.
Proof.
  induction l as [|b l IH]; intros off i; cbn [app mask_bytes].
  - by rewrite Z.add_0_r.
  - rewrite IH, zlen_cons. do 3 f_equal. lia.
Qed.
Lemma mask_bytes_length key off i l : zlen (mask_bytes key off i l) = zlen l.
Proof. revert i. induction l as [|b l IH]; intros i; [done|]. cbn [mask_bytes]. by rewrite !zlen_cons, IH. Qed.
Lemma mask_bytes_involutive key l : forall off i, mask_bytes key off i (mask_bytes key off i l) = l.
Proof.
  induction l as [|b l IH]; intros off i; [done|]. cbn. rewrite IH. f_equal.
  by rewrite Z.lxor_assoc, Z.lxor_nilpotent, Z.lxor_0_r.
Qed.

(** ** The kernel computes the reference *)
Lemma mask_tiny_spec key off l :
  0 < zlen l < 8 -> mask_tiny key off (zlen l) l = mask_bytes key off 0 l.
Proof.
  intros Hl. unfold zlen in Hl.
  destruct l as [|a [|b [|c [|d [|x [|y [|z [|w l]]]]]]]]; cbn [length] in Hl; try lia; reflexivity.
Qed.

Section Kernel.
Context (key : bytes) (off : Z) (key_ok : bytes_ok key) (key_len : zlen key = 4).

Let b0 := key_at key off.
Let b1 := key_at key (off + 1).
Let b2 := key_at key (off + 2).
Let b3 := key_at key (off + 3).

Lemma xor_word8 w :
  bytes_ok w -> zlen w = 8 ->
  xor_word LittleEndian 8 (k64_of (k32_of b0 b1 b2 b3)) w = mask_bytes key off 0 w.
Proof using key_ok key_len.
  intros Hw Hl. rewrite k64_bytes by by apply key_at_byte. unfold zlen in Hl.
  replace 8%nat with (length w) by lia. rewrite xor_word_bytes; [|done|cbn; lia|].
  - destruct w as [|a [|b [|c [|d [|x [|y [|z [|w l]]]]]]]]; cbn [length] in Hl; try lia.
    destruct l; [|cbn [length] in Hl; lia]. cbn [zip_with mask_bytes]. unfold b0, b1, b2, b3.
    list_eq; f_equal; apply key_at_mod; lia.
  - repeat (apply Forall_cons_2; [by apply key_at_byte|]). apply Forall_nil_2.
Qed.
Lemma xor_word4 w :
  bytes_ok w -> zlen w = 4 -> xor_word LittleEndian 4 (k32_of b0 b1 b2 b3) w = mask_bytes key off 0 w.
Proof using key_ok key_len.
  intros Hw Hl. rewrite k32_bytes by by apply key_at_byte. unfold zlen in Hl.
  replace 4%nat with (length w) by lia. rewrite xor_word_bytes; [|done|cbn; lia|].
  - destruct w as [|a [|b [|c [|d l]]]]; cbn [length] in Hl; try lia.
    destruct l; [|cbn [length] in Hl; lia]. cbn [zip_with mask_bytes]. unfold b0, b1, b2, b3.
    list_eq; f_equal; apply key_at_mod; lia.
  - repeat (apply Forall_cons_2; [by apply key_at_byte|]). apply Forall_nil_2.
Qed.

(** [done] is the masked beginning of [l] and [rest] what remains, in phase. *)
Definition masked_upto (l done rest : bytes) : Prop :=
  bytes_ok rest /\ exists a, l = a ++ rest /\ zlen a mod 4 = 0 /\ done = mask_bytes key off 0 a.

Lemma masked_upto_start l : bytes_ok l -> masked_upto l [] l.
Proof. intros Hl. split; [done|]. by exists []. Qed.

Lemma masked_upto_step l d1 l1 d2 l2 :
  masked_upto l d1 l1 -> masked_upto l1 d2 l2 -> masked_upto l (d1 ++ d2) l2.
Proof.
  intros (H1 & a & -> & Ha & ->) (H2 & b & -> & Hb & ->). split; [done|]. exists (a ++ b).
  rewrite app_assoc, zlen_app, mask_bytes_app. split_and!; [done|lia|]. f_equal. apply mask_bytes_phase. lia.
Qed.

Lemma xor_words_spec m l :
  bytes_ok l -> 8 * Z.of_nat m <= zlen l ->
  let '(done, rest) := xor_words LittleEndian (k64_of (k32_of b0 b1 b2 b3)) m l in
  masked_upto l done rest /\ zlen rest = zlen l - 8 * Z.of_nat m.
Proof using key_ok key_len.
  revert l. induction m as [|m IH]; intros l Hl Hm; cbn [xor_words].
  - split; [by apply masked_upto_start|lia].
  - specialize (IH (zdrop 8 l) (bytes_ok_zdrop _ _ Hl)). rewrite zlen_zdrop in IH by lia.
    specialize (IH ltac:(lia)). destruct (xor_words _ _ m (zdrop 8 l)) as [done rest]. destruct IH as [IH E].
    split; [|lia]. eapply masked_upto_step; [|done]. split; [by apply bytes_ok_zdrop|].
    exists (ztake 8 l). rewrite ztake_zdrop, zlen_ztake by lia. split_and!; [done|done|].
    apply xor_word8; [by apply bytes_ok_ztake|]. by rewrite zlen_ztake by lia.
Qed.

Lemma xor_block_spec m l :
  bytes_ok l ->
  let '(done, rest) := xor_block LittleEndian (k64_of (k32_of b0 b1 b2 b3)) m l in
  masked_upto l done rest /\ (zlen l < 16 * Z.of_nat m -> 0 < Z.of_nat m -> zlen rest < 8 * Z.of_nat m).
Proof using key_ok key_len.
  intros Hl. unfold xor_block. destruct (zlen l >=? 8 * Z.of_nat m) eqn:E; bool_simpl.
  - pose proof (xor_words_spec m l Hl ltac:(lia)) as H. destruct (xor_words _ _ m l) as [done rest].
    destruct H as [H1 H2]. split; [done|lia].
  - split; [by apply masked_upto_start|lia].
Qed.

Lemma xor_loop_spec fuel : forall l,
  bytes_ok l -> zlen l <= Z.of_nat fuel ->
  let '(done, rest) := xor_loop fuel LittleEndian (k64_of (k32_of b0 b1 b2 b3)) l in
  masked_upto l done rest /\ zlen rest < 128.
Proof using key_ok key_len.
  induction fuel as [|fuel IH]; intros l Hl Hf; cbn [xor_loop]; [split; [by apply masked_upto_start|lia]|].
  destruct (zlen l >=? 128) eqn:E; bool_simpl; [|split; [by apply masked_upto_start|lia]].
  pose proof (xor_words_spec 16 l Hl ltac:(lia)) as H. destruct (xor_words _ _ 16 l) as [d1 l1].
  destruct H as [H1 E1]. specialize (IH l1 (proj1 H1) ltac:(lia)). destruct (xor_loop fuel _ _ l1) as [d2 l2].
  destruct IH as [H2 E2]. split; [|done]. by eapply masked_upto_step.
Qed.

Lemma mask_aligned_spec l : bytes_ok l -> mask_aligned LittleEndian key off l = mask_bytes key off 0 l.
Proof using key_ok key_len.
  intros Hl. unfold mask_aligned. fold b0 b1 b2 b3.
  pose proof (xor_loop_spec (length l) l Hl ltac:(unfold zlen; lia)) as H1.
  destruct (xor_loop _ _ _ _) as [d1 l1]. destruct H1 as [H1 E1].
  pose proof (xor_block_spec 8 l1 (proj1 H1)) as H2. destruct (xor_block _ _ 8 l1) as [d2 l2]. destruct H2 as [H2 E2].
  pose proof (xor_block_spec 4 l2 (proj1 H2)) as H3. destruct (xor_block _ _ 4 l2) as [d3 l3]. destruct H3 as [H3 E3].
  pose proof (xor_block_spec 2 l3 (proj1 H3)) as H4. destruct (xor_block _ _ 2 l3) as [d4 l4]. destruct H4 as [H4 E4].
  pose proof (xor_block_spec 1 l4 (proj1 H4)) as H5. destruct (xor_block _ _ 1 l4) as [d5 l5]. destruct H5 as [H5 E5].
  assert (H6 : let '(d6, l6) := if zlen l5 >=? 4 then (xor_word LittleEndian 4 (k32_of b0 b1 b2 b3) (ztake 4 l5), zdrop 4 l5) else ([], l5) in
    masked_upto l5 d6 l6 /\ zlen l6 < 4).
  { destruct (zlen l5 >=? 4) eqn:E; bool_simpl; [|split; [apply masked_upto_start, H5|lia]].
    rewrite xor_word4; [|apply bytes_ok_ztake, H5|by rewrite zlen_ztake by lia].
    rewrite zlen_zdrop by lia. split; [|lia]. split; [apply bytes_ok_zdrop, H5|].
    exists (ztake 4 l5). rewrite ztake_zdrop, zlen_ztake by lia. done. }
  destruct (if zlen l5 >=? 4 then _ else _) as [d6 l6]. destruct H6 as [H6 E6].
  pose proof (masked_upto_step _ _ _ _ _ H1 (masked_upto_step _ _ _ _ _ H2 (masked_upto_step _ _ _ _ _ H3
    (masked_upto_step _ _ _ _ _ H4 (masked_upto_step _ _ _ _ _ H5 H6))))) as (_ & a & -> & Ha & E).
  rewrite mask_bytes_app, <- E, <- !app_assoc. do 6 f_equal. unfold zlen in E6, Ha.
  destruct l6 as [|x [|y [|z [|w l6]]]]; [..|cbn [length] in E6; lia]; cbn [mask_bytes]; unfold b0, b1, b2, b3;
    list_eq; f_equal; apply key_at_mod; unfold zlen; lia.
Qed.
End Kernel.

Lemma land3_mod x : Z.land x 3 = x mod 4.
Proof. change 3 with (2 ^ 2 - 1). by rewrite land_mask. Qed.

Lemma MaskWithOffset_scalar ptr payload key offset :
  bytes_ok payload -> bytes_ok key -> zlen key = 4 ->
  MaskWithOffset LittleEndian ptr payload key offset = MaskScalar payload key offset.
Proof.
  intros Hp Hk Hl. unfold MaskWithOffset, MaskScalar. pose proof (zlen_nonneg payload) as Hn.
  destruct (zlen payload =? 0) eqn:E0; bool_simpl; [by rewrite (zlen_zero _ E0)|].
  destruct (zlen payload <? 8) eqn:E8; bool_simpl; [apply mask_tiny_spec; lia|].
  destruct (negb _) eqn:Ea; [|by apply mask_aligned_spec].
  assert (Hpre : 0 < 8 - Z.land ptr 7 <= zlen payload).
  { change 7 with (2 ^ 3 - 1). rewrite land_mask by lia. lia. }
  destruct (8 - Z.land ptr 7 >? zlen payload) eqn:Ep; bool_simpl; [lia|].
  set (n := 8 - Z.land ptr 7) in *.
  assert (E : mask_bytes key (Z.land offset 3) 0 payload
    = mask_bytes key (Z.land offset 3) 0 (ztake n payload)
      ++ mask_bytes key (Z.land (Z.land offset 3 + n) 3) 0 (zdrop n payload)).
  { rewrite <- (ztake_zdrop n payload) at 1. rewrite mask_bytes_app, zlen_ztake by lia. f_equal.
    apply mask_bytes_phase. rewrite (land3_mod (_ + n)). lia. }
  rewrite E. destruct (zlen (zdrop n payload) <? 8); [done|]. f_equal.
  apply mask_aligned_spec; [done..|by apply bytes_ok_zdrop].
Qed.

Lemma MaskScalar_app a b key offset :
  MaskScalar (a ++ b) key offset = MaskScalar a key offset ++ MaskScalar b key (offset + zlen a).
Proof.
  unfold MaskScalar. rewrite mask_bytes_app. f_equal. apply mask_bytes_phase. rewrite !land3_mod. lia.
Qed.
Lemma MaskScalar_involutive l key offset : MaskScalar (MaskScalar l key offset) key offset = l.
Proof. apply mask_bytes_involutive. Qed.
Lemma MaskScalar_zlen l key offset : zlen (MaskScalar l key offset) = zlen l.
Proof. apply mask_bytes_length. Qed.
Lemma MaskScalar_ok l key offset : bytes_ok l -> bytes_ok key -> zlen key = 4 -> bytes_ok (MaskScalar l key offset).
Proof.
  intros Hl Hk H4. unfold MaskScalar. generalize (Z.land offset 3), 0. intros off i. revert i.
  induction Hl as [|b l Hb Hl IH]; intros i; [constructor|]. cbn. constructor; [|apply IH].
  pose proof (key_at_byte key (off + i) Hk H4) as Hkb. unfold is_byte in *.
  apply (lxor_byte _ _ Hb Hkb).
Qed.

(** ** Theorems *)

(** C27: the word-at-a-time kernel computes the byte-by-byte reference, for every
    payload length, key, frame offset and alignment of the slice in memory, on a
    little-endian machine. *)
Theorem mask_kernel_is_scalar (ptr : Z) (payload key : bytes) (offset : Z) :
  bytes_ok payload -> bytes_ok key -> zlen key = 4 ->
  MaskWithOffset LittleEndian ptr payload key offset = MaskScalar payload key offset.
Proof. apply MaskWithOffset_scalar. Qed.

(** Settle a decidable proposition on closed terms. *)
Ltac by_decide := apply (bool_decide_unpack _); vm_compute; exact I.

Definition sample_key : bytes := [0x37; 0xfa; 0x21; 0x3d].
Definition sample_payload : bytes := map (fun i => u8 (Z.of_nat i * 7)) (seq 0 203).

Lemma mask_kernel_is_scalar_witness :
  MaskWithOffset LittleEndian 0x1003 sample_payload sample_key 6 = MaskScalar sample_payload sample_key 6.
Proof.
  apply (mask_kernel_is_scalar 0x1003 sample_payload sample_key 6).
  - by_decide.
  - by_decide.
  - reflexivity.
Defined.

(** Masking twice with the same key and offset restores the payload, and a
    payload may be masked in pieces, each at its own offset and address, as a
    streaming receiver does. *)
Theorem mask_involution_and_chunks (p1 p2 p3 : Z) (a b key : bytes) (offset : Z) :
  bytes_ok a -> bytes_ok b -> bytes_ok key -> zlen key = 4 ->
  MaskWithOffset LittleEndian p1 (MaskWithOffset LittleEndian p2 a key offset) key offset = a
  /\ MaskWithOffset LittleEndian p1 (a ++ b) key offset
     = MaskWithOffset LittleEndian p2 a key offset ++ MaskWithOffset LittleEndian p3 b key (offset + zlen a).
Proof.
  intros Ha Hb Hk Hl. rewrite (MaskWithOffset_scalar p2 a), (MaskWithOffset_scalar p3 b) by done. split.
  - rewrite MaskWithOffset_scalar by (done || by apply MaskScalar_ok). apply MaskScalar_involutive.
  - rewrite MaskWithOffset_scalar by (done || by apply bytes_ok_app). apply MaskScalar_app.
Qed.

Lemma mask_involution_and_chunks_witness :
  MaskWithOffset LittleEndian 3 (MaskWithOffset LittleEndian 0 sample_payload sample_key 1) sample_key 1
  = sample_payload.
Proof.
  apply (mask_involution_and_chunks 3 0 0 sample_payload [] sample_key 1).
  - by_decide.
  - constructor.
  - by_decide.
  - reflexivity.
Defined.

(** The kernel assumes a little-endian machine.  The key words are assembled
    with the first key byte lowest, so on a big-endian machine an aligned
    eight-byte payload is masked with the key reversed. *)
Theorem mask_big_endian_wrong :
  MaskWithOffset BigEndian 0 [0; 0; 0; 0; 0; 0; 0; 0] [1; 2; 3; 4] 0 = [4; 3; 2; 1; 4; 3; 2; 1]
  /\ MaskScalar [0; 0; 0; 0; 0; 0; 0; 0] [1; 2; 3; 4] 0 = [1; 2; 3; 4; 1; 2; 3; 4].
Proof. split; reflexivity. Qed.
