(* ===== verification/WsHeader.v ===== *)
(** * WebSocket frame headers and close payloads (RFC 6455 sections 5.2, 5.5, 7.4)

    Models [src/proto/ws/opcode.go], [errors.go] and [header.go]: opcodes, close
    codes, the header record, parsing and the four writers, whole frames, and the
    payload of Close frames.  UTF-8 validation is that of [unicode/utf8].

    The theorems: headers and frames round-trip through every writer; the parser
    accepts exactly the minimal encodings, never panics and decides on a prefix
    as it does on the whole; close payloads round-trip; and [AppendFrame], which
    discards the header writer's error, emits a header it never wrote. *)

From Stdlib Require Import Ascii String.
From S2P Require Import Prelude WsMask.
Open Scope Z_scope.

(** ** Opcodes and close codes *)
Definition OpcodeContinuation : Z := 0x0.
Definition OpcodeText : Z := 0x1.
Definition OpcodeBinary : Z := 0x2.
Definition OpcodeDataUnused3 : Z := 0x3.
Definition OpcodeDataUnused7 : Z := 0x7.
Definition OpcodeClose : Z := 0x8.
Definition OpcodePing : Z := 0x9.
Definition OpcodePong : Z := 0xA.
Definition OpcodeControlUnusedB : Z := 0xB.
Definition OpcodeControlUnusedF : Z := 0xF.

Definition IsControl (op : Z) : bool := (op >=? OpcodeClose) && (op <=? 0xF).
Definition IsData (op : Z) : bool := op <=? OpcodeBinary.
Definition IsReserved (op : Z) : bool :=
  ((op >=? OpcodeDataUnused3) && (op <=? OpcodeDataUnused7))
  || ((op >=? OpcodeControlUnusedB) && (op <=? OpcodeControlUnusedF)).
Definition IsValid (op : Z) : bool :=
  (op =? OpcodeContinuation) || (op =? OpcodeText) || (op =? OpcodeBinary)
  || (op =? OpcodeClose) || (op =? OpcodePing) || (op =? OpcodePong).

Definition StatusNormalClosure : Z := 1000.
Definition StatusProtocolError : Z := 1002.
Definition StatusNoStatusReceived : Z := 1005.
Definition StatusAbnormalClosure : Z := 1006.
Definition StatusInvalidFramePayloadData : Z := 1007.
Definition StatusMessageTooBig : Z := 1009.
Definition StatusTLSHandshake : Z := 1015.

Definition IsValidForWire (c : Z) : bool :=
  if (c <? 1000) || (c >? 4999) then false
  else if (c =? StatusNoStatusReceived) || (c =? StatusAbnormalClosure) || (c =? StatusTLSHandshake) then false
  else if (c >=? 1000) && (c <=? 1003) then true
  else if (c >=? 1007) && (c <=? 1011) then true
  else if (c >=? 3000) && (c <=? 4999) then true
  else false.

(** ** Errors *)
Inductive ws_error :=
| ErrProtocolViolation | ErrIncomplete | ErrInvalidLength | ErrPayloadTooLarge
| ErrControlFrameTooLarge | ErrControlFrameFragmented | ErrBufferTooSmall
| ErrInvalidClosePayload | ErrInvalidCloseCode | ErrInvalidUTF8
| ErrInvalidOpcode | ErrClosed | ErrUnexpectedContinuation | ErrExpectedContinuation
| ErrMaskRequired | ErrMaskForbidden | ErrRSVSet | ErrDataAfterClose | ErrCloseReasonTooLong
| IoEOF | IoUnexpectedEOF | TransportErr (code : Z) | HandlerErr (code : Z)
| DeflateErr
| CloseError (code : Z) (reason : bytes).
Definition ErrMessageTooBig : ws_error := ErrPayloadTooLarge.

#[export] Instance ws_error_eq_dec : EqDecision ws_error.
Proof. solve_decision. Defined.

(** [errors.Is(err, ErrProtocolViolation)]: the errors that wrap it. *)
Definition is_protocol_violation (e : ws_error) : bool :=
  match e with
  | ErrProtocolViolation | ErrInvalidLength | ErrControlFrameTooLarge | ErrControlFrameFragmented
  | ErrInvalidClosePayload | ErrInvalidCloseCode => true
  | _ => false
  end.

(** [err.Error()], of the errors whose text is put into a Close frame. *)
Definition error_text (e : ws_error) : bytes :=
  bytes_of_string
    match e with
    | ErrProtocolViolation => "ws: protocol error"
    | ErrInvalidLength => "ws: protocol error: non-minimal extended payload length encoding"
    | ErrPayloadTooLarge => "ws: payload length exceeds maximum allowed"
    | ErrControlFrameTooLarge => "ws: protocol error: control frame payload exceeds 125 bytes"
    | ErrControlFrameFragmented => "ws: protocol error: control frame must not be fragmented"
    | ErrInvalidClosePayload => "ws: protocol error: invalid close frame payload length"
    | ErrInvalidCloseCode => "ws: protocol error: invalid close status code"
    | ErrInvalidOpcode => "ws: unknown or reserved opcode"
    | _ => ""
    end%string.

(** ** UTF-8 ([utf8.Valid], [utf8.RuneStart]) *)
Definition in_range (lo hi b : Z) : bool := (lo <=? b) && (b <=? hi).

Fixpoint utf8_Valid (l : bytes) : bool :=
  match l with
  | [] => true
  | b0 :: l1 =>
      if b0 <? 0x80 then utf8_Valid l1
      else
        match l1 with
        | [] => false
        | b1 :: l2 =>
            if in_range 0xC2 0xDF b0 then in_range 0x80 0xBF b1 && utf8_Valid l2
            else
              match l2 with
              | [] => false
              | b2 :: l3 =>
                  if in_range 0xE0 0xEF b0 then
                    in_range (if b0 =? 0xE0 then 0xA0 else 0x80) (if b0 =? 0xED then 0x9F else 0xBF) b1
                    && in_range 0x80 0xBF b2 && utf8_Valid l3
                  else
                    match l3 with
                    | [] => false
                    | b3 :: l4 =>
                        in_range 0xF0 0xF4 b0
                        && in_range (if b0 =? 0xF0 then 0x90 else 0x80) (if b0 =? 0xF4 then 0x8F else 0xBF) b1
                        && in_range 0x80 0xBF b2 && in_range 0x80 0xBF b3 && utf8_Valid l4
                    end
              end
        end
  end.
Definition RuneStart (b : Z) : bool := negb (Z.land b 0xC0 =? 0x80).

(** ** Headers *)
Definition MaxHeaderSize : Z := 14.

#[projections(primitive)]
Record Header := mkHeader {
  Fin : bool; Rsv1 : bool; Rsv2 : bool; Rsv3 : bool;
  Opcode : Z;
  Masked : bool;
  MaskKey : bytes;
  PayloadLen : Z;
  Length : Z
}.
Definition zero_key : bytes := [0; 0; 0; 0].
Definition zero_header : Header := mkHeader false false false false 0 false zero_key 0 0.

Definition HeaderLen (h : Header) : Z :=
  let n := 2 in
  let n := if (PayloadLen h >? 125) && (PayloadLen h <=? 0xFFFF) then n + 2
           else if PayloadLen h >? 0xFFFF then n + 8 else n in
  if Masked h then n + 4 else n.

Definition bit (b m : Z) : bool := negb (Z.land b m =? 0).

(** The control-frame rules every reader and writer checks. *)
Definition check_control (h : Header) : res ws_error unit :=
  if IsControl (Opcode h) then
    if negb (Fin h) then Err ErrControlFrameFragmented
    else if PayloadLen h >? 125 then Err ErrControlFrameTooLarge
    else Ok tt
  else Ok tt.

(** Extended length: the value and the header length so far. *)
Definition parse_length (b : bytes) (len7 : Z) : res ws_error (Z * Z) :=
  if len7 =? 126 then
    if zlen b <? 4 then Err ErrIncomplete
    else
      let* w := slice b 2 4 in
      let val := be_get w in
      if val <? 126 then Err ErrInvalidLength else Ok (val, 4)
  else if len7 =? 127 then
    if zlen b <? 10 then Err ErrIncomplete
    else
      let* w := slice b 2 10 in
      let val := be_get w in
      if val >? 0x7FFFFFFFFFFFFFFF then Err ErrPayloadTooLarge
      else if val <=? 0xFFFF then Err ErrInvalidLength
      else Ok (i64 val, 10)
  else Ok (len7, 2).

Definition parse_key (b : bytes) (masked : bool) (hlen : Z) : res ws_error (bytes * Z) :=
  if masked then
    if zlen b <? hlen + 4 then Err ErrIncomplete
    else let* k := slice b hlen (hlen + 4) in Ok (k, hlen + 4)
  else Ok (zero_key, hlen).

Definition ParseHeader (b : bytes) : res ws_error (Header * Z) :=
  if zlen b <? 2 then Err ErrIncomplete
  else
    let* b0 := index b 0 in
    let* b1 := index b 1 in
    let masked := bit b1 0x80 in
    let* (plen, hlen) := parse_length b (Z.land b1 0x7F) in
    let* (key, hlen) := parse_key b masked hlen in
    let h := mkHeader (bit b0 0x80) (bit b0 0x40) (bit b0 0x20) (bit b0 0x10) (Z.land b0 0x0F)
               masked key plen 0 in
    let* _ := check_control h in
    Ok (h, hlen).

(** ** Writers *)

(** [copy] of [bs] to [dst] at [i], within bounds. *)
Definition put_at (dst : bytes) (i : Z) (bs : bytes) : bytes := ztake i dst ++ bs ++ zdrop (i + zlen bs) dst.

Definition flag (b : bool) (m : Z) : Z := if b then m else 0.
Definition first_byte (h : Header) : Z :=
  Z.lor (Z.lor (Z.lor (Z.lor (u8 (Z.land (Opcode h) 0x0F)) (flag (Fin h) 0x80)) (flag (Rsv1 h) 0x40))
    (flag (Rsv2 h) 0x20)) (flag (Rsv3 h) 0x10).

Definition WriteHeader (dst : bytes) (h : Header) : res ws_error (bytes * Z) :=
  if PayloadLen h <? 0 then Err ErrInvalidLength
  else
    let* _ := check_control h in
    if zlen dst <? HeaderLen h then Err ErrBufferTooSmall
    else
      let dst := put_at dst 0 [first_byte h] in
      let b1 := flag (Masked h) 0x80 in
      let '(dst, b1, idx) :=
        if PayloadLen h <=? 125 then (dst, Z.lor b1 (u8 (PayloadLen h)), 2)
        else if PayloadLen h <=? 0xFFFF then (put_at dst 2 (be_put 2 (u16 (PayloadLen h))), Z.lor b1 126, 4)
        else (put_at dst 2 (be_put 8 (u64 (PayloadLen h))), Z.lor b1 127, 10) in
      let dst := put_at dst 1 [b1] in
      if Masked h then Ok (put_at dst idx (MaskKey h), idx + 4) else Ok (dst, idx).

(** [e] and [ptr] are the byte order and the address the masking kernel sees. *)
Definition WriteFrame (e : endianness) (ptr : Z) (dst : bytes) (h : Header) (payload : bytes) :
    res ws_error (bytes * Z) :=
  let h := { h with PayloadLen := zlen payload } in
  let hlen := HeaderLen h in
  let total := hlen + zlen payload in
  if zlen dst <? total then Err ErrBufferTooSmall
  else
    let* (hd, n) := WriteHeader (ztake hlen dst) h in
    let dst := hd ++ zdrop hlen dst in
    if 0 <? zlen payload then
      let body := if Masked h then Mask e ptr payload (MaskKey h) else payload in
      Ok (put_at dst n body, total)
    else Ok (dst, total).

(** [stale] is what the grown slice holds beyond the old length. *)
Definition AppendFrame (e : endianness) (ptr : Z) (stale dst : bytes) (h : Header) (payload : bytes) : bytes :=
  let h := { h with PayloadLen := zlen payload } in
  let hlen := HeaderLen h in
  let room := ztake (hlen + zlen payload) stale in
  let hd := match WriteHeader (ztake hlen room) h with Ok (hd, _) => hd | _ => ztake hlen room end in
  dst ++ hd ++ (if Masked h then Mask e ptr payload (MaskKey h) else payload).

Definition AppendHeader (dst : bytes) (h : Header) : bytes :=
  let length := PayloadLen h in
  let length := if (length =? 0) && (Length h >? 0) then Length h else length in
  let b0 := first_byte h in
  let maskBit := flag (Masked h) 0x80 in
  let dst :=
    if length <=? 125 then dst ++ [b0; Z.lor maskBit (u8 length)]
    else if length <=? 0xFFFF then
      dst ++ [b0; Z.lor maskBit 126; u8 (Z.shiftr length 8); u8 length]
    else
      dst ++ [b0; Z.lor maskBit 127; u8 (Z.shiftr length 56); u8 (Z.shiftr length 48);
              u8 (Z.shiftr length 40); u8 (Z.shiftr length 32); u8 (Z.shiftr length 24);
              u8 (Z.shiftr length 16); u8 (Z.shiftr length 8); u8 length] in
  if Masked h then dst ++ [znth (MaskKey h) 0; znth (MaskKey h) 1; znth (MaskKey h) 2; znth (MaskKey h) 3]
  else dst.

(** ** Close payloads *)
Definition ParseClosePayload (payload : bytes) : res ws_error (Z * bytes) :=
  if zlen payload =? 0 then Ok (StatusNoStatusReceived, [])
  else if zlen payload =? 1 then Err ErrInvalidClosePayload
  else
    let* w := slice payload 0 2 in
    let code := be_get w in
    if negb (IsValidForWire code) then Err ErrInvalidCloseCode
    else if zlen payload >? 2 then
      let reasonBytes := zdrop 2 payload in
      if negb (utf8_Valid reasonBytes) then Err ErrInvalidUTF8 else Ok (code, reasonBytes)
    else Ok (code, []).

Definition FormatClosePayload (dst : bytes) (code : Z) (reason : bytes) : res ws_error (bytes * Z) :=
  if zlen dst <? 2 + zlen reason then Err ErrBufferTooSmall
  else Ok (put_at (put_at dst 0 (be_put 2 (u16 code))) 2 reason, 2 + zlen reason).

Definition AppendClosePayload (code : Z) (reason : bytes) : res ws_error bytes :=
  if code =? StatusNoStatusReceived then Ok []
  else if negb (IsValidForWire code) then Err ErrInvalidCloseCode
  else if zlen reason >? 123 then Err ErrCloseReasonTooLong
  else if negb (utf8_Valid reason) then Err ErrInvalidUTF8
  else
    let* (dst, _) := FormatClosePayload (replicate (Z.to_nat (2 + zlen reason)) 0) code reason in
    Ok dst.

(** ** Reading from a stream

    What the peer has sent so far and has not been read, and the error the
    transport reports when that is exhausted. *)
#[projections(primitive)]
Record reader := mkReader { rd_data : bytes; rd_end : ws_error }.

(** [io.ReadFull]. *)
Definition ReadFull (r : reader) (n : Z) : reader * res ws_error bytes :=
  if n <=? 0 then (r, Ok [])
  else if n <=? zlen (rd_data r) then
    ({ r with rd_data := zdrop n (rd_data r) }, Ok (ztake n (rd_data r)))
  else
    ({ r with rd_data := [] },
     Err (if zlen (rd_data r) =? 0 then rd_end r
          else if bool_decide (rd_end r = IoEOF) then IoUnexpectedEOF else rd_end r)).

Definition ReadHeader (r : reader) : reader * res ws_error Header :=
  let '(r, w) := ReadFull r 2 in
  match w with
  | Ok w =>
      let b1 := znth w 1 in
      let len7 := Z.land b1 0x7F in
      let extra := if len7 =? 126 then 2 else if len7 =? 127 then 8 else 0 in
      let extra := if bit b1 0x80 then extra + 4 else extra in
      let '(r, x) := ReadFull r extra in
      match x with
      | Ok x =>
          match ParseHeader (w ++ x) with
          | Ok (h, _) => (r, Ok { h with Length := PayloadLen h })
          | Err e => (r, Err e)
          | Panic => (r, Panic)
          end
      | Err e => (r, Err e)
      | Panic => (r, Panic)
      end
  | Err e => (r, Err e)
  | Panic => (r, Panic)
  end.

(** ** The wire image of a header *)
Definition len_enc (masked : bool) (n : Z) : bytes :=
  if n <=? 125 then [flag masked 0x80 + n]
  else if n <=? 0xFFFF then (flag masked 0x80 + 126) :: be_put 2 n
  else (flag masked 0x80 + 127) :: be_put 8 n.
Definition ws_enc (h : Header) : bytes :=
  first_byte h :: len_enc (Masked h) (PayloadLen h) ++ (if Masked h then MaskKey h else []).

(** Headers that can be sent.  [Length] mirrors [PayloadLen] or is unset, and the
    key of an unmasked header is zero. *)
Definition header_wf (h : Header) : Prop :=
  0 <= Opcode h < 16 /\ 0 <= PayloadLen h < 2 ^ 63 /\ bytes_ok (MaskKey h) /\ zlen (MaskKey h) = 4
  /\ (Masked h = false -> MaskKey h = zero_key) /\ check_control h = Ok tt.

Lemma first_byte_fields b0 masked key n l :
  is_byte b0 ->
  first_byte (mkHeader (bit b0 0x80) (bit b0 0x40) (bit b0 0x20) (bit b0 0x10) (Z.land b0 0x0F) masked key n l) = b0
  /\ 0 <= Z.land b0 0x0F < 16.
Proof.
  intros Hb. unfold first_byte. cbn [Fin Rsv1 Rsv2 Rsv3 Opcode].
  assert (H : ((Z.lor (Z.lor (Z.lor (Z.lor (u8 (Z.land (Z.land b0 15) 15)) (flag (bit b0 128) 128))
     (flag (bit b0 64) 64)) (flag (bit b0 32) 32)) (flag (bit b0 16) 16) =? b0)
     && (0 <=? Z.land b0 15) && (Z.land b0 15 <? 16)) = true).
  { revert b0 Hb. apply (all_bytes_spec (fun b0 => _)). vm_compute. reflexivity. }
  bool_simpl. lia.
Qed.

Lemma fields_first_byte h :
  0 <= Opcode h < 16 ->
  is_byte (first_byte h) /\ bit (first_byte h) 0x80 = Fin h /\ bit (first_byte h) 0x40 = Rsv1 h
  /\ bit (first_byte h) 0x20 = Rsv2 h /\ bit (first_byte h) 0x10 = Rsv3 h /\ Z.land (first_byte h) 0x0F = Opcode h.
Proof.
  destruct h as [f r1 r2 r3 op m k n l]. unfold first_byte. cbn [Fin Rsv1 Rsv2 Rsv3 Opcode]. intros Hop.
  assert (Hb : is_byte op) by (unfold is_byte; lia).
  assert (H : (negb (op <? 16)
    || forallb (fun '(f, r1, r2, r3) =>
         let x := Z.lor (Z.lor (Z.lor (Z.lor (u8 (Z.land op 15)) (flag f 128)) (flag r1 64)) (flag r2 32)) (flag r3 16) in
         (0 <=? x) && (x <? 256) && Bool.eqb (bit x 128) f && Bool.eqb (bit x 64) r1 && Bool.eqb (bit x 32) r2
         && Bool.eqb (bit x 16) r3 && (Z.land x 15 =? op))
       (list_prod (list_prod (list_prod [true; false] [true; false]) [true; false]) [true; false])) = true).
  { clear Hop. revert op Hb. apply (all_bytes_spec (fun op => _)). vm_compute. reflexivity. }
  apply orb_true_iff in H as [H|H]; [bool_simpl; lia|]. rewrite forallb_forall in H.
  specialize (H (f, r1, r2, r3)). cbv zeta beta iota in H. rewrite !andb_true_iff, !Bool.eqb_true_iff in H.
  destruct H as ((((((H1 & H2) & H3) & H4) & H5) & H6) & H7).
  - destruct f, r1, r2, r3; cbn; auto 20.
  - bool_simpl. unfold is_byte. split_and!; try done; lia.
Qed.

Lemma second_byte_fields masked n :
  0 <= n < 128 ->
  is_byte (flag masked 0x80 + n) /\ bit (flag masked 0x80 + n) 0x80 = masked /\ Z.land (flag masked 0x80 + n) 0x7F = n.
Proof.
  intros Hn. assert (Hb : is_byte n) by (unfold is_byte; lia).
  assert (H : (negb (n <? 128)
    || forallb (fun m => let x := flag m 128 + n in
         (0 <=? x) && (x <? 256) && Bool.eqb (bit x 128) m && (Z.land x 127 =? n)) [true; false]) = true).
  { clear Hn. revert n Hb. apply (all_bytes_spec (fun n => _)). vm_compute. reflexivity. }
  apply orb_true_iff in H as [H|H]; [bool_simpl; lia|]. rewrite forallb_forall in H.
  specialize (H masked). cbv zeta beta iota in H. rewrite !andb_true_iff, Bool.eqb_true_iff in H.
  destruct H as (((H1 & H2) & H3) & H4); [destruct masked; cbn; auto|]. bool_simpl. unfold is_byte. split_and!; done || lia.
Qed.
Lemma fields_second_byte b1 :
  is_byte b1 -> flag (bit b1 0x80) 0x80 + Z.land b1 0x7F = b1 /\ 0 <= Z.land b1 0x7F < 128.
Proof.
  intros Hb. assert (H : ((flag (bit b1 128) 128 + Z.land b1 127 =? b1) && (0 <=? Z.land b1 127) && (Z.land b1 127 <? 128)) = true).
  { revert b1 Hb. apply (all_bytes_spec (fun b1 => _)). vm_compute. reflexivity. }
  bool_simpl. lia.
Qed.

(** ** Writing *)
Lemma put_at_app a d i bs : zlen a = i -> put_at (a ++ d) i bs = a ++ bs ++ zdrop (zlen bs) d.
Proof.
  intros <-. unfold put_at. rewrite ztake_app. do 2 f_equal. rewrite <- zdrop_zdrop by apply zlen_nonneg.
  by rewrite zdrop_app.
Qed.
Lemma lor_flag m n : 0 <= n < 128 -> Z.lor (flag m 0x80) n = flag m 0x80 + n.
Proof.
  intros. destruct m; [|done]. cbn [flag]. change 0x80 with (1 * 2 ^ 7). by rewrite lor_add by lia.
Qed.

Lemma len_enc_zlen masked n :
  0 <= n -> 1 + zlen (len_enc masked n)
            = 2 + (if (n >? 125) && (n <=? 0xFFFF) then 2 else if n >? 0xFFFF then 8 else 0).
Proof.
  intros Hn. unfold len_enc. destruct (n <=? 125) eqn:E1; bool_simpl.
  - replace (n >? 125) with false by lia. replace (n >? 0xFFFF) with false by lia. done.
  - replace (n >? 125) with true by lia. destruct (n <=? 0xFFFF) eqn:E2; bool_simpl.
    + rewrite zlen_cons, be_put_zlen. done.
    + replace (n >? 0xFFFF) with true by lia. rewrite zlen_cons, be_put_zlen. done.
Qed.
Lemma ws_enc_zlen h : header_wf h -> zlen (ws_enc h) = HeaderLen h.
Proof.
  intros (_ & Hn & _ & Hk & _). unfold ws_enc, HeaderLen. rewrite zlen_cons, zlen_app.
  pose proof (len_enc_zlen (Masked h) (PayloadLen h) ltac:(lia)) as E. revert E.
  destruct (Masked h); [rewrite Hk|change (zlen (@nil Z)) with 0];
    destruct (_ && _); [|destruct (_ >? _)| |destruct (_ >? _)]; lia.
Qed.

Lemma ws_enc_ok h : header_wf h -> bytes_ok (ws_enc h).
Proof.
  intros (Hop & Hn & Hk & _). destruct (fields_first_byte h Hop) as [Hfb _]. unfold ws_enc, len_enc.
  constructor; [done|]. apply bytes_ok_app. split; [|destruct (Masked h); [done|constructor]].
  repeat case_match; bool_simpl; (constructor; [apply second_byte_fields; lia|first [apply be_put_ok|constructor]]).
Qed.

Lemma put_at_nil d i : put_at d i [] = d.
Proof. unfold put_at. change (zlen (@nil Z)) with 0. rewrite Z.add_0_r. apply ztake_zdrop. Qed.

(** The writes of [WriteHeader]: first byte, extended length [w], second byte,
    key. *)
Lemma put_header b0 b1 w key (m : bool) dst :
  zlen key = 4 -> 2 + zlen w + (if m then 4 else 0) <= zlen dst ->
  let d := put_at (put_at (put_at dst 0 [b0]) 2 w) 1 [b1] in
  let out := b0 :: b1 :: w ++ (if m then key else []) in
  (if m then Ok (put_at d (2 + zlen w) key, 2 + zlen w + 4) else Ok (d, 2 + zlen w))
  = @Ok ws_error _ (out ++ zdrop (zlen out) dst, zlen out).
Proof.
  intros Hk Hd. pose proof (zlen_nonneg w). destruct dst as [|x [|y d]]; cbn zeta.
  1: change (zlen (@nil Z)) with 0 in Hd; destruct m; lia.
  1: change (zlen [x]) with 1 in Hd; destruct m; lia.
  change (put_at (x :: y :: d) 0 [b0]) with ([b0; y] ++ d).
  rewrite (put_at_app [b0; y] d 2 w) by done. cbn [app].
  change (put_at (b0 :: y :: ?l) 1 [b1]) with (b0 :: b1 :: l). rewrite !zlen_cons, zlen_app.
  assert (E : forall n, 0 <= n -> zdrop (1 + (1 + (zlen w + n))) (x :: y :: d) = zdrop n (zdrop (zlen w) d)).
  { intros n Hn. rewrite zdrop_zdrop by lia. replace (1 + (1 + (zlen w + n))) with (2 + (zlen w + n)) by lia.
    rewrite <- zdrop_zdrop by lia. done. }
  destruct m.
  - change (b0 :: b1 :: w ++ zdrop (zlen w) d) with ((b0 :: b1 :: w) ++ zdrop (zlen w) d).
    rewrite put_at_app by (rewrite !zlen_cons; lia). rewrite Hk, E by lia. cbn [app]. rewrite <- app_assoc.
    do 2 f_equal. lia.
  - change (zlen (@nil Z)) with 0. rewrite E, app_nil_r by lia. rewrite zdrop_0. do 2 f_equal. lia.
Qed.

Lemma WriteHeader_enc dst h :
  header_wf h -> HeaderLen h <= zlen dst ->
  WriteHeader dst h = Ok (ws_enc h ++ zdrop (HeaderLen h) dst, HeaderLen h).
Proof.
  intros Hwf Hd. pose proof Hwf as (Hop & Hn & Hk & Hkl & _ & Hc). unfold WriteHeader.
  replace (PayloadLen h <? 0) with false by lia. rewrite Hc. cbn [res_bind].
  replace (zlen dst <? HeaderLen h) with false by lia.
  rewrite <- (ws_enc_zlen h Hwf) in *. unfold ws_enc, len_enc in *. set (n := PayloadLen h) in *.
  destruct (n <=? 125) eqn:E1; bool_simpl; [|destruct (n <=? 0xFFFF) eqn:E2; bool_simpl].
  - rewrite u8_small by (unfold is_byte; lia). rewrite lor_flag by lia.
    rewrite <- (put_at_nil (put_at dst 0 [first_byte h]) 2).
    refine (put_header (first_byte h) (flag (Masked h) 128 + n) [] (MaskKey h) (Masked h) dst Hkl _).
    cbn [app] in Hd. rewrite !zlen_cons in Hd. change (zlen (@nil Z)) with 0. destruct (Masked h); [lia|].
    change (zlen (@nil Z)) with 0 in Hd. lia.
  - unfold u16. rewrite Z.mod_small by lia. rewrite lor_flag by lia.
    refine (put_header (first_byte h) (flag (Masked h) 128 + 126) (be_put 2 n) (MaskKey h) (Masked h) dst Hkl _).
    cbn [app] in Hd. rewrite !zlen_cons, zlen_app in Hd. rewrite be_put_zlen in *.
    destruct (Masked h); [lia|]. change (zlen (@nil Z)) with 0 in Hd. lia.
  - rewrite u64_small by (unfold is_u64; lia). rewrite lor_flag by lia.
    refine (put_header (first_byte h) (flag (Masked h) 128 + 127) (be_put 8 n) (MaskKey h) (Masked h) dst Hkl _).
    cbn [app] in Hd. rewrite !zlen_cons, zlen_app in Hd. rewrite be_put_zlen in *.
    destruct (Masked h); [lia|]. change (zlen (@nil Z)) with 0 in Hd. lia.
Qed.

Lemma list4 (l : bytes) : zlen l = 4 -> l = [znth l 0; znth l 1; znth l 2; znth l 3].
Proof.
  unfold zlen. intros H. destruct l as [|a [|b [|c [|d [|x l]]]]]; cbn [Datatypes.length] in H; try lia. done.
Qed.

Lemma AppendHeader_enc dst h :
  header_wf h -> (PayloadLen h = 0 -> Length h <= 0) -> AppendHeader dst h = dst ++ ws_enc h.
Proof.
  intros (_ & Hn & _ & Hkl & _) Hl. unfold AppendHeader, ws_enc, len_enc. set (n := PayloadLen h) in *.
  replace (if (n =? 0) && (Length h >? 0) then Length h else n) with n
    by (destruct (n =? 0) eqn:E; [bool_simpl; by replace (Length h >? 0) with false by lia|done]).
  rewrite <- (list4 _ Hkl).
  destruct (n <=? 125) eqn:E1; bool_simpl; [|destruct (n <=? 0xFFFF) eqn:E2; bool_simpl]; rewrite lor_flag by
    (rewrite ?u8_small by (unfold is_byte; lia); lia).
  - rewrite u8_small by (unfold is_byte; lia). destruct (Masked h); by rewrite <- ?app_assoc, ?app_nil_r.
  - cbn [be_put]. rewrite Z.shiftr_0_r. destruct (Masked h); by rewrite <- ?app_assoc, ?app_nil_r.
  - cbn [be_put]. rewrite Z.shiftr_0_r. destruct (Masked h); by rewrite <- ?app_assoc, ?app_nil_r.
Qed.

(** ** Parsing *)
Lemma index_ok {E} (l : bytes) i : 0 <= i < zlen l -> index (E:=E) l i = Ok (znth l i).
Proof. intros. unfold index. by test_true ((0 <=? i) && (i <? zlen l)). Qed.
Lemma slice_app {E} (a w l : bytes) lo hi :
  zlen a = lo -> zlen a + zlen w = hi -> slice (E:=E) (a ++ w ++ l) lo hi = Ok w.
Proof.
  intros <- <-. pose proof (zlen_nonneg a). pose proof (zlen_nonneg w). pose proof (zlen_nonneg l).
  rewrite slice_ok; [|lia|rewrite !zlen_app; lia]. rewrite zdrop_app.
  by rewrite ztake_app_eq by lia.
Qed.

Lemma slice_after2 {E} (a b : Z) (w l : bytes) hi :
  2 + zlen w = hi -> slice (E:=E) (a :: b :: w ++ l) 2 hi = Ok w.
Proof. intros. by apply (slice_app [a; b]). Qed.

(** The slice is long enough for the next field. *)
Ltac enough_bytes c :=
  match goal with |- context [?x <? c] =>
    replace (x <? c) with false by (symmetry; apply Z.ltb_ge; clear; unfold zlen; lia) end.

Lemma ParseHeader_enc h tail :
  header_wf h -> ParseHeader (ws_enc h ++ tail) = Ok ({ h with Length := 0 }, HeaderLen h).
Proof.
  intros Hwf. pose proof (ws_enc_zlen h Hwf) as HL. destruct Hwf as (Hop & Hn & Hk & Hkl & Hz & Hc).
  pose proof (fields_first_byte h Hop) as (F0 & F1 & F2 & F3 & F4 & F5).
  unfold ParseHeader. unfold ws_enc in *. set (n := PayloadLen h) in *. set (k := if Masked h then MaskKey h else []) in *.
  assert (Hlen : exists b1 w, len_enc (Masked h) n = b1 :: w /\ bit b1 0x80 = Masked h
    /\ forall a l, parse_length (a :: b1 :: w ++ l) (Z.land b1 0x7F) = Ok (n, 2 + zlen w)).
  { unfold len_enc. destruct (n <=? 125) eqn:E1; bool_simpl; [|destruct (n <=? 0xFFFF) eqn:E2; bool_simpl].
    - exists (flag (Masked h) 0x80 + n), []. pose proof (second_byte_fields (Masked h) n ltac:(lia)) as (_ & S1 & S2).
      split_and!; [done..|]. intros a l. unfold parse_length. rewrite S2.
      replace (n =? 126) with false by lia. by replace (n =? 127) with false by lia.
    - exists (flag (Masked h) 0x80 + 126), (be_put 2 n).
      pose proof (second_byte_fields (Masked h) 126 ltac:(lia)) as (_ & S1 & S2). split_and!; [done..|].
      intros a l. unfold parse_length. rewrite S2. cbn [Z.eqb Pos.eqb]. rewrite !zlen_cons, zlen_app, be_put_zlen.
      pose proof (zlen_nonneg l). enough_bytes 4.
      rewrite slice_after2 by by rewrite be_put_zlen. cbn [res_bind].
      rewrite be_get_put, Z.mod_small by lia. by replace (n <? 126) with false by lia.
    - exists (flag (Masked h) 0x80 + 127), (be_put 8 n).
      pose proof (second_byte_fields (Masked h) 127 ltac:(lia)) as (_ & S1 & S2). split_and!; [done..|].
      intros a l. unfold parse_length. rewrite S2. cbn [Z.eqb Pos.eqb]. rewrite !zlen_cons, zlen_app, be_put_zlen.
      pose proof (zlen_nonneg l). enough_bytes 10.
      rewrite slice_after2 by by rewrite be_put_zlen. cbn [res_bind].
      rewrite be_get_put, Z.mod_small by lia. replace (n >? 0x7FFFFFFFFFFFFFFF) with false by lia.
      replace (n <=? 0xFFFF) with false by lia. by rewrite i64_small by lia. }
  destruct Hlen as (b1 & w & Ew & Eb & Hpl). rewrite Ew in *. cbn [app]. rewrite <- app_assoc.
  cbn [app] in HL. rewrite !zlen_cons, zlen_app in HL.
  pose proof (zlen_nonneg w). pose proof (zlen_nonneg k). pose proof (zlen_nonneg tail).
  rewrite !zlen_cons, !zlen_app. enough_bytes 2.
  rewrite !index_ok by (rewrite !zlen_cons, !zlen_app; lia). cbn [res_bind].
  change (znth (first_byte h :: b1 :: ?l) 0) with (first_byte h). change (znth (first_byte h :: b1 :: ?l) 1) with b1.
  rewrite Hpl. cbn [res_bind]. rewrite Eb.
  assert (Hpk : parse_key (first_byte h :: b1 :: w ++ k ++ tail) (Masked h) (2 + zlen w) = Ok (MaskKey h, HeaderLen h)).
  { unfold parse_key, k in *. destruct (Masked h).
    - rewrite !zlen_cons, !zlen_app, Hkl. enough_bytes (2 + zlen w + 4).
      change (first_byte h :: b1 :: w ++ MaskKey h ++ tail) with ((first_byte h :: b1 :: w) ++ MaskKey h ++ tail).
      rewrite slice_app by (rewrite !zlen_cons; lia). cbn [res_bind]. do 2 f_equal. lia.
    - rewrite Hz by done. do 2 f_equal. change (zlen (@nil Z)) with 0 in HL. lia. }
  rewrite Hpk. cbn [res_bind]. rewrite F1, F2, F3, F4, F5.
  change (check_control (mkHeader (Fin h) (Rsv1 h) (Rsv2 h) (Rsv3 h) (Opcode h) (Masked h) (MaskKey h) n 0)) with (check_control h).
  rewrite Hc. cbn [res_bind]. done.
Qed.

Lemma slice_inv {E A} (l : list A) lo hi w :
  slice (E:=E) l lo hi = Ok w -> w = ztake (hi - lo) (zdrop lo l) /\ 0 <= lo <= hi /\ hi <= zlen l.
Proof. unfold slice. intros H. repeat case_hyp H; [|done]. injection H as <-. split; [done|lia]. Qed.

Lemma parse_length_inv b0 b1 r n hl :
  bytes_ok (b0 :: b1 :: r) -> parse_length (b0 :: b1 :: r) (Z.land b1 0x7F) = Ok (n, hl) ->
  0 <= n < 2 ^ 63 /\ exists w r', r = w ++ r' /\ hl = 2 + zlen w /\ len_enc (bit b1 0x80) n = b1 :: w.
Proof.
  intros (_ & Hb & Hr)%Forall_cons_iff%(fun H => conj (proj1 H) (proj1 (Forall_cons_iff _ _ _) (proj2 H))) H.
  pose proof (fields_second_byte b1 Hb) as [F1 F2].
  assert (Hw : forall m, 0 <= m <= zlen r -> length (ztake m r) = Z.to_nat m).
  { intros m Hm. pose proof (zlen_ztake m r Hm) as E. unfold zlen in E. lia. }
  unfold parse_length in H. rewrite !zlen_cons in H.
  destruct (Z.land b1 0x7F =? 126) eqn:E1; [|destruct (Z.land b1 0x7F =? 127) eqn:E2]; bool_simpl.
  - destruct (_ <? 4) eqn:E3; [done|]. bool_simpl. rewrite slice_ok in H by (rewrite ?zlen_cons; lia).
    cbn [res_bind] in H. change (ztake (4 - 2) (zdrop 2 (b0 :: b1 :: r))) with (ztake 2 r) in H.
    case_hyp H; [done|]. injection H as <- <-.
    pose proof (be_get_range _ (bytes_ok_ztake 2 r Hr)) as Hg. rewrite zlen_ztake in Hg by lia.
    split; [lia|]. exists (ztake 2 r), (zdrop 2 r). rewrite ztake_zdrop, zlen_ztake by lia. split_and!; [done..|].
    unfold len_enc. set (v := be_get (ztake 2 r)) in *. replace (v <=? 125) with false by lia.
    replace (v <=? 0xFFFF) with true by lia. f_equal; [lia|]. unfold v.
    pose proof (Hw 2 ltac:(lia)) as El. pose proof (be_put_get (ztake 2 r) (bytes_ok_ztake 2 r Hr)) as Ep.
    by rewrite El in Ep.
  - destruct (_ <? 10) eqn:E3; [done|]. bool_simpl. rewrite slice_ok in H by (rewrite ?zlen_cons; lia).
    cbn [res_bind] in H. change (ztake (10 - 2) (zdrop 2 (b0 :: b1 :: r))) with (ztake 8 r) in H.
    case_hyp H; [done|]. case_hyp H; [done|]. injection H as <- <-.
    pose proof (be_get_range _ (bytes_ok_ztake 8 r Hr)) as Hg. rewrite zlen_ztake in Hg by lia.
    set (v := be_get (ztake 8 r)) in *. rewrite i64_small by lia.
    split; [lia|]. exists (ztake 8 r), (zdrop 8 r). rewrite ztake_zdrop, zlen_ztake by lia. split_and!; [done..|].
    unfold len_enc. replace (v <=? 125) with false by lia. replace (v <=? 0xFFFF) with false by lia.
    f_equal; [lia|]. unfold v. pose proof (Hw 8 ltac:(lia)) as El.
    pose proof (be_put_get (ztake 8 r) (bytes_ok_ztake 8 r Hr)) as Ep. by rewrite El in Ep.
  - injection H as <- <-. split; [lia|]. exists [], r. split_and!; try done. unfold len_enc.
    replace (Z.land b1 0x7F <=? 125) with true by lia. f_equal. lia.
Qed.

Lemma parse_key_inv a r masked k hl :
  bytes_ok r -> parse_key (a ++ r) masked (zlen a) = Ok (k, hl) ->
  bytes_ok k /\ zlen k = 4 /\ (masked = false -> k = zero_key)
  /\ exists r', r = (if masked then k else []) ++ r' /\ hl = zlen a + zlen (if masked then k else []).
Proof.
  intros Hr H. unfold parse_key in H. destruct masked.
  - rewrite zlen_app in H. case_hyp H; [done|]. pose proof (zlen_nonneg a).
    rewrite slice_ok in H by (rewrite ?zlen_app; lia). cbn [res_bind] in H.
    rewrite zdrop_app in H. injection H as <- <-. replace (zlen a + 4 - zlen a) with 4 by lia.
    rewrite zlen_ztake by lia. split_and!; [by apply bytes_ok_ztake|done|done|].
    exists (zdrop 4 r). split; [by rewrite ztake_zdrop|lia].
  - injection H as <- <-. split_and!; [by repeat constructor|done|done|]. exists r. split; [done|].
    change (zlen (@nil Z)) with 0. lia.
Qed.

(** What is parsed is the image of a well-formed header: there is one encoding
    of every header, the minimal one. *)
Lemma ParseHeader_inv b h n :
  bytes_ok b -> ParseHeader b = Ok (h, n) ->
  header_wf h /\ Length h = 0 /\ n = HeaderLen h /\ exists r, b = ws_enc h ++ r.
Proof.
  intros Hb H. unfold ParseHeader in H. case_hyp H; [done|].
  destruct b as [|b0 [|b1 r]]; [done..|]. rewrite !index_ok in H by lia. cbn [res_bind] in H.
  change (znth (b0 :: b1 :: r) 0) with b0 in H. change (znth (b0 :: b1 :: r) 1) with b1 in H.
  pose proof Hb as [Hb0 [Hb1 Hr]%Forall_cons_iff]%Forall_cons_iff.
  destruct (parse_length _ _) as [[n1 hl]|e|] eqn:Epl; [|done..]. cbn [res_bind] in H.
  apply parse_length_inv in Epl as (Hn & w & r' & -> & -> & Ew); [|done].
  apply Forall_app in Hr as [Hw Hr']. change (b0 :: b1 :: w ++ r') with ((b0 :: b1 :: w) ++ r') in H.
  replace (2 + zlen w) with (zlen (b0 :: b1 :: w)) in H by (rewrite !zlen_cons; lia).
  destruct (parse_key _ _ _) as [[k hl]|e|] eqn:Epk; [|done..]. cbn [res_bind] in H.
  apply parse_key_inv in Epk as (Hk & Hkl & Hkz & r'' & -> & ->); [|done].
  set (h0 := mkHeader _ _ _ _ _ _ _ _ _) in H. destruct (check_control h0) as [[]|e|] eqn:Ec; [|done..].
  injection H as <- <-. pose proof (first_byte_fields b0 (bit b1 0x80) k n1 0 Hb0) as [F1 F2].
  assert (Hwf : header_wf h0) by exact (conj F2 (conj Hn (conj Hk (conj Hkl (conj Hkz Ec))))).
  assert (Eenc : ws_enc h0 = b0 :: b1 :: w ++ (if bit b1 0x80 then k else [])).
  { unfold ws_enc. change (first_byte h0) with
      (first_byte (mkHeader (bit b0 0x80) (bit b0 0x40) (bit b0 0x20) (bit b0 0x10) (Z.land b0 0x0F) (bit b1 0x80) k n1 0)).
    rewrite F1. change (Masked h0) with (bit b1 0x80). change (PayloadLen h0) with n1. by rewrite Ew. }
  split_and!; try done.
  - rewrite <- (ws_enc_zlen h0 Hwf), Eenc, !zlen_cons, zlen_app. lia.
  - exists r''. rewrite Eenc. cbn [app]. by rewrite <- app_assoc.
Qed.

(** ** Deciding on a prefix *)
Lemma slice_prefix {E} (b x : bytes) lo hi : 0 <= lo <= hi -> hi <= zlen b -> slice (E:=E) (b ++ x) lo hi = slice b lo hi.
Proof.
  intros Hlo Hhi. pose proof (zlen_nonneg x). rewrite !slice_ok by (rewrite ?zlen_app; lia). f_equal.
  unfold ztake, zdrop, zlen in *. rewrite drop_app_le by lia. rewrite take_app_le by (rewrite length_drop; lia). done.
Qed.
Lemma index_prefix {E} (b x : bytes) i : 0 <= i < zlen b -> index (E:=E) (b ++ x) i = index b i.
Proof.
  intros Hi. pose proof (zlen_nonneg x). rewrite !index_ok by (rewrite ?zlen_app; lia). f_equal.
  unfold znth, zlen in *. rewrite app_nth1 by lia. done.
Qed.

Lemma parse_length_safe b l7 :
  match parse_length b l7 with
  | Ok (n, hl) => 2 <= hl <= 10 /\ forall x, parse_length (b ++ x) l7 = Ok (n, hl)
  | Err ErrIncomplete => zlen b < 10
  | Err e => forall x, parse_length (b ++ x) l7 = Err e
  | Panic => False
  end.
Proof.
  unfold parse_length. destruct (l7 =? 126); [|destruct (l7 =? 127); [|split; [lia|done]]].
  - destruct (zlen b <? 4) eqn:E; bool_simpl; [lia|].
    assert (S : forall x, slice (E:=ws_error) (b ++ x) 2 4 = Ok (ztake (4 - 2) (zdrop 2 b))).
    { intros x. rewrite slice_prefix by lia. apply slice_ok; lia. }
    assert (L : forall x, (zlen (b ++ x) <? 4) = false).
    { intros x. rewrite zlen_app. pose proof (zlen_nonneg x). lia. }
    pose proof (S []) as S0. rewrite app_nil_r in S0. rewrite S0. cbn [res_bind].
    destruct (_ <? 126) eqn:E2; [|split; [lia|]]; intros x; rewrite L, S; cbn [res_bind]; by rewrite E2.
  - destruct (zlen b <? 10) eqn:E; bool_simpl; [lia|].
    assert (S : forall x, slice (E:=ws_error) (b ++ x) 2 10 = Ok (ztake (10 - 2) (zdrop 2 b))).
    { intros x. rewrite slice_prefix by lia. apply slice_ok; lia. }
    assert (L : forall x, (zlen (b ++ x) <? 10) = false).
    { intros x. rewrite zlen_app. pose proof (zlen_nonneg x). lia. }
    pose proof (S []) as S0. rewrite app_nil_r in S0. rewrite S0. cbn [res_bind].
    destruct (_ >? _) eqn:E2; [|destruct (_ <=? 0xFFFF) eqn:E3; [|split; [lia|]]]; intros x; rewrite L, S; cbn [res_bind];
      by rewrite E2, ?E3.
Qed.

Lemma parse_key_safe b m hl :
  2 <= hl ->
  match parse_key b m hl with
  | Ok (k, hl') => hl' <= hl + 4 /\ forall x, parse_key (b ++ x) m hl = Ok (k, hl')
  | Err ErrIncomplete => zlen b < hl + 4
  | Err _ => False
  | Panic => False
  end.
Proof.
  intros Hl. unfold parse_key. destruct m; [|split; [lia|done]].
  destruct (zlen b <? hl + 4) eqn:E; bool_simpl; [lia|].
  rewrite slice_ok by lia. cbn [res_bind]. split; [lia|]. intros x. pose proof (zlen_nonneg x).
  replace (zlen (b ++ x) <? hl + 4) with false by (rewrite zlen_app; lia).
  by rewrite slice_prefix, slice_ok by lia.
Qed.

Lemma check_control_safe h : check_control h <> Panic /\ check_control h <> Err ErrIncomplete.
Proof. unfold check_control. by repeat case_match. Qed.

(** The outcome on a prefix is the outcome on the whole, unless more bytes are
    asked for; at most 14 bytes ever are. *)
Lemma ParseHeader_prefix b :
  match ParseHeader b with
  | Ok r => forall x, ParseHeader (b ++ x) = Ok r
  | Err ErrIncomplete => zlen b < 14
  | Err e => forall x, ParseHeader (b ++ x) = Err e
  | Panic => False
  end.
Proof.
  unfold ParseHeader. destruct (zlen b <? 2) eqn:E2; bool_simpl; [lia|].
  assert (L : forall x, (zlen (b ++ x) <? 2) = false).
  { intros x. rewrite zlen_app. pose proof (zlen_nonneg x). lia. }
  assert (I : forall i x, 0 <= i < 2 -> index (E:=ws_error) (b ++ x) i = Ok (znth b i)).
  { intros i x Hi. rewrite index_prefix by lia. apply index_ok; lia. }
  rewrite !index_ok by lia. cbn [res_bind].
  pose proof (parse_length_safe b (Z.land (znth b 1) 0x7F)) as Hpl.
  destruct (parse_length b _) as [[n hl]|[]|] eqn:Epl; cbn [res_bind];
    try (intros x; rewrite L, !I by lia; cbn [res_bind]; by rewrite Hpl); try lia; try done.
  destruct Hpl as [Hhl Hpl]. pose proof (parse_key_safe b (bit (znth b 1) 0x80) hl ltac:(lia)) as Hpk.
  destruct (parse_key b _ hl) as [[k hl']|[]|] eqn:Epk; cbn [res_bind]; try done; try lia.
  destruct Hpk as [Hhl' Hpk]. set (h := mkHeader _ _ _ _ _ _ _ _ _).
  assert (Hx : forall x, (if zlen (b ++ x) <? 2 then Err ErrIncomplete else
     let* b0 := index (b ++ x) 0 in let* b1 := index (b ++ x) 1 in
     let* (plen, hlen) := parse_length (b ++ x) (Z.land b1 0x7F) in
     let* (key, hlen) := parse_key (b ++ x) (bit b1 0x80) hlen in
     let* _ := check_control (mkHeader (bit b0 0x80) (bit b0 0x40) (bit b0 0x20) (bit b0 0x10) (Z.land b0 0x0F) (bit b1 0x80) key plen 0) in
     Ok (mkHeader (bit b0 0x80) (bit b0 0x40) (bit b0 0x20) (bit b0 0x10) (Z.land b0 0x0F) (bit b1 0x80) key plen 0, hlen))
     = let* _ := check_control h in Ok (h, hl')).
  { intros x. rewrite L, !I by lia. cbn [res_bind]. rewrite Hpl. cbn [res_bind]. by rewrite Hpk. }
  pose proof (check_control_safe h) as [C1 C2]. destruct (check_control h) as [[]|[]|] eqn:Ec; cbn [res_bind] in *; done.
Qed.

Lemma ParseHeader_incomplete b x h n :
  bytes_ok (b ++ x) -> ParseHeader b = Err ErrIncomplete -> ParseHeader (b ++ x) = Ok (h, n) -> zlen b < n.
Proof.
  intros Hb Hi Ho. apply ParseHeader_inv in Ho as (Hwf & _ & -> & r & E); [|done].
  destruct (Z.lt_ge_cases (zlen b) (HeaderLen h)) as [|Hge]; [done|exfalso].
  rewrite <- (ws_enc_zlen h Hwf) in Hge.
  assert (E' : b = ws_enc h ++ zdrop (zlen (ws_enc h)) b).
  { rewrite <- (ztake_zdrop (zlen (ws_enc h)) b) at 1. f_equal.
    apply (f_equal (ztake (zlen (ws_enc h)))) in E. rewrite ztake_app in E.
    transitivity (ztake (zlen (ws_enc h)) (b ++ x)); [|exact E]. unfold ztake, zlen in *.
    by rewrite take_app_le by lia. }
  rewrite E' in Hi. by rewrite (ParseHeader_enc h _ Hwf) in Hi.
Qed.

(** ** Reading a header from a stream *)
Lemma ReadFull_app w tail e : ReadFull (mkReader (w ++ tail) e) (zlen w) = (mkReader tail e, Ok w).
Proof.
  unfold ReadFull. cbn [rd_data rd_end]. pose proof (zlen_nonneg w). pose proof (zlen_nonneg tail).
  destruct (zlen w <=? 0) eqn:E; bool_simpl.
  - by rewrite (zlen_zero w) by lia.
  - replace (zlen w <=? zlen (w ++ tail)) with true by (rewrite zlen_app; lia).
    by rewrite zdrop_app, ztake_app.
Qed.

(** The bytes announced by the second byte of a header. *)
Lemma len_enc_extra masked n :
  0 <= n ->
  exists b1 w, len_enc masked n = b1 :: w /\ bit b1 0x80 = masked
    /\ (if Z.land b1 0x7F =? 126 then 2 else if Z.land b1 0x7F =? 127 then 8 else 0) = zlen w.
Proof.
  intros Hn. unfold len_enc. destruct (n <=? 125) eqn:E1; bool_simpl; [|destruct (n <=? 0xFFFF) eqn:E2; bool_simpl].
  - exists (flag masked 0x80 + n), []. pose proof (second_byte_fields masked n ltac:(lia)) as (_ & S1 & ->).
    split_and!; [done..|]. replace (n =? 126) with false by lia. by replace (n =? 127) with false by lia.
  - exists (flag masked 0x80 + 126), (be_put 2 n). pose proof (second_byte_fields masked 126 ltac:(lia)) as (_ & S1 & ->).
    split_and!; [done..|]. by rewrite be_put_zlen.
  - exists (flag masked 0x80 + 127), (be_put 8 n). pose proof (second_byte_fields masked 127 ltac:(lia)) as (_ & S1 & ->).
    split_and!; [done..|]. by rewrite be_put_zlen.
Qed.

Lemma ReadHeader_enc h tail e :
  header_wf h ->
  ReadHeader (mkReader (ws_enc h ++ tail) e) = (mkReader tail e, Ok { h with Length := PayloadLen h }).
Proof.
  intros Hwf. pose proof (ParseHeader_enc h [] Hwf) as Hp. rewrite app_nil_r in Hp.
  destruct Hwf as (_ & Hn & _ & Hkl & _). unfold ws_enc in *.
  destruct (len_enc_extra (Masked h) (PayloadLen h) ltac:(lia)) as (b1 & w & Ew & Eb & Ex). rewrite Ew in *.
  unfold ReadHeader. cbn [app] in *.
  pose proof (ReadFull_app [first_byte h; b1] ((w ++ (if Masked h then MaskKey h else [])) ++ tail) e) as R.
  cbn [app] in R. change (zlen [first_byte h; b1]) with 2 in R. rewrite R.
  change (znth [first_byte h; b1] 1) with b1. rewrite Eb, Ex.
  replace (if Masked h then zlen w + 4 else zlen w) with (zlen (w ++ (if Masked h then MaskKey h else [])))
    by (rewrite zlen_app; destruct (Masked h); [by rewrite Hkl|change (zlen (@nil Z)) with 0; lia]).
  rewrite ReadFull_app. cbn [app]. rewrite Hp. done.
Qed.

(** ** Theorems *)

(** Every writer produces the one wire image of a header and every reader
    gets the header back.  [WriteHeader] fills the first [HeaderLen] bytes of its
    buffer with it, [AppendHeader] appends it; [ParseHeader] recovers header and
    length whatever follows, and [ReadHeader] consumes exactly these bytes of the
    stream. *)
Theorem ws_header_roundtrip (h : Header) (dst tail : bytes) (e : ws_error) :
  header_wf h -> HeaderLen h <= zlen dst -> Length h = 0 ->
  exists image, zlen image = HeaderLen h
  /\ WriteHeader dst h = Ok (image ++ zdrop (HeaderLen h) dst, HeaderLen h)
  /\ AppendHeader dst h = dst ++ image
  /\ ParseHeader (image ++ tail) = Ok (h, HeaderLen h)
  /\ ReadHeader (mkReader (image ++ tail) e) = (mkReader tail e, Ok { h with Length := PayloadLen h }).
Proof.
  intros Hwf Hd Hl. exists (ws_enc h). split_and!.
  - by apply ws_enc_zlen.
  - by apply WriteHeader_enc.
  - apply AppendHeader_enc; [done|lia].
  - rewrite ParseHeader_enc by done. destruct h. cbn in Hl. by subst.
  - by apply ReadHeader_enc.
Qed.

Definition sample_header : Header := mkHeader true false false false OpcodeBinary true [1; 2; 3; 4] 70000 0.
Lemma sample_header_wf : header_wf sample_header.
Proof. unfold header_wf. cbn. split_and!; try lia; try done. by_decide. Qed.

Lemma ws_header_roundtrip_witness :
  ParseHeader ([0x82; 0xFF; 0; 0; 0; 0; 0; 1; 0x11; 0x70; 1; 2; 3; 4] ++ [9; 9]) = Ok (sample_header, 14).
Proof.
  destruct (ws_header_roundtrip sample_header (replicate 14 0) [9; 9] IoEOF sample_header_wf) as (i & _ & _ & Ha & Hp & _);
    [vm_compute; discriminate|reflexivity|].
  assert (E : i = [0x82; 0xFF; 0; 0; 0; 0; 0; 1; 0x11; 0x70; 1; 2; 3; 4]).
  { apply (app_inv_head (replicate 14 0)). rewrite <- Ha. vm_compute. reflexivity. }
  rewrite E in Hp. exact Hp.
Defined.

(** The parser accepts exactly the well-formed headers in their minimal
    encoding, never panics, and its verdict on a prefix of the input is its
    verdict on the whole: it asks for more bytes only while fewer than 14 are
    there. *)
Theorem ws_header_parse_exact (b x : bytes) :
  bytes_ok b ->
  match ParseHeader b with
  | Ok (h, n) => header_wf h /\ n = HeaderLen h /\ AppendHeader [] h = ztake n b /\ n <= zlen b
                 /\ ParseHeader (b ++ x) = Ok (h, n)
  | Err ErrIncomplete => zlen b < 14
  | Err e => ParseHeader (b ++ x) = Err e
  | Panic => False
  end.
Proof.
  intros Hb. pose proof (ParseHeader_prefix b) as Hp.
  destruct (ParseHeader b) as [[h n]|e|] eqn:E; [|by destruct e|done].
  apply ParseHeader_inv in E as (Hwf & Hl & -> & r & ->); [|done]. pose proof (zlen_nonneg r).
  split_and!; try done.
  - rewrite AppendHeader_enc by (done || lia). by rewrite <- (ws_enc_zlen h Hwf), ztake_app.
  - rewrite zlen_app, ws_enc_zlen by done. lia.
Qed.

Lemma ws_header_parse_exact_witness :
  ParseHeader [0x82; 126; 0; 125] = Err ErrInvalidLength
  /\ ParseHeader ([0x82; 126; 0; 125] ++ [1; 2]) = Err ErrInvalidLength.
Proof.
  split; [reflexivity|].
  exact (ws_header_parse_exact [0x82; 126; 0; 125] [1; 2] ltac:(by_decide)).
Defined.

Lemma WriteFrame_enc ptr dst h (payload : bytes) :
  let h' := { h with PayloadLen := zlen payload } in
  header_wf h' -> bytes_ok payload -> HeaderLen h' + zlen payload <= zlen dst ->
  WriteFrame LittleEndian ptr dst h payload
  = Ok (ws_enc h' ++ (if Masked h then MaskScalar payload (MaskKey h) 0 else payload)
        ++ zdrop (HeaderLen h' + zlen payload) dst, HeaderLen h' + zlen payload).
Proof.
  intros h' Hwf Hp Hd. pose proof (ws_enc_zlen h' Hwf) as HL. pose proof Hwf as (_ & _ & Hk & Hkl & _).
  pose proof (zlen_nonneg payload). pose proof (zlen_nonneg (ws_enc h')).
  unfold WriteFrame. fold h'. replace (zlen dst <? HeaderLen h' + zlen payload) with false by lia.
  rewrite WriteHeader_enc by (done || rewrite zlen_ztake; lia). cbn [res_bind].
  rewrite (zdrop_all (ztake _ _)) by (rewrite zlen_ztake; lia). rewrite app_nil_r.
  set (body := if Masked h' then Mask LittleEndian ptr payload (MaskKey h') else payload).
  assert (Eb : body = if Masked h then MaskScalar payload (MaskKey h) 0 else payload).
  { unfold body, Mask. change (Masked h') with (Masked h). change (MaskKey h') with (MaskKey h) in *.
    destruct (Masked h); [|done]. by apply MaskWithOffset_scalar. }
  assert (Hbl : zlen body = zlen payload) by (rewrite Eb; destruct (Masked h); [apply MaskScalar_zlen|done]).
  rewrite <- Eb. destruct (0 <? zlen payload) eqn:E0; bool_simpl.
  - rewrite put_at_app by done. rewrite Hbl, zdrop_zdrop by lia. done.
  - rewrite (zlen_zero body) by lia. replace (zlen payload) with 0 by lia. rewrite Z.add_0_r. done.
Qed.

(** A frame written into a buffer is read back.  With a well-formed header
    the buffer holds the header's image and the payload, masked if the header says
    so; parsing the header and unmasking the bytes after it gives the payload,
    and the rest of the buffer is untouched.  [AppendFrame] appends the same
    bytes. *)
Theorem ws_frame_roundtrip (p1 p2 : Z) (dst stale : bytes) (h : Header) (payload : bytes) :
  let h' := { h with PayloadLen := zlen payload } in
  header_wf h' -> bytes_ok payload -> HeaderLen h' + zlen payload <= zlen dst ->
  HeaderLen h' <= zlen stale -> Length h = 0 ->
  exists out n body,
    WriteFrame LittleEndian p1 dst h payload = Ok (out, n)
    /\ n = HeaderLen h' + zlen payload /\ zdrop n out = zdrop n dst
    /\ AppendFrame LittleEndian p1 stale dst h payload = dst ++ ztake n out
    /\ ParseHeader out = Ok (h', HeaderLen h')
    /\ body = ztake (zlen payload) (zdrop (HeaderLen h') out)
    /\ (if Masked h then Mask LittleEndian p2 body (MaskKey h) else body) = payload.
Proof.
  intros h' Hwf Hp Hd Hs Hl. pose proof (ws_enc_zlen h' Hwf) as HL.
  pose proof (WriteFrame_enc p1 dst h payload Hwf Hp Hd) as E. cbv zeta in E. fold h' in E.
  pose proof Hwf as (_ & _ & Hk & Hkl & _). change (MaskKey h') with (MaskKey h) in *.
  set (body := if Masked h then MaskScalar payload (MaskKey h) 0 else payload) in *.
  assert (Hbl : zlen body = zlen payload) by (unfold body; destruct (Masked h); [apply MaskScalar_zlen|done]).
  pose proof (zlen_nonneg payload). pose proof (zlen_nonneg (ws_enc h')).
  eexists _, _, body. split; [exact E|]. split_and!.
  - done.
  - rewrite app_assoc, zdrop_app_eq by (rewrite zlen_app; lia). done.
  - rewrite (app_assoc (ws_enc h')), ztake_app_eq by (rewrite zlen_app; lia).
    unfold AppendFrame. fold h'. rewrite WriteHeader_enc.
    2: done.
    2: { rewrite zlen_ztake; [lia|]. unfold ztake, zlen in *. rewrite length_take. lia. }
    rewrite (zdrop_all (ztake _ _)), app_nil_r by (unfold ztake, zlen in *; rewrite !length_take; lia).
    do 2 f_equal. unfold body, Mask. change (Masked h') with (Masked h). destruct (Masked h); [|done].
    by apply MaskWithOffset_scalar.
  - rewrite ParseHeader_enc by done. unfold h'. destruct h. cbn in Hl. by subst.
  - rewrite (zdrop_app_eq _ (ws_enc h')) by done. by rewrite ztake_app_eq by done.
  - unfold body, Mask. destruct (Masked h); [|done].
    rewrite MaskWithOffset_scalar by (done || by apply MaskScalar_ok). apply MaskScalar_involutive.
Qed.

Definition sample_frame_header : Header := mkHeader true false false false OpcodeText true [1; 2; 3; 4] 0 0.

Lemma ws_frame_roundtrip_witness :
  exists out, WriteFrame LittleEndian 0 (replicate 32 7) sample_frame_header [72; 105] = Ok (out, 8)
  /\ ParseHeader out = Ok ({ sample_frame_header with PayloadLen := 2 }, 6).
Proof.
  destruct (ws_frame_roundtrip 0 0 (replicate 32 7) (replicate 16 0) sample_frame_header [72; 105])
    as (out & n & body & Hw & -> & _ & _ & Hp & _).
  - unfold header_wf. cbn. split_and!; try lia; try done. by_decide.
  - by_decide.
  - vm_compute. discriminate.
  - vm_compute. discriminate.
  - reflexivity.
  - exists out. split; [exact Hw|exact Hp].
Defined.

(** A close payload that is written is read back, and fits a control frame:
    for a code allowed on the wire and a valid UTF-8 reason of at most 123 bytes.
    [StatusNoStatusReceived] is the empty payload. *)
Theorem close_payload_roundtrip (code : Z) (reason : bytes) :
  (code = StatusNoStatusReceived /\ reason = [])
  \/ (IsValidForWire code = true /\ zlen reason <= 123 /\ utf8_Valid reason = true) ->
  exists p, AppendClosePayload code reason = Ok p /\ zlen p <= 125 /\ ParseClosePayload p = Ok (code, reason).
Proof.
  intros [[-> ->]|(Hc & Hl & Hu)]; [by exists []|].
  assert (Hr : 1000 <= code <= 4999) by (revert Hc; unfold IsValidForWire; destruct (_ || _) eqn:E; [done|bool_simpl; lia]).
  assert (Hn : code <> StatusNoStatusReceived) by (intros ->; done).
  exists (be_put 2 code ++ reason). pose proof (zlen_nonneg reason).
  unfold AppendClosePayload. replace (code =? StatusNoStatusReceived) with false by lia. rewrite Hc, Hu. cbn [negb].
  replace (zlen reason >? 123) with false by lia. unfold FormatClosePayload.
  assert (El : zlen (replicate (Z.to_nat (2 + zlen reason)) 0) = 2 + zlen reason).
  { unfold zlen at 1. rewrite length_replicate. lia. }
  rewrite El, Z.ltb_irrefl. cbn [res_bind]. unfold u16. rewrite Z.mod_small by lia. split_and!.
  - f_equal. change (put_at ?d 0 ?w) with (put_at ([] ++ d) 0 w). rewrite (put_at_app []) by done. cbn [app].
    rewrite put_at_app by done. rewrite zdrop_all, app_nil_r; [done|].
    rewrite be_put_zlen, zlen_zdrop by lia. lia.
  - clear El. rewrite zlen_app, be_put_zlen. lia.
  - clear El. unfold ParseClosePayload. rewrite zlen_app, be_put_zlen. test_false (Z.of_nat 2 + zlen reason =? 0).
    test_false (Z.of_nat 2 + zlen reason =? 1).
    pose proof (slice_app (E:=ws_error) [] (be_put 2 code) reason 0 2 eq_refl eq_refl) as S. cbn [app] in S.
    rewrite S. cbn [res_bind]. rewrite be_get_put, Z.mod_small by lia. rewrite Hc. cbn [negb].
    rewrite (zdrop_app_eq 2 (be_put 2 code)) by done. rewrite Hu. cbn [negb].
    destruct (_ >? 2) eqn:E; [done|]. bool_simpl. by rewrite (zlen_zero reason) by lia.
Qed.

Lemma close_payload_roundtrip_witness :
  exists p, AppendClosePayload 1001 [98; 121; 101; 0xE2; 0x82; 0xAC] = Ok p
  /\ ParseClosePayload p = Ok (1001, [98; 121; 101; 0xE2; 0x82; 0xAC]).
Proof.
  destruct (close_payload_roundtrip 1001 [98; 121; 101; 0xE2; 0x82; 0xAC]) as (p & H1 & _ & H2).
  - right. split_and!; [reflexivity|vm_compute; discriminate|reflexivity].
  - by exists p.
Defined.

(** [AppendFrame] discards the error of [WriteHeader].  For a control frame
    with a payload over 125 bytes, or one that is not final, no header is written:
    the frame starts with whatever the grown buffer held before. *)
Theorem append_frame_stale_header (ptr : Z) (stale dst : bytes) (h : Header) (payload : bytes) :
  IsControl (Opcode h) = true -> Fin h = false \/ 125 < zlen payload ->
  let hlen := HeaderLen { h with PayloadLen := zlen payload } in
  AppendFrame LittleEndian ptr stale dst h payload
  = dst ++ ztake hlen (ztake (hlen + zlen payload) stale)
        ++ (if Masked h then Mask LittleEndian ptr payload (MaskKey h) else payload).
Proof.
  intros Hc Hbad hlen. pose proof (zlen_nonneg payload).
  assert (E : WriteHeader (ztake hlen (ztake (hlen + zlen payload) stale)) { h with PayloadLen := zlen payload }
    = Err (if Fin h then ErrControlFrameTooLarge else ErrControlFrameFragmented)).
  { destruct h as [f r1 r2 r3 op m k n l]. unfold WriteHeader, check_control. cbn -[zlen IsControl] in *.
    test_false (zlen payload <? 0). rewrite Hc. destruct f; [|done]. destruct Hbad as [?|Hbad]; [done|].
    cbn [negb]. by replace (zlen payload >? 125) with true by lia. }
  unfold AppendFrame. fold hlen. by rewrite E.
Qed.

Lemma append_frame_stale_header_witness :
  AppendFrame LittleEndian 0 [0xAA; 0xBB; 0xCC; 0xDD] [] (mkHeader false false false false OpcodePing false zero_key 0 0) [1]
  = [0xAA; 0xBB; 1].
Proof.
  exact (append_frame_stale_header 0 [0xAA; 0xBB; 0xCC; 0xDD] []
    (mkHeader false false false false OpcodePing false zero_key 0 0) [1] eq_refl (or_introl eq_refl)).
Defined.
