(* ===== verification/WsParser.v ===== *)
(** * The streaming WebSocket frame parser

    Models [src/proto/ws/parser.go].  [Decode] takes whatever bytes the network
    delivered and appends chunks: pieces of frames, the first of each frame
    pointing to its header.  Headers live in a ring of 64 slots inside the parser;
    a chunk holds a pointer into the ring, so the model keeps the ring and reads
    headers through it.

    The specification is a machine that consumes one byte at a time and emits
    tokens.  The theorems: [Decode] refines it, whatever the sizes of the slices
    it is given, as long as one call completes at most 64 headers; the parser
    never panics, terminates, and its errors are sticky; and with 65 frames in one
    slice the first chunk's header is overwritten by the last. *)

From S2P Require Import Prelude WsMask WsHeader.
Open Scope Z_scope.

Definition maxHeaderSize : Z := 14.

(** [fc_header] is a slot of the ring. *)
#[projections(primitive)]
Record FrameChunk := mkChunk { fc_header : option nat; fc_payload : bytes; fc_final : bool }.

#[projections(primitive)]
Record Parser := mkParser {
  headerBuf : bytes;
  headerBufLen : Z;
  currentHeader : Header;
  hasHeader : bool;
  remainingLen : Z;
  perr : option ws_error;
  hdrRing : list Header;
  hdrRingIdx : Z
}.

(** The zero value of the struct. *)
Definition new_parser : Parser :=
  mkParser (replicate 14 0) 0 zero_header false 0 None (replicate 64 zero_header) 0.

Definition Parser_Reset (p : Parser) : Parser :=
  { p with headerBufLen := 0; currentHeader := zero_header; hasHeader := false; remainingLen := 0;
           perr := None; hdrRingIdx := 0 }.

(** The error a call returns; [Panic] for an index out of range. *)
Abbreviation outcome := (res ws_error unit).

Definition start_frame (p : Parser) (h : Header) : Parser :=
  { p with currentHeader := h; hasHeader := true; remainingLen := PayloadLen h }.

(** The second half of the loop body: take payload bytes and append a chunk. *)
Definition take_payload (p : Parser) (data : bytes) (firstChunk : bool) : Parser * bytes * FrameChunk :=
  let take := if zlen data >? remainingLen p then remainingLen p else zlen data in
  let '(payloadSlice, data) := if take >? 0 then (ztake take data, zdrop take data) else ([], data) in
  let p := { p with remainingLen := remainingLen p - take } in
  let finalChunk := remainingLen p =? 0 in
  let p := if finalChunk then { p with hasHeader := false } else p in
  let '(p, hdrPtr) :=
    if firstChunk then
      let slot := Z.to_nat (Z.land (hdrRingIdx p) 63) in
      ({ p with hdrRing := <[slot := currentHeader p]> (hdrRing p); hdrRingIdx := i64 (hdrRingIdx p + 1) }, Some slot)
    else (p, None) in
  (p, data, mkChunk hdrPtr payloadSlice finalChunk).

Fixpoint decode_loop (fuel : nat) (p : Parser) (data : bytes) (firstChunk : bool) :
    Parser * list FrameChunk * outcome :=
  match fuel with
  | O => (p, [], Ok tt)
  | S fuel' =>
      if (zlen data >? 0) || firstChunk then
        let go p data firstChunk :=
          let '(p, data, ch) := take_payload p data firstChunk in
          let '(p, chs, r) := decode_loop fuel' p data false in (p, ch :: chs, r) in
        if hasHeader p then go p data firstChunk
        else
          match ParseHeader data with
          | Err ErrIncomplete =>
              (* copy(p.headerBuf[:len(data)], data) *)
              if zlen data <=? maxHeaderSize
              then ({ p with headerBuf := put_at (headerBuf p) 0 data; headerBufLen := zlen data }, [], Ok tt)
              else (p, [], Panic)
          | Err e => ({ p with perr := Some e }, [], Err e)
          | Ok (h, hlen) =>
              match slice (E:=ws_error) data hlen (zlen data) with
              | Ok data => go (start_frame p h) data true
              | _ => (p, [], Panic)
              end
          | Panic => (p, [], Panic)
          end
      else (p, [], Ok tt)
  end.

(** Each iteration but the first consumes a byte. *)
Definition loop_fuel (data : bytes) : nat := S (S (length data)).

Definition Decode (p : Parser) (data : bytes) : Parser * list FrameChunk * outcome :=
  match perr p with
  | Some e => (p, [], Err e)
  | None =>
      if (zlen data =? 0) && negb (hasHeader p) && (headerBufLen p =? 0) then (p, [], Ok tt)
      else if headerBufLen p >? 0 then
        let origSize := headerBufLen p in
        let needed := maxHeaderSize - origSize in
        let needed := if needed >? zlen data then zlen data else needed in
        let buf := put_at (headerBuf p) origSize (ztake needed data) in
        let p := { p with headerBuf := buf } in
        let totalBuffered := origSize + needed in
        match ParseHeader (ztake totalBuffered buf) with
        | Err ErrIncomplete => ({ p with headerBufLen := totalBuffered }, [], Ok tt)
        | Err e => ({ p with perr := Some e }, [], Err e)
        | Ok (h, hlen) =>
            let p := { start_frame p h with headerBufLen := 0 } in
            match slice (E:=ws_error) data (hlen - origSize) (zlen data) with
            | Ok data => decode_loop (loop_fuel data) p data true
            | _ => (p, [], Panic)
            end
        | Panic => (p, [], Panic)
        end
      else decode_loop (loop_fuel data) p data false
  end.

(** ** Specification: one byte at a time *)
Inductive token := THeader (h : Header) | TByte (b : Z) | TEnd.
Inductive pstate := SHeader (buf : bytes) | SPayload (n : Z) | SError (e : ws_error).

Definition after_header (h : Header) : pstate * list token :=
  if PayloadLen h =? 0 then (SHeader [], [THeader h; TEnd]) else (SPayload (PayloadLen h), [THeader h]).

Definition spec_byte (st : pstate) (b : Z) : pstate * list token :=
  match st with
  | SHeader buf =>
      match ParseHeader (buf ++ [b]) with
      | Ok (h, _) => after_header h
      | Err ErrIncomplete => (SHeader (buf ++ [b]), [])
      | Err e => (SError e, [])
      | Panic => (SError ErrIncomplete, [])
      end
  | SPayload n => if n =? 1 then (SHeader [], [TByte b; TEnd]) else (SPayload (n - 1), [TByte b])
  | SError e => (SError e, [])
  end.

Fixpoint spec_run (st : pstate) (data : bytes) : pstate * list token :=
  match data with
  | [] => (st, [])
  | b :: data' =>
      let '(st1, t1) := spec_byte st b in
      let '(st2, t2) := spec_run st1 data' in (st2, t1 ++ t2)
  end.

(** Chunks as tokens, headers read through the ring. *)
Definition chunk_tokens (ring : list Header) (c : FrameChunk) : list token :=
  match fc_header c with Some s => [THeader (default zero_header (ring !! s))] | None => [] end
  ++ map TByte (fc_payload c) ++ (if fc_final c then [TEnd] else []).
Definition chunks_tokens (ring : list Header) (cs : list FrameChunk) : list token := concat (map (chunk_tokens ring) cs).

(** Headers completed in a list of tokens. *)
Definition is_header (t : token) : bool := match t with THeader _ => true | _ => false end.
Definition headers_in (ts : list token) : Z := zlen (List.filter is_header ts).

(** The specification state a parser is in. *)
Definition abs (p : Parser) : pstate :=
  match perr p with
  | Some e => SError e
  | None => if hasHeader p then SPayload (remainingLen p) else SHeader (ztake (headerBufLen p) (headerBuf p))
  end.

(** A buffered prefix is short and undecided; a frame in progress needs bytes. *)
Definition parser_inv (p : Parser) : Prop :=
  zlen (headerBuf p) = 14 /\ bytes_ok (headerBuf p) /\ length (hdrRing p) = 64%nat
  /\ (perr p = None ->
      if hasHeader p then headerBufLen p = 0 /\ 0 < remainingLen p
      else 0 <= headerBufLen p < 14
           /\ ParseHeader (ztake (headerBufLen p) (headerBuf p)) = Err ErrIncomplete).

(** ** The specification on longer inputs *)
Lemma spec_run_app a b : forall st,
  spec_run st (a ++ b) = let '(st1, t1) := spec_run st a in let '(st2, t2) := spec_run st1 b in (st2, t1 ++ t2).
Proof.
  induction a as [|x a IH]; intros st; cbn [app spec_run].
  - by destruct (spec_run st b).
  - destruct (spec_byte st x) as [st1 t1]. rewrite IH. destruct (spec_run st1 a) as [st2 t2].
    destruct (spec_run st2 b) as [st3 t3]. by rewrite app_assoc.
Qed.
Lemma spec_run_error e data : spec_run (SError e) data = (SError e, []).
Proof. induction data as [|b data IH]; [done|]. cbn. by rewrite IH. Qed.

(** In a header: what [ParseHeader] says of everything seen so far. *)
Lemma spec_run_header data : forall buf,
  bytes_ok (buf ++ data) -> ParseHeader buf = Err ErrIncomplete ->
  spec_run (SHeader buf) data =
  match ParseHeader (buf ++ data) with
  | Ok (h, n) =>
      let '(st, t) := after_header h in
      let '(st', t') := spec_run st (zdrop (n - zlen buf) data) in (st', t ++ t')
  | Err ErrIncomplete => (SHeader (buf ++ data), [])
  | Err e => (SError e, [])
  | Panic => (SError ErrIncomplete, [])
  end.
Proof.
  induction data as [|b data IH]; intros buf Hok Hi; [by rewrite app_nil_r, Hi|].
  cbn [spec_run spec_byte]. replace (buf ++ b :: data) with ((buf ++ [b]) ++ data) in * by by rewrite <- app_assoc.
  pose proof (ParseHeader_prefix (buf ++ [b])) as Hp.
  destruct (ParseHeader (buf ++ [b])) as [[h n]|e|] eqn:E; [| |done].
  - rewrite Hp. apply bytes_ok_app in Hok as [Hok _].
    pose proof (ParseHeader_incomplete buf [b] h n Hok Hi E) as Hlt.
    apply ParseHeader_inv in E as (Hwf & _ & -> & r & Er); [|done].
    apply (f_equal zlen) in Er. rewrite !zlen_app, ws_enc_zlen in Er by done. change (zlen [b]) with 1 in Er.
    pose proof (zlen_nonneg r). replace (HeaderLen h - zlen buf) with 1 by lia.
    change (zdrop 1 (b :: data)) with data. done.
  - destruct (decide (e = ErrIncomplete)) as [->|Hne].
    + rewrite IH by done. destruct (ParseHeader ((buf ++ [b]) ++ data)) as [[h n]|e|] eqn:E2; [|by destruct e|done].
      pose proof (ParseHeader_incomplete (buf ++ [b]) data h n Hok E E2) as Hlt. rewrite zlen_app in *.
      change (zlen [b]) with 1 in *. pose proof (zlen_nonneg buf).
      change (b :: data) with ([b] ++ data). replace (n - zlen buf) with (1 + (n - (zlen buf + 1))) by lia.
      rewrite <- zdrop_zdrop by lia. change (zdrop 1 ([b] ++ data)) with data.
      destruct (after_header h) as [st t]. by destruct (spec_run st _).
    + assert (E' : ParseHeader ((buf ++ [b]) ++ data) = Err e) by by destruct e.
      rewrite E'. by destruct e; rewrite ?spec_run_error.
Qed.

(** In a payload: up to [n] bytes of it. *)
Lemma spec_run_payload data : forall n,
  0 < n ->
  spec_run (SPayload n) data =
  if zlen data <? n then (SPayload (n - zlen data), map TByte data)
  else let '(st, t) := spec_run (SHeader []) (zdrop n data) in (st, map TByte (ztake n data) ++ TEnd :: t).
Proof.
  induction data as [|b data IH]; intros n Hn.
  - cbn. change (zlen (@nil Z)) with 0. test_true (0 <? n). by rewrite Z.sub_0_r.
  - cbn [spec_run spec_byte]. rewrite zlen_cons. pose proof (zlen_nonneg data).
    destruct (n =? 1) eqn:E1; bool_simpl.
    + subst n. test_false (1 + zlen data <? 1). change (zdrop 1 (b :: data)) with data.
      destruct (spec_run (SHeader []) data). done.
    + rewrite IH by lia. replace (1 + zlen data <? n) with (zlen data <? n - 1) by lia.
      destruct (zlen data <? n - 1); [cbn [map app]; do 2 f_equal; lia|].
      replace n with (1 + (n - 1)) by lia. change (b :: data) with ([b] ++ data).
      rewrite <- zdrop_zdrop, <- ztake_split by lia. change (zdrop 1 ([b] ++ data)) with data.
      replace (1 + (n - 1) - 1) with (n - 1) by lia.
      change (ztake 1 ([b] ++ data)) with [b]. by destruct (spec_run (SHeader []) (zdrop (n - 1) data)).
Qed.

(** ** Slots of the ring *)

(** A chunk with the header it was made with. *)
Definition gchunk : Type := option Header * bytes * bool.
Definition gtokens (g : gchunk) : list token :=
  let '(h, pl, f) := g in
  match h with Some h => [THeader h] | None => [] end ++ map TByte pl ++ (if f then [TEnd] else []).
Definition slot (idx : Z) : nat := Z.to_nat (Z.land idx 63).

Fixpoint place (idx : Z) (gs : list gchunk) : list FrameChunk :=
  match gs with
  | [] => []
  | (None, pl, f) :: gs' => mkChunk None pl f :: place idx gs'
  | (Some _, pl, f) :: gs' => mkChunk (Some (slot idx)) pl f :: place (i64 (idx + 1)) gs'
  end.
Fixpoint ring_after (ring : list Header) (idx : Z) (gs : list gchunk) : list Header :=
  match gs with
  | [] => ring
  | (None, _, _) :: gs' => ring_after ring idx gs'
  | (Some h, _, _) :: gs' => ring_after (<[slot idx := h]> ring) (i64 (idx + 1)) gs'
  end.
Definition header_count (gs : list gchunk) : Z := headers_in (concat (map gtokens gs)).

Lemma slot_mod idx : slot idx = Z.to_nat (idx mod 64).
Proof. unfold slot. change 63 with (2 ^ 6 - 1). by rewrite land_mask. Qed.
Lemma slot_i64 a b : slot (i64 a + b) = slot (a + b).
Proof.
  rewrite !slot_mod. f_equal. unfold i64, u64. destruct (_ <? _); lia.
Qed.
Lemma slot_range idx : (slot idx < 64)%nat.
Proof. rewrite slot_mod. lia. Qed.
Lemma slot_next idx j : 0 < j < 64 -> slot (idx + j) <> slot idx.
Proof. rewrite !slot_mod. lia. Qed.

Lemma headers_in_app a b : headers_in (a ++ b) = headers_in a + headers_in b.
Proof. unfold headers_in. by rewrite List.filter_app, zlen_app. Qed.
Lemma headers_in_bytes l : headers_in (map TByte l) = 0.
Proof. induction l; [done|]. exact IHl. Qed.
Lemma header_count_cons g gs :
  header_count (g :: gs) = match fst (fst g) with Some _ => 1 | None => 0 end + header_count gs.
Proof.
  destruct g as [[h pl] f]. unfold header_count. cbn [map concat gtokens fst]. rewrite !headers_in_app, headers_in_bytes.
  assert (E : headers_in (if f then [TEnd] else []) = 0) by by destruct f.
  rewrite E. destruct h as [h|]; [change (headers_in [THeader h]) with 1|change (headers_in []) with 0]; lia.
Qed.
Lemma header_count_nonneg gs : 0 <= header_count gs.
Proof. apply zlen_nonneg. Qed.

Lemma ring_after_length gs : forall ring idx, length (ring_after ring idx gs) = length ring.
Proof.
  induction gs as [|[[[h|] pl] f] gs IH]; intros ring idx; cbn [ring_after]; [done| |apply IH].
  by rewrite IH, length_insert.
Qed.
Lemma ring_after_other gs s : forall ring idx,
  (forall j, 0 <= j < header_count gs -> slot (idx + j) <> s) -> ring_after ring idx gs !! s = ring !! s.
Proof.
  induction gs as [|[[[h|] pl] f] gs IH]; intros ring idx H; cbn [ring_after]; [done| |].
  - rewrite header_count_cons in H. cbn in H. pose proof (header_count_nonneg gs). rewrite IH.
    + rewrite list_lookup_insert_ne; [done|]. specialize (H 0 ltac:(lia)). by rewrite Z.add_0_r in H.
    + intros j Hj. rewrite slot_i64. specialize (H (1 + j) ltac:(lia)). by rewrite Z.add_assoc in H.
  - apply IH. intros j Hj. apply H. rewrite header_count_cons. cbn. lia.
Qed.

(** At most 64 headers: every chunk still sees its own. *)
Lemma place_tokens gs : forall ring idx,
  length ring = 64%nat -> header_count gs <= 64 ->
  chunks_tokens (ring_after ring idx gs) (place idx gs) = concat (map gtokens gs).
Proof.
  unfold chunks_tokens. induction gs as [|[[[h|] pl] f] gs IH]; intros ring idx Hr Hc; [done| |];
    rewrite header_count_cons in Hc; cbn in Hc; cbn [place ring_after map concat].
  - rewrite IH by (rewrite ?length_insert; lia). f_equal. unfold chunk_tokens. cbn [fc_header fc_payload fc_final gtokens].
    rewrite ring_after_other.
    + rewrite list_lookup_insert_eq by (rewrite Hr; apply slot_range). done.
    + intros j Hj. rewrite slot_i64. rewrite <- Z.add_assoc. apply slot_next. lia.
  - rewrite IH by lia. done.
Qed.

(** ** The loop *)
Ltac destruct_parser p := destruct p as [hb hbl ch hh rl er ring idx].

Lemma take_payload_spec p data first :
  0 <= remainingLen p ->
  let n := remainingLen p in
  take_payload p data first =
  (mkParser (headerBuf p) (headerBufLen p) (currentHeader p) (if n <=? zlen data then false else hasHeader p)
     (if n <=? zlen data then 0 else n - zlen data) (perr p)
     (if first then <[slot (hdrRingIdx p) := currentHeader p]> (hdrRing p) else hdrRing p)
     (if first then i64 (hdrRingIdx p + 1) else hdrRingIdx p),
   zdrop n data,
   mkChunk (if first then Some (slot (hdrRingIdx p)) else None) (ztake n data) (n <=? zlen data)).
Proof.
  destruct_parser p. cbn [remainingLen]. intros Hn. pose proof (zlen_nonneg data) as Hd. unfold take_payload.
  cbn -[zlen Z.land i64]. destruct (zlen data >? rl) eqn:E1; bool_simpl.
  - test_true (rl <=? zlen data). rewrite Z.sub_diag. cbn -[zlen Z.land i64].
    destruct (rl >? 0) eqn:E2; bool_simpl; [by destruct first|].
    replace rl with 0 by lia. by destruct first.
  - rewrite (ztake_all data rl), (zdrop_all data rl) by lia.
    destruct (zlen data >? 0) eqn:E2; bool_simpl.
    + rewrite (ztake_all data (zlen data)), (zdrop_all data (zlen data)) by lia.
      destruct (rl <=? zlen data) eqn:E3; bool_simpl.
      * replace (rl - zlen data) with 0 by lia. cbn -[zlen Z.land i64]. by destruct first.
      * test_false (rl - zlen data =? 0). by destruct first.
    + rewrite (zlen_zero data) by lia. change (zlen (@nil Z)) with 0. rewrite Z.sub_0_r.
      destruct (rl <=? 0) eqn:E3; bool_simpl.
      * replace rl with 0 by lia. by destruct first.
      * test_false (rl =? 0). by destruct first.
Qed.

(** Where the specification is when the loop is entered. *)
Definition start_of (p : Parser) (first : bool) : pstate * list token :=
  if hasHeader p then
    if first then after_header (currentHeader p) else (SPayload (remainingLen p), [])
  else (SHeader [], []).
Definition loop_pre (p : Parser) (first : bool) : Prop :=
  perr p = None /\ headerBufLen p = 0 /\ zlen (headerBuf p) = 14 /\ bytes_ok (headerBuf p)
  /\ length (hdrRing p) = 64%nat
  /\ if hasHeader p then
       0 <= remainingLen p /\ (if first then remainingLen p = PayloadLen (currentHeader p) else 0 < remainingLen p)
     else first = false.

(** What a run of the loop, or a call, does: it reaches the specification's
    state, with chunks for its tokens in consecutive slots. *)
Definition decoded (ring : list Header) (idx : Z) (res : Parser * list FrameChunk * outcome)
    (st : pstate) (ts : list token) : Prop :=
  let '(p', chs, r) := res in
  parser_inv p' /\ abs p' = st /\ r = match st with SError e => Err e | _ => Ok tt end
  /\ exists gs, concat (map gtokens gs) = ts /\ chs = place idx gs /\ hdrRing p' = ring_after ring idx gs.

Lemma decoded_chunk ring idx p' chs r st ts (first : bool) h pl f :
  decoded (if first then <[slot idx := h]> ring else ring) (if first then i64 (idx + 1) else idx) (p', chs, r) st ts ->
  decoded ring idx (p', mkChunk (if first then Some (slot idx) else None) pl f :: chs, r) st
    (gtokens ((if first then Some h else None), pl, f) ++ ts).
Proof.
  intros (H1 & H2 & H3 & gs & <- & -> & H4). split_and!; try done.
  exists (((if first then Some h else None), pl, f) :: gs). by destruct first.
Qed.

Lemma decoded_stop p first data :
  loop_pre p first -> zlen data = 0 -> first = false ->
  let '(st, t0) := start_of p first in let '(st', t1) := spec_run st data in
  decoded (hdrRing p) (hdrRingIdx p) (p, [], Ok tt) st' (t0 ++ t1).
Proof.
  intros (He & Hb & Hl & Hok & Hr & Hh) Hd ->. rewrite (zlen_zero data Hd). unfold start_of, decoded, parser_inv, abs.
  rewrite He. destruct (hasHeader p) eqn:Eh; cbn [spec_run app].
  - destruct Hh as [_ Hh]. split_and!; try done. by exists [].
  - rewrite Hb. split_and!; try done. by exists [].
Qed.

(** A frame begins: its first chunk. *)
Lemma after_header_run h data :
  0 <= PayloadLen h ->
  (let '(st, t0) := after_header h in let '(st', t1) := spec_run st data in (st', t0 ++ t1))
  = let n := PayloadLen h in
    let '(st', t1) := if n <=? zlen data then spec_run (SHeader []) (zdrop n data)
                      else (SPayload (n - zlen data), []) in
    (st', gtokens (Some h, ztake n data, n <=? zlen data) ++ t1).
Proof.
  intros Hn. unfold after_header, gtokens. destruct (PayloadLen h =? 0) eqn:E; bool_simpl; cbn zeta.
  - rewrite E. pose proof (zlen_nonneg data). test_true (0 <=? zlen data).
    change (zdrop 0 data) with data. change (ztake 0 data) with (@nil Z). by destruct (spec_run (SHeader []) data).
  - rewrite spec_run_payload by lia. destruct (zlen data <? PayloadLen h) eqn:E2; bool_simpl.
    + test_false (PayloadLen h <=? zlen data). rewrite ztake_all by lia. cbn [app]. by rewrite !app_nil_r.
    + test_true (PayloadLen h <=? zlen data). destruct (spec_run (SHeader []) _) as [st t].
      cbn [app]. by rewrite <- app_assoc.
Qed.

(** The loop is right with [fuel]; each iteration consumes a byte or the flag. *)
Definition loop_ok (fuel : nat) : Prop := forall p data (first : bool),
  loop_pre p first -> bytes_ok data -> Z.of_nat fuel >= zlen data + (if first then 1 else 0) ->
  let '(st, t0) := start_of p first in let '(st', t1) := spec_run st data in
  decoded (hdrRing p) (hdrRingIdx p) (decode_loop fuel p data first) st' (t0 ++ t1).

(** One chunk of a frame, then the rest of the loop. *)
Lemma chunk_step fuel : loop_ok fuel -> forall p data (first : bool),
  loop_pre p first -> bytes_ok data -> hasHeader p = true ->
  (first = false -> 0 < zlen data) -> Z.of_nat fuel >= zlen data + (if first then 0 else -1) ->
  let '(st, t0) := start_of p first in let '(st', t1) := spec_run st data in
  decoded (hdrRing p) (hdrRingIdx p)
    (let '(p, data, ch) := take_payload p data first in
     let '(p, chs, r) := decode_loop fuel p data false in (p, ch :: chs, r)) st' (t0 ++ t1).
Proof.
  intros IH p data first (He & Hb & Hl & Hbok & Hr & Hh) Hok Eh Hpos Hf.
  rewrite Eh in Hh. destruct Hh as [Hrem Hfirst]. pose proof (zlen_nonneg data) as Hd.
  rewrite take_payload_spec by done. set (n := remainingLen p) in *. rewrite Eh.
  set (p1 := mkParser _ _ _ _ _ _ _ _).
  assert (Hpre1 : loop_pre p1 false).
  { unfold p1, loop_pre. cbn. split_and!; try done.
    - destruct first; [by rewrite length_insert|done].
    - destruct (n <=? zlen data) eqn:E; [done|]. bool_simpl. split; lia. }
  assert (Hlen : zlen (zdrop n data) <= zlen data /\ (0 < n -> 0 < zlen data -> zlen (zdrop n data) < zlen data)).
  { unfold zlen, zdrop in *. rewrite length_drop. lia. }
  specialize (IH p1 (zdrop n data) false Hpre1 (bytes_ok_zdrop _ _ Hok)).
  assert (Hfuel : Z.of_nat fuel >= zlen (zdrop n data) + 0) by (destruct first; lia).
  specialize (IH Hfuel). unfold start_of in IH. change (hasHeader p1) with (if n <=? zlen data then false else true) in IH.
  change (remainingLen p1) with (if n <=? zlen data then 0 else n - zlen data) in IH.
  change (hdrRing p1) with (if first then <[slot (hdrRingIdx p) := currentHeader p]> (hdrRing p) else hdrRing p) in IH.
  change (hdrRingIdx p1) with (if first then i64 (hdrRingIdx p + 1) else hdrRingIdx p) in IH.
  destruct (decode_loop fuel p1 (zdrop n data) false) as [[p2 chs] r].
  unfold start_of. rewrite Eh. destruct first.
  - pose proof (after_header_run (currentHeader p) data ltac:(lia)) as E. rewrite <- Hfirst in E. fold n in E. cbn zeta in E.
    destruct (after_header (currentHeader p)) as [st t0]. destruct (spec_run st data) as [st' t1].
    destruct (n <=? zlen data) eqn:En.
    + destruct (spec_run (SHeader []) (zdrop n data)) as [st2 t2]. injection E as -> ->.
      apply (decoded_chunk (hdrRing p) (hdrRingIdx p) p2 chs r st2 t2 true (currentHeader p)). exact IH.
    + bool_simpl. injection E as -> ->. rewrite (zdrop_all data n) in IH by lia. cbn [spec_run app] in IH.
      apply (decoded_chunk (hdrRing p) (hdrRingIdx p) p2 chs r _ [] true (currentHeader p)). exact IH.
  - rewrite spec_run_payload by done. fold n. replace (zlen data <? n) with (negb (n <=? zlen data)) by lia.
    destruct (n <=? zlen data) eqn:En; cbn [negb].
    + destruct (spec_run (SHeader []) (zdrop n data)) as [st2 t2]. cbn [app] in *.
      pose proof (decoded_chunk (hdrRing p) (hdrRingIdx p) p2 chs r st2 t2 false (currentHeader p) (ztake n data) true IH) as H.
      cbn [gtokens app] in H. rewrite <- app_assoc in H. exact H.
    + bool_simpl. rewrite (zdrop_all data n) in IH by lia. cbn [spec_run app] in *.
      pose proof (decoded_chunk (hdrRing p) (hdrRingIdx p) p2 chs r (SPayload (n - zlen data)) [] false (currentHeader p) (ztake n data) false IH) as H.
      cbn [gtokens app] in H. rewrite (ztake_all data n), !app_nil_r in H by lia. by rewrite (ztake_all data n) by lia.
Qed.

Lemma put_at_middle d i w :
  0 <= i -> i + zlen w <= zlen d ->
  ztake (i + zlen w) (put_at d i w) = ztake i d ++ w /\ zlen (put_at d i w) = zlen d
  /\ (bytes_ok d -> bytes_ok w -> bytes_ok (put_at d i w)).
Proof.
  intros Hi Hl. pose proof (zlen_nonneg w). unfold put_at.
  assert (E : zlen (ztake i d) = i) by (apply zlen_ztake; lia). split_and!.
  - rewrite app_assoc. apply ztake_app_eq. by rewrite zlen_app, E.
  - rewrite !zlen_app, E, zlen_zdrop by lia. lia.
  - intros Hd Hw. rewrite !bytes_ok_app. split_and!; [by apply bytes_ok_ztake|done|by apply bytes_ok_zdrop].
Qed.

(** An undecided header is kept for the next call. *)
Lemma keep_prefix p buf m :
  perr p = None -> hasHeader p = false -> length (hdrRing p) = 64%nat -> zlen buf = 14 -> bytes_ok buf ->
  0 <= m < 14 -> ParseHeader (ztake m buf) = Err ErrIncomplete ->
  decoded (hdrRing p) (hdrRingIdx p) ({ p with headerBuf := buf; headerBufLen := m }, [], Ok tt)
    (SHeader (ztake m buf)) [].
Proof.
  intros He Eh Hr Hl Hok Hm Hi. destruct_parser p. cbn in *. subst er hh. unfold decoded, parser_inv, abs. cbn.
  split_and!; try done. by exists [].
Qed.
Lemma keep_header p data :
  loop_pre p false -> hasHeader p = false -> bytes_ok data -> ParseHeader data = Err ErrIncomplete -> zlen data < 14 ->
  decoded (hdrRing p) (hdrRingIdx p)
    ({ p with headerBuf := put_at (headerBuf p) 0 data; headerBufLen := zlen data }, [], Ok tt) (SHeader data) [].
Proof.
  intros (He & Hb & Hl & Hbok & Hr & _) Eh Hok Ei Hlt. pose proof (zlen_nonneg data).
  destruct (put_at_middle (headerBuf p) 0 data ltac:(lia) ltac:(lia)) as (E1 & E2 & E3). rewrite Z.add_0_l in E1.
  change (ztake 0 (headerBuf p) ++ data) with data in E1.
  pose proof (keep_prefix p (put_at (headerBuf p) 0 data) (zlen data) He Eh Hr ltac:(lia) (E3 Hbok Hok) ltac:(lia)) as K.
  rewrite E1 in K. by apply K.
Qed.
Lemma fail_header p buf e :
  length (hdrRing p) = 64%nat -> zlen buf = 14 -> bytes_ok buf ->
  decoded (hdrRing p) (hdrRingIdx p) ({ p with headerBuf := buf; perr := Some e }, [], Err e) (SError e) [].
Proof.
  intros Hr Hl Hbok. destruct_parser p. cbn in *. unfold decoded, parser_inv, abs. cbn.
  split_and!; try done. by exists [].
Qed.

Lemma decode_loop_spec fuel : loop_ok fuel.
Proof.
  induction fuel as [|fuel IH]; intros p data first Hpre Hok Hf; pose proof (zlen_nonneg data) as Hd.
  { apply decoded_stop; [done| |]; destruct first; lia || done. }
  cbn [decode_loop]. destruct ((zlen data >? 0) || first) eqn:Et.
  2: { apply orb_false_iff in Et as [Et ->]. bool_simpl. apply decoded_stop; [done|lia|done]. }
  destruct (hasHeader p) eqn:Eh.
  { apply chunk_step; try done. - intros ->. rewrite orb_false_r in Et. lia. - destruct first; lia. }
  pose proof Hpre as (_ & _ & _ & _ & _ & Hh). rewrite Eh in Hh. subst first. rewrite orb_false_r in Et.
  unfold start_of. rewrite Eh. rewrite spec_run_header by done. cbn [app]. change (zlen (@nil Z)) with 0.
  pose proof (ParseHeader_prefix data) as Hpx.
  destruct (ParseHeader data) as [[h n]|e|] eqn:Ep; [| |done].
  - pose proof Hpre as (He & Hb & Hl & Hbok & Hr & _).
    apply ParseHeader_inv in Ep as (Hwf & _ & -> & r & Er); [|done].
    assert (Hn : 2 <= HeaderLen h <= zlen data).
    { rewrite Er, zlen_app, ws_enc_zlen by done. pose proof (zlen_nonneg r). split; [|lia].
      unfold HeaderLen. repeat case_match; lia. }
    rewrite slice_ok by lia. rewrite Z.sub_0_r. rewrite (ztake_all (zdrop _ data)) by (rewrite zlen_zdrop; lia).
    pose proof (proj1 (proj2 Hwf)) as Hplen.
    pose proof (chunk_step fuel IH (start_frame p h) (zdrop (HeaderLen h) data) true) as Hgo.
    change (start_of (start_frame p h) true) with (after_header h) in Hgo.
    destruct (after_header h) as [st t]. destruct (spec_run st _) as [st' t']. apply Hgo; try done.
    + unfold loop_pre, start_frame. cbn. split_and!; try done. lia.
    + by apply bytes_ok_zdrop.
    + rewrite zlen_zdrop by lia. lia.
  - destruct (decide (e = ErrIncomplete)) as [->|Hne].
    + unfold maxHeaderSize. replace (zlen data <=? 14) with true by lia. by apply keep_header.
    + destruct Hpre as (_ & _ & Hl & Hbok & Hr & _). pose proof (fail_header p (headerBuf p) e Hr Hl Hbok) as F.
      destruct_parser p. by destruct e.
Qed.

(** ** A call *)
Lemma loop_pre_inv p :
  parser_inv p -> perr p = None -> headerBufLen p = 0 -> loop_pre p false /\ start_of p false = (abs p, []).
Proof.
  intros (I1 & I2 & I3 & I4) He Hb. specialize (I4 He). unfold loop_pre, start_of, abs. rewrite He, Hb.
  destruct (hasHeader p); split; try done. split_and!; try done; lia.
Qed.

(** The header carried over from earlier calls is completed. *)
Lemma decode_carry p data h n k d1 :
  parser_inv p -> perr p = None -> hasHeader p = false -> headerBufLen p = k -> 0 < k ->
  bytes_ok data -> ParseHeader (ztake k (headerBuf p) ++ d1) = Ok (h, n) ->
  k <= 14 -> (exists d2, data = d1 ++ d2) ->
  0 <= n - k <= zlen data
  /\ spec_run (abs p) data
     = let '(st, t) := after_header h in
       let '(st', t') := spec_run st (zdrop (n - k) data) in (st', t ++ t').
Proof.
  intros (I1 & I2 & I3 & I4) He Hh Hk Hk0 Hok Ep Hk14 [d2 ->]. specialize (I4 He). rewrite Hh, Hk in I4.
  destruct I4 as [Hk' Hi]. assert (Hzk : zlen (ztake k (headerBuf p)) = k) by (apply zlen_ztake; lia).
  apply bytes_ok_app in Hok as [Hok1 Hok2].
  assert (Hb : bytes_ok (ztake k (headerBuf p) ++ d1)) by (apply bytes_ok_app; split; [by apply bytes_ok_ztake|done]).
  pose proof (ParseHeader_incomplete _ d1 h n Hb Hi Ep) as Hlt. rewrite Hzk in Hlt.
  pose proof (ParseHeader_prefix (ztake k (headerBuf p) ++ d1)) as Hpx. rewrite Ep in Hpx. specialize (Hpx d2).
  apply ParseHeader_inv in Ep as (Hwf & _ & En & r & Er); [|done].
  apply (f_equal zlen) in Er. rewrite !zlen_app, Hzk, ws_enc_zlen in Er by done.
  pose proof (zlen_nonneg r). pose proof (zlen_nonneg d2). split; [rewrite zlen_app; lia|].
  unfold abs. rewrite He, Hh, Hk. rewrite spec_run_header; [|by rewrite app_assoc; apply bytes_ok_app; split|done].
  by rewrite app_assoc, Hpx, Hzk.
Qed.

Lemma Decode_spec p data :
  parser_inv p -> bytes_ok data ->
  let '(st, ts) := spec_run (abs p) data in decoded (hdrRing p) (hdrRingIdx p) (Decode p data) st ts.
Proof.
  intros Hinv Hok. pose proof Hinv as (I1 & I2 & I3 & I4). unfold Decode. pose proof (zlen_nonneg data) as Hd.
  destruct (perr p) as [e|] eqn:He.
  { unfold abs. rewrite He, spec_run_error. split_and!; try done; [by unfold abs; rewrite He|by exists []]. }
  destruct ((zlen data =? 0) && _ && _) eqn:E0; bool_simpl.
  { rewrite (zlen_zero data) by done. split_and!; try done; [|by exists []]. unfold abs. rewrite He.
    by destruct (hasHeader p). }
  destruct (headerBufLen p >? 0) eqn:Ek; bool_simpl.
  2: { assert (Hb : headerBufLen p = 0) by (specialize (I4 eq_refl); destruct (hasHeader p); lia).
       destruct (loop_pre_inv p Hinv He Hb) as [Hpre Hst].
       pose proof (decode_loop_spec (loop_fuel data) p data false Hpre Hok ltac:(unfold loop_fuel, zlen; lia)) as H.
       rewrite Hst in H. by destruct (spec_run (abs p) data). }
  specialize (I4 eq_refl). destruct (hasHeader p) eqn:Eh; [lia|]. destruct I4 as [Hk Hi].
  set (k := headerBufLen p) in *. unfold maxHeaderSize.
  set (needed := if 14 - k >? zlen data then zlen data else 14 - k).
  assert (Hn : 0 <= needed <= zlen data /\ k + needed <= 14 /\ (k + needed < 14 -> needed = zlen data))
    by (unfold needed; destruct (_ >? _) eqn:E; bool_simpl; lia).
  assert (Ed1 : zlen (ztake needed data) = needed) by (apply zlen_ztake; lia).
  destruct (put_at_middle (headerBuf p) k (ztake needed data) ltac:(lia) ltac:(lia)) as (M1 & M2 & M3).
  rewrite Ed1 in M1. rewrite M1. specialize (M3 I2 (bytes_ok_ztake _ _ Hok)).
  set (buf := put_at (headerBuf p) k (ztake needed data)) in *.
  pose proof (ParseHeader_prefix (ztake k (headerBuf p) ++ ztake needed data)) as Hpx.
  destruct (ParseHeader (ztake k (headerBuf p) ++ ztake needed data)) as [[h n]|e|] eqn:Ep; [| |done].
  - destruct (decode_carry p data h n k (ztake needed data) Hinv He Eh eq_refl ltac:(lia) Hok Ep ltac:(lia)) as [Hnk Hsp].
    { exists (zdrop needed data). by rewrite ztake_zdrop. }
    assert (Hb : bytes_ok (ztake k (headerBuf p) ++ ztake needed data)).
    { apply bytes_ok_app. split; by apply bytes_ok_ztake. }
    apply ParseHeader_inv in Ep as (Hwf & _ & En & _); [|done]. pose proof (proj1 (proj2 Hwf)) as Hpl.
    rewrite slice_ok by lia. rewrite (ztake_all (zdrop _ data)) by (rewrite zlen_zdrop; lia).
    set (p1 := {start_frame {p with headerBuf := buf} h with headerBufLen := 0}).
    pose proof (decode_loop_spec (loop_fuel (zdrop (n - k) data)) p1 (zdrop (n - k) data) true) as H.
    change (start_of p1 true) with (after_header h) in H. rewrite Hsp.
    destruct (after_header h) as [st t]. destruct (spec_run st _) as [st' t']. apply H.
    + unfold p1, loop_pre, start_frame. cbn. rewrite M2. split_and!; try done. lia.
    + by apply bytes_ok_zdrop.
    + unfold loop_fuel, zlen. lia.
  - assert (Hend : e = ErrIncomplete -> needed = zlen data).
    { intros ->. rewrite zlen_app, Ed1 in Hpx. rewrite zlen_ztake in Hpx by lia. lia. }
    assert (Hsp : spec_run (abs p) data = (if decide (e = ErrIncomplete) then SHeader (ztake k (headerBuf p) ++ data) else SError e, [])).
    { unfold abs. rewrite He, Eh. fold k.
      rewrite spec_run_header; [|by apply bytes_ok_app; split; [apply bytes_ok_ztake|]|done].
      destruct (decide (e = ErrIncomplete)) as [->|Hne].
      - rewrite (Hend eq_refl), (ztake_all data) in Ep by lia. by rewrite Ep.
      - rewrite <- (ztake_zdrop needed data) at 1. rewrite app_assoc.
        assert (E' : ParseHeader ((ztake k (headerBuf p) ++ ztake needed data) ++ zdrop needed data) = Err e)
          by by destruct e.
        rewrite E'. by destruct e. }
    rewrite Hsp. destruct (decide (e = ErrIncomplete)) as [->|Hne].
    + rewrite (Hend eq_refl) in *. rewrite (ztake_all data) in * by lia.
      rewrite <- M1. apply keep_prefix; try done; [lia| |by rewrite M1].
      rewrite zlen_app, zlen_ztake in Hpx by lia. lia.
    + pose proof (fail_header p buf e I3 ltac:(lia) M3) as F.
      by destruct e.
Qed.

(** ** Feeding a parser *)

(** The tokens a consumer sees that reads the chunks of each call before the
    next. *)
Fixpoint feed (p : Parser) (slices : list bytes) : Parser * list token * outcome :=
  match slices with
  | [] => (p, [], Ok tt)
  | d :: slices' =>
      let '(p1, chs, r1) := Decode p d in
      let ts := chunks_tokens (hdrRing p1) chs in
      let '(p2, ts2, r2) := feed p1 slices' in
      (p2, ts ++ ts2, match slices' with [] => r1 | _ => r2 end)
  end.

(** No slice completes more than 64 headers. *)
Fixpoint few_headers (st : pstate) (slices : list bytes) : Prop :=
  match slices with
  | [] => True
  | d :: slices' => let '(st', ts) := spec_run st d in headers_in ts <= 64 /\ few_headers st' slices'
  end.

(** A header takes two bytes, the first of which may have come earlier. *)
Definition half_header (st : pstate) : Z :=
  match st with SHeader (_ :: _) => 1 | _ => 0 end.

Lemma ParseHeader_one b : ParseHeader [b] = Err ErrIncomplete.
Proof. done. Qed.

Lemma headers_bound data : forall st,
  let '(st', ts) := spec_run st data in 2 * headers_in ts + half_header st' <= zlen data + half_header st.
Proof.
  induction data as [|b data IH]; intros st; [cbn [spec_run]; change (headers_in []) with 0; change (zlen (@nil Z)) with 0; lia|]. cbn [spec_run].
  assert (Hb : let '(st1, t1) := spec_byte st b in 2 * headers_in t1 + half_header st1 <= 1 + half_header st).
  { destruct st as [buf|n|e]; [|cbn [spec_byte]; destruct (n =? 1); cbv; discriminate|cbv; discriminate]. cbn [spec_byte].
    destruct buf as [|b0 buf].
    - cbn [app]. rewrite ParseHeader_one. cbv. discriminate.
    - destruct (ParseHeader ((b0 :: buf) ++ [b])) as [[h n]|[]|]; try (cbv; discriminate).
      unfold after_header. destruct (_ =? 0); cbv; discriminate. }
  destruct (spec_byte st b) as [st1 t1]. specialize (IH st1). destruct (spec_run st1 data) as [st2 t2].
  rewrite headers_in_app, zlen_cons. lia.
Qed.

Lemma small_slices_few slices : forall st,
  Forall (fun d => zlen d <= 128) slices -> few_headers st slices.
Proof.
  induction slices as [|d slices IH]; intros st H; [done|]. inversion H as [|? ? Hd Hs]; subst. cbn.
  pose proof (headers_bound d st) as Hb. destruct (spec_run st d) as [st' ts].
  split; [|by apply IH]. assert (half_header st <= 1) by (destruct st as [[|]| |]; cbn; lia).
  assert (0 <= half_header st') by (destruct st' as [[|]| |]; cbn; lia). lia.
Qed.

Lemma feed_spec slices : forall p,
  parser_inv p -> bytes_ok (concat slices) -> few_headers (abs p) slices ->
  let '(st, ts) := spec_run (abs p) (concat slices) in
  let '(p', ts', r) := feed p slices in
  parser_inv p' /\ abs p' = st /\ ts' = ts
  /\ (slices <> [] -> r = match st with SError e => Err e | _ => Ok tt end).
Proof.
  induction slices as [|d slices IH]; intros p Hinv Hok Hf; cbn [concat feed few_headers] in *; [by split_and!|].
  apply bytes_ok_app in Hok as [Hd Hs]. pose proof (Decode_spec p d Hinv Hd) as HD. rewrite spec_run_app.
  destruct (spec_run (abs p) d) as [st1 t1]. destruct Hf as [Hc Hf].
  destruct (Decode p d) as [[p1 chs] r1]. destruct HD as (H1 & <- & H3 & gs & <- & -> & H4).
  specialize (IH p1 H1 Hs Hf). destruct (spec_run (abs p1) (concat slices)) as [st2 t2] eqn:Es.
  destruct (feed p1 slices) as [[p2 ts2] r2]. destruct IH as (J1 & <- & -> & J4).
  split_and!; try done.
  - f_equal. rewrite H4. apply place_tokens; [apply Hinv|done].
  - intros _. destruct slices; [|by apply J4]. cbn in Es. injection Es as Es _. by rewrite <- Es.
Qed.

(** Whole frames, as the specification sees them. *)
Definition frame_ok (f : Header * bytes) : Prop :=
  header_wf (fst f) /\ Length (fst f) = 0 /\ PayloadLen (fst f) = zlen (snd f) /\ bytes_ok (snd f).
Definition frame_bytes (f : Header * bytes) : bytes := AppendHeader [] (fst f) ++ snd f.
Definition frame_tokens (f : Header * bytes) : list token := THeader (fst f) :: map TByte (snd f) ++ [TEnd].

Lemma frames_run frames :
  Forall frame_ok frames ->
  spec_run (SHeader []) (concat (map frame_bytes frames)) = (SHeader [], concat (map frame_tokens frames))
  /\ bytes_ok (concat (map frame_bytes frames)).
Proof.
  induction 1 as [|[h pl] frames (Hwf & Hl & Hlen & Hok) Hfr [IH IHok]]; [split; [done|constructor]|].
  cbn [fst snd] in *. cbn [map concat]. unfold frame_bytes at 1 3. unfold frame_tokens at 1. cbn [fst snd].
  rewrite AppendHeader_enc by (done || lia). cbn [app]. rewrite <- app_assoc.
  pose proof (ws_enc_ok h Hwf) as Henc.
  assert (Hall : bytes_ok (ws_enc h ++ pl ++ concat (map frame_bytes frames))).
  { rewrite !bytes_ok_app. by split_and!. }
  split; [|done]. rewrite spec_run_header by done. cbn [app]. rewrite ParseHeader_enc by done.
  change (zlen (@nil Z)) with 0. rewrite Z.sub_0_r. rewrite zdrop_app_eq by by rewrite ws_enc_zlen.
  replace {h with Length := 0} with h by (destruct h; cbn in Hl; by subst).
  unfold after_header. rewrite Hlen. destruct (zlen pl =? 0) eqn:E0; bool_simpl.
  - rewrite (zlen_zero pl E0). cbn [app map]. by rewrite IH.
  - pose proof (zlen_nonneg pl). rewrite spec_run_payload by lia.
    rewrite zlen_app. pose proof (zlen_nonneg (concat (map frame_bytes frames))).
    match goal with |- context [?a <? ?b] => test_false (a <? b) end.
    rewrite zdrop_app, ztake_app, IH. cbn [app]. by rewrite <- app_assoc.
Qed.

(** ** Theorems *)


Lemma new_parser_inv : parser_inv new_parser.
Proof. unfold parser_inv. split_and!; try done. by_decide. Qed.


(** How the network cuts the stream does not matter.  Any number of frames,
    written one after the other and delivered in slices cut anywhere, come out as
    exactly these headers and payloads, in order and complete, without error.
    (Slices may be of any size as long as none completes more than 64 headers, as
    is always the case for slices of up to 128 bytes.) *)
Theorem ws_parser_any_split (frames : list (Header * bytes)) (slices : list bytes) :
  Forall frame_ok frames ->
  concat slices = concat (map frame_bytes frames) ->
  (Forall (fun d => zlen d <= 128) slices \/ few_headers (SHeader []) slices) ->
  let '(p, ts, r) := feed new_parser slices in
  ts = concat (map frame_tokens frames)
  /\ r = Ok tt /\ abs p = SHeader [].
Proof.
  intros Hfr Hcat Hsl.
  assert (Hf : few_headers (SHeader []) slices) by (destruct Hsl; [by apply small_slices_few|done]).
  destruct (frames_run frames Hfr) as [Hrun Hok]. rewrite <- Hcat in Hrun, Hok.
  pose proof (feed_spec slices new_parser new_parser_inv Hok Hf) as H. change (abs new_parser) with (SHeader []) in H.
  rewrite Hrun in H. destruct (feed new_parser slices) as [[p ts] r] eqn:Ef. destruct H as (_ & H2 & H3 & H4).
  split_and!; try done. destruct slices; [|by apply H4]. cbn in Ef. by injection Ef as _ _ <-.
Qed.

Lemma ws_parser_any_split_witness :
  (snd (fst (feed new_parser [[0x81]; [3; 97]; [98; 99; 0x89]; [0]])))
     = [THeader (mkHeader true false false false 1 false zero_key 3 0); TByte 97; TByte 98; TByte 99; TEnd;
        THeader (mkHeader true false false false 9 false zero_key 0 0); TEnd].
Proof.
  pose proof (ws_parser_any_split
    [(mkHeader true false false false 1 false zero_key 3 0, [97; 98; 99]); (mkHeader true false false false 9 false zero_key 0 0, [])]
    [[0x81]; [3; 97]; [98; 99; 0x89]; [0]]) as H.
  destruct (feed new_parser [[0x81]; [3; 97]; [98; 99; 0x89]; [0]]) as [[p ts] r]. apply H.
  - repeat constructor; cbn; try lia; try done.
  - reflexivity.
  - left. repeat constructor; vm_compute; discriminate.
Defined.

(** Headers are kept in a ring of 64 slots, and chunks point into it.  When
    one call completes 65 headers, the first chunk no longer shows its own: here
    64 Ping frames and a Pong in one slice, and the chunk of the first Ping reads
    as a Pong. *)
Theorem ws_parser_ring_overwritten :
  let data := concat (replicate 64 [0x89; 0]) ++ [0x8A; 0] in
  let '(p, chs, r) := Decode new_parser data in
  r = Ok tt /\ length chs = 65%nat
  /\ snd (spec_run (SHeader []) data) !! 0%nat = Some (THeader (mkHeader true false false false OpcodePing false zero_key 0 0))
  /\ chunks_tokens (hdrRing p) chs !! 0%nat = Some (THeader (mkHeader true false false false OpcodePong false zero_key 0 0)).
Proof. vm_compute. split_and!; reflexivity. Qed.
