(* ===== verification/WsConn.v ===== *)
(** * WebSocket connections

    Models [src/proto/ws/conn.go] and [deflate.go]: reading messages and frames,
    answering control frames, the closing handshake, and writing.  The transport
    under the connection is the bytes the peer has sent and the error after them,
    the slices written to it, and the result of each write.  The DEFLATE codec is
    an interface: what [CompressDeflate] and [DecompressDeflate] add to it is
    modelled, the codec itself is not.  The source of masking keys is an argument.

    The theorems: what one side writes the other reads, whatever mix of messages,
    fragmented messages, control frames and compression; reading always returns,
    keeps its memory within the read limit, and fails closed, with the reason on
    the wire; two defects of [ReadMessageBuf], and the panic a peer can cause when
    the read limit is off. *)

From Stdlib Require Import Ascii String.
From S2P Require Import Prelude WsMask WsHeader.
Open Scope Z_scope.

(** ** The DEFLATE codec

    [flate_flush]: what a fresh [flate.Writer] has written after [Write] and
    [Flush], or an error.  [flate_read]: what a [flate.Reader] yields and whether
    it ends in an error. *)
Class Flate := {
  flate_flush : bytes -> option bytes;
  flate_read : bytes -> bytes * bool
}.

Definition flateTail : bytes := [0x00; 0x00; 0xff; 0xff].
Definition flateReaderTail : bytes := [0x00; 0x00; 0xff; 0xff; 0x01; 0x00; 0x00; 0xff; 0xff].

Definition has_suffix (l t : bytes) : bool :=
  (zlen t <=? zlen l) && bool_decide (zdrop (zlen l - zlen t) l = t).

Section WithFlate.
Context {codec : Flate}.

Definition CompressDeflate (src : bytes) : option bytes :=
  match flate_flush src with
  | None => None
  | Some compressed =>
      Some (if (zlen compressed >=? 4) && has_suffix compressed flateTail
            then ztake (zlen compressed - 4) compressed else compressed)
  end.

(** [bytes.Buffer.ReadFrom] through [io.LimitReader]. *)
Definition DecompressDeflate (src : bytes) (limit : Z) : res ws_error bytes :=
  let '(out, failed) := flate_read (src ++ flateReaderTail) in
  let '(buf, failed) := if (limit >? 0) && (zlen out >? limit) then (ztake (limit + 1) out, false) else (out, failed) in
  if failed : bool then Err DeflateErr
  else if (limit >? 0) && (zlen buf >? limit) then Err ErrMessageTooBig
  else Ok buf.

(** ** Connections *)
Inductive ConnState := StateConnecting | StateOpen | StateClosing | StateClosed.
#[local] Instance ConnState_eq_dec : EqDecision ConnState.
Proof. solve_decision. Defined.

(** Handlers of control frames: none, the default reply, or a user function. *)
Inductive handler := HNone | HReply | HUser (f : bytes -> option ws_error).

#[projections(primitive)]
Record Conn := mkConn {
  isServer : bool;
  state : ConnState;
  readLimit : Z;
  skipMaskCheck : bool;
  enableDeflate : bool;
  pingHandler : handler;
  pongHandler : handler;
  closeHandler : bool;
  seenClose : bool;
  fragmentOpcode : Z;
  fragmentBuf : bytes;
  fragmentRsv1 : bool;
  writeFrameBuf : bytes;
  maskRand : Z -> Z;
  maskCount : Z;
  rd : reader;
  written : list bytes;
  writeResult : Z -> option ws_error;
  transportClosed : bool;
  closeCalls : list (Z * bytes)
}.

Definition NewConn (server : bool) (masks : Z -> Z) (r : reader) (wres : Z -> option ws_error) : Conn :=
  mkConn server StateOpen (Z.shiftl 32 20) false false HReply HNone false false 0 [] false (replicate 4096 0) masks 0
    r [] wres false [].

Definition SetState (c : Conn) (s : ConnState) : Conn := { c with state := s }.
Definition SetReadLimit (c : Conn) (limit : Z) : Conn := { c with readLimit := limit }.
Definition SetSkipMaskCheck (c : Conn) (skip : bool) : Conn := { c with skipMaskCheck := skip }.
Definition EnableCompression (c : Conn) (enable : bool) : Conn := { c with enableDeflate := enable }.
Definition SetPingHandler (c : Conn) (h : handler) : Conn := { c with pingHandler := h }.
Definition SetPongHandler (c : Conn) (h : handler) : Conn := { c with pongHandler := h }.
(** The handler's calls are recorded in [closeCalls]; its result is ignored. *)
Definition SetCloseHandler (c : Conn) (installed : bool) : Conn := { c with closeHandler := installed }.

Definition state_is (c : Conn) (s : ConnState) : bool := bool_decide (state c = s).

(** ** Writing *)
Definition mask_le (payload key : bytes) : bytes := Mask LittleEndian 0 payload key.

(** [binary.LittleEndian.PutUint32]. *)
Definition key_of (mask : Z) : bytes := rev (be_put 4 (u32 mask)).

Definition writeFrameLocked (c : Conn) (fin rsv1 : bool) (op : Z) (data : bytes) : Conn * res ws_error unit :=
  let h := mkHeader fin rsv1 false false op false zero_key (zlen data) 0 in
  let '(c, h) :=
    if negb (isServer c) then
      ({ c with maskCount := maskCount c + 1 },
       { h with Masked := true; MaskKey := key_of (maskRand c (maskCount c)) })
    else (c, h) in
  let hdrLen := HeaderLen h in
  let totalLen := hdrLen + zlen data in
  let c := if zlen (writeFrameBuf c) <? totalLen
           then { c with writeFrameBuf := replicate (Z.to_nat (totalLen + 1024)) 0 } else c in
  match WriteHeader (ztake hdrLen (writeFrameBuf c)) h with
  | Ok (hd, _) =>
      let body := if Masked h then mask_le data (MaskKey h) else data in
      let buf := hd ++ body in
      let c := { c with writeFrameBuf := buf ++ zdrop totalLen (writeFrameBuf c); written := written c ++ [buf] } in
      (c, match writeResult c (zlen (written c)) with None => Ok tt | Some e => Err e end)
  | Err e => (c, Err e)
  | Panic => (c, Panic)
  end.

Definition writeControlFrame (c : Conn) (op : Z) (data : bytes) : Conn * res ws_error unit :=
  writeFrameLocked c true false op data.
Definition writeControlLocked (c : Conn) (op : Z) (data : bytes) : Conn * res ws_error unit :=
  writeFrameLocked c true false op data.

Definition writeDataFrame (c : Conn) (fin rsv1 : bool) (op : Z) (data : bytes) : Conn * res ws_error unit :=
  if state_is c StateClosing || state_is c StateClosed then (c, Err ErrClosed)
  else writeFrameLocked c fin rsv1 op data.

Definition WriteMessage (c : Conn) (messageType : Z) (data : bytes) : Conn * res ws_error unit :=
  if negb (IsData messageType) then (c, Err ErrProtocolViolation)
  else if state_is c StateClosing || state_is c StateClosed then (c, Err ErrClosed)
  else
    let '(rsv1, payload) :=
      if enableDeflate c then
        match CompressDeflate data with
        | Some compressed => if zlen compressed <? zlen data then (true, compressed) else (false, data)
        | None => (false, data)
        end
      else (false, data) in
    writeDataFrame c true rsv1 messageType payload.

Definition WriteText (c : Conn) (text : bytes) : Conn * res ws_error unit := WriteMessage c OpcodeText text.
Definition WriteBinary (c : Conn) (data : bytes) : Conn * res ws_error unit := WriteMessage c OpcodeBinary data.

(** The loop of [WriteFragmentedMessage] from a frame with opcode [op]. *)
Fixpoint write_fragments (c : Conn) (op : Z) (frames : list bytes) : Conn * res ws_error unit :=
  match frames with
  | [] => (c, Ok tt)
  | d :: frames' =>
      let '(c, r) := writeDataFrame c (match frames' with [] => true | _ => false end) false op d in
      match r with
      | Ok _ => write_fragments c OpcodeContinuation frames'
      | Err e => (c, Err e)
      | Panic => (c, Panic)
      end
  end.

Definition WriteFragmentedMessage (c : Conn) (messageType : Z) (frames : list bytes) : Conn * res ws_error unit :=
  if negb (IsData messageType) then (c, Err ErrProtocolViolation)
  else match frames with
       | [] => WriteMessage c messageType []
       | _ => write_fragments c messageType frames
       end.

Definition WriteControl (c : Conn) (messageType : Z) (data : bytes) : Conn * res ws_error unit :=
  if negb (IsControl messageType) then (c, Err ErrProtocolViolation)
  else if zlen data >? 125 then (c, Err ErrControlFrameTooLarge)
  else if state_is c StateClosed then (c, Err ErrClosed)
  else writeFrameLocked c true false messageType data.
Definition WritePing (c : Conn) (data : bytes) := WriteControl c OpcodePing data.
Definition WritePong (c : Conn) (data : bytes) := WriteControl c OpcodePong data.

Definition WriteClose (c : Conn) (statusCode : Z) (reason : bytes) : Conn * res ws_error unit :=
  if negb (IsValidForWire statusCode) then (c, Err ErrInvalidCloseCode)
  else if zlen reason >? 123 then (c, Err ErrCloseReasonTooLong)
  else if negb (utf8_Valid reason) then (c, Err ErrInvalidUTF8)
  else
    match FormatClosePayload (replicate 128 0) statusCode reason with
    | Ok (buf, n) =>
        if negb (state_is c StateOpen) then (c, Err ErrClosed)
        else writeFrameLocked { c with state := StateClosing } true false OpcodeClose (ztake n buf)
    | Err e => (c, Err e)
    | Panic => (c, Panic)
    end.

Definition closeTransport (c : Conn) : Conn := { c with transportClosed := true }.
Definition Close (c : Conn) : Conn := closeTransport { c with state := StateClosed }.

(** ** Failing *)

(** The loop of [drainPayload] ends when [n] bytes are read or none are left. *)
Definition drainPayload (c : Conn) (n : Z) : Conn :=
  if (n <=? 0) || (n >? 65536) then c
  else { c with rd := { rd c with rd_data := zdrop n (rd_data (rd c)) } }.

(** [for cut > 0 && !utf8.RuneStart(reason[cut]) { cut-- }]. *)
Fixpoint rune_cut (reason : bytes) (cut : nat) : nat :=
  match cut with
  | O => O
  | S cut' => if RuneStart (nth cut reason 0) then cut else rune_cut reason cut'
  end.
Definition truncate_reason (reason : bytes) : bytes :=
  if zlen reason >? 123 then take (rune_cut reason 123) reason else reason.

Definition writeProtocolErrorAndClose (c : Conn) (code : Z) (reason : bytes) : Conn :=
  let c := { c with state := StateClosing } in
  let reason := truncate_reason reason in
  let payload :=
    match FormatClosePayload (replicate 128 0) code reason with
    | Ok (buf, n) => ztake n buf
    | _ => be_put 2 (u16 code)
    end in
  let '(c, _) := writeControlFrame c OpcodeClose payload in
  closeTransport { c with state := StateClosed }.

(** The result of a read: message type and payload, or an error. *)
Abbreviation message := (res ws_error (Z * bytes)).

Definition reject {A} (c : Conn) (n code : Z) (reason : String.string) (err : ws_error) : Conn * res ws_error A :=
  (writeProtocolErrorAndClose (drainPayload c n) code (bytes_of_string reason), Err err).

(** ** Reading *)

(** The next header, with the errors that close the connection. *)
Definition read_header (c : Conn) : Conn * res ws_error Header :=
  if state_is c StateClosed then (c, Err ErrClosed)
  else
    let '(r, h) := ReadHeader (rd c) in
    let c := { c with rd := r } in
    match h with
    | Ok h => (c, Ok h)
    | Err e =>
        if bool_decide (e = IoEOF) then ({ c with state := StateClosed }, Err IoEOF)
        else if bool_decide (e = ErrInvalidOpcode) || is_protocol_violation e || bool_decide (e = ErrPayloadTooLarge)
        then (writeProtocolErrorAndClose c StatusProtocolError (error_text e), Err e)
        else (c, Err e)
    | Panic => (c, Panic)
    end.

(** The checks every reader makes first: opcode, data after Close, masking,
    RSV2 and RSV3, RSV1 without the extension. *)
Definition check_frame (c : Conn) (h : Header) : option (String.string * ws_error) :=
  if negb (IsValid (Opcode h)) || IsReserved (Opcode h) then Some ("Unknown or reserved opcode"%string, ErrInvalidOpcode)
  else if seenClose c && negb (IsControl (Opcode h)) then Some ("Data frame received after close"%string, ErrDataAfterClose)
  else if negb (skipMaskCheck c) && isServer c && negb (Masked h) then
    Some ("Server requires masked frames"%string, ErrMaskRequired)
  else if negb (skipMaskCheck c) && negb (isServer c) && Masked h then
    Some ("Client requires unmasked frames"%string, ErrMaskForbidden)
  else if Rsv2 h || Rsv3 h then Some ("Reserved bits RSV2/RSV3 set"%string, ErrRSVSet)
  else if Rsv1 h && negb (enableDeflate c) then Some ("RSV1 set without deflate extension"%string, ErrRSVSet)
  else None.

(** RSV1 belongs to the first frame of a message ([ReadMessage] and
    [ReadMessageBuf]). *)
Definition check_rsv1 (h : Header) : option (String.string * ws_error) :=
  if Rsv1 h && (IsControl (Opcode h) || (Opcode h =? OpcodeContinuation))
  then Some ("RSV1 not allowed on control or continuation frame"%string, ErrRSVSet) else None.

Definition check_control_frame (h : Header) : option (String.string * ws_error) :=
  if IsControl (Opcode h) then
    if negb (Fin h) then Some ("Control frame must not be fragmented"%string, ErrControlFrameFragmented)
    else if PayloadLen h >? 125 then Some ("Control frame payload exceeds 125 bytes"%string, ErrControlFrameTooLarge)
    else None
  else None.

(** Read and unmask the payload of a frame, into memory that is there. *)
Definition read_payload (c : Conn) (h : Header) : Conn * res ws_error bytes :=
  if PayloadLen h >? 0 then
    let '(r, w) := ReadFull (rd c) (PayloadLen h) in
    let c := { c with rd := r } in
    match w with
    | Ok w => (c, Ok (if Masked h then mask_le w (MaskKey h) else w))
    | Err e => ({ c with state := StateClosed }, Err e)
    | Panic => (c, Panic)
    end
  else (c, Ok []).

(** The largest slice [make] and [append] give, on a 64-bit machine: with more
    they panic. *)
Definition maxAlloc : Z := 2 ^ 48.

(** Read the payload into a slice made for it, of [size] bytes. *)
Definition make_payload (size : Z) (c : Conn) (h : Header) : Conn * res ws_error bytes :=
  if size >? maxAlloc then (c, Panic) else read_payload c h.

Definition run_handler (c : Conn) (hd : handler) (payload : bytes) : Conn * res ws_error unit :=
  match hd with
  | HNone => (c, Ok tt)
  | HReply => writeControlLocked c OpcodePong payload
  | HUser f => (c, match f payload with None => Ok tt | Some e => Err e end)
  end.

(** A Close frame was read. *)
Definition handle_close (c : Conn) (payload : bytes) : Conn * ws_error :=
  let c := { c with seenClose := true } in
  match ParseClosePayload payload with
  | Ok (code, reason) =>
      let c := if closeHandler c then { c with closeCalls := closeCalls c ++ [(code, reason)] } else c in
      let c :=
        if state_is c StateOpen || state_is c StateConnecting then
          let c := { c with state := StateClosing } in
          if code =? StatusNoStatusReceived then fst (writeControlFrame c OpcodeClose [])
          else
            fst (writeControlFrame c OpcodeClose
              match FormatClosePayload (replicate 128 0) code reason with
              | Ok (buf, n) => ztake n buf
              | _ => []
              end)
        else c in
      (closeTransport { c with state := StateClosed }, CloseError code reason)
  | Err e =>
      (if bool_decide (e = ErrInvalidUTF8)
       then writeProtocolErrorAndClose c StatusInvalidFramePayloadData (bytes_of_string "Invalid UTF-8 in Close frame")
       else writeProtocolErrorAndClose c StatusProtocolError (error_text e), e)
  | Panic => (c, ErrProtocolViolation)
  end.

(** A control frame, up to [continue]; [Ok] means the loop goes on. *)
Definition dispatch_control (c : Conn) (h : Header) : Conn * res ws_error unit :=
  let '(c, p) := read_payload c h in
  match p with
  | Ok payload =>
      if Opcode h =? OpcodePing then run_handler c (pingHandler c) payload
      else if Opcode h =? OpcodePong then run_handler c (pongHandler c) payload
      else let '(c, e) := handle_close c payload in (c, Err e)
  | Err e => (c, Err e)
  | Panic => (c, Panic)
  end.

(** Decompression and the UTF-8 check of a complete message. *)
Definition finish_message (c : Conn) (op : Z) (compressed : bool) (payload : bytes) : Conn * message :=
  match (if compressed then DecompressDeflate payload (readLimit c) else Ok payload) with
  | Ok payload =>
      if (op =? OpcodeText) && negb (utf8_Valid payload) then
        (writeProtocolErrorAndClose c StatusInvalidFramePayloadData (bytes_of_string "Invalid UTF-8 in text message"),
         Err ErrInvalidUTF8)
      else (c, Ok (op, payload))
  | Err e =>
      (writeProtocolErrorAndClose c StatusProtocolError (bytes_of_string "Deflate decompression error"), Err e)
  | Panic => (c, Panic)
  end.

Definition reject_frame {A} (c : Conn) (h : Header) (why : String.string * ws_error) : Conn * res ws_error A :=
  reject c (PayloadLen h) StatusProtocolError (fst why) (snd why).

(** A message of one frame; [slack] is what [ReadMessageBuf] asks for beyond the
    payload when it replaces its buffer. *)
Definition whole_message (slack : Z) (c : Conn) (h : Header) : Conn * message :=
  if Opcode h =? OpcodeContinuation then
    reject c (PayloadLen h) StatusProtocolError "Unexpected continuation frame" ErrUnexpectedContinuation
  else
    let '(c, p) := make_payload (PayloadLen h + slack) c h in
    match p with
    | Ok payload => finish_message c (Opcode h) (Rsv1 h) payload
    | Err e => (c, Err e)
    | Panic => (c, Panic)
    end.

(** The sequence of opcodes within a fragmented message. *)
Definition check_fragment (c : Conn) (h : Header) : option (String.string * ws_error) :=
  if Opcode h =? OpcodeContinuation then
    if fragmentOpcode c =? 0 then Some ("Unexpected continuation frame"%string, ErrUnexpectedContinuation) else None
  else
    if negb (fragmentOpcode c =? 0) then Some ("Expected continuation frame"%string, ErrExpectedContinuation) else None.
Definition begin_fragment (c : Conn) (h : Header) : Conn :=
  if Opcode h =? OpcodeContinuation then c
  else { c with fragmentOpcode := Opcode h; fragmentRsv1 := Rsv1 h; fragmentBuf := [] }.

(** A message in several frames: [Ok None] goes on reading. *)
Definition fragment (c : Conn) (h : Header) : Conn * res ws_error (option (Z * bytes)) :=
  let '(c, p) := make_payload (PayloadLen h) c h in
  match p with
  | Ok framePayload =>
      match check_fragment c h with
      | Some (reason, err) => (writeProtocolErrorAndClose c StatusProtocolError (bytes_of_string reason), Err err)
      | None =>
          let c := begin_fragment c h in
          if zlen (fragmentBuf c) + zlen framePayload >? maxAlloc then (c, Panic) else
          let c := { c with fragmentBuf := fragmentBuf c ++ framePayload } in
          if Fin h then
            let msgType := fragmentOpcode c in
            let msgPayload := fragmentBuf c in
            let isCompressed := fragmentRsv1 c in
            let c := { c with fragmentOpcode := 0; fragmentBuf := []; fragmentRsv1 := false } in
            let '(c, m) := finish_message c msgType isCompressed msgPayload in
            (c, let* m := m in Ok (Some m))
          else (c, Ok None)
      end
  | Err e => (c, Err e)
  | Panic => (c, Panic)
  end.

(** The limits [ReadMessage] checks before it allocates. *)
Definition check_limit (c : Conn) (h : Header) : option String.string :=
  if (readLimit c >? 0) && (PayloadLen h >? readLimit c) then Some "Frame payload exceeds read limit"%string
  else if negb (IsControl (Opcode h)) && (readLimit c >? 0) && (i64 (zlen (fragmentBuf c) + PayloadLen h) >? readLimit c)
  then Some "Message exceeds read limit"%string
  else None.

Definition opt_or {A} (a b : option A) : option A := match a with Some _ => a | None => b end.

(** One iteration of the loop of [ReadMessage]; [Ok None] goes round again. *)
Definition ReadMessage_pass (c : Conn) : Conn * res ws_error (option (Z * bytes)) :=
  let '(c, h) := read_header c in
  match h with
  | Ok h =>
      match opt_or (check_frame c h) (opt_or (check_rsv1 h) (check_control_frame h)) with
      | Some why => reject_frame c h why
      | None =>
          match check_limit c h with
          | Some reason => reject c (PayloadLen h) StatusMessageTooBig reason ErrMessageTooBig
          | None =>
              if IsControl (Opcode h) then
                let '(c, r) := dispatch_control c h in (c, let* _ := r in Ok None)
              else if Fin h && (fragmentOpcode c =? 0) then
                let '(c, m) := whole_message 0 c h in (c, let* m := m in Ok (Some m))
              else fragment c h
          end
      end
  | Err e => (c, Err e)
  | Panic => (c, Panic)
  end.

Fixpoint read_loop {A} (pass : Conn -> Conn * res ws_error (option A)) (fuel : nat) (c : Conn) :
    Conn * option (res ws_error A) :=
  match fuel with
  | O => (c, None)
  | S fuel' =>
      let '(c, r) := pass c in
      match r with
      | Ok None => read_loop pass fuel' c
      | Ok (Some m) => (c, Some (Ok m))
      | Err e => (c, Some (Err e))
      | Panic => (c, Some Panic)
      end
  end.

(** Each iteration that goes on has consumed a header. *)
Definition read_fuel (c : Conn) : nat := S (List.length (rd_data (rd c))).
Definition ReadMessage (c : Conn) : Conn * option message := read_loop ReadMessage_pass (read_fuel c) c.

(** ** [ReadMessageBuf] *)

(** It checks the opcode before it reads the payload, reads into [fragmentBuf],
    and hands that buffer out without emptying it.  After a failed read the buffer
    has grown by the payload, whose bytes are not looked at again: the connection
    is closed.  The payload of an unfragmented message is read into a buffer that
    is reused by the next call; here it is a value, and a buffer is taken to be
    made for each payload, which only matters within a few kilobytes of
    [maxAlloc].  A length that wraps is negative, and slicing with it panics like
    making too much. *)
Definition fragment_buf (c : Conn) (h : Header) : Conn * res ws_error (option (Z * bytes)) :=
  match check_fragment c h with
  | Some (reason, err) => (writeProtocolErrorAndClose c StatusProtocolError (bytes_of_string reason), Err err)
  | None =>
      let c := begin_fragment c h in
      let '(c, p) := make_payload (zlen (fragmentBuf c) + PayloadLen h + 4096) c h in
      match p with
      | Ok framePayload =>
          let c := { c with fragmentBuf := fragmentBuf c ++ framePayload } in
          if Fin h then
            let msgType := fragmentOpcode c in
            let isCompressed := fragmentRsv1 c in
            let c := { c with fragmentOpcode := 0; fragmentRsv1 := false } in
            let '(c, m) := finish_message c msgType isCompressed (fragmentBuf c) in
            (c, let* m := m in Ok (Some m))
          else (c, Ok None)
      | Err e => ({ c with fragmentBuf := fragmentBuf c ++ replicate (Z.to_nat (PayloadLen h)) 0 }, Err e)
      | Panic => (c, Panic)
      end
  end.

Definition check_frame_limit (c : Conn) (h : Header) : bool := (readLimit c >? 0) && (PayloadLen h >? readLimit c).

Definition ReadMessageBuf_pass (c : Conn) : Conn * res ws_error (option (Z * bytes)) :=
  let '(c, h) := read_header c in
  match h with
  | Ok h =>
      match opt_or (check_frame c h) (opt_or (check_rsv1 h) (check_control_frame h)) with
      | Some why => reject_frame c h why
      | None =>
          if IsControl (Opcode h) then
            let '(c, r) := dispatch_control c h in (c, let* _ := r in Ok None)
          else if check_frame_limit c h then
            reject c (PayloadLen h) StatusMessageTooBig "Frame payload exceeds read limit" ErrMessageTooBig
          else if Fin h && (fragmentOpcode c =? 0) then
            let '(c, m) := whole_message 1024 c h in (c, let* m := m in Ok (Some m))
          else fragment_buf c h
      end
  | Err e => (c, Err e)
  | Panic => (c, Panic)
  end.
Definition ReadMessageBuf (c : Conn) : Conn * option message := read_loop ReadMessageBuf_pass (read_fuel c) c.

(** ** [ReadFrame] *)

(** [n] is the length of the caller's buffer. *)
Definition ReadFrame_pass (n : Z) (c : Conn) : Conn * res ws_error (option (Header * bytes)) :=
  let '(c, h) := read_header c in
  match h with
  | Ok h =>
      match opt_or (check_frame c h) (check_control_frame h) with
      | Some why => reject_frame c h why
      | None =>
          if IsControl (Opcode h) then
            let '(c, r) := dispatch_control c h in (c, let* _ := r in Ok None)
          else if check_frame_limit c h then
            reject c (PayloadLen h) StatusMessageTooBig "Frame payload exceeds read limit" ErrMessageTooBig
          else if n <? PayloadLen h then (c, Err ErrBufferTooSmall)
          else
            let '(c, p) := read_payload c h in
            (c, let* p := p in Ok (Some (h, p)))
      end
  | Err e => (c, Err e)
  | Panic => (c, Panic)
  end.
Definition ReadFrame (c : Conn) (n : Z) : Conn * option (res ws_error (Header * bytes)) :=
  read_loop (ReadFrame_pass n) (read_fuel c) c.

(** ** What a frame looks like on the wire *)

(** A frame as its sender means it. *)
Record aframe := mkFrame { f_fin : bool; f_rsv1 : bool; f_op : Z; f_data : bytes }.

Definition frame_header (server : bool) (f : aframe) (key : bytes) : Header :=
  mkHeader (f_fin f) (f_rsv1 f) false false (f_op f) (negb server) (if server then zero_key else key) (zlen (f_data f)) 0.
Definition frame_body (server : bool) (f : aframe) (key : bytes) : bytes :=
  if server then f_data f else MaskScalar (f_data f) key 0.
Definition frame_wire (server : bool) (f : aframe) (key : bytes) : bytes :=
  ws_enc (frame_header server f key) ++ frame_body server f key.

(** Frames that may be sent. *)
Definition frame_wf (f : aframe) : Prop :=
  0 <= f_op f < 16 /\ zlen (f_data f) <= maxAlloc /\ bytes_ok (f_data f)
  /\ (IsControl (f_op f) = true -> f_fin f = true /\ zlen (f_data f) <= 125).
Definition key_ok (key : bytes) : Prop := bytes_ok key /\ zlen key = 4.

(** [w] is an image of the frame, under some masking key. *)
Definition sent (server : bool) (f : aframe) (w : bytes) : Prop := exists key, key_ok key /\ w = frame_wire server f key.

Lemma key_of_ok m : key_ok (key_of m).
Proof.
  unfold key_ok, key_of. split; [apply bytes_ok_rev, be_put_ok|]. unfold zlen. by rewrite length_rev, be_put_length.
Qed.

Lemma frame_header_wf server f key : frame_wf f -> key_ok key -> header_wf (frame_header server f key).
Proof.
  intros (Hop & Hl & Hd & Hc) [Hk Hkl]. pose proof (zlen_nonneg (f_data f)).
  unfold maxAlloc in Hl. unfold header_wf, frame_header. cbn -[zlen zero_key]. split_and!; try lia; try (by destruct server).
  - destruct server; [by_decide|done].
  - unfold check_control. cbn -[zlen IsControl]. destruct (IsControl (f_op f)); [|done].
    destruct Hc as [-> Hc]; [done|]. cbn [negb]. by replace (zlen (f_data f) >? 125) with false by lia.
Qed.

Lemma frame_body_zlen server f key : zlen (frame_body server f key) = zlen (f_data f).
Proof. unfold frame_body. destruct server; [done|apply MaskScalar_zlen]. Qed.

(** The fields writing does not touch. *)
Definition same_conn (c c' : Conn) : Prop :=
  isServer c' = isServer c /\ state c' = state c /\ readLimit c' = readLimit c /\ skipMaskCheck c' = skipMaskCheck c
  /\ enableDeflate c' = enableDeflate c /\ pingHandler c' = pingHandler c /\ pongHandler c' = pongHandler c
  /\ closeHandler c' = closeHandler c /\ seenClose c' = seenClose c /\ fragmentOpcode c' = fragmentOpcode c
  /\ fragmentBuf c' = fragmentBuf c /\ fragmentRsv1 c' = fragmentRsv1 c /\ maskRand c' = maskRand c
  /\ rd c' = rd c /\ writeResult c' = writeResult c /\ transportClosed c' = transportClosed c
  /\ closeCalls c' = closeCalls c.

Lemma writeFrameLocked_wire c fin rsv1 op data :
  let f := mkFrame fin rsv1 op data in
  frame_wf f ->
  let '(c', r) := writeFrameLocked c fin rsv1 op data in
  same_conn c c' /\ (exists w, written c' = written c ++ [w] /\ sent (isServer c) f w)
  /\ r = match writeResult c (zlen (written c')) with None => Ok tt | Some e => Err e end.
Proof.
  intros f Hf. unfold writeFrameLocked.
  set (key := key_of (maskRand c (maskCount c))). pose proof (key_of_ok (maskRand c (maskCount c))) as Hk. fold key in Hk.
  pose proof (frame_header_wf (isServer c) f key Hf Hk) as Hwf. pose proof (ws_enc_zlen _ Hwf) as HL.
  pose proof (zlen_nonneg data). pose proof (zlen_nonneg (ws_enc (frame_header (isServer c) f key))).
  set (c1 := if negb (isServer c) then { c with maskCount := maskCount c + 1 } else c).
  match goal with |- context [if negb (isServer c) then (?a, ?x) else (?b, ?y)] =>
    replace (if negb (isServer c) then (a, x) else (b, y)) with (c1, frame_header (isServer c) f key)
      by (unfold c1, frame_header; by destruct (isServer c)) end.
  assert (H1 : same_conn c c1 /\ written c1 = written c) by (unfold c1, same_conn; destruct (negb (isServer c)); by split_and!).
  clearbody c1. set (h := frame_header (isServer c) f key) in *.
  set (c2 := if zlen (writeFrameBuf c1) <? _ then _ else c1).
  assert (H2 : same_conn c c2 /\ written c2 = written c /\ HeaderLen h + zlen data <= zlen (writeFrameBuf c2)).
  { unfold c2. destruct (_ <? _) eqn:E; bool_simpl;
      (split; [exact (proj1 H1)|split; [exact (proj2 H1)|]]); [|lia]. unfold zlen in *.
    cbn -[HeaderLen replicate Z.add]. rewrite length_replicate. lia. }
  clearbody c2. destruct H2 as (Hs & Hw & Hl).
  rewrite WriteHeader_enc by (done || rewrite zlen_ztake; lia).
  rewrite (zdrop_all (ztake _ _)), app_nil_r by (rewrite zlen_ztake; lia).
  assert (Eb : (if Masked h then mask_le data (MaskKey h) else data) = frame_body (isServer c) f key).
  { unfold h, frame_header, frame_body. cbn. destruct (isServer c); [done|]. cbn.
    apply MaskWithOffset_scalar; [apply Hf|apply Hk..]. }
  rewrite Eb. split; [exact Hs|split].
  - exists (frame_wire (isServer c) f key). cbn [written]. rewrite Hw. split; [done|]. by exists key.
  - assert (E : writeResult c2 = writeResult c) by apply Hs.
    exact (f_equal (fun g : Z -> option ws_error =>
      match g (zlen (written c2 ++ [ws_enc h ++ frame_body (isServer c) f key])) with
      | None => @Ok ws_error unit tt | Some e => Err e end) E).
Qed.

(** ** Reading a frame that was sent *)

(** The header as the reader gets it. *)
Definition got_header (server : bool) (f : aframe) (key : bytes) : Header :=
  { frame_header server f key with Length := zlen (f_data f) }.

Lemma read_header_wire c server f key tail e :
  frame_wf f -> key_ok key -> state c <> StateClosed -> rd c = mkReader (frame_wire server f key ++ tail) e ->
  read_header c = ({ c with rd := mkReader (frame_body server f key ++ tail) e }, Ok (got_header server f key)).
Proof.
  intros Hf Hk Hs Hr. unfold read_header, state_is. rewrite bool_decide_eq_false_2 by done. rewrite Hr.
  unfold frame_wire. rewrite <- app_assoc, ReadHeader_enc by by apply frame_header_wf. done.
Qed.

Lemma read_payload_wire c server f key tail e :
  frame_wf f -> key_ok key -> rd c = mkReader (frame_body server f key ++ tail) e ->
  read_payload c (got_header server f key) = ({ c with rd := mkReader tail e }, Ok (f_data f)).
Proof.
  intros Hf [Hk Hkl] Hr. unfold read_payload. change (PayloadLen (got_header server f key)) with (zlen (f_data f)).
  pose proof (zlen_nonneg (f_data f)). destruct (zlen (f_data f) >? 0) eqn:E; bool_simpl.
  - rewrite Hr, <- (frame_body_zlen server f key), ReadFull_app. f_equal. f_equal.
    unfold frame_body. cbn. destruct server; cbn; [done|]. unfold mask_le, Mask.
    rewrite MaskWithOffset_scalar; [apply MaskScalar_involutive| |done|done].
    apply MaskScalar_ok; [apply Hf|done|done].
  - assert (Ez : f_data f = []) by (apply zlen_zero; lia). rewrite Ez.
    assert (Eb : frame_body server f key = []).
    { apply zlen_zero. rewrite frame_body_zlen, Ez. done. }
    rewrite Eb in Hr. cbn [app] in Hr. rewrite <- Hr. done.
Qed.

(** A reader between two frames: [cur] is the message being assembled, [data]
    what is left to read. *)
Definition ready (server deflate : bool) (L : Z) (cur : option (Z * bool * bytes)) (data : bytes) (c : Conn) : Prop :=
  isServer c = server /\ state c = StateOpen /\ readLimit c = L /\ enableDeflate c = deflate /\ seenClose c = false
  /\ (pingHandler c = HNone \/ pingHandler c = HReply) /\ pongHandler c = HNone /\ (forall k, writeResult c k = None)
  /\ rd c = mkReader data IoEOF
  /\ match cur with
     | None => fragmentOpcode c = 0 /\ fragmentBuf c = []
     | Some (op, comp, buf) => op <> 0 /\ fragmentOpcode c = op /\ fragmentRsv1 c = comp /\ fragmentBuf c = buf
     end.

(** Frames a reader with these settings accepts. *)
Definition acceptable (deflate : bool) (L : Z) (cur : option (Z * bool * bytes)) (f : aframe) : Prop :=
  frame_wf f /\ IsValid (f_op f) = true
  /\ (f_rsv1 f = true -> deflate = true /\ IsControl (f_op f) = false /\ f_op f <> OpcodeContinuation)
  /\ (let n := zlen (f_data f) + (if IsControl (f_op f) then 0 else match cur with Some (_, _, buf) => zlen buf | None => 0 end) in
      n <= maxAlloc /\ (L > 0 -> n <= L)).

Lemma valid_not_reserved op : IsValid op = true -> IsReserved op = false.
Proof.
  unfold IsValid, IsReserved. rewrite !orb_true_iff, !Z.eqb_eq.
  intros [[[[[->| ->]| ->]| ->]| ->]| ->]; done.
Qed.

(** The checks all pass. *)
Lemma checks_pass server deflate L cur data c f key :
  ready server deflate L cur data c -> acceptable deflate L cur f ->
  let h := got_header (negb server) f key in
  opt_or (check_frame c h) (opt_or (check_rsv1 h) (check_control_frame h)) = None /\ check_limit c h = None.
Proof.
  intros (R1 & R2 & R3 & R4 & R5 & _ & _ & _ & _ & Rc) (Hf & Hv & Hr & _ & Hl) h. split.
  - unfold check_frame, check_rsv1, check_control_frame, h. cbn -[IsValid IsReserved IsControl zlen].
    rewrite Hv, (valid_not_reserved _ Hv), R1, R4, R5. cbn -[IsValid IsReserved IsControl zlen].
    assert (E1 : negb (skipMaskCheck c) && server && negb (negb (negb server)) = false)
      by (destruct (skipMaskCheck c), server; done).
    assert (E2 : negb (skipMaskCheck c) && negb server && negb (negb server) = false)
      by (destruct (skipMaskCheck c), server; done).
    rewrite E1, E2. destruct Hf as (_ & _ & _ & Hc).
    assert (E3 : check_control_frame h = None).
    { unfold check_control_frame, h. cbn -[IsControl zlen]. destruct (IsControl (f_op f)); [|done].
      destruct Hc as [-> Hc]; [done|]. cbn [negb]. by replace (zlen (f_data f) >? 125) with false by lia. }
    unfold check_control_frame, h in E3. cbn -[IsControl zlen] in E3. rewrite E3.
    destruct (f_rsv1 f); [|done]. destruct Hr as (-> & -> & Hne); [done|]. cbn -[zlen].
    by replace (f_op f =? OpcodeContinuation) with false by lia.
  - unfold check_limit, h. cbn -[IsControl zlen]. rewrite R3. pose proof (zlen_nonneg (f_data f)).
    assert (Hb : zlen (fragmentBuf c) = match cur with Some (_, _, buf) => zlen buf | None => 0 end).
    { destruct cur as [[[op comp] buf]|]; [by destruct Rc as (_ & _ & _ & ->)|by destruct Rc as (_ & ->)]. }
    rewrite Hb. destruct (L >? 0) eqn:EL; [|by rewrite andb_false_r]. bool_simpl. specialize (Hl ltac:(lia)).
    pose proof (zlen_nonneg (fragmentBuf c)). destruct (IsControl (f_op f)); cbn [negb andb].
    + by replace (zlen (f_data f) >? L) with false by lia.
    + replace (zlen (f_data f) >? L) with false by lia. rewrite <- Hb in *.
      pose proof (i64_le (zlen (fragmentBuf c) + zlen (f_data f)) ltac:(lia)).
      by replace (i64 _ >? L) with false by lia.
Qed.

Lemma ready_same server deflate L cur data c c' :
  ready server deflate L cur data c -> same_conn c c' -> ready server deflate L cur data c'.
Proof.
  intros (R1 & R2 & R3 & R4 & R5 & R6 & R7 & R8 & R9 & R10)
    (S1 & S2 & S3 & S4 & S5 & S6 & S7 & S8 & S9 & S10 & S11 & S12 & S13 & S14 & S15 & S16 & S17).
  unfold ready. rewrite S1, S2, S3, S5, S6, S7, S9, S10, S11, S12, S14, S15. by split_and!.
Qed.
Lemma ready_rd server deflate L cur data tail c :
  ready server deflate L cur data c -> ready server deflate L cur tail { c with rd := mkReader tail IoEOF }.
Proof.
  intros (R1 & R2 & R3 & R4 & R5 & R6 & R7 & R8 & R9 & R10). unfold ready.
  destruct c. cbn in *. by split_and!.
Qed.

(** A complete message: what the reader returns for it, if it is acceptable. *)
Definition deliver (L op : Z) (compressed : bool) (payload : bytes) : option (Z * bytes) :=
  match (if compressed then DecompressDeflate payload L else Ok payload) with
  | Ok p => if (op =? OpcodeText) && negb (utf8_Valid p) then None else Some (op, p)
  | _ => None
  end.

Lemma finish_deliver c op comp payload m :
  deliver (readLimit c) op comp payload = Some m -> finish_message c op comp payload = (c, Ok m).
Proof.
  unfold deliver, finish_message. destruct (if comp then _ else _) as [p|e|]; [|done..].
  destruct (_ && _); [done|]. by intros [= <-].
Qed.

(** ** From frames to messages

    Control frames may stand anywhere, in the middle of a fragmented message
    too. *)
Inductive frames_msgs (deflate : bool) (L : Z) :
    option (Z * bool * bytes) -> list aframe -> list (Z * bytes) -> Prop :=
| FM_end cur : frames_msgs deflate L cur [] []
| FM_control cur f fs ms :
    acceptable deflate L cur f -> f_op f = OpcodePing \/ f_op f = OpcodePong ->
    frames_msgs deflate L cur fs ms -> frames_msgs deflate L cur (f :: fs) ms
| FM_whole f fs m ms :
    acceptable deflate L None f -> f_op f = OpcodeText \/ f_op f = OpcodeBinary -> f_fin f = true ->
    deliver L (f_op f) (f_rsv1 f) (f_data f) = Some m ->
    frames_msgs deflate L None fs ms -> frames_msgs deflate L None (f :: fs) (m :: ms)
| FM_first f fs ms :
    acceptable deflate L None f -> f_op f = OpcodeText \/ f_op f = OpcodeBinary -> f_fin f = false ->
    frames_msgs deflate L (Some (f_op f, f_rsv1 f, f_data f)) fs ms -> frames_msgs deflate L None (f :: fs) ms
| FM_next op comp buf f fs ms :
    acceptable deflate L (Some (op, comp, buf)) f -> f_op f = OpcodeContinuation -> f_fin f = false ->
    frames_msgs deflate L (Some (op, comp, buf ++ f_data f)) fs ms ->
    frames_msgs deflate L (Some (op, comp, buf)) (f :: fs) ms
| FM_last op comp buf f fs m ms :
    acceptable deflate L (Some (op, comp, buf)) f -> f_op f = OpcodeContinuation -> f_fin f = true ->
    deliver L op comp (buf ++ f_data f) = Some m ->
    frames_msgs deflate L None fs ms ->
    frames_msgs deflate L (Some (op, comp, buf)) (f :: fs) (m :: ms).

Section Pass.
Context (server deflate : bool) (L : Z) (cur : option (Z * bool * bytes)) (f : aframe) (w tail : bytes) (c : Conn).
Context (Hready : ready server deflate L cur (w ++ tail) c).
Context (Hacc : acceptable deflate L cur f).
Context (Hsent : sent (negb server) f w).

(** The connection once the frame is read, and the loop body from there. *)
Let c1 : Conn := { c with rd := mkReader tail IoEOF }.

Lemma pass_start :
  exists c0 key, key_ok key
  /\ (let h := got_header (negb server) f key in
      read_payload c0 h = (c1, Ok (f_data f)) /\ make_payload (PayloadLen h) c0 h = (c1, Ok (f_data f)) /\ fragmentOpcode c0 = fragmentOpcode c
      /\ ReadMessage_pass c =
         if IsControl (f_op f) then let '(c, r) := dispatch_control c0 h in (c, let* _ := r in Ok None)
         else if f_fin f && (fragmentOpcode c0 =? 0) then
           let '(c, m) := whole_message 0 c0 h in (c, let* m := m in Ok (Some m))
         else fragment c0 h).
Proof using Hready Hacc Hsent.
  destruct Hsent as (key & Hk & ->). pose proof Hready as (_ & R2 & _ & _ & _ & _ & _ & _ & R9 & _).
  pose proof Hacc as (Hf & _). set (c0 := { c with rd := mkReader (frame_body (negb server) f key ++ tail) IoEOF }).
  exists c0, key. split; [done|]. cbn zeta. split_and!.
  - by rewrite (read_payload_wire c0 (negb server) f key tail IoEOF Hf Hk).
  - unfold make_payload. change (PayloadLen (got_header (negb server) f key)) with (zlen (f_data f)).
    destruct Hf as (? & Hl & Hf'). test_false (zlen (f_data f) >? maxAlloc).
    by rewrite (read_payload_wire c0 (negb server) f key tail IoEOF) by done.
  - done.
  - unfold ReadMessage_pass. rewrite (read_header_wire c (negb server) f key tail IoEOF Hf Hk) by (done || by rewrite R2).
    fold c0. destruct (checks_pass server deflate L cur (frame_body (negb server) f key ++ tail) c0 f key) as [E1 E2].
    + eapply ready_rd. exact Hready.
    + done.
    + rewrite E1, E2. done.
Qed.

Lemma pass_control :
  f_op f = OpcodePing \/ f_op f = OpcodePong ->
  exists c', ReadMessage_pass c = (c', Ok None) /\ ready server deflate L cur tail c'.
Proof using Hready Hacc Hsent.
  intros Hop. destruct pass_start as (c0 & key & Hk & Hp & _ & _ & ->).
  pose proof (ready_rd _ _ _ _ _ tail _ Hready) as R1. fold c1 in R1.
  pose proof R1 as (_ & _ & _ & _ & _ & R6 & R7 & R8 & _).
  assert (Ec : IsControl (f_op f) = true) by by destruct Hop as [-> | ->].
  rewrite Ec. unfold dispatch_control. rewrite Hp. change (Opcode (got_header (negb server) f key)) with (f_op f).
  destruct Hop as [E | E]; rewrite E; cbn [Z.eqb Pos.eqb].
  - change (OpcodePing =? OpcodePing) with true. cbn iota. unfold run_handler. destruct R6 as [-> | ->]; [by exists c1|].
    unfold writeControlLocked.
    assert (Hf : frame_wf (mkFrame true false OpcodePong (f_data f))).
    { destruct Hacc as ((_ & Hl & Hd & Hc) & _). destruct (Hc Ec). unfold frame_wf. cbn -[zlen].
      split_and!; try done; lia. }
    pose proof (writeFrameLocked_wire c1 true false OpcodePong (f_data f) Hf) as H.
    destruct (writeFrameLocked c1 true false OpcodePong (f_data f)) as [c' r]. destruct H as (Hs & _ & ->).
    exists c'. rewrite R8. split; [done|]. by eapply ready_same.
  - change (OpcodePong =? OpcodePing) with false. change (OpcodePong =? OpcodePong) with true. cbn iota.
    rewrite R7. by exists c1.
Qed.

Lemma data_op op : op = OpcodeText \/ op = OpcodeBinary -> IsControl op = false /\ (op =? OpcodeContinuation) = false /\ op <> 0.
Proof using. by intros [-> | ->]. Qed.

Lemma pass_whole m :
  cur = None -> f_op f = OpcodeText \/ f_op f = OpcodeBinary -> f_fin f = true ->
  deliver L (f_op f) (f_rsv1 f) (f_data f) = Some m ->
  exists c', ReadMessage_pass c = (c', Ok (Some m)) /\ ready server deflate L None tail c'.
Proof using Hready Hacc Hsent.
  intros Ecur Hop Hfin Hd. destruct pass_start as (c0 & key & Hk & _ & Hp & Eo & ->).
  pose proof (ready_rd _ _ _ _ _ tail _ Hready) as R1. fold c1 in R1.
  destruct (data_op _ Hop) as (E1 & E2 & E3). pose proof Hready as (_ & _ & R3 & _ & _ & _ & _ & _ & _ & Rc).
  rewrite Ecur in Rc, R1. destruct Rc as [Ro _]. rewrite E1, Hfin, Eo, Ro. cbn [andb Z.eqb].
  unfold whole_message. change (Opcode (got_header (negb server) f key)) with (f_op f).
  change (Rsv1 (got_header (negb server) f key)) with (f_rsv1 f). rewrite E2, Z.add_0_r, Hp.
  rewrite (finish_deliver c1 _ _ _ m); [by exists c1|].
  replace (readLimit c1) with L by (symmetry; exact R3). done.
Qed.

(** The fragment is appended to what was there. *)
Lemma pass_fragment :
  f_fin f && (fragmentOpcode c =? 0) = false -> IsControl (f_op f) = false ->
  exists h, Opcode h = f_op f /\ Rsv1 h = f_rsv1 f /\ Fin h = f_fin f /\
  ReadMessage_pass c =
    match check_fragment c1 h with
    | Some (reason, err) => (writeProtocolErrorAndClose c1 StatusProtocolError (bytes_of_string reason), Err err)
    | None =>
        let c2 := begin_fragment c1 h in
        let c3 := { c2 with fragmentBuf := fragmentBuf c2 ++ f_data f } in
        if Fin h then
          let '(c, m) := finish_message { c3 with fragmentOpcode := 0; fragmentBuf := []; fragmentRsv1 := false }
                           (fragmentOpcode c3) (fragmentRsv1 c3) (fragmentBuf c3) in
          (c, let* m := m in Ok (Some m))
        else (c3, Ok None)
    end.
Proof using Hready Hacc Hsent.
  intros Ef Ec. destruct pass_start as (c0 & key & Hk & _ & Hp & Eo & ->). exists (got_header (negb server) f key).
  split; [done|]. split; [done|]. split; [done|].
  rewrite Ec, Eo, Ef. unfold fragment. rewrite Hp. cbv zeta.
  assert (Hb : zlen (fragmentBuf (begin_fragment c1 (got_header (negb server) f key))) + zlen (f_data f) <= maxAlloc).
  { destruct Hacc as (_ & _ & _ & Hl & _). rewrite Ec in Hl. pose proof (zlen_nonneg (fragmentBuf c)).
    assert (Hcur : zlen (fragmentBuf c) = match cur with Some (_, _, buf) => zlen buf | None => 0 end).
    { pose proof Hready as (_ & _ & _ & _ & _ & _ & _ & _ & _ & Rc).
      destruct cur as [[[op comp] buf]|]; [by destruct Rc as (_ & _ & _ & ->)|by destruct Rc as (_ & ->)]. }
    rewrite <- Hcur in Hl. unfold begin_fragment.
    destruct (Opcode (got_header (negb server) f key) =? OpcodeContinuation).
    - change (fragmentBuf c1) with (fragmentBuf c). lia.
    - change (zlen (fragmentBuf _)) with 0. lia. }
  by test_false (zlen (fragmentBuf (begin_fragment c1 (got_header (negb server) f key))) + zlen (f_data f) >? maxAlloc).
Qed.

Lemma pass_first :
  cur = None -> f_op f = OpcodeText \/ f_op f = OpcodeBinary -> f_fin f = false ->
  exists c', ReadMessage_pass c = (c', Ok None)
    /\ ready server deflate L (Some (f_op f, f_rsv1 f, f_data f)) tail c'.
Proof using Hready Hacc Hsent.
  intros Ecur Hop Hfin. destruct (data_op _ Hop) as (E1 & E2 & E3).
  pose proof Hready as (R1 & R2 & R3 & R4 & R5 & R6 & R7 & R8 & R9 & Rc).
  destruct pass_fragment as (h & Ho & Hr & Hfi & ->); [by rewrite Hfin|done|].
  rewrite Ecur in Rc. destruct Rc as [Ro Rb]. unfold check_fragment. rewrite Ho, E2.
  replace (fragmentOpcode c1 =? 0) with true by (symmetry; apply Z.eqb_eq; exact Ro). cbn [negb].
  unfold begin_fragment. rewrite Ho, E2, Hfi, Hfin, Hr. eexists. split; [reflexivity|].
  unfold ready, c1. destruct c. cbn in *. by split_and!.
Qed.

Lemma pass_next op comp buf :
  cur = Some (op, comp, buf) -> f_op f = OpcodeContinuation -> f_fin f = false ->
  exists c', ReadMessage_pass c = (c', Ok None) /\ ready server deflate L (Some (op, comp, buf ++ f_data f)) tail c'.
Proof using Hready Hacc Hsent.
  intros Ecur Hop Hfin. pose proof Hready as (R1 & R2 & R3 & R4 & R5 & R6 & R7 & R8 & R9 & Rc).
  destruct pass_fragment as (h & Ho & Hr & Hfi & ->); [by rewrite Hfin|by rewrite Hop|].
  rewrite Ecur in Rc. destruct Rc as (Rn & Ro & Rr & Rb). unfold check_fragment, begin_fragment. rewrite Ho, Hop, Z.eqb_refl.
  replace (fragmentOpcode c1 =? 0) with false by (symmetry; apply Z.eqb_neq; intros E; apply Rn; rewrite <- Ro; exact E).
  rewrite Hfi, Hfin. eexists. split; [reflexivity|].
  unfold ready, c1. destruct c. cbn in *. subst fragmentBuf0. by split_and!.
Qed.

Lemma pass_last op comp buf m :
  cur = Some (op, comp, buf) -> f_op f = OpcodeContinuation -> f_fin f = true ->
  deliver L op comp (buf ++ f_data f) = Some m ->
  exists c', ReadMessage_pass c = (c', Ok (Some m)) /\ ready server deflate L None tail c'.
Proof using Hready Hacc Hsent.
  intros Ecur Hop Hfin Hd. pose proof Hready as (R1 & R2 & R3 & R4 & R5 & R6 & R7 & R8 & R9 & Rc).
  rewrite Ecur in Rc. destruct Rc as (Rn & Ro & Rr & Rb).
  assert (En : (fragmentOpcode c =? 0) = false) by (apply Z.eqb_neq; by rewrite Ro).
  destruct pass_fragment as (h & Ho & Hr & Hfi & ->); [by rewrite En, andb_false_r|by rewrite Hop|].
  unfold check_fragment, begin_fragment. rewrite Ho, Hop, Z.eqb_refl.
  change (fragmentOpcode c1) with (fragmentOpcode c). rewrite En, Hfi, Hfin.
  destruct c. unfold c1. cbn in R3, R1, R2, R4, R5, R6, R7, R8, R9, Ro, Rr, Rb. cbn -[finish_message]. subst.
  rewrite (finish_deliver _ _ _ _ m) by exact Hd. eexists. split; [reflexivity|].
  unfold ready. cbn. by split_and!.
Qed.
End Pass.

(** ** Reading a sequence of frames *)

(** The calls of [ReadMessage] an application makes: until an error, at most [n]. *)
Fixpoint read_messages (n : nat) (c : Conn) : Conn * (list (Z * bytes) * option ws_error) :=
  match n with
  | O => (c, ([], None))
  | S n' =>
      match ReadMessage c with
      | (c, Some (Ok m)) => let '(c, (ms, e)) := read_messages n' c in (c, (m :: ms, e))
      | (c, Some (Err e)) => (c, ([], Some e))
      | (c, _) => (c, ([], None))
      end
  end.

Lemma frame_wire_length server f key : (2 <= List.length (frame_wire server f key))%nat.
Proof.
  unfold frame_wire, ws_enc, len_enc. rewrite length_app. repeat case_match; cbn [List.length app]; lia.
Qed.

Lemma pass_eof server deflate L cur c :
  ready server deflate L cur [] c ->
  exists c', ReadMessage_pass c = (c', Err IoEOF) /\ state c' = StateClosed /\ rd c' = mkReader [] IoEOF.
Proof.
  intros (_ & R2 & _ & _ & _ & _ & _ & _ & R9 & _). unfold ReadMessage_pass, read_header, state_is.
  rewrite bool_decide_eq_false_2 by by rewrite R2. rewrite R9. by eexists.
Qed.

(** One call returns the next message, if there is one, and leaves the frames
    after it. *)
Lemma next_message server deflate L cur fs ms :
  frames_msgs deflate L cur fs ms -> forall ws c fuel,
  Forall2 (sent (negb server)) fs ws -> ready server deflate L cur (concat ws) c -> (List.length fs < fuel)%nat ->
  match ms with
  | [] => exists c', read_loop ReadMessage_pass fuel c = (c', Some (Err IoEOF)) /\ state c' = StateClosed
  | m :: ms' => exists c' fs' ws', read_loop ReadMessage_pass fuel c = (c', Some (Ok m))
      /\ frames_msgs deflate L None fs' ms' /\ Forall2 (sent (negb server)) fs' ws'
      /\ ready server deflate L None (concat ws') c'
  end.
Proof.
  induction 1 as [cur|cur f fs ms Ha Ho Hm IH|f fs m ms Ha Ho Hf Hd Hm IH|f fs ms Ha Ho Hf Hm IH
    |op comp buf f fs ms Ha Ho Hf Hm IH|op comp buf f fs m ms Ha Ho Hf Hd Hm IH];
    intros ws c [|fuel] Hs Hr Hl; cbn [List.length] in Hl; try lia; cbn [read_loop].
  - apply Forall2_nil_inv_l in Hs as ->. destruct (pass_eof _ _ _ _ _ Hr) as (c' & -> & Hc & _). by exists c'.
  - apply Forall2_cons_inv_l in Hs as (w & ws' & Hw & Hs & ->).
    destruct (pass_control _ _ _ _ _ _ _ _ Hr Ha Hw Ho) as (c' & -> & Hr'). apply (IH ws' c' fuel Hs Hr'). lia.
  - apply Forall2_cons_inv_l in Hs as (w & ws' & Hw & Hs & ->).
    destruct (pass_whole _ _ _ _ _ _ _ _ Hr Ha Hw m eq_refl Ho Hf Hd) as (c' & -> & Hr'). by exists c', fs, ws'.
  - apply Forall2_cons_inv_l in Hs as (w & ws' & Hw & Hs & ->).
    destruct (pass_first _ _ _ _ _ _ _ _ Hr Ha Hw eq_refl Ho Hf) as (c' & -> & Hr'). apply (IH ws' c' fuel Hs Hr'). lia.
  - apply Forall2_cons_inv_l in Hs as (w & ws' & Hw & Hs & ->).
    destruct (pass_next _ _ _ _ _ _ _ _ Hr Ha Hw op comp buf eq_refl Ho Hf) as (c' & -> & Hr').
    apply (IH ws' c' fuel Hs Hr'). lia.
  - apply Forall2_cons_inv_l in Hs as (w & ws' & Hw & Hs & ->).
    destruct (pass_last _ _ _ _ _ _ _ _ Hr Ha Hw op comp buf m eq_refl Ho Hf Hd) as (c' & -> & Hr'). by exists c', fs, ws'.
Qed.

Lemma sent_length server fs ws :
  Forall2 (sent server) fs ws -> (2 * List.length fs <= List.length (concat ws))%nat.
Proof.
  induction 1 as [|f w fs ws (key & _ & ->) _ IH]; cbn [concat List.length]; [lia|].
  rewrite length_app. pose proof (frame_wire_length server f key). lia.
Qed.

Lemma read_messages_S n c :
  read_messages (S n) c =
  match ReadMessage c with
  | (c, Some (Ok m)) => let '(c, (ms, e)) := read_messages n c in (c, (m :: ms, e))
  | (c, Some (Err e)) => (c, ([], Some e))
  | (c, _) => (c, ([], None))
  end.
Proof. done. Qed.

Lemma read_all_frames server deflate L fs ms ws c :
  frames_msgs deflate L None fs ms -> Forall2 (sent (negb server)) fs ws -> ready server deflate L None (concat ws) c ->
  exists c', read_messages (S (List.length ms)) c = (c', (ms, Some IoEOF)) /\ state c' = StateClosed.
Proof.
  revert fs ws c. induction ms as [|m ms IH]; intros fs ws c Hm Hs Hr; rewrite read_messages_S;
    unfold ReadMessage, read_fuel; pose proof Hr as (_ & _ & _ & _ & _ & _ & _ & _ & -> & _); cbn [rd_data];
    pose proof (sent_length _ _ _ Hs) as Hl;
    pose proof (next_message _ _ _ _ _ _ Hm ws c (S (List.length (concat ws))) Hs Hr ltac:(lia)) as H; cbv beta iota in H.
  - destruct H as (c' & E & Hc). rewrite E. by exists c'.
  - destruct H as (c' & fs' & ws' & E & Hm' & Hs' & Hr'). rewrite E.
    destruct (IH fs' ws' c' Hm' Hs' Hr') as (c'' & E' & Hc). change (List.length (m :: ms)) with (S (List.length ms)).
    rewrite E'. by exists c''.
Qed.

(** ** Writers

    A call is one or several critical sections of [writeMu]: the unit of
    interleaving between goroutines. *)
Inductive wstep := SData (fin rsv1 : bool) (op : Z) (data : bytes) | SControl (op : Z) (data : bytes).

Definition run_step (c : Conn) (s : wstep) : Conn * res ws_error unit :=
  match s with
  | SData fin rsv1 op data => writeDataFrame c fin rsv1 op data
  | SControl op data => WriteControl c op data
  end.
Fixpoint run_steps (c : Conn) (ss : list wstep) : Conn * res ws_error unit :=
  match ss with
  | [] => (c, Ok tt)
  | s :: ss' =>
      let '(c, r) := run_step c s in
      match r with
      | Ok _ => run_steps c ss'
      | Err e => (c, Err e)
      | Panic => (c, Panic)
      end
  end.

(** The messages an application sends. *)
Inductive action := AMsg (t : Z) (data : bytes) | AFrag (t : Z) (frames : list bytes).

Definition run_action (c : Conn) (a : action) : Conn * res ws_error unit :=
  match a with
  | AMsg t data => WriteMessage c t data
  | AFrag t frames => WriteFragmentedMessage c t frames
  end.

Definition message_step (deflate : bool) (t : Z) (data : bytes) : wstep :=
  match (if deflate then CompressDeflate data else None) with
  | Some z => if zlen z <? zlen data then SData true true t z else SData true false t data
  | None => SData true false t data
  end.
Fixpoint frag_steps (op : Z) (frames : list bytes) : list wstep :=
  match frames with
  | [] => []
  | d :: frames' => SData (match frames' with [] => true | _ => false end) false op d :: frag_steps OpcodeContinuation frames'
  end.
Definition sections (deflate : bool) (a : action) : list wstep :=
  match a with
  | AMsg t data => [message_step deflate t data]
  | AFrag t [] => [message_step deflate t []]
  | AFrag t frames => frag_steps t frames
  end.
Definition action_type (a : action) : Z := match a with AMsg t _ | AFrag t _ => t end.
Definition action_msg (a : action) : Z * bytes :=
  match a with AMsg t data => (t, data) | AFrag t frames => (t, concat frames) end.

Lemma write_fragments_steps c op frames : write_fragments c op frames = run_steps c (frag_steps op frames).
Proof.
  revert c op. induction frames as [|d frames IH]; intros c op; [done|].
  cbn [write_fragments frag_steps run_steps run_step]. destruct (writeDataFrame _ _ _ _ _) as [c' [u|e|]]; [|done..]. apply IH.
Qed.
Lemma WriteMessage_step c t data :
  IsData t = true -> WriteMessage c t data = run_steps c [message_step (enableDeflate c) t data].
Proof.
  intros Ht. unfold WriteMessage, message_step. rewrite Ht. cbn [negb run_steps].
  assert (E : forall x, (let '(c', r) := run_step c x in
     match r with Ok _ => (c', Ok tt) | Err e => (c', Err e) | Panic => (c', Panic) end) = run_step c x).
  { intros x. by destruct (run_step c x) as [c' [[]|e|]]. }
  rewrite E. destruct (enableDeflate c); [destruct (CompressDeflate data); [destruct (_ <? _)|]|];
    cbn [run_step]; unfold writeDataFrame; by destruct (_ || _).
Qed.

(** A call is its critical sections, in every case, errors included. *)
Lemma run_action_steps c a :
  IsData (action_type a) = true -> run_action c a = run_steps c (sections (enableDeflate c) a).
Proof.
  destruct a as [t data|t frames]; cbn [action_type run_action sections]; intros Ht; [by apply WriteMessage_step|].
  unfold WriteFragmentedMessage. rewrite Ht. cbn [negb]. destruct frames; [by apply WriteMessage_step|].
  apply write_fragments_steps.
Qed.

Definition step_frame (s : wstep) : aframe :=
  match s with SData fin rsv1 op data => mkFrame fin rsv1 op data | SControl op data => mkFrame true false op data end.
Definition step_ok (s : wstep) : Prop :=
  frame_wf (step_frame s) /\ match s with SData _ _ _ _ => True | SControl op _ => IsControl op = true end.

(** A connection that can write. *)
Definition writable (server deflate : bool) (c : Conn) : Prop :=
  isServer c = server /\ enableDeflate c = deflate /\ state c = StateOpen /\ (forall k, writeResult c k = None).

Lemma run_step_open server deflate c s :
  writable server deflate c -> step_ok s ->
  let f := step_frame s in run_step c s = writeFrameLocked c (f_fin f) (f_rsv1 f) (f_op f) (f_data f).
Proof.
  intros (_ & _ & W3 & _) [Hf Hc]. destruct s as [fin rsv1 op data|op data]; cbn [step_frame f_fin f_rsv1 f_op f_data run_step].
  - unfold writeDataFrame, state_is. by rewrite !bool_decide_eq_false_2 by by rewrite W3.
  - unfold WriteControl, state_is. rewrite Hc. cbn [negb]. destruct Hf as (_ & _ & _ & H). cbn [f_op f_data step_frame] in H.
    destruct (H Hc). test_false (zlen data >? 125). by rewrite bool_decide_eq_false_2 by by rewrite W3.
Qed.

Lemma run_steps_sent server deflate ss c :
  writable server deflate c -> Forall step_ok ss ->
  exists c' ws, run_steps c ss = (c', Ok tt) /\ written c' = written c ++ ws
  /\ Forall2 (sent server) (map step_frame ss) ws /\ writable server deflate c'.
Proof.
  intros W Hs. revert c W. induction Hs as [|s ss Hs _ IH]; intros c W.
  - exists c, []. by rewrite app_nil_r.
  - cbn [run_steps map]. rewrite (run_step_open _ _ _ _ W Hs). cbn zeta. set (f := step_frame s).
    pose proof W as (W1 & W2 & W3 & W4). destruct Hs as [Hf _].
    pose proof (writeFrameLocked_wire c (f_fin f) (f_rsv1 f) (f_op f) (f_data f)) as H. cbn zeta in H.
    assert (Ef : mkFrame (f_fin f) (f_rsv1 f) (f_op f) (f_data f) = f) by by destruct f.
    rewrite Ef in H. specialize (H Hf).
    destruct (writeFrameLocked _ _ _ _ _) as [c1 r]. destruct H as (Hsame & (w & Hw & Hsent) & ->). rewrite W4.
    assert (Wc1 : writable server deflate c1).
    { destruct Hsame as (S1 & S2 & _ & _ & S5 & _ & _ & _ & _ & _ & _ & _ & _ & _ & S15 & _).
      unfold writable. rewrite S1, S2, S5, S15. done. }
    destruct (IH c1 Wc1) as (c' & ws & E & Hw' & Hs' & W'). exists c', (w :: ws). split; [done|].
    rewrite Hw', Hw, <- app_assoc. split; [done|]. split; [|done]. constructor; [by rewrite <- W1|done].
Qed.

(** What the connection relies on of the codec: [Flush] ends with the sync
    marker, and reading the flushed data, closed by an empty final block, gives
    the input back. *)
Definition flate_ok : Prop :=
  forall x z, bytes_ok x -> flate_flush x = Some z ->
  bytes_ok z /\ (exists y, z = y ++ flateTail) /\ flate_read (z ++ [0x01; 0x00; 0x00; 0xff; 0xff]) = (x, false).

(** Messages a peer with read limit [L] takes. *)
Definition data_ok (L t : Z) (data : bytes) : Prop :=
  bytes_ok data /\ zlen data <= maxAlloc /\ (L > 0 -> zlen data <= L) /\ (t = OpcodeText -> utf8_Valid data = true).
Definition action_ok (L : Z) (a : action) : Prop :=
  (action_type a = OpcodeText \/ action_type a = OpcodeBinary) /\ data_ok L (action_type a) (snd (action_msg a)).
Definition control_ok (L : Z) (s : wstep) : Prop :=
  match s with
  | SControl op data => (op = OpcodePing \/ op = OpcodePong) /\ bytes_ok data /\ zlen data <= 125 /\ (L > 0 -> zlen data <= L)
  | SData _ _ _ _ => False
  end.

(** The goroutines' critical sections in the order the lock grants them. *)
Inductive interleaving {A} : list A -> list A -> list A -> Prop :=
| I_nil : interleaving [] [] []
| I_left x l r s : interleaving l r s -> interleaving (x :: l) r (x :: s)
| I_right y l r s : interleaving l r s -> interleaving l (y :: r) (y :: s).

Lemma deliver_plain L t data : data_ok L t data -> deliver L t false data = Some (t, data).
Proof.
  intros (_ & _ & _ & Hu). unfold deliver. destruct (t =? OpcodeText) eqn:E; [|done]. bool_simpl. by rewrite Hu.
Qed.

Lemma CompressDeflate_inv x p :
  flate_ok -> bytes_ok x -> CompressDeflate x = Some p -> bytes_ok p /\ flate_read (p ++ flateReaderTail) = (x, false).
Proof.
  intros Hc Hx. unfold CompressDeflate. destruct (flate_flush x) as [z|] eqn:E; [|done].
  destruct (Hc x z Hx E) as (Hz & (y & ->) & Hr).
  assert (Hl : zlen (y ++ flateTail) = zlen y + 4) by (by rewrite zlen_app).
  pose proof (zlen_nonneg y). unfold has_suffix. rewrite Hl. change (zlen flateTail) with 4.
  test_true (zlen y + 4 >=? 4). test_true (4 <=? zlen y + 4). replace (zlen y + 4 - 4) with (zlen y) by lia.
  rewrite zdrop_app, bool_decide_eq_true_2 by done. cbn [andb]. rewrite ztake_app. intros [= <-].
  apply bytes_ok_app in Hz as [Hy _]. split; [done|]. rewrite <- Hr. by rewrite <- app_assoc.
Qed.
Lemma deliver_compressed L t x p :
  flate_ok -> data_ok L t x -> CompressDeflate x = Some p -> deliver L t true p = Some (t, x).
Proof.
  intros Hc Hx Hp. pose proof Hx as (Hb & _ & Hl & _). destruct (CompressDeflate_inv x p Hc Hb Hp) as [_ Hr].
  assert (E : DecompressDeflate p L = Ok x).
  { unfold DecompressDeflate. rewrite Hr.
    assert (El : (L >? 0) && (zlen x >? L) = false) by (destruct (L >? 0) eqn:E; [bool_simpl; specialize (Hl ltac:(lia)); lia|done]).
    by rewrite El, El. }
  rewrite <- (deliver_plain L t x Hx). unfold deliver. by rewrite E.
Qed.

Lemma data_frame_ok deflate L cur fin rsv1 op data n :
  op = OpcodeText \/ op = OpcodeBinary \/ (op = OpcodeContinuation /\ rsv1 = false) ->
  (rsv1 = true -> deflate = true) -> bytes_ok data -> n + zlen data <= maxAlloc ->
  match cur with Some (_, _, buf) => zlen buf | None => 0 end = n -> (L > 0 -> n + zlen data <= L) ->
  acceptable deflate L cur (mkFrame fin rsv1 op data).
Proof.
  intros Hop Hr Hb Hl <- HL. unfold acceptable, frame_wf. cbn [f_op f_data f_fin f_rsv1].
  assert (E : IsControl op = false /\ IsValid op = true /\ 0 <= op < 16 /\ (op = OpcodeContinuation -> rsv1 = false)).
  { destruct Hop as [-> |[-> |[-> ->]]]; (split; [done|]); (split; [done|]); (split; [unfold OpcodeText, OpcodeBinary, OpcodeContinuation; lia|done]). }
  assert (Hn : 0 <= match cur with Some (_, _, buf) => zlen buf | None => 0 end)
    by (destruct cur as [[[? ?] buf]|]; [apply zlen_nonneg|done]).
  destruct E as (-> & -> & Ho & Hc). split_and!; try done; try lia.
  intros ->. split_and!; auto. intros E. by specialize (Hc E).
Qed.

Lemma message_frames deflate L t data rest ms :
  flate_ok -> t = OpcodeText \/ t = OpcodeBinary -> data_ok L t data ->
  frames_msgs deflate L None rest ms ->
  frames_msgs deflate L None (step_frame (message_step deflate t data) :: rest) ((t, data) :: ms).
Proof.
  intros Hc Ht Hd Hm. pose proof Hd as (Hb & Hl & HL & _).
  assert (Hplain : frames_msgs deflate L None (mkFrame true false t data :: rest) ((t, data) :: ms)).
  { apply FM_whole; try done; [apply (data_frame_ok _ _ _ _ _ _ _ 0); [tauto|done..]|]. by apply deliver_plain. }
  unfold message_step. destruct deflate; [|done]. destruct (CompressDeflate data) as [z|] eqn:E; [|done].
  destruct (zlen z <? zlen data) eqn:Ez; [|done]. bool_simpl.
  destruct (CompressDeflate_inv data z Hc Hb E) as [Hz _]. apply FM_whole; try done.
  - cbn [step_frame]. apply (data_frame_ok _ _ _ _ _ _ _ 0); [tauto|done|done|lia|done|intros; specialize (HL ltac:(lia)); lia].
  - by apply deliver_compressed.
Qed.

(** The frames after the first of a fragmented message. *)
Lemma later_frames deflate L t buf frames rest ms :
  frames <> [] -> data_ok L t (buf ++ concat frames) -> frames_msgs deflate L None rest ms ->
  frames_msgs deflate L (Some (t, false, buf)) (map step_frame (frag_steps OpcodeContinuation frames) ++ rest)
    ((t, buf ++ concat frames) :: ms).
Proof.
  revert buf. induction frames as [|d frames IH]; intros buf Hne Hd Hm; [done|]. cbn [concat] in Hd |- *.
  assert (Ha : forall fin, acceptable deflate L (Some (t, false, buf)) (mkFrame fin false OpcodeContinuation d)).
  { intros fin. destruct Hd as (Hb & Hl & HL & _). rewrite !zlen_app in *. rewrite !bytes_ok_app in Hb.
    pose proof (zlen_nonneg buf). pose proof (zlen_nonneg (concat frames)).
    apply (data_frame_ok _ _ _ _ _ _ _ (zlen buf)); [by auto|done|by apply Hb|lia|done|intros; specialize (HL ltac:(lia)); lia]. }
  cbn [frag_steps map app step_frame]. destruct frames as [|d' frames].
  - cbn [concat frag_steps map app] in *. rewrite app_nil_r in *. apply FM_last; try done. by apply deliver_plain.
  - apply FM_next; try done. rewrite app_assoc in *. by apply IH.
Qed.

Lemma action_frames deflate L a rest ms :
  flate_ok -> action_ok L a -> frames_msgs deflate L None rest ms ->
  frames_msgs deflate L None (map step_frame (sections deflate a) ++ rest) (action_msg a :: ms).
Proof.
  intros Hc [Ht Hd] Hm. destruct a as [t data|t frames]; cbn [action_type action_msg snd sections] in *; [by apply message_frames|].
  destruct frames as [|d [|d' frames]]; [by apply message_frames| |].
  - cbn [concat frag_steps map app step_frame] in *. rewrite app_nil_r in *. pose proof Hd as (Hb & Hl & HL & _).
    apply FM_whole; try done; [apply (data_frame_ok _ _ _ _ _ _ _ 0); [tauto|done..]|]. by apply deliver_plain.
  - change (concat (d :: d' :: frames)) with (d ++ concat (d' :: frames)) in *.
    change (frag_steps t (d :: d' :: frames)) with (SData false false t d :: frag_steps OpcodeContinuation (d' :: frames)).
    cbn [map step_frame]. pose proof Hd as (Hb & Hl & HL & _). rewrite bytes_ok_app in Hb. rewrite zlen_app in *.
    pose proof (zlen_nonneg d). pose proof (zlen_nonneg (concat (d' :: frames))).
    apply FM_first; try done.
    + apply (data_frame_ok _ _ _ _ _ _ _ 0); [tauto|done|by apply Hb|lia|done|intros; specialize (HL ltac:(lia)); lia].
    + by apply later_frames.
Qed.

Lemma actions_frames deflate L acts :
  flate_ok -> Forall (action_ok L) acts ->
  frames_msgs deflate L None (map step_frame (concat (map (sections deflate) acts))) (map action_msg acts).
Proof.
  intros Hc. induction 1 as [|a acts Ha _ IH]; [constructor|]. cbn [map concat]. rewrite map_app. by apply action_frames.
Qed.

Lemma control_acceptable deflate L cur s : control_ok L s -> acceptable deflate L cur (step_frame s) /\ step_ok s.
Proof.
  destruct s as [|op data]; [done|]. intros (Ho & Hb & Hl & HL). pose proof (zlen_nonneg data).
  assert (E : IsControl op = true /\ IsValid op = true /\ 0 <= op < 16)
    by (destruct Ho as [-> | ->]; split_and!; try done; unfold OpcodePing, OpcodePong; lia).
  destruct E as (E1 & E2 & E3). unfold acceptable, step_ok, frame_wf, maxAlloc. cbn [step_frame f_op f_data f_fin f_rsv1].
  rewrite E1. split_and!; try done; lia.
Qed.

(** Control frames of other goroutines change nothing. *)
Lemma interleaved_frames deflate L data ctl steps cur ms :
  interleaving data ctl steps -> Forall (control_ok L) ctl ->
  frames_msgs deflate L cur (map step_frame data) ms -> frames_msgs deflate L cur (map step_frame steps) ms.
Proof.
  intros Hi. revert cur ms. induction Hi as [|x l r s Hi IH|y l r s Hi IH]; intros cur ms Hc Hm; [done| |].
  - cbn [map] in *. inversion Hm; subst; [eapply FM_control|eapply FM_whole|eapply FM_first|eapply FM_next|eapply FM_last]; eauto.
  - apply Forall_cons_1 in Hc as [Hy Hc]. cbn [map]. apply FM_control; [by apply control_acceptable| |by apply IH].
    destruct y as [|op d]; [done|]. by destruct Hy as (Ho & _).
Qed.

Lemma frames_msgs_acceptable deflate L cur fs ms : frames_msgs deflate L cur fs ms -> Forall frame_wf fs.
Proof. induction 1; constructor; try done; by match goal with H : acceptable _ _ _ _ |- _ => apply H end. Qed.

Definition is_sdata (s : wstep) : Prop := match s with SData _ _ _ _ => True | SControl _ _ => False end.
Lemma sections_data deflate acts : Forall is_sdata (concat (map (sections deflate) acts)).
Proof.
  assert (Hm : forall t d, is_sdata (message_step deflate t d)) by (intros; unfold message_step; by repeat case_match).
  assert (Hf : forall frames op, Forall is_sdata (frag_steps op frames)) by (induction frames; intros; by constructor).
  induction acts as [|a acts IH]; [constructor|]. cbn [map concat]. apply Forall_app. split; [|done].
  destruct a as [t d|t [|d frames]]; cbn [sections]; first [by constructor|apply Hf].
Qed.
Lemma interleaved_ok L data ctl steps :
  interleaving data ctl steps -> Forall is_sdata data -> Forall (control_ok L) ctl ->
  Forall frame_wf (map step_frame steps) -> Forall step_ok steps.
Proof.
  induction 1 as [|x l r s Hi IH|y l r s Hi IH]; intros Hd Hc Hf; [constructor|..]; cbn [map] in Hf;
    apply Forall_cons_1 in Hf as [Hx Hf].
  - apply Forall_cons_1 in Hd as [Hd1 Hd]. constructor; [|auto]. by destruct x.
  - apply Forall_cons_1 in Hc as [Hy Hc]. constructor; [|auto]. by apply (control_acceptable false L None).
Qed.

(** ** What an iteration leaves alone

    [keeps c c']: the limit and the fragments are the same, and no input was
    invented. *)
Definition rd_le (r r' : reader) : Prop :=
  (bytes_ok (rd_data r) -> bytes_ok (rd_data r')) /\ (List.length (rd_data r') <= List.length (rd_data r))%nat.
Definition keeps (c c' : Conn) : Prop :=
  readLimit c' = readLimit c /\ fragmentOpcode c' = fragmentOpcode c /\ fragmentBuf c' = fragmentBuf c
  /\ rd_le (rd c) (rd c').

#[local] Instance keeps_preorder : PreOrder keeps.
Proof.
  split; unfold keeps, rd_le.
  - intros c. split_and!; auto.
  - intros a b c (A1 & A2 & A3 & A4 & A5) (B1 & B2 & B3 & B4 & B5). rewrite B1, B2, B3. split_and!; auto; lia.
Qed.

Lemma keeps_same c c' : same_conn c c' -> keeps c c'.
Proof.
  intros (_ & _ & S3 & _ & _ & _ & _ & _ & _ & S10 & S11 & _ & _ & S14 & _). unfold keeps, rd_le. rewrite S14. auto.
Qed.

(** The writers change nothing of it, whatever they write. *)
Lemma writeFrameLocked_keeps c fin rsv1 op data :
  let '(c', r) := writeFrameLocked c fin rsv1 op data in
  same_conn c c' /\ state c' = state c /\ r <> Panic.
Proof.
  unfold writeFrameLocked. set (p := if negb (isServer c) then _ else _).
  assert (H : same_conn c (fst p)) by (unfold p, same_conn; destruct (negb (isServer c)); split_and!; reflexivity).
  destruct p as [c1 h]. cbn [fst] in H. set (c2 := if _ <? _ then _ else c1).
  assert (H2 : same_conn c c2) by (unfold c2; destruct (_ <? _); exact H). clearbody c2. clear H.
  assert (Hp : WriteHeader (ztake (HeaderLen h) (writeFrameBuf c2)) h <> Panic).
  { unfold WriteHeader, check_control. repeat case_match; done. }
  destruct (WriteHeader _ _) as [[hd n]|e|]; [|split; [exact H2|split; [apply H2|done]]|done].
  split; [exact H2|split; [apply H2|]]. by destruct (writeResult _ _).
Qed.

Ltac keep := repeat first [reflexivity | eassumption | etransitivity; [eassumption|]].

Lemma write_keeps c fin rsv1 op data : keeps c (fst (writeFrameLocked c fin rsv1 op data)).
Proof.
  pose proof (writeFrameLocked_keeps c fin rsv1 op data) as H. destruct (writeFrameLocked _ _ _ _ _). apply keeps_same, H.
Qed.

Lemma fail_keeps c code reason : keeps c (writeProtocolErrorAndClose c code reason).
Proof.
  unfold writeProtocolErrorAndClose, writeControlFrame. set (c1 := { c with state := StateClosing }).
  match goal with |- context [writeFrameLocked c1 ?a ?b ?o ?p] =>
    pose proof (write_keeps c1 a b o p) as H; destruct (writeFrameLocked c1 a b o p) as [c' r] end.
  exact H.
Qed.
Lemma drain_keeps c n : keeps c (drainPayload c n).
Proof.
  unfold drainPayload. destruct (_ || _) eqn:E; [reflexivity|]. unfold keeps, rd_le, zdrop. cbn.
  split_and!; try done; [apply Forall_drop|]. rewrite length_drop. lia.
Qed.
Lemma reject_keeps c n code reason : keeps c (writeProtocolErrorAndClose (drainPayload c n) code reason).
Proof. etransitivity; [apply drain_keeps|apply fail_keeps]. Qed.

Lemma ReadFull_spec r n :
  let '(r', w) := ReadFull r n in
  rd_le r r' /\ w <> Panic
  /\ match w with
     | Ok w => zlen w = Z.max n 0 /\ (List.length (rd_data r') + List.length w = List.length (rd_data r))%nat
               /\ (bytes_ok (rd_data r) -> bytes_ok w)
     | _ => True
     end.
Proof.
  unfold ReadFull, rd_le. destruct r as [d e]. cbn -[zlen zdrop ztake Z.max].
  destruct (n <=? 0) eqn:E1; [|destruct (n <=? zlen d) eqn:E2]; bool_simpl; cbn -[zlen zdrop ztake Z.max].
  - change (zlen (@nil Z)) with 0. split_and!; try done; try lia. constructor.
  - unfold zdrop, ztake, zlen in *. rewrite length_drop, length_take. split_and!; try done; try lia.
    + apply Forall_drop.
    + apply Forall_take.
  - split_and!; [constructor|lia|done|done].
Qed.

Lemma read_payload_keeps c h :
  bytes_ok (rd_data (rd c)) -> key_ok (MaskKey h) -> 0 <= PayloadLen h ->
  let '(c', p) := read_payload c h in
  keeps c c'
  /\ match p with
     | Ok p => zlen p = PayloadLen h /\ bytes_ok p /\ state c' = state c
     | Err _ => state c' = StateClosed
     | Panic => False
     end.
Proof.
  intros Hb [Hk Hkl] Hn. unfold read_payload. destruct (PayloadLen h >? 0) eqn:E; bool_simpl.
  - pose proof (ReadFull_spec (rd c) (PayloadLen h)) as H. destruct (ReadFull _ _) as [r w]. destruct H as (Hr & Hp & Hw).
    destruct w as [w|e|]; [|by split_and!|done]. destruct Hw as (Hl & _ & Hok). specialize (Hok Hb).
    split; [by split_and!|]. unfold mask_le, Mask. destruct (Masked h); cbn zeta.
    + rewrite MaskWithOffset_scalar by done. rewrite MaskScalar_zlen. split_and!; try done; [lia|].
      by apply MaskScalar_ok.
    + split_and!; try done. lia.
  - split; [reflexivity|]. split_and!; try done; [unfold zlen; cbn; lia|constructor].
Qed.

Lemma run_handler_keeps c hd p : let '(c', r) := run_handler c hd p in keeps c c' /\ r <> Panic.
Proof.
  destruct hd as [| |f]; cbn [run_handler]; [by split| |split; [reflexivity|by destruct (f p)]].
  unfold writeControlLocked. pose proof (writeFrameLocked_keeps c true false OpcodePong p) as H.
  destruct (writeFrameLocked _ _ _ _ _). split; [apply keeps_same, H|apply H].
Qed.

Lemma ParseClosePayload_safe p : ParseClosePayload p <> Panic.
Proof.
  unfold ParseClosePayload. destruct (zlen p =? 0) eqn:E0; [done|]. destruct (zlen p =? 1) eqn:E1; [done|]. bool_simpl.
  pose proof (zlen_nonneg p). rewrite slice_ok by lia. cbn [res_bind]. by repeat case_match.
Qed.

Lemma handle_close_keeps c p : keeps c (fst (handle_close c p)).
Proof.
  unfold handle_close. set (c1 := { c with seenClose := true }). assert (H1 : keeps c c1) by exact (@PreOrder_Reflexive _ keeps _ c). clearbody c1.
  destruct (ParseClosePayload p) as [[code reason]|e|]; [|destruct (bool_decide _); cbn [fst]; (etransitivity; [exact H1|apply fail_keeps])|exact H1].
  cbn [fst]. set (c2 := if closeHandler c1 then _ else c1).
  assert (H2 : keeps c c2) by (unfold c2; destruct (closeHandler c1); exact H1). clearbody c2.
  set (c3 := if _ || _ then _ else c2). assert (H3 : keeps c c3); [|exact H3].
  unfold c3. destruct (_ || _); [|exact H2]. destruct (code =? _); unfold writeControlFrame;
    (etransitivity; [exact H2|]); set (c4 := { c2 with state := StateClosing }); apply (write_keeps c4).
Qed.

Lemma dispatch_control_keeps c h :
  bytes_ok (rd_data (rd c)) -> key_ok (MaskKey h) -> 0 <= PayloadLen h ->
  let '(c', r) := dispatch_control c h in keeps c c' /\ r <> Panic.
Proof.
  intros Hb Hk Hn. unfold dispatch_control. pose proof (read_payload_keeps c h Hb Hk Hn) as H.
  destruct (read_payload c h) as [c1 [p|e|]]; [|split; [apply H|done]|by destruct H]. destruct H as [H1 _].
  assert (Hh : forall hd, let '(c', r) := run_handler c1 hd p in keeps c c' /\ r <> Panic).
  { intros hd. pose proof (run_handler_keeps c1 hd p) as H. destruct (run_handler c1 hd p).
    split; [by etransitivity; [|apply H]|apply H]. }
  destruct (_ =? OpcodePing); [apply Hh|]. destruct (_ =? OpcodePong); [apply Hh|].
  pose proof (handle_close_keeps c1 p). destruct (handle_close c1 p). split; [by etransitivity|done].
Qed.

(** A message within the limit, of a data type, and UTF-8 if it is text. *)
Definition message_ok (L : Z) (m : Z * bytes) : Prop :=
  (fst m = OpcodeText \/ fst m = OpcodeBinary) /\ (L > 0 -> zlen (snd m) <= L)
  /\ (fst m = OpcodeText -> utf8_Valid (snd m) = true).

Lemma DecompressDeflate_bound p L :
  match DecompressDeflate p L with Ok out => L > 0 -> zlen out <= L | Err _ => True | Panic => False end.
Proof.
  unfold DecompressDeflate. destruct (flate_read _) as [out failed]. destruct (if _ && _ then _ else _) as [buf [|]]; [done|].
  destruct ((L >? 0) && (zlen buf >? L)) eqn:E; [done|]. intros HL. destruct (zlen buf >? L) eqn:E2; bool_simpl; lia.
Qed.

Lemma finish_message_keeps c op comp p :
  op = OpcodeText \/ op = OpcodeBinary -> (readLimit c > 0 -> zlen p <= readLimit c) ->
  let '(c', m) := finish_message c op comp p in
  keeps c c' /\ match m with Ok m => message_ok (readLimit c) m | Err _ => True | Panic => False end.
Proof.
  intros Hop Hl. unfold finish_message. set (d := if comp then DecompressDeflate p (readLimit c) else Ok p).
  assert (Hd : match d with Ok out => readLimit c > 0 -> zlen out <= readLimit c | Err _ => True | Panic => False end).
  { unfold d. destruct comp; [apply DecompressDeflate_bound|done]. }
  destruct d as [out|e|]; [|split; [apply fail_keeps|done]|done].
  destruct ((op =? OpcodeText) && negb (utf8_Valid out)) eqn:E; [split; [apply fail_keeps|done]|].
  split; [reflexivity|]. split_and!; try done. cbn [fst snd]. intros ->.
  destruct (utf8_Valid out); [done|]. by cbn in E.
Qed.

Lemma ReadHeader_spec r :
  bytes_ok (rd_data r) ->
  let '(r', h) := ReadHeader r in
  rd_le r r'
  /\ match h with
     | Ok h => (List.length (rd_data r') < List.length (rd_data r))%nat /\ 0 <= PayloadLen h /\ key_ok (MaskKey h)
     | Err _ => True
     | Panic => False
     end.
Proof.
  intros Hb. unfold ReadHeader. pose proof (ReadFull_spec r 2) as H. destruct (ReadFull r 2) as [r1 [w|e|]];
    destruct H as (H1 & Hp & Hw); [|by split|done]. destruct Hw as (Hwl & Hwd & Hwb).
  set (extra := if bit (znth w 1) 0x80 then _ else _). pose proof (ReadFull_spec r1 extra) as H.
  destruct (ReadFull r1 extra) as [r2 [x|e|]]; destruct H as (H2 & Hp2 & Hx);
    [|split; [destruct H1, H2; split; [auto|lia]|done]|done].
  destruct Hx as (_ & Hxd & Hxb). assert (H12 : rd_le r r2) by (destruct H1, H2; split; [auto|lia]).
  assert (Hok : bytes_ok (w ++ x)) by (apply bytes_ok_app; destruct H1; auto).
  pose proof (ParseHeader_prefix (w ++ x)) as Hpp.
  destruct (ParseHeader (w ++ x)) as [[h n]|e|] eqn:E; [|by split|done].
  apply ParseHeader_inv in E as ((_ & Hn & Hk & Hkl & _) & _); [|done].
  split; [done|]. split; [clear -Hwl Hwd Hxd; unfold zlen in Hwl; lia|]. split; [exact (proj1 Hn)|split; [exact Hk|exact Hkl]].
Qed.

Lemma read_header_keeps c :
  bytes_ok (rd_data (rd c)) ->
  let '(c', h) := read_header c in
  keeps c c'
  /\ match h with
     | Ok h => (List.length (rd_data (rd c')) < List.length (rd_data (rd c)))%nat /\ 0 <= PayloadLen h /\ key_ok (MaskKey h)
     | Err _ => True
     | Panic => False
     end.
Proof.
  intros Hb. unfold read_header. destruct (state_is c StateClosed); [done|].
  pose proof (ReadHeader_spec (rd c) Hb) as H. destruct (ReadHeader (rd c)) as [r [h|e|]]; destruct H as [Hr Hh]; [|..|done].
  - split; [by split_and!|exact Hh].
  - set (c1 := { c with rd := r }). assert (H1 : keeps c c1) by by split_and!.
    destruct (bool_decide _); [split; [exact H1|done]|]. destruct (_ || _); [|by split].
    split; [|done]. etransitivity; [exact H1|apply fail_keeps].
Qed.

(** Connections the readers of messages keep: the input is bytes, a message being
    assembled is text or binary, a slice, and within the limit. *)
Definition conn_wf (c : Conn) : Prop :=
  bytes_ok (rd_data (rd c))
  /\ (fragmentOpcode c = 0 \/ fragmentOpcode c = OpcodeText \/ fragmentOpcode c = OpcodeBinary)
  /\ zlen (fragmentBuf c) <= maxAlloc /\ (readLimit c > 0 -> zlen (fragmentBuf c) <= readLimit c).

(** The read limit is on, and no more than half of what [make] and [append] can
    give. *)
Definition limited_to_memory (L : Z) : Prop := 0 < L <= 2 ^ 47.

Lemma keeps_wf c c' : keeps c c' -> conn_wf c -> conn_wf c' /\ readLimit c' = readLimit c.
Proof. intros (K1 & K2 & K3 & K4 & K5) (W1 & W2 & W3 & W4). unfold conn_wf. rewrite K1, K2, K3. split_and!; auto. Qed.

(** The result of an iteration that starts from [c]. *)
Definition pass_ok (c c' : Conn) (r : res ws_error (option (Z * bytes))) : Prop :=
  conn_wf c' /\ readLimit c' = readLimit c
  /\ match r with
     | Ok None => (List.length (rd_data (rd c')) < List.length (rd_data (rd c)))%nat
     | Ok (Some m) => message_ok (readLimit c) m
     | Err _ => True
     | Panic => ~ limited_to_memory (readLimit c)
     end.

Lemma pass_ok_err c c' e : conn_wf c -> keeps c c' -> pass_ok c c' (Err e).
Proof. intros Hw Hk. destruct (keeps_wf c c' Hk Hw). by split_and!. Qed.

Lemma checked_opcode c h :
  opt_or (check_frame c h) (opt_or (check_rsv1 h) (check_control_frame h)) = None -> IsControl (Opcode h) = false ->
  Opcode h = OpcodeContinuation \/ Opcode h = OpcodeText \/ Opcode h = OpcodeBinary.
Proof.
  unfold check_frame. destruct (negb (IsValid (Opcode h)) || IsReserved (Opcode h)) eqn:E; [done|]. intros _ Hc.
  apply orb_false_iff in E as [E _]. apply negb_false_iff in E. revert E Hc. unfold IsValid, IsControl.
  rewrite !orb_true_iff, !Z.eqb_eq. intros [[[[[->| ->]| ->]| ->]| ->]| ->]; cbn; auto; done.
Qed.
Lemma checked_limit c h :
  check_limit c h = None -> IsControl (Opcode h) = false -> 0 <= PayloadLen h -> zlen (fragmentBuf c) <= maxAlloc ->
  readLimit c > 0 ->
  PayloadLen h <= readLimit c
  /\ (PayloadLen h <= maxAlloc -> zlen (fragmentBuf c) + PayloadLen h <= readLimit c).
Proof.
  unfold check_limit, maxAlloc. intros H Hc Hn Hm HL. pose proof (zlen_nonneg (fragmentBuf c)). rewrite Hc in H. assert (EL : (readLimit c >? 0) = true) by lia. rewrite EL in H. cbn [andb negb] in H.
  destruct (PayloadLen h >? readLimit c) eqn:E1; [done|]. destruct (i64 _ >? _) eqn:E2; [done|]. bool_simpl.
  split; [lia|]. intros Hp. rewrite i64_small in E2 by lia. lia.
Qed.

(** Reading into a new slice: as before, but it may not fit in memory. *)
Lemma make_payload_keeps n c h :
  bytes_ok (rd_data (rd c)) -> key_ok (MaskKey h) -> 0 <= PayloadLen h -> PayloadLen h <= n ->
  let '(c', p) := make_payload n c h in
  keeps c c'
  /\ match p with
     | Ok p => zlen p = PayloadLen h /\ bytes_ok p /\ PayloadLen h <= maxAlloc
     | Err _ => True
     | Panic => maxAlloc < n
     end.
Proof.
  intros Hb Hk Hn Hs. unfold make_payload. destruct (n >? maxAlloc) eqn:E; bool_simpl; [split; [reflexivity|lia]|].
  pose proof (read_payload_keeps c h Hb Hk Hn) as H. destruct (read_payload c h) as [c1 [p|e|]]; destruct H as [H1 H2];
    split_and!; try done; try tauto. lia.
Qed.

Lemma whole_message_ok c h :
  conn_wf c -> key_ok (MaskKey h) -> 0 <= PayloadLen h ->
  Opcode h = OpcodeContinuation \/ Opcode h = OpcodeText \/ Opcode h = OpcodeBinary ->
  (readLimit c > 0 -> PayloadLen h <= readLimit c) ->
  let '(c', m) := whole_message 0 c h in
  keeps c c' /\ match m with Ok m => message_ok (readLimit c) m | Err _ => True | Panic => ~ limited_to_memory (readLimit c) end.
Proof.
  intros (Hb & _) Hk Hn Hop Hl. unfold whole_message. destruct (Opcode h =? OpcodeContinuation) eqn:E; bool_simpl.
  { split; [apply reject_keeps|done]. }
  pose proof (make_payload_keeps (PayloadLen h + 0) c h Hb Hk Hn ltac:(lia)) as H.
  destruct (make_payload _ c h) as [c1 [p|e|]]; [|split; [apply H|done]|].
  2: { destruct H as [H1 H2]. split; [done|]. unfold limited_to_memory, maxAlloc in *. lia. }
  destruct H as (H1 & Hpl & _). pose proof H1 as (EL & _).
  pose proof (finish_message_keeps c1 (Opcode h) (Rsv1 h) p) as H. destruct (finish_message _ _ _ _) as [c' m].
  destruct H as [H2 Hm]; [tauto|rewrite EL, Hpl; done|]. rewrite EL in Hm. split; [by etransitivity|by destruct m].
Qed.

Lemma fragment_ok c h :
  conn_wf c -> key_ok (MaskKey h) -> 0 <= PayloadLen h ->
  Opcode h = OpcodeContinuation \/ Opcode h = OpcodeText \/ Opcode h = OpcodeBinary ->
  (readLimit c > 0 -> PayloadLen h <= readLimit c /\ (PayloadLen h <= maxAlloc -> zlen (fragmentBuf c) + PayloadLen h <= readLimit c)) ->
  let '(c', r) := fragment c h in
  conn_wf c' /\ readLimit c' = readLimit c
  /\ match r with
     | Ok None => (List.length (rd_data (rd c')) <= List.length (rd_data (rd c)))%nat
     | Ok (Some m) => message_ok (readLimit c) m
     | Err _ => True
     | Panic => ~ limited_to_memory (readLimit c)
     end.
Proof.
  intros Hw Hk Hn Hop Hl. unfold fragment. pose proof Hw as (Hb & _).
  pose proof (make_payload_keeps (PayloadLen h) c h Hb Hk Hn ltac:(lia)) as H. destruct (make_payload _ c h) as [c1 [p|e|]];
    [|destruct H as [H _]; by destruct (keeps_wf _ _ H Hw)|].
  2: { destruct H as [H Hbig]. destruct (keeps_wf _ _ H Hw). split_and!; try done. unfold limited_to_memory, maxAlloc in *. lia. }
  destruct H as (H1 & Hpl & _ & Hfit). destruct (keeps_wf _ _ H1 Hw) as [Hw1 EL].
  destruct (check_fragment c1 h) as [[reason err]|] eqn:Ec.
  { pose proof (fail_keeps c1 StatusProtocolError (bytes_of_string reason)) as H2.
    destruct (keeps_wf _ _ H2 Hw1) as [Hw2 EL2]. rewrite EL in EL2. by split_and!. }
  set (c2 := begin_fragment c1 h).
  assert (H2 : (fragmentOpcode c2 = OpcodeText \/ fragmentOpcode c2 = OpcodeBinary)
    /\ zlen (fragmentBuf c2) <= maxAlloc /\ (readLimit c > 0 -> zlen (fragmentBuf c2 ++ p) <= readLimit c)
    /\ rd c2 = rd c1 /\ readLimit c2 = readLimit c).
  { pose proof H1 as (_ & EO & EB & _). pose proof (zlen_nonneg (fragmentBuf c)). destruct Hw1 as (_ & Ho & Hm & _).
    unfold c2, begin_fragment. revert Ec. unfold check_fragment. destruct (Opcode h =? OpcodeContinuation) eqn:E; bool_simpl.
    - destruct (fragmentOpcode c1 =? 0) eqn:E0; [done|]. intros _. bool_simpl. rewrite zlen_app, EB, Hpl.
      split_and!; [tauto|by rewrite <- EB|intros HL; by apply Hl|done..].
    - intros _. change (zlen (fragmentBuf _)) with 0. split_and!; try done; [tauto|].
      intros HL. specialize (Hl HL). change (zlen ([] ++ p) <= readLimit c). rewrite app_nil_l, Hpl. lia. }
  clearbody c2. destruct H2 as (Ho & Hm2 & Hlim & Er & EL2). destruct H1 as (_ & _ & _ & Hrb & Hrl).
  pose proof (zlen_nonneg p) as Hp0.
  cbv zeta. destruct (zlen (fragmentBuf c2) + zlen p >? maxAlloc) eqn:Ebig; bool_simpl; rewrite <- zlen_app in Ebig.
  { split; [|split; [exact EL2|unfold limited_to_memory, maxAlloc in *; lia]].
    split; [rewrite Er; auto|]. split; [by right|]. split; [exact Hm2|]. rewrite EL2. rewrite zlen_app in Hlim. lia. }
  destruct (Fin h).
  - set (c3 := { c2 with fragmentOpcode := 0; fragmentBuf := []; fragmentRsv1 := false }). cbn zeta.
    pose proof (finish_message_keeps c3 (fragmentOpcode c2) (fragmentRsv1 c2) (fragmentBuf c2 ++ p)) as H.
    change (readLimit c3) with (readLimit c2) in H. rewrite EL2 in H. specialize (H Ho Hlim).
    assert (Hw3 : conn_wf c3) 
      by (split; [change (rd c3) with (rd c2); rewrite Er; auto|split; [by left|change (zlen (fragmentBuf c3)) with 0; unfold maxAlloc; split; lia]]).
    change (fragmentOpcode { c2 with fragmentBuf := fragmentBuf c2 ++ p }) with (fragmentOpcode c2).
    destruct (finish_message _ _ _ _) as [c' m]. destruct H as [H3 Hm]. destruct (keeps_wf _ _ H3 Hw3) as [Hw' EL'].
    split; [exact Hw'|]. split; [rewrite EL'; exact EL2|]. by destruct m.
  - split; [|split]; [|exact EL2|].
    + set (c3 := { c2 with fragmentBuf := fragmentBuf c2 ++ p }). split; [change (rd c3) with (rd c2); rewrite Er; auto|].
      split; [by right|]. change (readLimit c3) with (readLimit c2). rewrite EL2. split; [change (zlen (fragmentBuf c2 ++ p) <= maxAlloc); lia|exact Hlim].
    + change (rd { c2 with fragmentBuf := fragmentBuf c2 ++ p }) with (rd c2). rewrite Er. exact Hrl.
Qed.

Lemma ReadMessage_pass_ok c : conn_wf c -> let '(c', r) := ReadMessage_pass c in pass_ok c c' r.
Proof.
  intros Hw. pose proof Hw as (Hb & _). unfold ReadMessage_pass. pose proof (read_header_keeps c Hb) as H.
  destruct (read_header c) as [c1 [h|e|]]; destruct H as [H1 Hh]; [|by apply pass_ok_err|done].
  destruct Hh as (Hlt & Hn & Hk). destruct (keeps_wf _ _ H1 Hw) as [Hw1 EL]. pose proof Hw1 as (Hb1 & _).
  destruct (opt_or _ _) as [why|] eqn:Ec.
  { apply pass_ok_err; [done|]. etransitivity; [exact H1|apply reject_keeps]. }
  destruct (check_limit c1 h) as [reason|] eqn:El.
  { apply pass_ok_err; [done|]. etransitivity; [exact H1|apply reject_keeps]. }
  destruct (IsControl (Opcode h)) eqn:Eop.
  - pose proof (dispatch_control_keeps c1 h Hb1 Hk Hn) as H. destruct (dispatch_control c1 h) as [c2 r].
    destruct H as [H2 Hp]. assert (H12 : keeps c c2) by by etransitivity.
    destruct r as [u|e|]; [|by apply pass_ok_err|done]. destruct (keeps_wf _ _ H12 Hw).
    split; [done|split; [done|]]. cbn [res_bind]. destruct H2 as (_ & _ & _ & _ & ?). lia.
  - pose proof (checked_opcode _ _ Ec Eop) as Hop. pose proof (checked_limit _ _ El Eop Hn ltac:(apply Hw1)) as HL.
    destruct (Fin h && (fragmentOpcode c1 =? 0)).
    + pose proof (whole_message_ok c1 h Hw1 Hk Hn Hop ltac:(intros HL'; by destruct (HL HL'))) as H.
      destruct (whole_message 0 c1 h) as [c2 m]. destruct H as [H2 Hm]. assert (H12 : keeps c c2) by by etransitivity.
      destruct m as [m|e|]; [|by apply pass_ok_err|rewrite EL in Hm; by destruct (keeps_wf _ _ H12 Hw)]. destruct (keeps_wf _ _ H12 Hw). rewrite EL in Hm. by split_and!.
    + pose proof (fragment_ok c1 h Hw1 Hk Hn Hop HL) as H.
      destruct (fragment c1 h) as [c2 r]. destruct H as (Hw2 & EL2 & Hr). split; [done|]. rewrite EL2, EL in *.
      split; [done|]. destruct r as [[m|]|e|]; [done|lia|done..].
Qed.

(** A loop whose iterations keep [I] and consume input when they go on returns. *)
Lemma read_loop_total {A} (pass : Conn -> Conn * res ws_error (option A)) (I : Conn -> Prop) (Q : Conn -> res ws_error A -> Prop) :
  (forall c, I c -> let '(c', r) := pass c in
     match r with
     | Ok None => I c' /\ (List.length (rd_data (rd c')) < List.length (rd_data (rd c)))%nat
     | Ok (Some m) => Q c' (Ok m)
     | Err e => Q c' (Err e)
     | Panic => Q c' Panic
     end) ->
  forall fuel c, I c -> (List.length (rd_data (rd c)) < fuel)%nat ->
  exists c' r, read_loop pass fuel c = (c', Some r) /\ Q c' r.
Proof.
  intros Hp. induction fuel as [|fuel IH]; intros c Hi Hf; [lia|]. cbn [read_loop]. specialize (Hp c Hi).
  destruct (pass c) as [c1 [[m|]|e|]]; [by eexists _, _| |by eexists _, _..].
  destruct Hp as [Hi1 Hlt]. apply IH; [done|lia].
Qed.

Lemma finish_message_rd c op comp p : let '(c', m) := finish_message c op comp p in keeps c c' /\ m <> Panic.
Proof.
  unfold finish_message. pose proof (DecompressDeflate_bound p (readLimit c)) as Hd.
  destruct (if comp then DecompressDeflate p (readLimit c) else Ok p) as [out|e|] eqn:E.
  - destruct (_ && _); [split; [apply fail_keeps|done]|done].
  - split; [apply fail_keeps|done].
  - destruct comp; [by rewrite E in Hd|done].
Qed.

(** What termination needs of an iteration. *)
Definition consumes {A} (may_panic : Prop) (c c' : Conn) (r : res ws_error (option A)) : Prop :=
  rd_le (rd c) (rd c') /\ (r = Panic -> may_panic)
  /\ (r = Ok None -> (List.length (rd_data (rd c')) < List.length (rd_data (rd c)))%nat).

(** The part the readers share: header, checks, control frames. *)
Lemma consumes_common {A} (may_panic : Prop) c (checks : Conn -> Header -> option (String.string * ws_error))
    (data : Conn -> Header -> Conn * res ws_error (option A)) :
  bytes_ok (rd_data (rd c)) ->
  (forall c h, bytes_ok (rd_data (rd c)) -> key_ok (MaskKey h) -> 0 <= PayloadLen h ->
     let '(c', r) := data c h in rd_le (rd c) (rd c') /\ (r = Panic -> may_panic)) ->
  let '(c', r) :=
    let '(c, h) := read_header c in
    match h with
    | Ok h =>
        match checks c h with
        | Some why => reject_frame c h why
        | None =>
            if IsControl (Opcode h) then
              let '(c, r) := dispatch_control c h in (c, let* _ := r in Ok None)
            else data c h
        end
    | Err e => (c, Err e)
    | Panic => (c, Panic)
    end in
  consumes may_panic c c' r.
Proof.
  intros Hb Hd. pose proof (read_header_keeps c Hb) as H. destruct (read_header c) as [c1 [h|e|]]; destruct H as [H1 Hh];
    [|split_and!; [apply H1..|done|done]|done].
  destruct Hh as (Hlt & Hn & Hk). destruct H1 as (_ & _ & _ & Hb1 & Hl1). specialize (Hb1 Hb).
  destruct (checks c1 h) as [why|].
  { destruct (reject_keeps c1 (PayloadLen h) StatusProtocolError (bytes_of_string (fst why))) as (_ & _ & _ & H2 & H3).
    split; [split; [auto|]|done]. unfold reject_frame, reject. etransitivity; [exact H3|exact Hl1]. }
  destruct (IsControl (Opcode h)).
  - pose proof (dispatch_control_keeps c1 h Hb1 Hk Hn) as H. destruct (dispatch_control c1 h) as [c2 r].
    destruct H as ((_ & _ & _ & H2 & H3) & Hp). split; [split; [auto|lia]|]. split; [by destruct r|]. intros _. lia.
  - specialize (Hd c1 h Hb1 Hk Hn). destruct (data c1 h) as [c2 r]. destruct Hd as ((H2 & H3) & Hp).
    split; [split; [auto|lia]|]. split; [done|]. intros _. lia.
Qed.

Lemma too_big_rd c h :
  let c' := writeProtocolErrorAndClose (drainPayload c (PayloadLen h)) StatusMessageTooBig
              (bytes_of_string "Frame payload exceeds read limit") in
  rd_le (rd c) (rd c').
Proof. apply (reject_keeps c (PayloadLen h)). Qed.

Lemma whole_message_rd c h :
  bytes_ok (rd_data (rd c)) -> key_ok (MaskKey h) -> 0 <= PayloadLen h ->
  let '(c', m) := whole_message 1024 c h in rd_le (rd c) (rd c').
Proof.
  intros Hb Hk Hn. unfold whole_message. destruct (_ =? _); [apply (reject_keeps c (PayloadLen h))|].
  pose proof (make_payload_keeps (PayloadLen h + 1024) c h Hb Hk Hn ltac:(lia)) as H.
  destruct (make_payload _ c h) as [c1 [p|e|]]; [|apply H..].
  pose proof (finish_message_rd c1 (Opcode h) (Rsv1 h) p) as H'. destruct (finish_message _ _ _ _) as [c2 m].
  destruct H as [H1 _], H' as [H2 Hp]. by destruct (PreOrder_Transitive _ _ _ H1 H2) as (_ & _ & _ & ?).
Qed.

Lemma begin_fragment_rd c h : rd (begin_fragment c h) = rd c.
Proof. unfold begin_fragment. by destruct (_ =? _). Qed.

Lemma fragment_buf_rd c h :
  bytes_ok (rd_data (rd c)) -> key_ok (MaskKey h) -> 0 <= PayloadLen h ->
  let '(c', r) := fragment_buf c h in rd_le (rd c) (rd c').
Proof.
  intros Hb Hk Hn. unfold fragment_buf. destruct (check_fragment c h) as [[reason err]|]; [apply fail_keeps|].
  set (c1 := begin_fragment c h). assert (E : rd c1 = rd c) by apply begin_fragment_rd. clearbody c1. rewrite <- E in *.
  pose proof (zlen_nonneg (fragmentBuf c1)) as Hf0.
  pose proof (make_payload_keeps (zlen (fragmentBuf c1) + PayloadLen h + 4096) c1 h Hb Hk Hn ltac:(lia)) as Hk1.
  cbv zeta. destruct (make_payload _ c1 h) as [c2 [p|e|]]; [|apply Hk1..]. destruct Hk1 as [H1 _].
  set (c3 := { c2 with fragmentBuf := fragmentBuf c2 ++ p }).
  assert (H3 : rd_le (rd c1) (rd c3)) by apply H1. clearbody c3.
  destruct (Fin h); [|done].
  set (c4 := { c3 with fragmentOpcode := 0; fragmentRsv1 := false }).
  assert (H4 : rd_le (rd c1) (rd c4)) by exact H3. cbn zeta.
  pose proof (finish_message_rd c4 (fragmentOpcode c3) (fragmentRsv1 c3) (fragmentBuf c4)) as H.
  destruct (finish_message _ _ _ _) as [c5 m]. destruct H as ((_ & _ & _ & H5 & H6) & Hp).
  destruct H4. split; [auto|lia].
Qed.

Lemma ReadMessageBuf_consumes c :
  bytes_ok (rd_data (rd c)) -> let '(c', r) := ReadMessageBuf_pass c in consumes True c c' r.
Proof.
  intros Hb. apply (consumes_common True c (fun c h => opt_or (check_frame c h) (opt_or (check_rsv1 h) (check_control_frame h)))
    (fun c h => if check_frame_limit c h then
            reject c (PayloadLen h) StatusMessageTooBig "Frame payload exceeds read limit" ErrMessageTooBig
          else if Fin h && (fragmentOpcode c =? 0) then
            let '(c, m) := whole_message 1024 c h in (c, let* m := m in Ok (Some m))
          else fragment_buf c h) Hb).
  clear. intros c h Hb Hk Hn. destruct (check_frame_limit c h); [split; [apply too_big_rd|done]|].
  destruct (_ && _).
  - pose proof (whole_message_rd c h Hb Hk Hn) as H. by destruct (whole_message 1024 c h) as [c1 m].
  - pose proof (fragment_buf_rd c h Hb Hk Hn) as H. by destruct (fragment_buf c h) as [c1 m].
Qed.
Lemma ReadFrame_consumes n c :
  bytes_ok (rd_data (rd c)) -> let '(c', r) := ReadFrame_pass n c in consumes False c c' r.
Proof.
  intros Hb. apply (consumes_common False c (fun c h => opt_or (check_frame c h) (check_control_frame h))
    (fun c h => if check_frame_limit c h then
            reject c (PayloadLen h) StatusMessageTooBig "Frame payload exceeds read limit" ErrMessageTooBig
          else if n <? PayloadLen h then (c, Err ErrBufferTooSmall)
          else
            let '(c, p) := read_payload c h in
            (c, let* p := p in Ok (Some (h, p)))) Hb).
  clear. intros c h Hb Hk Hn. destruct (check_frame_limit c h); [split; [apply too_big_rd|done]|].
  destruct (n <? _); [by split|].
  pose proof (read_payload_keeps c h Hb Hk Hn) as H. destruct (read_payload c h) as [c1 p]. destruct H as [H Hp].
  split; [apply H|by destruct p].
Qed.

(** ** How a connection ends *)

(** The last thing written since [c0] is a Close frame with this payload, and the
    connection and its transport are closed. *)
Definition closed_with (c0 c' : Conn) (payload : bytes) : Prop :=
  state c' = StateClosed /\ transportClosed c' = true
  /\ exists pre w, written c' = pre ++ [w] /\ written c0 `prefix_of` pre
     /\ sent (isServer c0) (mkFrame true false OpcodeClose payload) w.
Definition failed_with (c0 c' : Conn) (code : Z) : Prop :=
  exists reason, zlen reason <= 123 /\ closed_with c0 c' (be_put 2 code ++ reason).

(** What each error a reader returns says of the connection. *)
Definition ended (c0 c' : Conn) (e : ws_error) : Prop :=
  match e with
  | IoEOF => state c' = StateClosed
  | IoUnexpectedEOF => True
  | CloseError code reason =>
      closed_with c0 c' (if code =? StatusNoStatusReceived then [] else be_put 2 code ++ reason)
  | ErrInvalidUTF8 => failed_with c0 c' StatusInvalidFramePayloadData
  | ErrPayloadTooLarge => failed_with c0 c' StatusMessageTooBig \/ failed_with c0 c' StatusProtocolError
  | _ => failed_with c0 c' StatusProtocolError
  end.

(** An open connection with the default handlers, reading for [c0]. *)
Definition live (c0 c : Conn) : Prop :=
  isServer c = isServer c0 /\ state c = StateOpen /\ (pingHandler c = HNone \/ pingHandler c = HReply)
  /\ pongHandler c = HNone /\ (forall k, writeResult c k = None) /\ rd_end (rd c) = IoEOF
  /\ bytes_ok (rd_data (rd c)) /\ written c0 `prefix_of` written c.

Lemma rune_cut_le reason n : (rune_cut reason n <= n)%nat.
Proof. induction n as [|n IH]; cbn [rune_cut]; [lia|]. destruct (RuneStart _); lia. Qed.
Lemma truncate_reason_ok reason : bytes_ok reason -> bytes_ok (truncate_reason reason) /\ zlen (truncate_reason reason) <= 123.
Proof.
  intros Hb. unfold truncate_reason. destruct (zlen reason >? 123) eqn:E; bool_simpl; [|split; [done|lia]].
  split; [by apply Forall_take|]. unfold zlen. rewrite length_take. pose proof (rune_cut_le reason 123). lia.
Qed.
Lemma FormatClosePayload_fits code reason :
  0 <= code < 65536 -> zlen reason <= 123 ->
  exists buf n, FormatClosePayload (replicate 128 0) code reason = Ok (buf, n) /\ ztake n buf = be_put 2 code ++ reason.
Proof.
  intros Hc Hl. unfold FormatClosePayload. change (zlen (replicate 128 0)) with 128. test_false (128 <? 2 + zlen reason).
  eexists _, _. split; [done|]. unfold u16. rewrite Z.mod_small by lia.
  change (put_at (replicate 128 0) 0 (be_put 2 code)) with (be_put 2 code ++ replicate 126 0).
  rewrite (put_at_app (be_put 2 code)) by (by rewrite be_put_zlen). rewrite app_assoc.
  apply ztake_app_eq. rewrite zlen_app, be_put_zlen. lia.
Qed.

(** A Close frame is written last, whatever the transport says of the write. *)
Lemma close_frame_written c0 c payload :
  isServer c = isServer c0 -> written c0 `prefix_of` written c -> bytes_ok payload -> zlen payload <= 125 ->
  closed_with c0 (closeTransport { (fst (writeControlFrame c OpcodeClose payload)) with state := StateClosed }) payload.
Proof.
  intros Hs Hp Hb Hl. unfold writeControlFrame. pose proof (zlen_nonneg payload).
  assert (Hf : frame_wf (mkFrame true false OpcodeClose payload)).
  { unfold frame_wf, maxAlloc. cbn -[zlen]. split_and!; try done; lia. }
  pose proof (writeFrameLocked_wire c true false OpcodeClose payload Hf) as Hw0.
  destruct (writeFrameLocked c true false OpcodeClose payload) as [c' r]. destruct Hw0 as (_ & (w & Hw & Hsent) & _).
  split; [done|split; [done|]]. exists (written c), w. rewrite <- Hs. by split_and!.
Qed.

Lemma fail_failed c0 c code reason :
  isServer c = isServer c0 -> written c0 `prefix_of` written c -> bytes_ok reason -> 0 <= code < 65536 ->
  failed_with c0 (writeProtocolErrorAndClose c code reason) code.
Proof.
  intros Hs Hp Hb Hc. destruct (truncate_reason_ok reason Hb) as [Hb' Hl].
  destruct (FormatClosePayload_fits code (truncate_reason reason) Hc Hl) as (buf & n & E & Et).
  unfold writeProtocolErrorAndClose. rewrite E, Et. exists (truncate_reason reason). split; [done|].
  set (c1 := { c with state := StateClosing }).
  pose proof (close_frame_written c0 c1 (be_put 2 code ++ truncate_reason reason) Hs Hp) as H.
  destruct (writeControlFrame c1 _ _) as [c2 r]. apply H.
  - apply bytes_ok_app. split; [apply be_put_ok|done].
  - rewrite zlen_app, be_put_zlen. lia.
Qed.

Lemma live_fail c0 c code s :
  live c0 c -> 0 <= code < 65536 -> failed_with c0 (writeProtocolErrorAndClose c code (bytes_of_string s)) code.
Proof. intros (L1 & _ & _ & _ & _ & _ & _ & L8) Hc. apply fail_failed; try done. apply bytes_of_string_ok. Qed.
Lemma live_rd c0 c r : live c0 c -> rd_le (rd c) r -> rd_end r = IoEOF -> live c0 { c with rd := r }.
Proof.
  intros (L1 & L2 & L3 & L4 & L5 & L6 & L7 & L8) [Hr _] He. unfold live. destruct c. cbn in *. split_and!; auto.
Qed.
Lemma live_drain c0 c n : live c0 c -> live c0 (drainPayload c n).
Proof.
  intros L. unfold drainPayload. destruct (_ || _) eqn:E; [done|]. apply live_rd; [done| |apply L].
  pose proof (drain_keeps c n) as (_ & _ & _ & K). unfold drainPayload in K. rewrite E in K. exact K.
Qed.
Lemma live_same c0 c c' : live c0 c -> same_conn c c' -> written c `prefix_of` written c' -> live c0 c'.
Proof.
  intros (L1 & L2 & L3 & L4 & L5 & L6 & L7 & L8)
    (S1 & S2 & S3 & S4 & S5 & S6 & S7 & S8 & S9 & S10 & S11 & S12 & S13 & S14 & S15 & _) Hp.
  unfold live. rewrite S1, S2, S6, S7, S14, S15. split_and!; try done. by etransitivity.
Qed.

Lemma ReadFull_end r n : rd_end r = IoEOF ->
  let '(r', w) := ReadFull r n in
  rd_end r' = IoEOF /\ match w with Err e => e = IoEOF \/ e = IoUnexpectedEOF | _ => True end.
Proof.
  intros He. unfold ReadFull. repeat case_match; simplify_eq; try done; cbn; rewrite ?He; auto.
Qed.

(** [ReadHeader] reads as many bytes as the header has. *)
Lemma ParseHeader_complete w x :
  zlen w = 2 ->
  zlen x = (let e := if Z.land (znth w 1) 0x7F =? 126 then 2 else if Z.land (znth w 1) 0x7F =? 127 then 8 else 0 in
            if bit (znth w 1) 0x80 then e + 4 else e) ->
  match ParseHeader (w ++ x) with
  | Err e => e = ErrInvalidLength \/ e = ErrPayloadTooLarge \/ e = ErrControlFrameFragmented \/ e = ErrControlFrameTooLarge
  | _ => True
  end.
Proof.
  intros Hw Hx. unfold ParseHeader. rewrite zlen_app, Hw.
  assert (Hx0 : 0 <= zlen x) by apply zlen_nonneg. test_false (2 + zlen x <? 2).
  rewrite !index_ok by (rewrite zlen_app; lia). cbn [res_bind].
  assert (E1 : znth (w ++ x) 1 = znth w 1).
  { unfold znth. rewrite app_nth1; [done|]. unfold zlen in Hw. lia. }
  rewrite E1. cbn zeta in Hx. set (l7 := Z.land (znth w 1) 0x7F) in *. set (m := bit (znth w 1) 0x80) in *.
  assert (Hl : match parse_length (w ++ x) l7 with
    | Ok (_, hl) => zlen (w ++ x) = hl + (if m then 4 else 0) /\ 0 <= hl
    | Err e => e = ErrInvalidLength \/ e = ErrPayloadTooLarge
    | Panic => False end).
  { unfold parse_length. rewrite zlen_app, Hw. destruct (l7 =? 126) eqn:E2; [|destruct (l7 =? 127) eqn:E3].
    - assert (zlen x = if m then 6 else 2) as -> by (destruct m; lia).
      replace (2 + (if m then 6 else 2) <? 4) with false by (by destruct m). rewrite slice_ok by (rewrite ?zlen_app; destruct m; lia).
      cbn [res_bind]. destruct (_ <? 126); [auto|]. destruct m; lia.
    - assert (zlen x = if m then 12 else 8) as -> by (destruct m; lia).
      replace (2 + (if m then 12 else 8) <? 10) with false by (by destruct m). rewrite slice_ok by (rewrite ?zlen_app; destruct m; lia).
      cbn [res_bind]. destruct (_ >? _); [auto|]. destruct (_ <=? 0xFFFF); [auto|]. destruct m; lia.
    - destruct m; lia. }
  destruct (parse_length _ _) as [[n hl]|e|]; [|cbn [res_bind]; tauto|done]. cbn [res_bind]. destruct Hl as [Hl Hl0].
  assert (Hk : exists k hl', parse_key (w ++ x) m hl = Ok (k, hl')).
  { unfold parse_key. rewrite Hl. destruct m; [|eauto]. rewrite Z.ltb_irrefl. rewrite slice_ok by lia. cbn [res_bind]. eauto. }
  destruct Hk as (k & hl' & ->). cbn [res_bind]. unfold check_control.
  destruct (IsControl _); [|done]. destruct (negb _); [cbn [res_bind]; tauto|]. destruct (_ >? 125); cbn [res_bind]; tauto.
Qed.

Lemma ReadHeader_errors r :
  rd_end r = IoEOF ->
  let '(r', h) := ReadHeader r in
  rd_end r' = IoEOF
  /\ match h with
     | Err e => e = IoEOF \/ e = IoUnexpectedEOF
                \/ e = ErrInvalidLength \/ e = ErrPayloadTooLarge \/ e = ErrControlFrameFragmented \/ e = ErrControlFrameTooLarge
     | _ => True
     end.
Proof.
  intros He. unfold ReadHeader. pose proof (ReadFull_end r 2 He) as H. pose proof (ReadFull_spec r 2) as Hs.
  destruct (ReadFull r 2) as [r1 [w|e|]]; destruct H as [H1 Hw]; [|split; [done|tauto]|done].
  destruct Hs as (_ & _ & Hwl & _). set (extra := if bit (znth w 1) 0x80 then _ else _).
  pose proof (ReadFull_end r1 extra H1) as H. pose proof (ReadFull_spec r1 extra) as Hs.
  destruct (ReadFull r1 extra) as [r2 [x|e|]]; destruct H as [H2 Hx]; [|split; [done|tauto]|done].
  destruct Hs as (_ & _ & Hxl & _). pose proof (ParseHeader_complete w x Hwl) as Hp.
  destruct (ParseHeader (w ++ x)) as [[h n]|e|]; [done| |done]. split; [done|]. right. right. apply Hp.
  rewrite Hxl. unfold extra. cbn zeta. repeat case_match; done.
Qed.

(** Comparisons of constant errors. *)
Ltac decide_errors :=
  repeat match goal with
  | |- context [bool_decide (?a = ?b)] =>
      first [rewrite (bool_decide_eq_true_2 (a = b)) by done | rewrite (bool_decide_eq_false_2 (a = b)) by done]
  end.

Lemma live_read_header c0 c :
  live c0 c ->
  let '(c', h) := read_header c in
  match h with
  | Ok h => live c0 c' /\ 0 <= PayloadLen h /\ key_ok (MaskKey h)
  | Err e => ended c0 c' e
  | Panic => False
  end.
Proof.
  intros L. pose proof L as (_ & L2 & _ & _ & _ & L6 & L7 & _). unfold read_header, state_is.
  rewrite bool_decide_eq_false_2 by by rewrite L2.
  pose proof (ReadHeader_spec (rd c) L7) as H. pose proof (ReadHeader_errors (rd c) L6) as H'.
  destruct (ReadHeader (rd c)) as [r [h|e|]]; destruct H as [Hr Hh], H' as [He Hx]; [|..|done].
  - split; [by apply live_rd|]. apply Hh.
  - set (c1 := { c with rd := r }). assert (L1 : live c0 c1) by by apply live_rd. clearbody c1. clear Hh.
    assert (Hf : forall s, failed_with c0 (writeProtocolErrorAndClose c1 StatusProtocolError (bytes_of_string s)) StatusProtocolError)
      by (intros s; by apply live_fail).
    destruct Hx as [-> |[-> |[-> |[-> |[-> | ->]]]]]; decide_errors; cbn [orb is_protocol_violation ended];
      first [done | right; apply Hf | apply Hf].
Qed.

Lemma live_read_payload c0 c h :
  live c0 c -> 0 <= PayloadLen h -> key_ok (MaskKey h) ->
  let '(c', p) := read_payload c h in
  match p with
  | Ok p => live c0 c' /\ zlen p = PayloadLen h /\ bytes_ok p
  | Err e => ended c0 c' e
  | Panic => False
  end.
Proof.
  intros L Hn Hk. pose proof L as (_ & _ & _ & _ & _ & L6 & L7 & _).
  pose proof (read_payload_keeps c h L7 Hk Hn) as H. revert H. unfold read_payload.
  destruct (PayloadLen h >? 0) eqn:E.
  - pose proof (ReadFull_end (rd c) (PayloadLen h) L6) as He. pose proof (ReadFull_spec (rd c) (PayloadLen h)) as Hs.
    destruct (ReadFull _ _) as [r [w|e|]]; destruct He as [He Hw], Hs as [Hs _]; intros [_ H]; [|..|done].
    + split; [by apply live_rd|]. split; apply H.
    + by destruct Hw as [-> | ->].
  - intros [_ H]. split; [done|]. split; apply H.
Qed.

(** The verdicts of [ParseClosePayload]. *)
Lemma ParseClosePayload_result p :
  bytes_ok p ->
  match ParseClosePayload p with
  | Ok (code, reason) => 0 <= code < 65536 /\ bytes_ok reason /\ zlen reason <= Z.max 0 (zlen p - 2)
  | Err e => e = ErrInvalidClosePayload \/ e = ErrInvalidCloseCode \/ e = ErrInvalidUTF8
  | Panic => True
  end.
Proof.
  intros Hb. unfold ParseClosePayload. pose proof (zlen_nonneg p). destruct (zlen p =? 0) eqn:E0; bool_simpl.
  { split_and!; [unfold StatusNoStatusReceived; lia..|constructor|]. change (zlen (@nil Z)) with 0. lia. }
  destruct (zlen p =? 1) eqn:E1; bool_simpl; [auto|]. rewrite slice_ok by lia. cbn [res_bind].
  assert (Hc : 0 <= be_get (ztake (2 - 0) (zdrop 0 p)) < 65536).
  { destruct p as [|a [|b p]]; [done|done|]. apply Forall_cons_1 in Hb as [Ha Hb]. apply Forall_cons_1 in Hb as [Hb _].
    change (ztake (2 - 0) (zdrop 0 (a :: b :: p))) with [a; b]. 
    rewrite (be_get_cons a [b]), (be_get_cons b []) by first [done|apply Forall_nil_2|by apply Forall_singleton].
    change (be_get []) with 0. change (8 * zlen [b]) with 8. change (8 * zlen []) with 0. unfold is_byte in *. lia. }
  destruct (negb (IsValidForWire _)); [auto|]. destruct (zlen p >? 2) eqn:E2; bool_simpl.
  - destruct (negb _); [auto|]. split; [done|]. split; [by apply Forall_drop|]. rewrite zlen_zdrop by lia. lia.
  - split_and!; try done; [lia..|constructor|]. change (zlen (@nil Z)) with 0. lia.
Qed.

Lemma live_handle_close c0 c p :
  live c0 c -> bytes_ok p -> zlen p <= 125 -> let '(c', e) := handle_close c p in ended c0 c' e.
Proof.
  intros L Hb Hl. unfold handle_close. set (c1 := { c with seenClose := true }).
  assert (L1 : live c0 c1) by exact L. clearbody c1. clear L.
  pose proof (ParseClosePayload_safe p) as Hsafe. pose proof (ParseClosePayload_result p Hb) as Hres.
  destruct (ParseClosePayload p) as [[code reason]|e|]; [|..|done].
  - destruct Hres as (Hc & Hrb & Hrl). cbn [ended]. set (c2 := if closeHandler c1 then _ else c1).
    assert (L2 : live c0 c2) by (unfold c2; destruct (closeHandler c1); exact L1). clearbody c2.
    pose proof L2 as (S1 & S2 & _ & _ & _ & _ & _ & S8). unfold state_is.
    rewrite (bool_decide_eq_true_2 (state c2 = StateOpen)) by done. cbn [orb].
    set (c3 := { c2 with state := StateClosing }). destruct (code =? StatusNoStatusReceived) eqn:E.
    + exact (close_frame_written c0 c3 [] S1 S8 ltac:(constructor) ltac:(done)).
    + destruct (FormatClosePayload_fits code reason Hc ltac:(lia)) as (buf & n & -> & ->).
      apply (close_frame_written c0 c3 _ S1 S8); [apply bytes_ok_app; split; [apply be_put_ok|done]|].
      rewrite zlen_app, be_put_zlen. lia.
  - destruct Hres as [-> |[-> | ->]]; decide_errors; cbn [ended]; by apply live_fail.
Qed.

Lemma live_dispatch_control c0 c h :
  live c0 c -> 0 <= PayloadLen h <= 125 -> key_ok (MaskKey h) ->
  let '(c', r) := dispatch_control c h in
  match r with Ok _ => live c0 c' | Err e => ended c0 c' e | Panic => False end.
Proof.
  intros L Hn Hk. unfold dispatch_control. pose proof (live_read_payload c0 c h L ltac:(lia) Hk) as H.
  destruct (read_payload c h) as [c1 [p|e|]]; [|done..]. destruct H as (L1 & Hl & Hb).
  pose proof L1 as (_ & _ & L3 & L4 & L5 & _).
  destruct (Opcode h =? OpcodePing).
  - destruct L3 as [-> | ->]; cbn [run_handler]; [done|]. unfold writeControlLocked.
    assert (Hf : frame_wf (mkFrame true false OpcodePong p)) by (unfold frame_wf, maxAlloc; cbn -[zlen]; split_and!; try done; lia).
    pose proof (writeFrameLocked_wire c1 true false OpcodePong p Hf) as H.
    destruct (writeFrameLocked c1 true false OpcodePong p) as [c' r]. destruct H as (Hs & (w & Hw & _) & ->).
    rewrite L5. apply (live_same c0 c1); [done|done|]. rewrite Hw. by exists [w].
  - destruct (Opcode h =? OpcodePong); [rewrite L4; done|].
    pose proof (live_handle_close c0 c1 p L1 Hb ltac:(lia)) as H. by destruct (handle_close c1 p).
Qed.

Lemma live_finish c0 c op comp p :
  live c0 c -> let '(c', m) := finish_message c op comp p in
  match m with Ok _ => live c0 c' | Err e => ended c0 c' e | Panic => False end.
Proof.
  intros L. unfold finish_message.
  assert (Hd : match DecompressDeflate p (readLimit c) with Err e => e = DeflateErr \/ e = ErrMessageTooBig | Panic => False | _ => True end).
  { unfold DecompressDeflate. destruct (flate_read _) as [out failed]. destruct (if _ && _ then _ else _) as [buf [|]]; [auto|].
    destruct (_ && _); auto. }
  assert (Hf : forall s, failed_with c0 (writeProtocolErrorAndClose c StatusProtocolError (bytes_of_string s)) StatusProtocolError)
    by (intros s; by apply live_fail).
  destruct comp; [destruct (DecompressDeflate p (readLimit c)) as [out|e|]|].
  - destruct (_ && _); [|done]. cbn [ended]. by apply live_fail.
  - destruct Hd as [-> | ->]; cbn [ended]; [|right]; apply Hf.
  - done.
  - destruct (_ && _); [|done]. cbn [ended]. by apply live_fail.
Qed.

Lemma live_reject c0 c n code s :
  live c0 c -> 0 <= code < 65536 ->
  failed_with c0 (writeProtocolErrorAndClose (drainPayload c n) code (bytes_of_string s)) code.
Proof. intros L Hc. apply live_fail; [by apply live_drain|done]. Qed.

(** The errors of the checks are protocol errors. *)
Definition is_check_error (e : ws_error) : Prop := forall c0 c', failed_with c0 c' StatusProtocolError -> ended c0 c' e.
Lemma check_error c h why :
  opt_or (check_frame c h) (opt_or (check_rsv1 h) (check_control_frame h)) = Some why
  \/ check_fragment c h = Some why -> is_check_error (snd why).
Proof.
  intros H. assert (He : In (snd why) [ErrInvalidOpcode; ErrDataAfterClose; ErrMaskRequired; ErrMaskForbidden; ErrRSVSet;
    ErrControlFrameFragmented; ErrControlFrameTooLarge; ErrUnexpectedContinuation; ErrExpectedContinuation]).
  { destruct H as [H|H]; revert H; unfold check_frame, check_rsv1, check_control_frame, check_fragment;
      repeat case_match; cbn [opt_or]; intros [= <-]; cbn; auto 12. }
  cbn [In] in He. intros c0 c' Hf. destruct_or! He; try done; rewrite <- He; exact Hf.
Qed.

Lemma live_whole c0 c h :
  live c0 c -> 0 <= PayloadLen h -> key_ok (MaskKey h) ->
  let '(c', m) := whole_message 0 c h in
  match m with Ok _ => live c0 c' | Err e => ended c0 c' e | Panic => True end.
Proof.
  intros L Hn Hk. unfold whole_message. destruct (_ =? _); [by apply live_reject|].
  unfold make_payload. destruct (_ >? maxAlloc); [done|].
  pose proof (live_read_payload c0 c h L Hn Hk) as H. destruct (read_payload c h) as [c1 [p|e|]]; [|done..].
  destruct H as (L1 & _). pose proof (live_finish c0 c1 (Opcode h) (Rsv1 h) p L1) as H.
  by destruct (finish_message _ _ _ _) as [c' [m|e|]].
Qed.

Lemma live_fragment c0 c h :
  live c0 c -> 0 <= PayloadLen h -> key_ok (MaskKey h) ->
  let '(c', m) := fragment c h in
  match m with Ok _ => live c0 c' | Err e => ended c0 c' e | Panic => True end.
Proof.
  intros L Hn Hk. unfold fragment, make_payload. destruct (_ >? maxAlloc); [done|].
  pose proof (live_read_payload c0 c h L Hn Hk) as H. destruct (read_payload c h) as [c1 [p|e|]]; [|done..].
  destruct H as (L1 & _). destruct (check_fragment c1 h) as [[reason err]|] eqn:E.
  { apply (check_error c1 h (reason, err)); [by right|]. by apply live_fail. }
  set (c2 := begin_fragment c1 h). assert (L2 : live c0 c2) by (unfold c2, begin_fragment; destruct (_ =? _); exact L1).
  clearbody c2. cbv zeta. destruct (_ >? maxAlloc); [done|]. destruct (Fin h); [|exact L2]. set (c3 := { c2 with fragmentBuf := fragmentBuf c2 ++ p }).
  assert (L3 : live c0 c3) by exact L2. clearbody c3. cbn zeta.
  match goal with |- context [finish_message ?x ?op ?comp ?p] =>
    pose proof (live_finish c0 x op comp p L3) as H; destruct (finish_message x op comp p) as [c' m] end.
  by destruct m.
Qed.

Lemma live_pass c0 c :
  live c0 c -> let '(c', r) := ReadMessage_pass c in
  match r with Ok _ => live c0 c' | Err e => ended c0 c' e | Panic => True end.
Proof.
  intros L. unfold ReadMessage_pass. pose proof (live_read_header c0 c L) as H.
  destruct (read_header c) as [c1 [h|e|]]; [|done..]. destruct H as (L1 & Hn & Hk).
  destruct (opt_or _ _) as [why|] eqn:Ec.
  { apply (check_error c1 h why); [by left|]. by apply live_reject. }
  destruct (check_limit c1 h) as [reason|]; [left; by apply live_reject|].
  destruct (IsControl (Opcode h)) eqn:Eop.
  - assert (Hl : PayloadLen h <= 125).
    { revert Ec. destruct (check_frame c1 h); [done|]. destruct (check_rsv1 h); [done|]. cbn [opt_or].
      unfold check_control_frame. rewrite Eop. destruct (negb (Fin h)); [done|]. destruct (_ >? 125) eqn:E; [done|].
      bool_simpl. lia. }
    pose proof (live_dispatch_control c0 c1 h L1 ltac:(lia) Hk) as H. destruct (dispatch_control c1 h) as [c2 r]. by destruct r.
  - destruct (Fin h && _); [|by apply live_fragment].
    pose proof (live_whole c0 c1 h L1 Hn Hk) as H. destruct (whole_message 0 c1 h) as [c2 m]. destruct m; exact H.
Qed.

(** ** Theorems *)


(** A call to [WriteMessage] or [WriteFragmentedMessage] is the sequence of
    its locked frame writes, with the same result and state in every case: a
    closed connection, a failed write and the empty fragmented message
    included. *)
Theorem ws_write_is_sections (c : Conn) (a : action) :
  IsData (action_type a) = true -> run_action c a = run_steps c (sections (enableDeflate c) a).
Proof. apply run_action_steps. Qed.

(** C25: [ReadMessage] always returns, keeps its state well-formed and bounds its
    memory.  It never spins, whatever the input: a message it returns is text or
    binary, within the read limit, if there is one, after decompression, and UTF-8
    if it is text; and the fragments kept for the next call stay within the limit.
    With a read limit of at most 2^47 bytes it never panics; without one, or with
    a larger one, it can ([disabled_limit_panics]). *)
Theorem ws_read_message_total (c : Conn) :
  conn_wf c ->
  exists c' r, ReadMessage c = (c', Some r) /\ conn_wf c' /\ readLimit c' = readLimit c
  /\ match r with
     | Ok m => message_ok (readLimit c) m
     | Err _ => True
     | Panic => ~ limited_to_memory (readLimit c)
     end.
Proof.
  intros Hw. unfold ReadMessage, read_fuel.
  destruct (read_loop_total ReadMessage_pass (fun x => conn_wf x /\ readLimit x = readLimit c)
    (fun c' r => conn_wf c' /\ readLimit c' = readLimit c
       /\ match r with Ok m => message_ok (readLimit c) m | Err _ => True | Panic => ~ limited_to_memory (readLimit c) end)) with
    (fuel := S (List.length (rd_data (rd c)))) (c := c) as (c' & r & E & H); [|done|lia|by exists c', r].
  intros x [Hx Ex]. pose proof (ReadMessage_pass_ok x Hx) as H. destruct (ReadMessage_pass x) as [x' r].
  destruct H as (Hx' & El & Hr). rewrite Ex in El, Hr. by destruct r as [[m|]|e|].
Qed.

(** [ReadMessageBuf] and [ReadFrame] return too, on every input: control
    frames that go round the loop consume it.  [ReadFrame], which reads into the
    caller's buffer, does not panic; [ReadMessageBuf] can, since it bounds the
    frames of a message but not their sum. *)
Theorem ws_readers_terminate (c : Conn) (n : Z) :
  bytes_ok (rd_data (rd c)) ->
  (exists c' r, ReadMessageBuf c = (c', Some r)) /\ (exists c' r, ReadFrame c n = (c', Some r) /\ r <> Panic).
Proof.
  intros Hb. unfold ReadMessageBuf, ReadFrame, read_fuel. split.
  - destruct (read_loop_total ReadMessageBuf_pass (fun x => bytes_ok (rd_data (rd x))) (fun _ _ => True)) with
      (fuel := S (List.length (rd_data (rd c)))) (c := c) as (c' & r & E & _); [|done|lia|by exists c', r].
    intros x Hx. pose proof (ReadMessageBuf_consumes x Hx) as H. destruct (ReadMessageBuf_pass x) as [x' r].
    destruct H as ((H1 & _) & _ & Hd). destruct r as [[m|]|e|]; try done. split; auto.
  - eapply (read_loop_total _ (fun x => bytes_ok (rd_data (rd x))) (fun _ r => r <> Panic)); [|done|lia]. intros x Hx.
    pose proof (ReadFrame_consumes n x Hx) as H. destruct (ReadFrame_pass n x) as [x' r].
    destruct H as ((H1 & _) & Hp & Hd). destruct r as [[m|]|e|]; try done. split; auto.
Qed.

(** C24: reading fails closed.  From an open connection with the default handlers,
    every error but the end of the input in the middle of a header leaves the
    connection closed; every protocol error also closes the transport, after a
    Close frame that carries the status code of the error and a reason that fits;
    and a Close frame of the peer is answered with its own code and reason.
    Assumed: writes succeed, and the input ends in EOF.  A panic, when it cannot
    allocate, needs a read limit that is off or beyond 2^47. *)
Theorem ws_fail_closed (c : Conn) :
  conn_wf c -> live c c ->
  exists c' r, ReadMessage c = (c', Some r)
  /\ match r with Ok _ => live c c' | Err e => ended c c' e | Panic => ~ limited_to_memory (readLimit c) end.
Proof.
  intros Hw Hl. unfold ReadMessage, read_fuel.
  apply (read_loop_total ReadMessage_pass (fun x => (conn_wf x /\ readLimit x = readLimit c) /\ live c x)
    (fun c' r => match r with Ok _ => live c c' | Err e => ended c c' e | Panic => ~ limited_to_memory (readLimit c) end)); [|done|lia].
  intros x [[Hx Ex] Lx]. pose proof (ReadMessage_pass_ok x Hx) as H. pose proof (live_pass c x Lx) as H'.
  destruct (ReadMessage_pass x) as [x' r]. destruct H as (Hx' & El & Hr). rewrite Ex in El, Hr. by destruct r as [[m|]|e|].
Qed.
End WithFlate.

(** ** Instances *)

(** A codec that run-length encodes uniform input. *)
Definition toy_strip (y : bytes) : bytes := ztake (zlen y - 9) y.
#[local] Instance toy_flate : Flate := {
  flate_flush x :=
    Some (match x with
          | b :: _ => if bool_decide (x = replicate (List.length x) b) && (zlen x <? 256) then [1; zlen x; b] else 0 :: x
          | [] => [0]
          end ++ flateTail);
  flate_read y :=
    match toy_strip y with
    | 0 :: x => (x, false)
    | [1; n; b] => (replicate (Z.to_nat n) b, false)
    | _ => ([], true)
    end
}.

Lemma toy_flate_ok : flate_ok.
Proof.
  intros x z Hx [= <-]. assert (Ht : bytes_ok flateTail) by by_decide.
  assert (Hs : forall y, toy_strip ((y ++ flateTail) ++ [0x01; 0x00; 0x00; 0xff; 0xff]) = y).
  { intros y. unfold toy_strip. rewrite <- app_assoc, zlen_app. apply ztake_app_eq. change (zlen (_ ++ _)) with 9. lia. }
  split_and!; [|by eexists|cbn [flate_read toy_flate]; rewrite Hs].
  - apply bytes_ok_app. split; [|done]. destruct x as [|b x]; [by_decide|]. pose proof (zlen_nonneg (b :: x)).
    destruct (_ && _) eqn:E; [|constructor; [unfold is_byte; lia|done]]. apply andb_true_iff in E as [_ E]. bool_simpl.
    apply Forall_cons_1 in Hx as [Hb _]. repeat apply Forall_cons_2; [unfold is_byte; lia|unfold is_byte; lia|done|apply Forall_nil_2].
  - destruct x as [|b x]; [done|]. destruct (_ && _) eqn:E; [|done]. apply andb_true_iff in E as [E _].
    apply bool_decide_eq_true_1 in E. f_equal. symmetry. unfold zlen. by rewrite Nat2Z.id.
Qed.

Definition client0 (deflate : bool) : Conn :=
  EnableCompression (NewConn false (fun k => 7 * k + 3) (mkReader [] IoEOF) (fun _ => None)) deflate.
Definition server0 (deflate : bool) (data : bytes) : Conn :=
  EnableCompression (NewConn true (fun _ => 0) (mkReader data IoEOF) (fun _ => None)) deflate.

Definition sample_acts : list action :=
  [AMsg OpcodeText [104; 105]; AFrag OpcodeBinary [[1; 2]; []; [3]]; AMsg OpcodeBinary (replicate 20 9); AFrag OpcodeText []].
Definition sample_ctl : list wstep := [SControl OpcodePing [5; 5]; SControl OpcodePong []].
Definition sample_steps : list wstep :=
  match concat (map (sections true) sample_acts) with
  | a :: b :: c :: rest => a :: b :: SControl OpcodePing [5; 5] :: c :: SControl OpcodePong [] :: rest
  | l => l
  end.


Lemma ws_write_is_sections_witness :
  run_action (client0 true) (AFrag OpcodeBinary [[1]; [2]])
  = run_steps (client0 true) [SData false false OpcodeBinary [1]; SData true false OpcodeContinuation [2]].
Proof. exact (ws_write_is_sections (client0 true) (AFrag OpcodeBinary [[1]; [2]]) eq_refl). Defined.

Definition bad_text : bytes := [0x81; 0x82; 0; 0; 0; 0; 0xC3; 0x28].
Lemma server0_wf data : bytes_ok data -> conn_wf (server0 false data) /\ live (server0 false data) (server0 false data).
Proof.
  intros Hb. split; [split_and!; [exact Hb|by left|vm_compute; discriminate|intros _; vm_compute; discriminate]|]. unfold live. split_and!; try done; by right.
Qed.

Lemma ws_read_message_total_witness :
  exists c' r, ReadMessage (server0 false bad_text) = (c', Some r) /\ conn_wf c' /\ r = Err ErrInvalidUTF8.
Proof.
  destruct (ws_read_message_total (server0 false bad_text)) as (c' & r & E & Hw & _).
  - apply server0_wf. by_decide.
  - exists c', r. split_and!; [exact E|exact Hw..|]. enough (Some r = Some (Err ErrInvalidUTF8)) by congruence.
    transitivity (snd (ReadMessage (server0 false bad_text))); [by rewrite E|vm_compute; reflexivity].
Defined.

Lemma ws_readers_terminate_witness :
  exists c' r, ReadFrame (server0 false [0x82; 0x81; 0; 0; 0; 0; 7]) 16 = (c', Some r) /\ r <> Panic.
Proof. apply (ws_readers_terminate (server0 false [0x82; 0x81; 0; 0; 0; 0; 7]) 16). by_decide. Defined.

Lemma ws_fail_closed_witness :
  exists c', ReadMessage (server0 false bad_text) = (c', Some (Err ErrInvalidUTF8))
  /\ failed_with (server0 false bad_text) c' StatusInvalidFramePayloadData.
Proof.
  assert (H : bytes_ok bad_text) by by_decide. destruct (server0_wf _ H) as [Hw Hl].
  destruct (ws_fail_closed (server0 false bad_text) Hw Hl) as (c' & r & E & Hr).
  assert (Er : Some r = Some (Err ErrInvalidUTF8)).
  { transitivity (snd (ReadMessage (server0 false bad_text))); [by rewrite E|vm_compute; reflexivity]. }
  injection Er as ->. by exists c'.
Defined.

(** ** Defects *)

Definition limited (L : Z) (data : bytes) : Conn :=
  SetReadLimit (NewConn false (fun _ => 0) (mkReader data IoEOF) (fun _ => None)) L.

(** Two binary fragments of three bytes, then a text message of two. *)
Definition two_fragments : bytes := [0x02; 3; 1; 2; 3; 0x80; 3; 4; 5; 6; 0x81; 2; 104; 105].

(** [ReadMessageBuf] checks each frame against the read limit but not the
    message: with a limit of 4 it returns the six bytes of a fragmented message,
    which [ReadMessage] refuses. *)
Theorem read_message_buf_unbounded :
  snd (ReadMessage (limited 4 two_fragments)) = Some (Err ErrMessageTooBig)
  /\ snd (ReadMessageBuf (limited 4 two_fragments)) = Some (Ok (OpcodeBinary, [1; 2; 3; 4; 5; 6])).
Proof. split; vm_compute; reflexivity. Qed.

(** [ReadMessageBuf] leaves the fragments of a message it has returned in
    [fragmentBuf], and [ReadMessage] counts them: the two-byte message after a
    fragmented one of six is refused with a limit of seven, and the connection
    closed, while reading both with [ReadMessage] works. *)
Theorem read_message_buf_stale :
  snd (read_messages 2 (limited 7 two_fragments)) = ([(OpcodeBinary, [1; 2; 3; 4; 5; 6]); (OpcodeText, [104; 105])], None)
  /\ let '(c, m) := ReadMessageBuf (limited 7 two_fragments) in
     m = Some (Ok (OpcodeBinary, [1; 2; 3; 4; 5; 6]))
     /\ snd (ReadMessage c) = Some (Err ErrMessageTooBig) /\ state (fst (ReadMessage c)) = StateClosed.
Proof. split; [|cbv zeta]; vm_compute; repeat split; reflexivity. Qed.

(** A read limit of zero turns the limit off.  Then fourteen bytes that announce a
    payload of 2^63 - 1 make [ReadMessage] and [ReadMessageBuf] panic, in the
    first frame of a message or in a fragment: the slice is made before a byte of
    the payload has arrived. *)
Theorem disabled_limit_panics :
  let frame first := first :: 127 :: 127 :: replicate 7 255 in
  snd (ReadMessage (limited 0 (frame 0x82))) = Some Panic /\ snd (ReadMessage (limited 0 (frame 0x02))) = Some Panic
  /\ snd (ReadMessageBuf (limited 0 (frame 0x82))) = Some Panic
  /\ snd (ReadMessage (limited 100 (frame 0x82))) = Some (Err ErrMessageTooBig).
Proof. vm_compute. repeat split; reflexivity. Qed.

(** [ReadFrame] refuses a frame that does not fit the caller's buffer without
    consuming its payload: the next call parses the payload as a frame.  Here the
    peer sends one binary frame, and the second call returns a text frame [A]. *)
Theorem read_frame_desync :
  let '(c, r1) := ReadFrame (limited 100 [0x82; 3; 0x81; 1; 65]) 2 in
  r1 = Some (Err ErrBufferTooSmall) /\ state c = StateOpen
  /\ match snd (ReadFrame c 2) with Some (Ok (h, p)) => Opcode h = OpcodeText /\ p = [65] | _ => False end.
Proof. vm_compute. repeat split; reflexivity. Qed.

(** Two goroutines that send data are not isolated.  [WriteFragmentedMessage]
    takes the lock for each frame, so a [WriteMessage] can fall between two
    fragments; both calls succeed, and the peer fails the connection. *)
Theorem concurrent_messages_corrupt :
  let a := sections false (AFrag OpcodeText [[104]; [105]]) in
  let b := sections false (AMsg OpcodeBinary [1]) in
  exists steps, interleaving a b steps
  /\ let '(w, r) := run_steps (client0 false) steps in
     r = Ok tt
     /\ let '(c, m) := ReadMessage (server0 false (concat (written w))) in
        m = Some (Err ErrExpectedContinuation) /\ state c = StateClosed.
Proof.
  exists [SData false false OpcodeText [104]; SData true false OpcodeBinary [1]; SData true false OpcodeContinuation [105]].
  split; [repeat first [apply I_left | apply I_right | apply I_nil]|]. vm_compute. repeat split; reflexivity.
Qed.
