(* ===== verification/Intern.v ===== *)
(** * Interned header names and values

    Models [src/proto/headkit/intern.go]: the case-insensitive comparison that
    handles eight bytes at a time, and the lookups of well-known names and values.
    The nested switches of the source are tables: a row has the length of the
    case, the characters tested (position, bits set before the test, character),
    the comparison made then, and the result.  HPACK normalises names with these
    lookups.

    The theorems: the word-wise comparison is the byte-wise one for the names it
    is used with; a name is replaced by its lower-case form and a value by
    itself. *)

From Stdlib Require Import Ascii String.
From S2P Require Import Prelude.
Open Scope Z_scope.

(** ** Case folding, eight bytes at a time *)

(** [binary.LittleEndian.Uint64] and [Uint32]. *)
Fixpoint le_get (l : bytes) : Z :=
  match l with
  | [] => 0
  | b :: l' => Z.lor b (Z.shiftl (le_get l') 8)
  end.

Definition toLower64 (v : Z) : Z :=
  let mask := u64 (v + 0x7f7f7f7f7f7f7f7f) in
  let mask := Z.land (Z.lxor mask v) 0x8080808080808080 in
  let mask := Z.land (Z.lxor (u64 (v + 0x3f3f3f3f3f3f3f3f)) v) mask in
  let mask := Z.land (Z.shiftr mask 2) 0x2020202020202020 in
  Z.lor v mask.
Definition toLower32 (v : Z) : Z :=
  let mask := u32 (v + 0x7f7f7f7f) in
  let mask := Z.land (Z.lxor mask v) 0x80808080 in
  let mask := Z.land (Z.lxor (u32 (v + 0x3f3f3f3f)) v) mask in
  let mask := Z.land (Z.shiftr mask 2) 0x20202020 in
  Z.lor v mask.

Definition lower (c : Z) : Z := if (65 <=? c) && (c <=? 90) then c + 32 else c.

(** [k] iterations of the loop over blocks of eight. *)
Fixpoint fold_blocks (k : nat) (a b : bytes) : bool :=
  match k with
  | O => true
  | S k' =>
      if negb (toLower64 (le_get (ztake 8 a)) =? le_get (ztake 8 b)) then false
      else fold_blocks k' (zdrop 8 a) (zdrop 8 b)
  end.
Fixpoint fold_tail (a b : bytes) : bool :=
  match a, b with
  | ca :: a', cb :: b' => if negb (lower ca =? cb) then false else fold_tail a' b'
  | _, _ => true
  end.

Definition equalFoldSWAR (a b : bytes) : bool :=
  if negb (zlen a =? zlen b) then false
  else
    let n := zlen a in
    if negb (fold_blocks (Z.to_nat (n / 8)) a b) then false
    else
      let i := 8 * (n / 8) in
      let '(a, b) := (zdrop i a, zdrop i b) in
      if i + 4 <=? n then
        if negb (toLower32 (le_get (ztake 4 a)) =? le_get (ztake 4 b)) then false
        else fold_tail (zdrop 4 a) (zdrop 4 b)
      else fold_tail a b.

(** ** Lookup tables *)
Inductive comparison_kind := Fold | Exact.
Record row := mkRow {
  r_len : Z;
  r_tests : list (Z * Z * Z);
  r_kind : comparison_kind;
  r_match : string;
  r_result : string
}.

Definition row_matches (b : bytes) (r : row) : bool :=
  (zlen b =? r_len r)
  && forallb (fun '(pos, bits, c) => Z.lor (znth b pos) bits =? c) (r_tests r)
  && match r_kind r with
     | Fold => equalFoldSWAR b (bytes_of_string (r_match r))
     | Exact => bool_decide (b = bytes_of_string (r_match r))
     end.
Fixpoint lookup_rows (rows : list row) (b : bytes) : option bytes :=
  match rows with
  | [] => None
  | r :: rows' => if row_matches b r then Some (bytes_of_string (r_result r)) else lookup_rows rows' b
  end.

Definition key_rows : list row := [
  mkRow 4 [(0, 0x20, 104)] Fold "host" "host";
  mkRow 4 [(0, 0x20, 100)] Fold "date" "date";
  mkRow 4 [(0, 0x20, 101)] Fold "etag" "etag";
  mkRow 5 [] Exact ":path" ":path";
  mkRow 6 [(0, 0x20, 97)] Fold "accept" "accept";
  mkRow 6 [(0, 0x20, 99)] Fold "cookie" "cookie";
  mkRow 6 [(0, 0x20, 115)] Fold "server" "server";
  mkRow 7 [(0, 0, 58); (1, 0, 109)] Exact ":method" ":method";
  mkRow 7 [(0, 0, 58); (1, 0, 115); (2, 0, 99)] Exact ":scheme" ":scheme";
  mkRow 7 [(0, 0, 58); (1, 0, 115); (2, 0, 116)] Exact ":status" ":status";
  mkRow 7 [(0, 0x20, 114)] Fold "referer" "referer";
  mkRow 8 [(0, 0x20, 112)] Fold "priority" "priority";
  mkRow 9 [(0, 0x20, 115)] Fold "sec-ch-ua" "sec-ch-ua";
  mkRow 9 [(0, 0x20, 58)] Exact ":protocol" ":protocol";
  mkRow 10 [(0, 0, 58)] Exact ":authority" ":authority";
  mkRow 10 [(0, 0x20, 99)] Fold "connection" "connection";
  mkRow 10 [(0, 0x20, 115)] Fold "set-cookie" "set-cookie";
  mkRow 10 [(0, 0x20, 117)] Fold "user-agent" "user-agent";
  mkRow 12 [(0, 0x20, 99)] Fold "content-type" "content-type";
  mkRow 13 [(0, 0x20, 99)] Fold "cache-control" "cache-control";
  mkRow 14 [(0, 0x20, 99)] Fold "content-length" "content-length";
  mkRow 14 [(0, 0x20, 115); (10, 0x20, 100)] Fold "sec-fetch-dest" "sec-fetch-dest";
  mkRow 14 [(0, 0x20, 115); (10, 0x20, 109)] Fold "sec-fetch-mode" "sec-fetch-mode";
  mkRow 14 [(0, 0x20, 115); (10, 0x20, 115)] Fold "sec-fetch-site" "sec-fetch-site";
  mkRow 14 [(0, 0x20, 115); (10, 0x20, 117)] Fold "sec-fetch-user" "sec-fetch-user";
  mkRow 15 [(0, 0x20, 97); (7, 0x20, 101)] Fold "accept-encoding" "accept-encoding";
  mkRow 15 [(0, 0x20, 97); (7, 0x20, 108)] Fold "accept-language" "accept-language";
  mkRow 16 [(0, 0x20, 115)] Fold "sec-ch-ua-mobile" "sec-ch-ua-mobile";
  mkRow 16 [(0, 0x20, 119)] Fold "www-authenticate" "www-authenticate";
  mkRow 18 [(0, 0x20, 115)] Fold "sec-ch-ua-platform" "sec-ch-ua-platform";
  mkRow 25 [(0, 0x20, 117)] Fold "upgrade-insecure-requests" "upgrade-insecure-requests"
]%string.

Definition InternKey (b : bytes) : option bytes :=
  let n := zlen b in
  if (n <? 4) || (n >? 25) then None else lookup_rows key_rows b.

Definition canonical_rows : list row := [
  mkRow 2 [] Fold "te" "TE";
  mkRow 3 [] Fold "via" "Via";
  mkRow 4 [(0, 0x20, 104)] Fold "host" "Host";
  mkRow 4 [(0, 0x20, 100)] Fold "date" "Date";
  mkRow 4 [(0, 0x20, 118)] Fold "vary" "Vary";
  mkRow 4 [(0, 0x20, 102)] Fold "from" "From";
  mkRow 4 [(0, 0x20, 108)] Fold "link" "Link";
  mkRow 4 [(0, 0x20, 101)] Fold "etag" "ETag";
  mkRow 5 [(0, 0x20, 114)] Fold "range" "Range";
  mkRow 5 [(0, 0x20, 97)] Fold "allow" "Allow";
  mkRow 6 [(0, 0x20, 97)] Fold "accept" "Accept";
  mkRow 6 [(0, 0x20, 99)] Fold "cookie" "Cookie";
  mkRow 6 [(0, 0x20, 115)] Fold "server" "Server";
  mkRow 6 [(0, 0x20, 101)] Fold "expect" "Expect";
  mkRow 6 [(0, 0x20, 111)] Fold "origin" "Origin";
  mkRow 6 [(0, 0x20, 112)] Fold "pragma" "Pragma";
  mkRow 7 [(0, 0x20, 114)] Fold "referer" "Referer";
  mkRow 7 [(0, 0x20, 116)] Fold "trailer" "Trailer";
  mkRow 7 [(0, 0x20, 117)] Fold "upgrade" "Upgrade";
  mkRow 7 [(0, 0x20, 97)] Fold "alt-svc" "Alt-Svc";
  mkRow 7 [(0, 0x20, 101)] Fold "expires" "Expires";
  mkRow 8 [(0, 0x20, 108)] Fold "location" "Location";
  mkRow 8 [(0, 0x20, 105)] Fold "if-match" "If-Match";
  mkRow 8 [(0, 0x20, 105)] Fold "if-range" "If-Range";
  mkRow 10 [(0, 0x20, 99)] Fold "connection" "Connection";
  mkRow 10 [(0, 0x20, 115)] Fold "set-cookie" "Set-Cookie";
  mkRow 10 [(0, 0x20, 117)] Fold "user-agent" "User-Agent";
  mkRow 10 [(0, 0x20, 107)] Fold "keep-alive" "Keep-Alive";
  mkRow 11 [] Fold "retry-after" "Retry-After";
  mkRow 12 [] Fold "content-type" "Content-Type";
  mkRow 13 [(0, 0x20, 97)] Fold "authorization" "Authorization";
  mkRow 13 [(0, 0x20, 97)] Fold "accept-ranges" "Accept-Ranges";
  mkRow 13 [(0, 0x20, 99)] Fold "cache-control" "Cache-Control";
  mkRow 13 [(0, 0x20, 99)] Fold "content-range" "Content-Range";
  mkRow 13 [(0, 0x20, 108)] Fold "last-modified" "Last-Modified";
  mkRow 13 [(0, 0x20, 105)] Fold "if-none-match" "If-None-Match";
  mkRow 14 [(0, 0x20, 99)] Fold "content-length" "Content-Length";
  mkRow 14 [(0, 0x20, 97)] Fold "accept-charset" "Accept-Charset";
  mkRow 15 [(7, 0x20, 101)] Fold "accept-encoding" "Accept-Encoding";
  mkRow 15 [(7, 0x20, 108)] Fold "accept-language" "Accept-Language";
  mkRow 16 [(0, 0x20, 99); (8, 0x20, 101)] Fold "content-encoding" "Content-Encoding";
  mkRow 16 [(0, 0x20, 99); (8, 0x20, 108)] Fold "content-language" "Content-Language";
  mkRow 16 [(0, 0x20, 99); (8, 0x20, 108)] Fold "content-location" "Content-Location";
  mkRow 16 [(0, 0x20, 112)] Fold "proxy-connection" "Proxy-Connection";
  mkRow 16 [(0, 0x20, 119)] Fold "www-authenticate" "WWW-Authenticate";
  mkRow 17 [(0, 0x20, 116)] Fold "transfer-encoding" "Transfer-Encoding";
  mkRow 17 [(0, 0x20, 105)] Fold "if-modified-since" "If-Modified-Since";
  mkRow 18 [] Fold "proxy-authenticate" "Proxy-Authenticate";
  mkRow 19 [(0, 0x20, 112)] Fold "proxy-authorization" "Proxy-Authorization";
  mkRow 19 [(0, 0x20, 105)] Fold "if-unmodified-since" "If-Unmodified-Since";
  mkRow 19 [(0, 0x20, 99)] Fold "content-disposition" "Content-Disposition";
  mkRow 22 [] Fold "x-content-type-options" "X-Content-Type-Options";
  mkRow 25 [] Fold "upgrade-insecure-requests" "Upgrade-Insecure-Requests"
]%string.

Definition InternCanonicalKey (b : bytes) : option bytes := lookup_rows canonical_rows b.

Definition value_rows : list row := [
  mkRow 2 [(0, 0, 63); (1, 0, 49)] Exact "?1" "?1";
  mkRow 2 [(0, 0, 63); (1, 0, 48)] Exact "?0" "?0";
  mkRow 4 [] Exact "none" "none";
  mkRow 8 [] Exact "document" "document";
  mkRow 8 [] Exact "navigate" "navigate";
  mkRow 10 [] Exact "keep-alive" "keep-alive";
  mkRow 10 [] Exact "cross-site" "cross-site";
  mkRow 11 [] Exact "same-origin" "same-origin";
  mkRow 16 [] Exact "application/json" "application/json";
  mkRow 23 [] Exact "gzip, deflate, br, zstd" "gzip, deflate, br, zstd";
  mkRow 33 [] Exact "application/x-www-form-urlencoded" "application/x-www-form-urlencoded"
]%string.

Definition InternValue (b : bytes) : option bytes := lookup_rows value_rows b.

Definition value_string_rows : list row := [
  mkRow 2 [(0, 0, 63); (1, 0, 49)] Exact "?1" "?1";
  mkRow 2 [(0, 0, 63); (1, 0, 48)] Exact "?0" "?0";
  mkRow 2 [] Exact "br" "br";
  mkRow 4 [] Exact "gzip" "gzip";
  mkRow 4 [] Exact "zstd" "zstd";
  mkRow 4 [] Exact "none" "none";
  mkRow 5 [] Exact "close" "close";
  mkRow 5 [] Exact "bytes" "bytes";
  mkRow 7 [] Exact "chunked" "chunked";
  mkRow 7 [] Exact "deflate" "deflate";
  mkRow 8 [] Exact "document" "document";
  mkRow 8 [] Exact "navigate" "navigate";
  mkRow 8 [] Exact "identity" "identity";
  mkRow 8 [] Exact "trailers" "trailers";
  mkRow 8 [] Exact "no-cache" "no-cache";
  mkRow 8 [] Exact "no-store" "no-store";
  mkRow 10 [] Exact "keep-alive" "keep-alive";
  mkRow 10 [] Exact "cross-site" "cross-site";
  mkRow 11 [] Exact "same-origin" "same-origin";
  mkRow 12 [] Exact "100-continue" "100-continue";
  mkRow 16 [] Exact "application/json" "application/json";
  mkRow 23 [] Exact "gzip, deflate, br, zstd" "gzip, deflate, br, zstd";
  mkRow 24 [] Exact "text/plain; charset=utf-8" "text/plain; charset=utf-8";
  mkRow 24 [] Exact "text/html; charset=utf-8" "text/html; charset=utf-8";
  mkRow 33 [] Exact "application/x-www-form-urlencoded" "application/x-www-form-urlencoded"
]%string.

Definition InternValueString (b : bytes) : option bytes := lookup_rows value_string_rows b.

(** ** Words of bytes *)

Lemma lor_shift b X : is_byte b -> Z.lor b (Z.shiftl X 8) = b + 256 * X.
Proof.
  intros Hb. rewrite Z.lor_comm, Z.shiftl_mul_pow2 by lia. unfold is_byte in Hb. rewrite lor_add by lia. change (2 ^ 8) with 256. lia.
Qed.
Lemma le_get_cons b l : is_byte b -> le_get (b :: l) = b + 256 * le_get l.
Proof. apply lor_shift. Qed.

Lemma byte_high_bits b n : is_byte b -> 8 <= n -> Z.testbit b n = false.
Proof.
  intros Hb Hn. unfold is_byte in Hb. destruct (Z.eq_dec b 0) as [->|]; [apply Z.testbit_0_l|].
  apply Z.bits_above_log2; [lia|]. apply Z.log2_lt_pow2; [lia|].
  assert (2 ^ 8 <= 2 ^ n) by (apply Z.pow_le_mono_r; lia). lia.
Qed.

(** Bit operations act byte by byte. *)
Definition bytewise (op : Z -> Z -> Z) : Prop :=
  exists g, g false false = false /\ forall x y n, 0 <= n -> Z.testbit (op x y) n = g (Z.testbit x n) (Z.testbit y n).
Lemma lxor_bytewise : bytewise Z.lxor.
Proof. exists xorb. split; [done|]. intros. apply Z.lxor_spec. Qed.
Lemma land_bytewise : bytewise Z.land.
Proof. exists andb. split; [done|]. intros. apply Z.land_spec. Qed.
Lemma lor_bytewise : bytewise Z.lor.
Proof. exists orb. split; [done|]. intros. apply Z.lor_spec. Qed.

Lemma bytewise_byte op b c : bytewise op -> is_byte b -> is_byte c -> is_byte (op b c).
Proof.
  intros (g & Hg0 & Hg) Hb Hc. unfold is_byte in *.
  assert (E : op b c = op b c mod 2 ^ 8).
  { apply Z.bits_inj'. intros n Hn. destruct (Z_lt_ge_dec n 8).
    - by rewrite Z.mod_pow2_bits_low.
    - rewrite Z.mod_pow2_bits_high by lia. rewrite Hg by lia.
      rewrite !(byte_high_bits _ n) by (done || lia). done. }
  rewrite E. pose proof (Z.mod_pos_bound (op b c) (2 ^ 8)). lia.
Qed.

Ltac byte_ops :=
  repeat match goal with
  | |- is_byte (Z.lxor _ _) => apply (bytewise_byte Z.lxor _ _ lxor_bytewise)
  | |- is_byte (Z.land _ _) => apply (bytewise_byte Z.land _ _ land_bytewise)
  | |- is_byte (Z.lor _ _) => apply (bytewise_byte Z.lor _ _ lor_bytewise)
  end; done.

Lemma bytewise_cons op b c X Y :
  bytewise op -> is_byte b -> is_byte c -> op (b + 256 * X) (c + 256 * Y) = op b c + 256 * op X Y.
Proof.
  intros Hop Hb Hc. rewrite <- (lor_shift (op b c)) by by apply bytewise_byte. rewrite <- !lor_shift by done.
  destruct Hop as (g & Hg0 & Hg). apply Z.bits_inj'. intros n Hn. rewrite Hg, !Z.lor_spec, Hg, !Z.shiftl_spec by lia.
  destruct (Z_lt_ge_dec n 8).
  - rewrite !(Z.testbit_neg_r _ (n - 8)) by lia. by rewrite !orb_false_r.
  - rewrite Hg by lia. rewrite !(byte_high_bits _ n) by (done || lia). by rewrite Hg0.
Qed.

Lemma le_get_bound l : bytes_ok l -> 0 <= le_get l < 2 ^ (8 * zlen l).
Proof.
  induction 1 as [|x l Hx Hl IH]; [unfold zlen; cbn; lia|]. rewrite le_get_cons by done. rewrite zlen_cons.
  replace (8 * (1 + zlen l)) with (8 + 8 * zlen l) by lia. pose proof (zlen_nonneg l).
  rewrite Z.pow_add_r by lia. change (2 ^ 8) with 256. unfold is_byte in Hx. nia.
Qed.

Lemma le_get_inj l k : bytes_ok l -> bytes_ok k -> List.length l = List.length k -> le_get l = le_get k -> l = k.
Proof.
  intros Hl. revert k. induction Hl as [|x l Hx Hl IH]; intros [|y k] Hk Hlen E; try done.
  apply Forall_cons_1 in Hk as [Hy Hk]. rewrite !le_get_cons in E by done. unfold is_byte in *. cbn in Hlen.
  assert (x = y) by lia. subst. f_equal. apply IH; [done|lia|lia].
Qed.

Lemma le_get_testbit7 l i b : l !! i = Some b -> bytes_ok l -> Z.testbit (le_get l) (8 * Z.of_nat i + 7) = Z.testbit b 7.
Proof.
  revert i. induction l as [|x l IH]; intros i Hi Hl; [done|]. apply Forall_cons_1 in Hl as [Hx Hl].
  cbn [le_get]. rewrite Z.lor_spec, Z.shiftl_spec by lia. destruct i as [|i]; cbn in Hi.
  - injection Hi as ->. rewrite (Z.testbit_neg_r _ (8 * Z.of_nat 0 + 7 - 8)) by lia. rewrite orb_false_r. f_equal; lia.
  - rewrite byte_high_bits by (done || lia). cbn [orb].
    replace (8 * Z.of_nat (S i) + 7 - 8) with (8 * Z.of_nat i + 7) by lia. by apply IH.
Qed.

(** ** Folding a word *)

(** What the word-wise code does to an ASCII byte. *)
Definition fold_byte (x : Z) : Z :=
  Z.lor x (Z.land (Z.shiftr (Z.land (Z.lxor (x + 0x3f) x) (Z.land (Z.lxor (x + 0x7f) x) 0x80)) 2) 0x20).
Definition is_ascii (x : Z) : Prop := 0 <= x < 128.

(** Characters of the names compared with: no upper-case letter and none of the
    characters after [Z] and after [z]. *)
Definition is_plain (x : Z) : bool := ((0 <=? x) && (x <? 65)) || ((97 <=? x) && (x <=? 122)).

Lemma ascii_spec (P : Z -> bool) : forallb (fun x => (128 <=? x) || P x) all_bytes = true -> forall x, is_ascii x -> P x = true.
Proof.
  intros H x Hx. unfold is_ascii in Hx. pose proof (all_bytes_spec _ H x ltac:(unfold is_byte; lia)) as E. cbv beta in E.
  by replace (128 <=? x) with false in E by lia.
Qed.

Lemma fold_byte_ascii x : is_ascii x -> is_ascii (fold_byte x).
Proof.
  intros Hx. assert (H : (0 <=? fold_byte x) && (fold_byte x <? 128) = true).
  { revert x Hx. apply (ascii_spec (fun x => _)). vm_compute. reflexivity. }
  unfold is_ascii. bool_simpl. lia.
Qed.
Lemma fold_byte_lower x t : is_ascii x -> is_plain t = true -> fold_byte x = t <-> lower x = t.
Proof.
  intros Hx Ht. assert (H : (fold_byte x =? lower x) || (negb (is_plain (fold_byte x)) && negb (is_plain (lower x))) = true).
  { revert x Hx. apply (ascii_spec (fun x => _)). vm_compute. reflexivity. }
  apply orb_true_iff in H as [H|H]; [bool_simpl; by rewrite H|]. apply andb_true_iff in H as [H1 H2].
  split; intros <-; by rewrite Ht in *.
Qed.

(** The steps of the word-wise fold, for words of any number of bytes. *)
Definition m1 (k : nat) (v : Z) : Z := Z.land (Z.lxor (v + le_get (replicate k 0x7f)) v) (le_get (replicate k 0x80)).
Definition m2 (k : nat) (v : Z) : Z := Z.land (Z.lxor (v + le_get (replicate k 0x3f)) v) (m1 k v).

Lemma le_get_fold l :
  Forall is_ascii l ->
  let k := List.length l in
  Z.lor (le_get l) (Z.land (Z.shiftr (m2 k (le_get l)) 2) (le_get (replicate k 0x20))) = le_get (map fold_byte l)
  /\ m2 k (le_get l) mod 4 = 0.
Proof.
  cbn zeta. induction 1 as [|x l Hx Hl IH]; [done|]. destruct IH as [IH Hm]. pose proof Hx as Hx'. unfold is_ascii in Hx'.
  assert (Hxb : is_byte x) by (unfold is_byte; lia).
  assert (Hc : is_byte 0x7f /\ is_byte 0x80 /\ is_byte 0x3f /\ is_byte 0x20) by (unfold is_byte; lia).
  destruct Hc as (C7 & C8 & C3 & C2). pose proof lxor_bytewise as Bx. pose proof land_bytewise as Ba. pose proof lor_bytewise as Bo.
  unfold m2 in *. unfold m1 in *. cbn [List.length replicate map]. rewrite !le_get_cons by (done || by apply fold_byte_ascii in Hx; unfold is_ascii, is_byte in *; lia).
  set (V := le_get l) in *. set (R7 := le_get (replicate _ 0x7f)) in *. set (R8 := le_get (replicate _ 0x80)) in *.
  set (R3 := le_get (replicate _ 0x3f)) in *. set (R2 := le_get (replicate _ 0x20)) in *.
  replace (x + 256 * V + (0x7f + 256 * R7)) with ((x + 0x7f) + 256 * (V + R7)) by lia.
  replace (x + 256 * V + (0x3f + 256 * R3)) with ((x + 0x3f) + 256 * (V + R3)) by lia.
  assert (B1 : is_byte (x + 0x7f)) by (unfold is_byte; lia). assert (B2 : is_byte (x + 0x3f)) by (unfold is_byte; lia).
  rewrite !(bytewise_cons Z.lxor) by done.
  rewrite (bytewise_cons Z.land (Z.lxor (x + 0x7f) x)) by first [done|byte_ops].
  rewrite (bytewise_cons Z.land (Z.lxor (x + 0x3f) x)) by first [done|byte_ops].
  set (b2 := Z.land (Z.lxor (x + 63) x) (Z.land (Z.lxor (x + 127) x) 128)).
  set (M2 := Z.land (Z.lxor (V + R3) V) (Z.land (Z.lxor (V + R7) V) R8)) in *.
  assert (Hb2 : (b2 mod 4 =? 0) = true).
  { unfold b2. clear -Hx. revert x Hx. apply (ascii_spec (fun x => _)). vm_compute. reflexivity. }
  bool_simpl. assert (Bb2 : is_byte b2) by (unfold b2; byte_ops).
  assert (Es : Z.shiftr (b2 + 256 * M2) 2 = Z.shiftr b2 2 + 256 * Z.shiftr M2 2).
  { rewrite !Z.shiftr_div_pow2 by lia. change (2 ^ 2) with 4. unfold is_byte in Bb2. lia. }
  rewrite Es. assert (Bs : is_byte (Z.shiftr b2 2)) by (rewrite Z.shiftr_div_pow2 by lia; change (2 ^ 2) with 4; unfold is_byte in *; lia).
  rewrite (bytewise_cons Z.land) by done. rewrite (bytewise_cons Z.lor) by first [done|byte_ops].
  split; [|lia]. rewrite IH. done.
Qed.

Lemma toLower64_fold l : Forall is_ascii l -> List.length l = 8%nat -> toLower64 (le_get l) = le_get (map fold_byte l).
Proof.
  intros Hl Hn. destruct (le_get_fold l Hl) as [<- _]. rewrite Hn. unfold toLower64, m2, m1.
  assert (Hb : 0 <= le_get l < 2 ^ 63).
  { clear -Hl Hn. do 8 (destruct l as [|? l]; [done|]). destruct l; [|done].
    repeat match goal with H : Forall _ (_ :: _) |- _ => apply Forall_cons_1 in H as [? H] end. unfold is_ascii in *.
    rewrite !le_get_cons by (unfold is_byte; lia). change (le_get []) with 0. lia. }
  change (le_get (replicate 8 127)) with 0x7f7f7f7f7f7f7f7f. change (le_get (replicate 8 128)) with 0x8080808080808080.
  change (le_get (replicate 8 63)) with 0x3f3f3f3f3f3f3f3f. change (le_get (replicate 8 32)) with 0x2020202020202020.
  unfold u64. rewrite !Z.mod_small by lia. done.
Qed.
Lemma toLower32_fold l : Forall is_ascii l -> List.length l = 4%nat -> toLower32 (le_get l) = le_get (map fold_byte l).
Proof.
  intros Hl Hn. destruct (le_get_fold l Hl) as [<- _]. rewrite Hn. unfold toLower32, m2, m1.
  assert (Hb : 0 <= le_get l < 2 ^ 31).
  { clear -Hl Hn. do 4 (destruct l as [|? l]; [done|]). destruct l; [|done].
    repeat match goal with H : Forall _ (_ :: _) |- _ => apply Forall_cons_1 in H as [? H] end. unfold is_ascii in *.
    rewrite !le_get_cons by (unfold is_byte; lia). change (le_get []) with 0. lia. }
  change (le_get (replicate 4 127)) with 0x7f7f7f7f. change (le_get (replicate 4 128)) with 0x80808080.
  change (le_get (replicate 4 63)) with 0x3f3f3f3f. change (le_get (replicate 4 32)) with 0x20202020.
  unfold u32. rewrite !Z.mod_small by lia. done.
Qed.

Lemma plain_ascii t : Forall (fun x => is_plain x = true) t -> Forall is_ascii t.
Proof.
  intros Ht. eapply Forall_impl; [|exact Ht]. intros x Hx. cbv beta in Hx. unfold is_plain, is_ascii in *.
  apply orb_true_iff in Hx as [Hx|Hx]; bool_simpl; lia.
Qed.
Lemma ascii_ok t : Forall is_ascii t -> bytes_ok t.
Proof. intros H. eapply Forall_impl; [|exact H]. unfold is_ascii, is_byte. lia. Qed.

Lemma map_fold_lower l t :
  Forall is_ascii l -> Forall (fun x => is_plain x = true) t -> map fold_byte l = t <-> map lower l = t.
Proof.
  intros Hl. revert t. induction Hl as [|x l Hx Hl IH]; intros [|y t] Ht; try done. cbn [map].
  apply Forall_cons_1 in Ht as [Hy Ht]. specialize (IH t Ht). pose proof (fold_byte_lower x y Hx Hy).
  split; intros [= E1 E2]; f_equal; tauto.
Qed.

(** A word with a byte that is not ASCII never matches. *)
Lemma not_ascii_word (w : Z) l t :
  bytes_ok l -> Forall is_ascii t -> List.length l = List.length t -> ~ Forall is_ascii l ->
  Z.lor (le_get l) w <> le_get t.
Proof.
  intros Hl Ht Hn Hna E. assert (Hex : exists i b, l !! i = Some b /\ ~ is_ascii b).
  { clear -Hna. induction l as [|x l IH]; [destruct Hna; constructor|].
    destruct (decide (0 <= x < 128)) as [Hx|Hx]; [|by exists 0%nat, x].
    destruct IH as (i & b & Hi & Hb); [intros H; apply Hna; by constructor|]. by exists (S i), b. }
  destruct Hex as (i & b & Hi & Hb). assert (Hb' : is_byte b) by (eapply Forall_lookup_1; [exact Hl|exact Hi]).
  assert (exists c, t !! i = Some c) as [c Hc].
  { apply lookup_lt_is_Some. rewrite <- Hn. by eapply lookup_lt_Some. }
  assert (Hac : is_ascii c) by (eapply Forall_lookup_1; [exact Ht|exact Hc]).
  apply (f_equal (fun z => Z.testbit z (8 * Z.of_nat i + 7))) in E. rewrite Z.lor_spec in E.
  rewrite (le_get_testbit7 l i b Hi Hl), (le_get_testbit7 t i c Hc) in E by by apply ascii_ok.
  assert (T1 : Z.testbit b 7 = true).
  { rewrite Z.testbit_true by lia. unfold is_ascii, is_byte in *. change (2 ^ 7) with 128. lia. }
  assert (T2 : Z.testbit c 7 = false).
  { rewrite Z.testbit_false by lia. unfold is_ascii in Hac. change (2 ^ 7) with 128. by rewrite Z.div_small by lia. }
  by rewrite T1, T2 in E.
Qed.

Lemma map_lower_not_ascii l t : bytes_ok l -> Forall is_ascii t -> ~ Forall is_ascii l -> map lower l <> t.
Proof.
  intros Hl Ht Hna <-. apply Hna. rewrite Forall_map in Ht. eapply Forall_impl; [|exact Ht]. intros x. cbv beta.
  unfold lower, is_ascii. destruct (_ && _) eqn:E; bool_simpl; lia.
Qed.

Lemma word_eq (fold : Z -> Z) l t :
  (Forall is_ascii l -> fold (le_get l) = le_get (map fold_byte l)) -> (exists w, fold (le_get l) = Z.lor (le_get l) w) ->
  bytes_ok l -> Forall (fun x => is_plain x = true) t -> List.length l = List.length t ->
  (fold (le_get l) =? le_get t) = bool_decide (map lower l = t).
Proof.
  intros Hf [w Hw] Hl Ht Hn. pose proof (plain_ascii t Ht) as Ha. destruct (decide (Forall is_ascii l)) as [Hla|Hla].
  - rewrite (Hf Hla). destruct (bool_decide (map lower l = t)) eqn:E.
    + apply bool_decide_eq_true_1 in E. apply Z.eqb_eq. f_equal. by apply map_fold_lower.
    + apply bool_decide_eq_false_1 in E. apply Z.eqb_neq. intros E'. apply E, map_fold_lower; [done..|].
      apply le_get_inj; [|by apply ascii_ok|by rewrite length_map|done].
      apply Forall_map. eapply Forall_impl; [|exact Hla]. intros x Hx. cbv beta.
      pose proof (fold_byte_ascii x Hx). unfold is_ascii, is_byte in *. lia.
  - rewrite bool_decide_eq_false_2 by by apply map_lower_not_ascii. apply Z.eqb_neq. rewrite Hw. by apply not_ascii_word.
Qed.

Lemma fold_tail_spec l t : List.length l = List.length t -> fold_tail l t = bool_decide (map lower l = t).
Proof.
  revert t. induction l as [|x l IH]; intros [|y t] Hn; try done. cbn [fold_tail map]. cbn in Hn. rewrite IH by lia.
  destruct (lower x =? y) eqn:E; bool_simpl; cbn [negb].
  - subst. apply bool_decide_ext. split; congruence.
  - rewrite bool_decide_eq_false_2 by congruence. done.
Qed.

(** Comparing a prefix of [n] bytes and the rest. *)
Lemma lower_split n l t :
  0 <= n <= zlen l -> zlen l = zlen t ->
  bool_decide (map lower l = t)
  = bool_decide (map lower (ztake n l) = ztake n t) && bool_decide (map lower (zdrop n l) = zdrop n t).
Proof.
  intros Hn Hl. rewrite <- bool_decide_and. apply bool_decide_ext. unfold ztake, zdrop. rewrite <- firstn_map, <- skipn_map.
  split; [by intros <-|]. intros [E1 E2]. rewrite <- (firstn_skipn (Z.to_nat n) (map lower l)).
  by rewrite E1, E2, firstn_skipn.
Qed.

Lemma plain_take n t : Forall (fun x => is_plain x = true) t -> Forall (fun x => is_plain x = true) (ztake n t) /\ Forall (fun x => is_plain x = true) (zdrop n t).
Proof. intros H. split; [by apply Forall_take|by apply Forall_drop]. Qed.
Lemma zlen_length {A} (l : list A) n : zlen l = Z.of_nat n -> List.length l = n.
Proof. unfold zlen. lia. Qed.

Lemma fold_blocks_spec k l t :
  bytes_ok l -> Forall (fun x => is_plain x = true) t -> zlen l = zlen t -> 8 * Z.of_nat k <= zlen l ->
  fold_blocks k l t = bool_decide (map lower (ztake (8 * Z.of_nat k) l) = ztake (8 * Z.of_nat k) t).
Proof.
  revert l t. induction k as [|k IH]; intros l t Hl Ht Hn Hk; [done|]. cbn [fold_blocks].
  destruct (plain_take 8 t Ht) as [Ht1 Ht2].
  rewrite (word_eq toLower64).
  - rewrite IH; [|by apply Forall_drop|done|rewrite !zlen_zdrop; lia|rewrite zlen_zdrop; lia].
    set (m := 8 * Z.of_nat (S k)). rewrite (lower_split 8 (ztake m l) (ztake m t)) by (rewrite !zlen_ztake; lia).
    assert (E : forall x : bytes, m <= zlen x -> ztake 8 (ztake m x) = ztake 8 x /\ zdrop 8 (ztake m x) = ztake (8 * Z.of_nat k) (zdrop 8 x)).
    { intros x Hx. unfold ztake, zdrop, m. rewrite take_take, skipn_firstn_comm. split; f_equal; lia. }
    destruct (E l) as [-> ->]; [lia|]. destruct (E t) as [-> ->]; [lia|].
    by destruct (bool_decide (map lower (ztake 8 l) = ztake 8 t)).
  - intros Ha. apply toLower64_fold; [done|]. apply zlen_length. rewrite zlen_ztake; lia.
  - unfold toLower64. by eexists.
  - by apply Forall_take.
  - done.
  - apply zlen_length. rewrite zlen_ztake by lia. change 8%Z with (Z.of_nat 8). f_equal. symmetry. apply zlen_length.
    rewrite zlen_ztake; lia.
Qed.

Lemma equalFold_spec a b :
  bytes_ok a -> Forall (fun x => is_plain x = true) b -> equalFoldSWAR a b = bool_decide (map lower a = b).
Proof.
  intros Ha Hb. unfold equalFoldSWAR. destruct (zlen a =? zlen b) eqn:E; bool_simpl; cbn [negb].
  2: { symmetry. apply bool_decide_eq_false_2. intros <-. apply E. unfold zlen. by rewrite length_map. }
  set (n := zlen a). pose proof (zlen_nonneg a). pose proof (Z.div_mod n 8 ltac:(lia)). pose proof (Z.mod_pos_bound n 8 ltac:(lia)).
  rewrite fold_blocks_spec by (done || lia). rewrite Z2Nat.id by lia. set (i := 8 * (n / 8)).
  rewrite (lower_split i a b) by lia. destruct (bool_decide (map lower (ztake i a) = ztake i b)); [|done]. cbn [negb andb].
  destruct (plain_take i b Hb) as [_ Hb2]. assert (Hl : zlen (zdrop i a) = zlen (zdrop i b)) by (rewrite !zlen_zdrop; lia).
  assert (Ha2 : bytes_ok (zdrop i a)) by by apply Forall_drop.
  assert (Hz : zlen (zdrop i a) = n - i) by (rewrite zlen_zdrop; lia).
  set (a' := zdrop i a) in *. set (b' := zdrop i b) in *. clearbody a' b'.
  destruct (i + 4 <=? n) eqn:E4; bool_simpl; [|apply fold_tail_spec; unfold zlen in Hl; lia].
  destruct (plain_take 4 b' Hb2) as [Hb3 _].
  rewrite (lower_split 4 a' b') by lia. rewrite (word_eq toLower32).
  - rewrite fold_tail_spec.
    + by destruct (bool_decide (map lower (ztake 4 a') = ztake 4 b')).
    + assert (Ez : zlen (zdrop 4 a') = zlen (zdrop 4 b')) by (rewrite !zlen_zdrop; lia). unfold zlen in Ez. lia.
  - intros Hasc. apply toLower32_fold; [done|]. apply zlen_length. rewrite zlen_ztake; lia.
  - unfold toLower32. by eexists.
  - by apply Forall_take.
  - done.
  - assert (Ez : zlen (ztake 4 a') = zlen (ztake 4 b')) by (rewrite !zlen_ztake; lia). unfold zlen in Ez. lia.
Qed.

(** ** The tables *)
Lemma lookup_rows_some rows b k :
  lookup_rows rows b = Some k -> exists r, In r rows /\ row_matches b r = true /\ k = bytes_of_string (r_result r).
Proof.
  induction rows as [|r rows IH]; cbn [lookup_rows]; [done|]. destruct (row_matches b r) eqn:E.
  - intros [= <-]. exists r. split_and!; [by left|done|done].
  - intros H. destruct (IH H) as (r' & Hi & Hr). exists r'. split; [by right|done].
Qed.

(** Rows that compare with a plain spelling and return a spelling of it. *)
Definition row_ok (r : row) : bool :=
  bool_decide (map lower (bytes_of_string (r_result r)) = map lower (bytes_of_string (r_match r)))
  && match r_kind r with
     | Fold => forallb is_plain (bytes_of_string (r_match r))
     | Exact => String.eqb (r_result r) (r_match r)
     end.

Lemma row_sound b r :
  bytes_ok b -> row_ok r = true -> row_matches b r = true -> map lower (bytes_of_string (r_result r)) = map lower b.
Proof.
  intros Hb Hok Hm. unfold row_ok in Hok. unfold row_matches in Hm. rewrite !andb_true_iff in Hok, Hm.
  destruct Hok as [H1 H2], Hm as [_ Hm]. apply bool_decide_eq_true_1 in H1. rewrite H1. destruct (r_kind r).
  - rewrite equalFold_spec in Hm; [|done|].
    + apply bool_decide_eq_true_1 in Hm. rewrite <- Hm. rewrite map_map. apply map_ext. intros c. unfold lower.
      repeat case_match; bool_simpl; lia.
    + apply Forall_forall. intros x Hx. rewrite forallb_forall in H2. by apply H2.
  - apply bool_decide_eq_true_1 in Hm. by subst b.
Qed.

Lemma lookup_rows_lower rows b k :
  forallb row_ok rows = true -> bytes_ok b -> lookup_rows rows b = Some k -> map lower k = map lower b.
Proof.
  intros Hok Hb H. apply lookup_rows_some in H as (r & Hi & Hm & ->). apply row_sound; [done| |done].
  rewrite forallb_forall in Hok. by apply Hok.
Qed.
Lemma lookup_rows_exact rows b k :
  forallb (fun r => row_ok r && match r_kind r with Exact => true | Fold => false end) rows = true ->
  lookup_rows rows b = Some k -> k = b.
Proof.
  intros Hok H. apply lookup_rows_some in H as (r & Hi & Hm & ->). rewrite forallb_forall in Hok. specialize (Hok r Hi).
  unfold row_ok, row_matches in *. destruct (r_kind r); [by rewrite andb_false_r in Hok|]. rewrite !andb_true_iff in *.
  destruct Hok as [[_ Hr] _], Hm as [_ Hm]. apply String.eqb_eq in Hr. apply bool_decide_eq_true_1 in Hm. by rewrite Hr.
Qed.

(** A name the lookup knows in the spelling it returns. *)
Lemma known_rows rows b k :
  forallb (fun r => bool_decide (lookup_rows rows (bytes_of_string (r_result r)) = Some (bytes_of_string (r_result r)))) rows = true ->
  lookup_rows rows b = Some k -> lookup_rows rows k = Some k.
Proof.
  intros Hok H. apply lookup_rows_some in H as (r & Hi & _ & ->). rewrite forallb_forall in Hok. specialize (Hok r Hi).
  by apply bool_decide_eq_true_1 in Hok.
Qed.

Lemma InternKey_some b k : bytes_ok b -> InternKey b = Some k -> k = map lower b /\ InternKey k = Some k.
Proof.
  unfold InternKey. intros Hb. destruct ((zlen b <? 4) || (zlen b >? 25)) eqn:E; [done|]. intros H.
  assert (Hl : map lower k = k).
  { pose proof (lookup_rows_some _ _ _ H) as (r & Hi & _ & ->).
    assert (Hr : forallb (fun r => bool_decide (map lower (bytes_of_string (r_result r)) = bytes_of_string (r_result r))) key_rows = true)
      by (vm_compute; reflexivity).
    rewrite forallb_forall in Hr. specialize (Hr r Hi). by apply bool_decide_eq_true_1 in Hr. }
  pose proof (lookup_rows_lower key_rows b k ltac:(vm_compute; reflexivity) Hb H) as Hlow.
  assert (Hz : zlen k = zlen b). { rewrite <- Hl, Hlow. unfold zlen. by rewrite length_map. }
  rewrite Hz, E. split; [congruence|]. by apply (known_rows key_rows b k ltac:(vm_compute; reflexivity)).
Qed.

(** ** Theorems *)

(** The comparison that folds eight and four bytes at a time is the byte-wise
    one: for any bytes, not only ASCII, and any name without upper-case letters,
    it accepts exactly the spellings whose lower-case form is the name. *)
Theorem equal_fold_is_lower (a b : bytes) :
  bytes_ok a -> Forall (fun x => is_plain x = true) b -> equalFoldSWAR a b = bool_decide (map lower a = b).
Proof. apply equalFold_spec. Qed.

Lemma equal_fold_is_lower_witness :
  equalFoldSWAR (bytes_of_string "Content-TYPE") (bytes_of_string "content-type")
  = bool_decide (map lower (bytes_of_string "Content-TYPE") = bytes_of_string "content-type").
Proof. apply equal_fold_is_lower; [apply bytes_of_string_ok|by eapply bool_decide_eq_true_1]. Defined.

(** The lookups only change the spelling.  A known name is replaced by its
    lower-case form, which is a fixed point; a canonical name differs in case
    only; and values are replaced by themselves. *)
Theorem intern_preserves (b k : bytes) :
  bytes_ok b ->
  (InternKey b = Some k -> k = map lower b /\ InternKey k = Some k)
  /\ (InternCanonicalKey b = Some k -> map lower k = map lower b)
  /\ (InternValue b = Some k -> k = b) /\ (InternValueString b = Some k -> k = b).
Proof.
  intros Hb. split_and!.
  - by apply InternKey_some.
  - by apply lookup_rows_lower.
  - apply lookup_rows_exact. vm_compute. reflexivity.
  - apply lookup_rows_exact. vm_compute. reflexivity.
Qed.

Lemma intern_preserves_witness :
  InternKey (bytes_of_string "Content-TYPE") = Some (map lower (bytes_of_string "Content-TYPE"))
  /\ InternCanonicalKey (bytes_of_string "www-AUTHENTICATE") = Some (bytes_of_string "WWW-Authenticate").
Proof.
  split; [|vm_compute; reflexivity].
  destruct (intern_preserves (bytes_of_string "Content-TYPE") (bytes_of_string "content-type")) as [H _];
    [apply bytes_of_string_ok|].
  destruct H as [H _]; [vm_compute; reflexivity|]. rewrite <- H. vm_compute. reflexivity.
Defined.
