(* ===== verification/HpackInt.v ===== *)
(** * HPACK integers

    Models [readInt], [ReadInt], [appendInt] and [AppendInt] of
    [src/proto/codec/hpack/hpack.go]: unsigned 64-bit integers with an [n]-bit
    prefix in the last byte of the destination (RFC 7541, section 5.1).

    The theorems: reading inverts writing for every 64-bit value and prefix
    length, and reading is total and never exceeds 64 bits. *)

From S2P Require Import Prelude.
Open Scope Z_scope.

(** ** Errors of the package *)
Inductive hpack_error :=
| ErrIntegerTruncated | ErrIntegerOverflow | ErrIndexZero | ErrInvalidHuffman
| ErrTableSizeUpdateNotAllowed | ErrTableSizeLimitExceeded | ErrIndexOutOfBounds (n : Z)
| ErrMalformedString | ErrTruncatedString
| ErrLiteralNotFound (n : Z) | ErrNonIndexedNotFound (n : Z) | ErrUnknownRepresentation | ErrNoProgress.

Definition MaxUint64 : Z := 2 ^ 64 - 1.
Definition prefix_max (n : Z) : Z := u8 (Z.shiftl 1 n - 1).

(** ** Reading *)

(** The loop over the continuation bytes [l]; [b] is what is returned when they
    run out. *)
Fixpoint readInt_loop (b : bytes) (b0 nn shift : Z) (l : bytes) : bytes * res hpack_error Z :=
  match l with
  | [] => (b, Err ErrIntegerTruncated)
  | c :: l' =>
      if (shift >? 63) || ((shift =? 63) && (Z.land c 127 >? 1)) then (l', Err ErrIntegerOverflow)
      else
        let val := Z.land c 127 in
        let added := u64 (Z.shiftl val shift) in
        if nn >? MaxUint64 - added then (l', Err ErrIntegerOverflow)
        else
          let nn := nn + added in
          if Z.land c 128 =? 0 then
            if nn >? MaxUint64 - b0 then (l', Err ErrIntegerOverflow) else (l', Ok (nn + b0))
          else
            let shift := shift + 7 in
            if shift >? 63 then (l', Err ErrIntegerOverflow) else readInt_loop b b0 nn shift l'
  end.

(** The slice left over and the value or the error. *)
Definition readInt (n : Z) (b : bytes) : bytes * res hpack_error Z :=
  match b with
  | [] => (b, Err ErrIntegerTruncated)
  | c :: l =>
      let b0 := prefix_max n in
      if negb (Z.land b0 c =? b0) then (l, Ok (Z.land c b0))
      else match l with
           | [] => (b, Err ErrIntegerTruncated)
           | _ => readInt_loop b b0 0 0 l
           end
  end.

Definition ReadInt (n : Z) (b : bytes) : bytes * Z :=
  let '(rem, v) := readInt n b in (rem, match v with Ok v => v | _ => 0 end).

(** ** Writing *)

(** [dst[len(dst)-1] |= x]. *)
Definition or_last (dst : bytes) (x : Z) : bytes :=
  match rev dst with
  | [] => []
  | y :: r => rev r ++ [Z.lor y x]
  end.

(** The loop [for index >= 128], seven bits at a time. *)
Fixpoint int_groups (fuel : nat) (index : Z) : bytes :=
  match fuel with
  | O => []
  | S fuel' =>
      if index >=? 128 then Z.lor (u8 (Z.land index 127)) 128 :: int_groups fuel' (Z.shiftr index 7)
      else [u8 index]
  end.

Definition appendInt (dst : bytes) (bits index : Z) : bytes :=
  let dst := match dst with [] => [0] | _ => dst end in
  let b0 := u64 (Z.shiftl 1 bits - 1) in
  if index <? b0 then or_last dst (u8 index)
  else
    let dst := or_last dst (u8 b0) in
    let index := index - b0 in
    dst ++ int_groups 10 index.
Definition AppendInt (dst : bytes) (bits index : Z) : bytes := appendInt dst bits index.

(** ** The encoding *)

(** The prefix byte [p] carries other bits above the prefix. *)
Definition int_enc (p n v : Z) : bytes :=
  if v <? 2 ^ n - 1 then [p + v] else (p + (2 ^ n - 1)) :: int_groups 10 (v - (2 ^ n - 1)).
Definition prefix_ok (p n : Z) : Prop := 1 <= n <= 8 /\ is_byte p /\ p mod 2 ^ n = 0.

Lemma or_last_snoc dst y x : or_last (dst ++ [y]) x = dst ++ [Z.lor y x].
Proof. unfold or_last. by rewrite rev_unit, rev_involutive. Qed.

Lemma pow_cases n : 1 <= n <= 8 -> 2 <= 2 ^ n <= 256.
Proof.
  intros H. assert (2 ^ 1 <= 2 ^ n) by (apply Z.pow_le_mono_r; lia). assert (2 ^ n <= 2 ^ 8) by (apply Z.pow_le_mono_r; lia). lia.
Qed.
Lemma prefix_max_eq n : 1 <= n <= 8 -> prefix_max n = 2 ^ n - 1.
Proof.
  intros H. pose proof (pow_cases n H). unfold prefix_max, u8. rewrite Z.shiftl_1_l, Z.mod_small by lia. done.
Qed.
Lemma prefix_lor p n v : prefix_ok p n -> 0 <= v < 2 ^ n -> Z.lor p v = p + v.
Proof.
  intros (Hn & Hp & Hm) Hv. pose proof (pow_cases n Hn). pose proof (Z.div_mod p (2 ^ n) ltac:(lia)).
  replace p with (p / 2 ^ n * 2 ^ n) at 1 by lia. rewrite lor_add by lia. lia.
Qed.

Lemma appendInt_enc dst p n v :
  prefix_ok p n -> 0 <= v -> appendInt (dst ++ [p]) n v = dst ++ int_enc p n v.
Proof.
  intros Hp Hv. pose proof Hp as (Hn & Hb & Hm). pose proof (pow_cases n Hn).
  unfold appendInt, int_enc.
  replace (match dst ++ [p] with [] => [0] | _ => dst ++ [p] end) with (dst ++ [p]) by by destruct dst.
  unfold u64. rewrite Z.shiftl_1_l, (Z.mod_small (2 ^ n - 1)) by lia. destruct (v <? 2 ^ n - 1) eqn:E; bool_simpl.
  - rewrite u8_small by (unfold is_byte; lia). rewrite or_last_snoc, (prefix_lor p n) by (done || lia). done.
  - rewrite u8_small by (unfold is_byte; lia). rewrite or_last_snoc, (prefix_lor p n) by (done || lia).
    by rewrite <- app_assoc.
Qed.

(** ** The round trip *)
Lemma land_127 x : 0 <= x -> Z.land x 127 = x mod 128.
Proof. intros. change 127 with (Z.ones 7). by rewrite Z.land_ones by lia. Qed.

Lemma group_byte x : 0 <= x -> let c := Z.lor (u8 (Z.land x 127)) 128 in Z.land c 127 = x mod 128 /\ Z.land c 128 = 128.
Proof.
  intros Hx. cbn zeta. rewrite (land_127 x) by done. pose proof (Z.mod_pos_bound x 128 ltac:(lia)).
  assert (Hb : is_byte (x mod 128)) by (unfold is_byte; lia).
  assert (H' : (negb (x mod 128 <? 128)
     || ((Z.land (Z.lor (u8 (x mod 128)) 128) 127 =? x mod 128) && (Z.land (Z.lor (u8 (x mod 128)) 128) 128 =? 128))) = true).
  { generalize dependent (x mod 128). intros y _ Hy. revert y Hy. apply (all_bytes_spec (fun y => _)). vm_compute. reflexivity. }
  apply orb_true_iff in H' as [H'|H']; bool_simpl; lia.
Qed.

(** Reading the groups of [x] at bit [7 * k]. *)
Lemma readInt_loop_groups fuel k b b0 nn x tail :
  0 <= x -> 0 <= nn < 2 ^ (7 * k) -> 0 <= b0 < 256 -> 0 <= k -> (1 <= fuel)%nat -> k + Z.of_nat fuel = 10 ->
  nn + x * 2 ^ (7 * k) + b0 < 2 ^ 64 ->
  readInt_loop b b0 nn (7 * k) (int_groups fuel x ++ tail) = (tail, Ok (nn + x * 2 ^ (7 * k) + b0)).
Proof.
  revert k nn x. induction fuel as [|fuel IH]; intros k nn x Hx Hnn Hb0 Hk Hf1 Hf Hv; [lia|].
  assert (Hp : 0 < 2 ^ (7 * k)) by (apply Z.pow_pos_nonneg; lia).
  assert (Hx9 : k = 9 -> x <= 1).
  { intros ->. change (2 ^ (7 * 9)) with (2 ^ 63) in Hv. lia. }
  (* One byte with the seven bits [y]. *)
  assert (Hstep : forall c l, Z.land c 127 = x mod 128 ->
    readInt_loop b b0 nn (7 * k) (c :: l)
    = let nn' := nn + x mod 128 * 2 ^ (7 * k) in
      if Z.land c 128 =? 0 then if nn' >? MaxUint64 - b0 then (l, Err ErrIntegerOverflow) else (l, Ok (nn' + b0))
      else if 7 * k + 7 >? 63 then (l, Err ErrIntegerOverflow) else readInt_loop b b0 nn' (7 * k + 7) l).
  { intros c l Hc. cbn [readInt_loop]. rewrite Hc. pose proof (Z.mod_pos_bound x 128 ltac:(lia)).
    pose proof (Z.mod_le x 128 ltac:(lia) ltac:(lia)).
    assert (E1 : (7 * k >? 63) || ((7 * k =? 63) && (x mod 128 >? 1)) = false).
    { apply orb_false_iff. split; [lia|]. apply andb_false_iff. destruct (Z.eq_dec k 9); [right; specialize (Hx9 ltac:(lia)); lia|left; lia]. }
    rewrite E1. unfold u64. rewrite Z.shiftl_mul_pow2 by lia. rewrite Z.mod_small by nia.
    replace (nn >? MaxUint64 - x mod 128 * 2 ^ (7 * k)) with false by (unfold MaxUint64; symmetry; rewrite Z.gtb_ltb; apply Z.ltb_ge; nia).
    done. }
  cbn [int_groups]. destruct (x >=? 128) eqn:E; bool_simpl; cbn [app].
  - destruct (group_byte x Hx) as [G1 G2]. rewrite Hstep by done. cbn zeta. rewrite G2. change (128 =? 0) with false. cbn iota.
    assert (Hk8 : k <= 8).
    { destruct (Z_le_gt_dec k 8); [done|]. exfalso. assert (2 ^ 63 <= 2 ^ (7 * k)) by (apply Z.pow_le_mono_r; lia). nia. }
    replace (7 * k + 7 >? 63) with false by lia. replace (7 * k + 7) with (7 * (k + 1)) by lia.
    assert (Hpow : 2 ^ (7 * (k + 1)) = 128 * 2 ^ (7 * k)).
    { replace (7 * (k + 1)) with (7 + 7 * k) by lia. rewrite Z.pow_add_r by lia. done. }
    pose proof (Z.div_mod x 128 ltac:(lia)) as Hdm. pose proof (Z.mod_pos_bound x 128 ltac:(lia)).
    rewrite Z.shiftr_div_pow2 by lia. change (2 ^ 7) with 128.
    assert (Hsum : nn + x mod 128 * 2 ^ (7 * k) + x / 128 * 2 ^ (7 * (k + 1)) = nn + x * 2 ^ (7 * k)) by (rewrite Hpow; nia).
    rewrite IH; [by rewrite Hsum|apply Z.div_pos; lia|rewrite Hpow; nia|done|lia|lia|lia|lia].
  - assert (Hs : x mod 128 = x) by (apply Z.mod_small; lia). assert (Hxb : is_byte x) by (unfold is_byte; lia).
    rewrite u8_small by done. rewrite Hstep by by rewrite land_127. cbn zeta. rewrite Hs.
    assert (E0 : Z.land x 128 = 0).
    { assert (H' : ((128 <=? x) || (Z.land x 128 =? 0)) = true)
        by (clear -Hxb; revert x Hxb; apply (all_bytes_spec (fun x => _)); vm_compute; reflexivity).
      apply orb_true_iff in H' as [H'|H']; bool_simpl; lia. }
    rewrite E0. cbn [Z.eqb]. by replace (nn + x * 2 ^ (7 * k) >? MaxUint64 - b0) with false by (unfold MaxUint64; lia).
Qed.

Lemma readInt_enc p n v tail :
  prefix_ok p n -> 0 <= v < 2 ^ 64 -> readInt n (int_enc p n v ++ tail) = (tail, Ok v).
Proof.
  intros Hp Hv. pose proof Hp as (Hn & Hb & Hm). pose proof (pow_cases n Hn). unfold int_enc.
  assert (Hland : forall y, 0 <= y < 2 ^ n -> Z.land (p + y) (2 ^ n - 1) = y).
  { intros y Hy. replace (2 ^ n - 1) with (Z.ones n) by (rewrite Z.ones_equiv; lia).
    rewrite Z.land_ones by lia. rewrite Z.add_mod, Hm, Z.add_0_l, Z.mod_mod, Z.mod_small by lia. done. }
  destruct (v <? 2 ^ n - 1) eqn:E; bool_simpl; cbn [app readInt].
  - rewrite prefix_max_eq by done. rewrite Z.land_comm, Hland by lia. replace (v =? 2 ^ n - 1) with false by lia. cbn [negb].
    by rewrite ?Hland by lia.
  - rewrite prefix_max_eq by done. rewrite Z.land_comm, Hland by lia. rewrite Z.eqb_refl. cbn [negb].
    set (x := v - (2 ^ n - 1)).
    pose proof (readInt_loop_groups 10 0 ((p + (2 ^ n - 1)) :: int_groups 10 x ++ tail) (2 ^ n - 1) 0 x tail) as H0.
    replace (match int_groups 10 x ++ tail with [] => _ | _ => _ end) with
      (readInt_loop ((p + (2 ^ n - 1)) :: int_groups 10 x ++ tail) (2 ^ n - 1) 0 0 (int_groups 10 x ++ tail))
      by (cbn [int_groups]; by destruct (x >=? 128)).
    change (7 * 0) with 0 in H0. change (2 ^ 0) with 1 in H0. rewrite H0 by (unfold x; lia). f_equal. f_equal. unfold x. lia.
Qed.

(** ** Bounds *)
Lemma readInt_loop_spec b b0 nn shift l :
  0 <= nn < 2 ^ 64 -> 0 <= b0 < 256 -> (List.length l < List.length b)%nat ->
  let '(rem, r) := readInt_loop b b0 nn shift l in
  match r with
  | Ok v => 0 <= v < 2 ^ 64 /\ (List.length rem < List.length l)%nat /\ exists w, l = w ++ rem
  | Err e => e = ErrIntegerTruncated \/ e = ErrIntegerOverflow
  | Panic => False
  end.
Proof.
  intros Hnn Hb0 Hl. revert nn shift Hnn. induction l as [|c l IH]; intros nn shift Hnn; cbn [readInt_loop]; [auto|].
  cbn [List.length] in Hl. destruct (_ || _); [auto|]. destruct (nn >? _) eqn:E1; [auto|].
  assert (Ha : 0 <= u64 (Z.shiftl (Z.land c 127) shift) < 2 ^ 64) by (unfold u64; apply Z.mod_pos_bound; lia).
  unfold MaxUint64 in *. bool_simpl. destruct (_ =? 0).
  - destruct (_ >? _) eqn:E2; [auto|]. bool_simpl. cbn [List.length]. split_and!; try lia. by exists [c].
  - destruct (_ >? 63); [auto|]. specialize (IH ltac:(lia) (nn + u64 (Z.shiftl (Z.land c 127) shift)) (shift + 7) ltac:(lia)).
    destruct (readInt_loop _ _ _ _ _) as [rem [v|e|]]; [|done..]. destruct IH as (H1 & H2 & w & H3). cbn [List.length].
    split_and!; [lia..|]. exists (c :: w). by rewrite H3.
Qed.

Lemma readInt_spec n b :
  1 <= n <= 8 -> bytes_ok b ->
  let '(rem, r) := readInt n b in
  match r with
  | Ok v => 0 <= v < 2 ^ 64 /\ (List.length rem < List.length b)%nat /\ exists w, b = w ++ rem
  | Err e => e = ErrIntegerTruncated \/ e = ErrIntegerOverflow
  | Panic => False
  end.
Proof.
  intros Hn Hb. destruct b as [|c l]; cbn [readInt]; [auto|]. pose proof (pow_cases n Hn). rewrite prefix_max_eq by done.
  apply Forall_cons_1 in Hb as [Hc Hl]. destruct (negb _) eqn:E.
  - replace (2 ^ n - 1) with (Z.ones n) by (rewrite Z.ones_equiv; lia). rewrite Z.land_ones by lia.
    pose proof (Z.mod_pos_bound c (2 ^ n) ltac:(lia)). cbn [List.length]. split_and!; try lia. by exists [c].
  - destruct l as [|d l]; [auto|]. set (b := c :: d :: l).
    pose proof (readInt_loop_spec b (2 ^ n - 1) 0 0 (d :: l) ltac:(lia) ltac:(lia) ltac:(unfold b; cbn; lia)) as H0.
    destruct (readInt_loop _ _ _ _ _) as [rem [v|e|]]; [|done..]. destruct H0 as (H1 & H2 & w & H3).
    split_and!; [lia..|unfold b; cbn [List.length] in *; lia|]. exists (c :: w). unfold b. by rewrite H3.
Qed.

(** ** Theorems *)

(** An integer that is written is read back.  For every prefix of one to
    eight bits, every 64-bit value and whatever stands above the prefix in the
    last byte of the destination, [appendInt] leaves the bytes before that one
    alone, and reading from it gives the value and what follows. *)
Theorem hpack_int_roundtrip (dst tail : bytes) (p n v : Z) :
  prefix_ok p n -> 0 <= v < 2 ^ 64 ->
  exists enc, AppendInt (dst ++ [p]) n v = dst ++ enc /\ readInt n (enc ++ tail) = (tail, Ok v)
              /\ ReadInt n (enc ++ tail) = (tail, v).
Proof.
  intros Hp Hv. exists (int_enc p n v). unfold ReadInt. rewrite readInt_enc by done.
  split; [|done]. apply appendInt_enc; [done|lia].
Qed.

Lemma hpack_int_roundtrip_witness :
  exists enc, AppendInt ([7] ++ [0x40]) 6 1337 = [7] ++ enc /\ readInt 6 (enc ++ [9]) = ([9], Ok 1337).
Proof.
  destruct (hpack_int_roundtrip [7] [9] 0x40 6 1337) as (enc & H1 & H2 & _).
  - split; [lia|]. split; [unfold is_byte; lia|reflexivity].
  - lia.
  - by exists enc.
Defined.

(** Reading an integer is total: it yields a 64-bit value and consumes at
    least one byte of the input, or reports truncation or overflow. *)
Theorem hpack_int_total (n : Z) (b : bytes) :
  1 <= n <= 8 -> bytes_ok b ->
  let '(rem, r) := readInt n b in
  match r with
  | Ok v => 0 <= v < 2 ^ 64 /\ (List.length rem < List.length b)%nat /\ exists w, b = w ++ rem
  | Err e => e = ErrIntegerTruncated \/ e = ErrIntegerOverflow
  | Panic => False
  end.
Proof. apply readInt_spec. Qed.

Lemma hpack_int_total_witness :
  readInt 5 (31 :: replicate 10 0xFF ++ [0]) = ([0], Err ErrIntegerOverflow)
  /\ (ErrIntegerOverflow = ErrIntegerTruncated \/ ErrIntegerOverflow = ErrIntegerOverflow).
Proof.
  split; [vm_compute; reflexivity|].
  exact (hpack_int_total 5 (31 :: replicate 10 0xFF ++ [0]) ltac:(lia) ltac:(by eapply bool_decide_eq_true_1)).
Defined.
