(* ===== verification/Huffman.v ===== *)
(** * The Huffman code of HPACK

    Models [src/proto/codec/hpack/huffman.go]: the code of RFC 7541, Appendix B,
    the encoder, the construction of the decoding table from the code, and the
    table-driven decoder that takes a byte at a time.  This is the portable build;
    on amd64 the same functions are in assembly, which is not modelled.

    The theorems: the decoder accepts exactly the encoder's outputs and inverts
    it, so that padding, the EOS symbol and every other input are errors; it never
    panics; and the announced length is the length written. *)

From S2P Require Import Prelude HpackInt.
Open Scope Z_scope.

(** ** The code *)
Definition huffmanCodes : list Z := [
  0x1ff8; 0x7fffd8; 0xfffffe2; 0xfffffe3; 0xfffffe4; 0xfffffe5; 0xfffffe6; 0xfffffe7;
  0xfffffe8; 0xffffea; 0x3ffffffc; 0xfffffe9; 0xfffffea; 0x3ffffffd; 0xfffffeb; 0xfffffec;
  0xfffffed; 0xfffffee; 0xfffffef; 0xffffff0; 0xffffff1; 0xffffff2; 0x3ffffffe; 0xffffff3;
  0xffffff4; 0xffffff5; 0xffffff6; 0xffffff7; 0xffffff8; 0xffffff9; 0xffffffa; 0xffffffb;
  0x14; 0x3f8; 0x3f9; 0xffa; 0x1ff9; 0x15; 0xf8; 0x7fa;
  0x3fa; 0x3fb; 0xf9; 0x7fb; 0xfa; 0x16; 0x17; 0x18;
  0x0; 0x1; 0x2; 0x19; 0x1a; 0x1b; 0x1c; 0x1d;
  0x1e; 0x1f; 0x5c; 0xfb; 0x7ffc; 0x20; 0xffb; 0x3fc;
  0x1ffa; 0x21; 0x5d; 0x5e; 0x5f; 0x60; 0x61; 0x62;
  0x63; 0x64; 0x65; 0x66; 0x67; 0x68; 0x69; 0x6a;
  0x6b; 0x6c; 0x6d; 0x6e; 0x6f; 0x70; 0x71; 0x72;
  0xfc; 0x73; 0xfd; 0x1ffb; 0x7fff0; 0x1ffc; 0x3ffc; 0x22;
  0x7ffd; 0x3; 0x23; 0x4; 0x24; 0x5; 0x25; 0x26;
  0x27; 0x6; 0x74; 0x75; 0x28; 0x29; 0x2a; 0x7;
  0x2b; 0x76; 0x2c; 0x8; 0x9; 0x2d; 0x77; 0x78;
  0x79; 0x7a; 0x7b; 0x7ffe; 0x7fc; 0x3ffd; 0x1ffd; 0xffffffc;
  0xfffe6; 0x3fffd2; 0xfffe7; 0xfffe8; 0x3fffd3; 0x3fffd4; 0x3fffd5; 0x7fffd9;
  0x3fffd6; 0x7fffda; 0x7fffdb; 0x7fffdc; 0x7fffdd; 0x7fffde; 0xffffeb; 0x7fffdf;
  0xffffec; 0xffffed; 0x3fffd7; 0x7fffe0; 0xffffee; 0x7fffe1; 0x7fffe2; 0x7fffe3;
  0x7fffe4; 0x1fffdc; 0x3fffd8; 0x7fffe5; 0x3fffd9; 0x7fffe6; 0x7fffe7; 0xffffef;
  0x3fffda; 0x1fffdd; 0xfffe9; 0x3fffdb; 0x3fffdc; 0x7fffe8; 0x7fffe9; 0x1fffde;
  0x7fffea; 0x3fffdd; 0x3fffde; 0xfffff0; 0x1fffdf; 0x3fffdf; 0x7fffeb; 0x7fffec;
  0x1fffe0; 0x1fffe1; 0x3fffe0; 0x1fffe2; 0x7fffed; 0x3fffe1; 0x7fffee; 0x7fffef;
  0xfffea; 0x3fffe2; 0x3fffe3; 0x3fffe4; 0x7ffff0; 0x3fffe5; 0x3fffe6; 0x7ffff1;
  0x3ffffe0; 0x3ffffe1; 0xfffeb; 0x7fff1; 0x3fffe7; 0x7ffff2; 0x3fffe8; 0x1ffffec;
  0x3ffffe2; 0x3ffffe3; 0x3ffffe4; 0x7ffffde; 0x7ffffdf; 0x3ffffe5; 0xfffff1; 0x1ffffed;
  0x7fff2; 0x1fffe3; 0x3ffffe6; 0x7ffffe0; 0x7ffffe1; 0x3ffffe7; 0x7ffffe2; 0xfffff2;
  0x1fffe4; 0x1fffe5; 0x3ffffe8; 0x3ffffe9; 0xffffffd; 0x7ffffe3; 0x7ffffe4; 0x7ffffe5;
  0xfffec; 0xfffff3; 0xfffed; 0x1fffe6; 0x3fffe9; 0x1fffe7; 0x1fffe8; 0x7ffff3;
  0x3fffea; 0x3fffeb; 0x1ffffee; 0x1ffffef; 0xfffff4; 0xfffff5; 0x3ffffea; 0x7ffff4;
  0x3ffffeb; 0x7ffffe6; 0x3ffffec; 0x3ffffed; 0x7ffffe7; 0x7ffffe8; 0x7ffffe9; 0x7ffffea;
  0x7ffffeb; 0xffffffe; 0x7ffffec; 0x7ffffed; 0x7ffffee; 0x7ffffef; 0x7fffff0; 0x3ffffee
].

Definition huffmanCodeLen : list Z := [
  13; 23; 28; 28; 28; 28; 28; 28; 28; 24; 30; 28; 28; 30; 28; 28;
  28; 28; 28; 28; 28; 28; 30; 28; 28; 28; 28; 28; 28; 28; 28; 28;
  6; 10; 10; 12; 13; 6; 8; 11; 10; 10; 8; 11; 8; 6; 6; 6;
  5; 5; 5; 6; 6; 6; 6; 6; 6; 6; 7; 8; 15; 6; 12; 10;
  13; 6; 7; 7; 7; 7; 7; 7; 7; 7; 7; 7; 7; 7; 7; 7;
  7; 7; 7; 7; 7; 7; 7; 7; 8; 7; 8; 13; 19; 13; 14; 6;
  15; 5; 6; 5; 6; 5; 6; 6; 6; 5; 7; 7; 6; 6; 6; 5;
  6; 7; 6; 5; 5; 6; 7; 7; 7; 7; 7; 15; 11; 14; 13; 28;
  20; 22; 20; 20; 22; 22; 22; 23; 22; 23; 23; 23; 23; 23; 24; 23;
  24; 24; 22; 23; 24; 23; 23; 23; 23; 21; 22; 23; 22; 23; 23; 24;
  22; 21; 20; 22; 22; 23; 23; 21; 23; 22; 22; 24; 21; 22; 23; 23;
  21; 21; 22; 21; 23; 22; 23; 23; 20; 22; 22; 22; 23; 22; 22; 23;
  26; 26; 20; 19; 22; 23; 22; 25; 26; 26; 26; 27; 27; 26; 24; 25;
  19; 21; 26; 27; 27; 26; 27; 24; 21; 21; 26; 26; 28; 27; 27; 27;
  20; 24; 20; 21; 22; 21; 21; 23; 22; 22; 25; 25; 24; 24; 26; 23;
  26; 27; 26; 26; 27; 27; 27; 27; 27; 28; 27; 27; 27; 27; 27; 26
].

(** ** Encoding *)

(** [for length >= 8]: the bytes written and the bits left. *)
Fixpoint flush_bytes (fuel : nat) (code length : Z) : bytes * Z :=
  match fuel with
  | O => ([], length)
  | S fuel' =>
      if length >=? 8 then
        let length := length - 8 in
        let '(out, rest) := flush_bytes fuel' code length in
        (u8 (Z.shiftr code length) :: out, rest)
      else ([], length)
  end.

Fixpoint encode_loop (src : bytes) (code length : Z) (dst : bytes) : Z * Z * bytes :=
  match src with
  | [] => (code, length, dst)
  | b :: src' =>
      let n := znth huffmanCodeLen b in
      let c := znth huffmanCodes b in
      let length := u8 (length + n) in
      let code := u64 (Z.lor (Z.shiftl code n) c) in
      let '(out, length) := flush_bytes 5 code length in
      encode_loop src' code length (dst ++ out)
  end.

Definition huffmanEncodeFallback (dst src : bytes) : bytes :=
  match src with
  | [] => dst
  | _ =>
      let '(code, length, dst) := encode_loop src 0 0 dst in
      if length >? 0 then
        let n := 8 - length in
        let code := u64 (Z.lor (Z.shiftl code n) (Z.shiftl 1 n - 1)) in
        dst ++ [u8 code]
      else dst
  end.
Definition HuffmanEncode (dst src : bytes) : bytes := huffmanEncodeFallback dst src.

Definition HuffmanEncodeLength (src : bytes) : Z :=
  (fold_left (fun bits c => u64 (bits + znth huffmanCodeLen c)) src 0 + 7) / 8.

(** ** The decoding table *)
(** A pointer to a node: nil, a leaf, or an inner node. *)
Inductive hnode := HNil | HLeaf (codeLen sym : Z) | HNode (sub : list hnode).

(** [huffmanNode.add] on the children of a node.  A child on the path is an
    inner node, since no code is a prefix of another. *)
Fixpoint node_add (fuel : nat) (sub : list hnode) (sym code length : Z) : list hnode :=
  match fuel with
  | O => sub
  | S fuel' =>
      if length >? 8 then
        let length := length - 8 in
        let i := Z.to_nat (u8 (Z.shiftr code length)) in
        let child := match sub !! i with Some (HNode s) => s | _ => replicate 256 HNil end in
        <[i := HNode (node_add fuel' child sym code length)]> sub
      else
        let shift := 8 - length in
        let start := Z.to_nat (u8 (Z.shiftl code shift)) in
        let end_ := Z.to_nat (Z.shiftl 1 shift) in
        fold_left (fun sub i => <[i := HLeaf length sym]> sub) (seq start end_) sub
  end.

Definition huffman_root : list hnode :=
  fold_left (fun root i => node_add 5 root (Z.of_nat i) (znth huffmanCodes (Z.of_nat i)) (znth huffmanCodeLen (Z.of_nat i)))
    (seq 0 256) (replicate 256 HNil).

Record huffmanTableEntry := mkEntry { next : Z; codeLen : Z; sym : Z; isLeaf : bool }.
Definition zero_entry : huffmanTableEntry := mkEntry 0 0 0 false.

Definition set_entry (flat : list (list huffmanTableEntry)) (idx i : nat) (e : huffmanTableEntry) : list (list huffmanTableEntry) :=
  match flat !! idx with Some row => <[idx := <[i := e]> row]> flat | None => flat end.

(** [register]: a node's row is reserved first, then its children are added in
    order; every node is reached once. *)
Fixpoint register (fuel : nat) (sub : list hnode) (flat : list (list huffmanTableEntry)) : list (list huffmanTableEntry) :=
  match fuel with
  | O => flat
  | S fuel' =>
      let idx := List.length flat in
      let flat := flat ++ [replicate 256 zero_entry] in
      fold_left (fun flat i =>
        match sub !! i with
        | Some (HNode s) =>
            let subIdx := Z.of_nat (List.length flat) in
            set_entry (register fuel' s flat) idx i (mkEntry subIdx 0 0 false)
        | Some (HLeaf cl sy) => set_entry flat idx i (mkEntry 0 cl sy true)
        | _ => flat
        end) (seq 0 256) flat
  end.
Definition flatHuffmanTable : list (list huffmanTableEntry) := Eval vm_compute in register 5 huffman_root [].

(** ** Decoding *)
Definition table_get (node x : Z) : res hpack_error huffmanTableEntry :=
  match flatHuffmanTable !! Z.to_nat node with
  | Some row => match row !! Z.to_nat x with Some e => Ok e | None => Panic end
  | None => Panic
  end.

(** [for cbits >= 8]. *)
Fixpoint decode_inner (fuel : nat) (cum cbits sbits currNode : Z) (dst : bytes) :
    bytes * res hpack_error (Z * Z * Z) :=
  match fuel with
  | O => (dst, Ok (cbits, sbits, currNode))
  | S fuel' =>
      if cbits >=? 8 then
        match table_get currNode (u8 (Z.shiftr cum (cbits - 8))) with
        | Ok entry =>
            if negb (isLeaf entry) then
              if (next entry =? 0) && negb (currNode =? 0) then (dst, Err ErrInvalidHuffman)
              else decode_inner fuel' cum (cbits - 8) sbits (next entry) dst
            else
              let cbits := u8 (cbits - codeLen entry) in
              decode_inner fuel' cum cbits cbits 0 (dst ++ [sym entry])
        | Err e => (dst, Err e)
        | Panic => (dst, Panic)
        end
      else (dst, Ok (cbits, sbits, currNode))
  end.

Fixpoint decode_bytes (src : bytes) (cum cbits sbits currNode : Z) (dst : bytes) :
    bytes * res hpack_error (Z * Z * Z * Z) :=
  match src with
  | [] => (dst, Ok (cum, cbits, sbits, currNode))
  | b :: src' =>
      let cum := u32 (Z.lor (Z.shiftl cum 8) b) in
      let cbits := u8 (cbits + 8) in
      let sbits := u8 (sbits + 8) in
      match decode_inner 16 cum cbits sbits currNode dst with
      | (dst, Ok (cbits, sbits, currNode)) => decode_bytes src' cum cbits sbits currNode dst
      | (dst, Err e) => (dst, Err e)
      | (dst, Panic) => (dst, Panic)
      end
  end.

(** [for cbits > 0]. *)
Fixpoint decode_tail (fuel : nat) (cum cbits sbits currNode : Z) (dst : bytes) : bytes * res hpack_error (Z * Z * Z) :=
  match fuel with
  | O => (dst, Ok (cum, cbits, sbits))
  | S fuel' =>
      if cbits >? 0 then
        match table_get currNode (u8 (u32 (Z.shiftl cum (8 - cbits)))) with
        | Ok entry =>
            if negb (isLeaf entry) || (codeLen entry >? cbits) then (dst, Ok (cum, cbits, sbits))
            else
              let dst := dst ++ [sym entry] in
              let cbits := cbits - codeLen entry in
              decode_tail fuel' (Z.land cum (Z.shiftl 1 cbits - 1)) cbits cbits 0 dst
        | Err e => (dst, Err e)
        | Panic => (dst, Panic)
        end
      else (dst, Ok (cum, cbits, sbits))
  end.

Definition appendHuffmanDecodeFallback (dst src : bytes) : bytes * res hpack_error unit :=
  match src with
  | [] => (dst, Ok tt)
  | _ =>
      match decode_bytes src 0 0 0 0 dst with
      | (dst, Ok (cum, cbits, sbits, currNode)) =>
          let cum := Z.land cum (Z.shiftl 1 cbits - 1) in
          match decode_tail 8 cum cbits sbits currNode dst with
          | (dst, Ok (cum, cbits, sbits)) =>
              if sbits >? 7 then (dst, Err ErrInvalidHuffman)
              else
                let mask := Z.shiftl 1 cbits - 1 in
                if negb (Z.land cum mask =? mask) then (dst, Err ErrInvalidHuffman) else (dst, Ok tt)
          | (dst, Err e) => (dst, Err e)
          | (dst, Panic) => (dst, Panic)
          end
      | (dst, Err e) => (dst, Err e)
      | (dst, Panic) => (dst, Panic)
      end
  end.
Definition AppendHuffmanDecode (dst src : bytes) : bytes * res hpack_error unit := appendHuffmanDecodeFallback dst src.
Definition HuffmanDecode (dst src : bytes) : bytes := fst (AppendHuffmanDecode dst src).
Definition HuffmanDecodeToString (src : bytes) : res hpack_error bytes :=
  match AppendHuffmanDecode [] src with
  | (dst, Ok _) => Ok dst
  | (_, Err e) => Err e
  | (_, Panic) => Panic
  end.

(** ** Bits *)

(** The low [w] bits of [z], most significant first. *)
Fixpoint zbits (w : nat) (z : Z) : list bool :=
  match w with
  | O => []
  | S w' => Z.testbit z (Z.of_nat w') :: zbits w' z
  end.
Definition bytes_bits (l : bytes) : list bool := concat (map (zbits 8) l).
Definition code_bits (b : Z) : list bool := zbits (Z.to_nat (znth huffmanCodeLen b)) (znth huffmanCodes b).
Definition enc_bits (s : bytes) : list bool := concat (map code_bits s).

Lemma zbits_length w z : List.length (zbits w z) = w.
Proof. induction w as [|w IH]; cbn; [done|]. by rewrite IH. Qed.
Lemma zbits_ext w x y : (forall i, 0 <= i < Z.of_nat w -> Z.testbit x i = Z.testbit y i) -> zbits w x = zbits w y.
Proof.
  induction w as [|w IH]; intros H; [done|]. cbn [zbits]. rewrite H by lia. f_equal. apply IH. intros i Hi. apply H. lia.
Qed.
Lemma zbits_split a b z : zbits (a + b) z = zbits a (Z.shiftr z (Z.of_nat b)) ++ zbits b z.
Proof.
  induction a as [|a IH]; [done|]. cbn [zbits Nat.add app]. rewrite IH. f_equal. rewrite Z.shiftr_spec by lia. f_equal. lia.
Qed.
Lemma zbits_mod w k z : (w <= k)%nat -> zbits w (z mod 2 ^ Z.of_nat k) = zbits w z.
Proof. intros H. apply zbits_ext. intros i Hi. apply Z.mod_pow2_bits_low. lia. Qed.
Lemma zbits_ones w : zbits w (2 ^ Z.of_nat w - 1) = replicate w true.
Proof.
  replace (2 ^ Z.of_nat w - 1) with (Z.ones (Z.of_nat w)) by (rewrite Z.ones_equiv; lia).
  assert (H : forall k, (k <= w)%nat -> zbits k (Z.ones (Z.of_nat w)) = replicate k true).
  { induction k as [|k IH]; intros Hk; [done|]. cbn [zbits replicate]. rewrite Z.ones_spec_low by lia. f_equal. apply IH. lia. }
  by apply H.
Qed.
Lemma zbits_shiftl w n x c :
  0 <= c < 2 ^ Z.of_nat n -> zbits (w + n) (Z.lor (Z.shiftl x (Z.of_nat n)) c) = zbits w x ++ zbits n c.
Proof.
  intros Hc. rewrite zbits_split. f_equal.
  - apply zbits_ext. intros i Hi. rewrite Z.shiftr_spec, Z.lor_spec, Z.shiftl_spec by lia.
    replace (i + Z.of_nat n - Z.of_nat n) with i by lia.
    replace (Z.testbit c (i + Z.of_nat n)) with false; [by rewrite orb_false_r|].
    destruct (Z.eq_dec c 0) as [->|]; [by rewrite Z.testbit_0_l|]. symmetry. apply Z.bits_above_log2; [lia|].
    assert (Z.log2 c < Z.of_nat n) by (apply Z.log2_lt_pow2; lia). lia.
  - apply zbits_ext. intros i Hi. rewrite Z.lor_spec, Z.shiftl_spec by lia. by rewrite Z.testbit_neg_r by lia.
Qed.
Lemma zbits_inj w x y : 0 <= x < 2 ^ Z.of_nat w -> 0 <= y < 2 ^ Z.of_nat w -> zbits w x = zbits w y -> x = y.
Proof.
  intros Hx Hy E. apply Z.bits_inj'. intros i Hi.
  assert (Hb : forall k, zbits k x = zbits k y -> 0 <= i < Z.of_nat k -> Z.testbit x i = Z.testbit y i).
  { induction k as [|k IH]; intros Ek Hk; [lia|]. cbn [zbits] in Ek. injection Ek as E1 E2.
    destruct (Z.eq_dec i (Z.of_nat k)) as [->|]; [done|]. apply IH; [done|lia]. }
  destruct (Z_lt_ge_dec i (Z.of_nat w)); [by apply (Hb w)|].
  assert (Hz : forall z, 0 <= z < 2 ^ Z.of_nat w -> Z.testbit z i = false).
  { intros z Hz. destruct (Z.eq_dec z 0) as [->|]; [by rewrite Z.testbit_0_l|]. apply Z.bits_above_log2; [lia|].
    assert (Z.log2 z < Z.of_nat w) by (apply Z.log2_lt_pow2; lia). lia. }
  by rewrite !Hz.
Qed.
Lemma zbits_u8 x : zbits 8 (u8 x) = zbits 8 x.
Proof. apply (zbits_mod 8 8). lia. Qed.

Lemma bytes_bits_app a b : bytes_bits (a ++ b) = bytes_bits a ++ bytes_bits b.
Proof. unfold bytes_bits. by rewrite map_app, concat_app. Qed.
Lemma bytes_bits_cons x l : bytes_bits (x :: l) = zbits 8 x ++ bytes_bits l.
Proof. done. Qed.
Lemma bytes_bits_length l : List.length (bytes_bits l) = (8 * List.length l)%nat.
Proof.
  induction l as [|x l IH]; [done|]. rewrite bytes_bits_cons, length_app, zbits_length, IH. cbn [List.length]. lia.
Qed.
Lemma bytes_bits_inj a b : bytes_ok a -> bytes_ok b -> bytes_bits a = bytes_bits b -> a = b.
Proof.
  intros Ha. revert b. induction Ha as [|x a Hx Ha IH]; intros b Hb E.
  - destruct b; [done|]. apply (f_equal List.length) in E. rewrite !bytes_bits_length in E. cbn in E. lia.
  - destruct b as [|y b]; [apply (f_equal List.length) in E; rewrite !bytes_bits_length in E; cbn in E; lia|].
    apply Forall_cons_1 in Hb as [Hy Hb]. rewrite !bytes_bits_cons in E.
    apply app_inj_1 in E as [E1 E2]; [|by rewrite !zbits_length]. f_equal; [|by apply IH].
    apply (zbits_inj 8); [exact Hx|exact Hy|exact E1].
Qed.

(** ** The encoder writes the bits of the code *)
Lemma code_table b :
  is_byte b -> 5 <= znth huffmanCodeLen b <= 30 /\ 0 <= znth huffmanCodes b < 2 ^ znth huffmanCodeLen b.
Proof.
  intros Hb. assert (H : (5 <=? znth huffmanCodeLen b) && (znth huffmanCodeLen b <=? 30) && (0 <=? znth huffmanCodes b)
    && (znth huffmanCodes b <? 2 ^ znth huffmanCodeLen b) = true).
  { revert b Hb. apply (all_bytes_spec (fun b => _)). vm_compute. reflexivity. }
  bool_simpl. lia.
Qed.

Lemma flush_bytes_bits fuel code length :
  0 <= length < 8 * Z.of_nat fuel + 8 ->
  let '(out, rest) := flush_bytes fuel code length in
  0 <= rest < 8 /\ bytes_ok out
  /\ zbits (Z.to_nat length) code = bytes_bits out ++ zbits (Z.to_nat rest) code.
Proof.
  revert length. induction fuel as [|fuel IH]; intros length Hl; cbn [flush_bytes].
  { split_and!; [lia..|constructor|done]. }
  destruct (length >=? 8) eqn:E; bool_simpl; [|split_and!; [lia..|constructor|done]].
  specialize (IH (length - 8) ltac:(lia)). destruct (flush_bytes fuel code (length - 8)) as [out rest].
  destruct IH as (H1 & H2 & H3). split_and!; [lia..| |].
  - constructor; [|done]. apply u8_range.
  - rewrite bytes_bits_cons, zbits_u8, <- app_assoc, <- H3.
    replace (Z.to_nat length) with (8 + Z.to_nat (length - 8))%nat by lia. rewrite zbits_split. f_equal. f_equal. f_equal. lia.
Qed.

Lemma encode_loop_bits src code length dst :
  bytes_ok src -> 0 <= length < 8 ->
  let '(code', length', dst') := encode_loop src code length dst in
  0 <= length' < 8 /\ (exists out, dst' = dst ++ out /\ bytes_ok out
  /\ zbits (Z.to_nat length) code ++ enc_bits src = bytes_bits out ++ zbits (Z.to_nat length') code').
Proof.
  intros Hs. revert code length dst. induction Hs as [|b src Hb Hs IH]; intros code length dst Hl; cbn [encode_loop].
  { split; [done|]. exists []. split_and!; [by rewrite app_nil_r|constructor|by rewrite app_nil_r]. }
  destruct (code_table b Hb) as [Hn Hc]. set (n := znth huffmanCodeLen b) in *. set (c := znth huffmanCodes b) in *.
  rewrite u8_small by (unfold is_byte; lia).
  assert (E : zbits (Z.to_nat (length + n)) (u64 (Z.lor (Z.shiftl code n) c)) = zbits (Z.to_nat length) code ++ code_bits b).
  { unfold u64. change (2 ^ 64) with (2 ^ Z.of_nat 64). rewrite zbits_mod by lia.
    replace (Z.to_nat (length + n)) with (Z.to_nat length + Z.to_nat n)%nat by lia.
    replace n with (Z.of_nat (Z.to_nat n)) at 2 by lia. rewrite zbits_shiftl by (rewrite Z2Nat.id; lia). done. }
  pose proof (flush_bytes_bits 5 (u64 (Z.lor (Z.shiftl code n) c)) (length + n) ltac:(lia)) as Hf.
  set (code1 := u64 (Z.lor (Z.shiftl code n) c)) in *. destruct (flush_bytes 5 code1 (length + n)) as [out rest].
  destruct Hf as (Hr & Ho & Hbits). specialize (IH code1 rest (dst ++ out) Hr).
  destruct (encode_loop src code1 rest (dst ++ out)) as [[code' length'] dst'].
  destruct IH as (Hl' & out' & -> & Ho' & Hb'). split; [done|]. exists (out ++ out').
  split_and!; [by rewrite app_assoc|by apply bytes_ok_app|].
  change (enc_bits (b :: src)) with (code_bits b ++ enc_bits src).
  by rewrite app_assoc, <- E, Hbits, <- app_assoc, Hb', bytes_bits_app, <- app_assoc.
Qed.

(** The padding is the shortest run of ones that completes a byte. *)
Lemma encode_bits dst src :
  bytes_ok src ->
  exists out pad, huffmanEncodeFallback dst src = dst ++ out /\ bytes_ok out /\ (pad < 8)%nat
  /\ bytes_bits out = enc_bits src ++ replicate pad true.
Proof.
  intros Hs. destruct src as [|b src].
  { exists [], 0%nat. split_and!; [by rewrite app_nil_r|constructor|lia|done]. }
  unfold huffmanEncodeFallback. pose proof (encode_loop_bits (b :: src) 0 0 dst Hs ltac:(lia)) as H.
  set (s := b :: src) in *. destruct (encode_loop s 0 0 dst) as [[code length] dst'].
  destruct H as (Hl & out & -> & Ho & Hbits). change (zbits (Z.to_nat 0) 0 ++ enc_bits s) with (enc_bits s) in Hbits.
  destruct (length >? 0) eqn:E; bool_simpl.
  - exists (out ++ [u8 (u64 (Z.lor (Z.shiftl code (8 - length)) (Z.shiftl 1 (8 - length) - 1)))]), (Z.to_nat (8 - length)).
    split_and!; [by rewrite app_assoc| |lia|].
    + apply bytes_ok_app. split; [done|]. apply Forall_singleton, u8_range.
    + rewrite bytes_bits_app, Hbits, <- app_assoc. f_equal. unfold bytes_bits. cbn [map concat]. rewrite app_nil_r, zbits_u8.
      unfold u64. change (2 ^ 64) with (2 ^ Z.of_nat 64). rewrite zbits_mod by lia.
      rewrite Z.shiftl_1_l. replace 8%nat with (Z.to_nat length + Z.to_nat (8 - length))%nat by lia.
      replace (8 - length) with (Z.of_nat (Z.to_nat (8 - length))) at 2 3 by lia.
      rewrite zbits_shiftl.
      * f_equal. apply zbits_ones.
      * assert (0 < 2 ^ Z.of_nat (Z.to_nat (8 - length))) by (apply Z.pow_pos_nonneg; lia). lia.
  - exists out, 0%nat. split_and!; [done|done|lia|]. rewrite app_nil_r. replace length with 0 in Hbits by lia.
    change (zbits (Z.to_nat 0) code) with (@nil bool) in Hbits. by rewrite app_nil_r in Hbits.
Qed.

(** ** The code as a binary tree *)
Inductive trie := TEmpty | TLeaf (s : Z) | TNode (l r : trie).

Fixpoint trie_insert (t : trie) (path : list bool) (s : Z) : trie :=
  match path with
  | [] => TLeaf s
  | b :: path' =>
      let '(l, r) := match t with TNode l r => (l, r) | _ => (TEmpty, TEmpty) end in
      if b : bool then TNode l (trie_insert r path' s) else TNode (trie_insert l path' s) r
  end.
Definition code_trie : trie :=
  Eval vm_compute in fold_left (fun t b => trie_insert t (code_bits b) b) all_bytes TEmpty.

Fixpoint subtree (t : trie) (path : list bool) {struct path} : trie :=
  match path with
  | [] => t
  | b :: path' => match t with TNode l r => subtree (if b : bool then r else l) path' | _ => TEmpty end
  end.
Fixpoint leaves (t : trie) (path : list bool) : list (list bool * Z) :=
  match t with
  | TEmpty => []
  | TLeaf s => [(path, s)]
  | TNode l r => leaves l (path ++ [false]) ++ leaves r (path ++ [true])
  end.

Lemma subtree_app t a b : subtree t (a ++ b) = subtree (subtree t a) b.
Proof.
  revert t. induction a as [|x a IH]; intros t; [done|]. cbn [app subtree]. destruct t; [destruct b; reflexivity..|apply IH].
Qed.
Lemma leaves_complete t path q s : subtree t q = TLeaf s -> In (path ++ q, s) (leaves t path).
Proof.
  revert path q. induction t as [|s'|l IHl r IHr]; intros path [|b q] H; cbn [subtree] in H; try done.
  - injection H as ->. left. by rewrite app_nil_r.
  - cbn [leaves]. apply in_or_app. destruct b; [right; specialize (IHr (path ++ [true]) q H)|left; specialize (IHl (path ++ [false]) q H)];
      by rewrite <- app_assoc in *.
Qed.

(** The leaves are the codes, each at its symbol. *)
Lemma leaf_code p s : subtree code_trie p = TLeaf s -> p = code_bits s /\ is_byte s.
Proof.
  intros H. apply (leaves_complete _ []) in H. cbn [app] in H.
  assert (Hc : forallb (fun '(q, s) => bool_decide (q = code_bits s) && (0 <=? s) && (s <? 256)) (leaves code_trie []) = true)
    by (vm_compute; reflexivity).
  rewrite forallb_forall in Hc. specialize (Hc _ H). cbv beta iota in Hc. rewrite !andb_true_iff in Hc.
  destruct Hc as [[Hq H0] H1]. apply bool_decide_eq_true_1 in Hq. unfold is_byte. bool_simpl. split; [done|lia].
Qed.
Definition is_leaf_of (b : Z) : bool := match subtree code_trie (code_bits b) with TLeaf s => s =? b | _ => false end.
Lemma code_leaf b : is_byte b -> subtree code_trie (code_bits b) = TLeaf b.
Proof.
  intros Hb. assert (H : is_leaf_of b = true) by (revert b Hb; apply all_bytes_spec; vm_compute; reflexivity).
  unfold is_leaf_of in H. destruct (subtree _ _); try done. bool_simpl. by subst.
Qed.

(** ** Decoding bit by bit

    [p] is the path of the bits read since the last symbol. *)
Fixpoint parse (p bits : list bool) : option (bytes * list bool) :=
  match bits with
  | [] => Some ([], p)
  | b :: bits' =>
      match subtree code_trie (p ++ [b]) with
      | TLeaf s => match parse [] bits' with Some (out, q) => Some (s :: out, q) | None => None end
      | TNode _ _ => parse (p ++ [b]) bits'
      | TEmpty => None
      end
  end.

Lemma parse_app p a b :
  parse p (a ++ b) =
  match parse p a with
  | Some (o1, q) => match parse q b with Some (o2, q') => Some (o1 ++ o2, q') | None => None end
  | None => None
  end.
Proof.
  revert p. induction a as [|x a IH]; intros p; cbn [app parse].
  { by destruct (parse p b) as [[o q]|]. }
  destruct (subtree _ _); [done| |apply IH]. rewrite IH. destruct (parse [] a) as [[o q]|]; [|done].
  by destruct (parse q b) as [[o2 q']|].
Qed.

Lemma parse_sound p bits out q : parse p bits = Some (out, q) -> p ++ bits = enc_bits out ++ q /\ bytes_ok out.
Proof.
  revert p out. induction bits as [|b bits IH]; intros p out H; cbn [parse] in H.
  { injection H as <- <-. rewrite app_nil_r. split; [done|constructor]. }
  destruct (subtree code_trie (p ++ [b])) as [|s|l r] eqn:E; [done| |].
  - destruct (parse [] bits) as [[o q']|] eqn:E2; [|done]. injection H as <- <-. destruct (leaf_code _ _ E) as [Ep Hs].
    destruct (IH [] o E2) as [H1 H2]. split; [|by constructor]. change (enc_bits (s :: o)) with (code_bits s ++ enc_bits o).
    rewrite <- Ep, <- !app_assoc. cbn [app]. by rewrite <- H1.
  - destruct (IH (p ++ [b]) out H) as [H1 H2]. rewrite <- app_assoc in H1. done.
Qed.

Lemma subtree_prefix p r s : subtree code_trie (p ++ r) = TLeaf s -> r <> [] -> exists x y, subtree code_trie p = TNode x y.
Proof.
  rewrite subtree_app. destruct r as [|b r]; [done|]. cbn [subtree]. destruct (subtree code_trie p); [done..|]. by eauto.
Qed.
Lemma parse_code p r s bits :
  p ++ r = code_bits s -> is_byte s -> r <> [] ->
  parse p (r ++ bits) = match parse [] bits with Some (out, q) => Some (s :: out, q) | None => None end.
Proof.
  intros E Hs. pose proof (code_leaf s Hs) as Hleaf. rewrite <- E in Hleaf. clear E. revert p Hleaf.
  induction r as [|b r IH]; intros p Hleaf Hr; [done|]. cbn [app parse].
  replace (p ++ b :: r) with ((p ++ [b]) ++ r) in Hleaf by by rewrite <- app_assoc.
  destruct r as [|b' r].
  - rewrite app_nil_r in Hleaf. by rewrite Hleaf.
  - destruct (subtree_prefix _ _ _ Hleaf ltac:(done)) as (x & y & ->). by apply IH.
Qed.
Lemma code_bits_nonempty b : is_byte b -> code_bits b <> [].
Proof.
  intros Hb E. destruct (code_table b Hb). apply (f_equal List.length) in E. unfold code_bits in E.
  rewrite zbits_length in E. cbn [List.length] in E. lia.
Qed.
Lemma parse_enc s bits :
  bytes_ok s -> parse [] (enc_bits s ++ bits) = match parse [] bits with Some (out, q) => Some (s ++ out, q) | None => None end.
Proof.
  induction 1 as [|b s Hb Hs IH]; [change (enc_bits [] ++ bits) with bits; by destruct (parse [] bits) as [[o q]|]|].
  change (enc_bits (b :: s)) with (code_bits b ++ enc_bits s). rewrite <- app_assoc.
  rewrite (parse_code [] (code_bits b) b (enc_bits s ++ bits) eq_refl Hb); [|by apply code_bits_nonempty].
  rewrite IH. by destruct (parse [] bits) as [[o q]|].
Qed.
Lemma parse_padding n : (n < 8)%nat -> parse [] (replicate n true) = Some ([], replicate n true).
Proof. intros H. do 8 (destruct n as [|n]; [vm_compute; reflexivity|]). lia. Qed.

(** ** The table and the tree *)

(** The first leaf on the way down from the node at [p]. *)
Inductive walked := WLeaf (s : Z) (k : nat) | WNode | WFail.
Fixpoint walk (p bits : list bool) : walked :=
  match bits with
  | [] => WNode
  | b :: bits' =>
      match subtree code_trie (p ++ [b]) with
      | TLeaf s => WLeaf s 1
      | TNode _ _ => match walk (p ++ [b]) bits' with WLeaf s k => WLeaf s (S k) | w => w end
      | TEmpty => WFail
      end
  end.

Lemma walk_leaf p bits s k :
  walk p bits = WLeaf s k ->
  (1 <= k <= List.length bits)%nat /\ is_byte s
  /\ forall rest, parse p (take k bits ++ rest) = match parse [] rest with Some (out, q) => Some (s :: out, q) | None => None end.
Proof.
  revert p k. induction bits as [|b bits IH]; intros p k H; cbn [walk] in H; [done|].
  destruct (subtree code_trie (p ++ [b])) as [|s'|l r] eqn:E; [done| |].
  - injection H as -> <-. cbn [List.length]. split; [lia|]. split; [exact (proj2 (leaf_code _ _ E))|].
    intros rest. cbn [take app parse]. by rewrite E.
  - destruct (walk (p ++ [b]) bits) as [s' k'| |] eqn:Ew; [|done..]. injection H as -> <-.
    destruct (IH _ _ Ew) as (H1 & H2 & H3). cbn [List.length]. split; [lia|]. split; [done|].
    intros rest. cbn [take app parse]. by rewrite E, H3.
Qed.
Lemma walk_node p bits : walk p bits = WNode -> parse p bits = Some ([], p ++ bits).
Proof.
  revert p. induction bits as [|b bits IH]; intros p H; cbn [walk parse] in *; [by rewrite app_nil_r|].
  destruct (subtree code_trie (p ++ [b])); [done..|]. destruct (walk (p ++ [b]) bits) eqn:E; [done| |done].
  rewrite IH by done. by rewrite <- app_assoc.
Qed.
Lemma walk_fail p bits : walk p bits = WFail -> parse p bits = None.
Proof.
  revert p. induction bits as [|b bits IH]; intros p H; cbn [walk parse] in *; [done|].
  destruct (subtree code_trie (p ++ [b])); [done..|]. destruct (walk (p ++ [b]) bits) eqn:E; [done|done|]. by apply IH.
Qed.
(** A leaf beyond the first bits, or none: the first bits stay inside the tree or
    leave it. *)
Lemma walk_prefix p a b :
  match walk p (a ++ b) with
  | WLeaf s k => (k <= List.length a)%nat \/ walk p a = WNode
  | WNode => walk p a = WNode
  | WFail => walk p a = WNode \/ walk p a = WFail
  end.
Proof.
  revert p. induction a as [|x a IH]; intros p; cbn [app walk].
  { destruct (walk p b); auto. }
  destruct (subtree code_trie (p ++ [x])) as [|s|l r]; [auto|cbn; left; lia|]. specialize (IH (p ++ [x])).
  destruct (walk (p ++ [x]) (a ++ b)) as [s k| |]; cbn [List.length].
  - destruct IH as [IH|IH]; [left; lia|right; by rewrite IH].
  - by rewrite IH.
  - destruct IH as [IH|IH]; rewrite IH; auto.
Qed.

(** The path of each row. *)
Definition node_paths : list (list bool) :=
  Eval vm_compute in
  fold_left (fun ps '(k, row) =>
    fold_left (fun ps '(x, e) =>
      if negb (isLeaf e) && negb (next e =? 0)
      then <[Z.to_nat (next e) := nth k ps [] ++ zbits 8 (Z.of_nat x)]> ps else ps)
      (imap pair row) ps)
    (imap pair flatHuffmanTable) (replicate (List.length flatHuffmanTable) []).
Definition node_path (node : Z) : list bool := nth (Z.to_nat node) node_paths [].
Definition nodes : Z := 15.

Definition entry_ok (node x : Z) (e : huffmanTableEntry) : bool :=
  match walk (node_path node) (zbits 8 x) with
  | WLeaf s k => isLeaf e && (sym e =? s) && (codeLen e =? Z.of_nat k)
  | WNode => negb (isLeaf e) && (0 <? next e) && (next e <? nodes) && bool_decide (node_path (next e) = node_path node ++ zbits 8 x)
  | WFail => negb (isLeaf e) && (next e =? 0) && negb (node =? 0)
  end.
Definition row_entries_ok (node : Z) : bool :=
  forallb (fun x => match table_get node x with Ok e => entry_ok node x e | _ => false end) all_bytes.

Lemma table_get_ok node x :
  0 <= node < nodes -> is_byte x -> exists e, table_get node x = Ok e /\ entry_ok node x e = true.
Proof.
  intros Hn Hx. assert (H : forallb row_entries_ok (map Z.of_nat (seq 0 15)) = true) by (vm_compute; reflexivity).
  rewrite forallb_forall in H. specialize (H node). unfold row_entries_ok in H.
  pose proof (all_bytes_spec _ (H ltac:(apply in_map_iff; exists (Z.to_nat node); unfold nodes in Hn; rewrite in_seq; lia)) x Hx) as E.
  cbv beta in E. destruct (table_get node x) as [e| |]; [|done..]. by exists e.
Qed.

Lemma node_path_length node : 0 <= node < nodes ->
  (List.length (node_path node) <= 24)%nat /\ (List.length (node_path node) mod 8 = 0)%nat /\ (node = 0 <-> node_path node = []).
Proof.
  intros Hn. assert (H : forallb (fun k => (List.length (node_path k) <=? 24)%nat && (List.length (node_path k) mod 8 =? 0)%nat
    && Bool.eqb (k =? 0) (bool_decide (node_path k = []))) (map Z.of_nat (seq 0 15)) = true) by (vm_compute; reflexivity).
  rewrite forallb_forall in H.
  specialize (H node ltac:(apply in_map_iff; exists (Z.to_nat node); unfold nodes in Hn; rewrite in_seq; lia)).
  rewrite !andb_true_iff, Bool.eqb_true_iff in H. destruct H as [[H1 H2] H3]. split_and!.
  - apply Nat.leb_le, H1.
  - apply Nat.eqb_eq, H2.
  - destruct (bool_decide (node_path node = [])) eqn:E.
    + apply bool_decide_eq_true_1 in E. bool_simpl. done.
    + apply bool_decide_eq_false_1 in E. bool_simpl. split; [lia|done].
Qed.

(** ** The decoder follows the tree *)

(** The bits [B] have been read: their symbols are [o], and [node] is where the
    rest leads. *)
Definition at_node (B : list bool) (o : bytes) (node cbits sbits : Z) : Prop :=
  0 <= node < nodes /\ 0 <= cbits < 16 /\ sbits = Z.of_nat (List.length (node_path node)) + cbits
  /\ parse [] B = Some (o, node_path node).

Lemma parse_none a b : parse [] a = None -> parse [] (a ++ b) = None.
Proof. intros H. by rewrite parse_app, H. Qed.

(** The next eight bits of the window. *)
Lemma window_byte cum cbits :
  8 <= cbits -> zbits (Z.to_nat cbits) cum
                = zbits 8 (u8 (Z.shiftr cum (cbits - 8))) ++ zbits (Z.to_nat (cbits - 8)) cum.
Proof.
  intros H. rewrite zbits_u8. replace (Z.to_nat cbits) with (8 + Z.to_nat (cbits - 8))%nat by lia. rewrite zbits_split.
  by rewrite Z2Nat.id by lia.
Qed.
Lemma zbits_take k w z : (k <= w)%nat -> zbits w z = take k (zbits w z) ++ zbits (w - k) z.
Proof.
  intros Hk. replace w with (k + (w - k))%nat at 1 2 by lia. rewrite zbits_split.
  rewrite take_app_length' by by rewrite zbits_length. done.
Qed.

(** A symbol of [k] bits at the start of the window. *)
Lemma at_leaf B o node cbits sbits s k cum (w : list bool) :
  at_node B o node cbits sbits -> walk (node_path node) w = WLeaf s k -> Z.of_nat k <= cbits ->
  take k w = take k (zbits (Z.to_nat cbits) cum) ->
  let cbits' := cbits - Z.of_nat k in
  at_node (B ++ take k w) (o ++ [s]) 0 cbits' cbits'
  /\ B ++ zbits (Z.to_nat cbits) cum = (B ++ take k w) ++ zbits (Z.to_nat cbits') cum.
Proof.
  intros (H1 & H2 & H3 & H4) Hw Hk Ht. cbn zeta. destruct (walk_leaf _ _ _ _ Hw) as (Hk1 & Hs & Hp). split.
  - unfold at_node. change (node_path 0) with (@nil bool). cbn [List.length]. unfold nodes. split_and!; try lia.
    rewrite parse_app, H4. specialize (Hp []). rewrite app_nil_r in Hp. rewrite Hp. done.
  - rewrite <- app_assoc. f_equal. rewrite Ht. rewrite (zbits_take k) at 1 by lia. f_equal. f_equal. lia.
Qed.

Lemma decode_inner_spec fuel cum cbits sbits node dst B o :
  at_node B o node cbits sbits -> cbits < Z.of_nat fuel + 8 ->
  let '(dst', r) := decode_inner fuel cum cbits sbits node dst in
  match r with
  | Ok (cbits', sbits', node') => exists B' o', at_node B' (o ++ o') node' cbits' sbits' /\ cbits' < 8 /\ dst' = dst ++ o'
      /\ B ++ zbits (Z.to_nat cbits) cum = B' ++ zbits (Z.to_nat cbits') cum
  | Err e => e = ErrInvalidHuffman /\ parse [] (B ++ zbits (Z.to_nat cbits) cum) = None
  | Panic => False
  end.
Proof.
  revert cbits sbits node dst B o. induction fuel as [|fuel IH]; intros cbits sbits node dst B o Hat Hf; cbn [decode_inner].
  { exists B, []. rewrite !app_nil_r. split_and!; try done; lia. }
  destruct (cbits >=? 8) eqn:E8; bool_simpl; [|exists B, []; rewrite !app_nil_r; by split_and!].
  pose proof Hat as (Hn & Hcb & Hsb & Hp). set (x := u8 (Z.shiftr cum (cbits - 8))).
  pose proof (window_byte cum cbits ltac:(lia)) as Hw. fold x in Hw.
  destruct (table_get_ok node x Hn ltac:(apply u8_range)) as (e & -> & He). unfold entry_ok in He.
  destruct (walk (node_path node) (zbits 8 x)) as [s k| |] eqn:Ew.
  - rewrite !andb_true_iff in He. destruct He as [[Hl Hs] Hc]. rewrite Hl. cbn [negb]. bool_simpl. rewrite Hs, Hc.
    destruct (walk_leaf _ _ _ _ Ew) as (Hk & Hsb' & _). rewrite zbits_length in Hk.
    rewrite u8_small by (unfold is_byte; lia).
    destruct (at_leaf B o node cbits sbits s k cum (zbits 8 x) Hat Ew ltac:(lia)) as [Hat' Hbits].
    { rewrite Hw. rewrite take_app_le by (rewrite zbits_length; lia). done. }
    specialize (IH (cbits - Z.of_nat k) (cbits - Z.of_nat k) 0 (dst ++ [s]) _ _ Hat' ltac:(lia)).
    destruct (decode_inner fuel cum _ _ 0 _) as [dst' [[[cb' sb'] nd']|err|]]; [rewrite Hbits|rewrite Hbits; exact IH|exact IH].
    destruct IH as (B' & o' & A1 & A2 & A3 & A4). exists B', (s :: o'). rewrite <- app_assoc in A1. cbn [app] in A1.
    split_and!; [done|done|by rewrite A3, <- app_assoc|done].
  - rewrite !andb_true_iff in He. destruct He as [[[Hl Hn0] Hn1] Hpath]. rewrite Hl. apply bool_decide_eq_true_1 in Hpath. bool_simpl.
    replace (next e =? 0) with false by lia. cbn [andb].
    assert (Hat' : at_node (B ++ zbits 8 x) o (next e) (cbits - 8) sbits).
    { unfold at_node. rewrite Hpath, length_app, zbits_length. split_and!; try lia.
      rewrite parse_app, Hp, (walk_node _ _ Ew). by rewrite app_nil_r. }
    specialize (IH (cbits - 8) sbits (next e) dst _ _ Hat' ltac:(lia)).
    rewrite Hw, app_assoc. destruct (decode_inner fuel cum _ _ _ _) as [dst' r]. exact IH.
  - rewrite !andb_true_iff in He. destruct He as [[Hl Hn0] Hn1]. rewrite Hl, Hn0, Hn1. cbn [andb]. split; [done|].
    rewrite Hw, app_assoc. apply parse_none. by rewrite parse_app, Hp, (walk_fail _ _ Ew).
Qed.

Lemma decode_bytes_spec src cum cbits sbits node dst B o :
  bytes_ok src -> at_node B o node cbits sbits -> cbits < 8 ->
  let '(dst', r) := decode_bytes src cum cbits sbits node dst in
  match r with
  | Ok (cum', cbits', sbits', node') => exists B' o', at_node B' (o ++ o') node' cbits' sbits' /\ cbits' < 8 /\ dst' = dst ++ o'
      /\ B ++ zbits (Z.to_nat cbits) cum ++ bytes_bits src = B' ++ zbits (Z.to_nat cbits') cum'
  | Err e => e = ErrInvalidHuffman /\ parse [] (B ++ zbits (Z.to_nat cbits) cum ++ bytes_bits src) = None
  | Panic => False
  end.
Proof.
  intros Hs. revert cum cbits sbits node dst B o. induction Hs as [|b src Hb Hs IH]; intros cum cbits sbits node dst B o Hat Hc;
    cbn [decode_bytes].
  { exists B, []. rewrite !app_nil_r. by split_and!. }
  pose proof Hat as (Hn & Hcb & Hsb & Hp). destruct (node_path_length node Hn) as (Hpl & _).
  rewrite !u8_small by (unfold is_byte; lia). set (cum1 := u32 (Z.lor (Z.shiftl cum 8) b)).
  assert (Hbits : zbits (Z.to_nat (cbits + 8)) cum1 = zbits (Z.to_nat cbits) cum ++ zbits 8 b).
  { unfold cum1, u32. change (2 ^ 32) with (2 ^ Z.of_nat 32). rewrite zbits_mod by lia.
    replace (Z.to_nat (cbits + 8)) with (Z.to_nat cbits + 8)%nat by lia. change 8 with (Z.of_nat 8) at 1.
    apply zbits_shiftl. exact Hb. }
  assert (Hat1 : at_node B o node (cbits + 8) (sbits + 8)) by (unfold at_node; split_and!; done || lia).
  pose proof (decode_inner_spec 16 cum1 (cbits + 8) (sbits + 8) node dst B o Hat1 ltac:(lia)) as H.
  rewrite Hbits in H. rewrite bytes_bits_cons.
  destruct (decode_inner 16 cum1 _ _ _ _) as [dst1 [[[cb1 sb1] nd1]|e|]]; [|destruct H as [-> H]; split; [done|]; rewrite !app_assoc in *; by apply parse_none|done].
  destruct H as (B1 & o1 & A1 & A2 & -> & A4). specialize (IH cum1 cb1 sb1 nd1 (dst ++ o1) B1 (o ++ o1) A1 A2).
  rewrite (app_assoc (zbits _ cum)), (app_assoc B), A4, <- app_assoc.
  destruct (decode_bytes src cum1 _ _ _ _) as [dst2 [[[[cum2 cb2] sb2] nd2]|e|]]; [|done..].
  destruct IH as (B2 & o2 & C1 & C2 & C3 & C4). exists B2, (o1 ++ o2). rewrite <- app_assoc in C1.
  split_and!; [done|done|by rewrite C3, <- app_assoc|done].
Qed.

(** The rest of the last byte, filled with zeros. *)
Lemma tail_byte cum cbits :
  0 <= cbits <= 8 ->
  zbits 8 (u8 (u32 (Z.shiftl cum (8 - cbits)))) = zbits (Z.to_nat cbits) cum ++ zbits (Z.to_nat (8 - cbits)) 0.
Proof.
  intros H. rewrite zbits_u8. unfold u32. change (2 ^ 32) with (2 ^ Z.of_nat 32). rewrite zbits_mod by lia.
  replace 8%nat with (Z.to_nat cbits + Z.to_nat (8 - cbits))%nat by lia. rewrite <- (Z.lor_0_r (Z.shiftl cum (8 - cbits))).
  replace (8 - cbits) with (Z.of_nat (Z.to_nat (8 - cbits))) at 2 by lia. apply zbits_shiftl.
  split; [lia|]. apply Z.pow_pos_nonneg; lia.
Qed.
Lemma zbits_mask w z : zbits w (Z.land z (Z.shiftl 1 (Z.of_nat w) - 1)) = zbits w z.
Proof.
  apply zbits_ext. intros i Hi. rewrite Z.shiftl_1_l. replace (2 ^ Z.of_nat w - 1) with (Z.ones (Z.of_nat w)) by (rewrite Z.ones_equiv; lia).
  rewrite Z.land_spec, Z.ones_spec_low by lia. apply andb_true_r.
Qed.

(** The bits left when the decoder stops: no symbol in them. *)
Definition stuck (node : Z) (r : list bool) : Prop :=
  parse (node_path node) r = Some ([], node_path node ++ r) \/ (node <> 0 /\ parse (node_path node) r = None).

Lemma decode_tail_spec fuel cum cbits sbits node dst B o :
  at_node B o node cbits sbits -> cbits < 8 -> cbits <= Z.of_nat fuel ->
  let '(dst', r) := decode_tail fuel cum cbits sbits node dst in
  match r with
  | Ok (cum', cbits', sbits') => exists B' o' node', at_node B' (o ++ o') node' cbits' sbits' /\ cbits' < 8 /\ dst' = dst ++ o'
      /\ B ++ zbits (Z.to_nat cbits) cum = B' ++ zbits (Z.to_nat cbits') cum'
      /\ stuck node' (zbits (Z.to_nat cbits') cum')
  | _ => False
  end.
Proof.
  revert cum cbits sbits node dst B o. induction fuel as [|fuel IH]; intros cum cbits sbits node dst B o Hat Hc Hf;
    pose proof Hat as (Hn & Hcb & Hsb & Hp); cbn [decode_tail].
  { exists B, [], node. rewrite !app_nil_r. split_and!; try done. replace cbits with 0 by lia. left. by rewrite app_nil_r. }
  destruct (cbits >? 0) eqn:E0; bool_simpl.
  2: { exists B, [], node. rewrite !app_nil_r. split_and!; try done. replace cbits with 0 by lia. left. by rewrite app_nil_r. }
  set (x := u8 (u32 (Z.shiftl cum (8 - cbits)))). pose proof (tail_byte cum cbits ltac:(lia)) as Hw. fold x in Hw.
  destruct (table_get_ok node x Hn ltac:(apply u8_range)) as (e & -> & He). unfold entry_ok in He.
  pose proof (walk_prefix (node_path node) (zbits (Z.to_nat cbits) cum) (zbits (Z.to_nat (8 - cbits)) 0)) as Hpre.
  rewrite <- Hw, zbits_length in Hpre.
  assert (Hstop : stuck node (zbits (Z.to_nat cbits) cum) ->
    exists B' o' node', at_node B' (o ++ o') node' cbits sbits /\ cbits < 8 /\ dst = dst ++ o'
      /\ B ++ zbits (Z.to_nat cbits) cum = B' ++ zbits (Z.to_nat cbits) cum /\ stuck node' (zbits (Z.to_nat cbits) cum)).
  { intros Hst. exists B, [], node. rewrite !app_nil_r. by split_and!. }
  destruct (walk (node_path node) (zbits 8 x)) as [s k| |] eqn:Ew.
  - rewrite !andb_true_iff in He. destruct He as [[Hl Hs] Hcl]. rewrite Hl. cbn [negb orb]. bool_simpl. rewrite Hcl.
    destruct (Z.of_nat k >? cbits) eqn:Ek; bool_simpl.
    + apply Hstop. left. apply walk_node. destruct Hpre as [Hpre|Hpre]; [lia|done].
    + rewrite Hs. destruct (walk_leaf _ _ _ _ Ew) as (Hk & _).
      destruct (at_leaf B o node cbits sbits s k cum (zbits 8 x) Hat Ew ltac:(lia)) as [Hat' Hbits].
      { rewrite Hw. by rewrite take_app_le by (rewrite zbits_length; lia). }
      set (cbits1 := cbits - Z.of_nat k) in *. set (cum1 := Z.land cum (Z.shiftl 1 cbits1 - 1)).
      assert (Em : zbits (Z.to_nat cbits1) cum1 = zbits (Z.to_nat cbits1) cum).
      { unfold cum1. replace cbits1 with (Z.of_nat (Z.to_nat cbits1)) at 2 by lia. apply zbits_mask. }
      specialize (IH cum1 cbits1 cbits1 0 (dst ++ [s]) _ _ Hat' ltac:(lia) ltac:(lia)). rewrite Em in IH. rewrite Hbits.
      destruct (decode_tail fuel cum1 _ _ _ _) as [dst' [[[cum' cb'] sb']|err|]]; [|done..].
      destruct IH as (B' & o' & nd' & A1 & A2 & A3 & A4 & A5). exists B', (s :: o'), nd'.
      rewrite <- app_assoc in A1. cbn [app] in A1. split_and!; [done|done|by rewrite A3, <- app_assoc|done|done].
  - rewrite !andb_true_iff in He. destruct He as [[[Hl _] _] _]. rewrite Hl. cbn [orb]. apply Hstop. left. by apply walk_node.
  - rewrite !andb_true_iff in He. destruct He as [[Hl _] Hn0]. rewrite Hl. cbn [orb]. apply Hstop. bool_simpl.
    destruct Hpre as [Hpre|Hpre]; [left; by apply walk_node|right; split; [|by apply walk_fail]].
    intros ->. done.
Qed.

(** ** The specification of the decoder *)
Definition spec_decode (bits : list bool) : option bytes :=
  match parse [] bits with
  | Some (o, q) => if (List.length q <=? 7)%nat && forallb id q then Some o else None
  | None => None
  end.

Lemma mask_ones w z : (Z.land z (Z.shiftl 1 (Z.of_nat w) - 1) =? Z.shiftl 1 (Z.of_nat w) - 1) = forallb id (zbits w z).
Proof.
  rewrite Z.shiftl_1_l. replace (2 ^ Z.of_nat w - 1) with (Z.ones (Z.of_nat w)) by (rewrite Z.ones_equiv; lia).
  destruct (forallb id (zbits w z)) eqn:E.
  - apply Z.eqb_eq. apply Z.bits_inj'. intros i Hi. rewrite Z.land_spec. destruct (Z_lt_ge_dec i (Z.of_nat w)).
    + rewrite Z.ones_spec_low by lia. rewrite andb_true_r. clear -E Hi l. induction w as [|w IH]; [lia|]. cbn [zbits forallb] in E.
      apply andb_true_iff in E as [E1 E2]. destruct (Z.eq_dec i (Z.of_nat w)) as [->|]; [exact E1|]. apply IH; [done|lia].
    + rewrite Z.ones_spec_high by lia. apply andb_false_r.
  - apply Z.eqb_neq. intros Hz. assert (E' : forallb id (zbits w z) = true); [|by rewrite E' in E].
    assert (H : forall i, 0 <= i < Z.of_nat w -> Z.testbit z i = true).
    { intros i Hi. apply (f_equal (fun y => Z.testbit y i)) in Hz. rewrite Z.land_spec, Z.ones_spec_low in Hz by lia.
      by rewrite andb_true_r in Hz. }
    clear -H. induction w as [|w IH]; [done|]. cbn [zbits forallb]. rewrite H by lia. apply IH. intros i Hi. apply H. lia.
Qed.

Lemma decode_spec dst src :
  bytes_ok src ->
  match spec_decode (bytes_bits src) with
  | Some o => AppendHuffmanDecode dst src = (dst ++ o, Ok tt)
  | None => exists d, AppendHuffmanDecode dst src = (d, Err ErrInvalidHuffman)
  end.
Proof.
  intros Hs. unfold AppendHuffmanDecode, appendHuffmanDecodeFallback.
  destruct src as [|b src']; [cbn; by rewrite app_nil_r|]. set (src := b :: src') in *. clearbody src.
  assert (Hat : at_node [] [] 0 0 0) by (unfold at_node, nodes; by split_and!).
  pose proof (decode_bytes_spec src 0 0 0 0 dst [] [] Hs Hat ltac:(lia)) as H. change ([] ++ zbits (Z.to_nat 0) 0 ++ bytes_bits src) with (bytes_bits src) in H.
  destruct (decode_bytes src 0 0 0 0 dst) as [d1 [[[[cum cbits] sbits] node]|e|]]; [| |done].
  2: { destruct H as [-> H]. unfold spec_decode. rewrite H. by exists d1. }
  destruct H as (B1 & o1 & A1 & A2 & -> & A4). cbn [app] in A1. pose proof A1 as (_ & Hcb & _ & _).
  set (cum1 := Z.land cum (Z.shiftl 1 cbits - 1)).
  assert (Em : zbits (Z.to_nat cbits) cum1 = zbits (Z.to_nat cbits) cum).
  { unfold cum1. replace cbits with (Z.of_nat (Z.to_nat cbits)) at 2 by lia. apply zbits_mask. }
  pose proof (decode_tail_spec 8 cum1 cbits sbits node (dst ++ o1) B1 o1 A1 A2 ltac:(lia)) as H. rewrite Em, <- A4 in H.
  destruct (decode_tail 8 cum1 _ _ _ _) as [d2 [[[cum2 cb2] sb2]|e|]]; [|done..].
  destruct H as (B2 & o2 & nd2 & C1 & C2 & -> & C4 & C5). rewrite <- app_assoc. destruct C1 as (D1 & D2 & D3 & D4).
  destruct (node_path_length nd2 D1) as (Hl1 & Hl2 & Hl3). unfold spec_decode. rewrite C4, parse_app, D4.
  set (r := zbits (Z.to_nat cb2) cum2) in *. assert (Hr : List.length r = Z.to_nat cb2) by apply zbits_length.
  destruct (sb2 >? 7) eqn:E7; bool_simpl.
  - destruct C5 as [C5|[_ C5]]; rewrite C5; [|by eexists]. rewrite app_nil_r, length_app.
    assert (El : (List.length (node_path nd2) + List.length r <=? 7)%nat = false) by (apply Nat.leb_gt; lia).
    rewrite El. by eexists.
  - assert (Hp0 : node_path nd2 = []).
    { destruct (node_path nd2) as [|y p] eqn:Ep; [done|]. exfalso. cbn [List.length] in *.
      assert (Hdiv : (S (List.length p) < 8)%nat) by lia. rewrite Nat.mod_small in Hl2 by lia. lia. }
    destruct C5 as [C5|[C5 _]]; [|destruct C5; by apply Hl3]. rewrite Hp0 in *. cbn [app List.length] in *. rewrite C5, app_nil_r.
    assert (El : (List.length r <=? 7)%nat = true) by (apply Nat.leb_le; lia). rewrite El. cbn [andb].
    pose proof (mask_ones (Z.to_nat cb2) cum2) as Hm. rewrite Z2Nat.id in Hm by lia. rewrite Hm. fold r.
    destruct (forallb id r); [done|by eexists].
Qed.

Lemma ones_replicate q : forallb id q = true -> q = replicate (List.length q) true.
Proof.
  induction q as [|b q IH]; cbn [forallb]; [done|]. intros H. apply andb_true_iff in H as [Hb Hq]. cbn [List.length replicate].
  destruct b; [|done]. f_equal. by apply IH.
Qed.

(** The specification inverts the encoder, and accepts nothing else. *)
Lemma spec_decode_enc s : bytes_ok s -> spec_decode (bytes_bits (HuffmanEncode [] s)) = Some s.
Proof.
  intros Hs. destruct (encode_bits [] s Hs) as (out & pad & E & Ho & Hpad & Hb). unfold HuffmanEncode. rewrite E. cbn [app].
  unfold spec_decode. rewrite Hb, parse_enc, parse_padding by done. rewrite app_nil_r, length_replicate.
  assert (El : (pad <=? 7)%nat = true) by (apply Nat.leb_le; lia). rewrite El. cbn [andb].
  assert (Eo : forallb id (replicate pad true) = true) by (clear; induction pad; done). by rewrite Eo.
Qed.
Lemma spec_decode_inv src s : bytes_ok src -> spec_decode (bytes_bits src) = Some s -> bytes_ok s /\ src = HuffmanEncode [] s.
Proof.
  intros Hsrc H. unfold spec_decode in H. destruct (parse [] (bytes_bits src)) as [[o q]|] eqn:E; [|done].
  destruct (_ && _) eqn:Eq; [|done]. injection H as ->. apply andb_true_iff in Eq as [Eq1 Eq2]. apply Nat.leb_le in Eq1.
  destruct (parse_sound _ _ _ _ E) as [Hbits Hs]. cbn [app] in Hbits. split; [done|].
  destruct (encode_bits [] s Hs) as (out & pad & Ee & Ho & Hpad & Hb). unfold HuffmanEncode. rewrite Ee. cbn [app].
  apply bytes_bits_inj; [done..|]. rewrite Hbits, Hb. f_equal. rewrite (ones_replicate q Eq2). f_equal.
  apply (f_equal List.length) in Hbits, Hb. rewrite length_app, bytes_bits_length in Hbits, Hb. rewrite length_replicate in Hb. lia.
Qed.

Lemma huffman_dst dst s : bytes_ok s -> HuffmanEncode dst s = dst ++ HuffmanEncode [] s /\ bytes_ok (HuffmanEncode [] s).
Proof.
  intros Hs. destruct (encode_bits dst s Hs) as (o1 & p1 & E1 & H1 & Hp1 & Hb1).
  destruct (encode_bits [] s Hs) as (o2 & p2 & E2 & H2 & Hp2 & Hb2). unfold HuffmanEncode. rewrite E1, E2. cbn [app].
  split; [|done]. f_equal. apply bytes_bits_inj; [done..|]. rewrite Hb1, Hb2. f_equal. f_equal.
  apply (f_equal List.length) in Hb1, Hb2. rewrite length_app, bytes_bits_length, length_replicate in Hb1, Hb2. lia.
Qed.

Lemma enc_bits_length s :
  bytes_ok s -> zlen s < 2 ^ 59 ->
  fold_left (fun bits c => u64 (bits + znth huffmanCodeLen c)) s 0 = Z.of_nat (List.length (enc_bits s)).
Proof.
  intros Hs Hl. enough (G : forall acc, 0 <= acc -> acc + 30 * zlen s < 2 ^ 64 ->
    fold_left (fun bits c => u64 (bits + znth huffmanCodeLen c)) s acc = acc + Z.of_nat (List.length (enc_bits s)))
    by (rewrite G by lia; lia).
  clear Hl. induction Hs as [|b s Hb Hs IH]; intros acc Ha Hz; [cbn; lia|]. cbn [fold_left].
  rewrite zlen_cons in Hz. pose proof (zlen_nonneg s). destruct (code_table b Hb) as [Hn _].
  rewrite u64_small by (unfold is_u64; lia). rewrite IH by lia.
  change (enc_bits (b :: s)) with (code_bits b ++ enc_bits s). rewrite length_app. unfold code_bits. rewrite zbits_length. lia.
Qed.

Lemma encode_length s :
  bytes_ok s -> zlen s < 2 ^ 59 ->
  zlen (HuffmanEncode [] s) = HuffmanEncodeLength s /\ HuffmanEncodeLength s <= 4 * zlen s.
Proof.
  intros Hs Hl. destruct (encode_bits [] s Hs) as (out & pad & E & _ & Hp & Hb). unfold HuffmanEncodeLength.
  rewrite (enc_bits_length s Hs Hl). unfold HuffmanEncode. rewrite E. cbn [app].
  apply (f_equal List.length) in Hb. rewrite length_app, bytes_bits_length, length_replicate in Hb.
  assert (Hm : (List.length (enc_bits s) <= 30 * List.length s)%nat).
  { clear -Hs. induction Hs as [|b s Hb Hs IH]; [done|]. change (enc_bits (b :: s)) with (code_bits b ++ enc_bits s).
    rewrite length_app. unfold code_bits. rewrite zbits_length. destruct (code_table b Hb). cbn [List.length]. lia. }
  unfold zlen. split; [apply Z.div_unique with (7 - Z.of_nat pad); lia|]. apply Z.lt_succ_r, Z.div_lt_upper_bound; lia.
Qed.

(** ** Theorems *)

(** C18: the decoder accepts exactly what the encoder writes, and inverts it.  Any
    other input (padding that is too long or not all ones, the EOS symbol, an
    incomplete code) is [ErrInvalidHuffman]; the destination is only appended to,
    and nothing panics. *)
Theorem huffman_decode_exact (dst src : bytes) :
  bytes_ok src ->
  (forall s, AppendHuffmanDecode dst src = (dst ++ s, Ok tt) <-> bytes_ok s /\ src = HuffmanEncode [] s)
  /\ (snd (AppendHuffmanDecode dst src) = Ok tt \/ snd (AppendHuffmanDecode dst src) = Err ErrInvalidHuffman).
Proof.
  intros Hs. pose proof (decode_spec dst src Hs) as H. split.
  - intros s. split.
    + intros E. destruct (spec_decode (bytes_bits src)) as [o|] eqn:Eo.
      * rewrite H in E. injection E as E. apply app_inv_head in E as ->. by apply spec_decode_inv.
      * destruct H as [d H]. by rewrite H in E.
    + intros [Hb ->]. by rewrite spec_decode_enc in H.
  - destruct (spec_decode (bytes_bits src)) as [o|]; [rewrite H; by left|]. destruct H as [d ->]. by right.
Qed.

Definition huffman_sample : bytes := [119; 119; 119; 46; 101; 120; 97; 109; 112; 108; 101; 46; 99; 111; 109].
Lemma huffman_decode_exact_witness :
  AppendHuffmanDecode [1] [0xf1; 0xe3; 0xc2; 0xe5; 0xf2; 0x3a; 0x6b; 0xa0; 0xab; 0x90; 0xf4; 0xff] = ([1] ++ huffman_sample, Ok tt).
Proof.
  apply (huffman_decode_exact [1] [0xf1; 0xe3; 0xc2; 0xe5; 0xf2; 0x3a; 0x6b; 0xa0; 0xab; 0x90; 0xf4; 0xff]).
  - by eapply bool_decide_eq_true_1.
  - split; [by eapply bool_decide_eq_true_1|vm_compute; reflexivity].
Defined.

(** The encoder appends to its destination, and writes as many bytes as
    [HuffmanEncodeLength] announces: at most seven bits of padding, four bytes at
    most per symbol. *)
Theorem huffman_encode_length (dst s : bytes) :
  bytes_ok s -> zlen s < 2 ^ 59 ->
  HuffmanEncode dst s = dst ++ HuffmanEncode [] s
  /\ zlen (HuffmanEncode [] s) = HuffmanEncodeLength s /\ HuffmanEncodeLength s <= 4 * zlen s.
Proof.
  intros Hs Hl. destruct (huffman_dst dst s Hs) as [Hd _]. split; [done|].
  by apply encode_length.
Qed.

Lemma huffman_encode_length_witness :
  zlen (HuffmanEncode [] huffman_sample) = HuffmanEncodeLength huffman_sample /\ HuffmanEncodeLength huffman_sample = 12.
Proof.
  split; [|vm_compute; reflexivity].
  apply (huffman_encode_length [] huffman_sample); [by eapply bool_decide_eq_true_1|vm_compute; reflexivity].
Defined.
