(* ===== verification/Hpack.v ===== *)
(** * HPACK

    Models [src/proto/codec/hpack/hpack.go]: header fields, the static and the
    dynamic table, string literals, the encoder ([AppendHeader]) and the decoder
    ([Next], [Decode]).  A header field is its name, its value and the sensitivity
    flag; the buffers behind the slices and the pools are not modelled.  Integers
    are in [HpackInt], the Huffman code in [Huffman], the interning of names and
    values in [Intern].

    The theorems: an encoder and a decoder stay in step over any sequence of
    header blocks and table size changes, and the decoder reproduces the fields;
    the table invariants; decoding is total; and a defect of the static lookup. *)

From Stdlib Require Import Ascii String.
From S2P Require Import Prelude Intern HpackInt Huffman.
Open Scope Z_scope.

(** ** Header fields *)
#[projections(primitive)]
Record HeaderField := mkField { key : bytes; value : bytes; sensible : bool }.
Definition empty_field : HeaderField := mkField [] [] false.

(** [SetKeyBytes] and [SetValueBytes] store the interned spelling if there is
    one. *)
Definition intern_key (k : bytes) : bytes := match InternKey k with Some ik => ik | None => k end.
Definition intern_value (v : bytes) : bytes := match InternValue v with Some iv => iv | None => v end.
Definition SetKeyBytes (hf : HeaderField) (k : bytes) : HeaderField := { hf with key := intern_key k }.
Definition SetValueBytes (hf : HeaderField) (v : bytes) : HeaderField := { hf with value := intern_value v }.
Definition SetBytes (hf : HeaderField) (k v : bytes) : HeaderField := SetValueBytes (SetKeyBytes hf k) v.

Definition CopyTo (hf : HeaderField) : HeaderField := mkField (intern_key (key hf)) (intern_value (value hf)) (sensible hf).
Definition Size (hf : HeaderField) : Z := u32 (zlen (key hf) + zlen (value hf) + 32).
Definition Empty (hf : HeaderField) : bool := (zlen (key hf) =? 0) && (zlen (value hf) =? 0).
Definition IsPseudo (hf : HeaderField) : bool := (zlen (key hf) >? 0) && (znth (key hf) 0 =? 58).
Definition AppendBytes (hf : HeaderField) (dst : bytes) : bytes := dst ++ key hf ++ [58; 32] ++ value hf.

(** ** Tables *)
Definition maxIndex : Z := 62.

Definition staticTable : list (string * string) := [
  (":authority", "");
  (":method", "GET");
  (":method", "POST");
  (":path", "/");
  (":path", "/index.html");
  (":scheme", "http");
  (":scheme", "https");
  (":status", "200");
  (":status", "204");
  (":status", "206");
  (":status", "304");
  (":status", "400");
  (":status", "404");
  (":status", "500");
  ("accept-charset", "");
  ("accept-encoding", "gzip, deflate");
  ("accept-language", "");
  ("accept-ranges", "");
  ("accept", "");
  ("access-control-allow-origin", "");
  ("age", "");
  ("allow", "");
  ("authorization", "");
  ("cache-control", "");
  ("content-disposition", "");
  ("content-encoding", "");
  ("content-language", "");
  ("content-length", "");
  ("content-location", "");
  ("content-range", "");
  ("content-type", "");
  ("cookie", "");
  ("date", "");
  ("etag", "");
  ("expect", "");
  ("expires", "");
  ("from", "");
  ("host", "");
  ("if-match", "");
  ("if-modified-since", "");
  ("if-none-match", "");
  ("if-range", "");
  ("if-unmodified-since", "");
  ("last-modified", "");
  ("link", "");
  ("location", "");
  ("max-forwards", "");
  ("proxy-authenticate", "");
  ("proxy-authorization", "");
  ("range", "");
  ("referer", "");
  ("refresh", "");
  ("retry-after", "");
  ("server", "");
  ("set-cookie", "");
  ("strict-transport-security", "");
  ("transfer-encoding", "");
  ("user-agent", "");
  ("vary", "");
  ("via", "");
  ("www-authenticate", "")
]%string.
Definition static_field (kv : string * string) : HeaderField :=
  mkField (bytes_of_string (fst kv)) (bytes_of_string (snd kv)) false.

#[projections(primitive)]
Record HPACK := mkHPACK {
  DisableCompression : bool;
  DisableDynamicTable : bool;
  tableSizeUpdateAllowed : bool;
  pendingTableSizeUpdate : bool;
  dynamic : list HeaderField;
  maxTableSize : Z;
  dynamicSize : Z;
  MaxCapacity : Z
}.

Definition releaseDynamic (hp : HPACK) : HPACK := { hp with dynamic := []; dynamicSize := 0 }.
Definition Reset (hp : HPACK) : HPACK := mkHPACK false false true false [] 4096 0 4096.
Definition AcquireHPACK : HPACK := mkHPACK false false true false [] 4096 0 4096.
Definition BeginHeaderBlock (hp : HPACK) : HPACK := { hp with tableSizeUpdateAllowed := true }.

(** Oldest first, until the size is within the limit. *)
Fixpoint shrink_loop (l : list HeaderField) (size max : Z) : list HeaderField * Z :=
  match l with
  | [] => ([], size)
  | hf :: l' =>
      if size >? max then shrink_loop l' (if size >? Size hf then size - Size hf else 0) max
      else (l, size)
  end.
Definition shrink (hp : HPACK) : HPACK :=
  let '(l, size) := shrink_loop (dynamic hp) (dynamicSize hp) (maxTableSize hp) in
  { hp with dynamic := l; dynamicSize := size }.

Definition SetMaxCapacity (hp : HPACK) (capacity : Z) : HPACK :=
  let hp := { hp with MaxCapacity := capacity } in
  if maxTableSize hp >? capacity then shrink { hp with maxTableSize := capacity } else hp.

Definition SetMaxTableSize (hp : HPACK) (size : Z) : HPACK :=
  let hp := if negb (maxTableSize hp =? size) then { hp with pendingTableSizeUpdate := true } else hp in
  let hp := { hp with maxTableSize := size } in
  let hp := if size >? MaxCapacity hp then { hp with MaxCapacity := size } else hp in
  if dynamicSize hp >? size then shrink hp else hp.

Definition addDynamic (hp : HPACK) (hf : HeaderField) : HPACK :=
  if Size hf >? maxTableSize hp then releaseDynamic hp
  else
    let hf2 := CopyTo hf in
    shrink { hp with dynamic := dynamic hp ++ [hf2]; dynamicSize := u32 (dynamicSize hp + Size hf2) }.

Definition peek (hp : HPACK) (n : Z) : option HeaderField :=
  if n <? maxIndex then
    if n =? 0 then None else static_field <$> (staticTable !! Z.to_nat (n - 1))
  else
    let dynOffset := n - maxIndex in
    if dynOffset >=? zlen (dynamic hp) then None
    else dynamic hp !! Z.to_nat (zlen (dynamic hp) - dynOffset - 1).

(** A case of [fastStaticLookup]: values with an entry of their own, the index
    otherwise, and whether an empty value then counts as a full match. *)
Record static_row := mkStaticRow { sr_key : string; sr_values : list (string * Z); sr_index : Z; sr_empty_full : bool }.
Definition static_rows : list static_row := [
  mkStaticRow ":authority" [] 1 true;
  mkStaticRow ":method" [("GET", 2); ("POST", 3)] 2 false;
  mkStaticRow ":path" [("/", 4); ("/index.html", 5)] 4 false;
  mkStaticRow ":scheme" [("http", 6); ("https", 7)] 7 false;
  mkStaticRow ":status" [("200", 8); ("204", 9); ("206", 10); ("304", 11); ("400", 12); ("404", 13); ("500", 14)] 8 false;
  mkStaticRow "accept-charset" [] 15 true;
  mkStaticRow "accept-encoding" [("gzip, deflate", 16)] 16 true;
  mkStaticRow "accept-language" [] 17 true;
  mkStaticRow "accept-ranges" [] 18 true;
  mkStaticRow "accept" [] 19 true;
  mkStaticRow "access-control-allow-origin" [] 20 true;
  mkStaticRow "age" [] 21 true;
  mkStaticRow "allow" [] 22 true;
  mkStaticRow "authorization" [] 23 true;
  mkStaticRow "cache-control" [] 24 true;
  mkStaticRow "content-disposition" [] 25 true;
  mkStaticRow "content-encoding" [] 26 true;
  mkStaticRow "content-language" [] 27 true;
  mkStaticRow "content-length" [] 28 true;
  mkStaticRow "content-location" [] 29 true;
  mkStaticRow "content-range" [] 30 true;
  mkStaticRow "content-type" [] 31 true;
  mkStaticRow "cookie" [] 32 true;
  mkStaticRow "date" [] 33 true;
  mkStaticRow "etag" [] 34 true;
  mkStaticRow "expect" [] 35 true;
  mkStaticRow "expires" [] 36 true;
  mkStaticRow "from" [] 37 true;
  mkStaticRow "host" [] 38 true;
  mkStaticRow "if-match" [] 39 true;
  mkStaticRow "if-modified-since" [] 40 true;
  mkStaticRow "if-none-match" [] 41 true;
  mkStaticRow "if-range" [] 42 true;
  mkStaticRow "if-unmodified-since" [] 43 true;
  mkStaticRow "last-modified" [] 44 true;
  mkStaticRow "link" [] 45 true;
  mkStaticRow "location" [] 46 true;
  mkStaticRow "max-forwards" [] 47 true;
  mkStaticRow "proxy-authenticate" [] 48 true;
  mkStaticRow "proxy-authorization" [] 49 true;
  mkStaticRow "range" [] 50 true;
  mkStaticRow "referer" [] 51 true;
  mkStaticRow "refresh" [] 52 true;
  mkStaticRow "retry-after" [] 53 true;
  mkStaticRow "server" [] 54 true;
  mkStaticRow "set-cookie" [] 55 true;
  mkStaticRow "strict-transport-security" [] 56 true;
  mkStaticRow "transfer-encoding" [] 57 true;
  mkStaticRow "user-agent" [] 58 true;
  mkStaticRow "vary" [] 59 true;
  mkStaticRow "via" [] 60 true;
  mkStaticRow "www-authenticate" [] 61 true
]%string.

Fixpoint value_index (vs : list (string * Z)) (val : bytes) : option Z :=
  match vs with
  | [] => None
  | (v, n) :: vs' => if bool_decide (val = bytes_of_string v) then Some n else value_index vs' val
  end.
Fixpoint static_lookup (rows : list static_row) (k val : bytes) : option (Z * bool) :=
  match rows with
  | [] => None
  | r :: rows' =>
      if bool_decide (k = bytes_of_string (sr_key r)) then
        match value_index (sr_values r) val with
        | Some n => Some (n, true)
        | None => Some (sr_index r, sr_empty_full r && (zlen val =? 0))
        end
      else static_lookup rows' k val
  end.
Definition fastStaticLookup (k val : bytes) : option (Z * bool) := static_lookup static_rows k val.

(** The loops over the dynamic table, newest first. *)
Fixpoint find_index (P : HeaderField -> bool) (newest_first : list HeaderField) (n : Z) : option Z :=
  match newest_first with
  | [] => None
  | hf2 :: l => if P hf2 then Some n else find_index P l (n + 1)
  end.
Definition search (hp : HPACK) (hf : HeaderField) : Z * bool :=
  match find_index (fun hf2 => bool_decide (key hf = key hf2) && bool_decide (value hf = value hf2)) (rev (dynamic hp)) maxIndex with
  | Some n => (n, true)
  | None =>
      match fastStaticLookup (key hf) (value hf) with
      | Some r => r
      | None =>
          match find_index (fun hf2 => bool_decide (key hf = key hf2)) (rev (dynamic hp)) maxIndex with
          | Some n => (n, false)
          | None => (0, false)
          end
      end
  end.

(** ** Strings *)
Definition readString (dst b : bytes) : bytes * bytes * res hpack_error unit :=
  match b with
  | [] => (b, dst, Err ErrMalformedString)
  | c :: _ =>
      let mustDecode := Z.land c 128 =? 128 in
      match readInt 7 b with
      | (b, Ok n) =>
          if zlen b <? n then (b, dst, Err ErrTruncatedString)
          else if mustDecode then
            match AppendHuffmanDecode dst (ztake n b) with
            | (dst, Ok _) => (zdrop n b, dst, Ok tt)
            | (dst, Err e) => (b, dst, Err e)
            | (dst, Panic) => (b, dst, Panic)
            end
          else (zdrop n b, dst ++ ztake n b, Ok tt)
      | (b, Err e) => (b, dst, Err e)
      | (b, Panic) => (b, dst, Panic)
      end
  end.

(** [dst[i] |= x]. *)
Definition or_at (dst : bytes) (i x : Z) : bytes := <[Z.to_nat i := Z.lor (znth dst i) x]> dst.

Definition appendString (dst src : bytes) (encode : bool) : bytes :=
  if negb encode then appendInt (dst ++ [0]) 7 (u64 (zlen src)) ++ src
  else if zlen src =? 0 then appendInt (dst ++ [0x80]) 7 0
  else
    let hLen := HuffmanEncodeLength src in
    let hBitIdx := zlen dst in
    let dst := appendInt (dst ++ [0]) 7 (u64 hLen) in
    let dst := or_at dst hBitIdx 0x80 in
    HuffmanEncode dst src.

(** ** Decoding *)

(** The result of a decoding step: state, field, rest of the input, error. *)
Abbreviation step := (HPACK * HeaderField * bytes * res hpack_error unit)%type.

Definition decodeIndexed (hp : HPACK) (hf : HeaderField) (b : bytes) : step :=
  match readInt 7 b with
  | (b, Ok n) =>
      if n =? 0 then (hp, hf, b, Err ErrIndexZero)
      else match peek hp n with
           | None => (hp, hf, b, Err (ErrIndexOutOfBounds n))
           | Some hf2 => (hp, CopyTo hf2, b, Ok tt)
           end
  | (b, Err e) => (hp, hf, b, Err e)
  | (b, Panic) => (hp, hf, b, Panic)
  end.

(** The name and the value of a literal; [bits] is the prefix of the index, which
    is there if [indexed]. *)
Definition literal_name (hp : HPACK) (hf : HeaderField) (b : bytes) (bits : Z) (indexed : bool) (missing : Z -> hpack_error) :
    HeaderField * bytes * res hpack_error unit :=
  if indexed then
    match readInt bits b with
    | (b, Ok n) =>
        match peek hp n with
        | None => (hf, b, Err (missing n))
        | Some hf2 => (SetKeyBytes hf (key hf2), b, Ok tt)
        end
    | (b, Err e) => (hf, b, Err e)
    | (b, Panic) => (hf, b, Panic)
    end
  else
    match readString [] (zdrop 1 b) with
    | (b, k, Ok _) => (SetKeyBytes hf k, b, Ok tt)
    | (b, _, Err e) => (hf, b, Err e)
    | (b, _, Panic) => (hf, b, Panic)
    end.
Definition literal_value (hf : HeaderField) (b : bytes) : HeaderField * bytes * res hpack_error unit :=
  match readString [] b with
  | (b, v, Ok _) => (SetValueBytes hf v, b, Ok tt)
  | (b, _, Err e) => (hf, b, Err e)
  | (b, _, Panic) => (hf, b, Panic)
  end.

Definition decodeLiteralIndexed (hp : HPACK) (hf : HeaderField) (b : bytes) : step :=
  match literal_name hp hf b 6 (negb (znth b 0 =? 64)) ErrLiteralNotFound with
  | (hf, b, Ok _) =>
      match literal_value hf b with
      | (hf, b, Ok _) => (addDynamic hp hf, hf, b, Ok tt)
      | (hf, b, r) => (hp, hf, b, r)
      end
  | (hf, b, r) => (hp, hf, b, r)
  end.
Definition decodeLiteralNoIndex (hp : HPACK) (hf : HeaderField) (b : bytes) : step :=
  match literal_name hp hf b 4 (negb (Z.land (znth b 0) 15 =? 0)) ErrNonIndexedNotFound with
  | (hf, b, Ok _) => let '(hf, b, r) := literal_value hf b in (hp, hf, b, r)
  | (hf, b, r) => (hp, hf, b, r)
  end.

Definition forbid_update (hp : HPACK) : HPACK := { hp with tableSizeUpdateAllowed := false }.

(** The loop of [Next] goes round for table size updates only. *)
Fixpoint Next_loop (fuel : nat) (hp : HPACK) (hf : HeaderField) (b : bytes) : step :=
  match fuel with
  | O => (hp, hf, b, Ok tt)
  | S fuel' =>
      match b with
      | [] => (hp, hf, b, Ok tt)
      | c :: _ =>
          if Z.land c 128 =? 128 then decodeIndexed (forbid_update hp) hf b
          else if Z.land c 64 =? 64 then decodeLiteralIndexed (forbid_update hp) hf b
          else if Z.land c 240 =? 16 then decodeLiteralNoIndex (forbid_update hp) { hf with sensible := true } b
          else if Z.land c 240 =? 0 then decodeLiteralNoIndex (forbid_update hp) hf b
          else if Z.land c 0xe0 =? 0x20 then
            if negb (tableSizeUpdateAllowed hp) then (hp, hf, b, Err ErrTableSizeUpdateNotAllowed)
            else
              match readInt 5 b with
              | (b, Ok n) =>
                  if n >? MaxCapacity hp then (hp, hf, b, Err ErrTableSizeLimitExceeded)
                  else Next_loop fuel' (shrink { hp with maxTableSize := u32 n }) hf b
              | (b, Err e) => (hp, hf, b, Err e)
              | (b, Panic) => (hp, hf, b, Panic)
              end
          else (hp, hf, b, Err ErrUnknownRepresentation)
      end
  end.
Definition Next (hp : HPACK) (hf : HeaderField) (b : bytes) : step := Next_loop (S (List.length b)) hp hf b.

(** The iterator, run to its end: the fields it yields and the error after
    them. *)
Fixpoint Decode_loop (fuel : nat) (hp : HPACK) (b : bytes) : HPACK * list HeaderField * res hpack_error unit :=
  match fuel with
  | O => (hp, [], Ok tt)
  | S fuel' =>
      if zlen b >? 0 then
        match Next hp empty_field b with
        | (hp, hf, rem, Ok _) =>
            if zlen rem >=? zlen b then (hp, [], Err ErrNoProgress)
            else
              let '(hp, hfs, r) := Decode_loop fuel' hp rem in
              (hp, if Empty hf then hfs else hf :: hfs, r)
        | (hp, _, _, r) => (hp, [], r)
        end
      else (hp, [], Ok tt)
  end.
Definition Decode (hp : HPACK) (b : bytes) : HPACK * list HeaderField * res hpack_error unit :=
  Decode_loop (S (List.length b)) (BeginHeaderBlock hp) b.

(** ** Encoding *)
Definition size_update (hp : HPACK) : bytes := or_at (appendInt [] 5 (maxTableSize hp)) 0 0x20.

Definition AppendHeader (hp : HPACK) (dst : bytes) (hf : HeaderField) (store : bool) : HPACK * bytes :=
  let '(hp, dst) :=
    if pendingTableSizeUpdate hp then ({ hp with pendingTableSizeUpdate := false }, dst ++ size_update hp) else (hp, dst) in
  let c := negb (DisableCompression hp) in
  let '(index, fullMatch) := search hp hf in
  if fullMatch : bool then (hp, appendInt (dst ++ [128]) 7 index)
  else
    let '(hp, dst, bits, c) :=
      if sensible hf then (hp, dst ++ [16], 4, false)
      else if negb store || DisableDynamicTable hp then (hp, dst ++ [0], 4, c)
      else (addDynamic hp hf, dst ++ [64], 6, c) in
    let dst := if index >? 0 then appendInt dst bits index else appendString (appendInt dst bits 0) (key hf) c in
    (hp, appendString dst (value hf) c).

(** ** String literals *)
Definition string_enc (c : bool) (s : bytes) : bytes :=
  if negb c then int_enc 0 7 (zlen s) ++ s
  else if zlen s =? 0 then [0x80]
  else int_enc 0x80 7 (HuffmanEncodeLength s) ++ HuffmanEncode [] s.

(** The bytes of a name or a value. *)
Definition text_ok (s : bytes) : Prop := bytes_ok s /\ zlen s < 2 ^ 31.

Lemma prefix7 : prefix_ok 0 7 /\ prefix_ok 0x80 7.
Proof. split; split; try lia; split; try done; unfold is_byte; lia. Qed.

Lemma int_enc_or dst v : 0 <= v -> or_at (dst ++ int_enc 0 7 v) (zlen dst) 0x80 = dst ++ int_enc 0x80 7 v.
Proof.
  intros Hv. unfold or_at, znth.
  assert (E : Z.to_nat (zlen dst) = (List.length dst + 0)%nat) by (unfold zlen; lia). rewrite E.
  rewrite insert_app_r, app_nth2_plus. f_equal. unfold int_enc. change (2 ^ 7 - 1) with 127.
  destruct (v <? 127) eqn:E1; bool_simpl; cbn [nth insert list_insert].
  - rewrite Z.add_0_l, Z.lor_comm, (prefix_lor 0x80 7) by (apply prefix7 || lia). done.
  - done.
Qed.

Lemma huffman_length s : text_ok s -> zlen (HuffmanEncode [] s) = HuffmanEncodeLength s /\ 0 <= HuffmanEncodeLength s < 2 ^ 64.
Proof.
  intros [Hb Hl]. destruct (encode_length s Hb ltac:(lia)) as [E H]. split; [done|]. rewrite <- E in *.
  pose proof (zlen_nonneg (HuffmanEncode [] s)). lia.
Qed.

Lemma appendString_enc dst s c : text_ok s -> appendString dst s c = dst ++ string_enc c s.
Proof.
  intros Hs. pose proof Hs as [Hb Hl]. pose proof (zlen_nonneg s). destruct prefix7 as [P0 P8]. unfold appendString, string_enc.
  destruct c; cbn [negb].
  - destruct (zlen s =? 0) eqn:E; bool_simpl.
    + rewrite appendInt_enc by (done || lia). done.
    + destruct (huffman_length s Hs) as [El Hr]. rewrite u64_small by (unfold is_u64; lia). rewrite appendInt_enc by (done || lia).
      rewrite int_enc_or by lia. destruct (huffman_dst (dst ++ int_enc 0x80 7 (HuffmanEncodeLength s)) s Hb) as [-> _].
      by rewrite <- app_assoc.
  - rewrite u64_small by (unfold is_u64; lia). rewrite appendInt_enc by (done || lia). by rewrite <- app_assoc.
Qed.

Lemma int_enc_cons p n v : exists x l, int_enc p n v = x :: l /\ (0 <= v -> 1 <= n -> p <= x <= p + (2 ^ n - 1)).
Proof.
  unfold int_enc. destruct (v <? 2 ^ n - 1) eqn:E; bool_simpl; eexists _, _; (split; [done|]); intros; [lia|].
  assert (2 ^ 1 <= 2 ^ n) by (apply Z.pow_le_mono_r; lia). lia.
Qed.

(** Facts about the first byte of a representation, by exhaustion. *)
Lemma byte_fact (P : Z -> bool) lo hi x :
  forallb (fun y => negb ((lo <=? y) && (y <=? hi)) || P y) all_bytes = true -> lo <= x <= hi -> is_byte x -> P x = true.
Proof.
  intros H Hx Hb. pose proof (all_bytes_spec _ H x Hb) as E. cbv beta in E.
  by replace ((lo <=? x) && (x <=? hi)) with true in E by lia.
Qed.

Lemma readString_enc c s rest : text_ok s -> readString [] (string_enc c s ++ rest) = (rest, s, Ok tt).
Proof.
  intros Hs. pose proof Hs as [Hb Hl]. pose proof (zlen_nonneg s). destruct prefix7 as [P0 P8].
  assert (Hread : forall p n body (d : bool), (p = 0 /\ d = false) \/ (p = 0x80 /\ d = true) -> 0 <= n < 2 ^ 64 -> zlen body = n ->
    readString [] (int_enc p 7 n ++ body ++ rest) =
    if d then match AppendHuffmanDecode [] body with
              | (dst, Ok _) => (rest, dst, Ok tt) | (dst, Err e) => (body ++ rest, dst, Err e) | (dst, Panic) => (body ++ rest, dst, Panic) end
    else (rest, body, Ok tt)).
  { intros p n body d Hp Hn Hbody. destruct (int_enc_cons p 7 n) as (x & l & Ex & Hx). specialize (Hx ltac:(lia) ltac:(lia)).
    assert (Hm : (Z.land x 128 =? 128) = d).
    { destruct Hp as [[-> ->]|[-> ->]].
      - apply negb_true_iff. apply (byte_fact (fun x => negb (Z.land x 128 =? 128)) 0 127); [vm_compute; reflexivity|lia|unfold is_byte; lia].
      - apply (byte_fact (fun x => Z.land x 128 =? 128) 128 255); [vm_compute; reflexivity|lia|unfold is_byte; lia]. }
    unfold readString. rewrite Ex. cbn [app]. change (x :: l ++ body ++ rest) with ((x :: l) ++ body ++ rest). rewrite <- Ex.
    rewrite readInt_enc by (try lia; destruct Hp as [[-> _]|[-> _]]; done). rewrite Hm.
    replace (zlen (body ++ rest) <? n) with false by (rewrite zlen_app; pose proof (zlen_nonneg rest); lia).
    rewrite (zdrop_app_eq n body), (ztake_app_eq n body) by done. by destruct d. }
  unfold string_enc. destruct c; cbn [negb].
  - destruct (zlen s =? 0) eqn:E; bool_simpl.
    + assert (s = []) as -> by by apply zlen_zero. change ([0x80] ++ rest) with (int_enc 0x80 7 0 ++ [] ++ rest). rewrite (Hread 0x80 0 [] true) by (auto || lia). done.
    + destruct (huffman_length s Hs) as [El Hr]. rewrite <- app_assoc.
      rewrite (Hread 0x80 _ (HuffmanEncode [] s) true) by (auto || lia).
      destruct (huffman_dst [] s Hb) as [_ Hbe]. pose proof (decode_spec [] (HuffmanEncode [] s) Hbe) as Hd.
      rewrite spec_decode_enc in Hd by done. rewrite Hd. done.
  - rewrite <- app_assoc, (Hread 0 (zlen s) s false) by (auto || lia). done.
Qed.

(** ** Interned spellings *)
Lemma intern_value_id v : intern_value v = v.
Proof.
  unfold intern_value. destruct (InternValue v) as [iv|] eqn:E; [|done].
  by apply (lookup_rows_exact value_rows v iv ltac:(vm_compute; reflexivity)).
Qed.
Lemma intern_key_idem k : bytes_ok k -> intern_key (intern_key k) = intern_key k.
Proof.
  intros Hk. unfold intern_key at 2 3. destruct (InternKey k) as [ik|] eqn:E.
  - destruct (InternKey_some k ik Hk E) as [_ H]. unfold intern_key. by rewrite H.
  - unfold intern_key. by rewrite E.
Qed.
Lemma intern_key_text k : bytes_ok k -> bytes_ok (intern_key k) /\ zlen (intern_key k) = zlen k.
Proof.
  intros Hk. unfold intern_key. destruct (InternKey k) as [ik|] eqn:E; [|done].
  destruct (InternKey_some k ik Hk E) as [-> _]. split; [|unfold zlen; by rewrite length_map].
  apply Forall_map. eapply Forall_impl; [|exact Hk]. intros x. cbv beta. unfold lower, is_byte.
  destruct (_ && _) eqn:Ex; bool_simpl; lia.
Qed.

(** ** The dynamic table *)

(** A field in the spelling the package stores. *)
Definition field_ok (hf : HeaderField) : Prop :=
  bytes_ok (key hf) /\ bytes_ok (value hf) /\ zlen (key hf) + zlen (value hf) + 32 < 2 ^ 31 /\ intern_key (key hf) = key hf.
Definition entry_fine (hf : HeaderField) : Prop := field_ok hf /\ sensible hf = false.

Definition total (l : list HeaderField) : Z := fold_right (fun hf n => Size hf + n) 0 l.

Lemma Size_eq hf : field_ok hf -> Size hf = zlen (key hf) + zlen (value hf) + 32 /\ 32 <= Size hf < 2 ^ 31.
Proof.
  intros (_ & _ & H & _). pose proof (zlen_nonneg (key hf)). pose proof (zlen_nonneg (value hf)).
  unfold Size, u32. rewrite Z.mod_small by lia. lia.
Qed.
Lemma CopyTo_fine hf : field_ok hf -> CopyTo hf = hf.
Proof. intros (_ & _ & _ & H). unfold CopyTo. rewrite intern_value_id, H. by destruct hf. Qed.

Lemma total_nonneg l : 0 <= total l.
Proof.
  induction l as [|hf l IH]; cbn [total fold_right]; [lia|]. change (fold_right _ 0 l) with (total l).
  assert (0 <= Size hf) by (unfold Size, u32; apply Z.mod_pos_bound; lia). lia.
Qed.
Lemma total_app a b : total (a ++ b) = total a + total b.
Proof. unfold total. induction a as [|hf a IH]; cbn [app fold_right]; lia. Qed.
Lemma total_cons hf l : total (hf :: l) = Size hf + total l.
Proof. done. Qed.

Lemma total_one hf : total [hf] = Size hf.
Proof. unfold total. cbn [fold_right]. lia. Qed.

(** The longest suffix that fits. *)
Fixpoint fit (max : Z) (l : list HeaderField) : list HeaderField :=
  match l with
  | [] => []
  | _ :: l' => if total l >? max then fit max l' else l
  end.

Lemma shrink_loop_fit l max :
  Forall entry_fine l -> shrink_loop l (total l) max = (fit max l, total (fit max l)).
Proof.
  induction 1 as [|hf l Hf Hl IH]; [done|]. cbn [shrink_loop fit]. destruct (total (hf :: l) >? max); [|done].
  rewrite total_cons. destruct (Size_eq hf (proj1 Hf)) as [_ Hs]. pose proof (total_nonneg l).
  destruct (Size hf + total l >? Size hf) eqn:E; bool_simpl.
  - replace (Size hf + total l - Size hf) with (total l) by lia. done.
  - replace 0 with (total l) by lia. done.
Qed.
Lemma fit_all max l : total l <= max -> fit max l = l.
Proof. destruct l; [done|]. intros H. cbn [fit]. by replace (total _ >? max) with false by lia. Qed.
Lemma fit_suffix max l : exists a, l = a ++ fit max l.
Proof.
  induction l as [|hf l [a IH]]; [by exists []|]. cbn [fit]. destruct (total (hf :: l) >? max); [|by exists []].
  exists (hf :: a). cbn [app]. by rewrite <- IH.
Qed.
Lemma fit_total max l : 0 <= max -> total (fit max l) <= max.
Proof.
  intros Hm. induction l as [|hf l IH]; [done|]. cbn [fit]. destruct (total (hf :: l) >? max) eqn:E; bool_simpl; lia.
Qed.
Lemma fit_app max a l : exists a', fit max (a ++ l) = a' ++ fit max l.
Proof.
  induction a as [|hf a [a' IH]]; [by exists []|]. cbn [app fit]. rewrite total_cons, total_app.
  destruct (_ >? max) eqn:E; [by exists a'|]. bool_simpl. exists (hf :: a). cbn [app].
  assert (0 <= Size hf) by (unfold Size, u32; apply Z.mod_pos_bound; lia).
  pose proof (total_nonneg a). by rewrite fit_all by lia.
Qed.
Lemma fit_fine (P : HeaderField -> Prop) max l : Forall P l -> Forall P (fit max l).
Proof. destruct (fit_suffix max l) as [a E]. rewrite E at 1. intros H. by apply Forall_app in H as [_ H]. Qed.

Lemma fit_none max l hf : Size hf > max -> fit max (l ++ [hf]) = [].
Proof.
  intros H. induction l as [|e l IH]; cbn [app fit].
  - rewrite total_one. by replace (_ >? max) with true by lia.
  - rewrite total_cons, total_app, total_one. pose proof (total_nonneg l). pose proof (total_nonneg [e]) as He.
    rewrite total_one in He. by replace (_ >? max) with true by lia.
Qed.
Lemma total_length l : Forall entry_fine l -> 32 * zlen l <= total l.
Proof.
  induction 1 as [|hf l Hf Hl IH]; [done|]. rewrite total_cons, zlen_cons. destruct (Size_eq hf (proj1 Hf)). lia.
Qed.

Lemma fine_snoc (P : HeaderField -> Prop) l hf : Forall P l -> P hf -> Forall P (l ++ [hf]).
Proof. intros Hl He. apply Forall_app. split; [exact Hl|by apply Forall_cons]. Qed.

(** The invariant of a table. *)
Record table_ok (hp : HPACK) : Prop := {
  ok_size : dynamicSize hp = total (dynamic hp);
  ok_fit : total (dynamic hp) <= maxTableSize hp;
  ok_max : 0 <= maxTableSize hp <= MaxCapacity hp;
  ok_capacity : MaxCapacity hp < 2 ^ 31;
  ok_entries : Forall entry_fine (dynamic hp)
}.

(** [hp] with the table [l]. *)
Definition set_table (hp : HPACK) (l : list HeaderField) : HPACK := { hp with dynamic := l; dynamicSize := total l }.

Lemma shrink_fit hp :
  dynamicSize hp = total (dynamic hp) -> Forall entry_fine (dynamic hp) ->
  shrink hp = set_table hp (fit (maxTableSize hp) (dynamic hp)).
Proof. intros Hs Hl. unfold shrink. by rewrite Hs, shrink_loop_fit. Qed.

Lemma addDynamic_fit hp hf :
  table_ok hp -> entry_fine hf -> addDynamic hp hf = set_table hp (fit (maxTableSize hp) (dynamic hp ++ [hf])).
Proof.
  intros [Hs Hf Hm Hc Hl] He. unfold addDynamic. destruct (Size hf >? maxTableSize hp) eqn:E; bool_simpl.
  - by rewrite fit_none by lia.
  - rewrite CopyTo_fine by apply He.
    assert (Et : u32 (dynamicSize hp + Size hf) = total (dynamic hp ++ [hf])).
    { rewrite Hs, total_app, total_one. pose proof (total_nonneg (dynamic hp)). destruct (Size_eq hf (proj1 He)).
      unfold u32. by rewrite Z.mod_small by lia. }
    rewrite Et, shrink_fit; [done|done|]. by apply fine_snoc.
Qed.

Lemma table_ok_set hp l :
  table_ok hp -> Forall entry_fine l -> table_ok (set_table hp (fit (maxTableSize hp) l)).
Proof.
  intros [Hs Hf Hm Hc Hl] H. split; [done|apply fit_total, Hm|exact Hm|exact Hc|]. by apply fit_fine.
Qed.
Lemma addDynamic_ok hp hf : table_ok hp -> entry_fine hf -> table_ok (addDynamic hp hf).
Proof.
  intros Hok He. rewrite addDynamic_fit by done. apply table_ok_set; [done|]. apply fine_snoc; [apply Hok|done].
Qed.

Lemma SetMaxTableSize_ok hp n :
  table_ok hp -> 0 <= n < 2 ^ 31 ->
  table_ok (SetMaxTableSize hp n) /\ dynamic (SetMaxTableSize hp n) = fit n (dynamic hp) /\ maxTableSize (SetMaxTableSize hp n) = n
  /\ (pendingTableSizeUpdate (SetMaxTableSize hp n) = pendingTableSizeUpdate hp || negb (maxTableSize hp =? n)).
Proof.
  intros [Hs Hf Hm Hc Hl] Hn. unfold SetMaxTableSize.
  set (h1 := if negb (maxTableSize hp =? n) then _ else hp).
  assert (H1 : dynamic h1 = dynamic hp /\ dynamicSize h1 = dynamicSize hp /\ MaxCapacity h1 = MaxCapacity hp /\
               pendingTableSizeUpdate h1 = pendingTableSizeUpdate hp || negb (maxTableSize hp =? n)).
  { unfold h1. destruct (maxTableSize hp =? n); cbn; rewrite ?orb_false_r, ?orb_true_r; done. }
  destruct H1 as (Ed & Es & Ec & Ep). clearbody h1. cbn zeta. cbn [MaxCapacity].
  set (h2 := if n >? _ then _ else _).
  assert (H2 : dynamic h2 = dynamic hp /\ dynamicSize h2 = total (dynamic hp) /\ maxTableSize h2 = n /\
               n <= MaxCapacity h2 < 2 ^ 31 /\ pendingTableSizeUpdate h2 = pendingTableSizeUpdate h1).
  { unfold h2. clear h2 Ep. destruct h1 as [d1 d2 d3 d4 l m ds cap]. cbn in *. subst l ds cap.
    destruct (n >? MaxCapacity hp) eqn:E; bool_simpl; cbn; (split; [reflexivity|]); (split; [exact Hs|]); (split; [reflexivity|]);
    (split; [lia|reflexivity]). }
  destruct H2 as (Ed2 & Es2 & Em2 & Ec2 & Ep2). clearbody h2. rewrite <- Ep, <- Ep2.
  assert (Hok : dynamicSize h2 = total (dynamic h2)) by (by rewrite Es2, Ed2).
  assert (Hl2 : Forall entry_fine (dynamic h2)) by (by rewrite Ed2).
  destruct (dynamicSize h2 >? n) eqn:E; bool_simpl.
  - rewrite shrink_fit by done. rewrite Em2, Ed2. split; [|split; [reflexivity|split; [exact Em2|reflexivity]]].
    split; [reflexivity|change (total (fit n (dynamic hp)) <= maxTableSize h2); rewrite Em2; apply fit_total; lia|
            change (0 <= maxTableSize h2 <= MaxCapacity h2); lia|exact (proj2 Ec2)|by apply fit_fine].
  - rewrite Ed2. rewrite fit_all by lia. split; [|done]. split; [done|rewrite Ed2; lia|lia|lia|done].
Qed.

(** ** Encoder and decoder in step

    The decoder's table may keep older entries that the encoder has dropped: the
    encoder evicts as soon as its limit is lowered, the decoder when it reads the
    size update. *)
Record synced (enc dec : HPACK) : Prop := {
  sy_enc : table_ok enc;
  sy_dec : table_ok dec;
  sy_suffix : exists old, dynamic dec = old ++ dynamic enc;
  sy_limit : maxTableSize enc <= MaxCapacity dec;
  sy_max : pendingTableSizeUpdate enc = false -> maxTableSize enc = maxTableSize dec
}.

Lemma synced_init : synced AcquireHPACK AcquireHPACK.
Proof.
  assert (table_ok AcquireHPACK) by (split; [reflexivity|done|done|done|apply Forall_nil]).
  split; [done|done|by exists []|done|done].
Qed.

Lemma synced_resize enc dec n : synced enc dec -> 0 <= n <= MaxCapacity dec -> synced (SetMaxTableSize enc n) dec.
Proof.
  intros [He Hd [old Ho] Hl Hm] Hn. pose proof (ok_capacity dec Hd).
  destruct (SetMaxTableSize_ok enc n He ltac:(lia)) as (Hok & Ed & Em & Ep).
  split; [done|done| |lia|].
  - rewrite Ed. destruct (fit_suffix n (dynamic enc)) as [a Ea]. exists (old ++ a). rewrite <- app_assoc, <- Ea. exact Ho.
  - rewrite Ep, Em. intros Hx. apply orb_false_iff in Hx as [H1 H2]. bool_simpl. rewrite <- Hm by done. lia.
Qed.

Lemma synced_add enc dec hf :
  synced enc dec -> pendingTableSizeUpdate enc = false -> entry_fine hf -> synced (addDynamic enc hf) (addDynamic dec hf).
Proof.
  intros [He Hd [old Ho] Hl Hm] Hp Hf. specialize (Hm Hp).
  split; [by apply addDynamic_ok|by apply addDynamic_ok| | |].
  - rewrite (addDynamic_fit enc), (addDynamic_fit dec) by done. cbn. rewrite Ho, <- Hm, <- app_assoc. apply fit_app.
  - rewrite (addDynamic_fit enc), (addDynamic_fit dec) by done. exact Hl.
  - rewrite (addDynamic_fit enc), (addDynamic_fit dec) by done. intros _. exact Hm.
Qed.

(** The decoder at a size update. *)
Lemma synced_update enc dec :
  synced enc dec ->
  synced { enc with pendingTableSizeUpdate := false } (shrink { dec with maxTableSize := maxTableSize enc }).
Proof.
  intros [He Hd [old Ho] Hl Hm]. pose proof (ok_max enc He) as Hmax. rewrite shrink_fit by apply Hd.
  change (maxTableSize { dec with maxTableSize := maxTableSize enc }) with (maxTableSize enc).
  destruct He as [Hs Hf ? Hc Hen], Hd as [Hs' Hf' ? Hc' Hen']. split; [by split| | |done|done].
  - split; [reflexivity|apply fit_total, Hmax|exact (conj (proj1 Hmax) Hl)|exact Hc'|by apply fit_fine].
  - change (exists old0, fit (maxTableSize enc) (dynamic dec) = old0 ++ dynamic enc). rewrite Ho.
    destruct (fit_app (maxTableSize enc) old (dynamic enc)) as [a ->]. exists a. by rewrite fit_all.
Qed.

(** *** Lookup *)
Lemma peek_synced enc dec n e : synced enc dec -> peek enc n = Some e -> peek dec n = Some e.
Proof.
  intros [_ _ [old Ho] _ _]. unfold peek. destruct (n <? maxIndex) eqn:E; [done|]. rewrite Ho, zlen_app. bool_simpl.
  pose proof (zlen_nonneg old). destruct (n - maxIndex >=? zlen (dynamic enc)) eqn:E1; [done|]. bool_simpl.
  replace (n - maxIndex >=? zlen old + zlen (dynamic enc)) with false by lia. intros <-.
  unfold zlen in *. rewrite lookup_app_r by lia. f_equal. lia.
Qed.

Definition static_fine (kv : string * string) : bool :=
  let hf := static_field kv in
  (zlen (key hf) + zlen (value hf) <? 1000) && bool_decide (intern_key (key hf) = key hf).
Lemma static_entry kv : In kv staticTable -> entry_fine (static_field kv).
Proof.
  intros H. assert (Hf : forallb static_fine staticTable = true) by (vm_compute; reflexivity).
  rewrite forallb_forall in Hf. specialize (Hf kv H). unfold static_fine in Hf. apply andb_true_iff in Hf as [Hz Hi]. bool_simpl.
  split; [|done]. split; [apply bytes_of_string_ok|]. split; [apply bytes_of_string_ok|]. split; [lia|by apply bool_decide_eq_true in Hi].
Qed.
Lemma peek_fine hp n e : table_ok hp -> peek hp n = Some e -> entry_fine e.
Proof.
  intros Hok. unfold peek. destruct (n <? maxIndex).
  - destruct (n =? 0); [done|]. destruct (staticTable !! _) as [kv|] eqn:E; [|done]. intros [= <-]. apply static_entry.
    by apply list_elem_of_In, list_elem_of_lookup_2 with (Z.to_nat (n - 1)).
  - destruct (_ >=? _); [done|]. intros H. apply (Forall_lookup_1 _ _ _ _ (ok_entries hp Hok) H).
Qed.

Lemma find_index_spec (P : HeaderField -> bool) l n0 n :
  find_index P l n0 = Some n -> exists i e, l !! i = Some e /\ P e = true /\ n = n0 + Z.of_nat i.
Proof.
  revert n0. induction l as [|hf l IH]; intros n0; cbn [find_index]; [done|].
  destruct (P hf) eqn:E.
  - intros [= <-]. exists 0%nat, hf. split; [done|]. split; [done|lia].
  - intros H. destruct (IH _ H) as (i & e & He & HP & ->). exists (S i), e. split; [done|]. split; [done|lia].
Qed.
Lemma find_index_peek hp P n :
  find_index P (rev (dynamic hp)) maxIndex = Some n ->
  exists e, peek hp n = Some e /\ P e = true /\ maxIndex <= n < maxIndex + zlen (dynamic hp).
Proof.
  intros H. destruct (find_index_spec _ _ _ _ H) as (i & e & He & HP & ->). exists e.
  rewrite rev_alt in He. change (rev_append (dynamic hp) []) with (reverse (dynamic hp)) in He.
  assert (Hi : (i < List.length (dynamic hp))%nat).
  { apply lookup_lt_Some in He. by rewrite length_reverse in He. }
  rewrite reverse_lookup in He by done. split; [|split; [done|unfold zlen; lia]].
  unfold peek, zlen. replace (maxIndex + Z.of_nat i <? maxIndex) with false by lia.
  replace (_ >=? _) with false by lia. rewrite <- He. f_equal. lia.
Qed.

(** The rows of [fastStaticLookup] name entries of the static table; the row of
    accept-encoding is the exception. *)
Definition entry_is (n : Z) (k v : string) : bool :=
  (1 <=? n) && (n <? maxIndex) &&
  match staticTable !! Z.to_nat (n - 1) with Some (k', v') => (k' =? k)%string && (v' =? v)%string | None => false end.
Definition entry_named (n : Z) (k : string) : bool :=
  (1 <=? n) && (n <? maxIndex) &&
  match staticTable !! Z.to_nat (n - 1) with Some (k', _) => (k' =? k)%string | None => false end.
Definition row_fine (r : static_row) : bool :=
  forallb (fun vn => entry_is (snd vn) (sr_key r) (fst vn)) (sr_values r)
  && entry_named (sr_index r) (sr_key r)
  && (negb (sr_empty_full r) || (sr_key r =? "accept-encoding")%string || entry_is (sr_index r) (sr_key r) "").

(** The field that does not survive. *)
Definition lost_field (hf : HeaderField) : Prop := key hf = bytes_of_string "accept-encoding" /\ value hf = [].

(** The result of a search: an entry with the same name, and value. *)
Definition found (hp : HPACK) (hf : HeaderField) (r : Z * bool) : Prop :=
  0 <= fst r < 2 ^ 63 /\
  match r with
  | (n, true) => exists e, peek hp n = Some e /\ key e = key hf /\ value e = value hf
  | (n, false) => n = 0 \/ exists e, peek hp n = Some e /\ key e = key hf
  end.

Lemma entry_is_peek hp n k v : entry_is n k v = true -> peek hp n = Some (static_field (k, v)) /\ 1 <= n < maxIndex.
Proof.
  unfold entry_is. intros H. apply andb_true_iff in H as [H He]. bool_simpl.
  destruct (staticTable !! Z.to_nat (n - 1)) as [[k' v']|] eqn:E; [|done]. apply andb_true_iff in He as [Hk Hv].
  apply String.eqb_eq in Hk, Hv. subst k' v'.
  split; [|lia]. unfold peek. replace (n <? maxIndex) with true by lia. replace (n =? 0) with false by lia. by rewrite E.
Qed.
Lemma entry_named_peek hp n k :
  entry_named n k = true -> exists v, peek hp n = Some (static_field (k, v)) /\ 1 <= n < maxIndex.
Proof.
  unfold entry_named. intros H. apply andb_true_iff in H as [H He]. bool_simpl.
  destruct (staticTable !! Z.to_nat (n - 1)) as [[k' v]|] eqn:E; [|done]. apply String.eqb_eq in He. subst k'.
  exists v. split; [|lia]. unfold peek. replace (n <? maxIndex) with true by lia. replace (n =? 0) with false by lia. by rewrite E.
Qed.
Lemma value_index_In vs val n : value_index vs val = Some n -> exists v, In (v, n) vs /\ val = bytes_of_string v.
Proof.
  induction vs as [|[v m] vs IH]; cbn [value_index]; [done|]. destruct (bool_decide _) eqn:E.
  - intros [= <-]. apply bool_decide_eq_true in E. exists v. split; [by left|done].
  - intros H. destruct (IH H) as (w & Hw & ->). exists w. split; [by right|done].
Qed.

Lemma static_found hp hf r : ~ lost_field hf -> fastStaticLookup (key hf) (value hf) = Some r -> found hp hf r.
Proof.
  intros Hnl. assert (Hr : forallb row_fine static_rows = true) by (vm_compute; reflexivity). unfold fastStaticLookup.
  revert Hr. generalize static_rows. intros rows. induction rows as [|row rows IH]; cbn [static_lookup forallb]; [done|].
  intros Hr. apply andb_true_iff in Hr as [Hrow Hrows]. destruct (bool_decide _) eqn:E; [|by apply IH].
  apply bool_decide_eq_true in E. unfold row_fine in Hrow. apply andb_true_iff in Hrow as [Hrow He].
  apply andb_true_iff in Hrow as [Hv Hn]. destruct (value_index (sr_values row) (value hf)) as [n|] eqn:Ev; intros [= <-].
  - destruct (value_index_In _ _ _ Ev) as (v & Hin & Hval). rewrite forallb_forall in Hv. specialize (Hv _ Hin). cbn [fst snd] in Hv.
    destruct (entry_is_peek hp _ _ _ Hv) as [Hp Hb]. unfold maxIndex in Hb. split; [cbn; lia|].
    exists (static_field (sr_key row, v)). by split.
  - destruct (entry_named_peek hp _ _ Hn) as (v & Hp & Hb). unfold maxIndex in Hb. split; [cbn; lia|].
    destruct (sr_empty_full row && (zlen (value hf) =? 0)) eqn:Ef.
    + apply andb_true_iff in Ef as [Ef Ez]. bool_simpl. apply zlen_zero in Ez. rewrite Ef in He. cbn [negb orb] in He.
      destruct (sr_key row =? "accept-encoding")%string eqn:Ek.
      * apply String.eqb_eq in Ek. rewrite Ek in E. by destruct Hnl.
      * destruct (entry_is_peek hp _ _ _ He) as [Hp' _]. eexists. split; [exact Hp'|]. by rewrite Ez, E.
    + right. exists (static_field (sr_key row, v)). by split.
Qed.

Lemma search_found hp hf : table_ok hp -> ~ lost_field hf -> found hp hf (search hp hf).
Proof.
  intros Hok Hnl. assert (Hlen : zlen (dynamic hp) < 2 ^ 31).
  { pose proof (total_length _ (ok_entries hp Hok)). pose proof (ok_fit hp Hok). pose proof (ok_max hp Hok). pose proof (ok_capacity hp Hok).
    pose proof (zlen_nonneg (dynamic hp)). lia. }
  unfold search. destruct (find_index _ _ _) as [n|] eqn:E1.
  { destruct (find_index_peek _ _ _ E1) as (e & He & HP & Hn). unfold maxIndex in Hn. apply andb_true_iff in HP as [Hk Hv].
    apply bool_decide_eq_true in Hk, Hv. split; [cbn; lia|]. by exists e. }
  destruct (fastStaticLookup _ _) as [r|] eqn:E2; [by apply static_found|]. clear E1.
  destruct (find_index _ _ _) as [n|] eqn:E1; [|split; [cbn; lia|by left]].
  destruct (find_index_peek _ _ _ E1) as (e & He & HP & Hn). unfold maxIndex in Hn.
  apply bool_decide_eq_true in HP. split; [cbn; lia|]. right. by exists e.
Qed.

(** ** Representations *)
Definition literal_rep (p bits n : Z) (c : bool) (hf : HeaderField) : bytes :=
  int_enc p bits n ++ (if n >? 0 then [] else string_enc c (key hf)) ++ string_enc c (value hf).

Lemma field_text hf : field_ok hf -> text_ok (key hf) /\ text_ok (value hf).
Proof.
  intros (Hk & Hv & Hz & _). pose proof (zlen_nonneg (key hf)). pose proof (zlen_nonneg (value hf)).
  split; split; [done|lia|done|lia].
Qed.

Lemma prefixes : prefix_ok 128 7 /\ prefix_ok 64 6 /\ prefix_ok 16 4 /\ prefix_ok 0 4 /\ prefix_ok 32 5.
Proof. split_and!; try lia; try done; unfold is_byte; lia. Qed.

Lemma append_literal dst p bits n c hf :
  prefix_ok p bits -> 0 <= n -> field_ok hf ->
  appendString (if n >? 0 then appendInt (dst ++ [p]) bits n else appendString (appendInt (dst ++ [p]) bits 0) (key hf) c) (value hf) c
  = dst ++ literal_rep p bits n c hf.
Proof.
  intros Hp Hn Hf. destruct (field_text hf Hf) as [Hk Hv]. unfold literal_rep. rewrite appendString_enc by done.
  destruct (n >? 0) eqn:E; bool_simpl.
  - by rewrite appendInt_enc, <- app_assoc by done.
  - replace n with 0 by lia. by rewrite appendString_enc, appendInt_enc, <- !app_assoc by done.
Qed.

Lemma AppendHeader_rep hp dst hf store :
  pendingTableSizeUpdate hp = false -> field_ok hf -> 0 <= fst (search hp hf) ->
  AppendHeader hp dst hf store =
  let '(n, full) := search hp hf in
  let c := negb (DisableCompression hp) in
  if full : bool then (hp, dst ++ int_enc 128 7 n)
  else if sensible hf then (hp, dst ++ literal_rep 16 4 n false hf)
  else if negb store || DisableDynamicTable hp then (hp, dst ++ literal_rep 0 4 n c hf)
  else (addDynamic hp hf, dst ++ literal_rep 64 6 n c hf).
Proof.
  intros Hp Hf Hn. unfold AppendHeader. rewrite Hp. destruct (search hp hf) as [n full]. cbn [fst] in Hn.
  destruct prefixes as (P1 & P2 & P3 & P4 & _). destruct full; [by rewrite appendInt_enc|].
  destruct (sensible hf); [by rewrite append_literal|]. destruct (negb store || DisableDynamicTable hp); by rewrite append_literal.
Qed.

(** *** Reading them back *)
Lemma readInt_first p bits n : exists x l, int_enc p bits n = x :: l.
Proof. destruct (int_enc_cons p bits n) as (x & l & E & _). by exists x, l. Qed.

Lemma literal_name_rep hp hf0 p bits n c hf rest missing :
  prefix_ok p bits -> 0 <= n < 2 ^ 63 -> field_ok hf -> (n = 0 \/ exists e, peek hp n = Some e /\ key e = key hf) ->
  2 <= bits ->
  literal_name hp hf0 (literal_rep p bits n c hf ++ rest) bits (n >? 0) missing
  = ({ hf0 with key := key hf }, string_enc c (value hf) ++ rest, Ok tt).
Proof.
  intros Hp Hn Hf Hk Hb. destruct (field_text hf Hf) as [Htk _]. destruct Hf as (_ & _ & _ & Hi).
  unfold literal_name, literal_rep. rewrite <- !app_assoc. destruct (n >? 0) eqn:E; bool_simpl.
  - destruct Hk as [->|(e & He & Hke)]; [lia|]. rewrite readInt_enc by (done || lia). cbn [app]. rewrite He.
    unfold SetKeyBytes. by rewrite Hke, Hi.
  - replace n with 0 by lia. unfold int_enc. pose proof (pow_cases bits (proj1 Hp)).
    assert (2 ^ 2 <= 2 ^ bits) by (apply Z.pow_le_mono_r; lia).
    replace (0 <? 2 ^ bits - 1) with true by lia. change (zdrop 1 ([p + 0] ++ ?l)) with l.
    rewrite readString_enc by done. unfold SetKeyBytes. by rewrite Hi.
Qed.
Lemma literal_value_rep hf0 c v rest :
  text_ok v -> literal_value hf0 (string_enc c v ++ rest) = ({ hf0 with value := v }, rest, Ok tt).
Proof. intros Hv. unfold literal_value. rewrite readString_enc by done. unfold SetValueBytes. by rewrite intern_value_id. Qed.

(** The first byte of a literal says whether it has an index. *)
Lemma literal_first p bits n c hf rest :
  prefix_ok p bits -> 0 <= n -> 2 <= bits ->
  exists x l, literal_rep p bits n c hf ++ rest = x :: l /\ p <= x <= p + (2 ^ bits - 1) /\ (x =? p) = negb (n >? 0).
Proof.
  intros Hp Hn Hb. pose proof (pow_cases bits (proj1 Hp)). assert (2 ^ 2 <= 2 ^ bits) by (apply Z.pow_le_mono_r; lia).
  unfold literal_rep, int_enc. destruct (n <? 2 ^ bits - 1) eqn:E; bool_simpl; cbn [app]; eexists _, _; (split; [done|]); lia.
Qed.

Lemma size_update_enc hp : table_ok hp -> size_update hp = int_enc 32 5 (maxTableSize hp).
Proof.
  intros Hok. pose proof (ok_max hp Hok) as [Hm _]. destruct prefixes as (_ & _ & _ & _ & P). unfold size_update.
  revert Hm. generalize (maxTableSize hp). intros m Hm. change (appendInt [] 5 m) with (appendInt ([] ++ [0]) 5 m).
  rewrite appendInt_enc by (lia || (split; [lia|]; split; [unfold is_byte; lia|done])). cbn [app].
  unfold int_enc. change (2 ^ 5 - 1) with 31. destruct (_ <? 31) eqn:E; bool_simpl; unfold or_at, znth; change (Z.to_nat 0) with 0%nat; cbn [nth insert list_insert].
  - by rewrite Z.add_0_l, Z.lor_comm, (prefix_lor 32 5) by (done || lia).
  - done.
Qed.

(** What the decoder hands over: the name and the value, and a sensitivity mark
    only if the field had one. *)
Definition field_match (hf hf' : HeaderField) : Prop :=
  key hf' = key hf /\ value hf' = value hf /\ (sensible hf' = true -> sensible hf = true).

Lemma forbid_synced enc dec : synced enc dec -> synced enc (forbid_update dec).
Proof.
  intros [He Hd Ho Hl Hm]. split; [exact He| |exact Ho|exact Hl|exact Hm]. destruct Hd. by split.
Qed.

(** The branch of [Next] that a first byte selects. *)
Lemma Next_branch fuel hp hf x l :
  is_byte x ->
  Next_loop (S fuel) hp hf (x :: l) =
  if 128 <=? x then decodeIndexed (forbid_update hp) hf (x :: l)
  else if 64 <=? x then decodeLiteralIndexed (forbid_update hp) hf (x :: l)
  else if 32 <=? x then
    if negb (tableSizeUpdateAllowed hp) then (hp, hf, x :: l, Err ErrTableSizeUpdateNotAllowed)
    else match readInt 5 (x :: l) with
         | (b, Ok n) =>
             if n >? MaxCapacity hp then (hp, hf, b, Err ErrTableSizeLimitExceeded)
             else Next_loop fuel (shrink { hp with maxTableSize := u32 n }) hf b
         | (b, Err e) => (hp, hf, b, Err e)
         | (b, Panic) => (hp, hf, b, Panic)
         end
  else if 16 <=? x then decodeLiteralNoIndex (forbid_update hp) { hf with sensible := true } (x :: l)
  else decodeLiteralNoIndex (forbid_update hp) hf (x :: l).
Proof.
  intros Hx. cbn [Next_loop].
  set (facts := fun x => Bool.eqb (Z.land x 128 =? 128) (128 <=? x)
    && ((128 <=? x) || Bool.eqb (Z.land x 64 =? 64) (64 <=? x))
    && ((64 <=? x) || Bool.eqb (Z.land x 240 =? 16) ((16 <=? x) && (x <? 32)) && Bool.eqb (Z.land x 240 =? 0) (x <? 16)
                       && Bool.eqb (Z.land x 0xe0 =? 0x20) (32 <=? x))).
  assert (F : facts x = true) by (revert x Hx; apply all_bytes_spec; vm_compute; reflexivity).
  unfold facts in F. apply andb_true_iff in F as [F F3]. apply andb_true_iff in F as [F1 F2]. apply eqb_prop in F1. rewrite F1.
  destruct (128 <=? x) eqn:E1; [done|]. cbn [orb] in F2. apply eqb_prop in F2. rewrite F2.
  destruct (64 <=? x) eqn:E2; [done|]. cbn [orb] in F3. apply andb_true_iff in F3 as [F3 F5]. apply andb_true_iff in F3 as [F3 F4].
  apply eqb_prop in F3, F4, F5. rewrite F3, F4, F5. destruct (32 <=? x) eqn:E3; bool_simpl.
  - replace (x <? 32) with false by lia. replace (x <? 16) with false by lia. by rewrite andb_false_r.
  - replace (x <? 32) with true by lia. rewrite andb_true_r. destruct (16 <=? x) eqn:E4; bool_simpl; [done|].
    by replace (x <? 16) with true by lia.
Qed.

(** One header, after a size update if one was due. *)
Definition reads_back (enc' dec : HPACK) (hf : HeaderField) (b : bytes) : Prop :=
  exists dec' hf', (forall fuel rest, Next_loop (S fuel) dec empty_field (b ++ rest) = (dec', hf', rest, Ok tt))
  /\ synced enc' dec' /\ field_match hf hf' /\ MaxCapacity dec' = MaxCapacity dec.

Lemma indexed_back enc dec hf n e :
  synced enc dec -> 0 <= n < 2 ^ 63 -> peek enc n = Some e -> key e = key hf -> value e = value hf ->
  reads_back enc dec hf (int_enc 128 7 n).
Proof.
  intros Hs Hn He Hk Hv. pose proof (forbid_synced _ _ Hs) as Hsf. pose proof (peek_synced _ _ _ _ Hsf He) as Hd.
  destruct (peek_fine _ _ _ (sy_dec _ _ Hsf) Hd) as [Hfe Hse]. destruct prefixes as (P & _).
  exists (forbid_update dec), e. split; [|split; [done|split; [|done]]].
  - intros fuel rest. destruct (int_enc_cons 128 7 n) as (x & l & Ex & Hx). specialize (Hx ltac:(lia) ltac:(lia)).
    rewrite Ex. cbn [app]. rewrite Next_branch by (unfold is_byte; lia). replace (128 <=? x) with true by lia.
    change (x :: l ++ rest) with ((x :: l) ++ rest). rewrite <- Ex. unfold decodeIndexed. rewrite readInt_enc by (done || lia).
    destruct (n =? 0) eqn:E; bool_simpl; [by subst n|]. rewrite Hd. by rewrite CopyTo_fine.
  - split; [done|]. split; [done|]. by rewrite Hse.
Qed.

Lemma literal_back enc dec hf p bits n c :
  synced enc dec -> pendingTableSizeUpdate enc = false -> field_ok hf ->
  0 <= n < 2 ^ 63 -> (n = 0 \/ exists e, peek enc n = Some e /\ key e = key hf) ->
  p = 16 /\ bits = 4 /\ sensible hf = true \/ p = 0 /\ bits = 4 \/ p = 64 /\ bits = 6 /\ sensible hf = false ->
  reads_back (if p =? 64 then addDynamic enc hf else enc) dec hf (literal_rep p bits n c hf).
Proof.
  intros Hs Hpd Hf Hn Hk Hcase. pose proof (forbid_synced _ _ Hs) as Hsf. destruct (field_text hf Hf) as [_ Htv].
  assert (Hk' : n = 0 \/ exists e, peek (forbid_update dec) n = Some e /\ key e = key hf).
  { destruct Hk as [->|(e & He & Hk)]; [by left|]. right. exists e. split; [|done]. by apply (peek_synced enc). }
  destruct prefixes as (_ & P64 & P16 & P0 & _).
  assert (Hp : prefix_ok p bits) by (destruct Hcase as [(-> & -> & _)|[(-> & ->)|(-> & -> & _)]]; done).
  exists (if p =? 64 then addDynamic (forbid_update dec) hf else forbid_update dec), (mkField (key hf) (value hf) (p =? 16)).
  split; [intros fuel rest|split; [|split]].
  - destruct (literal_first p bits n c hf rest Hp ltac:(lia) ltac:(lia)) as (x & l & Ex & Hx & Hx0).
    assert (Hxb : is_byte x) by (unfold is_byte; destruct Hcase as [(-> & -> & _)|[(-> & ->)|(-> & -> & _)]]; lia).
    rewrite Ex, Next_branch by done.
    pose proof (fun hf0 => literal_name_rep (forbid_update dec) hf0 p bits n c hf rest) as Hname.
    destruct Hcase as [(-> & -> & Hsn)|[(-> & ->)|(-> & -> & Hsn)]].
    + test_false (128 <=? x). test_false (64 <=? x). test_false (32 <=? x). test_true (16 <=? x). unfold decodeLiteralNoIndex. change (znth (x :: l) 0) with x.
      assert (Hl : (Z.land x 15 =? 0) = (x =? 16)).
      { apply eqb_prop, (byte_fact (fun x => Bool.eqb (Z.land x 15 =? 0) (x =? 16)) 16 31); [vm_compute; reflexivity|lia|done]. }
      rewrite Hl, Hx0, negb_involutive, <- Ex, Hname by (done || lia). by rewrite literal_value_rep.
    + test_false (128 <=? x). test_false (64 <=? x). test_false (32 <=? x). test_false (16 <=? x). unfold decodeLiteralNoIndex. change (znth (x :: l) 0) with x.
      assert (Hl : (Z.land x 15 =? 0) = (x =? 0)).
      { apply eqb_prop, (byte_fact (fun x => Bool.eqb (Z.land x 15 =? 0) (x =? 0)) 0 15); [vm_compute; reflexivity|lia|done]. }
      rewrite Hl, Hx0, negb_involutive, <- Ex, Hname by (done || lia). by rewrite literal_value_rep.
    + test_false (128 <=? x). test_true (64 <=? x). unfold decodeLiteralIndexed. change (znth (x :: l) 0) with x.
      rewrite Hx0, negb_involutive, <- Ex, Hname by (done || lia). rewrite literal_value_rep by done.
      cbn. destruct hf; cbn in *. by subst.
  - destruct Hcase as [(-> & -> & Hsn)|[(-> & ->)|(-> & -> & Hsn)]]; [done|done|]. by apply synced_add.
  - split; [done|]. split; [done|]. cbn. intros H16. destruct Hcase as [(-> & -> & Hsn)|[(-> & ->)|(-> & -> & Hsn)]]; done.
  - destruct (p =? 64) eqn:E; [|done]. rewrite addDynamic_fit; [done|apply Hsf|].
    bool_simpl. subst p. destruct Hcase as [(? & _)|[(? & _)|(_ & _ & Hsn)]]; [done|done|]. by split.
Qed.

Lemma plain_back enc dec hf store :
  synced enc dec -> pendingTableSizeUpdate enc = false -> field_ok hf -> ~ lost_field hf ->
  exists enc' b, (forall dst, AppendHeader enc dst hf store = (enc', dst ++ b)) /\ 0 < zlen b
  /\ pendingTableSizeUpdate enc' = false /\ reads_back enc' dec hf b.
Proof.
  intros Hs Hp Hf Hnl. pose proof (search_found enc hf (sy_enc _ _ Hs) Hnl) as [Hn Hfound].
  assert (Hrep := fun dst => AppendHeader_rep enc dst hf store Hp Hf (proj1 Hn)).
  assert (Hlen : forall p bits n (l : bytes), 0 < zlen (int_enc p bits n ++ l)).
  { intros p bits n l. destruct (readInt_first p bits n) as (x & l' & ->). cbn [app]. rewrite zlen_cons. pose proof (zlen_nonneg (l' ++ l)). lia. }
  destruct (search enc hf) as [n full]. cbn [fst] in *. destruct full.
  { destruct Hfound as (e & He & Hk & Hv). eexists _, _. split; [exact Hrep|]. split; [rewrite <- (app_nil_r (int_enc _ _ _)); apply Hlen|].
    split; [done|]. by apply (indexed_back enc dec hf n e). }
  destruct (sensible hf) eqn:Es.
  { eexists _, _. split; [exact Hrep|]. split; [apply Hlen|]. split; [done|]. apply (literal_back enc dec hf 16 4); auto. }
  destruct (negb store || DisableDynamicTable enc).
  { eexists _, _. split; [exact Hrep|]. split; [apply Hlen|]. split; [done|]. apply (literal_back enc dec hf 0 4); auto. }
  eexists _, _. split; [exact Hrep|]. split; [apply Hlen|]. split.
  - rewrite addDynamic_fit; [exact Hp|apply Hs|by split].
  - apply (literal_back enc dec hf 64 6); auto.
Qed.

Lemma header_back enc dec hf store :
  synced enc dec -> (pendingTableSizeUpdate enc = true -> tableSizeUpdateAllowed dec = true) -> field_ok hf -> ~ lost_field hf ->
  exists enc' b, (forall dst, AppendHeader enc dst hf store = (enc', dst ++ b)) /\ 0 < zlen b
  /\ pendingTableSizeUpdate enc' = false
  /\ exists dec' hf', (forall rest, Next dec empty_field (b ++ rest) = (dec', hf', rest, Ok tt))
     /\ synced enc' dec' /\ field_match hf hf' /\ MaxCapacity dec' = MaxCapacity dec.
Proof.
  intros Hs Hallow Hf Hnl. destruct (pendingTableSizeUpdate enc) eqn:Hp.
  2: { destruct (plain_back enc dec hf store Hs Hp Hf Hnl) as (enc' & b & Hb & Hl & Hp' & dec' & hf' & Hr & H).
       exists enc', b. split; [done|]. split; [done|]. split; [done|]. exists dec', hf'. split; [|done]. intros rest. apply Hr. }
  specialize (Hallow eq_refl). pose proof (synced_update enc dec Hs) as Hs1.
  set (enc1 := { enc with pendingTableSizeUpdate := false }) in *. set (dec1 := shrink _) in *.
  destruct (plain_back enc1 dec1 hf store Hs1 eq_refl Hf Hnl) as (enc' & b & Hb & Hl & Hp' & dec' & hf' & Hr & Hs' & Hm & Hc).
  pose proof (ok_max enc (sy_enc _ _ Hs)) as Hmax. pose proof (ok_capacity dec (sy_dec _ _ Hs)). pose proof (sy_limit _ _ Hs).
  destruct prefixes as (_ & _ & _ & _ & P). destruct (int_enc_cons 32 5 (maxTableSize enc)) as (x & l & Ex & Hx).
  specialize (Hx ltac:(lia) ltac:(lia)).
  exists enc', (int_enc 32 5 (maxTableSize enc) ++ b). split; [|split; [|split; [done|]]].
  - intros dst. rewrite app_assoc, <- (size_update_enc enc (sy_enc _ _ Hs)), <- Hb. unfold AppendHeader. by rewrite Hp.
  - rewrite zlen_app. pose proof (zlen_nonneg (int_enc 32 5 (maxTableSize enc))). lia.
  - exists dec', hf'. split; [|split; [done|split; [done|]]].
    + intros rest. unfold Next. rewrite <- app_assoc, Ex. cbn [app]. rewrite Next_branch by (unfold is_byte; lia).
      test_false (128 <=? x). test_false (64 <=? x). test_true (32 <=? x). rewrite Hallow. cbn [negb].
      change (x :: l ++ b ++ rest) with ((x :: l) ++ b ++ rest). rewrite <- Ex, readInt_enc by (done || lia).
      replace (maxTableSize enc >? MaxCapacity dec) with false by lia.
      replace (u32 (maxTableSize enc)) with (maxTableSize enc) by (unfold u32; rewrite Z.mod_small; lia). fold dec1.
      rewrite Ex. cbn [app List.length]. apply Hr.
    + rewrite Hc. unfold dec1. rewrite shrink_fit; [done|apply (sy_dec _ _ Hs)|apply (sy_dec _ _ Hs)].
Qed.

(** ** Header blocks and sessions *)
Fixpoint encode_block (hp : HPACK) (dst : bytes) (fs : list (HeaderField * bool)) : HPACK * bytes :=
  match fs with
  | [] => (hp, dst)
  | (hf, store) :: fs' => let '(hp, dst) := AppendHeader hp dst hf store in encode_block hp dst fs'
  end.

(** A field the encoder takes. *)
Definition sendable (f : HeaderField * bool) : Prop := field_ok (fst f) /\ ~ lost_field (fst f).
(** The decoder's iterator skips fields without name and value. *)
Definition yielded (fs : list (HeaderField * bool)) : list HeaderField := List.filter (fun hf => negb (Empty hf)) (map fst fs).

Lemma Empty_match hf hf' : field_match hf hf' -> Empty hf' = Empty hf.
Proof. intros (Hk & Hv & _). unfold Empty. by rewrite Hk, Hv. Qed.

Lemma block_back fs : forall enc dec,
  synced enc dec -> (pendingTableSizeUpdate enc = true -> tableSizeUpdateAllowed dec = true) -> Forall sendable fs ->
  exists enc' b, (forall dst, encode_block enc dst fs = (enc', dst ++ b))
  /\ exists dec' hfs, (forall fuel, (List.length b < fuel)%nat -> Decode_loop fuel dec b = (dec', hfs, Ok tt))
     /\ synced enc' dec' /\ Forall2 field_match (yielded fs) hfs /\ MaxCapacity dec' = MaxCapacity dec.
Proof.
  induction fs as [|[hf store] fs IH]; intros enc dec Hs Hallow Hfs.
  { exists enc, []. split; [intros dst; by rewrite app_nil_r|]. exists dec, [].
    split; [|split; [done|split; [constructor|done]]]. intros [|fuel] Hl; [cbn in Hl; lia|done]. }
  apply Forall_cons_1 in Hfs as [[Hf Hnl] Hfs].
  destruct (header_back enc dec hf store Hs Hallow Hf Hnl) as (enc1 & b1 & Hb1 & Hl1 & Hp1 & dec1 & hf' & Hn1 & Hs1 & Hm1 & Hc1).
  destruct (IH enc1 dec1 Hs1 ltac:(by rewrite Hp1) Hfs) as (enc2 & b2 & Hb2 & dec2 & hfs & Hd2 & Hs2 & Hm2 & Hc2).
  exists enc2, (b1 ++ b2). split; [intros dst; cbn [encode_block]; by rewrite Hb1, Hb2, app_assoc|].
  exists dec2, (if Empty hf' then hfs else hf' :: hfs). split; [|split; [done|split; [|by rewrite Hc2]]].
  - intros [|fuel] Hl; [cbn in Hl; lia|]. cbn [Decode_loop]. pose proof (zlen_nonneg b2). rewrite zlen_app.
    replace (zlen b1 + zlen b2 >? 0) with true by lia. rewrite Hn1. replace (zlen b2 >=? zlen b1 + zlen b2) with false by lia.
    rewrite length_app in Hl. unfold zlen in Hl1. by rewrite Hd2 by lia.
  - unfold yielded. cbn [map fst List.filter]. rewrite (Empty_match hf hf') by done. destruct (Empty hf); cbn [negb]; [done|].
    by constructor.
Qed.

(** A session: header blocks, and changes of the encoder's table size within what
    the decoder allows. *)
Inductive event := Block (fs : list (HeaderField * bool)) | Resize (n : Z).
Fixpoint session (enc dec : HPACK) (evs : list event) : HPACK * HPACK * list (list HeaderField * res hpack_error unit) :=
  match evs with
  | [] => (enc, dec, [])
  | Block fs :: evs' =>
      let '(enc, b) := encode_block enc [] fs in
      let '(dec, hfs, r) := Decode dec b in
      let '(enc, dec, outs) := session enc dec evs' in
      (enc, dec, (hfs, r) :: outs)
  | Resize n :: evs' => session (SetMaxTableSize enc n) dec evs'
  end.
Definition event_ok (capacity : Z) (ev : event) : Prop :=
  match ev with Block fs => Forall sendable fs | Resize n => 0 <= n <= capacity end.
Fixpoint blocks (evs : list event) : list (list (HeaderField * bool)) :=
  match evs with
  | [] => []
  | Block fs :: evs' => fs :: blocks evs'
  | Resize _ :: evs' => blocks evs'
  end.
Definition delivered (fs : list (HeaderField * bool)) (out : list HeaderField * res hpack_error unit) : Prop :=
  snd out = Ok tt /\ Forall2 field_match (yielded fs) (fst out).

Lemma begin_synced enc dec : synced enc dec -> synced enc (BeginHeaderBlock dec).
Proof.
  intros [He Hd Ho Hl Hm]. split; [exact He| |exact Ho|exact Hl|exact Hm]. destruct Hd. by split.
Qed.

Lemma session_back evs : forall enc dec,
  synced enc dec -> Forall (event_ok (MaxCapacity dec)) evs ->
  let '(enc', dec', outs) := session enc dec evs in synced enc' dec' /\ Forall2 delivered (blocks evs) outs.
Proof.
  induction evs as [|[fs|n] evs IH]; intros enc dec Hs Hevs; cbn [session blocks].
  - split; [done|constructor].
  - apply Forall_cons_1 in Hevs as [Hfs Hevs].
    destruct (block_back fs enc (BeginHeaderBlock dec) (begin_synced _ _ Hs) ltac:(done) Hfs) as (enc1 & b & Hb & dec1 & hfs & Hd & Hs1 & Hm & Hc).
    rewrite Hb. cbn [app]. unfold Decode. rewrite Hd by lia. specialize (IH enc1 dec1 Hs1 ltac:(rewrite Hc; exact Hevs)).
    destruct (session enc1 dec1 evs) as [[enc2 dec2] outs]. destruct IH as [Hs2 Ho]. split; [done|]. by constructor.
  - apply Forall_cons_1 in Hevs as [Hn Hevs]. apply IH; [by apply synced_resize|done].
Qed.

(** ** Decoding any input *)
Definition no_fault {A} (r : res hpack_error A) : Prop := r <> Panic /\ r <> Err ErrNoProgress.
Definition shorter (rem b : bytes) : Prop := (List.length rem < List.length b)%nat /\ exists w, b = w ++ rem.

Lemma shorter_trans a b c : shorter a b -> shorter b c -> shorter a c.
Proof. intros [H1 [w ->]] [H2 [w' ->]]. split; [lia|]. exists (w' ++ w). by rewrite app_assoc. Qed.
Lemma shorter_bytes rem b : shorter rem b -> bytes_ok b -> bytes_ok rem /\ zlen rem < zlen b.
Proof. intros [Hl [w ->]] Hb. apply Forall_app in Hb as [_ Hb]. split; [done|]. unfold zlen. lia. Qed.

Lemma readInt_total bits b :
  1 <= bits <= 8 -> bytes_ok b -> let '(rem, r) := readInt bits b in
  no_fault r /\ match r with Ok v => 0 <= v < 2 ^ 64 /\ shorter rem b | _ => True end.
Proof.
  intros Hbits Hb. pose proof (readInt_spec bits b Hbits Hb) as H. destruct (readInt bits b) as [rem [v|e|]].
  - destruct H as (Hv & Hl & Hw). split; [by split|]. split; [exact Hv|by split].
  - destruct H as [-> | ->]; split; [by split|done|by split|done].
  - done.
Qed.

Lemma decoded_length src s : bytes_ok src -> spec_decode (bytes_bits src) = Some s -> bytes_ok s /\ zlen s <= 2 * zlen src.
Proof.
  intros Hb H. destruct (spec_decode_inv src s Hb H) as [Hs E]. split; [done|].
  destruct (encode_bits [] s Hs) as (out & pad & Eo & _ & Hp & Hbits). unfold HuffmanEncode in E. rewrite Eo in E. cbn [app] in E. subst out.
  apply (f_equal List.length) in Hbits. rewrite length_app, bytes_bits_length, length_replicate in Hbits.
  assert (Hm : (5 * List.length s <= List.length (enc_bits s))%nat).
  { clear -Hs. induction Hs as [|b s Hb Hs IH]; [cbn; lia|]. change (enc_bits (b :: s)) with (code_bits b ++ enc_bits s).
    rewrite length_app. unfold code_bits. rewrite zbits_length. destruct (code_table b Hb). cbn [List.length]. lia. }
  unfold zlen. lia.
Qed.

Lemma readString_total b :
  bytes_ok b -> let '(rem, s, r) := readString [] b in
  no_fault r /\ match r with Ok _ => shorter rem b /\ bytes_ok s /\ zlen s <= 2 * zlen b | _ => True end.
Proof.
  intros Hb. unfold readString. destruct b as [|x l]; [split; [by split|done]|]. set (b := x :: l) in *.
  pose proof (readInt_total 7 b ltac:(lia) Hb) as H. destruct (readInt 7 b) as [b1 [n|e|]]; [|split; [|done]; destruct H as [[H1 H2] _]; split; congruence|by destruct H as [[]]].
  destruct H as (_ & Hn & Hsh). destruct (shorter_bytes _ _ Hsh Hb) as [Hb1 Hl1].
  destruct (zlen b1 <? n) eqn:E; bool_simpl; [split; [by split|done]|].
  assert (Hd : shorter (zdrop n b1) b).
  { destruct Hsh as [Hl [w Hw]]. split.
    - apply (f_equal List.length) in Hw. unfold zdrop. rewrite length_drop. lia.
    - exists (w ++ ztake n b1). rewrite <- app_assoc. unfold ztake, zdrop. by rewrite take_drop. }
  assert (Ht : bytes_ok (ztake n b1) /\ zlen (ztake n b1) <= zlen b1).
  { split; [by apply Forall_take|]. unfold ztake, zlen. rewrite length_take. lia. }
  destruct Ht as [Ht Htl]. destruct (Z.land x 128 =? 128).
  - pose proof (decode_spec [] (ztake n b1) Ht) as Hs. destruct (spec_decode _) as [o|] eqn:Eo.
    + rewrite Hs. destruct (decoded_length _ _ Ht Eo) as [Ho Hlo]. cbn [app]. split; [by split|]. split; [done|]. split; [done|]. lia.
    + destruct Hs as [d ->]. split; [by split|done].
  - cbn [app]. split; [by split|]. split; [done|]. split; [done|]. lia.
Qed.

(** The sizes for which [Size] does not wrap. *)
Definition moderate (hp : HPACK) (b : bytes) : Prop := table_ok hp /\ MaxCapacity hp < 2 ^ 30 /\ bytes_ok b /\ zlen b < 2 ^ 27.

Lemma peek_short hp n e : table_ok hp -> peek hp n = Some e -> zlen (key e) <= MaxCapacity hp + 1000.
Proof.
  intros Hok. pose proof (ok_max hp Hok). unfold peek. destruct (n <? maxIndex).
  - destruct (n =? 0); [done|]. destruct (staticTable !! _) as [kv|] eqn:E; [|done]. intros [= <-].
    assert (Hf : forallb static_fine staticTable = true) by (vm_compute; reflexivity). rewrite forallb_forall in Hf.
    specialize (Hf kv (proj1 (list_elem_of_In _ _) (list_elem_of_lookup_2 _ _ _ E))). unfold static_fine in Hf.
    apply andb_true_iff in Hf as [Hz _]. bool_simpl. pose proof (zlen_nonneg (value (static_field kv))). lia.
  - destruct (_ >=? _); [done|]. intros He. pose proof (Forall_lookup_1 _ _ _ _ (ok_entries hp Hok) He) as [Hf _].
    destruct (Size_eq e Hf) as [Hs _]. pose proof (zlen_nonneg (value e)). destruct (list_elem_of_split_length _ _ _ He) as (l1 & l2 & Hl & _).
    pose proof (ok_fit hp Hok) as Ht. rewrite Hl, total_app, total_cons in Ht. pose proof (total_nonneg l1). pose proof (total_nonneg l2). lia.
Qed.

(** A name the decoder has read. *)
Definition name_read (hp : HPACK) (hf hf' : HeaderField) (b : bytes) : Prop :=
  bytes_ok (key hf') /\ zlen (key hf') <= MaxCapacity hp + 1000 + 2 * zlen b /\ intern_key (key hf') = key hf'
  /\ sensible hf' = sensible hf.

Lemma literal_name_total hp hf b bits indexed missing :
  moderate hp b -> b <> [] -> 1 <= bits <= 8 -> (forall n, missing n <> ErrNoProgress) ->
  let '(hf', rem, r) := literal_name hp hf b bits indexed missing in
  no_fault r /\ match r with Ok _ => shorter rem b /\ name_read hp hf hf' b | _ => True end.
Proof.
  intros (Hok & Hc & Hb & Hl) Hne Hbits Hmiss. unfold literal_name. pose proof (ok_max hp Hok). destruct indexed.
  - pose proof (readInt_total bits b Hbits Hb) as H'. destruct (readInt bits b) as [b1 [n|e|]];
      [|split; [|done]; destruct H' as [[H1 H2] _]; split; congruence|by destruct H' as [[]]].
    destruct H' as (_ & Hn & Hsh). destruct (peek hp n) as [e|] eqn:E; [|split; [|done]; split; [done|]; specialize (Hmiss n); congruence].
    split; [by split|]. split; [done|]. destruct (peek_fine _ _ _ Hok E) as [(Hk & _ & _ & Hi) _]. pose proof (peek_short _ _ _ Hok E).
    unfold name_read. cbn. rewrite Hi. pose proof (zlen_nonneg b). split; [done|]. split; [lia|]. done.
  - destruct b as [|x l]; [done|]. change (zdrop 1 (x :: l)) with l. apply Forall_cons_1 in Hb as [Hx Hb].
    pose proof (readString_total l Hb) as Hs. destruct (readString [] l) as [[rem s] [u|e|]];
      [|split; [|done]; destruct Hs as [[H1 H2] _]; split; congruence|by destruct Hs as [[]]].
    destruct Hs as (_ & Hsh & Hsb & Hsl). rewrite zlen_cons in *. split; [by split|]. destruct (intern_key_text s Hsb) as [Hkb Hkl]. split.
    + apply (shorter_trans rem l (x :: l)); [done|]. split; [cbn; lia|]. by exists [x].
    + unfold name_read. cbn. rewrite Hkl, intern_key_idem by done. split; [done|]. split; [rewrite ?zlen_cons; lia|]. done.
Qed.

Lemma literal_value_total hf b :
  bytes_ok b -> let '(hf', rem, r) := literal_value hf b in
  no_fault r /\ match r with Ok _ => shorter rem b /\ key hf' = key hf /\ sensible hf' = sensible hf
                                     /\ bytes_ok (value hf') /\ zlen (value hf') <= 2 * zlen b | _ => True end.
Proof.
  intros Hb. unfold literal_value. pose proof (readString_total b Hb) as Hs. destruct (readString [] b) as [[rem s] [u|e|]];
    [|split; [|done]; destruct Hs as [[H1 H2] _]; split; congruence|by destruct Hs as [[]]].
  destruct Hs as (_ & Hsh & Hsb & Hsl). split; [by split|]. split; [done|]. split; [done|]. split; [done|]. cbn. by rewrite intern_value_id.
Qed.

(** What a decoding step guarantees. *)
Definition step_ok (hp : HPACK) (b : bytes) (st : step) : Prop :=
  let '(hp', hf', rem, r) := st in
  table_ok hp' /\ MaxCapacity hp' = MaxCapacity hp /\ no_fault r /\ (r = Ok tt -> shorter rem b).

Lemma step_err hp hf rem b e : table_ok hp -> no_fault (@Err hpack_error unit e) -> step_ok hp b (hp, hf, rem, Err e).
Proof. intros Hok Hr. split; [done|]. split; [done|]. split; [exact Hr|done]. Qed.

Lemma literal_step hp hf b bits indexed missing (add : bool) :
  moderate hp b -> b <> [] -> 1 <= bits <= 8 -> (forall n, missing n <> ErrNoProgress) -> (add = true -> sensible hf = false) ->
  step_ok hp b
    (match literal_name hp hf b bits indexed missing with
     | (hf, b, Ok _) =>
         match literal_value hf b with
         | (hf, b, Ok _) => (if add then addDynamic hp hf else hp, hf, b, Ok tt)
         | (hf, b, r) => (hp, hf, b, r)
         end
     | (hf, b, r) => (hp, hf, b, r)
     end).
Proof.
  intros Hm Hne Hbits Hmiss Hadd. pose proof (literal_name_total hp hf b bits indexed missing Hm Hne Hbits Hmiss) as Hn.
  destruct Hm as (Hok & Hc & Hb & Hl). pose proof (ok_max hp Hok).
  destruct (literal_name hp hf b bits indexed missing) as [[hf1 b1] [u|e|]]; [|by apply step_err; [|apply Hn]|by destruct Hn as [[]]].
  destruct Hn as (_ & Hsh & Hkb & Hkl & Hki & Hks). destruct (shorter_bytes _ _ Hsh Hb) as [Hb1 Hl1].
  pose proof (literal_value_total hf1 b1 Hb1) as Hv.
  destruct (literal_value hf1 b1) as [[hf2 b2] [u2|e|]]; [|by apply step_err; [|apply Hv]|by destruct Hv as [[]]].
  destruct Hv as (_ & Hsh2 & Ek & Es & Hvb & Hvl).
  assert (Hfine : add = true -> entry_fine hf2).
  { intros Ha. split; [|rewrite Es, Hks; by apply Hadd]. unfold field_ok. rewrite Ek. split; [done|]. split; [done|]. split; [lia|done]. }
  split; [|split; [|split; [by split|intros _; by apply (shorter_trans b2 b1)]]]; destruct add; try done.
  - apply addDynamic_ok; auto.
  - rewrite addDynamic_fit by auto. done.
Qed.

Lemma forbid_moderate hp b : moderate hp b -> moderate (forbid_update hp) b.
Proof. intros ([Hs Hf Hm Hc' Hl'] & Hc & Hb & Hl). split; [by split|]. by split. Qed.

Lemma decodeIndexed_ok hp hf b : moderate hp b -> step_ok hp b (decodeIndexed hp hf b).
Proof.
  intros (Hok & _ & Hb & _). unfold decodeIndexed. pose proof (readInt_total 7 b ltac:(lia) Hb) as H.
  destruct (readInt 7 b) as [b1 [n|e|]]; [|apply step_err; [done|]; destruct H as [[H1 H2] _]; split; congruence|by destruct H as [[]]].
  destruct (n =? 0); [by apply step_err|]. destruct (peek hp n); [|by apply step_err].
  split; [done|]. split; [done|]. split; [by split|]. intros _. apply H.
Qed.
Lemma decodeLiteralIndexed_ok hp hf b :
  moderate hp b -> b <> [] -> sensible hf = false -> step_ok hp b (decodeLiteralIndexed hp hf b).
Proof. intros Hm Hne Hs. unfold decodeLiteralIndexed. by apply (literal_step hp hf b 6 _ ErrLiteralNotFound true). Qed.
Lemma decodeLiteralNoIndex_ok hp hf b : moderate hp b -> b <> [] -> step_ok hp b (decodeLiteralNoIndex hp hf b).
Proof.
  intros Hm Hne. unfold decodeLiteralNoIndex.
  pose proof (literal_step hp hf b 4 (negb (Z.land (znth b 0) 15 =? 0)) ErrNonIndexedNotFound false Hm Hne ltac:(lia) ltac:(done) ltac:(done)) as H.
  destruct (literal_name _ _ _ _ _ _) as [[hf1 b1] [u|e|]]; [|done|done].
  destruct (literal_value hf1 b1) as [[hf2 b2] [[]|e|]]; done.
Qed.

Lemma size_change_ok hp n : table_ok hp -> 0 <= n <= MaxCapacity hp ->
  table_ok (shrink { hp with maxTableSize := n }) /\ MaxCapacity (shrink { hp with maxTableSize := n }) = MaxCapacity hp.
Proof.
  intros [Hs Hf Hm Hc Hl] Hn. rewrite shrink_fit by done. split; [|done].
  split; [done|apply fit_total, Hn|exact Hn|exact Hc|by apply fit_fine].
Qed.

Lemma Next_loop_ok fuel : forall hp b,
  moderate hp b -> b <> [] -> (List.length b < fuel)%nat -> step_ok hp b (Next_loop fuel hp empty_field b).
Proof.
  induction fuel as [|fuel IH]; intros hp b Hm Hne Hlen; [lia|]. destruct b as [|x l]; [done|].
  pose proof Hm as (Hok & Hcap & Hb & Hl). pose proof (forbid_moderate _ _ Hm) as Hmf. apply Forall_cons_1 in Hb as [Hx Hb].
  rewrite Next_branch by done. destruct (128 <=? x); [by apply (decodeIndexed_ok (forbid_update hp))|].
  destruct (64 <=? x); [by apply (decodeLiteralIndexed_ok (forbid_update hp))|].
  destruct (32 <=? x).
  2: { destruct (16 <=? x); by apply (decodeLiteralNoIndex_ok (forbid_update hp)). }
  destruct (negb _); [by apply step_err|]. pose proof (readInt_total 5 (x :: l) ltac:(lia) ltac:(apply Hm)) as H.
  destruct (readInt 5 (x :: l)) as [b1 [n|e|]]; [|apply step_err; [done|]; destruct H as [[H1 H2] _]; split; congruence|by destruct H as [[]]].
  destruct H as (_ & Hn & Hsh). destruct (n >? MaxCapacity hp) eqn:E; bool_simpl; [by apply step_err|].
  destruct (shorter_bytes b1 (x :: l) Hsh ltac:(apply Hm)) as [Hb1 Hl1].
  replace (u32 n) with n by (unfold u32; rewrite Z.mod_small; lia).
  destruct (size_change_ok hp n Hok ltac:(lia)) as [Hok1 Hc1]. destruct b1 as [|y b1].
  - destruct fuel; cbn [Next_loop]; (split; [done|]); (split; [done|]); (split; [by split|done]).
  - assert (Hm1 : moderate (shrink { hp with maxTableSize := n }) (y :: b1)).
    { split; [exact Hok1|]. split; [rewrite Hc1; exact Hcap|]. split; [exact Hb1|]. lia. }
    specialize (IH _ _ Hm1 ltac:(done) ltac:(destruct Hsh as [Hsh _]; lia)).
    destruct (Next_loop fuel _ _ _) as [[[hp2 hf2] rem] r]. destruct IH as (H1 & H2 & H3 & H4).
    split; [exact H1|]. split; [rewrite H2; exact Hc1|]. split; [exact H3|]. intros Hr. apply (shorter_trans rem (y :: b1)); auto.
Qed.

Lemma Decode_loop_ok fuel : forall hp b,
  moderate hp b -> (List.length b < fuel)%nat ->
  let '(hp', hfs, r) := Decode_loop fuel hp b in table_ok hp' /\ MaxCapacity hp' = MaxCapacity hp /\ no_fault r /\ zlen hfs <= zlen b.
Proof.
  induction fuel as [|fuel IH]; intros hp b Hm Hlen; [lia|]. cbn [Decode_loop].
  destruct (zlen b >? 0) eqn:E; bool_simpl; [|split; [apply Hm|]; split; [done|]; split; [by split|]; apply zlen_nonneg].
  assert (Hne : b <> []) by (intros ->; done).
  pose proof (Next_loop_ok (S (List.length b)) hp b Hm Hne ltac:(lia)) as H. fold (Next hp empty_field b) in H.
  destruct (Next hp empty_field b) as [[[hp1 hf1] rem] r]. destruct H as (Hok & Hc & Hr & Hsh).
  destruct Hm as (_ & Hcap & Hb & Hl).
  destruct r as [[]|e|]; [|split; [done|]; split; [done|]; split; [exact Hr|apply zlen_nonneg]|by destruct Hr].
  specialize (Hsh eq_refl). destruct (shorter_bytes _ _ Hsh Hb) as [Hb1 Hl1].
  replace (zlen rem >=? zlen b) with false by lia.
  specialize (IH hp1 rem). destruct (Decode_loop fuel hp1 rem) as [[hp2 hfs] r2].
  destruct IH as (H1 & H2 & H3 & H4).
  { split; [done|]. split; [by rewrite Hc|]. split; [done|lia]. }
  { destruct Hsh. lia. }
  split; [done|]. split; [by rewrite H2|]. split; [done|]. destruct (Empty hf1); rewrite ?zlen_cons; lia.
Qed.

(** ** The encoder's state *)
Definition flushed (hp : HPACK) : HPACK := if pendingTableSizeUpdate hp then { hp with pendingTableSizeUpdate := false } else hp.

Lemma flushed_ok hp : table_ok hp -> table_ok (flushed hp).
Proof. intros [Hs Hf Hm Hc Hl]. unfold flushed. destruct (pendingTableSizeUpdate hp); by split. Qed.

Lemma AppendHeader_state hp dst hf store :
  fst (AppendHeader hp dst hf store) =
  if snd (search (flushed hp) hf) || sensible hf || negb store || DisableDynamicTable hp then flushed hp else addDynamic (flushed hp) hf.
Proof.
  unfold AppendHeader, flushed. destruct (pendingTableSizeUpdate hp); cbn zeta beta iota;
    destruct (search _ hf) as [n [|]]; cbn [snd orb fst]; try done; destruct (sensible hf); cbn [orb]; try done;
    change (DisableDynamicTable { hp with pendingTableSizeUpdate := false }) with (DisableDynamicTable hp);
    destruct (negb store || DisableDynamicTable hp); done.
Qed.

Lemma AppendHeader_ok hp dst hf store : table_ok hp -> field_ok hf -> table_ok (fst (AppendHeader hp dst hf store)).
Proof.
  intros Hok Hf. rewrite AppendHeader_state. pose proof (flushed_ok hp Hok).
  destruct (sensible hf) eqn:E; [by rewrite !orb_true_r|]. destruct (_ || _ || _ || _); [done|]. apply addDynamic_ok; [done|by split].
Qed.

Lemma SetMaxCapacity_ok hp n : table_ok hp -> 0 <= n < 2 ^ 31 -> table_ok (SetMaxCapacity hp n).
Proof.
  intros [Hs Hf Hm Hc Hl] Hn. unfold SetMaxCapacity. cbn zeta.
  change (maxTableSize { hp with MaxCapacity := n }) with (maxTableSize hp). destruct (maxTableSize hp >? n) eqn:E; bool_simpl.
  - rewrite shrink_fit by done. split; [done|apply fit_total, Hn|exact (conj (proj1 Hn) (Z.le_refl n))|exact (proj2 Hn)|by apply fit_fine].
  - split; [done|done|exact (conj (proj1 Hm) E)|exact (proj2 Hn)|done].
Qed.

(** ** Theorems *)

(** C15: an encoder and a decoder that start in step stay in step over any sequence
    of header blocks and changes of the encoder's table size up to what the decoder
    allows.  The decoder reads every block without error and hands over the fields
    in order, with their names and values; fields without name and value are
    skipped, and a field is only marked sensitive if it was.  The fields are those
    in the spelling the package stores, except accept-encoding with an empty
    value. *)
Theorem hpack_session (enc dec : HPACK) (evs : list event) :
  synced enc dec -> Forall (event_ok (MaxCapacity dec)) evs ->
  let '(enc', dec', outs) := session enc dec evs in synced enc' dec' /\ Forall2 delivered (blocks evs) outs.
Proof. apply session_back. Qed.

Definition demo_field (k v : string) : HeaderField := mkField (bytes_of_string k) (bytes_of_string v) false.
Definition demo_session : list event :=
  [Block [(demo_field ":method" "GET", true); (demo_field "x-trace" "abc", true)];
   Resize 40; Resize 200;
   Block [(demo_field "x-trace" "abc", true); (mkField (bytes_of_string "authorization") (bytes_of_string "k") true, true)]].

Lemma demo_sendable k v : intern_key (bytes_of_string k) = bytes_of_string k -> zlen (bytes_of_string k) + zlen (bytes_of_string v) < 1000 ->
  bytes_of_string k <> bytes_of_string "accept-encoding" -> forall s b, sendable (mkField (bytes_of_string k) (bytes_of_string v) s, b).
Proof.
  intros Hi Hz Hk s b. split; [|by intros [H _]]. split; [apply bytes_of_string_ok|]. split; [apply bytes_of_string_ok|].
  split; [change (zlen (bytes_of_string k) + zlen (bytes_of_string v) + 32 < 2 ^ 31); lia|exact Hi].
Qed.

Lemma hpack_session_witness :
  map (fun o => (List.length (fst o), snd o)) (snd (session AcquireHPACK AcquireHPACK demo_session)) = [(2%nat, Ok tt); (2%nat, Ok tt)]
  /\ Forall2 delivered (blocks demo_session) (snd (session AcquireHPACK AcquireHPACK demo_session)).
Proof.
  split; [vm_compute; reflexivity|].
  assert (Hs : Forall (event_ok (MaxCapacity AcquireHPACK)) demo_session).
  { repeat apply Forall_cons; try apply Forall_nil; try (cbn; lia);
      (repeat apply Forall_cons; try apply Forall_nil); apply demo_sendable; vm_compute; (reflexivity || done). }
  pose proof (hpack_session AcquireHPACK AcquireHPACK demo_session synced_init Hs) as H.
  destruct (session AcquireHPACK AcquireHPACK demo_session) as [[e d] outs]. exact (proj2 H).
Defined.

(** C16: decoding any header block is total: no index leaves the tables, the loop
    always makes progress, every failure is a named error, no more fields are
    yielded than there are bytes, and the table stays within the capacity. *)
Theorem hpack_decode_total (hp : HPACK) (b : bytes) :
  moderate hp b ->
  let '(hp', hfs, r) := Decode hp b in
  table_ok hp' /\ MaxCapacity hp' = MaxCapacity hp /\ r <> Panic /\ r <> Err ErrNoProgress /\ zlen hfs <= zlen b.
Proof.
  intros (Hok & Hc & Hb & Hl). unfold Decode.
  pose proof (Decode_loop_ok (S (List.length b)) (BeginHeaderBlock hp) b) as H.
  destruct (Decode_loop _ _ _) as [[hp' hfs] r]. destruct H as (H1 & H2 & [H3 H4] & H5); [|lia|done].
  destruct Hok. split; [by split|by split].
Qed.
Lemma hpack_decode_total_witness :
  moderate AcquireHPACK [0x40; 1; 97; 1; 98; 0x3F; 0xE1; 0x7F]
  /\ snd (Decode AcquireHPACK [0x40; 1; 97; 1; 98; 0x3F; 0xE1; 0x7F]) <> Panic.
Proof.
  assert (Hm : moderate AcquireHPACK [0x40; 1; 97; 1; 98; 0x3F; 0xE1; 0x7F]).
  { split; [apply (sy_enc _ _ synced_init)|]. split; [done|]. split; [repeat (apply Forall_cons; split || idtac); unfold is_byte; try lia; apply Forall_nil|done]. }
  split; [exact Hm|]. pose proof (hpack_decode_total _ _ Hm) as H.
  destruct (Decode AcquireHPACK _) as [[hp' hfs] r]. exact (proj1 (proj2 (proj2 H))).
Defined.

(** C17: the invariant of the tables is established by the constructors and kept by
    every operation: the recorded size is the sum of the entries' sizes, it is
    within the limit, the limit is within the capacity, and every entry is in the
    stored spelling and not sensitive. *)
Theorem hpack_table_invariant (hp : HPACK) (hf : HeaderField) (dst : bytes) (store : bool) (n : Z) :
  table_ok hp -> field_ok hf -> 0 <= n < 2 ^ 31 ->
  table_ok AcquireHPACK /\ table_ok (Reset hp) /\ table_ok (BeginHeaderBlock hp) /\ table_ok (releaseDynamic hp)
  /\ table_ok (SetMaxCapacity hp n) /\ table_ok (SetMaxTableSize hp n) /\ table_ok (fst (AppendHeader hp dst hf store))
  /\ (sensible hf = false -> table_ok (addDynamic hp hf)).
Proof.
  intros Hok Hf Hn. pose proof (sy_enc _ _ synced_init) as Hi. split; [exact Hi|]. split; [exact Hi|].
  split; [destruct Hok; by split|]. split.
  { destruct Hok as [Hs Hft Hm Hc Hl]. split; [done|exact (proj1 Hm)|exact Hm|exact Hc|apply Forall_nil]. }
  split; [by apply SetMaxCapacity_ok|]. split; [by apply SetMaxTableSize_ok|]. split; [by apply AppendHeader_ok|].
  intros Hs. apply addDynamic_ok; [done|by split].
Qed.
Lemma hpack_table_invariant_witness : table_ok (SetMaxTableSize AcquireHPACK 100).
Proof.
  destruct (demo_sendable "x-trace" "abc" ltac:(vm_compute; reflexivity) ltac:(vm_compute; done) ltac:(done) false true) as [Hf _].
  apply (hpack_table_invariant AcquireHPACK (demo_field "x-trace" "abc") [] true 100 (sy_enc _ _ synced_init) Hf). lia.
Defined.


(** An accept-encoding field with an empty value reaches the decoder as
    "gzip, deflate": the static lookup reports a full match for the entry that has
    that value. *)
Theorem hpack_empty_accept_encoding :
  let '(_, b) := AppendHeader AcquireHPACK [] (demo_field "accept-encoding" "") true in
  let '(_, hfs, r) := Decode AcquireHPACK b in
  r = Ok tt /\ hfs = [demo_field "accept-encoding" "gzip, deflate"].
Proof. vm_compute. done. Qed.
