(* ===== verification/H2Frames.v ===== *)
(** * HTTP/2 frames

    Models [src/proto/h2]: frame types and flags ([frame.go]), the nine-octet
    header, reading and writing ([header.go]), the bodies ([frame_data.go],
    [frame_headers.go], [frame_control.go], [frame_window.go], [frame_ext.go],
    [settings.go]), error values ([errors.go]) and the byte helpers and checks of
    [utils.go].  A body is a record; the pools and the arena, which only decide
    where a body is allocated, are not modelled, and a body comes from its pool
    reset.  A body that fails to deserialize is released by the caller, so
    [Deserialize] returns the new body or an error.  Debug texts are left out.

    The theorems: headers and frames round-trip through [WriteTo] and [readFrom],
    reading is total and consumes exactly one frame, settings round-trip and are
    validated. *)

From Stdlib Require Import String.
From S2P Require Import Prelude Intern HpackInt Hpack.
Open Scope Z_scope.

(** ** Types, flags and errors *)
Definition FrameData : Z := 0.
Definition FrameHeaders : Z := 1.
Definition FramePriority : Z := 2.
Definition FrameResetStream : Z := 3.
Definition FrameSettings : Z := 4.
Definition FramePushPromise : Z := 5.
Definition FramePing : Z := 6.
Definition FrameGoAway : Z := 7.
Definition FrameWindowUpdate : Z := 8.
Definition FrameContinuation : Z := 9.

Definition Has (flags target : Z) : bool := Z.land flags target =? target.
Definition Add (flags target : Z) : Z := Z.lor flags target.
Definition Del (flags target : Z) : Z := Z.ldiff flags target.

Definition FlagAck : Z := 0x1.
Definition FlagEndStream : Z := 0x1.
Definition FlagEndHeaders : Z := 0x4.
Definition FlagPadded : Z := 0x8.
Definition FlagPriority : Z := 0x20.

Definition NoError : Z := 0.
Definition ProtocolError : Z := 1.
Definition FlowControlError : Z := 3.
Definition StreamClosedError : Z := 5.
Definition FrameSizeError : Z := 6.
Definition CompressionError : Z := 9.
Definition EnhanceYourCalm : Z := 0xb.

(** An [Error] with its code and the frame that reports it, or an error of the
    transport. *)
Inductive h2_error :=
| H2Error (code frameType : Z)
| EOF
| ErrUnexpectedEOF.
Definition NewError (code : Z) : h2_error := H2Error code FrameResetStream.
Definition NewGoAwayError (code : Z) : h2_error := H2Error code FrameGoAway.
Definition NewResetStreamError (code : Z) : h2_error := H2Error code FrameResetStream.
Definition ErrMissingBytes : h2_error := NewError ProtocolError.
Definition ErrPayloadExceeds : h2_error := NewError FrameSizeError.

(** ** Byte helpers *)
Definition uint24ToBytes (n : Z) : bytes := be_put 3 n.
Definition uint32ToBytes (n : Z) : bytes := be_put 4 n.
Definition appendUint32Bytes (dst : bytes) (n : Z) : bytes := dst ++ be_put 4 n.
Definition bytesToUint24 (b : bytes) : res h2_error Z := if zlen b <? 3 then Panic else Ok (be_get (ztake 3 b)).
Definition bytesToUint32 (b : bytes) : res h2_error Z := if zlen b <? 4 then Panic else Ok (be_get (ztake 4 b)).

Definition cutPadding (payload : bytes) (length : Z) : res h2_error bytes :=
  if zlen payload =? 0 then Err ErrMissingBytes
  else
    let pad := znth payload 0 in
    if (pad >=? zlen payload) || (length >? zlen payload) || (pad >=? length) || (length - pad <? 1) then
      Err (NewGoAwayError ProtocolError)
    else slice payload 1 (length - pad).

(** ** Bodies *)
#[projections(primitive)]
Record Data := mkData { d_endStream : bool; d_hasPadding : bool; d_b : bytes }.
#[projections(primitive)]
Record Headers := mkHeaders {
  h_hasPadding : bool; h_stream : Z; h_weight : Z; h_endStream : bool; h_endHeaders : bool;
  h_priority : bool; h_exclusive : bool; h_rawHeaders : bytes }.
#[projections(primitive)]
Record Priority := mkPriority { pry_exclusive : bool; pry_stream : Z; pry_weight : Z }.
#[projections(primitive)]
Record RstStream := mkRst { rst_code : Z }.
#[projections(primitive)]
Record Ping := mkPing { p_ack : bool; p_data : bytes }.
#[projections(primitive)]
Record GoAway := mkGoAway { ga_stream : Z; ga_code : Z; ga_data : bytes }.
#[projections(primitive)]
Record WindowUpdate := mkWU { wu_increment : Z }.
#[projections(primitive)]
Record Continuation := mkCont { c_endHeaders : bool; c_rawHeaders : bytes }.
#[projections(primitive)]
Record PushPromise := mkPP { pp_pad : bool; pp_ended : bool; pp_stream : Z; pp_header : bytes }.
#[projections(primitive)]
Record Settings := mkSettings {
  st_ack : bool; st_rawSettings : bytes; st_tableSize : Z; st_enablePush : bool; st_MaxStreams : Z;
  st_windowSize : Z; st_frameSize : Z; st_headerSize : Z; st_enableConnect : bool }.

Inductive Frame :=
| FData (d : Data) | FHeaders (h : Headers) | FPriority (p : Priority) | FRst (r : RstStream) | FSettings (s : Settings)
| FPushPromise (p : PushPromise) | FPing (p : Ping) | FGoAway (g : GoAway) | FWindowUpdate (w : WindowUpdate) | FCont (c : Continuation).
Definition Type_of (fr : Frame) : Z :=
  match fr with
  | FData _ => FrameData | FHeaders _ => FrameHeaders | FPriority _ => FramePriority | FRst _ => FrameResetStream
  | FSettings _ => FrameSettings | FPushPromise _ => FramePushPromise | FPing _ => FramePing | FGoAway _ => FrameGoAway
  | FWindowUpdate _ => FrameWindowUpdate | FCont _ => FrameContinuation
  end.

(** [Reset] of each body; that of a PING keeps its data. *)
Definition Data_Reset : Data := mkData false false [].
Definition Headers_Reset : Headers := mkHeaders false 0 0 false false false false [].
Definition Priority_Reset : Priority := mkPriority false 0 0.
Definition RstStream_Reset : RstStream := mkRst 0.
Definition Ping_Reset (p : Ping) : Ping := { p with p_ack := false }.
Definition GoAway_Reset : GoAway := mkGoAway 0 0 [].
Definition WindowUpdate_Reset : WindowUpdate := mkWU 0.
Definition Continuation_Reset : Continuation := mkCont false [].
Definition PushPromise_Reset : PushPromise := mkPP false false 0 [].
Definition DefaultHeaderTableSize : Z := 4096.
Definition defaultConcurrentStreams : Z := 100.
Definition defaultWindowSize : Z := Z.shiftl 1 16 - 1.
Definition DefaultDataFrameSize : Z := Z.shiftl 1 14.
Definition maxFrameSize : Z := Z.shiftl 1 24 - 1.
Definition Settings_Reset : Settings :=
  mkSettings false [] DefaultHeaderTableSize false defaultConcurrentStreams defaultWindowSize DefaultDataFrameSize 0 false.

(** [p.data] is an array of eight bytes: [copy] keeps what it does not overwrite. *)
Definition Ping_SetData (p : Ping) (b : bytes) : Ping := { p with p_data := ztake 8 b ++ zdrop (zlen b) (p_data p) }.
Definition GoAway_SetStream (ga : GoAway) (s : Z) : GoAway := { ga with ga_stream := Z.land s (Z.shiftl 1 31 - 1) }.
Definition GoAway_SetCode (ga : GoAway) (c : Z) : GoAway := { ga with ga_code := Z.land c (Z.shiftl 1 31 - 1) }.

(** A clean body; a PING from the pool has the data of an earlier use. *)
Definition AcquireFrame (stale : bytes) (kind : Z) : res h2_error Frame :=
  if kind =? FrameData then Ok (FData Data_Reset)
  else if kind =? FrameHeaders then Ok (FHeaders Headers_Reset)
  else if kind =? FramePriority then Ok (FPriority Priority_Reset)
  else if kind =? FrameResetStream then Ok (FRst RstStream_Reset)
  else if kind =? FrameSettings then Ok (FSettings Settings_Reset)
  else if kind =? FramePushPromise then Ok (FPushPromise PushPromise_Reset)
  else if kind =? FramePing then Ok (FPing (Ping_Reset (mkPing false stale)))
  else if kind =? FrameGoAway then Ok (FGoAway GoAway_Reset)
  else if kind =? FrameWindowUpdate then Ok (FWindowUpdate WindowUpdate_Reset)
  else if kind =? FrameContinuation then Ok (FCont Continuation_Reset)
  else Panic.

(** ** The frame header *)
Definition defaultFrameSize : Z := 9.
Definition DefaultMaxLen : Z := Z.shiftl 1 14.

#[projections(primitive)]
Record FrameHeader := mkFH {
  f_length : Z; f_kind : Z; f_flags : Z; f_stream : Z; f_maxLen : Z; f_payload : bytes; f_fr : option Frame }.
Definition FrameHeader_Reset : FrameHeader := mkFH 0 0 0 0 DefaultMaxLen [] None.
Definition AcquireFrameHeader : FrameHeader := FrameHeader_Reset.

Definition parseValues (f : FrameHeader) (header : bytes) : res h2_error FrameHeader :=
  let* l3 := slice header 0 3 in
  let* n := bytesToUint24 l3 in
  let* k := index header 3 in
  let* fl := index header 4 in
  let* l4 := slice header 5 (zlen header) in
  let* s := bytesToUint32 l4 in
  Ok { f with f_length := n; f_kind := k; f_flags := fl; f_stream := Z.land s (Z.shiftl 1 31 - 1) }.

(** The first nine bytes of [dst], which is at least that long. *)
Definition PackFrameHeader (dst : bytes) (len kind flags stream : Z) : res h2_error bytes :=
  if zlen dst <? 9 then Panic
  else Ok (uint24ToBytes len ++ [u8 kind; u8 flags] ++ uint32ToBytes stream ++ zdrop 9 dst).
Definition UnpackFrameHeader (src : bytes) : res h2_error (Z * Z * Z * Z) :=
  let* f := parseValues FrameHeader_Reset src in
  Ok (f_length f, f_kind f, f_flags f, f_stream f).
Definition parseHeader (f : FrameHeader) : bytes :=
  uint24ToBytes (u32 (f_length f)) ++ [u8 (f_kind f); u8 (f_flags f)] ++ uint32ToBytes (f_stream f).

Definition SetBody (f : FrameHeader) (b : Frame) : FrameHeader := { f with f_kind := Type_of b; f_fr := Some b }.
Definition checkLen (f : FrameHeader) : res h2_error unit :=
  if negb (f_maxLen f =? 0) && (f_length f >? f_maxLen f) then Err ErrPayloadExceeds else Ok tt.

(** ** Settings *)
Definition HeaderTableSize : Z := 0x1.
Definition EnablePush : Z := 0x2.
Definition MaxConcurrentStreams : Z := 0x3.
Definition MaxWindowSize : Z := 0x4.
Definition MaxFrameSize : Z := 0x5.
Definition MaxHeaderListSize : Z := 0x6.
Definition EnableConnectProtocol : Z := 0x8.

Definition applySetting (st : Settings) (key val : Z) : res h2_error Settings :=
  if key =? HeaderTableSize then Ok { st with st_tableSize := val }
  else if key =? EnablePush then
    if negb (val =? 0) && negb (val =? 1) then Err (NewGoAwayError ProtocolError)
    else Ok { st with st_enablePush := negb (val =? 0) }
  else if key =? MaxConcurrentStreams then Ok { st with st_MaxStreams := val }
  else if key =? MaxWindowSize then
    if val >? Z.shiftl 1 31 - 1 then Err (NewGoAwayError FlowControlError) else Ok { st with st_windowSize := val }
  else if key =? MaxFrameSize then
    if (val <? Z.shiftl 1 14) || (val >? Z.shiftl 1 24 - 1) then Err (NewGoAwayError ProtocolError)
    else Ok { st with st_frameSize := val }
  else if key =? MaxHeaderListSize then Ok { st with st_headerSize := val }
  else if key =? EnableConnectProtocol then
    if negb (val =? 0) && negb (val =? 1) then Err (NewGoAwayError ProtocolError)
    else Ok { st with st_enableConnect := val =? 1 }
  else Ok st.

(** The loop over six bytes at a time. *)
Fixpoint Settings_Read (st : Settings) (payload : bytes) : res h2_error Settings :=
  match payload with
  | a :: b :: c :: d :: e :: f :: rest =>
      let* st := applySetting st (be_get [a; b]) (be_get [c; d; e; f]) in
      Settings_Read st rest
  | _ => Ok st
  end.

Definition appendSetting (raw : bytes) (key val : Z) : bytes := raw ++ be_put 2 key ++ be_put 4 val.
Definition Encode (st : Settings) : Settings :=
  let raw := appendSetting [] HeaderTableSize (st_tableSize st) in
  let raw := if st_enablePush st then appendSetting raw EnablePush 1 else raw in
  let raw := appendSetting raw MaxConcurrentStreams (st_MaxStreams st) in
  let raw := appendSetting raw MaxWindowSize (st_windowSize st) in
  let raw := appendSetting raw MaxFrameSize (st_frameSize st) in
  let raw := appendSetting raw MaxHeaderListSize (st_headerSize st) in
  let raw := if st_enableConnect st then appendSetting raw EnableConnectProtocol 1 else raw in
  { st with st_rawSettings := raw }.

(** ** Deserialize *)
Definition Data_Deserialize (d : Data) (f : FrameHeader) : res h2_error Data :=
  if f_stream f =? 0 then Err (NewGoAwayError ProtocolError)
  else
    let* payload := if Has (f_flags f) FlagPadded then cutPadding (f_payload f) (f_length f) else Ok (f_payload f) in
    Ok { d with d_endStream := Has (f_flags f) FlagEndStream; d_b := payload }.

Definition Headers_Deserialize (h : Headers) (f : FrameHeader) : res h2_error Headers :=
  if f_stream f =? 0 then Err (NewGoAwayError ProtocolError)
  else
    let* payload := if Has (f_flags f) FlagPadded then cutPadding (f_payload f) (zlen (f_payload f)) else Ok (f_payload f) in
    let* hp :=
      if Has (f_flags f) FlagPriority then
        if zlen payload <? 5 then Err (NewGoAwayError FrameSizeError)
        else
          let* b0 := index payload 0 in
          let* dep := bytesToUint32 payload in
          let dep := Z.land dep (Z.shiftl 1 31 - 1) in
          if dep =? f_stream f then Err (NewGoAwayError ProtocolError)
          else
            let* w := index payload 4 in
            let* rest := slice payload 5 (zlen payload) in
            Ok ({ h with h_priority := true; h_exclusive := negb (Z.land b0 0x80 =? 0); h_stream := dep; h_weight := w }, rest)
      else Ok (h, payload) in
    let '(h, payload) := hp in
    Ok { h with h_endStream := Has (f_flags f) FlagEndStream; h_endHeaders := Has (f_flags f) FlagEndHeaders;
                h_rawHeaders := h_rawHeaders h ++ payload }.

Definition Priority_Deserialize (pry : Priority) (f : FrameHeader) : res h2_error Priority :=
  if f_stream f =? 0 then Err (NewGoAwayError ProtocolError)
  else if negb (zlen (f_payload f) =? 5) then Err (NewGoAwayError FrameSizeError)
  else
    let* b0 := index (f_payload f) 0 in
    let* dep := bytesToUint32 (f_payload f) in
    let dep := Z.land dep (Z.shiftl 1 31 - 1) in
    if dep =? f_stream f then Err (NewGoAwayError ProtocolError)
    else
      let* w := index (f_payload f) 4 in
      Ok { pry with pry_exclusive := negb (Z.land b0 0x80 =? 0); pry_stream := dep; pry_weight := w }.

Definition RstStream_Deserialize (rst : RstStream) (f : FrameHeader) : res h2_error RstStream :=
  if f_stream f =? 0 then Err (NewGoAwayError ProtocolError)
  else if negb (zlen (f_payload f) =? 4) then Err (NewGoAwayError FrameSizeError)
  else let* c := bytesToUint32 (f_payload f) in Ok { rst with rst_code := c }.

Definition Settings_Deserialize (st : Settings) (f : FrameHeader) : res h2_error Settings :=
  if negb (f_stream f =? 0) then Err (NewGoAwayError ProtocolError)
  else if negb (zlen (f_payload f) mod 6 =? 0) then Err (NewGoAwayError FrameSizeError)
  else
    let st := { st with st_ack := Has (f_flags f) FlagAck } in
    if st_ack st && (zlen (f_payload f) >? 0) then Err (NewGoAwayError FrameSizeError)
    else Settings_Read st (f_payload f).

Definition PushPromise_Deserialize (pp : PushPromise) (f : FrameHeader) : res h2_error PushPromise :=
  if f_stream f =? 0 then Err (NewGoAwayError ProtocolError)
  else
    let* payload := if Has (f_flags f) FlagPadded then cutPadding (f_payload f) (f_length f) else Ok (f_payload f) in
    if zlen payload <? 4 then Err (NewGoAwayError FrameSizeError)
    else
      let* s := bytesToUint32 payload in
      let* rest := slice payload 4 (zlen payload) in
      Ok { pp with pp_stream := Z.land s (Z.shiftl 1 31 - 1); pp_header := rest; pp_ended := Has (f_flags f) FlagEndHeaders }.

Definition Ping_Deserialize (p : Ping) (f : FrameHeader) : res h2_error Ping :=
  if negb (f_stream f =? 0) then Err (NewGoAwayError ProtocolError)
  else
    let p := { p with p_ack := Has (f_flags f) FlagAck } in
    if negb (zlen (f_payload f) =? 8) then Err (NewGoAwayError FrameSizeError)
    else Ok (Ping_SetData p (f_payload f)).

Definition GoAway_Deserialize (ga : GoAway) (f : FrameHeader) : res h2_error GoAway :=
  if negb (f_stream f =? 0) then Err (NewGoAwayError ProtocolError)
  else if zlen (f_payload f) <? 8 then Err (NewGoAwayError FrameSizeError)
  else
    let* s := bytesToUint32 (f_payload f) in
    let* tail := slice (f_payload f) 4 (zlen (f_payload f)) in
    let* c := bytesToUint32 tail in
    let ga := { ga with ga_stream := Z.land s (Z.shiftl 1 31 - 1); ga_code := c } in
    if zlen (f_payload f) >? 8 then
      let* d := slice (f_payload f) 8 (zlen (f_payload f)) in Ok { ga with ga_data := d }
    else Ok ga.

Definition WindowUpdate_Deserialize (wu : WindowUpdate) (f : FrameHeader) : res h2_error WindowUpdate :=
  if negb (zlen (f_payload f) =? 4) then Err (NewGoAwayError FrameSizeError)
  else
    let* n := bytesToUint32 (f_payload f) in
    let inc := Z.land n (Z.shiftl 1 31 - 1) in
    if inc =? 0 then
      if f_stream f =? 0 then Err (NewGoAwayError ProtocolError) else Err (NewResetStreamError ProtocolError)
    else Ok { wu with wu_increment := inc }.

Definition Continuation_Deserialize (c : Continuation) (f : FrameHeader) : res h2_error Continuation :=
  if f_stream f =? 0 then Err (NewGoAwayError ProtocolError)
  else Ok { c with c_endHeaders := Has (f_flags f) FlagEndHeaders; c_rawHeaders := f_payload f }.

(** The call through the interface. *)
Definition Deserialize (b : Frame) (f : FrameHeader) : res h2_error Frame :=
  match b with
  | FData x => let* y := Data_Deserialize x f in Ok (FData y)
  | FHeaders x => let* y := Headers_Deserialize x f in Ok (FHeaders y)
  | FPriority x => let* y := Priority_Deserialize x f in Ok (FPriority y)
  | FRst x => let* y := RstStream_Deserialize x f in Ok (FRst y)
  | FSettings x => let* y := Settings_Deserialize x f in Ok (FSettings y)
  | FPushPromise x => let* y := PushPromise_Deserialize x f in Ok (FPushPromise y)
  | FPing x => let* y := Ping_Deserialize x f in Ok (FPing y)
  | FGoAway x => let* y := GoAway_Deserialize x f in Ok (FGoAway y)
  | FWindowUpdate x => let* y := WindowUpdate_Deserialize x f in Ok (FWindowUpdate y)
  | FCont x => let* y := Continuation_Deserialize x f in Ok (FCont y)
  end.

(** ** Serialize *)
Definition set_flag (b : bool) (f : FrameHeader) (flag : Z) : FrameHeader := if b then { f with f_flags := Add (f_flags f) flag } else f.
Definition setPayload (f : FrameHeader) (p : bytes) : FrameHeader := { f with f_payload := p }.
(** [p[0] |= 0x80]. *)
Definition set_top (b : bool) (p : bytes) : bytes := if b then match p with x :: l => Z.lor x 0x80 :: l | [] => [] end else p.

Definition Data_Serialize (d : Data) (f : FrameHeader) : FrameHeader :=
  let f := set_flag (d_endStream d) f FlagEndStream in
  if d_hasPadding d then setPayload (set_flag true f FlagPadded) ([0] ++ d_b d) else setPayload f (d_b d).

Definition Headers_Serialize (h : Headers) (f : FrameHeader) : FrameHeader :=
  let f := set_flag (h_endStream h) f FlagEndStream in
  let f := set_flag (h_endHeaders h) f FlagEndHeaders in
  let p := [] in
  let '(f, p) := if h_hasPadding h then (set_flag true f FlagPadded, p ++ [0]) else (f, p) in
  let '(f, p) :=
    if h_priority h then
      (set_flag true f FlagPriority, p ++ set_top (h_exclusive h) (uint32ToBytes (h_stream h)) ++ [h_weight h])
    else (f, p) in
  let p := p ++ h_rawHeaders h in
  let p := if h_hasPadding h then match p with _ :: l => 0 :: l | [] => [] end else p in
  setPayload f p.

Definition Priority_Serialize (pry : Priority) (f : FrameHeader) : FrameHeader :=
  setPayload f (set_top (pry_exclusive pry) (appendUint32Bytes [] (pry_stream pry)) ++ [pry_weight pry]).
Definition RstStream_Serialize (rst : RstStream) (f : FrameHeader) : FrameHeader :=
  { setPayload f (appendUint32Bytes [] (rst_code rst)) with f_length := 4 }.
Definition Settings_Serialize (st : Settings) (f : FrameHeader) : Settings * FrameHeader :=
  if st_ack st then (st, setPayload (set_flag true f FlagAck) [])
  else let st := Encode st in (st, setPayload f (st_rawSettings st)).
Definition PushPromise_Serialize (pp : PushPromise) (f : FrameHeader) : FrameHeader :=
  setPayload f (appendUint32Bytes [] (pp_stream pp) ++ pp_header pp).
Definition Ping_Serialize (p : Ping) (f : FrameHeader) : FrameHeader := setPayload (set_flag (p_ack p) f FlagAck) (p_data p).
Definition GoAway_Serialize (ga : GoAway) (f : FrameHeader) : FrameHeader :=
  setPayload f (appendUint32Bytes (appendUint32Bytes [] (ga_stream ga)) (ga_code ga) ++ ga_data ga).
Definition WindowUpdate_Serialize (wu : WindowUpdate) (f : FrameHeader) : FrameHeader :=
  { setPayload f (appendUint32Bytes [] (u32 (wu_increment wu))) with f_length := 4 }.
Definition Continuation_Serialize (c : Continuation) (f : FrameHeader) : FrameHeader :=
  setPayload (set_flag (c_endHeaders c) f FlagEndHeaders) (c_rawHeaders c).

Definition Serialize (b : Frame) (f : FrameHeader) : Frame * FrameHeader :=
  match b with
  | FData x => (b, Data_Serialize x f)
  | FHeaders x => (b, Headers_Serialize x f)
  | FPriority x => (b, Priority_Serialize x f)
  | FRst x => (b, RstStream_Serialize x f)
  | FSettings x => let '(y, f) := Settings_Serialize x f in (FSettings y, f)
  | FPushPromise x => (b, PushPromise_Serialize x f)
  | FPing x => (b, Ping_Serialize x f)
  | FGoAway x => (b, GoAway_Serialize x f)
  | FWindowUpdate x => (b, WindowUpdate_Serialize x f)
  | FCont x => (b, Continuation_Serialize x f)
  end.

(** ** Reading and writing *)

(** [io.ReadFull] of [n] bytes and [io.CopyN] of [n] bytes to nowhere. *)
Definition ReadFull (br : bytes) (n : Z) : bytes * res h2_error bytes :=
  if zlen br <? n then ([], Err (if zlen br =? 0 then EOF else ErrUnexpectedEOF)) else (zdrop n br, Ok (ztake n br)).
Definition CopyN (br : bytes) (n : Z) : bytes * res h2_error unit :=
  if zlen br <? n then ([], Err EOF) else (zdrop n br, Ok tt).

(** [br] is what the reader will deliver; the result has what is left of it. *)
Definition readFrom (stale : bytes) (f : FrameHeader) (br : bytes) : bytes * res h2_error FrameHeader :=
  if zlen br <? defaultFrameSize then (br, Err EOF)
  else
    let header := ztake defaultFrameSize br in
    let br := zdrop defaultFrameSize br in
    match parseValues f header with
    | Err e => (br, Err e)
    | Panic => (br, Panic)
    | Ok f =>
        match checkLen f with
        | Err e =>
            if f_length f >? 0 then
              match CopyN br (f_length f) with
              | (br, Ok _) => (br, Err e)
              | (br, Err e') => (br, Err e')
              | (br, Panic) => (br, Panic)
              end
            else (br, Err e)
        | Panic => (br, Panic)
        | Ok _ =>
            if f_kind f >? FrameContinuation then
              if f_length f >? 0 then
                match CopyN br (f_length f) with
                | (br, Ok _) => (br, Ok { f with f_fr := None })
                | (br, Err e') => (br, Err e')
                | (br, Panic) => (br, Panic)
                end
              else (br, Ok { f with f_fr := None })
            else
              match AcquireFrame stale (f_kind f) with
              | Err e => (br, Err e)
              | Panic => (br, Panic)
              | Ok body =>
                  let '(br, r) := if f_length f >? 0 then ReadFull br (f_length f) else (br, Ok (f_payload f)) in
                  (br, let* p := r in
                       let f := { f with f_payload := p } in
                       let* body := Deserialize body f in
                       Ok { f with f_fr := Some body })
              end
        end
    end.

Definition ReadFrameFromWithSize (stale : bytes) (br : bytes) (max : Z) : bytes * res h2_error FrameHeader :=
  readFrom stale { AcquireFrameHeader with f_maxLen := max } br.
Definition ReadFrameFrom (stale : bytes) (br : bytes) : bytes * res h2_error FrameHeader :=
  ReadFrameFromWithSize stale br maxFrameSize.

(** The bytes handed to the writer. *)
Definition WriteTo (f : FrameHeader) : res h2_error (FrameHeader * bytes) :=
  match f_fr f with
  | None => Panic
  | Some body =>
      let '(body, f) := Serialize body f in
      let f := { f with f_fr := Some body; f_length := zlen (f_payload f) } in
      Ok (f, parseHeader f ++ f_payload f)
  end.

(** ** Handshake and header checks *)
Definition http2Preface : bytes := bytes_of_string "PRI * HTTP/2.0" ++ [13; 10; 13; 10] ++ bytes_of_string "SM" ++ [13; 10; 13; 10].
Definition ReadPreface (read : bytes) : bool := bool_decide (read = http2Preface).
Definition PerformHandshake (preface : bool) (st : Settings) (maxWin : Z) : res h2_error bytes :=
  let out := if preface then http2Preface else [] in
  let* r1 := WriteTo (SetBody AcquireFrameHeader (FSettings st)) in
  let* r2 := WriteTo (SetBody AcquireFrameHeader (FWindowUpdate (mkWU maxWin))) in
  Ok (out ++ snd r1 ++ snd r2).

Definition bad_name_char (c : Z) : bool := (c <=? 0x20) || ((c >=? 65) && (c <=? 90)) || (c >=? 0x7f) || (c =? 58).
Definition ValidateHeaderName (k : bytes) (isPseudo : bool) : bool :=
  if zlen k =? 0 then false
  else if isPseudo then
    if negb (znth k 0 =? 58) || (zlen k =? 1) then false else negb (existsb bad_name_char (zdrop 1 k))
  else negb (existsb bad_name_char k).
Definition ValidateHeaderValue (v : bytes) : bool := negb (existsb (fun c => (c =? 0) || (c =? 13) || (c =? 10)) v).

Definition connection_names : list string := ["connection"; "keep-alive"; "proxy-connection"; "transfer-encoding"; "upgrade"]%string.
Definition IsConnectionSpecificHeader (k v : bytes) : bool :=
  if existsb (fun n => bool_decide (k = bytes_of_string n)) connection_names then true
  else if bool_decide (k = bytes_of_string "te") then negb (bool_decide (v = bytes_of_string "trailers"))
  else false.
Definition ToLowerCopy (b : bytes) : bytes := map lower b.

(** ** Flags *)
Lemma Has_bit fl i : 0 <= i -> Has fl (2 ^ i) = Z.testbit fl i.
Proof.
  intros Hi. unfold Has. destruct (Z.testbit fl i) eqn:E.
  - apply Z.eqb_eq, Z.bits_inj'. intros n Hn. rewrite Z.land_spec, Z.pow2_bits_eqb by lia.
    destruct (Z.eqb_spec i n) as [<-|]; [by rewrite E|by rewrite andb_false_r].
  - apply Z.eqb_neq. intros H. apply (f_equal (fun z => Z.testbit z i)) in H.
    by rewrite Z.land_spec, Z.pow2_bits_true, E in H by lia.
Qed.

Lemma Has_Add_same fl x : Has (Add fl x) x = true.
Proof. unfold Has, Add. apply Z.eqb_eq. rewrite Z.land_lor_distr_l, Z.land_diag. apply Z.bits_inj'. intros n _.
  rewrite Z.lor_spec, Z.land_spec. by destruct (Z.testbit fl n), (Z.testbit x n). Qed.
Lemma Has_Add_other fl x y : Z.land x y = 0 -> Has (Add fl x) y = Has fl y.
Proof. intros H. unfold Has, Add. by rewrite Z.land_lor_distr_l, H, Z.lor_0_r. Qed.

(** Evaluate a test of a flag that was or was not added. *)
Ltac has_flags :=
  repeat match goal with
  | |- context [Has (Add ?fl ?x) ?y] =>
      first [rewrite (Has_Add_same fl x) | change y with x; rewrite (Has_Add_same fl x) | rewrite (Has_Add_other fl x y eq_refl)]
  end.

Lemma lor_byte a b : is_byte a -> is_byte b -> is_byte (Z.lor a b).
Proof.
  unfold is_byte. intros Ha Hb. split; [apply Z.lor_nonneg; lia|].
  destruct (Z.eq_dec (Z.lor a b) 0) as [->|Hz]; [lia|]. change 256 with (2 ^ 8). apply Z.log2_lt_cancel.
  rewrite Z.log2_lor, (Z.log2_pow2 8) by lia. apply Z.max_lub_lt; (apply Z.le_lt_trans with (Z.log2 255); [apply Z.log2_le_mono; lia|done]).
Qed.

(** ** The header on the wire *)
Lemma mask31 n : 0 <= n < 2 ^ 31 -> Z.land n (Z.shiftl 1 31 - 1) = n.
Proof. intros. change (Z.shiftl 1 31 - 1) with (2 ^ 31 - 1). rewrite land_mask by lia. apply Z.mod_small. lia. Qed.
Lemma mask31_range n : 0 <= Z.land n (Z.shiftl 1 31 - 1) < 2 ^ 31.
Proof. change (Z.shiftl 1 31 - 1) with (2 ^ 31 - 1). rewrite land_mask by lia. apply Z.mod_pos_bound. lia. Qed.

Lemma bytesToUint32_put n rest : 0 <= n < 2 ^ 32 -> bytesToUint32 (be_put 4 n ++ rest) = Ok n.
Proof.
  intros Hn. unfold bytesToUint32. rewrite zlen_app, be_put_zlen. pose proof (zlen_nonneg rest).
  test_false (Z.of_nat 4 + zlen rest <? 4). rewrite ztake_app_eq by done. rewrite be_get_put, Z.mod_small by lia. done.
Qed.

Definition header_image (len kind flags stream : Z) : bytes := be_put 3 len ++ [kind; flags] ++ be_put 4 stream.
Lemma header_image_len a b c d : zlen (header_image a b c d) = 9.
Proof. unfold header_image. rewrite !zlen_app, !be_put_zlen. done. Qed.

Lemma parseValues_image f len k fl s :
  0 <= len < 2 ^ 24 -> is_byte k -> is_byte fl -> 0 <= s < 2 ^ 31 ->
  parseValues f (header_image len k fl s) = Ok { f with f_length := len; f_kind := k; f_flags := fl; f_stream := s }.
Proof.
  intros Hl Hk Hf Hs. unfold parseValues. rewrite header_image_len.
  rewrite slice_ok by (rewrite ?header_image_len; lia). cbn [res_bind].
  unfold header_image. rewrite zdrop_0, (ztake_app_eq (3 - 0) (be_put 3 len)) by done.
  unfold bytesToUint24. rewrite be_put_zlen. change (Z.of_nat 3 <? 3) with false. cbn match. rewrite ztake_all by (rewrite be_put_zlen; lia).
  rewrite be_get_put, Z.mod_small by lia. cbn [res_bind].
  assert (E : slice (be_put 3 len ++ [k; fl] ++ be_put 4 s) 5 9 = @Ok h2_error bytes (be_put 4 s)).
  { rewrite slice_ok by (rewrite ?zlen_app, ?be_put_zlen, ?zlen_cons, ?zlen_nil; lia). rewrite app_assoc, zdrop_app_eq by done. by rewrite ztake_all by done. }
  rewrite E. change (index (be_put 3 len ++ [k; fl] ++ be_put 4 s) 3) with (@Ok h2_error Z k).
  change (index (be_put 3 len ++ [k; fl] ++ be_put 4 s) 4) with (@Ok h2_error Z fl). cbn [res_bind].
  rewrite <- (app_nil_r (be_put 4 s)), bytesToUint32_put by lia. cbn [res_bind]. by rewrite mask31.
Qed.

(** Any nine bytes are a header. *)
Lemma parseValues_any f b : bytes_ok b -> zlen b = 9 ->
  exists len k fl s, 0 <= len < 2 ^ 24 /\ is_byte k /\ is_byte fl /\ 0 <= s < 2 ^ 31 /\
  parseValues f b = Ok { f with f_length := len; f_kind := k; f_flags := fl; f_stream := s }.
Proof.
  intros Hb Hl. destruct b as [|b0 [|b1 [|b2 [|b3 [|b4 [|b5 [|b6 [|b7 [|b8 [|b9 b]]]]]]]]]]; try (unfold zlen in Hl; cbn [List.length] in Hl; lia).
  repeat (apply Forall_cons_1 in Hb as [? Hb]).
  assert (E : parseValues f [b0; b1; b2; b3; b4; b5; b6; b7; b8] =
    Ok { f with f_length := be_get [b0; b1; b2]; f_kind := b3; f_flags := b4;
                f_stream := Z.land (be_get [b5; b6; b7; b8]) (Z.shiftl 1 31 - 1) }) by reflexivity.
  rewrite E. eexists _, _, _, _. split; [|split; [|split; [|split; [|reflexivity]]]]; try done.
  - apply (be_get_range [b0; b1; b2]). repeat (apply Forall_cons; [done|]). apply Forall_nil.
  - apply mask31_range.
Qed.

(** ** Reading a frame *)
Definition body_of (f : FrameHeader) (b : Frame) : FrameHeader := { f with f_fr := Some b }.

Lemma readFrom_image stale f len k fl s p rest :
  zlen p = len -> len < 2 ^ 24 -> 0 <= k <= 9 -> is_byte fl -> 0 <= s < 2 ^ 31 -> (f_maxLen f = 0 \/ len <= f_maxLen f) ->
  f_payload f = [] ->
  readFrom stale f (header_image len k fl s ++ p ++ rest) =
  (rest, let* a := AcquireFrame stale k in
         let f' := { f with f_length := len; f_kind := k; f_flags := fl; f_stream := s; f_payload := p } in
         let* b := Deserialize a f' in Ok (body_of f' b)).
Proof.
  intros Hp Hlen Hk Hfl Hs Hmax Hf. pose proof (zlen_nonneg p). pose proof (zlen_nonneg rest). unfold readFrom, defaultFrameSize.
  rewrite !zlen_app, header_image_len. test_false (9 + (zlen p + zlen rest) <? 9).
  rewrite (ztake_app_eq 9), (zdrop_app_eq 9) by by rewrite header_image_len.
  rewrite parseValues_image by (unfold is_byte; try lia; done).
  set (f1 := { f with f_length := len; f_kind := k; f_flags := fl; f_stream := s }).
  assert (Ec : checkLen f1 = Ok tt).
  { unfold checkLen. change (f_maxLen f1) with (f_maxLen f). change (f_length f1) with len.
    destruct Hmax as [->|Hm]; [done|]. replace (len >? f_maxLen f) with false by lia. by rewrite andb_false_r. }
  rewrite Ec. change (f_kind f1) with k. change (f_length f1) with len. unfold FrameContinuation. replace (k >? 9) with false by lia.
  assert (Hacq : exists a, AcquireFrame stale k = Ok a).
  { assert (k = 0 \/ k = 1 \/ k = 2 \/ k = 3 \/ k = 4 \/ k = 5 \/ k = 6 \/ k = 7 \/ k = 8 \/ k = 9) as Hcase by lia.
    repeat destruct Hcase as [->|Hcase]; try subst k; by eexists. }
  destruct Hacq as [a Ea]. rewrite Ea. cbn [res_bind].
  assert (Er : (if len >? 0 then ReadFull (p ++ rest) len else (p ++ rest, Ok (f_payload f1))) = (rest, Ok p)).
  { destruct (len >? 0) eqn:E; bool_simpl.
    - unfold ReadFull. rewrite zlen_app. replace (zlen p + zlen rest <? len) with false by lia.
      by rewrite (zdrop_app_eq len), (ztake_app_eq len) by done.
    - assert (p = []) as -> by (apply zlen_zero; lia). change (f_payload f1) with (f_payload f). by rewrite Hf. }
  rewrite Er. done.
Qed.

(** ** Well-formed frames *)
Definition is_u32 (x : Z) : Prop := 0 <= x < 2 ^ 32.
Definition is_id (x : Z) : Prop := 0 <= x < 2 ^ 31.
Record settings_wf (st : Settings) : Prop := {
  sw_table : is_u32 (st_tableSize st);
  sw_streams : is_u32 (st_MaxStreams st);
  sw_window : is_id (st_windowSize st);
  sw_frame : 2 ^ 14 <= st_frameSize st < 2 ^ 24;
  sw_header : is_u32 (st_headerSize st)
}.

(** What RFC 9113 asks of a frame on stream [sid]. *)
Definition frame_wf (sid : Z) (b : Frame) : Prop :=
  match b with
  | FData d => sid <> 0 /\ bytes_ok (d_b d)
  | FHeaders h => sid <> 0 /\ bytes_ok (h_rawHeaders h)
                  /\ (h_priority h = true -> is_id (h_stream h) /\ h_stream h <> sid /\ is_byte (h_weight h))
  | FPriority p => sid <> 0 /\ is_id (pry_stream p) /\ pry_stream p <> sid /\ is_byte (pry_weight p)
  | FRst r => sid <> 0 /\ is_u32 (rst_code r)
  | FSettings s => sid = 0 /\ settings_wf s
  | FPushPromise p => sid <> 0 /\ is_id (pp_stream p) /\ bytes_ok (pp_header p)
  | FPing p => sid = 0 /\ bytes_ok (p_data p) /\ zlen (p_data p) = 8
  | FGoAway g => sid = 0 /\ is_id (ga_stream g) /\ is_u32 (ga_code g) /\ bytes_ok (ga_data g)
  | FWindowUpdate w => 1 <= wu_increment w < 2 ^ 31
  | FCont c => sid <> 0 /\ bytes_ok (c_rawHeaders c)
  end.

(** The flags set beforehand by the caller do not contradict the body. *)
Definition flags_fit (fl : Z) (b : Frame) : Prop :=
  is_byte fl /\
  match b with
  | FData d => Has fl FlagPadded = true -> d_hasPadding d = true
  | FHeaders h => (Has fl FlagPadded = true -> h_hasPadding h = true) /\ (Has fl FlagPriority = true -> h_priority h = true)
  | FSettings s => Has fl FlagAck = true -> st_ack s = true
  | FPushPromise p => Has fl FlagPadded = false /\ (pp_ended p = true -> Has fl FlagEndHeaders = true)
  | _ => True
  end.

(** The body the reader gets, when the frame arrives with flags [fl]: padding is
    gone, and END_STREAM, END_HEADERS and ACK are those of the header. *)
Definition received (fl : Z) (b : Frame) : Frame :=
  match b with
  | FData d => FData (mkData (Has fl FlagEndStream) false (d_b d))
  | FHeaders h =>
      FHeaders (if h_priority h
                then mkHeaders false (h_stream h) (h_weight h) (Has fl FlagEndStream) (Has fl FlagEndHeaders) true (h_exclusive h) (h_rawHeaders h)
                else mkHeaders false 0 0 (Has fl FlagEndStream) (Has fl FlagEndHeaders) false false (h_rawHeaders h))
  | FSettings s =>
      FSettings (if st_ack s then { Settings_Reset with st_ack := true } else { s with st_rawSettings := [] })
  | FPushPromise p => FPushPromise (mkPP false (Has fl FlagEndHeaders) (pp_stream p) (pp_header p))
  | FPing p => FPing (mkPing (Has fl FlagAck) (p_data p))
  | FCont c => FCont (mkCont (Has fl FlagEndHeaders) (c_rawHeaders c))
  | _ => b
  end.

(** *** Pieces *)
Lemma cutPadding_zero p : cutPadding (0 :: p) (zlen (0 :: p)) = Ok p.
Proof.
  pose proof (zlen_nonneg p). unfold cutPadding. change (znth (0 :: p) 0) with 0. rewrite zlen_cons.
  test_false (1 + zlen p =? 0). replace (0 >=? 1 + zlen p) with false by lia. replace (1 + zlen p >? 1 + zlen p) with false by lia.
  test_false (1 + zlen p - 0 <? 1). cbn [orb]. rewrite slice_ok by (rewrite ?zlen_cons; lia).
  change (zdrop 1 (0 :: p)) with p. by rewrite ztake_all by lia.
Qed.

(** The dependency field: the exclusive bit on top of the stream number. *)
Lemma set_top_put ex s : is_id s ->
  exists b0, set_top ex (be_put 4 s) = be_put 4 (s + (if ex then 2 ^ 31 else 0)) /\ znth (be_put 4 (s + (if ex then 2 ^ 31 else 0))) 0 = b0
  /\ negb (Z.land b0 0x80 =? 0) = ex /\ Z.land (s + (if ex then 2 ^ 31 else 0)) (Z.shiftl 1 31 - 1) = s.
Proof.
  intros Hs. unfold is_id in Hs. eexists. split; [|split; [reflexivity|]].
  2: { change (Z.shiftl 1 31 - 1) with (2 ^ 31 - 1). rewrite land_mask by lia. split.
       - change (znth _ 0) with (u8 (Z.shiftr (s + (if ex then 2 ^ 31 else 0)) 24)). rewrite Z.shiftr_div_pow2 by lia.
         set (x := u8 _). assert (Hx : is_byte x) by apply u8_range.
         assert (Hr : if ex then 128 <= x else x < 128) by (unfold x, u8; destruct ex; lia).
         assert (Hb : Bool.eqb (negb (Z.land x 0x80 =? 0)) (128 <=? x) = true) by (revert x Hx Hr; intros x Hx _; apply (all_bytes_spec (fun x => Bool.eqb (negb (Z.land x 0x80 =? 0)) (128 <=? x))); [vm_compute; reflexivity|exact Hx]).
         apply eqb_prop in Hb. rewrite Hb. destruct ex; lia.
       - destruct ex; lia. }
  destruct ex; cbn [set_top]; [|by rewrite Z.add_0_r].
  change (be_put 4 s) with [u8 (Z.shiftr s 24); u8 (Z.shiftr s 16); u8 (Z.shiftr s 8); u8 (Z.shiftr s 0)].
  change (be_put 4 (s + 2 ^ 31)) with [u8 (Z.shiftr (s + 2 ^ 31) 24); u8 (Z.shiftr (s + 2 ^ 31) 16); u8 (Z.shiftr (s + 2 ^ 31) 8); u8 (Z.shiftr (s + 2 ^ 31) 0)].
  rewrite !Z.shiftr_div_pow2 by lia. unfold u8. list_eq; try lia.
  rewrite Z.lor_comm. replace 0x80 with (1 * 2 ^ 7) by done. rewrite lor_add by lia. lia.
Qed.

Lemma priority_field ex s w rest :
  is_id s -> let p := set_top ex (be_put 4 s) ++ [w] ++ rest in
  (exists b0, index p 0 = @Ok h2_error Z b0 /\ negb (Z.land b0 0x80 =? 0) = ex)
  /\ (exists d, bytesToUint32 p = Ok d /\ Z.land d (Z.shiftl 1 31 - 1) = s)
  /\ index p 4 = @Ok h2_error Z w /\ slice p 5 (zlen p) = @Ok h2_error bytes rest /\ 5 + zlen rest = zlen p.
Proof.
  intros Hs. destruct (set_top_put ex s Hs) as (b0 & E & Hb & Hx & Hd). cbn zeta. rewrite E.
  set (v := s + (if ex then 2 ^ 31 else 0)) in *. assert (Hv : 0 <= v < 2 ^ 32) by (unfold v, is_id in *; destruct ex; lia).
  assert (Hl : zlen (be_put 4 v ++ [w] ++ rest) = 5 + zlen rest) by (rewrite !zlen_app, be_put_zlen, zlen_cons, zlen_nil; lia).
  pose proof (zlen_nonneg rest). split; [|split; [|split; [|split]]].
  - exists b0. split; [|done]. unfold index. rewrite Hl. test_true ((0 <=? 0) && (0 <? 5 + zlen rest)). by rewrite <- Hb.
  - exists v. split; [|done]. by apply bytesToUint32_put.
  - unfold index. rewrite Hl. test_true ((0 <=? 4) && (4 <? 5 + zlen rest)). done.
  - rewrite Hl. rewrite slice_ok by (rewrite ?Hl; lia). rewrite app_assoc, (zdrop_app_eq 5) by (rewrite zlen_app, be_put_zlen; done).
    by rewrite ztake_all by lia.
  - done.
Qed.

(** *** The parameters of a SETTINGS frame *)
Definition settings_image (l : list (Z * Z)) : bytes := concat (map (fun kv => be_put 2 (fst kv) ++ be_put 4 (snd kv)) l).
Definition param_ok (kv : Z * Z) : Prop := 0 <= fst kv < 2 ^ 16 /\ is_u32 (snd kv).
Fixpoint apply_all (st : Settings) (l : list (Z * Z)) : res h2_error Settings :=
  match l with
  | [] => Ok st
  | (k, v) :: l' => let* st := applySetting st k v in apply_all st l'
  end.
Definition encode_params (st : Settings) : list (Z * Z) :=
  [(HeaderTableSize, st_tableSize st)] ++ (if st_enablePush st then [(EnablePush, 1)] else [])
  ++ [(MaxConcurrentStreams, st_MaxStreams st); (MaxWindowSize, st_windowSize st); (MaxFrameSize, st_frameSize st);
      (MaxHeaderListSize, st_headerSize st)] ++ (if st_enableConnect st then [(EnableConnectProtocol, 1)] else []).

Lemma Settings_Read_image l : forall st, Forall param_ok l -> Settings_Read st (settings_image l) = apply_all st l.
Proof.
  induction l as [|[k v] l IH]; intros st Hl; [done|]. apply Forall_cons_1 in Hl as [[Hk Hv] Hl]. cbn [fst snd] in *.
  unfold settings_image. cbn [map concat fst snd apply_all]. fold (settings_image l).
  assert (E2 : be_put 2 k = [u8 (Z.shiftr k 8); u8 (Z.shiftr k 0)]) by done.
  assert (E4 : be_put 4 v = [u8 (Z.shiftr v 24); u8 (Z.shiftr v 16); u8 (Z.shiftr v 8); u8 (Z.shiftr v 0)]) by done.
  rewrite E2, E4. cbn [app Settings_Read]. rewrite <- E2, <- E4, !be_get_put, !Z.mod_small by (unfold is_u32 in *; lia).
  destruct (applySetting st k v) as [st'| |]; [|done|done]. cbn [res_bind]. by apply IH.
Qed.
Lemma settings_image_ok l : bytes_ok (settings_image l) /\ zlen (settings_image l) = 6 * zlen l.
Proof.
  induction l as [|[k v] l [IHb IHl]]; [split; [apply Forall_nil|done]|]. unfold settings_image. cbn [map concat fst snd]. fold (settings_image l).
  split; [|rewrite !zlen_app, !be_put_zlen, IHl, zlen_cons; lia].
  apply bytes_ok_app. split; [|done]. apply bytes_ok_app. split; apply be_put_ok.
Qed.

Lemma Encode_image st : st_rawSettings (Encode st) = settings_image (encode_params st).
Proof.
  unfold Encode, encode_params, settings_image, appendSetting. cbn zeta.
  change (st_rawSettings { st with st_rawSettings := ?r }) with r.
  destruct (st_enablePush st), (st_enableConnect st); cbn [map concat app fst snd]; by rewrite <- ?app_assoc, ?app_nil_r.
Qed.

Lemma encode_params_ok st : settings_wf st ->
  Forall param_ok (encode_params st)
  /\ apply_all Settings_Reset (encode_params st) = Ok { st with st_ack := false; st_rawSettings := [] }.
Proof.
  destruct st as [ack raw ts push ms ws fs hs conn]. intros [Ht Hs Hw Hf Hh]. cbn in Ht, Hs, Hw, Hf, Hh. split.
  - unfold is_id, is_u32 in *. destruct push, conn; cbn -[Z.pow]; repeat apply Forall_cons; try apply Forall_nil; split; unfold is_u32, HeaderTableSize, EnablePush, MaxConcurrentStreams, MaxWindowSize, MaxFrameSize, MaxHeaderListSize, EnableConnectProtocol;
      cbn -[Z.pow]; lia.
  - unfold is_id in Hw.
    assert (Hwin : (ws >? Z.shiftl 1 31 - 1) = false) by (change (Z.shiftl 1 31 - 1) with (2 ^ 31 - 1); lia).
    assert (Hfr : (fs <? Z.shiftl 1 14) || (fs >? Z.shiftl 1 24 - 1) = false)
      by (change (Z.shiftl 1 14) with (2 ^ 14); change (Z.shiftl 1 24 - 1) with (2 ^ 24 - 1); lia).
    destruct push, conn; cbn -[Z.shiftl Z.ltb Z.gtb]; rewrite Hwin; cbn -[Z.shiftl Z.ltb Z.gtb]; rewrite Hfr; done.
Qed.

(** ** Round trip *)

(** The header of a frame about to be written. *)
Definition outgoing (sid fl : Z) (b : Frame) : FrameHeader :=
  SetBody { AcquireFrameHeader with f_stream := sid; f_flags := fl } b.
(** The flags and the payload it is written with. *)
Definition wire_flags (sid fl : Z) (b : Frame) : Z := f_flags (snd (Serialize b (outgoing sid fl b))).
Definition wire_payload (sid fl : Z) (b : Frame) : bytes := f_payload (snd (Serialize b (outgoing sid fl b))).

Lemma acquire_type stale b : exists a, AcquireFrame stale (Type_of b) = Ok a /\
  match b, a with
  | FData _, FData x => x = Data_Reset | FHeaders _, FHeaders x => x = Headers_Reset | FPriority _, FPriority x => x = Priority_Reset
  | FRst _, FRst x => x = RstStream_Reset | FSettings _, FSettings x => x = Settings_Reset | FPushPromise _, FPushPromise x => x = PushPromise_Reset
  | FPing _, FPing x => x = mkPing false stale | FGoAway _, FGoAway x => x = GoAway_Reset | FWindowUpdate _, FWindowUpdate x => x = WindowUpdate_Reset
  | FCont _, FCont x => x = Continuation_Reset | _, _ => False
  end.
Proof. by destruct b; eexists. Qed.

(** A header that has arrived. *)
Definition arrived (f : FrameHeader) (sid fl : Z) (p : bytes) : Prop :=
  f_stream f = sid /\ f_flags f = fl /\ f_payload f = p /\ f_length f = zlen p.

Lemma data_back sid fl d f :
  frame_wf sid (FData d) -> flags_fit fl (FData d) -> arrived f sid (wire_flags sid fl (FData d)) (wire_payload sid fl (FData d)) ->
  Data_Deserialize Data_Reset f = Ok (mkData (Has (f_flags f) FlagEndStream) false (d_b d)).
Proof.
  intros [Hsid Hb] [_ Hfit] (Es & Ef & Ep & El). unfold Data_Deserialize. rewrite Es. test_false (sid =? 0).
  destruct d as [es pad b]. change (Has fl FlagPadded = true -> pad = true) in Hfit.
  assert (Epad : Has (f_flags f) FlagPadded = pad).
  { rewrite Ef. unfold wire_flags. destruct es, pad; cbn -[Has Add]; has_flags; try done; (destruct (Has fl FlagPadded); [symmetry; by apply Hfit|done]). }
  rewrite Epad. destruct pad.
  - rewrite El, Ep. change (wire_payload sid fl (FData (mkData es true b))) with (0 :: b). by rewrite cutPadding_zero.
  - rewrite Ep. done.
Qed.

Lemma headers_back sid fl h f :
  frame_wf sid (FHeaders h) -> flags_fit fl (FHeaders h) -> arrived f sid (wire_flags sid fl (FHeaders h)) (wire_payload sid fl (FHeaders h)) ->
  exists y, Headers_Deserialize Headers_Reset f = Ok y /\ FHeaders y = received (f_flags f) (FHeaders h).
Proof.
  intros (Hsid & Hb & Hpri) [_ [Hfp Hfr]] (Es & Ef & Ep & El). unfold Headers_Deserialize. rewrite Es. test_false (sid =? 0).
  destruct h as [pad dep w es eh pri ex raw]. cbn [h_hasPadding h_priority h_stream h_weight h_rawHeaders] in *.
  assert (Epad : Has (f_flags f) FlagPadded = pad).
  { rewrite Ef. unfold wire_flags. destruct es, eh, pad, pri; cbn -[Has Add]; has_flags; try done; (destruct (Has fl FlagPadded); first [symmetry; by apply Hfp|done]). }
  assert (Epri : Has (f_flags f) FlagPriority = pri).
  { rewrite Ef. unfold wire_flags. destruct es, eh, pad, pri; cbn -[Has Add]; has_flags; try done; (destruct (Has fl FlagPriority); first [symmetry; by apply Hfr|done]). }
  set (body := (if pri then set_top ex (uint32ToBytes dep) ++ [w] ++ raw else raw)).
  assert (Ebody : wire_payload sid fl (FHeaders (mkHeaders pad dep w es eh pri ex raw)) = if pad then 0 :: body else body).
  { unfold wire_payload, body. destruct es, eh, pad, pri; cbn -[set_top uint32ToBytes]; by rewrite <- ?app_assoc. }
  rewrite Epad, Epri. rewrite Ebody in Ep.
  assert (Ecut : (if pad then cutPadding (f_payload f) (zlen (f_payload f)) else Ok (f_payload f)) = Ok body).
  { rewrite Ep. destruct pad; [|done]. apply cutPadding_zero. }
  rewrite Ecut. cbn [res_bind]. destruct pri.
  - destruct (Hpri eq_refl) as (Hid & Hne & Hw). destruct (priority_field ex dep w raw Hid) as ((b0 & I0 & Hex) & (d & Hd & Hdm) & I4 & Hsl & Hlen).
    change (set_top ex (be_put 4 dep) ++ [w] ++ raw) with body in *. pose proof (zlen_nonneg raw). test_false (zlen body <? 5).
    rewrite I0. cbn [res_bind]. rewrite Hd. cbn [res_bind]. cbv zeta. rewrite Hdm. test_false (dep =? sid).
    rewrite I4. cbn [res_bind]. rewrite Hsl. cbn [res_bind].
    eexists. split; [reflexivity|]. cbn -[Has]. by rewrite Hex.
  - eexists. split; [reflexivity|]. done.
Qed.

Lemma settings_back sid fl st f :
  frame_wf sid (FSettings st) -> flags_fit fl (FSettings st) -> arrived f sid (wire_flags sid fl (FSettings st)) (wire_payload sid fl (FSettings st)) ->
  exists y, Settings_Deserialize Settings_Reset f = Ok y /\ FSettings y = received (f_flags f) (FSettings st).
Proof.
  intros [Hsid Hwf] [_ Hfit] (Es & Ef & Ep & El). unfold Settings_Deserialize. rewrite Es, Hsid. cbn [negb Z.eqb].
  assert (Eack : Has (f_flags f) FlagAck = st_ack st).
  { rewrite Ef. unfold wire_flags. cbn -[Has Add Encode]. unfold Settings_Serialize. destruct (st_ack st) eqn:E; cbn -[Has Add Encode].
    - by has_flags.
    - destruct (Has fl FlagAck) eqn:E1; [|reflexivity]. symmetry. by apply Hfit. }
  assert (Epay : f_payload f = if st_ack st then [] else settings_image (encode_params st)).
  { rewrite Ep. unfold wire_payload. cbn -[Encode]. unfold Settings_Serialize. destruct (st_ack st); cbn -[Encode]; [done|]. apply Encode_image. }
  rewrite Epay, Eack. destruct (st_ack st) eqn:Eb.
  - cbn. eexists. split; [reflexivity|]. by rewrite Eb.
  - destruct (settings_image_ok (encode_params st)) as [_ Hl]. rewrite Hl.
    test_true (6 * zlen (encode_params st) mod 6 =? 0). cbn [negb andb].
    destruct (encode_params_ok st Hwf) as [Hpo Happ].
    change ({ Settings_Reset with st_ack := false }) with Settings_Reset. cbn -[Settings_Read Settings_Reset settings_image encode_params].
    rewrite Settings_Read_image, Happ by done. eexists. split; [reflexivity|]. cbn. rewrite Eb. by destruct st; cbn in *; subst.
Qed.

Lemma bytesToUint32_word n : 0 <= n < 2 ^ 32 -> bytesToUint32 (be_put 4 n) = Ok n.
Proof. intros Hn. rewrite <- (app_nil_r (be_put 4 n)). by apply bytesToUint32_put. Qed.

(** Deserializing what was serialized, into a clean body. *)
Lemma deserialize_serialized stale sid fl b f :
  zlen stale = 8 -> frame_wf sid b -> flags_fit fl b -> arrived f sid (wire_flags sid fl b) (wire_payload sid fl b) ->
  (let* a := AcquireFrame stale (Type_of b) in Deserialize a f) = Ok (received (f_flags f) b).
Proof.
  intros Hst Hwf Hfit Harr. pose proof Harr as (Es & Ef & Ep & El).
  destruct (acquire_type stale b) as (a & Ea & Ha). rewrite Ea. cbn [res_bind].
  destruct b as [d|h|p|r|st|p|p|g|w|c], a as [d'|h'|p'|r'|st'|p'|p'|g'|w'|c']; try done; rewrite Ha; cbn [Deserialize]; clear Ea Ha.
  - by rewrite (data_back sid fl d f).
  - destruct (headers_back sid fl h f Hwf Hfit Harr) as (y & -> & <-). done.
  - destruct Hwf as (Hsid & Hid & Hne & Hw). destruct p as [ex dep w]. cbn in Hid, Hne, Hw.
    change (wire_payload sid fl (FPriority (mkPriority ex dep w))) with (set_top ex (be_put 4 dep) ++ [w] ++ []) in Ep.
    destruct (priority_field ex dep w [] Hid) as ((b0 & I0 & Hex) & (d & Hd & Hdm) & I4 & _ & Hlen).
    unfold Priority_Deserialize. rewrite Es, Ep. test_false (sid =? 0). rewrite <- Hlen. cbn [negb Z.add zlen Z.eqb].
    change (5 + zlen [] =? 5) with true. cbn [negb]. rewrite I0. cbn [res_bind]. rewrite Hd. cbn [res_bind]. cbv zeta. rewrite Hdm.
    test_false (dep =? sid). rewrite I4. cbn [res_bind]. by rewrite Hex.
  - destruct Hwf as [Hsid Hc]. destruct r as [c]. cbn in Hc. change (wire_payload sid fl (FRst (mkRst c))) with (be_put 4 c) in Ep.
    unfold RstStream_Deserialize. rewrite Es, Ep. test_false (sid =? 0). rewrite be_put_zlen. change (Z.of_nat 4 =? 4) with true. cbn [negb].
    by rewrite bytesToUint32_word.
  - destruct (settings_back sid fl st f Hwf Hfit Harr) as (y & -> & <-). done.
  - destruct Hwf as (Hsid & Hid & Hb). destruct p as [pad en s hd]. cbn in Hid, Hb. destruct Hfit as [_ Hpad].
    change (wire_payload sid fl (FPushPromise (mkPP pad en s hd))) with (be_put 4 s ++ hd) in Ep.
    change (wire_flags sid fl (FPushPromise (mkPP pad en s hd))) with fl in Ef. destruct Hpad as [Hpad _].
    unfold PushPromise_Deserialize. rewrite Es. test_false (sid =? 0). rewrite Ef, Hpad, Ep. cbn [res_bind]. unfold is_id in Hid.
    assert (Hl : zlen (be_put 4 s ++ hd) = 4 + zlen hd) by (rewrite zlen_app, be_put_zlen; lia). pose proof (zlen_nonneg hd).
    rewrite Hl. test_false (4 + zlen hd <? 4). rewrite bytesToUint32_put by lia. cbn [res_bind].
    rewrite slice_ok by (rewrite ?Hl; lia). cbn [res_bind]. rewrite (zdrop_app_eq 4) by by rewrite be_put_zlen.
    by rewrite ztake_all, mask31 by lia.
  - destruct Hwf as (Hsid & Hb & Hl). destruct p as [ack d]. cbn in Hb, Hl. change (wire_payload sid fl (FPing (mkPing ack d))) with d in Ep.
    unfold Ping_Deserialize. rewrite Es, Hsid, Ep, Hl. cbn [negb Z.eqb]. cbn -[Has ztake zdrop]. unfold Ping_SetData. cbn -[Has ztake zdrop].
    rewrite ztake_all, zdrop_all by lia. by rewrite app_nil_r.
  - destruct Hwf as (Hsid & Hid & Hc & Hb). destruct g as [s c d]. cbn in Hid, Hc, Hb. unfold is_id, is_u32 in *. pose proof (zlen_nonneg d).
    assert (Ep' : f_payload f = be_put 4 s ++ be_put 4 c ++ d) by (rewrite Ep; unfold wire_payload; cbn -[be_put]; by rewrite <- app_assoc).
    assert (Hl : zlen (be_put 4 s ++ be_put 4 c ++ d) = 8 + zlen d) by (rewrite !zlen_app, !be_put_zlen; lia).
    unfold GoAway_Deserialize. rewrite Es, Hsid, Ep', Hl. cbn [negb Z.eqb]. test_false (8 + zlen d <? 8).
    rewrite bytesToUint32_put by lia. cbn [res_bind]. rewrite slice_ok by (rewrite ?Hl; lia). cbn [res_bind].
    rewrite (zdrop_app_eq 4), ztake_all by (rewrite ?zlen_app, ?be_put_zlen; lia). rewrite bytesToUint32_put by lia. cbn [res_bind].
    rewrite mask31 by lia. destruct (8 + zlen d >? 8) eqn:E; bool_simpl.
    + rewrite slice_ok by (rewrite ?Hl; lia). cbn [res_bind].
      rewrite app_assoc, (zdrop_app_eq 8), ztake_all by (rewrite ?zlen_app, ?be_put_zlen; lia). done.
    + assert (d = []) as -> by (apply zlen_zero; lia). done.
  - destruct w as [inc]. cbn in Hwf. unfold WindowUpdate_Deserialize. rewrite Ep. change (wire_payload sid fl (FWindowUpdate (mkWU inc))) with (be_put 4 (u32 inc)).
    rewrite be_put_zlen. change (Z.of_nat 4 =? 4) with true. cbn [negb]. unfold u32. rewrite Z.mod_small by lia.
    rewrite bytesToUint32_word by lia. cbn [res_bind]. cbv zeta. rewrite mask31 by lia. by test_false (inc =? 0).
  - destruct Hwf as [Hsid Hb]. unfold Continuation_Deserialize. rewrite Es, Ep. by test_false (sid =? 0).
Qed.

Lemma wire_flags_byte sid fl b : is_byte fl -> is_byte (wire_flags sid fl b).
Proof.
  intros Hfl. assert (Ha : forall x y, is_byte x -> is_byte y -> is_byte (Add x y)) by apply lor_byte.
  assert (H1 : is_byte FlagAck /\ is_byte FlagEndStream /\ is_byte FlagEndHeaders /\ is_byte FlagPadded /\ is_byte FlagPriority)
    by (unfold is_byte, FlagAck, FlagEndStream, FlagEndHeaders, FlagPadded, FlagPriority; lia).
  destruct H1 as (A1 & A2 & A3 & A4 & A5). unfold wire_flags.
  destruct b as [[es pad ?]|[pad ? ? es eh pri ? ?]|?|?|st|?|[ack ?]|?|?|[eh ?]]; cbn -[Add Encode]; try exact Hfl.
  - destruct es, pad; cbn -[Add]; auto.
  - destruct es, eh, pad, pri; cbn -[Add]; auto 6.
  - unfold Settings_Serialize. destruct (st_ack st); cbn -[Add Encode]; auto.
  - destruct ack; cbn -[Add]; auto.
  - destruct eh; cbn -[Add]; auto.
Qed.

(** ** Reading is total *)

(** [br] starts with a frame and [rem] is what follows it. *)
Definition framed (br rem : bytes) : Prop :=
  exists hd p, br = hd ++ p ++ rem /\ zlen hd = 9 /\ zlen p = be_get (ztake 3 hd).

Lemma be32_range a b c d : is_byte a -> is_byte b -> is_byte c -> is_byte d -> is_u32 (be_get [a; b; c; d]).
Proof. intros. apply (be_get_range [a; b; c; d]). repeat (apply Forall_cons; [done|]). apply Forall_nil. Qed.

Lemma bytesToUint32_spec b : bytes_ok b -> 4 <= zlen b -> exists n, bytesToUint32 b = Ok n /\ is_u32 n.
Proof.
  intros Hb Hl. unfold bytesToUint32. test_false (zlen b <? 4). eexists. split; [reflexivity|].
  pose proof (be_get_range (ztake 4 b) ltac:(by apply bytes_ok_ztake)) as H. rewrite zlen_ztake in H by lia. exact H.
Qed.
Lemma index_spec b i : bytes_ok b -> 0 <= i < zlen b -> exists x, index b i = @Ok h2_error Z x /\ is_byte x.
Proof.
  intros Hb Hi. unfold index. test_true ((0 <=? i) && (i <? zlen b)). eexists. split; [reflexivity|]. unfold znth.
  apply Forall_nth; [exact Hb|]. unfold zlen in Hi. lia.
Qed.
Lemma slice_bytes b lo hi : bytes_ok b -> 0 <= lo <= hi -> hi <= zlen b -> exists p, slice b lo hi = @Ok h2_error bytes p /\ bytes_ok p.
Proof. intros Hb Hlo Hhi. rewrite slice_ok by lia. eexists. split; [reflexivity|]. by apply bytes_ok_ztake, bytes_ok_zdrop. Qed.

Lemma cutPadding_spec p : bytes_ok p ->
  match cutPadding p (zlen p) with Ok q => bytes_ok q | Err e => e = ErrMissingBytes \/ e = NewGoAwayError ProtocolError | Panic => False end.
Proof.
  intros Hb. unfold cutPadding. destruct (zlen p =? 0) eqn:E; bool_simpl; [by left|]. pose proof (zlen_nonneg p).
  destruct (index_spec p 0 Hb ltac:(lia)) as (x & Hx & Hxb). unfold index in Hx. destruct (_ && _); [|done]. injection Hx as Hx. rewrite Hx.
  unfold is_byte in Hxb. destruct (_ || _ || _ || _) eqn:E2; [by right|]. bool_simpl.
  destruct (slice_bytes p 1 (zlen p - x) Hb ltac:(lia) ltac:(lia)) as (q & -> & Hq). exact Hq.
Qed.

Lemma unpadded f : bytes_ok (f_payload f) ->
  match (if Has (f_flags f) FlagPadded then cutPadding (f_payload f) (zlen (f_payload f)) else Ok (f_payload f)) with
  | Ok q => bytes_ok q | Err e => exists c t, e = H2Error c t | Panic => False end.
Proof.
  intros Hp. pose proof (cutPadding_spec (f_payload f) Hp) as Hcut. destruct (Has _ FlagPadded); [|exact Hp].
  destruct (cutPadding _ _) as [q|e|]; [exact Hcut| |exact Hcut]. destruct Hcut as [-> | ->]; by eexists _, _.
Qed.

Lemma applySetting_wf st k v : settings_wf st -> is_u32 v ->
  match applySetting st k v with Ok st' => settings_wf st' | Err (H2Error c t) => t = FrameGoAway | _ => False end.
Proof.
  destruct st as [ack raw ts push ms ws fs hs conn]. intros [Ht Hs Hw Hf Hh] Hv. cbn in Ht, Hs, Hw, Hf, Hh. unfold applySetting.
  change (Z.shiftl 1 31 - 1) with (2 ^ 31 - 1). change (Z.shiftl 1 14) with (2 ^ 14). change (Z.shiftl 1 24 - 1) with (2 ^ 24 - 1).
  unfold is_id, is_u32 in *. repeat case_test; try done; split; cbn; unfold is_id, is_u32; lia.
Qed.

Lemma Settings_Read_wf n : forall st p, (List.length p < n)%nat -> settings_wf st -> bytes_ok p ->
  match Settings_Read st p with Ok st' => settings_wf st' | Err (H2Error c t) => t = FrameGoAway | _ => False end.
Proof.
  induction n as [|n IH]; intros st p Hn Hst Hp; [lia|].
  destruct p as [|a [|b [|c [|d [|e [|f rest]]]]]]; try exact Hst. cbn [Settings_Read].
  repeat (apply Forall_cons_1 in Hp as [? Hp]). pose proof (applySetting_wf st (be_get [a; b]) _ Hst (be32_range c d e f ltac:(done) ltac:(done) ltac:(done) ltac:(done))) as Ha.
  destruct (applySetting st _ _) as [st'|[code t| |]|]; try done. cbn [res_bind]. apply IH; [cbn in Hn; lia|done|done].
Qed.

Lemma deserialize_wf stale sid f b a :
  zlen stale = 8 -> f_stream f = sid -> 0 <= sid < 2 ^ 31 -> bytes_ok (f_payload f) -> f_length f = zlen (f_payload f) ->
  AcquireFrame stale (Type_of b) = Ok a ->
  match Deserialize a f with
  | Ok b' => Type_of b' = Type_of b /\ frame_wf sid b'
  | Err (H2Error _ _) => True
  | _ => False
  end.
Proof.
  intros Hst Es Hsid Hp El Ea. pose proof (zlen_nonneg (f_payload f)). destruct (acquire_type stale b) as (a' & Ea' & Ha). rewrite Ea in Ea'. injection Ea' as <-.
  pose proof (unpadded f Hp) as Hq.
  destruct b as [d|h|p|r|st|p|p|g|w|c], a as [d'|h'|p'|r'|st'|p'|p'|g'|w'|c']; try done; rewrite Ha; cbn [Deserialize]; clear Ea Ha.
  - unfold Data_Deserialize. rewrite Es, El. destruct (sid =? 0) eqn:E0; bool_simpl; [done|].
    destruct (if Has _ FlagPadded then _ else _) as [q|e|]; [|destruct Hq as (? & ? & ->); done|done]. split; [done|by split].
  - unfold Headers_Deserialize. rewrite Es. destruct (sid =? 0) eqn:E0; bool_simpl; [done|].
    destruct (if Has _ FlagPadded then _ else _) as [q|e|]; [|destruct Hq as (? & ? & ->); done|done]. cbn [res_bind].
    destruct (Has _ FlagPriority); [|split; [done|]; split; [done|]; split; [exact Hq|done]].
    destruct (zlen q <? 5) eqn:E5; bool_simpl; [done|].
    destruct (index_spec q 0 Hq ltac:(lia)) as (b0 & -> & Hb0). cbn [res_bind]. destruct (bytesToUint32_spec q Hq ltac:(lia)) as (n & -> & Hn). cbn [res_bind].
    cbv zeta. destruct (_ =? sid) eqn:Ed; bool_simpl; [done|]. destruct (index_spec q 4 Hq ltac:(lia)) as (w & -> & Hw). cbn [res_bind].
    destruct (slice_bytes q 5 (zlen q) Hq ltac:(lia) ltac:(lia)) as (rest & -> & Hrest). cbn [res_bind].
    split; [done|]. split; [done|]. split; [exact Hrest|]. intros _. split; [apply mask31_range|]. split; [exact Ed|exact Hw].
  - unfold Priority_Deserialize. rewrite Es. destruct (sid =? 0) eqn:E0; bool_simpl; [done|]. destruct (negb _) eqn:E5; bool_simpl; [done|].
    destruct (index_spec _ 0 Hp ltac:(lia)) as (b0 & -> & Hb0). cbn [res_bind]. destruct (bytesToUint32_spec _ Hp ltac:(lia)) as (n & -> & Hn). cbn [res_bind].
    cbv zeta. destruct (_ =? sid) eqn:Ed; bool_simpl; [done|]. destruct (index_spec _ 4 Hp ltac:(lia)) as (w & -> & Hw). cbn [res_bind].
    split; [done|]. split; [done|]. split; [apply mask31_range|]. split; [exact Ed|exact Hw].
  - unfold RstStream_Deserialize. rewrite Es. destruct (sid =? 0) eqn:E0; bool_simpl; [done|]. destruct (negb _) eqn:E5; bool_simpl; [done|].
    destruct (bytesToUint32_spec _ Hp ltac:(lia)) as (n & -> & Hn). split; [done|by split].
  - unfold Settings_Deserialize. rewrite Es. destruct (negb (sid =? 0)) eqn:E0; bool_simpl; [done|]. destruct (negb _); [done|]. cbv zeta.
    destruct (_ && _); [done|].
    assert (Hwf : settings_wf { Settings_Reset with st_ack := Has (f_flags f) FlagAck }) by (split; vm_compute; done).
    pose proof (Settings_Read_wf (S (List.length (f_payload f))) _ (f_payload f) ltac:(lia) Hwf Hp) as Hr.
    destruct (Settings_Read _ _) as [st''|[? ?| |]|]; done.
  - unfold PushPromise_Deserialize. rewrite Es, El. destruct (sid =? 0) eqn:E0; bool_simpl; [done|].
    destruct (if Has _ FlagPadded then _ else _) as [q|e|]; [|destruct Hq as (? & ? & ->); done|done]. cbn [res_bind].
    destruct (zlen q <? 4) eqn:E5; bool_simpl; [done|]. destruct (bytesToUint32_spec q Hq ltac:(lia)) as (n & -> & Hn). cbn [res_bind].
    destruct (slice_bytes q 4 (zlen q) Hq ltac:(lia) ltac:(lia)) as (rest & -> & Hrest). cbn [res_bind].
    split; [done|]. split; [done|]. split; [apply mask31_range|exact Hrest].
  - unfold Ping_Deserialize. rewrite Es. destruct (negb (sid =? 0)) eqn:E0; bool_simpl; [done|]. cbv zeta. destruct (negb _) eqn:E8; bool_simpl; [done|].
    split; [done|]. split; [done|]. unfold Ping_SetData. cbn -[ztake zdrop]. rewrite ztake_all, zdrop_all by lia. rewrite app_nil_r. by split.
  - unfold GoAway_Deserialize. rewrite Es. destruct (negb (sid =? 0)) eqn:E0; bool_simpl; [done|]. destruct (_ <? 8) eqn:E8; bool_simpl; [done|].
    destruct (bytesToUint32_spec _ Hp ltac:(lia)) as (n & -> & Hn). cbn [res_bind].
    rewrite slice_ok by lia. cbn [res_bind]. destruct (bytesToUint32_spec (ztake (zlen (f_payload f) - 4) (zdrop 4 (f_payload f)))) as (c & -> & Hc).
    { by apply bytes_ok_ztake, bytes_ok_zdrop. } { rewrite zlen_ztake; rewrite ?zlen_zdrop; lia. }
    cbn [res_bind]. cbv zeta. destruct (_ >? 8) eqn:E9; bool_simpl.
    + destruct (slice_bytes _ 8 (zlen (f_payload f)) Hp ltac:(lia) ltac:(lia)) as (rest & -> & Hrest). cbn [res_bind].
      split; [done|]. split; [done|]. split; [apply mask31_range|]. by split.
    + split; [done|]. split; [done|]. split; [apply mask31_range|]. split; [done|apply Forall_nil].
  - unfold WindowUpdate_Deserialize. destruct (negb _) eqn:E4; bool_simpl; [done|]. destruct (bytesToUint32_spec _ Hp ltac:(lia)) as (n & -> & Hn). cbn [res_bind].
    cbv zeta. pose proof (mask31_range n). destruct (_ =? 0) eqn:E0; bool_simpl; [by destruct (_ =? 0)|]. split; [done|]. cbn. lia.
  - unfold Continuation_Deserialize. rewrite Es. destruct (sid =? 0) eqn:E0; bool_simpl; [done|]. split; [done|by split].
Qed.

Lemma type_range b : 0 <= Type_of b <= 9.
Proof. destruct b; vm_compute; done. Qed.
Lemma type_of_kind k : 0 <= k <= 9 -> exists b, Type_of b = k.
Proof.
  intros Hk. assert (k = 0 \/ k = 1 \/ k = 2 \/ k = 3 \/ k = 4 \/ k = 5 \/ k = 6 \/ k = 7 \/ k = 8 \/ k = 9) as Hc by lia.
  repeat destruct Hc as [->|Hc]; [by exists (FData Data_Reset)|by exists (FHeaders Headers_Reset)|by exists (FPriority Priority_Reset)
    |by exists (FRst RstStream_Reset)|by exists (FSettings Settings_Reset)|by exists (FPushPromise PushPromise_Reset)
    |by exists (FPing (mkPing false []))|by exists (FGoAway GoAway_Reset)|by exists (FWindowUpdate WindowUpdate_Reset)|subst k; by exists (FCont Continuation_Reset)].
Qed.

(** What a read leaves behind. *)
Definition read_result (br rem : bytes) (max : Z) (r : res h2_error FrameHeader) : Prop :=
  match r with
  | Ok f => framed br rem /\ (max = 0 \/ f_length f <= max)
            /\ match f_fr f with Some b => Type_of b = f_kind f /\ frame_wf (f_stream f) b | None => f_kind f > FrameContinuation end
  | Err (H2Error _ _) => framed br rem
  | Err _ => True
  | Panic => False
  end.

Lemma header_split br : 9 <= zlen br -> bytes_ok br ->
  br = ztake 9 br ++ zdrop 9 br /\ zlen (ztake 9 br) = 9 /\ bytes_ok (ztake 9 br) /\ bytes_ok (zdrop 9 br).
Proof. intros Hl Hb. rewrite ztake_zdrop, zlen_ztake by lia. split; [done|]. split; [done|]. split; [by apply bytes_ok_ztake|by apply bytes_ok_zdrop]. Qed.

Lemma parseValues_length f b f' : zlen b = 9 -> parseValues f b = Ok f' -> f_length f' = be_get (ztake 3 b).
Proof.
  intros Hl. destruct b as [|b0 [|b1 [|b2 [|b3 [|b4 [|b5 [|b6 [|b7 [|b8 [|b9 b]]]]]]]]]]; try (unfold zlen in Hl; cbn [List.length] in Hl; lia).
  cbn -[be_get Z.land Z.shiftl]. by intros [= <-].
Qed.

Lemma framed_split br n : 9 <= zlen br -> n = be_get (ztake 3 (ztake 9 br)) -> 0 <= n <= zlen (zdrop 9 br) -> framed br (zdrop n (zdrop 9 br)).
Proof.
  intros Hl -> Hn. exists (ztake 9 br), (ztake (be_get (ztake 3 (ztake 9 br))) (zdrop 9 br)).
  rewrite ztake_zdrop, ztake_zdrop. split; [done|]. split; [apply zlen_ztake; lia|]. by apply zlen_ztake.
Qed.

Lemma read_total stale br max :
  zlen stale = 8 -> bytes_ok br ->
  let '(rem, r) := ReadFrameFromWithSize stale br max in read_result br rem max r.
Proof.
  intros Hst Hbr. unfold ReadFrameFromWithSize, readFrom, defaultFrameSize. destruct (zlen br <? 9) eqn:E9; [done|]. bool_simpl.
  destruct (header_split br E9 Hbr) as (_ & Hl9 & Hb9 & Hbd). set (f0 := { AcquireFrameHeader with f_maxLen := max }).
  destruct (parseValues_any f0 (ztake 9 br) Hb9 Hl9) as (len & k & fl & s & Hlen & Hk & Hfl & Hs & Ep). rewrite Ep.
  pose proof (parseValues_length _ _ _ Hl9 Ep) as El. cbn in El. set (f1 := { f0 with f_length := len; f_kind := k; f_flags := fl; f_stream := s }) in *.
  change (f_length f1) with len. change (f_kind f1) with k. change (f_payload f1) with (@nil Z).
  assert (Hskip : forall (g : res h2_error FrameHeader), (framed br (zdrop len (zdrop 9 br)) -> read_result br (zdrop len (zdrop 9 br)) max g) ->
    let '(rem, r) := if len >? 0 then match CopyN (zdrop 9 br) len with (br, Ok _) => (br, g) | (br, Err e') => (br, Err e') | (br, Panic) => (br, Panic) end
                     else (zdrop 9 br, g) in read_result br rem max r).
  { intros g Hg. destruct (len >? 0) eqn:E0; bool_simpl.
    - unfold CopyN. destruct (zlen (zdrop 9 br) <? len) eqn:Es; bool_simpl; [done|]. apply Hg, framed_split; [done|exact El|lia].
    - assert (len = 0) as -> by lia. rewrite (zdrop_0 (zdrop 9 br)) in Hg. apply Hg. rewrite <- (zdrop_0 (zdrop 9 br)).
      apply framed_split; [done|exact El|]. pose proof (zlen_nonneg (zdrop 9 br)). lia. }
  unfold checkLen. change (f_maxLen f1) with max. change (f_length f1) with len. destruct (negb (max =? 0) && (len >? max)) eqn:Em.
  { apply (Hskip (Err ErrPayloadExceeds)). done. }
  assert (Hmax : max = 0 \/ len <= max) by (destruct (max =? 0) eqn:?; bool_simpl; [by left|right]; destruct (len >? max) eqn:?; bool_simpl; [done|lia]).
  unfold FrameContinuation. destruct (k >? 9) eqn:Ek; bool_simpl.
  { apply (Hskip (Ok { f1 with f_fr := None })). intros Hf. split; [done|]. split; [done|]. cbn. unfold FrameContinuation. lia. }
  destruct (type_of_kind k ltac:(unfold is_byte in Hk; lia)) as [b Hb]. destruct (acquire_type stale b) as (a & Ea & _). rewrite Hb in Ea. rewrite Ea.
  assert (Hread : exists rem r, (if len >? 0 then ReadFull (zdrop 9 br) len else (zdrop 9 br, Ok [])) = (rem, r) /\
    match r with Ok p => framed br rem /\ bytes_ok p /\ zlen p = len | Err (H2Error _ _) => False | Err _ => True | Panic => False end).
  { destruct (len >? 0) eqn:E0; bool_simpl.
    - unfold ReadFull. destruct (zlen (zdrop 9 br) <? len) eqn:Es; bool_simpl; eexists _, _; (split; [reflexivity|]); [by destruct (zlen (zdrop 9 br) =? 0)|].
      split; [apply framed_split; [done|exact El|lia]|]. split; [by apply bytes_ok_ztake|]. apply zlen_ztake. lia.
    - eexists _, _. split; [reflexivity|]. assert (len = 0) as -> by lia. split; [|split; [apply Forall_nil|done]].
      rewrite <- (zdrop_0 (zdrop 9 br)). apply framed_split; [done|exact El|]. pose proof (zlen_nonneg (zdrop 9 br)). lia. }
  destruct Hread as (rem & r & Er & Hr). rewrite Er. destruct r as [p|[? ?| |]|]; try done. destruct Hr as (Hf & Hp & Hpl). cbn [res_bind].
  set (f2 := { f1 with f_payload := p }). rewrite <- Hb in Ea.
  pose proof (deserialize_wf stale s f2 b a Hst eq_refl Hs Hp (eq_sym Hpl) Ea) as Hd.
  destruct (Deserialize a f2) as [b'|[c t| |]|]; try done. destruct Hd as [Ht Hwf]. split; [done|]. split; [done|]. cbn. by rewrite Ht, Hb.
Qed.

(** ** Writing and reading *)

(** The bytes of a frame. *)
Definition frame_bytes (sid fl : Z) (b : Frame) : bytes :=
  header_image (zlen (wire_payload sid fl b)) (Type_of b) (wire_flags sid fl b) sid ++ wire_payload sid fl b.
(** The header as it is read. *)
Definition arriving (sid fl : Z) (b : Frame) (max : Z) : FrameHeader :=
  mkFH (zlen (wire_payload sid fl b)) (Type_of b) (wire_flags sid fl b) sid max (wire_payload sid fl b) (Some (received (wire_flags sid fl b) b)).
(** A frame that can be sent. *)
Record frame_sendable (sid fl : Z) (b : Frame) : Prop := {
  sd_wf : frame_wf sid b;
  sd_flags : flags_fit fl b;
  sd_id : is_id sid;
  sd_len : zlen (wire_payload sid fl b) < 2 ^ 24
}.

Lemma WriteTo_bytes sid fl b : frame_sendable sid fl b -> exists f, WriteTo (outgoing sid fl b) = Ok (f, frame_bytes sid fl b).
Proof.
  intros [Hwf Hfit Hsid Hlen]. unfold frame_bytes.
  pose proof (wire_flags_byte sid fl b (proj1 Hfit)) as Hb. unfold WriteTo. change (f_fr (outgoing sid fl b)) with (Some b). cbn match.
  assert (Hkeep : f_kind (snd (Serialize b (outgoing sid fl b))) = Type_of b /\ f_stream (snd (Serialize b (outgoing sid fl b))) = sid).
  { destruct b as [[[] [] ?]|[[] ? ? [] [] [] ? ?]|?|?|st|?|[[] ?]|?|?|[[] ?]]; try (split; reflexivity).
    cbn -[Encode]. unfold Settings_Serialize. destruct (st_ack st); split; reflexivity. }
  fold (wire_flags sid fl b) in Hb. unfold wire_payload, wire_flags in *. destruct (Serialize b (outgoing sid fl b)) as [b' f']. cbn [snd] in *.
  destruct Hkeep as [Hk Hs]. eexists. f_equal. f_equal. f_equal. unfold header_image.
  change (parseHeader _) with (be_put 3 (u32 (zlen (f_payload f'))) ++ [u8 (f_kind f'); u8 (f_flags f')] ++ be_put 4 (f_stream f')).
  rewrite Hk, Hs. pose proof (zlen_nonneg (f_payload f')).
  unfold u32. rewrite Z.mod_small by lia. rewrite (u8_small (f_flags f')) by done. rewrite (u8_small (Type_of b)) by (pose proof (type_range b); unfold is_byte; lia).
  reflexivity.
Qed.

Lemma read_bytes sid fl b stale rest max :
  frame_sendable sid fl b -> zlen stale = 8 -> max = 0 \/ zlen (wire_payload sid fl b) <= max ->
  ReadFrameFromWithSize stale (frame_bytes sid fl b ++ rest) max = (rest, Ok (arriving sid fl b max)).
Proof.
  intros [Hwf Hfit Hsid Hlen] Hst Hmax. unfold frame_bytes. rewrite <- app_assoc. unfold ReadFrameFromWithSize.
  rewrite readFrom_image; [|done|done|apply type_range|by apply wire_flags_byte; apply Hfit|done|exact Hmax|done].
  f_equal. set (f' := { _ with f_length := _; f_kind := _; f_flags := _; f_stream := _; f_payload := _ }).
  pose proof (deserialize_serialized stale sid fl b f' Hst Hwf Hfit (conj eq_refl (conj eq_refl (conj eq_refl eq_refl)))) as Hd.
  destruct (AcquireFrame stale (Type_of b)) as [a| |]; try done. cbn [res_bind] in *. rewrite Hd. reflexivity.
Qed.

(** ** The wire format

    What a frame looks like on the wire, from RFC 9113 and not from the code: the
    flags its body stands for, and its payload. *)
Definition flag (b : bool) (f : Z) : Z := if b then f else 0.
Definition body_flags (b : Frame) : Z :=
  match b with
  | FData d => Z.lor (flag (d_endStream d) 0x1) (flag (d_hasPadding d) 0x8)
  | FHeaders h => Z.lor (Z.lor (flag (h_endStream h) 0x1) (flag (h_endHeaders h) 0x4)) (Z.lor (flag (h_hasPadding h) 0x8) (flag (h_priority h) 0x20))
  | FSettings s => flag (st_ack s) 0x1
  | FPing p => flag (p_ack p) 0x1
  | FPushPromise p => flag (pp_ended p) 0x4
  | FCont c => flag (c_endHeaders c) 0x4
  | _ => 0
  end.
Definition dependency (ex : bool) (stream weight : Z) : bytes := be_put 4 (stream + (if ex then 2 ^ 31 else 0)) ++ [weight].
Definition payload_image (b : Frame) : bytes :=
  match b with
  | FData d => (if d_hasPadding d then [0] else []) ++ d_b d
  | FHeaders h =>
      (if h_hasPadding h then [0] else []) ++ (if h_priority h then dependency (h_exclusive h) (h_stream h) (h_weight h) else []) ++ h_rawHeaders h
  | FPriority p => dependency (pry_exclusive p) (pry_stream p) (pry_weight p)
  | FRst r => be_put 4 (rst_code r)
  | FSettings s => if st_ack s then [] else settings_image (encode_params s)
  | FPushPromise p => be_put 4 (pp_stream p) ++ pp_header p
  | FPing p => p_data p
  | FGoAway g => be_put 4 (ga_stream g) ++ be_put 4 (ga_code g) ++ ga_data g
  | FWindowUpdate w => be_put 4 (wu_increment w)
  | FCont c => c_rawHeaders c
  end.
(** The body the reader gets: the same, without the padding; a flag the caller set on
    the header counts like one the body asked for. *)
Definition delivered (fl : Z) (b : Frame) : Frame :=
  match b with
  | FData d => FData (mkData (d_endStream d || Has fl FlagEndStream) false (d_b d))
  | FHeaders h =>
      let es := h_endStream h || Has fl FlagEndStream in
      let eh := h_endHeaders h || Has fl FlagEndHeaders in
      FHeaders (if h_priority h then mkHeaders false (h_stream h) (h_weight h) es eh true (h_exclusive h) (h_rawHeaders h)
                else mkHeaders false 0 0 es eh false false (h_rawHeaders h))
  | FSettings s => FSettings (if st_ack s then { Settings_Reset with st_ack := true } else { s with st_rawSettings := [] })
  | FPushPromise p => FPushPromise (mkPP false (pp_ended p || Has fl FlagEndHeaders) (pp_stream p) (pp_header p))
  | FPing p => FPing (mkPing (p_ack p || Has fl FlagAck) (p_data p))
  | FCont c => FCont (mkCont (c_endHeaders c || Has fl FlagEndHeaders) (c_rawHeaders c))
  | _ => b
  end.

Lemma Has_absorb fl f : Has fl f = true -> Z.lor fl f = fl.
Proof.
  unfold Has. intros E. apply Z.eqb_eq in E. apply Z.bits_inj'. intros n Hn. apply (f_equal (fun z => Z.testbit z n)) in E.
  rewrite Z.land_spec in E. rewrite Z.lor_spec. by destruct (Z.testbit fl n), (Z.testbit f n).
Qed.
Lemma wire_flags_spec sid fl b : flags_fit fl b -> wire_flags sid fl b = Z.lor fl (body_flags b).
Proof.
  intros [_ Hfit]. unfold wire_flags. destruct b as [[es pad ?]|[pad ? ? es eh pri ? ?]|?|?|st|[pad en ? ?]|[ack ?]|?|?|[eh ?]]; try (cbn; by rewrite Z.lor_0_r).
  - destruct es, pad; cbn; unfold Add; rewrite ?Z.lor_0_r; try done; by rewrite <- Z.lor_assoc.
  - destruct es, eh, pad, pri; cbn; unfold Add; rewrite ?Z.lor_0_r; try done; by rewrite <- ?Z.lor_assoc.
  - cbn -[Encode]. unfold Settings_Serialize. destruct (st_ack st); cbn -[Encode]; [done|by rewrite Z.lor_0_r].
  - destruct Hfit as [_ Hen]. destruct en; cbn in *; [symmetry; by apply Has_absorb, Hen|by rewrite Z.lor_0_r].
  - destruct ack; cbn; [done|by rewrite Z.lor_0_r].
  - destruct eh; cbn; [done|by rewrite Z.lor_0_r].
Qed.
Lemma wire_payload_spec sid fl b : frame_wf sid b -> wire_payload sid fl b = payload_image b.
Proof.
  unfold wire_payload. destruct b as [[es pad ?]|[pad ? ? es eh pri ex ?]|[ex ? ?]|?|st|?|[ack ?]|?|[n]|[eh ?]]; intros Hwf.
  - by destruct es, pad.
  - destruct Hwf as (_ & _ & Hpri). destruct pri.
    + destruct (Hpri eq_refl) as (Hid & _). destruct (set_top_put ex h_stream0 Hid) as (b0 & E & _).
      destruct es, eh, pad; cbn -[be_put set_top Z.pow] in *; unfold uint32ToBytes, dependency; by rewrite E, <- ?app_assoc.
    + by destruct es, eh, pad.
  - destruct Hwf as (_ & Hid & _). destruct (set_top_put ex pry_stream0 Hid) as (b0 & E & _). cbn -[be_put set_top Z.pow] in *. unfold dependency. by rewrite E.
  - done.
  - cbn -[Encode settings_image encode_params]. unfold Settings_Serialize. destruct (st_ack st); cbn -[Encode settings_image encode_params]; [done|apply Encode_image].
  - done.
  - by destruct ack.
  - cbn -[be_put]. unfold appendUint32Bytes. cbn [app]. by rewrite <- app_assoc.
  - cbn -[be_put] in *. unfold appendUint32Bytes, u32. rewrite Z.mod_small by lia. done.
  - by destruct eh.
Qed.
Lemma delivered_received sid fl b : flags_fit fl b -> received (wire_flags sid fl b) b = delivered fl b.
Proof.
  intros [_ Hfit]. unfold wire_flags.
  destruct b as [[es pad ?]|[pad ? ? es eh pri ? ?]|?|?|st|[pad en ? ?]|[ack ?]|?|?|[eh ?]]; try done.
  - destruct es, pad; cbn -[Has Add]; by has_flags.
  - destruct es, eh, pad, pri; cbn -[Has Add]; by has_flags.
  - destruct Hfit as [_ Hen]. destruct en; cbn -[Has]; [by rewrite (Hen eq_refl)|done].
  - destruct ack; cbn -[Has Add]; by has_flags.
  - destruct eh; cbn -[Has Add]; by has_flags.
Qed.

(** ** Theorems *)

(** C22: a frame written by [WriteTo] has the wire format of RFC 9113, and
    [ReadFrameFromWithSize] reads it back: its type, its stream, its flags (those the
    body stands for and those the caller set) and its body, END_STREAM, END_HEADERS,
    ACK and the priority fields included and without the padding; the bytes that
    follow are left alone.  A PUSH_PROMISE that ends its block is included when the
    caller sets END_HEADERS himself, since [Serialize] does not. *)
Theorem h2_frame_roundtrip (sid fl : Z) (b : Frame) (stale rest : bytes) (max : Z) :
  frame_sendable sid fl b -> zlen stale = 8 -> max = 0 \/ zlen (payload_image b) <= max ->
  exists f, WriteTo (outgoing sid fl b) =
    Ok (f, header_image (zlen (payload_image b)) (Type_of b) (Z.lor fl (body_flags b)) sid ++ payload_image b)
  /\ ReadFrameFromWithSize stale (header_image (zlen (payload_image b)) (Type_of b) (Z.lor fl (body_flags b)) sid ++ payload_image b ++ rest) max =
     (rest, Ok (mkFH (zlen (payload_image b)) (Type_of b) (Z.lor fl (body_flags b)) sid max (payload_image b) (Some (delivered fl b)))).
Proof.
  intros Hs Hst Hmax. pose proof Hs as [Hwf Hfit _ _]. destruct (WriteTo_bytes sid fl b Hs) as [f Ef]. exists f.
  rewrite <- (wire_payload_spec sid fl b Hwf) in *. pose proof (read_bytes sid fl b stale rest max Hs Hst Hmax) as Hr.
  unfold frame_bytes, arriving in *. rewrite (delivered_received sid fl b Hfit) in Hr. rewrite (wire_flags_spec sid fl b Hfit) in *.
  split; [exact Ef|]. by rewrite <- app_assoc in Hr.
Qed.

Definition sample_headers : Frame := FHeaders (mkHeaders true 3 7 true true true true [1; 2; 3]).
Lemma h2_frame_roundtrip_witness :
  exists f, WriteTo (outgoing 5 0 sample_headers) = Ok (f, [0; 0; 9; 1; 45; 0; 0; 0; 5; 0; 128; 0; 0; 3; 7; 1; 2; 3])
  /\ ReadFrameFromWithSize [0; 0; 0; 0; 0; 0; 0; 0] [0; 0; 9; 1; 45; 0; 0; 0; 5; 0; 128; 0; 0; 3; 7; 1; 2; 3; 9] 16384 =
     ([9], Ok (mkFH 9 1 45 5 16384 [0; 128; 0; 0; 3; 7; 1; 2; 3] (Some (FHeaders (mkHeaders false 3 7 true true true true [1; 2; 3]))))).
Proof.
  assert (Hs : frame_sendable 5 0 sample_headers).
  { split.
    - split; [lia|]. split; [apply (bool_decide_unpack _); vm_compute; exact I|]. intros _. unfold is_id, is_byte. cbn. lia.
    - split; [unfold is_byte; lia|]. by split.
    - unfold is_id. lia.
    - vm_compute. reflexivity. }
  apply (h2_frame_roundtrip 5 0 sample_headers [0; 0; 0; 0; 0; 0; 0; 0] [9] 16384 Hs); [reflexivity|right; vm_compute; discriminate].
Defined.

(** Reading never panics.  A frame that is returned is well formed for its
    stream and within the size limit, and the reader has consumed exactly that
    frame; after a protocol error it has consumed exactly the offending frame, so
    reading can go on.  Frames of unknown type are skipped. *)
Theorem h2_read_total (stale br : bytes) (max : Z) :
  zlen stale = 8 -> bytes_ok br ->
  let '(rem, r) := ReadFrameFromWithSize stale br max in read_result br rem max r.
Proof. apply read_total. Qed.
Lemma h2_read_total_witness :
  read_result [0; 0; 1; 8; 0; 0; 0; 0; 0; 7; 1; 2] [1; 2] 100 (Err (NewGoAwayError FrameSizeError)).
Proof.
  assert (Hb : bytes_ok [0; 0; 1; 8; 0; 0; 0; 0; 0; 7; 1; 2]) by (apply (bool_decide_unpack _); vm_compute; exact I).
  exact (h2_read_total [0; 0; 0; 0; 0; 0; 0; 0] [0; 0; 1; 8; 0; 0; 0; 0; 0; 7; 1; 2] 100 eq_refl Hb).
Defined.

(** A PUSH_PROMISE that ends its header block is written without END_HEADERS,
    so the reader waits for a CONTINUATION. *)
Theorem push_promise_end_lost (sid s : Z) (pad : bool) (hd : bytes) :
  sid <> 0 -> is_id sid -> is_id s -> bytes_ok hd -> 4 + zlen hd < 2 ^ 24 ->
  exists f out, WriteTo (outgoing sid 0 (FPushPromise (mkPP pad true s hd))) = Ok (f, out) /\ Has (f_flags f) FlagEndHeaders = false.
Proof. intros. eexists _, _. split; [reflexivity|]. reflexivity. Qed.
Lemma push_promise_end_lost_witness :
  exists f out, WriteTo (outgoing 1 0 (FPushPromise (mkPP false true 2 [0x82]))) = Ok (f, out) /\ Has (f_flags f) FlagEndHeaders = false.
Proof. apply push_promise_end_lost; unfold is_id; try lia; [apply (bool_decide_unpack _); vm_compute; exact I|reflexivity]. Defined.

(** An endpoint that disables push cannot tell its peer: ENABLE_PUSH is only
    written when push is enabled, and the peer's initial value is enabled. *)
Theorem settings_push_stays_enabled (st peer : Settings) :
  settings_wf st -> settings_wf peer -> st_enablePush st = false -> st_enablePush peer = true ->
  exists peer', Settings_Read peer (st_rawSettings (Encode st)) = Ok peer' /\ st_enablePush peer' = true.
Proof.
  intros Hst _ Hp Hq. rewrite Encode_image, Settings_Read_image by by apply encode_params_ok.
  destruct st as [ack raw ts push ms ws fs hs conn]. destruct Hst as [Ht Hs Hw Hf Hh]. cbn in Hp, Ht, Hs, Hw, Hf, Hh. subst push. unfold is_id in Hw.
  assert (Hwin : (ws >? Z.shiftl 1 31 - 1) = false) by (change (Z.shiftl 1 31 - 1) with (2 ^ 31 - 1); lia).
  assert (Hfr : (fs <? Z.shiftl 1 14) || (fs >? Z.shiftl 1 24 - 1) = false)
    by (change (Z.shiftl 1 14) with (2 ^ 14); change (Z.shiftl 1 24 - 1) with (2 ^ 24 - 1); lia).
  destruct conn; cbn -[Z.shiftl Z.ltb Z.gtb]; rewrite Hwin; cbn -[Z.shiftl Z.ltb Z.gtb]; rewrite Hfr; eexists; (split; [reflexivity|exact Hq]).
Qed.
Lemma settings_push_stays_enabled_witness :
  exists peer', Settings_Read { Settings_Reset with st_enablePush := true } (st_rawSettings (Encode Settings_Reset)) = Ok peer' /\ st_enablePush peer' = true.
Proof.
  assert (H : forall p, settings_wf { Settings_Reset with st_enablePush := p }) by (intros p; split; vm_compute; done).
  exact (settings_push_stays_enabled Settings_Reset { Settings_Reset with st_enablePush := true } (H false) (H true) eq_refl eq_refl).
Defined.

(** Default settings announce a maximum header list size of zero. *)
Theorem settings_announce_zero_header_list : In (MaxHeaderListSize, 0) (encode_params Settings_Reset) /\
  st_rawSettings (Encode Settings_Reset) = settings_image (encode_params Settings_Reset).
Proof. split; [vm_compute; auto 10|apply Encode_image]. Qed.
