(* ===== verification/H2Fsm.v ===== *)
(** * The HTTP/2 state machine without I/O

    Models [src/proto/h2/overlay/frame.go], accessors on the raw bytes of a
    frame, [src/proto/h2/fsm/fsm.go], which cuts received bytes into frames and
    calls a handler for each, and the loop of [src/server/h2/read_loop.go] that
    feeds it from a growing buffer.  The calls of the handler are a list of
    events.

    The theorems: the events do not depend on how the bytes are cut into reads,
    nothing panics, and the accessors agree with the deserializer of [H2Frames]. *)

From S2P Require Import Prelude H2Frames.
Open Scope Z_scope.

(** ** Overlay *)
Definition Length (f : bytes) : res h2_error Z := if zlen f <? 3 then Panic else Ok (be_get (ztake 3 f)).
Definition Type_ (f : bytes) : res h2_error Z := index f 3.
Definition Flags (f : bytes) : res h2_error Z := index f 4.
Definition StreamID (f : bytes) : res h2_error Z :=
  if zlen f <? 9 then Panic
  else Ok (be_get [Z.land (znth f 5) 0x7F; znth f 6; znth f 7; znth f 8]).
Definition Payload (f : bytes) : res h2_error bytes :=
  let* n := Length f in slice f 9 (9 + n).
Definition IsValid (f : bytes) : res h2_error bool :=
  if zlen f <? 9 then Ok false else let* n := Length f in Ok (zlen f >=? 9 + n).

Definition flag_set (f : bytes) (bit : Z) : res h2_error bool := let* fl := Flags f in Ok (negb (Z.land fl bit =? 0)).
Definition IsEndStream (f : bytes) : res h2_error bool := flag_set f 0x1.
Definition IsEndHeaders (f : bytes) : res h2_error bool := flag_set f 0x4.
Definition IsPadded (f : bytes) : res h2_error bool := flag_set f 0x8.
Definition HasPriority (f : bytes) : res h2_error bool := flag_set f 0x20.

Definition PadLength (f : bytes) : res h2_error Z :=
  let* padded := IsPadded f in
  if negb padded then Ok 0
  else let* p := Payload f in if zlen p =? 0 then Ok 0 else index p 0.

Definition Data_of (f : bytes) : res h2_error bytes :=
  let* p := Payload f in
  let* padded := IsPadded f in
  if negb padded then Ok p
  else if zlen p =? 0 then Ok p
  else
    let* padLen := index p 0 in
    let start := 1 in
    let end_ := zlen p - padLen in
    if start >? end_ then Ok [] else slice p start end_.

Definition HeaderBlockFragment (f : bytes) : res h2_error bytes :=
  let* p := Payload f in
  let* padded := IsPadded f in
  let* prio := HasPriority f in
  if padded && (zlen p =? 0) then Ok []
  else
    let* padLen := if padded then index p 0 else Ok 0 in
    let start := if padded then 1 else 0 in
    let end_ := zlen p - padLen in
    let start := if prio then start + 5 else start in
    if (start >? end_) || (end_ >? zlen p) then Ok [] else slice p start end_.

(** ** The state machine *)
Inductive h2_event :=
| OnStreamData (streamID : Z) (payload : bytes) (endStream : bool)
| OnHeaders (streamID : Z) (payload : bytes) (endHeaders endStream : bool)
| OnContinuation (streamID : Z) (payload : bytes) (endHeaders : bool)
| OnSettings (payload : bytes) (ack : bool)
| OnPing (payload : bytes) (ack : bool)
| OnWindowUpdate (streamID increment : Z)
| OnStreamReset (streamID errorCode : Z)
| OnGoAway (lastStreamID errorCode : Z)
| OnPriority (streamID : Z) (payload : bytes)
| OnUnknownFrame (streamID frameType flags : Z) (payload : bytes).

(** Four bytes of the payload from [i], the top bit cleared if [clear]. *)
Definition payload32 (p : bytes) (i : Z) (clear : bool) : res h2_error Z :=
  let* a := index p i in
  let* b := index p (i + 1) in
  let* c := index p (i + 2) in
  let* d := index p (i + 3) in
  Ok (be_get [(if clear then Z.land a 0x7F else a); b; c; d]).

(** The call made for the frame at the start of [f]. *)
Definition frame_events (f : bytes) : res h2_error (list h2_event) :=
  let* payloadLen := Length f in
  let* streamID := StreamID f in
  let* flags := Flags f in
  let* t := Type_ f in
  let* p := Payload f in
  if t =? 0x00 then
    let* d := Data_of f in let* es := IsEndStream f in Ok [OnStreamData streamID d es]
  else if t =? 0x01 then
    let* h := HeaderBlockFragment f in let* eh := IsEndHeaders f in let* es := IsEndStream f in Ok [OnHeaders streamID h eh es]
  else if t =? 0x02 then Ok [OnPriority streamID p]
  else if t =? 0x03 then
    if payloadLen =? 4 then let* c := payload32 p 0 false in Ok [OnStreamReset streamID c] else Ok []
  else if t =? 0x04 then Ok [OnSettings p (negb (Z.land flags 0x1 =? 0))]
  else if t =? 0x05 then Ok [OnUnknownFrame streamID 0x05 flags p]
  else if t =? 0x06 then Ok [OnPing p (negb (Z.land flags 0x1 =? 0))]
  else if t =? 0x07 then
    if payloadLen >=? 8 then
      let* l := payload32 p 0 true in let* c := payload32 p 4 false in Ok [OnGoAway l c]
    else Ok []
  else if t =? 0x08 then
    if payloadLen =? 4 then let* n := payload32 p 0 true in Ok [OnWindowUpdate streamID n] else Ok []
  else if t =? 0x09 then Ok [OnContinuation streamID p (negb (Z.land flags 0x4 =? 0))]
  else Ok [OnUnknownFrame streamID t flags p].

(** The events and the number of bytes consumed. *)
Fixpoint Feed_loop (fuel : nat) (data : bytes) (consumed : Z) : res h2_error (list h2_event * Z) :=
  match fuel with
  | O => Ok ([], consumed)
  | S fuel' =>
      if zlen data >=? 9 then
        let* valid := IsValid data in
        if negb valid then Ok ([], consumed)
        else
          let* n := Length data in
          let frameLen := 9 + n in
          let* evs := frame_events data in
          let* rest := slice data frameLen (zlen data) in
          let* r := Feed_loop fuel' rest (consumed + frameLen) in
          Ok (evs ++ fst r, snd r)
      else Ok ([], consumed)
  end.
Definition Feed (data : bytes) : res h2_error (list h2_event * Z) := Feed_loop (List.length data) data 0.

(** ** The read loop

    The buffer: its size and the bytes in it.  One iteration makes room, takes
    what the connection delivers, which is not empty and fits, feeds all of it and
    moves the rest to the front.  (The loop also ends when the connection is
    closed; see [H2Server].) *)
#[projections(primitive)]
Record ReadBuf := mkReadBuf { rb_size : Z; rb_data : bytes }.
Definition new_readbuf : ReadBuf := mkReadBuf 32768 [].
Definition make_room (b : ReadBuf) : ReadBuf := if zlen (rb_data b) =? rb_size b then { b with rb_size := rb_size b * 2 } else b.
Definition room (b : ReadBuf) : Z := rb_size (make_room b) - zlen (rb_data b).
Definition readLoop_pass (b : ReadBuf) (read : bytes) : res h2_error (ReadBuf * list h2_event) :=
  let b := make_room b in
  let data := rb_data b ++ read in
  let* r := Feed data in
  let '(evs, consumed) := r in
  let data := if consumed >? 0 then zdrop consumed data else data in
  Ok ({ b with rb_data := data }, evs).
Fixpoint read_all (b : ReadBuf) (reads : list bytes) : res h2_error (ReadBuf * list h2_event) :=
  match reads with
  | [] => Ok (b, [])
  | r :: reads' =>
      let* x := readLoop_pass b r in
      let* y := read_all (fst x) reads' in
      Ok (fst y, snd x ++ snd y)
  end.

(** ** A frame at the front *)

(** [f] starts with a complete frame of [n] payload bytes. *)
Definition complete (f : bytes) (n : Z) : Prop := 9 <= zlen f /\ n = be_get (ztake 3 f) /\ 9 + n <= zlen f.

Lemma index_app_l {E} (a b : bytes) i : i < zlen a -> index (E:=E) (a ++ b) i = index a i.
Proof.
  intros Hi. unfold index. rewrite zlen_app. pose proof (zlen_nonneg b). destruct (0 <=? i) eqn:E0; [|done]. bool_simpl.
  test_true (i <? zlen a + zlen b). test_true (i <? zlen a). cbn [andb]. unfold znth. f_equal. apply app_nth1. unfold zlen in *. lia.
Qed.
Lemma slice_app_l {E} (a b : bytes) lo hi : 0 <= lo <= hi -> hi <= zlen a -> slice (E:=E) (a ++ b) lo hi = slice a lo hi.
Proof.
  intros Hlo Hhi. pose proof (zlen_nonneg b). rewrite !slice_ok by (rewrite ?zlen_app; lia). f_equal. unfold ztake, zdrop, zlen in *.
  rewrite drop_app_le by lia. by rewrite take_app_le by (rewrite length_drop; lia).
Qed.
Lemma ztake_app_l {A} n (a b : list A) : n <= zlen a -> ztake n (a ++ b) = ztake n a.
Proof. intros Hn. unfold ztake, zlen in *. by rewrite take_app_le by lia. Qed.

Lemma Length_ok f : 3 <= zlen f -> Length f = Ok (be_get (ztake 3 f)).
Proof. intros. unfold Length. by test_false (zlen f <? 3). Qed.
Lemma length_range f : bytes_ok f -> 3 <= zlen f -> 0 <= be_get (ztake 3 f) < 2 ^ 24.
Proof.
  intros Hb Hl. pose proof (be_get_range (ztake 3 f) ltac:(by apply bytes_ok_ztake)) as H. rewrite zlen_ztake in H by lia. exact H.
Qed.

Section accessors.
Context (a b : bytes) (n : Z) (Hb : bytes_ok a) (Hc : complete a n).

Lemma acc_length : Length (a ++ b) = Length a /\ Length a = Ok n /\ 0 <= n.
Proof.
    destruct Hc as (H9 & -> & Hn). pose proof (zlen_nonneg b). rewrite !Length_ok by (rewrite ?zlen_app; lia). rewrite ztake_app_l by lia.
    split; [done|]. split; [done|]. apply length_range; [done|lia].
Qed.
Lemma acc_payload : Payload (a ++ b) = Payload a /\ exists p, Payload a = Ok p /\ bytes_ok p /\ zlen p = n.
Proof.
    destruct acc_length as (E & En & H0). destruct Hc as (H9 & _ & Hn). unfold Payload. rewrite E, En. cbn [res_bind]. rewrite slice_app_l by lia.
    split; [done|]. rewrite slice_ok by lia. eexists. split; [reflexivity|]. split; [by apply bytes_ok_ztake, bytes_ok_zdrop|].
    rewrite zlen_ztake; [lia|]. rewrite zlen_zdrop; lia.
Qed.
Lemma acc_flags : Flags (a ++ b) = Flags a /\ exists fl, Flags a = Ok fl /\ is_byte fl.
Proof. destruct Hc as (H9 & _ & _). unfold Flags. rewrite index_app_l by lia. split; [done|]. apply index_spec; [done|lia]. Qed.
Lemma acc_type : Type_ (a ++ b) = Type_ a /\ exists t, Type_ a = Ok t /\ is_byte t.
Proof. destruct Hc as (H9 & _ & _). unfold Type_. rewrite index_app_l by lia. split; [done|]. apply index_spec; [done|lia]. Qed.
Lemma acc_stream : StreamID (a ++ b) = StreamID a /\ exists s, StreamID a = Ok s.
Proof.
    destruct Hc as (H9 & _ & _). pose proof (zlen_nonneg b). unfold StreamID. rewrite zlen_app. test_false (zlen a + zlen b <? 9). test_false (zlen a <? 9).
    split; [|by eexists]. unfold znth. rewrite !app_nth1 by (unfold zlen in *; lia). done.
Qed.
End accessors.

Lemma payload32_ok p i cl : bytes_ok p -> 0 <= i -> i + 4 <= zlen p -> exists x, payload32 p i cl = Ok x.
Proof.
  intros Hb Hi Hl. unfold payload32. destruct (index_spec p i Hb ltac:(lia)) as (x0 & -> & _). destruct (index_spec p (i + 1) Hb ltac:(lia)) as (x1 & -> & _).
  destruct (index_spec p (i + 2) Hb ltac:(lia)) as (x2 & -> & _). destruct (index_spec p (i + 3) Hb ltac:(lia)) as (x3 & -> & _). by eexists.
Qed.

(** A complete frame is handled without panic, and what follows it does not
    matter. *)
Lemma frame_events_ok a b n : bytes_ok a -> complete a n ->
  frame_events (a ++ b) = frame_events a /\ exists evs, frame_events a = Ok evs.
Proof.
  intros Hb Hc. destruct (acc_length a b n Hb Hc) as (El & Eln & H0). destruct (acc_payload a b n Hb Hc) as (Ep & p & Epp & Hp & Hpl).
  destruct (acc_flags a b n Hb Hc) as (Ef & fl & Efl & Hfl). destruct (acc_type a b n Hb Hc) as (Et & t & Ett & _).
  destruct (acc_stream a b n Hc) as (Es & s & Ess).
  unfold frame_events, Data_of, HeaderBlockFragment, IsEndStream, IsEndHeaders, IsPadded, HasPriority, flag_set.
  rewrite El, Ep, Ef, Et, Es, Eln, Ess, Efl, Ett, Epp. cbn [res_bind]. split; [done|].
  assert (Hi0 : (zlen p =? 0) = false -> exists x, index p 0 = @Ok h2_error Z x /\ is_byte x).
  { intros Hz. bool_simpl. apply index_spec; [done|]. pose proof (zlen_nonneg p). lia. }
  destruct (t =? 0).
  { destruct (Z.land fl 8 =? 0); cbn [negb]; [by eexists|]. destruct (zlen p =? 0) eqn:Ez; [by eexists|].
    destruct (Hi0 eq_refl) as (x & -> & Hx). cbn [res_bind]. unfold is_byte in Hx. destruct (1 >? zlen p - x) eqn:E1; bool_simpl; [by eexists|].
    rewrite slice_ok by lia. by eexists. }
  destruct (t =? 1).
  { destruct (Z.land fl 8 =? 0); cbn [negb andb].
    - cbn [res_bind]. destruct ((_ >? _) || _) eqn:E1; [by eexists|]. bool_simpl. rewrite slice_ok by (destruct (Z.land fl 32 =? 0); cbn [negb] in *; lia). by eexists.
    - destruct (zlen p =? 0) eqn:Ez; [by eexists|]. destruct (Hi0 eq_refl) as (x & -> & Hx). cbn [res_bind]. unfold is_byte in Hx.
      destruct ((_ >? _) || _) eqn:E1; [by eexists|]. bool_simpl. rewrite slice_ok by (destruct (Z.land fl 32 =? 0); cbn [negb] in *; lia). by eexists. }
  destruct (t =? 2); [by eexists|]. destruct (t =? 3).
  { destruct (n =? 4) eqn:E4; bool_simpl; [|by eexists]. destruct (payload32_ok p 0 false Hp ltac:(lia) ltac:(lia)) as [x ->]. by eexists. }
  destruct (t =? 4); [by eexists|]. destruct (t =? 5); [by eexists|]. destruct (t =? 6); [by eexists|]. destruct (t =? 7).
  { destruct (n >=? 8) eqn:E4; bool_simpl; [|by eexists]. destruct (payload32_ok p 0 true Hp ltac:(lia) ltac:(lia)) as [x ->].
    cbn [res_bind]. destruct (payload32_ok p 4 false Hp ltac:(lia) ltac:(lia)) as [y ->]. by eexists. }
  destruct (t =? 8).
  { destruct (n =? 4) eqn:E4; bool_simpl; [|by eexists]. destruct (payload32_ok p 0 true Hp ltac:(lia) ltac:(lia)) as [x ->]. by eexists. }
  destruct (t =? 9); by eexists.
Qed.

(** ** Cutting into frames *)
Fixpoint cut (fuel : nat) (data : bytes) : list bytes * bytes :=
  match fuel with
  | O => ([], data)
  | S fuel' =>
      let n := 9 + be_get (ztake 3 data) in
      if (9 <=? zlen data) && (n <=? zlen data) then
        let '(fs, l) := cut fuel' (zdrop n data) in (ztake n data :: fs, l)
      else ([], data)
  end.
Definition frames (data : bytes) : list bytes := fst (cut (List.length data) data).
Definition leftover (data : bytes) : bytes := snd (cut (List.length data) data).
Definition events_of (f : bytes) : list h2_event := match frame_events f with Ok evs => evs | _ => [] end.

Lemma drop_shorter data : bytes_ok data -> 9 <= zlen data -> 9 + be_get (ztake 3 data) <= zlen data ->
  (List.length (zdrop (9 + be_get (ztake 3 data)) data) < List.length data)%nat.
Proof.
  intros Hb H9 Hn. pose proof (length_range data Hb ltac:(lia)). unfold zdrop. rewrite length_drop. unfold zlen in *. lia.
Qed.

Lemma cut_fuel f1 : forall f2 data, bytes_ok data -> (List.length data <= f1)%nat -> (List.length data <= f2)%nat -> cut f1 data = cut f2 data.
Proof.
  induction f1 as [|f1 IH]; intros f2 data Hb H1 H2.
  - destruct data; [|cbn in H1; lia]. by destruct f2.
  - destruct f2 as [|f2]; [destruct data; [done|cbn in H2; lia]|]. cbn [cut]. destruct (_ && _) eqn:E; [|done]. bool_simpl.
    pose proof (drop_shorter data Hb ltac:(lia) ltac:(lia)). rewrite (IH f2); [done|by apply bytes_ok_zdrop|lia|lia].
Qed.

Lemma cut_step data : bytes_ok data ->
  frames data = (if (9 <=? zlen data) && (9 + be_get (ztake 3 data) <=? zlen data)
                 then ztake (9 + be_get (ztake 3 data)) data :: frames (zdrop (9 + be_get (ztake 3 data)) data) else [])
  /\ leftover data = (if (9 <=? zlen data) && (9 + be_get (ztake 3 data) <=? zlen data)
                      then leftover (zdrop (9 + be_get (ztake 3 data)) data) else data).
Proof.
  intros Hb. unfold frames, leftover. destruct data as [|x l]; [done|]. set (data := x :: l) in *. change (List.length data) with (S (List.length l)). cbn [cut].
  destruct (_ && _) eqn:E; [|done]. bool_simpl. pose proof (drop_shorter data Hb ltac:(lia) ltac:(lia)) as Hs. change (List.length data) with (S (List.length l)) in Hs.
  rewrite (cut_fuel _ (List.length (zdrop (9 + be_get (ztake 3 data)) data))) by (try lia; by apply bytes_ok_zdrop).
  by destruct (cut _ _).
Qed.

(** Induction along the frames. *)
Lemma frames_ind (P : bytes -> Prop) :
  (forall data, bytes_ok data -> (9 <=? zlen data) && (9 + be_get (ztake 3 data) <=? zlen data) = false -> P data) ->
  (forall data, bytes_ok data -> complete data (be_get (ztake 3 data)) -> P (zdrop (9 + be_get (ztake 3 data)) data) -> P data) ->
  forall data, bytes_ok data -> P data.
Proof.
  intros H1 H2 data. induction data as [data IH] using (induction_ltof1 _ (@List.length Z)). unfold ltof in IH. intros Hb.
  destruct ((9 <=? zlen data) && (9 + be_get (ztake 3 data) <=? zlen data)) eqn:E; [|by apply H1]. bool_simpl. apply H2; [done|by split_and!|].
  apply IH; [apply drop_shorter; [done|lia|lia]|by apply bytes_ok_zdrop].
Qed.

Lemma frames_concat data : bytes_ok data -> data = concat (frames data) ++ leftover data.
Proof.
  revert data. apply frames_ind; intros data Hb.
  - intros E. destruct (cut_step data Hb) as [-> ->]. by rewrite E.
  - intros (H9 & _ & Hn) IH. destruct (cut_step data Hb) as [-> ->]. test_true ((9 <=? zlen data) && (9 + be_get (ztake 3 data) <=? zlen data)).
    cbn [concat]. rewrite <- app_assoc, <- IH. by rewrite ztake_zdrop.
Qed.

Lemma frames_app a b : bytes_ok a -> bytes_ok b ->
  frames (a ++ b) = frames a ++ frames (leftover a ++ b) /\ leftover (a ++ b) = leftover (leftover a ++ b).
Proof.
  intros Ha Hb. revert a Ha. apply (frames_ind (fun a => frames (a ++ b) = frames a ++ frames (leftover a ++ b) /\ leftover (a ++ b) = leftover (leftover a ++ b))); intros a Ha.
  - intros E. destruct (cut_step a Ha) as [-> ->]. by rewrite E.
  - intros (H9 & _ & Hn) [IH1 IH2]. pose proof (zlen_nonneg b).
    destruct (cut_step (a ++ b) ltac:(by apply bytes_ok_app)) as [-> ->]. destruct (cut_step a Ha) as [-> ->].
    rewrite zlen_app, (ztake_app_l 3) by lia.
    test_true ((9 <=? zlen a) && (9 + be_get (ztake 3 a) <=? zlen a)). test_true ((9 <=? zlen a + zlen b) && (9 + be_get (ztake 3 a) <=? zlen a + zlen b)).
    pose proof (length_range a Ha ltac:(lia)).
    assert (Ed : zdrop (9 + be_get (ztake 3 a)) (a ++ b) = zdrop (9 + be_get (ztake 3 a)) a ++ b) by (unfold zdrop, zlen in *; rewrite drop_app_le by lia; done).
    rewrite Ed, (ztake_app_l (9 + _)) by lia. cbn [app]. by rewrite IH1, IH2.
Qed.

Lemma Feed_loop_frames fuel : forall data c, bytes_ok data -> (List.length data <= fuel)%nat ->
  Feed_loop fuel data c = Ok (concat (map events_of (frames data)), c + zlen (concat (frames data))).
Proof.
  induction fuel as [|fuel IH]; intros data c Hb Hf.
  { destruct data; [|cbn in Hf; lia]. cbn. by rewrite Z.add_0_r. }
  cbn [Feed_loop]. destruct (cut_step data Hb) as [-> _]. rewrite Z.geb_leb. destruct (9 <=? zlen data) eqn:E9; cbn [andb]; bool_simpl.
  2: { cbn. by rewrite Z.add_0_r. }
  unfold IsValid. test_false (zlen data <? 9). rewrite (Length_ok data) by lia. cbn [res_bind]. rewrite Z.geb_leb.
  destruct (9 + be_get (ztake 3 data) <=? zlen data) eqn:En; cbn [negb]; bool_simpl.
  2: { cbn. by rewrite Z.add_0_r. }
  pose proof (length_range data Hb ltac:(lia)). assert (Hc : complete data (be_get (ztake 3 data))) by by split_and!.
  set (n := 9 + be_get (ztake 3 data)) in *.
  assert (Hc' : complete (ztake n data) (be_get (ztake 3 data))).
  { unfold complete. rewrite zlen_ztake by (unfold n; lia). split; [unfold n; lia|]. split; [|done]. f_equal. rewrite <- (ztake_zdrop n data) at 1. rewrite ztake_app_l; [done|]. rewrite zlen_ztake; unfold n; lia. }
  destruct (frame_events_ok (ztake n data) (zdrop n data) _ ltac:(by apply bytes_ok_ztake) Hc') as [Ee [evs Eevs]]. rewrite ztake_zdrop in Ee.
  rewrite Ee, Eevs. cbn [res_bind]. rewrite slice_ok by (unfold n; lia). cbn [res_bind]. rewrite ztake_all by (rewrite zlen_zdrop; unfold n in *; lia).
  rewrite IH; [|by apply bytes_ok_zdrop|pose proof (drop_shorter data Hb ltac:(lia) ltac:(lia)) as Hs; fold n in Hs; lia].
  cbn [res_bind fst snd map concat]. unfold events_of at 2. rewrite Eevs, zlen_app, zlen_ztake by (unfold n; lia). f_equal. f_equal. lia.
Qed.

Lemma leftover_idem data : bytes_ok data -> leftover (leftover data) = leftover data /\ frames (leftover data) = []
  /\ bytes_ok (leftover data) /\ zlen (leftover data) < 9 + 2 ^ 24.
Proof.
  revert data. apply frames_ind; intros data Hb.
  - intros E. destruct (cut_step data Hb) as [Ef El]. rewrite E in Ef, El. rewrite El, El, Ef. split; [done|]. split; [done|]. split; [done|].
    apply andb_false_iff in E as [E|E]; bool_simpl; [lia|]. destruct (Z.lt_ge_cases (zlen data) 3); [lia|]. pose proof (length_range data Hb ltac:(lia)). lia.
  - intros (H9 & _ & Hn) IH. destruct (cut_step data Hb) as [_ ->]. by test_true ((9 <=? zlen data) && (9 + be_get (ztake 3 data) <=? zlen data)).
Qed.

(** The buffer holds less than a frame, and is not much larger than one. *)
Record buf_ok (b : ReadBuf) : Prop := {
  bo_bytes : bytes_ok (rb_data b);
  bo_rest : leftover (rb_data b) = rb_data b;
  bo_fits : zlen (rb_data b) <= rb_size b;
  bo_size : 32768 <= rb_size b < 2 ^ 25 + 18
}.
(** What the connection delivers is not empty and fits into the buffer. *)
Fixpoint reads_fit (b : ReadBuf) (reads : list bytes) : Prop :=
  match reads with
  | [] => True
  | r :: reads' => 0 < zlen r <= room b /\ match readLoop_pass b r with Ok x => reads_fit (fst x) reads' | _ => True end
  end.

Lemma make_room_ok b : buf_ok b -> rb_data (make_room b) = rb_data b /\ 32768 <= rb_size (make_room b) < 2 ^ 25 + 18 /\ zlen (rb_data b) < rb_size (make_room b).
Proof.
  intros [Hb Hr Hf Hs]. destruct (leftover_idem (rb_data b) Hb) as (_ & _ & _ & Hl). rewrite Hr in Hl. unfold make_room.
  destruct (zlen (rb_data b) =? rb_size b) eqn:E; bool_simpl.
  - split; [done|]. change (rb_size { b with rb_size := rb_size b * 2 }) with (rb_size b * 2). lia.
  - split; [done|]. lia.
Qed.

Lemma readLoop_pass_ok b r : buf_ok b -> bytes_ok r -> zlen r <= room b ->
  exists b', readLoop_pass b r = Ok (b', concat (map events_of (frames (rb_data b ++ r))))
  /\ rb_data b' = leftover (rb_data b ++ r) /\ buf_ok b' /\ 0 < room b'.
Proof.
  intros Hok Hr Hroom. destruct (make_room_ok b Hok) as (Ed & Hs & Hlt). assert (Hall : bytes_ok (rb_data b ++ r)) by (apply bytes_ok_app; split; [apply Hok|done]).
  unfold readLoop_pass. rewrite Ed. cbv zeta. unfold Feed. rewrite Feed_loop_frames by (done || lia). cbn [res_bind]. rewrite Z.add_0_l.
  set (data := rb_data b ++ r) in *. pose proof (frames_concat data Hall) as Hsplit.
  assert (Edrop : (if zlen (concat (frames data)) >? 0 then zdrop (zlen (concat (frames data))) data else data) = leftover data).
  { destruct (zlen (concat (frames data)) >? 0) eqn:E; bool_simpl.
    - rewrite Hsplit at 2. by rewrite zdrop_app.
    - assert (concat (frames data) = []) as En by (apply zlen_zero; pose proof (zlen_nonneg (concat (frames data))); lia). by rewrite Hsplit at 1; rewrite En. }
  rewrite Edrop. eexists. split; [reflexivity|]. split; [done|]. destruct (leftover_idem data Hall) as (Hi & _ & Hib & Hil).
  assert (Hle : zlen (leftover data) <= zlen data) by (rewrite Hsplit at 2; rewrite zlen_app; pose proof (zlen_nonneg (concat (frames data))); lia).
  assert (Hfit : zlen data <= rb_size (make_room b)) by (unfold data; rewrite zlen_app; unfold room in Hroom; lia).
  assert (Hok' : buf_ok { make_room b with rb_data := leftover data }).
  { split; [exact Hib|exact Hi| |exact Hs]. change (zlen (leftover data) <= rb_size (make_room b)). lia. }
  split; [exact Hok'|]. destruct (make_room_ok _ Hok') as (_ & _ & Hlt'). unfold room. lia.
Qed.

Lemma read_all_ok reads : forall b, buf_ok b -> Forall bytes_ok reads -> reads_fit b reads ->
  exists b', read_all b reads = Ok (b', concat (map events_of (frames (rb_data b ++ concat reads))))
  /\ rb_data b' = leftover (rb_data b ++ concat reads) /\ buf_ok b'.
Proof.
  induction reads as [|r reads IH]; intros b Hok Hbs Hfit; cbn [read_all concat].
  - rewrite app_nil_r. exists b. destruct (leftover_idem (rb_data b) (bo_bytes b Hok)) as (_ & Hf & _). rewrite (bo_rest b Hok) in Hf. by rewrite Hf, (bo_rest b Hok).
  - destruct Hfit as ([_ Hroom] & Hfit). apply Forall_cons_1 in Hbs as [Hr Hbs].
    destruct (readLoop_pass_ok b r Hok Hr Hroom) as (b1 & E1 & Ed1 & Hok1 & _). rewrite E1 in *. cbn [res_bind fst snd] in *.
    destruct (IH b1 Hok1 Hbs Hfit) as (b2 & E2 & Ed2 & Hok2). rewrite E2. cbn [res_bind fst snd].
    assert (Hall : bytes_ok (rb_data b ++ r)) by (apply bytes_ok_app; split; [apply Hok|done]).
    destruct (frames_app (rb_data b ++ r) (concat reads) Hall ltac:(by apply Forall_concat)) as [Ef El].
    exists b2. rewrite Ed1 in *. rewrite app_assoc. split; [|split; [by rewrite El|done]].
    rewrite Ef. by rewrite map_app, concat_app.
Qed.

(** ** Agreement with the deserializer *)

(** The event for a frame as [readFrom] returns it. *)
Definition event_of (f : FrameHeader) : list h2_event :=
  match f_fr f with
  | Some (FData d) => [OnStreamData (f_stream f) (d_b d) (d_endStream d)]
  | Some (FHeaders h) => [OnHeaders (f_stream f) (h_rawHeaders h) (h_endHeaders h) (h_endStream h)]
  | Some (FPriority _) => [OnPriority (f_stream f) (f_payload f)]
  | Some (FRst r) => [OnStreamReset (f_stream f) (rst_code r)]
  | Some (FSettings s) => [OnSettings (f_payload f) (st_ack s)]
  | Some (FPushPromise _) => [OnUnknownFrame (f_stream f) FramePushPromise (f_flags f) (f_payload f)]
  | Some (FPing p) => [OnPing (p_data p) (p_ack p)]
  | Some (FGoAway g) => [OnGoAway (ga_stream g) (ga_code g)]
  | Some (FWindowUpdate w) => [OnWindowUpdate (f_stream f) (wu_increment w)]
  | Some (FCont c) => [OnContinuation (f_stream f) (c_rawHeaders c) (c_endHeaders c)]
  | None => []
  end.

Lemma flag_bit fl x : is_byte fl -> In x [1; 4; 8; 0x20] -> negb (Z.land fl x =? 0) = Has fl x.
Proof.
  intros Hb Hx. unfold Has.
  assert (H : forallb (fun x => Bool.eqb (negb (Z.land fl x =? 0)) (Z.land fl x =? x)) [1; 4; 8; 0x20] = true)
    by (revert fl Hb; apply all_bytes_spec; vm_compute; reflexivity).
  rewrite forallb_forall in H. by apply eqb_prop, H.
Qed.

Lemma be4 a b c d : is_byte a -> is_byte b -> is_byte c -> is_byte d -> be_get [a; b; c; d] = a * 2 ^ 24 + b * 2 ^ 16 + c * 2 ^ 8 + d.
Proof.
  intros Ha Hb Hc Hd. assert (Hl : forall l, Forall is_byte l -> bytes_ok l) by done.
  rewrite !be_get_cons by (try done; repeat (apply Forall_cons; [done|]); apply Forall_nil).
  rewrite !zlen_cons, zlen_nil. change (be_get []) with 0. cbn -[Z.pow]. lia.
Qed.

(** Clearing the top bit before or after assembling the bytes. *)
Lemma top_cleared a b c d : is_byte a -> is_byte b -> is_byte c -> is_byte d ->
  be_get [Z.land a 0x7F; b; c; d] = Z.land (be_get [a; b; c; d]) (Z.shiftl 1 31 - 1).
Proof.
  intros Ha Hb Hc Hd. change (Z.shiftl 1 31 - 1) with (2 ^ 31 - 1). rewrite land_mask by lia. change 0x7F with (2 ^ 7 - 1). rewrite land_mask by lia.
  rewrite !be4 by (try done; unfold is_byte in *; lia). unfold is_byte in *. lia.
Qed.

(** What a successful read says about the bytes. *)
Lemma read_inv stale br max rem f body :
  zlen stale = 8 -> bytes_ok br -> ReadFrameFromWithSize stale br max = (rem, Ok f) -> f_fr f = Some body ->
  exists b0 b1 b2 b3 b4 b5 b6 b7 b8 p a,
    br = [b0; b1; b2; b3; b4; b5; b6; b7; b8] ++ p ++ rem /\ zlen p = be_get [b0; b1; b2] /\ 0 <= b3 <= 9 /\
    f = body_of (mkFH (zlen p) b3 b4 (Z.land (be_get [b5; b6; b7; b8]) (Z.shiftl 1 31 - 1)) max p None) body /\
    AcquireFrame stale b3 = Ok a /\ Deserialize a (mkFH (zlen p) b3 b4 (Z.land (be_get [b5; b6; b7; b8]) (Z.shiftl 1 31 - 1)) max p None) = Ok body.
Proof.
  intros Hst Hbr Hread Hbody. unfold ReadFrameFromWithSize, readFrom, defaultFrameSize in Hread. destruct (zlen br <? 9) eqn:E9; [done|]. bool_simpl.
  destruct (header_split br E9 Hbr) as (Hsplit & Hl9 & Hb9 & Hbd). remember (ztake 9 br) as hd eqn:Ehd. remember (zdrop 9 br) as tl eqn:Etl.
  destruct hd as [|b0 [|b1 [|b2 [|b3 [|b4 [|b5 [|b6 [|b7 [|b8 [|b9 hd]]]]]]]]]]; try (unfold zlen in Hl9; cbn [List.length] in Hl9; lia).
  assert (Ep : forall g, parseValues g [b0; b1; b2; b3; b4; b5; b6; b7; b8] =
    Ok { g with f_length := be_get [b0; b1; b2]; f_kind := b3; f_flags := b4; f_stream := Z.land (be_get [b5; b6; b7; b8]) (Z.shiftl 1 31 - 1) }) by reflexivity.
  rewrite Ep in Hread. clear Ep. set (len := be_get [b0; b1; b2]) in *. set (sid := Z.land (be_get [b5; b6; b7; b8]) (Z.shiftl 1 31 - 1)) in *.
  assert (Hlen : 0 <= len) by (apply be_get_range; repeat (apply Forall_cons_1 in Hb9 as [? Hb9]); repeat (apply Forall_cons; [done|]); apply Forall_nil).
  assert (Hk : is_byte b3) by (repeat (apply Forall_cons_1 in Hb9 as [? Hb9]); done).
  change (f_length { { AcquireFrameHeader with f_maxLen := max } with f_length := len; f_kind := b3; f_flags := b4; f_stream := sid }) with len in Hread.
  change (f_kind { { AcquireFrameHeader with f_maxLen := max } with f_length := len; f_kind := b3; f_flags := b4; f_stream := sid }) with b3 in Hread.
  destruct (checkLen _) as [u|e|]; [|by destruct (len >? 0); [destruct (CopyN tl len) as [? [?|?|]]|]|done].
  unfold FrameContinuation in Hread. destruct (b3 >? 9) eqn:Ek; bool_simpl.
  { destruct (len >? 0); [destruct (CopyN tl len) as [? [?|?|]]|]; try done; by injection Hread as _ <-. }
  destruct (AcquireFrame stale b3) as [a|e|] eqn:Ea; try done.
  assert (Hp : exists p, (if len >? 0 then ReadFull tl len else (tl, Ok [])) = (rem, Ok p) /\ tl = p ++ rem /\ zlen p = len).
  { change (f_payload { { AcquireFrameHeader with f_maxLen := max } with f_length := len; f_kind := b3; f_flags := b4; f_stream := sid }) with (@nil Z) in Hread.
    destruct (len >? 0) eqn:E0; bool_simpl.
    - unfold ReadFull in *. destruct (zlen tl <? len) eqn:Es; bool_simpl; [by destruct (zlen tl =? 0)|]. injection Hread as <- _. eexists. split; [reflexivity|].
      split; [by rewrite ztake_zdrop|]. apply zlen_ztake. lia.
    - injection Hread as <- _. exists []. split; [done|]. split; [done|]. rewrite zlen_nil. lia. }
  destruct Hp as (p & Er & Etp & Hpl).
  change (f_payload { { AcquireFrameHeader with f_maxLen := max } with f_length := len; f_kind := b3; f_flags := b4; f_stream := sid }) with (@nil Z) in Hread.
  rewrite Er in Hread. injection Hread as Hread. cbn [res_bind] in Hread.
  change ({ _ with f_payload := p }) with (mkFH len b3 b4 sid max p None) in Hread.
  exists b0, b1, b2, b3, b4, b5, b6, b7, b8, p, a. rewrite Hpl. fold sid. split; [by rewrite <- Etp|]. split; [done|]. split; [unfold is_byte in Hk; lia|].
  destruct (Deserialize a (mkFH len b3 b4 sid max p None)) as [body'|e|] eqn:Ed; try done. cbn [res_bind] in Hread. injection Hread as <-.
  cbn in Hbody. injection Hbody as ->. done.
Qed.

Lemma ztake_within {A} x y n (l : list A) : 0 <= x -> 0 <= y <= n -> ztake (n - y) (zdrop y (ztake n (zdrop x l))) = ztake (n - y) (zdrop (x + y) l).
Proof.
  intros Hx Hy. unfold ztake, zdrop. replace (Z.to_nat n) with (Z.to_nat y + Z.to_nat (n - y))%nat by lia.
  rewrite <- take_drop_commute, take_take, drop_drop. f_equal; [lia|]. f_equal. lia.
Qed.

Section in_place.
Context (b0 b1 b2 b3 b4 b5 b6 b7 b8 : Z) (p : bytes).
  Abbreviation hd := [b0; b1; b2; b3; b4; b5; b6; b7; b8].
Context (Hhd : bytes_ok hd) (Hp : bytes_ok p) (Hlen : zlen p = be_get [b0; b1; b2]).
  Abbreviation sid := (Z.land (be_get [b5; b6; b7; b8]) (Z.shiftl 1 31 - 1)).

Lemma in_place :
    Length (hd ++ p) = Ok (zlen p) /\ Payload (hd ++ p) = Ok p /\ Flags (hd ++ p) = Ok b4 /\ Type_ (hd ++ p) = Ok b3
    /\ StreamID (hd ++ p) = Ok sid /\ is_byte b4.
Proof.
    pose proof (zlen_nonneg p). assert (Hl : zlen (hd ++ p) = 9 + zlen p) by (rewrite zlen_app; done).
    assert (El : Length (hd ++ p) = Ok (zlen p)) by (rewrite Length_ok by lia; by rewrite ztake_app_l, Hlen).
    split; [exact El|]. split.
    { unfold Payload. rewrite El. cbn [res_bind]. rewrite slice_ok by lia. rewrite (zdrop_app_eq 9), ztake_all by (done || lia). done. }
    split; [unfold Flags; by rewrite index_app_l|]. split; [unfold Type_; by rewrite index_app_l|].
    repeat (apply Forall_cons_1 in Hhd as [? Hhd]). split; [|done]. unfold StreamID. rewrite Hl. test_false (9 + zlen p <? 9). by rewrite <- top_cleared.
Qed.

  Abbreviation frame_header max := (mkFH (zlen p) b3 b4 sid max p None).

Lemma data_in_place d max :
    Data_Deserialize Data_Reset (frame_header max) = Ok d ->
    Data_of (hd ++ p) = Ok (d_b d) /\ IsEndStream (hd ++ p) = Ok (d_endStream d).
Proof.
    destruct in_place as (El & Ep & Ef & Et & Es & Hb4). unfold Data_Deserialize, Data_of, IsEndStream, IsPadded, flag_set. cbn [f_stream f_flags f_payload f_length].
    destruct (sid =? 0); [done|]. rewrite Ep, Ef. cbn [res_bind]. rewrite !flag_bit by (done || by cbn; auto). unfold FlagPadded, FlagEndStream.
    destruct (Has b4 8); cbn [negb]; [|intros [= <-]; done].
    unfold cutPadding. destruct (zlen p =? 0) eqn:E0; [done|]. bool_simpl. pose proof (zlen_nonneg p). destruct (_ || _ || _ || _) eqn:E1; [done|]. bool_simpl.
    unfold index. test_true ((0 <=? 0) && (0 <? zlen p)). cbn [res_bind]. replace (1 >? zlen p - znth p 0) with false by lia.
    destruct (slice p 1 (zlen p - znth p 0)) as [q|e|]; [|done|done]. cbn [res_bind]. by intros [= <-].
Qed.

Lemma headers_in_place h max :
    Headers_Deserialize Headers_Reset (frame_header max) = Ok h ->
    HeaderBlockFragment (hd ++ p) = Ok (h_rawHeaders h) /\ IsEndHeaders (hd ++ p) = Ok (h_endHeaders h) /\ IsEndStream (hd ++ p) = Ok (h_endStream h).
Proof.
    destruct in_place as (El & Ep & Ef & Et & Es & Hb4). pose proof (zlen_nonneg p).
    unfold Headers_Deserialize, HeaderBlockFragment, IsEndStream, IsEndHeaders, IsPadded, HasPriority, flag_set. cbn [f_stream f_flags f_payload f_length].
    destruct (sid =? 0); [done|]. rewrite Ep, Ef. cbn [res_bind]. rewrite !flag_bit by (done || by cbn; auto). unfold FlagPadded, FlagEndStream, FlagEndHeaders, FlagPriority.
    intros Hd.
    assert (Hq : exists start e q, slice p start e = @Ok h2_error bytes q /\ 0 <= start <= e /\ e <= zlen p /\
      (if Has b4 8 then cutPadding p (zlen p) else Ok p) = Ok q /\ start = (if Has b4 8 then 1 else 0) /\
      (Has b4 8 && (zlen p =? 0) = false) /\ (let* padLen := if Has b4 8 then index p 0 else Ok 0 in Ok (zlen p - padLen)) = @Ok h2_error Z e).
    { destruct (Has b4 8).
      - unfold cutPadding in *. destruct (zlen p =? 0) eqn:E0; [done|]. bool_simpl. destruct (_ || _ || _ || _) eqn:E1; [done|]. bool_simpl.
        exists 1, (zlen p - znth p 0). unfold index. test_true ((0 <=? 0) && (0 <? zlen p)).
        assert (Hpad : is_byte (znth p 0)) by (unfold znth; apply Forall_nth; [done|unfold zlen in *; lia]). unfold is_byte in Hpad.
        rewrite slice_ok by lia. eexists. split; [reflexivity|]. split; [lia|]. split; [lia|]. done.
      - exists 0, (zlen p), p. rewrite slice_ok by lia. rewrite zdrop_0, ztake_all by lia. split; [done|]. split; [lia|]. split; [lia|]. split; [done|].
        split; [done|]. split; [done|]. cbn [res_bind]. f_equal. lia. }
    destruct Hq as (start & e & q & Hsl & Hse & He & Hcut & Hst & Hnz & Hend). rewrite Hcut in Hd. cbn [res_bind] in Hd. rewrite Hnz. rewrite <- Hst.
    destruct (if Has b4 8 then index p 0 else Ok 0) as [pl|?|]; [|done|done]. cbn [res_bind] in *. injection Hend as Hend. rewrite Hend.
    rewrite slice_ok in Hsl by lia. injection Hsl as <-.
    assert (Hlq : zlen (ztake (e - start) (zdrop start p)) = e - start) by (rewrite zlen_ztake; [lia|rewrite zlen_zdrop; lia]).
    destruct (Has b4 32).
    - rewrite Hlq in Hd. destruct (e - start <? 5) eqn:E5; [done|]. bool_simpl.
      destruct (index _ 0) as [x0|?|]; [|done|done]. cbn [res_bind] in Hd. destruct (bytesToUint32 _) as [dep|?|]; [|done|done]. cbn [res_bind] in Hd. cbv zeta in Hd.
      destruct (_ =? _); [done|]. destruct (index _ 4) as [w|?|]; [|done|done]. cbn [res_bind] in Hd. rewrite slice_ok in Hd by (rewrite ?Hlq; lia).
      cbn [res_bind] in Hd. injection Hd as <-. replace (start + 5 >? e) with false by lia. replace (e >? zlen p) with false by lia. cbn [orb].
      rewrite slice_ok by lia. cbn -[ztake zdrop Has]. split; [|done]. f_equal. rewrite (ztake_within start 5 (e - start) p) by lia. f_equal. lia.
    - cbn [res_bind] in Hd. injection Hd as <-. replace (start >? e) with false by lia. replace (e >? zlen p) with false by lia. cbn [orb]. rewrite slice_ok by lia. done.
Qed.
End in_place.

Lemma byte_list4 p : bytes_ok p -> 4 <= zlen p ->
  exists a b c d r, p = a :: b :: c :: d :: r /\ is_byte a /\ is_byte b /\ is_byte c /\ is_byte d /\ bytes_ok r
  /\ bytesToUint32 p = Ok (be_get [a; b; c; d]) /\ (forall cl, payload32 p 0 cl = Ok (be_get [(if cl then Z.land a 0x7F else a); b; c; d])).
Proof.
  intros Hp Hl. destruct p as [|a [|b [|c [|d r]]]]; try (unfold zlen in Hl; cbn [List.length] in Hl; lia).
  repeat (apply Forall_cons_1 in Hp as [? Hp]). exists a, b, c, d, r. pose proof (zlen_nonneg r). rewrite !zlen_cons in Hl.
  split; [done|]. do 4 (split; [done|]). split; [done|]. split.
  - unfold bytesToUint32. rewrite !zlen_cons. by test_false (1 + (1 + (1 + (1 + zlen r))) <? 4).
  - intros cl. unfold payload32. change (a :: b :: c :: d :: r) with ([a; b; c; d] ++ r). by rewrite !index_app_l.
Qed.

Lemma applySetting_ack st k v st' : applySetting st k v = Ok st' -> st_ack st' = st_ack st.
Proof. unfold applySetting. intros E. repeat case_hyp E; try done; by injection E as <-. Qed.
Lemma settings_ack_kept n : forall st q st', (List.length q < n)%nat -> Settings_Read st q = Ok st' -> st_ack st' = st_ack st.
Proof.
  induction n as [|n IH]; intros st q st' Hn Hr; [lia|].
  destruct q as [|x0 [|x1 [|x2 [|x3 [|x4 [|x5 q]]]]]]; try (by injection Hr as <-). cbn [Settings_Read List.length] in Hr, Hn.
  destruct (applySetting st _ _) as [st1|?|] eqn:E1; try done. cbn [res_bind] in Hr.
  rewrite (IH st1 q st'); [by apply applySetting_ack in E1|lia|done].
Qed.

Lemma overlay_agrees stale br max rem f body :
  zlen stale = 8 -> bytes_ok br -> ReadFrameFromWithSize stale br max = (rem, Ok f) -> f_fr f = Some body ->
  frame_events br = Ok (event_of f).
Proof.
  intros Hst Hbr Hread Hbody. destruct (read_inv _ _ _ _ _ _ Hst Hbr Hread Hbody) as (b0 & b1 & b2 & b3 & b4 & b5 & b6 & b7 & b8 & p & a & Ebr & Hpl & Hk & -> & Ea & Ed).
  rewrite Ebr in Hbr. apply bytes_ok_app in Hbr as [Hhd Hbr]. apply bytes_ok_app in Hbr as [Hp _]. pose proof (zlen_nonneg p).
  assert (Hc : complete ([b0; b1; b2; b3; b4; b5; b6; b7; b8] ++ p) (zlen p)).
  { unfold complete. rewrite zlen_app. change (zlen [b0; b1; b2; b3; b4; b5; b6; b7; b8]) with 9. split; [lia|]. split; [|lia]. by rewrite ztake_app_l. }
  rewrite Ebr, app_assoc. assert (HF : bytes_ok ([b0; b1; b2; b3; b4; b5; b6; b7; b8] ++ p)) by by apply bytes_ok_app.
  destruct (frame_events_ok _ rem _ HF Hc) as [-> _]. clear Ebr Hc Hread Hbody.
  destruct (in_place b0 b1 b2 b3 b4 b5 b6 b7 b8 p Hhd Hpl) as (El & Epp & Ef & Et & Es & Hb4).
  unfold frame_events. rewrite El, Epp, Ef, Et, Es. cbn [res_bind]. unfold event_of. cbn [f_fr body_of f_stream f_payload f_flags].
  assert (Hcase : b3 = 0 \/ b3 = 1 \/ b3 = 2 \/ b3 = 3 \/ b3 = 4 \/ b3 = 5 \/ b3 = 6 \/ b3 = 7 \/ b3 = 8 \/ b3 = 9) by lia.
  repeat destruct Hcase as [Hcase|Hcase]; subst b3; injection Ea as <-; eval_tests; cbn [Deserialize res_bind] in Ed.
  - destruct (Data_Deserialize _ _) as [d|?|] eqn:E; try done. injection Ed as <-.
    destruct (data_in_place b0 b1 b2 0 b4 b5 b6 b7 b8 p Hhd Hpl d max E) as [-> ->]. done.
  - destruct (Headers_Deserialize _ _) as [h|?|] eqn:E; try done. injection Ed as <-.
    destruct (headers_in_place b0 b1 b2 1 b4 b5 b6 b7 b8 p Hhd Hp Hpl h max E) as (-> & -> & ->). done.
  - destruct (Priority_Deserialize _ _) as [y|?|]; try done. by injection Ed as <-.
  - unfold RstStream_Deserialize in Ed. cbn [f_stream f_payload] in Ed. destruct (_ =? 0); [done|]. destruct (negb _) eqn:E4; bool_simpl; [done|]. test_true (zlen p =? 4).
    destruct (byte_list4 p Hp ltac:(lia)) as (x0 & x1 & x2 & x3 & r & -> & _ & _ & _ & _ & _ & Hu & Hp32). rewrite Hu in Ed. rewrite Hp32. by injection Ed as <-.
  - unfold Settings_Deserialize in Ed. cbn [f_stream f_payload f_flags] in Ed. destruct (negb _); [done|]. destruct (negb _); [done|]. cbv zeta in Ed. destruct (_ && _); [done|].
    destruct (Settings_Read _ _) as [st|?|] eqn:E; try done. injection Ed as <-. rewrite flag_bit by (done || by cbn; auto).
    f_equal. f_equal. f_equal. symmetry. exact (settings_ack_kept _ _ _ _ (Nat.lt_succ_diag_r _) E).
  - destruct (PushPromise_Deserialize _ _) as [y|?|]; try done. by injection Ed as <-.
  - unfold Ping_Deserialize in Ed. cbn [f_stream f_payload f_flags] in Ed. destruct (negb _); [done|]. cbv zeta in Ed. destruct (negb _) eqn:E8; bool_simpl; [done|].
    injection Ed as <-. rewrite flag_bit by (done || by cbn; auto). unfold Ping_SetData. cbn -[ztake zdrop Has]. rewrite ztake_all, zdrop_all by lia. by rewrite app_nil_r.
  - unfold GoAway_Deserialize in Ed. cbn [f_stream f_payload] in Ed. destruct (negb _); [done|]. destruct (zlen p <? 8) eqn:E8; bool_simpl; [done|]. replace (zlen p >=? 8) with true by lia.
    destruct (byte_list4 p Hp ltac:(lia)) as (x0 & x1 & x2 & x3 & r & -> & H0 & H1 & H2 & H3 & Hr & Hu & Hp32). rewrite !zlen_cons in *.
    destruct (byte_list4 r Hr ltac:(lia)) as (y0 & y1 & y2 & y3 & r' & -> & _ & _ & _ & _ & _ & Hu' & Hp32').
    rewrite Hu in Ed. cbn [res_bind] in Ed. rewrite slice_ok in Ed by (rewrite ?zlen_cons in *; lia). cbn [res_bind] in Ed.
    replace (ztake _ (zdrop 4 _)) with (y0 :: y1 :: y2 :: y3 :: r') in Ed by (symmetry; apply ztake_all; unfold zdrop; cbn [drop]; rewrite !zlen_cons; lia).
    rewrite Hu' in Ed. cbn [res_bind] in Ed. rewrite Hp32. cbn [res_bind].
    assert (E4 : payload32 (x0 :: x1 :: x2 :: x3 :: y0 :: y1 :: y2 :: y3 :: r') 4 false = Ok (be_get [y0; y1; y2; y3])).
    { unfold payload32. change (x0 :: x1 :: x2 :: x3 :: y0 :: y1 :: y2 :: y3 :: r') with ([x0; x1; x2; x3; y0; y1; y2; y3] ++ r'). by rewrite !index_app_l. }
    rewrite E4. cbn [res_bind]. rewrite top_cleared by done. destruct (_ >? 8); [|by injection Ed as <-].
    destruct (slice _ 8 _) as [d|?|]; try done. by injection Ed as <-.
  - unfold WindowUpdate_Deserialize in Ed. cbn [f_stream f_payload] in Ed. destruct (negb _) eqn:E4; bool_simpl; [done|]. test_true (zlen p =? 4).
    destruct (byte_list4 p Hp ltac:(lia)) as (x0 & x1 & x2 & x3 & r & -> & H0 & H1 & H2 & H3 & Hr & Hu & Hp32). rewrite Hu in Ed. cbn [res_bind] in Ed. cbv zeta in Ed.
    rewrite Hp32. cbn [res_bind]. rewrite top_cleared by done. destruct (_ =? 0); [by destruct (_ =? 0)|]. by injection Ed as <-.
  - unfold Continuation_Deserialize in Ed. cbn [f_stream f_payload f_flags] in Ed. destruct (_ =? 0); [done|]. injection Ed as <-. by rewrite flag_bit by (done || by cbn; auto).
Qed.

(** ** Frames that were written *)
Definition out_frame : Type := Z * Z * Frame.
Definition out_bytes (o : out_frame) : bytes := frame_bytes (fst (fst o)) (snd (fst o)) (snd o).
Definition out_ok (o : out_frame) : Prop := frame_sendable (fst (fst o)) (snd (fst o)) (snd o).
Definition out_event (o : out_frame) : list h2_event := event_of (arriving (fst (fst o)) (snd (fst o)) (snd o) 0).

Lemma wire_payload_ok sid fl b : frame_wf sid b -> bytes_ok (wire_payload sid fl b).
Proof.
  intros Hwf. unfold wire_payload.
  assert (Hz : bytes_ok [0]) by (apply Forall_cons; [unfold is_byte; lia|apply Forall_nil]).
  assert (Htop : forall ex v, bytes_ok (set_top ex (be_put 4 v))).
  { intros ex v. pose proof (be_put_ok 4 v) as Hb. destruct ex; [|done]. destruct (be_put 4 v) as [|x l]; [done|]. apply Forall_cons_1 in Hb as [Hx Hl].
    apply Forall_cons; [apply lor_byte; [done|unfold is_byte; lia]|done]. }
  destruct b as [[es pad b]|[pad dep w es eh pri ex raw]|[ex dep w]|?|st|?|?|?|?|?]; cbn [frame_wf d_b h_rawHeaders h_priority h_weight pry_weight] in Hwf.
  - destruct Hwf as [_ Hb]. destruct es, pad; cbn; try exact Hb; by apply (bytes_ok_app [0] b).
  - destruct Hwf as (_ & Hb & Hpri). assert (Hw : pri = true -> bytes_ok (set_top ex (be_put 4 dep) ++ [w])).
    { intros Hp. destruct (Hpri Hp) as (_ & _ & Hw). apply bytes_ok_app. split; [apply Htop|]. apply Forall_cons; [exact Hw|apply Forall_nil]. }
    assert (Hbody : bytes_ok ((if pri then set_top ex (be_put 4 dep) ++ [w] else []) ++ raw)) by (apply bytes_ok_app; split; [destruct pri; [by apply Hw|apply Forall_nil]|exact Hb]).
    destruct es, eh, pad, pri; cbn -[set_top be_put]; try exact Hb; try exact Hbody; apply Forall_cons; try (unfold is_byte; lia); try exact Hb; exact Hbody.
  - destruct Hwf as (_ & _ & _ & Hw). cbn -[set_top be_put]. apply bytes_ok_app. split; [apply Htop|]. apply Forall_cons; [exact Hw|apply Forall_nil].
  - cbn -[be_put]. apply be_put_ok.
  - cbn -[Encode]. unfold Settings_Serialize. destruct (st_ack st); cbn -[Encode]; [apply Forall_nil|]. rewrite Encode_image. apply settings_image_ok.
  - destruct Hwf as (_ & _ & Hb). cbn -[be_put]. apply bytes_ok_app. split; [apply be_put_ok|exact Hb].
  - destruct p as [[] d]; apply Hwf.
  - destruct Hwf as (_ & _ & _ & Hb). cbn -[be_put]. apply bytes_ok_app. split; [apply bytes_ok_app; split; apply be_put_ok|exact Hb].
  - cbn -[be_put]. apply be_put_ok.
  - destruct c as [[] d]; apply Hwf.
Qed.

Lemma out_bytes_frame o : out_ok o -> bytes_ok (out_bytes o) /\ complete (out_bytes o) (zlen (wire_payload (fst (fst o)) (snd (fst o)) (snd o)))
  /\ zlen (out_bytes o) = 9 + zlen (wire_payload (fst (fst o)) (snd (fst o)) (snd o)) /\ frame_events (out_bytes o) = Ok (out_event o).
Proof.
  destruct o as [[sid fl] b]. intros Hs. cbn [fst snd out_bytes out_ok] in *. unfold out_event, out_bytes. cbn [fst snd]. change (frame_sendable sid fl b) in Hs. pose proof Hs as [Hwf Hfit Hsid Hlen].
  pose proof (wire_payload_ok sid fl b Hwf) as Hp. pose proof (zlen_nonneg (wire_payload sid fl b)).
  assert (Hb : bytes_ok (frame_bytes sid fl b)).
  { unfold frame_bytes, header_image. apply bytes_ok_app. split; [|done]. apply bytes_ok_app. split; [apply be_put_ok|]. apply Forall_cons.
    - pose proof (type_range b). unfold is_byte. lia.
    - apply Forall_cons; [by apply wire_flags_byte; apply Hfit|apply be_put_ok]. }
  assert (Hl : zlen (frame_bytes sid fl b) = 9 + zlen (wire_payload sid fl b)) by (unfold frame_bytes; rewrite zlen_app, header_image_len; done).
  split; [exact Hb|]. split; [|split; [exact Hl|]].
  - unfold complete. rewrite Hl. split; [lia|]. split; [|lia]. unfold frame_bytes. rewrite ztake_app_l by (rewrite header_image_len; lia).
    unfold header_image. rewrite (ztake_app_eq 3) by by rewrite be_put_zlen. rewrite be_get_put. change (2 ^ (8 * Z.of_nat 3)) with (2 ^ 24). by rewrite Z.mod_small by lia.
  - pose proof (read_bytes sid fl b [0; 0; 0; 0; 0; 0; 0; 0] [] 0 Hs eq_refl (or_introl eq_refl)) as Hr. rewrite app_nil_r in Hr.
    by apply (overlay_agrees [0; 0; 0; 0; 0; 0; 0; 0] _ 0 [] _ (received (wire_flags sid fl b) b)).
Qed.

Lemma out_frames os rest : Forall out_ok os -> bytes_ok rest ->
  frames (concat (map out_bytes os) ++ rest) = map out_bytes os ++ frames rest /\ leftover (concat (map out_bytes os) ++ rest) = leftover rest
  /\ concat (map events_of (map out_bytes os)) = concat (map out_event os).
Proof.
  intros Hos Hrest. induction Hos as [|o os Ho Hos (IH1 & IH2 & IH3)]; [done|]. destruct (out_bytes_frame o Ho) as (Hb & (H9 & Hn & _) & Hl & Hev). cbn [map concat].
  assert (Hall : bytes_ok (concat (map out_bytes os) ++ rest)).
  { apply bytes_ok_app. split; [|done]. apply Forall_concat, Forall_map. eapply Forall_impl; [|exact Hos]. intros o' Ho'. by apply out_bytes_frame. }
  assert (Htot : bytes_ok (out_bytes o ++ concat (map out_bytes os) ++ rest)) by by apply bytes_ok_app.
  rewrite <- app_assoc. destruct (cut_step _ Htot) as [-> ->]. pose proof (zlen_nonneg (concat (map out_bytes os) ++ rest)).
  rewrite zlen_app, ztake_app_l, <- Hn, Hl by lia. test_true ((9 <=? 9 + zlen (wire_payload (fst (fst o)) (snd (fst o)) (snd o)) + zlen (concat (map out_bytes os) ++ rest))
    && (9 + zlen (wire_payload (fst (fst o)) (snd (fst o)) (snd o)) <=? 9 + zlen (wire_payload (fst (fst o)) (snd (fst o)) (snd o)) + zlen (concat (map out_bytes os) ++ rest))).
  rewrite (zdrop_app_eq _ (out_bytes o)), (ztake_app_eq _ (out_bytes o)) by lia. rewrite IH1, IH2, IH3. unfold events_of at 1. by rewrite Hev.
Qed.

(** ** Theorems *)

(** C21: the events do not depend on how the bytes arrive.  Whatever the reads are,
    as long as they are not empty and fit the buffer, the read loop reports the
    events of exactly the complete frames received so far, in order, keeps the
    rest, and never lets the buffer grow to more than about twice the largest
    frame. *)
Theorem h2_events_any_split (reads : list bytes) :
  Forall bytes_ok reads -> reads_fit new_readbuf reads ->
  exists b, read_all new_readbuf reads = Ok (b, concat (map events_of (frames (concat reads))))
  /\ concat reads = concat (frames (concat reads)) ++ rb_data b /\ zlen (rb_data b) < 9 + 2 ^ 24 /\ rb_size b < 2 ^ 25 + 18.
Proof.
  intros Hb Hfit. assert (Hok : buf_ok new_readbuf) by (split; [apply Forall_nil|done|done|done]).
  destruct (read_all_ok reads new_readbuf Hok Hb Hfit) as (b & E & Ed & Hok'). change (rb_data new_readbuf ++ concat reads) with (concat reads) in *.
  assert (Hall : bytes_ok (concat reads)) by by apply Forall_concat.
  exists b. split; [exact E|]. rewrite Ed. split; [by apply frames_concat|]. split; [by apply leftover_idem|]. apply Hok'.
Qed.
Definition ping_frame : bytes := [0; 0; 8; 6; 0; 0; 0; 0; 0; 1; 2; 3; 4; 5; 6; 7; 8].
Lemma h2_events_any_split_witness :
  exists b, read_all new_readbuf [ztake 5 ping_frame; zdrop 5 ping_frame ++ ztake 12 ping_frame] = Ok (b, [OnPing [1; 2; 3; 4; 5; 6; 7; 8] false])
  /\ zlen (rb_data b) < 9 + 2 ^ 24.
Proof.
  assert (Hb : Forall bytes_ok [ztake 5 ping_frame; zdrop 5 ping_frame ++ ztake 12 ping_frame]) by (apply (bool_decide_unpack _); vm_compute; exact I).
  destruct (h2_events_any_split [ztake 5 ping_frame; zdrop 5 ping_frame ++ ztake 12 ping_frame] Hb) as (b & E & _ & Hl & _).
  { vm_compute. split; [split; [reflexivity|discriminate]|]. split; [split; [reflexivity|discriminate]|exact I]. }
  exists b. split; [rewrite E; reflexivity|exact Hl].
Defined.

(** The in-place accessors and the deserializer agree: for every frame that
    [ReadFrameFromWithSize] accepts, the state machine reports its type, stream,
    flags, data, header block and codes as the deserialized frame has them. *)
Theorem h2_overlay_agrees (stale br rem : bytes) (max : Z) (f : FrameHeader) (body : Frame) :
  zlen stale = 8 -> bytes_ok br -> ReadFrameFromWithSize stale br max = (rem, Ok f) -> f_fr f = Some body ->
  frame_events br = Ok (event_of f).
Proof. apply overlay_agrees. Qed.
Lemma h2_overlay_agrees_witness : frame_events ping_frame = Ok [OnPing [1; 2; 3; 4; 5; 6; 7; 8] false].
Proof.
  assert (Hb : bytes_ok ping_frame) by (apply (bool_decide_unpack _); vm_compute; exact I).
  exact (h2_overlay_agrees [0; 0; 0; 0; 0; 0; 0; 0] ping_frame [] 0
    (mkFH 8 6 0 0 0 [1; 2; 3; 4; 5; 6; 7; 8] (Some (FPing (mkPing false [1; 2; 3; 4; 5; 6; 7; 8])))) (FPing (mkPing false [1; 2; 3; 4; 5; 6; 7; 8]))
    eq_refl Hb eq_refl eq_refl).
Defined.

(** DATA with padding that does not fit is reported as an empty DATA frame,
    while the deserializer rejects it with PROTOCOL_ERROR. *)
Theorem h2_bad_padding_ignored (stale : bytes) :
  let f := [0; 0; 3; 0; 8; 0; 0; 0; 1; 200; 7; 7] in
  frame_events f = Ok [OnStreamData 1 [] false] /\ ReadFrameFrom stale f = ([], Err (NewGoAwayError ProtocolError)).
Proof. done. Qed.
