(* ===== verification/H2Server.v ===== *)
(** * The HTTP/2 server connection

    Models [src/server/h2]: [server_conn.go] (state, stream table), [stream.go]
    (streams, header blocks, dispatch), [read_loop.go] (the handler of the state
    machine's events), [write_loop.go] (everything that is written) and
    [flow_control.go].

    Stream objects are shared by pointer between the table, the read loop and the
    goroutine that serves them, so they live in a heap ([heap], indices are the
    pointers).  The table is the sixteen shards of the code.  A goroutine that
    serves a stream is first an entry of [spawned], and one of [dispatches] once it
    runs; the calls the handler makes are separate steps ([UpgradeFn],
    [adapter_Write], ...), since they interleave with the read loop.  Locks make
    each definition one step.  [broken] says that the transport refuses writes; the
    bytes written are [out].  Contexts are the flags [cancelled] and [ctxDone].  A
    pipe to a tunnel is the bytes handed to it; that a write to it waits for the
    reader is not modelled.

    A stream object that is released goes to [pool], once for each time it is
    released, and the next streams may get it again.  Which object a [Get] returns
    is not determined by the code: [gets] says it, one index into [pool] for each
    [Get] to come, and a new object where there is none.  An object that other
    connections have used is as good as new, since every field of it is set again.

    The theorems are in [H2ServerInv] (the invariant over any events and any calls)
    and [H2Exchange] (requests and responses from end to end, and the defects). *)

From Stdlib Require Import Ascii String.
From stdpp Require Import gmap.
From S2P Require Import Prelude Intern HpackInt Huffman Hpack H2Frames H2Fsm.
Open Scope Z_scope.

(** [int32(x)]. *)
Definition i32 (x : Z) : Z := let y := x mod 2 ^ 32 in if y <? 2 ^ 31 then y else y - 2 ^ 32.

(** ** State *)
Inductive streamState := streamOpen | streamHalfClosedRemote | streamClosed.
#[export] Instance streamState_eq_dec : EqDecision streamState.
Proof. solve_decision. Defined.

#[projections(primitive)]
Record serverStream := mkStream {
  stream_id : Z;
  method : bytes;
  path : bytes;
  scheme : bytes;
  authority : bytes;
  protocol : bytes;
  headers : list (bytes * bytes);
  headerBlock : bytes;
  body : bytes;
  endHeaders : bool;
  endStream : bool;
  state : streamState;
  sendWindow : Z;
  recvUnacked : Z;
  cancelled : bool;
  isTunnel : bool;
  pipe : option nat
}.

#[projections(primitive)]
Record ServerRequest := mkRequest {
  req_StreamID : Z;
  req_Method : bytes;
  req_Path : bytes;
  req_Scheme : bytes;
  req_Authority : bytes;
  req_Protocol : bytes;
  req_Headers : list (bytes * bytes);
  req_Body : bytes;
  req_IsExtendedConnect : bool
}.
(** A response; the headers in the order the map is traversed. *)
#[projections(primitive)]
Record ServerResponse := mkResponse { res_StatusCode : Z; res_Headers : list (bytes * list bytes); res_Body : bytes }.

(** The bytes written to a pipe, and whether an end of it is closed. *)
#[projections(primitive)]
Record Pipe := mkPipe { pipe_data : bytes; pipe_closed : bool }.
(** A goroutine that serves a stream: its stream, its request, its adapter (the
    pipe, and whether it was closed), and whether it has ended. *)
#[projections(primitive)]
Record dispatch := mkDispatch { dp_stream : nat; dp_req : ServerRequest; dp_adapter : option (nat * bool); dp_done : bool }.

(** What ends a connection. *)
Inductive close_error := CloseCode (code : Z) | CloseWrite.

#[projections(primitive)]
Record ServerConn := mkServerConn {
  hpackDec : HPACK;
  hpackEnc : HPACK;
  streamShards : list (gmap Z nat);
  heap : list serverStream;
  spawned : list nat;
  dispatches : list dispatch;
  pipes : list Pipe;
  peerMaxFrameSize : Z;
  peerInitialWin : Z;
  maxStreamID : Z;
  continuationStream : Z;
  isClosed : bool;
  connSendWindow : Z;
  connRecvUnacked : Z;
  closeErr : option close_error;
  EnableConnect : bool;
  ctxDone : bool;
  broken : bool;
  out : bytes;
  pool : list nat;
  gets : list nat
}.

Definition streamShardsCount : Z := 16.
Definition shard_of (streamID : Z) : nat := Z.to_nat (Z.land (Z.shiftr streamID 1) (streamShardsCount - 1)).

Definition getStream (sc : ServerConn) (streamID : Z) : option nat :=
  match streamShards sc !! shard_of streamID with Some shard => shard !! streamID | None => None end.
Definition putStream (sc : ServerConn) (streamID : Z) (l : nat) : ServerConn :=
  { sc with streamShards := alter (insert streamID l) (shard_of streamID) (streamShards sc) }.
Definition deleteStream (sc : ServerConn) (streamID : Z) : ServerConn * option nat :=
  match getStream sc streamID with
  | Some l => ({ sc with streamShards := alter (delete streamID) (shard_of streamID) (streamShards sc) }, Some l)
  | None => (sc, None)
  end.

(** The object at [l] and its update. *)
Definition null_stream : serverStream := mkStream 0 [] [] [] [] [] [] [] [] false false streamOpen 0 0 false false None.
Definition obj (sc : ServerConn) (l : nat) : serverStream := nth l (heap sc) null_stream.
Definition set_obj (sc : ServerConn) (l : nat) (st : serverStream) : ServerConn := { sc with heap := <[l := st]> (heap sc) }.

Definition NewServerConn : ServerConn :=
  mkServerConn Hpack.AcquireHPACK { Hpack.AcquireHPACK with DisableDynamicTable := true } (replicate 16 ∅) [] [] [] []
    DefaultMaxLen 65535 0 0 false 65535 0 None true false false [] [] [].

(** ** Writing *)

(** [WriteTo] and [Flush]. *)
Definition write_frame (sc : ServerConn) (sid fl : Z) (b : Frame) : ServerConn * bool :=
  match WriteTo (outgoing sid fl b) with
  | Ok (_, bs) => if broken sc then (sc, false) else ({ sc with out := out sc ++ bs }, true)
  | _ => (sc, false)
  end.

Definition writeGoAway (sc : ServerConn) (lastStreamID code : Z) : ServerConn * bool :=
  write_frame sc 0 0 (FGoAway (GoAway_SetCode (GoAway_SetStream GoAway_Reset lastStreamID) code)).
Definition closeWithGoAway (sc : ServerConn) (lastStreamID code : Z) : ServerConn :=
  let '(sc, _) := writeGoAway sc lastStreamID code in
  { sc with closeErr := Some (CloseCode code); isClosed := true }.
Definition writeRstStream (sc : ServerConn) (streamID code : Z) : ServerConn :=
  fst (write_frame sc streamID 0 (FRst (mkRst code))).
Definition sendWindowUpdateFrame (sc : ServerConn) (streamID inc : Z) : ServerConn :=
  fst (write_frame sc streamID 0 (FWindowUpdate (mkWU inc))).
Definition sendBatchedWindowUpdates (sc : ServerConn) (connInc : Z) (stID : option Z) (stInc : Z) : ServerConn :=
  if isClosed sc then sc
  else
    let '(sc, ok) := if connInc >? 0 then write_frame sc 0 0 (FWindowUpdate (mkWU connInc)) else (sc, true) in
    if negb ok then sc
    else match stID with
         | Some sid => if stInc >? 0 then fst (write_frame sc sid 0 (FWindowUpdate (mkWU stInc))) else sc
         | None => sc
         end.
(** The PING comes from a pool and keeps the bytes of its last use that are not
    overwritten. *)
Definition writePingAck (sc : ServerConn) (stale data : bytes) : ServerConn * bool :=
  write_frame sc 0 FlagAck (FPing (Ping_SetData (Ping_Reset (mkPing false stale)) data)).
Definition sendSettings (sc : ServerConn) (st : Settings) (ack : bool) : ServerConn * bool :=
  if ack then write_frame sc 0 FlagAck (FSettings { Settings_Reset with st_ack := true })
  else write_frame sc 0 0 (FSettings st).

(** ** Pipes *)
Definition pipe_write (sc : ServerConn) (p : nat) (b : bytes) : ServerConn :=
  { sc with pipes := alter (fun x => if pipe_closed x then x else { x with pipe_data := pipe_data x ++ b }) p (pipes sc) }.
Definition pipe_close (sc : ServerConn) (p : nat) : ServerConn :=
  { sc with pipes := alter (fun x => { x with pipe_closed := true }) p (pipes sc) }.

(** ** Flow control *)
Definition minWindowUpdateBatch : Z := 32768.
Definition updateConnSendWindow (sc : ServerConn) (inc : Z) : option ServerConn :=
  if connSendWindow sc + inc >? Z.shiftl 1 31 - 1 then None
  else Some { sc with connSendWindow := i32 (connSendWindow sc + inc) }.
Definition updateStreamSendWindow (sc : ServerConn) (l : nat) (inc : Z) : option ServerConn :=
  let st := obj sc l in
  if sendWindow st + inc >? Z.shiftl 1 31 - 1 then None
  else Some (set_obj sc l { st with sendWindow := i32 (sendWindow st + inc) }).

Definition replenishReceiveWindow (sc : ServerConn) (l : nat) (consumed : Z) : ServerConn :=
  if (consumed <=? 0) || isClosed sc then sc
  else
    let connTotal := i32 (connRecvUnacked sc + consumed) in
    let '(sc, connInc) :=
      if connTotal >=? minWindowUpdateBatch then ({ sc with connRecvUnacked := 0 }, u32 connTotal)
      else ({ sc with connRecvUnacked := connTotal }, 0) in
    let st := obj sc l in
    let '(sc, stInc) :=
      if negb (endStream st) then
        let total := i32 (recvUnacked st + i32 consumed) in
        if total >=? minWindowUpdateBatch then (set_obj sc l { st with recvUnacked := 0 }, u32 total)
        else (set_obj sc l { st with recvUnacked := total }, 0)
      else (sc, 0) in
    if (connInc >? 0) || (stInc >? 0) then sendBatchedWindowUpdates sc connInc (Some (stream_id st)) stInc else sc.

(** ** Streams *)
Definition acquireServerStream (streamID : Z) (endHeaders endStream : bool) (initWin : Z) : serverStream :=
  mkStream streamID [] [] [] [] [] [] [] [] endHeaders endStream streamOpen initWin 0 false false None.
(** [serverStreamPool.Get]: the object it returns, and the pool after it. *)
Definition slot (sc : ServerConn) : nat :=
  match gets sc with k :: _ => default (List.length (heap sc)) (pool sc !! k) | [] => List.length (heap sc) end.
Definition pool_left (sc : ServerConn) : list nat := match gets sc with k :: _ => delete k (pool sc) | [] => pool sc end.
Definition store (h : list serverStream) (l : nat) (st : serverStream) : list serverStream :=
  if (l <? List.length h)%nat then <[l := st]> h else h ++ [st].
Definition newServerStream (sc : ServerConn) (streamID : Z) (endHeaders endStream : bool) : ServerConn * nat :=
  ({ sc with heap := store (heap sc) (slot sc) (acquireServerStream streamID endHeaders endStream (peerInitialWin sc));
             pool := pool_left sc; gets := tail (gets sc) }, slot sc).
Definition cancel_stream (sc : ServerConn) (l : nat) : ServerConn := set_obj sc l { obj sc l with cancelled := true }.
Definition releaseServerStream (sc : ServerConn) (l : nat) : ServerConn :=
  let st := obj sc l in
  let sc := set_obj sc l { st with cancelled := true; pipe := None; headerBlock := []; body := []; headers := [] } in
  { sc with pool := pool sc ++ [l] }.

Definition CONNECT : bytes := bytes_of_string "CONNECT".
Definition is_extended (st : serverStream) : bool := bool_decide (method st = CONNECT) && negb (bool_decide (protocol st = [])).
Definition startStream (sc : ServerConn) (l : nat) : ServerConn :=
  let st := obj sc l in
  let st := { st with state := if is_extended st then streamOpen else streamHalfClosedRemote } in
  { set_obj sc l st with spawned := spawned sc ++ [l] }.

(** [http.Header.Add]: the key in canonical form, the values of a key in order. *)
Definition token_char (c : Z) : bool :=
  ((48 <=? c) && (c <=? 57)) || ((65 <=? c) && (c <=? 90)) || ((97 <=? c) && (c <=? 122))
  || existsb (Z.eqb c) [33; 35; 36; 37; 38; 39; 42; 43; 45; 46; 94; 95; 96; 124; 126].
Fixpoint canonical_loop (upper : bool) (k : bytes) : bytes :=
  match k with
  | [] => []
  | c :: k' =>
      let c := if upper && (97 <=? c) && (c <=? 122) then c - 32
               else if negb upper && (65 <=? c) && (c <=? 90) then c + 32 else c in
      c :: canonical_loop (c =? 45) k'
  end.
Definition CanonicalMIMEHeaderKey (k : bytes) : bytes := if forallb token_char k then canonical_loop true k else k.
Definition Header_Add (h : list (bytes * bytes)) (k v : bytes) : list (bytes * bytes) := h ++ [(CanonicalMIMEHeaderKey k, v)].

(** *** Header blocks *)

(** A pseudo-header: each may be given once. *)
Definition set_pseudo (st : serverStream) (k v : bytes) : option serverStream :=
  if bool_decide (k = bytes_of_string ":method") then
    if bool_decide (method st = []) then Some { st with method := v } else None
  else if bool_decide (k = bytes_of_string ":path") then
    if bool_decide (path st = []) then Some { st with path := v } else None
  else if bool_decide (k = bytes_of_string ":scheme") then
    if bool_decide (scheme st = []) then Some { st with scheme := v } else None
  else if bool_decide (k = bytes_of_string ":authority") then
    if bool_decide (authority st = []) then Some { st with authority := v } else None
  else if bool_decide (k = bytes_of_string ":protocol") then
    if bool_decide (protocol st = []) then Some { st with protocol := v } else None
  else None.

(** One decoded field: the stream, and whether a regular field has been seen; no
    result is [ProtocolError]. *)
Definition add_field (st : serverStream) (regular : bool) (hf : HeaderField) : option (serverStream * bool) :=
  if Empty hf then Some (st, regular)
  else if negb (ValidateHeaderName (key hf) (IsPseudo hf)) then None
  else if negb (ValidateHeaderValue (value hf)) then None
  else if IsPseudo hf then
    if regular then None
    else match set_pseudo st (key hf) (value hf) with Some st => Some (st, regular) | None => None end
  else if IsConnectionSpecificHeader (key hf) (value hf) then None
  else Some ({ st with headers := Header_Add (headers st) (key hf) (value hf) }, true).

(** The loop over the block: the decoder, the stream, and the error code. *)
Fixpoint finish_loop (fuel : nat) (hp : HPACK) (st : serverStream) (regular : bool) (b : bytes) : HPACK * serverStream * option Z :=
  match fuel with
  | O => (hp, st, None)
  | S fuel' =>
      if zlen b >? 0 then
        match Hpack.Next hp empty_field b with
        | (hp, hf, b, Ok _) =>
            match add_field st regular hf with
            | Some (st, regular) => finish_loop fuel' hp st regular b
            | None => (hp, st, Some ProtocolError)
            end
        | (hp, _, _, _) => (hp, st, Some CompressionError)
        end
      else (hp, st, None)
  end.

(** The checks on the pseudo-headers. *)
Definition request_ok (sc : ServerConn) (st : serverStream) : bool :=
  let none x := bool_decide (x = @nil Z) in
  if none (method st) then false
  else if bool_decide (method st = CONNECT) then
    if negb (none (protocol st)) then
      EnableConnect sc && negb (none (scheme st) || none (path st) || none (authority st))
    else negb (negb (none (scheme st)) || negb (none (path st)) || none (authority st))
  else none (protocol st) && negb (none (scheme st) || none (path st)).

Definition finishHeaderBlock (sc : ServerConn) (l : nat) : ServerConn * option Z :=
  let st := obj sc l in
  let b := headerBlock st in
  let '(hp, st, e) := finish_loop (S (List.length b)) (BeginHeaderBlock (hpackDec sc)) st false b in
  let sc := set_obj { sc with hpackDec := hp } l st in
  match e with
  | Some c => (sc, Some c)
  | None =>
      if negb (request_ok sc st) then (sc, Some ProtocolError)
      else if endStream st || is_extended st then (startStream sc l, None) else (sc, None)
  end.

(** The handling of its error, the same in both callers. *)
Definition header_error (sc : ServerConn) (streamID : Z) (e : option Z) : ServerConn :=
  match e with
  | None => sc
  | Some c =>
      if c =? ProtocolError then fst (deleteStream (writeRstStream sc streamID ProtocolError) streamID)
      else closeWithGoAway sc (maxStreamID sc) c
  end.

(** ** The handler of the events *)
Definition OnStreamData_ (sc : ServerConn) (streamID : Z) (payload : bytes) (es : bool) : ServerConn :=
  if negb (continuationStream sc =? 0) then closeWithGoAway sc (maxStreamID sc) ProtocolError
  else if streamID >? maxStreamID sc then closeWithGoAway sc (maxStreamID sc) ProtocolError
  else
    let refuse :=
      let sc := if (zlen payload >? 0) && negb (isClosed sc) then sendWindowUpdateFrame sc 0 (u32 (zlen payload)) else sc in
      writeRstStream sc streamID StreamClosedError in
    match getStream sc streamID with
    | None => refuse
    | Some l =>
        let st := obj sc l in
        if bool_decide (state st = streamHalfClosedRemote) || bool_decide (state st = streamClosed) then refuse
        else if isTunnel st then
          let sc :=
            if zlen payload >? 0 then
              replenishReceiveWindow (match pipe st with Some p => pipe_write sc p payload | None => sc end) l (zlen payload)
            else sc in
          if es then
            let sc := set_obj sc l { obj sc l with endStream := true } in
            match pipe (obj sc l) with Some p => pipe_close sc p | None => sc end
          else sc
        else
          let sc := set_obj sc l { st with body := body st ++ payload } in
          let sc := if zlen payload >? 0 then replenishReceiveWindow sc l (zlen payload) else sc in
          if es then startStream (set_obj sc l { obj sc l with endStream := true }) l else sc
    end.

Definition OnHeaders_ (sc : ServerConn) (streamID : Z) (payload : bytes) (eh es : bool) : ServerConn :=
  if negb (continuationStream sc =? 0) then closeWithGoAway sc (maxStreamID sc) ProtocolError
  else if (streamID =? 0) || (streamID mod 2 =? 0) then closeWithGoAway sc (maxStreamID sc) ProtocolError
  else if streamID <=? maxStreamID sc then closeWithGoAway sc (maxStreamID sc) ProtocolError
  else
    let sc := { sc with maxStreamID := streamID } in
    let sc := if negb eh then { sc with continuationStream := streamID } else sc in
    let '(sc, l) := newServerStream sc streamID eh es in
    let sc := set_obj sc l { obj sc l with headerBlock := headerBlock (obj sc l) ++ payload } in
    let sc := putStream sc streamID l in
    if eh then let '(sc, e) := finishHeaderBlock sc l in header_error sc streamID e else sc.

Definition OnContinuation_ (sc : ServerConn) (streamID : Z) (payload : bytes) (eh : bool) : ServerConn :=
  if (continuationStream sc =? 0) || negb (continuationStream sc =? streamID) then closeWithGoAway sc (maxStreamID sc) ProtocolError
  else
    match getStream sc streamID with
    | None => closeWithGoAway sc (maxStreamID sc) ProtocolError
    | Some l =>
        let st := obj sc l in
        if zlen (headerBlock st) + zlen payload >? 65536 then closeWithGoAway sc (maxStreamID sc) EnhanceYourCalm
        else
          let sc := set_obj sc l { st with headerBlock := headerBlock st ++ payload } in
          if eh then
            let sc := { sc with continuationStream := 0 } in
            let sc := set_obj sc l { obj sc l with endHeaders := true } in
            let '(sc, e) := finishHeaderBlock sc l in header_error sc streamID e
          else sc
    end.

(** The windows of the streams in the table, by [delta]; no result if one would
    exceed the limit. *)
Fixpoint adjust_loop (delta : Z) (ls : list nat) (h : list serverStream) : list serverStream * bool :=
  match ls with
  | [] => (h, true)
  | l :: ls' =>
      let st := nth l h null_stream in
      if sendWindow st + delta >? Z.shiftl 1 31 - 1 then (h, false)
      else adjust_loop delta ls' (<[l := { st with sendWindow := i32 (sendWindow st + delta) }]> h)
  end.
Definition table_list (sc : ServerConn) : list nat := concat (map (fun m => map snd (map_to_list m)) (streamShards sc)).

(** One parameter, and whether the loop goes on. *)
Definition apply_setting (sc : ServerConn) (id val : Z) : ServerConn * bool :=
  if id =? 1 then ({ sc with hpackDec := SetMaxTableSize (hpackDec sc) val }, true)
  else if id =? 2 then
    if negb (val =? 0) && negb (val =? 1) then (closeWithGoAway sc (maxStreamID sc) ProtocolError, false) else (sc, true)
  else if id =? 4 then
    if val >? 0x7fffffff then (closeWithGoAway sc (maxStreamID sc) FlowControlError, false)
    else
      let newWin := i32 val in
      let delta := i32 (newWin - peerInitialWin sc) in
      let sc := { sc with peerInitialWin := newWin } in
      let '(h, ok) := adjust_loop delta (table_list sc) (heap sc) in
      let sc := { sc with heap := h } in
      if ok then (sc, true) else (closeWithGoAway sc (maxStreamID sc) FlowControlError, false)
  else if id =? 5 then
    if (val <? 16384) || (val >? 16777215) then (closeWithGoAway sc (maxStreamID sc) ProtocolError, false)
    else ({ sc with peerMaxFrameSize := val }, true)
  else (sc, true).
Fixpoint settings_loop (sc : ServerConn) (payload : bytes) : ServerConn * bool :=
  match payload with
  | a :: b :: c :: d :: e :: f :: rest =>
      let '(sc, go) := apply_setting sc (be_get [a; b]) (be_get [c; d; e; f]) in
      if go : bool then settings_loop sc rest else (sc, false)
  | _ => (sc, true)
  end.

(** A write that must succeed. *)
Definition or_fail (r : ServerConn * bool) : ServerConn :=
  if snd r then fst r else { fst r with closeErr := Some CloseWrite; isClosed := true }.

Definition OnSettings_ (sc : ServerConn) (payload : bytes) (ack : bool) : ServerConn :=
  if negb (continuationStream sc =? 0) then closeWithGoAway sc (maxStreamID sc) ProtocolError
  else if ack then
    if zlen payload >? 0 then closeWithGoAway sc (maxStreamID sc) FrameSizeError else sc
  else if negb (zlen payload mod 6 =? 0) then closeWithGoAway sc (maxStreamID sc) FrameSizeError
  else
    let '(sc, go) := settings_loop sc payload in
    if go : bool then or_fail (sendSettings sc Settings_Reset true) else sc.

Definition OnPing_ (sc : ServerConn) (stale payload : bytes) (ack : bool) : ServerConn :=
  if negb (continuationStream sc =? 0) then closeWithGoAway sc (maxStreamID sc) ProtocolError
  else if ack then sc else or_fail (writePingAck sc stale payload).

Definition OnWindowUpdate_ (sc : ServerConn) (streamID increment : Z) : ServerConn :=
  if negb (continuationStream sc =? 0) then closeWithGoAway sc (maxStreamID sc) ProtocolError
  else if (increment =? 0) || (increment >? 0x7fffffff) then
    if streamID =? 0 then closeWithGoAway sc (maxStreamID sc) ProtocolError else writeRstStream sc streamID ProtocolError
  else if streamID >? maxStreamID sc then closeWithGoAway sc (maxStreamID sc) ProtocolError
  else if streamID =? 0 then
    match updateConnSendWindow sc (i32 increment) with
    | Some sc => sc
    | None => closeWithGoAway sc (maxStreamID sc) FlowControlError
    end
  else
    match getStream sc streamID with
    | None => sc
    | Some l =>
        match updateStreamSendWindow sc l (i32 increment) with
        | Some sc => sc
        | None =>
            let sc := writeRstStream sc streamID FlowControlError in
            match deleteStream sc streamID with
            | (sc, Some l) => cancel_stream sc l
            | (sc, None) => sc
            end
        end
    end.

Definition OnPriority_ (sc : ServerConn) : ServerConn :=
  if negb (continuationStream sc =? 0) then closeWithGoAway sc (maxStreamID sc) ProtocolError else sc.
Definition OnUnknownFrame_ (sc : ServerConn) (frameType : Z) : ServerConn :=
  if negb (continuationStream sc =? 0) then closeWithGoAway sc (maxStreamID sc) ProtocolError
  else if frameType =? 0x05 then closeWithGoAway sc (maxStreamID sc) ProtocolError
  else sc.

Definition OnStreamReset_ (sc : ServerConn) (streamID : Z) : ServerConn :=
  if negb (continuationStream sc =? 0) then closeWithGoAway sc (maxStreamID sc) ProtocolError
  else if (streamID =? 0) || (streamID >? maxStreamID sc) then closeWithGoAway sc (maxStreamID sc) ProtocolError
  else
    match deleteStream sc streamID with
    | (sc, Some l) =>
        let sc := cancel_stream sc l in
        match pipe (obj sc l) with Some p => pipe_close sc p | None => sc end
    | (sc, None) => sc
    end.
Definition OnGoAway_ (sc : ServerConn) : ServerConn := { sc with closeErr := None; isClosed := true }.

Definition handle (stale : bytes) (sc : ServerConn) (ev : h2_event) : ServerConn :=
  match ev with
  | OnStreamData sid p es => OnStreamData_ sc sid p es
  | OnHeaders sid p eh es => OnHeaders_ sc sid p eh es
  | OnContinuation sid p eh => OnContinuation_ sc sid p eh
  | OnSettings p ack => OnSettings_ sc p ack
  | OnPing p ack => OnPing_ sc stale p ack
  | OnWindowUpdate sid n => OnWindowUpdate_ sc sid n
  | OnStreamReset sid _ => OnStreamReset_ sc sid
  | OnGoAway _ _ => OnGoAway_ sc
  | OnPriority _ _ => OnPriority_ sc
  | OnUnknownFrame _ t _ _ => OnUnknownFrame_ sc t
  end.

(** ** Responses *)

(** [strconv.AppendInt] in base ten; twenty digits are enough for 64 bits. *)
Fixpoint digits (fuel : nat) (n : Z) : bytes :=
  match fuel with
  | O => []
  | S fuel' => (if n <? 10 then [] else digits fuel' (n / 10)) ++ [48 + n mod 10]
  end.
Definition decimal (n : Z) : bytes := if n <? 0 then 45 :: digits 20 (- n) else digits 20 n.

Definition known_status : list Z := [200; 204; 206; 301; 302; 304; 400; 401; 403; 404; 500; 502; 503].
Definition known_texts : list string := ["200"; "204"; "206"; "301"; "302"; "304"; "400"; "401"; "403"; "404"; "500"; "502"; "503"]%string.
Definition statusCodeToBytes (code : Z) : option bytes :=
  snd <$> find (fun kv => code =? fst kv) (combine known_status (map bytes_of_string known_texts)).

(** The names left out of a response. *)
Definition dropped_names : list string := ["connection"; "transfer-encoding"; "keep-alive"; "upgrade"]%string.
Definition is_dropped (k : bytes) : bool := existsb (fun n => bool_decide (ToLowerCopy k = bytes_of_string n)) dropped_names.

Definition AppendHeaderField (hp : HPACK) (raw : bytes) (hf : HeaderField) (store : bool) : HPACK * bytes := AppendHeader hp raw hf store.
(** The loops over the values of a name and over the names. *)
Fixpoint append_values (hp : HPACK) (raw kLower : bytes) (vv : list bytes) : HPACK * bytes :=
  match vv with
  | [] => (hp, raw)
  | v :: vv' => let '(hp, raw) := AppendHeaderField hp raw (SetBytes empty_field kLower v) false in append_values hp raw kLower vv'
  end.
Fixpoint append_headers (hp : HPACK) (raw : bytes) (hs : list (bytes * list bytes)) : HPACK * bytes :=
  match hs with
  | [] => (hp, raw)
  | (k, vv) :: hs' =>
      if is_dropped k then append_headers hp raw hs'
      else let '(hp, raw) := append_values hp raw (ToLowerCopy k) vv in append_headers hp raw hs'
  end.
Definition SerializeResponseHeaders (hp : HPACK) (statusCode : Z) (hs : list (bytes * list bytes)) (bodyLen : Z) : HPACK * bytes :=
  let hf := SetKeyBytes empty_field (bytes_of_string ":status") in
  let hf := SetValueBytes hf (match statusCodeToBytes statusCode with Some b => b | None => decimal statusCode end) in
  let '(hp, raw) := AppendHeaderField hp [] hf false in
  let '(hp, raw) :=
    if bodyLen >=? 0 then
      let hf := SetKeyBytes hf (bytes_of_string "content-length") in
      let hf := SetValueBytes hf (if bodyLen =? 0 then bytes_of_string "0" else decimal bodyLen) in
      AppendHeaderField hp raw hf false
    else (hp, raw) in
  append_headers hp raw hs.

(** The HEADERS frame of a response. *)
Definition write_header_frame (sc : ServerConn) (streamID statusCode : Z) (hs : list (bytes * list bytes)) (bodyLen : Z) (es : bool) : ServerConn * bool :=
  let '(hp, raw) := SerializeResponseHeaders (hpackEnc sc) statusCode hs bodyLen in
  let sc := { sc with hpackEnc := hp } in
  write_frame sc streamID (if es then Z.lor FlagEndHeaders FlagEndStream else FlagEndHeaders) (FHeaders { Headers_Reset with h_rawHeaders := raw }).
Definition writeHeaders (sc : ServerConn) (streamID statusCode : Z) (hs : list (bytes * list bytes)) (es : bool) : ServerConn * bool :=
  write_header_frame sc streamID statusCode hs (-1) es.

(** The loop over the body, the same in [writeStreamData] and [writeResponse]. *)
Definition maxChunk (sc : ServerConn) : Z := if peerMaxFrameSize sc >? 0 then peerMaxFrameSize sc else DefaultMaxLen.
Fixpoint data_loop (fuel : nat) (sc : ServerConn) (streamID mc : Z) (b : bytes) (es : bool) : ServerConn * bool :=
  match fuel with
  | O => (sc, true)
  | S fuel' =>
      if zlen b >? 0 then
        let chunkSize := Z.min (zlen b) mc in
        let chunk := ztake chunkSize b in
        let b := zdrop chunkSize b in
        let '(sc, ok) := write_frame sc streamID (if es && (zlen b =? 0) then FlagEndStream else 0) (FData { Data_Reset with d_b := chunk }) in
        if ok : bool then data_loop fuel' sc streamID mc b es else (sc, false)
      else (sc, true)
  end.

Definition writeStreamData (sc : ServerConn) (streamID : Z) (b : bytes) (es : bool) : ServerConn * option Z :=
  if zlen b =? 0 then
    if es then
      let '(sc, ok) := write_frame sc streamID FlagEndStream (FData Data_Reset) in (sc, if ok : bool then Some 0 else None)
    else (sc, Some 0)
  else
    let '(sc, ok) := data_loop (S (List.length b)) sc streamID (maxChunk sc) b es in
    (sc, if ok : bool then Some (zlen b) else None).

Definition writeResponse (sc : ServerConn) (streamID : Z) (res : ServerResponse) : ServerConn * bool :=
  let b := res_Body res in
  let '(sc, ok) := write_header_frame sc streamID (res_StatusCode res) (res_Headers res) (zlen b) (zlen b =? 0) in
  if negb ok then (sc, false)
  else if zlen b >? 0 then data_loop (S (List.length b)) sc streamID (maxChunk sc) b true else (sc, true).

(** ** Serving a stream *)

(** The start of [dispatchStream], on the goroutine number [i] of [spawned]. *)
Definition dispatch_begin (sc : ServerConn) (i : nat) : ServerConn :=
  match spawned sc !! i with
  | None => sc
  | Some l =>
      let sc := { sc with spawned := delete i (spawned sc) } in
      let isExt := is_extended (obj sc l) in
      let '(sc, adapter) :=
        if isExt then
          let p := List.length (pipes sc) in
          (set_obj { sc with pipes := pipes sc ++ [mkPipe [] false] } l { obj sc l with pipe := Some p }, Some (p, false))
        else (sc, None) in
      let st := obj sc l in
      let req := mkRequest (stream_id st) (method st) (path st) (scheme st) (authority st) (protocol st) (headers st) (body st) isExt in
      { sc with dispatches := dispatches sc ++ [mkDispatch l req adapter false] }
  end.

(** The calls a running handler makes; [j] is its dispatch. *)
Definition UpgradeFn (sc : ServerConn) (j : nat) (statusCode : Z) (hs : list (bytes * list bytes)) : ServerConn * bool :=
  match dispatches sc !! j with
  | None => (sc, false)
  | Some d =>
      let l := dp_stream d in
      let sc := set_obj sc l { obj sc l with isTunnel := true } in
      writeHeaders sc (stream_id (obj sc l)) statusCode hs false
  end.
Definition adapter_Write (sc : ServerConn) (j : nat) (b : bytes) : ServerConn * option Z :=
  match dispatches sc !! j with
  | Some d => match dp_adapter d with
              | Some (_, false) => writeStreamData sc (req_StreamID (dp_req d)) b false
              | _ => (sc, None)
              end
  | None => (sc, None)
  end.
Definition adapter_Close (sc : ServerConn) (j : nat) : ServerConn :=
  match dispatches sc !! j with
  | Some d => match dp_adapter d with
              | Some (p, false) =>
                  let sc := { sc with dispatches := <[j := { d with dp_adapter := Some (p, true) }]> (dispatches sc) } in
                  fst (writeStreamData (pipe_close sc p) (req_StreamID (dp_req d)) [] true)
              | _ => sc
              end
  | None => sc
  end.

(** The rest of [dispatchStream], from the return of the handler. *)
Definition dispatch_end (sc : ServerConn) (j : nat) (res : ServerResponse) : ServerConn :=
  match dispatches sc !! j with
  | None => sc
  | Some d =>
      let l := dp_stream d in
      let id := stream_id (obj sc l) in
      let sc := if isTunnel (obj sc l) then adapter_Close sc j else fst (writeResponse sc id res) in
      let sc := set_obj sc l { obj sc l with state := streamClosed } in
      let sc := adapter_Close sc j in
      let sc := releaseServerStream (fst (deleteStream sc id)) l in
      { sc with dispatches := alter (fun d => { d with dp_done := true }) j (dispatches sc) }
  end.

(** ** The connection *)
Definition initial_settings (sc : ServerConn) : Settings :=
  mkSettings false [] 0 false 1000 65535 DefaultMaxLen 0 (EnableConnect sc).
(** [Serve] up to the loop: the preface and the settings. *)
Definition Serve_start (sc : ServerConn) (preface : bytes) : ServerConn * bool :=
  if negb (ReadPreface preface) then (sc, false) else sendSettings sc (initial_settings sc) false.

(** One iteration of [readLoop]; [false] when the loop has ended. *)
Definition handle_all (stale : ServerConn -> bytes) (sc : ServerConn) (evs : list h2_event) : ServerConn :=
  fold_left (fun sc ev => handle (stale sc) sc ev) evs sc.
Definition readLoop_step (stale : ServerConn -> bytes) (sc : ServerConn) (b : ReadBuf) (read : bytes) : res h2_error (ServerConn * ReadBuf) :=
  if isClosed sc then Ok (sc, b)
  else let* x := readLoop_pass b read in Ok (handle_all stale sc (snd x), fst x).
Fixpoint readLoop (stale : ServerConn -> bytes) (sc : ServerConn) (b : ReadBuf) (reads : list bytes) : res h2_error (ServerConn * ReadBuf) :=
  match reads with
  | [] => Ok (sc, b)
  | r :: reads' => let* x := readLoop_step stale sc b r in readLoop stale (fst x) (snd x) reads'
  end.

(** What [Serve] does when it returns, before it waits for the goroutines. *)
Fixpoint stop_streams (ls : list nat) (sc : ServerConn) : ServerConn :=
  match ls with
  | [] => sc
  | l :: ls' =>
      let sc := cancel_stream sc l in
      stop_streams ls' (match pipe (obj sc l) with Some p => pipe_close sc p | None => sc end)
  end.
Definition Serve_end (sc : ServerConn) : ServerConn :=
  let sc := { sc with isClosed := true; ctxDone := true } in
  let sc := stop_streams (table_list sc) sc in
  { sc with streamShards := map (fun _ => ∅) (streamShards sc) }.
Definition Close (sc : ServerConn) : ServerConn :=
  if isClosed sc then sc else { sc with isClosed := true; ctxDone := true; broken := true }.
Definition Release (sc : ServerConn) : ServerConn :=
  { sc with isClosed := true; ctxDone := true; broken := true; streamShards := map (fun _ => ∅) (streamShards sc) }.
