(* ===== verification/H2ServerInv.v ===== *)
(** * The invariant of an HTTP/2 server connection

    Over [H2Server]: every step of a connection, an event from the peer, a call of
    a handler, the end of a goroutine or of the connection, keeps the stream table
    and the streams consistent; the requests that reach the handlers are well
    formed. *)

From Stdlib Require Import Ascii String.
From stdpp Require Import gmap.
From S2P Require Import Prelude Intern HpackInt Huffman Hpack H2Frames H2Fsm H2Server.
Open Scope Z_scope.

(** ** Well-formed requests *)

(** The pseudo-headers are those RFC 9113 and RFC 8441 ask for, nothing contains
    NUL, CR or LF, and the headers come from valid names that are not
    connection-specific. *)
Definition header_fine (kv : bytes * bytes) : Prop :=
  ValidateHeaderValue (snd kv) = true /\
  exists k, fst kv = CanonicalMIMEHeaderKey k /\ ValidateHeaderName k false = true /\ IsConnectionSpecificHeader k (snd kv) = false.
Definition pseudo_fine (connect : bool) (m p s a pr : bytes) : Prop :=
  m <> [] /\
  (m = CONNECT /\ pr <> [] -> connect = true /\ s <> [] /\ p <> [] /\ a <> []) /\
  (m = CONNECT /\ pr = [] -> s = [] /\ p = [] /\ a <> []) /\
  (m <> CONNECT -> pr = [] /\ s <> [] /\ p <> []).
Definition clean (l : list bytes) : Prop := Forall (fun v => ValidateHeaderValue v = true) l.
Definition texts_fine (st : serverStream) : Prop :=
  clean [method st; path st; scheme st; authority st; protocol st] /\ Forall header_fine (headers st).
Definition fields_fine (connect : bool) (st : serverStream) : Prop :=
  pseudo_fine connect (method st) (path st) (scheme st) (authority st) (protocol st) /\ texts_fine st.
Definition request_fine (connect : bool) (r : ServerRequest) : Prop :=
  pseudo_fine connect (req_Method r) (req_Path r) (req_Scheme r) (req_Authority r) (req_Protocol r)
  /\ clean [req_Method r; req_Path r; req_Scheme r; req_Authority r; req_Protocol r] /\ Forall header_fine (req_Headers r)
  /\ 0 < req_StreamID r /\ Z.odd (req_StreamID r) = true.

(** ** The invariant *)

(** The streams goroutines are serving, or about to. *)
Definition undone (d : dispatch) : bool := negb (dp_done d).
Definition started (sc : ServerConn) : list nat := spawned sc ++ map dp_stream (List.filter undone (dispatches sc)).
(** The numbers of the streams whose requests have been handed out, but for
    extended CONNECT. *)
Definition ordinary (d : dispatch) : bool := negb (req_IsExtendedConnect (dp_req d)).
Definition handed (ds : list dispatch) : list Z := map (fun d => req_StreamID (dp_req d)) (List.filter ordinary ds).
Definition live (sc : ServerConn) (l : nat) : Prop := (l < List.length (heap sc))%nat.
(** What stays true of the request of a goroutine and its stream. *)
Definition request_of (d : dispatch) (st : serverStream) : Prop :=
  req_StreamID (dp_req d) = stream_id st /\ req_IsExtendedConnect (dp_req d) = is_extended st.

(** The state machine does not stop when a handler closes the connection: [late]
    says that an event has been handled after that. *)
Section invariant.
Context (late : bool).

Record inv (sc : ServerConn) : Prop := {
  i_shards : List.length (streamShards sc) = 16%nat;
  i_shard : forall i m id l, streamShards sc !! i = Some m -> m !! id = Some l -> i = shard_of id;
  i_table : forall id l, getStream sc id = Some l -> live sc l /\ stream_id (obj sc l) = id;
  i_ids : forall l, live sc l -> 0 < stream_id (obj sc l) <= maxStreamID sc /\ Z.odd (stream_id (obj sc l)) = true;
  i_distinct : forall l l', live sc l -> live sc l' -> stream_id (obj sc l) = stream_id (obj sc l') -> l = l';
  i_last : 0 <= maxStreamID sc < 2 ^ 31;
  i_texts : forall l, live sc l -> texts_fine (obj sc l);
  i_ready : late = false -> isClosed sc = false -> forall id l, getStream sc id = Some l ->
    id = continuationStream sc \/ fields_fine (EnableConnect sc) (obj sc l);
  i_started : forall l, In l (started sc) -> live sc l
    /\ stream_id (obj sc l) <> continuationStream sc /\ (is_extended (obj sc l) = false -> state (obj sc l) <> streamOpen);
  i_sound : late = false -> forall l, In l (started sc) -> fields_fine (EnableConnect sc) (obj sc l);
  i_once : forall l, is_extended (obj sc l) = false -> (count_occ Nat.eq_dec (started sc) l <= 1)%nat;
  i_requests : Forall (fun d => (late = false -> request_fine (EnableConnect sc) (dp_req d))
    /\ (dp_done d = false -> request_of d (obj sc (dp_stream d)))) (dispatches sc);
  i_init : 0 <= peerInitialWin sc < 2 ^ 31;
  i_conn : 65535 <= connSendWindow sc < 2 ^ 31;
  i_window : isClosed sc = false -> forall id l, getStream sc id = Some l -> peerInitialWin sc <= sendWindow (obj sc l) < 2 ^ 31;
  i_recv : 0 <= connRecvUnacked sc < minWindowUpdateBatch;
  i_unacked : forall l, live sc l -> 0 <= recvUnacked (obj sc l) < minWindowUpdateBatch;
  i_pool : NoDup (pool sc) /\ forall l, In l (pool sc) -> live sc l /\ ~ In l (started sc) /\ forall id, getStream sc id <> Some l;
  i_done : Forall (fun d => dp_done d = true -> req_StreamID (dp_req d) <= maxStreamID sc
    /\ getStream sc (req_StreamID (dp_req d)) = None
    /\ forall l, In l (started sc) -> stream_id (obj sc l) <> req_StreamID (dp_req d)) (dispatches sc);
  i_handed : NoDup (handed (dispatches sc))
}.

(** A step that leaves what the invariant is about alone. *)
Ltac keep H := let H' := fresh in pose proof H as H'; destruct H'; split; try assumption; try done.

(** ** The heap and the table *)
Lemma i32_id x : - 2 ^ 31 <= x < 2 ^ 31 -> i32 x = x.
Proof. intros. unfold i32. destruct (Z.lt_ge_cases x 0).
  - replace (x mod 2 ^ 32) with (x + 2 ^ 32) by (rewrite <- (Z.mod_add x 1) by lia; rewrite Z.mod_small; lia). test_false (x + 2 ^ 32 <? 2 ^ 31). lia.
  - rewrite Z.mod_small by lia. by test_true (x <? 2 ^ 31).
Qed.

Lemma nth_insert {A} (h : list A) l l' x d : (l < List.length h)%nat -> nth l' (<[l := x]> h) d = if decide (l = l') then x else nth l' h d.
Proof.
  intros Hl. rewrite !nth_lookup. destruct (decide (l = l')) as [<-|Hn].
  - by rewrite list_lookup_insert_eq.
  - by rewrite list_lookup_insert_ne.
Qed.
Lemma obj_set sc l l' st : live sc l -> obj (set_obj sc l st) l' = if decide (l = l') then st else obj sc l'.
Proof. intros Hl. unfold obj, set_obj. change (heap { sc with heap := ?h }) with h. by apply nth_insert. Qed.
Lemma obj_set_eq sc l st : live sc l -> obj (set_obj sc l st) l = st.
Proof. intros Hl. rewrite obj_set by done. by rewrite decide_True. Qed.
Lemma live_set sc l l' st : live (set_obj sc l st) l' <-> live sc l'.
Proof. unfold live, set_obj. change (heap { sc with heap := ?h }) with h. by rewrite length_insert. Qed.

Lemma shard_range id : (shard_of id < 16)%nat.
Proof. unfold shard_of, streamShardsCount. change (16 - 1) with (2 ^ 4 - 1). rewrite land_mask by lia. pose proof (Z.mod_pos_bound (Z.shiftr id 1) (2 ^ 4) ltac:(lia)). lia. Qed.

Section table.
Context (sc : ServerConn) (Hs : List.length (streamShards sc) = 16%nat).

Lemma shard_there id : exists m, streamShards sc !! shard_of id = Some m.
Proof. apply lookup_lt_is_Some_2. rewrite Hs. apply shard_range. Qed.

Lemma get_put id l id' : getStream (putStream sc id l) id' = if decide (id' = id) then Some l else getStream sc id'.
Proof.
    unfold getStream, putStream. change (streamShards { sc with streamShards := ?x }) with x.
    destruct (decide (shard_of id' = shard_of id)) as [E|E].
    - rewrite E, list_lookup_alter_eq. destruct (shard_there id) as [m ->]. cbn [fmap option_fmap option_map].
      destruct (decide (id' = id)) as [->|Hn]; [by rewrite lookup_insert_eq|by rewrite lookup_insert_ne].
    - rewrite list_lookup_alter_ne by done. destruct (decide (id' = id)) as [->|]; done.
Qed.
Lemma get_delete id id' : getStream (fst (deleteStream sc id)) id' = if decide (id' = id) then None else getStream sc id'.
Proof.
    unfold deleteStream. destruct (getStream sc id) as [l|] eqn:Eg; cbn [fst].
    2: { destruct (decide (id' = id)) as [->|]; done. }
    unfold getStream in *. change (streamShards { sc with streamShards := ?x }) with x.
    destruct (decide (shard_of id' = shard_of id)) as [E|E].
    - rewrite E, list_lookup_alter_eq. destruct (shard_there id) as [m ->]. cbn [fmap option_fmap option_map].
      destruct (decide (id' = id)) as [->|Hn]; [by rewrite lookup_delete_eq|by rewrite lookup_delete_ne].
    - rewrite list_lookup_alter_ne by done. destruct (decide (id' = id)) as [->|]; done.
Qed.
Lemma deleteStream_eq id : exists sh, fst (deleteStream sc id) = { sc with streamShards := sh } /\ List.length sh = 16%nat
    /\ (forall i m id' l, sh !! i = Some m -> m !! id' = Some l -> exists m', streamShards sc !! i = Some m' /\ m' !! id' = Some l).
Proof.
    unfold deleteStream. destruct (getStream sc id) as [l|] eqn:Eg; cbn [fst].
    2: { exists (streamShards sc). split; [done|]. split; [done|]. eauto. }
    eexists. split; [reflexivity|]. split; [by rewrite length_alter|]. intros i m id' l'. destruct (decide (i = shard_of id)) as [->|Hn].
    - rewrite list_lookup_alter_eq. destruct (shard_there id) as [m' ->]. cbn. intros [= <-] Hm. exists m'. split; [done|]. by apply lookup_delete_Some in Hm as [_ ?].
    - rewrite list_lookup_alter_ne by done. eauto.
Qed.
End table.

(** ** Updates of a stream *)
Lemma undone_started sc d : In d (dispatches sc) -> dp_done d = false -> In (dp_stream d) (started sc).
Proof. intros Hd Hn. apply in_app_iff. right. apply in_map, filter_In. split; [done|]. unfold undone. by rewrite Hn. Qed.
Lemma count_absent l ls : ~ In l ls -> count_occ Nat.eq_dec ls l = 0%nat.
Proof. apply count_occ_not_In. Qed.

Lemma inv_set sc l st :
  inv sc -> live sc l -> stream_id st = stream_id (obj sc l) ->
  (texts_fine (obj sc l) -> texts_fine st) ->
  (stream_id (obj sc l) = continuationStream sc /\ ~ In l (started sc) \/ (fields_fine (EnableConnect sc) (obj sc l) -> fields_fine (EnableConnect sc) st)) ->
  (is_extended st = is_extended (obj sc l) \/ ~ In l (started sc)) ->
  (is_extended st = false -> state (obj sc l) <> streamOpen -> state st <> streamOpen) ->
  (peerInitialWin sc <= sendWindow (obj sc l) < 2 ^ 31 -> peerInitialWin sc <= sendWindow st < 2 ^ 31) ->
  0 <= recvUnacked st < minWindowUpdateBatch ->
  inv (set_obj sc l st).
Proof.
  intros [H1 H2 H3 H4 H5 H6 HT H7 H8 HS H9 H10 H11 H12 H13 H14 H15 HP HD HN] Hl Hid Ht Hf He Hst Hw Hr.
  assert (Hobj : forall l', obj (set_obj sc l st) l' = if decide (l = l') then st else obj sc l') by (intros; by apply obj_set).
  assert (Hids : forall l', stream_id (obj (set_obj sc l st) l') = stream_id (obj sc l')) by (intros l'; rewrite Hobj; by destruct (decide (l = l')) as [<-|]).
  split; try assumption; try done.
  - intros id l' Hg. rewrite live_set, Hids. by apply H3.
  - intros l'. rewrite live_set, Hids. apply H4.
  - intros l1 l2. rewrite !live_set, !Hids. apply H5.
  - intros l'. rewrite live_set, Hobj. destruct (decide (l = l')) as [<-|]; [intros _; by apply Ht, HT|apply HT].
  - intros H0 Hc id l' Hg. destruct (H7 H0 Hc id l' Hg) as [->|Hx]; [by left|]. rewrite Hobj. destruct (decide (l = l')) as [<-|]; [|by right].
    destruct Hf as [[Hf _]|Hf]; [left|right; by apply Hf]. destruct (H3 id l Hg) as [_ <-]. exact Hf.
  - intros l' Hin. destruct (H8 l' Hin) as (Ha & Hc & Hd). rewrite live_set, Hids. split; [done|]. rewrite Hobj.
    destruct (decide (l = l')) as [<-|]; [|done]. split; [done|]. intros Hx. apply (Hst Hx), Hd. destruct He as [<-|]; [done|by destruct H].
  - intros H0 l' Hin. specialize (HS H0 l' Hin). rewrite Hobj. destruct (decide (l = l')) as [<-|]; [|done]. destruct Hf as [[_ Hf]|Hf]; [done|by apply Hf].
  - intros l'. rewrite Hobj. destruct (decide (l = l')) as [<-|]; [|apply H9]. intros Hx. destruct He as [He|He]; [apply H9; by rewrite <- He|].
    change (started (set_obj sc l st)) with (started sc). rewrite count_absent by done. lia.
  - rewrite Forall_forall in *. intros d Hd. destruct (H10 d Hd) as [Hd1 Hd2]. split; [exact Hd1|]. intros Hn. destruct (Hd2 Hn) as [E1 E2].
    split; [by rewrite Hids|]. rewrite Hobj. destruct (decide (l = dp_stream d)) as [E|]; [|done]. destruct He as [->|He]; [by rewrite E|].
    destruct He. rewrite E. by apply undone_started.
  - intros Hc id l' Hg. rewrite Hobj. destruct (decide (l = l')) as [<-|]; [by apply Hw, (H13 Hc id)|by apply (H13 Hc id)].
  - intros l'. rewrite live_set, Hobj. destruct (decide (l = l')); [done|apply H15].
  - destruct HP as [HP1 HP2]. split; [done|]. intros l'. rewrite live_set. apply HP2.
  - eapply Forall_impl; [|exact HD]. intros d Hd Hx. destruct (Hd Hx) as (Ha & Hb & Hc). split; [done|]. split; [done|]. intros l' Hin. rewrite Hids. by apply Hc.
Qed.

(** A change of a field that does not matter. *)
Ltac minor H :=
  apply inv_set; [exact H| |reflexivity|exact (fun x => x)|right; exact (fun x => x)|left; reflexivity|exact (fun _ x => x)|exact (fun x => x)|].

Lemma obj_in_table sc id l : inv sc -> getStream sc id = Some l -> live sc l /\ stream_id (obj sc l) = id /\ 0 <= recvUnacked (obj sc l) < minWindowUpdateBatch.
Proof. intros Hi Hg. destruct (i_table sc Hi id l Hg) as [Hl He]. split; [done|]. split; [done|]. by apply (i_unacked sc Hi). Qed.

(** ** Writing *)
Lemma write_out sc sid fl b : exists o, fst (write_frame sc sid fl b) = { sc with out := o }.
Proof.
  unfold write_frame. destruct (WriteTo _) as [[f bs]|e|]; [destruct (broken sc)|..]; cbn [fst]; by eexists.
Qed.
Lemma inv_out sc o : inv sc -> inv { sc with out := o }.
Proof. intros H. keep H. Qed.
Lemma inv_write sc sid fl b : inv sc -> inv (fst (write_frame sc sid fl b)).
Proof. intros H. destruct (write_out sc sid fl b) as [o ->]. by apply inv_out. Qed.
Lemma goaway_eq sc m c : exists o, closeWithGoAway sc m c = { sc with out := o; closeErr := Some (CloseCode c); isClosed := true }.
Proof.
  unfold closeWithGoAway, writeGoAway. destruct (write_out sc 0 0 (FGoAway (GoAway_SetCode (GoAway_SetStream GoAway_Reset m) c))) as [o Eo].
  destruct (write_frame _ _ _ _) as [sc' b]. cbn [fst] in Eo. subst sc'. by exists o.
Qed.
Lemma inv_goaway sc m c : inv sc -> inv (closeWithGoAway sc m c).
Proof. intros H. destruct (goaway_eq sc m c) as [o ->]. keep H. Qed.
Lemma inv_rst sc id c : inv sc -> inv (writeRstStream sc id c).
Proof. apply inv_write. Qed.
Lemma inv_fail r : inv (fst r) -> inv (or_fail r).
Proof. intros H. unfold or_fail. destruct (snd r); [done|]. keep H. Qed.
Lemma inv_pipes sc ps : inv sc -> inv { sc with pipes := ps }.
Proof. intros H. keep H. Qed.
Create HintDb h2inv.
#[local] Hint Resolve inv_out inv_write inv_goaway inv_rst inv_fail inv_pipes : h2inv.

Lemma batched_out sc n o m : exists o', sendBatchedWindowUpdates sc n o m = { sc with out := o' }.
Proof.
  unfold sendBatchedWindowUpdates. destruct (isClosed sc); [by eexists|].
  assert (Hw : exists o1 b, (if n >? 0 then write_frame sc 0 0 (FWindowUpdate (mkWU n)) else (sc, true)) = ({ sc with out := o1 }, b)).
  { destruct (n >? 0); [|by exists (out sc), true]. destruct (write_out sc 0 0 (FWindowUpdate (mkWU n))) as [o1 E]. destruct (write_frame _ _ _ _) as [sc1 b].
    cbn [fst] in E. subst sc1. by eexists _, _. }
  destruct Hw as (o1 & b & ->). destruct (negb b); [by eexists|]. destruct o as [sid|]; [|by eexists]. destruct (m >? 0); [|by eexists].
  destruct (write_out { sc with out := o1 } sid 0 (FWindowUpdate (mkWU m))) as [o2 ->]. by eexists.
Qed.

Lemma set_obj_self sc l : live sc l -> set_obj sc l (obj sc l) = sc.
Proof. intros Hl. unfold set_obj, obj. rewrite list_insert_id; [done|]. rewrite nth_lookup. by destruct (lookup_lt_is_Some_2 (heap sc) l Hl) as [x ->]. Qed.

(** What [replenishReceiveWindow] does to the connection. *)
Lemma replenish_eq sc l n :
  inv sc -> live sc l -> 0 <= n < 2 ^ 24 ->
  exists o c r, 0 <= c < minWindowUpdateBatch /\ 0 <= r < minWindowUpdateBatch /\
  replenishReceiveWindow sc l n = { set_obj sc l { obj sc l with recvUnacked := r } with out := o; connRecvUnacked := c }.
Proof.
  intros Hi Hl Hn. pose proof (i_recv sc Hi) as Hc. pose proof (i_unacked sc Hi l Hl) as Hr.
  pose proof (set_obj_self sc l Hl) as Hself.
  unfold replenishReceiveWindow. destruct (_ || _).
  { exists (out sc), (connRecvUnacked sc), (recvUnacked (obj sc l)). split; [done|]. split; [done|].
    change ({ obj sc l with recvUnacked := recvUnacked (obj sc l) }) with (obj sc l). by rewrite Hself. }
  cbv zeta. unfold minWindowUpdateBatch in *. rewrite (i32_id (connRecvUnacked sc + n)) by lia.
  set (ct := connRecvUnacked sc + n) in *.
  set (p1 := if ct >=? 32768 then _ else _).
  assert (E1 : exists c inc, p1 = ({ sc with connRecvUnacked := c }, inc) /\ 0 <= c < 32768).
  { unfold p1. destruct (ct >=? 32768) eqn:E; bool_simpl; eexists _, _; (split; [reflexivity|]); unfold ct in *; lia. }
  destruct E1 as (c & inc & -> & Hc').
  change (obj { sc with connRecvUnacked := c } l) with (obj sc l). set (p2 := if negb (endStream (obj sc l)) then _ else _).
  assert (E2 : exists r inc', p2 = ({ set_obj sc l { obj sc l with recvUnacked := r } with connRecvUnacked := c }, inc') /\ 0 <= r < 32768).
  { unfold p2; clear p2. destruct (negb _).
    - rewrite (i32_id n), i32_id by lia. destruct (_ >=? 32768) eqn:E; bool_simpl; eexists _, _; (split; [reflexivity|]); lia.
    - eexists (recvUnacked (obj sc l)), _. split; [|exact Hr]. change ({ obj sc l with recvUnacked := recvUnacked (obj sc l) }) with (obj sc l). by rewrite Hself. }
  destruct E2 as (r & inc' & -> & Hr'). destruct (_ || _).
  - destruct (batched_out { set_obj sc l { obj sc l with recvUnacked := r } with connRecvUnacked := c } inc (Some (stream_id (obj sc l))) inc') as [o ->].
    by exists o, c, r.
  - by exists (out sc), c, r.
Qed.

Lemma inv_replenish sc l n : inv sc -> live sc l -> 0 <= n < 2 ^ 24 -> inv (replenishReceiveWindow sc l n).
Proof.
  intros Hi Hl Hn. destruct (replenish_eq sc l n Hi Hl Hn) as (o & c & r & Hc & Hr & ->).
  assert (H : inv (set_obj sc l { obj sc l with recvUnacked := r })) by (minor Hi; [done|exact Hr]). keep H.
Qed.

(** ** Starting and ending streams *)
Lemma started_spawn sc l x : In x (started { sc with spawned := spawned sc ++ [l] }) <-> x = l \/ In x (started sc).
Proof. unfold started. cbn. rewrite !in_app_iff. cbn. intuition. Qed.
Lemma count_spawn sc l x :
  count_occ Nat.eq_dec (started { sc with spawned := spawned sc ++ [l] }) x = (count_occ Nat.eq_dec (started sc) x + if Nat.eq_dec l x then 1 else 0)%nat.
Proof. unfold started. change (spawned { sc with spawned := ?y }) with y. change (dispatches { sc with spawned := ?y }) with (dispatches sc).
  rewrite !count_occ_app. cbn [count_occ]. destruct (Nat.eq_dec l x); lia. Qed.

Lemma inv_spawn sc l :
  inv sc -> live sc l -> (late = false -> fields_fine (EnableConnect sc) (obj sc l)) -> stream_id (obj sc l) <> continuationStream sc ->
  (is_extended (obj sc l) = false -> state (obj sc l) <> streamOpen /\ ~ In l (started sc)) ->
  getStream sc (stream_id (obj sc l)) = Some l ->
  inv { sc with spawned := spawned sc ++ [l] }.
Proof.
  intros Hi Hl Hf Hc Hn Hg. pose proof Hi as Hi'. destruct Hi' as [H1 H2 H3 H4 H5 H6 HT H7 H8 HS H9 H10 H11 H12 H13 H14 H15 HP HD HN]. split; try assumption.
  - intros x Hx. apply started_spawn in Hx as [->|Hx]; [|by apply H8]. split; [done|]. split; [done|]. intros He. by apply Hn.
  - intros H0 x Hx. apply started_spawn in Hx as [->|Hx]; [by apply Hf|by apply HS].
  - intros x Hx. rewrite count_spawn. specialize (H9 x Hx). destruct (Nat.eq_dec l x) as [<-|]; [|lia].
    destruct (Hn Hx) as [_ Hnot]. rewrite count_absent by done. lia.
  - destruct HP as [HP1 HP2]. split; [done|]. intros x Hx. destruct (HP2 x Hx) as (Ha & Hb & Ht). split; [done|]. split; [|done].
    rewrite started_spawn. intros [->|Hin]; [by apply (Ht (stream_id (obj sc l)))|done].
  - eapply Forall_impl; [|exact HD]. intros d Hd Hx. destruct (Hd Hx) as (Ha & Hb & Ht). split; [done|]. split; [done|]. intros x Hin.
    apply started_spawn in Hin as [->|Hin]; [|by apply Ht]. change (stream_id (obj sc l) <> req_StreamID (dp_req d)). intros E. rewrite <- E in Hb.
    change (getStream sc (stream_id (obj sc l)) = None) in Hb. congruence.
Qed.

Lemma inv_start sc l :
  inv sc -> live sc l -> (late = false -> fields_fine (EnableConnect sc) (obj sc l)) -> stream_id (obj sc l) <> continuationStream sc ->
  (is_extended (obj sc l) = false -> ~ In l (started sc)) -> getStream sc (stream_id (obj sc l)) = Some l -> inv (startStream sc l).
Proof.
  intros Hi Hl Hf Hc Hn Hg. unfold startStream. cbv zeta. set (st := { obj sc l with state := _ }).
  assert (Hi' : inv (set_obj sc l st)).
  { apply inv_set; [done|done|reflexivity|exact (fun x => x)|by right|by left| |exact (fun x => x)|by apply (i_unacked sc Hi)].
    intros Hx _. change (is_extended (obj sc l) = false) in Hx. unfold st. rewrite Hx. done. }
  apply (inv_spawn (set_obj sc l st) l Hi'); [by apply live_set|..]; rewrite obj_set_eq by done.
  - exact Hf.
  - exact Hc.
  - intros Hx. change (is_extended (obj sc l) = false) in Hx. split; [unfold st; by rewrite Hx|]. by apply Hn.
  - exact Hg.
Qed.

(** An open stream that is not a tunnel request has not been started. *)
Lemma open_not_started sc l : inv sc -> is_extended (obj sc l) = false -> state (obj sc l) = streamOpen -> ~ In l (started sc).
Proof. intros Hi He Hs Hin. destruct (i_started sc Hi l Hin) as (_ & _ & H). by apply H. Qed.

Lemma inv_shards sc sh :
  inv sc -> List.length sh = 16%nat ->
  (forall i m id l, sh !! i = Some m -> m !! id = Some l -> exists m', streamShards sc !! i = Some m' /\ m' !! id = Some l) ->
  inv { sc with streamShards := sh }.
Proof.
  intros Hi Hlen Hsub. assert (Hget : forall id l, getStream { sc with streamShards := sh } id = Some l -> getStream sc id = Some l).
  { intros id l. unfold getStream. change (streamShards { sc with streamShards := sh }) with sh. destruct (sh !! shard_of id) as [m|] eqn:E; [|done].
    intros Hm. by destruct (Hsub _ _ _ _ E Hm) as (m' & -> & ?). }
  destruct Hi as [H1 H2 H3 H4 H5 H6 HT H7 H8 HS H9 H10 H11 H12 H13 H14 H15 HP HD HN]. split; try assumption.
  - intros i m id l Hm Hl. destruct (Hsub _ _ _ _ Hm Hl) as (m' & Hm' & Hl'). exact (H2 i m' id l Hm' Hl').
  - intros id l Hg. by apply H3, Hget.
  - intros H0 Hc id l Hg. by apply (H7 H0 Hc), Hget.
  - intros Hc id l Hg. apply (H13 Hc id l), Hget, Hg.
  - destruct HP as [HP1 HP2]. split; [done|]. intros l Hl. destruct (HP2 l Hl) as (Ha & Hb & Ht). split; [done|]. split; [done|]. intros id Hg. by apply (Ht id), Hget.
  - eapply Forall_impl; [|exact HD]. intros d Hd Hx. destruct (Hd Hx) as (Ha & Hb & Ht). split; [done|]. split; [|done].
    destruct (getStream { sc with streamShards := sh } (req_StreamID (dp_req d))) eqn:E; [|done]. apply Hget in E. congruence.
Qed.
Lemma inv_delete sc id : inv sc -> inv (fst (deleteStream sc id)).
Proof. intros Hi. destruct (deleteStream_eq sc (i_shards sc Hi) id) as (sh & -> & Hl & Hsub). by apply inv_shards. Qed.
Lemma inv_clear sc : inv sc -> inv { sc with streamShards := map (fun _ => ∅) (streamShards sc) }.
Proof.
  intros Hi. apply inv_shards; [done|rewrite length_map; apply (i_shards sc Hi)|]. intros i m id l Hm Hl. rewrite list_lookup_fmap in Hm.
  destruct (streamShards sc !! i); [|done]. injection Hm as <-. by rewrite lookup_empty in Hl.
Qed.

(** A new stream: its number is larger than any before. *)
Definition add_stream (sc : ServerConn) (id : Z) (st : serverStream) : ServerConn :=
  putStream { sc with maxStreamID := id; continuationStream := id; heap := store (heap sc) (slot sc) st; pool := pool_left sc; gets := tail (gets sc) }
    id (slot sc).

Lemma nth_store h n (st d : serverStream) l : (n <= List.length h)%nat -> nth l (store h n st) d = if decide (n = l) then st else nth l h d.
Proof.
  intros Hn. unfold store. destruct (n <? List.length h)%nat eqn:E; [apply nth_insert; by apply Nat.ltb_lt|]. apply Nat.ltb_ge in E.
  assert (n = List.length h) as -> by lia. destruct (decide (List.length h = l)) as [<-|Hne]; [rewrite app_nth2 by lia; by rewrite Nat.sub_diag|].
  rewrite !nth_lookup. destruct (decide (l < List.length h)%nat); [by rewrite lookup_app_l|]. rewrite !lookup_ge_None_2; [done|lia|].
  rewrite length_app. cbn. lia.
Qed.
Lemma length_store h n st l : (n <= List.length h)%nat -> (l < List.length (store h n st))%nat <-> (l < List.length h)%nat \/ l = n.
Proof. intros Hn. unfold store. destruct (n <? List.length h)%nat eqn:E; [apply Nat.ltb_lt in E; rewrite length_insert; lia|]. apply Nat.ltb_ge in E. rewrite length_app. cbn. lia. Qed.
Lemma store_store h n st st' : (n <= List.length h)%nat -> <[n := st']> (store h n st) = store h n st'.
Proof.
  intros Hn. unfold store. destruct (n <? List.length h)%nat eqn:E; [apply list_insert_insert_eq|]. apply Nat.ltb_ge in E.
  assert (n = List.length h) as -> by lia. rewrite insert_app_r_alt by lia. by rewrite Nat.sub_diag.
Qed.

(** The object [Get] returns is new, or it was in the pool and is gone from it. *)
Lemma slot_cases sc : slot sc = List.length (heap sc) /\ pool_left sc = delete (hd 0%nat (gets sc)) (pool sc) \/ slot sc = List.length (heap sc) /\ pool_left sc = pool sc
  \/ exists k, pool sc !! k = Some (slot sc) /\ pool_left sc = delete k (pool sc).
Proof.
  unfold slot, pool_left. destruct (gets sc) as [|k ks]; [right; by left|]. destruct (pool sc !! k) as [l|] eqn:E; [right; right; by exists k|by left].
Qed.
Lemma slot_free sc : inv sc ->
  (slot sc <= List.length (heap sc))%nat /\ ~ In (slot sc) (started sc) /\ (forall id, getStream sc id <> Some (slot sc))
  /\ NoDup (pool_left sc) /\ (forall l, In l (pool_left sc) -> In l (pool sc) /\ l <> slot sc).
Proof.
  intros Hi. destruct (i_pool sc Hi) as [Hnd Hp].
  assert (Hsub : forall k l, In l (delete k (pool sc)) -> In l (pool sc)).
  { intros k l. rewrite <- !list_elem_of_In. intros Hin. by apply (elem_of_submseteq _ _ _ Hin), sublist_submseteq, sublist_delete. }
  assert (Hdel : forall k, NoDup (delete k (pool sc))) by (intros k; apply (sublist_NoDup _ _ Hnd), sublist_delete).
  assert (Hnew : slot sc = List.length (heap sc) -> ~ In (slot sc) (started sc) /\ (forall id, getStream sc id <> Some (slot sc)) /\ (forall l, In l (pool sc) -> l <> slot sc)).
  { intros E. split_and!.
    - intros Hin. destruct (i_started sc Hi _ Hin) as [Hl _]. unfold live in Hl. lia.
    - intros id Hg. destruct (i_table sc Hi _ _ Hg) as [Hl _]. unfold live in Hl. lia.
    - intros l Hl ->. destruct (Hp _ Hl) as [Hlv _]. unfold live in Hlv. lia. }
  destruct (slot_cases sc) as [[E Ep]|[[E Ep]|(k & Ek & Ep)]]; rewrite Ep.
  - destruct (Hnew E) as (Ha & Hb & Hc). split_and!; [lia|done|done|apply Hdel|]. intros l Hl. apply Hsub in Hl. auto.
  - destruct (Hnew E) as (Ha & Hb & Hc). split_and!; [lia|done|done|done|]. auto.
  - assert (Hin : In (slot sc) (pool sc)) by (apply list_elem_of_In; by eapply list_elem_of_lookup_2). destruct (Hp _ Hin) as (Hl & Ha & Hb).
    split_and!; [unfold live in Hl; lia|done|done|apply Hdel|]. intros l Hl'. split; [by apply (Hsub k)|]. intros ->.
    pose proof (delete_Permutation _ _ _ Ek) as Hperm. rewrite Hperm in Hnd. apply list.NoDup_cons in Hnd as [Hnd _]. by apply Hnd, list_elem_of_In.
Qed.
Lemma shard_put sc id x i m id' l :
  List.length (streamShards sc) = 16%nat -> (forall i m id l, streamShards sc !! i = Some m -> m !! id = Some l -> i = shard_of id) ->
  streamShards (putStream sc id x) !! i = Some m -> m !! id' = Some l -> i = shard_of id'.
Proof.
  intros Hlen Hs. change (streamShards (putStream sc id x)) with (alter (insert id x) (shard_of id) (streamShards sc)). destruct (decide (i = shard_of id)) as [->|Hn].
  - rewrite list_lookup_alter_eq. destruct (streamShards sc !! shard_of id) as [m0|] eqn:E; [|done]. cbn. intros [= <-] Hm. destruct (decide (id' = id)) as [->|Hne]; [done|].
    rewrite lookup_insert_ne in Hm by done. by apply (Hs _ m0 id' l).
  - rewrite list_lookup_alter_ne by done. apply Hs.
Qed.

Lemma inv_add sc id st :
  inv sc -> maxStreamID sc < id < 2 ^ 31 -> Z.odd id = true -> stream_id st = id -> sendWindow st = peerInitialWin sc -> recvUnacked st = 0 ->
  continuationStream sc = 0 -> texts_fine st -> inv (add_stream sc id st).
Proof.
  intros Hi Hid Hodd Est Ew Er Hc Htx. destruct (slot_free sc Hi) as (Hn & Hnst & Hntb & Hpd & Hpl). pose proof Hi as [H1 H2 H3 H4 H5 H6 HT H7 H8 HS H9 H10 H11 H12 H13 H14 H15 HP HD HN].
  set (n := slot sc) in *.
  set (sc1 := { sc with maxStreamID := id; continuationStream := id; heap := store (heap sc) n st; pool := pool_left sc; gets := tail (gets sc) }).
  assert (Hget : forall id' l, getStream (add_stream sc id st) id' = Some l -> (id' = id /\ l = n) \/ (id' <> id /\ l <> n /\ getStream sc id' = Some l)).
  { intros id' l. unfold add_stream. fold n sc1. rewrite (get_put sc1 H1). destruct (decide (id' = id)); [intros [= <-]; by left|]. intros Hg.
    change (getStream sc id' = Some l) in Hg. right. split; [done|]. split; [|done]. intros ->. by apply (Hntb id'). }
  assert (Hobj : forall l, l <> n -> obj (add_stream sc id st) l = obj sc l).
  { intros l Hl. change (nth l (store (heap sc) n st) null_stream = obj sc l). rewrite nth_store by done. by rewrite decide_False. }
  assert (Hnew : obj (add_stream sc id st) n = st).
  { change (nth n (store (heap sc) n st) null_stream = st). rewrite nth_store by done. by rewrite decide_True. }
  assert (Hlive : forall l, live (add_stream sc id st) l -> l = n \/ l <> n /\ live sc l).
  { intros l Hl. unfold live in Hl. change (heap (add_stream sc id st)) with (store (heap sc) n st) in Hl. apply length_store in Hl; [|done].
    destruct (decide (l = n)); [by left|]. right. unfold live. split; [done|]. destruct Hl; done. }
  assert (Hstay : forall l, live sc l \/ l = n -> live (add_stream sc id st) l) by (intros l; apply (length_store (heap sc) n st l Hn)).
  assert (Hsid : forall l, live sc l -> stream_id (obj sc l) <> id) by (intros l Hl Heq; destruct (H4 l Hl); lia).
  assert (Hact : forall l, In l (started sc) -> l <> n) by (intros l Hl ->; done).
  split; try assumption.
  - change (List.length (alter (insert id n) (shard_of id) (streamShards sc)) = 16%nat). by rewrite length_alter.
  - intros i m id' l. by apply (shard_put sc1).
  - intros id' l Hg. destruct (Hget id' l Hg) as [[-> ->]|(_ & Hln & Hg')].
    + rewrite Hnew. auto.
    + destruct (H3 id' l Hg') as [Hl He]. rewrite Hobj by done. auto.
  - intros l Hl. apply Hlive in Hl as [->|[Hln Hl]].
    + rewrite Hnew, Est. split; [|done]. change (0 < id <= id). lia.
    + rewrite Hobj by done. destruct (H4 l Hl) as [Hr Ho]. split; [|done]. change (0 < stream_id (obj sc l) <= id). lia.
  - intros l l' Hl Hl'. apply Hlive in Hl as [->|[Hln Hl]], Hl' as [->|[Hln' Hl']]; rewrite ?Hnew, ?Hobj, ?Est by done.
    + done.
    + intros E. by destruct (Hsid l' Hl').
    + intros E. by destruct (Hsid l Hl).
    + by apply H5.
  - change (0 <= id < 2 ^ 31). lia.
  - intros l Hl. apply Hlive in Hl as [->|[Hln Hl]]; [by rewrite Hnew|rewrite Hobj by done; by apply HT].
  - intros H0 Hcl id' l Hg. change (id' = id \/ fields_fine (EnableConnect sc) (obj (add_stream sc id st) l)).
    destruct (Hget id' l Hg) as [[-> ->]|(Hne & Hln & Hg')].
    + rewrite Hnew. auto.
    + destruct (H3 id' l Hg') as [Hl He]. rewrite Hobj by done. destruct (H7 H0 Hcl id' l Hg') as [Hx|Hx]; [|by right].
      rewrite Hc in Hx. destruct (H4 l Hl) as [Hr _]. rewrite He, Hx in Hr. lia.
  - intros l Hin. destruct (H8 l Hin) as (Hl & _ & Hs). rewrite Hobj by by apply Hact. split; [by auto|]. split; [by apply Hsid|exact Hs].
  - intros H0 l Hin. rewrite Hobj by by apply Hact. by apply HS.
  - intros l He. destruct (in_dec Nat.eq_dec l (started sc)) as [Hin|Hx]; [|change (started (add_stream sc id st)) with (started sc); rewrite count_absent by done; lia].
    rewrite Hobj in He by by apply Hact. by apply H9.
  - rewrite Forall_forall in *. intros d Hd. destruct (H10 d Hd) as [Hr Hs]. split; [exact Hr|]. intros Hx. rewrite Hobj; [by apply Hs|]. by apply Hact, undone_started.
  - intros Hcl id' l Hg. destruct (Hget id' l Hg) as [[-> ->]|(_ & Hln & Hg')].
    + rewrite Hnew, Ew. change (peerInitialWin sc <= peerInitialWin sc < 2 ^ 31). lia.
    + rewrite Hobj by done. by apply (H13 Hcl id').
  - intros l Hl. apply Hlive in Hl as [->|[Hln Hl]]; [by rewrite Hnew, Er|]. rewrite Hobj by done. by apply H15.
  - split; [exact Hpd|]. intros l Hl. destruct (Hpl l Hl) as [Hin Hln]. destruct HP as [_ HP]. destruct (HP l Hin) as (Ha & Hb & Ht).
    split; [by auto|]. split; [done|]. intros id' Hg. destruct (Hget id' l Hg) as [[_ ->]|(_ & _ & Hg')]; [done|by apply (Ht id')].
  - eapply Forall_impl; [|exact HD]. intros d Hd Hx. destruct (Hd Hx) as (Ha & Hb & Ht).
    split; [change (req_StreamID (dp_req d) <= id); lia|]. split.
    + destruct (getStream (add_stream sc id st) (req_StreamID (dp_req d))) eqn:E; [|done]. apply Hget in E as [[E _]|(_ & _ & E)]; [lia|congruence].
    + intros l Hin. rewrite Hobj by by apply Hact. by apply Ht.
Qed.

(** ** Header blocks *)

(** The parts of a stream a header block does not touch. *)
Definition same_rest (st st' : serverStream) : Prop :=
  stream_id st' = stream_id st /\ state st' = state st /\ sendWindow st' = sendWindow st /\ recvUnacked st' = recvUnacked st
  /\ endStream st' = endStream st /\ body st' = body st /\ isTunnel st' = isTunnel st.

Lemma set_pseudo_ok st k v st' :
  set_pseudo st k v = Some st' -> ValidateHeaderValue v = true -> same_rest st st' /\ (texts_fine st -> texts_fine st').
Proof.
  intros E Hv. unfold set_pseudo in E. unfold texts_fine, clean.
  repeat case_hyp E; try done; injection E as <-; (split; [repeat (split; [reflexivity|]); reflexivity|]); intros [Hc Hh]; (split; [|exact Hh]);
    repeat (apply Forall_cons_1 in Hc as [? Hc]); repeat (apply Forall_cons; [done|]); apply Forall_nil.
Qed.
Lemma add_field_ok st reg hf st' reg' :
  add_field st reg hf = Some (st', reg') -> same_rest st st' /\ (texts_fine st -> texts_fine st').
Proof.
  unfold add_field. intros E. destruct (Empty hf); [injection E as <- _; split; [done|exact (fun x => x)]|].
  destruct (ValidateHeaderName (key hf) (IsPseudo hf)) eqn:En; [|done]. cbn [negb] in E. destruct (ValidateHeaderValue (value hf)) eqn:Ev; [|done]. cbn [negb] in E.
  destruct (IsPseudo hf).
  - destruct reg; [done|]. destruct (set_pseudo st (key hf) (value hf)) as [st1|] eqn:E1; [|done]. injection E as <- _. by apply (set_pseudo_ok st (key hf) (value hf)).
  - destruct (IsConnectionSpecificHeader _ _) eqn:Ec; [done|]. injection E as <- _. split; [repeat (split; [reflexivity|]); reflexivity|]. intros [Hc Hh]. split; [exact Hc|].
    apply Forall_app. split; [exact Hh|]. apply Forall_cons; [|apply Forall_nil]. split; [exact Ev|]. by exists (key hf).
Qed.
Lemma same_rest_trans a b c : same_rest a b -> same_rest b c -> same_rest a c.
Proof. unfold same_rest. intros (? & ? & ? & ? & ? & ? & ?) (? & ? & ? & ? & ? & ? & ?). repeat split; congruence. Qed.

Lemma finish_loop_ok fuel : forall hp st reg b hp' st' e,
  finish_loop fuel hp st reg b = (hp', st', e) -> same_rest st st' /\ (texts_fine st -> texts_fine st').
Proof.
  induction fuel as [|fuel IH]; intros hp st reg b hp' st' e E; cbn [finish_loop] in E; [injection E as _ <- _; by split|].
  destruct (zlen b >? 0); [|injection E as _ <- _; by split].
  destruct (Next hp empty_field b) as [[[hp1 hf] b1] [u|e1|]]; try (injection E as _ <- _; by split).
  destruct (add_field st reg hf) as [[st1 reg1]|] eqn:Ea; [|injection E as _ <- _; by split].
  destruct (add_field_ok _ _ _ _ _ Ea) as [Hs1 Ht1]. destruct (IH _ _ _ _ _ _ _ E) as [Hs2 Ht2]. split; [by eapply same_rest_trans|auto].
Qed.

Lemma request_ok_fine sc st : request_ok sc st = true -> pseudo_fine (EnableConnect sc) (method st) (path st) (scheme st) (authority st) (protocol st).
Proof.
  unfold request_ok, pseudo_fine. repeat match goal with |- context [bool_decide ?P] => destruct (bool_decide_reflect P) end; cbn [negb orb andb];
    destruct (EnableConnect sc); cbn [andb]; try done; intuition congruence.
Qed.


(** The header block that is open may be closed once its stream is complete, or
    gone. *)
Lemma inv_block_done sc :
  inv sc ->
  (late = false -> isClosed sc = false -> forall l, getStream sc (continuationStream sc) = Some l -> fields_fine (EnableConnect sc) (obj sc l)) ->
  inv { sc with continuationStream := 0 }.
Proof.
  intros [H1 H2 H3 H4 H5 H6 HT H7 H8 HS H9 H10 H11 H12 H13 H14 H15 HP HD HN] Hf. split; try assumption.
  - intros H0 Hc id l Hg. destruct (H7 H0 Hc id l Hg) as [->|Hx]; [right; by apply Hf|by right].
  - intros l Hin. destruct (H8 l Hin) as (Hl & _ & Hs). split; [done|]. split; [|done]. destruct (H4 l Hl) as [Hr _].
    intros Heq. change (stream_id (obj sc l) = 0) in Heq. lia.
Qed.

Lemma not_started_open sc l : inv sc -> stream_id (obj sc l) = continuationStream sc -> ~ In l (started sc).
Proof. intros Hi He Hin. destruct (i_started sc Hi l Hin) as (_ & Hn & _). done. Qed.

Lemma inv_finish sc l :
  inv sc -> getStream sc (continuationStream sc) = Some l ->
  let '(sc', e) := finishHeaderBlock { sc with continuationStream := 0 } l in inv (header_error sc' (continuationStream sc) e).
Proof.
  intros Hi Hg. destruct (i_table sc Hi _ l Hg) as [Hl Hid]. pose proof (not_started_open sc l Hi Hid) as Hns.
  unfold finishHeaderBlock. cbv zeta. set (sc0 := { sc with continuationStream := 0 }).
  change (obj sc0 l) with (obj sc l). change (hpackDec sc0) with (hpackDec sc).
  destruct (finish_loop _ _ _ _ _) as [[hp st] e] eqn:Ef. destruct (finish_loop_ok _ _ _ _ _ _ _ _ Ef) as [(E1 & E2 & E3 & E4 & E5 & E6 & E7) Ht].
  set (sc1 := set_obj { sc with hpackDec := hp } l st).
  assert (Hi1 : inv sc1).
  { unfold sc1. assert (Hh : inv { sc with hpackDec := hp }) by keep Hi. apply inv_set; [exact Hh|exact Hl|exact E1|exact Ht|by left|by right| | |].
    - intros _ Hx. rewrite E2. exact Hx.
    - intros Hx. rewrite E3. exact Hx.
    - rewrite E4. by apply (i_unacked sc Hi). }
  change (set_obj { sc0 with hpackDec := hp } l st) with { sc1 with continuationStream := 0 }.
  assert (Hobj : obj sc1 l = st) by by apply obj_set_eq.
  assert (Hcomp : request_ok { sc1 with continuationStream := 0 } st = true -> fields_fine (EnableConnect sc) st).
  { intros Hr. split; [exact (request_ok_fine _ _ Hr)|]. by apply Ht, (i_texts sc Hi). }
  assert (Herr : forall c, inv (header_error { sc1 with continuationStream := 0 } (continuationStream sc) (Some c))).
  { intros c. unfold header_error. destruct (c =? ProtocolError).
    - destruct (write_out { sc1 with continuationStream := 0 } (continuationStream sc) 0 (FRst (mkRst ProtocolError))) as [o Eo]. unfold writeRstStream. rewrite Eo.
      assert (Ed : fst (deleteStream { { sc1 with continuationStream := 0 } with out := o } (continuationStream sc))
                   = { fst (deleteStream { sc1 with out := o } (continuationStream sc)) with continuationStream := 0 }).
      { unfold deleteStream. change (getStream { { sc1 with continuationStream := 0 } with out := o } (continuationStream sc)) with (getStream { sc1 with out := o } (continuationStream sc)). by destruct (getStream _ _). }
      assert (Hd : inv (fst (deleteStream { sc1 with out := o } (continuationStream sc)))) by by apply inv_delete, inv_out.
      rewrite Ed. apply inv_block_done; [exact Hd|]. intros _ _ l'. 
      assert (Ec : continuationStream (fst (deleteStream { sc1 with out := o } (continuationStream sc))) = continuationStream sc) by (unfold deleteStream; by destruct (getStream _ _)).
      rewrite Ec, get_delete by apply (i_shards sc1 Hi1). by rewrite decide_True.
    - destruct (goaway_eq { sc1 with continuationStream := 0 } (maxStreamID { sc1 with continuationStream := 0 }) c) as [o ->].
      assert (Hx : inv { sc1 with out := o; closeErr := Some (CloseCode c); isClosed := true }) by keep Hi1.
      apply (inv_block_done _ Hx). done. }
  destruct e as [c|]; [exact (Herr c)|].
  destruct (request_ok { sc1 with continuationStream := 0 } st) eqn:Er; cbn [negb]; [|exact (Herr ProtocolError)]. specialize (Hcomp eq_refl).
  assert (Hi2 : inv { sc1 with continuationStream := 0 }).
  { apply inv_block_done; [exact Hi1|]. intros _ _ l' Hl'. change (getStream sc (continuationStream sc) = Some l') in Hl'. assert (l' = l) as -> by congruence. rewrite Hobj. exact Hcomp. }
  destruct (_ || _); [|exact Hi2]. cbn [header_error]. apply (inv_start { sc1 with continuationStream := 0 } l Hi2).
  - by apply live_set.
  - intros _. change (fields_fine (EnableConnect sc) (obj sc1 l)). rewrite Hobj. exact Hcomp.
  - change (stream_id (obj sc1 l) <> 0). rewrite Hobj, E1. destruct (i_ids sc Hi l Hl) as [Hr _]. lia.
  - intros _. exact Hns.
  - change (getStream sc (stream_id (obj sc1 l)) = Some l). rewrite Hobj, E1, Hid. exact Hg.
Qed.

(** ** The handlers *)

(** What a frame can carry. *)
Definition event_fits (ev : h2_event) : Prop :=
  match ev with
  | OnStreamData sid p _ | OnHeaders sid p _ _ | OnContinuation sid p _ => is_id sid /\ bytes_ok p /\ zlen p < 2 ^ 24
  | OnSettings p _ => bytes_ok p
  | OnWindowUpdate sid n => is_id sid /\ is_id n
  | OnStreamReset sid _ => is_id sid
  | _ => True
  end.

(** A HEADERS frame that is accepted. *)
Definition fresh_stream (sc : ServerConn) (sid : Z) (eh es : bool) (p : bytes) : serverStream :=
  { acquireServerStream sid eh es (peerInitialWin sc) with headerBlock := p }.
Lemma OnHeaders_new (sc : ServerConn) (sid : Z) (p : bytes) (eh es : bool) :
  (slot sc <= List.length (heap sc))%nat -> continuationStream sc = 0 -> sid <> 0 -> sid mod 2 <> 0 -> maxStreamID sc < sid ->
  let sc1 := { add_stream sc sid (fresh_stream sc sid eh es p) with continuationStream := (if eh then 0 else sid) } in
  OnHeaders_ sc sid p eh es = if eh then let '(sc2, e) := finishHeaderBlock sc1 (slot sc) in header_error sc2 sid e else sc1.
Proof.
  intros Hn Ec H0 H2 Hm. unfold OnHeaders_. rewrite Ec. cbn [negb Z.eqb]. test_false (sid =? 0). test_false (sid mod 2 =? 0). cbn [orb]. test_false (sid <=? maxStreamID sc).
  set (st := fresh_stream sc sid eh es p). cbv zeta. set (a := acquireServerStream sid eh es (peerInitialWin sc)).
  assert (E : putStream (let '(sc, l) := newServerStream (if negb eh then { { sc with maxStreamID := sid } with continuationStream := sid } else { sc with maxStreamID := sid }) sid eh es in
                         set_obj sc l { obj sc l with headerBlock := headerBlock (obj sc l) ++ p }) sid (slot sc)
              = { add_stream sc sid st with continuationStream := if eh then 0 else sid }).
  { assert (Ei : forall f, <[slot sc := f (nth (slot sc) (store (heap sc) (slot sc) a) null_stream)]> (store (heap sc) (slot sc) a) = store (heap sc) (slot sc) (f a)).
    { intros f. rewrite nth_store, decide_True by done. by apply store_store. }
    transitivity { sc with maxStreamID := sid; continuationStream := (if eh then continuationStream sc else sid);
      heap := <[slot sc := (fun o => { o with headerBlock := headerBlock o ++ p }) (nth (slot sc) (store (heap sc) (slot sc) a) null_stream)]> (store (heap sc) (slot sc) a);
      streamShards := alter (insert sid (slot sc)) (shard_of sid) (streamShards sc); pool := pool_left sc; gets := tail (gets sc) }; [by destruct eh|].
    rewrite (Ei (fun o => { o with headerBlock := headerBlock o ++ p })), Ec. reflexivity. }
  destruct (newServerStream _ sid eh es) as [sc1 l1] eqn:En. assert (El : l1 = slot sc) by (injection En as _ <-; by destruct (negb eh)).
  cbn zeta in E |- *. rewrite <- El in E. rewrite E, El. by destruct eh.
Qed.

Lemma inv_OnHeaders sc sid p eh es : inv sc -> is_id sid -> inv (OnHeaders_ sc sid p eh es).
Proof.
  intros Hi Hsid. destruct (negb (continuationStream sc =? 0)) eqn:Ec; [unfold OnHeaders_; rewrite Ec; by auto with h2inv|].
  destruct ((sid =? 0) || (sid mod 2 =? 0)) eqn:Eo; [unfold OnHeaders_; rewrite Ec, Eo; by auto with h2inv|].
  destruct (sid <=? maxStreamID sc) eqn:Em; [unfold OnHeaders_; rewrite Ec, Eo, Em; by auto with h2inv|]. bool_simpl. rewrite OnHeaders_new by (done || apply (slot_free sc Hi)).
  set (st := fresh_stream sc sid eh es p).
  assert (Ha : inv (add_stream sc sid st)).
  { apply inv_add; [done|unfold is_id in Hsid; lia| |reflexivity|reflexivity|reflexivity|done|].
    - rewrite Zodd_mod. apply Z.eqb_eq. pose proof (Z.mod_pos_bound sid 2 ltac:(lia)). lia.
    - split; [repeat (apply Forall_cons; [reflexivity|]); apply Forall_nil|apply Forall_nil]. }
  destruct eh; [|exact Ha].
  assert (Hg : getStream (add_stream sc sid st) (continuationStream (add_stream sc sid st)) = Some (slot sc)).
  { change (continuationStream (add_stream sc sid st)) with sid. unfold add_stream. rewrite get_put by apply (i_shards sc Hi). by rewrite decide_True. }
  pose proof (inv_finish (add_stream sc sid st) (slot sc) Ha Hg) as Hf. destruct (finishHeaderBlock _ _). exact Hf.
Qed.

Lemma inv_OnContinuation sc sid p eh : inv sc -> inv (OnContinuation_ sc sid p eh).
Proof.
  intros Hi. unfold OnContinuation_. destruct (_ || _) eqn:Ec; [by auto with h2inv|]. bool_simpl. destruct (getStream sc sid) as [l|] eqn:Eg; [|by auto with h2inv].
  destruct (obj_in_table sc sid l Hi Eg) as (Hl & Hid & Hr). cbv zeta. destruct (_ >? 65536); [by auto with h2inv|].
  assert (H1 : inv (set_obj sc l { obj sc l with headerBlock := headerBlock (obj sc l) ++ p })) by (minor Hi; done). destruct eh; [|exact H1].
  set (sc1 := set_obj sc l _) in *. assert (Hl1 : live sc1 l) by by apply live_set.
  assert (H2 : inv (set_obj sc1 l { obj sc1 l with endHeaders := true })).
  { minor H1; [done|]. change (0 <= recvUnacked (obj sc1 l) < minWindowUpdateBatch). by apply (i_unacked sc1 H1). }
  set (sc2 := set_obj sc1 l _) in *. assert (Hc2 : continuationStream sc2 = sid) by (change (continuationStream sc = sid); lia).
  pose proof (inv_finish sc2 l H2) as Hf. rewrite Hc2 in Hf. specialize (Hf Eg).
  change (let '(sc, e) := finishHeaderBlock { sc2 with continuationStream := 0 } l in inv (header_error sc sid e)) in Hf.
  change (inv (let '(sc, e) := finishHeaderBlock { sc2 with continuationStream := 0 } l in header_error sc sid e)). destruct (finishHeaderBlock _ _). exact Hf.
Qed.

Lemma inv_OnStreamData sc sid p es : (late = false -> isClosed sc = false) -> inv sc -> zlen p < 2 ^ 24 -> inv (OnStreamData_ sc sid p es).
Proof.
  intros Hlate Hi Hp. pose proof (zlen_nonneg p) as Hp0. unfold OnStreamData_. destruct (negb _) eqn:Ec; [by auto with h2inv|]. bool_simpl. destruct (sid >? _); [by auto with h2inv|]. cbv zeta.
  assert (Href : inv (writeRstStream (if (zlen p >? 0) && negb (isClosed sc) then sendWindowUpdateFrame sc 0 (u32 (zlen p)) else sc) sid StreamClosedError)).
  { apply inv_rst. destruct (_ && _); [by apply inv_write|done]. }
  destruct (getStream sc sid) as [l|] eqn:Eg; [|exact Href]. destruct (obj_in_table sc sid l Hi Eg) as (Hl & Hid & Hr).
  destruct (_ || _) eqn:Es; [exact Href|]. apply orb_false_iff in Es as [Es1 Es2]. apply bool_decide_eq_false in Es1, Es2.
  assert (Hopen : state (obj sc l) = streamOpen) by (destruct (state (obj sc l)); done).
  assert (Hsid0 : sid <> 0) by (destruct (i_ids sc Hi l Hl); lia).
  destruct (isTunnel (obj sc l)).
  - set (sc1 := if zlen p >? 0 then _ else sc). assert (H1 : inv sc1 /\ live sc1 l).
    { unfold sc1. destruct (zlen p >? 0); [|done]. set (sc0 := match pipe (obj sc l) with Some _ => _ | None => _ end).
      assert (H0 : inv sc0 /\ live sc0 l) by (unfold sc0; destruct (pipe (obj sc l)); [split; [by apply inv_pipes|done]|done]).
      destruct H0 as [H0 Hl0]. split; [by apply inv_replenish|]. destruct (replenish_eq sc0 l (zlen p) H0 Hl0 ltac:(lia)) as (o & c & r & _ & _ & ->). by apply (live_set sc0). }
    clearbody sc1. destruct H1 as [H1 Hl1]. destruct es; [|done].
    assert (H2 : inv (set_obj sc1 l { obj sc1 l with endStream := true })) by (minor H1; [done|by apply (i_unacked sc1 H1)]).
    destruct (pipe _); [by apply inv_pipes|done].
  - assert (H1 : inv (set_obj sc l { obj sc l with body := body (obj sc l) ++ p })) by (minor Hi; done).
    set (sc1 := set_obj sc l _) in *. assert (Hl1 : live sc1 l) by by apply live_set.
    assert (Ho1 : obj sc1 l = { obj sc l with body := body (obj sc l) ++ p }) by by apply obj_set_eq.
    set (sc2 := if zlen p >? 0 then _ else sc1).
    assert (H2 : exists o c r, 0 <= c < minWindowUpdateBatch /\ 0 <= r < minWindowUpdateBatch /\ sc2 = { set_obj sc1 l { obj sc1 l with recvUnacked := r } with out := o; connRecvUnacked := c }).
    { unfold sc2. destruct (zlen p >? 0); [apply replenish_eq; [done|done|lia]|]. exists (out sc1), (connRecvUnacked sc1), (recvUnacked (obj sc1 l)).
      split; [exact (i_recv sc1 H1)|]. split; [exact (i_unacked sc1 H1 l Hl1)|]. change ({ obj sc1 l with recvUnacked := recvUnacked (obj sc1 l) }) with (obj sc1 l).
      rewrite (set_obj_self sc1) by done. reflexivity. }
    assert (Hi2 : inv sc2) by (unfold sc2; destruct (zlen p >? 0); [by apply inv_replenish|done]). clearbody sc2. destruct H2 as (o & c & r & _ & Hr2 & ->).
    destruct es; [|exact Hi2]. set (sc2 := { set_obj sc1 l _ with out := o; connRecvUnacked := c }) in *.
    assert (Hl2 : live sc2 l) by by apply (live_set sc1).
    assert (Ho2 : obj sc2 l = { obj sc1 l with recvUnacked := r }) by by apply (obj_set_eq sc1).
    set (st3 := { obj sc2 l with endStream := true }). assert (H3 : inv (set_obj sc2 l st3)) by (minor Hi2; [done|by apply (i_unacked sc2 Hi2)]).
    assert (Ho3 : obj (set_obj sc2 l st3) l = st3) by by apply obj_set_eq.
    assert (Est : st3 = { obj sc l with body := body (obj sc l) ++ p; recvUnacked := r; endStream := true }) by (unfold st3; by rewrite Ho2, Ho1).
    apply inv_start; [exact H3|by apply live_set|..]; rewrite Ho3, Est.
    + intros H0. destruct (i_ready sc Hi H0 (Hlate H0) sid l Eg) as [Hx|Hx]; [by rewrite Hx in Hsid0|exact Hx].
    + change (stream_id (obj sc l) <> continuationStream sc). congruence.
    + intros He. exact (open_not_started sc l Hi He Hopen).
    + change (getStream sc (stream_id (obj sc l)) = Some l). by rewrite Hid.
Qed.

(** *** Settings *)
Lemma inv_windows sc h n :
  inv sc -> List.length h = List.length (heap sc) -> (forall l, exists w, nth l h null_stream = { obj sc l with sendWindow := w }) -> 0 <= n < 2 ^ 31 ->
  (isClosed sc = false -> forall id l, getStream sc id = Some l -> n <= sendWindow (nth l h null_stream) < 2 ^ 31) ->
  inv { sc with heap := h; peerInitialWin := n }.
Proof.
  intros [H1 H2 H3 H4 H5 H6 HT H7 H8 HS H9 H10 H11 H12 H13 H14 H15 HP HD HN] Hlen Ho Hn Hw. set (sc' := { sc with heap := h; peerInitialWin := n }).
  assert (Hlive : forall l, live sc' l <-> live sc l) by (intros l; unfold live; by rewrite <- Hlen).
  assert (Hobj : forall l, exists w, obj sc' l = { obj sc l with sendWindow := w }) by exact Ho.
  split; try assumption.
  - intros id l Hg. rewrite Hlive. destruct (Hobj l) as [w ->]. by apply H3.
  - intros l. rewrite Hlive. destruct (Hobj l) as [w ->]. apply H4.
  - intros l l'. rewrite !Hlive. destruct (Hobj l) as [w ->], (Hobj l') as [w' ->]. apply H5.
  - intros l. rewrite Hlive. destruct (Hobj l) as [w ->]. apply HT.
  - intros H0 Hc id l Hg. destruct (Hobj l) as [w ->]. exact (H7 H0 Hc id l Hg).
  - intros l Hin. rewrite Hlive. destruct (Hobj l) as [w ->]. exact (H8 l Hin).
  - intros H0 l Hin. destruct (Hobj l) as [w ->]. exact (HS H0 l Hin).
  - intros l. destruct (Hobj l) as [w ->]. apply H9.
  - eapply Forall_impl; [|exact H10]. intros d Hd. destruct (Hobj (dp_stream d)) as [w ->]. exact Hd.
  - intros l. rewrite Hlive. destruct (Hobj l) as [w ->]. apply H15.
  - destruct HP as [HP1 HP2]. split; [done|]. intros l. rewrite Hlive. apply HP2.
  - eapply Forall_impl; [|exact HD]. intros d Hd Hx. destruct (Hd Hx) as (Ha & Hb & Ht). split; [done|]. split; [done|]. intros l Hin.
    destruct (Hobj l) as [w ->]. by apply Ht.
Qed.

Lemma adjust_spec delta ls : forall h h' ok,
  NoDup ls -> Forall (fun l => (l < List.length h)%nat) ls -> adjust_loop delta ls h = (h', ok) ->
  List.length h' = List.length h /\ (forall l, exists w, nth l h' null_stream = { nth l h null_stream with sendWindow := w }) /\
  (ok = true -> forall l, In l ls -> sendWindow (nth l h null_stream) + delta < 2 ^ 31 /\ sendWindow (nth l h' null_stream) = i32 (sendWindow (nth l h null_stream) + delta)) /\
  (forall l, ~ In l ls -> nth l h' null_stream = nth l h null_stream).
Proof.
  induction ls as [|l ls IH]; intros h h' ok Hnd Hall E; cbn [adjust_loop] in E.
  - injection E as <- <-. split; [done|]. split; [intros l; by exists (sendWindow (nth l h null_stream))|]. split; [done|]. done.
  - apply list.NoDup_cons in Hnd as [Hnin Hnd]. apply Forall_cons_1 in Hall as [Hl Hall]. destruct (_ >? _) eqn:Eg.
    { injection E as <- <-. split; [done|]. split; [intros l'; by exists (sendWindow (nth l' h null_stream))|]. split; done. }
    change (Z.shiftl 1 31 - 1) with (2 ^ 31 - 1) in Eg. bool_simpl. set (st := nth l h null_stream) in *.
    destruct (IH _ _ _ Hnd ltac:(by rewrite length_insert) E) as (Hlen & Hw & Hok & Hout). rewrite length_insert in Hlen. rewrite list_elem_of_In in Hnin.
    split; [done|]. split; [|split].
    + intros l'. destruct (Hw l') as [w ->]. rewrite nth_insert by done. destruct (decide (l = l')) as [<-|]; by eexists.
    + intros Ht l' [<-|Hin].
      * split; [change (sendWindow st + delta < 2 ^ 31); change (sendWindow st + delta <= 2 ^ 31 - 1) in Eg; lia|]. rewrite Hout by done. rewrite nth_insert by done. by rewrite decide_True.
      * destruct (Hok Ht l' Hin) as [Hb Hv]. rewrite nth_insert, decide_False in Hb, Hv by (try done; intros <-; done). done.
    + intros l' Hn. cbn [In] in Hn. rewrite Hout by tauto. rewrite nth_insert, decide_False by (done || tauto). done.
Qed.

(** The table as a list: every stream once. *)
Lemma concat_nodup (L : list (list nat)) (f : nat -> nat) : forall k,
  (forall i ls, L !! i = Some ls -> NoDup ls /\ forall l, In l ls -> f l = (k + i)%nat) -> NoDup (concat L).
Proof.
  induction L as [|ls L IH]; intros k H; cbn [concat]; [constructor|]. apply list.NoDup_app. split; [by apply (H 0%nat)|]. split.
  - intros l Hl Hl'. rewrite list_elem_of_In in Hl. apply list_elem_of_In, in_concat in Hl' as (ls' & Hls' & Hin). apply list_elem_of_In, list_elem_of_lookup_1 in Hls' as [i Hi].
    destruct (H 0%nat ls eq_refl) as [_ H0]. destruct (H (S i) ls' Hi) as [_ H1]. specialize (H0 l Hl). specialize (H1 l Hin). lia.
  - apply (IH (S k)). intros i ls' Hi. destruct (H (S i) ls' Hi) as [Hn Hf]. split; [done|]. intros l Hl. rewrite (Hf l Hl). lia.
Qed.
Lemma table_list_in sc l : inv sc -> In l (table_list sc) <-> exists id, getStream sc id = Some l.
Proof.
  intros Hi. unfold table_list. rewrite in_concat. split.
  - intros (ls & Hls & Hin). apply in_map_iff in Hls as (m & <- & Hm). apply in_map_iff in Hin as ([id l'] & Hl & Hin). cbn in Hl. subst l'.
    apply list_elem_of_In, elem_of_map_to_list in Hin. apply list_elem_of_In, list_elem_of_lookup_1 in Hm as [i Hm]. exists id. unfold getStream.
    rewrite <- (i_shard sc Hi i m id l Hm Hin). by rewrite Hm.
  - intros [id Hg]. unfold getStream in Hg. destruct (streamShards sc !! shard_of id) as [m|] eqn:Em; [|done]. exists (map snd (map_to_list m)). split.
    + apply in_map_iff. exists m. split; [done|]. apply list_elem_of_In. by apply list_elem_of_lookup_2 in Em.
    + apply in_map_iff. exists (id, l). split; [done|]. by apply list_elem_of_In, elem_of_map_to_list.
Qed.
Lemma table_list_nodup sc : inv sc -> NoDup (table_list sc).
Proof.
  intros Hi. apply (concat_nodup _ (fun l => shard_of (stream_id (obj sc l))) 0). intros i ls Hls. rewrite list_lookup_fmap in Hls.
  destruct (streamShards sc !! i) as [m|] eqn:Em; [|done]. injection Hls as <-.
  assert (Hid : forall id l, m !! id = Some l -> i = shard_of id /\ stream_id (obj sc l) = id).
  { intros id l Hm. pose proof (i_shard sc Hi i m id l Em Hm) as Hs. split; [done|]. apply (i_table sc Hi). unfold getStream. rewrite <- Hs, Em. exact Hm. }
  split.
  - apply NoDup_fmap_2_strong; [|apply NoDup_map_to_list]. intros [id1 l1] [id2 l2] H1 H2 E. cbn in E. subst l2.
    apply elem_of_map_to_list in H1, H2. destruct (Hid _ _ H1) as [_ E1], (Hid _ _ H2) as [_ E2]. congruence.
  - intros l Hl. apply in_map_iff in Hl as ([id l'] & E & Hin). cbn in E. subst l'. apply list_elem_of_In, elem_of_map_to_list in Hin.
    destruct (Hid _ _ Hin) as [-> ->]. done.
Qed.

Lemma inv_setting sc id val : inv sc -> is_u32 val -> inv (fst (apply_setting sc id val)).
Proof.
  intros Hi Hv. unfold is_u32 in Hv. unfold apply_setting. destruct (id =? 1); [keep Hi|]. destruct (id =? 2); [destruct (_ && _); [by apply inv_goaway|done]|].
  destruct (id =? 4); [|destruct (id =? 5); [destruct (_ || _); [by apply inv_goaway|keep Hi]|done]].
  destruct (val >? 0x7fffffff) eqn:Eb; [by apply inv_goaway|]. bool_simpl. cbv zeta. pose proof (i_init sc Hi) as Hw. rewrite (i32_id val), i32_id by lia.
  change (table_list { sc with peerInitialWin := val }) with (table_list sc). change (heap { sc with peerInitialWin := val }) with (heap sc).
  destruct (adjust_loop _ _ _) as [h ok] eqn:Ea.
  assert (Hall : Forall (fun l => (l < List.length (heap sc))%nat) (table_list sc)).
  { apply List.Forall_forall. intros l Hl. apply (table_list_in sc l Hi) in Hl as [x Hx]. by apply (i_table sc Hi) in Hx as [? _]. }
  destruct (adjust_spec _ _ _ _ _ (table_list_nodup sc Hi) Hall Ea) as (Hlen & Hobj & Hok & _).
  change ({ { sc with peerInitialWin := val } with heap := h }) with { sc with heap := h; peerInitialWin := val }.
  destruct ok.
  - apply inv_windows; [done|done|exact Hobj|lia|]. intros Hc x l Hg. destruct (Hok eq_refl l) as [Hb Hs]; [apply table_list_in; eauto|].
    rewrite Hs. change (nth l (heap sc) null_stream) with (obj sc l) in *. pose proof (i_window sc Hi Hc x l Hg). rewrite i32_id; lia.
  - set (sc1 := { sc with heap := h; peerInitialWin := val }). destruct (goaway_eq sc1 (maxStreamID sc1) FlowControlError) as [o Eo].
    cbn [fst]. rewrite Eo.
    assert (Hcl : inv { sc with out := o; closeErr := Some (CloseCode FlowControlError); isClosed := true }) by keep Hi.
    apply (inv_windows _ h val Hcl); [done|exact Hobj|lia|done].
Qed.
Lemma inv_settings n : forall sc p, (List.length p < n)%nat -> inv sc -> bytes_ok p -> inv (fst (settings_loop sc p)).
Proof.
  induction n as [|n IH]; intros sc p Hn Hi Hp; [lia|]. destruct p as [|x0 [|x1 [|x2 [|x3 [|x4 [|x5 p]]]]]]; try exact Hi. cbn [settings_loop].
  do 2 (apply Forall_cons_1 in Hp as [? Hp]).
  assert (Hv : is_u32 (be_get [x2; x3; x4; x5])).
  { apply (be_get_range [x2; x3; x4; x5]). repeat (apply Forall_cons_1 in Hp as [? Hp]). repeat (apply Forall_cons; [done|]). apply Forall_nil. }
  pose proof (inv_setting sc (be_get [x0; x1]) _ Hi Hv) as H1. destruct (apply_setting _ _ _) as [sc1 go]. cbn [fst] in H1. destruct go; [|done].
  apply IH; [cbn in Hn; lia|done|]. repeat (apply Forall_cons_1 in Hp as [? Hp]). done.
Qed.

Lemma inv_OnSettings sc p ack : inv sc -> bytes_ok p -> inv (OnSettings_ sc p ack).
Proof.
  intros Hi Hp. unfold OnSettings_. destruct (negb _); [by auto with h2inv|]. destruct ack; [destruct (_ >? 0); by auto with h2inv|]. destruct (negb _); [by auto with h2inv|].
  pose proof (inv_settings _ sc p (Nat.lt_succ_diag_r _) Hi Hp) as H1. destruct (settings_loop sc p) as [sc1 []]; [|exact H1]. by apply inv_fail, inv_write.
Qed.

Lemma inv_OnWindowUpdate sc sid n : inv sc -> is_id n -> inv (OnWindowUpdate_ sc sid n).
Proof.
  intros Hi Hn. unfold is_id in Hn. unfold OnWindowUpdate_. destruct (negb _); [by auto with h2inv|]. destruct (_ || _) eqn:E0; [destruct (sid =? 0); by auto with h2inv|]. bool_simpl.
  destruct (sid >? _); [by auto with h2inv|]. rewrite i32_id by lia. destruct (sid =? 0).
  - unfold updateConnSendWindow. change (Z.shiftl 1 31 - 1) with (2 ^ 31 - 1). destruct (_ >? _) eqn:E; [by apply inv_goaway|]. bool_simpl.
    pose proof (i_conn sc Hi). rewrite i32_id by lia. assert (Hnew : 65535 <= connSendWindow sc + n < 2 ^ 31) by lia. keep Hi.
  - destruct (getStream sc sid) as [l|] eqn:Eg; [|done]. destruct (obj_in_table sc sid l Hi Eg) as (Hl & Hid & Hr). unfold updateStreamSendWindow. cbv zeta.
    change (Z.shiftl 1 31 - 1) with (2 ^ 31 - 1). destruct (_ >? _) eqn:E; bool_simpl.
    + pose proof (inv_rst sc sid FlowControlError Hi) as H1. set (sc1 := writeRstStream _ _ _) in *. pose proof (inv_delete sc1 sid H1) as H2.
      destruct (deleteStream sc1 sid) as [sc2 o] eqn:Ed. cbn [fst] in H2. destruct o as [l'|]; [|exact H2].
      assert (Hl' : live sc2 l').
      { unfold deleteStream in Ed. destruct (getStream sc1 sid) as [l2|] eqn:Eg1; [|done]. injection Ed as <- <-. exact (proj1 (i_table sc1 H1 sid l2 Eg1)). }
      unfold cancel_stream. minor H2; [done|by apply (i_unacked sc2 H2)].
    + apply inv_set; [done|done|reflexivity|exact (fun x => x)|by right|by left|exact (fun _ x => x)| |exact Hr].
      intros Hw. pose proof (i_init sc Hi). change (peerInitialWin sc <= i32 (sendWindow (obj sc l) + n) < 2 ^ 31). change (sendWindow (obj sc l) + n <= 2 ^ 31 - 1) in E. rewrite i32_id by lia. lia.
Qed.

Lemma inv_OnStreamReset sc sid : inv sc -> inv (OnStreamReset_ sc sid).
Proof.
  intros Hi. unfold OnStreamReset_. destruct (negb _); [by auto with h2inv|]. destruct (_ || _); [by auto with h2inv|].
  pose proof (inv_delete sc sid Hi) as H2. destruct (deleteStream sc sid) as [sc2 o] eqn:Ed. cbn [fst] in H2. destruct o as [l|]; [|exact H2].
  assert (Hl : live sc2 l).
  { unfold deleteStream in Ed. destruct (getStream sc sid) as [l2|] eqn:Eg1; [|done]. injection Ed as <- <-. exact (proj1 (i_table sc Hi sid l2 Eg1)). }
  assert (H3 : inv (cancel_stream sc2 l)) by (unfold cancel_stream; minor H2; [done|by apply (i_unacked sc2 H2)]).
  cbv zeta. destruct (pipe _); [by apply inv_pipes|done].
Qed.

Lemma inv_handle stale sc ev : (late = false -> isClosed sc = false) -> inv sc -> event_fits ev -> inv (handle stale sc ev).
Proof.
  intros Hl Hi Hf. destruct ev; cbn [handle event_fits] in *.
  - apply inv_OnStreamData; [done|done|apply Hf].
  - apply inv_OnHeaders; [done|apply Hf].
  - by apply inv_OnContinuation.
  - by apply inv_OnSettings.
  - unfold OnPing_. destruct (negb _); [by auto with h2inv|]. destruct ack; [done|]. by apply inv_fail, inv_write.
  - apply inv_OnWindowUpdate; [done|apply Hf].
  - by apply inv_OnStreamReset.
  - keep Hi.
  - unfold OnPriority_. destruct (negb _); by auto with h2inv.
  - unfold OnUnknownFrame_. destruct (negb _); [by auto with h2inv|]. destruct (_ =? 5); by auto with h2inv.
Qed.

(** ** The calls of the handlers *)
Lemma header_frame_out sc sid code hs n es : exists hp o, fst (write_header_frame sc sid code hs n es) = { sc with hpackEnc := hp; out := o }.
Proof.
  unfold write_header_frame. destruct (SerializeResponseHeaders _ _ _ _) as [hp raw]. cbv zeta.
  destruct (write_out { sc with hpackEnc := hp } sid (if es then Z.lor FlagEndHeaders FlagEndStream else FlagEndHeaders) (FHeaders { Headers_Reset with h_rawHeaders := raw })) as [o ->].
  by exists hp, o.
Qed.
Lemma data_out fuel : forall sc sid mc b es, exists o, fst (data_loop fuel sc sid mc b es) = { sc with out := o }.
Proof.
  induction fuel as [|fuel IH]; intros sc sid mc b es; cbn [data_loop]; [by exists (out sc)|]. destruct (zlen b >? 0); [|by exists (out sc)]. cbv zeta.
  match goal with |- context [write_frame ?a ?b ?c ?d] => destruct (write_out a b c d) as [o Eo]; destruct (write_frame a b c d) as [sc1 ok] end.
  cbn [fst] in Eo. subst sc1. destruct ok; [|by exists o]. destruct (IH { sc with out := o } sid mc (zdrop (Z.min (zlen b) mc) b) es) as [o' ->]. by exists o'.
Qed.
Lemma stream_data_out sc sid b es : exists o, fst (writeStreamData sc sid b es) = { sc with out := o }.
Proof.
  unfold writeStreamData. destruct (zlen b =? 0).
  - destruct es; [|by exists (out sc)]. destruct (write_out sc sid FlagEndStream (FData Data_Reset)) as [o Eo]. destruct (write_frame _ _ _ _) as [sc1 ok]. cbn [fst] in *. by exists o.
  - destruct (data_out (S (List.length b)) sc sid (maxChunk sc) b es) as [o Eo]. destruct (data_loop _ _ _ _ _ _) as [sc1 ok]. cbn [fst] in *. by exists o.
Qed.
Lemma response_out sc sid res : exists hp o, fst (writeResponse sc sid res) = { sc with hpackEnc := hp; out := o }.
Proof.
  unfold writeResponse. cbv zeta. destruct (header_frame_out sc sid (res_StatusCode res) (res_Headers res) (zlen (res_Body res)) (zlen (res_Body res) =? 0)) as (hp & o & Eo).
  destruct (write_header_frame _ _ _ _ _ _) as [sc1 ok]. cbn [fst] in Eo. subst sc1. destruct (negb ok); [by exists hp, o|]. destruct (zlen _ >? 0); [|by exists hp, o].
  match goal with |- context [data_loop ?f ?a ?b ?c ?d ?e] => destruct (data_out f a b c d e) as [o' ->] end. by exists hp, o'.
Qed.
Lemma inv_enc sc hp o : inv sc -> inv { sc with hpackEnc := hp; out := o }.
Proof. intros H. keep H. Qed.

Lemma dispatch_live sc j d : inv sc -> dispatches sc !! j = Some d -> dp_done d = false -> live sc (dp_stream d) /\ In (dp_stream d) (started sc).
Proof.
  intros Hi Hd Hn. assert (Hin : In (dp_stream d) (started sc)) by (apply undone_started; [apply list_elem_of_In; by eapply list_elem_of_lookup_2|done]).
  split; [|done]. by apply (i_started sc Hi).
Qed.

(** A dispatch changes, but not what it serves nor whether it has ended. *)
Definition same_dispatch (d d' : dispatch) : Prop := dp_stream d' = dp_stream d /\ dp_req d' = dp_req d /\ dp_done d' = dp_done d.
#[local] Instance same_dispatch_preorder : PreOrder same_dispatch.
Proof. split; [intros d; by split_and!|]. intros x y z (? & ? & ?) (? & ? & ?). split_and!; congruence. Qed.
Lemma same_refl ds : Forall2 same_dispatch ds ds.
Proof. reflexivity. Qed.
Lemma same_lists ds ds' : Forall2 same_dispatch ds ds' ->
  map dp_stream (List.filter undone ds') = map dp_stream (List.filter undone ds) /\ handed ds' = handed ds.
Proof.
  unfold handed. induction 1 as [|d d' ds ds' (E1 & E2 & E3) _ [IH1 IH2]]; [done|].
  assert (Eu : undone d' = undone d) by (unfold undone; by rewrite E3). assert (Eo : ordinary d' = ordinary d) by (unfold ordinary; by rewrite E2).
  cbn [List.filter]. rewrite Eu, Eo. split; [destruct (undone d)|destruct (ordinary d)]; cbn [map]; congruence.
Qed.
Lemma inv_dispatches sc ds : inv sc -> Forall2 same_dispatch (dispatches sc) ds -> inv { sc with dispatches := ds }.
Proof.
  intros [H1 H2 H3 H4 H5 H6 HT H7 H8 HS H9 H10 H11 H12 H13 H14 H15 HP HD HN] Hd. set (sc' := { sc with dispatches := ds }). destruct (same_lists _ _ Hd) as [Em Eh].
  assert (E : started sc' = started sc) by (unfold started; change (dispatches sc') with ds; by rewrite Em).
  assert (Hall : forall P : dispatch -> Prop, (forall d d', same_dispatch d d' -> P d -> P d') -> Forall P (dispatches sc) -> Forall P ds).
  { intros P HPP HF. clear - Hd HPP HF. revert HF. induction Hd as [|d d' x y Hdd _ IH]; intros HF; [constructor|]. apply Forall_cons_1 in HF as [Hx HF]. constructor; eauto. }
  split; try assumption.
  - intros l. rewrite E. apply H8.
  - intros H0 l. rewrite E. exact (HS H0 l).
  - intros l. rewrite E. apply H9.
  - eapply Hall; [|exact H10]. intros d d' (E1 & E2 & E3). unfold request_of. rewrite E1, E2, E3. exact (fun x => x).
  - rewrite E. exact HP.
  - rewrite E. eapply Hall; [|exact HD]. intros d d' (E1 & E2 & E3). rewrite E2, E3. exact (fun x => x).
  - change (NoDup (handed ds)). by rewrite Eh.
Qed.
Lemma inv_dispatch sc j d d' :
  inv sc -> dispatches sc !! j = Some d -> same_dispatch d d' -> inv { sc with dispatches := <[j := d']> (dispatches sc) }.
Proof.
  intros Hi Hd Hs. apply inv_dispatches; [done|]. rewrite <- (list_insert_id (dispatches sc) j d Hd) at 1. apply Forall2_insert; [apply same_refl|done].
Qed.

(** A dispatch whose handler is running. *)
Definition running (sc : ServerConn) (j : nat) : Prop := exists d, dispatches sc !! j = Some d /\ dp_done d = false.

Lemma inv_upgrade sc j code hs : inv sc -> running sc j -> inv (fst (UpgradeFn sc j code hs)).
Proof.
  intros Hi (d & Ed & Hn). unfold UpgradeFn. rewrite Ed. cbv zeta. destruct (dispatch_live sc j d Hi Ed Hn) as [Hl _]. unfold writeHeaders.
  match goal with |- context [write_header_frame ?a ?b ?c ?e ?f ?g] => destruct (header_frame_out a b c e f g) as (hp & o & ->) end.
  apply inv_enc. minor Hi; [done|by apply (i_unacked sc Hi)].
Qed.
Lemma inv_stream_data sc sid b es : inv sc -> inv (fst (writeStreamData sc sid b es)).
Proof. intros Hi. destruct (stream_data_out sc sid b es) as [o ->]. by apply inv_out. Qed.
Lemma inv_adapter_write sc j b : inv sc -> inv (fst (adapter_Write sc j b)).
Proof. intros Hi. unfold adapter_Write. destruct (dispatches sc !! j) as [d|]; [|done]. destruct (dp_adapter d) as [[p []]|]; [done|by apply inv_stream_data|done]. Qed.
Lemma inv_adapter_close sc j : inv sc -> inv (adapter_Close sc j).
Proof.
  intros Hi. unfold adapter_Close. destruct (dispatches sc !! j) as [d|] eqn:Ed; [|done]. destruct (dp_adapter d) as [[p []]|]; [done| |done].
  apply inv_stream_data, inv_pipes. by apply (inv_dispatch sc j d).
Qed.
(** It does not touch the streams. *)
Lemma adapter_close_same sc j :
  heap (adapter_Close sc j) = heap sc /\ spawned (adapter_Close sc j) = spawned sc /\ Forall2 same_dispatch (dispatches sc) (dispatches (adapter_Close sc j)).
Proof.
  pose proof same_refl as Hid.
  unfold adapter_Close. destruct (dispatches sc !! j) as [d|] eqn:Ed; [|done]. destruct (dp_adapter d) as [[p []]|]; [done| |done].
  match goal with |- context [writeStreamData ?a ?b ?c ?e] => destruct (stream_data_out a b c e) as [o ->] end. split; [done|]. split; [done|].
  change (Forall2 same_dispatch (dispatches sc) (<[j := { d with dp_adapter := Some (p, true) }]> (dispatches sc))).
  rewrite <- (list_insert_id (dispatches sc) j d Ed) at 1. by apply Forall2_insert.
Qed.

Lemma inv_begin sc i : inv sc -> inv (dispatch_begin sc i).
Proof.
  intros Hi. unfold dispatch_begin. destruct (spawned sc !! i) as [l|] eqn:El; [|done]. cbv zeta.
  assert (Hin : In l (started sc)) by (apply in_app_iff; left; apply list_elem_of_In; by eapply list_elem_of_lookup_2).
  destruct (i_started sc Hi l Hin) as (Hl & _ & _). set (sc0 := { sc with spawned := delete i (spawned sc) }).
  set (p := if is_extended (obj sc0 l) then _ else _).
  assert (Hp : exists sc1 a, p = ({ sc1 with spawned := delete i (spawned sc) }, a) /\ inv sc1 /\ spawned sc1 = spawned sc /\ dispatches sc1 = dispatches sc /\ In l (started sc1)
    /\ is_extended (obj sc0 l) = is_extended (obj sc1 l)).
  { unfold p. change (obj sc0 l) with (obj sc l). destruct (is_extended (obj sc l)) eqn:Ex; [|exists sc, None; by rewrite Ex].
    set (n := List.length (pipes sc)). exists (set_obj { sc with pipes := pipes sc ++ [mkPipe [] false] } l { obj sc l with pipe := Some n }), (Some (n, false)).
    split; [done|]. split; [|split; [done|split; [done|split; [done|]]]].
    - assert (H1 : inv { sc with pipes := pipes sc ++ [mkPipe [] false] }) by by apply inv_pipes. minor H1; [done|by apply (i_unacked sc Hi)].
    - rewrite obj_set_eq by done. symmetry. exact Ex. }
  destruct Hp as (sc1 & a & -> & Hi1 & Es & Ed & Hin1 & Hext). clear Hi Hin Hl. cbv zeta. set (req := mkRequest _ _ _ _ _ _ _ _ _).
  set (d := mkDispatch l req a false).
  assert (Hperm : Permutation (started { sc1 with spawned := delete i (spawned sc); dispatches := dispatches sc1 ++ [d] }) (started sc1)).
  { change (Permutation (delete i (spawned sc) ++ map dp_stream (List.filter undone (dispatches sc1 ++ [d]))) (spawned sc1 ++ map dp_stream (List.filter undone (dispatches sc1)))).
    rewrite filter_app, map_app, Es. cbn [List.filter map]. change (undone d) with true. cbn [map]. change (dp_stream d) with l. rewrite app_assoc, (Permutation_app_comm _ [l]). cbn [app].
    by rewrite (delete_Permutation (spawned sc) i l El) at 2. }
  destruct (i_started sc1 Hi1 l Hin1) as (Hl1 & _ & _).
  pose proof Hi1 as [H1 H2 H3 H4 H5 H6 HT H7 H8 HS H9 H10 H11 H12 H13 H14 H15 HP HD HN].
  split; try assumption.
  - intros x Hx. apply (Permutation_in x Hperm) in Hx. by apply H8.
  - intros H0 x Hx. apply (Permutation_in x Hperm) in Hx. exact (HS H0 x Hx).
  - intros x Hx. pose proof (proj1 (Permutation_count_occ Nat.eq_dec _ _) Hperm x) as Hcount. etransitivity; [|exact (H9 x Hx)]. by rewrite <- Hcount.
  - apply Forall_app. split; [exact H10|]. apply Forall_cons; [|apply Forall_nil]. split; [|intros _; split; [done|exact Hext]]. intros H0. destruct (HS H0 l Hin1) as [Hps [Hcl Hhd]].
    split; [exact Hps|]. split; [exact Hcl|]. split; [exact Hhd|]. exact (conj (proj1 (proj1 (H4 l Hl1))) (proj2 (H4 l Hl1))).
  - destruct HP as [HP1 HP2]. split; [done|]. intros x Hx. destruct (HP2 x Hx) as (Ha & Hb & Ht). split; [done|]. split; [|done]. intros Hin. by apply Hb, (Permutation_in x Hperm).
  - apply Forall_app. split; [|by apply Forall_cons]. eapply Forall_impl; [|exact HD]. intros x Hx Hd. destruct (Hx Hd) as (Ha & Hb & Ht). split; [done|]. split; [done|].
    intros y Hy. by apply Ht, (Permutation_in y Hperm).
  - change (NoDup (handed (dispatches sc1 ++ [d]))). unfold handed. rewrite filter_app, map_app. cbn [List.filter]. destruct (ordinary d) eqn:Eo; [|by rewrite app_nil_r].
    apply list.NoDup_app. split; [exact HN|]. split; [|apply NoDup_singleton]. intros id Hid Hsame. apply list_elem_of_In in Hid, Hsame. cbn in Hsame. destruct Hsame as [<-|[]].
    apply in_map_iff in Hid as (d' & Eid & Hd'). apply filter_In in Hd' as [Hd' Eo']. rewrite Forall_forall in H10, HD.
    destruct (dp_done d') eqn:En.
    + destruct (HD d' Hd' En) as (_ & _ & Ht). apply (Ht l Hin1). by rewrite Eid.
    + destruct (H10 d' Hd') as [_ Hr]. destruct (Hr En) as [E1 E2]. pose proof (undone_started sc1 d' Hd' En) as Hin'. destruct (H8 _ Hin') as (Hl' & _).
      assert (dp_stream d' = l) as E' by (apply H5; [done..|]; rewrite <- E1, Eid; reflexivity).
      assert (Hne : is_extended (obj sc1 l) = false) by (rewrite <- E', <- E2; unfold ordinary in Eo'; by apply negb_true_iff in Eo').
      specialize (H9 l Hne). unfold started in H9. rewrite count_occ_app in H9.
      assert (Ha : (0 < count_occ Nat.eq_dec (spawned sc1) l)%nat) by (apply count_occ_In; rewrite Es; apply list_elem_of_In; by eapply list_elem_of_lookup_2).
      assert (Hb : (0 < count_occ Nat.eq_dec (map dp_stream (List.filter undone (dispatches sc1))) l)%nat).
      { apply count_occ_In. rewrite <- E'. apply in_map, filter_In. split; [done|]. unfold undone. by rewrite En. }
      lia.
Qed.

Lemma alter_lookup {A} (f : A -> A) (ls : list A) j : alter f j ls = match ls !! j with Some x => <[j := f x]> ls | None => ls end.
Proof.
  revert j. induction ls as [|y ls IH]; intros [|j]; try done. change (y :: alter f j ls = match ls !! j with Some x => y :: <[j := f x]> ls | None => y :: ls end).
  rewrite IH. by destruct (ls !! j).
Qed.
Lemma inv_clean sc l : inv sc -> live sc l -> inv (set_obj sc l { obj sc l with cancelled := true; pipe := None; headerBlock := []; body := []; headers := [] }).
Proof.
  intros Hi Hl. apply inv_set; [done|done|reflexivity| |right|by left|exact (fun _ x => x)|exact (fun x => x)|by apply (i_unacked sc Hi)].
  - intros [Hc _]. split; [exact Hc|apply Forall_nil].
  - intros [Hp [Hc _]]. split; [exact Hp|]. split; [exact Hc|apply Forall_nil].
Qed.

(** A goroutine ends. *)
Lemma undone_end ds j d :
  ds !! j = Some d -> dp_done d = false ->
  Permutation (map dp_stream (List.filter undone ds)) (dp_stream d :: map dp_stream (List.filter undone (<[j := { d with dp_done := true }]> ds))).
Proof.
  revert j. induction ds as [|x ds IH]; intros [|j] Hd Hn; try done.
  - injection Hd as ->. change (<[0%nat := { d with dp_done := true }]> (d :: ds)) with ({ d with dp_done := true } :: ds). cbn [List.filter].
    unfold undone at 1. rewrite Hn. change (undone { d with dp_done := true }) with false. done.
  - change (<[S j := { d with dp_done := true }]> (x :: ds)) with (x :: <[j := { d with dp_done := true }]> ds). cbn [List.filter].
    destruct (undone x); [|by apply IH]. cbn [map]. rewrite (IH j Hd Hn). apply Permutation_swap.
Qed.
Lemma handed_end ds j d : ds !! j = Some d -> handed (<[j := { d with dp_done := true }]> ds) = handed ds.
Proof.
  unfold handed. revert j. induction ds as [|x ds IH]; intros [|j] Hd; try done.
  - injection Hd as ->. change (<[0%nat := { d with dp_done := true }]> (d :: ds)) with ({ d with dp_done := true } :: ds). cbn [List.filter].
    change (ordinary { d with dp_done := true }) with (ordinary d). by destruct (ordinary d).
  - change (<[S j := { d with dp_done := true }]> (x :: ds)) with (x :: <[j := { d with dp_done := true }]> ds). cbn [List.filter].
    destruct (ordinary x); cbn [map]; by rewrite (IH j Hd).
Qed.
Lemma inv_ended sc j d :
  inv sc -> dispatches sc !! j = Some d -> dp_done d = false -> count_occ Nat.eq_dec (started sc) (dp_stream d) = 1%nat ->
  getStream sc (stream_id (obj sc (dp_stream d))) = None ->
  inv { sc with pool := pool sc ++ [dp_stream d]; dispatches := <[j := { d with dp_done := true }]> (dispatches sc) }.
Proof.
  intros Hi Hd Hn Hone Hg. set (l := dp_stream d) in *. set (sc' := { sc with pool := pool sc ++ [l]; dispatches := _ }). destruct (dispatch_live sc j d Hi Hd Hn) as [Hl Hin]. fold l in Hl, Hin.
  pose proof Hi as [H1 H2 H3 H4 H5 H6 HT H7 H8 HS H9 H10 H11 H12 H13 H14 H15 [HP1 HP2] HD HN].
  assert (Hperm : Permutation (started sc) (l :: started sc')).
  { unfold started. change (spawned sc') with (spawned sc). change (dispatches sc') with (<[j := { d with dp_done := true }]> (dispatches sc)).
    rewrite (undone_end (dispatches sc) j d Hd Hn). symmetry. apply Permutation_middle. }
  assert (Hsub : forall x, In x (started sc') -> In x (started sc)) by (intros x Hx; apply (Permutation_in x (Permutation_sym Hperm)); by right).
  assert (Hcount : forall x, count_occ Nat.eq_dec (started sc) x = ((if Nat.eq_dec l x then 1 else 0) + count_occ Nat.eq_dec (started sc') x)%nat).
  { intros x. rewrite (proj1 (Permutation_count_occ Nat.eq_dec _ _) Hperm x). cbn [count_occ]. by destruct (Nat.eq_dec l x). }
  assert (Hgone : ~ In l (started sc')).
  { apply (count_occ_not_In Nat.eq_dec). specialize (Hcount l). destruct (Nat.eq_dec l l); [lia|done]. }
  pose proof H10 as Hreq. rewrite Forall_lookup in Hreq. destruct (Hreq j d Hd) as [Hfine Hof]. destruct (Hof Hn) as [Eid _].
  split; try assumption.
  - intros x Hx. by apply H8, Hsub.
  - intros H0 x Hx. by apply (HS H0), Hsub.
  - intros x Hx. specialize (H9 x Hx). rewrite Hcount in H9. lia.
  - apply Forall_insert; [exact H10|]. split; [exact Hfine|done].
  - split.
    + apply list.NoDup_app. split; [done|]. split; [|apply NoDup_singleton]. intros x Hx Hx'. apply list_elem_of_singleton in Hx' as ->. apply list_elem_of_In in Hx. by apply HP2 in Hx as (_ & Hx & _).
    + intros x Hx. apply in_app_iff in Hx as [Hx|[<-|[]]].
      * destruct (HP2 x Hx) as (Ha & Hb & Ht). split; [done|]. split; [|done]. intros Hx'. by apply Hb, Hsub.
      * split; [done|]. split; [done|]. intros id Hid. change (getStream sc id = Some l) in Hid. destruct (H3 id l Hid) as [_ <-]. congruence.
  - apply Forall_insert.
    + eapply Forall_impl; [|exact HD]. intros x Hx Hxd. destruct (Hx Hxd) as (Ha & Hb & Ht). split; [done|]. split; [done|]. intros y Hy. by apply Ht, Hsub.
    + intros _. change (req_StreamID (dp_req d) <= maxStreamID sc /\ getStream sc (req_StreamID (dp_req d)) = None
        /\ forall y, In y (started sc') -> stream_id (obj sc y) <> req_StreamID (dp_req d)). rewrite Eid. fold l. split; [by apply H4|]. split; [done|].
      intros y Hy E. apply Hgone. assert (y = l) as <-; [|done]. apply H5; [by apply H8, Hsub|done|done].
  - change (NoDup (handed (<[j := { d with dp_done := true }]> (dispatches sc)))). by rewrite (handed_end _ _ _ Hd).
Qed.

Lemma inv_end sc j res :
  inv sc -> running sc j -> (forall d, dispatches sc !! j = Some d -> count_occ Nat.eq_dec (started sc) (dp_stream d) = 1%nat) -> inv (dispatch_end sc j res).
Proof.
  intros Hi (d & Ed & Hn) Hone. specialize (Hone d Ed). unfold dispatch_end. rewrite Ed. cbv zeta. set (l := dp_stream d) in *. destruct (dispatch_live sc j d Hi Ed Hn) as [Hl _]. fold l in Hl.
  set (sc1 := if isTunnel (obj sc l) then _ else _).
  assert (H1 : inv sc1 /\ heap sc1 = heap sc /\ spawned sc1 = spawned sc /\ Forall2 same_dispatch (dispatches sc) (dispatches sc1)).
  { unfold sc1. destruct (isTunnel _); [split; [by apply inv_adapter_close|by apply adapter_close_same]|].
    destruct (response_out sc (stream_id (obj sc l)) res) as (hp & o & ->). split; [by apply inv_enc|]. split; [done|]. split; [done|apply same_refl]. }
  clearbody sc1. destruct H1 as (H1 & E1 & S1 & D1). assert (Hl1 : live sc1 l) by (unfold live; by rewrite E1).
  assert (H2 : inv (set_obj sc1 l { obj sc1 l with state := streamClosed })).
  { apply inv_set; [done|done|reflexivity|exact (fun x => x)|by right|by left|done|exact (fun x => x)|by apply (i_unacked sc1 H1)]. }
  set (sc2 := set_obj sc1 l _) in *. assert (Hl2 : live sc2 l) by by apply live_set.
  assert (Id2 : stream_id (obj sc2 l) = stream_id (obj sc l)) by (unfold sc2; rewrite obj_set_eq by done; unfold obj; by rewrite E1).
  pose proof (inv_adapter_close sc2 j H2) as H3. destruct (adapter_close_same sc2 j) as (E3 & S3 & D3). set (sc3 := adapter_Close sc2 j) in *.
  pose proof (inv_delete sc3 (stream_id (obj sc l)) H3) as H4. pose proof (get_delete sc3 (i_shards sc3 H3) (stream_id (obj sc l))) as G4. set (sc4 := fst (deleteStream _ _)) in *.
  assert (E4 : heap sc4 = heap sc3 /\ spawned sc4 = spawned sc3 /\ dispatches sc4 = dispatches sc3) by (unfold sc4, deleteStream; by destruct (getStream _ _)).
  destruct E4 as (E4 & S4 & D4). assert (Hl4 : live sc4 l) by (unfold live; rewrite E4, E3; exact Hl2).
  pose proof (inv_clean sc4 l H4 Hl4) as H5. unfold releaseServerStream. cbv zeta. set (sc5 := set_obj sc4 l _) in *.
  assert (Dall : Forall2 same_dispatch (dispatches sc) (dispatches sc5)).
  { change (dispatches sc5) with (dispatches sc4). rewrite D4. transitivity (dispatches sc1); [exact D1|exact D3]. }
  destruct (Forall2_lookup_l _ _ _ _ _ Dall Ed) as (d5 & Ed5 & Es & Er & En). 
  assert (Est : started sc5 = started sc).
  { unfold started. rewrite (proj1 (same_lists _ _ Dall)). change (spawned sc5) with (spawned sc4). by rewrite S4, S3, <- S1. }
  assert (Hobj : stream_id (obj sc5 l) = stream_id (obj sc l)).
  { unfold sc5. rewrite obj_set_eq by done. change (stream_id (obj sc4 l) = stream_id (obj sc l)). rewrite <- Id2. unfold obj. by rewrite E4, E3. }
  rewrite alter_lookup. change (dispatches { sc5 with pool := pool sc5 ++ [l] }) with (dispatches sc5). rewrite Ed5. unfold l. rewrite <- Es.
  change ({ { sc5 with pool := pool sc5 ++ [dp_stream d5] } with dispatches := ?x }) with { sc5 with pool := pool sc5 ++ [dp_stream d5]; dispatches := x }.
  apply inv_ended; [exact H5|exact Ed5|by rewrite En|by rewrite Est, Es|]. rewrite Es. fold l. rewrite Hobj. change (getStream sc4 (stream_id (obj sc l)) = None). rewrite G4. by rewrite decide_True.
Qed.

Lemma inv_stop ls : forall sc, inv sc -> Forall (live sc) ls -> inv (stop_streams ls sc).
Proof.
  induction ls as [|l ls IH]; intros sc Hi Hall; cbn [stop_streams]; [done|]. apply Forall_cons_1 in Hall as [Hl Hall]. cbv zeta.
  assert (H1 : inv (cancel_stream sc l)) by (unfold cancel_stream; minor Hi; [done|by apply (i_unacked sc Hi)]).
  assert (Hlive : forall x, live (cancel_stream sc l) x <-> live sc x) by (intros x; apply live_set).
  apply IH; [destruct (pipe _); [by apply inv_pipes|done]|]. eapply Forall_impl; [|exact Hall]. intros x Hx. destruct (pipe _); by apply Hlive.
Qed.
Lemma inv_Serve_end sc : inv sc -> inv (Serve_end sc).
Proof.
  intros Hi. unfold Serve_end. cbv zeta. apply inv_clear. assert (H1 : inv { sc with isClosed := true; ctxDone := true }) by keep Hi. apply inv_stop; [exact H1|].
  apply List.Forall_forall. intros l Hl. apply (table_list_in _ l H1) in Hl as [id Hg]. by apply (i_table _ H1 id l).
Qed.
Lemma inv_Close sc : inv sc -> inv (Close sc).
Proof. intros Hi. unfold Close. destruct (isClosed sc); [done|]. keep Hi. Qed.
Lemma inv_Release sc : inv sc -> inv (Release sc).
Proof. intros Hi. assert (H1 : inv { sc with isClosed := true; ctxDone := true; broken := true }) by keep Hi. exact (inv_clear _ H1). Qed.
End invariant.

Lemma inv_weaken late late' sc : (late' = false -> late = false) -> inv late sc -> inv late' sc.
Proof.
  intros H [H1 H2 H3 H4 H5 H6 HT H7 H8 HS H9 H10 H11 H12 H13 H14 H15 HP HD HN]. split; try assumption; auto.
  eapply Forall_impl; [|exact H10]. intros d [Ha Hb]. split; auto.
Qed.

(** ** Events from frames *)
Lemma slice_fits (p q : bytes) lo hi : bytes_ok p -> 0 <= lo <= hi -> hi <= zlen p -> slice p lo hi = @Ok h2_error bytes q -> bytes_ok q /\ zlen q <= zlen p.
Proof.
  intros Hp Hlo Hhi. rewrite slice_ok by lia. intros [= <-]. split; [by apply bytes_ok_ztake, bytes_ok_zdrop|]. rewrite zlen_ztake; [lia|]. rewrite zlen_zdrop; lia.
Qed.
Lemma be4_range a b c d : is_byte a -> is_byte b -> is_byte c -> is_byte d -> is_u32 (be_get [a; b; c; d]) /\ is_id (be_get [Z.land a 0x7F; b; c; d]).
Proof.
  intros Ha Hb Hc Hd. split.
  - apply (be_get_range [a; b; c; d]). repeat (apply Forall_cons; [done|]). apply Forall_nil.
  - rewrite top_cleared by done. apply mask31_range.
Qed.

Lemma events_fit f n evs : bytes_ok f -> complete f n -> frame_events f = Ok evs -> Forall event_fits evs.
Proof.
  intros Hb Hc. destruct (acc_length f [] n Hb Hc) as (_ & El & H0). destruct (acc_payload f [] n Hb Hc) as (_ & p & Ep & Hp & Hpl). destruct (acc_flags f [] n Hb Hc) as (_ & fl & Ef & _).
  destruct (acc_type f [] n Hb Hc) as (_ & t & Et & _). destruct (acc_stream f [] n Hc) as (_ & s & Es). destruct Hc as (H9 & En & Hn). pose proof (length_range f Hb ltac:(lia)) as Hlen. rewrite <- En in Hlen.
  assert (Hz : forall i, 0 <= i < zlen f -> is_byte (znth f i)) by (intros i Hi; unfold znth; apply Forall_nth; [done|unfold zlen in *; lia]).
  assert (Hs : is_id s).
  { unfold StreamID in Es. replace (zlen f <? 9) with false in Es by lia. injection Es as <-. apply be4_range; apply Hz; lia. }
  assert (Hw : forall x, payload32 p 0 true = Ok x -> 4 <= zlen p -> is_id x).
  { intros x Hx H4. destruct (byte_list4 p Hp H4) as (a & b & c & d & r & -> & Ha & Hb' & Hc' & Hd & _ & _ & Hp32). rewrite Hp32 in Hx. injection Hx as <-. by apply be4_range. }
  assert (Hdata : forall d, Data_of f = Ok d -> bytes_ok d /\ zlen d < 2 ^ 24).
  { intros d. unfold Data_of, IsPadded, flag_set. rewrite Ep, Ef. cbn [res_bind]. destruct (negb (negb _)); [intros [= <-]; split; [done|lia]|]. destruct (zlen p =? 0) eqn:Ez; [intros [= <-]; split; [done|lia]|]. bool_simpl.
    destruct (index_spec p 0 Hp ltac:(pose proof (zlen_nonneg p); lia)) as (x & -> & Hx). cbn [res_bind]. cbv zeta. unfold is_byte in Hx. destruct (1 >? _) eqn:E1; [intros [= <-]; split; [apply Forall_nil|rewrite zlen_nil; lia]|]. bool_simpl.
    intros Hd. apply (slice_fits p) in Hd; [|done|lia|lia]. split; [apply Hd|lia]. }
  assert (Hhead : forall d, HeaderBlockFragment f = Ok d -> bytes_ok d /\ zlen d < 2 ^ 24).
  { intros d. unfold HeaderBlockFragment, IsPadded, HasPriority, flag_set. rewrite Ep, Ef. cbn [res_bind]. destruct (_ && _) eqn:Ez; [intros [= <-]; split; [apply Forall_nil|rewrite zlen_nil; lia]|].
    match goal with |- context [res_bind (if ?c then index p 0 else ?e) _] => set (pl := if c then index p 0 else e) end. assert (Hpl' : exists x, pl = Ok x /\ 0 <= x).
    { unfold pl. destruct (negb _) eqn:En'; [|by exists 0]. cbn [andb] in Ez. bool_simpl. destruct (index_spec p 0 Hp ltac:(pose proof (zlen_nonneg p); lia)) as (x & -> & Hx). exists x. unfold is_byte in Hx. split; [done|lia]. }
    destruct Hpl' as (x & -> & Hx). cbn [res_bind]. cbv zeta. destruct (_ || _) eqn:E1; [intros [= <-]; split; [apply Forall_nil|rewrite zlen_nil; lia]|]. bool_simpl.
    intros Hd. apply (slice_fits p) in Hd; [|done| |lia]; [split; [apply Hd|lia]|]. destruct (negb (Z.land fl 8 =? 0)), (negb (Z.land fl 32 =? 0)); lia. }
  unfold frame_events. rewrite El, Ep, Ef, Et, Es. cbn [res_bind]. intros E.
  assert (Hone : forall ev, event_fits ev -> Forall event_fits [ev]) by (intros ev Hev; apply Forall_cons; [done|apply Forall_nil]).
  repeat case_hyp E; try (injection E as <-; first [apply Forall_nil|apply Hone; first [exact I|exact Hp|exact Hs|split; [exact Hs|split; [exact Hp|lia]]]]).
  - destruct (Data_of f) as [d|?|] eqn:Ed; try done. cbn [res_bind] in E. destruct (IsEndStream f); try done. injection E as <-. apply Hone. split; [exact Hs|by apply Hdata].
  - destruct (HeaderBlockFragment f) as [d|?|] eqn:Ed; try done. cbn [res_bind] in E. destruct (IsEndHeaders f); try done. cbn [res_bind] in E. destruct (IsEndStream f); try done. injection E as <-. apply Hone. split; [exact Hs|by apply Hhead].
  - destruct (payload32 p 0 false); try done. injection E as <-. apply Hone, Hs.
  - destruct (payload32 p 0 true); try done. cbn [res_bind] in E. destruct (payload32 p 4 false); try done. injection E as <-. by apply Hone.
  - destruct (payload32 p 0 true) as [x|?|] eqn:Ex; try done. injection E as <-. bool_simpl. apply Hone. split; [exact Hs|]. apply Hw; [done|lia].
Qed.

(** ** The steps of a connection *)

(** Whether an event of the batch is handled after the connection is closed. *)
Fixpoint goes_late (stale : ServerConn -> bytes) (sc : ServerConn) (evs : list h2_event) : bool :=
  match evs with
  | [] => false
  | ev :: evs' => isClosed sc || goes_late stale (handle (stale sc) sc ev) evs'
  end.

(** Whether the object that goroutine [j] puts back to the pool is served by
    another goroutine too. *)
Definition still_served (sc : ServerConn) (j : nat) : bool :=
  match dispatches sc !! j with Some d => negb (count_occ Nat.eq_dec (started sc) (dp_stream d) =? 1)%nat | None => false end.

(** [cf_late]: an event was handled after the connection was closed.
    [cf_shared]: an object went back to the pool while a goroutine had it. *)
Record config := mkConfig { cf_late : bool; cf_shared : bool; cf_conn : ServerConn; cf_buf : ReadBuf }.
Definition start : config := mkConfig false false NewServerConn new_readbuf.

Inductive step : config -> config -> Prop :=
| step_start late sh sc b preface : step (mkConfig late sh sc b) (mkConfig late sh (fst (Serve_start sc preface)) b)
| step_read late sh sc b stale read sc' b' evs :
    bytes_ok read -> 0 < zlen read <= room b -> isClosed sc = false -> readLoop_pass b read = Ok (b', evs) ->
    readLoop_step stale sc b read = Ok (sc', b') ->
    step (mkConfig late sh sc b) (mkConfig (late || goes_late stale sc evs) sh sc' b')
| step_pool late sh sc b ks : step (mkConfig late sh sc b) (mkConfig late sh { sc with gets := ks } b)
| step_begin late sh sc b i : step (mkConfig late sh sc b) (mkConfig late sh (dispatch_begin sc i) b)
| step_upgrade late sh sc b j code hs : running sc j -> step (mkConfig late sh sc b) (mkConfig late sh (fst (UpgradeFn sc j code hs)) b)
| step_write late sh sc b j data : running sc j -> step (mkConfig late sh sc b) (mkConfig late sh (fst (adapter_Write sc j data)) b)
| step_close late sh sc b j : running sc j -> step (mkConfig late sh sc b) (mkConfig late sh (adapter_Close sc j) b)
| step_end late sh sc b j res : running sc j -> step (mkConfig late sh sc b) (mkConfig late (sh || still_served sc j) (dispatch_end sc j res) b)
| step_serve_end late sh sc b : step (mkConfig late sh sc b) (mkConfig late sh (Serve_end sc) b)
| step_Close late sh sc b : step (mkConfig late sh sc b) (mkConfig late sh (Close sc) b)
| step_Release late sh sc b : step (mkConfig late sh sc b) (mkConfig late sh (Release sc) b)
| step_break late sh sc b : step (mkConfig late sh sc b) (mkConfig late sh { sc with broken := true } b).
Definition reachable (c : config) : Prop := rtc step start c.

Lemma inv_start_conn : inv false NewServerConn.
Proof.
  assert (Hlook : forall i m (id : Z) (l : nat), replicate 16 (∅ : gmap Z nat) !! i = Some m -> m !! id = Some l -> False).
  { intros i m id l Hm Hl. apply lookup_replicate in Hm as [-> _]. by rewrite lookup_empty in Hl. }
  assert (Hget : forall id, getStream NewServerConn id = None).
  { intros id. unfold getStream. change (streamShards NewServerConn) with (replicate 16 (∅ : gmap Z nat)). destruct (replicate 16 ∅ !! shard_of id) as [m|] eqn:E; [|done].
    destruct (m !! id) eqn:E1; [|done]. by destruct (Hlook _ _ _ _ E E1). }
  assert (Hnl : forall l, ~ live NewServerConn l) by (intros l Hl; unfold live in Hl; cbn in Hl; lia).
  split; try done; try (intros; by rewrite Hget in *); try (intros l Hl; by destruct (Hnl l)); try (intros; done).
  - intros i m id l Hm Hl. by destruct (Hlook i m id l).
  - intros l l' Hl. by destruct (Hnl l).
  - intros l _. cbn. lia.
  - split; [constructor|done].
  - constructor.
Qed.

Lemma inv_handle_all stale evs : forall late sc, (late = false -> isClosed sc = false) \/ goes_late stale sc evs = true \/ evs = [] ->
  inv late sc -> Forall event_fits evs -> inv (late || goes_late stale sc evs) (handle_all stale sc evs).
Proof.
  induction evs as [|ev evs IH]; intros late sc Hl Hi Hf; cbn [goes_late]; [by rewrite orb_false_r|]. apply Forall_cons_1 in Hf as [Hf Hfs].
  change (handle_all stale sc (ev :: evs)) with (handle_all stale (handle (stale sc) sc ev) evs).
  assert (H1 : inv (late || isClosed sc) (handle (stale sc) sc ev)).
  { apply inv_handle; [|eapply inv_weaken; [|exact Hi]|done].
    - intros H. by apply orb_false_iff in H as [_ H].
    - intros H. by apply orb_false_iff in H as [H _]. }
  rewrite orb_assoc. destruct (goes_late stale (handle (stale sc) sc ev) evs) eqn:Eg.
  - rewrite <- Eg. apply IH; [right; by left|exact H1|exact Hfs].
  - rewrite <- Eg. apply IH; [|exact H1|exact Hfs]. destruct evs as [|ev' evs']; [right; by right|left]. intros _. cbn [goes_late] in Eg. by apply orb_false_iff in Eg as [Eg _].
Qed.

Lemma frames_fit data : bytes_ok data -> Forall event_fits (concat (map events_of (frames data))).
Proof.
  revert data. apply frames_ind; intros data Hb.
  - intros E. destruct (cut_step data Hb) as [-> _]. rewrite E. apply Forall_nil.
  - intros Hc IH. destruct (cut_step data Hb) as [-> _]. pose proof Hc as (H9 & _ & Hn). set (n := 9 + be_get (ztake 3 data)) in *.
    pose proof (length_range data Hb ltac:(lia)). test_true ((9 <=? zlen data) && (n <=? zlen data)). cbn [map concat]. apply Forall_app. split; [|exact IH].
    unfold events_of. destruct (frame_events (ztake n data)) as [evs|?|] eqn:Ev; [|apply Forall_nil|apply Forall_nil].
    apply (events_fit (ztake n data) (be_get (ztake 3 data)) evs); [by apply bytes_ok_ztake| |done].
    unfold complete. rewrite zlen_ztake by (unfold n; lia). split; [unfold n; lia|]. split; [|unfold n; lia].
    f_equal. rewrite <- (ztake_zdrop n data) at 1. rewrite ztake_app_l; [done|]. rewrite zlen_ztake; unfold n; lia.
Qed.

Lemma step_buf c c' : step c c' -> buf_ok (cf_buf c) -> buf_ok (cf_buf c').
Proof.
  intros Hs Hb. destruct Hs; cbn [cf_buf] in *; try exact Hb.
  match goal with H : readLoop_pass _ _ = _ |- _ => rename H into Hpass end. destruct (readLoop_pass_ok b read Hb) as (b2 & E & _ & Hok & _); [done|lia|]. congruence.
Qed.
Lemma step_inv c c' : step c c' -> cf_shared c' = false -> buf_ok (cf_buf c) ->
  cf_shared c = false /\ (inv (cf_late c) (cf_conn c) -> inv (cf_late c') (cf_conn c')).
Proof.
  intros Hs Hsh Hb. destruct Hs; cbn [cf_late cf_conn cf_buf cf_shared] in *; try (split; [exact Hsh|]); try intros Hi.
  - unfold Serve_start. destruct (negb _); [done|]. unfold sendSettings. by apply inv_write.
  - match goal with H : readLoop_pass _ _ = _ |- _ => rename H into Hpass end. destruct (readLoop_pass_ok b read Hb) as (b2 & E & _ & Hok & _); [done|lia|].
    assert (evs = concat (map events_of (frames (rb_data b ++ read)))) as Hevs by congruence. clear E.
    unfold readLoop_step in *. match goal with H : isClosed sc = false |- _ => rewrite H in * end. rewrite Hpass in *. cbn [res_bind fst snd] in *.
    match goal with H : Ok _ = Ok _ |- _ => injection H as <- end. apply inv_handle_all; [by left|done|]. rewrite Hevs. apply frames_fit, bytes_ok_app. split; [apply Hb|done].
  - destruct Hi; split; assumption.
  - by apply inv_begin.
  - by apply inv_upgrade.
  - by apply inv_adapter_write.
  - by apply inv_adapter_close.
  - apply orb_false_iff in Hsh as [-> Hs]. split; [done|]. intros Hi. apply inv_end; [done|done|]. intros d Hd. unfold still_served in Hs. rewrite Hd in Hs.
    apply negb_false_iff, Nat.eqb_eq in Hs. exact Hs.
  - by apply inv_Serve_end.
  - by apply inv_Close.
  - by apply inv_Release.
  - destruct Hi; split; assumption.
Qed.
Lemma h2_reachable_inv c : reachable c -> (cf_shared c = false -> inv (cf_late c) (cf_conn c)) /\ buf_ok (cf_buf c).
Proof.
  intros Hr. assert (H : forall a, rtc step a c -> (cf_shared a = false -> inv (cf_late a) (cf_conn a)) /\ buf_ok (cf_buf a) -> (cf_shared c = false -> inv (cf_late c) (cf_conn c)) /\ buf_ok (cf_buf c)).
  { intros a. induction 1 as [|x y z Hxy _ IH]; [done|]. intros [Hx Hb]. apply IH; [done|]. split; [|by apply (step_buf x y)]. intros Hy. destruct (step_inv x y Hxy Hy Hb) as [Hx' Hi]. auto. }
  apply (H start Hr). split; [intros _; exact inv_start_conn|]. split; [apply Forall_nil|done|done|done].
Qed.

(** ** A closed connection stays closed *)
Lemma closed_write sc sid fl b : isClosed (fst (write_frame sc sid fl b)) = isClosed sc.
Proof. by destruct (write_out sc sid fl b) as [o ->]. Qed.
Lemma closed_goaway sc m c : isClosed (closeWithGoAway sc m c) = true.
Proof. by destruct (goaway_eq sc m c) as [o ->]. Qed.
Lemma closed_fail r : isClosed (fst r) = true -> isClosed (or_fail r) = true.
Proof. unfold or_fail. by destruct (snd r). Qed.
Lemma closed_replenish sc l n : isClosed sc = true -> isClosed (replenishReceiveWindow sc l n) = true.
Proof. intros H. unfold replenishReceiveWindow. rewrite H, orb_true_r. exact H. Qed.
Lemma closed_finish sc l : isClosed (fst (finishHeaderBlock sc l)) = isClosed sc.
Proof. unfold finishHeaderBlock. destruct (finish_loop _ _ _ _ _) as [[hp st] [c|]]; [done|]. destruct (negb _); [done|]. by destruct (_ || _). Qed.
Lemma closed_delete sc id : isClosed (fst (deleteStream sc id)) = isClosed sc.
Proof. unfold deleteStream. by destruct (getStream sc id). Qed.
Lemma closed_header_error sc id e : isClosed sc = true -> isClosed (header_error sc id e) = true.
Proof. intros H. destruct e as [c|]; [|done]. cbn [header_error]. destruct (c =? _); [rewrite closed_delete; unfold writeRstStream; by rewrite closed_write|apply closed_goaway]. Qed.
Lemma closed_settings n : forall sc p, (List.length p < n)%nat -> isClosed sc = true -> isClosed (fst (settings_loop sc p)) = true.
Proof.
  induction n as [|n IH]; intros sc p Hn Hc; [lia|]. destruct p as [|x0 [|x1 [|x2 [|x3 [|x4 [|x5 p]]]]]]; try done. cbn [settings_loop].
  assert (H1 : isClosed (fst (apply_setting sc (be_get [x0; x1]) (be_get [x2; x3; x4; x5]))) = true).
  { unfold apply_setting. repeat case_test; try done; try apply closed_goaway. cbv zeta. destruct (adjust_loop _ _ _) as [h []]; [done|apply closed_goaway]. }
  destruct (apply_setting _ _ _) as [sc1 []]; [|done]. apply IH; [cbn in Hn; lia|done].
Qed.
Lemma closed_handle stale sc ev : isClosed sc = true -> isClosed (handle stale sc ev) = true.
Proof.
  intros Hc. destruct ev; cbn [handle].
  - unfold OnStreamData_. destruct (negb _); [apply closed_goaway|]. destruct (streamID >? _); [apply closed_goaway|]. cbv zeta.
    assert (Hr : isClosed (writeRstStream (if (zlen payload >? 0) && negb (isClosed sc) then sendWindowUpdateFrame sc 0 (u32 (zlen payload)) else sc) streamID StreamClosedError) = true).
    { unfold writeRstStream, sendWindowUpdateFrame. rewrite closed_write. destruct (_ && _); by rewrite ?closed_write. }
    destruct (getStream sc streamID) as [l|]; [|exact Hr]. destruct (_ || _); [exact Hr|]. destruct (isTunnel _).
    + set (sc1 := if zlen payload >? 0 then _ else sc). assert (H1 : isClosed sc1 = true).
      { unfold sc1. destruct (_ >? 0); [|done]. apply closed_replenish. by destruct (pipe _). }
      clearbody sc1. destruct endStream; [|exact H1]. destruct (pipe _); exact H1.
    + assert (H1 : isClosed (if zlen payload >? 0 then replenishReceiveWindow (set_obj sc l { obj sc l with body := body (obj sc l) ++ payload }) l (zlen payload)
                             else set_obj sc l { obj sc l with body := body (obj sc l) ++ payload }) = true) by (destruct (_ >? 0); [by apply closed_replenish|done]).
      destruct endStream; exact H1.
  - unfold OnHeaders_. destruct (negb _); [apply closed_goaway|]. destruct (_ || _); [apply closed_goaway|]. destruct (_ <=? _); [apply closed_goaway|]. cbv zeta.
    destruct (newServerStream _ _ _ _) as [sc1 l1] eqn:E1. assert (H1 : isClosed sc1 = true) by (injection E1 as <- _; by destruct (negb _)).
    destruct endHeaders; [|exact H1]. match goal with |- context [finishHeaderBlock ?s ?x] => pose proof (closed_finish s x) as H2; destruct (finishHeaderBlock s x) as [sc2 e] end.
    apply closed_header_error. cbn [fst] in H2. rewrite H2. exact H1.
  - unfold OnContinuation_. destruct (_ || _); [apply closed_goaway|]. destruct (getStream _ _) as [l|]; [|apply closed_goaway]. cbv zeta. destruct (_ >? 65536); [apply closed_goaway|].
    destruct endHeaders; [|exact Hc]. match goal with |- context [finishHeaderBlock ?s ?x] => pose proof (closed_finish s x) as H2; destruct (finishHeaderBlock s x) as [sc2 e] end.
    apply closed_header_error. cbn [fst] in H2. rewrite H2. exact Hc.
  - unfold OnSettings_. destruct (negb _); [apply closed_goaway|]. destruct ack; [destruct (_ >? 0); [apply closed_goaway|done]|]. destruct (negb _); [apply closed_goaway|].
    pose proof (closed_settings _ sc payload (Nat.lt_succ_diag_r _) Hc) as H1. destruct (settings_loop sc payload) as [sc1 []]; [|exact H1]. apply closed_fail. unfold sendSettings. by rewrite closed_write.
  - unfold OnPing_. destruct (negb _); [apply closed_goaway|]. destruct ack; [done|]. apply closed_fail. unfold writePingAck. by rewrite closed_write.
  - unfold OnWindowUpdate_. destruct (negb _); [apply closed_goaway|]. destruct (_ || _); [destruct (_ =? 0); [apply closed_goaway|unfold writeRstStream; by rewrite closed_write]|].
    destruct (_ >? _); [apply closed_goaway|]. destruct (_ =? 0); [unfold updateConnSendWindow; destruct (_ >? _); [apply closed_goaway|exact Hc]|].
    destruct (getStream _ _) as [l|]; [|done]. unfold updateStreamSendWindow. cbv zeta. destruct (_ >? _); [|exact Hc].
    pose proof (closed_delete (writeRstStream sc streamID FlowControlError) streamID) as H1. unfold writeRstStream in H1. rewrite closed_write in H1. fold (writeRstStream sc streamID FlowControlError) in H1.
    destruct (deleteStream _ _) as [sc2 [l2|]]; cbn [fst] in H1; [change (isClosed (cancel_stream sc2 l2)) with (isClosed sc2)|]; by rewrite H1.
  - unfold OnStreamReset_. destruct (negb _); [apply closed_goaway|]. destruct (_ || _); [apply closed_goaway|]. pose proof (closed_delete sc streamID) as H1.
    destruct (deleteStream _ _) as [sc2 [l2|]]; cbn [fst] in H1; [|by rewrite H1]. rewrite Hc in H1. cbv zeta. destruct (pipe _); exact H1.
  - done.
  - unfold OnPriority_. destruct (negb _); [apply closed_goaway|done].
  - unfold OnUnknownFrame_. destruct (negb _); [apply closed_goaway|]. destruct (_ =? 5); [apply closed_goaway|done].
Qed.
Lemma closed_all stale evs : forall sc, isClosed sc = true -> isClosed (handle_all stale sc evs) = true.
Proof. induction evs as [|ev evs IH]; intros sc Hc; [done|]. apply (IH (handle (stale sc) sc ev)). by apply closed_handle. Qed.
Lemma late_closed stale evs : forall sc, goes_late stale sc evs = true -> isClosed (handle_all stale sc evs) = true.
Proof.
  induction evs as [|ev evs IH]; intros sc; cbn [goes_late]; [done|]. intros H. apply orb_true_iff in H as [H|H].
  - by apply (closed_all stale (ev :: evs)).
  - exact (IH _ H).
Qed.

(** ** Theorems *)

(** C4: the invariant holds after any steps of a connection: whatever bytes the
    peer sends and however they are cut into reads, whatever the handlers do in
    between, whichever released object the pool returns, and when the connection
    ends.  The table maps a stream's number to its object; the numbers of the
    objects are odd, distinct, and at most [maxStreamID]; the send windows stay
    between their initial value and 2^31 - 1, the credits to be announced below
    32768; a stream whose header block is open has not been started; an object in
    the pool is there once, in no goroutine and not in the table; a stream that was
    served is not in the table and not served again; the read buffer stays below
    2^25 + 18 bytes.  It needs that no goroutine put an object back to the pool that
    another one still served; only the two goroutines of one extended CONNECT can do
    that, and then streams share objects ([h2_streams_share_object]). *)
Theorem h2_server_invariant (c : config) :
  reachable c ->
  buf_ok (cf_buf c) /\
  (cf_shared c = false ->
   inv (cf_late c) (cf_conn c)
   /\ forall j, running (cf_conn c) j -> still_served (cf_conn c) j = true ->
      exists d, dispatches (cf_conn c) !! j = Some d /\ is_extended (obj (cf_conn c) (dp_stream d)) = true).
Proof.
  intros Hr. destruct (h2_reachable_inv c Hr) as [Hi Hb]. split; [done|]. intros Hs. specialize (Hi Hs). split; [done|].
  intros j (d & Hd & Hn) Hj. exists d. split; [done|]. destruct (is_extended _) eqn:Ee; [done|]. unfold still_served in Hj. rewrite Hd in Hj.
  pose proof (i_once _ _ Hi _ Ee) as H1. destruct (dispatch_live _ _ j d Hi Hd Hn) as [_ Hin]. apply (count_occ_In Nat.eq_dec) in Hin.
  apply negb_true_iff, Nat.eqb_neq in Hj. lia.
Qed.

(** A GET request in one read. *)
Definition get_block : bytes := [0x82; 0x84; 0x87].
Definition get_frame : bytes := out_bytes (1, Z.lor FlagEndHeaders FlagEndStream, FHeaders { Headers_Reset with h_rawHeaders := get_block }).
Definition no_stale : ServerConn -> bytes := fun _ => [0; 0; 0; 0; 0; 0; 0; 0].
Definition after_get : ServerConn := handle_all no_stale NewServerConn [OnHeaders 1 get_block true true].
Definition served : ServerConn := dispatch_begin after_get 0.
Lemma served_reachable : reachable (mkConfig false false served new_readbuf).
Proof.
  eapply rtc_l; [|eapply rtc_l; [|apply rtc_refl]].
  - apply (step_read false false NewServerConn new_readbuf no_stale get_frame after_get new_readbuf [OnHeaders 1 get_block true true]);
      [apply (bool_decide_unpack _); vm_compute; exact I|vm_compute; split; [reflexivity|discriminate]|vm_compute; reflexivity..].
  - change (false || goes_late no_stale NewServerConn [OnHeaders 1 get_block true true]) with false. apply step_begin.
Qed.
(** The stream is served, its object goes to the pool, and the next stream gets it. *)
Definition get_frame3 : bytes := out_bytes (3, Z.lor FlagEndHeaders FlagEndStream, FHeaders { Headers_Reset with h_rawHeaders := get_block }).
Definition recycled : ServerConn :=
  handle_all no_stale { dispatch_end served 0 (mkResponse 200 [] []) with gets := [0%nat] } [OnHeaders 3 get_block true true].
Lemma recycled_reachable : reachable (mkConfig false false recycled new_readbuf).
Proof.
  unfold reachable. etransitivity; [exact served_reachable|]. eapply rtc_l; [|eapply rtc_l; [|eapply rtc_l; [|apply rtc_refl]]].
  - apply (step_end false false served new_readbuf 0 (mkResponse 200 [] [])). eexists. split; vm_compute; reflexivity.
  - change (false || still_served served 0) with false. apply (step_pool _ _ _ _ [0%nat]).
  - set (sc := { dispatch_end served 0 (mkResponse 200 [] []) with gets := [0%nat] }).
    pose proof (step_read false false sc new_readbuf no_stale get_frame3 recycled new_readbuf [OnHeaders 3 get_block true true]) as Hstep.
    replace (false || goes_late no_stale sc [OnHeaders 3 get_block true true]) with false in Hstep by (vm_compute; reflexivity). apply Hstep;
      [apply (bool_decide_unpack _); vm_compute; exact I|vm_compute; split; [reflexivity|discriminate]|vm_compute; reflexivity..].
Qed.
Lemma h2_server_invariant_witness : inv false recycled /\ getStream recycled 3 = Some 0%nat /\ List.length (heap recycled) = 1%nat.
Proof. split; [exact (proj1 (proj2 (h2_server_invariant _ recycled_reachable) eq_refl))|split; vm_compute; reflexivity]. Defined.

(** C5: what the handlers see.  As long as no event was handled after the
    connection was closed, every request handed to a handler has a method; the
    pseudo-headers its method needs: [:scheme] and [:path] for all but CONNECT, only
    [:authority] for CONNECT, all of them and [:protocol] for an extended CONNECT,
    which must be enabled; none of these and no header value has an octet the code
    refuses (NUL, CR, LF); every header name passed the code's check of names and is
    not connection-specific; and the stream number is odd.  Whenever events were
    handled, no two requests handed out have the same stream number, but for
    extended CONNECT.  Both need that no object went back to the pool while a
    goroutine served it. *)
Theorem h2_requests_sound (c : config) :
  reachable c -> cf_shared c = false ->
  (cf_late c = false -> Forall (fun d => request_fine (EnableConnect (cf_conn c)) (dp_req d)) (dispatches (cf_conn c)))
  /\ NoDup (handed (dispatches (cf_conn c))).
Proof.
  intros Hr Hs. destruct (h2_reachable_inv c Hr) as [Hi _]. specialize (Hi Hs). split; [|apply (i_handed _ _ Hi)].
  intros Hl. eapply Forall_impl; [|exact (i_requests _ _ Hi)]. intros d [Hd _]. by apply Hd.
Qed.
Lemma h2_requests_sound_witness :
  Forall (fun d => request_fine true (dp_req d)) (dispatches served) /\ handed (dispatches served) = [1]
  /\ map (fun d => req_Method (dp_req d)) (dispatches served) = [bytes_of_string "GET"].
Proof. split; [exact (proj1 (h2_requests_sound _ served_reachable eq_refl) eq_refl)|split; vm_compute; reflexivity]. Defined.

(** The connection after GOAWAY(PROTOCOL_ERROR): only the frame and the closing differ. *)
Definition goaway_sent (sc : ServerConn) : ServerConn :=
  { fst (writeGoAway sc (maxStreamID sc) ProtocolError) with closeErr := Some (CloseCode ProtocolError); isClosed := true }.

(** C20: a header block must be contiguous.  While one is open, every event of the
    read loop but a CONTINUATION of its stream and a GOAWAY is answered with
    GOAWAY(PROTOCOL_ERROR), closes the connection and has no other effect.  The
    frames for which the read loop raises no event are not seen here at all
    ([h2_block_interrupted_unseen]), and a GOAWAY closes the connection without the
    check ([h2_block_goaway_unchecked]). *)
Theorem h2_header_block_contiguous (sc : ServerConn) (stale : bytes) (ev : h2_event) :
  continuationStream sc <> 0 ->
  match ev with OnContinuation sid _ _ => sid <> continuationStream sc | OnGoAway _ _ => False | _ => True end ->
  handle stale sc ev = goaway_sent sc.
Proof.
  intros Hc Hev. assert (Ec : negb (continuationStream sc =? 0) = true) by (bool_simpl; lia).
  assert (Eg : closeWithGoAway sc (maxStreamID sc) ProtocolError = goaway_sent sc)
    by (unfold closeWithGoAway, goaway_sent; by destruct (writeGoAway _ _ _)).
  rewrite <- Eg. destruct ev; try done; cbn [handle];
    unfold OnStreamData_, OnHeaders_, OnContinuation_, OnSettings_, OnPing_, OnWindowUpdate_, OnStreamReset_, OnPriority_, OnUnknownFrame_; rewrite ?Ec; try done.
  replace (negb (continuationStream sc =? streamID)) with true by (bool_simpl; lia). by rewrite orb_true_r.
Qed.
Definition block_open : ServerConn := handle_all no_stale NewServerConn [OnHeaders 1 get_block false true].
Lemma h2_header_block_contiguous_witness :
  handle [] block_open (OnWindowUpdate 0 5) = goaway_sent block_open.
Proof. apply (h2_header_block_contiguous block_open [] (OnWindowUpdate 0 5)); [vm_compute; discriminate|exact I]. Defined.

(** The handler of GOAWAY is the only one that does not look at the open block: it
    closes the connection without an error, where the other frames give
    PROTOCOL_ERROR. *)
Theorem h2_block_goaway_unchecked (sc : ServerConn) (stale : bytes) (last code : Z) :
  let sc' := handle stale sc (OnGoAway last code) in
  isClosed sc' = true /\ closeErr sc' = None /\ out sc' = out sc /\ continuationStream sc' = continuationStream sc.
Proof. done. Qed.

(** A RST_STREAM of three bytes, a WINDOW_UPDATE of three and a GOAWAY of seven in
    the middle of a header block raise no event: the block goes on after them, and
    the request is started. *)
Definition raw_frame (t fl sid : Z) (p : bytes) : bytes := be_put 3 (zlen p) ++ [t; fl] ++ be_put 4 sid ++ p.
Definition split_block : bytes :=
  out_bytes (1, FlagEndStream, FHeaders { Headers_Reset with h_rawHeaders := [0x82; 0x84] })
  ++ raw_frame 3 0 1 [0; 0; 0] ++ raw_frame 8 0 0 [0; 0; 1] ++ raw_frame 7 0 0 [0; 0; 0; 0; 0; 0; 0]
  ++ raw_frame 9 FlagEndHeaders 1 [0x87].
Theorem h2_block_interrupted_unseen :
  match readLoop_step no_stale NewServerConn new_readbuf split_block with
  | Ok (sc, _) => isClosed sc = false /\ out sc = [] /\ spawned sc = [0%nat]
  | _ => False
  end.
Proof. vm_compute. repeat split; reflexivity. Qed.
