(* ===== verification/H2Exchange.v ===== *)
(** * A request and a response over HTTP/2

    Over [H2Server]: what a client encodes and cuts into frames reaches a handler of
    the server as it was sent; what a handler answers arrives as it was given.  The
    client is the package's own encoder, decoder and frame writer.  Then the ways
    in which the server does not do what it should, each as a run of the model. *)

From Stdlib Require Import Ascii String.
From stdpp Require Import gmap.
From S2P Require Import Prelude Intern HpackInt Huffman Hpack H2Frames H2Fsm H2Server H2ServerInv.
Open Scope Z_scope.

(** ** Header blocks *)
Fixpoint add_fields (st : serverStream) (regular : bool) (fs : list HeaderField) : option (serverStream * bool) :=
  match fs with
  | [] => Some (st, regular)
  | hf :: fs' => match add_field st regular hf with Some (st, regular) => add_fields st regular fs' | None => None end
  end.

Lemma add_field_match st reg hf hf' : field_match hf hf' -> add_field st reg hf' = add_field st reg hf.
Proof. intros (Hk & Hv & _). unfold add_field, Empty, IsPseudo. by rewrite Hk, Hv. Qed.

(** The decoder of the server sees the fields the encoder was given. *)
Lemma finish_block fs : forall enc dec st reg st' reg',
  synced enc dec -> (pendingTableSizeUpdate enc = true -> tableSizeUpdateAllowed dec = true) -> Forall sendable fs ->
  add_fields st reg (map fst fs) = Some (st', reg') ->
  exists enc' b, (forall dst, encode_block enc dst fs = (enc', dst ++ b))
  /\ exists dec', (forall fuel, (List.length b < fuel)%nat -> finish_loop fuel dec st reg b = (dec', st', None)) /\ synced enc' dec'.
Proof.
  induction fs as [|[hf store] fs IH]; intros enc dec st reg st' reg' Hs Hallow Hfs Ha.
  { injection Ha as <- <-. exists enc, []. split; [intros dst; by rewrite app_nil_r|]. exists dec. split; [|done]. intros [|fuel] Hl; [cbn in Hl; lia|done]. }
  apply Forall_cons_1 in Hfs as [[Hf Hnl] Hfs]. cbn [map fst add_fields] in Ha. destruct (add_field st reg hf) as [[st1 reg1]|] eqn:E1; [|done].
  destruct (header_back enc dec hf store Hs Hallow Hf Hnl) as (enc1 & b1 & Hb1 & Hl1 & Hp1 & dec1 & hf' & Hn1 & Hs1 & Hm1 & _).
  destruct (IH enc1 dec1 st1 reg1 st' reg' Hs1 ltac:(by rewrite Hp1) Hfs Ha) as (enc2 & b2 & Hb2 & dec2 & Hd2 & Hs2).
  exists enc2, (b1 ++ b2). split; [intros dst; cbn [encode_block]; by rewrite Hb1, Hb2, app_assoc|]. exists dec2. split; [|done].
  intros [|fuel] Hl; [cbn in Hl; lia|]. cbn [finish_loop]. pose proof (zlen_nonneg b2). rewrite zlen_app. replace (zlen b1 + zlen b2 >? 0) with true by lia.
  rewrite Hn1, (add_field_match st reg hf hf' Hm1), E1. rewrite length_app in Hl. unfold zlen in Hl1. by rewrite Hd2 by lia.
Qed.

(** ** Requests *)
Record request := mkReq {
  rq_method : bytes; rq_scheme : bytes; rq_path : bytes; rq_authority : bytes; rq_headers : list (bytes * bytes); rq_body : bytes }.

Definition pseudo (k : string) (v : bytes) : HeaderField := mkField (bytes_of_string k) v false.
Definition request_fields (r : request) : list HeaderField :=
  [pseudo ":method" (rq_method r); pseudo ":scheme" (rq_scheme r); pseudo ":path" (rq_path r)]
  ++ (if bool_decide (rq_authority r = []) then [] else [pseudo ":authority" (rq_authority r)])
  ++ map (fun kv => mkField (fst kv) (snd kv) false) (rq_headers r).

(** A request that is not a CONNECT, as RFC 9113 wants it; [field_ok] bounds the
    size of a field and asks for names in the spelling the package uses. *)
Definition header_wf (kv : bytes * bytes) : Prop :=
  ValidateHeaderName (fst kv) false = true /\ IsConnectionSpecificHeader (fst kv) (snd kv) = false.
Record request_wf (r : request) : Prop := {
  rw_method : rq_method r <> [] /\ rq_method r <> CONNECT;
  rw_scheme : rq_scheme r <> [];
  rw_path : rq_path r <> [];
  rw_values : Forall (fun hf => ValidateHeaderValue (value hf) = true) (request_fields r);
  rw_headers : Forall header_wf (rq_headers r);
  rw_fields : Forall (fun hf => field_ok hf /\ ~ lost_field hf) (request_fields r)
}.

Definition canonical (kv : bytes * bytes) : bytes * bytes := (CanonicalMIMEHeaderKey (fst kv), snd kv).
(** What the server makes of it. *)
Definition with_request (st : serverStream) (r : request) : serverStream :=
  { st with method := rq_method r; scheme := rq_scheme r; path := rq_path r; authority := rq_authority r;
            headers := headers st ++ map canonical (rq_headers r) }.
Definition blank (st : serverStream) : Prop := method st = [] /\ scheme st = [] /\ path st = [] /\ authority st = [] /\ protocol st = [].

Lemma add_fields_app a : forall st reg b, add_fields st reg (a ++ b) = match add_fields st reg a with Some (st, reg) => add_fields st reg b | None => None end.
Proof. induction a as [|hf a IH]; intros st reg b; [done|]. cbn [app add_fields]. destruct (add_field st reg hf) as [[st1 reg1]|]; [apply IH|done]. Qed.

Lemma add_pseudo st k v : ValidateHeaderValue v = true -> ValidateHeaderName (bytes_of_string k) true = true -> IsPseudo (pseudo k v) = true -> Empty (pseudo k v) = false ->
  add_field st false (pseudo k v) = match set_pseudo st (bytes_of_string k) v with Some st => Some (st, false) | None => None end.
Proof. intros Hv Hn Hp He. unfold add_field. rewrite He, Hp. change (key (pseudo k v)) with (bytes_of_string k). change (value (pseudo k v)) with v. by rewrite Hn, Hv. Qed.

Lemma add_headers hs : forall st reg,
  Forall header_wf hs -> Forall (fun kv => ValidateHeaderValue (snd kv) = true) hs ->
  exists reg', add_fields st reg (map (fun kv => mkField (fst kv) (snd kv) false) hs) = Some ({ st with headers := headers st ++ map canonical hs }, reg').
Proof.
  induction hs as [|[k v] hs IH]; intros st reg Hw Hv; cbn [map add_fields].
  { exists reg. rewrite app_nil_r. done. }
  apply Forall_cons_1 in Hw as [[Hn Hc] Hw]. apply Forall_cons_1 in Hv as [Hv Hvs]. cbn [fst snd] in *.
  assert (Hp : IsPseudo (mkField k v false) = false /\ Empty (mkField k v false) = false).
  { unfold ValidateHeaderName in Hn. unfold IsPseudo, Empty. cbn [key value]. destruct (zlen k =? 0) eqn:E0; [done|]. cbn [andb]. split; [|done].
    destruct k as [|c k]; [done|]. change (znth (c :: k) 0) with c. cbn [existsb] in Hn. unfold bad_name_char at 1 in Hn. destruct (c =? 58); [|by rewrite andb_false_r].
    rewrite !orb_true_r in Hn. done. }
  destruct Hp as [Hp He]. unfold add_field at 1. rewrite He, Hp. cbn [key value]. rewrite Hn, Hv, Hc. cbn [negb].
  destruct (IH { st with headers := Header_Add (headers st) k v } true Hw Hvs) as [reg' ->]. exists reg'. f_equal. f_equal.
  change (headers { st with headers := Header_Add (headers st) k v }) with (headers st ++ [(CanonicalMIMEHeaderKey k, v)]). by rewrite <- app_assoc.
Qed.

Lemma add_request st r : request_wf r -> blank st -> exists reg, add_fields st false (request_fields r) = Some (with_request st r, reg).
Proof.
  intros [[Hm _] Hs Hp Hv Hh _] (B1 & B2 & B3 & B4 & B5). unfold request_fields in *. rewrite !add_fields_app.
  apply Forall_app in Hv as [Hv1 Hv]. apply Forall_app in Hv as [Hv2 Hv3]. repeat (apply Forall_cons_1 in Hv1 as [? Hv1]).
  cbn [add_fields]. rewrite add_pseudo by done.
  assert (E1 : set_pseudo st (bytes_of_string ":method") (rq_method r) = Some { st with method := rq_method r }).
  { transitivity (if bool_decide (method st = []) then Some { st with method := rq_method r } else None); [reflexivity|]. by rewrite B1. }
  rewrite E1. rewrite add_pseudo by done. set (st1 := { st with method := rq_method r }).
  assert (E2 : set_pseudo st1 (bytes_of_string ":scheme") (rq_scheme r) = Some { st1 with scheme := rq_scheme r }).
  { transitivity (if bool_decide (scheme st = []) then Some { st1 with scheme := rq_scheme r } else None); [reflexivity|]. by rewrite B2. }
  rewrite E2. rewrite add_pseudo by done. set (st2 := { st1 with scheme := rq_scheme r }).
  assert (E3 : set_pseudo st2 (bytes_of_string ":path") (rq_path r) = Some { st2 with path := rq_path r }).
  { transitivity (if bool_decide (path st = []) then Some { st2 with path := rq_path r } else None); [reflexivity|]. by rewrite B3. }
  rewrite E3. set (st3 := { st2 with path := rq_path r }).
  assert (E4 : add_fields st3 false (if bool_decide (rq_authority r = []) then [] else [pseudo ":authority" (rq_authority r)]) = Some ({ st3 with authority := rq_authority r }, false)).
  { destruct (bool_decide_reflect (rq_authority r = [])) as [E|E].
    - rewrite E. cbn [add_fields]. rewrite <- B4. reflexivity.
    - apply Forall_cons_1 in Hv2 as [? _]. cbn [add_fields]. rewrite add_pseudo by done.
      assert (E4 : set_pseudo st3 (bytes_of_string ":authority") (rq_authority r) = Some { st3 with authority := rq_authority r }).
      { transitivity (if bool_decide (authority st = []) then Some { st3 with authority := rq_authority r } else None); [reflexivity|]. by rewrite B4. }
      by rewrite E4. }
  rewrite add_fields_app, E4. apply add_headers; [exact Hh|]. rewrite Forall_map in Hv3. exact Hv3.
Qed.

(** *** The frames of a request *)
Definition none {A} (l : list A) : bool := match l with [] => true | _ => false end.
Fixpoint cont_events (sid : Z) (ps : list bytes) : list h2_event :=
  match ps with [] => [] | p :: ps' => OnContinuation sid p (none ps') :: cont_events sid ps' end.
Fixpoint data_events (sid : Z) (ds : list bytes) : list h2_event :=
  match ds with [] => [] | d :: ds' => OnStreamData sid d (none ds') :: data_events sid ds' end.
(** A header block in the pieces [p0] and [ps], a body in the pieces [ds]. *)
Definition request_events (sid : Z) (p0 : bytes) (ps ds : list bytes) : list h2_event :=
  OnHeaders sid p0 (none ps) (none ds) :: cont_events sid ps ++ data_events sid ds.

(** *** The new stream *)
Definition opened (sc : ServerConn) (sid : Z) (st : serverStream) (dec : HPACK) : ServerConn :=
  { add_stream sc sid st with continuationStream := 0; hpackDec := dec }.

Section new_stream.
Context (sc : ServerConn) (sid : Z) (Hn : (slot sc <= List.length (heap sc))%nat).
  Abbreviation n := (slot sc).

Lemma add_live st : live (add_stream sc sid st) n.
Proof. apply (length_store (heap sc) (slot sc) st n Hn). by right. Qed.
Lemma add_obj st : obj (add_stream sc sid st) n = st.
Proof. change (nth n (store (heap sc) n st) null_stream = st). rewrite nth_store by done. by rewrite decide_True. Qed.
Lemma add_old st l : l <> n -> obj (add_stream sc sid st) l = obj sc l.
Proof. intros Hl. change (nth l (store (heap sc) n st) null_stream = obj sc l). rewrite nth_store by done. by rewrite decide_False. Qed.
Lemma add_set st st' : set_obj (add_stream sc sid st) n st' = add_stream sc sid st'.
Proof.
    unfold set_obj. change (heap (add_stream sc sid st)) with (store (heap sc) n st). by rewrite store_store.
Qed.
Lemma add_get st id : List.length (streamShards sc) = 16%nat -> getStream (add_stream sc sid st) id = if decide (id = sid) then Some n else getStream sc id.
Proof. intros Hs. unfold add_stream. by rewrite get_put. Qed.
End new_stream.

Lemma handle_all_app stale sc a b : handle_all stale sc (a ++ b) = handle_all stale (handle_all stale sc a) b.
Proof. unfold handle_all. apply fold_left_app. Qed.

(** The CONTINUATION frames but the last. *)
Lemma continuation_step sc sid st p :
  (slot sc <= List.length (heap sc))%nat -> List.length (streamShards sc) = 16%nat -> sid <> 0 -> zlen (headerBlock st) + zlen p <= 65536 ->
  OnContinuation_ (add_stream sc sid st) sid p false = add_stream sc sid { st with headerBlock := headerBlock st ++ p }
  /\ OnContinuation_ (add_stream sc sid st) sid p true =
     let '(sc2, e) := finishHeaderBlock { add_stream sc sid { st with headerBlock := headerBlock st ++ p; endHeaders := true } with continuationStream := 0 } (slot sc) in
     header_error sc2 sid e.
Proof.
  intros Hn Hs H0 Hl. unfold OnContinuation_. change (continuationStream (add_stream sc sid st)) with sid. test_false (sid =? 0). rewrite Z.eqb_refl. cbn [negb orb].
  rewrite add_get, decide_True by done. rewrite add_obj by done. replace (zlen (headerBlock st) + zlen p >? 65536) with false by lia. cbv zeta. rewrite add_set by done. split; [done|].
  set (st1 := { st with headerBlock := headerBlock st ++ p }).
  change (obj { add_stream sc sid st1 with continuationStream := 0 } (slot sc)) with (obj (add_stream sc sid st1) (slot sc)). rewrite add_obj by done.
  change (set_obj { add_stream sc sid st1 with continuationStream := 0 } (slot sc) { st1 with endHeaders := true })
    with { set_obj (add_stream sc sid st1) (slot sc) { st1 with endHeaders := true } with continuationStream := 0 }. by rewrite add_set by done.
Qed.

(** The end of the header block. *)
Lemma block_finished sc sid st r dec' :
  (slot sc <= List.length (heap sc))%nat -> request_wf r -> blank st -> headers st = [] -> state st = streamOpen ->
  finish_loop (S (List.length (headerBlock st))) (BeginHeaderBlock (hpackDec sc)) st false (headerBlock st) = (dec', with_request st r, None) ->
  (let '(sc2, e) := finishHeaderBlock { add_stream sc sid st with continuationStream := 0 } (slot sc) in header_error sc2 sid e)
  = if endStream st then { opened sc sid { with_request st r with state := streamHalfClosedRemote } dec' with spawned := spawned sc ++ [slot sc] }
    else opened sc sid (with_request st r) dec'.
Proof.
  intros Hn Hw (B1 & B2 & B3 & B4 & B5) Hh Hst Ef. unfold finishHeaderBlock. cbv zeta. set (sc0 := { add_stream sc sid st with continuationStream := 0 }).
  change (obj sc0 (slot sc)) with (obj (add_stream sc sid st) (slot sc)). rewrite add_obj by done. change (hpackDec sc0) with (hpackDec sc). rewrite Ef.
  assert (Es : forall x, set_obj { sc0 with hpackDec := dec' } (slot sc) x = opened sc sid x dec').
  { intros x. change (set_obj { sc0 with hpackDec := dec' } (slot sc) x) with { set_obj (add_stream sc sid st) (slot sc) x with continuationStream := 0; hpackDec := dec' }. by rewrite add_set by done. }
  rewrite Es. set (st' := with_request st r). destruct Hw as [[Hm Hm'] Hs Hp _ _ _].
  assert (Hext : is_extended st' = false) by (unfold is_extended; change (method st') with (rq_method r); by rewrite bool_decide_eq_false_2).
  assert (Hok : request_ok (opened sc sid st' dec') st' = true).
  { unfold request_ok. change (method st') with (rq_method r). change (scheme st') with (rq_scheme r). change (path st') with (rq_path r). change (protocol st') with (protocol st). rewrite B5.
    rewrite !(bool_decide_eq_false_2 (rq_method r = _)) by done. rewrite (bool_decide_eq_false_2 (rq_scheme r = _)), (bool_decide_eq_false_2 (rq_path r = _)) by done. done. }
  rewrite Hok, Hext. cbn [negb]. rewrite orb_false_r. change (endStream st') with (endStream st). destruct (endStream st); [|done]. cbn [header_error].
  unfold startStream. cbv zeta. change (obj (opened sc sid st' dec') (slot sc)) with (obj (add_stream sc sid st') (slot sc)). rewrite add_obj, Hext by done.
  change (set_obj (opened sc sid st' dec') (slot sc) { st' with state := streamHalfClosedRemote })
    with { set_obj (add_stream sc sid st') (slot sc) { st' with state := streamHalfClosedRemote } with continuationStream := 0; hpackDec := dec' }. by rewrite add_set by done.
Qed.

Section request.
Context (late : bool) (stale : ServerConn -> bytes) (sc : ServerConn) (sid : Z) (rq : request) (enc enc' : HPACK) (blk : bytes).
Context (Hi : inv late sc) (Hcont : continuationStream sc = 0) (Hopen : isClosed sc = false).
Context (Hsid : maxStreamID sc < sid < 2 ^ 31) (Hodd : Z.odd sid = true) (Hw : request_wf rq).
Context (Hsync : synced enc (hpackDec sc)) (Henc : encode_block enc [] (map (fun hf => (hf, true)) (request_fields rq)) = (enc', blk)) (Hlen : zlen blk <= 65536).
  Abbreviation n := (slot sc).

Lemma slot_fits : (slot sc <= List.length (heap sc))%nat.
Proof using Hi. apply (slot_free late sc Hi). Qed.
Lemma sid_fits : is_id sid /\ sid <> 0 /\ sid mod 2 <> 0.
Proof. pose proof (i_last _ _ Hi). split; [unfold is_id; lia|]. split; [lia|]. rewrite Zodd_mod in Hodd. apply Z.eqb_eq in Hodd. lia. Qed.

  (** The stream once its header block is complete. *)
Definition headed (es : bool) : serverStream :=
    with_request { fresh_stream sc sid true es blk with endHeaders := true } rq.

Lemma block_decoded es : exists dec', synced enc' dec' /\
    finish_loop (S (List.length blk)) (BeginHeaderBlock (hpackDec sc)) { fresh_stream sc sid true es blk with endHeaders := true } false blk = (dec', headed es, None).
Proof.
    set (fs := map (fun hf => (hf, true)) (request_fields rq)) in *. set (st := { fresh_stream sc sid true es blk with endHeaders := true }).
    destruct (add_request st rq Hw ltac:(repeat split)) as [reg Ha].
    assert (Hm : map fst fs = request_fields rq) by (unfold fs; rewrite map_map; apply map_id).
    destruct (finish_block fs enc (BeginHeaderBlock (hpackDec sc)) st false (with_request st rq) reg) as (e1 & b1 & He & dec' & Hd & Hs).
    - by apply begin_synced.
    - done.
    - unfold fs. apply Forall_map. exact (rw_fields rq Hw).
    - by rewrite Hm.
    - specialize (He []). rewrite Henc in He. injection He as <- <-. exists dec'. split; [done|]. apply Hd. lia.
Qed.

Lemma cont_phase ps : forall st, ps <> [] -> zlen (headerBlock st ++ concat ps) <= 65536 ->
    handle_all stale (add_stream sc sid st) (cont_events sid ps) =
    let '(sc2, e) := finishHeaderBlock { add_stream sc sid { st with headerBlock := headerBlock st ++ concat ps; endHeaders := true } with continuationStream := 0 } n in header_error sc2 sid e.
Proof using All.
    destruct sid_fits as (_ & H0 & _). induction ps as [|p ps IH]; intros st Hne Hl; [done|]. cbn [concat] in *. rewrite app_assoc in *. rewrite !zlen_app in Hl.
    pose proof (zlen_nonneg (concat ps)). destruct (continuation_step sc sid st p slot_fits (i_shards _ _ Hi) H0 ltac:(lia)) as [E1 E2].
    cbn [cont_events]. change (handle_all stale ?s (OnContinuation sid p (none ps) :: cont_events sid ps)) with (handle_all stale (OnContinuation_ s sid p (none ps)) (cont_events sid ps)).
    destruct ps as [|p' ps'].
    - cbn [none concat cont_events]. rewrite E2, app_nil_r. done.
    - change (none (p' :: ps')) with false. rewrite E1. rewrite IH; [done|done|]. change (headerBlock { st with headerBlock := headerBlock st ++ p }) with (headerBlock st ++ p). rewrite !zlen_app. lia.
Qed.

Lemma header_phase p0 ps es : p0 ++ concat ps = blk ->
    exists dec', synced enc' dec' /\
    handle_all stale sc (OnHeaders sid p0 (none ps) es :: cont_events sid ps) =
    if es then { opened sc sid { headed es with state := streamHalfClosedRemote } dec' with spawned := spawned sc ++ [n] } else opened sc sid (headed es) dec'.
Proof using All.
    intros Hb. destruct sid_fits as (_ & H0 & H2). destruct (block_decoded es) as (dec' & Hs & Hd). exists dec'. split; [done|].
    assert (Hfin := block_finished sc sid { fresh_stream sc sid true es blk with endHeaders := true } rq dec' slot_fits Hw ltac:(repeat split) eq_refl eq_refl Hd).
    change (endStream { fresh_stream sc sid true es blk with endHeaders := true }) with es in Hfin. change (with_request { fresh_stream sc sid true es blk with endHeaders := true } rq) with (headed es) in Hfin.
    rewrite <- Hfin. clear Hfin.
    change (handle_all stale sc (OnHeaders sid p0 (none ps) es :: cont_events sid ps)) with (handle_all stale (OnHeaders_ sc sid p0 (none ps) es) (cont_events sid ps)).
    rewrite OnHeaders_new by (done || lia || apply slot_fits). destruct ps as [|p ps].
    - cbn [none cont_events concat] in *. rewrite app_nil_r in Hb. subst p0. done.
    - change (none (p :: ps)) with false. cbv zeta iota.
      change ({ add_stream sc sid (fresh_stream sc sid false es p0) with continuationStream := sid }) with (add_stream sc sid (fresh_stream sc sid false es p0)).
      rewrite cont_phase; [|done|]; change (headerBlock (fresh_stream sc sid false es p0)) with p0; rewrite Hb; done.
Qed.
  (** The body. *)
Definition receiving (st : serverStream) (dec : HPACK) (o : bytes) (c : Z) : ServerConn := { opened sc sid st dec with out := o; connRecvUnacked := c }.
Definition complete_request (st : serverStream) (dec : HPACK) (o : bytes) (c : Z) : ServerConn :=
    { receiving { st with endStream := true; state := streamHalfClosedRemote } dec o c with spawned := spawned sc ++ [n] }.

Lemma receiving_set st dec o c st' : set_obj (receiving st dec o c) n st' = receiving st' dec o c.
Proof.
    change (set_obj (receiving st dec o c) n st') with { set_obj (add_stream sc sid st) n st' with continuationStream := 0; hpackDec := dec; out := o; connRecvUnacked := c }.
    by rewrite add_set by apply slot_fits.
Qed.
Lemma receiving_obj st dec o c : obj (receiving st dec o c) n = st.
Proof using Hi. exact (add_obj sc sid slot_fits st). Qed.

Lemma data_step st dec o c d es :
    inv late (receiving st dec o c) -> state st = streamOpen -> isTunnel st = false -> is_extended st = false -> zlen d < 2 ^ 24 ->
    exists o' c' u, OnStreamData_ (receiving st dec o c) sid d es =
    if es then complete_request { st with body := body st ++ d; recvUnacked := u } dec o' c' else receiving { st with body := body st ++ d; recvUnacked := u } dec o' c'.
Proof using All.
    intros HX Hst Htun Hext Hd. pose proof (zlen_nonneg d). unfold OnStreamData_. change (continuationStream (receiving st dec o c)) with 0. cbn [negb Z.eqb].
    change (maxStreamID (receiving st dec o c)) with sid. replace (sid >? sid) with false by lia. cbv zeta.
    change (getStream (receiving st dec o c) sid) with (getStream (add_stream sc sid st) sid). rewrite add_get, decide_True by (done || apply (i_shards _ _ Hi)).
    rewrite receiving_obj, Hst, Htun. cbn match. rewrite receiving_set. set (st1 := { st with body := body st ++ d }).
    assert (Hlive : forall s o c, live (receiving s dec o c) n) by (intros s0 o0 c0; exact (add_live sc sid slot_fits s0)).
    assert (H1 : inv late (receiving st1 dec o c)).
    { rewrite <- (receiving_set st). pose proof (i_unacked _ _ HX n (Hlive _ _ _)) as Hu. rewrite receiving_obj in Hu.
      apply inv_set; rewrite ?receiving_obj; [exact HX|apply Hlive|reflexivity|exact (fun x => x)|right; exact (fun x => x)|left; reflexivity|exact (fun _ x => x)|exact (fun x => x)|exact Hu]. }
    assert (H2 : exists o' c' u, (if zlen d >? 0 then replenishReceiveWindow (receiving st1 dec o c) n (zlen d) else receiving st1 dec o c) = receiving { st1 with recvUnacked := u } dec o' c').
    { destruct (zlen d >? 0); [|by exists o, c, (recvUnacked st1)]. destruct (replenish_eq late _ n (zlen d) H1 (Hlive _ _ _) ltac:(lia)) as (o' & c' & u & _ & _ & E).
      exists o', c', u. rewrite E, receiving_obj, receiving_set. reflexivity. }
    destruct H2 as (o' & c' & u & ->). exists o', c', u. destruct es; [|reflexivity]. rewrite receiving_obj, receiving_set. unfold startStream. cbv zeta. rewrite receiving_obj.
    change (is_extended { { st1 with recvUnacked := u } with endStream := true }) with (is_extended st). rewrite Hext, receiving_set. reflexivity.
Qed.

Lemma data_phase ds : forall st dec o c,
    ds <> [] -> Forall (fun d => bytes_ok d /\ zlen d < 2 ^ 24) ds -> inv late (receiving st dec o c) -> state st = streamOpen -> isTunnel st = false -> is_extended st = false ->
    exists o' c' u, handle_all stale (receiving st dec o c) (data_events sid ds) = complete_request { st with body := body st ++ concat ds; recvUnacked := u } dec o' c'.
Proof using All.
    destruct sid_fits as (Hid & _ & _). induction ds as [|d ds IH]; intros st dec o c Hne Hall HX Hst Htun Hext; [done|]. apply Forall_cons_1 in Hall as [[Hdb Hd] Hall].
    cbn [data_events concat]. change (handle_all stale ?s (OnStreamData sid d (none ds) :: data_events sid ds)) with (handle_all stale (OnStreamData_ s sid d (none ds)) (data_events sid ds)).
    destruct (data_step st dec o c d (none ds) HX Hst Htun Hext Hd) as (o1 & c1 & u1 & E1).
    assert (HX1 : inv late (OnStreamData_ (receiving st dec o c) sid d (none ds))) by (apply (inv_handle late [] (receiving st dec o c) (OnStreamData sid d (none ds))); [intros _; exact Hopen|done|done]).
    rewrite E1 in *. destruct ds as [|d' ds'].
    - cbn [none data_events concat] in *. rewrite app_nil_r. by exists o1, c1, u1.
    - change (none (d' :: ds')) with false in *. destruct (IH _ _ _ _ ltac:(done) Hall HX1 Hst Htun Hext) as (o2 & c2 & u2 & E2). rewrite E2. exists o2, c2, u2.
      change (body { st with body := body st ++ d; recvUnacked := u1 }) with (body st ++ d). by rewrite <- app_assoc.
Qed.
Lemma request_phase p0 ps ds :
    p0 ++ concat ps = blk -> Forall (fun d => bytes_ok d /\ zlen d < 2 ^ 24) (p0 :: ps ++ ds) -> concat ds = rq_body rq ->
    exists es dec' o c u, synced enc' dec' /\
    handle_all stale sc (request_events sid p0 ps ds) = complete_request { headed es with body := rq_body rq; recvUnacked := u } dec' o c.
Proof using All.
    intros Hb Hall Hds. destruct sid_fits as (Hid & _ & _). destruct (header_phase p0 ps (none ds) Hb) as (dec' & Hs & E). unfold request_events.
    change (OnHeaders sid p0 (none ps) (none ds) :: cont_events sid ps ++ data_events sid ds) with ((OnHeaders sid p0 (none ps) (none ds) :: cont_events sid ps) ++ data_events sid ds).
    rewrite handle_all_app.
    apply Forall_cons_1 in Hall as [[Hb0 Hl0] Hall]. apply Forall_app in Hall as [Hps Hall].
    destruct ds as [|d ds].
    - cbn [none data_events concat] in *. rewrite E. cbn [handle_all fold_left]. exists true, dec', (out sc), (connRecvUnacked sc), 0. split; [done|]. rewrite <- Hds. reflexivity.
    - change (none (d :: ds)) with false in *. assert (HX : inv late (receiving (headed false) dec' (out sc) (connRecvUnacked sc))).
      { change (receiving (headed false) dec' (out sc) (connRecvUnacked sc)) with (opened sc sid (headed false) dec'). rewrite <- E.
        assert (Hev : Forall event_fits (OnHeaders sid p0 (none ps) false :: cont_events sid ps)).
        { apply Forall_cons; [done|]. clear -Hps Hid. induction Hps as [|p ps Hp Hps IH]; cbn [cont_events]; [apply Forall_nil|]. by apply Forall_cons. }
        destruct (goes_late stale sc (OnHeaders sid p0 (none ps) false :: cont_events sid ps)) eqn:El.
        { apply late_closed in El. rewrite E in El. change (isClosed sc = true) in El. by rewrite Hopen in El. }
        pose proof (inv_handle_all stale _ late sc ltac:(left; intros _; exact Hopen) Hi Hev) as H. rewrite El, orb_false_r in H. exact H. }
      rewrite E. change (opened sc sid (headed false) dec') with (receiving (headed false) dec' (out sc) (connRecvUnacked sc)).
      assert (Hext : is_extended (headed false) = false) by (unfold is_extended; change (method (headed false)) with (rq_method rq); by rewrite bool_decide_eq_false_2 by apply Hw).
      destruct (data_phase (d :: ds) (headed false) dec' (out sc) (connRecvUnacked sc) ltac:(done) Hall HX eq_refl eq_refl Hext) as (o & c & u & E2).
      exists false, dec', o, c, u. split; [done|]. rewrite E2, Hds. reflexivity.
Qed.
End request.

(** ** Through the read loop *)
Lemma readLoop_all stale reads : forall sc b,
  buf_ok b -> Forall bytes_ok reads -> reads_fit b reads ->
  let evs := concat (map events_of (frames (rb_data b ++ concat reads))) in
  isClosed (handle_all stale sc evs) = false ->
  exists b', readLoop stale sc b reads = Ok (handle_all stale sc evs, b') /\ rb_data b' = leftover (rb_data b ++ concat reads) /\ buf_ok b'.
Proof.
  induction reads as [|r reads IH]; intros sc b Hok Hbs Hfit evs Hopen; cbn [readLoop concat] in *.
  - exists b. unfold evs in *. clear evs. rewrite app_nil_r in *. destruct (leftover_idem (rb_data b) (bo_bytes b Hok)) as (_ & Hf & _). rewrite (bo_rest b Hok) in Hf.
    rewrite Hf, (bo_rest b Hok). done.
  - destruct Hfit as ([_ Hroom] & Hfit). apply Forall_cons_1 in Hbs as [Hr Hbs].
    destruct (readLoop_pass_ok b r Hok Hr Hroom) as (b1 & E1 & Ed1 & Hok1 & _). unfold readLoop_step.
    destruct (isClosed sc) eqn:Ec; [rewrite closed_all in Hopen by done; done|]. rewrite E1 in *. cbn [res_bind fst snd] in *.
    assert (Hall : bytes_ok (rb_data b ++ r)) by (apply bytes_ok_app; split; [apply Hok|done]).
    destruct (frames_app (rb_data b ++ r) (concat reads) Hall ltac:(by apply Forall_concat)) as [Ef El].
    assert (Eevs : evs = concat (map events_of (frames (rb_data b ++ r))) ++ concat (map events_of (frames (rb_data b1 ++ concat reads)))).
    { unfold evs. rewrite app_assoc, Ef, map_app, concat_app, Ed1. done. }
    rewrite Eevs, handle_all_app in *. destruct (IH (handle_all stale sc (concat (map events_of (frames (rb_data b ++ r))))) b1 Hok1 Hbs Hfit Hopen) as (b2 & E2 & Ed2 & Hok2).
    exists b2. split; [exact E2|]. split; [|done]. rewrite Ed2, Ed1, app_assoc. done.
Qed.

(** The frames a client sends. *)
Fixpoint cont_frames (sid : Z) (ps : list bytes) : list out_frame :=
  match ps with [] => [] | p :: ps' => (sid, 0, FCont (mkCont (none ps') p)) :: cont_frames sid ps' end.
Fixpoint data_frames (sid : Z) (ds : list bytes) : list out_frame :=
  match ds with [] => [] | d :: ds' => (sid, 0, FData (mkData (none ds') false d)) :: data_frames sid ds' end.
Definition request_frames (sid : Z) (p0 : bytes) (ps ds : list bytes) : list out_frame :=
  (sid, 0, FHeaders (mkHeaders false 0 0 (none ds) (none ps) false false p0)) :: cont_frames sid ps ++ data_frames sid ds.
Definition piece_ok (p : bytes) : Prop := bytes_ok p /\ zlen p < 2 ^ 24.

Lemma small_frame sid p b : is_id sid -> frame_wf sid b -> flags_fit 0 b -> wire_payload sid 0 b = p -> zlen p < 2 ^ 24 -> out_ok (sid, 0, b).
Proof. intros Hs Hw Hf Hp Hl. split; cbn [fst snd]; [done|done|done|]. by rewrite Hp. Qed.
Lemma cont_frames_ok sid ps : is_id sid -> sid <> 0 -> Forall piece_ok ps ->
  Forall out_ok (cont_frames sid ps) /\ concat (map out_event (cont_frames sid ps)) = cont_events sid ps.
Proof.
  intros Hs H0 Hp. induction Hp as [|p ps [Hb Hl] Hps [IH1 IH2]]; cbn [cont_frames cont_events map concat]; [split; [apply Forall_nil|done]|]. split.
  - apply Forall_cons; [|done]. apply (small_frame sid p); [done|by split| |by destruct (none ps)|done]. split; [unfold is_byte; lia|done].
  - rewrite IH2. by destruct (none ps).
Qed.
Lemma data_frames_ok sid ds : is_id sid -> sid <> 0 -> Forall piece_ok ds ->
  Forall out_ok (data_frames sid ds) /\ concat (map out_event (data_frames sid ds)) = data_events sid ds.
Proof.
  intros Hs H0 Hp. induction Hp as [|p ds [Hb Hl] Hds [IH1 IH2]]; cbn [data_frames data_events map concat]; [split; [apply Forall_nil|done]|]. split.
  - apply Forall_cons; [|done]. apply (small_frame sid p); [done|by split| |by destruct (none ds)|done]. split; [unfold is_byte; lia|done].
  - rewrite IH2. by destruct (none ds).
Qed.
Lemma request_frames_ok sid p0 ps ds : is_id sid -> sid <> 0 -> Forall piece_ok (p0 :: ps ++ ds) ->
  Forall out_ok (request_frames sid p0 ps ds) /\ concat (map out_event (request_frames sid p0 ps ds)) = request_events sid p0 ps ds.
Proof.
  intros Hs H0 Hp. apply Forall_cons_1 in Hp as [[Hb Hl] Hp]. apply Forall_app in Hp as [Hps Hds].
  destruct (cont_frames_ok sid ps Hs H0 Hps) as [C1 C2]. destruct (data_frames_ok sid ds Hs H0 Hds) as [D1 D2]. unfold request_frames, request_events. split.
  - apply Forall_cons; [|by apply Forall_app]. apply (small_frame sid p0); [done|by repeat split| |by destruct (none ps), (none ds)|done]. split; [unfold is_byte; lia|done].
  - cbn [map concat]. rewrite map_app, concat_app, C2, D2. by destruct (none ps), (none ds).
Qed.

(** ** Theorems *)

(** A connection between two requests: nothing half received, and the client's
    encoder in step with the server's decoder. *)
Record quiet (late : bool) (sc : ServerConn) (b : ReadBuf) (enc : HPACK) : Prop := {
  q_inv : inv late sc;
  q_cont : continuationStream sc = 0;
  q_open : isClosed sc = false;
  q_sync : synced enc (hpackDec sc);
  q_buf : buf_ok b;
  q_empty : rb_data b = []
}.

Lemma concat_bytes (ls : list bytes) : bytes_ok (concat ls) -> Forall bytes_ok ls.
Proof. induction ls as [|l ls IH]; cbn [concat]; intros H; [apply Forall_nil|]. apply bytes_ok_app in H as [H1 H2]. apply Forall_cons; auto. Qed.

Lemma request_delivered late stale sc b reads sid rq enc enc' blk p0 ps ds :
  quiet late sc b enc -> maxStreamID sc < sid < 2 ^ 31 -> Z.odd sid = true -> request_wf rq ->
  encode_block enc [] (map (fun hf => (hf, true)) (request_fields rq)) = (enc', blk) -> zlen blk <= 65536 ->
  p0 ++ concat ps = blk -> concat ds = rq_body rq -> Forall piece_ok (p0 :: ps ++ ds) ->
  reads_fit b reads -> concat reads = concat (map out_bytes (request_frames sid p0 ps ds)) ->
  exists sc' b' es dec' o c u, readLoop stale sc b reads = Ok (sc', b') /\ quiet late sc' b' enc' /\
  sc' = complete_request sc sid { headed sc sid rq blk es with body := rq_body rq; recvUnacked := u } dec' o c.
Proof.
  intros [Hi Hcont Hopen Hsync Hbuf Hempty] Hsid Hodd Hw Henc Hlen Hblk Hds Hall Hfit Hreads.
  destruct (sid_fits late stale sc sid Hi Hsid Hodd) as (Hid & H0 & _). destruct (request_frames_ok sid p0 ps ds Hid H0 Hall) as [Hok Hevs].
  destruct (out_frames (request_frames sid p0 ps ds) [] Hok (Forall_nil _)) as (Ef & El & Ev). rewrite !app_nil_r in *.
  destruct (request_phase late stale sc sid rq enc enc' blk Hi Hcont Hopen Hsid Hodd Hw Hsync Henc Hlen p0 ps ds Hblk Hall Hds) as (es & dec' & o & c & u & Hs & E).
  assert (Hbytes : bytes_ok (concat (map out_bytes (request_frames sid p0 ps ds)))).
  { apply Forall_concat, Forall_map. eapply Forall_impl; [|exact Hok]. intros x Hx. by apply out_bytes_frame. }
  assert (Eall : concat (map events_of (frames (rb_data b ++ concat reads))) = request_events sid p0 ps ds).
  { rewrite Hempty. change ([] ++ concat reads) with (concat reads). rewrite Hreads, Ef. change (frames []) with (@nil bytes). by rewrite ?app_nil_r, Ev. }
  pose proof (readLoop_all stale reads sc b Hbuf ltac:(apply concat_bytes; by rewrite Hreads) Hfit) as Hr. cbv zeta in Hr. rewrite Eall, E in Hr.
  destruct (Hr Hopen) as (b' & Er & Ed & Hok'). set (sc' := complete_request _ _ _ _ _ _) in *. exists sc', b', es, dec', o, c, u. split; [exact Er|]. split; [|done]. split.
  - destruct (goes_late stale sc (request_events sid p0 ps ds)) eqn:Eg.
    { apply late_closed in Eg. rewrite E in Eg. change (isClosed sc = true) in Eg. by rewrite Hopen in Eg. }
    assert (Hfits : Forall event_fits (request_events sid p0 ps ds)).
    { rewrite <- Eall. apply frames_fit, bytes_ok_app. split; [apply Hbuf|by rewrite Hreads]. }
    pose proof (inv_handle_all stale _ late sc ltac:(left; intros _; exact Hopen) Hi Hfits) as H. rewrite Eg, orb_false_r, E in H. exact H.
  - done.
  - exact Hopen.
  - exact Hs.
  - exact Hok'.
  - rewrite Ed, Hempty. change ([] ++ concat reads) with (concat reads). by rewrite Hreads, El.
Qed.


Definition demo_request : request :=
  mkReq (bytes_of_string "POST") (bytes_of_string "https") (bytes_of_string "/a") (bytes_of_string "h") [(bytes_of_string "x-id", bytes_of_string "7")] [1; 2; 3].
Definition demo_block : bytes := snd (encode_block Hpack.AcquireHPACK [] (map (fun hf => (hf, true)) (request_fields demo_request))).
Definition demo_bytes : bytes := concat (map out_bytes (request_frames 1 (ztake 4 demo_block) [ztake 3 (zdrop 4 demo_block); zdrop 7 demo_block] [[1]; [2; 3]])).
Definition demo_after : ServerConn :=
  match readLoop no_stale NewServerConn new_readbuf [ztake 20 demo_bytes; zdrop 20 demo_bytes] with Ok (sc, _) => sc | _ => NewServerConn end.
Lemma demo_wf : request_wf demo_request.
Proof.
  assert (Hok : forall k v, intern_key (bytes_of_string k) = bytes_of_string k -> zlen (bytes_of_string k) + zlen v < 1000 -> bytes_ok v -> v <> [] ->
    field_ok (mkField (bytes_of_string k) v false) /\ ~ lost_field (mkField (bytes_of_string k) v false)).
  { intros k v Hk Hl Hv Hne. split; [|intros [_ Hx]; done]. split; [apply bytes_of_string_ok|]. split; [done|]. split; [cbn [key value]; lia|done]. }
  split; [split; vm_compute; discriminate|vm_compute; discriminate|vm_compute; discriminate| | |].
  - repeat (apply Forall_cons; [reflexivity|]). apply Forall_nil.
  - apply Forall_cons; [|apply Forall_nil]. split; vm_compute; reflexivity.
  - repeat (apply Forall_cons; [apply Hok; [vm_compute; reflexivity|vm_compute; reflexivity|apply (bool_decide_unpack _); vm_compute; exact I|discriminate]|]). apply Forall_nil.
Qed.
Lemma start_quiet : quiet false NewServerConn new_readbuf Hpack.AcquireHPACK.
Proof. split; [exact inv_start_conn|done|done|exact synced_init|split; [apply Forall_nil|done|done|done]|done]. Qed.

(** ** Responses *)
Definition response_fields (code : Z) (hs : list (bytes * list bytes)) (n : Z) : list HeaderField :=
  [pseudo ":status" (decimal code); pseudo "content-length" (decimal n)]
  ++ concat (map (fun kv => if is_dropped (fst kv) then [] else map (fun v => mkField (ToLowerCopy (fst kv)) v false) (snd kv)) hs).
Definition plain (fs : list HeaderField) : list (HeaderField * bool) := map (fun hf => (hf, false)) fs.

Lemma status_text code b : statusCodeToBytes code = Some b -> b = decimal code.
Proof.
  unfold statusCodeToBytes. destruct (find _ _) as [[c t]|] eqn:E; [|done]. cbn. intros [= <-]. apply find_some in E as [Hin Hc]. cbn [fst] in Hc. apply Z.eqb_eq in Hc. subst c.
  assert (Hall : forallb (fun kv => bool_decide (snd kv = decimal (fst kv))) (combine known_status (map bytes_of_string known_texts)) = true) by (vm_compute; reflexivity).
  rewrite forallb_forall in Hall. specialize (Hall _ Hin). by apply bool_decide_eq_true_1 in Hall.
Qed.
Lemma lower_idem k : ToLowerCopy (ToLowerCopy k) = ToLowerCopy k.
Proof. unfold ToLowerCopy. rewrite map_map. apply map_ext. intros c. unfold lower. repeat case_test; bool_simpl; lia. Qed.
Lemma intern_lower k : bytes_ok (ToLowerCopy k) -> intern_key (ToLowerCopy k) = ToLowerCopy k.
Proof.
  intros Hk. unfold intern_key. destruct (InternKey (ToLowerCopy k)) as [ik|] eqn:E; [|done]. destruct (InternKey_some _ _ Hk E) as [-> _].
  change (map lower (ToLowerCopy k)) with (ToLowerCopy (ToLowerCopy k)). apply lower_idem.
Qed.
Lemma encode_block_app a : forall hp dst b, encode_block hp dst (a ++ b) = let '(hp, dst) := encode_block hp dst a in encode_block hp dst b.
Proof. induction a as [|[hf st] a IH]; intros hp dst b; [done|]. cbn [app encode_block]. destruct (AppendHeader hp dst hf st) as [hp1 dst1]. apply IH. Qed.

Lemma append_values_block k vv : forall hp dst, bytes_ok (ToLowerCopy k) ->
  append_values hp dst (ToLowerCopy k) vv = encode_block hp dst (plain (map (fun v => mkField (ToLowerCopy k) v false) vv)).
Proof.
  induction vv as [|v vv IH]; intros hp dst Hk; [done|]. cbn [append_values map plain encode_block].
  assert (E : SetBytes empty_field (ToLowerCopy k) v = mkField (ToLowerCopy k) v false) by (unfold SetBytes, SetKeyBytes, SetValueBytes; cbn; by rewrite intern_lower, intern_value_id).
  rewrite E. unfold AppendHeaderField. destruct (AppendHeader hp dst _ false) as [hp1 dst1]. by apply IH.
Qed.
Lemma append_headers_block hs : forall hp dst, Forall (fun kv => bytes_ok (fst kv)) hs ->
  append_headers hp dst hs = encode_block hp dst (plain (concat (map (fun kv => if is_dropped (fst kv) then [] else map (fun v => mkField (ToLowerCopy (fst kv)) v false) (snd kv)) hs))).
Proof.
  induction hs as [|[k vv] hs IH]; intros hp dst Hk; [done|]. apply Forall_cons_1 in Hk as [Hk Hks]. cbn [append_headers map concat fst snd] in *. destruct (is_dropped k); [by apply IH|].
  unfold plain. rewrite map_app, encode_block_app. fold (plain (map (fun v => mkField (ToLowerCopy k) v false) vv)).
  rewrite append_values_block.
  - destruct (encode_block _ _ _) as [hp1 dst1]. by apply IH.
  - unfold ToLowerCopy. apply Forall_map. eapply Forall_impl; [|exact Hk]. intros x. cbv beta. unfold lower, is_byte. case_test; bool_simpl; lia.
Qed.
Lemma serialize_block hp code hs n : 0 <= n -> Forall (fun kv => bytes_ok (fst kv)) hs ->
  SerializeResponseHeaders hp code hs n = encode_block hp [] (plain (response_fields code hs n)).
Proof.
  intros Hn Hk. unfold SerializeResponseHeaders. cbv zeta.
  set (h1 := SetValueBytes _ _). assert (E1 : h1 = pseudo ":status" (decimal code)).
  { unfold h1, SetValueBytes. rewrite intern_value_id. replace (match statusCodeToBytes code with Some b => b | None => decimal code end) with (decimal code); [reflexivity|].
    destruct (statusCodeToBytes code) as [t|] eqn:E; [|done]. symmetry. by apply status_text. }
  rewrite E1. unfold AppendHeaderField. unfold response_fields, plain. rewrite map_app, encode_block_app. cbn [map encode_block].
  destruct (AppendHeader hp [] (pseudo ":status" (decimal code)) false) as [hp1 dst1]. replace (n >=? 0) with true by lia.
  assert (E2 : SetValueBytes (SetKeyBytes (pseudo ":status" (decimal code)) (bytes_of_string "content-length")) (if n =? 0 then bytes_of_string "0" else decimal n) = pseudo "content-length" (decimal n)).
  { unfold SetValueBytes. rewrite intern_value_id. assert (Ed : (if n =? 0 then bytes_of_string "0" else decimal n) = decimal n) by (destruct (n =? 0) eqn:E; bool_simpl; [subst n; reflexivity|done]).
    rewrite Ed. reflexivity. }
  rewrite E2. destruct (AppendHeader hp1 dst1 (pseudo "content-length" (decimal n)) false) as [hp2 dst2]. by apply append_headers_block.
Qed.

Lemma write_sent sc sid fl b : broken sc = false -> out_ok (sid, fl, b) -> write_frame sc sid fl b = ({ sc with out := out sc ++ out_bytes (sid, fl, b) }, true).
Proof. intros Hb Ho. unfold write_frame. destruct (WriteTo_bytes sid fl b Ho) as [f ->]. by rewrite Hb. Qed.

Lemma h2_data_frame_ok sid (last : bool) d : is_id sid -> sid <> 0 -> piece_ok d ->
  out_ok (sid, if last then FlagEndStream else 0, FData { Data_Reset with d_b := d }) /\ out_event (sid, if last then FlagEndStream else 0, FData { Data_Reset with d_b := d }) = [OnStreamData sid d last].
Proof.
  intros Hs H0 [Hb Hl]. split; [|by destruct last]. split; cbn [fst snd]; [by split| |done|by destruct last]. destruct last; (split; [unfold is_byte, FlagEndStream; lia|done]).
Qed.

(** The body in DATA frames no larger than [mc], END_STREAM on the last. *)
Lemma data_sent fuel : forall sc sid mc dat,
  broken sc = false -> is_id sid -> sid <> 0 -> 0 < mc < 2 ^ 24 -> bytes_ok dat -> (List.length dat < fuel)%nat ->
  exists os ds, data_loop fuel sc sid mc dat true = ({ sc with out := out sc ++ concat (map out_bytes os) }, true) /\ Forall out_ok os
  /\ concat (map out_event os) = data_events sid ds /\ concat ds = dat /\ Forall (fun d => 0 < zlen d <= mc) ds /\ (ds = [] -> dat = []).
Proof.
  induction fuel as [|fuel IH]; intros sc sid mc dat Hbr Hs H0 Hmc Hb Hf; [lia|]. cbn [data_loop]. destruct (zlen dat >? 0) eqn:Ez; bool_simpl.
  2: { assert (dat = []) as -> by (apply zlen_zero; pose proof (zlen_nonneg dat); lia). exists [], []. cbn [map concat]. rewrite app_nil_r. split; [done|]. repeat (split; [try apply Forall_nil; done|]). done. }
  cbv zeta. set (k := Z.min (zlen dat) mc). set (d := ztake k dat). set (rest := zdrop k dat). assert (Hk : 0 < k <= zlen dat) by (unfold k; lia).
  assert (Hd : zlen d = k) by (apply zlen_ztake; lia). assert (Hb' : zlen rest = zlen dat - k) by (unfold rest; rewrite zlen_zdrop; lia).
  assert (Hp : piece_ok d) by (split; [by apply bytes_ok_ztake|unfold k in *; lia]).
  destruct (h2_data_frame_ok sid (zlen rest =? 0) d Hs H0 Hp) as [Hok Hev]. cbn [andb]. rewrite write_sent by done.
  set (o := (sid, if zlen rest =? 0 then FlagEndStream else 0, FData { Data_Reset with d_b := d })) in *.
  set (sc1 := { sc with out := out sc ++ out_bytes o }).
  destruct (IH sc1 sid mc rest Hbr Hs H0 Hmc ltac:(by apply bytes_ok_zdrop)) as (os & ds & E & Hos & Hevs & Hc & Hall & Hnil).
  { unfold zlen in Hb', Hk. lia. }
  exists (o :: os), (d :: ds). split; [etransitivity; [exact E|]; cbn [map concat]; change (out sc1) with (out sc ++ out_bytes o); by rewrite <- app_assoc|]. cbn [map concat].
  split; [by apply Forall_cons|]. split; [|split; [rewrite Hc; apply ztake_zdrop|split; [apply Forall_cons; [unfold k in *; lia|done]|done]]].
  rewrite Hev, Hevs. cbn [app data_events]. do 2 f_equal. destruct ds as [|d' ds]; cbn [none].
  - rewrite Hnil in Hb' by done. rewrite Hnil by done. done.
  - destruct (zlen rest =? 0) eqn:E0; [|done]. bool_simpl. exfalso. apply zlen_zero in E0. rewrite E0 in Hc. cbn [concat] in Hc. apply Forall_cons_1 in Hall as [Hd' _].
    apply app_eq_nil in Hc as [-> _]. destruct Hd' as [Hd' _]. by compute in Hd'.
Qed.

(** *** The encoder writes bytes *)
Lemma int_groups_bytes fuel : forall v, bytes_ok (int_groups fuel v).
Proof. induction fuel as [|fuel IH]; intros v; cbn [int_groups]; [apply Forall_nil|]. destruct (_ >=? 128); apply Forall_cons; [apply lor_byte; [apply u8_range|unfold is_byte; lia]|apply IH|apply u8_range|apply Forall_nil]. Qed.
Lemma int_enc_bytes p k v : prefix_ok p k -> 0 <= v -> bytes_ok (int_enc p k v).
Proof.
  intros (Hk & Hp & Hm) Hv. unfold is_byte in Hp. unfold int_enc.
  assert (Hc : k = 1 \/ k = 2 \/ k = 3 \/ k = 4 \/ k = 5 \/ k = 6 \/ k = 7 \/ k = 8) by lia.
  assert (Hr : p + (2 ^ k - 1) < 256 /\ 0 < 2 ^ k) by (repeat destruct Hc as [->|Hc]; try subst k; lia).
  destruct (_ <? _) eqn:E; bool_simpl; apply Forall_cons; [unfold is_byte; lia|apply Forall_nil|unfold is_byte; lia|apply int_groups_bytes].
Qed.
Lemma string_enc_bytes c s : text_ok s -> bytes_ok (string_enc c s).
Proof.
  intros [Hs Hl]. pose proof (zlen_nonneg s). destruct prefix7 as [P0 P1]. destruct (huffman_length s (conj Hs Hl)) as [_ Hh]. unfold string_enc. destruct (negb c); [|destruct (_ =? 0)].
  - apply bytes_ok_app. split; [by apply int_enc_bytes|done].
  - apply Forall_cons; [unfold is_byte; lia|apply Forall_nil].
  - apply bytes_ok_app. split; [apply int_enc_bytes; [done|lia]|]. by apply huffman_dst.
Qed.
Lemma literal_bytes p k n c hf : prefix_ok p k -> 0 <= n -> field_ok hf -> bytes_ok (literal_rep p k n c hf).
Proof.
  intros Hp Hn Hf. destruct (field_text hf Hf). unfold literal_rep. apply bytes_ok_app. split; [by apply int_enc_bytes|]. apply bytes_ok_app. split; [destruct (n >? 0); [apply Forall_nil|by apply string_enc_bytes]|by apply string_enc_bytes].
Qed.
Lemma encode_bytes fs : forall hp dst, table_ok hp -> pendingTableSizeUpdate hp = false -> Forall sendable fs -> bytes_ok dst ->
  bytes_ok (snd (encode_block hp dst fs)).
Proof.
  induction fs as [|[hf store] fs IH]; intros hp dst Hok Hp Hfs Hd; [done|]. apply Forall_cons_1 in Hfs as [[Hf Hnl] Hfs]. cbn [encode_block].
  pose proof (search_found hp hf Hok Hnl) as [Hn _]. pose proof (AppendHeader_ok hp dst hf store Hok Hf) as Hok'.
  assert (Ha : pendingTableSizeUpdate (fst (AppendHeader hp dst hf store)) = false /\ bytes_ok (snd (AppendHeader hp dst hf store))).
  { rewrite AppendHeader_rep by (done || apply Hn). destruct (search hp hf) as [n full]. cbn [fst] in Hn. destruct prefixes as (P1 & P2 & P3 & P4 & _). cbv zeta.
    destruct full; [|destruct (sensible hf) eqn:Es; [|destruct (_ || _)]]; cbn [fst snd]; (split; [try done|apply bytes_ok_app; split; [done|]; first [apply int_enc_bytes; [done|lia]|apply literal_bytes; [done|lia|done]]]).
    rewrite addDynamic_fit by (done || by split). exact Hp. }
  destruct (AppendHeader hp dst hf store) as [hp1 dst1]. cbn [fst snd] in *. destruct Ha. by apply IH.
Qed.

(** A response the encoder takes; of the connection-specific headers it has at most
    the four the server leaves out. *)
Record response_wf (res : ServerResponse) : Prop := {
  sw_names : Forall (fun kv => bytes_ok (fst kv)) (res_Headers res);
  sw_fields : Forall (fun hf => field_ok hf /\ ~ lost_field hf /\ key hf <> []) (response_fields (res_StatusCode res) (res_Headers res) (zlen (res_Body res)));
  sw_allowed : Forall (fun hf => IsConnectionSpecificHeader (key hf) (value hf) = false)
    (response_fields (res_StatusCode res) (res_Headers res) (zlen (res_Body res)));
  sw_body : bytes_ok (res_Body res)
}.
Definition kv (hf : HeaderField) : bytes * bytes := (key hf, value hf).

Lemma decoded_fields fs hfs : Forall (fun hf => key hf <> []) fs -> Forall2 field_match (yielded (plain fs)) hfs -> map kv hfs = map kv fs.
Proof.
  intros Hne Hm. assert (Ey : yielded (plain fs) = fs).
  { clear Hm. unfold yielded, plain. rewrite map_map. cbn [fst]. rewrite map_id. induction Hne as [|hf fs Hk _ IH]; [done|]. cbn [List.filter].
    assert (He : Empty hf = false). { unfold Empty. destruct (zlen (key hf) =? 0) eqn:E; [|done]. bool_simpl. by apply zlen_zero in E. }
    rewrite He. cbn [negb]. f_equal. exact IH. }
  rewrite Ey in Hm. clear -Hm. induction Hm as [|a b fs hfs (Hk & Hv & _) _ IH]; [done|]. cbn [map]. unfold kv at 1 3. by rewrite Hk, Hv, IH.
Qed.

Lemma response_sent sc sid res dec :
  broken sc = false -> is_id sid -> sid <> 0 -> response_wf res -> 0 < peerMaxFrameSize sc < 2 ^ 24 -> synced (hpackEnc sc) dec -> pendingTableSizeUpdate (hpackEnc sc) = false ->
  zlen (snd (SerializeResponseHeaders (hpackEnc sc) (res_StatusCode res) (res_Headers res) (zlen (res_Body res)))) < 2 ^ 24 ->
  exists sc' os blk ds dec' hfs, writeResponse sc sid res = (sc', true) /\ out sc' = out sc ++ concat (map out_bytes os) /\ Forall out_ok os
  /\ concat (map out_event os) = OnHeaders sid blk true (none ds) :: data_events sid ds
  /\ concat ds = res_Body res /\ Forall (fun d => 0 < zlen d <= peerMaxFrameSize sc) ds
  /\ Decode dec blk = (dec', hfs, Ok tt) /\ map kv hfs = map kv (response_fields (res_StatusCode res) (res_Headers res) (zlen (res_Body res)))
  /\ Forall (fun hf => IsConnectionSpecificHeader (key hf) (value hf) = false) hfs
  /\ synced (hpackEnc sc') dec'.
Proof.
  intros Hbr Hs H0 [Hn Hf Hal Hb] Hmax Hsync Hpend Hlen. pose proof (zlen_nonneg (res_Body res)) as Hz. rewrite serialize_block in Hlen by done.
  set (fs := response_fields _ _ _) in *. assert (Hsend : Forall sendable (plain fs)).
  { unfold plain. apply Forall_map. eapply Forall_impl; [|exact Hf]. intros hf (H1 & H2 & _). by split. }
  destruct (block_back (plain fs) (hpackEnc sc) (BeginHeaderBlock dec) (begin_synced _ _ Hsync) ltac:(done) Hsend) as (enc' & blk & Henc & dec' & hfs & Hd & Hs' & Hm & _).
  rewrite (Henc []) in Hlen. cbn [snd app] in Hlen.
  assert (Hblk : bytes_ok blk). { pose proof (encode_bytes (plain fs) (hpackEnc sc) [] (sy_enc _ _ Hsync) Hpend Hsend (Forall_nil _)) as H. rewrite (Henc []) in H. exact H. }
  unfold writeResponse. cbv zeta. unfold write_header_frame. rewrite serialize_block by done. fold fs. rewrite (Henc []). cbn [app].
  set (sc1 := { sc with hpackEnc := enc' }). set (hf := FHeaders { Headers_Reset with h_rawHeaders := blk }). set (fl := if zlen (res_Body res) =? 0 then Z.lor FlagEndHeaders FlagEndStream else FlagEndHeaders).
  assert (Hok : out_ok (sid, fl, hf)).
  { split; cbn [fst snd]; [by repeat split| |done|exact Hlen]. unfold fl. destruct (_ =? 0); (split; [vm_compute; split; [discriminate|reflexivity]|done]). }
  rewrite write_sent by done. cbn [negb].
  assert (Hev : out_event (sid, fl, hf) = [OnHeaders sid blk true (zlen (res_Body res) =? 0)]) by (unfold fl; by destruct (_ =? 0)).
  set (sc2 := { sc1 with out := out sc1 ++ out_bytes (sid, fl, hf) }).
  assert (Hdata : exists os ds, (if zlen (res_Body res) >? 0 then data_loop (S (List.length (res_Body res))) sc2 sid (maxChunk sc2) (res_Body res) true else (sc2, true))
    = ({ sc2 with out := out sc2 ++ concat (map out_bytes os) }, true) /\ Forall out_ok os /\ concat (map out_event os) = data_events sid ds /\ concat ds = res_Body res
    /\ Forall (fun d => 0 < zlen d <= peerMaxFrameSize sc) ds /\ none ds = (zlen (res_Body res) =? 0)).
  { destruct (zlen (res_Body res) >? 0) eqn:Eb; bool_simpl.
    - assert (Emc : maxChunk sc2 = peerMaxFrameSize sc) by (unfold maxChunk; change (peerMaxFrameSize sc2) with (peerMaxFrameSize sc); by replace (peerMaxFrameSize sc >? 0) with true by lia).
      rewrite Emc. destruct (data_sent (S (List.length (res_Body res))) sc2 sid (peerMaxFrameSize sc) (res_Body res) Hbr Hs H0 Hmax Hb ltac:(lia)) as (os & ds & E & Ho & He & Hc & Ha & Hnil).
      exists os, ds. split; [exact E|]. do 4 (split; [done|]). destruct ds as [|d ds]; cbn [none]; [pose proof (Hnil eq_refl) as Hx; rewrite Hx in Eb; by compute in Eb|]. bool_simpl. lia.
    - exists [], []. cbn [map concat]. rewrite app_nil_r. split; [done|]. split; [apply Forall_nil|]. split; [done|]. split; [symmetry; apply zlen_zero; lia|]. split; [apply Forall_nil|]. cbn [none]. bool_simpl. lia. }
  destruct Hdata as (os & ds & E & Ho & He & Hc & Ha & Hnone). rewrite E.
  exists { sc2 with out := out sc2 ++ concat (map out_bytes os) }, ((sid, fl, hf) :: os), blk, ds, dec', hfs. split; [done|]. split; [cbn [map concat]; exact (eq_sym (app_assoc _ _ _))|].
  split; [by apply Forall_cons|]. split; [cbn [map concat]; rewrite Hev, He, Hnone; done|]. split; [done|]. split; [done|].
  split; [unfold Decode; apply Hd; lia|].
  assert (Ekv : map kv hfs = map kv fs); [|split; [exact Ekv|split; [|exact Hs']]].
  2: { apply (Forall_map kv (fun x => IsConnectionSpecificHeader (fst x) (snd x) = false)). rewrite Ekv. apply Forall_map. exact Hal. }
  apply decoded_fields; [|done]. eapply Forall_impl; [|exact Hf]. intros x (_ & _ & Hx). exact Hx.
Qed.


Definition demo_response : ServerResponse := mkResponse 200 [(bytes_of_string "X-Tag", [bytes_of_string "v"]); (bytes_of_string "Connection", [bytes_of_string "close"])] [1; 2; 3].
Lemma demo_response_wf : response_wf demo_response.
Proof.
  split; [repeat (apply Forall_cons; [apply bytes_of_string_ok|]); apply Forall_nil| |repeat (apply Forall_cons; [vm_compute; reflexivity|]); apply Forall_nil|apply (bool_decide_unpack _); vm_compute; exact I].
  assert (Hok : forall k v, intern_key k = k -> bytes_ok k -> zlen k + zlen v < 1000 -> bytes_ok v -> v <> [] -> k <> [] ->
    field_ok (mkField k v false) /\ ~ lost_field (mkField k v false) /\ key (mkField k v false) <> []).
  { intros k v Hk Hb Hl Hv Hne Hkn. split; [|split; [intros [_ Hx]; done|done]]. split; [done|]. split; [done|]. split; [cbn [key value]; lia|done]. }
  repeat (apply Forall_cons; [apply Hok; [vm_compute; reflexivity|apply (bool_decide_unpack _); vm_compute; exact I|vm_compute; reflexivity|apply (bool_decide_unpack _); vm_compute; exact I|discriminate|discriminate]|]). apply Forall_nil.
Qed.
Lemma server_synced : synced (hpackEnc NewServerConn) Hpack.AcquireHPACK.
Proof. assert (table_ok (hpackEnc NewServerConn)) by (split; [reflexivity|done|done|done|apply Forall_nil]). split; [done|apply synced_init|by exists []|done|done]. Qed.

(** ** What the server gets wrong

    Each is a run of the model from a new connection. *)
Definition run (evs : list h2_event) : ServerConn := handle_all no_stale NewServerConn evs.
Definition encode (hp : HPACK) (l : list (string * string)) : HPACK * bytes :=
  encode_block hp [] (map (fun x => (mkField (bytes_of_string (fst x)) (bytes_of_string (snd x)) false, true)) l).
Definition sent (sc : ServerConn) : list h2_event := match Feed (out sc) with Ok (evs, _) => evs | _ => [] end.
Definition extended_block : bytes := snd (encode Hpack.AcquireHPACK
  [(":method", "CONNECT"); (":protocol", "websocket"); (":scheme", "https"); (":path", "/"); (":authority", "h")]%string).

(** The send windows are never consulted: with an INITIAL_WINDOW_SIZE of zero the
    body of the response is sent at once. *)
Theorem h2_response_ignores_window :
  let sc := dispatch_begin (run [OnSettings [0; 4; 0; 0; 0; 0] false; OnHeaders 1 get_block true true]) 0 in
  sendWindow (obj sc 0) = 0 /\ In (OnStreamData 1 [1; 2; 3] true) (sent (dispatch_end sc 0 (mkResponse 200 [] [1; 2; 3]))).
Proof. vm_compute. split; [reflexivity|]. auto. Qed.

(** Padding counts against the client's windows, but only the data is credited: of
    the five bytes of this DATA frame the server accounts for one. *)
Theorem h2_padding_not_credited :
  let data := [0; 0; 5; 0; 8; 0; 0; 0; 1; 3; 7; 0; 0; 0] in
  match readLoop no_stale (run [OnHeaders 1 get_block true false]) new_readbuf [data] with
  | Ok (sc, _) => connRecvUnacked sc = 1 /\ recvUnacked (obj sc 0) = 1 /\ body (obj sc 0) = [7]
  | _ => False
  end.
Proof. vm_compute. repeat split. Qed.

(** Decoding stops at the field that makes a request malformed, but the rest of
    the block would have changed the decoder's table: a later request on the same
    connection gets a header nobody sent. *)
Definition desync_requests : HPACK * bytes * bytes * bytes :=
  let base := [(":method", "GET"); (":scheme", "https"); (":path", "/")]%string in
  let '(e1, b1) := encode Hpack.AcquireHPACK (base ++ [("x-b", "2")]%string) in
  let '(e2, b2) := encode e1 base in
  let '(e2, b2) := AppendHeader e2 b2 (mkField (bytes_of_string "te") (bytes_of_string "gzip") false) false in
  let '(e2, b2) := AppendHeader e2 b2 (mkField (bytes_of_string "x-a") (bytes_of_string "1") false) true in
  let '(e3, b3) := encode e2 (base ++ [("x-a", "1")]%string) in
  (e3, b1, b2, b3).
Theorem h2_malformed_request_desyncs :
  let '(_, b1, b2, b3) := desync_requests in
  let sc := run [OnHeaders 1 b1 true true; OnHeaders 3 b2 true true; OnHeaders 5 b3 true true] in
  isClosed sc = false /\ sent sc = [OnStreamReset 3 ProtocolError] /\ spawned sc = [0%nat; 2%nat]
  /\ headers (obj sc 2) = [(bytes_of_string "X-B", bytes_of_string "2")].
Proof. vm_compute. repeat split. Qed.

(** The peer's HEADER_TABLE_SIZE limits what the server may send, but it is applied
    to the decoder, and the encoder keeps its size. *)
Theorem h2_table_size_to_decoder :
  let sc := run [OnSettings [0; 1; 0; 0; 0; 0] false] in
  maxTableSize (hpackDec sc) = 0 /\ maxTableSize (hpackEnc sc) = 4096 /\ pendingTableSizeUpdate (hpackEnc sc) = false.
Proof. vm_compute. repeat split. Qed.

(** Trailers: the HEADERS frame after the body is taken for a new stream with an
    old number, and the connection is closed. *)
Theorem h2_trailers_close_connection :
  let sc := run [OnHeaders 1 get_block true false; OnStreamData 1 [7] false; OnHeaders 1 (snd (encode Hpack.AcquireHPACK [("x-sum", "1")]%string)) true true] in
  isClosed sc = true /\ closeErr sc = Some (CloseCode ProtocolError) /\ spawned sc = [].
Proof. vm_compute. repeat split. Qed.

(** The state machine goes on after the connection is closed: a header block that
    cannot be decoded is answered with GOAWAY, and the DATA frame that follows in
    the same read starts the stream, whose request has not even a method. *)
Theorem h2_malformed_request_dispatched :
  let frames := out_bytes (1, FlagEndHeaders, FHeaders { Headers_Reset with h_rawHeaders := [0x80] }) ++ out_bytes (1, FlagEndStream, FData Data_Reset) in
  match readLoop no_stale NewServerConn new_readbuf [frames] with
  | Ok (sc, _) => closeErr sc = Some (CloseCode CompressionError) /\ map (fun d => req_Method (dp_req d)) (dispatches (dispatch_begin sc 0)) = [[]]
  | _ => False
  end.
Proof. vm_compute. repeat split. Qed.

(** An extended CONNECT whose client ends its side before the handler upgrades is
    served twice. *)
Theorem h2_extended_connect_twice : spawned (run [OnHeaders 1 extended_block true false; OnStreamData 1 [] true]) = [0%nat; 0%nat].
Proof. vm_compute. reflexivity. Qed.

(** Both goroutines release its object: it is in the pool twice, the next two
    streams get it, and the second HEADERS frame replaces the request of the first,
    which its client never sees answered. *)
Theorem h2_streams_share_object :
  let twice := dispatch_begin (dispatch_begin (run [OnHeaders 1 extended_block true false; OnStreamData 1 [] true]) 0) 0 in
  let sc := dispatch_end (dispatch_end twice 0 (mkResponse 200 [] [])) 1 (mkResponse 200 [] []) in
  let sc := handle_all no_stale { sc with gets := [0%nat; 0%nat] } [OnHeaders 3 get_block true true; OnHeaders 5 get_block true true] in
  pool (dispatch_end (dispatch_end twice 0 (mkResponse 200 [] [])) 1 (mkResponse 200 [] [])) = [0%nat; 0%nat]
  /\ getStream sc 3 = Some 0%nat /\ getStream sc 5 = Some 0%nat
  /\ map (fun d => req_StreamID (dp_req d)) (dispatches (dispatch_begin (dispatch_begin sc 0) 0)) = [1; 1; 5; 5].
Proof. vm_compute. repeat split; reflexivity. Qed.

(** Data sent before the upgrade goes to the body, not to the tunnel. *)
Theorem h2_tunnel_data_lost :
  let sc := dispatch_begin (run [OnHeaders 1 extended_block true false]) 0 in
  let sc := fst (UpgradeFn (handle [] sc (OnStreamData 1 [1; 2] false)) 0 200 []) in
  let sc := handle [] sc (OnStreamData 1 [3] false) in
  pipes sc = [mkPipe [3] false] /\ body (obj sc 0) = [1; 2].
Proof. vm_compute. repeat split. Qed.

(** An extended CONNECT that the handler refuses gets END_STREAM twice. *)
Theorem h2_refusal_ends_twice :
  match sent (dispatch_end (dispatch_begin (run [OnHeaders 1 extended_block true false]) 0) 0 (mkResponse 403 [] [])) with
  | [OnHeaders 1 _ true true; OnStreamData 1 [] true] => True
  | _ => False
  end.
Proof. vm_compute. exact I. Qed.

(** The server's first SETTINGS announce a header table of zero bytes, which its
    decoder does not use, and a limit of zero bytes for header lists. *)
Theorem h2_server_announces_zeros :
  let sc := fst (Serve_start NewServerConn http2Preface) in
  match sent sc with
  | [OnSettings p false] =>
      match Settings_Read Settings_Reset p with
      | Ok st => st_tableSize st = 0 /\ st_headerSize st = 0 /\ st_MaxStreams st = 1000 /\ maxTableSize (hpackDec sc) = 4096
      | _ => False
      end
  | _ => False
  end.
Proof. vm_compute. repeat split. Qed.

(** The limit of 1000 concurrent streams is announced and not enforced. *)
Theorem h2_stream_limit_ignored :
  let sc := run (map (fun i => OnHeaders (2 * Z.of_nat i + 1) get_block true true) (seq 0 1001)) in
  List.length (spawned sc) = 1001%nat /\ isClosed sc = false.
Proof. vm_compute. repeat split. Qed.

(** DATA on stream 0 is answered with RST_STREAM on stream 0 instead of a
    connection error. *)
Theorem h2_data_on_stream_zero : sent (run [OnStreamData 0 [] false]) = [OnStreamReset 0 StreamClosedError] /\ isClosed (run [OnStreamData 0 [] false]) = false.
Proof. vm_compute. repeat split. Qed.

(** A PING shorter than eight bytes is acknowledged with what an earlier PING left
    in the pooled frame, whoever sent it. *)
Theorem h2_short_ping_leaks (s0 s1 s2 s3 s4 s5 s6 s7 : Z) :
  out (OnPing_ NewServerConn [s0; s1; s2; s3; s4; s5; s6; s7] [9] false) = [0; 0; 8; 6; 1; 0; 0; 0; 0; 9; s1; s2; s3; s4; s5; s6; s7].
Proof. reflexivity. Qed.

(** The headers of a response are not split: a HEADERS frame may exceed the peer's
    MAX_FRAME_SIZE. *)
Definition large_response : ServerConn := dispatch_end served 0 (mkResponse 200 [(bytes_of_string "x", [repeat 255 (Z.to_nat 6000)])] []).
Definition first_longer (data : bytes) (limit : Z) : bool := match H2Fsm.Length data with Ok n => n >? limit | _ => false end.
Theorem h2_large_header_frame : peerMaxFrameSize large_response = 16384 /\ first_longer (out large_response) 16384 = true.
Proof. split; vm_compute; reflexivity. Qed.

(** A connection-specific header other than the four the server knows is sent. *)
Theorem h2_response_connection_header :
  let hs := [(bytes_of_string "Proxy-Connection", [bytes_of_string "close"])] in
  match Decode Hpack.AcquireHPACK (snd (SerializeResponseHeaders (hpackEnc NewServerConn) 200 hs 0)) with
  | (_, hfs, Ok _) => existsb (fun hf => IsConnectionSpecificHeader (key hf) (value hf)) hfs = true
  | _ => False
  end.
Proof. vm_compute. reflexivity. Qed.
