(* ===== verification/QuicPacket.v ===== *)
(** * QUIC packets: headers and their protection (RFC 9000 section 17, RFC 9001 section 5)

    Models [src/net/quic/core/wire]: [header.go] and [version.go] (long and short
    headers), [header_protection.go] (the masks, with the ChaCha20 block function of
    the source) and [aead.go] (nonces, [SealPacket], [OpenPacket]).  Ciphers come
    from the Go libraries: [Crypto] has what the code calls of them, and
    [CryptoLaws] what is documented of them.

    A header that comes with an error is not used by any caller and not modelled; a
    packet is changed in place, here it is returned.

    The theorems: headers round-trip; parsing is total, stays within the packet and
    agrees with the parsing of offsets; protection is undone exactly; a packet that
    was sealed is opened to its header and payload, also with other packets behind
    it. *)

From S2P Require Import Prelude Varint PacketNumber WireParser.

(** ** Versions *)
Definition VersionNegotiation : Z := 0x00000000.
Definition Version1 : Z := 0x00000001.
Definition Version2 : Z := 0x709a50c4.
Definition IsSupportedVersion (v : Z) : bool := (v =? Version1) || (v =? Version2).
Definition initialSaltV1 : bytes :=
  [0x38; 0x7b; 0x2c; 0x36; 0x05; 0x65; 0x89; 0x07; 0x36; 0x95; 0xb0; 0xa3; 0xb9; 0x0f; 0x64; 0xdd; 0x39; 0xd2; 0xb7; 0x9e].
Definition initialSaltV2 : bytes :=
  [0x0d; 0xed; 0xe3; 0xde; 0xf7; 0x00; 0xa6; 0xdb; 0x81; 0x93; 0x81; 0xbe; 0x6e; 0x26; 0x9d; 0xcb; 0xf9; 0xbd; 0x2e; 0xd9].
Definition InitialSalt (v : Z) : bytes := if v =? Version2 then initialSaltV2 else initialSaltV1.

(** ** Headers *)
Inductive PacketType :=
| PacketTypeInitial | PacketType0RTT | PacketTypeHandshake | PacketTypeRetry | PacketTypeVersionNegotiation | PacketType1RTT.
#[export] Instance PacketType_eq_dec : EqDecision PacketType.
Proof. solve_decision. Defined.
Definition PacketType_IsLong (t : PacketType) : bool := negb (bool_decide (t = PacketType1RTT)).

#[projections(primitive)]
Record Header := mkHeader {
  h_IsLong : bool; h_Type : PacketType; h_Version : Z; h_DestConnID : bytes; h_SrcConnID : bytes; h_Token : bytes; h_Length : Z;
  h_PacketNumber : Z; h_PacketNumberLen : Z; h_KeyPhase : bool; h_SpinBit : bool;
  h_HeaderLen : Z; h_PacketNumberOffset : Z; h_PayloadLen : Z }.
(** [var h Header]. *)
Definition zero_header : Header := mkHeader false PacketTypeInitial 0 [] [] [] 0 0 0 false false 0 0 0.

(** [AppendPacketNumber] and [ReadPacketNumber] return no error. *)
Definition no_error {A} (r : res unit A) : res wire_error A := match r with Ok a => Ok a | _ => Panic end.

(** The two bits of a long header's first byte, and their reading. *)
Definition typeBits (v : Z) (t : PacketType) : res wire_error Z :=
  if v =? Version2 then
    match t with
    | PacketTypeRetry => Ok 0x00 | PacketTypeInitial => Ok 0x10 | PacketType0RTT => Ok 0x20 | PacketTypeHandshake => Ok 0x30
    | _ => Err ErrInvalidFrameType
    end
  else
    match t with
    | PacketTypeInitial => Ok 0x00 | PacketType0RTT => Ok 0x10 | PacketTypeHandshake => Ok 0x20 | PacketTypeRetry => Ok 0x30
    | _ => Err ErrInvalidFrameType
    end.
Definition typeOf (v firstByte : Z) : PacketType :=
  let bits := Z.shiftr (Z.land firstByte 0x30) 4 in
  if v =? Version2 then
    match bits with 0 => PacketTypeRetry | 1 => PacketTypeInitial | 2 => PacketType0RTT | _ => PacketTypeHandshake end
  else
    match bits with 0 => PacketTypeInitial | 1 => PacketType0RTT | 2 => PacketTypeHandshake | _ => PacketTypeRetry end.

Definition append_cids (dst : bytes) (h : Header) : bytes :=
  dst ++ [u8 (zlen (h_DestConnID h))] ++ h_DestConnID h ++ [u8 (zlen (h_SrcConnID h))] ++ h_SrcConnID h.

Definition append_number (dst : bytes) (h : Header) : res wire_error (bytes * Z) :=
  let pnOffset := zlen dst in
  let* dst := no_error (AppendPacketNumber dst (h_PacketNumber h) (h_PacketNumberLen h)) in
  Ok (dst, pnOffset).

(** [AppendHeader]: the packet so far and the offset of the packet number. *)
Definition AppendHeader (dst : bytes) (h : Header) : res wire_error (bytes * Z) :=
  if negb (h_IsLong h) then
    if zlen (h_DestConnID h) >? 20 then Err ErrInvalidConnectionIDLen
    else if (h_PacketNumberLen h <? 1) || (h_PacketNumberLen h >? 4) then Err ErrInvalidPacketNumber
    else
      let firstByte := 0x40 in
      let firstByte := if h_SpinBit h then Z.lor firstByte 0x20 else firstByte in
      let firstByte := if h_KeyPhase h then Z.lor firstByte 0x04 else firstByte in
      let firstByte := Z.lor firstByte (u8 (h_PacketNumberLen h - 1)) in
      append_number (dst ++ [firstByte] ++ h_DestConnID h) h
  else if (zlen (h_DestConnID h) >? 20) || (zlen (h_SrcConnID h) >? 20) then Err ErrInvalidConnectionIDLen
  else
    let firstByte := 0xc0 in
    if bool_decide (h_Type h = PacketTypeVersionNegotiation) then
      let firstByte := Z.lor 0x80 (Z.land firstByte 0x0f) in
      Ok (append_cids (dst ++ [firstByte] ++ be_put 4 0) h, 0)
    else
      let* bits := typeBits (h_Version h) (h_Type h) in
      let firstByte := Z.lor firstByte bits in
      let* firstByte :=
        if negb (bool_decide (h_Type h = PacketTypeRetry)) then
          if (h_PacketNumberLen h <? 1) || (h_PacketNumberLen h >? 4) then Err ErrInvalidPacketNumber
          else Ok (Z.lor firstByte (u8 (h_PacketNumberLen h - 1)))
        else Ok firstByte in
      let dst := append_cids (dst ++ [firstByte] ++ be_put 4 (h_Version h)) h in
      match h_Type h with
      | PacketTypeInitial =>
          let* dst := wire_appendVarint dst (zlen (h_Token h)) in
          let* dst := wire_appendVarint (dst ++ h_Token h) (h_Length h) in
          append_number dst h
      | PacketType0RTT | PacketTypeHandshake =>
          let* dst := wire_appendVarint dst (h_Length h) in
          append_number dst h
      | PacketTypeRetry => Ok (dst ++ h_Token h, 0)
      | _ => Err ErrInvalidFrameType
      end.

(** [varint.Decode] of the rest of the packet, any error as a truncated header. *)
Definition header_varint (b : bytes) (offset : Z) : res wire_error (Z * Z) :=
  let* rest := slice b offset (zlen b) in
  match Varint.Decode rest with
  | Ok x => Ok x
  | Err _ => Err ErrTruncatedHeader
  | Panic => Panic
  end.

(** The packet number at [offset], decoded. *)
Definition header_number (b : bytes) (offset pnLen largestAcked : Z) : res wire_error Z :=
  let* rest := slice b offset (zlen b) in
  let* truncatedPN := no_error (ReadPacketNumber rest pnLen) in
  Ok (DecodePacketNumber largestAcked truncatedPN pnLen).

(** A connection identifier of a long header: its length, which must not exceed
    [max], the bytes, of which at least [more] others follow, and the next offset. *)
Definition header_cid (b : bytes) (offset max more : Z) (tooLong : wire_error) : res wire_error (bytes * Z) :=
  let* len := index b offset in
  let offset := offset + 1 in
  if len >? max then Err tooLong
  else if zlen b <? offset + len + more then Err ErrTruncatedHeader
  else
    let* cid := slice b offset (offset + len) in
    Ok (cid, offset + len).

Definition parse_short (b : bytes) (destConnIDLen largestAcked : Z) (firstByte : Z) : res wire_error Header :=
  if Z.land firstByte 0x40 =? 0 then Err ErrInvalidFixedBit
  else if negb (Z.land firstByte 0x18 =? 0) then Err ErrInvalidReservedBits
  else
    let pnLen := Z.land firstByte 0x03 + 1 in
    if (destConnIDLen >? 20) || (destConnIDLen <? 0) then Err ErrInvalidConnectionIDLen
    else if zlen b <? 1 + destConnIDLen + pnLen then Err ErrTruncatedHeader
    else
      let* cid := slice b 1 (1 + destConnIDLen) in
      let offset := 1 + destConnIDLen in
      let* pn := header_number b offset pnLen largestAcked in
      Ok (mkHeader false PacketType1RTT 0 cid [] [] 0 pn pnLen
            (negb (Z.land firstByte 0x04 =? 0)) (negb (Z.land firstByte 0x20 =? 0))
            (offset + pnLen) offset (zlen b - (offset + pnLen))).

Definition parse_negotiation (b : bytes) : res wire_error Header :=
  if zlen b <? 7 then Err ErrTruncatedHeader
  else
    let* d := header_cid b 5 255 1 ErrTruncatedHeader in
    let* s := header_cid b (snd d) 255 0 ErrTruncatedHeader in
    Ok { zero_header with h_IsLong := true; h_Type := PacketTypeVersionNegotiation; h_Version := VersionNegotiation;
         h_DestConnID := fst d; h_SrcConnID := fst s; h_HeaderLen := snd s; h_PayloadLen := zlen b - snd s }.

(** The part of a long header behind the connection identifiers. *)
Definition parse_long_rest (b : bytes) (largestAcked firstByte offset : Z) (h : Header) : res wire_error Header :=
  if bool_decide (h_Type h = PacketTypeRetry) then
    if zlen b <? offset + 16 then Err ErrTruncatedPacket
    else
      let* token := slice b offset (zlen b - 16) in
      Ok { h with h_Token := token; h_HeaderLen := zlen b - 16; h_PayloadLen := 16 }
  else if negb (Z.land firstByte 0x0c =? 0) then Err ErrInvalidReservedBits
  else
    let pnLen := Z.land firstByte 0x03 + 1 in
    let* t :=
      if bool_decide (h_Type h = PacketTypeInitial) then
        let* r := header_varint b offset in
        let offset := offset + snd r in
        if u64 (zlen b - offset) <? fst r then Err ErrTruncatedHeader
        else
          let* token := slice b offset (offset + i64 (fst r)) in
          Ok (token, offset + i64 (fst r))
      else Ok ([], offset) in
    let* r := header_varint b (snd t) in
    let offset := snd t + snd r in
    if zlen b <? offset + pnLen then Err ErrTruncatedHeader
    else
      let* pn := header_number b offset pnLen largestAcked in
      let h := { h with h_Token := fst t; h_Length := fst r; h_PacketNumber := pn; h_PacketNumberLen := pnLen;
                 h_PacketNumberOffset := offset; h_HeaderLen := offset + pnLen } in
      if (fst r <? pnLen) || (u64 (zlen b - (offset + pnLen)) <? u64 (fst r - pnLen)) then Err ErrTruncatedPacket
      else Ok { h with h_PayloadLen := i64 (fst r) - pnLen }.

Definition parse_long (b : bytes) (largestAcked firstByte : Z) : res wire_error Header :=
  if zlen b <? 5 then Err ErrTruncatedHeader
  else
    let* v := slice b 1 5 in
    let v := be_get v in
    if v =? VersionNegotiation then parse_negotiation b
    else if Z.land firstByte 0x40 =? 0 then Err ErrInvalidFixedBit
    else if zlen b <? 6 then Err ErrTruncatedHeader
    else
      let* d := header_cid b 5 20 1 ErrInvalidConnectionIDLen in
      let* s := header_cid b (snd d) 20 0 ErrInvalidConnectionIDLen in
      parse_long_rest b largestAcked firstByte (snd s)
        { zero_header with h_IsLong := true; h_Type := typeOf v firstByte; h_Version := v; h_DestConnID := fst d; h_SrcConnID := fst s }.

Definition ParseHeader (b : bytes) (destConnIDLen largestAcked : Z) : res wire_error Header :=
  match b with
  | [] => Err ErrTruncatedPacket
  | firstByte :: _ =>
      if Z.land firstByte 0x80 =? 0 then parse_short b destConnIDLen largestAcked firstByte
      else parse_long b largestAcked firstByte
  end.

(** [ParseHeaderOffsets]: offset of the packet number, form, type, version and
    connection identifiers. *)
Definition offsets : Type := Z * bool * PacketType * Z * bytes * bytes.
Definition long_offsets (b : bytes) (firstByte : Z) : res wire_error offsets :=
  if zlen b <? 5 then Err ErrTruncatedHeader
  else
    let* v := slice b 1 5 in
    let v := be_get v in
    if v =? VersionNegotiation then Ok (0, true, PacketTypeVersionNegotiation, v, [], [])
    else if zlen b <? 6 then Err ErrTruncatedHeader
    else
      let* d := header_cid b 5 20 1 ErrTruncatedHeader in
      let* s := header_cid b (snd d) 20 0 ErrTruncatedHeader in
      let offset := snd s in
      let typ := typeOf v firstByte in
      if bool_decide (typ = PacketTypeRetry) then Ok (0, true, typ, v, fst d, fst s)
      else
        let* offset :=
          if bool_decide (typ = PacketTypeInitial) then
            let* r := header_varint b offset in
            let offset := offset + snd r in
            if u64 (zlen b - offset) <? fst r then Err ErrTruncatedHeader else Ok (offset + i64 (fst r))
          else Ok offset in
        let* r := header_varint b offset in
        Ok (offset + snd r, true, typ, v, fst d, fst s).
Definition ParseHeaderOffsets (b : bytes) (destConnIDLen : Z) : res wire_error offsets :=
  match b with
  | [] => Err ErrTruncatedPacket
  | firstByte :: _ =>
      if Z.land firstByte 0x80 =? 0 then
        if (destConnIDLen <? 0) || (destConnIDLen >? 20) then Err ErrInvalidConnectionIDLen
        else if zlen b <? 1 + destConnIDLen + 4 then Err ErrTruncatedPacket
        else
          let* cid := slice b 1 (1 + destConnIDLen) in
          Ok (1 + destConnIDLen, false, PacketType1RTT, 0, cid, [])
      else long_offsets b firstByte
  end.

(** ** Header protection *)
Definition HeaderProtectionSampleLen : Z := 16.
Definition HeaderProtectionMaskLen : Z := 5.
(** The interface [HeaderProtector]: its only method. *)
Definition HeaderProtector : Type := bytes -> bytes.

(** [binary.LittleEndian]. *)
Definition le_get32 (l : bytes) : Z := fold_right (fun b acc => b + 2 ^ 8 * acc) 0 l.
Definition le_put32 (v : Z) : bytes := [u8 v; u8 (Z.shiftr v 8); u8 (Z.shiftr v 16); u8 (Z.shiftr v 24)].

Definition rotl32 (x k : Z) : Z := Z.lor (u32 (Z.shiftl x k)) (Z.shiftr x (32 - k)).
(** [quarterRound] on the words at four indices of the state. *)
Definition quarterRound (s : list Z) (a b c d : nat) : list Z :=
  let w i := nth i s 0 in
  let '(va, vb, vc, vd) := (w a, w b, w c, w d) in
  let va := u32 (va + vb) in let vd := rotl32 (Z.lxor vd va) 16 in
  let vc := u32 (vc + vd) in let vb := rotl32 (Z.lxor vb vc) 12 in
  let va := u32 (va + vb) in let vd := rotl32 (Z.lxor vd va) 8 in
  let vc := u32 (vc + vd) in let vb := rotl32 (Z.lxor vb vc) 7 in
  <[a := va]> (<[b := vb]> (<[c := vc]> (<[d := vd]> s))).
Definition double_round (s : list Z) : list Z :=
  let s := quarterRound s 0 4 8 12 in
  let s := quarterRound s 1 5 9 13 in
  let s := quarterRound s 2 6 10 14 in
  let s := quarterRound s 3 7 11 15 in
  let s := quarterRound s 0 5 10 15 in
  let s := quarterRound s 1 6 11 12 in
  let s := quarterRound s 2 7 8 13 in
  quarterRound s 3 4 9 14.
(** The words of a byte slice, four bytes each. *)
Fixpoint words (n : nat) (l : bytes) : list Z :=
  match n with O => [] | S n' => le_get32 (take 4 l) :: words n' (drop 4 l) end.

(** [NewChaChaHeaderProtector] and its [Mask]. *)
Definition ChaCha_Mask (key : list Z) (sample : bytes) : bytes :=
  let state := [0x61707865; 0x3320646e; 0x79622d32; 0x6b206574] ++ key ++ words 4 sample in
  let out := zip_with (fun x y => u32 (x + y)) (Nat.iter 10 double_round state) state in
  le_put32 (nth 0 out 0) ++ [u8 (nth 1 out 0)].
Definition NewChaChaHeaderProtector (hpKey : bytes) : option HeaderProtector :=
  if negb (zlen hpKey =? 32) then None else Some (ChaCha_Mask (words 8 hpKey)).

(** [packet[i] ^= m]. *)
Definition xor_at (packet : bytes) (i m : Z) : res wire_error bytes :=
  let* x := index packet i in
  Ok (<[Z.to_nat i := Z.lxor x m]> packet).
(** The loop over the packet number, [k] bytes left. *)
Fixpoint xor_number (k : nat) (packet mask : bytes) (pnOffset i : Z) : res wire_error bytes :=
  match k with
  | O => Ok packet
  | S k' =>
      let* m := index mask (1 + i) in
      let* packet := xor_at packet (pnOffset + i) m in
      xor_number k' packet mask pnOffset (i + 1)
  end.
Definition xor_first (packet mask : bytes) : res wire_error bytes :=
  let* first := index packet 0 in
  let* m := index mask 0 in
  xor_at packet 0 (Z.land m (if negb (Z.land first 0x80 =? 0) then 0x0f else 0x1f)).

Definition ApplyHeaderProtection (packet : bytes) (pnOffset pnLen : Z) (hp : HeaderProtector) : res wire_error bytes :=
  let sampleStart := pnOffset + 4 in
  if zlen packet <? sampleStart + HeaderProtectionSampleLen then Err ErrSampleOutOfBounds
  else if (pnLen <? 1) || (pnLen >? 4) then Err ErrInvalidPacketNumber
  else
    let* sample := slice packet sampleStart (sampleStart + HeaderProtectionSampleLen) in
    let mask := hp sample in
    let* packet := xor_first packet mask in
    xor_number (Z.to_nat (Z.min pnLen 4)) packet mask pnOffset 0.

(** The packet and the length of its packet number. *)
Definition RemoveHeaderProtection (packet : bytes) (pnOffset : Z) (hp : HeaderProtector) : res wire_error (bytes * Z) :=
  let sampleStart := pnOffset + 4 in
  if zlen packet <? sampleStart + HeaderProtectionSampleLen then Err ErrSampleOutOfBounds
  else
    let* sample := slice packet sampleStart (sampleStart + HeaderProtectionSampleLen) in
    let mask := hp sample in
    let* packet := xor_first packet mask in
    let* first := index packet 0 in
    let pnLen := Z.land first 0x03 + 1 in
    if zlen packet <? pnOffset + pnLen then Err ErrTruncatedPacket
    else
      let* packet := xor_number (Z.to_nat (Z.min pnLen 4)) packet mask pnOffset 0 in
      Ok (packet, pnLen).

(** ** AEAD protection *)
(** A [cipher.AEAD] with its key: nonce, text and associated data. *)
Record AEAD := mkAEAD {
  aead_Overhead : Z;
  aead_Seal : bytes -> bytes -> bytes -> bytes;
  aead_Open : bytes -> bytes -> bytes -> option bytes }.

(** The library calls of [aead.go] and [header_protection.go]. *)
Class Crypto := {
  aes_NewCipher : bytes -> option (bytes -> bytes);
  cipher_NewGCM : (bytes -> bytes) -> option AEAD;
  chacha20poly1305_New : bytes -> option AEAD
}.

Record aead_law (a : AEAD) : Prop := {
  al_overhead : 0 <= aead_Overhead a <= 256;
  al_len : forall nonce text aad, zlen (aead_Seal a nonce text aad) = zlen text + aead_Overhead a;
  al_bytes : forall nonce text aad, bytes_ok text -> bytes_ok (aead_Seal a nonce text aad);
  al_open : forall nonce text aad, bytes_ok text -> aead_Open a nonce (aead_Seal a nonce text aad) aad = Some text
}.
Class CryptoLaws `{Crypto} : Prop := {
  law_gcm : forall c a, cipher_NewGCM c = Some a -> aead_law a;
  law_chacha : forall k a, chacha20poly1305_New k = Some a -> aead_law a;
  law_block : forall k c x, aes_NewCipher k = Some c -> zlen (c x) = 16 /\ bytes_ok (c x)
}.

Definition TLS_AES_128_GCM_SHA256 : Z := 0x1301.
Definition TLS_AES_256_GCM_SHA384 : Z := 0x1302.
Definition TLS_CHACHA20_POLY1305_SHA256 : Z := 0x1303.

(** [ComputeNonce]: the last eight bytes of the IV are combined with the number. *)
Definition ComputeNonce (iv : bytes) (pn : Z) : res wire_error bytes :=
  if zlen iv <? 12 then Panic
  else Ok (ztake 4 iv ++ zip_with Z.lxor (ztake 8 (zdrop 4 iv)) (be_put 8 pn)).

Inductive new_error := ErrShortIV | ErrCipher | ErrHeaderKey | ErrUnsupportedSuite.
(** [PacketProtector] and [PacketOpener] have the same fields; the nonce is
    overwritten before each use. *)
Record protector := mkProtector { pp_suite : Z; pp_aead : AEAD; pp_iv : bytes; pp_hp : HeaderProtector }.

Section Protection.
Context `{Crypto}.

(** [NewAESHeaderProtector] and its [Mask]. *)
Definition AES_Mask (block : bytes -> bytes) (sample : bytes) : bytes := ztake 5 (block (ztake 16 sample)).
Definition NewAESHeaderProtector (hpKey : bytes) : option HeaderProtector :=
  match aes_NewCipher hpKey with Some block => Some (AES_Mask block) | None => None end.

(** [NewPacketProtector]; [NewPacketOpener] is the same. *)
Definition NewPacketProtector (suite : Z) (key iv hpKey : bytes) : res new_error protector :=
  if zlen iv <? 12 then Err ErrShortIV
  else
    let build aead hp :=
      match aead with
      | None => Err ErrCipher
      | Some a => match hp with None => Err ErrHeaderKey | Some m => Ok (mkProtector suite a (ztake 12 iv) m) end
      end in
    if (suite =? TLS_AES_128_GCM_SHA256) || (suite =? TLS_AES_256_GCM_SHA384) then
      build (match aes_NewCipher key with Some block => cipher_NewGCM block | None => None end) (NewAESHeaderProtector hpKey)
    else if suite =? TLS_CHACHA20_POLY1305_SHA256 then
      build (chacha20poly1305_New key) (NewChaChaHeaderProtector hpKey)
    else Err ErrUnsupportedSuite.
Definition NewPacketOpener (suite : Z) (key iv hpKey : bytes) : res new_error protector :=
  NewPacketProtector suite key iv hpKey.
End Protection.

(** [SealPacket]: the packet is appended to [dst]. *)
Definition SealPacket (p : protector) (dst : bytes) (h : Header) (payload : bytes) : res wire_error bytes :=
  let h :=
    if h_IsLong h && negb (bool_decide (h_Type h = PacketTypeRetry)) then
      { h with h_Length := u64 (h_PacketNumberLen h + zlen payload + aead_Overhead (pp_aead p)) }
    else h in
  let* r := AppendHeader dst h in
  let startLen := zlen dst in
  let aad := zdrop startLen (fst r) in
  let* nonce := ComputeNonce (pp_iv p) (h_PacketNumber h) in
  let out := fst r ++ aead_Seal (pp_aead p) nonce payload aad in
  let* packet := ApplyHeaderProtection (zdrop startLen out) (snd r - startLen) (h_PacketNumberLen h) (pp_hp p) in
  Ok (dst ++ packet).

(** [OpenPacket]; the plaintext is appended to [dst] ([nil] means in place). *)
Definition OpenPacket (o : protector) (dst packet : bytes) (destConnIDLen largestAcked : Z) : res wire_error (Header * bytes) :=
  let* off := ParseHeaderOffsets packet destConnIDLen in
  let '(pnOffset, _, _, _, _, _) := off in
  let* r := RemoveHeaderProtection packet pnOffset (pp_hp o) in
  let packet := fst r in
  let* h := ParseHeader packet destConnIDLen largestAcked in
  let h := { h with h_PacketNumberLen := snd r } in
  let* nonce := ComputeNonce (pp_iv o) (h_PacketNumber h) in
  let* aad := slice packet 0 (h_HeaderLen h) in
  let* ciphertext := slice packet (h_HeaderLen h) (h_HeaderLen h + h_PayloadLen h) in
  match aead_Open (pp_aead o) nonce ciphertext aad with
  | Some text => Ok (h, dst ++ text)
  | None => Err ErrDecryptionFailed
  end.

(** ** Specification: the image of a header *)
Definition numbered (h : Header) : bool :=
  match h_Type h with PacketTypeRetry | PacketTypeVersionNegotiation => false | _ => true end.
Definition type_code (v : Z) (t : PacketType) : Z := match typeBits v t with Ok x => x | _ => 0 end.
Definition first_byte (h : Header) : Z :=
  match h_Type h with
  | PacketType1RTT => 0x40 + (if h_SpinBit h then 0x20 else 0) + (if h_KeyPhase h then 0x04 else 0) + (h_PacketNumberLen h - 1)
  | PacketTypeVersionNegotiation => 0x80
  | PacketTypeRetry => 0xc0 + type_code (h_Version h) (h_Type h)
  | t => 0xc0 + type_code (h_Version h) t + (h_PacketNumberLen h - 1)
  end.
Definition cids_image (h : Header) : bytes :=
  [zlen (h_DestConnID h)] ++ h_DestConnID h ++ [zlen (h_SrcConnID h)] ++ h_SrcConnID h.
(** What lies between the first byte and the packet number. *)
Definition header_body (h : Header) : bytes :=
  match h_Type h with
  | PacketType1RTT => h_DestConnID h
  | PacketTypeVersionNegotiation => be_put 4 0 ++ cids_image h
  | PacketTypeRetry => be_put 4 (h_Version h) ++ cids_image h ++ h_Token h
  | PacketTypeInitial => be_put 4 (h_Version h) ++ cids_image h ++ vi_enc (zlen (h_Token h)) ++ h_Token h ++ vi_enc (h_Length h)
  | _ => be_put 4 (h_Version h) ++ cids_image h ++ vi_enc (h_Length h)
  end.
Definition number_image (h : Header) : bytes := if numbered h then be_put (Z.to_nat (h_PacketNumberLen h)) (h_PacketNumber h) else [].
Definition header_image (h : Header) : bytes := first_byte h :: header_body h ++ number_image h.

(** Headers that can be written: the fields its type has are in range, the others
    have their zero value. *)
Record header_wf (h : Header) : Prop := {
  hw_dcid : zlen (h_DestConnID h) <= 20 /\ bytes_ok (h_DestConnID h);
  hw_scid : zlen (h_SrcConnID h) <= 20 /\ bytes_ok (h_SrcConnID h);
  hw_token : bytes_ok (h_Token h) /\ zlen (h_Token h) < 2 ^ 62;
  hw_long : h_IsLong h = PacketType_IsLong (h_Type h);
  hw_number : if numbered h then 1 <= h_PacketNumberLen h <= 4 /\ pn_valid (h_PacketNumber h) else h_PacketNumberLen h = 0 /\ h_PacketNumber h = 0;
  hw_fields :
    match h_Type h with
    | PacketType1RTT => h_Version h = 0 /\ h_SrcConnID h = [] /\ h_Token h = [] /\ h_Length h = 0
    | PacketTypeVersionNegotiation => h_Version h = 0 /\ h_Token h = [] /\ h_Length h = 0
    | PacketTypeRetry => 0 < h_Version h < 2 ^ 32 /\ h_Length h = 0
    | PacketTypeInitial => 0 < h_Version h < 2 ^ 32 /\ vi_ok (h_Length h)
    | _ => 0 < h_Version h < 2 ^ 32 /\ vi_ok (h_Length h) /\ h_Token h = []
    end;
  hw_bits : h_IsLong h = true -> h_KeyPhase h = false /\ h_SpinBit h = false
}.

(** The payload of a packet ends with it, unless its header has a length. *)
Definition fits (h : Header) (payload rest : bytes) : Prop :=
  match h_Type h with
  | PacketType1RTT | PacketTypeVersionNegotiation => rest = []
  | PacketTypeRetry => rest = [] /\ zlen payload = 16
  | _ => h_Length h = h_PacketNumberLen h + zlen payload
  end.
(** The header with the layout the parser reports. *)
Definition placed (h : Header) (n : Z) : Header :=
  { h with h_HeaderLen := zlen (header_image h); h_PacketNumberOffset := (if numbered h then 1 + zlen (header_body h) else 0); h_PayloadLen := n }.

(** Equality of concatenations up to associativity. *)
Ltac list_eq := repeat (progress (rewrite <- ?app_assoc; cbn [app])); reflexivity.

(** ** Reading at an offset *)
Lemma slice_mid {E} (a x b : bytes) lo hi : lo = zlen a -> hi = zlen a + zlen x -> @slice E Z (a ++ x ++ b) lo hi = Ok x.
Proof.
  intros -> ->. pose proof (zlen_nonneg a). pose proof (zlen_nonneg x). pose proof (zlen_nonneg b). unfold slice.
  rewrite !zlen_app. test_true ((0 <=? zlen a) && (zlen a <=? zlen a + zlen x) && (zlen a + zlen x <=? zlen a + (zlen x + zlen b))).
  f_equal. rewrite zdrop_app. apply ztake_app_eq. lia.
Qed.
Lemma slice_end {E} (a b : bytes) lo hi : lo = zlen a -> hi = zlen (a ++ b) -> @slice E Z (a ++ b) lo hi = Ok b.
Proof. intros -> ->. rewrite <- (app_nil_r b) at 1. rewrite slice_mid; [done|done|]. apply zlen_app. Qed.
Lemma index_mid {E} (a : bytes) x b i : i = zlen a -> @index E (a ++ x :: b) i = Ok x.
Proof.
  intros ->. pose proof (zlen_nonneg a). pose proof (zlen_nonneg b). unfold index.
  rewrite zlen_app, zlen_cons. test_true ((0 <=? zlen a) && (zlen a <? zlen a + (1 + zlen b))).
  unfold znth, zlen. rewrite Nat2Z.id, app_nth2, Nat.sub_diag by lia. done.
Qed.
Lemma index_head {E} x (b : bytes) : @index E (x :: b) 0 = Ok x.
Proof. exact (index_mid [] x b 0 eq_refl). Qed.

Lemma cid_mid a cid b max more e i :
  i = zlen a -> zlen cid <= max -> more <= zlen b -> header_cid (a ++ zlen cid :: cid ++ b) i max more e = Ok (cid, i + 1 + zlen cid).
Proof.
  intros -> Hm Hb. unfold header_cid. rewrite index_mid by done. cbn [res_bind]. pose proof (zlen_nonneg cid).
  replace (zlen cid >? max) with false by lia. rewrite zlen_app, zlen_cons, zlen_app. replace (_ <? _) with false by lia.
  replace (a ++ zlen cid :: cid ++ b) with ((a ++ [zlen cid]) ++ cid ++ b) by by rewrite <- app_assoc.
  rewrite slice_mid; [done| |]; rewrite zlen_app, zlen_cons, zlen_nil; lia.
Qed.
Lemma varint_mid a v b i : i = zlen a -> vi_ok v -> bytes_ok b -> header_varint (a ++ vi_enc v ++ b) i = Ok (v, zlen (vi_enc v)).
Proof. intros -> Hv Hb. unfold header_varint. rewrite slice_end by done. cbn [res_bind]. by rewrite Decode_enc. Qed.
Lemma number_mid a pn n b la i :
  i = zlen a -> 1 <= n <= 4 -> pn_valid pn -> pn_or_invalid la -> in_window la pn n ->
  header_number (a ++ be_put (Z.to_nat n) pn ++ b) i n la = Ok pn.
Proof.
  intros -> Hn Hp Hl Hw. unfold header_number. rewrite slice_end by done. cbn [res_bind]. rewrite ReadPacketNumber_be by done.
  cbn [no_error res_bind]. by rewrite DecodePacketNumber_window.
Qed.

(** ** The first byte *)
Lemma short_first (s k : bool) n :
  1 <= n <= 4 ->
  let f := 0x40 + (if s then 0x20 else 0) + (if k then 0x04 else 0) + (n - 1) in
  is_byte f /\ (Z.land f 0x80 =? 0) = true /\ (Z.land f 0x40 =? 0) = false /\ (Z.land f 0x18 =? 0) = true /\ Z.land f 0x03 + 1 = n
  /\ negb (Z.land f 0x04 =? 0) = k /\ negb (Z.land f 0x20 =? 0) = s
  /\ Z.lor (if k then Z.lor (if s then Z.lor 0x40 0x20 else 0x40) 0x04 else if s then Z.lor 0x40 0x20 else 0x40) (u8 (n - 1)) = f.
Proof. intros Hn. assert (n = 1 \/ n = 2 \/ n = 3 \/ n = 4) as [->|[->|[->| ->]]] by lia; destruct s, k; by vm_compute. Qed.

Definition long_type (t : PacketType) : bool := match t with PacketType1RTT | PacketTypeVersionNegotiation => false | _ => true end.
Lemma type_first v t x :
  long_type t = true -> 0 <= x <= 3 ->
  let f := 0xc0 + type_code v t + x in
  is_byte f /\ (Z.land f 0x80 =? 0) = false /\ (Z.land f 0x40 =? 0) = false /\ (Z.land f 0x0c =? 0) = true /\ Z.land f 0x03 = x
  /\ typeOf v f = t /\ typeBits v t = Ok (type_code v t) /\ Z.lor (Z.lor 0xc0 (type_code v t)) x = f /\ Z.lor 0xc0 (type_code v t) + x = f.
Proof.
  intros Ht Hx. unfold type_code, typeBits, typeOf. assert (x = 0 \/ x = 1 \/ x = 2 \/ x = 3) as [->|[->|[->| ->]]] by lia;
    destruct (v =? Version2), t; try done; by vm_compute.
Qed.

(** ** Writing *)
Lemma cids_append dst h : header_wf h -> append_cids dst h = dst ++ cids_image h.
Proof.
  intros [[Hd _] [Hs _] _ _ _ _ _]. unfold append_cids, cids_image. pose proof (zlen_nonneg (h_DestConnID h)). pose proof (zlen_nonneg (h_SrcConnID h)).
  by rewrite !u8_small by (unfold is_byte; lia).
Qed.
Lemma number_append dst h : header_wf h -> numbered h = true -> append_number dst h = Ok (dst ++ number_image h, zlen dst).
Proof.
  intros [_ _ _ _ Hn _ _] En. rewrite En in Hn. unfold append_number, number_image. rewrite En, AppendPacketNumber_be by lia. done.
Qed.

(** The end of each case: the packet number, and where it starts. *)
Ltac append_done := rewrite number_append by (try done; unfold numbered; done);
  do 2 f_equal; [by rewrite <- ?app_assoc|rewrite ?zlen_app; change (zlen [_]) with 1; lia].

Lemma AppendHeader_image dst h : header_wf h ->
  AppendHeader dst h = Ok (dst ++ header_image h, if numbered h then zlen dst + 1 + zlen (header_body h) else 0).
Proof.
  intros Hw. pose proof Hw as [[Hd _] [Hs _] [_ Ht] Hl Hn Hf _]. unfold AppendHeader, header_image, header_body, first_byte in *. rewrite Hl.
  pose proof (zlen_nonneg (h_Token h)). destruct (h_Type h) eqn:Et; unfold numbered in Hn; rewrite Et in Hn; cbn [PacketType_IsLong negb bool_decide] in *;
    unfold PacketType_IsLong; rewrite ?bool_decide_eq_false_2, ?bool_decide_eq_true_2 by done; cbn [negb].
  1-3: replace ((zlen (h_DestConnID h) >? 20) || (zlen (h_SrcConnID h) >? 20)) with false by lia;
    replace ((h_PacketNumberLen h <? 1) || (h_PacketNumberLen h >? 4)) with false by lia; destruct Hf as [_ Hf];
    match goal with |- context [typeBits _ ?t] => destruct (type_first (h_Version h) t (h_PacketNumberLen h - 1)) as (_ & _ & _ & _ & _ & _ & Eb & Ef & _); [done|lia|] end;
    rewrite Eb; cbn [res_bind]; rewrite (u8_small (h_PacketNumberLen h - 1)), Ef, cids_append by (try done; unfold is_byte; lia);
    assert (En : numbered h = true) by (unfold numbered; by rewrite Et); rewrite En.
  - rewrite wire_append_enc by (unfold vi_ok; lia). cbn [res_bind]. rewrite wire_append_enc by done. cbn [res_bind]. append_done.
  - destruct Hf as [Hf _]. rewrite wire_append_enc by done. cbn [res_bind]. append_done.
  - destruct Hf as [Hf _]. rewrite wire_append_enc by done. cbn [res_bind]. append_done.
  - replace ((zlen (h_DestConnID h) >? 20) || (zlen (h_SrcConnID h) >? 20)) with false by lia.
    destruct (type_first (h_Version h) PacketTypeRetry 0) as (_ & _ & _ & _ & _ & _ & Eb & _ & Ef); [done|lia|]. rewrite !Z.add_0_r in Ef.
    rewrite Eb. cbn [res_bind]. rewrite cids_append by done. unfold number_image, numbered. rewrite Et, Ef, app_nil_r. by rewrite <- ?app_assoc.
  - replace ((zlen (h_DestConnID h) >? 20) || (zlen (h_SrcConnID h) >? 20)) with false by lia. rewrite cids_append by done.
    unfold number_image, numbered. rewrite Et, app_nil_r. by rewrite <- ?app_assoc.
  - replace (zlen (h_DestConnID h) >? 20) with false by lia. replace ((h_PacketNumberLen h <? 1) || (h_PacketNumberLen h >? 4)) with false by lia.
    destruct (short_first (h_SpinBit h) (h_KeyPhase h) (h_PacketNumberLen h)) as (_ & _ & _ & _ & _ & _ & _ & Ef); [lia|]. rewrite Ef.
    assert (En : numbered h = true) by (unfold numbered; by rewrite Et). rewrite En. append_done.
Qed.

(** ** Reading back *)
Lemma header_image_ok h : header_wf h -> bytes_ok (header_image h).
Proof.
  intros Hw. pose proof Hw as [[Hd Hdb] [Hs Hsb] [Htb Ht] Hl Hn Hf _]. unfold header_image, first_byte, header_body, number_image.
  assert (Hc : bytes_ok (cids_image h)).
  { unfold cids_image. pose proof (zlen_nonneg (h_DestConnID h)). pose proof (zlen_nonneg (h_SrcConnID h)).
    repeat (apply bytes_ok_app; split); try done; (apply bytes_ok_cons; split; [unfold is_byte; lia|apply Forall_nil]). }
  apply bytes_ok_cons. unfold numbered in *. split.
  - destruct (h_Type h) eqn:Et.
    1-3: match goal with |- context [type_code _ ?t] => by apply (type_first (h_Version h) t (h_PacketNumberLen h - 1)); [|lia] end.
    + rewrite <- (Z.add_0_r (_ + _)). by apply (type_first (h_Version h) PacketTypeRetry 0).
    + unfold is_byte; lia.
    + apply (short_first (h_SpinBit h) (h_KeyPhase h) (h_PacketNumberLen h)). lia.
  - apply bytes_ok_app. split; [|destruct (h_Type h); auto using be_put_ok; apply Forall_nil].
    destruct (h_Type h); rewrite ?bytes_ok_app; auto using be_put_ok, vi_enc_ok, Forall_nil with mach.
Qed.

(** A long header up to its connection identifiers. *)
Lemma long_fields f v dcid scid tail max e1 e2 :
  0 <= v < 2 ^ 32 -> zlen dcid <= max -> zlen scid <= max ->
  let b := f :: be_put 4 v ++ ([zlen dcid] ++ dcid ++ [zlen scid] ++ scid) ++ tail in
  7 <= zlen b /\ slice b 1 5 = Ok (be_put 4 v) (E := wire_error) /\ be_get (be_put 4 v) = v
  /\ header_cid b 5 max 1 e1 = Ok (dcid, 6 + zlen dcid) /\ header_cid b (6 + zlen dcid) max 0 e2 = Ok (scid, 7 + zlen dcid + zlen scid).
Proof.
  intros Hv Hd Hs b. pose proof (zlen_nonneg dcid). pose proof (zlen_nonneg scid). pose proof (zlen_nonneg tail).
  assert (E : b = (f :: be_put 4 v) ++ zlen dcid :: dcid ++ zlen scid :: scid ++ tail) by (unfold b; rewrite <- ?app_assoc; done).
  assert (L : zlen (f :: be_put 4 v) = 5) by done.
  split; [rewrite E, !zlen_app, L, zlen_cons, zlen_app, zlen_cons, zlen_app; lia|].
  split; [exact (slice_mid [f] (be_put 4 v) _ 1 5 eq_refl eq_refl)|]. split; [rewrite be_get_put; apply Z.mod_small; lia|].
  rewrite E. split; [rewrite cid_mid; [done|done|done|rewrite zlen_cons, zlen_app; lia]|].
  replace ((f :: be_put 4 v) ++ zlen dcid :: dcid ++ zlen scid :: scid ++ tail) with (((f :: be_put 4 v) ++ zlen dcid :: dcid) ++ zlen scid :: scid ++ tail)
    by by rewrite <- app_assoc.
  rewrite cid_mid; [do 2 f_equal; lia|rewrite zlen_app, L, zlen_cons; lia|done|lia].
Qed.

(** Behind them: token, length and packet number. *)
Lemma long_rest_numbered pre f h tok len n pn payload rest la :
  zlen (pre ++ tok ++ vi_enc len ++ payload ++ rest) < 2 ^ 61 -> 1 <= n <= 4 -> len = n + zlen payload -> pn_valid pn -> pn_or_invalid la -> in_window la pn n ->
  bytes_ok payload -> bytes_ok rest -> (Z.land f 0x0c =? 0) = true -> Z.land f 0x03 + 1 = n ->
  h_Type h <> PacketTypeRetry ->
  (if bool_decide (h_Type h = PacketTypeInitial) then exists t, tok = vi_enc (zlen t) ++ t /\ bytes_ok t /\ h_Token h = t else tok = [] /\ h_Token h = []) ->
  let b := pre ++ tok ++ vi_enc len ++ be_put (Z.to_nat n) pn ++ payload ++ rest in
  let off := zlen (pre ++ tok ++ vi_enc len) in
  parse_long_rest b la f (zlen pre) { h with h_Token := [] } =
  Ok { h with h_Length := len; h_PacketNumber := pn; h_PacketNumberLen := n; h_PacketNumberOffset := off; h_HeaderLen := off + n; h_PayloadLen := zlen payload }.
Proof.
  intros Hlen Hn -> Hpn Hla Hwin Hpb Hrb Hf0 Hf3 Hr Htok b off. unfold parse_long_rest. change (h_Type { h with h_Token := [] }) with (h_Type h).
  pose proof (zlen_nonneg pre). pose proof (zlen_nonneg payload). pose proof (zlen_nonneg rest). pose proof (zlen_nonneg tok). rewrite !zlen_app in Hlen.
  pose proof (zlen_nonneg (vi_enc (n + zlen payload))). assert (Hvl : vi_ok (n + zlen payload)) by (unfold vi_ok; lia).
  rewrite bool_decide_eq_false_2 by done. rewrite Hf0. cbn [negb]. cbv zeta. rewrite Hf3.
  assert (Hb1 : bytes_ok (vi_enc (n + zlen payload) ++ be_put (Z.to_nat n) pn ++ payload ++ rest))
    by (rewrite !bytes_ok_app; auto using vi_enc_ok, be_put_ok).
  set (tl := vi_enc (n + zlen payload) ++ be_put (Z.to_nat n) pn ++ payload ++ rest) in *.
  assert (Htl : zlen tl = zlen (vi_enc (n + zlen payload)) + n + zlen payload + zlen rest) by (unfold tl; rewrite !zlen_app, be_put_zlen; lia).
  match goal with |- res_bind ?t _ = _ => assert (Et : t = Ok (h_Token h, zlen (pre ++ tok))) end.
  { destruct (bool_decide (h_Type h = PacketTypeInitial)).
    - destruct Htok as (t & -> & Ht & ->). rewrite zlen_app in Hlen. pose proof (zlen_nonneg t). pose proof (zlen_nonneg (vi_enc (zlen t))).
      unfold b. rewrite <- !app_assoc. rewrite varint_mid; [|done|unfold vi_ok; lia|apply bytes_ok_app; split; [done|exact Hb1]]. cbn [res_bind fst snd].
      rewrite !zlen_app, u64_small by (unfold is_u64; lia). replace (_ <? zlen t) with false by lia.
      rewrite i64_small by lia. rewrite (app_assoc pre). rewrite slice_mid by (rewrite ?zlen_app; lia). cbn [res_bind].
      do 2 f_equal. lia.
    - destruct Htok as [-> ->]. by rewrite app_nil_r. }
  rewrite Et. cbn [res_bind fst snd]. clear Et.
  assert (Eb : b = (pre ++ tok) ++ tl) by (unfold b, tl; by rewrite <- ?app_assoc).
  rewrite Eb. unfold tl. rewrite varint_mid by (try done; rewrite !bytes_ok_app; auto using be_put_ok). cbn [res_bind fst snd].
  set (pl := (pre ++ tok) ++ vi_enc (n + zlen payload)). assert (Hpl : zlen pl = off) by (unfold pl, off; by rewrite <- app_assoc).
  assert (Hoff : zlen (pre ++ tok) + zlen (vi_enc (n + zlen payload)) = off) by (unfold off; rewrite !zlen_app; lia).
  assert (Hoff2 : off = zlen pre + zlen tok + zlen (vi_enc (n + zlen payload))) by (rewrite <- Hoff, zlen_app; done).
  rewrite (app_assoc (pre ++ tok)). fold pl. rewrite Hoff. rewrite (zlen_app pl), Hpl, (zlen_app (be_put _ _)), be_put_zlen, (zlen_app payload).
  pose proof (zlen_nonneg pl). rewrite Z2Nat.id by lia. replace (_ <? off + n) with false by lia.
  rewrite number_mid by done. cbn [res_bind]. rewrite !u64_small by (unfold is_u64; lia).
  replace ((_ <? n) || _) with false by lia. rewrite i64_small by lia. cbn. do 2 f_equal. lia.
Qed.

Definition token_image (h : Header) : bytes :=
  if bool_decide (h_Type h = PacketTypeInitial) then vi_enc (zlen (h_Token h)) ++ h_Token h else [].
Definition numbered_long (h : Header) : bool := long_type (h_Type h) && numbered h.

Lemma body_long h : numbered_long h = true -> header_body h = be_put 4 (h_Version h) ++ cids_image h ++ token_image h ++ vi_enc (h_Length h).
Proof. unfold numbered_long, numbered, header_body, token_image. destruct (h_Type h); try done; intros _; rewrite ?bool_decide_eq_true_2, ?bool_decide_eq_false_2 by done; by rewrite <- ?app_assoc. Qed.
Lemma wf_long h : header_wf h -> numbered_long h = true ->
  h_IsLong h = true /\ 0 < h_Version h < 2 ^ 32 /\ vi_ok (h_Length h) /\ first_byte h = 0xc0 + type_code (h_Version h) (h_Type h) + (h_PacketNumberLen h - 1)
  /\ h_Type h <> PacketTypeRetry
  /\ (if bool_decide (h_Type h = PacketTypeInitial) then exists t, token_image h = vi_enc (zlen t) ++ t /\ bytes_ok t /\ h_Token h = t else token_image h = [] /\ h_Token h = []).
Proof.
  intros [_ _ [Htb _] Hl _ Hf _] Hn. unfold numbered_long, numbered, token_image, first_byte, PacketType_IsLong in *. destruct (h_Type h); try done;
    rewrite ?bool_decide_eq_true_2, ?bool_decide_eq_false_2 in * by done;
    (split; [done|]; split; [tauto|]; split; [tauto|]; split; [done|]; split; [done|]); [by exists (h_Token h)|tauto..].
Qed.

Lemma parse_long_numbered h payload rest la :
  header_wf h -> numbered_long h = true -> h_Length h = h_PacketNumberLen h + zlen payload -> bytes_ok payload -> bytes_ok rest ->
  zlen (header_image h ++ payload ++ rest) < 2 ^ 61 -> pn_or_invalid la -> in_window la (h_PacketNumber h) (h_PacketNumberLen h) ->
  parse_long (header_image h ++ payload ++ rest) la (first_byte h) = Ok (placed h (zlen payload)).
Proof.
  intros Hw Hn Hlen Hpb Hrb Hsz Hla Hwin. pose proof (wf_long h Hw Hn) as (HL & Hv & Hlv & Hf & Hr & Htok).
  assert (En : numbered h = true) by (unfold numbered_long in Hn; by bool_simpl).
  pose proof Hw as [[Hd _] [Hs _] _ _ Hnum _ Hbits]. rewrite En in Hnum. destruct (Hbits HL) as [Hk Hsp].
  unfold header_image, number_image in *. rewrite En, (body_long h Hn) in *.
  assert (Eb : forall x, (first_byte h :: (be_put 4 (h_Version h) ++ cids_image h ++ token_image h ++ vi_enc (h_Length h)) ++ x) ++ payload ++ rest
    = first_byte h :: be_put 4 (h_Version h) ++ cids_image h ++ (token_image h ++ vi_enc (h_Length h) ++ x ++ payload ++ rest)) by (intros x; cbn [app]; by rewrite <- ?app_assoc).
  rewrite Eb in *. unfold cids_image in *.
  destruct (long_fields (first_byte h) (h_Version h) (h_DestConnID h) (h_SrcConnID h)
    (token_image h ++ vi_enc (h_Length h) ++ be_put (Z.to_nat (h_PacketNumberLen h)) (h_PacketNumber h) ++ payload ++ rest) 20 ErrInvalidConnectionIDLen ErrInvalidConnectionIDLen)
    as (H7 & Ev & Eg & E1 & E2); [lia|done|done|].
  destruct (type_first (h_Version h) (h_Type h) (h_PacketNumberLen h - 1)) as (_ & _ & F40 & F0c & F3 & Fty & _); [unfold numbered_long in Hn; by bool_simpl|lia|]. rewrite <- Hf in F40, F0c, F3, Fty.
  unfold parse_long. set (b := first_byte h :: _) in *. test_false (zlen b <? 5). rewrite Ev. cbn [res_bind]. rewrite Eg.
  replace (h_Version h =? VersionNegotiation) with false by (unfold VersionNegotiation; lia). rewrite F40. test_false (zlen b <? 6).
  rewrite E1. cbn [res_bind fst snd]. rewrite E2. cbn [res_bind fst snd]. rewrite Fty.
  set (pre := first_byte h :: be_put 4 (h_Version h) ++ cids_image h).
  assert (Hpre : zlen pre = 7 + zlen (h_DestConnID h) + zlen (h_SrcConnID h)) by (unfold pre, cids_image; rewrite zlen_cons, !zlen_app, !zlen_cons, be_put_zlen, zlen_nil; lia).
  assert (Ebp : b = pre ++ token_image h ++ vi_enc (h_Length h) ++ be_put (Z.to_nat (h_PacketNumberLen h)) (h_PacketNumber h) ++ payload ++ rest) by (unfold b, pre, cids_image; list_eq).
  rewrite Ebp, <- Hpre.
  set (h0 := { zero_header with h_IsLong := true; h_Type := h_Type h; h_Version := h_Version h; h_DestConnID := h_DestConnID h; h_SrcConnID := h_SrcConnID h }).
  change h0 with { { h0 with h_Token := h_Token h } with h_Token := [] }.
  rewrite (long_rest_numbered pre (first_byte h) { h0 with h_Token := h_Token h } (token_image h) (h_Length h)).
  - f_equal. unfold placed. rewrite En.
    assert (Ho : zlen (pre ++ token_image h ++ vi_enc (h_Length h)) = 1 + zlen (header_body h))
      by (rewrite (body_long h Hn); unfold pre; etransitivity; [|apply zlen_cons]; f_equal; list_eq).
    assert (Hi : 1 + zlen (header_body h) + h_PacketNumberLen h = zlen (header_image h))
      by (unfold header_image, number_image; rewrite En, zlen_cons, zlen_app, be_put_zlen; lia).
    rewrite Ho, Hi. generalize (zlen (header_image h)), (1 + zlen (header_body h)), (zlen payload). intros x y z. clear - HL Hk Hsp.
    destruct h. cbn in *. by subst.
  - rewrite Ebp, !zlen_app, be_put_zlen in Hsz. rewrite !zlen_app. lia.
  - lia.
  - done.
  - apply Hnum.
  - done.
  - done.
  - done.
  - done.
  - done.
  - lia.
  - exact Hr.
  - exact Htok.
Qed.

Lemma parse_short_image h payload la :
  header_wf h -> h_Type h = PacketType1RTT -> bytes_ok payload -> pn_or_invalid la -> in_window la (h_PacketNumber h) (h_PacketNumberLen h) ->
  parse_short (header_image h ++ payload) (zlen (h_DestConnID h)) la (first_byte h) = Ok (placed h (zlen payload)).
Proof.
  intros Hw Et Hp Hla Hwin. pose proof Hw as [[Hd _] _ _ HL Hnum Hf _]. assert (En : numbered h = true) by (unfold numbered; by rewrite Et). rewrite En in Hnum. rewrite Et in HL, Hf.
  destruct Hf as (Hv & Hs & Ht & Hlen). pose proof (zlen_nonneg (h_DestConnID h)). pose proof (zlen_nonneg payload).
  destruct (short_first (h_SpinBit h) (h_KeyPhase h) (h_PacketNumberLen h)) as (_ & _ & F40 & F18 & F3 & Fk & Fs & _); [lia|].
  assert (Ef : first_byte h = 0x40 + (if h_SpinBit h then 0x20 else 0) + (if h_KeyPhase h then 0x04 else 0) + (h_PacketNumberLen h - 1)) by (unfold first_byte; by rewrite Et). rewrite <- Ef in F40, F18, F3, Fk, Fs.
  assert (Eb : header_body h = h_DestConnID h) by (unfold header_body; by rewrite Et).
  assert (Ei : header_image h ++ payload = [first_byte h] ++ h_DestConnID h ++ be_put (Z.to_nat (h_PacketNumberLen h)) (h_PacketNumber h) ++ payload)
    by (unfold header_image, number_image; rewrite En, Eb; list_eq).
  assert (El : zlen (header_image h) = 1 + zlen (h_DestConnID h) + h_PacketNumberLen h) by (unfold header_image, number_image; rewrite En, Eb, zlen_cons, zlen_app, be_put_zlen; lia).
  unfold parse_short. cbv zeta. rewrite F40, F18, F3, Fk, Fs. cbn [negb].
  replace ((zlen (h_DestConnID h) >? 20) || (zlen (h_DestConnID h) <? 0)) with false by lia. rewrite zlen_app, El. test_false (1 + zlen (h_DestConnID h) + h_PacketNumberLen h + zlen payload <? 1 + zlen (h_DestConnID h) + h_PacketNumberLen h).
  rewrite Ei. rewrite slice_mid by done. cbn [res_bind]. rewrite app_assoc, number_mid by (first [done|apply Hnum|rewrite zlen_app; done]). cbn [res_bind].
  f_equal. unfold placed. rewrite En, Eb, El. replace (1 + zlen (h_DestConnID h) + h_PacketNumberLen h + zlen payload - (1 + zlen (h_DestConnID h) + h_PacketNumberLen h)) with (zlen payload) by lia.
  clear - HL Hv Hs Ht Hlen Et. destruct h. cbn in *. by subst.
Qed.

Lemma parse_retry h payload la :
  header_wf h -> h_Type h = PacketTypeRetry -> zlen payload = 16 ->
  parse_long (header_image h ++ payload) la (first_byte h) = Ok (placed h (zlen payload)).
Proof.
  intros Hw Et Hp. pose proof Hw as [[Hd _] [Hs _] _ HL Hnum Hf Hbits]. assert (En : numbered h = false) by (unfold numbered; by rewrite Et). rewrite En in Hnum. rewrite Et in HL, Hf. destruct (Hbits HL) as [Hk Hsp].
  destruct Hf as (Hv & Hlen). destruct Hnum as [Hn Hpn]. pose proof (zlen_nonneg (h_Token h)).
  destruct (type_first (h_Version h) (h_Type h) 0) as (_ & _ & F40 & _ & _ & Fty & _); [by rewrite Et|lia|].
  assert (Ef : first_byte h = 0xc0 + type_code (h_Version h) (h_Type h) + 0) by (unfold first_byte; rewrite Et; lia). rewrite <- Ef in F40, Fty.
  assert (Eb : header_body h = be_put 4 (h_Version h) ++ cids_image h ++ h_Token h) by (unfold header_body; by rewrite Et).
  assert (Ei : header_image h ++ payload = first_byte h :: be_put 4 (h_Version h) ++ ([zlen (h_DestConnID h)] ++ h_DestConnID h ++ [zlen (h_SrcConnID h)] ++ h_SrcConnID h) ++ h_Token h ++ payload)
    by (unfold header_image, number_image; rewrite En, Eb, app_nil_r; unfold cids_image; list_eq).
  set (pre := first_byte h :: be_put 4 (h_Version h) ++ cids_image h). assert (Hpre : zlen pre = 7 + zlen (h_DestConnID h) + zlen (h_SrcConnID h)) by (unfold pre, cids_image; rewrite zlen_cons, !zlen_app, !zlen_cons, be_put_zlen, zlen_nil; lia).
  assert (Hi : header_image h = pre ++ h_Token h) by (unfold header_image, number_image, pre; rewrite En, Eb, app_nil_r; list_eq).
  destruct (long_fields (first_byte h) (h_Version h) (h_DestConnID h) (h_SrcConnID h) (h_Token h ++ payload) 20 ErrInvalidConnectionIDLen ErrInvalidConnectionIDLen) as (H7 & Ev & Eg & E1 & E2); [lia|done|done|].
  rewrite <- Ei in H7, Ev, E1, E2. unfold parse_long. test_false (zlen (header_image h ++ payload) <? 5). rewrite Ev. cbn [res_bind]. rewrite Eg.
  replace (h_Version h =? VersionNegotiation) with false by (unfold VersionNegotiation; lia). rewrite F40. test_false (zlen (header_image h ++ payload) <? 6).
  rewrite E1. cbn [res_bind fst snd]. rewrite E2. cbn [res_bind fst snd]. rewrite Fty. unfold parse_long_rest. cbn [h_Type]. rewrite bool_decide_eq_true_2 by exact Et.
  rewrite <- Hpre, Hi, <- app_assoc, !zlen_app. replace (_ <? _ + 16) with false by lia. rewrite slice_mid by lia. cbn [res_bind]. f_equal.
  unfold placed. rewrite En, Hi, zlen_app. replace (zlen pre + (zlen (h_Token h) + zlen payload) - 16) with (zlen pre + zlen (h_Token h)) by lia. rewrite Hp.
  clear - HL Hk Hsp Hlen Et Hn Hpn. destruct h. cbn in *. by subst.
Qed.

Lemma parse_vn h payload la :
  header_wf h -> h_Type h = PacketTypeVersionNegotiation ->
  parse_long (header_image h ++ payload) la (first_byte h) = Ok (placed h (zlen payload)).
Proof.
  intros Hw Et. pose proof Hw as [[Hd _] [Hs _] _ HL Hnum Hf Hbits]. assert (En : numbered h = false) by (unfold numbered; by rewrite Et). rewrite En in Hnum. rewrite Et in HL, Hf. destruct (Hbits HL) as [Hk Hsp].
  destruct Hf as (Hv & Ht & Hlen). destruct Hnum as [Hn Hpn]. pose proof (zlen_nonneg payload).
  assert (Eb : header_body h = be_put 4 0 ++ cids_image h) by (unfold header_body; by rewrite Et).
  assert (Ei : header_image h ++ payload = first_byte h :: be_put 4 0 ++ ([zlen (h_DestConnID h)] ++ h_DestConnID h ++ [zlen (h_SrcConnID h)] ++ h_SrcConnID h) ++ payload)
    by (unfold header_image, number_image; rewrite En, Eb, app_nil_r; unfold cids_image; list_eq).
  assert (El : zlen (header_image h) = 7 + zlen (h_DestConnID h) + zlen (h_SrcConnID h)) by (unfold header_image, number_image; rewrite En, Eb, app_nil_r; unfold cids_image; rewrite zlen_cons, !zlen_app, !zlen_cons, be_put_zlen, zlen_nil; lia).
  destruct (long_fields (first_byte h) 0 (h_DestConnID h) (h_SrcConnID h) payload 255 ErrTruncatedHeader ErrTruncatedHeader) as (H7 & Ev & Eg & E1 & E2); [lia|lia|lia|].
  rewrite <- Ei in H7, Ev, E1, E2. unfold parse_long. test_false (zlen (header_image h ++ payload) <? 5). rewrite Ev. cbn [res_bind]. rewrite Eg. change (0 =? VersionNegotiation) with true. cbn iota.
  unfold parse_negotiation. test_false (zlen (header_image h ++ payload) <? 7). rewrite E1. cbn [res_bind fst snd]. rewrite E2. cbn [res_bind fst snd]. f_equal.
  unfold placed. rewrite En, zlen_app, El. replace (7 + zlen (h_DestConnID h) + zlen (h_SrcConnID h) + zlen payload - (7 + zlen (h_DestConnID h) + zlen (h_SrcConnID h))) with (zlen payload) by lia.
  clear - HL Hk Hsp Hlen Et Hn Hpn Hv Ht. destruct h. cbn in *. by subst.
Qed.

Lemma first_long h : header_wf h -> (Z.land (first_byte h) 0x80 =? 0) = negb (h_IsLong h).
Proof.
  intros [_ _ _ HL Hnum _ _]. rewrite HL. unfold first_byte, PacketType_IsLong, numbered in *. destruct (h_Type h); rewrite ?bool_decide_eq_true_2, ?bool_decide_eq_false_2 by done; cbn [negb].
  1-3: match goal with |- context [type_code _ ?t] => by apply (type_first (h_Version h) t (h_PacketNumberLen h - 1)); [|lia] end.
  - rewrite <- (Z.add_0_r (_ + _)). by apply (type_first (h_Version h) PacketTypeRetry 0).
  - done.
  - apply (short_first (h_SpinBit h) (h_KeyPhase h) (h_PacketNumberLen h)). lia.
Qed.

Lemma parse_image h payload rest la :
  header_wf h -> fits h payload rest -> bytes_ok payload -> bytes_ok rest -> zlen (header_image h ++ payload ++ rest) < 2 ^ 61 ->
  pn_or_invalid la -> (numbered h = true -> in_window la (h_PacketNumber h) (h_PacketNumberLen h)) ->
  ParseHeader (header_image h ++ payload ++ rest) (zlen (h_DestConnID h)) la = Ok (placed h (zlen payload)).
Proof.
  intros Hw Hfit Hp Hr Hsz Hla Hwin. assert (E : ParseHeader (header_image h ++ payload ++ rest) (zlen (h_DestConnID h)) la =
    if Z.land (first_byte h) 0x80 =? 0 then parse_short (header_image h ++ payload ++ rest) (zlen (h_DestConnID h)) la (first_byte h)
    else parse_long (header_image h ++ payload ++ rest) la (first_byte h)) by done.
  rewrite E, (first_long h Hw). clear E. pose proof (hw_long h Hw) as HL. rewrite HL. unfold PacketType_IsLong, fits in *. destruct (h_Type h) eqn:Et;
    rewrite ?bool_decide_eq_true_2, ?bool_decide_eq_false_2 by done; cbn [negb].
  1-3: assert (Hn : numbered_long h = true) by (unfold numbered_long, numbered; by rewrite Et); apply parse_long_numbered; try done; apply Hwin; unfold numbered; by rewrite Et.
  - destruct Hfit as [-> Hl]. rewrite app_nil_r. by apply parse_retry.
  - subst rest. rewrite app_nil_r. by apply parse_vn.
  - subst rest. rewrite app_nil_r. apply parse_short_image; try done. apply Hwin. unfold numbered. by rewrite Et.
Qed.

(** ** Header protection is undone *)
Definition mask_ok (hp : HeaderProtector) : Prop := forall s, zlen s = HeaderProtectionSampleLen -> zlen (hp s) = HeaderProtectionMaskLen /\ bytes_ok (hp s).

Lemma xor_at_mid a x b i m : i = zlen a -> xor_at (a ++ x :: b) i m = Ok (a ++ Z.lxor x m :: b).
Proof.
  intros ->. unfold xor_at. rewrite index_mid by done. cbn [res_bind]. f_equal. unfold zlen. rewrite Nat2Z.id.
  rewrite <- (Nat.add_0_r (length a)). by rewrite insert_app_r.
Qed.
Lemma index_drop {E} (l : bytes) i x l' : 0 <= i -> zdrop i l = x :: l' -> @index E l i = Ok x /\ zdrop (i + 1) l = l'.
Proof.
  intros Hi E0. assert (El : l = ztake i l ++ x :: l') by (rewrite <- E0; symmetry; apply ztake_zdrop). assert (Hl : zlen (ztake i l) = i).
  { apply zlen_ztake. split; [done|]. destruct (Z.le_gt_cases i (zlen l)); [done|]. by rewrite zdrop_all in E0 by lia. }
  split; [rewrite El at 1; apply index_mid; by rewrite Hl|]. rewrite El. replace (ztake i l ++ x :: l') with ((ztake i l ++ [x]) ++ l') by by rewrite <- app_assoc.
  apply zdrop_app_eq. rewrite zlen_app, Hl. done.
Qed.
Lemma xor_number_mid mask : forall pn a b i ms, zdrop (1 + i) mask = ms -> 0 <= i -> (List.length pn <= List.length ms)%nat ->
  xor_number (List.length pn) (a ++ pn ++ b) mask (zlen a - i) i = Ok (a ++ zip_with Z.lxor pn ms ++ b).
Proof.
  induction pn as [|x pn IH]; intros a b i ms Hms Hi Hl; [done|]. destruct ms as [|m ms]; [cbn in Hl; lia|]. cbn [List.length xor_number].
  destruct (index_drop (E := wire_error) mask (1 + i) m ms ltac:(lia) Hms) as [-> Hms']. cbn [res_bind app]. rewrite xor_at_mid by lia. cbn [res_bind].
  replace (a ++ Z.lxor x m :: pn ++ b) with ((a ++ [Z.lxor x m]) ++ pn ++ b) by by rewrite <- app_assoc.
  replace (zlen a - i) with (zlen (a ++ [Z.lxor x m]) - (i + 1)) by (rewrite zlen_app; change (zlen [_]) with 1; lia).
  rewrite (IH _ _ _ ms); [cbn [zip_with]; by rewrite <- app_assoc| |lia|cbn in Hl; lia]. by replace (1 + (i + 1)) with (1 + i + 1) by lia.
Qed.
Lemma lxor_twice pn ms : (List.length pn <= List.length ms)%nat -> zip_with Z.lxor (zip_with Z.lxor pn ms) ms = pn.
Proof.
  revert ms. induction pn as [|x pn IH]; intros [|m ms]; cbn; try done; try lia. intros H. rewrite IH by lia. by rewrite Z.lxor_assoc, Z.lxor_nilpotent, Z.lxor_0_r.
Qed.
Lemma zip_lxor_ok pn ms : bytes_ok pn -> bytes_ok ms -> bytes_ok (zip_with Z.lxor pn ms).
Proof. revert ms. induction pn as [|x pn IH]; intros [|m ms] Hp Hm; cbn; try apply Forall_nil. apply bytes_ok_cons in Hp as [? ?], Hm as [? ?]. apply bytes_ok_cons. split; [by apply lxor_byte|by apply IH]. Qed.

(** The protected first byte keeps the bits that say how to read the header. *)
Definition hidden (f : Z) : Z := if negb (Z.land f 0x80 =? 0) then 0x0f else 0x1f.
Lemma first_kept f m c : Z.land (hidden f) c = 0 -> Z.land (Z.lxor f (Z.land m (hidden f))) c = Z.land f c.
Proof.
  intros H. apply Z.bits_inj'. intros n Hn. rewrite !Z.land_spec, Z.lxor_spec, Z.land_spec. assert (E : Z.testbit (hidden f) n && Z.testbit c n = false) by (rewrite <- Z.land_spec, H; apply Z.bits_0).
  destruct (Z.testbit c n), (Z.testbit (hidden f) n), (Z.testbit f n), (Z.testbit m n); done.
Qed.
Lemma hidden_kept f m : hidden (Z.lxor f (Z.land m (hidden f))) = hidden f.
Proof. unfold hidden at 1. rewrite first_kept; [done|]. unfold hidden. by destruct (negb _). Qed.
Lemma first_twice f m : Z.lxor (Z.lxor f (Z.land m (hidden f))) (Z.land m (hidden (Z.lxor f (Z.land m (hidden f))))) = f.
Proof. by rewrite hidden_kept, Z.lxor_assoc, Z.lxor_nilpotent, Z.lxor_0_r. Qed.

(** The sample lies behind the packet number, whatever its length. *)
Lemma sample_tail (pre pn tail : bytes) :
  zlen pn <= 4 -> 20 <= zlen pn + zlen tail ->
  slice (E := wire_error) (pre ++ pn ++ tail) (zlen pre + 4) (zlen pre + 4 + 16) = Ok (ztake 16 (zdrop (4 - zlen pn) tail)).
Proof.
  intros Hp Ht. pose proof (zlen_nonneg pn). pose proof (zlen_nonneg pre). unfold slice. rewrite !zlen_app.
  test_true ((0 <=? zlen pre + 4) && (zlen pre + 4 <=? zlen pre + 4 + 16) && (zlen pre + 4 + 16 <=? zlen pre + (zlen pn + zlen tail))).
  replace (zlen pre + 4 + 16 - (zlen pre + 4)) with 16 by lia. do 2 f_equal. rewrite <- zdrop_zdrop by lia. rewrite zdrop_app.
  replace 4 with (zlen pn + (4 - zlen pn)) at 1 by lia. rewrite <- zdrop_zdrop by lia. by rewrite zdrop_app.
Qed.

Definition protected (hp : HeaderProtector) (f : Z) (body pn tail : bytes) : bytes :=
  let m := hp (ztake 16 (zdrop (4 - zlen pn) tail)) in
  Z.lxor f (Z.land (nth 0 m 0) (hidden f)) :: body ++ zip_with Z.lxor pn (zdrop 1 m) ++ tail.

Lemma mask_split hp (pn tail : bytes) :
  mask_ok hp -> zlen pn <= 4 -> 20 <= zlen pn + zlen tail ->
  exists m0 ms, hp (ztake 16 (zdrop (4 - zlen pn) tail)) = m0 :: ms /\ (List.length pn <= List.length ms)%nat /\ is_byte m0 /\ bytes_ok ms.
Proof.
  intros Hm Hp Ht. pose proof (zlen_nonneg pn). destruct (Hm (ztake 16 (zdrop (4 - zlen pn) tail))) as [Hl Hb].
  { rewrite zlen_ztake; [done|]. rewrite zlen_zdrop by lia. lia. }
  destruct (hp _) as [|m0 ms]; [done|]. exists m0, ms. split; [done|]. apply bytes_ok_cons in Hb as [H0 Hms]. split; [|done]. unfold zlen, HeaderProtectionMaskLen in *. cbn [List.length] in Hl. lia.
Qed.
Lemma xor_first_cons f l m0 ms : xor_first (f :: l) (m0 :: ms) = Ok (Z.lxor f (Z.land m0 (hidden f)) :: l).
Proof. unfold xor_first. rewrite !index_head. cbn [res_bind]. exact (xor_at_mid [] f l 0 _ eq_refl). Qed.

Lemma apply_protection hp f body pn tail :
  mask_ok hp -> 1 <= zlen pn <= 4 -> 20 <= zlen pn + zlen tail ->
  ApplyHeaderProtection (f :: body ++ pn ++ tail) (1 + zlen body) (zlen pn) hp = Ok (protected hp f body pn tail).
Proof.
  intros Hm Hp Ht. unfold ApplyHeaderProtection, HeaderProtectionSampleLen, protected. pose proof (zlen_nonneg body).
  destruct (mask_split hp pn tail Hm ltac:(lia) Ht) as (m0 & ms & Em & Hl & _). rewrite Em.
  assert (Hlen : zlen (f :: body ++ pn ++ tail) = 1 + zlen body + (zlen pn + zlen tail)) by (rewrite zlen_cons, !zlen_app; lia). rewrite Hlen.
  test_false (1 + zlen body + (zlen pn + zlen tail) <? 1 + zlen body + 4 + 16). replace ((zlen pn <? 1) || (zlen pn >? 4)) with false by lia.
  assert (Es := sample_tail (f :: body) pn tail ltac:(lia) Ht). rewrite zlen_cons in Es. cbn [app] in Es. rewrite Es. cbn [res_bind]. rewrite Em, xor_first_cons. cbn [res_bind].
  replace (Z.to_nat (Z.min (zlen pn) 4)) with (List.length pn) by (unfold zlen in *; lia).
  assert (Hx := xor_number_mid (m0 :: ms) pn (Z.lxor f (Z.land m0 (hidden f)) :: body) tail 0 ms eq_refl ltac:(lia) Hl). rewrite zlen_cons, Z.sub_0_r in Hx. exact Hx.
Qed.

Lemma remove_protection hp f body pn tail rest :
  mask_ok hp -> 1 <= zlen pn <= 4 -> 20 <= zlen pn + zlen tail -> Z.land f 0x03 + 1 = zlen pn ->
  RemoveHeaderProtection (protected hp f body pn tail ++ rest) (1 + zlen body) hp = Ok ((f :: body ++ pn ++ tail) ++ rest, zlen pn).
Proof.
  intros Hm Hp Ht Hf. unfold RemoveHeaderProtection, HeaderProtectionSampleLen, protected. pose proof (zlen_nonneg body). pose proof (zlen_nonneg rest).
  destruct (mask_split hp pn tail Hm ltac:(lia) Ht) as (m0 & ms & Em & Hl & _). rewrite Em. cbn [nth]. change (zdrop 1 (m0 :: ms)) with ms. set (f' := Z.lxor f (Z.land m0 (hidden f))). set (pn' := zip_with Z.lxor pn ms).
  assert (Hpn' : zlen pn' = zlen pn) by (unfold pn', zlen; rewrite length_zip_with; lia).
  assert (Eq : (f' :: body ++ pn' ++ tail) ++ rest = f' :: body ++ pn' ++ (tail ++ rest)) by list_eq. rewrite Eq.
  assert (Hlen : zlen (f' :: body ++ pn' ++ tail ++ rest) = 1 + zlen body + (zlen pn + zlen tail + zlen rest)) by (rewrite zlen_cons, !zlen_app; lia). rewrite Hlen.
  test_false (1 + zlen body + (zlen pn + zlen tail + zlen rest) <? 1 + zlen body + 4 + 16).
  assert (Es := sample_tail (f' :: body) pn' (tail ++ rest) ltac:(lia) ltac:(rewrite zlen_app; lia)). rewrite zlen_cons, Hpn' in Es. cbn [app] in Es. rewrite Es. cbn [res_bind].
  assert (Et : ztake 16 (zdrop (4 - zlen pn) (tail ++ rest)) = ztake 16 (zdrop (4 - zlen pn) tail)).
  { unfold ztake, zdrop. rewrite drop_app_le by (unfold zlen in *; lia). apply take_app_le. rewrite length_drop. unfold zlen in *. lia. }
  rewrite Et, Em, xor_first_cons. cbn [res_bind]. unfold f'. rewrite first_twice, index_head. cbn [res_bind]. rewrite Hf.
  assert (Hlen2 : zlen (f :: body ++ pn' ++ tail ++ rest) = 1 + zlen body + (zlen pn + zlen tail + zlen rest)) by (rewrite zlen_cons, !zlen_app; lia). rewrite Hlen2.
  replace (_ <? 1 + zlen body + zlen pn) with false by (pose proof (zlen_nonneg tail); lia).
  replace (Z.to_nat (Z.min (zlen pn) 4)) with (List.length pn') by (unfold zlen in *; lia).
  assert (Hx := xor_number_mid (m0 :: ms) pn' (f :: body) (tail ++ rest) 0 ms eq_refl ltac:(lia) ltac:(unfold zlen in *; lia)). rewrite zlen_cons, Z.sub_0_r in Hx. cbn [app] in Hx. rewrite Hx. cbn [res_bind].
  unfold pn'. rewrite lxor_twice by done. do 2 f_equal. list_eq.
Qed.

(** The offsets are found in the protected packet. *)
Lemma offsets_protected h f tail :
  header_wf h -> numbered h = true -> bytes_ok tail -> zlen tail < 2 ^ 61 - 200 - zlen (h_Token h) -> (h_IsLong h = false -> 4 <= zlen tail) ->
  Z.land f 0x80 = Z.land (first_byte h) 0x80 -> (h_IsLong h = true -> Z.land f 0x30 = Z.land (first_byte h) 0x30) ->
  ParseHeaderOffsets (f :: header_body h ++ tail) (zlen (h_DestConnID h)) = Ok (1 + zlen (header_body h), h_IsLong h, h_Type h, h_Version h, h_DestConnID h, h_SrcConnID h).
Proof.
  intros Hw En Hb Hsz H4 H80 H30. pose proof Hw as [[Hd _] [Hs _] [Htb _] HL Hnum Hf _]. rewrite En in Hnum. unfold ParseHeaderOffsets. rewrite H80, (first_long h Hw). pose proof (zlen_nonneg (h_DestConnID h)). pose proof (zlen_nonneg tail).
  destruct (h_IsLong h) eqn:EL; cbn [negb].
  - assert (Hn : numbered_long h = true).
    { unfold numbered_long. rewrite En, andb_true_r. unfold PacketType_IsLong in HL. unfold numbered in En. by destruct (h_Type h). }
    destruct (wf_long h Hw Hn) as (_ & Hv & Hlv & Hfb & Hr & Htok). rewrite (body_long h Hn).
    replace (f :: (be_put 4 (h_Version h) ++ cids_image h ++ token_image h ++ vi_enc (h_Length h)) ++ tail)
      with (f :: be_put 4 (h_Version h) ++ cids_image h ++ (token_image h ++ vi_enc (h_Length h) ++ tail)) by list_eq.
    destruct (type_first (h_Version h) (h_Type h) (h_PacketNumberLen h - 1)) as (_ & _ & _ & _ & _ & Fty & _); [unfold numbered_long in Hn; by bool_simpl|lia|]. rewrite <- Hfb in Fty.
    assert (Fty' : typeOf (h_Version h) f = h_Type h) by (rewrite <- Fty; unfold typeOf; by rewrite H30).
    unfold cids_image in *. destruct (long_fields f (h_Version h) (h_DestConnID h) (h_SrcConnID h) (token_image h ++ vi_enc (h_Length h) ++ tail) 20 ErrTruncatedHeader ErrTruncatedHeader) as (H7 & Ev & Eg & E1 & E2); [lia|done|done|].
    set (pre := f :: be_put 4 (h_Version h) ++ cids_image h). assert (Hpre : zlen pre = 7 + zlen (h_DestConnID h) + zlen (h_SrcConnID h)) by (unfold pre, cids_image; rewrite zlen_cons, !zlen_app, !zlen_cons, be_put_zlen, zlen_nil; lia).
    set (b := f :: _) in *. assert (Eb : b = pre ++ token_image h ++ vi_enc (h_Length h) ++ tail) by (unfold b, pre, cids_image; list_eq).
    unfold long_offsets. test_false (zlen b <? 5). rewrite Ev. cbn [res_bind]. rewrite Eg. replace (h_Version h =? VersionNegotiation) with false by (unfold VersionNegotiation; lia). test_false (zlen b <? 6).
    rewrite E1. cbn [res_bind fst snd]. rewrite E2. cbn [res_bind fst snd]. rewrite Fty', bool_decide_eq_false_2 by done. rewrite <- Hpre.
    assert (Hlv1 : 1 <= zlen (vi_enc (h_Length h)) <= 8) by (rewrite vi_enc_zlen; apply vi_size_pos).
    match goal with |- res_bind ?t _ = _ => assert (Et : t = Ok (zlen (pre ++ token_image h))) end.
    { rewrite zlen_app. destruct (bool_decide (h_Type h = PacketTypeInitial)).
      - destruct Htok as (t & Etok & Ht & Eh). rewrite Eh in Hsz. pose proof (zlen_nonneg t). assert (1 <= zlen (vi_enc (zlen t)) <= 8) by (rewrite vi_enc_zlen; apply vi_size_pos).
        rewrite Eb, Etok, <- !app_assoc, varint_mid; [|done|unfold vi_ok; lia|rewrite !bytes_ok_app; auto using vi_enc_ok]. cbn [res_bind fst snd]. rewrite !zlen_app.
        rewrite u64_small by (unfold is_u64; lia). replace (_ <? zlen t) with false by lia. rewrite i64_small by lia. f_equal. lia.
      - destruct Htok as [-> _]. by rewrite Z.add_0_r. }
    rewrite Et. cbn [res_bind]. rewrite Eb, app_assoc, varint_mid by done. cbn [res_bind fst snd].
    replace (zlen (pre ++ token_image h) + zlen (vi_enc (h_Length h))) with (1 + zlen (be_put 4 (h_Version h) ++ cids_image h ++ token_image h ++ vi_enc (h_Length h))); [done|].
    unfold pre. rewrite <- zlen_app. symmetry. etransitivity; [|apply zlen_cons]. f_equal. list_eq.
  - assert (Et : h_Type h = PacketType1RTT) by (unfold PacketType_IsLong in HL; by destruct (h_Type h)). rewrite Et in Hf. destruct Hf as (Hv & Hsrc & _).
    assert (Ebody : header_body h = h_DestConnID h) by (unfold header_body; by rewrite Et). rewrite Ebody. replace ((zlen (h_DestConnID h) <? 0) || (zlen (h_DestConnID h) >? 20)) with false by lia.
    specialize (H4 eq_refl). rewrite zlen_cons, zlen_app. replace (_ <? _) with false by lia. change (f :: h_DestConnID h ++ tail) with ([f] ++ h_DestConnID h ++ tail). rewrite slice_mid by done. cbn [res_bind]. by rewrite Et, Hv, Hsrc.
Qed.

(** ** Sealing and opening *)
Definition sealed (p : protector) (h : Header) (payload : bytes) : Header :=
  if h_IsLong h then { h with h_Length := h_PacketNumberLen h + zlen payload + aead_Overhead (pp_aead p) } else h.
Record protector_ok (p : protector) : Prop := {
  po_aead : aead_law (pp_aead p);
  po_mask : mask_ok (pp_hp p);
  po_iv : zlen (pp_iv p) = 12
}.

Lemma nonce_ok iv pn : zlen iv = 12 -> exists nonce, ComputeNonce iv pn = Ok nonce.
Proof. intros H. unfold ComputeNonce. rewrite H. by eexists. Qed.

Lemma le_put_ok v : bytes_ok (le_put32 v).
Proof. unfold le_put32. repeat (apply bytes_ok_cons; split; [apply u8_range|]). apply Forall_nil. Qed.
Lemma chacha_mask key : mask_ok (ChaCha_Mask key).
Proof. intros s _. split; [done|]. unfold ChaCha_Mask. apply bytes_ok_app. split; [apply le_put_ok|]. apply bytes_ok_cons. split; [apply u8_range|apply Forall_nil]. Qed.

Lemma new_protector_ok `{CryptoLaws} suite key iv hpKey p : NewPacketProtector suite key iv hpKey = Ok p -> protector_ok p.
Proof.
  unfold NewPacketProtector, NewAESHeaderProtector, NewChaChaHeaderProtector. destruct (zlen iv <? 12) eqn:Ei; [done|]. bool_simpl. assert (Hi : zlen (ztake 12 iv) = 12) by (apply zlen_ztake; lia).
  destruct (_ || _).
  - destruct (aes_NewCipher key) as [c|]; [|done]. destruct (cipher_NewGCM c) as [a|] eqn:Ea; [|done]. destruct (aes_NewCipher hpKey) as [k|] eqn:Ek; [|done]. intros [= <-]. split; [by eapply law_gcm| |exact Hi].
    intros s Hs. cbn. unfold AES_Mask, HeaderProtectionMaskLen. destruct (law_block hpKey k (ztake 16 s) Ek) as [Hl Hb]. split; [apply zlen_ztake; lia|by apply bytes_ok_ztake].
  - destruct (_ =? _); [|done]. destruct (chacha20poly1305_New key) as [a|] eqn:Ea; [|done]. destruct (negb _); [done|]. intros [= <-]. split; [by eapply law_chacha|apply chacha_mask|exact Hi].
Qed.

Lemma sealed_fields p h payload : let hs := sealed p h payload in
  h_IsLong hs = h_IsLong h /\ h_Type hs = h_Type h /\ h_PacketNumber hs = h_PacketNumber h /\ h_PacketNumberLen hs = h_PacketNumberLen h /\ h_DestConnID hs = h_DestConnID h
  /\ numbered hs = numbered h /\ h_Token hs = h_Token h.
Proof. unfold sealed. destruct (h_IsLong h) eqn:E; cbv zeta; rewrite ?E; repeat split; done. Qed.

(** The protected packet: header, ciphertext, and the mask over both. *)
Definition sealed_packet (p : protector) (h : Header) (payload : bytes) : bytes :=
  let hs := sealed p h payload in
  match ComputeNonce (pp_iv p) (h_PacketNumber h) with
  | Ok nonce => protected (pp_hp p) (first_byte hs) (header_body hs) (number_image hs) (aead_Seal (pp_aead p) nonce payload (header_image hs))
  | _ => []
  end.

Record sealable (p : protector) (h : Header) (payload : bytes) : Prop := {
  sl_wf : header_wf (sealed p h payload);
  sl_numbered : numbered h = true;
  sl_sample : 20 <= h_PacketNumberLen h + zlen payload + aead_Overhead (pp_aead p);
  sl_bytes : bytes_ok payload;
  sl_size : zlen (h_Token h) + zlen payload < 2 ^ 60
}.

Lemma image_len h : header_wf h -> numbered h = true -> zlen (number_image h) = h_PacketNumberLen h /\ zlen (header_image h) < 100 + zlen (h_Token h) /\ bytes_ok (header_body h) /\ bytes_ok (number_image h) /\ Z.land (first_byte h) 0x03 + 1 = h_PacketNumberLen h.
Proof.
  intros Hw En. pose proof Hw as [[Hd _] [Hs _] [_ Ht] HL Hnum Hf _]. rewrite En in Hnum. pose proof (header_image_ok h Hw) as Hb. unfold header_image in *. apply bytes_ok_cons in Hb as [_ Hb]. apply bytes_ok_app in Hb as [Hb1 Hb2].
  assert (Hn : zlen (number_image h) = h_PacketNumberLen h) by (unfold number_image; rewrite En, be_put_zlen; lia). split; [done|]. rewrite zlen_cons, zlen_app, Hn.
  assert (Hv : forall v, zlen (vi_enc v) <= 8) by (intros v; rewrite vi_enc_zlen; apply vi_size_pos). pose proof (Hv (h_Length h)). pose proof (Hv (zlen (h_Token h))). pose proof (zlen_nonneg (h_Token h)).
  split; [|split; [done|split; [done|]]].
  - unfold header_body, cids_image, numbered in *. destruct (h_Type h); try done; rewrite ?zlen_app, ?zlen_cons, ?zlen_app, ?zlen_cons, ?zlen_app, ?be_put_zlen, ?zlen_nil; lia.
  - unfold first_byte, numbered in *. destruct (h_Type h); try done.
    1-3: match goal with |- context [type_code _ ?t] => destruct (type_first (h_Version h) t (h_PacketNumberLen h - 1)) as (_ & _ & _ & _ & -> & _); [done|lia|lia] end.
    destruct (short_first (h_SpinBit h) (h_KeyPhase h) (h_PacketNumberLen h)) as (_ & _ & _ & _ & H3 & _); [lia|exact H3].
Qed.

Lemma seal_packet p dst h payload : protector_ok p -> sealable p h payload -> SealPacket p dst h payload = Ok (dst ++ sealed_packet p h payload).
Proof.
  intros [[Ho Hal Hab _] Hm Hi] [Hw En Hs Hpb Hsz]. unfold SealPacket, sealed_packet. destruct (nonce_ok (pp_iv p) (h_PacketNumber h) Hi) as [nonce Eno].
  pose proof (sealed_fields p h payload) as (EL & ET & Epn & Eln & _ & Enum & _). pose proof (zlen_nonneg payload). pose proof (hw_number _ Hw) as Hnum. rewrite Enum, En, Eln, Epn in Hnum. pose proof (zlen_nonneg (h_Token h)).
  assert (Eh : (if h_IsLong h && negb (bool_decide (h_Type h = PacketTypeRetry)) then { h with h_Length := u64 (h_PacketNumberLen h + zlen payload + aead_Overhead (pp_aead p)) } else h) = sealed p h payload).
  { unfold sealed. destruct (h_IsLong h); [|done]. rewrite bool_decide_eq_false_2 by (unfold numbered in En; by destruct (h_Type h)). cbn [andb negb]. by rewrite u64_small by (unfold is_u64; lia). }
  cbv zeta. rewrite Eh. clear Eh. set (hs := sealed p h payload) in *. rewrite AppendHeader_image by done. cbn [res_bind fst snd]. rewrite Enum, En, Epn, Eno. cbn [res_bind].
  rewrite zdrop_app. set (ct := aead_Seal _ _ _ _). destruct (image_len hs Hw ltac:(by rewrite Enum)) as (Hn & _).
  rewrite <- app_assoc, zdrop_app. replace (zlen dst + 1 + zlen (header_body hs) - zlen dst) with (1 + zlen (header_body hs)) by lia.
  assert (Hct : zlen ct = zlen payload + aead_Overhead (pp_aead p)) by apply Hal. rewrite Eln, <- (eq_trans Hn Eln). unfold header_image. rewrite <- app_comm_cons, <- app_assoc.
  rewrite apply_protection by (try done; lia). done.
Qed.

Lemma open_packet p dst h payload la rest : protector_ok p -> sealable p h payload -> pn_or_invalid la -> in_window la (h_PacketNumber h) (h_PacketNumberLen h) ->
  bytes_ok rest -> zlen rest < 2 ^ 59 -> (h_IsLong h = false -> rest = []) ->
  OpenPacket p dst (sealed_packet p h payload ++ rest) (zlen (h_DestConnID h)) la = Ok (placed (sealed p h payload) (zlen payload + aead_Overhead (pp_aead p)), dst ++ payload).
Proof.
  intros [[Ho Hal Hab Hopen] Hm Hi] [Hw En Hs Hpb Hsz] Hla Hwin Hrb Hrl Hr. unfold OpenPacket, sealed_packet. destruct (nonce_ok (pp_iv p) (h_PacketNumber h) Hi) as [nonce Eno]. rewrite Eno. cbv zeta.
  pose proof (sealed_fields p h payload) as (EL & ET & Epn & Eln & Edc & Enum & Etok). pose proof (zlen_nonneg payload). pose proof (zlen_nonneg rest). pose proof (zlen_nonneg (h_Token h)).
  assert (Hfit : fits (sealed p h payload) (aead_Seal (pp_aead p) nonce payload (header_image (sealed p h payload))) rest).
  { unfold fits. rewrite ET, Hal. pose proof (hw_long _ Hw) as HL. rewrite ET, EL in HL. unfold numbered, PacketType_IsLong in *. unfold sealed.
    destruct (h_Type h); try done; rewrite ?bool_decide_eq_true_2, ?bool_decide_eq_false_2 in HL by done; rewrite ?HL; cbn [negb]; first [exact (eq_sym (Z.add_assoc _ _ _))|by apply Hr]. }
  set (hs := sealed p h payload) in *. set (ct := aead_Seal _ _ _ _) in *. assert (Hct : zlen ct = zlen payload + aead_Overhead (pp_aead p)) by apply Hal. assert (Hctb : bytes_ok ct) by by apply Hab.
  destruct (image_len hs Hw ltac:(by rewrite Enum)) as (Hn & Himg & Hb1 & Hb2 & Hf3). rewrite Etok in Himg. rewrite Eln in Hn, Hf3. pose proof (hw_number _ Hw) as Hnum. rewrite Enum, En, Eln, Epn in Hnum.
  set (f := first_byte hs) in *. destruct (mask_split (pp_hp p) (number_image hs) ct Hm ltac:(lia) ltac:(lia)) as (m0 & ms & Em & Hml & Hm0 & Hmb).
  assert (Hoff : ParseHeaderOffsets (protected (pp_hp p) f (header_body hs) (number_image hs) ct ++ rest) (zlen (h_DestConnID h)) = Ok (1 + zlen (header_body hs), h_IsLong hs, h_Type hs, h_Version hs, h_DestConnID hs, h_SrcConnID hs)).
  { unfold protected. rewrite Em. cbn [nth]. change (zdrop 1 (m0 :: ms)) with ms. rewrite <- app_comm_cons, <- !app_assoc, <- Edc.
    assert (Hz : zlen (zip_with Z.lxor (number_image hs) ms) = h_PacketNumberLen h) by (rewrite <- Hn; unfold zlen; rewrite length_zip_with; lia).
    apply offsets_protected; try done.
    - by rewrite Enum.
    - rewrite !bytes_ok_app. split; [by apply zip_lxor_ok|done].
    - rewrite !zlen_app, Hz, Etok. lia.
    - intros _. rewrite !zlen_app. lia.
    - apply first_kept. unfold hidden. by destruct (negb _).
    - intros HL. apply first_kept. unfold hidden. fold f. unfold f. rewrite (first_long hs Hw), HL. done. }
  rewrite Hoff. cbn [res_bind]. rewrite <- Hn in Hf3. rewrite remove_protection by (try done; lia). cbn [res_bind fst snd].
  assert (Ei : (f :: header_body hs ++ number_image hs ++ ct) ++ rest = header_image hs ++ ct ++ rest) by (unfold header_image; list_eq). rewrite Ei, <- Edc.
  rewrite parse_image; [|done|done|done|done|rewrite !zlen_app; lia|done|by rewrite Eln, Epn]. cbn [res_bind].
  set (h1 := { placed hs (zlen ct) with h_PacketNumberLen := zlen (number_image hs) }).
  assert (Eh1 : h1 = placed hs (zlen ct)) by (unfold h1; rewrite Hn, <- Eln; by destruct hs). rewrite Eh1.
  change (h_PacketNumber (placed hs (zlen ct))) with (h_PacketNumber hs). change (h_HeaderLen (placed hs (zlen ct))) with (zlen (header_image hs)). change (h_PayloadLen (placed hs (zlen ct))) with (zlen ct).
  rewrite Epn, Eno. cbn [res_bind]. rewrite (slice_mid [] (header_image hs) (ct ++ rest)) by done. cbn [res_bind]. rewrite slice_mid by done. cbn [res_bind].
  unfold ct at 1. rewrite Hopen by done. by rewrite Hct.
Qed.

(** ** Totality *)
Definition yields {A} (r : res wire_error A) (P : A -> Prop) : Prop := match r with Ok a => P a | Err _ => True | Panic => False end.
Lemma yields_bind {A B} (m : res wire_error A) (k : A -> res wire_error B) P Q :
  yields m P -> (forall a, P a -> yields (k a) Q) -> yields (res_bind m k) Q.
Proof. destruct m; cbn; auto. Qed.
Lemma yields_mono {A} (m : res wire_error A) (P Q : A -> Prop) : yields m P -> (forall a, P a -> Q a) -> yields m Q.
Proof. destruct m; cbn; auto. Qed.
Lemma slice_yields (b : bytes) lo hi : 0 <= lo -> lo <= hi -> hi <= zlen b -> bytes_ok b -> yields (slice b lo hi) (fun x => zlen x = hi - lo /\ bytes_ok x).
Proof.
  intros. unfold slice. test_true ((0 <=? lo) && (lo <=? hi) && (hi <=? zlen b)). cbn. split; [|by apply bytes_ok_ztake, bytes_ok_zdrop].
  rewrite zlen_ztake; [done|]. rewrite zlen_zdrop; lia.
Qed.
Lemma index_yields (b : bytes) i : 0 <= i < zlen b -> bytes_ok b -> yields (index b i) is_byte.
Proof. intros Hi Hb. unfold index. test_true ((0 <=? i) && (i <? zlen b)). by apply znth_byte. Qed.

Lemma cid_yields b off max more e : 0 <= off < zlen b -> 0 <= more -> bytes_ok b ->
  yields (header_cid b off max more e) (fun r => off < snd r /\ snd r + more <= zlen b /\ snd r = off + 1 + zlen (fst r) /\ zlen (fst r) <= max /\ bytes_ok (fst r)).
Proof.
  intros Ho Hm Hb. unfold header_cid. eapply yields_bind; [by apply index_yields|]. intros len Hl. unfold is_byte in Hl. cbv zeta. destruct (len >? max) eqn:E1; [done|]. destruct (_ <? _) eqn:E2; [done|]. bool_simpl.
  eapply yields_bind; [apply slice_yields; [lia..|done]|]. intros cid [Hc Hcb]. cbn. repeat split; try done; lia.
Qed.
Lemma varint_yields b off : 0 <= off <= zlen b -> bytes_ok b -> yields (header_varint b off) (fun r => vi_ok (fst r) /\ 1 <= snd r <= 8 /\ off + snd r <= zlen b).
Proof.
  intros Ho Hb. unfold header_varint. eapply yields_bind; [apply slice_yields; [lia..|done]|]. intros x [Hx Hxb]. destruct (Varint.Decode x) as [[v n]| |] eqn:E; cbn; [|done|by apply (Decode_no_panic x)].
  apply Decode_range in E as (? & ? & ?); [|done]. split; [done|]. lia.
Qed.
Lemma number_yields b off n la : 0 <= off -> 1 <= n <= 4 -> off + n <= zlen b -> bytes_ok b -> yields (header_number b off n la) (fun _ => True).
Proof.
  intros H0 Hn Hl Hb. unfold header_number. eapply yields_bind; [apply slice_yields; [lia..|done]|]. intros x [Hx Hxb]. eapply yields_bind; [|done].
  instantiate (1 := fun _ => True). unfold no_error, ReadPacketNumber. replace (zlen x <? n) with false by lia. assert (n = 1 \/ n = 2 \/ n = 3 \/ n = 4) as [->|[->|[->| ->]]] by lia; done.
Qed.
Lemma low_bits f : 1 <= Z.land f 0x03 + 1 <= 4.
Proof. change 0x03 with (2 ^ 2 - 1). rewrite land_mask by lia. lia. Qed.

(** What a header that was parsed says of its packet. *)
Definition layout_ok (b : bytes) (h : Header) : Prop :=
  0 < h_HeaderLen h /\ 0 <= h_PayloadLen h /\ h_HeaderLen h + h_PayloadLen h <= zlen b
  /\ (numbered h = true -> 1 <= h_PacketNumberLen h <= 4 /\ h_HeaderLen h = h_PacketNumberOffset h + h_PacketNumberLen h)
  /\ h_IsLong h = PacketType_IsLong (h_Type h).

Lemma long_rest_yields b la f off h : bytes_ok b -> zlen b < 2 ^ 61 -> 0 < off <= zlen b -> h_IsLong h = true -> h_Type h <> PacketType1RTT ->
  yields (parse_long_rest b la f off h) (layout_ok b).
Proof.
  intros Hb Hsz Ho HL HT. assert (HL2 : h_IsLong h = PacketType_IsLong (h_Type h)) by (unfold PacketType_IsLong; by rewrite bool_decide_eq_false_2 by done).
  unfold parse_long_rest. destruct (bool_decide_reflect (h_Type h = PacketTypeRetry)) as [Er|Er].
  { destruct (_ <? _) eqn:E; [done|]. bool_simpl. eapply yields_bind; [apply slice_yields; [lia..|done]|]. intros tok _. split; [cbn; lia|]. split; [cbn; lia|]. split; [cbn; lia|]. split; [|exact HL2].
    intros X. change (numbered h = true) in X. unfold numbered in X. by rewrite Er in X. }
  destruct (negb _); [done|]. cbv zeta. pose proof (low_bits f) as Hn. set (n := Z.land f 3 + 1) in *.
  apply (yields_bind _ _ (fun t => off <= snd t <= zlen b)).
  { destruct (bool_decide _); [|cbn; lia]. eapply yields_bind; [apply varint_yields; [lia|done]|]. intros [v k] (Hv & Hk & Hk2). unfold vi_ok in Hv. cbn [fst snd] in *. rewrite u64_small by (unfold is_u64; lia). destruct (_ <? _) eqn:E; [done|]. bool_simpl. rewrite i64_small by lia.
    eapply yields_bind; [apply slice_yields; [lia..|done]|]. intros tok _. cbn. lia. }
  intros [tok o] Ho2. cbn [fst snd] in *. eapply yields_bind; [apply varint_yields; [lia|done]|]. intros [len k] (Hv & Hk & Hk2). unfold vi_ok in Hv. cbn [fst snd] in *. destruct (_ <? _) eqn:E; [done|]. bool_simpl.
  eapply yields_bind; [apply number_yields; [lia..|done]|]. intros pn _. destruct (_ || _) eqn:E2; [done|]. bool_simpl. rewrite !u64_small in * by (unfold is_u64; lia). rewrite i64_small by lia.
  unfold layout_ok, numbered. cbn. split; [lia|]. split; [lia|]. split; [lia|]. split; [|exact HL2]. intros _. split; [exact Hn|reflexivity].
Qed.

Lemma parse_yields b n la : bytes_ok b -> zlen b < 2 ^ 61 -> yields (ParseHeader b n la) (layout_ok b).
Proof.
  intros Hb Hsz. destruct b as [|f b'] eqn:Eb; [done|]. rewrite <- Eb in *. assert (E : ParseHeader b n la = if Z.land f 0x80 =? 0 then parse_short b n la f else parse_long b la f) by by rewrite Eb. rewrite E.
  destruct (Z.land f 0x80 =? 0).
  - unfold parse_short. destruct (_ =? 0); [done|]. destruct (negb _); [done|]. cbv zeta. pose proof (low_bits f) as Hn. set (k := Z.land f 3 + 1) in *. destruct (_ || _) eqn:E1; [done|]. bool_simpl. destruct (_ <? _) eqn:E2; [done|]. bool_simpl.
    eapply yields_bind; [apply slice_yields; [lia..|done]|]. intros cid _. eapply yields_bind; [apply number_yields; [lia..|done]|]. intros pn _. unfold layout_ok, numbered. cbn. repeat split; try done; lia.
  - unfold parse_long. destruct (_ <? 5) eqn:E5; [done|]. bool_simpl. eapply yields_bind; [apply slice_yields; [lia..|done]|]. intros v _. cbv zeta. destruct (_ =? VersionNegotiation).
    + unfold parse_negotiation. destruct (_ <? 7) eqn:E7; [done|]. bool_simpl. eapply yields_bind; [apply cid_yields; [lia..|done]|]. intros d (Hd1 & Hd2 & _). eapply yields_bind; [apply cid_yields; [lia..|done]|]. intros s (Hs1 & Hs2 & _).
      unfold layout_ok, numbered. cbn. repeat split; try done; lia.
    + destruct (Z.land f 0x40 =? 0); [done|]. destruct (_ <? 6) eqn:E6; [done|]. bool_simpl. eapply yields_bind; [apply cid_yields; [lia..|done]|]. intros d (Hd1 & Hd2 & _). eapply yields_bind; [apply cid_yields; [lia..|done]|]. intros s (Hs1 & Hs2 & _).
      apply long_rest_yields; [done|done|lia|done|]. cbn. unfold typeOf. destruct (_ =? Version2); repeat case_match; done.
Qed.

Lemma offsets_yields b n : bytes_ok b -> zlen b < 2 ^ 61 -> yields (ParseHeaderOffsets b n) (fun r => 0 <= fst (fst (fst (fst (fst r)))) <= zlen b).
Proof.
  intros Hb Hsz. destruct b as [|f b'] eqn:Eb; [done|]. rewrite <- Eb in *. pose proof (zlen_nonneg b).
  assert (E : ParseHeaderOffsets b n = if Z.land f 0x80 =? 0 then (if (n <? 0) || (n >? 20) then Err ErrInvalidConnectionIDLen else if zlen b <? 1 + n + 4 then Err ErrTruncatedPacket
    else let* cid := slice b 1 (1 + n) in Ok (1 + n, false, PacketType1RTT, 0, cid, [])) else long_offsets b f) by by rewrite Eb. rewrite E.
  destruct (Z.land f 0x80 =? 0).
  - destruct (_ || _) eqn:E1; [done|]. bool_simpl. destruct (_ <? _) eqn:E2; [done|]. bool_simpl. eapply yields_bind; [apply slice_yields; [lia..|done]|]. intros cid _. cbn. lia.
  - unfold long_offsets. destruct (_ <? 5) eqn:E5; [done|]. bool_simpl. eapply yields_bind; [apply slice_yields; [lia..|done]|]. intros v _. cbv zeta. destruct (_ =? VersionNegotiation); [cbn; lia|].
    destruct (_ <? 6) eqn:E6; [done|]. bool_simpl. eapply yields_bind; [apply cid_yields; [lia..|done]|]. intros d (Hd1 & Hd2 & _). eapply yields_bind; [apply cid_yields; [lia..|done]|]. intros s (Hs1 & Hs2 & _).
    destruct (bool_decide _); [cbn; lia|]. apply (yields_bind _ _ (fun o => 0 <= o <= zlen b)).
    + destruct (bool_decide _); [|cbn; lia]. eapply yields_bind; [apply varint_yields; [lia|done]|]. intros [x k] (Hv & Hk & Hk2). unfold vi_ok in Hv. cbn [fst snd] in *. rewrite u64_small by (unfold is_u64; lia). destruct (_ <? _) eqn:E7; [done|]. bool_simpl. rewrite i64_small by lia. cbn. lia.
    + intros o Ho. eapply yields_bind; [apply varint_yields; [lia|done]|]. intros [x k] (Hv & Hk & Hk2). cbn [fst snd] in *. cbn. lia.
Qed.

Lemma xor_at_yields p i m : 0 <= i < zlen p -> bytes_ok p -> is_byte m -> yields (xor_at p i m) (fun p' => zlen p' = zlen p /\ bytes_ok p').
Proof.
  intros Hi Hb Hm. unfold xor_at. eapply yields_bind; [by apply index_yields|]. intros x Hx. cbn. split; [unfold zlen; by rewrite length_insert|]. apply Forall_insert; [done|by apply lxor_byte].
Qed.
Lemma xor_number_yields k : forall p mask off i, 0 <= off -> 0 <= i -> off + i + Z.of_nat k <= zlen p -> 1 + i + Z.of_nat k <= zlen mask -> bytes_ok p -> bytes_ok mask ->
  yields (xor_number k p mask off i) (fun p' => zlen p' = zlen p /\ bytes_ok p').
Proof.
  induction k as [|k IH]; intros p mask off i H0 Hi Hl Hml Hb Hm; [done|]. cbn [xor_number]. eapply yields_bind; [apply index_yields; [lia|done]|]. intros m Hm1. eapply yields_bind; [apply xor_at_yields; [lia|done..]|].
  intros p' [Hp Hpb]. eapply yields_mono; [apply IH; try done; lia|]. intros q [Hq Hqb]. split; [lia|done].
Qed.
Lemma remove_yields p off hp : mask_ok hp -> 0 <= off -> bytes_ok p -> yields (RemoveHeaderProtection p off hp) (fun r => zlen (fst r) = zlen p /\ bytes_ok (fst r)).
Proof.
  intros Hm H0 Hb. unfold RemoveHeaderProtection, HeaderProtectionSampleLen. destruct (_ <? _) eqn:E; [done|]. bool_simpl. eapply yields_bind; [apply slice_yields; [lia..|done]|]. intros s [Hs _].
  destruct (Hm s ltac:(unfold HeaderProtectionSampleLen; lia)) as [Hl Hmb]. unfold HeaderProtectionMaskLen in Hl. cbv zeta. apply (yields_bind _ _ (fun q => zlen q = zlen p /\ bytes_ok q)).
  { unfold xor_first. eapply yields_bind; [apply index_yields; [lia|done]|]. intros f Hf. eapply yields_bind; [apply index_yields; [lia|done]|]. intros m Hm1. apply xor_at_yields; [lia|done|].
    unfold is_byte in *. destruct (negb _); [change 0x0f with (2 ^ 4 - 1)|change 0x1f with (2 ^ 5 - 1)]; rewrite land_mask; lia. }
  intros q [Hq Hqb]. eapply yields_bind; [apply index_yields; [lia|done]|]. intros f Hf. pose proof (low_bits f). destruct (_ <? _) eqn:E2; [done|]. bool_simpl.
  eapply yields_bind; [apply xor_number_yields; [lia..|done|done]|]. intros q' [Hq' Hqb']. cbn. split; [lia|done].
Qed.

Lemma open_yields o dst p n la : protector_ok o -> bytes_ok p -> zlen p < 2 ^ 61 -> yields (OpenPacket o dst p n la) (fun _ => True).
Proof.
  intros [_ Hm Hi] Hb Hsz. unfold OpenPacket. eapply yields_bind; [by apply offsets_yields|]. intros [[[[[off a] b] c] d] e] Ho. cbn [fst] in Ho.
  eapply yields_bind; [apply remove_yields; [done|lia|done]|]. intros [q k] [Hq Hqb]. cbn [fst snd] in *. cbv zeta. eapply yields_bind; [apply parse_yields; [done|lia]|]. intros h (H1 & H2 & H3 & _).
  set (h' := { h with h_PacketNumberLen := k }). change (h_HeaderLen h') with (h_HeaderLen h). change (h_PayloadLen h') with (h_PayloadLen h).
  destruct (nonce_ok (pp_iv o) (h_PacketNumber h') Hi) as [nonce ->]. cbn [res_bind]. eapply yields_bind; [apply slice_yields; [lia..|done]|]. intros aad _. eapply yields_bind; [apply slice_yields; [lia..|done]|].
  intros ct _. by destruct (aead_Open _ _ _ _).
Qed.

(** ** Theorems *)

(** C28: packets are opened as they were sealed.  For a protector and an opener made
    of the same suite, keys and IV, every header with a packet number and every
    payload that leaves enough bytes for a sample: the sealed packet is appended to
    the buffer, and opening it, with other packets of the datagram behind it if the
    header is long, gives back the header with its layout and the payload, as long
    as the packet number is in the window of the largest one seen. *)
Theorem quic_packet_opens `{CryptoLaws} (suite : Z) (key iv hpKey dst dst' : bytes) (p o : protector) (h : Header) (payload rest : bytes) (la : Z) :
  NewPacketProtector suite key iv hpKey = Ok p -> NewPacketOpener suite key iv hpKey = Ok o -> sealable p h payload ->
  pn_or_invalid la -> in_window la (h_PacketNumber h) (h_PacketNumberLen h) ->
  bytes_ok rest -> zlen rest < 2 ^ 59 -> (h_IsLong h = false -> rest = []) ->
  exists packet, SealPacket p dst h payload = Ok (dst ++ packet)
  /\ OpenPacket o dst' (packet ++ rest) (zlen (h_DestConnID h)) la = Ok (placed (sealed p h payload) (zlen payload + aead_Overhead (pp_aead p)), dst' ++ payload).
Proof.
  intros Hp Ho Hs Hla Hw Hrb Hrl Hr. assert (o = p) as -> by (unfold NewPacketOpener in Ho; congruence). apply new_protector_ok in Hp.
  exists (sealed_packet p h payload). split; [by apply seal_packet|by apply open_packet].
Qed.

(** A cipher for examples: the text followed by a tag of sixteen bytes. *)
Definition toy_aead : AEAD :=
  mkAEAD 16 (fun _ text _ => text ++ repeat 7 16) (fun _ c _ => if bool_decide (zdrop (zlen c - 16) c = repeat 7 16) then Some (ztake (zlen c - 16) c) else None).
#[local] Instance toy_crypto : Crypto := { aes_NewCipher _ := Some (fun _ => repeat 9 16); cipher_NewGCM _ := Some toy_aead; chacha20poly1305_New _ := Some toy_aead }.
Lemma toy_law : aead_law toy_aead.
Proof.
  split; cbn [toy_aead aead_Overhead aead_Seal aead_Open]; [lia|intros; by rewrite zlen_app| |].
  - intros _ text _ Ht. apply bytes_ok_app. split; [done|]. apply (bool_decide_unpack _). by vm_compute.
  - intros _ text _ _. rewrite zlen_app. change (zlen (repeat 7 16)) with 16. replace (zlen text + 16 - 16) with (zlen text) by lia. rewrite zdrop_app, ztake_app. by rewrite bool_decide_eq_true_2.
Qed.
#[local] Instance toy_laws : CryptoLaws.
Proof.
  split.
  - intros c a [= <-]. exact toy_law.
  - intros k a [= <-]. exact toy_law.
  - intros k c x [= <-]. split; [done|]. apply (bool_decide_unpack _). by vm_compute.
Qed.
(** The header protection key of RFC 9001, appendix A.5. *)
Definition rfc_hp_key : bytes :=
  [0x25; 0xa2; 0x82; 0xb9; 0xe8; 0x2f; 0x06; 0xf2; 0x1f; 0x48; 0x89; 0x17; 0xa4; 0xfc; 0x8f; 0x1b;
   0x73; 0x57; 0x36; 0x85; 0x60; 0x85; 0x97; 0xd0; 0xef; 0xcb; 0x07; 0x6b; 0x0a; 0xb7; 0xa7; 0xa4].
Definition sample_protector : protector := mkProtector TLS_CHACHA20_POLY1305_SHA256 toy_aead (repeat 1 12) (ChaCha_Mask (words 8 rfc_hp_key)).
Definition sample_initial : Header :=
  { zero_header with h_IsLong := true; h_Version := Version1; h_DestConnID := [1; 2; 3]; h_SrcConnID := [4]; h_Token := [5; 6]; h_PacketNumber := 70000; h_PacketNumberLen := 2 }.
Lemma sample_sealable : sealable sample_protector sample_initial [8; 8; 8].
Proof.
  assert (Hb : forall l, bool_decide (bytes_ok l) = true -> bytes_ok l) by (intros l; apply bool_decide_eq_true_1).
  split; [split|..].
  1-2: split; [by vm_compute|by apply Hb].
  - split; [by apply Hb|by vm_compute].
  - by vm_compute.
  - by vm_compute.
  - by vm_compute.
  - by vm_compute.
  - by vm_compute.
  - by vm_compute.
  - by apply Hb.
  - by vm_compute.
Qed.
Lemma sample_new : NewPacketProtector TLS_CHACHA20_POLY1305_SHA256 (repeat 0 32) (repeat 1 12) rfc_hp_key = Ok sample_protector.
Proof. reflexivity. Qed.
Lemma quic_packet_opens_witness :
  exists packet, SealPacket sample_protector [] sample_initial [8; 8; 8] = Ok ([] ++ packet)
  /\ OpenPacket sample_protector [] (packet ++ [0x40; 7]) 3 69999 = Ok (placed (sealed sample_protector sample_initial [8; 8; 8]) 19, [] ++ [8; 8; 8]).
Proof.
  apply (quic_packet_opens TLS_CHACHA20_POLY1305_SHA256 (repeat 0 32) (repeat 1 12) rfc_hp_key [] [] sample_protector sample_protector sample_initial [8; 8; 8] [0x40; 7] 69999 sample_new sample_new sample_sealable).
  - left. vm_compute. split; [discriminate|reflexivity].
  - vm_compute. split; [reflexivity|discriminate].
  - apply (bool_decide_unpack _). by vm_compute.
  - reflexivity.
  - discriminate.
Defined.

(** Headers round-trip.  [AppendHeader] writes one image for every well-formed
    header of any type, and [ParseHeader] reads it back from the packet with its
    layout; packets with a length may be followed by others. *)
Theorem quic_header_roundtrip (dst payload rest : bytes) (h : Header) (la : Z) :
  header_wf h -> fits h payload rest -> bytes_ok payload -> bytes_ok rest -> zlen (header_image h ++ payload ++ rest) < 2 ^ 61 ->
  pn_or_invalid la -> (numbered h = true -> in_window la (h_PacketNumber h) (h_PacketNumberLen h)) ->
  AppendHeader dst h = Ok (dst ++ header_image h, if numbered h then zlen dst + 1 + zlen (header_body h) else 0)
  /\ ParseHeader (header_image h ++ payload ++ rest) (zlen (h_DestConnID h)) la = Ok (placed h (zlen payload)).
Proof. intros. split; [by apply AppendHeader_image|by apply parse_image]. Qed.
Definition sample_retry : Header := { zero_header with h_IsLong := true; h_Type := PacketTypeRetry; h_Version := Version2; h_DestConnID := [1]; h_SrcConnID := []; h_Token := [5; 6] }.
Lemma quic_header_roundtrip_witness :
  AppendHeader [] sample_retry = Ok ([0xc0; 0x70; 0x9a; 0x50; 0xc4; 1; 1; 0; 5; 6], 0)
  /\ ParseHeader ([0xc0; 0x70; 0x9a; 0x50; 0xc4; 1; 1; 0; 5; 6] ++ repeat 3 16 ++ []) 1 0 = Ok (placed sample_retry 16).
Proof.
  refine (quic_header_roundtrip [] (repeat 3 16) [] sample_retry 0 _ _ _ _ _ _ _).
  - assert (Hb : forall l, bool_decide (bytes_ok l) = true -> bytes_ok l) by (intros l; apply bool_decide_eq_true_1). split.
    1-2: split; [by vm_compute|by apply Hb].
    + split; [by apply Hb|by vm_compute].
    + by vm_compute.
    + by vm_compute.
    + by vm_compute.
    + by vm_compute.
  - vm_compute. split; reflexivity.
  - apply (bool_decide_unpack _). by vm_compute.
  - apply Forall_nil.
  - reflexivity.
  - left. vm_compute. split; [discriminate|reflexivity].
  - discriminate.
Defined.

(** Nothing an attacker sends makes the packet layer panic.  A header that is
    accepted has its parts inside the packet, and [OpenPacket] returns a result or
    an error whatever the packet, the identifier length and the largest number. *)
Theorem quic_open_total (o : protector) (dst packet : bytes) (n la : Z) :
  protector_ok o -> bytes_ok packet -> zlen packet < 2 ^ 61 ->
  yields (ParseHeader packet n la) (layout_ok packet) /\ yields (OpenPacket o dst packet n la) (fun _ => True).
Proof. intros. split; [by apply parse_yields|by apply open_yields]. Qed.
Lemma quic_open_total_witness : yields (OpenPacket sample_protector [] (repeat 0x40 30) 3 0) (fun _ => True).
Proof.
  assert (Hb : bytes_ok (repeat 0x40 30)) by (apply (bool_decide_unpack _); by vm_compute).
  assert (Hp : protector_ok sample_protector) by (split; [exact toy_law|exact (chacha_mask _)|reflexivity]).
  exact (proj2 (quic_open_total sample_protector [] (repeat 0x40 30) 3 0 Hp Hb eq_refl)).
Defined.

(** The block function of the source computes the mask of RFC 9001, appendix A.5. *)
Example chacha_mask_rfc9001 :
  ChaCha_Mask (words 8 rfc_hp_key) [0x5e; 0x5c; 0xd5; 0x5c; 0x41; 0xf6; 0x90; 0x80; 0x57; 0x5d; 0x79; 0x99; 0xc2; 0x5a; 0x5b; 0xfb] = [0xae; 0xfe; 0xfe; 0x7d; 0x03].
Proof. vm_compute. reflexivity. Qed.

(** [Version2] is not the version of RFC 9369, 0x6b3343cf: an Initial packet of that
    version is taken for a 0-RTT packet, and its token for the length. *)
Theorem quic_version2_misread :
  match ParseHeader ([0xd0; 0x6b; 0x33; 0x43; 0xcf; 0; 0; 0; 3; 0; 9; 9]) 0 0 with
  | Ok _ => False
  | Err e => e = ErrTruncatedPacket
  | Panic => False
  end /\ ParseHeaderOffsets [0xd0; 0x6b; 0x33; 0x43; 0xcf; 0; 0; 0; 3; 0; 9; 9] 0 = Ok (8, true, PacketType0RTT, 0x6b3343cf, [], []).
Proof. vm_compute. done. Qed.
