(* ===== verification/TransportParams.v ===== *)
(** * QUIC transport parameters (RFC 9000 section 18)

    Models [src/net/quic/core/handshake]: [transport_parameters.go],
    [connection_id.go] and the perspective of [version.go].  A duration is an int64
    number of nanoseconds.  The texts of the errors are not modelled: every error
    is a [TransportParameterError].

    The theorems: what [Append] writes [Unmarshal] reads back; [Unmarshal] is total
    and only accepts parameters in their ranges, and none of the server's from a
    client; a repeated parameter is an error.  Then the values that are lost, let
    through or cause a panic. *)

From S2P Require Import Prelude Varint.
Import HsVarint.

Inductive Perspective := PerspectiveClient | PerspectiveServer.
#[export] Instance Perspective_eq_dec : EqDecision Perspective.
Proof. solve_decision. Defined.
Definition Opposite (p : Perspective) : Perspective := match p with PerspectiveClient => PerspectiveServer | PerspectiveServer => PerspectiveClient end.

(** ** Connection identifiers *)
Definition MaxConnectionIDLen : Z := 20.
#[projections(primitive)]
Record ConnectionID := mkCID { cid_len : Z; cid_buf : bytes }.
Definition zero_cid : ConnectionID := mkCID 0 (repeat 0 20).
Definition NewConnectionID (b : bytes) : ConnectionID :=
  let n := Z.min (zlen b) MaxConnectionIDLen in
  mkCID n (ztake n b ++ zdrop n (cid_buf zero_cid)).
Definition cid_Len (c : ConnectionID) : Z := cid_len c.
Definition cid_Bytes (c : ConnectionID) : bytes := ztake (cid_len c) (cid_buf c).
Definition cid_Equal (c other : ConnectionID) : bool := (cid_len c =? cid_len other) && bool_decide (cid_Bytes c = cid_Bytes other).

(** ** Addresses: what the code uses of [net/netip] *)
Inductive Addr := AddrNone | Addr4 (b : bytes) | Addr6 (b : bytes).
Record AddrPort := mkAddrPort { ap_Addr : Addr; ap_Port : Z }.
Definition Is4In6 (b : bytes) : bool := bool_decide (ztake 12 b = repeat 0 10 ++ [255; 255]).
(** [As4] panics on the zero address and on a genuine IPv6 address. *)
Definition As4 {E} (a : Addr) : res E bytes :=
  match a with
  | AddrNone => Panic
  | Addr4 b => Ok b
  | Addr6 b => if Is4In6 b then Ok (zdrop 12 b) else Panic
  end.
Definition As16 (a : Addr) : bytes :=
  match a with
  | AddrNone => repeat 0 16
  | Addr4 b => repeat 0 10 ++ [255; 255] ++ b
  | Addr6 b => b
  end.

(** ** Parameters *)
Definition paramOriginalDestinationConnectionID : Z := 0x00.
Definition paramMaxIdleTimeout : Z := 0x01.
Definition paramStatelessResetToken : Z := 0x02.
Definition paramMaxUDPPayloadSize : Z := 0x03.
Definition paramInitialMaxData : Z := 0x04.
Definition paramInitialMaxStreamDataBidiLocal : Z := 0x05.
Definition paramInitialMaxStreamDataBidiRemote : Z := 0x06.
Definition paramInitialMaxStreamDataUni : Z := 0x07.
Definition paramInitialMaxStreamsBidi : Z := 0x08.
Definition paramInitialMaxStreamsUni : Z := 0x09.
Definition paramAckDelayExponent : Z := 0x0a.
Definition paramMaxAckDelay : Z := 0x0b.
Definition paramDisableActiveMigration : Z := 0x0c.
Definition paramPreferredAddress : Z := 0x0d.
Definition paramActiveConnectionIDLimit : Z := 0x0e.
Definition paramInitialSourceConnectionID : Z := 0x0f.
Definition paramRetrySourceConnectionID : Z := 0x10.
Definition paramMaxDatagramFrameSize : Z := 0x20.

Definition Millisecond : Z := 1000000.
Definition defaultMaxUDPPayloadSize : Z := 65527.
Definition defaultAckDelayExponent : Z := 3.
Definition defaultMaxAckDelay : Z := 25 * Millisecond.
Definition defaultActiveConnectionIDLimit : Z := 2.

Record PreferredAddress := mkPreferred { pa_IPv4 : AddrPort; pa_IPv6 : AddrPort; pa_ConnectionID : ConnectionID; pa_StatelessResetToken : bytes }.
#[projections(primitive)]
Record TransportParameters := mkTP {
  OriginalDestinationConnectionID : ConnectionID;
  InitialSourceConnectionID : ConnectionID;
  RetrySourceConnectionID : ConnectionID;
  StatelessResetToken : bytes;
  PreferredAddress_ : PreferredAddress;
  MaxIdleTimeout : Z;
  MaxUDPPayloadSize : Z;
  InitialMaxData : Z;
  InitialMaxStreamDataBidiLocal : Z;
  InitialMaxStreamDataBidiRemote : Z;
  InitialMaxStreamDataUni : Z;
  InitialMaxStreamsBidi : Z;
  InitialMaxStreamsUni : Z;
  AckDelayExponent : Z;
  MaxAckDelay : Z;
  ActiveConnectionIDLimit : Z;
  MaxDatagramFrameSize : Z;
  DisableActiveMigration : bool;
  HasOriginalDestinationConnectionID : bool;
  HasInitialSourceConnectionID : bool;
  HasRetrySourceConnectionID : bool;
  HasStatelessResetToken : bool;
  HasPreferredAddress : bool;
  HasMaxIdleTimeout : bool;
  HasMaxDatagramFrameSize : bool }.
Definition no_address : PreferredAddress := mkPreferred (mkAddrPort AddrNone 0) (mkAddrPort AddrNone 0) zero_cid (repeat 0 16).
Definition DefaultTransportParameters : TransportParameters :=
  mkTP zero_cid zero_cid zero_cid (repeat 0 16) no_address 0 defaultMaxUDPPayloadSize 0 0 0 0 0 0
    defaultAckDelayExponent defaultMaxAckDelay defaultActiveConnectionIDLimit 0 false false false false false false false false.

Inductive tp_error := TransportParameterError.

(** ** Writing *)
Definition appendVarintParam (b : bytes) (id val : Z) : bytes :=
  let vLen := varintLen val in
  appendVarint (appendVarint (appendVarint b id) vLen) val.
Definition appendBytesParam (b : bytes) (id : Z) (data : bytes) : bytes :=
  appendVarint (appendVarint b id) (zlen data) ++ data.
(** [d.Milliseconds()], and the conversion to uint64. *)
Definition Milliseconds (d : Z) : Z := u64 (Z.quot d Millisecond).

Definition appendPreferredAddress (p : TransportParameters) (b : bytes) : res tp_error bytes :=
  let pa := PreferredAddress_ p in
  let cidLen := cid_Len (pa_ConnectionID pa) in
  let paramLen := 4 + 2 + 16 + 2 + 1 + cidLen + 16 in
  let b := appendVarint (appendVarint b paramPreferredAddress) paramLen in
  let* ipv4 := As4 (ap_Addr (pa_IPv4 pa)) in
  let b := b ++ ipv4 ++ be_put 2 (ap_Port (pa_IPv4 pa)) in
  let b := b ++ As16 (ap_Addr (pa_IPv6 pa)) ++ be_put 2 (ap_Port (pa_IPv6 pa)) in
  Ok (b ++ [u8 cidLen] ++ cid_Bytes (pa_ConnectionID pa) ++ pa_StatelessResetToken pa).

Definition append_server (p : TransportParameters) (b : bytes) : res tp_error bytes :=
  let b := if HasOriginalDestinationConnectionID p then appendBytesParam b paramOriginalDestinationConnectionID (cid_Bytes (OriginalDestinationConnectionID p)) else b in
  let b := if HasStatelessResetToken p then appendBytesParam b paramStatelessResetToken (StatelessResetToken p) else b in
  let* b := if HasPreferredAddress p then appendPreferredAddress p b else Ok b in
  Ok (if HasRetrySourceConnectionID p then appendBytesParam b paramRetrySourceConnectionID (cid_Bytes (RetrySourceConnectionID p)) else b).

Definition Append (p : TransportParameters) (b : bytes) (pers : Perspective) : res tp_error bytes :=
  let* b := if bool_decide (pers = PerspectiveServer) then append_server p b else Ok b in
  let b := if HasInitialSourceConnectionID p then appendBytesParam b paramInitialSourceConnectionID (cid_Bytes (InitialSourceConnectionID p)) else b in
  let b := if HasMaxIdleTimeout p && (MaxIdleTimeout p >? 0) then appendVarintParam b paramMaxIdleTimeout (Milliseconds (MaxIdleTimeout p)) else b in
  let b := if negb (MaxUDPPayloadSize p =? 0) && negb (MaxUDPPayloadSize p =? defaultMaxUDPPayloadSize) then appendVarintParam b paramMaxUDPPayloadSize (MaxUDPPayloadSize p) else b in
  let b := if InitialMaxData p >? 0 then appendVarintParam b paramInitialMaxData (InitialMaxData p) else b in
  let b := if InitialMaxStreamDataBidiLocal p >? 0 then appendVarintParam b paramInitialMaxStreamDataBidiLocal (InitialMaxStreamDataBidiLocal p) else b in
  let b := if InitialMaxStreamDataBidiRemote p >? 0 then appendVarintParam b paramInitialMaxStreamDataBidiRemote (InitialMaxStreamDataBidiRemote p) else b in
  let b := if InitialMaxStreamDataUni p >? 0 then appendVarintParam b paramInitialMaxStreamDataUni (InitialMaxStreamDataUni p) else b in
  let b := if InitialMaxStreamsBidi p >? 0 then appendVarintParam b paramInitialMaxStreamsBidi (InitialMaxStreamsBidi p) else b in
  let b := if InitialMaxStreamsUni p >? 0 then appendVarintParam b paramInitialMaxStreamsUni (InitialMaxStreamsUni p) else b in
  let b := if negb (AckDelayExponent p =? defaultAckDelayExponent) && negb (AckDelayExponent p =? 0) then appendVarintParam b paramAckDelayExponent (AckDelayExponent p) else b in
  let b := if negb (MaxAckDelay p =? defaultMaxAckDelay) && (MaxAckDelay p >? 0) then appendVarintParam b paramMaxAckDelay (Milliseconds (MaxAckDelay p)) else b in
  let b := if DisableActiveMigration p then appendVarint (appendVarint b paramDisableActiveMigration) 0 else b in
  let b := if negb (ActiveConnectionIDLimit p =? defaultActiveConnectionIDLimit) && negb (ActiveConnectionIDLimit p =? 0) then appendVarintParam b paramActiveConnectionIDLimit (ActiveConnectionIDLimit p) else b in
  let b := if HasMaxDatagramFrameSize p then appendVarintParam b paramMaxDatagramFrameSize (MaxDatagramFrameSize p) else b in
  Ok b.
Definition Marshal (p : TransportParameters) (pers : Perspective) : res tp_error bytes := Append p [] pers.

(** ** Reading *)
Definition tp_varint (data : bytes) : res tp_error (Z * Z) :=
  match readVarint data with Ok x => Ok x | Err _ => Err TransportParameterError | Panic => Panic end.
Definition readVarintExact (data : bytes) : res tp_error Z :=
  let* r := tp_varint data in
  if negb (snd r =? zlen data) then Err TransportParameterError else Ok (fst r).

Definition unmarshalPreferredAddress (b : bytes) : res tp_error PreferredAddress :=
  if zlen b <? 41 then Err TransportParameterError
  else
    let* ipv4 := slice b 0 4 in
    let* port4 := slice b 4 6 in
    let* ipv6 := slice b 6 22 in
    let* port6 := slice b 22 24 in
    let* cidLen := index b 24 in
    if negb (41 + cidLen =? zlen b) then Err TransportParameterError
    else if cidLen >? MaxConnectionIDLen then Err TransportParameterError
    else
      let* cid := slice b 25 (25 + cidLen) in
      let* token := slice b (25 + cidLen) (41 + cidLen) in
      Ok (mkPreferred (mkAddrPort (Addr4 ipv4) (be_get port4)) (mkAddrPort (Addr6 ipv6) (be_get port6)) (NewConnectionID cid) token).

(** [time.Duration(v) * time.Millisecond]. *)
Definition of_millis (v : Z) : Z := i64 (i64 v * Millisecond).

Definition read_cid (data : bytes) (set : ConnectionID -> TransportParameters) : res tp_error TransportParameters :=
  if zlen data >? MaxConnectionIDLen then Err TransportParameterError else Ok (set (NewConnectionID data)).
Definition read_value (data : bytes) (ok : Z -> bool) (set : Z -> TransportParameters) : res tp_error TransportParameters :=
  let* v := readVarintExact data in
  if ok v then Ok (set v) else Err TransportParameterError.
Definition any_value (v : Z) : bool := true.

Definition server_only (id : Z) : bool :=
  (id =? paramOriginalDestinationConnectionID) || (id =? paramStatelessResetToken) || (id =? paramPreferredAddress) || (id =? paramRetrySourceConnectionID).

(** One parameter, once its identifier and its data are known. *)
Definition apply_param (p : TransportParameters) (sentBy : Perspective) (id : Z) (data : bytes) : res tp_error TransportParameters :=
  if bool_decide (sentBy = PerspectiveClient) && server_only id then Err TransportParameterError
  else if id =? paramOriginalDestinationConnectionID then read_cid data (fun c => { p with OriginalDestinationConnectionID := c; HasOriginalDestinationConnectionID := true })
  else if id =? paramInitialSourceConnectionID then read_cid data (fun c => { p with InitialSourceConnectionID := c; HasInitialSourceConnectionID := true })
  else if id =? paramRetrySourceConnectionID then read_cid data (fun c => { p with RetrySourceConnectionID := c; HasRetrySourceConnectionID := true })
  else if id =? paramStatelessResetToken then
    if negb (zlen data =? 16) then Err TransportParameterError else Ok { p with StatelessResetToken := data; HasStatelessResetToken := true }
  else if id =? paramMaxIdleTimeout then read_value data any_value (fun v => { p with MaxIdleTimeout := of_millis v; HasMaxIdleTimeout := true })
  else if id =? paramMaxUDPPayloadSize then read_value data (fun v => negb (v <? 1200)) (fun v => { p with MaxUDPPayloadSize := v })
  else if id =? paramInitialMaxData then read_value data any_value (fun v => { p with InitialMaxData := v })
  else if id =? paramInitialMaxStreamDataBidiLocal then read_value data any_value (fun v => { p with InitialMaxStreamDataBidiLocal := v })
  else if id =? paramInitialMaxStreamDataBidiRemote then read_value data any_value (fun v => { p with InitialMaxStreamDataBidiRemote := v })
  else if id =? paramInitialMaxStreamDataUni then read_value data any_value (fun v => { p with InitialMaxStreamDataUni := v })
  else if id =? paramInitialMaxStreamsBidi then read_value data any_value (fun v => { p with InitialMaxStreamsBidi := v })
  else if id =? paramInitialMaxStreamsUni then read_value data any_value (fun v => { p with InitialMaxStreamsUni := v })
  else if id =? paramAckDelayExponent then read_value data (fun v => negb (v >? 20)) (fun v => { p with AckDelayExponent := u8 v })
  else if id =? paramMaxAckDelay then read_value data (fun v => negb (v >=? Z.shiftl 1 14)) (fun v => { p with MaxAckDelay := of_millis v })
  else if id =? paramDisableActiveMigration then
    if negb (zlen data =? 0) then Err TransportParameterError else Ok { p with DisableActiveMigration := true }
  else if id =? paramActiveConnectionIDLimit then read_value data (fun v => negb (v <? 2)) (fun v => { p with ActiveConnectionIDLimit := v })
  else if id =? paramPreferredAddress then
    let* a := unmarshalPreferredAddress data in Ok { p with PreferredAddress_ := a; HasPreferredAddress := true }
  else if id =? paramMaxDatagramFrameSize then read_value data any_value (fun v => { p with MaxDatagramFrameSize := v; HasMaxDatagramFrameSize := true })
  else Ok p.

(** Duplicate detection: a bit mask for small identifiers, a list of at most eight
    for the others; [None] for a duplicate. *)
Definition note_id (mask : Z) (ext : list Z) (id : Z) : option (Z * list Z) :=
  if id <? 64 then
    let bit := u64 (Z.shiftl 1 id) in
    if negb (Z.land mask bit =? 0) then None else Some (Z.lor mask bit, ext)
  else if existsb (fun x => x =? id) ext then None
  else Some (mask, if zlen ext <? 8 then ext ++ [id] else ext).

(** The body of the loop: the parameter at the front of the data. *)
Definition next_param (p : TransportParameters) (mask : Z) (ext : list Z) (data : bytes) (sentBy : Perspective) : res tp_error (TransportParameters * Z * list Z * bytes) :=
  let* r := tp_varint data in
  let id := fst r in
  let* data := slice data (snd r) (zlen data) in
  match note_id mask ext id with
  | None => Err TransportParameterError
  | Some (mask, ext) =>
      let* r := tp_varint data in
      let length := fst r in
      let* data := slice data (snd r) (zlen data) in
      if zlen data <? length then Err TransportParameterError
      else
        let* paramData := slice data 0 length in
        let* data := slice data length (zlen data) in
        let* p := apply_param p sentBy id paramData in
        Ok (p, mask, ext, data)
  end.
Fixpoint Unmarshal_loop (fuel : nat) (p : TransportParameters) (mask : Z) (ext : list Z) (data : bytes) (sentBy : Perspective) : res tp_error TransportParameters :=
  match fuel with
  | O => Ok p
  | S fuel' =>
      if zlen data >? 0 then
        let* r := next_param p mask ext data sentBy in
        let '(p, mask, ext, data) := r in
        Unmarshal_loop fuel' p mask ext data sentBy
      else Ok p
  end.
Definition Unmarshal (data : bytes) (sentBy : Perspective) : res tp_error TransportParameters :=
  Unmarshal_loop (S (List.length data)) DefaultTransportParameters 0 [] data sentBy.

(** ** Specification: a list of identifiers with their data *)
Definition param : Type := Z * bytes.
Definition param_image (x : param) : bytes := vi_enc (fst x) ++ vi_enc (zlen (snd x)) ++ snd x.
Definition image (l : list param) : bytes := concat (map param_image l).
Definition param_ok (x : param) : Prop := vi_ok (fst x) /\ bytes_ok (snd x) /\ zlen (snd x) < 2 ^ 62.
Fixpoint read_params (p : TransportParameters) (mask : Z) (ext : list Z) (l : list param) (sentBy : Perspective) : res tp_error TransportParameters :=
  match l with
  | [] => Ok p
  | (id, d) :: l' =>
      match note_id mask ext id with
      | None => Err TransportParameterError
      | Some (mask, ext) => let* p := apply_param p sentBy id d in read_params p mask ext l' sentBy
      end
  end.

Lemma tp_varint_enc v rest : vi_ok v -> bytes_ok rest -> tp_varint (vi_enc v ++ rest) = Ok (v, zlen (vi_enc v)).
Proof. intros Hv Hr. unfold tp_varint. rewrite readVarint_vi_dec, vi_dec_enc by (try done; apply bytes_ok_app; auto using vi_enc_ok). done. Qed.
Lemma slice_rest {E} (a b : bytes) : @slice E Z (a ++ b) (zlen a) (zlen (a ++ b)) = Ok b.
Proof.
  pose proof (zlen_nonneg a). pose proof (zlen_nonneg b). unfold slice. rewrite zlen_app. test_true ((0 <=? zlen a) && (zlen a <=? zlen a + zlen b) && (zlen a + zlen b <=? zlen a + zlen b)).
  rewrite zdrop_app. f_equal. apply ztake_all. lia.
Qed.
Lemma slice_front {E} (a b : bytes) : @slice E Z (a ++ b) 0 (zlen a) = Ok a.
Proof.
  pose proof (zlen_nonneg a). pose proof (zlen_nonneg b). unfold slice. rewrite zlen_app. test_true ((0 <=? 0) && (0 <=? zlen a) && (zlen a <=? zlen a + zlen b)).
  rewrite zdrop_0, Z.sub_0_r. by rewrite ztake_app.
Qed.
Lemma params_image_ok l : Forall param_ok l -> bytes_ok (image l).
Proof.
  induction 1 as [|[id d] l (Hi & Hd & _) _ IH]; [apply Forall_nil|]. change (image ((id, d) :: l)) with (param_image (id, d) ++ image l). unfold param_image. rewrite !bytes_ok_app. auto using vi_enc_ok.
Qed.

Lemma next_image p mask ext id d rest sentBy : param_ok (id, d) -> bytes_ok rest ->
  next_param p mask ext (param_image (id, d) ++ rest) sentBy =
  match note_id mask ext id with
  | None => Err TransportParameterError
  | Some (mask, ext) => let* p := apply_param p sentBy id d in Ok (p, mask, ext, rest)
  end.
Proof.
  intros (Hi & Hd & Hz) Hb. cbn [fst snd] in *. unfold param_image, next_param. cbn [fst snd]. rewrite <- !app_assoc.
  set (r2 := d ++ rest). set (r1 := vi_enc (zlen d) ++ r2). assert (H2 : bytes_ok r2) by (apply bytes_ok_app; done). assert (H1 : bytes_ok r1) by (apply bytes_ok_app; auto using vi_enc_ok).
  pose proof (zlen_nonneg d). pose proof (zlen_nonneg rest).
  rewrite tp_varint_enc by done. cbn [res_bind fst snd]. rewrite slice_rest. cbn [res_bind]. destruct (note_id mask ext id) as [[mask' ext']|]; [|done].
  unfold r1. rewrite tp_varint_enc by (try done; unfold vi_ok; lia). cbn [res_bind fst snd]. rewrite slice_rest. cbn [res_bind].
  unfold r2. replace (zlen (d ++ rest) <? zlen d) with false by (rewrite zlen_app; lia). rewrite slice_front. cbn [res_bind]. rewrite slice_rest. done.
Qed.
Lemma loop_params sentBy l : forall fuel p mask ext, Forall param_ok l -> (List.length (image l) < fuel)%nat ->
  Unmarshal_loop fuel p mask ext (image l) sentBy = read_params p mask ext l sentBy.
Proof.
  induction l as [|[id d] l IH]; intros [|fuel] p mask ext Hl Hf; try lia; [done|]. apply Forall_cons_1 in Hl as [Hx Hl]. pose proof (params_image_ok l Hl) as Hb.
  change (image ((id, d) :: l)) with (param_image (id, d) ++ image l) in *. cbn [Unmarshal_loop read_params].
  assert (Hpos : 1 <= zlen (param_image (id, d))) by (unfold param_image; cbn [fst snd]; pose proof (vi_enc_zlen id); pose proof (vi_size_pos id); pose proof (zlen_nonneg (vi_enc (zlen d) ++ d)); rewrite zlen_app; lia).
  pose proof (zlen_nonneg (image l)). replace (zlen (param_image (id, d) ++ image l) >? 0) with true by (rewrite zlen_app; lia). rewrite next_image by done.
  destruct (note_id mask ext id) as [[mask' ext']|]; [|done]. destruct (apply_param p sentBy id d); [|done..]. cbn [res_bind]. apply IH; [done|]. rewrite length_app in Hf. unfold zlen in *. lia.
Qed.

(** Identifiers below 64 that differ are not taken for duplicates. *)
Fixpoint plain_params (p : TransportParameters) (l : list param) (sentBy : Perspective) : res tp_error TransportParameters :=
  match l with [] => Ok p | (id, d) :: l' => let* p := apply_param p sentBy id d in plain_params p l' sentBy end.
Lemma note_fresh mask ext id : 0 <= id < 64 -> Z.testbit mask id = false -> note_id mask ext id = Some (Z.lor mask (2 ^ id), ext).
Proof.
  intros Hi Ht. unfold note_id. test_true (id <? 64). rewrite Z.shiftl_1_l. assert (2 ^ id <= 2 ^ 63) by (apply Z.pow_le_mono_r; lia). rewrite u64_small by (unfold is_u64; lia).
  assert (E : Z.land mask (2 ^ id) = 0); [|by rewrite E]. apply Z.bits_inj'. intros n Hn. rewrite Z.land_spec, Z.bits_0. destruct (Z.eq_dec n id) as [->|Hd]; [by rewrite Ht|]. rewrite Z.pow2_bits_false by lia. by rewrite andb_false_r.
Qed.
Lemma note_again mask ext id : 0 <= id < 64 -> Z.testbit mask id = true -> note_id mask ext id = None.
Proof.
  intros Hi Ht. unfold note_id. test_true (id <? 64). rewrite Z.shiftl_1_l. assert (2 ^ id <= 2 ^ 63) by (apply Z.pow_le_mono_r; lia). rewrite u64_small by (unfold is_u64; lia).
  destruct (Z.land mask (2 ^ id) =? 0) eqn:E; [|done]. bool_simpl. exfalso. assert (Z.testbit (Z.land mask (2 ^ id)) id = true) by (rewrite Z.land_spec, Ht, Z.pow2_bits_true by lia; done). rewrite E, Z.bits_0 in *. done.
Qed.
Lemma read_plain sentBy l : forall p mask ext, Forall (fun x => 0 <= fst x < 64) l -> NoDup (map fst l) -> Forall (fun x => Z.testbit mask (fst x) = false) l ->
  read_params p mask ext l sentBy = plain_params p l sentBy.
Proof.
  induction l as [|[id d] l IH]; intros p mask ext Hr Hn Ht; [done|]. apply Forall_cons_1 in Hr as [Hi Hr], Ht as [Hti Ht]. cbn [map fst] in Hn. apply list.NoDup_cons in Hn as [Hin Hn]. cbn [fst] in *. cbn [read_params plain_params].
  rewrite note_fresh by done. destruct (apply_param p sentBy id d); [|done..]. cbn [res_bind]. apply IH; [done|done|]. apply Forall_forall. intros x Hx. rewrite Forall_forall in Ht, Hr. rewrite Z.lor_spec, (Ht x Hx), Z.pow2_bits_false; [done|].
  intros E. apply Hin. apply list_elem_of_fmap. exists x. split; [done|by apply list_elem_of_In].
Qed.

(** ** The parameters a side sends *)
Definition when (c : bool) (x : param) : list param := if c then [x] else [].
Definition address_image (pa : PreferredAddress) : bytes :=
  match As4 (E := tp_error) (ap_Addr (pa_IPv4 pa)) with
  | Ok ipv4 => ipv4 ++ be_put 2 (ap_Port (pa_IPv4 pa)) ++ As16 (ap_Addr (pa_IPv6 pa)) ++ be_put 2 (ap_Port (pa_IPv6 pa))
      ++ [cid_len (pa_ConnectionID pa)] ++ cid_Bytes (pa_ConnectionID pa) ++ pa_StatelessResetToken pa
  | _ => []
  end.
Definition server_params (p : TransportParameters) : list param :=
  when (HasOriginalDestinationConnectionID p) (paramOriginalDestinationConnectionID, cid_Bytes (OriginalDestinationConnectionID p))
  ++ when (HasStatelessResetToken p) (paramStatelessResetToken, StatelessResetToken p)
  ++ when (HasPreferredAddress p) (paramPreferredAddress, address_image (PreferredAddress_ p))
  ++ when (HasRetrySourceConnectionID p) (paramRetrySourceConnectionID, cid_Bytes (RetrySourceConnectionID p)).
Definition common_params (p : TransportParameters) : list param :=
  when (HasInitialSourceConnectionID p) (paramInitialSourceConnectionID, cid_Bytes (InitialSourceConnectionID p))
  ++ when (HasMaxIdleTimeout p && (MaxIdleTimeout p >? 0)) (paramMaxIdleTimeout, vi_enc (Milliseconds (MaxIdleTimeout p)))
  ++ when (negb (MaxUDPPayloadSize p =? 0) && negb (MaxUDPPayloadSize p =? defaultMaxUDPPayloadSize)) (paramMaxUDPPayloadSize, vi_enc (MaxUDPPayloadSize p))
  ++ when (InitialMaxData p >? 0) (paramInitialMaxData, vi_enc (InitialMaxData p))
  ++ when (InitialMaxStreamDataBidiLocal p >? 0) (paramInitialMaxStreamDataBidiLocal, vi_enc (InitialMaxStreamDataBidiLocal p))
  ++ when (InitialMaxStreamDataBidiRemote p >? 0) (paramInitialMaxStreamDataBidiRemote, vi_enc (InitialMaxStreamDataBidiRemote p))
  ++ when (InitialMaxStreamDataUni p >? 0) (paramInitialMaxStreamDataUni, vi_enc (InitialMaxStreamDataUni p))
  ++ when (InitialMaxStreamsBidi p >? 0) (paramInitialMaxStreamsBidi, vi_enc (InitialMaxStreamsBidi p))
  ++ when (InitialMaxStreamsUni p >? 0) (paramInitialMaxStreamsUni, vi_enc (InitialMaxStreamsUni p))
  ++ when (negb (AckDelayExponent p =? defaultAckDelayExponent) && negb (AckDelayExponent p =? 0)) (paramAckDelayExponent, vi_enc (AckDelayExponent p))
  ++ when (negb (MaxAckDelay p =? defaultMaxAckDelay) && (MaxAckDelay p >? 0)) (paramMaxAckDelay, vi_enc (Milliseconds (MaxAckDelay p)))
  ++ when (DisableActiveMigration p) (paramDisableActiveMigration, [])
  ++ when (negb (ActiveConnectionIDLimit p =? defaultActiveConnectionIDLimit) && negb (ActiveConnectionIDLimit p =? 0)) (paramActiveConnectionIDLimit, vi_enc (ActiveConnectionIDLimit p))
  ++ when (HasMaxDatagramFrameSize p) (paramMaxDatagramFrameSize, vi_enc (MaxDatagramFrameSize p)).
Definition params (p : TransportParameters) (pers : Perspective) : list param :=
  (if bool_decide (pers = PerspectiveServer) then server_params p else []) ++ common_params p.

(** Parameters that can be announced.  A field whose flag is not set has its zero
    value, durations are whole milliseconds, and the values the code takes for "not
    set" are excluded. *)
Definition cid_fine (has : bool) (c : ConnectionID) : Prop :=
  if has then exists b, c = NewConnectionID b /\ zlen b <= 20 /\ bytes_ok b else c = zero_cid.
Record address_fine (pa : PreferredAddress) (b4 : bytes) (p4 : Z) (b6 : bytes) (p6 : Z) (cid tok : bytes) : Prop := {
  af_eq : pa = mkPreferred (mkAddrPort (Addr4 b4) p4) (mkAddrPort (Addr6 b6) p6) (NewConnectionID cid) tok;
  af_4 : zlen b4 = 4 /\ bytes_ok b4 /\ 0 <= p4 < 2 ^ 16;
  af_6 : zlen b6 = 16 /\ bytes_ok b6 /\ 0 <= p6 < 2 ^ 16;
  af_cid : zlen cid <= 20 /\ bytes_ok cid;
  af_tok : zlen tok = 16 /\ bytes_ok tok
}.
Record tp_wf (p : TransportParameters) (pers : Perspective) : Prop := {
  w_server : pers = PerspectiveClient ->
    HasOriginalDestinationConnectionID p = false /\ HasStatelessResetToken p = false /\ HasPreferredAddress p = false /\ HasRetrySourceConnectionID p = false;
  w_orig : cid_fine (HasOriginalDestinationConnectionID p) (OriginalDestinationConnectionID p);
  w_init : cid_fine (HasInitialSourceConnectionID p) (InitialSourceConnectionID p);
  w_retry : cid_fine (HasRetrySourceConnectionID p) (RetrySourceConnectionID p);
  w_token : if HasStatelessResetToken p then zlen (StatelessResetToken p) = 16 /\ bytes_ok (StatelessResetToken p) else StatelessResetToken p = repeat 0 16;
  w_addr : if HasPreferredAddress p then exists b4 p4 b6 p6 cid tok, address_fine (PreferredAddress_ p) b4 p4 b6 p6 cid tok else PreferredAddress_ p = no_address;
  w_idle : if HasMaxIdleTimeout p then exists ms, 0 < ms < 2 ^ 43 /\ MaxIdleTimeout p = ms * Millisecond else MaxIdleTimeout p = 0;
  w_udp : 1200 <= MaxUDPPayloadSize p < 2 ^ 62;
  w_data : vi_ok (InitialMaxData p);
  w_local : vi_ok (InitialMaxStreamDataBidiLocal p);
  w_remote : vi_ok (InitialMaxStreamDataBidiRemote p);
  w_uni : vi_ok (InitialMaxStreamDataUni p);
  w_sbidi : vi_ok (InitialMaxStreamsBidi p);
  w_suni : vi_ok (InitialMaxStreamsUni p);
  w_exp : 1 <= AckDelayExponent p <= 20;
  w_delay : exists ms, 0 < ms < 2 ^ 14 /\ MaxAckDelay p = ms * Millisecond;
  w_limit : 2 <= ActiveConnectionIDLimit p < 2 ^ 62;
  w_dgram : vi_ok (MaxDatagramFrameSize p) /\ (HasMaxDatagramFrameSize p = false -> MaxDatagramFrameSize p = 0)
}.

Lemma varint_param b id v : vi_ok id -> vi_ok v -> appendVarintParam b id v = b ++ param_image (id, vi_enc v).
Proof.
  intros Hi Hv. pose proof (vi_enc_zlen v). pose proof (vi_size_pos v). unfold appendVarintParam, param_image. rewrite hs_len_enc by done.
  rewrite !hs_append_enc by (try done; unfold vi_ok; lia). by rewrite <- !app_assoc.
Qed.
Lemma bytes_param b id d : vi_ok id -> zlen d < 2 ^ 62 -> appendBytesParam b id d = b ++ param_image (id, d).
Proof. intros Hi Hd. pose proof (zlen_nonneg d). unfold appendBytesParam, param_image. rewrite !hs_append_enc by (try done; unfold vi_ok; lia). by rewrite <- !app_assoc. Qed.
Lemma image_app l k : image (l ++ k) = image l ++ image k.
Proof. unfold image. by rewrite map_app, concat_app. Qed.
Lemma image_when c x : image (when c x) = if c then param_image x else [].
Proof. destruct c; [|done]. apply app_nil_r. Qed.
Lemma when_app (c : bool) (b : bytes) x : (if c then b ++ param_image x else b) = b ++ image (when c x).
Proof. rewrite image_when. destruct c; [done|by rewrite app_nil_r]. Qed.
Lemma millis ms : 0 <= ms < 2 ^ 43 -> Milliseconds (ms * Millisecond) = ms /\ of_millis ms = ms * Millisecond.
Proof.
  intros H. unfold Milliseconds, of_millis, Millisecond. rewrite Z.quot_mul by lia. split; [apply u64_small; unfold is_u64; lia|]. rewrite (i64_small ms) by lia. apply i64_small. lia.
Qed.
Lemma cid_bytes b : zlen b <= 20 -> cid_Bytes (NewConnectionID b) = b /\ cid_len (NewConnectionID b) = zlen b.
Proof.
  intros H. pose proof (zlen_nonneg b). unfold NewConnectionID, cid_Bytes, MaxConnectionIDLen. cbn. replace (Z.min (zlen b) 20) with (zlen b) by lia. split; [|done]. by rewrite (ztake_all b), ztake_app by lia.
Qed.
Lemma cid_fine_bytes has c : cid_fine has c -> has = true -> zlen (cid_Bytes c) <= 20 /\ bytes_ok (cid_Bytes c) /\ NewConnectionID (cid_Bytes c) = c.
Proof. intros H ->. destruct H as (b & -> & Hl & Hb). by rewrite (proj1 (cid_bytes b Hl)). Qed.

Lemma address_append p b : HasPreferredAddress p = true -> (exists b4 p4 b6 p6 cid tok, address_fine (PreferredAddress_ p) b4 p4 b6 p6 cid tok) ->
  appendPreferredAddress p b = Ok (b ++ param_image (paramPreferredAddress, address_image (PreferredAddress_ p))) /\ bytes_ok (address_image (PreferredAddress_ p)) /\ zlen (address_image (PreferredAddress_ p)) <= 61.
Proof.
  intros _ (b4 & p4 & b6 & p6 & cid & tok & [Eq (H4 & H4b & _) (H6 & H6b & _) (Hc & Hcb) (Ht & Htb)]). unfold appendPreferredAddress. rewrite Eq. destruct (cid_bytes cid Hc) as [Eb El]. pose proof (zlen_nonneg cid).
  unfold address_image. cbn [pa_IPv4 pa_IPv6 pa_ConnectionID pa_StatelessResetToken ap_Addr ap_Port As4 As16 res_bind]. unfold cid_Len. rewrite Eb, El.
  set (im := b4 ++ be_put 2 p4 ++ b6 ++ be_put 2 p6 ++ [zlen cid] ++ cid ++ tok). assert (Hl : zlen im = 4 + 2 + 16 + 2 + 1 + zlen cid + 16) by (unfold im; rewrite !zlen_app, !be_put_zlen; change (zlen [_]) with 1; lia).
  split; [|split].
  - f_equal. unfold param_image. cbn [fst snd]. rewrite Hl, !hs_append_enc by (unfold vi_ok, paramPreferredAddress; lia). rewrite u8_small by (unfold is_byte; lia). unfold im. by rewrite <- !app_assoc.
  - unfold im. rewrite !bytes_ok_app. repeat split; try done; try apply be_put_ok. apply bytes_ok_cons. split; [unfold is_byte; lia|apply Forall_nil].
  - lia.
Qed.

Lemma value_step (c : bool) b id v : vi_ok id -> (c = true -> vi_ok v) -> (if c then appendVarintParam b id v else b) = b ++ image (when c (id, vi_enc v)).
Proof. intros Hi Hv. rewrite <- when_app. destruct c; [|done]. apply varint_param; auto. Qed.
Lemma bytes_step (c : bool) b id d : vi_ok id -> (c = true -> zlen d < 2 ^ 62) -> (if c then appendBytesParam b id d else b) = b ++ image (when c (id, d)).
Proof. intros Hi Hd. rewrite <- when_app. destruct c; [|done]. apply bytes_param; auto. Qed.

(** Rewrite the value of the outermost [let] of the left-hand side, and enter it. *)
Ltac next_let tac := match goal with |- (let b := ?X in @?K b) = ?R =>
  let H := fresh in eassert (H : X = _) by tac; change (K X = R); rewrite H; cbv beta; clear H end.

Lemma migration_step (c : bool) b : (if c then appendVarint (appendVarint b paramDisableActiveMigration) 0 else b) = b ++ image (when c (paramDisableActiveMigration, [])).
Proof. rewrite <- when_app. destruct c; [|done]. unfold param_image. cbn [fst snd]. rewrite !hs_append_enc by by vm_compute. by rewrite <- app_assoc, app_nil_r. Qed.

Lemma append_server_image p b pers : tp_wf p pers -> append_server p b = Ok (b ++ image (server_params p)).
Proof.
  intros Hw. unfold server_params. rewrite !image_app, !app_assoc.
  pose proof (cid_fine_bytes _ _ (w_orig _ _ Hw)) as Ho. pose proof (cid_fine_bytes _ _ (w_retry _ _ Hw)) as Hr. pose proof (w_token _ _ Hw) as Ht. pose proof (w_addr _ _ Hw) as Ha.
  cbv delta [append_server]. cbv beta. next_let ltac:(apply bytes_step; [by vm_compute|intros E; destruct (Ho E); lia]). 
  next_let ltac:(apply bytes_step; [by vm_compute|intros E; rewrite E in Ht; lia]).
  match goal with |- context [if HasPreferredAddress p then appendPreferredAddress p ?x else _] => assert (E : (if HasPreferredAddress p then appendPreferredAddress p x else Ok x) = Ok (x ++ image (when (HasPreferredAddress p) (paramPreferredAddress, address_image (PreferredAddress_ p))))) end.
  { destruct (HasPreferredAddress p) eqn:E; [rewrite <- (when_app true); by apply address_append|by rewrite app_nil_r]. }
  rewrite E. cbn [res_bind]. rewrite bytes_step; [done|by vm_compute|intros E'; destruct (Hr E'); lia].
Qed.

Lemma Append_image p b pers : tp_wf p pers -> Append p b pers = Ok (b ++ image (params p pers)).
Proof.
  intros Hw. unfold params, common_params. rewrite !image_app. cbv delta [Append]. cbv beta.
  assert (Es : (if bool_decide (pers = PerspectiveServer) then append_server p b else Ok b) = Ok (b ++ image (if bool_decide (pers = PerspectiveServer) then server_params p else []))).
  { destruct (bool_decide _); [by eapply append_server_image|by rewrite app_nil_r]. }
  rewrite Es. match goal with |- res_bind (Ok ?x) ?k = ?R => change (k x = R); cbv beta end. set (b0 := b ++ image _). rewrite (app_assoc b). fold b0. rewrite !app_assoc.
  pose proof (cid_fine_bytes _ _ (w_init _ _ Hw)) as Hi. assert (Hid : HasMaxIdleTimeout p && (MaxIdleTimeout p >? 0) = true -> vi_ok (Milliseconds (MaxIdleTimeout p))).
  { intros E. pose proof (w_idle _ _ Hw) as H. destruct (HasMaxIdleTimeout p); [|done]. destruct H as (ms & Hms & ->). rewrite (proj1 (millis ms ltac:(lia))). unfold vi_ok. lia. }
  destruct (w_delay _ _ Hw) as (ms & Hms & Ems). pose proof (proj1 (millis ms ltac:(lia))) as Em. assert (Hdl : vi_ok (Milliseconds (MaxAckDelay p))) by (rewrite Ems, Em; unfold vi_ok; lia).
  pose proof (w_udp _ _ Hw). pose proof (w_exp _ _ Hw). pose proof (w_limit _ _ Hw). pose proof (proj1 (w_dgram _ _ Hw)).
  next_let ltac:(apply bytes_step; [by vm_compute|intros E; destruct (Hi E); lia]).
  next_let ltac:(apply value_step; [by vm_compute|done]).
  do 7 (next_let ltac:(apply value_step; [by vm_compute|intros _; first [apply Hw|unfold vi_ok; lia]])).
  next_let ltac:(apply value_step; [by vm_compute|intros _; unfold vi_ok; lia]).
  next_let ltac:(apply value_step; [by vm_compute|done]).
  next_let ltac:(apply (migration_step (DisableActiveMigration p))).
  next_let ltac:(apply value_step; [by vm_compute|intros _; unfold vi_ok; lia]).
  next_let ltac:(apply value_step; [by vm_compute|done]). done.
Qed.

Lemma Forall_when (P : param -> Prop) c x : (c = true -> P x) -> Forall P (when c x).
Proof. destruct c; intros H; [|apply Forall_nil]. apply Forall_cons; [by apply H|apply Forall_nil]. Qed.
Lemma ids_when c x : map fst (when c x) `sublist_of` [fst x].
Proof. destruct c; [done|apply sublist_nil_l]. Qed.
Definition all_ids : list Z := [0x00; 0x02; 0x0d; 0x10; 0x0f; 0x01; 0x03; 0x04; 0x05; 0x06; 0x07; 0x08; 0x09; 0x0a; 0x0b; 0x0c; 0x0e; 0x20].
Lemma params_ids p pers : map fst (params p pers) `sublist_of` all_ids.
Proof.
  assert (Hs : map fst (server_params p) `sublist_of` [0x00; 0x02; 0x0d; 0x10]).
  { unfold server_params. rewrite !map_app. repeat (apply (sublist_app _ [_]); [apply ids_when|]). apply ids_when. }
  unfold params. rewrite map_app. change all_ids with ([0x00; 0x02; 0x0d; 0x10] ++ [0x0f; 0x01; 0x03; 0x04; 0x05; 0x06; 0x07; 0x08; 0x09; 0x0a; 0x0b; 0x0c; 0x0e; 0x20]). apply sublist_app.
  - destruct (bool_decide _); [done|apply sublist_nil_l].
  - unfold common_params. rewrite !map_app. repeat (apply (sublist_app _ [_]); [apply ids_when|]). apply ids_when.
Qed.
Lemma params_distinct p pers : NoDup (map fst (params p pers)) /\ Forall (fun x => 0 <= fst x < 64) (params p pers).
Proof.
  pose proof (params_ids p pers) as Hs. split.
  - eapply sublist_NoDup; [|exact Hs]. apply (bool_decide_unpack _). by vm_compute.
  - assert (Ha : Forall (fun x => 0 <= x < 64) all_ids) by (apply (bool_decide_unpack _); by vm_compute). rewrite <- (Forall_map fst (fun x => 0 <= x < 64)).
    rewrite Forall_forall in *. intros x Hx. apply Ha, list_elem_of_In. eapply elem_of_submseteq; [by apply list_elem_of_In|by apply sublist_submseteq].
Qed.
Lemma value_ok (c : bool) id v : vi_ok id -> param_ok (id, vi_enc v).
Proof. intros Hi. pose proof (vi_enc_zlen v). pose proof (vi_size_pos v). split; [done|]. split; [apply vi_enc_ok|]. cbn [snd]. lia. Qed.
Lemma params_ok p pers : tp_wf p pers -> Forall param_ok (params p pers).
Proof.
  intros Hw. pose proof (cid_fine_bytes _ _ (w_orig _ _ Hw)) as Ho. pose proof (cid_fine_bytes _ _ (w_retry _ _ Hw)) as Hr. pose proof (cid_fine_bytes _ _ (w_init _ _ Hw)) as Hi. pose proof (w_token _ _ Hw) as Ht. pose proof (w_addr _ _ Hw) as Ha.
  unfold params. apply Forall_app. split.
  - destruct (bool_decide _); [|apply Forall_nil]. unfold server_params. rewrite !Forall_app. repeat split; apply Forall_when; intros E; (split; [by vm_compute|]); cbn [snd].
    + destruct (Ho E) as (? & ? & _). split; [done|lia].
    + rewrite E in Ht. destruct Ht. split; [done|lia].
    + rewrite E in Ha. destruct (address_append p [] E Ha) as (_ & ? & ?). split; [done|lia].
    + destruct (Hr E) as (? & ? & _). split; [done|lia].
  - unfold common_params. rewrite !Forall_app. repeat split; apply Forall_when; intros E; try (by apply (value_ok true); vm_compute).
    + split; [by vm_compute|]. destruct (Hi E) as (? & ? & _). split; [done|cbn [snd]; lia].
    + split; [by vm_compute|]. split; [apply Forall_nil|by vm_compute].
Qed.

(** ** Reading them back *)
Lemma plain_when c id d rest p q by_ : (if c : bool then apply_param p by_ id d = Ok q else q = p) -> plain_params p (when c (id, d) ++ rest) by_ = plain_params q rest by_.
Proof. destruct c; cbn [when app plain_params]; [by intros ->|by intros ->]. Qed.
Lemma read_enc v ok set : vi_ok v -> ok v = true -> read_value (vi_enc v) ok set = Ok (set v).
Proof.
  intros Hv Ho. unfold read_value, readVarintExact. rewrite <- (app_nil_r (vi_enc v)) at 1. rewrite tp_varint_enc by (try done; apply Forall_nil). cbn [res_bind fst snd]. rewrite Z.eqb_refl. cbn [negb res_bind]. by rewrite Ho.
Qed.
Lemma address_back pa : (exists b4 p4 b6 p6 cid tok, address_fine pa b4 p4 b6 p6 cid tok) -> unmarshalPreferredAddress (address_image pa) = Ok pa.
Proof.
  intros (b4 & p4 & b6 & p6 & cid & tok & [-> (H4 & H4b & Hp4) (H6 & H6b & Hp6) (Hc & Hcb) (Ht & Htb)]). destruct (cid_bytes cid Hc) as [Eb El]. pose proof (zlen_nonneg cid).
  unfold address_image. cbn [pa_IPv4 pa_IPv6 pa_ConnectionID pa_StatelessResetToken ap_Addr ap_Port As4 As16 res_bind]. rewrite Eb, El. unfold unmarshalPreferredAddress.
  set (im := b4 ++ be_put 2 p4 ++ b6 ++ be_put 2 p6 ++ [zlen cid] ++ cid ++ tok). assert (Hl : zlen im = 41 + zlen cid) by (unfold im; rewrite !zlen_app, !be_put_zlen; change (zlen [_]) with 1; lia). rewrite Hl. test_false (41 + zlen cid <? 41).
  assert (Hm : forall a x c lo hi, im = a ++ x ++ c -> lo = zlen a -> hi = zlen a + zlen x -> @slice tp_error Z im lo hi = Ok x).
  { intros a x c lo hi -> -> ->. pose proof (zlen_nonneg a). pose proof (zlen_nonneg x). pose proof (zlen_nonneg c). unfold slice. rewrite !zlen_app. test_true ((0 <=? zlen a) && (zlen a <=? zlen a + zlen x) && (zlen a + zlen x <=? zlen a + (zlen x + zlen c))).
    rewrite zdrop_app. f_equal. apply ztake_app_eq. lia. }
  rewrite (Hm [] b4 (be_put 2 p4 ++ b6 ++ be_put 2 p6 ++ [zlen cid] ++ cid ++ tok)) by (try done; lia). cbn [res_bind].
  rewrite (Hm b4 (be_put 2 p4) (b6 ++ be_put 2 p6 ++ [zlen cid] ++ cid ++ tok)) by (rewrite ?be_put_zlen; try done; lia). cbn [res_bind].
  rewrite (Hm (b4 ++ be_put 2 p4) b6 (be_put 2 p6 ++ [zlen cid] ++ cid ++ tok)) by (rewrite ?zlen_app, ?be_put_zlen; try lia; unfold im; by rewrite <- ?app_assoc). cbn [res_bind].
  rewrite (Hm (b4 ++ be_put 2 p4 ++ b6) (be_put 2 p6) ([zlen cid] ++ cid ++ tok)) by (rewrite ?zlen_app, ?be_put_zlen; try lia; unfold im; by rewrite <- ?app_assoc). cbn [res_bind].
  assert (Ex : index (E := tp_error) im 24 = Ok (zlen cid)).
  { unfold index. rewrite Hl. test_true ((0 <=? 24) && (24 <? 41 + zlen cid)). f_equal. unfold znth, im. rewrite !app_assoc, <- (app_assoc _ cid), <- (app_assoc _ [_]). rewrite app_nth2; [|rewrite !length_app, !be_put_length; unfold zlen in *; lia].
    replace (_ - _)%nat with 0%nat; [done|]. rewrite !length_app, !be_put_length. unfold zlen in *. lia. }
  rewrite Ex. cbn [res_bind]. rewrite Z.eqb_refl. cbn [negb]. replace (zlen cid >? MaxConnectionIDLen) with false by (unfold MaxConnectionIDLen; lia).
  rewrite (Hm (b4 ++ be_put 2 p4 ++ b6 ++ be_put 2 p6 ++ [zlen cid]) cid tok) by (rewrite ?zlen_app, ?be_put_zlen; change (zlen [_]) with 1; try lia; unfold im; by rewrite <- ?app_assoc). cbn [res_bind].
  rewrite (Hm (b4 ++ be_put 2 p4 ++ b6 ++ be_put 2 p6 ++ [zlen cid] ++ cid) tok []) by (rewrite ?zlen_app, ?be_put_zlen; change (zlen [_]) with 1; try lia; unfold im; by rewrite ?app_nil_r, <- ?app_assoc). cbn [res_bind].
  rewrite !be_get_put. rewrite !Z.mod_small by (cbn; lia). done.
Qed.

(** What has been read after the first [n] parameters in the order they are sent. *)
Definition mix (n : nat) (p : TransportParameters) : TransportParameters :=
  let at_ {A} (k : nat) (x d : A) := if (k <? n)%nat then x else d in
  mkTP (at_ 0%nat (OriginalDestinationConnectionID p) zero_cid) (at_ 4%nat (InitialSourceConnectionID p) zero_cid) (at_ 3%nat (RetrySourceConnectionID p) zero_cid)
    (at_ 1%nat (StatelessResetToken p) (repeat 0 16)) (at_ 2%nat (PreferredAddress_ p) no_address)
    (at_ 5%nat (MaxIdleTimeout p) 0) (at_ 6%nat (MaxUDPPayloadSize p) defaultMaxUDPPayloadSize) (at_ 7%nat (InitialMaxData p) 0)
    (at_ 8%nat (InitialMaxStreamDataBidiLocal p) 0) (at_ 9%nat (InitialMaxStreamDataBidiRemote p) 0) (at_ 10%nat (InitialMaxStreamDataUni p) 0)
    (at_ 11%nat (InitialMaxStreamsBidi p) 0) (at_ 12%nat (InitialMaxStreamsUni p) 0) (at_ 13%nat (AckDelayExponent p) defaultAckDelayExponent)
    (at_ 14%nat (MaxAckDelay p) defaultMaxAckDelay) (at_ 16%nat (ActiveConnectionIDLimit p) defaultActiveConnectionIDLimit) (at_ 17%nat (MaxDatagramFrameSize p) 0)
    (at_ 15%nat (DisableActiveMigration p) false)
    (at_ 0%nat (HasOriginalDestinationConnectionID p) false) (at_ 4%nat (HasInitialSourceConnectionID p) false) (at_ 3%nat (HasRetrySourceConnectionID p) false)
    (at_ 1%nat (HasStatelessResetToken p) false) (at_ 2%nat (HasPreferredAddress p) false) (at_ 5%nat (HasMaxIdleTimeout p) false) (at_ 17%nat (HasMaxDatagramFrameSize p) false).

(** Find the case of [apply_param] for a known identifier. *)
Ltac decide_ids := repeat match goal with |- context [if ?a =? ?b then _ else _] =>
  let v := eval vm_compute in (a =? b) in change (a =? b) with v; cbv iota end.
Ltac enter_param := unfold apply_param; match goal with |- context [server_only ?i] => let v := eval vm_compute in (server_only i) in change (server_only i) with v end;
  rewrite ?andb_false_r, ?andb_true_r; decide_ids.

Lemma cid_back set has c : cid_fine has c -> has = true -> read_cid (cid_Bytes c) set = Ok (set c).
Proof. intros H E. destruct (cid_fine_bytes has c H E) as (Hl & _ & Ec). unfold read_cid, MaxConnectionIDLen. replace (zlen (cid_Bytes c) >? 20) with false by lia. by rewrite Ec. Qed.

Lemma server_back p rest : tp_wf p PerspectiveServer -> plain_params (mix 0 p) (server_params p ++ rest) PerspectiveServer = plain_params (mix 4 p) rest PerspectiveServer.
Proof.
  intros Hw. unfold server_params. rewrite <- !app_assoc.
  rewrite (plain_when _ _ _ _ _ (mix 1 p)). 2: { destruct (HasOriginalDestinationConnectionID p) eqn:E; pose proof (w_orig _ _ Hw) as H; rewrite E in H; [|unfold mix; cbn; by rewrite E, H]. enter_param. cbn [bool_decide]. rewrite (cid_back _ _ _ H eq_refl). unfold mix; cbn. by rewrite E. }
  rewrite (plain_when _ _ _ _ _ (mix 2 p)). 2: { destruct (HasStatelessResetToken p) eqn:E; pose proof (w_token _ _ Hw) as H; rewrite E in H; [|unfold mix; cbn; by rewrite E, H]. enter_param. rewrite (proj1 H). unfold mix; cbn. by rewrite E. }
  rewrite (plain_when _ _ _ _ _ (mix 3 p)). 2: { destruct (HasPreferredAddress p) eqn:E; pose proof (w_addr _ _ Hw) as H; rewrite E in H; [|unfold mix; cbn; by rewrite E, H]. enter_param. rewrite address_back by done. unfold mix; cbn. by rewrite E. }
  rewrite (plain_when _ _ _ _ _ (mix 4 p)). 2: { destruct (HasRetrySourceConnectionID p) eqn:E; pose proof (w_retry _ _ Hw) as H; rewrite E in H; [|unfold mix; cbn; by rewrite E, H]. enter_param. rewrite (cid_back _ _ _ H eq_refl). unfold mix; cbn. by rewrite E. }
  done.
Qed.
Lemma client_back p : tp_wf p PerspectiveClient -> mix 0 p = mix 4 p.
Proof.
  intros Hw. destruct (w_server _ _ Hw eq_refl) as (E1 & E2 & E3 & E4). pose proof (w_orig _ _ Hw) as H1. pose proof (w_token _ _ Hw) as H2. pose proof (w_addr _ _ Hw) as H3. pose proof (w_retry _ _ Hw) as H4. rewrite E1 in H1. rewrite E2 in H2. rewrite E3 in H3. rewrite E4 in H4.
  unfold mix. cbn. by rewrite E1, E2, E3, E4, H1, H2, H3, H4.
Qed.

(** One numeric parameter: it is read back, or it had its default. *)
Lemma value_back p pers rest (c : bool) id v k ok set :
  vi_ok v -> ok v = true -> apply_param (mix k p) pers id (vi_enc v) = read_value (vi_enc v) ok set -> set v = mix (S k) p -> (c = false -> mix (S k) p = mix k p) ->
  plain_params (mix k p) (when c (id, vi_enc v) ++ rest) pers = plain_params (mix (S k) p) rest pers.
Proof. intros Hv Ho Ea Es Hc. apply plain_when. destruct c; [|by apply Hc]. by rewrite Ea, read_enc, Es. Qed.

Lemma common_back p pers : tp_wf p pers -> plain_params (mix 4 p) (common_params p) pers = Ok (mix 18 p).
Proof.
  intros Hw. unfold common_params. rewrite <- (app_nil_r (when (HasMaxDatagramFrameSize p) _)).
  rewrite (plain_when _ _ _ _ _ (mix 5 p)). 2: { destruct (HasInitialSourceConnectionID p) eqn:E; pose proof (w_init _ _ Hw) as H; rewrite E in H; [|unfold mix; cbn; by rewrite E, H]. enter_param. rewrite (cid_back _ _ _ H eq_refl). unfold mix; cbn. by rewrite E. }
  rewrite (plain_when _ _ _ _ _ (mix 6 p)).
  2: { pose proof (w_idle _ _ Hw) as H. destruct (HasMaxIdleTimeout p) eqn:E; cbn [andb]; [|unfold mix; cbn; by rewrite E, H]. destruct H as (ms & Hms & E1). destruct (millis ms ltac:(lia)) as [Em Eo].
    rewrite E1, Em. replace (ms * Millisecond >? 0) with true by (unfold Millisecond; lia). enter_param. rewrite read_enc by (unfold vi_ok; try done; lia). rewrite Eo. unfold mix; cbn. by rewrite E, E1. }
  rewrite (value_back p pers _ _ _ _ 6 (fun v => negb (v <? 1200)) (fun v => { mix 6 p with MaxUDPPayloadSize := v }));
    [|pose proof (w_udp _ _ Hw); unfold vi_ok; lia|pose proof (w_udp _ _ Hw); bool_simpl; lia|by enter_param|done|
      intros E; pose proof (w_udp _ _ Hw); destruct (MaxUDPPayloadSize p =? 0) eqn:E0; bool_simpl; [lia|]; cbn [negb andb] in E; bool_simpl; unfold mix; cbn; by rewrite E].
  rewrite (value_back p pers _ _ _ _ 7 any_value (fun v => { mix 7 p with InitialMaxData := v })); [|apply Hw|done|by enter_param|done|intros E; bool_simpl; pose proof (w_data _ _ Hw) as H; unfold vi_ok in H; unfold mix; cbn; by replace (InitialMaxData p) with 0 by lia].
  rewrite (value_back p pers _ _ _ _ 8 any_value (fun v => { mix 8 p with InitialMaxStreamDataBidiLocal := v })); [|apply Hw|done|by enter_param|done|intros E; bool_simpl; pose proof (w_local _ _ Hw) as H; unfold vi_ok in H; unfold mix; cbn; by replace (InitialMaxStreamDataBidiLocal p) with 0 by lia].
  rewrite (value_back p pers _ _ _ _ 9 any_value (fun v => { mix 9 p with InitialMaxStreamDataBidiRemote := v })); [|apply Hw|done|by enter_param|done|intros E; bool_simpl; pose proof (w_remote _ _ Hw) as H; unfold vi_ok in H; unfold mix; cbn; by replace (InitialMaxStreamDataBidiRemote p) with 0 by lia].
  rewrite (value_back p pers _ _ _ _ 10 any_value (fun v => { mix 10 p with InitialMaxStreamDataUni := v })); [|apply Hw|done|by enter_param|done|intros E; bool_simpl; pose proof (w_uni _ _ Hw) as H; unfold vi_ok in H; unfold mix; cbn; by replace (InitialMaxStreamDataUni p) with 0 by lia].
  rewrite (value_back p pers _ _ _ _ 11 any_value (fun v => { mix 11 p with InitialMaxStreamsBidi := v })); [|apply Hw|done|by enter_param|done|intros E; bool_simpl; pose proof (w_sbidi _ _ Hw) as H; unfold vi_ok in H; unfold mix; cbn; by replace (InitialMaxStreamsBidi p) with 0 by lia].
  rewrite (value_back p pers _ _ _ _ 12 any_value (fun v => { mix 12 p with InitialMaxStreamsUni := v })); [|apply Hw|done|by enter_param|done|intros E; bool_simpl; pose proof (w_suni _ _ Hw) as H; unfold vi_ok in H; unfold mix; cbn; by replace (InitialMaxStreamsUni p) with 0 by lia].
  pose proof (w_exp _ _ Hw) as He. destruct (w_delay _ _ Hw) as (ms & Hms & Ems). destruct (millis ms ltac:(lia)) as [Em Eo]. pose proof (w_limit _ _ Hw) as Hl. destruct (w_dgram _ _ Hw) as [Hd Hd0].
  rewrite (value_back p pers _ _ _ _ 13 (fun v => negb (v >? 20)) (fun v => { mix 13 p with AckDelayExponent := u8 v })); [|unfold vi_ok; lia|bool_simpl; lia|by enter_param|rewrite u8_small by (unfold is_byte; lia); done|
    intros E; destruct (AckDelayExponent p =? 0) eqn:E0; bool_simpl; [lia|]; rewrite andb_true_r in E; bool_simpl; unfold mix; cbn; by rewrite E].
  rewrite (value_back p pers _ _ _ _ 14 (fun v => negb (v >=? Z.shiftl 1 14)) (fun v => { mix 14 p with MaxAckDelay := of_millis v })); [|rewrite Ems, Em; unfold vi_ok; lia|rewrite Ems, Em; change (Z.shiftl 1 14) with (2 ^ 14); bool_simpl; lia|by enter_param|rewrite Ems, Em, Eo, <- Ems; done|
    intros E; destruct (MaxAckDelay p >? 0) eqn:E0; bool_simpl; [|rewrite Ems in E0; unfold Millisecond in E0; lia]; rewrite andb_true_r in E; bool_simpl; unfold mix; cbn; by rewrite E].
  rewrite (plain_when _ _ _ _ _ (mix 16 p)). 2: { destruct (DisableActiveMigration p) eqn:E; [|unfold mix; cbn; by rewrite E]. enter_param. unfold mix; cbn. by rewrite E. }
  rewrite (value_back p pers _ _ _ _ 16 (fun v => negb (v <? 2)) (fun v => { mix 16 p with ActiveConnectionIDLimit := v })); [|unfold vi_ok; lia|bool_simpl; lia|by enter_param|done|
    intros E; destruct (ActiveConnectionIDLimit p =? 0) eqn:E0; bool_simpl; [lia|]; rewrite andb_true_r in E; bool_simpl; unfold mix; cbn; by rewrite E].
  rewrite (plain_when _ _ _ _ _ (mix 18 p)). 2: { destruct (HasMaxDatagramFrameSize p) eqn:E; [|unfold mix; cbn; rewrite E; by rewrite Hd0]. enter_param. rewrite read_enc by done. unfold mix; cbn. by rewrite E. }
  done.
Qed.

Lemma params_back p pers : tp_wf p pers -> Unmarshal (image (params p pers)) pers = Ok p.
Proof.
  intros Hw. unfold Unmarshal. rewrite loop_params by (try lia; by apply params_ok). destruct (params_distinct p pers) as [Hn Hr]. rewrite read_plain; [|done|done|apply Forall_forall; intros x _; apply Z.bits_0].
  change DefaultTransportParameters with (mix 0 p). unfold params. destruct pers.
  - rewrite bool_decide_eq_false_2 by done. cbn [app]. rewrite (client_back p Hw). by rewrite common_back.
  - rewrite bool_decide_eq_true_2 by done. rewrite server_back by done. by rewrite common_back.
Qed.

(** ** Reading anything *)
Record tp_valid (sentBy : Perspective) (p : TransportParameters) : Prop := {
  v_udp : 1200 <= MaxUDPPayloadSize p < 2 ^ 62;
  v_exp : 0 <= AckDelayExponent p <= 20;
  v_delay : 0 <= MaxAckDelay p < 2 ^ 14 * Millisecond;
  v_limit : 2 <= ActiveConnectionIDLimit p < 2 ^ 62;
  v_values : Forall vi_ok [InitialMaxData p; InitialMaxStreamDataBidiLocal p; InitialMaxStreamDataBidiRemote p; InitialMaxStreamDataUni p;
    InitialMaxStreamsBidi p; InitialMaxStreamsUni p; MaxDatagramFrameSize p];
  v_cids : Forall (fun c => 0 <= cid_len c <= 20 /\ zlen (cid_buf c) = 20) [OriginalDestinationConnectionID p; InitialSourceConnectionID p; RetrySourceConnectionID p];
  v_token : zlen (StatelessResetToken p) = 16;
  v_server : sentBy = PerspectiveClient ->
    HasOriginalDestinationConnectionID p = false /\ HasStatelessResetToken p = false /\ HasPreferredAddress p = false /\ HasRetrySourceConnectionID p = false
}.
Definition tp_yields {A} (r : res tp_error A) (P : A -> Prop) : Prop := match r with Ok a => P a | Err _ => True | Panic => False end.
Lemma tp_bind {A B} (m : res tp_error A) (k : A -> res tp_error B) P Q : tp_yields m P -> (forall a, P a -> tp_yields (k a) Q) -> tp_yields (res_bind m k) Q.
Proof. destruct m; cbn; auto. Qed.

Lemma varint_any data : bytes_ok data -> tp_yields (tp_varint data) (fun r => vi_ok (fst r) /\ 1 <= snd r <= 8 /\ snd r <= zlen data).
Proof.
  intros Hb. unfold tp_varint. rewrite readVarint_vi_dec by done. destruct (vi_dec _ data) as [[v n]| |] eqn:E; cbn; [by eapply vi_dec_range|done|]. unfold vi_dec in E. destruct data; [done|]. by destruct (_ <? _) in E.
Qed.
Lemma slice_any (b : bytes) lo hi : 0 <= lo -> lo <= hi -> hi <= zlen b -> bytes_ok b -> tp_yields (slice b lo hi) (fun x => zlen x = hi - lo /\ bytes_ok x).
Proof.
  intros. unfold slice. test_true ((0 <=? lo) && (lo <=? hi) && (hi <=? zlen b)). cbn. split; [|by apply bytes_ok_ztake, bytes_ok_zdrop]. rewrite zlen_ztake; [done|]. rewrite zlen_zdrop; lia.
Qed.
Lemma value_any data ok set Q : bytes_ok data -> (forall v, vi_ok v -> ok v = true -> Q (set v)) -> tp_yields (read_value data ok set) Q.
Proof.
  intros Hb HQ. unfold read_value, readVarintExact. apply (tp_bind _ _ vi_ok).
  - eapply tp_bind; [by apply varint_any|]. intros r (Hr & _). by destruct (negb _).
  - intros v Hv. destruct (ok v) eqn:E; [by apply HQ|done].
Qed.
Lemma cid_any b : zlen b <= 20 -> 0 <= cid_len (NewConnectionID b) <= 20 /\ zlen (cid_buf (NewConnectionID b)) = 20.
Proof.
  intros H. pose proof (zlen_nonneg b). unfold NewConnectionID, MaxConnectionIDLen. replace (Z.min (zlen b) 20) with (zlen b) by lia.
  split; [exact (conj (zlen_nonneg b) H)|]. assert (H20 : zlen (cid_buf zero_cid) = 20) by done. change (zlen (ztake (zlen b) b ++ zdrop (zlen b) (cid_buf zero_cid)) = 20).
  rewrite zlen_app, (ztake_all b), zlen_zdrop; lia.
Qed.
Lemma address_any data : bytes_ok data -> tp_yields (unmarshalPreferredAddress data) (fun _ => True).
Proof.
  intros Hb. unfold unmarshalPreferredAddress. destruct (_ <? 41) eqn:E; [done|]. bool_simpl. do 4 (eapply tp_bind; [apply slice_any; [lia..|done]|]; intros ? _).
  apply (tp_bind _ _ is_byte). { unfold index. test_true ((0 <=? 24) && (24 <? zlen data)). apply znth_byte; [done|lia]. }
  intros n Hn. unfold is_byte in Hn. destruct (negb _) eqn:E1; [done|]. bool_simpl. destruct (_ >? _) eqn:E2; [done|]. bool_simpl. do 2 (eapply tp_bind; [apply slice_any; [lia..|done]|]; intros ? _). done.
Qed.

(** The fields that did not change keep their ranges. *)
Ltac keep_valid := split; first [done | eassumption | match goal with H : forall _ _ _, _ |- Forall _ _ => by apply H | H : forall _ _ _ _ _ _ _, _ |- Forall _ _ => by apply H end
    | match goal with Hg : _ -> _ -> False |- _ => intros X; exfalso; apply Hg; [by vm_compute|exact X] end ].
Ltac next_id := match goal with |- context [if ?a =? ?b then _ else _] => destruct (a =? b) end.

Lemma apply_any p sentBy id data : bytes_ok data -> tp_valid sentBy p -> tp_yields (apply_param p sentBy id data) (tp_valid sentBy).
Proof.
  intros Hb Hp. pose proof Hp as [Hu He Hd Hl Hv Hc Ht Hs]. unfold apply_param. destruct (bool_decide (sentBy = PerspectiveClient) && server_only id) eqn:Eg; [done|].
  assert (Hg : server_only id = true -> sentBy = PerspectiveClient -> False) by (intros E1 ->; by rewrite E1, bool_decide_eq_true_2 in Eg).
  assert (Hcid : forall set, (forall c, 0 <= cid_len c <= 20 /\ zlen (cid_buf c) = 20 -> tp_valid sentBy (set c)) -> tp_yields (read_cid data set) (tp_valid sentBy)).
  { intros set H. unfold read_cid, MaxConnectionIDLen. destruct (_ >? 20) eqn:E; [done|]. bool_simpl. cbn. by apply H, cid_any. }
  apply Forall_cons_1 in Hc as [Hc1 Hc]. apply Forall_cons_1 in Hc as [Hc2 Hc]. apply Forall_cons_1 in Hc as [Hc3 _].
  repeat (apply Forall_cons_1 in Hv as [? Hv]). clear Hv.
  assert (HF : forall a b c d e f g, vi_ok a -> vi_ok b -> vi_ok c -> vi_ok d -> vi_ok e -> vi_ok f -> vi_ok g -> Forall vi_ok [a; b; c; d; e; f; g]) by (intros; by repeat (apply Forall_cons; [done|])).
  assert (HC : forall a b c, 0 <= cid_len a <= 20 /\ zlen (cid_buf a) = 20 -> 0 <= cid_len b <= 20 /\ zlen (cid_buf b) = 20 -> 0 <= cid_len c <= 20 /\ zlen (cid_buf c) = 20 ->
    Forall (fun c => 0 <= cid_len c <= 20 /\ zlen (cid_buf c) = 20) [a; b; c]) by (intros; by repeat (apply Forall_cons; [done|])).
  destruct (id =? paramOriginalDestinationConnectionID) eqn:E0; [bool_simpl; subst id; apply Hcid; intros c Hc0; keep_valid|].
  destruct (id =? paramInitialSourceConnectionID); [apply Hcid; intros c Hc0; keep_valid|].
  destruct (id =? paramRetrySourceConnectionID) eqn:E1; [bool_simpl; subst id; apply Hcid; intros c Hc0; keep_valid|].
  destruct (id =? paramStatelessResetToken) eqn:E2; [bool_simpl; subst id; destruct (negb _) eqn:E; [done|]; bool_simpl; keep_valid|].
  do 1 (next_id; [apply value_any; [done|]; intros v Hvv Hok; keep_valid|]).
  next_id; [apply value_any; [done|]; intros v Hvv Hok; bool_simpl; assert (1200 <= v < 2 ^ 62) by (unfold vi_ok in Hvv; lia); keep_valid|].
  do 6 (next_id; [apply value_any; [done|]; intros v Hvv Hok; keep_valid|]).
  next_id; [apply value_any; [done|]; intros v Hvv Hok; bool_simpl; assert (0 <= u8 v <= 20) by (unfold vi_ok in Hvv; rewrite u8_small by (unfold is_byte; lia); lia); keep_valid|].
  next_id; [apply value_any; [done|]; intros v Hvv Hok; change (Z.shiftl 1 14) with (2 ^ 14) in Hok; bool_simpl; unfold vi_ok in Hvv; assert (0 <= of_millis v < 2 ^ 14 * Millisecond) by (rewrite (proj2 (millis v ltac:(lia))); unfold Millisecond; lia); keep_valid|].
  next_id; [destruct (negb _); [done|]; keep_valid|].
  next_id; [apply value_any; [done|]; intros v Hvv Hok; bool_simpl; assert (2 <= v < 2 ^ 62) by (unfold vi_ok in Hvv; lia); keep_valid|].
  destruct (id =? paramPreferredAddress) eqn:E3; [bool_simpl; subst id; eapply tp_bind; [by apply address_any|]; intros a _; keep_valid|].
  next_id; [apply value_any; [done|]; intros v Hvv Hok; keep_valid|]. done.
Qed.

Lemma default_valid sentBy : tp_valid sentBy DefaultTransportParameters.
Proof.
  assert (Hc : 0 <= cid_len zero_cid <= 20 /\ zlen (cid_buf zero_cid) = 20) by (split; [split; discriminate|reflexivity]). assert (H0 : vi_ok 0) by (unfold vi_ok; lia).
  split.
  - change (1200 <= 65527 < 2 ^ 62). lia.
  - change (0 <= 3 <= 20). lia.
  - change (0 <= 25 * 1000000 < 2 ^ 14 * 1000000). lia.
  - change (2 <= 2 < 2 ^ 62). lia.
  - change (Forall vi_ok [0; 0; 0; 0; 0; 0; 0]). by repeat (apply Forall_cons; [done|]).
  - change (Forall (fun c => 0 <= cid_len c <= 20 /\ zlen (cid_buf c) = 20) [zero_cid; zero_cid; zero_cid]). by repeat (apply Forall_cons; [done|]).
  - reflexivity.
  - intros _. repeat split.
Qed.

Lemma next_any p mask ext data sentBy : bytes_ok data -> tp_valid sentBy p ->
  tp_yields (next_param p mask ext data sentBy) (fun r => let '(q, _, _, rest) := r in tp_valid sentBy q /\ bytes_ok rest /\ (List.length rest < List.length data)%nat).
Proof.
  intros Hb Hp. unfold next_param. eapply tp_bind; [by apply varint_any|]. intros [id n] (_ & Hn & Hnl). cbn [fst snd] in *. eapply tp_bind; [apply slice_any; [lia..|done]|]. intros d1 [Hl1 Hb1].
  destruct (note_id mask ext id) as [[mask' ext']|]; [|done]. eapply tp_bind; [by apply varint_any|]. intros [len k] (Hv & Hk & Hkl). unfold vi_ok in Hv. cbn [fst snd] in *. eapply tp_bind; [apply slice_any; [lia..|done]|]. intros d2 [Hl2 Hb2].
  destruct (_ <? _) eqn:E; [done|]. bool_simpl. eapply tp_bind; [apply slice_any; [lia..|done]|]. intros pd [_ Hpd]. eapply tp_bind; [apply slice_any; [lia..|done]|]. intros d3 [Hl3 Hb3]. eapply tp_bind; [by apply apply_any|].
  intros q Hq. cbn. split; [done|]. split; [done|]. unfold zlen in *. lia.
Qed.
Lemma loop_any sentBy : forall fuel p mask ext data, bytes_ok data -> (List.length data < fuel)%nat -> tp_valid sentBy p ->
  tp_yields (Unmarshal_loop fuel p mask ext data sentBy) (tp_valid sentBy)
  /\ forall fuel', (List.length data < fuel')%nat -> Unmarshal_loop fuel' p mask ext data sentBy = Unmarshal_loop fuel p mask ext data sentBy.
Proof.
  induction fuel as [|fuel IH]; intros p mask ext data Hb Hf Hp; [lia|]. cbn [Unmarshal_loop]. pose proof (next_any p mask ext data sentBy Hb Hp) as Hn.
  destruct (next_param p mask ext data sentBy) as [[[[q m] e] rest]| |] eqn:En; cbn [res_bind].
  - destruct Hn as (Hq & Hr & Hl). destruct (IH q m e rest Hr ltac:(lia) Hq) as [H1 H2]. split; [by destruct (_ >? _)|]. intros [|f'] Hf'; [lia|]. cbn [Unmarshal_loop]. rewrite En. cbn [res_bind]. destruct (_ >? _); [|done]. apply H2. lia.
  - split; [by destruct (_ >? _)|]. intros [|f'] Hf'; [lia|]. cbn [Unmarshal_loop]. by rewrite En.
  - done.
Qed.

(** A bit of the mask that is set makes its identifier a duplicate. *)
Lemma read_dup sentBy id d l : forall p mask ext, 0 <= id < 64 -> Z.testbit mask id = true -> (id, d) ∈ l -> forall q, read_params p mask ext l sentBy <> Ok q.
Proof.
  induction l as [|[i x] l IH]; intros p mask ext Hi Ht Hin q; [by apply not_elem_of_nil in Hin|]. cbn [read_params]. apply elem_of_cons in Hin as [[= <- <-]|Hin]; [by rewrite note_again|].
  destruct (note_id mask ext i) as [[mask' ext']|] eqn:En; [|done]. assert (Ht' : Z.testbit mask' id = true).
  { unfold note_id in En. destruct (i <? 64); [destruct (negb _); [done|]|destruct (existsb _ _); [done|]]; injection En as <- _; [|done]. by rewrite Z.lor_spec, Ht. }
  destruct (apply_param p sentBy i x); [|done..]. cbn [res_bind]. by apply IH.
Qed.
Lemma read_twice sentBy id d d' l2 : forall l1 p mask ext, 0 <= id < 64 -> (id, d') ∈ l2 -> forall q, read_params p mask ext (l1 ++ (id, d) :: l2) sentBy <> Ok q.
Proof.
  induction l1 as [|[i x] l1 IH]; intros p mask ext Hi Hin q; cbn [app read_params].
  - destruct (Z.testbit mask id) eqn:Et; [by rewrite note_again|]. rewrite note_fresh by done. destruct (apply_param p sentBy id d); [|done..]. cbn [res_bind]. apply (read_dup _ id d'); [done| |done]. by rewrite Z.lor_spec, Z.pow2_bits_true, orb_true_r by lia.
  - destruct (note_id mask ext i) as [[mask' ext']|]; [|done]. destruct (apply_param p sentBy i x); [|done..]. cbn [res_bind]. by apply IH.
Qed.

Lemma transport_total data sentBy : bytes_ok data -> tp_yields (Unmarshal data sentBy) (tp_valid sentBy)
  /\ (forall fuel, (List.length data < fuel)%nat -> Unmarshal_loop fuel DefaultTransportParameters 0 [] data sentBy = Unmarshal data sentBy).
Proof. intros Hb. unfold Unmarshal. apply loop_any; [done|lia|apply default_valid]. Qed.

(** ** Theorems *)

Definition sample_params : TransportParameters :=
  { DefaultTransportParameters with OriginalDestinationConnectionID := NewConnectionID [1; 2; 3]; HasOriginalDestinationConnectionID := true;
    MaxIdleTimeout := 30000 * Millisecond; HasMaxIdleTimeout := true; InitialMaxData := 1048576; DisableActiveMigration := true;
    PreferredAddress_ := mkPreferred (mkAddrPort (Addr4 [10; 0; 0; 1]) 443) (mkAddrPort (Addr6 (repeat 1 16)) 8443) (NewConnectionID [9]) (repeat 7 16); HasPreferredAddress := true }.
Lemma sample_params_wf : tp_wf sample_params PerspectiveServer.
Proof.
  assert (Hb : forall l, bool_decide (bytes_ok l) = true -> bytes_ok l) by (intros l; apply bool_decide_eq_true_1). assert (H0 : vi_ok 0) by (unfold vi_ok; lia).
  split; try exact H0.
  - discriminate.
  - exists [1; 2; 3]. split; [reflexivity|]. split; [discriminate|by apply Hb].
  - reflexivity.
  - reflexivity.
  - reflexivity.
  - exists [10; 0; 0; 1], 443, (repeat 1 16), 8443, [9], (repeat 7 16). split; [reflexivity|..].
    + split; [reflexivity|split; [by apply Hb|lia]].
    + split; [reflexivity|split; [by apply Hb|lia]].
    + split; [discriminate|by apply Hb].
    + split; [reflexivity|by apply Hb].
  - exists 30000. split; [lia|reflexivity].
  - change (1200 <= 65527 < 2 ^ 62). lia.
  - change (vi_ok 1048576). unfold vi_ok. lia.
  - change (1 <= 3 <= 20). lia.
  - exists 25. split; [lia|reflexivity].
  - split; [exact H0|reflexivity].
Qed.

(** [Unmarshal] returns on every input without panic, whatever the fuel beyond
    the length of the data; what it accepts is in range: payload size, exponent,
    delay, identifier limit and lengths, and nothing a client must not send. *)
Theorem transport_parameters_total (data : bytes) (sentBy : Perspective) :
  bytes_ok data ->
  tp_yields (Unmarshal data sentBy) (tp_valid sentBy)
  /\ (forall fuel, (List.length data < fuel)%nat -> Unmarshal_loop fuel DefaultTransportParameters 0 [] data sentBy = Unmarshal data sentBy).
Proof. apply transport_total. Qed.
Lemma transport_parameters_total_witness : tp_yields (Unmarshal [0x0a; 1; 21] PerspectiveClient) (tp_valid PerspectiveClient) /\ Unmarshal [0x0a; 1; 21] PerspectiveClient = Err TransportParameterError.
Proof.
  assert (Hb : bytes_ok [0x0a; 1; 21]) by (apply (bool_decide_unpack _); by vm_compute).
  split; [exact (proj1 (transport_parameters_total [0x0a; 1; 21] PerspectiveClient Hb))|reflexivity].
Defined.

(** A parameter with an identifier below 64 that occurs twice is an error, wherever
    the two are and whatever their values. *)
Theorem transport_parameters_no_duplicates (l1 l2 : list param) (id : Z) (d d' : bytes) (sentBy : Perspective) :
  0 <= id < 64 -> Forall param_ok (l1 ++ (id, d) :: l2) -> (id, d') ∈ l2 ->
  Unmarshal (image (l1 ++ (id, d) :: l2)) sentBy = Err TransportParameterError.
Proof.
  intros Hi Hl Hin. destruct (Unmarshal (image (l1 ++ (id, d) :: l2)) sentBy) as [q|[]|] eqn:E; [|done|].
  - unfold Unmarshal in E. rewrite loop_params in E by (try done; lia). exfalso. by apply (read_twice sentBy id d d' l2 l1 _ _ _ Hi Hin q E).
  - pose proof (proj1 (transport_total _ sentBy (params_image_ok _ Hl))) as Ht. by rewrite E in Ht.
Qed.
Lemma transport_parameters_no_duplicates_witness : Unmarshal [4; 1; 5; 4; 1; 6] PerspectiveClient = Err TransportParameterError.
Proof.
  assert (Hl : Forall param_ok [(4, [5]); (4, [6])]).
  { assert (Hb : forall l, bool_decide (bytes_ok l) = true -> bytes_ok l) by (intros l; apply bool_decide_eq_true_1). apply Forall_cons; [|apply Forall_cons; [|apply Forall_nil]]; (split; [by vm_compute|split; [by apply Hb|by vm_compute]]). }
  refine (transport_parameters_no_duplicates [] [(4, [6])] 4 [5] [6] PerspectiveClient _ Hl _); [lia|apply elem_of_cons; by left].
Defined.

(** Values that mean something are taken for "not set": an exponent of zero and a
    maximum delay of zero are not sent, and the peer uses 3 and 25 ms. *)
Theorem zero_exponent_lost :
  let p := { DefaultTransportParameters with AckDelayExponent := 0; MaxAckDelay := 0 } in
  match Marshal p PerspectiveClient with
  | Ok enc => match Unmarshal enc PerspectiveClient with Ok q => AckDelayExponent q = 3 /\ MaxAckDelay q = 25 * Millisecond | _ => False end
  | _ => False
  end.
Proof. vm_compute. done. Qed.

(** A large idle timeout overflows the nanoseconds and becomes negative. *)
Theorem idle_timeout_overflows :
  match Unmarshal (image [(paramMaxIdleTimeout, vi_enc (2 ^ 62 - 1))]) PerspectiveClient with
  | Ok p => MaxIdleTimeout p = - Millisecond
  | _ => False
  end.
Proof. vm_compute. reflexivity. Qed.

(** More than 2^60 streams are accepted, which RFC 9000 section 4.6 makes an error. *)
Theorem too_many_streams_accepted :
  match Unmarshal (image [(paramInitialMaxStreamsBidi, vi_enc (2 ^ 60 + 1))]) PerspectiveClient with
  | Ok p => InitialMaxStreamsBidi p = 2 ^ 60 + 1
  | _ => False
  end.
Proof. vm_compute. reflexivity. Qed.

(** The ninth large identifier is not remembered: repeating it goes unnoticed. *)
Theorem ninth_duplicate_accepted :
  Unmarshal (image (map (fun id => (id, [])) [64; 65; 66; 67; 68; 69; 70; 71; 72; 72])) PerspectiveClient = Ok DefaultTransportParameters.
Proof. vm_compute. reflexivity. Qed.

(** A preferred address with only an IPv6 address makes [Append] panic. *)
Theorem ipv6_preferred_address_panics (b : bytes) :
  let pa := mkPreferred (mkAddrPort AddrNone 0) (mkAddrPort (Addr6 (repeat 1 16)) 443) (NewConnectionID [9]) (repeat 7 16) in
  Append { DefaultTransportParameters with PreferredAddress_ := pa; HasPreferredAddress := true } b PerspectiveServer = Panic.
Proof. reflexivity. Qed.
