(* ===== verification/QpackBase.v ===== *)
(** * QPACK: fields, indices, counts and integers

    Models the small files of [src/proto/codec/qpack]: header fields and entries
    ([header.go], [entry.go]), the static table and its lookup maps ([tables.go]), the
    conversions between absolute and relative indices ([index_conversions.go]), the
    coding of the Required Insert Count ([required_insert_count.go]) and the prefix
    integers of [varint.go].  Strings are lists of bytes.

    The theorems: conversions are inverse to each other, a Required Insert Count is
    recovered exactly within the window in which an encoder may choose it, and
    integers round-trip. *)

From Stdlib Require Import Ascii String.
From stdpp Require Import gmap.
From S2P Require Import Prelude HpackInt.
Open Scope Z_scope.

(** ** Fields and entries *)
Record HeaderField := mkHF { Name : bytes; Value : bytes }.
#[export] Instance HeaderField_eq_dec : EqDecision HeaderField.
Proof. solve_decision. Defined.
#[export] Instance HeaderField_countable : Countable HeaderField.
Proof. refine (inj_countable' (fun h => (Name h, Value h)) (fun '(n, v) => mkHF n v) _). by intros []. Defined.

Definition IsPseudo (hf : HeaderField) : bool := match Name hf with c :: _ => c =? 58 | [] => false end.

(** [Entry] has the fields of [HeaderField]; the code converts between them. *)
Abbreviation Entry := HeaderField.
Definition EntrySizeOverhead : Z := 32.
Definition NewEntry (name value : bytes) : Entry := mkHF name value.
Definition EntrySize (name value : bytes) : Z := u64 (zlen name + zlen value + EntrySizeOverhead).
Definition Entry_Size (e : Entry) : Z := u64 (zlen (Name e) + zlen (Value e) + EntrySizeOverhead).

(** ** The static table *)
Definition static_strings : list (string * string) := [
  (":authority", "");
  (":path", "/");
  ("age", "0");
  ("content-disposition", "");
  ("content-length", "0");
  ("cookie", "");
  ("date", "");
  ("etag", "");
  ("if-modified-since", "");
  ("if-none-match", "");
  ("last-modified", "");
  ("link", "");
  ("location", "");
  ("referer", "");
  ("set-cookie", "");
  (":method", "CONNECT");
  (":method", "DELETE");
  (":method", "GET");
  (":method", "HEAD");
  (":method", "OPTIONS");
  (":method", "POST");
  (":method", "PUT");
  (":scheme", "http");
  (":scheme", "https");
  (":status", "103");
  (":status", "200");
  (":status", "304");
  (":status", "404");
  (":status", "503");
  ("accept", "*/*");
  ("accept", "application/dns-message");
  ("accept-encoding", "gzip, deflate, br");
  ("accept-ranges", "bytes");
  ("access-control-allow-headers", "cache-control");
  ("access-control-allow-headers", "content-type");
  ("access-control-allow-origin", "*");
  ("cache-control", "max-age=0");
  ("cache-control", "max-age=2592000");
  ("cache-control", "max-age=604800");
  ("cache-control", "no-cache");
  ("cache-control", "no-store");
  ("cache-control", "public, max-age=31536000");
  ("content-encoding", "br");
  ("content-encoding", "gzip");
  ("content-type", "application/dns-message");
  ("content-type", "application/javascript");
  ("content-type", "application/json");
  ("content-type", "application/x-www-form-urlencoded");
  ("content-type", "image/gif");
  ("content-type", "image/jpeg");
  ("content-type", "image/png");
  ("content-type", "text/css");
  ("content-type", "text/html; charset=utf-8");
  ("content-type", "text/plain");
  ("content-type", "text/plain;charset=utf-8");
  ("range", "bytes=0-");
  ("strict-transport-security", "max-age=31536000");
  ("strict-transport-security", "max-age=31536000; includesubdomains");
  ("strict-transport-security", "max-age=31536000; includesubdomains; preload");
  ("vary", "accept-encoding");
  ("vary", "origin");
  ("x-content-type-options", "nosniff");
  ("x-xss-protection", "1; mode=block");
  (":status", "100");
  (":status", "204");
  (":status", "206");
  (":status", "302");
  (":status", "400");
  (":status", "403");
  (":status", "421");
  (":status", "425");
  (":status", "500");
  ("accept-language", "");
  ("access-control-allow-credentials", "FALSE");
  ("access-control-allow-credentials", "TRUE");
  ("access-control-allow-headers", "*");
  ("access-control-allow-methods", "get");
  ("access-control-allow-methods", "get, post, options");
  ("access-control-allow-methods", "options");
  ("access-control-expose-headers", "content-length");
  ("access-control-request-headers", "content-type");
  ("access-control-request-method", "get");
  ("access-control-request-method", "post");
  ("alt-svc", "clear");
  ("authorization", "");
  ("content-security-policy", "script-src 'none'; object-src 'none'; base-uri 'none';");
  ("early-data", "1");
  ("expect-ct", "");
  ("forwarded", "");
  ("if-range", "");
  ("origin", "");
  ("purpose", "prefetch");
  ("server", "");
  ("timing-allow-origin", "*");
  ("upgrade-insecure-requests", "1");
  ("user-agent", "");
  ("x-forwarded-for", "");
  ("x-frame-options", "deny");
  ("x-frame-options", "sameorigin")
]%string.
Definition staticTable : list HeaderField :=
  Eval vm_compute in map (fun x => mkHF (bytes_of_string (fst x)) (bytes_of_string (snd x))) static_strings.

(** The maps [init] fills: the first index of a name and of a field. *)
Fixpoint fill {K} `{Countable K} (key : HeaderField -> K) (i : Z) (l : list HeaderField) (m : gmap K Z) : gmap K Z :=
  match l with
  | [] => m
  | e :: l' => fill key (i + 1) l' (match m !! key e with None => <[key e := i]> m | Some _ => m end)
  end.
Definition staticNameMap : gmap bytes Z := fill Name 0 staticTable ∅.
Definition staticExactMap : gmap HeaderField Z := fill id 0 staticTable ∅.

(** The index of the field and the index of its name. *)
Definition findStatic (name value : bytes) : option Z * option Z :=
  match staticNameMap !! name with
  | Some nIdx => (staticExactMap !! mkHF name value, Some nIdx)
  | None => (None, None)
  end.

(** ** Indices *)
Definition MaxUint64 : Z := 2 ^ 64 - 1.
Definition AbsoluteIndexToEncoderStreamRelativeIndex {E} (absoluteIndex insertedEntryCount : Z) : res E Z :=
  if absoluteIndex >=? insertedEntryCount then Panic else Ok (u64 (insertedEntryCount - absoluteIndex - 1)).
Definition EncoderStreamRelativeIndexToAbsoluteIndex (relativeIndex insertedEntryCount : Z) : option Z :=
  if relativeIndex >=? insertedEntryCount then None else Some (u64 (insertedEntryCount - relativeIndex - 1)).
Definition AbsoluteIndexToRequestStreamRelativeIndex {E} (absoluteIndex base : Z) : res E Z :=
  if absoluteIndex >=? base then Panic else Ok (u64 (base - absoluteIndex - 1)).
Definition RequestStreamRelativeIndexToAbsoluteIndex (relativeIndex base : Z) : option Z :=
  if relativeIndex >=? base then None else Some (u64 (base - relativeIndex - 1)).
Definition PostBaseIndexToAbsoluteIndex (postBaseIndex base : Z) : option Z :=
  if postBaseIndex >=? u64 (MaxUint64 - base) then None else Some (u64 (base + postBaseIndex)).
Definition AbsoluteIndexToPostBaseIndex {E} (absoluteIndex base : Z) : res E Z :=
  if absoluteIndex <? base then Panic else Ok (u64 (absoluteIndex - base)).

(** ** The Required Insert Count *)

(** A remainder by zero panics. *)
Definition EncodeRequiredInsertCount {E} (requiredInsertCount maxEntries : Z) : res E Z :=
  if requiredInsertCount =? 0 then Ok 0
  else if u64 (2 * maxEntries) =? 0 then Panic
  else Ok (u64 (requiredInsertCount mod u64 (2 * maxEntries) + 1)).

Definition DecodeRequiredInsertCount {E} (encodedRequiredInsertCount maxEntries totalNumberOfInserts : Z) : res E (option Z) :=
  if encodedRequiredInsertCount =? 0 then Ok (Some 0)
  else if encodedRequiredInsertCount >? u64 (2 * maxEntries) then Ok None
  else if u64 (2 * maxEntries) =? 0 then Panic
  else
    let reqInsertCount := u64 (encodedRequiredInsertCount - 1) in
    let currentWrapped := totalNumberOfInserts mod u64 (2 * maxEntries) in
    let '(reqInsertCount, currentWrapped) :=
      if currentWrapped >=? u64 (reqInsertCount + maxEntries) then (u64 (reqInsertCount + u64 (2 * maxEntries)), currentWrapped)
      else if u64 (currentWrapped + maxEntries) <? reqInsertCount then (reqInsertCount, u64 (currentWrapped + u64 (2 * maxEntries)))
      else (reqInsertCount, currentWrapped) in
    if reqInsertCount >? u64 (MaxUint64 - totalNumberOfInserts) then Ok None
    else
      let reqInsertCount := u64 (reqInsertCount + totalNumberOfInserts) in
      if currentWrapped >=? reqInsertCount then Ok None
      else Ok (Some (u64 (reqInsertCount - currentWrapped))).

(** ** Prefix integers of varint.go *)
Inductive int_error := ErrUnexpectedEOF | ErrIntegerOverflow | ErrInvalidInteger.

Fixpoint append_groups (fuel : nat) (val : Z) : bytes :=
  match fuel with
  | O => []
  | S fuel' =>
      if val >=? 128 then u8 (Z.lor (Z.land val 0x7f) 0x80) :: append_groups fuel' (Z.shiftr val 7)
      else [u8 val]
  end.
Definition appendInt {E} (dst : bytes) (prefixLen val : Z) : res E bytes :=
  if (prefixLen >? 8) || (prefixLen =? 0) then Panic
  else if zlen dst =? 0 then Panic
  else
    let maxPrefix := u64 (Z.shiftl 1 prefixLen - 1) in
    if val <? maxPrefix then Ok (or_last dst (u8 val))
    else Ok (or_last dst (u8 maxPrefix) ++ append_groups 10 (u64 (val - maxPrefix))).

(** The value and the number of bytes it takes. *)
Fixpoint readInt_loop (val shift idx : Z) (l : bytes) : res int_error (Z * Z) :=
  match l with
  | [] => Err ErrUnexpectedEOF
  | b :: l' =>
      let idx := idx + 1 in
      if shift >=? 63 then Err ErrIntegerOverflow
      else
        let val := u64 (val + u64 (Z.shiftl (Z.land b 0x7f) shift)) in
        let shift := shift + 7 in
        if Z.land b 0x80 =? 0 then Ok (val, idx) else readInt_loop val shift idx l'
  end.
Definition readInt (prefixLen : Z) (data : bytes) : res int_error (Z * Z) :=
  match data with
  | [] => Err ErrUnexpectedEOF
  | b :: l =>
      if (prefixLen >? 8) || (prefixLen =? 0) then Err ErrInvalidInteger
      else
        let maxPrefix := u64 (Z.shiftl 1 prefixLen - 1) in
        let prefix := Z.land b maxPrefix in
        if prefix <? maxPrefix then Ok (prefix, 1) else readInt_loop maxPrefix 0 1 l
  end.

(** ** The maps of the static table *)
Lemma name_map_sound n i : staticNameMap !! n = Some i -> exists e, staticTable !! Z.to_nat i = Some e /\ Name e = n /\ 0 <= i < 99.
Proof.
  assert (H : map_Forall (fun n i => (0 <= i < 99) /\ Name <$> staticTable !! Z.to_nat i = Some n) staticNameMap)
    by (apply (bool_decide_unpack _); vm_compute; exact I).
  intros Hn. destruct (H _ _ Hn) as [H1 H2]. apply fmap_Some in H2 as (e & He & ->). exists e. exact (conj He (conj eq_refl H1)).
Qed.
Lemma exact_map_sound e i : staticExactMap !! e = Some i -> staticTable !! Z.to_nat i = Some e /\ 0 <= i < 99.
Proof.
  assert (H : map_Forall (fun e i => 0 <= i < 99 /\ staticTable !! Z.to_nat i = Some e) staticExactMap)
    by (apply (bool_decide_unpack _); vm_compute; exact I).
  intros He. destruct (H _ _ He) as [H1 H2]. exact (conj H2 H1).
Qed.
Lemma static_complete e : e ∈ staticTable -> is_Some (staticNameMap !! Name e) /\ is_Some (staticExactMap !! e).
Proof.
  assert (H : Forall (fun e => is_Some (staticNameMap !! Name e) /\ is_Some (staticExactMap !! e)) staticTable)
    by (apply (bool_decide_unpack _); vm_compute; exact I).
  intros He. rewrite Forall_forall in H. apply H. by apply list_elem_of_In.
Qed.
Definition hf_ok (h : HeaderField) : Prop := bytes_ok (Name h) /\ bytes_ok (Value h) /\ zlen (Name h) + zlen (Value h) < 2 ^ 62.
Lemma static_fields_ok : Forall hf_ok staticTable.
Proof.
  assert (H : Forall (fun h => bool_decide (bytes_ok (Name h)) && bool_decide (bytes_ok (Value h)) && (zlen (Name h) + zlen (Value h) <? 2 ^ 62) = true) staticTable)
    by (apply (bool_decide_unpack _); vm_compute; exact I).
  revert H. apply Forall_impl. intros h Hh. bool_simpl. repeat match goal with H : bool_decide _ = true |- _ => apply bool_decide_eq_true_1 in H end. unfold hf_ok. split; [assumption|]. split; assumption.
Qed.
#[global] Opaque staticTable staticNameMap staticExactMap.
Lemma find_static n v x y : findStatic n v = (x, y) ->
  (forall i, x = Some i -> staticTable !! Z.to_nat i = Some (mkHF n v) /\ 0 <= i < 99)
  /\ (forall i, y = Some i -> exists e, staticTable !! Z.to_nat i = Some e /\ Name e = n /\ 0 <= i < 99).
Proof.
  unfold findStatic. pose proof (exact_map_sound (mkHF n v)) as He. pose proof (name_map_sound n) as Hn. revert He Hn.
  generalize (staticExactMap !! mkHF n v) (staticNameMap !! n). intros oe [k|] He Hn; intros [= <- <-].
  - split; [exact He|exact Hn].
  - split; discriminate.
Qed.
Lemma find_static_name n v v' : snd (findStatic n v) = snd (findStatic n v').
Proof. unfold findStatic. generalize (staticNameMap !! n) (staticExactMap !! mkHF n v) (staticExactMap !! mkHF n v'). by intros [k|] ? ?. Qed.

(** ** Sizes *)
Lemma entry_size_eq n v : zlen n + zlen v < 2 ^ 62 -> EntrySize n v = zlen n + zlen v + 32.
Proof. intros H. pose proof (zlen_nonneg n). pose proof (zlen_nonneg v). unfold EntrySize, EntrySizeOverhead. apply u64_small. unfold is_u64. lia. Qed.
Lemma entry_size_of e : Entry_Size e = EntrySize (Name e) (Value e).
Proof. done. Qed.

(** ** Indices and counts *)
Lemma req_rel i base : 0 <= i < base -> base < 2 ^ 64 ->
  exists r, AbsoluteIndexToRequestStreamRelativeIndex (E := unit) i base = Ok r /\ r = base - i - 1
    /\ RequestStreamRelativeIndexToAbsoluteIndex r base = Some i.
Proof.
  intros Hi Hb. exists (base - i - 1). unfold AbsoluteIndexToRequestStreamRelativeIndex, RequestStreamRelativeIndexToAbsoluteIndex.
  replace (i >=? base) with false by lia. rewrite !u64_small by (unfold is_u64; lia). split; [done|]. split; [done|].
  replace (base - i - 1 >=? base) with false by lia. f_equal. lia.
Qed.
Lemma enc_rel i base : 0 <= i < base -> base < 2 ^ 64 ->
  exists r, AbsoluteIndexToEncoderStreamRelativeIndex (E := unit) i base = Ok r /\ r = base - i - 1
    /\ EncoderStreamRelativeIndexToAbsoluteIndex r base = Some i.
Proof. exact (req_rel i base). Qed.

(** The window of counts: an encoder may ask for at most [M] entries more than the
    decoder has, and refer to none that is [M] insertions old. *)
Definition ric_window (R M T : Z) : Prop := T - M < R <= T + M.
Lemma ric_decode {E} R M T : 0 < R -> 0 < M -> M <= 2 ^ 59 -> 0 <= T < 2 ^ 62 -> ric_window R M T ->
  DecodeRequiredInsertCount (E := E) (R mod (2 * M) + 1) M T = Ok (Some R).
Proof.
  intros HR HM HM2 HT [W1 W2]. unfold DecodeRequiredInsertCount. pose proof (Z.mod_pos_bound R (2 * M) ltac:(lia)) as Hr.
  rewrite (u64_small (2 * M)) by (unfold is_u64; lia).
  replace (R mod (2 * M) + 1 =? 0) with false by lia. replace (R mod (2 * M) + 1 >? 2 * M) with false by lia. replace (2 * M =? 0) with false by lia.
  replace (R mod (2 * M) + 1 - 1) with (R mod (2 * M)) by lia.
  pose proof (Z.mod_pos_bound T (2 * M) ltac:(lia)) as Ht. pose proof (Z.div_mod R (2 * M) ltac:(lia)) as DR. pose proof (Z.div_mod T (2 * M) ltac:(lia)) as DT.
  set (r := R mod (2 * M)) in *. set (t := T mod (2 * M)) in *. set (qr := R / (2 * M)) in *. set (qt := T / (2 * M)) in *. clearbody r t qr qt.
  assert (Hq1 : qr <= qt + 1) by (apply Z.nlt_ge; intros X; assert (2 * M * (qt + 2) <= 2 * M * qr) by (apply Z.mul_le_mono_nonneg_l; lia); lia).
  assert (Hq2 : qt - 1 <= qr) by (apply Z.nlt_ge; intros X; assert (2 * M * qr <= 2 * M * (qt - 2)) by (apply Z.mul_le_mono_nonneg_l; lia); lia).
  assert (Hq : qr = qt \/ qr = qt + 1 \/ qr = qt - 1) by lia. clear Hq1 Hq2.
  rewrite (u64_small r) by (unfold is_u64; lia). rewrite (u64_small (r + M)), (u64_small (t + M)) by (unfold is_u64; lia).
  rewrite (u64_small (MaxUint64 - T)) by (unfold is_u64, MaxUint64; lia).
  destruct (t >=? r + M) eqn:E1; bool_simpl.
  - rewrite (u64_small (r + 2 * M)) by (unfold is_u64; lia). replace (r + 2 * M >? MaxUint64 - T) with false by (unfold MaxUint64; lia).
    rewrite (u64_small (r + 2 * M + T)) by (unfold is_u64; lia). replace (t >=? r + 2 * M + T) with false by lia.
    rewrite u64_small by (unfold is_u64; lia). do 2 f_equal. destruct Hq as [-> | [-> | ->]]; lia.
  - destruct (t + M <? r) eqn:E2; bool_simpl.
    + rewrite (u64_small (t + 2 * M)) by (unfold is_u64; lia). replace (r >? MaxUint64 - T) with false by (unfold MaxUint64; lia).
      rewrite (u64_small (r + T)) by (unfold is_u64; lia). assert (HE : R = r + T - (t + 2 * M)) by (destruct Hq as [-> | [-> | ->]]; lia).
      replace (t + 2 * M >=? r + T) with false by lia. rewrite u64_small by (unfold is_u64; lia). do 2 f_equal. lia.
    + replace (r >? MaxUint64 - T) with false by (unfold MaxUint64; lia). rewrite (u64_small (r + T)) by (unfold is_u64; lia).
      assert (HE : R = r + T - t) by (destruct Hq as [-> | [-> | ->]]; lia).
      replace (t >=? r + T) with false by lia. rewrite u64_small by (unfold is_u64; lia). do 2 f_equal. lia.
Qed.

(** Whatever is decoded lies in the window. *)
Lemma ric_decode_window x M T R : 0 <= x -> 0 <= M <= 2 ^ 59 -> 0 <= T < 2 ^ 62 ->
  DecodeRequiredInsertCount (E := unit) x M T = Ok (Some R) -> (x = 0 /\ R = 0) \/ (0 < R /\ ric_window R M T /\ x = R mod (2 * M) + 1).
Proof.
  intros Hx HM HT. unfold DecodeRequiredInsertCount. destruct (x =? 0) eqn:E0; bool_simpl; [intros [= <-]; by left|].
  rewrite (u64_small (2 * M)) by (unfold is_u64; lia). destruct (x >? 2 * M) eqn:E1; bool_simpl; [done|]. destruct (2 * M =? 0) eqn:EM; bool_simpl; [done|].
  pose proof (Z.mod_pos_bound T (2 * M) ltac:(lia)) as Ht. pose proof (Z.div_mod T (2 * M) ltac:(lia)) as DT.
  set (t := T mod (2 * M)) in *. set (qt := T / (2 * M)) in *. clearbody t qt.
  rewrite (u64_small (x - 1)) by (unfold is_u64; lia). rewrite (u64_small (x - 1 + M)), (u64_small (t + M)) by (unfold is_u64; lia).
  rewrite (u64_small (MaxUint64 - T)) by (unfold is_u64, MaxUint64; lia).
  assert (Hmod : forall k, (k * (2 * M) + (x - 1)) mod (2 * M) = x - 1) by (intros k; rewrite Z.add_comm, Z.mod_add by lia; apply Z.mod_small; lia).
  destruct (t >=? x - 1 + M) eqn:E2; bool_simpl; [|destruct (t + M <? x - 1) eqn:E3; bool_simpl].
  - rewrite (u64_small (x - 1 + 2 * M)) by (unfold is_u64; lia). destruct (_ >? _); [done|]. rewrite (u64_small (x - 1 + 2 * M + T)) by (unfold is_u64; lia).
    destruct (_ >=? _) eqn:E4; bool_simpl; [done|]. intros [= <-]. rewrite u64_small by (unfold is_u64; lia). right. split; [lia|]. split; [unfold ric_window; lia|].
    replace (x - 1 + 2 * M + T - t) with ((qt + 1) * (2 * M) + (x - 1)) by lia. rewrite Hmod. lia.
  - rewrite (u64_small (t + 2 * M)) by (unfold is_u64; lia). destruct (_ >? _); [done|]. rewrite (u64_small (x - 1 + T)) by (unfold is_u64; lia).
    destruct (_ >=? _) eqn:E4; bool_simpl; [done|]. intros [= <-]. rewrite u64_small by (unfold is_u64; lia). right. split; [lia|]. split; [unfold ric_window; lia|].
    replace (x - 1 + T - (t + 2 * M)) with ((qt - 1) * (2 * M) + (x - 1)) by lia. rewrite Hmod. lia.
  - destruct (_ >? _); [done|]. rewrite (u64_small (x - 1 + T)) by (unfold is_u64; lia).
    destruct (_ >=? _) eqn:E4; bool_simpl; [done|]. intros [= <-]. rewrite u64_small by (unfold is_u64; lia). right. split; [lia|]. split; [unfold ric_window; lia|].
    replace (x - 1 + T - t) with (qt * (2 * M) + (x - 1)) by lia. rewrite Hmod. lia.
Qed.
Lemma ric_decode_total {E} x M T : 0 <= x -> DecodeRequiredInsertCount (E := E) x M T = Ok None \/ exists R, DecodeRequiredInsertCount (E := E) x M T = Ok (Some R).
Proof.
  intros Hx. unfold DecodeRequiredInsertCount. destruct (x =? 0) eqn:E1; [right; by exists 0|]. destruct (x >? _) eqn:E2; [by left|]. destruct (u64 (2 * M) =? 0) eqn:E0; [bool_simpl; lia|].
  match goal with |- context [let '(_, _) := ?t in _] => destruct t as [a b] end. cbv zeta. destruct (a >? _); [by left|]. destruct (b >=? _); [by left|]. right. eauto.
Qed.

(** ** Integers *)
Lemma append_groups_eq fuel v : 0 <= v -> append_groups fuel v = int_groups fuel v.
Proof.
  revert v. induction fuel as [|fuel IH]; intros v Hv; [done|]. cbn [append_groups int_groups]. rewrite IH by (apply Z.shiftr_nonneg; lia).
  destruct (v >=? 128); [|done]. f_equal. rewrite (land_127 v Hv). pose proof (Z.mod_pos_bound v 128 ltac:(lia)) as Hm.
  rewrite (u8_small (v mod 128)) by (unfold is_byte; lia). apply u8_small. change 128 with (1 * 2 ^ 7). rewrite Z.lor_comm, lor_add by (change (1 * 2 ^ 7) with 128; lia). unfold is_byte. change (1 * 2 ^ 7) with 128 in *. lia.
Qed.
Lemma readInt_groups fuel k : forall x nn idx tail,
  0 <= x -> 0 <= nn -> nn + x * 2 ^ (7 * k) < 2 ^ 64 -> 0 <= k -> k + Z.of_nat fuel <= 9 -> x < 2 ^ (7 * Z.of_nat fuel) ->
  (1 <= fuel)%nat ->
  readInt_loop nn (7 * k) idx (int_groups fuel x ++ tail) = Ok (nn + x * 2 ^ (7 * k), idx + zlen (int_groups fuel x)).
Proof.
  revert k. induction fuel as [|fuel IH]; intros k x nn idx tail Hx Hnn Hs Hk Hf Hx2 H1; [lia|].
  assert (Hp : 0 < 2 ^ (7 * k)) by (apply Z.pow_pos_nonneg; lia). pose proof (Z.mod_pos_bound x 128 ltac:(lia)). pose proof (Z.mod_le x 128 Hx ltac:(lia)).
  assert (Hadd : u64 (nn + u64 (Z.shiftl (x mod 128) (7 * k))) = nn + x mod 128 * 2 ^ (7 * k)).
  { rewrite Z.shiftl_mul_pow2 by lia. rewrite (u64_small (x mod 128 * 2 ^ (7 * k))) by (unfold is_u64; nia). apply u64_small. unfold is_u64. nia. }
  cbn [int_groups]. destruct (x >=? 128) eqn:E; bool_simpl; cbn [app readInt_loop]; replace (7 * k >=? 63) with false by lia.
  - destruct (group_byte x Hx) as [G1 G2]. change 0x7f with 127. change 0x80 with 128. rewrite G1, G2, Hadd. change (128 =? 0) with false. cbn iota.
    pose proof (Z.div_mod x 128 ltac:(lia)). replace (7 * k + 7) with (7 * (k + 1)) by lia. rewrite Z.shiftr_div_pow2 by lia. change (2 ^ 7) with 128.
    assert (Hpow : 2 ^ (7 * (k + 1)) = 128 * 2 ^ (7 * k)) by (replace (7 * (k + 1)) with (7 + 7 * k) by lia; by rewrite Z.pow_add_r by lia).
    assert (Hf2 : (1 <= fuel)%nat). { destruct fuel; [|lia]. change (2 ^ (7 * Z.of_nat 1)) with 128 in Hx2. lia. }
    assert (Hx3 : x / 128 < 2 ^ (7 * Z.of_nat fuel)). { apply Z.div_lt_upper_bound; [lia|]. replace (7 * Z.of_nat (S fuel)) with (7 + 7 * Z.of_nat fuel) in Hx2 by lia. by rewrite Z.pow_add_r in Hx2 by lia. }
    rewrite IH; [|apply Z.div_pos; lia|nia|rewrite Hpow; nia|lia|lia|done|done]. rewrite zlen_cons. do 2 f_equal; [rewrite Hpow; nia|lia].
  - assert (Hs' : x mod 128 = x) by (apply Z.mod_small; lia). rewrite u8_small by (unfold is_byte; lia). change 0x7f with 127. rewrite land_127, Hadd by done. rewrite Hs'.
    assert (E0 : Z.land x 128 = 0).
    { assert (Hxb : is_byte x) by (unfold is_byte; lia). assert (H' : ((128 <=? x) || (Z.land x 128 =? 0)) = true) by (clear -Hxb; revert x Hxb; apply (all_bytes_spec (fun x => _)); vm_compute; reflexivity).
      apply orb_true_iff in H' as [H'|H']; bool_simpl; lia. }
    change 0x80 with 128. rewrite E0. cbn [Z.eqb]. by rewrite zlen_cons.
Qed.
