(* ===== verification/QpackInstr.v ===== *)
(** * QPACK instructions

    Models [instructions.go], [instruction_encoder.go] and [instruction_decoder.go] of
    [src/proto/codec/qpack].  The thirteen instructions are compared by pointer in
    the code: they are the constructors of [Instruction], with their opcodes and
    fields as functions.  The encoder and the decoder are the state machines of the
    code.  What a decoder calls back is the class [InstructionDecoderDelegate], over
    the state of the delegate.

    The theorems: the encoder terminates and writes the image of an instruction; the
    decoder terminates on all input, does not depend on how it is cut, and reports
    exactly the instructions whose images were concatenated. *)

From S2P Require Import Prelude HpackInt Huffman QpackBase.
Open Scope Z_scope.

(** A function without error result: it returns or panics. *)
Definition run (A : Type) : Type := res Empty_set A.

(** ** Instructions *)
Inductive Instruction :=
| InsertWithNameReference | InsertWithoutNameReference | Duplicate | SetDynamicTableCapacity
| HeaderAcknowledgement | StreamCancellation | InsertCountIncrement
| Prefix
| IndexedHeaderField | LiteralHeaderFieldNameReference | LiteralHeaderField | IndexedHeaderFieldPostBase
| LiteralHeaderFieldPostBaseNameReference.
#[export] Instance Instruction_eq_dec : EqDecision Instruction.
Proof. solve_decision. Defined.

Record InstructionOpcode := mkOpcode { Op_Value : Z; Op_Mask : Z }.
Definition Opcode_Equal (o other : InstructionOpcode) : bool := (Op_Value o =? Op_Value other) && (Op_Mask o =? Op_Mask other).
Inductive InstructionFieldType := FieldSbit | FieldVarint | FieldVarint2 | FieldName | FieldValue.
Record InstructionField := mkInstrField { F_Type : InstructionFieldType; F_Param : Z }.

Definition Opcode (i : Instruction) : InstructionOpcode :=
  match i with
  | InsertWithNameReference => mkOpcode 0x80 0x80
  | InsertWithoutNameReference => mkOpcode 0x40 0xc0
  | Duplicate => mkOpcode 0x00 0xe0
  | SetDynamicTableCapacity => mkOpcode 0x20 0xe0
  | HeaderAcknowledgement => mkOpcode 0x80 0x80
  | StreamCancellation => mkOpcode 0x40 0xc0
  | InsertCountIncrement => mkOpcode 0x00 0xc0
  | Prefix => mkOpcode 0x00 0x00
  | IndexedHeaderField => mkOpcode 0x80 0x80
  | LiteralHeaderFieldNameReference => mkOpcode 0x40 0xc0
  | LiteralHeaderField => mkOpcode 0x20 0xe0
  | IndexedHeaderFieldPostBase => mkOpcode 0x10 0xf0
  | LiteralHeaderFieldPostBaseNameReference => mkOpcode 0x00 0xf0
  end.
Definition Fields (i : Instruction) : list InstructionField :=
  match i with
  | InsertWithNameReference => [mkInstrField FieldSbit 0x40; mkInstrField FieldVarint 6; mkInstrField FieldValue 7]
  | InsertWithoutNameReference => [mkInstrField FieldName 5; mkInstrField FieldValue 7]
  | Duplicate => [mkInstrField FieldVarint 5]
  | SetDynamicTableCapacity => [mkInstrField FieldVarint 5]
  | HeaderAcknowledgement => [mkInstrField FieldVarint 7]
  | StreamCancellation => [mkInstrField FieldVarint 6]
  | InsertCountIncrement => [mkInstrField FieldVarint 6]
  | Prefix => [mkInstrField FieldVarint 8; mkInstrField FieldSbit 0x80; mkInstrField FieldVarint2 7]
  | IndexedHeaderField => [mkInstrField FieldSbit 0x40; mkInstrField FieldVarint 6]
  | LiteralHeaderFieldNameReference => [mkInstrField FieldSbit 0x10; mkInstrField FieldVarint 4; mkInstrField FieldValue 7]
  | LiteralHeaderField => [mkInstrField FieldName 3; mkInstrField FieldValue 7]
  | IndexedHeaderFieldPostBase => [mkInstrField FieldVarint 4]
  | LiteralHeaderFieldPostBaseNameReference => [mkInstrField FieldVarint 3; mkInstrField FieldValue 7]
  end.

Definition Language : Type := list Instruction.
Definition langEncoderStream : Language :=
  [InsertWithNameReference; InsertWithoutNameReference; Duplicate; SetDynamicTableCapacity].
Definition langDecoderStream : Language := [HeaderAcknowledgement; StreamCancellation; InsertCountIncrement].
Definition langPrefix : Language := [Prefix].
Definition langRequestStream : Language :=
  [IndexedHeaderField; LiteralHeaderFieldNameReference; LiteralHeaderField; IndexedHeaderFieldPostBase;
   LiteralHeaderFieldPostBaseNameReference].

(** An instruction with the values of its fields. *)
#[projections(primitive)]
Record InstructionWithValues := mkValues {
  w_instruction : Instruction; w_sBit : bool; w_varint : Z; w_varint2 : Z; w_name : bytes; w_value : bytes
}.
Definition NewInstructionWithValues (i : Instruction) : InstructionWithValues := mkValues i false 0 0 [] [].
Definition SetVarint (v : InstructionWithValues) (varint : Z) : InstructionWithValues := { v with w_varint := varint }.
Definition VInsertWithNameReference (isStatic : bool) (nameIndex : Z) (value : bytes) : InstructionWithValues :=
  mkValues InsertWithNameReference isStatic nameIndex 0 [] value.
Definition VInsertWithoutNameReference (name value : bytes) : InstructionWithValues :=
  mkValues InsertWithoutNameReference false 0 0 name value.
Definition VDuplicate (index : Z) : InstructionWithValues := mkValues Duplicate false index 0 [] [].
Definition VSetDynamicTableCapacity (capacity : Z) : InstructionWithValues := mkValues SetDynamicTableCapacity false capacity 0 [] [].
Definition VInsertCountIncrement (increment : Z) : InstructionWithValues := mkValues InsertCountIncrement false increment 0 [] [].
Definition VHeaderAcknowledgement (streamID : Z) : InstructionWithValues := mkValues HeaderAcknowledgement false streamID 0 [] [].
Definition VStreamCancellation (streamID : Z) : InstructionWithValues := mkValues StreamCancellation false streamID 0 [] [].
Definition VPrefix (requiredInsertCount : Z) : InstructionWithValues := mkValues Prefix false requiredInsertCount 0 [] [].
Definition VIndexedHeaderField (isStatic : bool) (index : Z) : InstructionWithValues :=
  mkValues IndexedHeaderField isStatic index 0 [] [].
Definition VLiteralHeaderFieldNameReference (isStatic : bool) (index : Z) (value : bytes) : InstructionWithValues :=
  mkValues LiteralHeaderFieldNameReference isStatic index 0 [] value.
Definition VLiteralHeaderField (name value : bytes) : InstructionWithValues := mkValues LiteralHeaderField false 0 0 name value.
Definition VIndexedHeaderFieldPostBase (postBaseIndex : Z) : InstructionWithValues :=
  mkValues IndexedHeaderFieldPostBase false postBaseIndex 0 [] [].
Definition VLiteralHeaderFieldPostBaseNameReference (postBaseNameIndex : Z) (value : bytes) : InstructionWithValues :=
  mkValues LiteralHeaderFieldPostBaseNameReference false postBaseNameIndex 0 [] value.

(** ** The encoder *)
Inductive encoder_state :=
| EncOpcode | EncStartField | EncSbit | EncStartString | EncVarintEncode | EncWriteString | EncDone.
#[projections(primitive)]
Record InstructionEncoder := mkIE {
  ie_huffman : bool; ie_state : encoder_state; ie_instruction : Instruction; ie_fieldIdx : nat; ie_byte : Z;
  ie_useHuffman : bool; ie_stringLength : Z; ie_stringVal : bytes
}.
(** The instruction of a new encoder is nil; it is set before it is read. *)
Definition NewInstructionEncoder (huffman : bool) : InstructionEncoder := mkIE huffman EncOpcode Prefix 0 0 false 0 [].

Definition field_at (i : Instruction) (idx : nat) : run InstructionField :=
  match Fields i !! idx with Some f => Ok f | None => Panic end.

Fixpoint varint_groups (fuel : nat) (varint : Z) : bytes :=
  match fuel with
  | O => []
  | S fuel' =>
      if varint >=? 128 then u8 (Z.lor 0x80 (varint mod 128)) :: varint_groups fuel' (Z.shiftr varint 7)
      else [u8 varint]
  end.
Definition qpackEncodeVarint (highBits prefixLength varint : Z) (output : bytes) : bytes :=
  let prefixMask := u8 (Z.shiftl 1 prefixLength - 1) in
  if varint <? prefixMask then output ++ [Z.lor highBits (u8 varint)]
  else output ++ [Z.lor highBits prefixMask] ++ varint_groups 10 (u64 (varint - prefixMask)).

Definition doOpcode (e : InstructionEncoder) : InstructionEncoder :=
  { e with ie_byte := Op_Value (Opcode (ie_instruction e)); ie_state := EncStartField }.
Definition enc_doStartField (e : InstructionEncoder) : run InstructionEncoder :=
  if Nat.eqb (ie_fieldIdx e) (List.length (Fields (ie_instruction e))) then Ok { e with ie_state := EncDone }
  else
    let* field := field_at (ie_instruction e) (ie_fieldIdx e) in
    Ok { e with ie_state :=
      match F_Type field with
      | FieldSbit => EncSbit
      | FieldVarint | FieldVarint2 => EncVarintEncode
      | FieldName | FieldValue => EncStartString
      end }.
Definition doSbit (e : InstructionEncoder) (sBit : bool) : run InstructionEncoder :=
  let* field := field_at (ie_instruction e) (ie_fieldIdx e) in
  let e := if sBit then { e with ie_byte := Z.lor (ie_byte e) (F_Param field) } else e in
  Ok { e with ie_fieldIdx := S (ie_fieldIdx e); ie_state := EncStartField }.
Definition doStartString (e : InstructionEncoder) (v : InstructionWithValues) : run InstructionEncoder :=
  let* field := field_at (ie_instruction e) (ie_fieldIdx e) in
  let e := { e with ie_stringVal := match F_Type field with FieldName => w_name v | _ => w_value v end } in
  let huffmanLen := u64 (HuffmanEncodeLength (ie_stringVal e)) in
  let e :=
    if ie_huffman e && (huffmanLen <? zlen (ie_stringVal e)) then
      { e with ie_useHuffman := true; ie_byte := Z.lor (ie_byte e) (u8 (Z.shiftl 1 (F_Param field))); ie_stringLength := huffmanLen }
    else { e with ie_useHuffman := false; ie_stringLength := zlen (ie_stringVal e) } in
  Ok { e with ie_state := EncVarintEncode }.
Definition doVarintEncode (e : InstructionEncoder) (v : InstructionWithValues) (output : bytes) : run (InstructionEncoder * bytes) :=
  let* field := field_at (ie_instruction e) (ie_fieldIdx e) in
  let integerToEncode :=
    match F_Type field with
    | FieldVarint => w_varint v
    | FieldVarint2 => w_varint2 v
    | FieldName | FieldValue => ie_stringLength e
    | FieldSbit => 0
    end in
  let output := qpackEncodeVarint (ie_byte e) (F_Param field) integerToEncode output in
  let e := { e with ie_byte := 0 } in
  match F_Type field with
  | FieldVarint | FieldVarint2 => Ok ({ e with ie_fieldIdx := S (ie_fieldIdx e); ie_state := EncStartField }, output)
  | FieldName | FieldValue => Ok ({ e with ie_state := EncWriteString }, output)
  | FieldSbit => Ok (e, output)
  end.
Definition doWriteString (e : InstructionEncoder) (output : bytes) : InstructionEncoder * bytes :=
  let output := if ie_useHuffman e then HuffmanEncode output (ie_stringVal e) else output ++ ie_stringVal e in
  ({ e with ie_fieldIdx := S (ie_fieldIdx e); ie_state := EncStartField }, output).

(** The loop of [EncodeTo].  Running out of fuel is a panic, so that the absence of
    panics includes termination. *)
Fixpoint EncodeTo_loop (fuel : nat) (e : InstructionEncoder) (v : InstructionWithValues) (output : bytes) : run (InstructionEncoder * bytes) :=
  match fuel with
  | O => Panic
  | S fuel' =>
      match ie_state e with
      | EncDone => Ok (e, output)
      | EncOpcode => EncodeTo_loop fuel' (doOpcode e) v output
      | EncStartField => let* e := enc_doStartField e in EncodeTo_loop fuel' e v output
      | EncSbit => let* e := doSbit e (w_sBit v) in EncodeTo_loop fuel' e v output
      | EncStartString => let* e := doStartString e v in EncodeTo_loop fuel' e v output
      | EncVarintEncode => let* r := doVarintEncode e v output in EncodeTo_loop fuel' (fst r) v (snd r)
      | EncWriteString => let '(e, output) := doWriteString e output in EncodeTo_loop fuel' e v output
      end
  end.
(** An instruction has at most three fields, and a field takes at most four states. *)
Definition EncodeTo (e : InstructionEncoder) (v : InstructionWithValues) (output : bytes) : run (InstructionEncoder * bytes) :=
  EncodeTo_loop (S 15) { e with ie_state := EncOpcode; ie_instruction := w_instruction v; ie_fieldIdx := 0%nat; ie_byte := 0 } v output.

(** ** The decoder *)
Definition qpackStringLiteralLengthLimit : Z := 1024 * 1024.
Inductive InstructionDecoderErrorCode :=
| InstructionDecoderIntegerTooLarge | InstructionDecoderStringLiteralTooLong | InstructionDecoderHuffmanEncodingError.
(** The texts given with the codes; receivers tell errors apart by them. *)
Inductive message := MsgTruncated | MsgInvalidOpcode | MsgIntegerTooLarge | MsgStringTooLong | MsgHuffman.

(** Integers that arrive in pieces. *)
Inductive decodeStatus := StatusDone | StatusInProgress | StatusError.
#[projections(primitive)]
Record qpackVarintDecoder := mkVD { vd_value : Z; vd_offset : Z; vd_done : bool; vd_error : bool }.
Definition vd_zero : qpackVarintDecoder := mkVD 0 0 false false.

(** [Resume]: the bytes consumed so far and the bytes left. *)
Fixpoint Resume (v : qpackVarintDecoder) (consumed : Z) (data : bytes) : qpackVarintDecoder * Z * decodeStatus :=
  match data with
  | [] => (v, consumed, StatusInProgress)
  | b :: data' =>
      let consumed := consumed + 1 in
      if vd_offset v <? 63 then
        let v := { v with vd_value := u64 (vd_value v + u64 (Z.shiftl (Z.land b 0x7f) (vd_offset v))) } in
        if Z.land b 0x80 =? 0 then ({ v with vd_done := true }, consumed, StatusDone)
        else Resume { v with vd_offset := u8 (vd_offset v + 7) } consumed data'
      else
        let summand := u64 (Z.shiftl (Z.land b 0x7f) 63) in
        if (Z.land b 0x80 =? 0) && (Z.land b 0x7f <=? 1) && (vd_value v <=? u64 (MaxUint64 - summand)) then
          ({ v with vd_value := u64 (vd_value v + summand); vd_done := true }, consumed, StatusDone)
        else ({ v with vd_error := true }, consumed, StatusError)
  end.
Definition Start (prefixLength : Z) (data : bytes) : qpackVarintDecoder * Z * decodeStatus :=
  match data with
  | [] => (vd_zero, 0, StatusInProgress)
  | b :: data' =>
      let prefixMask := u8 (Z.shiftl 1 prefixLength - 1) in
      let v := { vd_zero with vd_value := Z.land b prefixMask } in
      if vd_value v <? prefixMask then ({ v with vd_done := true }, 1, StatusDone)
      else let '(v, consumed, status) := Resume v 0 data' in (v, 1 + consumed, status)
  end.

Inductive decoder_state :=
| StateStartInstruction | StateStartField | StateReadBit | StateVarintStart | StateVarintResume | StateVarintDone
| StateReadString | StateReadStringDone.
#[export] Instance decoder_state_eq_dec : EqDecision decoder_state.
Proof. solve_decision. Defined.
#[projections(primitive)]
Record InstructionDecoder := mkID {
  id_language : Language; id_sBit : bool; id_varint : Z; id_varint2 : Z; id_name : bytes; id_value : bytes;
  id_isHuffmanEncoded : bool; id_stringLength : Z; id_stringBuffer : bytes; id_varintDecoder : qpackVarintDecoder;
  id_errorDetected : bool; id_state : decoder_state; id_instruction : option Instruction; id_fieldIdx : nat
}.
Definition NewInstructionDecoder (language : Language) : InstructionDecoder :=
  mkID language false 0 0 [] [] false 0 [] vd_zero false StateStartInstruction None 0.
Definition AtInstructionBoundary (d : InstructionDecoder) : bool := bool_decide (id_state d = StateStartInstruction).

(** [InstructionDecoderDelegate]: what the decoder calls, with the state of the
    receiver.  The delegate reads the accessors of the decoder ([SBit], [Varint],
    [Varint2], [Name], [Value]), which are passed with the instruction. *)
Class InstructionDecoderDelegate (T : Type) := {
  OnInstructionDecoded : InstructionWithValues -> T -> run (T * bool);
  OnInstructionDecodingError : InstructionDecoderErrorCode -> message -> T -> T
}.

Definition accessors (i : Instruction) (d : InstructionDecoder) : InstructionWithValues :=
  mkValues i (id_sBit d) (id_varint d) (id_varint2 d) (id_name d) (id_value d).

Definition lookupOpcode (d : InstructionDecoder) (b : Z) : option Instruction :=
  List.find (fun i => Z.land b (Op_Mask (Opcode i)) =? Op_Value (Opcode i)) (id_language d).
Definition cur_field (d : InstructionDecoder) : run InstructionField :=
  match id_instruction d with None => Panic | Some i => field_at i (id_fieldIdx d) end.

Section decoder.
Context {T : Type} `{InstructionDecoderDelegate T}.

Definition id_onError (d : InstructionDecoder) (s : T) (c : InstructionDecoderErrorCode) (m : message) : InstructionDecoder * T :=
  ({ d with id_errorDetected := true }, OnInstructionDecodingError c m s).
Definition id_EndDecoding (d : InstructionDecoder) (s : T) : InstructionDecoder * T :=
  if negb (AtInstructionBoundary d) && negb (id_errorDetected d) then id_onError d s InstructionDecoderIntegerTooLarge MsgTruncated else (d, s).

Definition doStartInstruction (d : InstructionDecoder) (s : T) (data : bytes) : run (InstructionDecoder * T) :=
  let* b := index data 0 in
  let d := { d with id_instruction := lookupOpcode d b } in
  match id_instruction d with
  | None => Ok (id_onError d s InstructionDecoderIntegerTooLarge MsgInvalidOpcode)
  | Some _ =>
      Ok ({ d with id_sBit := false; id_varint := 0; id_varint2 := 0; id_name := []; id_value := []; id_isHuffmanEncoded := false;
            id_fieldIdx := 0%nat; id_state := StateStartField }, s)
  end.
Definition doStartField (d : InstructionDecoder) (s : T) : run (InstructionDecoder * T) :=
  match id_instruction d with
  | None => Panic
  | Some i =>
      if Nat.eqb (id_fieldIdx d) (List.length (Fields i)) then
        let d := { d with id_state := StateStartInstruction } in
        let* r := OnInstructionDecoded (accessors i d) s in
        Ok (if snd r then d else { d with id_errorDetected := true }, fst r)
      else
        let* field := field_at i (id_fieldIdx d) in
        Ok ({ d with id_state := match F_Type field with FieldSbit | FieldName | FieldValue => StateReadBit | _ => StateVarintStart end }, s)
  end.
Definition doReadBit (d : InstructionDecoder) (data : bytes) : run InstructionDecoder :=
  let* field := cur_field d in
  let* b := index data 0 in
  match F_Type field with
  | FieldSbit => Ok { d with id_sBit := negb (Z.land b (F_Param field) =? 0); id_fieldIdx := S (id_fieldIdx d); id_state := StateStartField }
  | FieldName | FieldValue =>
      Ok { d with id_isHuffmanEncoded := negb (Z.land b (u8 (Z.shiftl 1 (F_Param field))) =? 0); id_state := StateVarintStart }
  | _ => Ok d
  end.
Definition doVarintStart (d : InstructionDecoder) (s : T) (data : bytes) : run (InstructionDecoder * T * Z) :=
  let* field := cur_field d in
  let '(v, consumed, status) := Start (F_Param field) data in
  let d := { d with id_varintDecoder := v } in
  match status with
  | StatusError => Ok (id_onError d s InstructionDecoderIntegerTooLarge MsgIntegerTooLarge, consumed)
  | StatusDone => Ok ({ d with id_state := StateVarintDone }, s, consumed)
  | StatusInProgress => Ok ({ d with id_state := StateVarintResume }, s, consumed)
  end.
Definition doVarintResume (d : InstructionDecoder) (s : T) (data : bytes) : InstructionDecoder * T * Z :=
  let '(v, consumed, status) := Resume (id_varintDecoder d) 0 data in
  let d := { d with id_varintDecoder := v } in
  match status with
  | StatusError => (id_onError d s InstructionDecoderIntegerTooLarge MsgIntegerTooLarge, consumed)
  | StatusDone => ({ d with id_state := StateVarintDone }, s, consumed)
  | StatusInProgress => (d, s, consumed)
  end.
Definition doVarintDone (d : InstructionDecoder) (s : T) : run (InstructionDecoder * T) :=
  let* field := cur_field d in
  let v := vd_value (id_varintDecoder d) in
  match F_Type field with
  | FieldVarint => Ok ({ d with id_varint := v; id_fieldIdx := S (id_fieldIdx d); id_state := StateStartField }, s)
  | FieldVarint2 => Ok ({ d with id_varint2 := v; id_fieldIdx := S (id_fieldIdx d); id_state := StateStartField }, s)
  | FieldName | FieldValue =>
      if v >? qpackStringLiteralLengthLimit then Ok (id_onError d s InstructionDecoderStringLiteralTooLong MsgStringTooLong)
      else
        let d := { d with id_stringLength := v; id_stringBuffer := [] } in
        Ok ({ d with id_state := if id_stringLength d =? 0 then StateReadStringDone else StateReadString }, s)
  | FieldSbit => Ok (d, s)
  end.
Definition doReadString (d : InstructionDecoder) (data : bytes) : run (InstructionDecoder * Z) :=
  let remainingNeeded := i64 (id_stringLength d) - zlen (id_stringBuffer d) in
  let toRead := Z.min (zlen data) remainingNeeded in
  let* chunk := slice data 0 toRead in
  let d := { d with id_stringBuffer := id_stringBuffer d ++ chunk } in
  Ok (if zlen (id_stringBuffer d) =? id_stringLength d then { d with id_state := StateReadStringDone } else d, toRead).
Definition doReadStringDone (d : InstructionDecoder) (s : T) : run (InstructionDecoder * T) :=
  match (if id_isHuffmanEncoded d then HuffmanDecodeToString (id_stringBuffer d) else Ok (id_stringBuffer d)) with
  | Panic => Panic
  | Err _ => Ok (id_onError d s InstructionDecoderHuffmanEncodingError MsgHuffman)
  | Ok str =>
      let* field := cur_field d in
      let d := match F_Type field with FieldName => { d with id_name := str } | FieldValue => { d with id_value := str } | _ => d end in
      Ok ({ d with id_fieldIdx := S (id_fieldIdx d); id_state := StateStartField }, s)
  end.

(** The condition of the loop. *)
Definition decoding (d : InstructionDecoder) (data : bytes) : bool :=
  match data with
  | _ :: _ => true
  | [] => match id_state d with StateStartField | StateVarintDone | StateReadStringDone => true | _ => false end
  end.
(** One pass of the loop: the decoder, the delegate and what is left of the data. *)
Definition Decode_step (d : InstructionDecoder) (s : T) (data : bytes) : run (InstructionDecoder * T * bytes) :=
  match id_state d with
  | StateStartInstruction => let* r := doStartInstruction d s data in Ok (r, data)
  | StateStartField => let* r := doStartField d s in Ok (r, data)
  | StateReadBit => let* d := doReadBit d data in Ok (d, s, data)
  | StateVarintStart => let* r := doVarintStart d s data in let* rest := slice data (snd r) (zlen data) in Ok (fst r, rest)
  | StateVarintResume => let r := doVarintResume d s data in let* rest := slice data (snd r) (zlen data) in Ok (fst r, rest)
  | StateVarintDone => let* r := doVarintDone d s in Ok (r, data)
  | StateReadString => let* r := doReadString d data in let* rest := slice data (snd r) (zlen data) in Ok (fst r, s, rest)
  | StateReadStringDone => let* r := doReadStringDone d s in Ok (r, data)
  end.
(** The loop; running out of fuel is a panic. *)
Fixpoint Decode_loop (fuel : nat) (d : InstructionDecoder) (s : T) (data : bytes) : run (InstructionDecoder * T * bool) :=
  match fuel with
  | O => Panic
  | S fuel' =>
      if decoding d data then
        let* r := Decode_step d s data in
        let '(d, s, data) := r in
        if id_errorDetected d then Ok (d, s, false) else Decode_loop fuel' d s data
      else Ok (d, s, true)
  end.
Definition decode_fuel (data : bytes) : nat := (12 * (List.length data + 1))%nat.
Definition id_Decode (d : InstructionDecoder) (s : T) (data : bytes) : run (InstructionDecoder * T * bool) :=
  if id_errorDetected d then Ok (d, s, false) else Decode_loop (decode_fuel data) d s data.
End decoder.

(** ** The image of an instruction *)
Definition str_huff (h : bool) (s : bytes) : bool := h && (HuffmanEncodeLength s <? zlen s).
Definition str_image (h : bool) (p n : Z) (s : bytes) : bytes :=
  if str_huff h s then int_enc (p + 2 ^ n) n (HuffmanEncodeLength s) ++ HuffmanEncode [] s else int_enc p n (zlen s) ++ s.
(** [p] holds the bits of the byte that the next field completes. *)
Fixpoint fields_image (h : bool) (v : InstructionWithValues) (p : Z) (fs : list InstructionField) : bytes :=
  match fs with
  | [] => []
  | f :: fs' =>
      match F_Type f with
      | FieldSbit => fields_image h v (if w_sBit v then p + F_Param f else p) fs'
      | FieldVarint => int_enc p (F_Param f) (w_varint v) ++ fields_image h v 0 fs'
      | FieldVarint2 => int_enc p (F_Param f) (w_varint2 v) ++ fields_image h v 0 fs'
      | FieldName => str_image h p (F_Param f) (w_name v) ++ fields_image h v 0 fs'
      | FieldValue => str_image h p (F_Param f) (w_value v) ++ fields_image h v 0 fs'
      end
  end.
Definition image (h : bool) (v : InstructionWithValues) : bytes :=
  fields_image h v (Op_Value (Opcode (w_instruction v))) (Fields (w_instruction v)).
Definition images (h : bool) (vs : list InstructionWithValues) : bytes := concat (map (image h) vs).

(** Values that can be sent: integers of 64 bits, strings within the limit of the
    decoder, and nothing in the fields the instruction does not have. *)
Definition str_ok (s : bytes) : Prop := bytes_ok s /\ zlen s <= qpackStringLiteralLengthLimit.
Definition has (t : InstructionFieldType) (i : Instruction) : bool :=
  existsb (fun f => match F_Type f, t with
    | FieldSbit, FieldSbit | FieldVarint, FieldVarint | FieldVarint2, FieldVarint2 | FieldName, FieldName | FieldValue, FieldValue => true
    | _, _ => false end) (Fields i).
Record values_ok (v : InstructionWithValues) : Prop := {
  vo_varint : is_u64 (w_varint v); vo_varint2 : is_u64 (w_varint2 v); vo_name : str_ok (w_name v); vo_value : str_ok (w_value v);
  vo_sBit : has FieldSbit (w_instruction v) = false -> w_sBit v = false;
  vo_none : (has FieldVarint (w_instruction v) = false -> w_varint v = 0) /\ (has FieldVarint2 (w_instruction v) = false -> w_varint2 v = 0)
    /\ (has FieldName (w_instruction v) = false -> w_name v = []) /\ (has FieldValue (w_instruction v) = false -> w_value v = [])
}.

(** How the fields share bytes: the bits [p] leave room for the prefix and the flag
    of the next field, and a flag bit is followed by an integer. *)
Fixpoint fits (p : Z) (fs : list InstructionField) : bool :=
  match fs with
  | [] => true
  | f :: fs' =>
      let n := F_Param f in
      match F_Type f with
      | FieldSbit =>
          let k := Z.log2 n in
          (n =? 2 ^ k) && (k <? 8) && (p mod 2 ^ (k + 1) =? 0) && (0 <=? p) && (p + n <? 256)
          && match fs' with
             | f' :: _ => match F_Type f' with FieldVarint | FieldVarint2 => (1 <=? F_Param f') && (F_Param f' <=? k) | _ => false end
             | [] => false
             end
          && fits p fs' && fits (p + n) fs'
      | FieldVarint | FieldVarint2 => (1 <=? n) && (n <=? 8) && (0 <=? p) && (p <? 256) && (p mod 2 ^ n =? 0) && fits 0 fs'
      | FieldName | FieldValue =>
          (1 <=? n) && (n <=? 7) && (0 <=? p) && (p + 2 ^ n <? 256) && (p mod 2 ^ (n + 1) =? 0) && fits 0 fs'
      end
  end.
Lemma instruction_fits i : fits (Op_Value (Opcode i)) (Fields i) = true.
Proof. by destruct i. Qed.

Lemma varint_groups_eq fuel v : 0 <= v -> varint_groups fuel v = int_groups fuel v.
Proof.
  revert v. induction fuel as [|fuel IH]; intros v Hv; [done|]. cbn [varint_groups int_groups]. rewrite IH by (apply Z.shiftr_nonneg; lia).
  destruct (v >=? 128); [|done]. f_equal. rewrite (land_127 v Hv). pose proof (Z.mod_pos_bound v 128 ltac:(lia)) as Hm.
  rewrite (u8_small (v mod 128)) by (unfold is_byte; lia). rewrite Z.lor_comm. apply u8_small. change 0x80 with (1 * 2 ^ 7). rewrite Z.lor_comm, lor_add by (change (2 ^ 7) with 128; lia). unfold is_byte. change (1 * 2 ^ 7) with 128 in *. lia.
Qed.
Lemma encode_varint p n v out : prefix_ok p n -> is_u64 v -> qpackEncodeVarint p n v out = out ++ int_enc p n v.
Proof.
  intros Hp Hv. pose proof Hp as (Hn & Hb & Hm). pose proof (pow_cases n Hn). unfold is_u64 in Hv. unfold qpackEncodeVarint, int_enc.
  fold (prefix_max n). rewrite prefix_max_eq by done. destruct (v <? 2 ^ n - 1) eqn:E; bool_simpl.
  - rewrite u8_small by (unfold is_byte; lia). by rewrite (prefix_lor p n) by (done || lia).
  - rewrite (prefix_lor p n) by (done || lia). rewrite u64_small by (unfold is_u64; lia). by rewrite varint_groups_eq by lia.
Qed.
Lemma pow_mod_drop p a b : 0 <= a <= b -> p mod 2 ^ b = 0 -> p mod 2 ^ a = 0.
Proof. intros H Hp. apply Z.mod_divide in Hp; [|apply Z.pow_nonzero; lia]. apply Z.mod_divide; [apply Z.pow_nonzero; lia|]. etransitivity; [|exact Hp]. exists (2 ^ (b - a)). rewrite <- Z.pow_add_r by lia. f_equal. lia. Qed.
Lemma huffman_len s : bytes_ok s -> zlen s < 2 ^ 59 -> 0 <= HuffmanEncodeLength s < 2 ^ 62 /\ zlen (HuffmanEncode [] s) = HuffmanEncodeLength s.
Proof. intros Hs Hl. destruct (encode_length s Hs Hl) as [E1 E2]. pose proof (zlen_nonneg (HuffmanEncode [] s)). lia. Qed.

(** The byte of a string field, with its flag. *)
Lemma str_prefix (h : bool) p n : 1 <= n <= 7 -> 0 <= p -> p + 2 ^ n < 256 -> p mod 2 ^ (n + 1) = 0 ->
  prefix_ok (if h then p + 2 ^ n else p) n /\ Z.lor p (u8 (Z.shiftl 1 n)) = p + 2 ^ n.
Proof.
  intros Hn Hp Hlt Hm. pose proof (pow_cases n ltac:(lia)). assert (Hm' : p mod 2 ^ n = 0) by (apply (pow_mod_drop p n (n + 1)); [lia|done]). split.
  - split; [lia|]. destruct h; (split; [unfold is_byte; lia|]); [|done]. rewrite <- (Z.mul_1_l (2 ^ n)) at 1. by rewrite Z.mod_add by lia.
  - rewrite Z.shiftl_1_l, u8_small by (unfold is_byte; lia). apply (prefix_lor p (n + 1)); [split; [lia|split; [unfold is_byte; lia|done]]|]. rewrite Z.pow_add_r by lia. lia.
Qed.

(** ** The encoder writes the image *)
Lemma drop_cons_at {A} (l : list A) n x k : drop n l = x :: k -> l !! n = Some x /\ drop (S n) l = k /\ (n < List.length l)%nat.
Proof.
  intros H. assert (Hx : l !! n = Some x) by (rewrite <- (Nat.add_0_r n), <- lookup_drop, H; done). split; [done|].
  split; [|by apply lookup_lt_Some in Hx]. rewrite (drop_S _ x) in H by done. by injection H.
Qed.
Lemma drop_nil_at {A} (l : list A) n : (n <= List.length l)%nat -> drop n l = [] -> n = List.length l.
Proof. intros Hn H. apply (f_equal List.length) in H. rewrite length_drop in H. cbn in H. lia. Qed.

Definition enc_at (e : InstructionEncoder) (v : InstructionWithValues) (fs : list InstructionField) : Prop :=
  ie_state e = EncStartField /\ ie_instruction e = w_instruction v /\ (ie_fieldIdx e <= List.length (Fields (w_instruction v)))%nat
  /\ drop (ie_fieldIdx e) (Fields (w_instruction v)) = fs.
Lemma enc_field fuel e v out f fs : enc_at e v (f :: fs) ->
  EncodeTo_loop (S fuel) e v out = EncodeTo_loop fuel { e with ie_state := match F_Type f with FieldSbit => EncSbit | FieldVarint | FieldVarint2 => EncVarintEncode | _ => EncStartString end } v out
  /\ field_at (ie_instruction e) (ie_fieldIdx e) = Ok f /\ (S (ie_fieldIdx e) <= List.length (Fields (w_instruction v)))%nat
  /\ drop (S (ie_fieldIdx e)) (Fields (w_instruction v)) = fs.
Proof.
  intros (Hs & Hi & Hl & Hd). apply drop_cons_at in Hd as (Hx & Hd & Hlt). unfold field_at. rewrite Hi, Hx. split_and!; try done.
  cbn [EncodeTo_loop]. rewrite Hs. unfold enc_doStartField, field_at. rewrite Hi, Hx. by rewrite (proj2 (Nat.eqb_neq _ _)) by lia.
Qed.

Definition str_field (f : InstructionField) : bool := match F_Type f with FieldName | FieldValue => true | _ => false end.
Definition str_of (f : InstructionField) (v : InstructionWithValues) : bytes := match F_Type f with FieldName => w_name v | _ => w_value v end.
Definition int_of (f : InstructionField) (v : InstructionWithValues) : Z := match F_Type f with FieldVarint => w_varint v | _ => w_varint2 v end.

Lemma enc_varint fuel e v out f fs : enc_at e v (f :: fs) -> F_Type f = FieldVarint \/ F_Type f = FieldVarint2 -> fits (ie_byte e) (f :: fs) = true -> is_u64 (int_of f v) ->
  exists e', EncodeTo_loop (2 + fuel) e v out = EncodeTo_loop fuel e' v (out ++ int_enc (ie_byte e) (F_Param f) (int_of f v))
    /\ enc_at e' v fs /\ ie_huffman e' = ie_huffman e /\ ie_byte e' = 0.
Proof.
  intros He Ht Hf Hv. destruct (enc_field (S fuel) e v out f fs He) as (E & Ef & Hl & Hd). destruct He as (Hs & Hi & _ & _). change (2 + fuel)%nat with (S (S fuel)). rewrite E. clear E.
  destruct e as [h st i idx p uh sl sv]. cbn in *. subst st i.
  assert (Hp : prefix_ok p (F_Param f)). { destruct Ht as [Ht|Ht]; rewrite Ht in Hf; bool_simpl; (split; [lia|split; [unfold is_byte; lia|done]]). }
  exists (mkIE h EncStartField (w_instruction v) (S idx) 0 uh sl sv). split; [|done].
  unfold int_of in *. unfold doVarintEncode; cbn. rewrite Ef. cbn. destruct Ht as [Ht|Ht]; rewrite Ht in *; cbn; by rewrite encode_varint.
Qed.
Lemma enc_string fuel e v out f fs : enc_at e v (f :: fs) -> str_field f = true -> fits (ie_byte e) (f :: fs) = true -> str_ok (str_of f v) ->
  exists e', EncodeTo_loop (4 + fuel) e v out = EncodeTo_loop fuel e' v (out ++ str_image (ie_huffman e) (ie_byte e) (F_Param f) (str_of f v))
    /\ enc_at e' v fs /\ ie_huffman e' = ie_huffman e /\ ie_byte e' = 0.
Proof.
  intros He Ht Hf [Hb Hz]. destruct (enc_field (3 + fuel) e v out f fs He) as (E & Ef & Hl & Hd). destruct He as (Hs & Hi & _ & _). change (4 + fuel)%nat with (S (3 + fuel)). rewrite E. clear E.
  destruct e as [h st i idx p uh sl sv]. cbn [ie_huffman ie_state ie_instruction ie_fieldIdx ie_byte] in *. subst st i.
  assert (Hp : 1 <= F_Param f <= 7 /\ 0 <= p /\ p + 2 ^ F_Param f < 256 /\ p mod 2 ^ (F_Param f + 1) = 0).
  { cbn [fits] in Hf. unfold str_field in Ht. destruct (F_Type f); try done; bool_simpl; lia. }
  destruct Hp as (Hn & Hp0 & Hp1 & Hp2). unfold qpackStringLiteralLengthLimit in Hz. destruct (huffman_len (str_of f v) Hb ltac:(lia)) as [Hh1 Hh2]. pose proof (zlen_nonneg (str_of f v)).
  replace (match F_Type f with FieldSbit => EncSbit | FieldVarint | FieldVarint2 => EncVarintEncode | _ => EncStartString end) with EncStartString by (unfold str_field in Ht; by destruct (F_Type f)).
  destruct (str_prefix (str_huff h (str_of f v)) _ _ Hn Hp0 Hp1 Hp2) as [Hpo Hlor]. unfold str_image. set (hh := str_huff h (str_of f v)) in *.
  exists (mkIE h EncStartField (w_instruction v) (S idx) 0 hh (if hh then HuffmanEncodeLength (str_of f v) else zlen (str_of f v)) (str_of f v)). split; [|done].
  assert (E1 : doStartString (mkIE h EncStartString (w_instruction v) idx p uh sl sv) v
    = Ok (mkIE h EncVarintEncode (w_instruction v) idx (if hh then p + 2 ^ F_Param f else p) hh (if hh then HuffmanEncodeLength (str_of f v) else zlen (str_of f v)) (str_of f v))).
  { unfold doStartString; cbn -[HuffmanEncodeLength zlen u8 Z.shiftl Z.lor]. rewrite Ef. cbn -[HuffmanEncodeLength zlen u8 Z.shiftl Z.lor]. fold (str_of f v). rewrite u64_small by (unfold is_u64; lia).
    fold (str_huff h (str_of f v)). fold hh. destruct hh; [by rewrite Hlor|done]. }
  assert (E2 : doVarintEncode (mkIE h EncVarintEncode (w_instruction v) idx (if hh then p + 2 ^ F_Param f else p) hh (if hh then HuffmanEncodeLength (str_of f v) else zlen (str_of f v)) (str_of f v)) v out
    = Ok (mkIE h EncWriteString (w_instruction v) idx 0 hh (if hh then HuffmanEncodeLength (str_of f v) else zlen (str_of f v)) (str_of f v),
          out ++ int_enc (if hh then p + 2 ^ F_Param f else p) (F_Param f) (if hh then HuffmanEncodeLength (str_of f v) else zlen (str_of f v)))).
  { unfold doVarintEncode; cbn -[HuffmanEncodeLength zlen qpackEncodeVarint]. rewrite Ef. cbn -[HuffmanEncodeLength zlen qpackEncodeVarint]. rewrite <- encode_varint by (try done; unfold is_u64; destruct hh; lia). unfold str_field in Ht. by destruct (F_Type f). }
  change (3 + fuel)%nat with (S (S (S fuel))). match goal with |- EncodeTo_loop _ ?r _ _ = _ => change r with (mkIE h EncStartString (w_instruction v) idx p uh sl sv) end. cbn [EncodeTo_loop ie_state]. rewrite E1. cbn [res_bind EncodeTo_loop ie_state]. rewrite E2. cbn [res_bind fst snd EncodeTo_loop ie_state].
  unfold doWriteString; cbn -[HuffmanEncode HuffmanEncodeLength zlen]. rewrite (proj1 (huffman_dst _ _ Hb)), <- !app_assoc. by destruct hh.
Qed.

Lemma enc_loop fs : forall fuel e v out, (4 * List.length fs + 2 <= fuel)%nat -> enc_at e v fs -> fits (ie_byte e) fs = true -> values_ok v ->
  exists e', EncodeTo_loop fuel e v out = Ok (e', out ++ fields_image (ie_huffman e) v (ie_byte e) fs) /\ ie_huffman e' = ie_huffman e.
Proof.
  induction fs as [|f fs IH]; intros fuel e v out Hf He Hp Hv.
  - destruct He as (Hs & Hi & Hl & Hd). apply drop_nil_at in Hd; [|done]. exists { e with ie_state := EncDone }. split; [|done]. cbn [List.length] in Hf. rewrite app_nil_r.
    destruct fuel as [|[|fuel]]; [lia..|]. cbn [EncodeTo_loop]. rewrite Hs. unfold enc_doStartField. rewrite Hi, Hd, Nat.eqb_refl. done.
  - cbn [List.length] in Hf. pose proof (fun H => enc_string (fuel - 4) e v out f fs He H Hp) as Hstr. pose proof (fun H => enc_varint (fuel - 2) e v out f fs He H Hp) as Hint.
    unfold str_field, str_of, int_of in *. destruct Hv as [V1 V2 V3 V4 V5 V6]. assert (Hv : values_ok v) by done.
    assert (Hp0 : F_Type f <> FieldSbit -> fits 0 fs = true) by (cbn [fits] in Hp; destruct (F_Type f); try done; bool_simpl; done).
    cbn [fields_image]. destruct (F_Type f) eqn:Et.
    + destruct (enc_field (S (fuel - 2)) e v out f fs He) as (E & Ef & Hl & Hd). replace fuel with (S (S (fuel - 2))) by lia. rewrite E, Et. clear E. destruct He as (Hs & Hi & _ & _).
      destruct e as [h st i idx p uh sl sv]. cbn [ie_huffman ie_state ie_instruction ie_fieldIdx ie_byte] in *. subst st i. cbn [fits] in Hp. rewrite Et in Hp. bool_simpl.
      assert (Hlor : Z.lor p (F_Param f) = p + F_Param f).
      { match goal with H : F_Param f = 2 ^ _ |- _ => rewrite H end. apply (prefix_lor p (Z.log2 (F_Param f) + 1)). { pose proof (Z.log2_nonneg (F_Param f)). split; [lia|]. split; [unfold is_byte; lia|done]. }
        rewrite Z.pow_add_r by (try lia; apply Z.log2_nonneg). pose proof (Z.pow_pos_nonneg 2 (Z.log2 (F_Param f)) ltac:(lia) (Z.log2_nonneg _)). lia. }
      set (e' := mkIE h EncStartField (w_instruction v) (S idx) (if w_sBit v then p + F_Param f else p) uh sl sv).
      destruct (IH (fuel - 2)%nat e' v out) as (e2 & E2 & Hh2); [lia|done|cbn; by destruct (w_sBit v)|done|]. exists e2. split; [|done].
      match goal with |- EncodeTo_loop _ ?r _ _ = _ => change r with (mkIE h EncSbit (w_instruction v) idx p uh sl sv) end. cbn [EncodeTo_loop ie_state]. unfold doSbit; cbn -[Z.lor]. rewrite Ef. cbn -[Z.lor].
      transitivity (EncodeTo_loop (fuel - 2) e' v out); [|exact E2]. unfold e'. rewrite <- Hlor. by destruct (w_sBit v).
    + destruct (Hint ltac:(by left) V1) as (e' & E & He' & Hh & Hb). replace fuel with (2 + (fuel - 2))%nat by lia. rewrite E.
      destruct (IH (fuel - 2)%nat e' v (out ++ int_enc (ie_byte e) (F_Param f) (w_varint v))) as (e2 & E2 & Hh2); [lia|done|rewrite Hb; by apply Hp0|done|]. exists e2. rewrite E2, Hh, Hb, <- app_assoc. by rewrite Hh2.
    + destruct (Hint ltac:(by right) V2) as (e' & E & He' & Hh & Hb). replace fuel with (2 + (fuel - 2))%nat by lia. rewrite E.
      destruct (IH (fuel - 2)%nat e' v (out ++ int_enc (ie_byte e) (F_Param f) (w_varint2 v))) as (e2 & E2 & Hh2); [lia|done|rewrite Hb; by apply Hp0|done|]. exists e2. rewrite E2, Hh, Hb, <- app_assoc. by rewrite Hh2.
    + destruct (Hstr eq_refl V3) as (e' & E & He' & Hh & Hb). replace fuel with (4 + (fuel - 4))%nat by lia. rewrite E.
      destruct (IH (fuel - 4)%nat e' v (out ++ str_image (ie_huffman e) (ie_byte e) (F_Param f) (w_name v))) as (e2 & E2 & Hh2); [lia|done|rewrite Hb; by apply Hp0|done|]. exists e2. rewrite E2, Hh, Hb, <- app_assoc. by rewrite Hh2.
    + destruct (Hstr eq_refl V4) as (e' & E & He' & Hh & Hb). replace fuel with (4 + (fuel - 4))%nat by lia. rewrite E.
      destruct (IH (fuel - 4)%nat e' v (out ++ str_image (ie_huffman e) (ie_byte e) (F_Param f) (w_value v))) as (e2 & E2 & Hh2); [lia|done|rewrite Hb; by apply Hp0|done|]. exists e2. rewrite E2, Hh, Hb, <- app_assoc. by rewrite Hh2.
Qed.
Lemma EncodeTo_image e v out : values_ok v -> exists e', EncodeTo e v out = Ok (e', out ++ image (ie_huffman e) v) /\ ie_huffman e' = ie_huffman e.
Proof.
  intros Hv. set (e0 := mkIE (ie_huffman e) EncStartField (w_instruction v) 0 (Op_Value (Opcode (w_instruction v))) (ie_useHuffman e) (ie_stringLength e) (ie_stringVal e)).
  destruct (enc_loop (Fields (w_instruction v)) 15 e0 v out) as (e' & E & Hh).
  - destruct (w_instruction v); cbn; lia.
  - unfold enc_at. split_and!; try done. cbn. lia.
  - apply instruction_fits.
  - done.
  - exists e'. split; [|exact Hh]. unfold EncodeTo. generalize dependent 15%nat. intros n E. cbn [EncodeTo_loop]. exact E.
Qed.

(** ** The calls a decoder makes

    A delegate that only notes the calls shows what any delegate gets: the run with
    a delegate is the sequence of noted calls applied to its state, up to the first
    one that asks to stop. *)
Inductive levent := Called (v : InstructionWithValues) | Failed (c : InstructionDecoderErrorCode) (m : message).
Definition log_delegate : InstructionDecoderDelegate (list levent) :=
  {| OnInstructionDecoded := fun v l => Ok (l ++ [Called v], true); OnInstructionDecodingError := fun c m l => l ++ [Failed c m] |}.
Definition stopped (d : InstructionDecoder) : InstructionDecoder := { d with id_errorDetected := true }.

Section interp.
Context {T : Type} `{InstructionDecoderDelegate T}.
Fixpoint interp (l : list levent) (s : T) : run (T * bool) :=
  match l with
  | [] => Ok (s, true)
  | Called v :: l' => let* r := OnInstructionDecoded v s in if snd r then interp l' (fst r) else Ok (fst r, false)
  | Failed c m :: l' => interp l' (OnInstructionDecodingError c m s)
  end.
Lemma interp_app l k s : interp (l ++ k) s = let* r := interp l s in if snd r then interp k (fst r) else Ok (fst r, false).
Proof.
  revert s. induction l as [|[v|c m] l IH]; intros s; [cbn; by destruct (interp k s) as [[? []]|[]|]| |apply IH].
  cbn [app interp]. destruct (OnInstructionDecoded v s) as [[s' []]|[]|]; cbn; [apply IH|done..].
Qed.

Lemma step_log d (s : T) l0 data d1 l1 rest : @Decode_step _ log_delegate d l0 data = Ok (d1, l1, rest) ->
  (l1 = l0 /\ Decode_step d s data = Ok (d1, s, rest))
  \/ (exists v, l1 = l0 ++ [Called v] /\ id_errorDetected d1 = id_errorDetected d
       /\ Decode_step d s data = let* r := OnInstructionDecoded v s in Ok (if snd r then d1 else stopped d1, fst r, rest))
  \/ (exists c m, l1 = l0 ++ [Failed c m] /\ id_errorDetected d1 = true /\ Decode_step d s data = Ok (d1, OnInstructionDecodingError c m s, rest)).
Proof.
  unfold Decode_step. destruct (id_state d).
  - unfold doStartInstruction. destruct (index data 0) as [b|[]|]; cbn [res_bind]; [|done]. destruct (id_instruction _); intros [= <- <- <-]; [by left|]. right; right. eauto.
  - unfold doStartField. destruct (id_instruction d) as [i|]; [|done]. destruct (Nat.eqb _ _).
    + cbn [res_bind log_delegate OnInstructionDecoded fst snd]. intros [= <- <- <-]. right; left. eexists. split; [done|]. split; [done|].
      destruct (OnInstructionDecoded _ s) as [[s' []]|[]|]; done.
    + destruct (field_at _ _) as [f|[]|]; cbn [res_bind]; [|done]. intros [= <- <- <-]. by left.
  - destruct (doReadBit d data) as [d'|[]|]; cbn [res_bind]; [|done]. intros [= <- <- <-]. by left.
  - unfold doVarintStart. destruct (cur_field d) as [f|[]|]; cbn [res_bind]; [|done]. destruct (Start _ data) as [[v c] []]; cbn [res_bind snd fst];
      (destruct (slice data c (zlen data)) as [r|[]|]; cbn [res_bind]; [|done]); intros [= <- <- <-]; try (by left). right; right. eauto.
  - unfold doVarintResume. destruct (Resume _ 0 data) as [[v c] []]; cbn [res_bind snd fst];
      (destruct (slice data c (zlen data)) as [r|[]|]; cbn [res_bind]; [|done]); intros [= <- <- <-]; try (by left). right; right. eauto.
  - unfold doVarintDone. destruct (cur_field d) as [f|[]|]; cbn [res_bind]; [|done]. destruct (F_Type f); try (destruct (_ >? _)); cbn [res_bind]; intros [= <- <- <-]; try (by left); right; right; eauto.
  - destruct (doReadString d data) as [[d' c]|[]|]; cbn [res_bind snd fst]; [|done]. destruct (slice data c (zlen data)) as [r|[]|]; cbn [res_bind]; [|done]. intros [= <- <- <-]. by left.
  - unfold doReadStringDone. destruct (if id_isHuffmanEncoded d then _ else _) as [str|e|]; cbn [res_bind]; [|intros [= <- <- <-]; right; right; eauto|done].
    destruct (cur_field d) as [f|[]|]; cbn [res_bind]; [|done]. intros [= <- <- <-]. by left.
Qed.

End interp.

(** What a step adds to the calls. *)
Lemma step_calls d l0 data d1 l1 rest : @Decode_step _ log_delegate d l0 data = Ok (d1, l1, rest) ->
  exists l, l1 = l0 ++ l /\ (l = [] \/ exists e, l = [e])
    /\ forall (T : Type) (H : InstructionDecoderDelegate T) (s : T), id_errorDetected d = false ->
         Decode_step d s data = let* r := interp l s in Ok (if snd r then d1 else stopped d1, fst r, rest).
Proof.
  intros E. destruct (@step_log _ log_delegate d l0 l0 data d1 l1 rest E) as [(-> & _)|[(v & -> & He & _)|(c & m & -> & He & _)]].
  - exists []. rewrite app_nil_r. split; [done|]. split; [by left|]. intros T H s _. destruct (step_log d s l0 data d1 l0 rest E) as [(_ & Es)|[(v & Ev & _)|(c & m & Ev & _)]]; [exact Es|..]; apply (f_equal List.length) in Ev; rewrite length_app in Ev; cbn in Ev; lia.
  - exists [Called v]. split; [done|]. split; [by right; eexists|]. intros T H s Hd. destruct (step_log d s l0 data d1 _ rest E) as [(Ev & _)|[(v' & Ev & _ & Es)|(c & m & Ev & _)]].
    + apply (f_equal List.length) in Ev. rewrite length_app in Ev. cbn in Ev. lia.
    + apply app_inv_head in Ev as [= ->]. rewrite Es. cbn [interp]. by destruct (OnInstructionDecoded v' s) as [[s' []]|[]|].
    + by apply app_inv_head in Ev.
  - exists [Failed c m]. split; [done|]. split; [by right; eexists|]. intros T H s _. destruct (step_log d s l0 data d1 _ rest E) as [(Ev & _)|[(v' & Ev & _ & Es)|(c' & m' & Ev & _ & Es)]].
    + apply (f_equal List.length) in Ev. rewrite length_app in Ev. cbn in Ev. lia.
    + by apply app_inv_head in Ev.
    + apply app_inv_head in Ev as [= -> ->]. exact Es.
Qed.

Lemma loop_log fuel : forall d l0 data d1 l1 ok, id_errorDetected d = false -> @Decode_loop _ log_delegate fuel d l0 data = Ok (d1, l1, ok) ->
  exists l, l1 = l0 ++ l /\ forall (T : Type) (H : InstructionDecoderDelegate T) (s : T),
    exists d2, Decode_loop fuel d s data = let* r := interp l s in Ok (if snd r then d1 else d2, fst r, snd r && ok).
Proof.
  induction fuel as [|fuel IH]; intros d l0 data d1 l1 ok Hd; [done|]. cbn [Decode_loop]. destruct (decoding d data).
  - destruct (@Decode_step _ log_delegate d l0 data) as [[[d' l'] rest]|[]|] eqn:E; cbn [res_bind]; [|done].
    destruct (step_calls d l0 data d' l' rest E) as (l & -> & _ & Hs). destruct (id_errorDetected d') eqn:Ed.
    + intros [= <- <- <-]. exists l. split; [done|]. intros T H s. rewrite Hs by done. exists (stopped d'). destruct (interp l s) as [[s' []]|[]|]; cbn [res_bind fst snd andb]; [by rewrite Ed|done..].
    + intros Hl. destruct (IH d' _ rest d1 l1 ok Ed Hl) as (k & -> & Hk). exists (l ++ k). rewrite app_assoc. split; [done|]. intros T H s. rewrite Hs by done.
      destruct (interp l s) as [[s' []]|[]|] eqn:Ei.
      * destruct (Hk T H s') as [d2 E2]. exists d2. rewrite interp_app, Ei. cbn [res_bind fst snd]. by rewrite Ed.
      * exists (stopped d'). rewrite interp_app, Ei. done.
      * exists d'. rewrite interp_app, Ei. done.
  - intros [= <- <- <-]. exists []. rewrite app_nil_r. split; [done|]. intros T H s. by exists d.
Qed.

(** ** Termination *)
Definition at_field (d : InstructionDecoder) (P : InstructionField -> Prop) : Prop :=
  exists i f, id_instruction d = Some i /\ Fields i !! id_fieldIdx d = Some f /\ P f.
Definition not_sbit (f : InstructionField) : Prop := F_Type f <> FieldSbit.
Definition state_ok (d : InstructionDecoder) : Prop :=
  match id_state d with
  | StateStartInstruction => True
  | StateStartField => exists i, id_instruction d = Some i /\ (id_fieldIdx d <= List.length (Fields i))%nat
  | StateReadBit => at_field d (fun f => F_Type f = FieldSbit \/ str_field f = true)
  | StateVarintStart => at_field d not_sbit
  | StateVarintResume | StateVarintDone => at_field d not_sbit
  | StateReadString => at_field d (fun f => str_field f = true) /\ zlen (id_stringBuffer d) < id_stringLength d <= qpackStringLiteralLengthLimit
  | StateReadStringDone => at_field d (fun f => str_field f = true)
  end.
Record id_wf (d : InstructionDecoder) : Prop := {
  wf_state : state_ok d;
  wf_vd : is_u64 (vd_value (id_varintDecoder d));
  wf_buffer : bytes_ok (id_stringBuffer d)
}.
Definition rank (d : InstructionDecoder) : nat :=
  match id_state d with
  | StateStartInstruction => 6
  | StateStartField => match cur_field d with Ok f => match F_Type f with FieldSbit => 5 | _ => 3 end | _ => 7 end
  | StateReadBit => match cur_field d with Ok f => match F_Type f with FieldSbit => 4 | _ => 2 end | _ => 2 end
  | StateVarintStart | StateVarintResume | StateReadString => 1
  | StateVarintDone => 9
  | StateReadStringDone => 8
  end.
Definition size (d : InstructionDecoder) (data : bytes) : nat := (10 * List.length data + rank d)%nat.

Lemma rank_bound d : (rank d <= 9)%nat.
Proof. unfold rank. destruct (id_state d); try lia; destruct (cur_field d) as [f|e|]; try lia; destruct (F_Type f); lia. Qed.
Lemma start_rank d : id_state d = StateStartField -> (rank d <= 7)%nat.
Proof. unfold rank. intros ->. destruct (cur_field d) as [f|e|]; try lia. destruct (F_Type f); lia. Qed.
(** A flag bit is not the last field, and an integer follows. *)
Lemma sbit_next i k f : Fields i !! k = Some f -> F_Type f = FieldSbit -> exists g, Fields i !! S k = Some g /\ not_sbit g.
Proof. destruct i; destruct k as [|[|[|k]]]; cbn; intros [= <-]; cbn; try done; intros _; eexists; (split; [done|]); done. Qed.
Lemma fields_nonempty i : exists f, Fields i !! 0%nat = Some f.
Proof. destruct i; by eexists. Qed.

Lemma Resume_spec data : forall v c v' c' st, is_u64 (vd_value v) -> bytes_ok data -> Resume v c data = (v', c', st) ->
  is_u64 (vd_value v') /\ c <= c' <= c + zlen data /\ (data <> [] -> c < c') /\ (st = StatusInProgress -> c' = c + zlen data).
Proof.
  induction data as [|b data IH]; intros v c v' c' st Hv Hb E; cbn [Resume] in E.
  - injection E as <- <- <-. rewrite zlen_nil. split; [done|]. split; [lia|]. split; [done|lia].
  - apply bytes_ok_cons in Hb as [Hb Hd]. rewrite zlen_cons. pose proof (zlen_nonneg data). destruct (vd_offset v <? 63).
    + destruct (Z.land b 0x80 =? 0); [injection E as <- <- <-; split; [apply u64_range|]; split; [lia|split; [lia|done]]|].
      apply IH in E as (H1 & H2 & H3 & H4); [|apply u64_range|done]. split; [done|]. split; [lia|]. split; [lia|]. intros Hst. specialize (H4 Hst). lia.
    + destruct (_ && _ && _); injection E as <- <- <-; (split; [first [apply u64_range|exact Hv]|]; split; [lia|split; [lia|done]]).
Qed.
Lemma land_le a m : 0 <= a -> Z.land a m <= a.
Proof.
  intros Ha. assert (E : a - Z.land a m = Z.ldiff a (Z.land a m)).
  { apply Z.sub_nocarry_ldiff. apply Z.bits_inj'. intros i Hi. rewrite Z.ldiff_spec, Z.land_spec, Z.bits_0. by destruct (Z.testbit a i), (Z.testbit m i). }
  assert (0 <= Z.ldiff a (Z.land a m)) by (apply Z.ldiff_nonneg; by left). lia.
Qed.
Lemma Start_spec n data v' c' st : bytes_ok data -> data <> [] -> Start n data = (v', c', st) ->
  is_u64 (vd_value v') /\ 1 <= c' <= zlen data /\ (st = StatusInProgress -> c' = zlen data).
Proof.
  destruct data as [|b data]; [done|]. intros Hb _ E. apply bytes_ok_cons in Hb as [Hb Hd]. rewrite zlen_cons. pose proof (zlen_nonneg data). cbn [Start] in E.
  assert (Hu : is_u64 (Z.land b (u8 (Z.shiftl 1 n - 1)))).
  { pose proof (u8_range (Z.shiftl 1 n - 1)) as Hm. unfold is_u64, is_byte in *. split; [apply Z.land_nonneg; lia|]. apply (Z.le_lt_trans _ b); [|lia]. apply land_le. lia. }
  destruct (_ <? _); [injection E as <- <- <-; split; [exact Hu|]; split; [lia|done]|].
  destruct (Resume _ 0 data) as [[v c] s] eqn:ER. injection E as <- <- <-. apply Resume_spec in ER as (H1 & H2 & H3 & H4); [|exact Hu|done]. split; [done|]. split; [lia|]. intros Hs. specialize (H4 Hs). lia.
Qed.
Lemma huffman_total src : bytes_ok src -> (exists s, HuffmanDecodeToString src = Ok s) \/ HuffmanDecodeToString src = Err ErrInvalidHuffman.
Proof.
  intros Hs. unfold HuffmanDecodeToString. pose proof (decode_spec [] src Hs) as Hd. destruct (spec_decode _); [rewrite Hd; left; by eexists|]. destruct Hd as [d ->]. by right.
Qed.
Lemma cur_of d i f : id_instruction d = Some i -> Fields i !! id_fieldIdx d = Some f -> cur_field d = Ok f.
Proof. intros Hi Hf. unfold cur_field, field_at. by rewrite Hi, Hf. Qed.
Lemma data_head {E} (data : bytes) : data <> [] -> exists b, index (E := E) data 0 = Ok b.
Proof. destruct data as [|b data]; [done|]. intros _. unfold index. rewrite zlen_cons. pose proof (zlen_nonneg data). replace (0 <? 1 + zlen data) with true by lia. by eexists. Qed.
Lemma slice_tail {E} (data : bytes) c : 0 <= c <= zlen data -> slice (E := E) data c (zlen data) = Ok (zdrop c data).
Proof. intros Hc. rewrite slice_ok by lia. f_equal. apply ztake_all. rewrite zlen_zdrop by lia. lia. Qed.

Definition step_fine (d : InstructionDecoder) (l0 : list levent) (data : bytes) : Prop :=
  exists d1 l1 rest, @Decode_step _ log_delegate d l0 data = Ok (d1, l1, rest) /\ bytes_ok rest /\ id_language d1 = id_language d
    /\ (id_errorDetected d1 = false -> id_wf d1 /\ (size d1 rest < size d data)%nat).
Lemma size_same d d1 data : (rank d1 < rank d)%nat -> (size d1 data < size d data)%nat.
Proof. unfold size. lia. Qed.
Lemma size_less d d1 (data : bytes) c : (1 <= rank d)%nat -> 1 <= c <= zlen data -> (size d1 (zdrop c data) < size d data)%nat.
Proof. intros Hr Hc. pose proof (rank_bound d1). unfold size, zdrop, zlen in *. rewrite length_drop. lia. Qed.
Lemma rank_start d i : id_state d = StateStartField -> id_instruction d = Some i ->
  rank d = match Fields i !! id_fieldIdx d with Some f => match F_Type f with FieldSbit => 5%nat | _ => 3%nat end | None => 7%nat end.
Proof. intros Hs Hi. unfold rank, cur_field, field_at. rewrite Hs, Hi. by destruct (Fields i !! id_fieldIdx d). Qed.

Lemma fine_start_instruction d l0 data : id_wf d -> bytes_ok data -> id_state d = StateStartInstruction -> data <> [] -> step_fine d l0 data.
Proof.
  intros [Hs Hv Hb] Hd Es Hn. unfold step_fine, Decode_step. rewrite Es. unfold doStartInstruction. destruct (data_head (E := Empty_set) data Hn) as [b ->]. cbn [res_bind].
  destruct (id_instruction _) as [i|] eqn:Ei; do 3 eexists; (split; [reflexivity|]); (split; [exact Hd|]); (split; [reflexivity|]); [|done].
  intros _. destruct (fields_nonempty i) as [f Hf]. split.
  - split; [|exact Hv|exact Hb]. exists i. split; [exact Ei|]. cbn. lia.
  - apply size_same. erewrite rank_start; [|reflexivity|exact Ei]. cbn [id_fieldIdx]. replace (rank d) with 6%nat by (unfold rank; by rewrite Es). change (0%nat) with O in Hf.
    match goal with |- context [Fields i !! ?n] => change n with 0%nat end. rewrite Hf. destruct (F_Type f); lia.
Qed.
Lemma fine_start_field d l0 data : id_wf d -> bytes_ok data -> id_state d = StateStartField -> step_fine d l0 data.
Proof.
  intros [Hs Hv Hb] Hd Es. unfold step_fine, Decode_step. rewrite Es. unfold doStartField. unfold state_ok in Hs. rewrite Es in Hs. destruct Hs as (i & Hi & Hl). rewrite Hi.
  pose proof (rank_start d i Es Hi) as Hr. destruct (Nat.eqb _ _) eqn:En.
  - apply Nat.eqb_eq in En. cbn [res_bind]. do 3 eexists. split; [reflexivity|]. split; [exact Hd|]. split; [reflexivity|]. intros _. split; [split; [exact I|exact Hv|exact Hb]|].
    apply size_same. rewrite Hr, lookup_ge_None_2 by lia. cbn. lia.
  - apply Nat.eqb_neq in En. destruct (lookup_lt_is_Some_2 (Fields i) (id_fieldIdx d)) as [f Hf]; [lia|]. unfold field_at. rewrite Hf. cbn [res_bind]. do 3 eexists. split; [reflexivity|]. split; [exact Hd|]. split; [reflexivity|]. intros _. split.
    + split; [|exact Hv|exact Hb]. unfold state_ok. cbn [id_state]. unfold at_field, not_sbit, str_field. destruct (F_Type f) eqn:Et; exists i, f; (split; [exact Hi|]); (split; [exact Hf|]); rewrite Et; auto; discriminate.
    + apply size_same. rewrite Hr, Hf. unfold rank. cbn [id_state]. destruct (F_Type f) eqn:Et; try (cbn; lia); match goal with |- context [cur_field ?x] => change (cur_field x) with (cur_field d) end; rewrite (cur_of d i f Hi Hf); cbn; rewrite Et; lia.
Qed.
Lemma fine_read_bit d l0 data : id_wf d -> bytes_ok data -> id_state d = StateReadBit -> data <> [] -> step_fine d l0 data.
Proof.
  intros [Hs Hv Hb] Hd Es Hn. unfold step_fine, Decode_step. rewrite Es. unfold doReadBit. unfold state_ok in Hs. rewrite Es in Hs. destruct Hs as (i & f & Hi & Hf & Ht).
  rewrite (cur_of d i f Hi Hf). destruct (data_head (E := Empty_set) data Hn) as [b ->]. cbn [res_bind].
  assert (Hr : rank d = match F_Type f with FieldSbit => 4%nat | _ => 2%nat end) by (unfold rank; rewrite Es, (cur_of d i f Hi Hf); done).
  destruct (F_Type f) eqn:Et; try (exfalso; unfold str_field in Ht; rewrite Et in Ht; destruct Ht; discriminate); cbn [res_bind]; do 3 eexists; (split; [reflexivity|]); (split; [exact Hd|]); (split; [reflexivity|]); intros _.
  - destruct (sbit_next i _ f Hf Et) as (g & Hg & Hgn). split.
    + split; [|exact Hv|exact Hb]. exists i. split; [exact Hi|]. cbn. apply lookup_lt_Some in Hf. lia.
    + apply size_same. erewrite rank_start; [|reflexivity|exact Hi]. match goal with |- context [Fields i !! ?n] => change n with (S (id_fieldIdx d)) end. rewrite Hg, Hr. unfold not_sbit in Hgn. destruct (F_Type g); try done; lia.
  - split; [split; [|exact Hv|exact Hb]|apply size_same; rewrite Hr; cbn; lia]. exists i, f. split; [exact Hi|]. split; [exact Hf|]. unfold not_sbit. by rewrite Et.
  - split; [split; [|exact Hv|exact Hb]|apply size_same; rewrite Hr; cbn; lia]. exists i, f. split; [exact Hi|]. split; [exact Hf|]. unfold not_sbit. by rewrite Et.
Qed.
Lemma fine_varint_start d l0 data : id_wf d -> bytes_ok data -> id_state d = StateVarintStart -> data <> [] -> step_fine d l0 data.
Proof.
  intros [Hs Hv Hb] Hd Es Hn. unfold step_fine, Decode_step. rewrite Es. unfold doVarintStart. unfold state_ok in Hs. rewrite Es in Hs. pose proof Hs as (i & f & Hi & Hf & Ht).
  rewrite (cur_of d i f Hi Hf). cbn [res_bind]. destruct (Start (F_Param f) data) as [[v c] st] eqn:E. destruct (Start_spec _ _ _ _ _ Hd Hn E) as (Hvu & Hc & _).
  assert (Hr : rank d = 1%nat) by (unfold rank; by rewrite Es).
  destruct st; cbn [res_bind snd fst]; (rewrite slice_tail by lia); cbn [res_bind]; do 3 eexists; (split; [reflexivity|]); (split; [by apply bytes_ok_zdrop|]); (split; [reflexivity|]); [..|done]; intros _;
    (split; [split; [exact Hs|exact Hvu|exact Hb]|apply size_less; lia]).
Qed.
Lemma fine_varint_resume d l0 data : id_wf d -> bytes_ok data -> id_state d = StateVarintResume -> data <> [] -> step_fine d l0 data.
Proof.
  intros [Hs Hv Hb] Hd Es Hn. unfold step_fine, Decode_step. rewrite Es. unfold doVarintResume. unfold state_ok in Hs. rewrite Es in Hs.
  destruct (Resume (id_varintDecoder d) 0 data) as [[v c] st] eqn:E. destruct (Resume_spec _ _ _ _ _ _ Hv Hd E) as (Hvu & Hc & Hc1 & _). specialize (Hc1 Hn).
  assert (Hr : rank d = 1%nat) by (unfold rank; by rewrite Es).
  destruct st; cbn [res_bind snd fst]; (rewrite slice_tail by lia); cbn [res_bind]; do 3 eexists; (split; [reflexivity|]); (split; [by apply bytes_ok_zdrop|]); (split; [reflexivity|]); [..|done]; intros _;
    (split; [split; [|exact Hvu|exact Hb]|apply size_less; lia]).
  - exact Hs.
  - unfold state_ok. match goal with |- context [id_state ?x] => change (id_state x) with (id_state d) end. rewrite Es. exact Hs.
Qed.
Lemma fine_varint_done d l0 data : id_wf d -> bytes_ok data -> id_state d = StateVarintDone -> step_fine d l0 data.
Proof.
  intros [Hs Hv Hb] Hd Es. unfold step_fine, Decode_step. rewrite Es. unfold doVarintDone. unfold state_ok in Hs. rewrite Es in Hs. destruct Hs as (i & f & Hi & Hf & Ht).
  rewrite (cur_of d i f Hi Hf). cbn [res_bind]. assert (Hr : rank d = 9%nat) by (unfold rank; by rewrite Es). pose proof (lookup_lt_Some _ _ _ Hf) as Hlt.
  assert (Hstr : str_field f = true -> step_fine d l0 data).
  { intros Hsf. unfold step_fine, Decode_step. rewrite Es. unfold doVarintDone. rewrite (cur_of d i f Hi Hf). cbn [res_bind]. unfold str_field in Hsf. destruct (F_Type f) eqn:Et; try done;
      (destruct (vd_value (id_varintDecoder d) >? qpackStringLiteralLengthLimit) eqn:El; bool_simpl; cbn [res_bind]; do 3 eexists; (split; [reflexivity|]); (split; [exact Hd|]); (split; [reflexivity|]); [done|]; intros _; split;
        [split; [|exact Hv|apply Forall_nil_2]|apply size_same; rewrite Hr; unfold rank; match goal with |- context [if ?b then StateReadStringDone else _] => destruct b end; cbn; lia];
       unfold state_ok; cbn [id_state]; match goal with |- context [if ?b =? 0 then _ else _] => change b with (vd_value (id_varintDecoder d)) end; destruct (vd_value (id_varintDecoder d) =? 0) eqn:E0; bool_simpl;
        [exists i, f; (split; [exact Hi|]); (split; [exact Hf|]); unfold str_field; by rewrite Et|];
        split; [exists i, f; (split; [exact Hi|]); (split; [exact Hf|]); unfold str_field; by rewrite Et|]; split; [|exact El]; unfold is_u64 in Hv; change (0 < vd_value (id_varintDecoder d)); lia). }
  destruct (F_Type f) eqn:Et.
  - by unfold not_sbit in Ht.
  - cbn [res_bind]. do 3 eexists. split; [reflexivity|]. split; [exact Hd|]. split; [reflexivity|]. intros _. split; [split; [|exact Hv|exact Hb]|].
    + exists i. split; [exact Hi|]. cbn. lia.
    + apply size_same. rewrite Hr. pose proof (start_rank { { { d with id_varint := vd_value (id_varintDecoder d) } with id_fieldIdx := S (id_fieldIdx d) } with id_state := StateStartField } eq_refl) as Hx. unfold size, rank in *. cbn in *. lia.
  - cbn [res_bind]. do 3 eexists. split; [reflexivity|]. split; [exact Hd|]. split; [reflexivity|]. intros _. split; [split; [|exact Hv|exact Hb]|].
    + exists i. split; [exact Hi|]. cbn. lia.
    + apply size_same. rewrite Hr. pose proof (start_rank { { { d with id_varint2 := vd_value (id_varintDecoder d) } with id_fieldIdx := S (id_fieldIdx d) } with id_state := StateStartField } eq_refl) as Hx. unfold size, rank in *. cbn in *. lia.
  - assert (Hx : step_fine d l0 data) by (apply Hstr; unfold str_field; by rewrite Et). unfold step_fine, Decode_step in Hx. rewrite Es in Hx. unfold doVarintDone in Hx. rewrite (cur_of d i f Hi Hf) in Hx. cbn [res_bind] in Hx. rewrite Et in Hx. exact Hx.
  - assert (Hx : step_fine d l0 data) by (apply Hstr; unfold str_field; by rewrite Et). unfold step_fine, Decode_step in Hx. rewrite Es in Hx. unfold doVarintDone in Hx. rewrite (cur_of d i f Hi Hf) in Hx. cbn [res_bind] in Hx. rewrite Et in Hx. exact Hx.
Qed.
Lemma fine_read_string d l0 data : id_wf d -> bytes_ok data -> id_state d = StateReadString -> data <> [] -> step_fine d l0 data.
Proof.
  intros [Hs Hv Hb] Hd Es Hn. unfold step_fine, Decode_step. rewrite Es. unfold doReadString. unfold state_ok in Hs. rewrite Es in Hs. destruct Hs as (Hf & Hl).
  unfold qpackStringLiteralLengthLimit in Hl. pose proof (zlen_nonneg (id_stringBuffer d)). rewrite i64_small by lia. set (k := Z.min (zlen data) (id_stringLength d - zlen (id_stringBuffer d))).
  assert (Hk : 1 <= k <= zlen data). { assert (1 <= zlen data) by (destruct data; [done|]; rewrite zlen_cons; pose proof (zlen_nonneg data); lia). lia. }
  rewrite slice_ok by lia. cbn [res_bind snd fst]. rewrite slice_tail by lia. cbn [res_bind]. assert (Hr : rank d = 1%nat) by (unfold rank; by rewrite Es).
  replace (k - 0) with k by lia. rewrite zdrop_0. assert (Hz : zlen (id_stringBuffer d ++ ztake k data) = zlen (id_stringBuffer d) + k) by (rewrite zlen_app, zlen_ztake by lia; done).
  assert (Hbuf : bytes_ok (id_stringBuffer d ++ ztake k data)) by (apply bytes_ok_app; split; [done|by apply bytes_ok_ztake]).
  match goal with |- context [if ?c =? ?e then _ else _] => change (c =? e) with (zlen (id_stringBuffer d ++ ztake k data) =? id_stringLength d) end. rewrite Hz.
  destruct (_ =? _) eqn:E; bool_simpl; do 3 eexists; (split; [reflexivity|]); (split; [by apply bytes_ok_zdrop|]); (split; [reflexivity|]); intros _; (split; [split; [|exact Hv|exact Hbuf]|apply size_less; lia]).
  - exact Hf.
  - unfold state_ok. match goal with |- context [id_state ?x] => change (id_state x) with (id_state d) end. rewrite Es. split; [exact Hf|]. unfold qpackStringLiteralLengthLimit.
    change (zlen (id_stringBuffer d ++ ztake k data) < id_stringLength d <= 1024 * 1024). rewrite Hz. lia.
Qed.
Lemma fine_read_string_done d l0 data : id_wf d -> bytes_ok data -> id_state d = StateReadStringDone -> step_fine d l0 data.
Proof.
  intros [Hs Hv Hb] Hd Es. unfold step_fine, Decode_step. rewrite Es. unfold doReadStringDone. unfold state_ok in Hs. rewrite Es in Hs. destruct Hs as (i & f & Hi & Hf & Ht).
  assert (Hr : rank d = 8%nat) by (unfold rank; by rewrite Es). pose proof (lookup_lt_Some _ _ _ Hf) as Hlt.
  assert (Hdec : (exists str, (if id_isHuffmanEncoded d then HuffmanDecodeToString (id_stringBuffer d) else Ok (id_stringBuffer d)) = Ok str)
    \/ (exists e, (if id_isHuffmanEncoded d then HuffmanDecodeToString (id_stringBuffer d) else Ok (id_stringBuffer d)) = Err e)).
  { destruct (id_isHuffmanEncoded d); [|left; by eexists]. destruct (huffman_total _ Hb) as [H|H]; [by left|right; by eexists]. }
  destruct Hdec as [[str ->]|[e ->]]; [|cbn [res_bind]; do 3 eexists; (split; [reflexivity|]); (split; [exact Hd|]); (split; [reflexivity|]); done].
  rewrite (cur_of d i f Hi Hf). cbn [res_bind]. do 3 eexists. split; [reflexivity|]. split; [exact Hd|]. split; [by destruct (F_Type f)|]. intros _. split; [split|].
  - exists i. destruct (F_Type f); (split; [exact Hi|]); exact Hlt.
  - by destruct (F_Type f).
  - by destruct (F_Type f).
  - apply size_same. rewrite Hr. match goal with |- (rank ?x < 8)%nat => pose proof (start_rank x eq_refl) end. lia.
Qed.
Lemma step_total d l0 data : id_wf d -> bytes_ok data -> decoding d data = true -> step_fine d l0 data.
Proof.
  intros Hw Hd Hdec. assert (Hcase : data <> [] \/ (id_state d = StateStartField \/ id_state d = StateVarintDone \/ id_state d = StateReadStringDone)).
  { unfold decoding in Hdec. destruct data; [|by left]. right. destruct (id_state d); auto; discriminate. }
  destruct (id_state d) eqn:Es.
  - apply fine_start_instruction; try done. destruct Hcase as [H|[H|[H|H]]]; [done|discriminate..].
  - by apply fine_start_field.
  - apply fine_read_bit; try done. destruct Hcase as [H|[H|[H|H]]]; [done|discriminate..].
  - apply fine_varint_start; try done. destruct Hcase as [H|[H|[H|H]]]; [done|discriminate..].
  - apply fine_varint_resume; try done. destruct Hcase as [H|[H|[H|H]]]; [done|discriminate..].
  - by apply fine_varint_done.
  - apply fine_read_string; try done. destruct Hcase as [H|[H|[H|H]]]; [done|discriminate..].
  - by apply fine_read_string_done.
Qed.

(** ** Runs of the loop, whatever the fuel *)
Definition runs (d : InstructionDecoder) (l : list levent) (data : bytes) (d' : InstructionDecoder) (l' : list levent) (ok : bool) : Prop :=
  exists fuel, @Decode_loop _ log_delegate fuel d l data = Ok (d', l', ok).
Lemma loop_mono fuel k : forall d l data r, @Decode_loop _ log_delegate fuel d l data = Ok r -> @Decode_loop _ log_delegate (fuel + k) d l data = Ok r.
Proof.
  induction fuel as [|fuel IH]; intros d l data r; [done|]. cbn [Nat.add Decode_loop]. destruct (decoding d data); [|done].
  destruct (@Decode_step _ log_delegate d l data) as [[[d1 l1] rest]|[]|]; cbn [res_bind]; [|done]. destruct (id_errorDetected d1); [done|]. apply IH.
Qed.
Lemma runs_fun d l data d1 l1 ok1 d2 l2 ok2 : runs d l data d1 l1 ok1 -> runs d l data d2 l2 ok2 -> d1 = d2 /\ l1 = l2 /\ ok1 = ok2.
Proof.
  intros [f1 H1] [f2 H2]. apply (loop_mono _ f2) in H1. apply (loop_mono _ f1) in H2. rewrite Nat.add_comm in H2. rewrite H1 in H2. by injection H2.
Qed.
Lemma runs_stop d l data : decoding d data = false -> runs d l data d l true.
Proof. intros H. exists 1%nat. cbn [Decode_loop]. by rewrite H. Qed.
Lemma runs_step d l data d1 l1 rest d' l' ok : decoding d data = true -> @Decode_step _ log_delegate d l data = Ok (d1, l1, rest) -> id_errorDetected d1 = false ->
  runs d1 l1 rest d' l' ok -> runs d l data d' l' ok.
Proof. intros Hd Hs He [f Hf]. exists (S f). cbn [Decode_loop]. rewrite Hd, Hs. cbn [res_bind]. by rewrite He. Qed.
Lemma runs_error d l data d1 l1 rest : decoding d data = true -> @Decode_step _ log_delegate d l data = Ok (d1, l1, rest) -> id_errorDetected d1 = true -> runs d l data d1 l1 false.
Proof. intros Hd Hs He. exists 1%nat. cbn [Decode_loop]. rewrite Hd, Hs. cbn [res_bind]. by rewrite He. Qed.
Lemma runs_inv d l data d' l' ok : runs d l data d' l' ok ->
  (decoding d data = false /\ d' = d /\ l' = l /\ ok = true)
  \/ (decoding d data = true /\ exists d1 l1 rest, @Decode_step _ log_delegate d l data = Ok (d1, l1, rest)
       /\ ((id_errorDetected d1 = true /\ d' = d1 /\ l' = l1 /\ ok = false) \/ (id_errorDetected d1 = false /\ runs d1 l1 rest d' l' ok))).
Proof.
  intros [[|f] Hf]; [done|]. cbn [Decode_loop] in Hf. destruct (decoding d data); [right|left; by injection Hf as <- <- <-]. split; [done|].
  destruct (@Decode_step _ log_delegate d l data) as [[[d1 l1] rest]|[]|]; cbn [res_bind] in Hf; [|done]. exists d1, l1, rest. split; [done|]. destruct (id_errorDetected d1); [left; by injection Hf as <- <- <-|right; split; [done|by exists f]].
Qed.

(** Enough fuel. *)
Lemma loop_total n : forall d l data, id_wf d -> id_errorDetected d = false -> bytes_ok data -> (size d data < n)%nat ->
  exists d' l' ok, @Decode_loop _ log_delegate n d l data = Ok (d', l', ok) /\ id_language d' = id_language d
    /\ (ok = true -> id_wf d' /\ id_errorDetected d' = false /\ decoding d' [] = false) /\ (ok = false -> id_errorDetected d' = true).
Proof.
  induction n as [|n IH]; intros d l data Hw He Hd Hn; [lia|]. cbn [Decode_loop]. destruct (decoding d data) eqn:E.
  - destruct (step_total d l data Hw Hd E) as (d1 & l1 & rest & -> & Hr & Hlang & Hnext). cbn [res_bind]. destruct (id_errorDetected d1) eqn:E1; [by exists d1, l1, false|].
    destruct (Hnext eq_refl) as [Hw1 Hs1]. destruct (IH d1 l1 rest Hw1 E1 Hr ltac:(lia)) as (d' & l' & ok & -> & Hl' & H). exists d', l', ok. split; [done|]. by rewrite Hl'.
  - exists d, l, true. split; [done|]. split; [done|]. split; [|done]. intros _. split; [done|]. split; [done|]. unfold decoding in E. by destruct data.
Qed.
Lemma fuel_enough d data : (size d data < decode_fuel data)%nat.
Proof. pose proof (rank_bound d). unfold size, decode_fuel. lia. Qed.

(** ** Cutting the input *)
Lemma Resume_app a b : forall v c, Resume v c (a ++ b) = let '(v', c', st) := Resume v c a in match st with StatusInProgress => Resume v' c' b | _ => (v', c', st) end.
Proof.
  induction a as [|x a IH]; intros v c; [done|]. cbn [app Resume]. destruct (vd_offset v <? 63); [|by destruct (_ && _ && _)]. destruct (Z.land x 0x80 =? 0); [done|]. apply IH.
Qed.
Lemma Resume_shift data : forall v c, Resume v c data = let '(v', c', st) := Resume v 0 data in (v', c + c', st).
Proof.
  induction data as [|x data IH]; intros v c; cbn [Resume]; [f_equal; f_equal; lia|]. destruct (vd_offset v <? 63); [|by destruct (_ && _ && _)]. destruct (Z.land x 0x80 =? 0); [done|].
  rewrite (IH _ (c + 1)), (IH _ (0 + 1)). destruct (Resume _ 0 data) as [[v' c'] st]. do 2 f_equal. lia.
Qed.
Lemma slice_tail_app {E} (a b : bytes) c : 0 <= c <= zlen a -> slice (E := E) (a ++ b) c (zlen (a ++ b)) = Ok (zdrop c a ++ b).
Proof.
  intros Hc. pose proof (zlen_nonneg b). rewrite slice_tail by (rewrite zlen_app; lia). f_equal. unfold zdrop, zlen in *. rewrite drop_app_le by lia. done.
Qed.
Lemma head_app {E} (a b : bytes) : a <> [] -> index (E := E) (a ++ b) 0 = index a 0.
Proof.
  destruct a as [|x a]; [done|]. intros _. unfold index. cbn [app]. rewrite !zlen_cons. pose proof (zlen_nonneg a). pose proof (zlen_nonneg (a ++ b)). by replace (0 <? 1 + zlen (a ++ b)) with true by lia; replace (0 <? 1 + zlen a) with true by lia.
Qed.
Definition cut_fine (d : InstructionDecoder) (l : list levent) (a b : bytes) (da : InstructionDecoder) (la : list levent) (ra : bytes) : Prop :=
  @Decode_step _ log_delegate d l (a ++ b) = Ok (da, la, ra ++ b)
  \/ (ra = [] /\ la = l /\ id_errorDetected da = id_errorDetected d /\ decoding da [] = false
       /\ (b <> [] -> exists dx dy lx rest, @Decode_step _ log_delegate d l (a ++ b) = Ok (dx, lx, rest) /\ @Decode_step _ log_delegate da l b = Ok (dy, lx, rest)
            /\ (dx = dy \/ (id_errorDetected dx = true /\ id_errorDetected dy = true)))).

Lemma cut_start d l a b da la ra : bytes_ok a -> bytes_ok b -> a <> [] -> id_wf d -> id_state d = StateVarintStart ->
  @Decode_step _ log_delegate d l a = Ok (da, la, ra) -> cut_fine d l a b da la ra.
Proof.
  intros Ha Hb Hn [Hs _ _] Es. unfold cut_fine. unfold Decode_step at 1 2 3. rewrite Es. unfold state_ok in Hs. rewrite Es in Hs. destruct Hs as (i & f & Hi & Hf & Ht).
  unfold doVarintStart. rewrite (cur_of d i f Hi Hf). cbn [res_bind]. destruct (Start (F_Param f) a) as [[v c] st] eqn:E. destruct (Start_spec _ _ _ _ _ Ha Hn E) as (Hv & Hc & Hp).
  assert (Ea : Start (F_Param f) (a ++ b) = match st with StatusInProgress => Resume v c b | _ => (v, c, st) end).
  { destruct a as [|x a]; [done|]. cbn [app Start] in *. destruct (_ <? _); [by injection E as <- <- <-|]. rewrite Resume_app. destruct (Resume _ 0 a) as [[v1 c1] s1] eqn:E1. injection E as <- <- <-.
    destruct s1; [done| |done]. rewrite (Resume_shift b v1 c1), (Resume_shift b v1 (1 + c1)). destruct (Resume v1 0 b) as [[v2 c2] s2]. do 2 f_equal. lia. }
  rewrite Ea. destruct st; cbn [res_bind snd fst]; rewrite slice_tail by lia; cbn [res_bind]; intros [= <- <- <-].
  - left. by rewrite slice_tail_app by lia.
  - right. specialize (Hp eq_refl). subst c. split; [apply zdrop_all; lia|]. split; [done|]. split; [done|]. split; [done|]. intros Hbn. unfold Decode_step. cbn [id_state]. unfold doVarintResume. cbn [id_varintDecoder].
    rewrite (Resume_shift b v (zlen a)). destruct (Resume v 0 b) as [[v2 c2] s2] eqn:E2. destruct (Resume_spec _ _ _ _ _ _ Hv Hb E2) as (_ & Hc2 & _).
    assert (Ez : zdrop (zlen a + c2) (a ++ b) = zdrop c2 b) by (rewrite <- zdrop_zdrop by lia; by rewrite zdrop_app).
    destruct s2; cbn [snd fst res_bind]; (rewrite slice_tail by (rewrite zlen_app; lia)); (rewrite slice_tail by lia); cbn [res_bind]; rewrite Ez; do 4 eexists; (split; [reflexivity|]); (split; [reflexivity|]); first [by left|by right].
  - left. by rewrite slice_tail_app by lia.
Qed.
Lemma cut_resume d l a b da la ra : bytes_ok a -> bytes_ok b -> a <> [] -> id_wf d -> id_state d = StateVarintResume ->
  @Decode_step _ log_delegate d l a = Ok (da, la, ra) -> cut_fine d l a b da la ra.
Proof.
  intros Ha Hb Hn [_ Hvd _] Es. unfold cut_fine. unfold Decode_step at 1 2 3. rewrite Es. unfold doVarintResume. rewrite Resume_app.
  destruct (Resume (id_varintDecoder d) 0 a) as [[v c] st] eqn:E. destruct (Resume_spec _ _ _ _ _ _ Hvd Ha E) as (Hv & Hc & _ & Hp).
  destruct st; cbn [res_bind snd fst]; rewrite slice_tail by lia; cbn [res_bind]; intros [= <- <- <-].
  - left. by rewrite slice_tail_app by lia.
  - right. specialize (Hp eq_refl). replace c with (zlen a) in * by lia. split; [apply zdrop_all; lia|]. split; [done|]. split; [done|]. split; [unfold decoding; match goal with |- context [id_state ?x] => change (id_state x) with (id_state d) end; by rewrite Es|]. intros Hbn. unfold Decode_step.
    match goal with |- context [id_state ?x] => change (id_state x) with (id_state d) end. rewrite Es. unfold doVarintResume. cbn [id_varintDecoder].
    rewrite (Resume_shift b v (zlen a)). destruct (Resume v 0 b) as [[v2 c2] s2] eqn:E2. destruct (Resume_spec _ _ _ _ _ _ Hv Hb E2) as (_ & Hc2 & _).
    assert (Ez : zdrop (zlen a + c2) (a ++ b) = zdrop c2 b) by (rewrite <- zdrop_zdrop by lia; by rewrite zdrop_app).
    destruct s2; cbn [snd fst res_bind]; (rewrite slice_tail by (rewrite zlen_app; lia)); (rewrite slice_tail by lia); cbn [res_bind]; rewrite Ez; do 4 eexists; (split; [reflexivity|]); (split; [reflexivity|]); first [by left|by right].
  - left. by rewrite slice_tail_app by lia.
Qed.
Lemma cut_string d l a b da la ra : bytes_ok a -> bytes_ok b -> a <> [] -> id_wf d -> id_state d = StateReadString ->
  @Decode_step _ log_delegate d l a = Ok (da, la, ra) -> cut_fine d l a b da la ra.
Proof.
  intros Ha Hb Hn [Hs _ _] Es. unfold state_ok in Hs. rewrite Es in Hs. destruct Hs as (Hf & Hl). unfold qpackStringLiteralLengthLimit in Hl.
  pose proof (zlen_nonneg (id_stringBuffer d)). pose proof (zlen_nonneg b). set (need := id_stringLength d - zlen (id_stringBuffer d)) in *.
  assert (Hstep : forall x l, @Decode_step _ log_delegate d l x = Ok (
      if zlen (id_stringBuffer d ++ ztake (Z.min (zlen x) need) x) =? id_stringLength d
      then { { d with id_stringBuffer := id_stringBuffer d ++ ztake (Z.min (zlen x) need) x } with id_state := StateReadStringDone }
      else { d with id_stringBuffer := id_stringBuffer d ++ ztake (Z.min (zlen x) need) x }, l, zdrop (Z.min (zlen x) need) x)).
  { intros x l'. pose proof (zlen_nonneg x). unfold Decode_step. rewrite Es. unfold doReadString. rewrite i64_small by lia. fold need. rewrite slice_ok by lia. cbn [res_bind fst snd]. rewrite slice_tail by lia. cbn [res_bind].
    replace (Z.min (zlen x) need - 0) with (Z.min (zlen x) need) by lia. rewrite zdrop_0. reflexivity. }
  unfold cut_fine. rewrite !Hstep. destruct (Z_lt_ge_dec (zlen a) need) as [Hlt|Hge].
  - replace (Z.min (zlen a) need) with (zlen a) by lia. rewrite ztake_all, zdrop_all by lia. replace (zlen (id_stringBuffer d ++ a) =? id_stringLength d) with false by (rewrite zlen_app; lia).
    intros [= <- <- <-]. right. split; [done|]. split; [done|]. split; [done|]. split; [unfold decoding; match goal with |- context [id_state ?x] => change (id_state x) with (id_state d) end; by rewrite Es|]. intros Hbn. do 4 eexists. split; [reflexivity|].
    unfold Decode_step. match goal with |- context [id_state ?x] => change (id_state x) with (id_state d) end. rewrite Es. unfold doReadString.
    match goal with |- context [i64 ?x] => change x with (id_stringLength d) end.
    repeat match goal with |- context [id_stringBuffer ?x] => lazymatch x with d => fail | _ => change (id_stringBuffer x) with (id_stringBuffer d ++ a) end end.
    rewrite i64_small by lia. rewrite slice_ok by (rewrite zlen_app; lia). cbn [res_bind fst snd]. rewrite slice_tail by (rewrite zlen_app; lia). cbn [res_bind].
    assert (Em : Z.min (zlen b) (id_stringLength d - zlen (id_stringBuffer d ++ a)) = Z.min (zlen (a ++ b)) need - zlen a) by (rewrite !zlen_app; lia).
    rewrite Em. set (k := Z.min (zlen (a ++ b)) need) in *. assert (Hk : zlen a <= k) by (unfold k; rewrite zlen_app; lia).
    assert (Et : ztake k (a ++ b) = a ++ ztake (k - zlen a) b) by (unfold ztake, zlen in *; rewrite take_app_ge by lia; do 2 f_equal; lia).
    assert (Ez : zdrop k (a ++ b) = zdrop (k - zlen a) b) by (unfold zdrop, zlen in *; rewrite drop_app_ge by lia; f_equal; lia).
    rewrite Et, Ez, app_assoc. replace (k - zlen a - 0) with (k - zlen a) by lia. rewrite zdrop_0. split; [reflexivity|]. left.
    match goal with |- _ = if ?c then _ else _ => change c with (zlen ((id_stringBuffer d ++ a) ++ ztake (k - zlen a) b) =? id_stringLength d) end. by destruct (_ =? _).
  - replace (Z.min (zlen a) need) with need by lia. replace (Z.min (zlen (a ++ b)) need) with need by (rewrite zlen_app; lia).
    assert (Et : ztake need (a ++ b) = ztake need a) by (unfold ztake, zlen in *; rewrite take_app_le by lia; done).
    assert (Ez : zdrop need (a ++ b) = zdrop need a ++ b) by (unfold zdrop, zlen in *; rewrite drop_app_le by lia; done).
    rewrite Et, Ez. intros [= <- <- <-]. by left.
Qed.
Lemma step_cut d l a b da la ra : bytes_ok a -> bytes_ok b -> id_wf d -> decoding d a = true -> @Decode_step _ log_delegate d l a = Ok (da, la, ra) -> cut_fine d l a b da la ra.
Proof.
  intros Ha Hb Hw Hd. assert (Hn : a <> [] \/ (id_state d = StateStartField \/ id_state d = StateVarintDone \/ id_state d = StateReadStringDone)).
  { unfold decoding in Hd. destruct a; [|by left]. right. destruct (id_state d); auto; discriminate. }
  destruct (id_state d) eqn:Es.
  1: { intros E. left. revert E. unfold Decode_step. rewrite Es. unfold doStartInstruction. rewrite head_app by (destruct Hn as [H|[H|[H|H]]]; [done|discriminate..]).
       destruct (index a 0) as [x|[]|]; cbn [res_bind]; [|done]. destruct (id_instruction _); by intros [= <- <- <-]. }
  1: { intros E. left. revert E. unfold Decode_step. rewrite Es. destruct (doStartField d l) as [p|[]|]; cbn [res_bind]; [|done]. by intros [= -> <-]. }
  1: { intros E. left. revert E. unfold Decode_step. rewrite Es. unfold doReadBit. rewrite head_app by (destruct Hn as [H|[H|[H|H]]]; [done|discriminate..]).
       destruct (cur_field d) as [f|[]|]; cbn [res_bind]; [|done]. destruct (index a 0) as [x|[]|]; cbn [res_bind]; [|done]. by destruct (F_Type f); cbn [res_bind]; intros [= <- <- <-]. }
  1: { intros E. apply cut_start; try done. destruct Hn as [H|[H|[H|H]]]; [done|discriminate..]. }
  1: { intros E. apply cut_resume; try done. destruct Hn as [H|[H|[H|H]]]; [done|discriminate..]. }
  1: { intros E. left. revert E. unfold Decode_step. rewrite Es. destruct (doVarintDone d l) as [p|[]|]; cbn [res_bind]; [|done]. by intros [= -> <-]. }
  1: { intros E. apply cut_string; try done. destruct Hn as [H|[H|[H|H]]]; [done|discriminate..]. }
  1: { intros E. left. revert E. unfold Decode_step. rewrite Es. destruct (doReadStringDone d l) as [p|[]|]; cbn [res_bind]; [|done]. by intros [= -> <-]. }
Qed.

Lemma runs_app fuel : forall d l a b d1 l1 ok1, id_wf d -> id_errorDetected d = false -> bytes_ok a -> bytes_ok b -> @Decode_loop _ log_delegate fuel d l a = Ok (d1, l1, ok1) ->
  if ok1 then forall d' l' ok, runs d1 l1 b d' l' ok -> exists d'', runs d l (a ++ b) d'' l' ok /\ (ok = true -> d'' = d')
  else runs d l (a ++ b) d1 l1 false.
Proof.
  induction fuel as [|fuel IH]; intros d l a b d1 l1 ok1 Hw He Ha Hb; [done|]. cbn [Decode_loop]. destruct (decoding d a) eqn:Ed.
  - assert (Edb : decoding d (a ++ b) = true) by (unfold decoding in *; destruct a; [destruct b; [done|by destruct (id_state d)]|done]).
    destruct (step_total d l a Hw Ha Ed) as (da & la & ra & Es & Hr & _ & Hnext). rewrite Es. cbn [res_bind].
    destruct (step_cut d l a b da la ra Ha Hb Hw Ed Es) as [Ec|(-> & -> & Hee & Hstop & Hc)].
    + destruct (id_errorDetected da) eqn:Eda; [intros [= <- <- <-]; by eapply runs_error|]. intros Hl. destruct (Hnext eq_refl) as [Hwa _].
      specialize (IH da la ra b d1 l1 ok1 Hwa Eda Hr Hb Hl). destruct ok1; [|by eapply runs_step].
      intros d' l' ok H. destruct (IH d' l' ok H) as (d'' & H1 & H2). exists d''. split; [by eapply runs_step|done].
    + rewrite Hee, He. destruct fuel as [|fuel]; [done|]. cbn [Decode_loop]. rewrite Hstop. intros [= <- <- <-]. intros d' l' ok H. destruct b as [|y b].
      * rewrite app_nil_r in *. destruct (runs_inv _ _ _ _ _ _ H) as [(_ & -> & -> & ->)|(X & _)]; [|by rewrite Hstop in X]. exists da. split; [|done]. eapply runs_step; [done|exact Es|by rewrite Hee|]. by apply runs_stop.
      * destruct (Hc ltac:(done)) as (dx & dy & lx & rest & E1 & E2 & Hxy). destruct (runs_inv _ _ _ _ _ _ H) as [(X & _)|(_ & d2 & l2 & r2 & Es2 & Hcase)]; [done|].
        rewrite E2 in Es2. injection Es2 as <- <- <-. destruct Hcase as [(X & -> & -> & ->)|(X & Hrun)].
        -- exists dx. split; [|done]. eapply runs_error; [done|exact E1|]. by destruct Hxy as [-> | [? _]].
        -- destruct Hxy as [-> | [_ Y]]; [|by rewrite X in Y]. exists d'. split; [|done]. by eapply runs_step.
  - intros [= <- <- <-]. intros d' l' ok H. assert (a = []) as -> by (unfold decoding in Ed; by destruct a). by exists d'.
Qed.

(** ** Reading an image *)
Lemma Resume_groups fuel : forall k nn x c f e tail,
  0 <= x -> 0 <= nn -> 0 <= k -> (1 <= fuel)%nat -> k + Z.of_nat fuel = 10 -> nn + x * 2 ^ (7 * k) < 2 ^ 64 ->
  exists off f' e', Resume (mkVD nn (7 * k) f e) c (int_groups fuel x ++ tail) = (mkVD (nn + x * 2 ^ (7 * k)) off f' e', c + zlen (int_groups fuel x), StatusDone).
Proof.
  induction fuel as [|fuel IH]; intros k nn x c f e tail Hx Hnn Hk H1 Hf Hs; [lia|].
  assert (Hp : 0 < 2 ^ (7 * k)) by (apply Z.pow_pos_nonneg; lia). pose proof (Z.mod_pos_bound x 128 ltac:(lia)). pose proof (Z.mod_le x 128 Hx ltac:(lia)).
  assert (Hx9 : k = 9 -> x <= 1) by (intros ->; change (2 ^ (7 * 9)) with (2 ^ 63) in Hs; lia).
  assert (Hadd : u64 (nn + u64 (Z.shiftl (x mod 128) (7 * k))) = nn + x mod 128 * 2 ^ (7 * k)).
  { rewrite Z.shiftl_mul_pow2 by lia. rewrite (u64_small (x mod 128 * 2 ^ (7 * k))) by (unfold is_u64; nia). apply u64_small. unfold is_u64. nia. }
  cbn [int_groups]. destruct (x >=? 128) eqn:E; bool_simpl; cbn [app Resume vd_offset vd_value vd_done vd_error].
  - destruct (group_byte x Hx) as [G1 G2]. assert (Hk8 : k <= 8) by (destruct (Z_le_gt_dec k 8); [done|]; specialize (Hx9 ltac:(lia)); lia).
    replace (7 * k <? 63) with true by lia. change 0x7f with 127. change 0x80 with 128. rewrite G1, G2, Hadd. change (128 =? 0) with false. cbn iota.
    pose proof (Z.div_mod x 128 ltac:(lia)). rewrite Z.shiftr_div_pow2 by lia. change (2 ^ 7) with 128.
    assert (Hpow : 2 ^ (7 * (k + 1)) = 128 * 2 ^ (7 * k)) by (replace (7 * (k + 1)) with (7 + 7 * k) by lia; by rewrite Z.pow_add_r by lia).
    match goal with |- context [Resume ?r (c + 1) _] => change r with (mkVD (nn + x mod 128 * 2 ^ (7 * k)) (u8 (7 * k + 7)) f e) end.
    replace (u8 (7 * k + 7)) with (7 * (k + 1)) by (rewrite u8_small by (unfold is_byte; lia); lia).
    destruct (IH (k + 1) (nn + x mod 128 * 2 ^ (7 * k)) (x / 128) (c + 1) f e tail) as (off & f' & e' & ER); [apply Z.div_pos; lia|nia|lia|lia|lia|rewrite Hpow; nia|].
    exists off, f', e'. rewrite zlen_cons. etransitivity; [exact ER|]. do 2 f_equal; [f_equal; rewrite Hpow; nia|lia].
  - assert (Hs' : x mod 128 = x) by (apply Z.mod_small; lia). rewrite u8_small by (unfold is_byte; lia). change 0x7f with 127. change 0x80 with 128. rewrite land_127 by done. rewrite Hs'.
    assert (E0 : Z.land x 128 = 0).
    { assert (Hxb : is_byte x) by (unfold is_byte; lia). assert (H' : ((128 <=? x) || (Z.land x 128 =? 0)) = true) by (clear -Hxb; revert x Hxb; apply (all_bytes_spec (fun x => _)); vm_compute; reflexivity).
      apply orb_true_iff in H' as [H'|H']; bool_simpl; lia. }
    rewrite E0. cbn [Z.eqb]. rewrite zlen_cons, zlen_nil. destruct (Z.eq_dec k 9) as [-> | Hk9].
    + change (7 * 9 <? 63) with false. cbn iota. specialize (Hx9 eq_refl). change (7 * 9) with 63 in *. rewrite Z.shiftl_mul_pow2 by lia. rewrite (u64_small (x * 2 ^ 63)) by (unfold is_u64; lia). rewrite (u64_small (MaxUint64 - _)) by (unfold is_u64, MaxUint64; lia).
      replace (x <=? 1) with true by lia. replace (nn <=? MaxUint64 - x * 2 ^ 63) with true by (unfold MaxUint64; lia). cbn [andb]. do 3 eexists. rewrite u64_small by (unfold is_u64; lia). reflexivity.
    + replace (7 * k <? 63) with true by lia. rewrite Hs' in Hadd. rewrite Hadd. do 3 eexists. reflexivity.
Qed.
Lemma enc_head p n v : 1 <= n <= 8 -> 0 <= v -> exists x tl, int_enc p n v = (p + x) :: tl /\ 0 <= x < 2 ^ n.
Proof. intros Hn Hv. pose proof (pow_cases n Hn). unfold int_enc. destruct (v <? 2 ^ n - 1) eqn:E; bool_simpl; do 2 eexists; (split; [reflexivity|lia]). Qed.
Lemma Start_enc p n v rest : prefix_ok p n -> is_u64 v -> exists vd, Start n (int_enc p n v ++ rest) = (vd, zlen (int_enc p n v), StatusDone) /\ vd_value vd = v.
Proof.
  intros Hp Hv. pose proof Hp as (Hn & Hb & Hm). pose proof (pow_cases n Hn). unfold is_u64 in Hv.
  assert (Hland : forall y, 0 <= y < 2 ^ n -> Z.land (p + y) (2 ^ n - 1) = y) by (intros y Hy; rewrite land_mask by lia; rewrite Z.add_mod, Hm, Z.add_0_l, Z.mod_mod, Z.mod_small by lia; done).
  unfold int_enc. destruct (v <? 2 ^ n - 1) eqn:E; bool_simpl; cbn [app Start]; fold (prefix_max n); rewrite prefix_max_eq by done; rewrite Hland by lia; cbn [vd_value].
  - match goal with |- context [if ?c then _ else _] => change c with (v <? 2 ^ n - 1) end. replace (v <? 2 ^ n - 1) with true by lia. by eexists.
  - match goal with |- context [if ?c then _ else _] => change c with (2 ^ n - 1 <? 2 ^ n - 1) end. rewrite Z.ltb_irrefl.
    destruct (Resume_groups 10 0 (2 ^ n - 1) (v - (2 ^ n - 1)) 0 false false rest) as (off & f' & e' & ER); [lia..|]. change (2 ^ (7 * 0)) with 1 in ER.
    match goal with |- context [Resume ?r 0 _] => change r with (mkVD (2 ^ n - 1) (7 * 0) false false) end. rewrite ER. eexists. split; [rewrite zlen_cons; reflexivity|]. cbn. lia.
Qed.
Lemma bit_at k p x (s : bool) : 0 <= k -> p mod 2 ^ (k + 1) = 0 -> 0 <= x < 2 ^ k -> negb (Z.land ((if s then p + 2 ^ k else p) + x) (2 ^ k) =? 0) = s.
Proof.
  intros Hk Hp Hx. assert (Hpk : 0 < 2 ^ k) by (apply Z.pow_pos_nonneg; lia). apply Z.mod_divide in Hp; [|apply Z.pow_nonzero; lia]. destruct Hp as [q ->]. rewrite Z.pow_add_r by lia. change (2 ^ 1) with 2.
  assert (Ht : Z.testbit ((if s then q * (2 ^ k * 2) + 2 ^ k else q * (2 ^ k * 2)) + x) k = s).
  { assert (Hodd : ((if s then q * (2 ^ k * 2) + 2 ^ k else q * (2 ^ k * 2)) + x) / 2 ^ k = 2 * q + Z.b2z s).
    { symmetry. apply (Z.div_unique _ _ _ x); [lia|]. destruct s; cbn; lia. }
    rewrite Z.testbit_odd, Z.shiftr_div_pow2, Hodd by lia. rewrite Z.odd_add, Z.odd_mul. by destruct s. }
  destruct s.
  - apply negb_true_iff, Z.eqb_neq. intros H0. assert (Hb : Z.testbit (Z.land (q * (2 ^ k * 2) + 2 ^ k + x) (2 ^ k)) k = true) by (rewrite Z.land_spec, Ht, Z.pow2_bits_true by lia; done). by rewrite H0, Z.bits_0 in Hb.
  - apply negb_false_iff, Z.eqb_eq. apply Z.bits_inj'. intros j Hj. rewrite Z.land_spec, Z.bits_0. destruct (Z.eq_dec j k) as [-> |]; [by rewrite Ht|]. rewrite (Z.pow2_bits_false k j) by lia. apply andb_false_r.
Qed.

(** A decoder that has read [k] fields of [i], with the values [acc]. *)
Record dec_at (d : InstructionDecoder) (L : Language) (i : Instruction) (k : nat) (acc : InstructionWithValues) : Prop := {
  da_wf : id_wf d; da_err : id_errorDetected d = false; da_state : id_state d = StateStartField; da_lang : id_language d = L;
  da_instr : id_instruction d = Some i; da_idx : id_fieldIdx d = k; da_acc : accessors i d = acc
}.
Definition set_field (v acc : InstructionWithValues) (f : InstructionField) : InstructionWithValues :=
  match F_Type f with
  | FieldSbit => { acc with w_sBit := w_sBit v }
  | FieldVarint => { acc with w_varint := w_varint v }
  | FieldVarint2 => { acc with w_varint2 := w_varint2 v }
  | FieldName => { acc with w_name := w_name v }
  | FieldValue => { acc with w_value := w_value v }
  end.
(** Reading [img] takes the decoder from [d] to [d2]. *)
Definition reads (d : InstructionDecoder) (img : bytes) (d2 : InstructionDecoder) : Prop :=
  forall l rest d' l' ok, bytes_ok rest -> runs d2 l rest d' l' ok -> runs d l (img ++ rest) d' l' ok.
Lemma reads_app d a d1 b d2 : bytes_ok b -> reads d a d1 -> reads d1 b d2 -> reads d (a ++ b) d2.
Proof. intros Hb H1 H2 l rest d' l' ok Hr H. rewrite <- app_assoc. apply H1; [by apply bytes_ok_app|]. by apply H2. Qed.

Lemma at_start d L i k acc f : dec_at d L i k acc -> Fields i !! k = Some f -> forall l data, (data <> [] -> False) \/ True ->
  @Decode_step _ log_delegate d l data = Ok ({ d with id_state := match F_Type f with FieldSbit | FieldName | FieldValue => StateReadBit | _ => StateVarintStart end }, l, data).
Proof.
  intros [Hw He Hs HL Hi Hk Ha] Hf l data _. unfold Decode_step. rewrite Hs. unfold doStartField. rewrite Hi, Hk. pose proof (lookup_lt_Some _ _ _ Hf).
  rewrite (proj2 (Nat.eqb_neq _ _)) by lia. unfold field_at. by rewrite Hf.
Qed.
Lemma decoding_start d data : id_state d = StateStartField -> decoding d data = true.
Proof. unfold decoding. intros ->. by destruct data. Qed.
Lemma decoding_some d x data : decoding d (x :: data) = true.
Proof. done. Qed.

Lemma read_varint d L i k acc f p v : dec_at d L i k acc -> Fields i !! k = Some f -> F_Type f = FieldVarint \/ F_Type f = FieldVarint2 ->
  prefix_ok p (F_Param f) -> is_u64 (int_of f v) -> exists d2, dec_at d2 L i (S k) (set_field v acc f) /\ reads d (int_enc p (F_Param f) (int_of f v)) d2.
Proof.
  intros Hat Hf Ht Hp Hv. pose proof Hat as [[Hw1 Hw2 Hw3] He Hs HL Hi Hk Ha]. pose proof (lookup_lt_Some _ _ _ Hf) as Hlt. set (n := F_Param f) in *. set (x := int_of f v) in *.
  destruct (Start_enc p n x [] Hp Hv) as (vd & _ & Hvd).
  set (d0 := { d with id_state := StateVarintStart }).
  assert (Hd2 : forall vd, vd_value vd = x -> exists d2, (forall l rest, @Decode_step _ log_delegate { { d with id_varintDecoder := vd } with id_state := StateVarintDone } l rest = Ok (d2, l, rest)) /\ dec_at d2 L i (S k) (set_field v acc f)).
  { intros vd' Hvd'. assert (Hcur : cur_field { { d with id_varintDecoder := vd' } with id_state := StateVarintDone } = Ok f) by (apply (cur_of _ i f); [exact Hi|]; change (Fields i !! id_fieldIdx d = Some f); by rewrite Hk).
    destruct Ht as [Ht|Ht].
    - exists { { { { d with id_varintDecoder := vd' } with id_state := StateVarintDone } with id_varint := vd_value vd'; id_fieldIdx := S (id_fieldIdx d) } with id_state := StateStartField }. split.
      + intros l rest. unfold Decode_step; cbn [id_state]. unfold doVarintDone. rewrite Hcur. cbn [res_bind]. rewrite Ht. reflexivity.
      + split; [split; [|unfold is_u64 in *; change (0 <= vd_value vd' < 2 ^ 64); rewrite Hvd'; exact Hv|exact Hw3]|exact He|reflexivity|exact HL|exact Hi|cbn; by rewrite Hk|].
        * exists i. split; [exact Hi|]. change (S (id_fieldIdx d) <= List.length (Fields i))%nat. lia.
        * unfold set_field. rewrite Ht, <- Ha. unfold x, int_of in Hvd'. rewrite Ht in Hvd'. rewrite <- Hvd'. reflexivity.
    - exists { { { { d with id_varintDecoder := vd' } with id_state := StateVarintDone } with id_varint2 := vd_value vd'; id_fieldIdx := S (id_fieldIdx d) } with id_state := StateStartField }. split.
      + intros l rest. unfold Decode_step; cbn [id_state]. unfold doVarintDone. rewrite Hcur. cbn [res_bind]. rewrite Ht. reflexivity.
      + split; [split; [|unfold is_u64 in *; change (0 <= vd_value vd' < 2 ^ 64); rewrite Hvd'; exact Hv|exact Hw3]|exact He|reflexivity|exact HL|exact Hi|cbn; by rewrite Hk|].
        * exists i. split; [exact Hi|]. change (S (id_fieldIdx d) <= List.length (Fields i))%nat. lia.
        * unfold set_field. rewrite Ht, <- Ha. unfold x, int_of in Hvd'. rewrite Ht in Hvd'. rewrite <- Hvd'. reflexivity. }
  destruct (Start_enc p n x [] Hp Hv) as (vd0 & E0 & Hvd0). destruct (Hd2 vd0 Hvd0) as (d2 & Hst & Hat2). exists d2. split; [exact Hat2|].
  intros l rest d' l' ok Hr H. assert (Est : Start n (int_enc p n x ++ rest) = (vd0, zlen (int_enc p n x), StatusDone)).
  { revert E0. rewrite app_nil_r. destruct (enc_head p n x) as (y & tl & Ey & _); [destruct Hp; lia|unfold is_u64 in Hv; lia|]. rewrite Ey. cbn [app Start]. destruct (_ <? _); [done|]. rewrite Resume_app. destruct (Resume _ 0 tl) as [[a b] []]; [by intros [= <- <-]|done|done]. }
  destruct (enc_head p n x) as (y & tl & Ey & _); [destruct Hp; lia|unfold is_u64 in Hv; lia|].
  eapply runs_step; [apply decoding_start; exact Hs|eapply at_start; [exact Hat|exact Hf|by right]|exact He|].
  replace (match F_Type f with FieldSbit | FieldName | FieldValue => StateReadBit | _ => StateVarintStart end) with StateVarintStart by (by destruct Ht as [-> | ->]).
  eapply (runs_step _ _ _ { { d with id_varintDecoder := vd0 } with id_state := StateVarintDone } l rest); [rewrite Ey; reflexivity| |exact He|].
  - unfold Decode_step. cbn [id_state]. unfold doVarintStart. rewrite (cur_of _ i f); [|exact Hi|change (Fields i !! id_fieldIdx d = Some f); by rewrite Hk]. cbn [res_bind]. fold n. rewrite Est. cbn [res_bind snd fst].
    rewrite slice_tail_app by (pose proof (zlen_nonneg (int_enc p n x)); lia). rewrite zdrop_all by lia. reflexivity.
  - eapply runs_step; [by destruct rest|apply Hst|by destruct Hat2|exact H].
Qed.
Lemma read_sbit d L i k acc f v : dec_at d L i k acc -> Fields i !! k = Some f -> F_Type f = FieldSbit ->
  exists d2, dec_at d2 L i (S k) (set_field v acc f) /\ forall b data l d' l' ok, negb (Z.land b (F_Param f) =? 0) = w_sBit v -> runs d2 l (b :: data) d' l' ok -> runs d l (b :: data) d' l' ok.
Proof.
  intros Hat Hf Ht. pose proof Hat as [[Hw1 Hw2 Hw3] He Hs HL Hi Hk Ha]. pose proof (lookup_lt_Some _ _ _ Hf) as Hlt.
  exists { { { d with id_state := StateReadBit } with id_sBit := w_sBit v; id_fieldIdx := S (id_fieldIdx d) } with id_state := StateStartField }. split.
  - split; [split; [|exact Hw2|exact Hw3]|exact He|reflexivity|exact HL|exact Hi|cbn; by rewrite Hk|unfold set_field; rewrite Ht, <- Ha; reflexivity]. exists i. split; [exact Hi|]. change (S (id_fieldIdx d) <= List.length (Fields i))%nat. lia.
  - intros b data l d' l' ok Hbit H. eapply runs_step; [reflexivity|eapply at_start; [exact Hat|exact Hf|by right]|exact He|]. rewrite Ht.
    eapply runs_step; [reflexivity| | |exact H]; [|exact He]. unfold Decode_step. cbn [id_state]. unfold doReadBit. rewrite (cur_of _ i f); [|exact Hi|change (Fields i !! id_fieldIdx d = Some f); by rewrite Hk]. cbn [res_bind].
    unfold index. rewrite zlen_cons. pose proof (zlen_nonneg data). replace ((0 <=? 0) && (0 <? 1 + zlen data)) with true by lia. cbn [res_bind]. rewrite Ht. change (znth (b :: data) 0) with b. rewrite Hbit. reflexivity.
Qed.

(** A string, after its length. *)
Lemma read_chars d L i k acc f v s : id_wf d -> id_errorDetected d = false -> id_state d = StateVarintDone -> id_language d = L -> id_instruction d = Some i -> id_fieldIdx d = k -> accessors i d = acc ->
  Fields i !! k = Some f -> str_field f = true -> str_of f v = s -> bytes_ok s -> zlen s < 2 ^ 59 ->
  (if id_isHuffmanEncoded d then vd_value (id_varintDecoder d) = HuffmanEncodeLength s else vd_value (id_varintDecoder d) = zlen s) ->
  vd_value (id_varintDecoder d) <= qpackStringLiteralLengthLimit ->
  exists d2, dec_at d2 L i (S k) (set_field v acc f) /\ reads d (if id_isHuffmanEncoded d then HuffmanEncode [] s else s) d2.
Proof.
  intros [Hw1 Hw2 Hw3] He Hs HL Hi Hk Ha Hf Ht Hsv Hb Hz Hlen Hmax. pose proof (lookup_lt_Some _ _ _ Hf) as Hlt. set (enc := if id_isHuffmanEncoded d then HuffmanEncode [] s else s).
  destruct (huffman_len s Hb Hz) as [Hhl Hhz]. assert (Hel : zlen enc = vd_value (id_varintDecoder d)) by (unfold enc; destruct (id_isHuffmanEncoded d); congruence).
  assert (Heb : bytes_ok enc) by (unfold enc; destruct (id_isHuffmanEncoded d); [by apply huffman_dst|done]).
  assert (Hcur : forall d1, id_instruction d1 = Some i -> id_fieldIdx d1 = k -> cur_field d1 = Ok f) by (intros d1 H1 H2; apply (cur_of _ i f); [done|by rewrite H2]).
  set (n := vd_value (id_varintDecoder d)) in *. pose proof (zlen_nonneg enc) as Hn0.
  set (d1 := { { d with id_stringLength := n; id_stringBuffer := [] } with id_state := if n =? 0 then StateReadStringDone else StateReadString }).
  set (d2 := { { d with id_stringLength := n; id_stringBuffer := enc } with id_state := StateReadStringDone }).
  set (d3 := { match F_Type f with FieldName => { d2 with id_name := s } | FieldValue => { d2 with id_value := s } | _ => d2 end with id_fieldIdx := S (id_fieldIdx d); id_state := StateStartField }).
  assert (E1 : forall l x, @Decode_step _ log_delegate d l x = Ok (d1, l, x)).
  { intros l x. unfold Decode_step. rewrite Hs. unfold doVarintDone. rewrite (Hcur d Hi Hk). cbn [res_bind]. fold n. replace (n >? qpackStringLiteralLengthLimit) with false by lia. unfold str_field in Ht. by destruct (F_Type f). }
  assert (E3 : forall l x, @Decode_step _ log_delegate d2 l x = Ok (d3, l, x)).
  { intros l x. unfold Decode_step. cbn [id_state d2]. unfold doReadStringDone. change (id_isHuffmanEncoded d2) with (id_isHuffmanEncoded d). change (id_stringBuffer d2) with enc.
    replace (if id_isHuffmanEncoded d then HuffmanDecodeToString enc else Ok enc) with (@Ok hpack_error bytes s).
    2: { unfold enc. destruct (id_isHuffmanEncoded d); [|done]. unfold HuffmanDecodeToString. pose proof (decode_spec [] (HuffmanEncode [] s)) as Hd. rewrite spec_decode_enc in Hd by done. by rewrite Hd by by apply huffman_dst. }
    rewrite (Hcur d2 Hi Hk). cbn [res_bind]. unfold d3. by destruct (F_Type f). }
  assert (E2 : forall l rest, enc <> [] -> @Decode_step _ log_delegate d1 l (enc ++ rest) = Ok (d2, l, rest)).
  { intros l rest Hne. assert (Hn1 : n <> 0) by (rewrite <- Hel; destruct enc; [done|]; rewrite zlen_cons; pose proof (zlen_nonneg enc); lia). pose proof (zlen_nonneg rest). unfold qpackStringLiteralLengthLimit in Hmax.
    unfold Decode_step. change (id_state d1) with (if n =? 0 then StateReadStringDone else StateReadString). replace (n =? 0) with false by lia. unfold doReadString. change (id_stringLength d1) with n. change (id_stringBuffer d1) with (@nil Z). rewrite i64_small by lia.
    change (zlen (@nil Z)) with 0. replace (Z.min (zlen (enc ++ rest)) (n - 0)) with (zlen enc) by (rewrite zlen_app; lia). rewrite slice_ok by (rewrite ?zlen_app; lia). cbn [res_bind fst snd]. rewrite slice_tail_app by lia. cbn [res_bind].
    replace (zlen enc - 0) with (zlen enc) by lia. rewrite zdrop_0, ztake_app, zdrop_all by lia. cbn [app]. match goal with |- context [if ?c =? ?e then _ else _] => change (c =? e) with (zlen enc =? n) end. replace (zlen enc =? n) with true by lia.
    unfold d2, d1. do 3 f_equal. }
  exists d3. split.
  - split.
    + split; [exists i; split; [unfold d3; by destruct (F_Type f)|change (S (id_fieldIdx d) <= List.length (Fields i))%nat; lia]|unfold d3; by destruct (F_Type f)|unfold d3; by destruct (F_Type f)].
    + unfold d3; by destruct (F_Type f).
    + reflexivity.
    + unfold d3; by destruct (F_Type f).
    + unfold d3; by destruct (F_Type f).
    + change (S (id_fieldIdx d) = S k). by rewrite Hk.
    + unfold d3, set_field, str_of, str_field in *. rewrite <- Ha. destruct (F_Type f); try done; by rewrite Hsv.
  - intros l rest d' l' ok Hr H. eapply runs_step; [unfold decoding; rewrite Hs; by destruct (enc ++ rest)|apply E1|exact He|]. destruct (list_eq_dec Z.eq_dec enc []) as [Een|Een].
    + rewrite Een in *. cbn [app]. assert (n = 0) as Hn by (rewrite <- Hel; done). assert (Ed : d1 = d2) by (unfold d1, d2; rewrite Een, Hn; reflexivity). rewrite Ed.
      eapply runs_step; [unfold decoding; by destruct rest|apply E3|unfold d3; by destruct (F_Type f)|exact H].
    + eapply runs_step; [destruct enc; [done|reflexivity]|by apply E2|exact He|]. eapply runs_step; [unfold decoding; by destruct rest|apply E3|unfold d3; by destruct (F_Type f)|exact H].
Qed.
Lemma read_string d L i k acc f p h v : dec_at d L i k acc -> Fields i !! k = Some f -> str_field f = true ->
  1 <= F_Param f <= 7 -> 0 <= p -> p + 2 ^ F_Param f < 256 -> p mod 2 ^ (F_Param f + 1) = 0 -> str_ok (str_of f v) ->
  exists d2, dec_at d2 L i (S k) (set_field v acc f) /\ reads d (str_image h p (F_Param f) (str_of f v)) d2.
Proof.
  intros Hat Hf Ht Hn Hp0 Hp1 Hp2 [Hb Hz]. pose proof Hat as [[Hw1 Hw2 Hw3] He Hs HL Hi Hk Ha]. set (n := F_Param f) in *. set (s := str_of f v) in *.
  assert (Hz59 : zlen s < 2 ^ 59) by (unfold qpackStringLiteralLengthLimit in Hz; lia). destruct (huffman_len s Hb Hz59) as [Hhl Hhz]. pose proof (zlen_nonneg s) as Hs0.
  set (hh := str_huff h s). destruct (str_prefix hh p n Hn Hp0 Hp1 Hp2) as [Hpo _]. set (q := if hh then p + 2 ^ n else p) in *. set (m := if hh then HuffmanEncodeLength s else zlen s).
  assert (Hm : is_u64 m /\ m <= qpackStringLiteralLengthLimit). { unfold m, hh, str_huff, is_u64, qpackStringLiteralLengthLimit in *. destruct (h && _) eqn:E; bool_simpl; lia. }
  set (enc := if hh then HuffmanEncode [] s else s). assert (Himg : str_image h p n s = int_enc q n m ++ enc) by (unfold str_image, q, m, enc; fold hh; by destruct hh).
  assert (Heb : bytes_ok enc) by (unfold enc; destruct hh; [by apply huffman_dst|done]).
  destruct (Start_enc q n m [] Hpo (proj1 Hm)) as (vd & E0 & Hvd).
  set (d1 := { { { d with id_state := StateReadBit } with id_isHuffmanEncoded := hh; id_state := StateVarintStart } with id_varintDecoder := vd; id_state := StateVarintDone }).
  destruct (read_chars d1 L i k acc f v s) as (d2 & Hat2 & Hrd); try done.
  { split; [|change (is_u64 (vd_value vd)); rewrite Hvd; apply Hm|exact Hw3]. exists i, f. split; [exact Hi|]. split; [change (Fields i !! id_fieldIdx d = Some f); by rewrite Hk|]. unfold not_sbit, str_field in *. by destruct (F_Type f). }
  { change (if hh then vd_value vd = HuffmanEncodeLength s else vd_value vd = zlen s). rewrite Hvd. unfold m. by destruct hh. }
  { change (vd_value vd <= qpackStringLiteralLengthLimit). rewrite Hvd. apply Hm. }
  exists d2. split; [exact Hat2|]. intros l rest d' l' ok Hr H. rewrite Himg, <- app_assoc.
  destruct (enc_head q n m) as (y & tl & Ey & Hy); [lia|unfold is_u64 in Hm; lia|].
  assert (Est : Start n (int_enc q n m ++ enc ++ rest) = (vd, zlen (int_enc q n m), StatusDone)).
  { revert E0. rewrite app_nil_r, Ey. cbn [app Start]. destruct (_ <? _); [done|]. rewrite Resume_app. destruct (Resume _ 0 tl) as [[a b] []]; [by intros [= <- <-]|done|done]. }
  assert (Hcur : forall d1, id_instruction d1 = Some i -> id_fieldIdx d1 = k -> cur_field d1 = Ok f) by (intros d3 H1 H2; apply (cur_of _ i f); [done|by rewrite H2]).
  eapply runs_step; [apply decoding_start; exact Hs|eapply at_start; [exact Hat|exact Hf|by right]|exact He|].
  replace (match F_Type f with FieldSbit | FieldName | FieldValue => StateReadBit | _ => StateVarintStart end) with StateReadBit by (unfold str_field in Ht; by destruct (F_Type f)).
  eapply (runs_step _ _ _ { { d with id_state := StateReadBit } with id_isHuffmanEncoded := hh; id_state := StateVarintStart } l (int_enc q n m ++ enc ++ rest)); [rewrite Ey; reflexivity| |exact He|].
  { unfold Decode_step. cbn [id_state]. unfold doReadBit. match goal with |- context [cur_field ?x] => rewrite (Hcur x Hi Hk) end. cbn [res_bind]. rewrite Ey. cbn [app]. unfold index. rewrite zlen_cons. pose proof (zlen_nonneg (tl ++ enc ++ rest)). replace ((0 <=? 0) && (0 <? 1 + zlen (tl ++ enc ++ rest))) with true by lia. cbn [res_bind].
    change (znth ((q + y) :: tl ++ enc ++ rest) 0) with (q + y). fold n. rewrite Z.shiftl_1_l, u8_small by (unfold is_byte; pose proof (pow_cases n ltac:(lia)); lia). unfold q. rewrite (bit_at n p y hh) by (done || lia). unfold str_field in Ht. by destruct (F_Type f). }
  eapply (runs_step _ _ _ d1 l (enc ++ rest)); [rewrite Ey; reflexivity| |exact He|].
  { unfold Decode_step. cbn [id_state]. unfold doVarintStart. match goal with |- context [cur_field ?x] => rewrite (Hcur x Hi Hk) end. cbn [res_bind]. fold n. rewrite Est. cbn [res_bind snd fst]. rewrite slice_tail_app by (pose proof (zlen_nonneg (int_enc q n m)); lia). rewrite zdrop_all by lia. reflexivity. }
  assert (Hrd' : reads d1 enc d2) by exact Hrd. by apply Hrd'.
Qed.

Lemma int_enc_ok p n v : prefix_ok p n -> is_u64 v -> bytes_ok (int_enc p n v).
Proof.
  intros (Hn & Hp & Hm) Hv. pose proof (pow_cases n Hn). unfold is_u64 in Hv.
  assert (Hlt : forall y, 0 <= y < 2 ^ n -> is_byte (p + y)).
  { intros y Hy. unfold is_byte in *. assert (p <= 256 - 2 ^ n); [|lia]. apply Z.mod_divide in Hm; [|lia]. destruct Hm as [c ->].
    assert (He : 256 = 2 ^ (8 - n) * 2 ^ n) by (rewrite <- Z.pow_add_r by lia; by replace (8 - n + n) with 8 by lia). revert He Hp. generalize (2 ^ (8 - n)). intros e He Hp. assert (c < e) by nia. nia. }
  unfold int_enc. destruct (v <? 2 ^ n - 1) eqn:E; bool_simpl; [apply bytes_ok_cons; split; [apply Hlt; lia|apply Forall_nil_2]|]. apply bytes_ok_cons. split; [apply Hlt; lia|].
  clear. generalize 10%nat (v - (2 ^ n - 1)). intros fuel x. revert x. induction fuel as [|fuel IH]; intros x; [apply Forall_nil_2|]. cbn [int_groups]. destruct (_ >=? _); apply bytes_ok_cons; (split; [|try apply IH; try apply Forall_nil_2]); [|apply u8_range].
  pose proof (u8_range (Z.land x 127)) as Hu. revert Hu. generalize (u8 (Z.land x 127)). intros y Hy. assert (H' : (0 <=? Z.lor y 128) && (Z.lor y 128 <? 256) = true) by (revert y Hy; apply (all_bytes_spec (fun y => _)); vm_compute; reflexivity). bool_simpl. unfold is_byte. lia.
Qed.
Lemma str_image_ok h p n s : 1 <= n <= 7 -> 0 <= p -> p + 2 ^ n < 256 -> p mod 2 ^ (n + 1) = 0 -> str_ok s -> bytes_ok (str_image h p n s).
Proof.
  intros Hn Hp0 Hp1 Hp2 [Hb Hz]. assert (Hz59 : zlen s < 2 ^ 59) by (unfold qpackStringLiteralLengthLimit in Hz; lia). destruct (huffman_len s Hb Hz59) as [Hhl Hhz]. pose proof (zlen_nonneg s).
  unfold str_image. pose proof (str_prefix (str_huff h s) p n Hn Hp0 Hp1 Hp2) as [Hpo _]. destruct (str_huff h s); apply bytes_ok_app; (split; [apply int_enc_ok; [done|unfold is_u64; lia]|]); [by apply huffman_dst|done].
Qed.
Lemma fields_image_ok h v fs : forall p, fits p fs = true -> values_ok v -> bytes_ok (fields_image h v p fs).
Proof.
  induction fs as [|f fs IH]; intros p Hf Hv; [apply Forall_nil_2|]. cbn [fits] in Hf. cbn [fields_image]. destruct Hv as [V1 V2 V3 V4 V5 V6]. assert (Hv : values_ok v) by done.
  destruct (F_Type f); bool_simpl.
  - destruct (w_sBit v); by apply IH.
  - apply bytes_ok_app; split; [apply int_enc_ok; [split; [lia|split; [unfold is_byte; lia|done]]|done]|by apply IH].
  - apply bytes_ok_app; split; [apply int_enc_ok; [split; [lia|split; [unfold is_byte; lia|done]]|done]|by apply IH].
  - apply bytes_ok_app; split; [by apply str_image_ok|by apply IH].
  - apply bytes_ok_app; split; [by apply str_image_ok|by apply IH].
Qed.

(** All the fields from [k] on. *)
Lemma read_fields h v L i fs : forall k p d acc, drop k (Fields i) = fs -> fits p fs = true -> values_ok v -> dec_at d L i k acc ->
  exists d2, dec_at d2 L i (k + List.length fs) (fold_left (set_field v) fs acc) /\ reads d (fields_image h v p fs) d2.
Proof.
  induction fs as [|f fs IH]; intros k p d acc Hd Hf Hv Hat.
  - exists d. cbn [List.length fold_left fields_image]. rewrite Nat.add_0_r. split; [done|]. intros l rest d' l' ok _ H. exact H.
  - apply drop_cons_at in Hd as (Hx & Hd & _). pose proof (fields_image_ok h v (f :: fs) p Hf Hv) as Hok. pose proof Hv as [V1 V2 V3 V4 V5 V6]. cbn [List.length fold_left]. replace (k + S (List.length fs))%nat with (S k + List.length fs)%nat by lia.
    assert (Hcont : forall d1 a, dec_at d1 L i (S k) (set_field v acc f) -> reads d a d1 -> fits 0 fs = true ->
      exists d2, dec_at d2 L i (S k + List.length fs) (fold_left (set_field v) fs (set_field v acc f)) /\ reads d (a ++ fields_image h v 0 fs) d2).
    { intros d1 a Hat1 Hr1 Hf0. destruct (IH (S k) 0 d1 _ Hd Hf0 Hv Hat1) as (d2 & Hat2 & Hr2). exists d2. split; [done|]. eapply reads_app; [by apply fields_image_ok|done|done]. }
    cbn [fields_image fits] in *. destruct (F_Type f) eqn:Et; bool_simpl.
    + set (q := if w_sBit v then p + F_Param f else p) in *. assert (Hq : fits q fs = true) by (unfold q; by destruct (w_sBit v)).
      assert (Hhead : exists x tl, fields_image h v q fs = (q + x) :: tl /\ 0 <= x < 2 ^ Z.log2 (F_Param f)).
      { destruct fs as [|g fs']; [done|]. cbn [fields_image]. destruct (F_Type g) eqn:Eg; try done; bool_simpl;
          (destruct (enc_head q (F_Param g) (int_of g v)) as (x & tl & Ex & Hxx); [lia|unfold int_of; rewrite Eg; unfold is_u64 in *; lia|]; unfold int_of in Ex; rewrite Eg in Ex; rewrite Ex; exists x; eexists; split; [reflexivity|]; assert (2 ^ F_Param g <= 2 ^ Z.log2 (F_Param f)) by (apply Z.pow_le_mono_r; lia); lia). }
      destruct Hhead as (x & tl & Eh & Hxr). assert (Hbit : negb (Z.land (q + x) (F_Param f) =? 0) = w_sBit v).
      { match goal with H : F_Param f = 2 ^ _ |- _ => rename H into Hpw end. unfold q. rewrite Hpw. apply bit_at; [apply Z.log2_nonneg|done|done]. }
      destruct (read_sbit d L i k acc f v Hat Hx Et) as (d1 & Hat1 & Hr1). destruct (IH (S k) q d1 _ Hd Hq Hv Hat1) as (d2 & Hat2 & Hr2).
      exists d2. split; [done|]. intros l rest d' l' ok Hr Hrun. pose proof (Hr2 l rest d' l' ok Hr Hrun) as Hgo. rewrite Eh in Hgo |- *. cbn [app] in *. by apply Hr1.
    + destruct (read_varint d L i k acc f p v Hat Hx) as (d1 & Hat1 & Hr1); [by left|split; [lia|split; [unfold is_byte; lia|done]]|unfold int_of; by rewrite Et|]. unfold int_of in Hr1. rewrite Et in Hr1. by eapply Hcont.
    + destruct (read_varint d L i k acc f p v Hat Hx) as (d1 & Hat1 & Hr1); [by right|split; [lia|split; [unfold is_byte; lia|done]]|unfold int_of; by rewrite Et|]. unfold int_of in Hr1. rewrite Et in Hr1. by eapply Hcont.
    + destruct (read_string d L i k acc f p h v Hat Hx) as (d1 & Hat1 & Hr1); [unfold str_field; by rewrite Et|lia|lia|done|done|unfold str_of; by rewrite Et|]. unfold str_of in Hr1. rewrite Et in Hr1. by eapply Hcont.
    + destruct (read_string d L i k acc f p h v Hat Hx) as (d1 & Hat1 & Hr1); [unfold str_field; by rewrite Et|lia|lia|done|done|unfold str_of; by rewrite Et|]. unfold str_of in Hr1. rewrite Et in Hr1. by eapply Hcont.
Qed.

(** ** Whole instructions *)
Definition languages : list Language := [langEncoderStream; langDecoderStream; langPrefix; langRequestStream].
(** The bits below the opcode of the first byte. *)
Definition room (i : Instruction) : Z :=
  match Fields i with
  | f :: _ => match F_Type f with FieldSbit => 2 * F_Param f | FieldVarint | FieldVarint2 => 2 ^ F_Param f | _ => 2 * 2 ^ F_Param f end
  | [] => 1
  end.
Lemma image_head h v : values_ok v -> exists y tl, image h v = (Op_Value (Opcode (w_instruction v)) + y) :: tl /\ 0 <= y < room (w_instruction v).
Proof.
  intros [V1 V2 [V3 V3'] [V4 V4'] _ _]. unfold image. assert (Hint : forall p n x l, 1 <= n <= 8 -> 0 <= x -> exists y tl, int_enc p n x ++ l = (p + y) :: tl /\ 0 <= y < 2 ^ n).
  { intros p n x l Hn Hx. destruct (enc_head p n x Hn Hx) as (y & tl & -> & Hy). exists y. eexists. split; [reflexivity|done]. }
  assert (Hstr : forall p n s l, 1 <= n <= 7 -> bytes_ok s -> zlen s <= qpackStringLiteralLengthLimit -> exists y tl, str_image h p n s ++ l = (p + y) :: tl /\ 0 <= y < 2 * 2 ^ n).
  { intros p n s l Hn Hs Hz. unfold str_image, qpackStringLiteralLengthLimit in *. destruct (huffman_len s Hs ltac:(lia)) as [Hl _]. pose proof (zlen_nonneg s). destruct (str_huff h s); rewrite <- app_assoc.
    - destruct (Hint (p + 2 ^ n) n (HuffmanEncodeLength s) (HuffmanEncode [] s ++ l)) as (y & tl & -> & Hy); [lia..|]. exists (2 ^ n + y), tl. split; [f_equal; lia|lia].
    - destruct (Hint p n (zlen s) (s ++ l)) as (y & tl & -> & Hy); [lia..|]. exists y, tl. split; [done|lia]. }
  assert (Hbit : forall p q n x l, p <= q <= p + 2 ^ n -> 1 <= n <= 8 -> 0 <= x -> exists y tl, int_enc q n x ++ l = (p + y) :: tl /\ 0 <= y < 2 * 2 ^ n).
  { intros p q n x l Hq Hn Hx. destruct (Hint q n x l Hn Hx) as (y & tl & -> & Hy). exists (q - p + y), tl. split; [f_equal; lia|lia]. }
  unfold is_u64 in *. unfold room. destruct v as [i sb x x2 nm vl]. cbn [w_instruction w_sBit w_varint w_varint2 w_name w_value] in *.
  destruct i; cbn [Fields fields_image F_Type F_Param Opcode Op_Value w_sBit w_varint w_varint2 w_name w_value]; try (apply Hint; lia); try (apply Hstr; [lia|done..]).
  - apply Hbit; [destruct sb; lia|lia..].
  - apply Hbit; [destruct sb; lia|lia..].
  - apply Hbit; [destruct sb; lia|lia..].
Qed.
(** The languages are prefix codes: the first byte of an image gives its instruction. *)
Lemma opcode_lookup L i y : L ∈ languages -> i ∈ L -> 0 <= y < room i ->
  List.find (fun j => Z.land (Op_Value (Opcode i) + y) (Op_Mask (Opcode j)) =? Op_Value (Opcode j)) L = Some i.
Proof.
  intros HL Hi Hy. assert (Hyb : 0 <= y < 256) by (destruct i; cbn in Hy; lia).
  assert (H : (negb (y <? room i) || bool_decide (List.find (fun j => Z.land (Op_Value (Opcode i) + y) (Op_Mask (Opcode j)) =? Op_Value (Opcode j)) L = Some i)) = true).
  { clear Hy. unfold languages in HL. rewrite !elem_of_cons in HL. destruct HL as [-> |[-> |[-> |[-> |HL]]]]; [..|by apply not_elem_of_nil in HL];
      unfold langEncoderStream, langDecoderStream, langPrefix, langRequestStream in Hi; rewrite !elem_of_cons in Hi; repeat (destruct Hi as [-> |Hi]); try (by apply not_elem_of_nil in Hi);
      revert y Hyb; apply (all_bytes_spec (fun y => _)); vm_compute; reflexivity. }
  replace (y <? room i) with true in H by lia. cbn [negb orb] in H. by apply bool_decide_eq_true in H.
Qed.
Lemma set_fields_all v : values_ok v -> fold_left (set_field v) (Fields (w_instruction v)) (NewInstructionWithValues (w_instruction v)) = v.
Proof.
  intros [_ _ _ _ V5 (V6 & V7 & V8 & V9)]. destruct v as [i sb x x2 nm vl]. cbn [w_instruction w_sBit w_varint w_varint2 w_name w_value] in *.
  destruct i; cbn in *; try rewrite (V5 eq_refl); try rewrite (V6 eq_refl); try rewrite (V7 eq_refl); try rewrite (V8 eq_refl); try rewrite (V9 eq_refl); reflexivity.
Qed.

(** A decoder between instructions. *)
Record boundary (d : InstructionDecoder) (L : Language) : Prop := {
  bd_wf : id_wf d; bd_err : id_errorDetected d = false; bd_state : id_state d = StateStartInstruction; bd_lang : id_language d = L
}.
Lemma start_image d L i b rest l : boundary d L -> List.find (fun j => Z.land b (Op_Mask (Opcode j)) =? Op_Value (Opcode j)) L = Some i ->
  exists d1, @Decode_step _ log_delegate d l (b :: rest) = Ok (d1, l, b :: rest) /\ dec_at d1 L i 0 (NewInstructionWithValues i) /\ id_varintDecoder d1 = id_varintDecoder d.
Proof.
  intros [[Hw1 Hw2 Hw3] He Hs HL] Hf. unfold Decode_step. rewrite Hs. unfold doStartInstruction, index. rewrite zlen_cons. pose proof (zlen_nonneg rest). replace ((0 <=? 0) && (0 <? 1 + zlen rest)) with true by lia.
  change (znth (b :: rest) 0) with b. cbn [res_bind]. unfold lookupOpcode. rewrite HL, Hf. cbn [res_bind id_instruction]. eexists. split; [reflexivity|]. split; [|reflexivity].
  split; [split; [|exact Hw2|exact Hw3]|exact He|reflexivity|exact HL|reflexivity|reflexivity|reflexivity]. exists i. split; [reflexivity|cbn; lia].
Qed.
Lemma call_step d L i acc l data : dec_at d L i (List.length (Fields i)) acc -> exists d1, @Decode_step _ log_delegate d l data = Ok (d1, l ++ [Called acc], data) /\ boundary d1 L.
Proof.
  intros [[Hw1 Hw2 Hw3] He Hs HL Hi Hk Ha]. unfold Decode_step. rewrite Hs. unfold doStartField. rewrite Hi, Hk, Nat.eqb_refl. cbn [log_delegate OnInstructionDecoded res_bind snd fst].
  eexists. split; [rewrite <- Ha; reflexivity|]. split; [split; [exact I|exact Hw2|exact Hw3]|exact He|reflexivity|exact HL].
Qed.
Definition sendable (L : Language) (v : InstructionWithValues) : Prop := w_instruction v ∈ L /\ values_ok v.
Lemma image_ok h v : values_ok v -> bytes_ok (image h v).
Proof. intros Hv. apply fields_image_ok; [apply instruction_fits|done]. Qed.
Lemma images_ok h L vs : Forall (sendable L) vs -> bytes_ok (images h vs).
Proof. induction 1 as [|v vs [_ Hv] _ IH]; [apply Forall_nil_2|]. apply bytes_ok_app. split; [by apply image_ok|exact IH]. Qed.
(** One image is one call. *)
Lemma image_reads h L v d : L ∈ languages -> sendable L v -> boundary d L ->
  exists d2, boundary d2 L /\ forall l rest d' l' ok, bytes_ok rest -> runs d2 (l ++ [Called v]) rest d' l' ok -> runs d l (image h v ++ rest) d' l' ok.
Proof.
  intros HL [Hi Hv] Hb. destruct (image_head h v Hv) as (y & tl & Eh & Hy). pose proof (opcode_lookup L _ y HL Hi Hy) as Hlk. set (b := Op_Value (Opcode (w_instruction v)) + y) in *.
  destruct (start_image d L _ b tl [] Hb Hlk) as (d1 & E1 & Hat1 & _).
  destruct (read_fields h v L (w_instruction v) (Fields (w_instruction v)) 0 (Op_Value (Opcode (w_instruction v))) d1 _ eq_refl (instruction_fits _) Hv Hat1) as (d2 & Hat2 & Hr2).
  rewrite set_fields_all in Hat2 by done. destruct (call_step d2 L _ v [] [] Hat2) as (d3 & E3 & Hb3). exists d3. split; [done|].
  intros l rest d' l' ok Hok Hrun. pose proof (da_err _ _ _ _ _ Hat1) as He1.
  assert (E1' : @Decode_step _ log_delegate d l (image h v ++ rest) = Ok (d1, l, image h v ++ rest)).
  { rewrite Eh. cbn [app]. destruct (start_image d L _ b (tl ++ rest) l Hb Hlk) as (d1' & E1' & _). rewrite E1'. revert E1 E1'. destruct Hb as [_ _ Hs _]. unfold Decode_step. rewrite Hs. unfold doStartInstruction, index. rewrite !zlen_cons.
    pose proof (zlen_nonneg tl). pose proof (zlen_nonneg (tl ++ rest)). replace ((0 <=? 0) && (0 <? 1 + zlen tl)) with true by lia. replace ((0 <=? 0) && (0 <? 1 + zlen (tl ++ rest))) with true by lia.
    change (znth (b :: tl) 0) with b. change (znth (b :: tl ++ rest) 0) with b. cbn [res_bind]. destruct (id_instruction _); cbn [res_bind]; [|done]. by intros [= <-] [= <-]. }
  eapply runs_step; [rewrite Eh; reflexivity|exact E1'|exact He1|]. unfold image. apply Hr2; [done|].
  destruct (call_step d2 L _ v l rest Hat2) as (d3' & E3' & Hb3'). assert (d3' = d3) as ->.
  { revert E3 E3'. unfold Decode_step. rewrite (da_state _ _ _ _ _ Hat2). unfold doStartField. rewrite (da_instr _ _ _ _ _ Hat2). rewrite (da_idx _ _ _ _ _ Hat2), Nat.eqb_refl. cbn [log_delegate OnInstructionDecoded res_bind snd fst]. by intros [= <- _] [= <- _]. }
  eapply runs_step; [apply decoding_start; by apply (da_state _ _ _ _ _ Hat2)|exact E3'|apply (bd_err _ _ Hb3)|exact Hrun].
Qed.
Lemma images_read h L vs : L ∈ languages -> forall d l, Forall (sendable L) vs -> boundary d L -> exists d2, boundary d2 L /\ runs d l (images h vs) d2 (l ++ map Called vs) true.
Proof.
  intros HL. induction vs as [|v vs IH]; intros d l Hvs Hb.
  - exists d. split; [done|]. cbn [images map concat]. rewrite app_nil_r. apply runs_stop. unfold decoding. cbn. by rewrite (bd_state _ _ Hb).
  - apply Forall_cons_1 in Hvs as [Hv Hvs]. destruct (image_reads h L v d HL Hv Hb) as (d1 & Hb1 & H1). destruct (IH d1 (l ++ [Called v]) Hvs Hb1) as (d2 & Hb2 & H2). exists d2. split; [done|].
    unfold images. cbn [map concat]. apply H1; [by apply (images_ok h L)|]. rewrite <- app_assoc in H2. exact H2.
Qed.

(** ** Input in pieces *)
Section feed.
Context {T : Type} `{InstructionDecoderDelegate T}.
(** The receiver passes each piece to [Decode], until it returns false. *)
Fixpoint feed (d : InstructionDecoder) (s : T) (chunks : list bytes) : run (InstructionDecoder * T * bool) :=
  match chunks with
  | [] => Ok (d, s, true)
  | c :: cs => let* r := id_Decode d s c in let '(d, s, ok) := r in if ok then feed d s cs else Ok (d, s, false)
  end.
End feed.
Fixpoint EncodeTo_all (e : InstructionEncoder) (vs : list InstructionWithValues) (output : bytes) : run (InstructionEncoder * bytes) :=
  match vs with
  | [] => Ok (e, output)
  | v :: vs' => let* r := EncodeTo e v output in EncodeTo_all (fst r) vs' (snd r)
  end.
Lemma EncodeTo_all_images L vs : forall e out, Forall (sendable L) vs -> exists e', EncodeTo_all e vs out = Ok (e', out ++ images (ie_huffman e) vs).
Proof.
  induction vs as [|v vs IH]; intros e out Hvs; [exists e; by rewrite app_nil_r|]. apply Forall_cons_1 in Hvs as [[_ Hv] Hvs].
  destruct (EncodeTo_image e v out Hv) as (e1 & E & Hh). cbn [EncodeTo_all]. rewrite E. cbn [res_bind fst snd]. destruct (IH e1 (out ++ image (ie_huffman e) v) Hvs) as (e2 & E2). exists e2. by rewrite E2, Hh, <- app_assoc.
Qed.

(** Feeding the pieces is one run over their concatenation. *)
Lemma feed_denotes chunks : forall d l, id_wf d -> id_errorDetected d = false -> decoding d [] = false -> Forall bytes_ok chunks ->
  exists d1 k ok, (exists d2, runs d l (concat chunks) d2 (l ++ k) ok /\ (ok = true -> d1 = d2))
    /\ forall (T : Type) (H : InstructionDecoderDelegate T) (s : T), exists d3, feed d s chunks = let* r := interp k s in Ok (if snd r then d1 else d3, fst r, snd r && ok).
Proof.
  induction chunks as [|c cs IH]; intros d l Hw He Hd Hcs.
  - exists d, [], true. rewrite app_nil_r. split; [exists d; split; [by apply runs_stop|done]|]. intros T H s. by exists d.
  - apply Forall_cons_1 in Hcs as [Hc Hcs]. destruct (loop_total _ d l c Hw He Hc (fuel_enough d c)) as (d1 & l1 & ok & Eloop & _ & Hok & Hno). destruct (loop_log _ _ _ _ _ _ _ He Eloop) as (k1 & -> & Hk1).
    assert (Hcc : bytes_ok (concat cs)) by (clear -Hcs; induction Hcs; [apply Forall_nil_2|cbn [concat]; by apply bytes_ok_app]).
    pose proof (runs_app _ d l c (concat cs) d1 _ ok Hw He Hc Hcc Eloop) as Happ. destruct ok.
    + destruct (Hok eq_refl) as (Hw1 & He1 & Hd1). destruct (IH d1 (l ++ k1) Hw1 He1 Hd1 Hcs) as (d2 & k & ok & (d2' & Hrun & Heq) & Hfeed). destruct (Happ _ _ _ Hrun) as (d'' & Hr'' & Heq'').
      exists d2, (k1 ++ k), ok. split; [exists d''; split; [by rewrite app_assoc|intros ->; rewrite Heq'' by done; by apply Heq]|].
      intros T H s. cbn [feed]. unfold id_Decode. rewrite He. destruct (Hk1 T H s) as [d3 E3]. rewrite E3, interp_app. destruct (interp k1 s) as [[s' []]|[]|]; cbn [res_bind fst snd andb]; [|by exists d3|by exists d3]. apply Hfeed.
    + exists d1, k1, false. split; [exists d1; done|]. intros T H s. cbn [feed]. unfold id_Decode. rewrite He. destruct (Hk1 T H s) as [d3 E3]. exists d3. rewrite E3. by destruct (interp k1 s) as [[s' []]|[]|].
Qed.
Lemma new_boundary L : boundary (NewInstructionDecoder L) L.
Proof. split; [split; [exact I|unfold is_u64; cbn; lia|apply Forall_nil_2]|reflexivity..]. Qed.
Lemma interp_total {T} `{InstructionDecoderDelegate T} : (forall v s, OnInstructionDecoded v s <> Panic) -> forall l s, interp l s <> Panic.
Proof.
  intros Hd l. induction l as [|[v|c m] l IH]; intros s; [done| |apply IH]. cbn [interp]. specialize (Hd v s). destruct (OnInstructionDecoded v s) as [[s' []]|[]|]; [apply IH|done..].
Qed.

(** ** A stream that arrives in pieces

    The decoder of a stream after the bytes [fed], with the calls made so far. *)
Record at_bytes (L : Language) (d : InstructionDecoder) (fed : bytes) (calls : list levent) : Prop := {
  ab_runs : runs (NewInstructionDecoder L) [] fed d calls true;
  ab_wf : id_wf d; ab_err : id_errorDetected d = false; ab_idle : decoding d [] = false; ab_bytes : bytes_ok fed
}.
Lemma at_start_bytes L : at_bytes L (NewInstructionDecoder L) [] [].
Proof. pose proof (new_boundary L) as Hb. split; [by apply runs_stop|apply Hb|done|done|apply Forall_nil_2]. Qed.
Lemma stream_chunk h L vs d fed k chunk rest : L ∈ languages -> Forall (sendable L) vs -> at_bytes L d fed (map Called (take k vs)) -> fed ++ chunk ++ rest = images h vs -> (k <= length vs)%nat ->
  exists d' k', (k <= k' <= length vs)%nat /\ at_bytes L d' (fed ++ chunk) (map Called (take k' vs))
    /\ forall (T : Type) (H : InstructionDecoderDelegate T) (s : T), exists d3, id_Decode d s chunk = let* r := interp (map Called (take (k' - k) (drop k vs))) s in Ok (if snd r then d' else d3, fst r, snd r).
Proof.
  intros HL Hvs [[f0 Hrun] Hw He Hidle Hfb] Himg Hk. pose proof (images_ok h L vs Hvs) as Hib. rewrite <- Himg in Hib. apply bytes_ok_app in Hib as [_ Hib]. apply bytes_ok_app in Hib as [Hcb Hrb]. pose proof (new_boundary L) as Hb. set (l0 := map Called (take k vs)) in *.
  destruct (images_read h L vs HL _ [] Hvs Hb) as (df & Hbf & Hfull). cbn [app] in Hfull. rewrite <- Himg, app_assoc in Hfull. destruct (loop_total _ d l0 chunk Hw He Hcb (fuel_enough d chunk)) as (d' & l1 & ok & Eloop & _ & Hok & _). destruct (loop_log _ _ _ _ _ _ _ He Eloop) as (new & -> & Hnew).
  assert (Hcut : exists d'', runs (NewInstructionDecoder L) [] (fed ++ chunk) d'' (l0 ++ new) ok /\ (ok = true -> d'' = d')) by (apply (runs_app _ _ _ _ _ _ _ _ (bd_wf _ _ Hb) eq_refl Hfb Hcb Hrun); by exists (decode_fuel chunk)).
  destruct Hcut as (d'' & [f1 Hrun1] & Hd''). assert (Hfcb : bytes_ok (fed ++ chunk)) by (by apply bytes_ok_app). pose proof (runs_app _ _ _ _ rest _ _ _ (bd_wf _ _ Hb) eq_refl Hfcb Hrb Hrun1) as Hcont. destruct ok; [|destruct (runs_fun _ _ _ _ _ _ _ _ _ Hfull Hcont) as (_ & _ & ?); discriminate].
  rewrite (Hd'' eq_refl) in *. destruct (Hok eq_refl) as (Hw' & He' & Hidle'). destruct (loop_total _ d' (l0 ++ new) rest Hw' He' Hrb (fuel_enough d' rest)) as (dr & lr & okr & Er & _). destruct (loop_log _ _ _ _ _ _ _ He' Er) as (more & -> & _).
  destruct (Hcont dr _ okr ltac:(by exists (decode_fuel rest))) as (dx & Hrx & _). destruct (runs_fun _ _ _ _ _ _ _ _ _ Hfull Hrx) as (_ & Hl & _).
  assert (Hnew' : new = map Called (take (length new) (drop k vs)) /\ (k + length new <= length vs)%nat).
  { assert (Hd : map Called (drop k vs) = new ++ more). { unfold l0 in Hl. rewrite <- (take_drop k vs) in Hl at 1. rewrite map_app, <- app_assoc in Hl. by apply app_inv_head in Hl. }
    assert (Hlen : (length new + length more = length vs - k)%nat) by (rewrite <- length_app, <- Hd, length_map, length_drop; done). split; [|lia]. rewrite <- firstn_map. rewrite Hd. symmetry. apply take_app_length. }
  destruct Hnew' as [Hn Hlen]. exists d', (k + length new)%nat. split; [lia|]. split.
  - split; [|done|done|done|done]. exists f1. rewrite Hrun1. do 3 f_equal. unfold l0. rewrite Hn at 1. rewrite <- map_app. f_equal. symmetry. rewrite <- (take_drop k vs) at 1. rewrite take_app_add'; [done|rewrite length_take; lia].
  - intros T H s. replace (k + length new - k)%nat with (length new) by lia. rewrite <- Hn. destruct (Hnew T H s) as [d3 E3]. exists d3. unfold id_Decode. rewrite He, E3. destruct (interp new s) as [[s' b]|[]|]; cbn [res_bind fst snd]; [by rewrite andb_true_r|done].
Qed.
(** A whole sequence at once. *)
Lemma decode_images h L vs d : L ∈ languages -> Forall (sendable L) vs -> boundary d L ->
  exists d', boundary d' L /\ forall (T : Type) (H : InstructionDecoderDelegate T) (s : T), exists d3, id_Decode d s (images h vs) = let* r := interp (map Called vs) s in Ok (if snd r then d' else d3, fst r, snd r).
Proof.
  intros HL Hvs Hb. destruct (images_read h L vs HL d [] Hvs Hb) as (d2 & Hb2 & Hrun). cbn [app] in Hrun. pose proof (images_ok h L vs Hvs) as Hib. pose proof Hb as [Hw He _ _].
  destruct (loop_total _ d [] (images h vs) Hw He Hib (fuel_enough d (images h vs))) as (d1 & l1 & ok & Eloop & _). destruct (loop_log _ _ _ _ _ _ _ He Eloop) as (k & Ek & Hk). cbn [app] in Ek. subst l1.
  destruct (runs_fun _ _ _ _ _ _ _ _ _ Hrun (ex_intro _ _ Eloop)) as (<- & <- & <-). exists d2. split; [done|]. intros T H s. destruct (Hk T H s) as [d3 E3]. exists d3. unfold id_Decode. rewrite He, E3. destruct (interp _ s) as [[s' b]|[]|]; cbn [res_bind fst snd]; [by rewrite andb_true_r|done].
Qed.

(** A decoder that has left the boundary returns to it only with a call. *)
Lemma step_stays d l data d1 rest : @Decode_step _ log_delegate d l data = Ok (d1, l, rest) -> id_errorDetected d1 = false -> id_state d1 <> StateStartInstruction.
Proof.
  assert (Hout : forall d' l' r', Ok (E := Empty_set) (d', l', r') = Ok (d1, l, rest) -> d' = d1 /\ l' = l) by (intros d' l' r' [= -> -> ->]; done). unfold Decode_step. destruct (id_state d) eqn:Es.
  - unfold doStartInstruction. destruct (index data 0) as [b|[]|]; cbn [res_bind]; [|done]. destruct (id_instruction _); intros E; apply Hout in E as [<- _]; done.
  - unfold doStartField. destruct (id_instruction d) as [i|]; [|done]. destruct (Nat.eqb _ _).
    + cbn [res_bind log_delegate OnInstructionDecoded fst snd]. intros E. apply Hout in E as [_ E]. apply (f_equal List.length) in E. rewrite length_app in E. cbn in E. lia.
    + destruct (field_at _ _) as [f|[]|]; cbn [res_bind]; [|done]. intros E. apply Hout in E as [<- _]. by destruct (F_Type f).
  - unfold doReadBit. destruct (cur_field d) as [f|[]|]; cbn [res_bind]; [|done]. destruct (index data 0) as [b|[]|]; cbn [res_bind]; [|done]. destruct (F_Type f); cbn [res_bind]; intros E; apply Hout in E as [<- _]; try done; by rewrite Es.
  - unfold doVarintStart. destruct (cur_field d) as [f|[]|]; cbn [res_bind]; [|done]. destruct (Start _ data) as [[v c] []]; cbn [res_bind snd fst]; (destruct (slice data c (zlen data)) as [r|[]|]; cbn [res_bind]; [|done]); intros E; apply Hout in E as [<- _]; done.
  - unfold doVarintResume. destruct (Resume _ 0 data) as [[v c] []]; cbn [res_bind snd fst]; (destruct (slice data c (zlen data)) as [r|[]|]; cbn [res_bind]; [|done]); intros E; apply Hout in E as [<- _]; try done.
    change (id_errorDetected d = false -> id_state d <> StateStartInstruction). by rewrite Es.
  - unfold doVarintDone. destruct (cur_field d) as [f|[]|]; cbn [res_bind]; [|done]. destruct (F_Type f); try (destruct (_ >? _)); cbn [res_bind]; intros E; apply Hout in E as [<- _]; try done.
    + by rewrite Es.
    + change (id_errorDetected d = false -> (if vd_value (id_varintDecoder d) =? 0 then StateReadStringDone else StateReadString) <> StateStartInstruction). by destruct (_ =? 0).
    + change (id_errorDetected d = false -> (if vd_value (id_varintDecoder d) =? 0 then StateReadStringDone else StateReadString) <> StateStartInstruction). by destruct (_ =? 0).
  - unfold doReadString. destruct (slice data 0 _) as [ch|[]|]; cbn [res_bind snd fst]; [|done]. destruct (slice data _ (zlen data)) as [r|[]|]; cbn [res_bind]; [|done]. destruct (_ =? _); intros E; apply Hout in E as [<- _]; [done|]. change (id_errorDetected d = false -> id_state d <> StateStartInstruction). by rewrite Es.
  - unfold doReadStringDone. destruct (if id_isHuffmanEncoded d then _ else _) as [str|e|]; cbn [res_bind]; [|intros E; apply Hout in E as [<- _]; done|done].
    destruct (cur_field d) as [f|[]|]; cbn [res_bind]; [|done]. intros E. apply Hout in E as [<- _]. by destruct (F_Type f).
Qed.
Lemma loop_stays fuel : forall d l data d', @Decode_loop _ log_delegate fuel d l data = Ok (d', l, true) -> id_errorDetected d = false -> decoding d data = true -> id_state d' <> StateStartInstruction.
Proof.
  induction fuel as [|fuel IH]; intros d l data d'; [done|]. cbn [Decode_loop]. intros H He Hd. rewrite Hd in H. destruct (@Decode_step _ log_delegate d l data) as [[[d1 l1] rest]|[]|] eqn:Es; cbn [res_bind] in H; [|done]. destruct (id_errorDetected d1) eqn:E1; [done|].
  destruct (step_calls _ _ _ _ _ _ Es) as (x & Ex & _). destruct (loop_log _ _ _ _ _ _ _ E1 H) as (y & Ey & _). assert (x = []) as -> by (rewrite Ex, <- app_assoc in Ey; apply (f_equal List.length) in Ey; rewrite !length_app in Ey; destruct x; [done|cbn in Ey; lia]). rewrite app_nil_r in Ex. subst l1.
  destruct (decoding d1 rest) eqn:Ed1; [by apply (IH d1 l rest)|]. pose proof (step_stays _ _ _ _ _ Es E1) as Hs. destruct fuel as [|fuel]; [done|]. cbn [Decode_loop] in H. rewrite Ed1 in H. by injection H as <-.
Qed.
Lemma no_early_call h L v d fed rest : L ∈ languages -> sendable L v -> at_bytes L d fed [Called v] -> fed ++ rest = image h v -> rest = [].
Proof.
  intros HL Hv [[f0 Hrun] Hw He Hidle Hfb] Himg. destruct rest as [|y rest]; [done|]. exfalso. pose proof (image_ok h v (proj2 Hv)) as Hib. rewrite <- Himg in Hib. apply bytes_ok_app in Hib as [_ Hrb]. pose proof (new_boundary L) as Hb.
  destruct (images_read h L [v] HL _ [] ltac:(by apply Forall_cons_2; [|apply Forall_nil_2]) Hb) as (df & Hbf & Hfull). unfold images in Hfull. cbn [map concat app] in Hfull. rewrite app_nil_r, <- Himg in Hfull.
  destruct (loop_total _ d [Called v] (y :: rest) Hw He Hrb (fuel_enough d (y :: rest))) as (dr & lr & okr & Er & _). destruct (runs_app _ _ _ _ _ _ _ _ (bd_wf _ _ Hb) eq_refl Hfb Hrb Hrun dr lr okr (ex_intro _ _ Er)) as (dx & Hrx & Hdx).
  destruct (runs_fun _ _ _ _ _ _ _ _ _ Hfull Hrx) as (<- & <- & <-). rewrite <- (Hdx eq_refl) in Er. exact (loop_stays _ _ _ _ _ Er He eq_refl (bd_state _ _ Hbf)).
Qed.

(** C30: a sequence of QPACK instructions of one language, with integers of 64 bits and
    strings within the limit, is decoded as sent: [InstructionEncoder.EncodeTo] writes
    all of them, and however the bytes are cut into pieces, a decoder that starts
    with the language calls its delegate with each of them, in order and with the
    values sent, until the delegate refuses one; if it refuses none, the decoder ends
    between two instructions. *)
Theorem qpack_instruction_roundtrip (huffman : bool) (L : Language) (vs : list InstructionWithValues) (HL : L ∈ languages) (Hvs : Forall (sendable L) vs) :
  exists e data, EncodeTo_all (NewInstructionEncoder huffman) vs [] = Ok (e, data)
    /\ forall chunks (T : Type) (D : InstructionDecoderDelegate T) (s : T), concat chunks = data ->
       exists d1 d2, AtInstructionBoundary d1 = true
         /\ feed (NewInstructionDecoder L) s chunks = let* r := interp (map Called vs) s in Ok (if snd r then d1 else d2, fst r, snd r).
Proof.
  destruct (EncodeTo_all_images L vs (NewInstructionEncoder huffman) [] Hvs) as [e E]. exists e, (images huffman vs). split; [exact E|]. intros chunks T D s Hc.
  pose proof (new_boundary L) as Hb. destruct (images_read huffman L vs HL _ [] Hvs Hb) as (d2 & Hb2 & Hrun). cbn [app] in Hrun.
  assert (Hok : Forall bytes_ok chunks). { pose proof (images_ok huffman L vs Hvs) as Hok. rewrite <- Hc in Hok. clear -Hok. induction chunks; [apply Forall_nil_2|]. cbn [concat] in Hok. apply bytes_ok_app in Hok as [? ?]. apply Forall_cons_2; auto. }
  destruct (feed_denotes chunks (NewInstructionDecoder L) [] (bd_wf _ _ Hb) eq_refl eq_refl Hok) as (d1 & k & ok & (d2' & Hrun' & Heq) & Hfeed). rewrite Hc in Hrun'. cbn [app] in Hrun'.
  destruct (runs_fun _ _ _ _ _ _ _ _ _ Hrun Hrun') as (<- & <- & <-). rewrite (Heq eq_refl) in Hfeed. destruct (Hfeed T D s) as [d3 E3]. exists d2, d3. split; [unfold AtInstructionBoundary; rewrite (bd_state _ _ Hb2); reflexivity|].
  rewrite E3. destruct (interp _ s) as [[s' b]|[]|]; cbn [res_bind fst snd]; [by rewrite andb_true_r|done].
Qed.
Definition sample_instructions : list InstructionWithValues :=
  [VSetDynamicTableCapacity 4096; VInsertWithNameReference true 0 [119; 119; 119]; VInsertWithoutNameReference [120; 45; 97] [255; 0]; VDuplicate 300].
Lemma sample_instructions_ok : Forall (sendable langEncoderStream) sample_instructions.
Proof.
  assert (Hs : forall s, bool_decide (bytes_ok s) = true -> zlen s <= 100 -> str_ok s) by (intros s H1 H2; split; [exact (bool_decide_eq_true_1 _ H1)|unfold qpackStringLiteralLengthLimit; lia]).
  repeat apply Forall_cons_2; try apply Forall_nil_2; (split; [apply (bool_decide_unpack _); vm_compute; exact I|]); (split; [unfold is_u64; cbn; lia|unfold is_u64; cbn; lia|apply Hs; [reflexivity|vm_compute; congruence]|apply Hs; [reflexivity|vm_compute; congruence]|vm_compute; congruence|vm_compute; split_and!; congruence]).
Qed.
Lemma qpack_instruction_roundtrip_witness :
  langEncoderStream ∈ languages /\ Forall (sendable langEncoderStream) sample_instructions
  /\ exists e data, EncodeTo_all (NewInstructionEncoder true) sample_instructions [] = Ok (e, data)
    /\ forall chunks (T : Type) (D : InstructionDecoderDelegate T) (s : T), concat chunks = data ->
       exists d1 d2, AtInstructionBoundary d1 = true
         /\ feed (NewInstructionDecoder langEncoderStream) s chunks = let* r := interp (map Called sample_instructions) s in Ok (if snd r then d1 else d2, fst r, snd r).
Proof.
  assert (HL : langEncoderStream ∈ languages) by (apply (bool_decide_unpack _); vm_compute; exact I). pose proof sample_instructions_ok as Hs.
  split; [exact HL|]. split; [exact Hs|]. exact (qpack_instruction_roundtrip true langEncoderStream sample_instructions HL Hs).
Defined.

(** C33: [InstructionDecoder.Decode] terminates without a panic on all input, cut in any
    way: for a delegate that returns, feeding any pieces of bytes to a decoder that
    starts with any language returns.  The passes of the loop are at most ten per byte
    and nine more. *)
Theorem qpack_decoder_total (T : Type) (D : InstructionDecoderDelegate T) (HD : forall v s, OnInstructionDecoded v s <> Panic) (L : Language) (s : T) (chunks : list bytes)
  (Hc : Forall bytes_ok chunks) : exists d s' ok, feed (NewInstructionDecoder L) s chunks = Ok (d, s', ok).
Proof.
  destruct (feed_denotes chunks (NewInstructionDecoder L) [] (bd_wf _ _ (new_boundary L)) eq_refl eq_refl Hc) as (d1 & k & ok & _ & Hf). destruct (Hf T D s) as [d3 E]. pose proof (interp_total HD k s) as Hk.
  destruct (interp k s) as [[s' b]|[]|]; [|done]. cbn [res_bind fst snd] in E. by eexists _, _, _.
Qed.
Lemma qpack_decoder_total_witness : Forall bytes_ok [[0x3f; 0xe1]; [0x1f; 0xff; 0xff]]
  /\ exists d s' ok, @feed _ log_delegate (NewInstructionDecoder langEncoderStream) [] [[0x3f; 0xe1]; [0x1f; 0xff; 0xff]] = Ok (d, s', ok).
Proof.
  assert (Hb : Forall bytes_ok [[0x3f; 0xe1]; [0x1f; 0xff; 0xff]]) by (apply (bool_decide_unpack _); vm_compute; exact I).
  split; [exact Hb|]. apply (qpack_decoder_total (list levent) log_delegate); [discriminate|exact Hb].
Defined.

(** The calls a decoder makes, and whether it accepts, do not depend on how its
    input arrives: cut in two ways, the same bytes leave every delegate in the same
    state with the same answer, on valid and on invalid input. *)
Theorem qpack_decode_any_split (T : Type) (D : InstructionDecoderDelegate T) (L : Language) (s : T) (chunks chunks' : list bytes) (Hc : Forall bytes_ok chunks) (Hc' : Forall bytes_ok chunks')
  (Hsame : concat chunks = concat chunks') :
  (let* r := feed (NewInstructionDecoder L) s chunks in Ok (snd (fst r), snd r)) = (let* r := feed (NewInstructionDecoder L) s chunks' in @Ok Empty_set _ (snd (fst r), snd r)).
Proof.
  pose proof (bd_wf _ _ (new_boundary L)) as Hw. destruct (feed_denotes chunks (NewInstructionDecoder L) [] Hw eq_refl eq_refl Hc) as (d1 & k & ok & (d2 & Hr & _) & Hf).
  destruct (feed_denotes chunks' (NewInstructionDecoder L) [] Hw eq_refl eq_refl Hc') as (d1' & k' & ok' & (d2' & Hr' & _) & Hf'). rewrite <- Hsame in Hr'. destruct (runs_fun _ _ _ _ _ _ _ _ _ Hr Hr') as (_ & Hk & <-). cbn [app] in Hk. subst k'.
  destruct (Hf T D s) as [d3 ->]. destruct (Hf' T D s) as [d3' ->]. by destruct (interp k s) as [[s' b]|[]|].
Qed.
Lemma qpack_decode_any_split_witness :
  Forall bytes_ok [[0x3f; 0xe1]; [0x1f; 0xff]] /\ Forall bytes_ok [[0x3f]; [0xe1; 0x1f; 0xff]]
  /\ (let* r := @feed _ log_delegate (NewInstructionDecoder langEncoderStream) [] [[0x3f; 0xe1]; [0x1f; 0xff]] in Ok (snd (fst r), snd r))
     = (let* r := @feed _ log_delegate (NewInstructionDecoder langEncoderStream) [] [[0x3f]; [0xe1; 0x1f; 0xff]] in @Ok Empty_set _ (snd (fst r), snd r)).
Proof.
  assert (H1 : Forall bytes_ok [[0x3f; 0xe1]; [0x1f; 0xff]]) by (apply (bool_decide_unpack _); vm_compute; exact I).
  assert (H2 : Forall bytes_ok [[0x3f]; [0xe1; 0x1f; 0xff]]) by (apply (bool_decide_unpack _); vm_compute; exact I).
  split; [exact H1|]. split; [exact H2|]. exact (qpack_decode_any_split _ log_delegate langEncoderStream [] _ _ H1 H2 eq_refl).
Defined.
