(* ===== verification/QpackTable.v ===== *)
(** * QPACK: the dynamic tables

    Models [src/proto/codec/qpack/header_table.go]: the ring buffer of entries, the
    table that encoder and decoder share, the encoder's table with its two indices and
    the decoder's table with its observers.  [HeaderTableBase] is embedded in both and
    calls back through a hook when it evicts; this is the class [HeaderTable].  An
    absent entry (nil) is [None].  The draining fraction is a binary64 number, computed
    with the operations of [SpecFloat].

    The theorems: the ring buffer is a queue; both tables refine a history of
    insertions of which the newest entries are live, with their sizes, counts and
    capacity exact; the indices of the encoder find exactly the newest live entry with
    a name or a field; the space the encoder computes before it inserts is exact. *)

From Stdlib Require Import SpecFloat.
From stdpp Require Import gmap.
From S2P Require Import Prelude QpackBase QpackInstr.
Open Scope Z_scope.

(** ** The ring buffer *)
Definition at_idx {A} (l : list A) (i : Z) : run A :=
  match (if 0 <=? i then l !! Z.to_nat i else None) with Some x => Ok x | None => Panic end.
#[projections(primitive)]
Record qpackRingBuffer := mkRing { rb_entries : list (option Entry); rb_head : Z; rb_count : Z }.
Definition rb_zero : qpackRingBuffer := mkRing [] 0 0.
Definition rb_size (rb : qpackRingBuffer) : Z := rb_count rb.
Definition rb_empty (rb : qpackRingBuffer) : bool := rb_count rb =? 0.
(** The slot of the entry at an offset; a remainder by zero panics. *)
Definition rb_slot (rb : qpackRingBuffer) (offset : Z) : run Z :=
  if zlen (rb_entries rb) =? 0 then Panic else Ok ((rb_head rb + offset) mod zlen (rb_entries rb)).
Definition rb_front (rb : qpackRingBuffer) : run (option Entry) :=
  if rb_count rb =? 0 then Ok None else at_idx (rb_entries rb) (rb_head rb).
Definition rb_at (rb : qpackRingBuffer) (offset : Z) : run (option Entry) :=
  if (offset <? 0) || (offset >=? rb_count rb) then Ok None
  else let* idx := rb_slot rb offset in at_idx (rb_entries rb) idx.
Fixpoint grow_loop (rb : qpackRingBuffer) (n : nat) (i : Z) (newEntries : list (option Entry)) : run (list (option Entry)) :=
  match n with
  | O => Ok newEntries
  | S n' =>
      let* idx := rb_slot rb i in
      let* e := at_idx (rb_entries rb) idx in
      if i <? zlen newEntries then grow_loop rb n' (i + 1) (<[Z.to_nat i := e]> newEntries) else Panic
  end.
Definition pushBack (rb : qpackRingBuffer) (entry : Entry) : run qpackRingBuffer :=
  let* rb :=
    if zlen (rb_entries rb) =? 0 then Ok (mkRing (repeat None 8) 0 0)
    else if rb_count rb =? zlen (rb_entries rb) then
      let newCap := zlen (rb_entries rb) * 2 in
      let* newEntries := grow_loop rb (Z.to_nat (rb_count rb)) 0 (repeat None (Z.to_nat newCap)) in
      Ok (mkRing newEntries 0 (rb_count rb))
    else Ok rb in
  let* idx := rb_slot rb (rb_count rb) in
  if idx <? zlen (rb_entries rb) then
    Ok { rb with rb_entries := <[Z.to_nat idx := Some entry]> (rb_entries rb); rb_count := rb_count rb + 1 }
  else Panic.
Definition popFront (rb : qpackRingBuffer) : run (option Entry * qpackRingBuffer) :=
  if rb_count rb =? 0 then Ok (None, rb)
  else
    let* entry := at_idx (rb_entries rb) (rb_head rb) in
    let rb := { rb with rb_entries := <[Z.to_nat (rb_head rb) := None]> (rb_entries rb) } in
    let* head := rb_slot rb 1 in
    Ok (entry, { rb with rb_head := head; rb_count := rb_count rb - 1 }).
(** What the iterator [Entries] yields at position [i]; using a nil entry panics. *)
Definition rb_yield (rb : qpackRingBuffer) (i : Z) : run (option Entry) :=
  let* idx := rb_slot rb i in at_idx (rb_entries rb) idx.
Definition deref (e : option Entry) : run Entry := match e with Some e => Ok e | None => Panic end.

(** ** The table *)
#[projections(primitive)]
Record HeaderTableBase := mkTB {
  tb_entries : qpackRingBuffer; tb_size : Z; tb_capacity : Z; tb_maximum : Z; tb_maxEntries : Z; tb_dropped : Z; tb_referenced : bool
}.
Definition initBase : HeaderTableBase := mkTB rb_zero 0 0 0 0 0 false.
Definition tb_EntryFits (t : HeaderTableBase) (name value : bytes) : bool := EntrySize name value <=? tb_capacity t.
Definition tb_SetMaximumDynamicTableCapacity (t : HeaderTableBase) (maximum : Z) : HeaderTableBase * bool :=
  if tb_maximum t =? 0 then ({ t with tb_maximum := maximum; tb_maxEntries := maximum / 32 }, true)
  else (t, maximum =? tb_maximum t).
Definition baseRemoveEntryFromEnd (t : HeaderTableBase) : run HeaderTableBase :=
  let* entry := rb_front (tb_entries t) in
  match entry with
  | None => Ok t
  | Some e =>
      let t := { t with tb_size := u64 (tb_size t - Entry_Size e) } in
      let* r := popFront (tb_entries t) in
      Ok { t with tb_entries := snd r; tb_dropped := u64 (tb_dropped t + 1) }
  end.
Definition InsertedEntryCount (t : HeaderTableBase) : Z := u64 (tb_dropped t + rb_size (tb_entries t)).
Definition SetDynamicTableEntryReferenced (t : HeaderTableBase) : HeaderTableBase := { t with tb_referenced := true }.

(** A table that embeds the base and has its own hook. *)
Class HeaderTable (T : Type) := {
  tb : T -> HeaderTableBase;
  set_tb : HeaderTableBase -> T -> T;
  removeEntryFromEndHook : T -> run T
}.
Section table.
Context {T : Type} `{HeaderTable T}.
(** A pass removes an entry or changes nothing, so one pass more than there are
    entries decides termination; running out is a panic. *)
Fixpoint evict_loop (fuel : nat) (t : T) (capacity : Z) : run T :=
  match fuel with
  | O => Panic
  | S fuel' => if tb_size (tb t) >? capacity then let* t := removeEntryFromEndHook t in evict_loop fuel' t capacity else Ok t
  end.
Definition EvictDownToCapacity (t : T) (capacity : Z) : run T :=
  evict_loop (S (Z.to_nat (rb_count (tb_entries (tb t))))) t capacity.
Definition tb_InsertEntry (t : T) (name value : bytes) : run (T * Z) :=
  let entrySize := EntrySize name value in
  if entrySize >? tb_capacity (tb t) then Panic
  else
    let idx := u64 (tb_dropped (tb t) + rb_size (tb_entries (tb t))) in
    let* t := EvictDownToCapacity t (u64 (tb_capacity (tb t) - entrySize)) in
    let newEntry := NewEntry name value in
    let* es := pushBack (tb_entries (tb t)) newEntry in
    Ok (set_tb { (tb t) with tb_size := u64 (tb_size (tb t) + entrySize); tb_entries := es } t, idx).
Definition tb_SetDynamicTableCapacity (t : T) (capacity : Z) : run (T * bool) :=
  if capacity >? tb_maximum (tb t) then Ok (t, false)
  else
    let* t := EvictDownToCapacity (set_tb { (tb t) with tb_capacity := capacity } t) capacity in
    Ok (t, true).
End table.

(** ** The encoder's table *)
Inductive MatchType := MatchTypeNoMatch | MatchTypeName | MatchTypeNameAndValue.
Record MatchResult := mkMatch { M_Match : MatchType; M_IsStatic : bool; M_Index : Z }.
#[projections(primitive)]
Record EncoderHeaderTable := mkET {
  et_base : HeaderTableBase; et_dynamicIndex : gmap HeaderField Z; et_dynamicNameIndex : gmap bytes Z; et_smallestAllowedIndex : Z
}.
Definition NewEncoderHeaderTable : EncoderHeaderTable := mkET initBase ∅ ∅ 0.
Definition drop_index {K} `{Countable K} (m : gmap K Z) (key : K) (idx : Z) : gmap K Z :=
  match m !! key with Some i => if i =? idx then delete key m else m | None => m end.
Definition removeEntryFromEndOverride (t : EncoderHeaderTable) : run EncoderHeaderTable :=
  let* entry := rb_front (tb_entries (et_base t)) in
  match entry with
  | None => Ok t
  | Some e =>
      let idx := tb_dropped (et_base t) in
      let t := { t with et_dynamicIndex := drop_index (et_dynamicIndex t) (mkHF (Name e) (Value e)) idx } in
      let t := { t with et_dynamicNameIndex := drop_index (et_dynamicNameIndex t) (Name e) idx } in
      let* b := baseRemoveEntryFromEnd (et_base t) in
      Ok { t with et_base := b }
  end.
#[export] Instance EncoderHeaderTable_table : HeaderTable EncoderHeaderTable :=
  {| tb := et_base; set_tb := fun b t => { t with et_base := b }; removeEntryFromEndHook := removeEntryFromEndOverride |}.
Definition et_InsertEntry (t : EncoderHeaderTable) (name value : bytes) : run (EncoderHeaderTable * Z) :=
  let* r := tb_InsertEntry t name value in
  let '(t, idx) := r in
  let t := { t with et_dynamicIndex := <[mkHF name value := idx]> (et_dynamicIndex t) } in
  let t := { t with et_dynamicNameIndex := <[name := idx]> (et_dynamicNameIndex t) } in
  Ok (t, idx).
Definition FindHeaderName (t : EncoderHeaderTable) (name : bytes) : MatchResult :=
  match snd (findStatic name []) with
  | Some nameIdx => mkMatch MatchTypeName true nameIdx
  | None =>
      match et_dynamicNameIndex t !! name with
      | Some idx => mkMatch MatchTypeName false idx
      | None => mkMatch MatchTypeNoMatch false 0
      end
  end.
Definition FindHeaderField (t : EncoderHeaderTable) (name value : bytes) : MatchResult :=
  match fst (findStatic name value) with
  | Some exactIdx => mkMatch MatchTypeNameAndValue true exactIdx
  | None =>
      match et_dynamicIndex t !! mkHF name value with
      | Some idx => mkMatch MatchTypeNameAndValue false idx
      | None => FindHeaderName t name
      end
  end.
Fixpoint max_insert_loop (rb : qpackRingBuffer) (n : nat) (i entryIndex index maxInsertSize : Z) : run Z :=
  match n with
  | O => Ok maxInsertSize
  | S n' =>
      let* entry := rb_yield rb i in
      if entryIndex >=? index then Ok maxInsertSize
      else let* entry := deref entry in max_insert_loop rb n' (i + 1) (u64 (entryIndex + 1)) index (u64 (maxInsertSize + Entry_Size entry))
  end.
Definition MaxInsertSizeWithoutEvictingGivenEntry (t : EncoderHeaderTable) (index : Z) : run Z :=
  if index <? tb_dropped (et_base t) then Ok 0
  else if index >? InsertedEntryCount (et_base t) then Ok (tb_capacity (et_base t))
  else
    max_insert_loop (tb_entries (et_base t)) (Z.to_nat (rb_count (tb_entries (et_base t)))) 0 (tb_dropped (et_base t)) index
      (u64 (tb_capacity (et_base t) - tb_size (et_base t))).
Definition SetSmallestAllowedIndex (t : EncoderHeaderTable) (index : Z) : EncoderHeaderTable := { t with et_smallestAllowedIndex := index }.

(** Numbers of type [float64], and the conversions from and to [uint64]. *)
Definition f64_of_u64 (x : Z) : spec_float := binary_normalize 53 1024 x 0 false.
Definition f64_mul : spec_float -> spec_float -> spec_float := SFmul 53 1024.
Definition u64_of_f64 (f : spec_float) : Z :=
  match f with
  | S754_finite s m e => let x := if 0 <=? e then Z.pos m * 2 ^ e else Z.pos m / 2 ^ (- e) in u64 (if s then - x else x)
  | _ => 0
  end.
Definition f64_zero : spec_float := S754_zero false.
Definition f64_one : spec_float := S754_finite false 4503599627370496 (-52).
Definition DrainingFraction : spec_float := S754_finite false 4503599627370496 (-54).

Fixpoint draining_loop (rb : qpackRingBuffer) (n : nat) (i entryIndex space requiredSpace : Z) (otherwise : Z) : run Z :=
  match n with
  | O => Ok otherwise
  | S n' =>
      let* entry := rb_yield rb i in
      let* entry := deref entry in
      let space := u64 (space + Entry_Size entry) in
      let entryIndex := u64 (entryIndex + 1) in
      if space >=? requiredSpace then Ok entryIndex else draining_loop rb n' (i + 1) entryIndex space requiredSpace otherwise
  end.
Definition DrainingIndex (t : EncoderHeaderTable) (drainingFraction : spec_float) : run Z :=
  let drainingFraction :=
    if SFltb drainingFraction f64_zero then f64_zero
    else if SFltb f64_one drainingFraction then f64_one else drainingFraction in
  let requiredSpace := u64_of_f64 (f64_mul drainingFraction (f64_of_u64 (tb_capacity (et_base t)))) in
  let spaceAboveDrainingIndex := u64 (tb_capacity (et_base t) - tb_size (et_base t)) in
  if rb_empty (tb_entries (et_base t)) || (spaceAboveDrainingIndex >=? requiredSpace) then Ok (tb_dropped (et_base t))
  else
    draining_loop (tb_entries (et_base t)) (Z.to_nat (rb_count (tb_entries (et_base t)))) 0 (tb_dropped (et_base t)) spaceAboveDrainingIndex
      requiredSpace (InsertedEntryCount (et_base t)).

(** ** The decoder's table

    An observer is known by an identifier (the pointer of the code). *)
#[projections(primitive)]
Record DecoderHeaderTable := mkDT { dt_base : HeaderTableBase; dt_observers : list (Z * nat) }.
Definition NewDecoderHeaderTable : DecoderHeaderTable := mkDT initBase [].
#[export] Instance DecoderHeaderTable_table : HeaderTable DecoderHeaderTable :=
  {| tb := dt_base; set_tb := fun b t => { t with dt_base := b };
     removeEntryFromEndHook := fun t => let* b := baseRemoveEntryFromEnd (dt_base t) in Ok { t with dt_base := b } |}.
(** The observer to call next, and the table without it. *)
Definition next_observer (t : DecoderHeaderTable) (insertedCount : Z) : option (nat * DecoderHeaderTable) :=
  match dt_observers t with
  | [] => None
  | (ric, o) :: os => if ric >? insertedCount then None else Some (o, { t with dt_observers := os })
  end.
Fixpoint insert_observer (ric : Z) (o : nat) (l : list (Z * nat)) : list (Z * nat) :=
  match l with
  | [] => [(ric, o)]
  | x :: l' => if fst x >? ric then (ric, o) :: l else x :: insert_observer ric o l'
  end.
Definition RegisterObserver (t : DecoderHeaderTable) (requiredInsertCount : Z) (o : nat) : run DecoderHeaderTable :=
  if requiredInsertCount =? 0 then Panic else Ok { t with dt_observers := insert_observer requiredInsertCount o (dt_observers t) }.
Fixpoint remove_observer (ric : Z) (o : nat) (l : list (Z * nat)) : list (Z * nat) :=
  match l with
  | [] => []
  | x :: l' => if (fst x =? ric) && Nat.eqb (snd x) o then l' else x :: remove_observer ric o l'
  end.
Definition UnregisterObserver (t : DecoderHeaderTable) (requiredInsertCount : Z) (o : nat) : DecoderHeaderTable :=
  { t with dt_observers := remove_observer requiredInsertCount o (dt_observers t) }.
Definition LookupEntry (t : DecoderHeaderTable) (isStatic : bool) (index : Z) : run (option Entry) :=
  if isStatic then Ok (if index >=? 99 then None else staticTable !! Z.to_nat index)
  else if index <? tb_dropped (dt_base t) then Ok None
  else
    let offset := u64 (index - tb_dropped (dt_base t)) in
    if offset >=? rb_size (tb_entries (dt_base t)) then Ok None else rb_at (tb_entries (dt_base t)) (i64 offset).

(** ** The ring buffer is a queue *)
Record ring_rep (rb : qpackRingBuffer) (l : list Entry) : Prop := {
  rr_count : rb_count rb = zlen l;
  rr_head : 0 <= rb_head rb;
  rr_room : zlen l <= zlen (rb_entries rb);
  rr_in : rb_entries rb <> [] -> rb_head rb < zlen (rb_entries rb);
  rr_at : forall i e, l !! i = Some e -> rb_entries rb !! Z.to_nat ((rb_head rb + Z.of_nat i) mod zlen (rb_entries rb)) = Some (Some e)
}.
Lemma ring_zero : ring_rep rb_zero [].
Proof. split; try done. Qed.
Lemma at_idx_some {A} (l : list A) i x : 0 <= i -> l !! Z.to_nat i = Some x -> at_idx l i = Ok x.
Proof. intros Hi Hx. unfold at_idx. replace (0 <=? i) with true by lia. by rewrite Hx. Qed.
Lemma rep_room rb l x : ring_rep rb (x :: l) -> 0 < zlen (rb_entries rb) /\ rb_entries rb <> [].
Proof. intros H. pose proof (rr_room _ _ H) as Hr. rewrite zlen_cons in Hr. pose proof (zlen_nonneg l). split; [lia|]. intros E. rewrite E, zlen_nil in Hr. lia. Qed.
Lemma ring_yield rb l i e : ring_rep rb l -> l !! i = Some e -> rb_yield rb (Z.of_nat i) = Ok (Some e).
Proof.
  intros Hr He. destruct l as [|x l]; [by rewrite lookup_nil in He|]. destruct (rep_room rb l x Hr) as [Hp _]. unfold rb_yield, rb_slot. replace (zlen (rb_entries rb) =? 0) with false by lia. cbn [res_bind].
  apply at_idx_some; [apply Z.mod_pos_bound; lia|]. by apply (rr_at _ _ Hr).
Qed.
Lemma ring_front rb l : ring_rep rb l -> rb_front rb = Ok (head l).
Proof.
  intros Hr. unfold rb_front. rewrite (rr_count _ _ Hr). destruct l as [|x l]; [done|]. rewrite zlen_cons. pose proof (zlen_nonneg l). replace (1 + zlen l =? 0) with false by lia.
  destruct (rep_room rb l x Hr) as [Hp Hne]. pose proof (rr_head _ _ Hr). pose proof (rr_in _ _ Hr Hne). apply at_idx_some; [lia|]. pose proof (rr_at _ _ Hr 0%nat x eq_refl) as Ha. by rewrite Z.add_0_r, Z.mod_small in Ha by lia.
Qed.
Lemma ring_at rb l i : ring_rep rb l -> rb_at rb i = Ok (if 0 <=? i then l !! Z.to_nat i else None).
Proof.
  intros Hr. unfold rb_at. rewrite (rr_count _ _ Hr). destruct (i <? 0) eqn:E1; bool_simpl; [by replace (0 <=? i) with false by lia|]. replace (0 <=? i) with true by lia. cbn [orb].
  destruct (i >=? zlen l) eqn:E2; bool_simpl; [rewrite lookup_ge_None_2; [done|unfold zlen in *; lia]|].
  destruct (lookup_lt_is_Some_2 l (Z.to_nat i)) as [e He]; [unfold zlen in *; lia|]. rewrite He. pose proof (ring_yield rb l _ e Hr He) as Hy. unfold rb_yield in Hy. by rewrite Z2Nat.id in Hy by lia.
Qed.
Lemma slot_other h i n c : 0 <= h -> 0 < n -> 0 <= i < c -> c < n -> (h + i) mod n <> (h + c) mod n.
Proof. intros Hh Hn Hi Hc E. pose proof (Z.div_mod (h + i) n ltac:(lia)) as D1. pose proof (Z.div_mod (h + c) n ltac:(lia)) as D2. rewrite E in D1. revert D1 D2. generalize ((h + c) mod n) ((h + c) / n) ((h + i) / n). intros r a b D1 D2. assert (Hk : n * (a - b) = c - i) by lia. destruct (Z.le_gt_cases (a - b) 0); nia. Qed.
Lemma zlen_insert {A} (l : list A) i x : zlen (<[i := x]> l) = zlen l.
Proof. unfold zlen. by rewrite length_insert. Qed.
Lemma push_room rb l e : ring_rep rb l -> rb_count rb < zlen (rb_entries rb) ->
  exists rb', (let* idx := rb_slot rb (rb_count rb) in if idx <? zlen (rb_entries rb) then Ok { rb with rb_entries := <[Z.to_nat idx := Some e]> (rb_entries rb); rb_count := rb_count rb + 1 } else Panic) = Ok rb'
    /\ ring_rep rb' (l ++ [e]).
Proof.
  destruct rb as [es h c]. intros [Hcount Hh Hroom Hin Hat] Hc. unfold rb_slot. cbn [rb_entries rb_head rb_count] in *. pose proof (zlen_nonneg l) as Hl. set (n := zlen es) in *.
  pose proof (Z.mod_pos_bound (h + c) n ltac:(lia)) as Hm. replace (n =? 0) with false by lia. cbn [res_bind]. replace (_ <? n) with true by lia.
  exists (mkRing (<[Z.to_nat ((h + c) mod n) := Some e]> es) h (c + 1)). split; [reflexivity|]. split; cbn [rb_entries rb_head rb_count]; rewrite ?zlen_insert, ?zlen_app; fold n; change (zlen [e]) with 1.
  - lia.
  - done.
  - lia.
  - intros _. apply Hin. intros E. unfold n in Hc. rewrite E, zlen_nil in Hc. lia.
  - intros i x Hx. destruct (decide (i < length l)%nat) as [Hi|Hi].
    + rewrite lookup_app_l in Hx by done. rewrite list_lookup_insert_ne; [by apply Hat|]. intros E. apply (slot_other h (Z.of_nat i) n c); pose proof (Z.mod_pos_bound (h + Z.of_nat i) n ltac:(lia)); unfold zlen in *; lia.
    + apply lookup_app_Some in Hx as [Hx|[Hge Hx]]; [by apply lookup_lt_Some in Hx|]. destruct (i - length l)%nat eqn:Ei; [|done]. injection Hx as <-. replace (Z.of_nat i) with c by (unfold zlen in *; lia).
      apply list_lookup_insert_eq. unfold zlen in *. lia.
Qed.
Lemma grow_spec rb l : ring_rep rb l -> forall n i acc, (Z.to_nat i + n = length l)%nat -> 0 <= i -> zlen l <= zlen acc -> (forall j e, (j < Z.to_nat i)%nat -> l !! j = Some e -> acc !! j = Some (Some e)) ->
  exists new, grow_loop rb n i acc = Ok new /\ zlen new = zlen acc /\ forall j e, l !! j = Some e -> new !! j = Some (Some e).
Proof.
  intros Hr. induction n as [|n IH]; intros i acc Hn Hi Hz Hacc; cbn [grow_loop].
  - exists acc. split; [done|]. split; [done|]. intros j e Hj. apply Hacc; [|done]. apply lookup_lt_Some in Hj. lia.
  - destruct (lookup_lt_is_Some_2 l (Z.to_nat i)) as [e He]; [lia|]. pose proof (ring_yield rb l _ e Hr He) as Hy. unfold rb_yield in Hy. rewrite Z2Nat.id in Hy by lia.
    destruct (rb_slot rb i) as [idx|[]|]; cbn [res_bind] in *; [|done]. rewrite Hy. cbn [res_bind]. replace (i <? zlen acc) with true by (unfold zlen in *; lia).
    destruct (IH (i + 1) (<[Z.to_nat i := Some e]> acc)) as (new & E & Hz' & Hall); [lia|lia|by rewrite zlen_insert| |].
    + intros j x Hj Hx. destruct (decide (j = Z.to_nat i)) as [-> |Hne]; [rewrite Hx in He; injection He as ->; apply list_lookup_insert_eq; unfold zlen in *; lia|]. rewrite list_lookup_insert_ne by done. apply Hacc; [lia|done].
    + exists new. split; [exact E|]. split; [by rewrite Hz', zlen_insert|done].
Qed.
Lemma ring_push rb l e : ring_rep rb l -> exists rb', pushBack rb e = Ok rb' /\ ring_rep rb' (l ++ [e]).
Proof.
  intros Hr. unfold pushBack. pose proof (zlen_nonneg l) as Hl. pose proof (zlen_nonneg (rb_entries rb)) as Hn. destruct (zlen (rb_entries rb) =? 0) eqn:E0; bool_simpl.
  - pose proof (rr_room _ _ Hr) as Hroom. assert (l = []) as -> by (apply zlen_zero; lia). cbn [res_bind]. apply (push_room (mkRing (repeat None 8) 0 0) []); [|done]. split; done.
  - rewrite (rr_count _ _ Hr). destruct (zlen l =? zlen (rb_entries rb)) eqn:E1; bool_simpl.
    + set (n := zlen (rb_entries rb)) in *. destruct (grow_spec rb l Hr (Z.to_nat (zlen l)) 0 (repeat None (Z.to_nat (n * 2)))) as (new & E & Hz & Hall).
      { unfold zlen. lia. } { lia. } { unfold zlen at 2. rewrite repeat_length. lia. } { intros j e' Hj. lia. }
      rewrite E. cbn [res_bind]. unfold zlen at 1 in Hz. unfold zlen in Hz at 1. assert (Hz2 : zlen new = n * 2) by (unfold zlen in *; rewrite repeat_length in Hz; lia).
      assert (Hm : forall x, 0 <= x -> x < n * 2 -> (0 + x) mod zlen new = x) by (intros x ? ?; rewrite Hz2, Z.add_0_l, Z.mod_small by lia; done).
      apply (push_room (mkRing new 0 (zlen l)) l); [|cbn [rb_count rb_entries]; lia]. split; cbn [rb_entries rb_head rb_count]; try lia.
      intros i x Hx. pose proof (lookup_lt_Some _ _ _ Hx). rewrite Hm by (unfold zlen in *; lia). rewrite Nat2Z.id. by apply Hall.
    + cbn [res_bind]. apply push_room; [done|]. pose proof (rr_room _ _ Hr). rewrite (rr_count _ _ Hr). lia.
Qed.
Lemma ring_pop rb e l : ring_rep rb (e :: l) -> exists rb', popFront rb = Ok (Some e, rb') /\ ring_rep rb' l.
Proof.
  intros Hr. pose proof (ring_front _ _ Hr) as Hf. destruct (rep_room rb l e Hr) as [Hp Hne]. destruct rb as [es h c]. destruct Hr as [Hc Hh Hroom Hin Hat]. unfold popFront, rb_front in *. cbn [rb_entries rb_head rb_count] in *.
  rewrite zlen_cons in *. specialize (Hin Hne). pose proof (zlen_nonneg l). replace (c =? 0) with false in * by lia. rewrite Hf. cbn [res_bind head].
  unfold rb_slot. match goal with |- context [zlen ?x =? 0] => change x with (<[Z.to_nat h := None]> es) end. rewrite zlen_insert. set (n := zlen es) in *. replace (n =? 0) with false by lia. cbn [res_bind].
  exists (mkRing (<[Z.to_nat h := None]> es) ((h + 1) mod n) (c - 1)). split; [unfold n; rewrite <- (zlen_insert es (Z.to_nat h) None); reflexivity|]. pose proof (Z.mod_pos_bound (h + 1) n ltac:(lia)). split; cbn [rb_entries rb_head rb_count]; rewrite ?zlen_insert; fold n; try lia.
  intros i x Hx. pose proof (lookup_lt_Some _ _ _ Hx) as Hlt. assert (Hzi : Z.of_nat i < zlen l) by (unfold zlen; lia).
  replace (((h + 1) mod n + Z.of_nat i) mod n) with ((h + Z.of_nat (S i)) mod n) by (rewrite Z.add_mod_idemp_l by lia; f_equal; lia).
  rewrite list_lookup_insert_ne; [by apply (Hat (S i))|]. intros E. pose proof (Z.mod_pos_bound (h + Z.of_nat (S i)) n ltac:(lia)).
  apply (slot_other h 0 n (Z.of_nat (S i))); [lia..|]. rewrite Z.add_0_r, (Z.mod_small h n) by lia. lia.
Qed.

(** ** What a table holds

    A table stands for the list [hist] of all entries inserted since it was created, of
    which the first [d] have been dropped. *)
Definition entry_bytes (e : Entry) : Z := zlen (Name e) + zlen (Value e) + 32.
Fixpoint total (l : list Entry) : Z := match l with [] => 0 | e :: l' => entry_bytes e + total l' end.
(** How many entries go before the rest fits. *)
Fixpoint evict_count (cap : Z) (l : list Entry) : nat :=
  match l with [] => 0 | _ :: l' => if total l <=? cap then 0 else S (evict_count cap l') end.
Record base_rep (b : HeaderTableBase) (hist : list Entry) (d : nat) : Prop := {
  br_ring : ring_rep (tb_entries b) (drop d hist);
  br_size : tb_size b = total (drop d hist);
  br_dropped : tb_dropped b = Z.of_nat d;
  br_le : (d <= length hist)%nat;
  br_count : zlen hist < 2 ^ 62;
  br_ok : Forall hf_ok hist;
  br_total : total (drop d hist) < 2 ^ 64;
  br_cap : 0 <= tb_capacity b <= tb_maximum b;
  br_max : tb_maximum b < 2 ^ 64;
  br_maxEntries : tb_maxEntries b = tb_maximum b / 32
}.
Definition settings (b : HeaderTableBase) : Z * Z * Z * bool := (tb_capacity b, tb_maximum b, tb_maxEntries b, tb_referenced b).

Lemma entry_bytes_ok e : hf_ok e -> Entry_Size e = entry_bytes e /\ 32 <= entry_bytes e < 2 ^ 63.
Proof. intros (_ & _ & H). unfold entry_bytes. pose proof (zlen_nonneg (Name e)). pose proof (zlen_nonneg (Value e)). rewrite entry_size_of, entry_size_eq by done. lia. Qed.
Lemma sizes_nonneg l : 0 <= total l.
Proof. induction l as [|e l IH]; [done|]. cbn [total]. unfold entry_bytes. pose proof (zlen_nonneg (Name e)). pose proof (zlen_nonneg (Value e)). lia. Qed.
Lemma sizes_app l k : total (l ++ k) = total l + total k.
Proof. induction l as [|e l IH]; [done|]. cbn [app total]. lia. Qed.
Lemma sizes_length l : 32 * zlen l <= total l.
Proof. induction l as [|e l IH]; [done|]. rewrite zlen_cons. cbn [total]. unfold entry_bytes. pose proof (zlen_nonneg (Name e)). pose proof (zlen_nonneg (Value e)). lia. Qed.
Lemma evict_count_le cap l : (evict_count cap l <= length l)%nat.
Proof. induction l as [|e l IH]; [done|]. cbn [evict_count length]. destruct (_ <=? _); lia. Qed.
Lemma evict_fits cap l : 0 <= cap -> total (drop (evict_count cap l) l) <= cap.
Proof. intros Hc. induction l as [|e l IH]; [done|]. cbn [evict_count]. destruct (total (e :: l) <=? cap) eqn:E; bool_simpl; [done|]. exact IH. Qed.
(** Eviction stops as soon as the rest fits. *)
Lemma evict_minimal cap l k : total (drop k l) <= cap -> (evict_count cap l <= k)%nat.
Proof.
  revert k. induction l as [|e l IH]; intros k H; cbn [evict_count]; [lia|]. destruct (total (e :: l) <=? cap) eqn:E; bool_simpl; [lia|]. destruct k as [|k]; [cbn [drop] in H; lia|]. cbn [drop] in H. specialize (IH k H). lia.
Qed.
Lemma total_drop_le k l : total (drop k l) <= total l.
Proof. rewrite <- (take_drop k l) at 2. rewrite sizes_app. pose proof (sizes_nonneg (take k l)). lia. Qed.
Lemma inserted_count b hist d : base_rep b hist d -> InsertedEntryCount b = zlen hist.
Proof.
  intros Hb. pose proof (br_le _ _ _ Hb). pose proof (br_count _ _ _ Hb). unfold InsertedEntryCount, rb_size. rewrite (br_dropped _ _ _ Hb), (rr_count _ _ (br_ring _ _ _ Hb)). unfold zlen in *. rewrite length_drop. rewrite u64_small by (unfold is_u64; lia). lia.
Qed.
Lemma init_rep : base_rep initBase [] 0.
Proof. split; cbn; try lia; try done. Qed.

Lemma base_remove b hist d e : base_rep b hist d -> hist !! d = Some e ->
  rb_front (tb_entries b) = Ok (Some e) /\ exists b', baseRemoveEntryFromEnd b = Ok b' /\ base_rep b' hist (S d) /\ settings b' = settings b.
Proof.
  intros Hb He. pose proof (drop_S hist e d He) as Hd. pose proof Hb as [Hring Hsize Hdrop Hle Hcount Hok Htot Hcap Hmax Hme]. rewrite Hd in *. pose proof (ring_front _ _ Hring) as Hf. cbn [head] in Hf. split; [done|].
  unfold baseRemoveEntryFromEnd. rewrite Hf. cbn [res_bind]. destruct (ring_pop _ _ _ Hring) as (rb' & E & Hring'). match goal with |- context [popFront ?x] => change x with (tb_entries b) end. rewrite E. cbn [res_bind snd].
  eexists. split; [reflexivity|]. split; [|reflexivity]. pose proof (lookup_lt_Some _ _ _ He). assert (hf_ok e) as He' by (rewrite Forall_lookup in Hok; by apply (Hok d)). destruct (entry_bytes_ok e He') as [Hes Hb1]. cbn [total] in *. pose proof (sizes_nonneg (drop (S d) hist)).
  split; cbn [tb_entries tb_size tb_dropped tb_capacity tb_maximum tb_maxEntries]; try done; try lia.
  - change (u64 (tb_size b - Entry_Size e) = total (drop (S d) hist)). rewrite Hsize, Hes. rewrite u64_small by (unfold is_u64; lia). lia.
  - change (u64 (tb_dropped b + 1) = Z.of_nat (S d)). rewrite Hdrop. rewrite u64_small by (unfold is_u64, zlen in *; lia). lia.
Qed.
Lemma base_push b hist d e : base_rep b hist d -> hf_ok e -> zlen hist + 1 < 2 ^ 62 -> total (drop d hist) + entry_bytes e < 2 ^ 64 ->
  exists es, pushBack (tb_entries b) e = Ok es /\ base_rep { b with tb_size := u64 (tb_size b + Entry_Size e); tb_entries := es } (hist ++ [e]) d.
Proof.
  intros [Hring Hsize Hdrop Hle Hcount Hok Htot Hcap Hmax Hme] He Hz Hsum. destruct (ring_push _ _ e Hring) as (es & E & Hring'). exists es. split; [done|]. destruct (entry_bytes_ok e He) as [Hes Hb1]. pose proof (sizes_nonneg (drop d hist)).
  assert (Hd : drop d (hist ++ [e]) = drop d hist ++ [e]) by (rewrite drop_app_le by done; done).
  split; rewrite ?Hd, ?zlen_app, ?sizes_app; cbn [total]; change (zlen [e]) with 1; try done; try lia.
  - change (u64 (tb_size b + Entry_Size e) = total (drop d hist) + (entry_bytes e + 0)). rewrite Hsize, Hes. rewrite u64_small by (unfold is_u64; lia). lia.
  - rewrite length_app. lia.
  - apply Forall_app. split; [done|]. apply Forall_cons_2; [done|apply Forall_nil_2].
Qed.

(** What a table promises to the code that inserts into it. *)
Class HeaderTableRep (T : Type) `{HeaderTable T} := {
  table_rep : T -> list Entry -> nat -> Prop;
  table_other : Type;
  other : T -> table_other;
  rep_base t hist d : table_rep t hist d -> base_rep (tb t) hist d;
  rep_tb b t : tb (set_tb b t) = b /\ other (set_tb b t) = other t;
  rep_set b t hist d : table_rep t hist d -> base_rep b hist d -> table_rep (set_tb b t) hist d;
  rep_hook t hist d e : table_rep t hist d -> hist !! d = Some e ->
    exists t', removeEntryFromEndHook t = Ok t' /\ table_rep t' hist (S d) /\ settings (tb t') = settings (tb t) /\ other t' = other t
}.
Section rep.
Context {T : Type} `{HeaderTableRep T}.
Lemma evict_spec cap : 0 <= cap -> forall n t hist d, table_rep t hist d -> (length hist - d < n)%nat ->
  exists t', evict_loop n t cap = Ok t' /\ table_rep t' hist (d + evict_count cap (drop d hist)) /\ settings (tb t') = settings (tb t) /\ other t' = other t.
Proof.
  intros Hcap. induction n as [|n IH]; intros t hist d Hr Hn; [lia|]. cbn [evict_loop]. pose proof (rep_base _ _ _ Hr) as Hb. rewrite (br_size _ _ _ Hb). destruct (total (drop d hist) >? cap) eqn:E; bool_simpl.
  - destruct (hist !! d) as [e|] eqn:He.
    + destruct (rep_hook _ _ _ _ Hr He) as (t1 & -> & Hr1 & Hs1 & Ho1). cbn [res_bind]. pose proof (lookup_lt_Some _ _ _ He). destruct (IH t1 hist (S d) Hr1 ltac:(lia)) as (t' & -> & Hr' & Hs' & Ho').
      exists t'. split; [done|]. rewrite (drop_S hist e d He) in *. cbn [evict_count]. replace (total (e :: drop (S d) hist) <=? cap) with false by lia. rewrite Nat.add_succ_r. split; [exact Hr'|]. split; congruence.
    + apply lookup_ge_None in He. rewrite drop_ge in E by done. cbn in E. lia.
  - exists t. split; [done|]. replace (evict_count cap (drop d hist)) with 0%nat; [by rewrite Nat.add_0_r|]. pose proof (evict_minimal cap (drop d hist) 0 E). lia.
Qed.
Lemma evict_down t hist d cap : table_rep t hist d -> 0 <= cap ->
  exists t', EvictDownToCapacity t cap = Ok t' /\ table_rep t' hist (d + evict_count cap (drop d hist)) /\ settings (tb t') = settings (tb t) /\ other t' = other t.
Proof.
  intros Hr Hc. pose proof (rep_base _ _ _ Hr) as Hb. apply evict_spec; [done|done|]. rewrite (rr_count _ _ (br_ring _ _ _ Hb)). unfold zlen. rewrite length_drop. lia.
Qed.
Lemma set_capacity t hist d cap : table_rep t hist d -> 0 <= cap <= tb_maximum (tb t) ->
  exists t', tb_SetDynamicTableCapacity t cap = Ok (t', true) /\ table_rep t' hist (d + evict_count cap (drop d hist))
    /\ settings (tb t') = (cap, tb_maximum (tb t), tb_maxEntries (tb t), tb_referenced (tb t)) /\ other t' = other t.
Proof.
  intros Hr Hc. unfold tb_SetDynamicTableCapacity. replace (cap >? tb_maximum (tb t)) with false by lia. pose proof (rep_base _ _ _ Hr) as Hb.
  destruct (evict_down (set_tb { (tb t) with tb_capacity := cap } t) hist d cap) as (t' & -> & Hr' & Hs & Ho); [|lia|].
  - apply rep_set; [done|]. destruct Hb. by split.
  - cbn [res_bind]. exists t'. split; [done|]. split; [done|]. rewrite Hs, Ho, !(proj1 (rep_tb _ _)), (proj2 (rep_tb _ _)). done.
Qed.
Lemma set_capacity_refused t cap : tb_maximum (tb t) < cap -> tb_SetDynamicTableCapacity t cap = Ok (t, false).
Proof. intros Hc. unfold tb_SetDynamicTableCapacity. by replace (cap >? tb_maximum (tb t)) with true by lia. Qed.
Lemma insert_base t hist d e : table_rep t hist d -> hf_ok e -> zlen hist + 1 < 2 ^ 62 -> entry_bytes e <= tb_capacity (tb t) ->
  let d' := (d + evict_count (tb_capacity (tb t) - entry_bytes e) (drop d hist))%nat in
  exists t1 b, tb_InsertEntry t (Name e) (Value e) = Ok (set_tb b t1, zlen hist) /\ table_rep t1 hist d' /\ base_rep b (hist ++ [e]) d'
    /\ settings b = settings (tb t) /\ other t1 = other t /\ total (drop d' (hist ++ [e])) <= tb_capacity (tb t) /\ (d' <= length hist)%nat.
Proof.
  intros Hr He Hz Hfit d'. pose proof (rep_base _ _ _ Hr) as Hb. destruct (entry_bytes_ok e He) as [Hes Hb1]. unfold tb_InsertEntry. rewrite <- entry_size_of, Hes. replace (entry_bytes e >? tb_capacity (tb t)) with false by lia.
  fold (InsertedEntryCount (tb t)). rewrite (inserted_count _ _ _ Hb). pose proof (br_cap _ _ _ Hb). pose proof (br_max _ _ _ Hb). rewrite u64_small by (unfold is_u64; lia).
  destruct (evict_down t hist d (tb_capacity (tb t) - entry_bytes e) Hr (proj2 (Z.le_0_sub _ _) Hfit)) as (t1 & -> & Hr1 & Hs1 & Ho1). fold d' in Hr1. cbn [res_bind]. pose proof (rep_base _ _ _ Hr1) as Hb1'.
  assert (Hfits : total (drop d' hist) <= tb_capacity (tb t) - entry_bytes e) by (unfold d'; rewrite <- drop_drop; apply evict_fits; lia).
  destruct (base_push _ _ _ e Hb1' He Hz ltac:(lia)) as (es & Ep & Hb2). unfold NewEntry. replace (mkHF (Name e) (Value e)) with e by (by destruct e). rewrite Ep. cbn [res_bind]. rewrite Hes in Hb2.
  eexists t1, _. split; [reflexivity|]. split; [done|]. split; [exact Hb2|]. split; [exact Hs1|]. split; [done|]. pose proof (br_le _ _ _ Hb1'). split; [|done]. rewrite drop_app_le by done. rewrite sizes_app. cbn [total]. lia.
Qed.
End rep.

(** ** The indices of the encoder *)

(** [i] is the newest live entry with the key [k]. *)
Definition newest {K} (key : Entry -> K) (hist : list Entry) (d : nat) (k : K) (i : nat) : Prop :=
  (d <= i)%nat /\ (exists e, hist !! i = Some e /\ key e = k) /\ forall j e, (i < j)%nat -> hist !! j = Some e -> key e <> k.
Definition index_ok {K} `{Countable K} (key : Entry -> K) (m : gmap K Z) (hist : list Entry) (d : nat) : Prop :=
  forall k x, m !! k = Some x <-> exists i, x = Z.of_nat i /\ newest key hist d k i.
Lemma newest_unique {K} (key : Entry -> K) hist d d' k i j : newest key hist d k i -> newest key hist d' k j -> i = j.
Proof.
  intros (_ & (e & He & Hk) & Hi) (_ & (e' & He' & Hk') & Hj). destruct (Nat.lt_trichotomy i j) as [L|[L|L]]; [|done|]; exfalso; [by eapply (Hi j)|by eapply (Hj i)].
Qed.
Lemma index_tail {K} `{Countable K} (key : Entry -> K) m hist d e : index_ok key m hist d -> hist !! d = Some e -> index_ok key (drop_index m (key e) (Z.of_nat d)) hist (S d).
Proof.
  intros Hm He k x. assert (Hpast : newest key hist (S d) k (Z.to_nat x) -> newest key hist d k (Z.to_nat x)) by (intros (? & ?); split; [lia|done]).
  assert (Hkeep : m !! k = Some x -> x <> Z.of_nat d -> exists i, x = Z.of_nat i /\ newest key hist (S d) k i).
  { intros Hx Hne. apply Hm in Hx as (i & -> & Hd & Hi). exists i. split; [done|]. split; [lia|done]. }
  assert (Hback : (exists i, x = Z.of_nat i /\ newest key hist (S d) k i) -> m !! k = Some x /\ x <> Z.of_nat d).
  { intros (i & -> & Hd & Hi). split; [|lia]. apply Hm. exists i. split; [done|]. split; [lia|done]. }
  assert (Hdk : m !! k = Some (Z.of_nat d) -> k = key e).
  { intros Hx. apply Hm in Hx as (i & Ei & _ & (e' & He' & Hk') & _). assert (i = d) as -> by lia. rewrite He in He'. by injection He' as <-. }
  unfold drop_index. destruct (m !! key e) as [y|] eqn:Ey; [destruct (y =? Z.of_nat d) eqn:E|]; bool_simpl.
  - subst y. destruct (decide (k = key e)) as [-> |Hne].
    + rewrite lookup_delete_eq. split; [done|]. intros Hi. apply Hback in Hi as [Hi Hn]. rewrite Ey in Hi. congruence.
    + rewrite lookup_delete_ne by done. split; [intros Hx; apply Hkeep; [done|]; intros ->; by apply Hne, Hdk|]. intros Hi. by apply Hback in Hi as [Hi _].
  - split; [intros Hx; apply Hkeep; [done|]; intros ->; pose proof (Hdk Hx) as ->; congruence|]. intros Hi. by apply Hback in Hi as [Hi _].
  - split; [intros Hx; apply Hkeep; [done|]; intros ->; pose proof (Hdk Hx) as ->; congruence|]. intros Hi. by apply Hback in Hi as [Hi _].
Qed.
Lemma index_insert {K} `{Countable K} (key : Entry -> K) m hist d e : index_ok key m hist d -> (d <= length hist)%nat -> index_ok key (<[key e := zlen hist]> m) (hist ++ [e]) d.
Proof.
  intros Hm Hd k x. assert (Hnew : newest key (hist ++ [e]) d (key e) (length hist)).
  { split; [done|]. split; [exists e; split; [|done]; rewrite lookup_app_r, Nat.sub_diag by lia; done|]. intros j e' Hj He'. apply lookup_lt_Some in He'. rewrite length_app in He'. cbn in He'. lia. }
  destruct (decide (k = key e)) as [-> |Hne].
  - rewrite lookup_insert_eq. split.
    + intros [= <-]. by exists (length hist).
    + intros (i & -> & Hi). f_equal. unfold zlen. f_equal. exact (newest_unique _ _ _ _ _ _ _ Hnew Hi).
  - rewrite lookup_insert_ne by done. rewrite (Hm k x). split; intros (i & -> & Hdi & (e' & He' & Hk) & Hlast); exists i; (split; [done|]); (split; [done|]).
    + pose proof (lookup_lt_Some _ _ _ He'). split; [exists e'; split; [by rewrite lookup_app_l by done|done]|]. intros j e2 Hj He2. apply lookup_app_Some in He2 as [He2|[_ He2]]; [by eapply Hlast|]. destruct (j - length hist)%nat; [|done]. injection He2 as <-. congruence.
    + apply lookup_app_Some in He' as [He'|[_ He']]; [|destruct (i - length hist)%nat; [injection He' as <-; congruence|done]]. split; [by exists e'|]. intros j e2 Hj He2. apply (Hlast j e2 Hj). rewrite lookup_app_l; [done|]. by apply lookup_lt_Some in He2.
Qed.

(** ** Both tables *)
Record et_rep (t : EncoderHeaderTable) (hist : list Entry) (d : nat) : Prop := {
  er_base : base_rep (et_base t) hist d;
  er_fields : index_ok (fun e => e) (et_dynamicIndex t) hist d;
  er_names : index_ok Name (et_dynamicNameIndex t) hist d
}.
Lemma et_hook t hist d e : et_rep t hist d -> hist !! d = Some e ->
  exists t', removeEntryFromEndOverride t = Ok t' /\ et_rep t' hist (S d) /\ settings (et_base t') = settings (et_base t) /\ et_smallestAllowedIndex t' = et_smallestAllowedIndex t.
Proof.
  intros [Hb Hf Hn] He. destruct (base_remove _ _ _ _ Hb He) as (Ef & b' & Er & Hb' & Hs). unfold removeEntryFromEndOverride. rewrite Ef. cbn [res_bind]. match goal with |- context [baseRemoveEntryFromEnd ?x] => change x with (et_base t) end. rewrite Er. cbn [res_bind].
  eexists. split; [reflexivity|]. split; [|split; [exact Hs|reflexivity]]. split; [exact Hb'| |].
  - change (index_ok (fun e => e) (drop_index (et_dynamicIndex t) (mkHF (Name e) (Value e)) (tb_dropped (et_base t))) hist (S d)). rewrite (br_dropped _ _ _ Hb). replace (mkHF (Name e) (Value e)) with e by (by destruct e). by apply (index_tail (fun e => e)).
  - change (index_ok Name (drop_index (et_dynamicNameIndex t) (Name e) (tb_dropped (et_base t))) hist (S d)). rewrite (br_dropped _ _ _ Hb). by apply index_tail.
Qed.
#[export, refine] Instance EncoderHeaderTable_rep : HeaderTableRep EncoderHeaderTable := {| table_rep := et_rep; other := et_smallestAllowedIndex |}.
Proof.
  - by intros t hist d [].
  - by intros b t.
  - intros b t hist d [_ Hf Hn] Hb. by split.
  - exact et_hook.
Defined.
#[export, refine] Instance DecoderHeaderTable_rep : HeaderTableRep DecoderHeaderTable := {| table_rep := fun t hist d => base_rep (dt_base t) hist d; other := dt_observers |}.
Proof.
  - done.
  - by intros b t.
  - done.
  - intros t hist d e Hb He. destruct (base_remove _ _ _ _ Hb He) as (_ & b' & Er & Hb' & Hs). cbn [removeEntryFromEndHook DecoderHeaderTable_table]. rewrite Er. cbn [res_bind]. by eexists.
Defined.

(** An insertion, on both sides. *)
Definition after_insert (cap : Z) (hist : list Entry) (d : nat) (e : Entry) : nat := (d + evict_count (cap - entry_bytes e) (drop d hist))%nat.
Lemma et_insert t hist d e : et_rep t hist d -> hf_ok e -> zlen hist + 1 < 2 ^ 62 -> entry_bytes e <= tb_capacity (et_base t) ->
  let d' := after_insert (tb_capacity (et_base t)) hist d e in
  exists t', et_InsertEntry t (Name e) (Value e) = Ok (t', zlen hist) /\ et_rep t' (hist ++ [e]) d' /\ settings (et_base t') = settings (et_base t)
    /\ et_smallestAllowedIndex t' = et_smallestAllowedIndex t /\ total (drop d' (hist ++ [e])) <= tb_capacity (et_base t).
Proof.
  intros Hr He Hz Hfit d'. destruct (@insert_base _ _ EncoderHeaderTable_rep t hist d e Hr He Hz Hfit) as (t1 & b & E & [_ Hf Hn] & Hb & Hs & Ho & Ht & Hd). unfold et_InsertEntry. rewrite E. cbn [res_bind]. eexists. split; [reflexivity|].
  split; [|split; [exact Hs|split; [exact Ho|exact Ht]]]. split; [exact Hb| |].
  - replace (mkHF (Name e) (Value e)) with e by (by destruct e). exact (index_insert (fun e => e) _ _ _ e Hf Hd).
  - exact (index_insert Name _ _ _ e Hn Hd).
Qed.
Lemma dt_insert (t : DecoderHeaderTable) hist d e : base_rep (dt_base t) hist d -> hf_ok e -> zlen hist + 1 < 2 ^ 62 -> entry_bytes e <= tb_capacity (dt_base t) ->
  let d' := after_insert (tb_capacity (dt_base t)) hist d e in
  exists t', tb_InsertEntry t (Name e) (Value e) = Ok (t', zlen hist) /\ base_rep (dt_base t') (hist ++ [e]) d' /\ settings (dt_base t') = settings (dt_base t)
    /\ dt_observers t' = dt_observers t /\ total (drop d' (hist ++ [e])) <= tb_capacity (dt_base t).
Proof.
  intros Hr He Hz Hfit d'. destruct (@insert_base _ _ DecoderHeaderTable_rep t hist d e Hr He Hz Hfit) as (t1 & b & E & _ & Hb & Hs & Ho & Ht & Hd). exists { t1 with dt_base := b }. split; [exact E|]. split; [exact Hb|]. split; [exact Hs|]. split; [exact Ho|exact Ht].
Qed.
Lemma lookup_dynamic t hist d x : base_rep (dt_base t) hist d -> is_u64 x -> LookupEntry t false x = Ok (if Z.of_nat d <=? x then hist !! Z.to_nat x else None).
Proof.
  intros Hb Hx. pose proof (br_le _ _ _ Hb). pose proof (br_count _ _ _ Hb) as Hc. unfold is_u64 in Hx. unfold LookupEntry. rewrite (br_dropped _ _ _ Hb). destruct (x <? Z.of_nat d) eqn:E; bool_simpl; [by replace (Z.of_nat d <=? x) with false by lia|].
  replace (Z.of_nat d <=? x) with true by lia. rewrite u64_small by (unfold is_u64; lia). unfold rb_size. rewrite (rr_count _ _ (br_ring _ _ _ Hb)). unfold zlen in *. rewrite length_drop.
  destruct (_ >=? _) eqn:E2; bool_simpl; [by rewrite lookup_ge_None_2 by lia|]. rewrite (ring_at _ _ _ (br_ring _ _ _ Hb)). unfold i64. rewrite u64_small by (unfold is_u64; lia). replace (_ <? 2 ^ 63) with true by lia.
  replace (0 <=? x - Z.of_nat d) with true by lia. rewrite lookup_drop. do 2 f_equal. lia.
Qed.
Lemma lookup_static t x e : LookupEntry t true x = Ok (Some e) -> staticTable !! Z.to_nat x = Some e /\ x < 99.
Proof. unfold LookupEntry. destruct (x >=? 99) eqn:E; bool_simpl; [discriminate|]. generalize (staticTable !! Z.to_nat x). intros o [= ->]. split; [reflexivity|lia]. Qed.

(** ** Lookups and room *)
Definition match_ok (t : EncoderHeaderTable) (hist : list Entry) (d : nat) (name value : bytes) (r : MatchResult) : Prop :=
  match M_Match r, M_IsStatic r with
  | MatchTypeNameAndValue, true => staticTable !! Z.to_nat (M_Index r) = Some (mkHF name value) /\ 0 <= M_Index r < 99
  | MatchTypeNameAndValue, false => exists i, M_Index r = Z.of_nat i /\ newest (fun e => e) hist d (mkHF name value) i
  | MatchTypeName, true => exists e, staticTable !! Z.to_nat (M_Index r) = Some e /\ Name e = name /\ 0 <= M_Index r < 99
  | MatchTypeName, false => exists i, M_Index r = Z.of_nat i /\ newest Name hist d name i
  | MatchTypeNoMatch, _ => forall i e, (d <= i)%nat -> hist !! i = Some e -> Name e <> name
  end.
(** The newest entry with a key among those that have it. *)
Lemma newest_exists {K} `{EqDecision K} (key : Entry -> K) hist d i e : (d <= i)%nat -> hist !! i = Some e -> exists j, newest key hist d (key e) j.
Proof.
  intros Hi He. assert (Hn : exists n, (length hist - i <= n)%nat) by (by exists (length hist - i)%nat). destruct Hn as [n Hn]. revert i e Hi He Hn. induction n as [|n IH]; intros i e Hi He Hn.
  - apply lookup_lt_Some in He. lia.
  - destruct (decide (Exists (fun x => key x = key e) (drop (S i) hist))) as [Hx|Hx].
    + apply Exists_exists in Hx as (x & Hin & Hk). apply list_elem_of_In, list_elem_of_lookup in Hin as (m & Hm). rewrite lookup_drop in Hm. rewrite <- Hk. apply (IH (S i + m)%nat x); [lia|done|lia].
    + exists i. split; [done|]. split; [by exists e|]. intros j x Hj Hxj Hk. apply Hx. apply Exists_exists. exists x. split; [|done]. apply list_elem_of_In, list_elem_of_lookup. exists (j - S i)%nat. rewrite lookup_drop. by replace (S i + (j - S i))%nat with j by lia.
Qed.
Lemma find_name t hist d name value : et_rep t hist d -> match_ok t hist d name value (FindHeaderName t name) /\ M_Match (FindHeaderName t name) <> MatchTypeNameAndValue.
Proof.
  intros [_ _ Hn]. unfold FindHeaderName. destruct (findStatic name []) as [ox oy] eqn:E. destruct (find_static _ _ _ _ E) as [_ Hy]. cbn [snd]. destruct oy as [y|].
  - split; [exact (Hy y eq_refl)|discriminate].
  - destruct (et_dynamicNameIndex t !! name) as [x|] eqn:Ex; (split; [|discriminate]).
    + exact (proj1 (Hn name x) Ex).
    + intros i e Hi He <-. destruct (newest_exists Name hist d i e Hi He) as [j Hj]. pose proof (proj2 (Hn (Name e) (Z.of_nat j)) (ex_intro _ j (conj eq_refl Hj))) as Hj'. rewrite Ex in Hj'. discriminate Hj'.
Qed.
Lemma find_field t hist d name value : et_rep t hist d -> match_ok t hist d name value (FindHeaderField t name value).
Proof.
  intros Hr. unfold FindHeaderField. destruct (findStatic name value) as [ox oy] eqn:E. destruct (find_static _ _ _ _ E) as [Hx _]. cbn [fst]. destruct ox as [x|]; [exact (Hx x eq_refl)|].
  destruct (et_dynamicIndex t !! mkHF name value) as [i|] eqn:Ei; [exact (proj1 (er_fields _ _ _ Hr (mkHF name value) i) Ei)|]. exact (proj1 (find_name t hist d name value Hr)).
Qed.

(** The loops over the entries. *)
Section loops.
Context (rb : qpackRingBuffer) (l : list Entry) (Hr : ring_rep rb l) (Hok : Forall hf_ok l).
Lemma yield_drop i e k : drop i l = e :: k -> rb_yield rb (Z.of_nat i) = Ok (Some e) /\ drop (S i) l = k /\ hf_ok e.
Proof.
  intros Hd. apply drop_cons_at in Hd as (He & Hd & _). split; [by apply (ring_yield _ l)|]. split; [done|]. rewrite Forall_lookup in Hok. by apply (Hok i).
Qed.
Lemma max_insert_spec k : forall i x acc idx, drop i l = k -> 0 <= acc -> acc + total k < 2 ^ 64 -> 0 <= x -> x + zlen k < 2 ^ 63 -> x <= idx ->
  max_insert_loop rb (length k) (Z.of_nat i) x idx acc = Ok (acc + total (take (Z.to_nat (idx - x)) k)).
Proof.
  induction k as [|e k IH]; intros i x acc idx Hd Ha Ht Hx Hz Hidx; cbn [length max_insert_loop].
  - rewrite take_nil. cbn [total]. f_equal. lia.
  - destruct (yield_drop i e k Hd) as (-> & Hd' & He). cbn [res_bind deref]. destruct (entry_bytes_ok e He) as [Hes Hb]. rewrite zlen_cons in Hz. pose proof (zlen_nonneg k). cbn [total] in Ht. pose proof (sizes_nonneg k). destruct (x >=? idx) eqn:E; bool_simpl.
    + replace (Z.to_nat (idx - x)) with 0%nat by lia. cbn [take total]. f_equal. lia.
    + rewrite Hes, !u64_small by (unfold is_u64; lia). replace (Z.of_nat i + 1) with (Z.of_nat (S i)) by lia. rewrite IH by (done || lia). replace (Z.to_nat (idx - x)) with (S (Z.to_nat (idx - (x + 1)))) by lia. cbn [take total]. f_equal. lia.
Qed.
Lemma draining_spec k : forall i x space req oth, drop i l = k -> 0 <= x -> x + zlen k < 2 ^ 63 ->
  exists r, draining_loop rb (length k) (Z.of_nat i) x space req oth = Ok r /\ (r = oth \/ x <= r <= x + zlen k).
Proof.
  induction k as [|e k IH]; intros i x space req oth Hd Hx Hz; cbn [length draining_loop]; [eexists; split; [reflexivity|by left]|].
  destruct (yield_drop i e k Hd) as (-> & Hd' & _). cbn [res_bind deref]. rewrite zlen_cons in *. pose proof (zlen_nonneg k). rewrite (u64_small (x + 1)) by (unfold is_u64; lia).
  destruct (_ >=? req); [eexists; split; [reflexivity|right; lia]|]. replace (Z.of_nat i + 1) with (Z.of_nat (S i)) by lia. destruct (IH (S i) (x + 1) (u64 (space + Entry_Size e)) req oth Hd' ltac:(lia) ltac:(lia)) as (r & -> & Hr'). exists r. split; [done|]. destruct Hr'; [by left|right; lia].
Qed.
End loops.
Lemma live_ok b hist d : base_rep b hist d -> Forall hf_ok (drop d hist).
Proof. intros Hb. apply Forall_drop, (br_ok _ _ _ Hb). Qed.
Lemma ring_length b hist d : base_rep b hist d -> Z.to_nat (rb_count (tb_entries b)) = length (drop d hist).
Proof. intros Hb. rewrite (rr_count _ _ (br_ring _ _ _ Hb)). unfold zlen. lia. Qed.
(** What can be inserted without evicting the entry [idx]. *)
Lemma max_insert_eq t hist d idx : et_rep t hist d -> total (drop d hist) <= tb_capacity (et_base t) -> 0 <= idx ->
  MaxInsertSizeWithoutEvictingGivenEntry t idx = Ok (if idx <? Z.of_nat d then 0 else if idx >? zlen hist then tb_capacity (et_base t)
    else tb_capacity (et_base t) - total (drop (Z.to_nat idx) hist)).
Proof.
  intros [Hb _ _] Ht Hi. unfold MaxInsertSizeWithoutEvictingGivenEntry. rewrite (inserted_count _ _ _ Hb), (br_dropped _ _ _ Hb), (br_size _ _ _ Hb). destruct (idx <? Z.of_nat d) eqn:E1; [done|]. destruct (idx >? zlen hist) eqn:E2; [done|]. bool_simpl.
  pose proof (br_cap _ _ _ Hb) as Hc. pose proof (br_max _ _ _ Hb) as Hm. pose proof (sizes_nonneg (drop d hist)). pose proof (br_le _ _ _ Hb). pose proof (br_count _ _ _ Hb) as Hct. rewrite (ring_length _ _ _ Hb). rewrite u64_small by (unfold is_u64; lia).
  change 0 with (Z.of_nat 0) at 1. rewrite (max_insert_spec _ _ (br_ring _ _ _ Hb) (live_ok _ _ _ Hb)) by (try reflexivity; unfold zlen in *; rewrite ?length_drop; lia). f_equal.
  replace (Z.to_nat idx) with (d + Z.to_nat (idx - Z.of_nat d))%nat by lia. rewrite <- drop_drop. rewrite <- (take_drop (Z.to_nat (idx - Z.of_nat d)) (drop d hist)) at 1. rewrite sizes_app. lia.
Qed.
Lemma draining_bounds t hist d f : et_rep t hist d -> exists r, DrainingIndex t f = Ok r /\ Z.of_nat d <= r <= zlen hist.
Proof.
  intros [Hb _ _]. pose proof (br_le _ _ _ Hb). pose proof (br_count _ _ _ Hb) as Hct. unfold DrainingIndex. rewrite (br_dropped _ _ _ Hb). destruct (_ || _); [eexists; split; [reflexivity|unfold zlen; lia]|]. rewrite (ring_length _ _ _ Hb), (inserted_count _ _ _ Hb).
  change 0 with (Z.of_nat 0) at 1. match goal with |- context [draining_loop ?rb ?n ?i ?x ?s ?q ?o] => destruct (draining_spec _ _ (br_ring _ _ _ Hb) (live_ok _ _ _ Hb) (drop d hist) 0 x s q o eq_refl) as (y & -> & Hy) end; [lia|unfold zlen in *; rewrite length_drop; lia|].
  exists y. split; [done|]. unfold zlen in *. rewrite length_drop in Hy. lia.
Qed.
(** An insertion evicts the entry [idx] exactly when it does not fit in that room. *)
Lemma room_exact (cap : Z) hist d e (idx : nat) : (d <= idx <= length hist)%nat -> (cap - total (drop idx hist) >= entry_bytes e) <-> entry_bytes e <= cap /\ (after_insert cap hist d e <= idx)%nat.
Proof.
  intros Hi. unfold after_insert. pose proof (sizes_nonneg (drop idx hist)). split.
  - intros H0. split; [lia|]. pose proof (evict_minimal (cap - entry_bytes e) (drop d hist) (idx - d)) as Hm. rewrite drop_drop in Hm. replace (d + (idx - d))%nat with idx in Hm by lia. specialize (Hm ltac:(lia)). lia.
  - intros [H0 H1]. pose proof (evict_fits (cap - entry_bytes e) (drop d hist) ltac:(lia)) as Hf. rewrite drop_drop in Hf. set (k := (d + evict_count (cap - entry_bytes e) (drop d hist))%nat) in *.
    pose proof (total_drop_le (idx - k) (drop k hist)) as Hd. rewrite drop_drop in Hd. replace (k + (idx - k))%nat with idx in Hd by lia. lia.
Qed.

(** ** Operations on a table *)
Inductive table_op := OpInsert (e : Entry) | OpCapacity (c : Z) | OpMaximum (m : Z).
(** The specification: the history, what is dropped, and the two limits. *)
Record table_spec := mkSpec { s_hist : list Entry; s_dropped : nat; s_cap : Z; s_max : Z }.
Definition spec_op (s : table_spec) (o : table_op) : table_spec :=
  match o with
  | OpInsert e => mkSpec (s_hist s ++ [e]) (after_insert (s_cap s) (s_hist s) (s_dropped s) e) (s_cap s) (s_max s)
  | OpCapacity c => if c >? s_max s then s else mkSpec (s_hist s) (s_dropped s + evict_count c (drop (s_dropped s) (s_hist s))) c (s_max s)
  | OpMaximum m => if s_max s =? 0 then mkSpec (s_hist s) (s_dropped s) (s_cap s) m else s
  end.
Definition op_ok (s : table_spec) (o : table_op) : Prop :=
  match o with
  | OpInsert e => hf_ok e /\ entry_bytes e <= s_cap s /\ zlen (s_hist s) + 1 < 2 ^ 62
  | OpCapacity c => is_u64 c
  | OpMaximum m => is_u64 m
  end.
Fixpoint ops_ok (s : table_spec) (os : list table_op) : Prop := match os with [] => True | o :: os' => op_ok s o /\ ops_ok (spec_op s o) os' end.

Definition et_op (t : EncoderHeaderTable) (o : table_op) : run EncoderHeaderTable :=
  match o with
  | OpInsert e => let* r := et_InsertEntry t (Name e) (Value e) in Ok (fst r)
  | OpCapacity c => let* r := tb_SetDynamicTableCapacity t c in Ok (fst r)
  | OpMaximum m => Ok { t with et_base := fst (tb_SetMaximumDynamicTableCapacity (et_base t) m) }
  end.
Definition dt_op (t : DecoderHeaderTable) (o : table_op) : run DecoderHeaderTable :=
  match o with
  | OpInsert e => let* r := tb_InsertEntry t (Name e) (Value e) in Ok (fst r)
  | OpCapacity c => let* r := tb_SetDynamicTableCapacity t c in Ok (fst r)
  | OpMaximum m => Ok { t with dt_base := fst (tb_SetMaximumDynamicTableCapacity (dt_base t) m) }
  end.
Fixpoint ops_run {T} (step : T -> table_op -> run T) (t : T) (os : list table_op) : run T :=
  match os with [] => Ok t | o :: os' => let* t := step t o in ops_run step t os' end.

(** A base table that implements a specification. *)
Record implements (b : HeaderTableBase) (s : table_spec) : Prop := {
  im_cap : tb_capacity b = s_cap s; im_max : tb_maximum b = s_max s; im_fits : total (drop (s_dropped s) (s_hist s)) <= s_cap s
}.
Lemma settings_eq b c : settings b = settings c -> tb_capacity b = tb_capacity c /\ tb_maximum b = tb_maximum c.
Proof. unfold settings. intros [= -> -> _ _]. done. Qed.
Lemma set_maximum b hist d m : base_rep b hist d -> is_u64 m -> base_rep (fst (tb_SetMaximumDynamicTableCapacity b m)) hist d
  /\ tb_capacity (fst (tb_SetMaximumDynamicTableCapacity b m)) = tb_capacity b /\ tb_maximum (fst (tb_SetMaximumDynamicTableCapacity b m)) = (if tb_maximum b =? 0 then m else tb_maximum b).
Proof.
  intros Hb Hm. unfold tb_SetMaximumDynamicTableCapacity, is_u64 in *. destruct (tb_maximum b =? 0) eqn:E; bool_simpl; cbn [fst]; [|done]. pose proof (br_cap _ _ _ Hb) as Hc. split; [|done].
  destruct Hb as [H1 H2 H3 H4 H5 H6 H7 H8 H9 H10]. split; try done; [change (0 <= tb_capacity b <= m); lia|change (m < 2 ^ 64); lia].
Qed.
Lemma et_op_spec t s o : et_rep t (s_hist s) (s_dropped s) -> implements (et_base t) s -> op_ok s o ->
  exists t', et_op t o = Ok t' /\ et_rep t' (s_hist (spec_op s o)) (s_dropped (spec_op s o)) /\ implements (et_base t') (spec_op s o).
Proof.
  intros Hr [Hc Hm Hf] Ho. destruct o as [e|c|m]; cbn [et_op spec_op op_ok] in *.
  - destruct Ho as (He & Hfit & Hz). rewrite <- Hc in Hfit. destruct (et_insert t _ _ e Hr He Hz Hfit) as (t' & -> & Hr' & Hs & _ & Ht). cbn [res_bind fst s_hist s_dropped]. rewrite Hc in Hr', Ht. exists t'. split; [done|]. split; [done|]. apply settings_eq in Hs as [Hs1 Hs2]. split; [exact (eq_trans Hs1 Hc)|exact (eq_trans Hs2 Hm)|exact Ht].
  - destruct (c >? s_max s) eqn:E; bool_simpl.
    + exists t. split; [|done]. rewrite set_capacity_refused; [done|]. change (tb_maximum (et_base t) < c). rewrite Hm. lia.
    + unfold is_u64 in Ho. destruct (@set_capacity _ _ EncoderHeaderTable_rep t _ _ c Hr ltac:(change (0 <= c <= tb_maximum (et_base t)); rewrite Hm; lia)) as (t' & -> & Hr' & Hs & _). cbn [res_bind fst s_hist s_dropped]. exists t'. split; [done|]. split; [exact Hr'|]. injection Hs as Hs1 Hs2 _ _. split; [exact Hs1|exact (eq_trans Hs2 Hm)|cbn [s_hist s_dropped s_cap]; rewrite <- drop_drop; apply evict_fits; lia].
  - eexists. split; [reflexivity|]. destruct Hr as [Hb Hx Hn]. destruct (set_maximum _ _ _ m Hb Ho) as (Hb' & H1 & H2). rewrite Hm in H2. destruct (s_max s =? 0) eqn:E; cbn [s_hist s_dropped]; (split; [split; [exact Hb'|exact Hx|exact Hn]|]); (split; [exact (eq_trans H1 Hc)|exact H2|exact Hf]).
Qed.
Lemma dt_op_spec t s o : base_rep (dt_base t) (s_hist s) (s_dropped s) -> implements (dt_base t) s -> op_ok s o ->
  exists t', dt_op t o = Ok t' /\ base_rep (dt_base t') (s_hist (spec_op s o)) (s_dropped (spec_op s o)) /\ implements (dt_base t') (spec_op s o).
Proof.
  intros Hr [Hc Hm Hf] Ho. destruct o as [e|c|m]; cbn [dt_op spec_op op_ok] in *.
  - destruct Ho as (He & Hfit & Hz). rewrite <- Hc in Hfit. destruct (dt_insert t _ _ e Hr He Hz Hfit) as (t' & -> & Hr' & Hs & _ & Ht). cbn [res_bind fst s_hist s_dropped]. rewrite Hc in Hr', Ht. exists t'. split; [done|]. split; [done|]. apply settings_eq in Hs as [Hs1 Hs2]. split; [exact (eq_trans Hs1 Hc)|exact (eq_trans Hs2 Hm)|exact Ht].
  - destruct (c >? s_max s) eqn:E; bool_simpl.
    + exists t. split; [|done]. rewrite set_capacity_refused; [done|]. change (tb_maximum (dt_base t) < c). rewrite Hm. lia.
    + unfold is_u64 in Ho. destruct (@set_capacity _ _ DecoderHeaderTable_rep t _ _ c Hr ltac:(change (0 <= c <= tb_maximum (dt_base t)); rewrite Hm; lia)) as (t' & -> & Hr' & Hs & _). cbn [res_bind fst s_hist s_dropped]. exists t'. split; [done|]. split; [exact Hr'|]. injection Hs as Hs1 Hs2 _ _. split; [exact Hs1|exact (eq_trans Hs2 Hm)|cbn [s_hist s_dropped s_cap]; rewrite <- drop_drop; apply evict_fits; lia].
  - eexists. split; [reflexivity|]. destruct (set_maximum _ _ _ m Hr Ho) as (Hb' & H1 & H2). rewrite Hm in H2. destruct (s_max s =? 0) eqn:E; cbn [s_hist s_dropped]; (split; [exact Hb'|]); (split; [exact (eq_trans H1 Hc)|exact H2|exact Hf]).
Qed.
Definition spec_zero : table_spec := mkSpec [] 0 0 0.
Lemma index_empty {K} `{Countable K} (key : Entry -> K) : index_ok key ∅ [] 0.
Proof. intros k x. rewrite lookup_empty. split; [done|]. intros (i & _ & _ & (e & He & _) & _). by rewrite lookup_nil in He. Qed.
Lemma et_new : et_rep NewEncoderHeaderTable [] 0.
Proof. split; [apply init_rep|apply index_empty|apply index_empty]. Qed.
Lemma et_ops os : forall t s, et_rep t (s_hist s) (s_dropped s) -> implements (et_base t) s -> ops_ok s os ->
  exists t', ops_run et_op t os = Ok t' /\ et_rep t' (s_hist (fold_left spec_op os s)) (s_dropped (fold_left spec_op os s)) /\ implements (et_base t') (fold_left spec_op os s).
Proof.
  induction os as [|o os IH]; intros t s Hr Hi Ho; [by exists t|]. destruct Ho as [Ho Hos]. cbn [ops_run fold_left]. destruct (et_op_spec t s o Hr Hi Ho) as (t' & -> & Hr' & Hi'). exact (IH t' _ Hr' Hi' Hos).
Qed.
Lemma dt_ops os : forall t s, base_rep (dt_base t) (s_hist s) (s_dropped s) -> implements (dt_base t) s -> ops_ok s os ->
  exists t', ops_run dt_op t os = Ok t' /\ base_rep (dt_base t') (s_hist (fold_left spec_op os s)) (s_dropped (fold_left spec_op os s)) /\ implements (dt_base t') (fold_left spec_op os s).
Proof.
  induction os as [|o os IH]; intros t s Hr Hi Ho; [by exists t|]. destruct Ho as [Ho Hos]. cbn [ops_run fold_left]. destruct (dt_op_spec t s o Hr Hi Ho) as (t' & -> & Hr' & Hi'). exact (IH t' _ Hr' Hi' Hos).
Qed.

(** C31: the encoder's and the decoder's dynamic table implement the same abstract table.
    For any sequence of insertions that fit, capacity changes and maxima, both run it
    without a panic or an endless eviction; both then count all insertions, hold the
    entries the specification keeps (the newest that fit the capacity: eviction is
    first in, first out and stops as soon as the rest fits) with their exact size, and
    the index of a field or a name that the encoder finds in its dynamic table is one
    at which the decoder finds that field or that name. *)
Theorem qpack_tables_refine (os : list table_op) (Hos : ops_ok spec_zero os) :
  let s := fold_left spec_op os spec_zero in
  exists te td, ops_run et_op NewEncoderHeaderTable os = Ok te /\ ops_run dt_op NewDecoderHeaderTable os = Ok td
    /\ InsertedEntryCount (et_base te) = zlen (s_hist s) /\ InsertedEntryCount (dt_base td) = zlen (s_hist s)
    /\ tb_size (et_base te) = total (drop (s_dropped s) (s_hist s)) /\ tb_size (dt_base td) = tb_size (et_base te) /\ tb_size (et_base te) <= tb_capacity (et_base te) <= tb_maximum (et_base te)
    /\ (forall x, is_u64 x -> LookupEntry td false x = Ok (if Z.of_nat (s_dropped s) <=? x then s_hist s !! Z.to_nat x else None))
    /\ (forall name value, let m := FindHeaderField te name value in M_IsStatic m = false ->
         match M_Match m with
         | MatchTypeNameAndValue => LookupEntry td false (M_Index m) = Ok (Some (mkHF name value))
         | MatchTypeName => exists e, LookupEntry td false (M_Index m) = Ok (Some e) /\ Name e = name
         | MatchTypeNoMatch => forall x e, is_u64 x -> LookupEntry td false x = Ok (Some e) -> Name e <> name
         end).
Proof.
  intros s. assert (H0 : forall b, b = initBase -> implements b spec_zero) by (intros b ->; split; done).
  destruct (et_ops os _ spec_zero et_new (H0 _ eq_refl) Hos) as (te & Ee & Hre & Hie). destruct (dt_ops os NewDecoderHeaderTable spec_zero init_rep (H0 _ eq_refl) Hos) as (td & Ed & Hrd & Hid). fold s in Hre, Hie, Hrd, Hid. exists te, td. split; [exact Ee|]. split; [exact Ed|].
  pose proof (er_base _ _ _ Hre) as Hbe. split; [exact (inserted_count _ _ _ Hbe)|]. split; [exact (inserted_count _ _ _ Hrd)|]. split; [exact (br_size _ _ _ Hbe)|]. split; [exact (eq_trans (br_size _ _ _ Hrd) (eq_sym (br_size _ _ _ Hbe)))|].
  split. { pose proof (br_cap _ _ _ Hbe) as Hc. split; [|apply Hc]. rewrite (br_size _ _ _ Hbe). etransitivity; [apply (im_fits _ _ Hie)|]. rewrite (im_cap _ _ Hie). lia. }
  split; [intros x Hx; exact (lookup_dynamic td _ _ x Hrd Hx)|]. intros name value m Hm. pose proof (find_field te _ _ name value Hre) as Hf. fold m in Hf. unfold match_ok in Hf. rewrite Hm in Hf.
  assert (Hlk : forall i e, (s_dropped s <= i)%nat -> s_hist s !! i = Some e -> LookupEntry td false (Z.of_nat i) = Ok (Some e)).
  { intros i e Hi He. pose proof (br_count _ _ _ Hrd). pose proof (lookup_lt_Some _ _ _ He). rewrite (lookup_dynamic td _ _ _ Hrd) by (unfold is_u64, zlen in *; lia). replace (Z.of_nat (s_dropped s) <=? Z.of_nat i) with true by lia. by rewrite Nat2Z.id, He. }
  destruct (M_Match m).
  - intros x e Hx. rewrite (lookup_dynamic td _ _ _ Hrd Hx). destruct (Z.of_nat (s_dropped s) <=? x) eqn:E; [|done]. intros [= He]. bool_simpl. apply (Hf (Z.to_nat x) e); [lia|done].
  - destruct Hf as (i & -> & Hi & (e & He & Hn) & _). exists e. split; [by apply Hlk|done].
  - destruct Hf as (i & -> & Hi & (e & He & Hn) & _). rewrite <- Hn. by apply Hlk.
Qed.
Definition sample_ops : list table_op :=
  [OpMaximum 200; OpCapacity 120; OpInsert (mkHF [120] [1]); OpInsert (mkHF [120] [2]); OpInsert (mkHF [121] [3]); OpInsert (mkHF [120] [4]); OpCapacity 100; OpCapacity 400].
Lemma table_ops_ok : ops_ok spec_zero sample_ops.
Proof.
  assert (Hf : forall h, bool_decide (bytes_ok (Name h)) && bool_decide (bytes_ok (Value h)) && (zlen (Name h) + zlen (Value h) <? 2 ^ 62) = true -> hf_ok h).
  { intros h Hh. bool_simpl. repeat match goal with H : bool_decide _ = true |- _ => apply bool_decide_eq_true_1 in H end. unfold hf_ok. auto. }
  cbn [sample_ops ops_ok]. repeat split; try (apply Hf; vm_compute; reflexivity); try exact I; vm_compute; congruence.
Qed.
Lemma qpack_tables_refine_witness :
  let s := fold_left spec_op sample_ops spec_zero in
  ops_ok spec_zero sample_ops /\ s_dropped s = 2%nat
  /\ exists te td, ops_run et_op NewEncoderHeaderTable sample_ops = Ok te /\ ops_run dt_op NewDecoderHeaderTable sample_ops = Ok td
    /\ InsertedEntryCount (et_base te) = zlen (s_hist s) /\ InsertedEntryCount (dt_base td) = zlen (s_hist s)
    /\ tb_size (et_base te) = total (drop (s_dropped s) (s_hist s)) /\ tb_size (dt_base td) = tb_size (et_base te) /\ tb_size (et_base te) <= tb_capacity (et_base te) <= tb_maximum (et_base te)
    /\ (forall x, is_u64 x -> LookupEntry td false x = Ok (if Z.of_nat (s_dropped s) <=? x then s_hist s !! Z.to_nat x else None))
    /\ (forall name value, let m := FindHeaderField te name value in M_IsStatic m = false ->
         match M_Match m with
         | MatchTypeNameAndValue => LookupEntry td false (M_Index m) = Ok (Some (mkHF name value))
         | MatchTypeName => exists e, LookupEntry td false (M_Index m) = Ok (Some e) /\ Name e = name
         | MatchTypeNoMatch => forall x e, is_u64 x -> LookupEntry td false x = Ok (Some e) -> Name e <> name
         end).
Proof. intros s. split; [exact table_ops_ok|]. split; [vm_compute; reflexivity|]. exact (qpack_tables_refine sample_ops table_ops_ok). Defined.

(** The room an encoder computes is exact.  In every state its table reaches,
    [MaxInsertSizeWithoutEvictingGivenEntry] of an index that is live or the next to be
    given returns the largest size that [InsertEntry] takes without evicting that
    entry: a field of at most that size is inserted and the entry stays, and for a
    larger one [InsertEntry] panics or evicts it. *)
Theorem qpack_room_exact (os : list table_op) (Hos : ops_ok spec_zero os) (te : EncoderHeaderTable) (Hte : ops_run et_op NewEncoderHeaderTable os = Ok te)
  (idx : Z) (Hidx : tb_dropped (et_base te) <= idx <= InsertedEntryCount (et_base te)) (e : Entry) (He : hf_ok e) (Hz : InsertedEntryCount (et_base te) + 1 < 2 ^ 62) :
  exists room, MaxInsertSizeWithoutEvictingGivenEntry te idx = Ok room
    /\ (EntrySize (Name e) (Value e) <= room <-> exists t' i, et_InsertEntry te (Name e) (Value e) = Ok (t', i) /\ tb_dropped (et_base t') <= idx).
Proof.
  destruct (et_ops os _ spec_zero et_new ltac:(split; done) Hos) as (te' & Ee & Hre & [Hc Hm Hf]). rewrite Hte in Ee. injection Ee as <-. set (s := fold_left spec_op os spec_zero) in *. pose proof (er_base _ _ _ Hre) as Hb.
  rewrite (inserted_count _ _ _ Hb) in *. rewrite (br_dropped _ _ _ Hb) in Hidx. rewrite <- Hc in Hf. pose proof (br_le _ _ _ Hb). destruct (entry_bytes_ok e He) as [Hes Heb]. rewrite <- entry_size_of, Hes.
  eexists. split; [apply (max_insert_eq te _ _ _ Hre Hf); lia|]. replace (idx <? Z.of_nat (s_dropped s)) with false by lia. replace (idx >? zlen (s_hist s)) with false by lia.
  pose proof (room_exact (tb_capacity (et_base te)) (s_hist s) (s_dropped s) e (Z.to_nat idx) ltac:(unfold zlen in *; lia)) as Hx. rewrite <- Z.ge_le_iff, Hx. split.
  - intros [H1 H2]. destruct (et_insert te _ _ e Hre He Hz H1) as (t' & E' & Hr' & _). exists t', (zlen (s_hist s)). split; [exact E'|]. rewrite (br_dropped _ _ _ (er_base _ _ _ Hr')). lia.
  - intros (t' & i & E' & Hd). assert (H1 : entry_bytes e <= tb_capacity (et_base te)).
    { destruct (Z.le_gt_cases (entry_bytes e) (tb_capacity (et_base te))) as [L|L]; [exact L|]. exfalso. revert E'. unfold et_InsertEntry, tb_InsertEntry. rewrite <- entry_size_of, Hes. match goal with |- context [entry_bytes e >? ?y] => change y with (tb_capacity (et_base te)) end. replace (entry_bytes e >? _) with true by lia. discriminate. }
    split; [exact H1|]. destruct (et_insert te _ _ e Hre He Hz H1) as (t2 & E2 & Hr2 & _). rewrite E' in E2. injection E2 as <- _. rewrite (br_dropped _ _ _ (er_base _ _ _ Hr2)) in Hd. lia.
Qed.
Definition sample_table : EncoderHeaderTable := match ops_run et_op NewEncoderHeaderTable sample_ops with Ok t => t | _ => NewEncoderHeaderTable end.
Lemma qpack_room_exact_witness :
  ops_ok spec_zero sample_ops /\ ops_run et_op NewEncoderHeaderTable sample_ops = Ok sample_table /\ tb_dropped (et_base sample_table) <= 3 <= InsertedEntryCount (et_base sample_table)
  /\ exists room, MaxInsertSizeWithoutEvictingGivenEntry sample_table 3 = Ok room
    /\ (EntrySize [120] [9; 9] <= room <-> exists t' i, et_InsertEntry sample_table [120] [9; 9] = Ok (t', i) /\ tb_dropped (et_base t') <= 3).
Proof.
  assert (He : hf_ok (mkHF [120] [9; 9])) by (split; [apply (bool_decide_unpack _); vm_compute; exact I|split; [apply (bool_decide_unpack _); vm_compute; exact I|vm_compute; reflexivity]]).
  assert (Hr : ops_run et_op NewEncoderHeaderTable sample_ops = Ok sample_table) by (vm_compute; reflexivity).
  assert (Hi : tb_dropped (et_base sample_table) <= 3 <= InsertedEntryCount (et_base sample_table)) by (vm_compute; split; congruence).
  split; [exact table_ops_ok|]. split; [exact Hr|]. split; [exact Hi|]. exact (qpack_room_exact sample_ops table_ops_ok sample_table Hr 3 Hi (mkHF [120] [9; 9]) He ltac:(vm_compute; reflexivity)).
Defined.
