(* ===== verification/QpackBlocking.v ===== *)
(** * QPACK: outstanding header blocks and blocked streams

    Models [src/proto/codec/qpack/blocking_manager.go]: the indices a header block
    refers to ([IndexSet]), the data kept for an unacknowledged block ([HeaderData]) and
    the manager of blocks, blocked streams and the count the peer is known to have
    received ([BlockingManager]).  Go maps are [gmap]s; where the code ranges over a map
    and deletes from it, or takes a minimum, the order does not matter and the
    definition is a filter or a fold.

    The theorem: the manager implements a specification that keeps, per stream, the
    lists of indices of the outstanding blocks, and nothing else but the known count. *)

From stdpp Require Import gmap.
From S2P Require Import Prelude QpackBase QpackInstr.
Open Scope Z_scope.

(** ** Index sets *)
#[projections(primitive)]
Record IndexSet := mkIS { is_indices : list Z; is_minIndex : Z; is_maxIndex : Z; is_hasIndex : bool }.
Definition NewIndexSet : IndexSet := mkIS [] 0 0 false.
Definition is_Empty (s : IndexSet) : bool := negb (is_hasIndex s).
Definition is_MinIndex (s : IndexSet) : option Z := if is_hasIndex s then Some (is_minIndex s) else None.
Definition is_MaxIndex (s : IndexSet) : option Z := if is_hasIndex s then Some (is_maxIndex s) else None.
Definition is_RequiredInsertCount (s : IndexSet) : Z := if is_hasIndex s then u64 (is_maxIndex s + 1) else 0.
Definition is_Insert (s : IndexSet) (index : Z) : IndexSet :=
  let s := { s with is_indices := is_indices s ++ [index] } in
  if negb (is_hasIndex s) then { s with is_minIndex := index; is_maxIndex := index; is_hasIndex := true }
  else
    let s := if index <? is_minIndex s then { s with is_minIndex := index } else s in
    if index >? is_maxIndex s then { s with is_maxIndex := index } else s.

(** ** Header data *)
#[projections(primitive)]
Record HeaderData := mkHD { hd_indices : list Z; hd_requiredInsertCount : Z; hd_minIndex : Z; hd_hasMinIndex : bool }.
Definition min_max (p : Z * Z) (idx : Z) : Z * Z :=
  let '(minIdx, maxIdx) := p in (if idx <? minIdx then idx else minIdx, if idx >? maxIdx then idx else maxIdx).
Definition NewHeaderData (indices : list Z) : HeaderData :=
  match indices with
  | [] => mkHD [] 0 0 false
  | i0 :: rest => let '(minIdx, maxIdx) := fold_left min_max rest (i0, i0) in mkHD indices (u64 (maxIdx + 1)) minIdx true
  end.
Definition NewHeaderDataWithRIC (requiredInsertCount : Z) : HeaderData := mkHD [] requiredInsertCount 0 false.

(** ** The manager *)
#[projections(primitive)]
Record BlockingManager := mkBM {
  bm_streamMap : gmap Z (list HeaderData); bm_blockedStreams : gset Z; bm_minIndexRefCounts : gmap Z Z;
  bm_smallestBlockingIndex : Z; bm_knownReceivedCount : Z; bm_maxBlockedStreams : Z
}.
Definition NewBlockingManager (maxBlockedStreams : list Z) : BlockingManager :=
  mkBM ∅ ∅ ∅ MaxUint64 0 (match maxBlockedStreams with m :: _ => m | [] => 0 end).
Definition blocks_of (m : BlockingManager) (streamID : Z) : list HeaderData := default [] (bm_streamMap m !! streamID).

Definition isStreamBlocked (m : BlockingManager) (streamID : Z) : bool :=
  existsb (fun b => hd_requiredInsertCount b >? bm_knownReceivedCount m) (blocks_of m streamID).
Definition updateBlockedStreams (m : BlockingManager) : BlockingManager :=
  { m with bm_blockedStreams := filter (fun s => isStreamBlocked m s = true) (bm_blockedStreams m) }.
Definition addMinIndex (m : BlockingManager) (index : Z) : BlockingManager :=
  let m := { m with bm_minIndexRefCounts := <[index := u64 (default 0 (bm_minIndexRefCounts m !! index) + 1)]> (bm_minIndexRefCounts m) } in
  if index <? bm_smallestBlockingIndex m then { m with bm_smallestBlockingIndex := index } else m.
Definition recomputeSmallestBlockingIndex (m : BlockingManager) : BlockingManager :=
  { m with bm_smallestBlockingIndex := map_fold (fun idx _ minVal => if idx <? minVal then idx else minVal) MaxUint64 (bm_minIndexRefCounts m) }.
Definition removeMinIndex (m : BlockingManager) (index : Z) : BlockingManager :=
  match bm_minIndexRefCounts m !! index with
  | None => m
  | Some count =>
      if count <=? 1 then
        let m := { m with bm_minIndexRefCounts := delete index (bm_minIndexRefCounts m) } in
        if index =? bm_smallestBlockingIndex m then recomputeSmallestBlockingIndex m else m
      else { m with bm_minIndexRefCounts := <[index := u64 (count - 1)]> (bm_minIndexRefCounts m) }
  end.

Definition OnHeaderBlockSent (m : BlockingManager) (streamID : Z) (indices : list Z) : BlockingManager :=
  let headerData := NewHeaderData indices in
  let m := { m with bm_streamMap := <[streamID := blocks_of m streamID ++ [headerData]]> (bm_streamMap m) } in
  let m := if hd_hasMinIndex headerData then addMinIndex m (hd_minIndex headerData) else m in
  if hd_requiredInsertCount headerData >? bm_knownReceivedCount m then { m with bm_blockedStreams := {[ streamID ]} ∪ bm_blockedStreams m } else m.
Definition IsBlocked (m : BlockingManager) (streamID : Z) : bool := bool_decide (streamID ∈ bm_blockedStreams m).
Definition OnHeaderBlockReceived (m : BlockingManager) (streamID requiredInsertCount : Z) : BlockingManager * bool :=
  let headerData := NewHeaderDataWithRIC requiredInsertCount in
  let m := { m with bm_streamMap := <[streamID := blocks_of m streamID ++ [headerData]]> (bm_streamMap m) } in
  let m := if requiredInsertCount >? bm_knownReceivedCount m then { m with bm_blockedStreams := {[ streamID ]} ∪ bm_blockedStreams m } else m in
  (m, IsBlocked m streamID).
Definition OnInsertCountIncrement (m : BlockingManager) (increment : Z) : BlockingManager * bool :=
  if u64 (MaxUint64 - bm_knownReceivedCount m) <? increment then (m, false)
  else (updateBlockedStreams { m with bm_knownReceivedCount := u64 (bm_knownReceivedCount m + increment) }, true).
Definition OnHeaderAcknowledgement (m : BlockingManager) (streamID : Z) : BlockingManager * bool :=
  match blocks_of m streamID with
  | [] => (m, false)
  | popped :: blocks =>
      let m := { m with bm_streamMap := match blocks with [] => delete streamID (bm_streamMap m) | _ => <[streamID := blocks]> (bm_streamMap m) end } in
      let m := if hd_hasMinIndex popped then removeMinIndex m (hd_minIndex popped) else m in
      let m :=
        if hd_requiredInsertCount popped >? bm_knownReceivedCount m then
          updateBlockedStreams { m with bm_knownReceivedCount := hd_requiredInsertCount popped }
        else if negb (isStreamBlocked m streamID) then { m with bm_blockedStreams := bm_blockedStreams m ∖ {[ streamID ]} } else m in
      (m, true)
  end.
Definition OnStreamCancellation (m : BlockingManager) (streamID : Z) : BlockingManager :=
  let m :=
    match bm_streamMap m !! streamID with
    | None => m
    | Some blocks =>
        let m := fold_left (fun m b => if hd_hasMinIndex b then removeMinIndex m (hd_minIndex b) else m) blocks m in
        { m with bm_streamMap := delete streamID (bm_streamMap m) }
    end in
  { m with bm_blockedStreams := bm_blockedStreams m ∖ {[ streamID ]} }.
Definition NumBlockedStreams (m : BlockingManager) : Z := Z.of_nat (base.size (bm_blockedStreams m)).
Definition SetMaxBlockedStreams (m : BlockingManager) (maxBlockedStreams : Z) : BlockingManager := { m with bm_maxBlockedStreams := maxBlockedStreams }.
Definition BlockingAllowedOnStream (m : BlockingManager) (streamID : Z) (maxBlockedStreams : list Z) : bool :=
  let maxBlocked := match maxBlockedStreams with x :: _ => x | [] => bm_maxBlockedStreams m end in
  if IsBlocked m streamID then true else NumBlockedStreams m <? maxBlocked.

(** ** Index lists *)
Definition lmin (l : list Z) : Z := fold_right Z.min MaxUint64 l.
Definition lmax (l : list Z) : Z := fold_right Z.max (-1) l.
(** The Required Insert Count of a block. *)
Definition ric (l : list Z) : Z := lmax l + 1.
Definition refs_ok (l : list Z) : Prop := l <> [] /\ Forall (fun i => 0 <= i < 2 ^ 62) l.
Lemma min_max_spec l : forall a b, fold_left min_max l (a, b) = (fold_left Z.min l a, fold_left Z.max l b).
Proof.
  induction l as [|x l IH]; intros a b; [done|]. cbn [fold_left min_max]. rewrite IH. f_equal; f_equal.
  - destruct (x <? a) eqn:E; bool_simpl; lia.
  - destruct (x >? b) eqn:E; bool_simpl; lia.
Qed.
Lemma fold_min l : forall a, a <= MaxUint64 -> fold_left Z.min l a = Z.min a (lmin l).
Proof. induction l as [|x l IH]; intros a Ha; cbn [fold_left lmin fold_right]; [lia|]. rewrite IH by lia. unfold lmin. lia. Qed.
Lemma fold_max l : forall a, -1 <= a -> fold_left Z.max l a = Z.max a (lmax l).
Proof. induction l as [|x l IH]; intros a Ha; cbn [fold_left lmax fold_right]; [lia|]. rewrite IH by lia. unfold lmax. lia. Qed.
Lemma lmin_in l : refs_ok l -> lmin l ∈ l /\ 0 <= lmin l < 2 ^ 62 /\ forall i, i ∈ l -> lmin l <= i.
Proof.
  intros [Hne Hl]. destruct l as [|x l]; [done|]. clear Hne. revert x Hl. induction l as [|y l IH]; intros x Hl; apply Forall_cons_1 in Hl as [Hx Hl].
  - cbn. unfold MaxUint64. replace (Z.min x (2 ^ 64 - 1)) with x by lia. split; [left|]. split; [done|]. intros i Hi. apply list_elem_of_singleton in Hi. lia.
  - destruct (IH y Hl) as (H1 & H2 & H3). change (lmin (x :: y :: l)) with (Z.min x (lmin (y :: l))). split; [|split; [lia|]].
    + destruct (Z.min_spec x (lmin (y :: l))) as [[_ ->]|[_ ->]]; [left|right; done].
    + intros i Hi. apply elem_of_cons in Hi as [-> |Hi]; [lia|]. specialize (H3 i Hi). lia.
Qed.
Lemma lmax_in l : refs_ok l -> lmax l ∈ l /\ 0 <= lmax l < 2 ^ 62 /\ forall i, i ∈ l -> i <= lmax l.
Proof.
  intros [Hne Hl]. destruct l as [|x l]; [done|]. clear Hne. revert x Hl. induction l as [|y l IH]; intros x Hl; apply Forall_cons_1 in Hl as [Hx Hl].
  - cbn. replace (Z.max x (-1)) with x by lia. split; [left|]. split; [done|]. intros i Hi. apply list_elem_of_singleton in Hi. lia.
  - destruct (IH y Hl) as (H1 & H2 & H3). change (lmax (x :: y :: l)) with (Z.max x (lmax (y :: l))). split; [|split; [lia|]].
    + destruct (Z.max_spec x (lmax (y :: l))) as [[_ ->]|[_ ->]]; [right; done|left].
    + intros i Hi. apply elem_of_cons in Hi as [-> |Hi]; [lia|]. specialize (H3 i Hi). lia.
Qed.
Lemma header_data l : refs_ok l -> NewHeaderData l = mkHD l (ric l) (lmin l) true.
Proof.
  intros Hl. pose proof (lmax_in l Hl) as (_ & Hm & _). pose proof (lmin_in l Hl) as (_ & Hn & _). destruct l as [|x l]; [by destruct Hl|]. destruct Hl as [_ Hl]. apply Forall_cons_1 in Hl as [Hx _]. unfold NewHeaderData. rewrite min_max_spec.
  rewrite fold_min by (unfold MaxUint64; lia). rewrite fold_max by lia. change (Z.min x (lmin l)) with (lmin (x :: l)). change (Z.max x (lmax l)) with (lmax (x :: l)). by rewrite u64_small by (unfold is_u64; lia).
Qed.
Lemma lmin_snoc l i : 0 <= i < 2 ^ 62 -> lmin (l ++ [i]) = Z.min (lmin l) i.
Proof. intros Hi. unfold lmin. induction l as [|x l IH]; cbn [app fold_right]; [unfold MaxUint64; lia|]. rewrite IH. lia. Qed.
Lemma lmax_snoc l i : 0 <= i < 2 ^ 62 -> lmax (l ++ [i]) = Z.max (lmax l) i.
Proof. intros Hi. unfold lmax. induction l as [|x l IH]; cbn [app fold_right]; [lia|]. rewrite IH. lia. Qed.
(** An index set stands for the list of its indices. *)
Definition is_rep (s : IndexSet) (l : list Z) : Prop :=
  Forall (fun i => 0 <= i < 2 ^ 62) l /\ s = match l with [] => NewIndexSet | _ => mkIS l (lmin l) (lmax l) true end.
Lemma is_insert s l i : is_rep s l -> 0 <= i < 2 ^ 62 -> is_rep (is_Insert s i) (l ++ [i]).
Proof.
  intros [Hl ->] Hi. split; [apply Forall_app; split; [done|by apply Forall_cons_2; [|apply Forall_nil_2]]|]. destruct l as [|x l].
  - unfold is_Insert; cbn. unfold MaxUint64. replace (Z.min i (2 ^ 64 - 1)) with i by lia. by replace (Z.max i (-1)) with i by lia.
  - cbn [app]. change (x :: l ++ [i]) with ((x :: l) ++ [i]). rewrite lmin_snoc, lmax_snoc by done. unfold is_Insert. cbn [is_hasIndex negb]. cbn [is_minIndex is_maxIndex].
    set (mn := lmin (x :: l)). set (mx := lmax (x :: l)). match goal with |- context [i <? ?y] => change y with mn end. destruct (i <? mn) eqn:E1; bool_simpl.
    + match goal with |- context [i >? ?y] => change y with mx end. replace (Z.min mn i) with i by lia. destruct (i >? mx) eqn:E2; bool_simpl; [by replace (Z.max mx i) with i by lia|by replace (Z.max mx i) with mx by lia].
    + match goal with |- context [i >? ?y] => change y with mx end. replace (Z.min mn i) with mn by lia. destruct (i >? mx) eqn:E2; bool_simpl; [by replace (Z.max mx i) with i by lia|by replace (Z.max mx i) with mx by lia].
Qed.
Lemma is_count s l : is_rep s l -> is_RequiredInsertCount s = ric l /\ is_Empty s = bool_decide (l = []) /\ is_indices s = l.
Proof.
  intros [Hl ->]. destruct l as [|x l]; [done|]. assert (Hr : refs_ok (x :: l)) by done. pose proof (lmax_in _ Hr) as (_ & Hm & _). unfold is_RequiredInsertCount, ric. cbn [is_hasIndex is_maxIndex]. by rewrite u64_small by (unfold is_u64; lia).
Qed.

(** ** Counting the outstanding blocks *)
Definition mins (i : Z) (bs : list HeaderData) : Z := zlen (List.filter (fun b => hd_hasMinIndex b && (hd_minIndex b =? i)) bs).
Definition cnt (i : Z) (sm : gmap Z (list HeaderData)) : Z := map_fold (fun _ bs acc => mins i bs + acc) 0 sm.
Lemma mins_app i a b : mins i (a ++ b) = mins i a + mins i b.
Proof. unfold mins. by rewrite List.filter_app, zlen_app. Qed.
Lemma mins_nonneg i bs : 0 <= mins i bs.
Proof. apply zlen_nonneg. Qed.
Lemma cnt_insert i sm s bs : sm !! s = None -> cnt i (<[s := bs]> sm) = mins i bs + cnt i sm.
Proof. intros Hs. unfold cnt. rewrite map_fold_insert_L; [done|intros; lia|done]. Qed.
Lemma cnt_split i sm s : cnt i sm = mins i (default [] (sm !! s)) + cnt i (delete s sm).
Proof.
  destruct (sm !! s) as [bs|] eqn:E; cbn [default]; [|by rewrite delete_id by done]. rewrite <- (cnt_insert i (delete s sm) s bs) by apply lookup_delete_eq. by rewrite insert_delete_id.
Qed.
Lemma cnt_set i sm s bs : cnt i (<[s := bs]> sm) = cnt i sm - mins i (default [] (sm !! s)) + mins i bs.
Proof. rewrite (cnt_split i sm s), (cnt_split i (<[s := bs]> sm) s), lookup_insert_eq, delete_insert_eq. change (default [] (Some bs)) with bs. lia. Qed.
Lemma cnt_delete i sm s : cnt i (delete s sm) = cnt i sm - mins i (default [] (sm !! s)).
Proof. rewrite (cnt_split i sm s). lia. Qed.
Lemma cnt_nonneg i sm : 0 <= cnt i sm.
Proof. unfold cnt. apply (map_fold_weak_ind (fun r _ => 0 <= r)); [done|]. intros s bs m r _ H. pose proof (mins_nonneg i bs). lia. Qed.
Lemma cnt_pos i sm : 0 < cnt i sm <-> exists s bs, sm !! s = Some bs /\ 0 < mins i bs.
Proof.
  split.
  - unfold cnt. apply (map_fold_weak_ind (fun r m => 0 < r -> exists s bs, m !! s = Some bs /\ 0 < mins i bs)); [lia|]. intros s bs m r Hs IH H. destruct (Z.lt_ge_cases 0 (mins i bs)); [exists s, bs; split; [apply lookup_insert_eq|done]|].
    destruct IH as (s' & bs' & Hs' & Hb'); [lia|]. exists s', bs'. split; [|done]. rewrite lookup_insert_ne; [done|]. intros ->. congruence.
  - intros (s & bs & Hs & Hb). rewrite (cnt_split i sm s), Hs. change (default [] (Some bs)) with bs. pose proof (cnt_nonneg i (delete s sm)). lia.
Qed.

(** ** The reference counts

    [counts_ok m sm n]: the counts and the cached minimum of [m] are those of the
    blocks [sm], of which there were at most [n]. *)
Record counts_ok (m : BlockingManager) (sm : gmap Z (list HeaderData)) (n : Z) : Prop := {
  co_counts : forall i, match bm_minIndexRefCounts m !! i with Some c => c = cnt i sm /\ 0 < c | None => cnt i sm = 0 end;
  co_bound : forall i, cnt i sm <= n;
  co_range : forall i, 0 < cnt i sm -> 0 <= i < 2 ^ 62;
  co_least : forall i, 0 < cnt i sm -> bm_smallestBlockingIndex m <= i;
  co_in : bm_smallestBlockingIndex m = MaxUint64 \/ 0 < cnt (bm_smallestBlockingIndex m) sm
}.
Lemma counts_same m m' sm n : bm_minIndexRefCounts m' = bm_minIndexRefCounts m -> bm_smallestBlockingIndex m' = bm_smallestBlockingIndex m -> counts_ok m sm n -> counts_ok m' sm n.
Proof. intros H1 H2 [C1 C2 C3 C4 C5]. split; rewrite ?H1, ?H2; done. Qed.
Lemma add_counts m sm sm' n i : counts_ok m sm n -> n < 2 ^ 62 -> 0 <= i < 2 ^ 62 -> (forall j, cnt j sm' = cnt j sm + (if j =? i then 1 else 0)) -> counts_ok (addMinIndex m i) sm' (n + 1).
Proof.
  intros [C1 C2 C3 C4 C5] Hn Hi Hc. unfold addMinIndex. pose proof (cnt_nonneg i sm) as Hp. assert (Hd : u64 (default 0 (bm_minIndexRefCounts m !! i) + 1) = cnt i sm + 1).
  { specialize (C1 i). specialize (C2 i). destruct (bm_minIndexRefCounts m !! i) as [c|]; [change (default 0 (Some c)) with c; destruct C1 as [-> _]|change (default 0 (@None Z)) with 0; rewrite C1]; rewrite u64_small by (unfold is_u64; lia); lia. } rewrite Hd.
  assert (Hcounts : forall j, match <[i := cnt i sm + 1]> (bm_minIndexRefCounts m) !! j with Some c => c = cnt j sm' /\ 0 < c | None => cnt j sm' = 0 end).
  { intros j. rewrite Hc. destruct (decide (j = i)) as [-> |Hne]; [rewrite lookup_insert_eq; replace (i =? i) with true by lia; lia|]. rewrite lookup_insert_ne by done. replace (j =? i) with false by lia. specialize (C1 j). destruct (bm_minIndexRefCounts m !! j); lia. }
  assert (Hb : forall j, cnt j sm' <= n + 1) by (intros j; rewrite Hc; specialize (C2 j); destruct (j =? i); lia).
  assert (Hg : forall j, 0 < cnt j sm' -> 0 <= j < 2 ^ 62) by (intros j; rewrite Hc; destruct (j =? i) eqn:E; bool_simpl; [by subst|]; intros; apply C3; lia).
  match goal with |- context [i <? ?y] => change y with (bm_smallestBlockingIndex m) end. destruct (i <? bm_smallestBlockingIndex m) eqn:E; bool_simpl.
  - split; [exact Hcounts|exact Hb|exact Hg| |].
    + intros j Hj. change (i <= j). rewrite Hc in Hj. destruct (j =? i) eqn:E2; bool_simpl; [lia|]. specialize (C4 j ltac:(lia)). lia.
    + right. change (0 < cnt i sm'). rewrite Hc. replace (i =? i) with true by lia. lia.
  - split; [exact Hcounts|exact Hb|exact Hg| |].
    + intros j Hj. change (bm_smallestBlockingIndex m <= j). rewrite Hc in Hj. destruct (j =? i) eqn:E2; bool_simpl; [lia|]. apply C4. lia.
    + change (bm_smallestBlockingIndex m = MaxUint64 \/ 0 < cnt (bm_smallestBlockingIndex m) sm'). destruct C5 as [C5|C5]; [by left|right]. rewrite Hc. destruct (_ =? i); lia.
Qed.
Lemma fold_least (rc : gmap Z Z) : let r := map_fold (fun idx (_ : Z) minVal => if idx <? minVal then idx else minVal) MaxUint64 rc in
  (forall i, is_Some (rc !! i) -> r <= i) /\ (r = MaxUint64 \/ is_Some (rc !! r)).
Proof.
  cbn zeta. apply (map_fold_weak_ind (fun r m => (forall i, is_Some (m !! i) -> r <= i) /\ (r = MaxUint64 \/ is_Some (m !! r)))).
  - split; [|by left]. intros i [c Hc]. by rewrite lookup_empty in Hc.
  - intros i c m r Hi [H1 H2]. destruct (i <? r) eqn:E; bool_simpl; (split; [intros j [y Hy]; destruct (decide (j = i)) as [-> |Hne]; [lia|]; rewrite lookup_insert_ne in Hy by done; specialize (H1 j (mk_is_Some _ _ Hy)); lia|]).
    + right. rewrite lookup_insert_eq. done.
    + destruct H2 as [H2|H2]; [by left|right]. destruct (decide (r = i)) as [-> |Hne]; [by rewrite lookup_insert_eq|by rewrite lookup_insert_ne].
Qed.
Lemma remove_counts m sm sm' n i : counts_ok m sm n -> n < 2 ^ 62 -> 0 < cnt i sm -> (forall j, cnt j sm' = cnt j sm - (if j =? i then 1 else 0)) -> counts_ok (removeMinIndex m i) sm' n.
Proof.
  intros [C1 C2 C3 C4 C5] Hn Hi Hc. pose proof (C1 i) as Hci. unfold removeMinIndex. destruct (bm_minIndexRefCounts m !! i) as [c|] eqn:Ei; [|lia]. destruct Hci as [-> _].
  assert (Hb : forall j, cnt j sm' <= n) by (intros j; rewrite Hc; specialize (C2 j); destruct (j =? i); lia).
  assert (Hg : forall j, 0 < cnt j sm' -> 0 <= j < 2 ^ 62) by (intros j; rewrite Hc; intros; apply C3; destruct (j =? i); lia).
  assert (Hleast : forall j, 0 < cnt j sm' -> bm_smallestBlockingIndex m <= j) by (intros j; rewrite Hc; intros; apply C4; destruct (j =? i); lia).
  destruct (cnt i sm <=? 1) eqn:E; bool_simpl.
  - assert (Hcounts : forall j, match delete i (bm_minIndexRefCounts m) !! j with Some c => c = cnt j sm' /\ 0 < c | None => cnt j sm' = 0 end).
    { intros j. rewrite Hc. destruct (decide (j = i)) as [-> |Hne]; [rewrite lookup_delete_eq; replace (i =? i) with true by lia; lia|]. rewrite lookup_delete_ne by done. replace (j =? i) with false by lia. specialize (C1 j). destruct (bm_minIndexRefCounts m !! j); lia. }
    match goal with |- context [i =? ?y] => change y with (bm_smallestBlockingIndex m) end. destruct (i =? bm_smallestBlockingIndex m) eqn:E2; bool_simpl.
    + destruct (fold_least (delete i (bm_minIndexRefCounts m))) as [F1 F2]. assert (Hdom : forall j, is_Some (delete i (bm_minIndexRefCounts m) !! j) <-> 0 < cnt j sm').
      { intros j. specialize (Hcounts j). destruct (delete i _ !! j); split; [lia|done|by intros []|lia]. }
      split; [exact Hcounts|exact Hb|exact Hg| |].
      * intros j Hj. apply F1. by apply Hdom.
      * destruct F2 as [F2|F2]; [by left|right]. by apply Hdom.
    + split; [exact Hcounts|exact Hb|exact Hg|exact Hleast|]. change (bm_smallestBlockingIndex m = MaxUint64 \/ 0 < cnt (bm_smallestBlockingIndex m) sm'). destruct C5 as [C5|C5]; [by left|right]. rewrite Hc. replace (_ =? i) with false by lia. lia.
  - assert (Hu : u64 (cnt i sm - 1) = cnt i sm - 1) by (apply u64_small; specialize (C2 i); unfold is_u64; lia). rewrite Hu. split; [|exact Hb|exact Hg|exact Hleast|].
    + intros j. change (match <[i := cnt i sm - 1]> (bm_minIndexRefCounts m) !! j with Some c => c = cnt j sm' /\ 0 < c | None => cnt j sm' = 0 end). rewrite Hc. destruct (decide (j = i)) as [-> |Hne]; [rewrite lookup_insert_eq; replace (i =? i) with true by lia; lia|]. rewrite lookup_insert_ne by done. replace (j =? i) with false by lia. specialize (C1 j). destruct (bm_minIndexRefCounts m !! j); lia.
    + change (bm_smallestBlockingIndex m = MaxUint64 \/ 0 < cnt (bm_smallestBlockingIndex m) sm'). destruct C5 as [C5|C5]; [by left|right]. rewrite Hc. destruct (_ =? i) eqn:E3; bool_simpl; [rewrite E3|]; lia.
Qed.

(** ** The specification

    Per stream, the indices of the blocks that were sent and neither acknowledged nor
    cancelled, oldest first, and the count the peer is known to have received. *)
Record block_spec := mkBS { bs_out : Z -> list (list Z); bs_known : Z }.
Definition upd {A} (f : Z -> A) (s : Z) (x : A) : Z -> A := fun s' => if s' =? s then x else f s'.
Inductive block_event := Sent (streamID : Z) (indices : list Z) | Acked (streamID : Z) | Cancelled (streamID : Z) | Increment (n : Z).
Definition spec_event (sp : block_spec) (e : block_event) : block_spec * bool :=
  match e with
  | Sent s l => (mkBS (upd (bs_out sp) s (bs_out sp s ++ [l])) (bs_known sp), true)
  | Acked s =>
      match bs_out sp s with
      | [] => (sp, false)
      | l :: ls => (mkBS (upd (bs_out sp) s ls) (Z.max (bs_known sp) (ric l)), true)
      end
  | Cancelled s => (mkBS (upd (bs_out sp) s []) (bs_known sp), true)
  | Increment n => if bs_known sp + n <=? MaxUint64 then (mkBS (bs_out sp) (bs_known sp + n), true) else (sp, false)
  end.
Definition bm_event (m : BlockingManager) (e : block_event) : BlockingManager * bool :=
  match e with
  | Sent s l => (OnHeaderBlockSent m s l, true)
  | Acked s => OnHeaderAcknowledgement m s
  | Cancelled s => (OnStreamCancellation m s, true)
  | Increment n => OnInsertCountIncrement m n
  end.
Definition event_ok (e : block_event) : Prop := match e with Sent _ l => refs_ok l | Increment n => is_u64 n | _ => True end.
Definition waits (known : Z) (ls : list (list Z)) : Prop := Exists (fun l => known < ric l) ls.
(** [n] bounds the number of blocks sent. *)
Record bm_rep (m : BlockingManager) (sp : block_spec) (n : Z) : Prop := {
  bl_blocks : forall s, blocks_of m s = map NewHeaderData (bs_out sp s);
  bl_ok : forall s, Forall refs_ok (bs_out sp s);
  bl_known : bm_knownReceivedCount m = bs_known sp /\ 0 <= bs_known sp <= MaxUint64;
  bl_blocked : forall s, s ∈ bm_blockedStreams m <-> waits (bs_known sp) (bs_out sp s);
  bl_counts : counts_ok m (bm_streamMap m) n
}.

Definition same_blocks (m m' : BlockingManager) : Prop :=
  bm_streamMap m' = bm_streamMap m /\ bm_blockedStreams m' = bm_blockedStreams m /\ bm_knownReceivedCount m' = bm_knownReceivedCount m /\ bm_maxBlockedStreams m' = bm_maxBlockedStreams m.
Lemma add_same m i : same_blocks m (addMinIndex m i).
Proof. unfold addMinIndex. cbv zeta. destruct (_ <? _); done. Qed.
Lemma remove_same m i : same_blocks m (removeMinIndex m i).
Proof. unfold removeMinIndex. cbv zeta. destruct (bm_minIndexRefCounts m !! i) as [c|]; [|done]. destruct (c <=? 1); [|done]. destruct (_ =? _); done. Qed.
Lemma mins_cons i l bs : refs_ok l -> mins i (NewHeaderData l :: bs) = (if i =? lmin l then 1 else 0) + mins i bs.
Proof.
  intros Hl. rewrite header_data by done. unfold mins. cbn [List.filter hd_hasMinIndex hd_minIndex andb]. rewrite Z.eqb_sym. destruct (i =? lmin l); [rewrite zlen_cons; lia|lia].
Qed.
Lemma mins_pos i ls : Forall refs_ok ls -> 0 < mins i (map NewHeaderData ls) <-> exists l, l ∈ ls /\ lmin l = i.
Proof.
  induction 1 as [|l ls Hl Hls IH]; cbn [map].
  - split; [exact (fun H => False_ind _ (Z.lt_irrefl 0 H))|]. intros (l & Hl & _). by apply not_elem_of_nil in Hl.
  - rewrite mins_cons by done. pose proof (mins_nonneg i (map NewHeaderData ls)) as Hn. destruct (i =? lmin l) eqn:E; bool_simpl.
    + split; [|lia]. intros _. exists l. split; [left|done].
    + rewrite Z.add_0_l, IH. split; intros (l' & Hl' & Hm).
      * exists l'. split; [by right|done].
      * apply elem_of_cons in Hl' as [-> |Hl']; [congruence|by exists l'].
Qed.
Lemma stream_blocked m s ls : blocks_of m s = map NewHeaderData ls -> Forall refs_ok ls -> isStreamBlocked m s = true <-> waits (bm_knownReceivedCount m) ls.
Proof.
  intros Hb Hls. unfold isStreamBlocked. rewrite Hb. unfold waits. clear Hb. induction Hls as [|l ls Hl Hls IH]; cbn [map existsb].
  - split; [done|]. intros H. by apply Exists_nil in H.
  - rewrite orb_true_iff, IH, Exists_cons, header_data by done. cbn [hd_requiredInsertCount]. split; (intros [H|H]; [left|by right]); bool_simpl; lia.
Qed.
Lemma blocks_set m s s' x : default [] (<[s := x]> (bm_streamMap m) !! s') = if s' =? s then x else blocks_of m s'.
Proof. destruct (s' =? s) eqn:E; bool_simpl; [subst; by rewrite lookup_insert_eq|by rewrite lookup_insert_ne]. Qed.
Lemma blocks_unset m s s' : default [] (delete s (bm_streamMap m) !! s') = if s' =? s then [] else blocks_of m s'.
Proof. destruct (s' =? s) eqn:E; bool_simpl; [subst; by rewrite lookup_delete_eq|by rewrite lookup_delete_ne]. Qed.

Lemma sent_rep m sp n s l : bm_rep m sp n -> n < 2 ^ 62 -> refs_ok l -> bm_rep (OnHeaderBlockSent m s l) (fst (spec_event sp (Sent s l))) (n + 1).
Proof.
  intros [Hb Hok [Hk Hkr] Hbl Hc] Hn Hl. unfold OnHeaderBlockSent. rewrite header_data by done. cbn [hd_hasMinIndex hd_minIndex hd_requiredInsertCount spec_event fst].
  set (m1 := { m with bm_streamMap := <[s := blocks_of m s ++ [mkHD l (ric l) (lmin l) true]]> (bm_streamMap m) }). pose proof (lmin_in l Hl) as (_ & Hmin & _).
  assert (Hm1 : counts_ok (addMinIndex m1 (lmin l)) (bm_streamMap m1) (n + 1)).
  { apply (add_counts m1 (bm_streamMap m)); [exact (counts_same m m1 _ _ eq_refl eq_refl Hc)|done|done|]. intros j. change (bm_streamMap m1) with (<[s := blocks_of m s ++ [mkHD l (ric l) (lmin l) true]]> (bm_streamMap m)). rewrite cnt_set. fold (blocks_of m s). rewrite mins_app, <- (header_data l) by done. rewrite mins_cons by done. change (mins j []) with 0. lia. }
  destruct (add_same m1 (lmin l)) as (S1 & S2 & S3 & _). set (m2 := addMinIndex m1 (lmin l)) in *. change (bm_knownReceivedCount m1) with (bm_knownReceivedCount m) in S3. change (bm_blockedStreams m1) with (bm_blockedStreams m) in S2. rewrite S3, Hk.
  assert (Hblocks : forall s', blocks_of m2 s' = map NewHeaderData (upd (bs_out sp) s (bs_out sp s ++ [l]) s')).
  { intros s'. unfold blocks_of. rewrite S1. change (bm_streamMap m1) with (<[s := blocks_of m s ++ [mkHD l (ric l) (lmin l) true]]> (bm_streamMap m)). rewrite blocks_set. unfold upd. destruct (s' =? s) eqn:E; [|apply Hb]. rewrite Hb, map_app. cbn [map]. by rewrite header_data. }
  assert (Hok' : forall s', Forall refs_ok (upd (bs_out sp) s (bs_out sp s ++ [l]) s')) by (intros s'; unfold upd; destruct (s' =? s); [|apply Hok]; apply Forall_app; split; [apply Hok|by apply Forall_cons_2; [|apply Forall_nil_2]]).
  assert (Hw : forall s', waits (bs_known sp) (upd (bs_out sp) s (bs_out sp s ++ [l]) s') <-> s' ∈ bm_blockedStreams m \/ (s' = s /\ bs_known sp < ric l)).
  { intros s'. rewrite Hbl. unfold upd, waits. destruct (s' =? s) eqn:E; bool_simpl; [subst; rewrite Exists_app, Exists_cons, Exists_nil; tauto|]. split; [by left|]. intros [H|[? _]]; [done|congruence]. }
  destruct (ric l >? bs_known sp) eqn:E; bool_simpl.
  - split; [exact Hblocks|exact Hok'|exact (conj (eq_trans S3 Hk) Hkr)| |].
    + intros s'. cbn [bs_known bs_out]. rewrite Hw. change (s' ∈ {[s]} ∪ bm_blockedStreams m2 <-> s' ∈ bm_blockedStreams m \/ s' = s /\ bs_known sp < ric l). rewrite S2, elem_of_union, elem_of_singleton. tauto.
    + change (counts_ok { m2 with bm_blockedStreams := {[s]} ∪ bm_blockedStreams m2 } (bm_streamMap m2) (n + 1)). rewrite S1. by apply (counts_same m2).
  - split; [exact Hblocks|exact Hok'|exact (conj (eq_trans S3 Hk) Hkr)| |].
    + intros s'. cbn [bs_known bs_out]. rewrite Hw, S2. split; [by left|]. intros [H|[_ H]]; [done|lia].
    + by rewrite S1.
Qed.
Lemma update_blocked m s : s ∈ bm_blockedStreams (updateBlockedStreams m) <-> isStreamBlocked m s = true /\ s ∈ bm_blockedStreams m.
Proof. exact (elem_of_filter (fun s => isStreamBlocked m s = true) (bm_blockedStreams m) s). Qed.
Lemma waits_le k k' ls : k <= k' -> waits k' ls -> waits k ls.
Proof. intros Hk. apply Exists_impl. lia. Qed.
Lemma increment_rep m sp n i : bm_rep m sp n -> is_u64 i -> bm_rep (fst (OnInsertCountIncrement m i)) (fst (spec_event sp (Increment i))) n /\ snd (OnInsertCountIncrement m i) = snd (spec_event sp (Increment i)).
Proof.
  intros [Hb Hok [Hk Hkr] Hbl Hc] Hi. unfold OnInsertCountIncrement, spec_event. rewrite Hk. unfold is_u64, MaxUint64 in *. rewrite (u64_small (2 ^ 64 - 1 - bs_known sp)) by (unfold is_u64; lia). destruct (bs_known sp + i <=? 2 ^ 64 - 1) eqn:E; bool_simpl.
  - replace (_ <? i) with false by lia. cbn [fst snd]. split; [|done]. rewrite u64_small by (unfold is_u64; lia). set (m1 := { m with bm_knownReceivedCount := bs_known sp + i }). split; [exact Hb|exact Hok|cbn [bs_known]; unfold MaxUint64; split; [done|lia]| |exact (counts_same m (updateBlockedStreams m1) _ _ eq_refl eq_refl Hc)].
    intros s. rewrite update_blocked. change (bm_blockedStreams m1) with (bm_blockedStreams m). rewrite (stream_blocked m1 s (bs_out sp s) (Hb s) (Hok s)), Hbl. cbn [bs_known bs_out]. change (bm_knownReceivedCount m1) with (bs_known sp + i). split; [by intros [? _]|]. intros Hw. split; [done|]. revert Hw. apply waits_le. lia.
  - replace (_ <? i) with true by lia. by split.
Qed.

(** Removing one block from a stream. *)
Lemma pop_counts m sm n s l ls : counts_ok m sm n -> n < 2 ^ 62 -> default [] (sm !! s) = map NewHeaderData (l :: ls) -> refs_ok l -> forall sm',
  (forall s', default [] (sm' !! s') = if s' =? s then map NewHeaderData ls else default [] (sm !! s')) -> delete s sm' = delete s sm -> counts_ok (removeMinIndex m (lmin l)) sm' n.
Proof.
  intros Hc Hn Hs Hl sm' Hs' Hd. assert (Hsplit : forall j, cnt j sm' = cnt j sm - (if j =? lmin l then 1 else 0)).
  { intros j. rewrite (cnt_split j sm' s), (cnt_split j sm s), Hd, Hs', Hs, Z.eqb_refl. cbn [map]. rewrite mins_cons by done. lia. }
  apply (remove_counts m sm); [done|done| |done]. pose proof (cnt_nonneg (lmin l) sm') as Hp. rewrite Hsplit, Z.eqb_refl in Hp. lia.
Qed.
Lemma acked_rep m sp n s : bm_rep m sp n -> n < 2 ^ 62 -> bm_rep (fst (OnHeaderAcknowledgement m s)) (fst (spec_event sp (Acked s))) n /\ snd (OnHeaderAcknowledgement m s) = snd (spec_event sp (Acked s)).
Proof.
  intros [Hb Hok [Hk Hkr] Hbl Hc] Hn. unfold OnHeaderAcknowledgement, spec_event. pose proof (Hb s) as Hbs. pose proof (Hok s) as Hoks. destruct (bs_out sp s) as [|l ls] eqn:El; rewrite Hbs; cbn [map]; [by split|]. apply Forall_cons_1 in Hoks as [Hl Hls].
  rewrite (header_data l Hl). cbn [hd_hasMinIndex hd_minIndex hd_requiredInsertCount fst snd]. split; [|done].
  set (sm' := match map NewHeaderData ls with [] => delete s (bm_streamMap m) | _ => <[s := map NewHeaderData ls]> (bm_streamMap m) end).
  assert (Hsm : forall s', default [] (sm' !! s') = if s' =? s then map NewHeaderData ls else blocks_of m s') by (intros s'; unfold sm'; destruct (map NewHeaderData ls); [apply blocks_unset|apply blocks_set]).
  assert (Hdel : delete s sm' = delete s (bm_streamMap m)) by (unfold sm'; destruct (map NewHeaderData ls); [apply delete_id, lookup_delete_eq|by rewrite delete_insert_eq]).
  set (m1 := { m with bm_streamMap := sm' }). destruct (remove_same m1 (lmin l)) as (S1 & S2 & S3 & _). change (bm_streamMap m1) with sm' in S1. change (bm_blockedStreams m1) with (bm_blockedStreams m) in S2. change (bm_knownReceivedCount m1) with (bm_knownReceivedCount m) in S3.
  assert (Hc2 : counts_ok (removeMinIndex m1 (lmin l)) sm' n) by (apply (pop_counts m1 (bm_streamMap m) n s l ls); [exact (counts_same m m1 _ _ eq_refl eq_refl Hc)|done|exact Hbs|done|exact Hsm|exact Hdel]).
  set (m2 := removeMinIndex m1 (lmin l)) in *. match goal with |- context [ric l >? ?y] => change y with (bm_knownReceivedCount m2) end. rewrite S3, Hk.
  assert (Hblocks : forall s', blocks_of m2 s' = map NewHeaderData (upd (bs_out sp) s ls s')) by (intros s'; unfold blocks_of; rewrite S1, Hsm; unfold upd; destruct (s' =? s); [done|apply Hb]).
  assert (Hok' : forall s', Forall refs_ok (upd (bs_out sp) s ls s')) by (intros s'; unfold upd; destruct (s' =? s); [done|apply Hok]).
  assert (Hsub : forall s', waits (bs_known sp) (upd (bs_out sp) s ls s') -> s' ∈ bm_blockedStreams m) by (intros s'; rewrite Hbl; unfold upd; destruct (s' =? s) eqn:E; bool_simpl; [subst; rewrite El; intros; by apply Exists_cons_tl|done]).
  pose proof (lmax_in l Hl) as (_ & Hmx & _). unfold ric in *. destruct (lmax l + 1 >? bs_known sp) eqn:E; bool_simpl.
  - set (m3 := { m2 with bm_knownReceivedCount := lmax l + 1 }). replace (Z.max (bs_known sp) (lmax l + 1)) with (lmax l + 1) by lia. split; [exact Hblocks|exact Hok'|split; [done|unfold MaxUint64; cbn [bs_known]; lia]| |].
    + intros s'. rewrite update_blocked. change (bm_blockedStreams m3) with (bm_blockedStreams m2). rewrite S2, (stream_blocked m3 s' _ (Hblocks s') (Hok' s')). cbn [bs_known bs_out]. change (bm_knownReceivedCount m3) with (lmax l + 1). split; [by intros [? _]|]. intros Hw. split; [done|]. apply Hsub. revert Hw. apply waits_le. lia.
    + apply (counts_same m2); [done..|]. change (bm_streamMap (updateBlockedStreams m3)) with (bm_streamMap m2). by rewrite S1.
  - replace (Z.max (bs_known sp) (lmax l + 1)) with (bs_known sp) by lia. pose proof (stream_blocked m2 s _ (Hblocks s) (Hok' s)) as Hst. rewrite S3, Hk in Hst.
    assert (Hother : forall s', s' <> s -> s' ∈ bm_blockedStreams m2 <-> waits (bs_known sp) (upd (bs_out sp) s ls s')) by (intros s' Hne; rewrite S2, Hbl; unfold upd; by replace (s' =? s) with false by lia).
    destruct (isStreamBlocked m2 s) eqn:Eb; cbn [negb].
    + split; [exact Hblocks|exact Hok'|exact (conj (eq_trans S3 Hk) Hkr)| |by rewrite S1]. intros s'. cbn [bs_known bs_out]. destruct (decide (s' = s)) as [-> |Hne]; [|by apply Hother]. split; [intros _; by apply Hst|]. intros Hw. rewrite S2. by apply Hsub.
    + split; [exact Hblocks|exact Hok'|exact (conj (eq_trans S3 Hk) Hkr)| |apply (counts_same m2); [done..|]; change (bm_streamMap { m2 with bm_blockedStreams := bm_blockedStreams m2 ∖ {[s]} }) with (bm_streamMap m2); by rewrite S1].
      intros s'. cbn [bs_known bs_out]. change (s' ∈ bm_blockedStreams m2 ∖ {[s]} <-> waits (bs_known sp) (upd (bs_out sp) s ls s')). rewrite elem_of_difference, elem_of_singleton. destruct (decide (s' = s)) as [-> |Hne]; [|rewrite Hother by done; tauto]. split; [by intros [_ []]|]. intros Hw. apply Hst in Hw. congruence.
Qed.
Lemma cancel_counts ls : forall m sm n s, counts_ok m sm n -> n < 2 ^ 62 -> default [] (sm !! s) = map NewHeaderData ls -> Forall refs_ok ls ->
  let m' := fold_left (fun m b => if hd_hasMinIndex b then removeMinIndex m (hd_minIndex b) else m) (map NewHeaderData ls) m in counts_ok m' (delete s sm) n /\ same_blocks m m'.
Proof.
  induction ls as [|l ls IH]; intros m sm n s Hc Hn Hs Hls; cbn [map fold_left].
  - split; [|done]. assert (Hcnt : forall j, cnt j (delete s sm) = cnt j sm) by (intros j; rewrite cnt_delete, Hs; change (mins j (map NewHeaderData [])) with 0; lia). destruct Hc as [C1 C2 C3 C4 C5]. split; [|intros j; rewrite Hcnt; auto..|by rewrite Hcnt]. intros j. specialize (C1 j). destruct (bm_minIndexRefCounts m !! j); by rewrite Hcnt.
  - apply Forall_cons_1 in Hls as [Hl Hls]. rewrite (header_data l Hl). cbn [hd_hasMinIndex hd_minIndex].
    assert (Hc1 : counts_ok (removeMinIndex m (lmin l)) (<[s := map NewHeaderData ls]> sm) n).
    { apply (pop_counts m sm n s l ls); [done|done|done|done| |by rewrite delete_insert_eq]. intros s'. destruct (s' =? s) eqn:E; bool_simpl; [subst; by rewrite lookup_insert_eq|by rewrite lookup_insert_ne]. }
    destruct (IH _ _ n s Hc1 Hn) as [H1 H2]; [by rewrite lookup_insert_eq|done|]. rewrite delete_insert_eq in H1. split; [exact H1|]. destruct (remove_same m (lmin l)) as (T1 & T2 & T3 & T4). destruct H2 as (U1 & U2 & U3 & U4). repeat split; congruence.
Qed.
Lemma cancelled_rep m sp n s : bm_rep m sp n -> n < 2 ^ 62 -> bm_rep (OnStreamCancellation m s) (fst (spec_event sp (Cancelled s))) n.
Proof.
  intros [Hb Hok [Hk Hkr] Hbl Hc] Hn. unfold OnStreamCancellation. cbn [spec_event fst].
  assert (Hm1 : exists m1, match bm_streamMap m !! s with None => m | Some blocks => { (fold_left (fun m b => if hd_hasMinIndex b then removeMinIndex m (hd_minIndex b) else m) blocks m) with bm_streamMap := delete s (bm_streamMap (fold_left (fun m b => if hd_hasMinIndex b then removeMinIndex m (hd_minIndex b) else m) blocks m)) } end = m1
    /\ bm_streamMap m1 = delete s (bm_streamMap m) /\ bm_blockedStreams m1 = bm_blockedStreams m /\ bm_knownReceivedCount m1 = bm_knownReceivedCount m /\ counts_ok m1 (delete s (bm_streamMap m)) n).
  { pose proof (Hb s) as Hbs. unfold blocks_of in Hbs. destruct (bm_streamMap m !! s) as [bs|] eqn:E.
    - change (default [] (Some bs)) with bs in Hbs. subst bs. destruct (cancel_counts (bs_out sp s) m (bm_streamMap m) n s Hc Hn) as [H1 (T1 & T2 & T3 & T4)]; [by rewrite E|apply Hok|]. eexists. split; [reflexivity|].
      set (mf := fold_left _ _ m) in *. split; [change (delete s (bm_streamMap mf) = delete s (bm_streamMap m)); by rewrite T1|]. split; [exact T2|]. split; [exact T3|]. by apply (counts_same mf).
    - exists m. rewrite delete_id by done. done. }
  destruct Hm1 as (m1 & -> & S1 & S2 & S3 & Hc1). split.
  - intros s'. change (default [] (bm_streamMap m1 !! s') = map NewHeaderData (upd (bs_out sp) s [] s')). rewrite S1, blocks_unset. unfold upd. destruct (s' =? s); [done|apply Hb].
  - intros s'. cbn [bs_out]. unfold upd. destruct (s' =? s); [apply Forall_nil_2|apply Hok].
  - exact (conj (eq_trans S3 Hk) Hkr).
  - intros s'. change (s' ∈ bm_blockedStreams m1 ∖ {[s]} <-> waits (bs_known sp) (upd (bs_out sp) s [] s')). rewrite elem_of_difference, elem_of_singleton, S2, Hbl. unfold upd. destruct (s' =? s) eqn:E; bool_simpl.
    + split; [by intros [_ []]|]. intros Hw. by apply Exists_nil in Hw.
    + tauto.
  - apply (counts_same m1); [done..|]. change (counts_ok m1 (bm_streamMap m1) n). by rewrite S1.
Qed.
Lemma bm_rep_up m sp n : bm_rep m sp n -> bm_rep m sp (n + 1).
Proof. intros [H1 H2 H3 H4 [C1 C2 C3 C4 C5]]. split; try done. split; try done. intros i. specialize (C2 i). lia. Qed.
Lemma event_rep m sp n e : bm_rep m sp n -> n < 2 ^ 62 -> event_ok e -> bm_rep (fst (bm_event m e)) (fst (spec_event sp e)) (n + 1) /\ snd (bm_event m e) = snd (spec_event sp e).
Proof.
  intros Hr Hn He.
  destruct e as [s l|s|s|i]; cbn [bm_event event_ok] in *.
  - split; [by apply sent_rep|done].
  - destruct (acked_rep m sp n s Hr Hn) as [H1 H2]. split; [by apply bm_rep_up|done].
  - split; [by apply bm_rep_up, cancelled_rep|done].
  - destruct (increment_rep m sp n i Hr He) as [H1 H2]. split; [by apply bm_rep_up|done].
Qed.

(** ** Any history *)
Fixpoint events {S E} (step : S -> E -> S * bool) (s : S) (es : list E) : S * list bool :=
  match es with [] => (s, []) | e :: es' => let '(s, ok) := step s e in let '(s, oks) := events step s es' in (s, ok :: oks) end.
Lemma events_rep es : forall m sp n, bm_rep m sp n -> n + zlen es < 2 ^ 62 -> Forall event_ok es ->
  bm_rep (fst (events bm_event m es)) (fst (events spec_event sp es)) (n + zlen es) /\ snd (events bm_event m es) = snd (events spec_event sp es).
Proof.
  induction es as [|e es IH]; intros m sp n Hr Hn Hes; cbn [events].
  - rewrite zlen_nil, Z.add_0_r. done.
  - rewrite zlen_cons in *. pose proof (zlen_nonneg es). apply Forall_cons_1 in Hes as [He Hes]. destruct (event_rep m sp n e Hr ltac:(lia) He) as [H1 H2]. destruct (bm_event m e) as [m1 b1], (spec_event sp e) as [sp1 b2]. cbn [fst snd] in H1, H2.
    destruct (IH m1 sp1 (n + 1) H1 ltac:(lia) Hes) as [H3 H4]. destruct (events bm_event m1 es), (events spec_event sp1 es). cbn [fst snd] in *. replace (n + (1 + zlen es)) with (n + 1 + zlen es) by lia. split; [done|congruence].
Qed.
Lemma new_rep mx : bm_rep (NewBlockingManager mx) (mkBS (fun _ => []) 0) 0.
Proof.
  split; try done.
  - intros s. split; [intros H; by apply elem_of_empty in H|intros H; by apply Exists_nil in H].
  - split; try done; [by left].
Qed.
(** What the cached minimum says of the blocks. *)
Lemma smallest_spec m sp n : bm_rep m sp n ->
  (forall s l i, l ∈ bs_out sp s -> i ∈ l -> bm_smallestBlockingIndex m <= i)
  /\ ((bm_smallestBlockingIndex m = MaxUint64 /\ forall s, bs_out sp s = []) \/ exists s l, l ∈ bs_out sp s /\ bm_smallestBlockingIndex m ∈ l).
Proof.
  intros [Hb Hok _ _ [C1 C2 C3 C4 C5]]. assert (Hpos : forall s l, l ∈ bs_out sp s -> 0 < cnt (lmin l) (bm_streamMap m)).
  { intros s l Hl. rewrite (cnt_split _ _ s). fold (blocks_of m s). rewrite Hb. pose proof (cnt_nonneg (lmin l) (delete s (bm_streamMap m))). assert (0 < mins (lmin l) (map NewHeaderData (bs_out sp s))) by (apply mins_pos; [apply Hok|by exists l]). lia. }
  assert (Hrefs : forall s l, l ∈ bs_out sp s -> refs_ok l) by (intros s l Hl; pose proof (Hok s) as Hf; rewrite Forall_forall in Hf; by apply Hf, list_elem_of_In). split.
  - intros s l i Hl Hi. etransitivity; [exact (C4 _ (Hpos s l Hl))|]. by apply (lmin_in l (Hrefs s l Hl)).
  - assert (Hcase : 0 < cnt (bm_smallestBlockingIndex m) (bm_streamMap m) -> exists s l, l ∈ bs_out sp s /\ bm_smallestBlockingIndex m ∈ l).
    { intros Hp. apply cnt_pos in Hp as (s & bs & Hs & Hp). assert (bs = map NewHeaderData (bs_out sp s)) as -> by (rewrite <- Hb; unfold blocks_of; by rewrite Hs). apply mins_pos in Hp as (l & Hl & Hm); [|apply Hok]. exists s, l. split; [done|]. rewrite <- Hm. apply (lmin_in l (Hrefs s l Hl)). }
    destruct C5 as [C5|C5]; [|by right; apply Hcase]. left. split; [done|]. intros s. destruct (bs_out sp s) as [|l ls] eqn:E; [done|]. exfalso. assert (Hl : l ∈ bs_out sp s) by (rewrite E; left). pose proof (C4 _ (Hpos s l Hl)) as Hle. pose proof (lmin_in l (Hrefs s l Hl)) as (_ & Hr & _). rewrite C5 in Hle. unfold MaxUint64 in Hle. lia.
Qed.

(** C32: after any history of blocks sent, each with at least one reference to the
    table, acknowledgements, cancellations and increments, [BlockingManager] tells what the specification tells: each operation
    succeeds or fails as specified (an acknowledgement without an outstanding block and
    an increment that overflows fail and change nothing); the known received count is
    exact; a stream is blocked iff one of its outstanding blocks needs more entries than
    the peer is known to have; and the smallest blocking index is the least index to
    which an outstanding block refers, or 2^64-1 if there is none. *)
Theorem blocking_manager_refines (mx : list Z) (es : list block_event) (Hn : zlen es < 2 ^ 62) (Hes : Forall event_ok es) :
  let '(m, oks) := events bm_event (NewBlockingManager mx) es in
  let '(sp, oks') := events spec_event (mkBS (fun _ => []) 0) es in
  oks = oks' /\ bm_knownReceivedCount m = bs_known sp
  /\ (forall s, IsBlocked m s = true <-> exists l, l ∈ bs_out sp s /\ bs_known sp < ric l)
  /\ (forall s l i, l ∈ bs_out sp s -> i ∈ l -> bm_smallestBlockingIndex m <= i)
  /\ ((bm_smallestBlockingIndex m = MaxUint64 /\ forall s, bs_out sp s = []) \/ exists s l, l ∈ bs_out sp s /\ bm_smallestBlockingIndex m ∈ l).
Proof.
  destruct (events_rep es _ _ 0 (new_rep mx) Hn Hes) as [Hr Ho]. destruct (events bm_event _ es) as [m oks], (events spec_event _ es) as [sp oks']. cbn [fst snd] in *. split; [done|]. split; [apply (bl_known _ _ _ Hr)|]. split; [|exact (smallest_spec m sp _ Hr)].
  intros s. unfold IsBlocked. rewrite bool_decide_eq_true, (bl_blocked _ _ _ Hr). unfold waits. rewrite Exists_exists. split; intros (l & Hl & Hk); exists l; (split; [by apply list_elem_of_In|done]).
Qed.
Definition sample_events : list block_event := [Sent 4 [2; 5]; Sent 8 [3]; Sent 4 [1]; Increment 3; Acked 4; Acked 12; Cancelled 4; Increment MaxUint64].
Lemma blocking_manager_refines_witness :
  zlen sample_events < 2 ^ 62 /\ Forall event_ok sample_events
  /\ let '(m, oks) := events bm_event (NewBlockingManager []) sample_events in
     let '(sp, oks') := events spec_event (mkBS (fun _ => []) 0) sample_events in
     oks = oks' /\ bm_knownReceivedCount m = bs_known sp
     /\ (forall s, IsBlocked m s = true <-> exists l, l ∈ bs_out sp s /\ bs_known sp < ric l)
     /\ (forall s l i, l ∈ bs_out sp s -> i ∈ l -> bm_smallestBlockingIndex m <= i)
     /\ ((bm_smallestBlockingIndex m = MaxUint64 /\ forall s, bs_out sp s = []) \/ exists s l, l ∈ bs_out sp s /\ bm_smallestBlockingIndex m ∈ l).
Proof.
  assert (Hn : zlen sample_events < 2 ^ 62) by (vm_compute; reflexivity).
  assert (Hr : forall l, l <> [] -> forallb (fun i => (0 <=? i) && (i <? 2 ^ 62)) l = true -> refs_ok l).
  { intros l Hl Hb. split; [exact Hl|]. apply Forall_forall. intros i Hi. rewrite forallb_forall in Hb. specialize (Hb i Hi). bool_simpl. split; assumption. }
  assert (He : Forall event_ok sample_events).
  { unfold sample_events. repeat apply Forall_cons_2; try exact I; try (apply Hr; [discriminate|reflexivity]); try apply Forall_nil_2; (split; [discriminate|reflexivity]). }
  split; [exact Hn|]. split; [exact He|]. exact (blocking_manager_refines [] sample_events Hn He).
Defined.
