(* ===== verification/QpackEncoder.v ===== *)
(** * QPACK: the encoder

    Models [src/proto/codec/qpack/encoder.go] with the stream senders
    ([stream_sender.go]) and the receiver of the decoder stream
    ([stream_receiver.go]): header blocks in two passes, insertions on the encoder
    stream, and the feedback of the peer.  The delegate that writes a stream is not
    part of the repository's core: its presence, the number of bytes it has buffered
    (an argument of [EncodeHeaderList]) and all it was given ([ss_written]) stand for
    it.  The calls of the error handler are the list [e_errors].

    The theorems: a header block and the instructions sent with it denote exactly the
    fields given, split as the code splits them; nothing is evicted that the peer may
    still need; and the number of blocked streams stays within the peer's limit. *)

From stdpp Require Import gmap.
From S2P Require Import Prelude HpackInt Huffman QpackBase QpackInstr QpackTable QpackBlocking.
Open Scope Z_scope.

(** ** Stream senders *)
Definition maxBytesBufferedByStream : Z := 64 * 1024.
#[projections(primitive)]
Record StreamSender := mkSS { ss_delegate : bool; ss_encoder : InstructionEncoder; ss_buffer : bytes; ss_written : bytes }.
Definition NewEncoderStreamSenderWithHuffman (huffman delegate : bool) : StreamSender := mkSS delegate (NewInstructionEncoder huffman) [] [].
Definition NewDecoderStreamSender (delegate : bool) : StreamSender := mkSS delegate (NewInstructionEncoder false) [] [].
Definition ss_SetDelegate (s : StreamSender) (delegate : bool) : StreamSender := { s with ss_delegate := delegate }.
Definition ss_send (s : StreamSender) (v : InstructionWithValues) : run StreamSender :=
  let* r := EncodeTo (ss_encoder s) v (ss_buffer s) in Ok { s with ss_encoder := fst r; ss_buffer := snd r }.
Definition SendInsertWithNameReference (s : StreamSender) (isStatic : bool) (nameIndex : Z) (value : bytes) : run StreamSender :=
  ss_send s (VInsertWithNameReference isStatic nameIndex value).
Definition SendInsertWithoutNameReference (s : StreamSender) (name value : bytes) : run StreamSender := ss_send s (VInsertWithoutNameReference name value).
Definition SendDuplicate (s : StreamSender) (index : Z) : run StreamSender := ss_send s (VDuplicate index).
Definition SendSetDynamicTableCapacity (s : StreamSender) (capacity : Z) : run StreamSender := ss_send s (VSetDynamicTableCapacity capacity).
Definition SendSectionAcknowledgement (s : StreamSender) (streamID : Z) : run StreamSender := ss_send s (VHeaderAcknowledgement streamID).
Definition SendStreamCancellation (s : StreamSender) (streamID : Z) : run StreamSender := ss_send s (VStreamCancellation streamID).
Definition SendInsertCountIncrement (s : StreamSender) (increment : Z) : run StreamSender := ss_send s (VInsertCountIncrement increment).
Definition BufferedByteCount (s : StreamSender) : Z := zlen (ss_buffer s).
Definition CanWrite (s : StreamSender) (numBytesBuffered : Z) : bool :=
  ss_delegate s && (u64 (numBytesBuffered + zlen (ss_buffer s)) <=? maxBytesBufferedByStream).
Definition Flush (s : StreamSender) : StreamSender :=
  if zlen (ss_buffer s) =? 0 then s
  else
    let data := ss_buffer s in
    let s := { s with ss_buffer := [] } in
    if ss_delegate s then { s with ss_written := ss_written s ++ data } else s.

(** ** Errors *)
Definition ErrCodeDecoderStreamError : Z := 0x0202.
Definition ErrCodeDecoderIntegerTooLarge : Z := 186.
Definition ErrCodeDecoderInvalidZeroIncrement : Z := 187.
Definition ErrCodeDecoderIncrementOverflow : Z := 188.
Definition ErrCodeDecoderImpossibleInsertCount : Z := 189.
Definition ErrCodeDecoderIncorrectAcknowledgement : Z := 190.

(** ** The encoder *)
#[projections(primitive)]
Record Encoder := mkEnc {
  e_huffmanEncoding : bool; e_cookieCrumbling : bool; e_receiver : InstructionDecoder; e_receiverError : bool;
  e_sender : StreamSender; e_table : EncoderHeaderTable; e_maximumBlockedStreams : Z; e_bm : BlockingManager;
  e_headerListCount : Z; e_errors : list Z
}.
Definition NewEncoder (huffmanEncoding cookieCrumbling : bool) : Encoder :=
  mkEnc huffmanEncoding cookieCrumbling (NewInstructionDecoder langDecoderStream) false (NewEncoderStreamSenderWithHuffman huffmanEncoding false)
    NewEncoderHeaderTable 0 (NewBlockingManager []) 0 [].
Definition SetStreamSenderDelegate (e : Encoder) (delegate : bool) : Encoder := { e with e_sender := ss_SetDelegate (e_sender e) delegate }.
Definition enc_SetMaximumDynamicTableCapacity (e : Encoder) (maximum : Z) : Encoder * bool :=
  let '(b, ok) := tb_SetMaximumDynamicTableCapacity (et_base (e_table e)) maximum in
  ({ e with e_table := { (e_table e) with et_base := b } }, ok).
Definition enc_SetDynamicTableCapacity (e : Encoder) (capacity : Z) : run Encoder :=
  let* s := SendSetDynamicTableCapacity (e_sender e) capacity in
  let e := { e with e_sender := s } in
  let* r := tb_SetDynamicTableCapacity (e_table e) capacity in
  if snd r then Ok { e with e_table := fst r } else Panic.
Definition SetMaximumBlockedStreams (e : Encoder) (maximum : Z) : Encoder * bool :=
  if maximum <? e_maximumBlockedStreams e then (e, false) else ({ e with e_maximumBlockedStreams := maximum }, true).

(** *** Feedback from the peer

    The text of an error is given when it comes from the instruction decoder. *)
Definition enc_OnErrorDetected (e : Encoder) (errorCode : Z) (msg : option message) : Encoder :=
  let errorCode :=
    match msg with
    | Some MsgIntegerTooLarge => if errorCode =? ErrCodeDecoderStreamError then ErrCodeDecoderIntegerTooLarge else errorCode
    | _ => errorCode
    end in
  { e with e_errors := e_errors e ++ [errorCode] }.
Definition enc_OnInsertCountIncrement (e : Encoder) (increment : Z) : Encoder :=
  if increment =? 0 then enc_OnErrorDetected e ErrCodeDecoderInvalidZeroIncrement None
  else
    let '(bm, ok) := OnInsertCountIncrement (e_bm e) increment in
    let e := { e with e_bm := bm } in
    let e := if negb ok then enc_OnErrorDetected e ErrCodeDecoderIncrementOverflow None else e in
    if bm_knownReceivedCount (e_bm e) >? InsertedEntryCount (et_base (e_table e))
    then enc_OnErrorDetected e ErrCodeDecoderImpossibleInsertCount None else e.
Definition enc_OnHeaderAcknowledgement (e : Encoder) (streamID : Z) : Encoder :=
  let '(bm, ok) := OnHeaderAcknowledgement (e_bm e) streamID in
  let e := { e with e_bm := bm } in
  if negb ok then enc_OnErrorDetected e ErrCodeDecoderIncorrectAcknowledgement None else e.
Definition enc_OnStreamCancellation (e : Encoder) (streamID : Z) : Encoder := { e with e_bm := OnStreamCancellation (e_bm e) streamID }.

(** [DecoderStreamReceiver], with the encoder as its delegate. *)
#[export] Instance DecoderStreamReceiver : InstructionDecoderDelegate Encoder := {|
  OnInstructionDecoded := fun v e =>
    match w_instruction v with
    | InsertCountIncrement => Ok (enc_OnInsertCountIncrement e (w_varint v), true)
    | HeaderAcknowledgement => Ok (enc_OnHeaderAcknowledgement e (w_varint v), true)
    | StreamCancellation => Ok (enc_OnStreamCancellation e (w_varint v), true)
    | _ => Ok (e, false)
    end;
  OnInstructionDecodingError := fun _ m e =>
    if e_receiverError e then e else enc_OnErrorDetected { e with e_receiverError := true } ErrCodeDecoderStreamError (Some m)
|}.
Definition enc_receive (e : Encoder) (data : bytes) : run Encoder :=
  if (zlen data =? 0) || e_receiverError e then Ok e
  else let* r := id_Decode (e_receiver e) e data in let '(d, e, _) := r in Ok { e with e_receiver := d }.
Definition enc_receive_end (e : Encoder) : Encoder :=
  if e_receiverError e then e else let '(d, e) := id_EndDecoding (e_receiver e) e in { e with e_receiver := d }.

(** *** Splitting fields *)
Definition cookie_name : bytes := [99; 111; 111; 107; 105; 101].
(** The index of a byte, as [strings.IndexByte]. *)
Fixpoint index_byte (c : Z) (s : bytes) : option nat :=
  match s with [] => None | b :: s' => if b =? c then Some 0%nat else option_map S (index_byte c s') end.
(** The crumbs from a position on; each pass consumes a byte. *)
Fixpoint crumbs (fuel : nat) (name value : bytes) : list HeaderField :=
  match fuel, value with
  | O, _ | _, [] => []
  | S fuel', _ =>
      match index_byte 59 value with
      | None => [mkHF name value]
      | Some idx =>
          let rest := drop (S idx) value in
          mkHF name (take idx value) :: crumbs fuel' name (match rest with b :: rest' => if b =? 32 then rest' else rest | [] => [] end)
      end
  end.
(** [strings.Split] at the byte 0. *)
Fixpoint split_zero (value cur : bytes) : list bytes :=
  match value with
  | [] => [cur]
  | b :: value' => if b =? 0 then cur :: split_zero value' [] else split_zero value' (cur ++ [b])
  end.
Definition splitHeaderField (name value : bytes) (crumbling : bool) : list HeaderField :=
  if bool_decide (name = cookie_name) then
    if crumbling then
      match crumbs (S (List.length value)) name value with [] => [mkHF name []] | cs => cs end
    else [mkHF name value]
  else if negb (existsb (fun b => b =? 0) value) then [mkHF name value]
  else map (mkHF name) (split_zero value []).
Definition flatten (crumbling : bool) (l : list HeaderField) : list HeaderField := concat (map (fun hf => splitHeaderField (Name hf) (Value hf) crumbling) l).

(** *** The first pass

    What the loop over the fields changes: the sender, the table, the eviction barrier,
    the indices referred to and the representations. *)
#[projections(primitive)]
Record pass := mkPass { p_sender : StreamSender; p_table : EncoderHeaderTable; p_small : Z; p_refs : IndexSet; p_reps : list InstructionWithValues }.
Definition p_rep (p : pass) (v : InstructionWithValues) : pass := { p with p_reps := p_reps p ++ [v] }.
Definition EncodeIndexedHeaderField (isStatic : bool) (index : Z) (p : pass) : pass :=
  let p := if negb isStatic then { p with p_refs := is_Insert (p_refs p) index } else p in
  p_rep p (VIndexedHeaderField isStatic index).
Definition EncodeLiteralHeaderFieldWithNameReference (isStatic : bool) (index : Z) (value : bytes) (p : pass) : pass :=
  let p := if negb isStatic then { p with p_refs := is_Insert (p_refs p) index } else p in
  p_rep p (VLiteralHeaderFieldNameReference isStatic index value).
Definition EncodeLiteralHeaderField (name value : bytes) (p : pass) : pass := p_rep p (VLiteralHeaderField name value).
(** [if index < smallestNonEvictableIndex { smallestNonEvictableIndex = index; ... }] *)
Definition p_lower (p : pass) (index : Z) : pass :=
  if index <? p_small p then { p with p_small := index; p_table := SetSmallestAllowedIndex (p_table p) index } else p.
Definition p_referenced (p : pass) : pass :=
  { p with p_table := { (p_table p) with et_base := SetDynamicTableEntryReferenced (et_base (p_table p)) } }.
(** Send an instruction, insert the field and refer to it. *)
Definition p_insert (p : pass) (v : InstructionWithValues) (name value : bytes) : run (pass * Z) :=
  let* s := ss_send (p_sender p) v in
  let* r := et_InsertEntry (p_table p) name value in
  let '(t, newIndex) := r in
  Ok (EncodeIndexedHeaderField false newIndex { p with p_sender := s; p_table := t }, newIndex).

Section first_pass.
Context (knownReceivedCount drainingIndex : Z) (blockingAllowed canWrite : bool).
(** Whether an entry of this size may be inserted, keeping the entry [limitIndex]. *)
Definition may_insert (p : pass) (name value : bytes) (limitIndex : Z) : run bool :=
  if blockingAllowed then
    let* room := MaxInsertSizeWithoutEvictingGivenEntry (p_table p) limitIndex in
    Ok ((EntrySize name value <=? room) && canWrite)
  else Ok false.
Definition relative (p : pass) (index : Z) : run Z := AbsoluteIndexToEncoderStreamRelativeIndex index (InsertedEntryCount (et_base (p_table p))).

Definition static_name_case (p : pass) (index : Z) (name value : bytes) : run pass :=
  let* may := may_insert p name value (p_small p) in
  if may then
    let* r := p_insert p (VInsertWithNameReference true index value) name value in
    Ok (p_lower (fst r) (snd r))
  else Ok (EncodeLiteralHeaderFieldWithNameReference true index value p).
Definition dynamic_name_case (p : pass) (index : Z) (name value : bytes) : run pass :=
  let* may := may_insert p name value (Z.min index (p_small p)) in
  if may then
    let* relIndex := relative p index in
    let* r := p_insert p (VInsertWithNameReference false relIndex value) name value in
    Ok (p_referenced (p_lower (fst r) index))
  else if (blockingAllowed || (index <? knownReceivedCount)) && (index >=? drainingIndex) then
    Ok (p_referenced (p_lower (EncodeLiteralHeaderFieldWithNameReference false index value p) index))
  else Ok (EncodeLiteralHeaderField name value p).
Definition name_case (p : pass) (m : MatchResult) (name value : bytes) : run pass :=
  if M_IsStatic m then static_name_case p (M_Index m) name value else dynamic_name_case p (M_Index m) name value.
Definition no_match_case (p : pass) (name value : bytes) : run pass :=
  let* may := may_insert p name value (p_small p) in
  if may then
    let* r := p_insert p (VInsertWithoutNameReference name value) name value in
    Ok (p_lower (fst r) (snd r))
  else Ok (EncodeLiteralHeaderField name value p).
(** A dynamic match of the whole field; [None] if it cannot be used. *)
Definition exact_case (p : pass) (index : Z) (name value : bytes) : run (option pass) :=
  if index >=? drainingIndex then
    if negb blockingAllowed && (index >=? knownReceivedCount) then Ok None
    else Ok (Some (p_referenced (p_lower (EncodeIndexedHeaderField false index p) index)))
  else
    let* may := may_insert p name value (Z.min index (p_small p)) in
    if may then
      let* relIndex := relative p index in
      let* r := p_insert p (VDuplicate relIndex) name value in
      Ok (Some (p_referenced (p_lower (fst r) index)))
    else Ok None.
Definition pass_field (p : pass) (hf : HeaderField) : run pass :=
  let name := Name hf in
  let value := Value hf in
  let m := FindHeaderField (p_table p) name value in
  match M_Match m with
  | MatchTypeNameAndValue =>
      if M_IsStatic m then Ok (EncodeIndexedHeaderField true (M_Index m) p)
      else
        let* o := exact_case p (M_Index m) name value in
        match o with
        | Some p => Ok p
        | None =>
            let m' := FindHeaderName (p_table p) name in
            match M_Match m' with
            | MatchTypeName =>
                if Bool.eqb (M_IsStatic m') (M_IsStatic m) && (M_Index m' =? M_Index m) then Ok (EncodeLiteralHeaderField name value p)
                else name_case p m' name value
            | _ => Ok (EncodeLiteralHeaderField name value p)
            end
        end
  | MatchTypeName => name_case p m name value
  | MatchTypeNoMatch => no_match_case p name value
  end.
Fixpoint pass_fields (p : pass) (l : list HeaderField) : run pass :=
  match l with [] => Ok p | hf :: l' => let* p := pass_field p hf in pass_fields p l' end.
End first_pass.

(** The representations, the indices and the bytes sent on the encoder stream. *)
Definition firstPassEncode (e : Encoder) (streamID : Z) (headerList : list HeaderField) (numBytesBuffered : Z) : run (Encoder * list InstructionWithValues * IndexSet * Z) :=
  let initialBuffered := BufferedByteCount (e_sender e) in
  let canWrite := CanWrite (e_sender e) numBytesBuffered in
  let knownReceivedCount := bm_knownReceivedCount (e_bm e) in
  let smallestNonEvictableIndex := Z.min knownReceivedCount (bm_smallestBlockingIndex (e_bm e)) in
  let* drainingIndex := DrainingIndex (e_table e) DrainingFraction in
  let blockingAllowed := BlockingAllowedOnStream (e_bm e) streamID [e_maximumBlockedStreams e] in
  let t := SetSmallestAllowedIndex (e_table e) smallestNonEvictableIndex in
  let* p := pass_fields knownReceivedCount drainingIndex blockingAllowed canWrite (mkPass (e_sender e) t smallestNonEvictableIndex NewIndexSet [])
              (flatten (e_cookieCrumbling e) headerList) in
  let sent := u64 (BufferedByteCount (p_sender p) - initialBuffered) in
  let s := if canWrite then Flush (p_sender p) else p_sender p in
  Ok ({ e with e_sender := s; e_table := p_table p; e_headerListCount := e_headerListCount e + 1 }, p_reps p, p_refs p, sent).

(** *** The second pass *)
Definition is_relative (v : InstructionWithValues) : bool :=
  match w_instruction v with IndexedHeaderField | LiteralHeaderFieldNameReference => negb (w_sBit v) | _ => false end.
Definition second_rep (base : Z) (v : InstructionWithValues) : run InstructionWithValues :=
  if is_relative v then let* relIndex := AbsoluteIndexToRequestStreamRelativeIndex (w_varint v) base in Ok (SetVarint v relIndex) else Ok v.
Fixpoint second_loop (ie : InstructionEncoder) (base : Z) (l : list InstructionWithValues) (out : bytes) : run bytes :=
  match l with
  | [] => Ok out
  | v :: l' => let* v := second_rep base v in let* r := EncodeTo ie v out in second_loop (fst r) base l' (snd r)
  end.
Definition secondPassEncode (e : Encoder) (representations : list InstructionWithValues) (requiredInsertCount : Z) : run bytes :=
  let* encodedRIC := EncodeRequiredInsertCount requiredInsertCount (tb_maxEntries (et_base (e_table e))) in
  let* r := EncodeTo (NewInstructionEncoder (e_huffmanEncoding e)) (VPrefix encodedRIC) [] in
  second_loop (fst r) requiredInsertCount representations (snd r).

Definition EncodeHeaderList (e : Encoder) (streamID : Z) (headerList : list HeaderField) (numBytesBuffered : Z) : run (Encoder * bytes * Z) :=
  let* r := firstPassEncode e streamID headerList numBytesBuffered in
  let '(e, representations, referredIndices, sent) := r in
  let requiredInsertCount := if negb (is_Empty referredIndices) then is_RequiredInsertCount referredIndices else 0 in
  let e := if negb (is_Empty referredIndices) then { e with e_bm := OnHeaderBlockSent (e_bm e) streamID (is_indices referredIndices) } else e in
  let* block := secondPassEncode e representations requiredInsertCount in
  Ok (e, block, sent).

(** ** What the streams say

    The meaning of an instruction of the encoder stream: an operation on the abstract
    table. *)
Definition live (s : table_spec) (i : Z) : option Entry := if Z.of_nat (s_dropped s) <=? i then s_hist s !! Z.to_nat i else None.
Definition stream_op (s : table_spec) (v : InstructionWithValues) : option table_op :=
  match w_instruction v with
  | InsertWithNameReference =>
      match (if w_sBit v then staticTable !! Z.to_nat (w_varint v) else live s (zlen (s_hist s) - w_varint v - 1)) with
      | Some e => Some (OpInsert (mkHF (Name e) (w_value v)))
      | None => None
      end
  | InsertWithoutNameReference => Some (OpInsert (mkHF (w_name v) (w_value v)))
  | Duplicate => match live s (zlen (s_hist s) - w_varint v - 1) with Some e => Some (OpInsert e) | None => None end
  | SetDynamicTableCapacity => Some (OpCapacity (w_varint v))
  | _ => None
  end.
(** An instruction that a decoder accepts. *)
Definition stream_step (s : table_spec) (v : InstructionWithValues) (s' : table_spec) : Prop :=
  exists o, stream_op s v = Some o /\ op_ok s o /\ (match o with OpCapacity c => c <= s_max s | _ => True end) /\ s' = spec_op s o
    /\ 0 <= w_varint v < 2 ^ 62 /\ (w_sBit v = true -> w_varint v < 99).
Fixpoint stream_run (s : table_spec) (vs : list InstructionWithValues) (s' : table_spec) : Prop :=
  match vs with [] => s' = s | v :: vs' => exists s1, stream_step s v s1 /\ stream_run s1 vs' s' end.
Lemma stream_snoc vs : forall s s1 v s2, stream_run s vs s1 -> stream_step s1 v s2 -> stream_run s (vs ++ [v]) s2.
Proof. induction vs as [|w vs IH]; intros s s1 v s2; cbn [stream_run app]; [intros -> Hs; exists s2; done|]. intros (s3 & H1 & H2) Hs. exists s3. split; [done|]. by eapply IH. Qed.

(** The fields that can be sent: strings within the decoder's limit. *)
Definition field_ok (hf : HeaderField) : Prop := str_ok (Name hf) /\ str_ok (Value hf).
Lemma field_hf hf : field_ok hf -> hf_ok hf.
Proof. intros [[H1 H2] [H3 H4]]. unfold qpackStringLiteralLengthLimit in *. split; [done|]. split; [done|]. lia. Qed.

(** The field a representation with absolute indices stands for. *)
Definition rep_field (hist : list Entry) (v : InstructionWithValues) : option HeaderField :=
  match w_instruction v with
  | IndexedHeaderField => if w_sBit v then staticTable !! Z.to_nat (w_varint v) else hist !! Z.to_nat (w_varint v)
  | LiteralHeaderFieldNameReference =>
      match (if w_sBit v then staticTable !! Z.to_nat (w_varint v) else hist !! Z.to_nat (w_varint v)) with
      | Some e => Some (mkHF (Name e) (w_value v)) | None => None end
  | LiteralHeaderField => Some (mkHF (w_name v) (w_value v))
  | _ => None
  end.
Definition rep_denotes (hist : list Entry) (refs : list Z) (v : InstructionWithValues) (hf : HeaderField) : Prop :=
  rep_field hist v = Some hf /\ sendable langRequestStream v
  /\ (is_relative v = true -> w_varint v ∈ refs) /\ (w_sBit v = true -> w_varint v < 99).
Lemma denotes_mono hist refs v hf hist' refs' : (forall i e, hist !! i = Some e -> hist' !! i = Some e) -> (forall i, i ∈ refs -> i ∈ refs') -> rep_denotes hist refs v hf -> rep_denotes hist' refs' v hf.
Proof.
  intros Hh Hr (H1 & H2 & H3 & H4). split; [|split; [done|split; [auto|done]]]. unfold rep_field in *. destruct (w_instruction v); try discriminate; try exact H1; destruct (w_sBit v); try exact H1.
  - by apply Hh.
  - revert H1. set (k := Z.to_nat (w_varint v)). destruct (hist !! k) as [e|] eqn:E; [|discriminate]. apply Hh in E. intros H1. change (match hist' !! k with Some e => Some (mkHF (Name e) (w_value v)) | None => None end = Some hf). rewrite E. exact H1.
Qed.

(** ** Sending *)
Lemma ss_send_ok s v : values_ok v -> exists ie, ss_send s v = Ok { s with ss_encoder := ie; ss_buffer := ss_buffer s ++ image (ie_huffman (ss_encoder s)) v } /\ ie_huffman ie = ie_huffman (ss_encoder s).
Proof. intros Hv. destruct (EncodeTo_image (ss_encoder s) v (ss_buffer s) Hv) as (ie & E & Hh). exists ie. unfold ss_send. rewrite E. done. Qed.
Lemma images_snoc h vs v : images h (vs ++ [v]) = images h vs ++ image h v.
Proof. unfold images. rewrite map_app, concat_app. cbn [map concat]. by rewrite app_nil_r. Qed.
Lemma str_nil : str_ok [].
Proof. split; [apply Forall_nil_2|done]. Qed.
Lemma values_int i x : (i = Duplicate \/ i = SetDynamicTableCapacity \/ i = HeaderAcknowledgement \/ i = StreamCancellation \/ i = InsertCountIncrement \/ i = Prefix) -> is_u64 x -> values_ok (mkValues i false x 0 [] []).
Proof. intros Hi Hx. pose proof str_nil. destruct Hi as [-> |[-> |[-> |[-> |[-> | ->]]]]]; (split; [exact Hx|unfold is_u64; cbn; lia|exact H|exact H|done|done]). Qed.
Lemma values_name_ref b i x : is_u64 i -> str_ok x -> values_ok (VInsertWithNameReference b i x) /\ values_ok (VLiteralHeaderFieldNameReference b i x).
Proof. intros Hi Hx. pose proof str_nil. split; (split; [exact Hi|unfold is_u64; cbn; lia|exact H|exact Hx|done|done]). Qed.
Lemma values_literal n x : str_ok n -> str_ok x -> values_ok (VInsertWithoutNameReference n x) /\ values_ok (VLiteralHeaderField n x).
Proof. intros Hn Hx. split; (split; [unfold is_u64; cbn; lia|unfold is_u64; cbn; lia|exact Hn|exact Hx|done|done]). Qed.
Lemma values_indexed b i : is_u64 i -> values_ok (VIndexedHeaderField b i).
Proof. intros Hi. pose proof str_nil. split; [exact Hi|unfold is_u64; cbn; lia|exact H|exact H|done|done]. Qed.

(** ** The first pass keeps its invariant *)
Section pass_inv.
Context (s0 : table_spec) (snd0 : StreamSender) (K small0 : Z) (allowed canWrite : bool) (drainingIndex : Z).
Abbreviation h := (ie_huffman (ss_encoder snd0)).
Context (HK : 0 <= K <= zlen (s_hist s0)) (Hsmall0 : small0 <= K).
(** After the fields [fs]: [vs] were sent, [refs] are referred to, and [s] is the table. *)
Record pass_inv (p : pass) (fs : list HeaderField) (vs : list InstructionWithValues) (refs : list Z) (s : table_spec) : Prop := {
  pi_table : et_rep (p_table p) (s_hist s) (s_dropped s);
  pi_impl : implements (et_base (p_table p)) s;
  pi_sender : exists ie, ie_huffman ie = h /\ p_sender p = { snd0 with ss_encoder := ie; ss_buffer := ss_buffer snd0 ++ images h vs };
  pi_vs : Forall (sendable langEncoderStream) vs;
  pi_run : stream_run s0 vs s;
  pi_refs : is_rep (p_refs p) refs;
  pi_small : Z.of_nat (s_dropped s) <= p_small p <= small0;
  pi_low : forall i, i ∈ refs -> p_small p <= i < zlen (s_hist s);
  pi_allowed : allowed = false -> forall i, i ∈ refs -> i < K;
  pi_reps : Forall2 (rep_denotes (s_hist s) refs) (p_reps p) fs;
  pi_hist : s_hist s0 `prefix_of` s_hist s;
  pi_write : canWrite = false -> vs = [];
  pi_limits : s_max s = s_max s0 /\ s_cap s = s_cap s0;
  pi_used : forall i, i ∈ refs -> exists v, v ∈ p_reps p /\ is_relative v = true /\ w_varint v = i
}.
Lemma hist_grows p fs vs refs s : pass_inv p fs vs refs s -> zlen (s_hist s0) <= zlen (s_hist s).
Proof. intros H. pose proof (prefix_length _ _ (pi_hist _ _ _ _ _ H)). unfold zlen. lia. Qed.
Lemma live_small p fs vs refs s : pass_inv p fs vs refs s -> 0 <= p_small p <= zlen (s_hist s) /\ zlen (s_hist s) < 2 ^ 62.
Proof. intros H. pose proof (hist_grows _ _ _ _ _ H). pose proof (pi_small _ _ _ _ _ H). pose proof (br_count _ _ _ (er_base _ _ _ (pi_table _ _ _ _ _ H))). lia. Qed.

(** A representation without a reference. *)
Lemma pass_rep p fs vs refs s v hf : pass_inv p fs vs refs s -> rep_denotes (s_hist s) refs v hf -> pass_inv (p_rep p v) (fs ++ [hf]) vs refs s.
Proof. intros [H1 H2 H3 H4 H5 H6 H7 H8 H9 H10 H11 H12 H13 H14] Hv. split; try assumption; [apply Forall2_app; [exact H10|]; apply Forall2_cons; [exact Hv|apply Forall2_nil]|]. intros i Hi. destruct (H14 i Hi) as (w & Hw & Hw'). exists w. split; [apply elem_of_app; by left|exact Hw']. Qed.
(** A reference to a live entry. *)
Lemma pass_ref p fs vs refs s v hf i : pass_inv p fs vs refs s -> Z.of_nat (s_dropped s) <= i < zlen (s_hist s) -> (allowed = false -> i < K) -> rep_denotes (s_hist s) (refs ++ [i]) v hf -> is_relative v = true -> w_varint v = i ->
  pass_inv (p_lower (p_rep { p with p_refs := is_Insert (p_refs p) i } v) i) (fs ++ [hf]) vs (refs ++ [i]) s.
Proof.
  intros Hp Hi Ha Hv Hrel Hvi. pose proof (live_small _ _ _ _ _ Hp) as Hls. destruct Hp as [H1 H2 H3 H4 H5 H6 H7 H8 H9 H10 H11 H12 H13 H14].
  assert (Hused : forall j, j ∈ refs ++ [i] -> exists w, w ∈ p_reps p ++ [v] /\ is_relative w = true /\ w_varint w = j).
  { intros j Hj. apply elem_of_app in Hj as [Hj|Hj]; [destruct (H14 j Hj) as (w & Hw & Hw'); exists w; split; [apply elem_of_app; by left|exact Hw']|]. apply list_elem_of_singleton in Hj. subst j. exists v. split; [apply elem_of_app; right; by apply list_elem_of_singleton|done]. }
  assert (Href : is_rep (is_Insert (p_refs p) i) (refs ++ [i])) by (apply is_insert; [exact H6|lia]).
  assert (Hreps : Forall2 (rep_denotes (s_hist s) (refs ++ [i])) (p_reps p ++ [v]) (fs ++ [hf])).
  { apply Forall2_app; [|apply Forall2_cons; [exact Hv|apply Forall2_nil]]. eapply Forall2_impl; [|exact H10]. intros x y. apply denotes_mono; [done|]. intros j Hj. apply elem_of_app. by left. }
  assert (Hall : allowed = false -> forall j, j ∈ refs ++ [i] -> j < K) by (intros Hf j Hj; apply elem_of_app in Hj as [Hj|Hj]; [by apply H9|apply list_elem_of_singleton in Hj; subst; by apply Ha]).
  unfold p_lower. match goal with |- context [i <? ?y] => change y with (p_small p) end. destruct (i <? p_small p) eqn:E; bool_simpl.
  - split; try assumption; [by destruct H1| |].
    + change (Z.of_nat (s_dropped s) <= i <= small0). lia.
    + intros j Hj. change (i <= j < zlen (s_hist s)). apply elem_of_app in Hj as [Hj|Hj]; [specialize (H8 j Hj); lia|apply list_elem_of_singleton in Hj; lia].
  - split; try assumption. intros j Hj. change (p_small p <= j < zlen (s_hist s)). apply elem_of_app in Hj as [Hj|Hj]; [by apply H8|apply list_elem_of_singleton in Hj; lia].
Qed.
Lemma pass_referenced p fs vs refs s : pass_inv p fs vs refs s -> pass_inv (p_referenced p) fs vs refs s.
Proof.
  intros [[[B1 B2 B3 B4 B5 B6 B7 B8 B9 B10] E2 E3] [I1 I2 I3] H3 H4 H5 H6 H7 H8 H9 H10 H11 H12 H13 H14]. split; try assumption; [split; [by split|exact E2|exact E3]|by split].
Qed.
(** Lowering the barrier to a live index. *)
Lemma pass_lower p fs vs refs s i : pass_inv p fs vs refs s -> Z.of_nat (s_dropped s) <= i -> pass_inv (p_lower p i) fs vs refs s.
Proof.
  intros [H1 H2 H3 H4 H5 H6 H7 H8 H9 H10 H11 H12 H13 H14] Hi. unfold p_lower. destruct (i <? p_small p) eqn:E; bool_simpl; [|by split].
  split; try assumption; [by destruct H1| |].
  - change (Z.of_nat (s_dropped s) <= i <= small0). lia.
  - intros j Hj. change (i <= j < zlen (s_hist s)). specialize (H8 j Hj). lia.
Qed.

(** An insertion that keeps the entry [limit]. *)
Lemma pass_insert p fs vs refs s v hf limit : pass_inv p fs vs refs s -> field_ok hf -> zlen (s_hist s) + 1 < 2 ^ 62 -> allowed = true -> canWrite = true ->
  Z.of_nat (s_dropped s) <= limit <= p_small p -> entry_bytes hf <= s_cap s - total (drop (Z.to_nat limit) (s_hist s)) ->
  sendable langEncoderStream v -> stream_op s v = Some (OpInsert hf) -> w_varint v < 2 ^ 62 -> (w_sBit v = true -> w_varint v < 99) ->
  exists p1 s', p_insert p v (Name hf) (Value hf) = Ok (p1, zlen (s_hist s))
    /\ Z.of_nat (s_dropped s') <= limit /\ p_small p1 = p_small p /\ s_hist s' = s_hist s ++ [hf] /\ pass_inv p1 (fs ++ [hf]) (vs ++ [v]) (refs ++ [zlen (s_hist s)]) s'.
Proof.
  intros Hp Hf Hz Hal Hcw Hlim Hroom Hsv Hop Hv62 Hv99. pose proof (live_small _ _ _ _ _ Hp) as Hls. pose proof (hist_grows _ _ _ _ _ Hp) as Hgrow. destruct Hp as [H1 [I1 I2 I3] (ie & Hie & Hsend) H4 H5 H6 H7 H8 H9 H10 H11 H12 H13 H14]. pose proof (field_hf hf Hf) as Hhf.
  unfold p_insert. rewrite Hsend. destruct (ss_send_ok { snd0 with ss_encoder := ie; ss_buffer := ss_buffer snd0 ++ images h vs } v (proj2 Hsv)) as (ie' & -> & Hie'). cbn [res_bind].
  assert (Hx : entry_bytes hf <= s_cap s /\ (after_insert (s_cap s) (s_hist s) (s_dropped s) hf <= Z.to_nat limit)%nat) by (apply room_exact; [unfold zlen in *; lia|lia]). destruct Hx as [Hfit Hlow].
  destruct (et_insert (p_table p) (s_hist s) (s_dropped s) hf H1 Hhf Hz ltac:(rewrite I1; exact Hfit)) as (t' & -> & Hr' & Hset & _ & Ht). cbn [res_bind]. rewrite I1 in Hr', Ht. apply settings_eq in Hset as [Hs1 Hs2].
  eexists _, (spec_op s (OpInsert hf)). split; [reflexivity|]. cbn [spec_op s_dropped s_hist]. split; [lia|]. split; [reflexivity|]. split; [reflexivity|].
  assert (Hmono : forall i e, s_hist s !! i = Some e -> (s_hist s ++ [hf]) !! i = Some e) by (intros i e He; by apply lookup_app_l_Some).
  assert (Hnew : (s_hist s ++ [hf]) !! Z.to_nat (zlen (s_hist s)) = Some hf) by (unfold zlen; rewrite Nat2Z.id; rewrite lookup_app_r, Nat.sub_diag by lia; done).
  split; cbn [s_hist s_dropped s_cap s_max].
  - exact Hr'.
  - split; [exact (eq_trans Hs1 I1)|exact (eq_trans Hs2 I2)|exact Ht].
  - exists ie'. split; [rewrite Hie'; exact Hie|]. rewrite images_snoc, app_assoc. change (ie_huffman (ss_encoder { snd0 with ss_encoder := ie; ss_buffer := ss_buffer snd0 ++ images h vs })) with (ie_huffman ie). rewrite Hie. reflexivity.
  - apply Forall_app. split; [exact H4|]. apply Forall_cons_2; [exact Hsv|apply Forall_nil_2].
  - eapply stream_snoc; [exact H5|]. exists (OpInsert hf). split; [exact Hop|]. split; [split; [exact Hhf|split; [exact Hfit|exact Hz]]|]. split; [exact I|]. split; [reflexivity|]. split; [|exact Hv99]. destruct Hsv as [_ [Hv1 _ _ _ _ _]]. unfold is_u64 in Hv1. lia.
  - apply is_insert; [exact H6|pose proof (zlen_nonneg (s_hist s)); lia].
  - change (Z.of_nat (after_insert (s_cap s) (s_hist s) (s_dropped s) hf) <= p_small p <= small0). lia.
  - intros j Hj. change (p_small p <= j < zlen (s_hist s ++ [hf])). rewrite zlen_app. change (zlen [hf]) with 1. apply elem_of_app in Hj as [Hj|Hj]; [specialize (H8 j Hj); lia|apply list_elem_of_singleton in Hj; lia].
  - intros Hf'. congruence.
  - apply Forall2_app.
    + eapply Forall2_impl; [|exact H10]. intros x y. apply denotes_mono; [exact Hmono|]. intros j Hj. apply elem_of_app. by left.
    + apply Forall2_cons; [|apply Forall2_nil]. split; [exact Hnew|]. split; [split; [apply (bool_decide_unpack _); vm_compute; exact I|apply values_indexed; unfold is_u64; pose proof (zlen_nonneg (s_hist s)); lia]|]. split; [intros _; apply elem_of_app; right; by apply list_elem_of_singleton|discriminate].
  - by apply prefix_app_r.
  - intros Hf'. congruence.
  - exact H13.
  - intros j Hj. change (exists w, w ∈ p_reps p ++ [VIndexedHeaderField false (zlen (s_hist s))] /\ is_relative w = true /\ w_varint w = j). apply elem_of_app in Hj as [Hj|Hj].
    + destruct (H14 j Hj) as (w & Hw & Hw'). exists w. split; [apply elem_of_app; by left|exact Hw'].
    + apply list_elem_of_singleton in Hj. subst j. eexists. split; [apply elem_of_app; right; by apply list_elem_of_singleton|done].
Qed.

Lemma inv_inserted p fs vs refs s : pass_inv p fs vs refs s -> InsertedEntryCount (et_base (p_table p)) = zlen (s_hist s).
Proof. intros H. exact (inserted_count _ _ _ (er_base _ _ _ (pi_table _ _ _ _ _ H))). Qed.
Lemma may_insert_spec p fs vs refs s hf limit : pass_inv p fs vs refs s -> field_ok hf -> Z.of_nat (s_dropped s) <= limit <= zlen (s_hist s) ->
  exists b, may_insert allowed canWrite p (Name hf) (Value hf) limit = Ok b
    /\ (b = true -> allowed = true /\ canWrite = true /\ entry_bytes hf <= s_cap s - total (drop (Z.to_nat limit) (s_hist s))).
Proof.
  intros Hp Hf Hl. unfold may_insert. destruct allowed; [|by exists false]. pose proof (pi_impl _ _ _ _ _ Hp) as [I1 I2 I3]. rewrite (max_insert_eq (p_table p) _ _ limit (pi_table _ _ _ _ _ Hp)) by (rewrite ?I1; (exact I3 || lia)). cbn [res_bind].
  rewrite I1. replace (limit <? Z.of_nat (s_dropped s)) with false by lia. replace (limit >? zlen (s_hist s)) with false by lia. destruct (entry_bytes_ok hf (field_hf hf Hf)) as [He _]. rewrite <- entry_size_of, He. eexists. split; [reflexivity|]. intros Hb. bool_simpl. split; [done|]. split; [done|lia].
Qed.
(** The step for the field [hf]: the result and what it extends. *)
Definition step_ok (fs : list HeaderField) (s : table_spec) (hf : HeaderField) (r : run pass) : Prop :=
  exists p' vs' refs' s', r = Ok p' /\ pass_inv p' (fs ++ [hf]) vs' refs' s' /\ zlen (s_hist s') <= zlen (s_hist s) + 1.
Lemma step_same fs vs s hf p' refs' : pass_inv p' (fs ++ [hf]) vs refs' s -> step_ok fs s hf (Ok p').
Proof. intros H. exists p', vs, refs', s. split; [done|]. split; [done|]. lia. Qed.
Lemma literal_pass p fs vs refs s hf : pass_inv p fs vs refs s -> field_ok hf -> step_ok fs s hf (Ok (EncodeLiteralHeaderField (Name hf) (Value hf) p)).
Proof.
  intros Hp [Hn Hv]. eapply (step_same fs vs). apply pass_rep; [exact Hp|]. split; [by destruct hf|]. split; [split; [apply (bool_decide_unpack _); vm_compute; exact I|by apply values_literal]|]. split; [discriminate|discriminate].
Qed.
(** Inserting, then lowering the barrier to [low]. *)
Lemma insert_step p fs vs refs s v hf limit : pass_inv p fs vs refs s -> field_ok hf -> zlen (s_hist s) + 1 < 2 ^ 62 -> Z.of_nat (s_dropped s) <= limit <= p_small p ->
  sendable langEncoderStream v -> stream_op s v = Some (OpInsert hf) -> w_varint v < 2 ^ 62 -> (w_sBit v = true -> w_varint v < 99) ->
  allowed = true /\ canWrite = true /\ entry_bytes hf <= s_cap s - total (drop (Z.to_nat limit) (s_hist s)) ->
  exists p1, p_insert p v (Name hf) (Value hf) = Ok (p1, zlen (s_hist s)) /\ forall low, limit <= low -> step_ok fs s hf (Ok (p_lower p1 low)) /\ step_ok fs s hf (Ok (p_referenced (p_lower p1 low))).
Proof.
  intros Hp Hf Hz Hl Hsv Hop H62 H99 (Ha & Hc & Hroom). destruct (pass_insert p fs vs refs s v hf limit Hp Hf Hz Ha Hc Hl Hroom Hsv Hop H62 H99) as (p1 & s' & E & Hd & Hsm & Hh & Hp1). exists p1. split; [exact E|]. intros low Hlow.
  assert (Hp2 : pass_inv (p_lower p1 low) (fs ++ [hf]) (vs ++ [v]) (refs ++ [zlen (s_hist s)]) s') by (apply pass_lower; [exact Hp1|lia]). assert (Hz' : zlen (s_hist s') <= zlen (s_hist s) + 1) by (rewrite Hh, zlen_app; change (zlen [hf]) with 1; lia).
  split; eexists _, _, _, _; (split; [reflexivity|]); (split; [|exact Hz']); [exact Hp2|by apply pass_referenced].
Qed.
Lemma static_name_step p fs vs refs s hf i e : pass_inv p fs vs refs s -> field_ok hf -> zlen (s_hist s) + 1 < 2 ^ 62 -> staticTable !! Z.to_nat i = Some e -> Name e = Name hf -> 0 <= i < 99 ->
  step_ok fs s hf (static_name_case allowed canWrite p i (Name hf) (Value hf)).
Proof.
  intros Hp Hf Hz He Hn Hi. pose proof (live_small _ _ _ _ _ Hp) as Hls. pose proof (pi_small _ _ _ _ _ Hp) as Hsm. destruct (may_insert_spec p fs vs refs s hf (p_small p) Hp Hf ltac:(lia)) as (b & Eb & Hb). unfold static_name_case. rewrite Eb. cbn [res_bind].
  assert (Hfield : mkHF (Name e) (Value hf) = hf) by (rewrite Hn; by destruct hf). assert (Hu : is_u64 i) by (unfold is_u64; lia). destruct (values_name_ref true i (Value hf) Hu (proj2 Hf)) as [Hv1 Hv2]. destruct b.
  - destruct (insert_step p fs vs refs s (VInsertWithNameReference true i (Value hf)) hf (p_small p) Hp Hf Hz ltac:(lia)) as (p1 & -> & Hstep).
    + split; [apply (bool_decide_unpack _); vm_compute; exact I|exact Hv1].
    + unfold stream_op. cbn [w_instruction w_sBit w_varint w_value VInsertWithNameReference]. rewrite He. by rewrite Hfield.
    + cbn; lia.
    + cbn; lia.
    + exact (Hb eq_refl).
    + cbn [res_bind fst snd]. apply Hstep. lia.
  - eapply (step_same fs vs). apply pass_rep; [exact Hp|]. split; [unfold rep_field; cbn [w_instruction w_sBit w_varint w_value VLiteralHeaderFieldNameReference]; rewrite He; by rewrite Hfield|]. split; [split; [apply (bool_decide_unpack _); vm_compute; exact I|exact Hv2]|]. split; [discriminate|cbn; lia].
Qed.
Lemma relative_ok p fs vs refs s i : pass_inv p fs vs refs s -> 0 <= i < zlen (s_hist s) -> relative p i = Ok (zlen (s_hist s) - i - 1).
Proof.
  intros Hp Hi. pose proof (live_small _ _ _ _ _ Hp) as Hls. unfold relative, AbsoluteIndexToEncoderStreamRelativeIndex. rewrite (inv_inserted _ _ _ _ _ Hp). replace (i >=? zlen (s_hist s)) with false by lia. by rewrite u64_small by (unfold is_u64; lia).
Qed.
Lemma live_rel s i e : Z.of_nat (s_dropped s) <= i -> s_hist s !! Z.to_nat i = Some e -> live s (zlen (s_hist s) - (zlen (s_hist s) - i - 1) - 1) = Some e.
Proof. intros Hi He. replace (zlen (s_hist s) - (zlen (s_hist s) - i - 1) - 1) with i by lia. unfold live. by replace (Z.of_nat (s_dropped s) <=? i) with true by lia. Qed.
Lemma dynamic_name_step p fs vs refs s hf i e : pass_inv p fs vs refs s -> field_ok hf -> zlen (s_hist s) + 1 < 2 ^ 62 -> Z.of_nat (s_dropped s) <= i < zlen (s_hist s) -> s_hist s !! Z.to_nat i = Some e -> Name e = Name hf ->
  step_ok fs s hf (dynamic_name_case K drainingIndex allowed canWrite p i (Name hf) (Value hf)).
Proof.
  intros Hp Hf Hz Hi He Hn. pose proof (live_small _ _ _ _ _ Hp) as Hls. pose proof (pi_small _ _ _ _ _ Hp) as Hsm. destruct (may_insert_spec p fs vs refs s hf (Z.min i (p_small p)) Hp Hf ltac:(lia)) as (b & Eb & Hb). unfold dynamic_name_case. rewrite Eb. cbn [res_bind].
  assert (Hfield : mkHF (Name e) (Value hf) = hf) by (rewrite Hn; by destruct hf). destruct b.
  - rewrite (relative_ok p fs vs refs s i Hp ltac:(lia)). cbn [res_bind]. set (rel := zlen (s_hist s) - i - 1).
    destruct (insert_step p fs vs refs s (VInsertWithNameReference false rel (Value hf)) hf (Z.min i (p_small p)) Hp Hf Hz ltac:(lia)) as (p1 & -> & Hstep).
    + split; [apply (bool_decide_unpack _); vm_compute; exact I|]. apply values_name_ref; [unfold is_u64, rel; lia|apply Hf].
    + unfold stream_op. cbn [w_instruction w_sBit w_varint w_value VInsertWithNameReference]. unfold rel. rewrite (live_rel s i e) by (done || lia). by rewrite Hfield.
    + cbn [w_varint VInsertWithNameReference]. unfold rel. lia.
    + discriminate.
    + exact (Hb eq_refl).
    + cbn [res_bind fst snd]. apply Hstep. lia.
  - destruct ((allowed || (i <? K)) && (i >=? drainingIndex)) eqn:E; [|by apply literal_pass with vs refs]. apply andb_true_iff in E as [E _]. eapply (step_same fs vs). apply pass_referenced. apply (pass_ref p fs vs refs s _ hf i); [exact Hp|exact Hi| | |reflexivity|reflexivity].
    + intros Ha. rewrite Ha in E. cbn [orb] in E. lia.
    + split; [unfold rep_field; cbn [w_instruction w_sBit w_varint w_value VLiteralHeaderFieldNameReference]; rewrite He; by rewrite Hfield|]. split; [split; [apply (bool_decide_unpack _); vm_compute; exact I|apply values_name_ref; [unfold is_u64; lia|apply Hf]]|]. split; [intros _; apply elem_of_app; right; by apply list_elem_of_singleton|discriminate].
Qed.
Lemma no_match_step p fs vs refs s hf : pass_inv p fs vs refs s -> field_ok hf -> zlen (s_hist s) + 1 < 2 ^ 62 -> step_ok fs s hf (no_match_case allowed canWrite p (Name hf) (Value hf)).
Proof.
  intros Hp Hf Hz. pose proof (live_small _ _ _ _ _ Hp) as Hls. pose proof (pi_small _ _ _ _ _ Hp) as Hsm. destruct (may_insert_spec p fs vs refs s hf (p_small p) Hp Hf ltac:(lia)) as (b & Eb & Hb). unfold no_match_case. rewrite Eb. cbn [res_bind]. destruct b; [|by apply literal_pass with vs refs].
  destruct (insert_step p fs vs refs s (VInsertWithoutNameReference (Name hf) (Value hf)) hf (p_small p) Hp Hf Hz ltac:(lia)) as (p1 & -> & Hstep).
  - split; [apply (bool_decide_unpack _); vm_compute; exact I|]. apply values_literal; apply Hf.
  - by destruct hf.
  - cbn; lia.
  - discriminate.
  - exact (Hb eq_refl).
  - cbn [res_bind fst snd]. apply Hstep. lia.
Qed.
Lemma exact_step p fs vs refs s hf i : pass_inv p fs vs refs s -> field_ok hf -> zlen (s_hist s) + 1 < 2 ^ 62 -> Z.of_nat (s_dropped s) <= i < zlen (s_hist s) -> s_hist s !! Z.to_nat i = Some hf ->
  exact_case K drainingIndex allowed canWrite p i (Name hf) (Value hf) = Ok None \/ exists p', exact_case K drainingIndex allowed canWrite p i (Name hf) (Value hf) = Ok (Some p') /\ step_ok fs s hf (Ok p').
Proof.
  intros Hp Hf Hz Hi He. pose proof (live_small _ _ _ _ _ Hp) as Hls. pose proof (pi_small _ _ _ _ _ Hp) as Hsm. unfold exact_case. destruct (i >=? drainingIndex).
  - destruct (negb allowed && (i >=? K)) eqn:E; [by left|right]. eexists. split; [reflexivity|]. eapply (step_same fs vs). apply pass_referenced. apply (pass_ref p fs vs refs s _ hf i); [exact Hp|exact Hi| | |reflexivity|reflexivity].
    + intros Ha. rewrite Ha in E. cbn [negb andb] in E. lia.
    + split; [exact He|]. split; [split; [apply (bool_decide_unpack _); vm_compute; exact I|apply values_indexed; unfold is_u64; lia]|]. split; [intros _; apply elem_of_app; right; by apply list_elem_of_singleton|discriminate].
  - destruct (may_insert_spec p fs vs refs s hf (Z.min i (p_small p)) Hp Hf ltac:(lia)) as (b & Eb & Hb). rewrite Eb. cbn [res_bind]. destruct b; [|by left]. right. rewrite (relative_ok p fs vs refs s i Hp ltac:(lia)). cbn [res_bind]. set (rel := zlen (s_hist s) - i - 1).
    destruct (insert_step p fs vs refs s (VDuplicate rel) hf (Z.min i (p_small p)) Hp Hf Hz ltac:(lia)) as (p1 & -> & Hstep).
    + split; [apply (bool_decide_unpack _); vm_compute; exact I|]. apply values_int; [by left|unfold is_u64, rel; lia].
    + unfold stream_op. cbn [w_instruction w_varint VDuplicate]. unfold rel. by rewrite (live_rel s i hf) by (done || lia).
    + cbn [w_varint VDuplicate]. unfold rel. lia.
    + discriminate.
    + exact (Hb eq_refl).
    + cbn [res_bind fst snd]. eexists. split; [reflexivity|]. apply Hstep. lia.
Qed.
Lemma newest_live {X} (key : Entry -> X) s k i : newest key (s_hist s) (s_dropped s) k i -> exists e, s_hist s !! Z.to_nat (Z.of_nat i) = Some e /\ key e = k /\ Z.of_nat (s_dropped s) <= Z.of_nat i < zlen (s_hist s).
Proof. intros (H1 & (e & He & Hk) & _). exists e. rewrite Nat2Z.id. split; [done|]. split; [done|]. apply lookup_lt_Some in He. unfold zlen. lia. Qed.
Lemma name_step p fs vs refs s hf m : pass_inv p fs vs refs s -> field_ok hf -> zlen (s_hist s) + 1 < 2 ^ 62 -> M_Match m = MatchTypeName -> match_ok (p_table p) (s_hist s) (s_dropped s) (Name hf) (Value hf) m ->
  step_ok fs s hf (name_case K drainingIndex allowed canWrite p m (Name hf) (Value hf)).
Proof.
  intros Hp Hf Hz Hm Hok. unfold match_ok in Hok. rewrite Hm in Hok. unfold name_case. destruct (M_IsStatic m).
  - destruct Hok as (e & He & Hn & Hi). by eapply static_name_step.
  - destruct Hok as (i & -> & Hi). destruct (newest_live _ _ _ _ Hi) as (e & He & Hn & Hr). by eapply dynamic_name_step.
Qed.
Lemma field_step p fs vs refs s hf : pass_inv p fs vs refs s -> field_ok hf -> zlen (s_hist s) + 1 < 2 ^ 62 -> step_ok fs s hf (pass_field K drainingIndex allowed canWrite p hf).
Proof.
  intros Hp Hf Hz. pose proof (pi_table _ _ _ _ _ Hp) as Ht. unfold pass_field. pose proof (find_field (p_table p) _ _ (Name hf) (Value hf) Ht) as Hok. set (m := FindHeaderField (p_table p) (Name hf) (Value hf)) in *. destruct (M_Match m) eqn:Em.
  - exact (no_match_step p fs vs refs s hf Hp Hf Hz).
  - exact (name_step p fs vs refs s hf m Hp Hf Hz Em Hok).
  - unfold match_ok in Hok. rewrite Em in Hok. destruct (M_IsStatic m) eqn:Est.
    + destruct Hok as [He Hi]. eapply (step_same fs vs). apply pass_rep; [exact Hp|]. split; [unfold rep_field; cbn [w_instruction w_sBit w_varint VIndexedHeaderField]; rewrite He; destruct hf; reflexivity|]. split; [split; [apply (bool_decide_unpack _); vm_compute; exact I|apply values_indexed; unfold is_u64; lia]|]. split; [discriminate|cbn [w_varint VIndexedHeaderField]; lia].
    + destruct Hok as (i & Ei & Hi). destruct (newest_live _ _ _ _ Hi) as (e & He & Hk & Hr). assert (e = hf) as -> by (rewrite Hk; by destruct hf). rewrite Ei.
      destruct (exact_step p fs vs refs s hf (Z.of_nat i) Hp Hf Hz Hr He) as [-> |(p' & -> & Hstep)]; cbn [res_bind]; [|exact Hstep].
      destruct (find_name (p_table p) _ _ (Name hf) (Value hf) Ht) as [Hok' Hne]. revert Hok' Hne. generalize (FindHeaderName (p_table p) (Name hf)). intros m' Hok' Hne. destruct (M_Match m') eqn:Em'; [exact (literal_pass p fs vs refs s hf Hp Hf)| |contradiction].
      destruct (_ && _); [exact (literal_pass p fs vs refs s hf Hp Hf)|]. exact (name_step p fs vs refs s hf m' Hp Hf Hz Em' Hok').
Qed.
Lemma fields_step fs' : forall p fs vs refs s, pass_inv p fs vs refs s -> Forall field_ok fs' -> zlen (s_hist s) + zlen fs' < 2 ^ 62 ->
  exists p' vs' refs' s', pass_fields K drainingIndex allowed canWrite p fs' = Ok p' /\ pass_inv p' (fs ++ fs') vs' refs' s' /\ zlen (s_hist s') <= zlen (s_hist s) + zlen fs'.
Proof.
  induction fs' as [|hf fs' IH]; intros p fs vs refs s Hp Hfs Hz; cbn [pass_fields].
  - exists p, vs, refs, s. rewrite app_nil_r, zlen_nil. split; [done|]. split; [done|lia].
  - apply Forall_cons_1 in Hfs as [Hf Hfs]. rewrite zlen_cons in *. pose proof (zlen_nonneg fs'). destruct (field_step p fs vs refs s hf Hp Hf ltac:(lia)) as (p1 & vs1 & refs1 & s1 & -> & Hp1 & Hz1). cbn [res_bind].
    destruct (IH p1 (fs ++ [hf]) vs1 refs1 s1 Hp1 Hfs ltac:(lia)) as (p' & vs' & refs' & s' & -> & Hp' & Hz'). exists p', vs', refs', s'. rewrite <- app_assoc in Hp'. split; [done|]. split; [exact Hp'|lia].
Qed.
End pass_inv.

(** ** The second pass *)
(** The representation on the wire of one that denotes [hf]. *)
Definition wire_denotes (hist : list Entry) (refs : list Z) (v' : InstructionWithValues) (hf : HeaderField) : Prop :=
  exists v, rep_denotes hist refs v hf /\ second_rep (ric refs) v = Ok v' /\ sendable langRequestStream v'.
Lemma ric_range refs : Forall (fun i => 0 <= i < 2 ^ 62) refs -> 0 <= ric refs <= 2 ^ 62 /\ forall i, i ∈ refs -> 0 <= i < ric refs.
Proof.
  intros Hr. destruct refs as [|x refs]; [unfold ric; cbn; split; [lia|]; intros i Hi; by apply not_elem_of_nil in Hi|]. assert (Hok : refs_ok (x :: refs)) by done. destruct (lmax_in _ Hok) as (_ & H1 & H2). unfold ric. split; [lia|]. intros i Hi. specialize (H2 i Hi). rewrite Forall_forall in Hr. specialize (Hr i (proj1 (list_elem_of_In _ _) Hi)). cbn beta in Hr. lia.
Qed.
Lemma second_rep_ok hist refs v hf : Forall (fun i => 0 <= i < 2 ^ 62) refs -> rep_denotes hist refs v hf -> exists v', second_rep (ric refs) v = Ok v' /\ wire_denotes hist refs v' hf.
Proof.
  intros Hr Hd. destruct (ric_range refs Hr) as [Hric Hin]. pose proof Hd as (H1 & [H2 Hv] & H3 & H4). destruct (is_relative v) eqn:E.
  - specialize (Hin _ (H3 eq_refl)). assert (Es : second_rep (ric refs) v = Ok (SetVarint v (ric refs - w_varint v - 1))).
    { unfold second_rep. rewrite E. unfold AbsoluteIndexToRequestStreamRelativeIndex. replace (w_varint v >=? ric refs) with false by lia. cbn [res_bind]. by rewrite u64_small by (unfold is_u64; lia). }
    eexists. split; [exact Es|]. exists v. split; [exact Hd|]. split; [exact Es|]. split; [exact H2|]. destruct Hv as [V1 V2 V3 V4 V5 V6]. split; try assumption; [change (is_u64 (ric refs - w_varint v - 1)); unfold is_u64; lia|].
    destruct V6 as [_ V6]. split; [|exact V6]. intros Hh. exfalso. change (has FieldVarint (w_instruction v) = false) in Hh. unfold is_relative in E. destruct (w_instruction v); try discriminate; cbn in Hh; discriminate.
  - exists v. assert (Es : second_rep (ric refs) v = Ok v) by (unfold second_rep; by rewrite E). split; [exact Es|]. exists v. split; [exact Hd|]. split; [exact Es|done].
Qed.
Lemma second_rel refs v v' : Forall (fun i => 0 <= i < 2 ^ 62) refs -> w_varint v ∈ refs -> is_relative v = true -> second_rep (ric refs) v = Ok v' -> is_relative v' = true /\ ric refs - w_varint v' - 1 = w_varint v.
Proof.
  intros Hr Hi Hrel Hs. destruct (ric_range refs Hr) as [Hric Hin]. specialize (Hin _ Hi). unfold second_rep, AbsoluteIndexToRequestStreamRelativeIndex in Hs. rewrite Hrel in Hs. replace (w_varint v >=? ric refs) with false in Hs by lia. cbn [res_bind] in Hs. rewrite u64_small in Hs by (unfold is_u64; lia). injection Hs as <-.
  split; [exact Hrel|]. change (ric refs - (ric refs - w_varint v - 1) - 1 = w_varint v). lia.
Qed.
Lemma second_loop_ok hist refs reps fs : Forall (fun i => 0 <= i < 2 ^ 62) refs -> Forall2 (rep_denotes hist refs) reps fs -> forall ie out,
  exists reps', second_loop ie (ric refs) reps out = Ok (out ++ images (ie_huffman ie) reps') /\ Forall2 (wire_denotes hist refs) reps' fs
    /\ Forall2 (fun v v' => second_rep (ric refs) v = Ok v') reps reps'.
Proof.
  intros Hr. induction 1 as [|v hf reps fs Hv _ IH]; intros ie out; cbn [second_loop].
  - exists []. rewrite app_nil_r. split; [done|split; apply Forall2_nil].
  - destruct (second_rep_ok hist refs v hf Hr Hv) as (v' & Ev & Hw). rewrite Ev. cbn [res_bind]. pose proof Hw as (_ & _ & _ & [_ Hv']). destruct (EncodeTo_image ie v' out Hv') as (ie' & -> & Hh). cbn [res_bind fst snd]. destruct (IH ie' (out ++ image (ie_huffman ie) v')) as (reps' & -> & Hf & Hs). exists (v' :: reps'). rewrite Hh, <- app_assoc. split; [done|]. split; by apply Forall2_cons.
Qed.

(** ** The invariant of the encoder *)
Record enc_inv (e : Encoder) (s : table_spec) (sp : block_spec) (n : Z) : Prop := {
  ei_table : et_rep (e_table e) (s_hist s) (s_dropped s);
  ei_impl : implements (et_base (e_table e)) s;
  ei_blocks : bm_rep (e_bm e) sp n;
  ei_refs : forall st l i, l ∈ bs_out sp st -> i ∈ l -> Z.of_nat (s_dropped s) <= i < zlen (s_hist s);
  ei_known : Z.of_nat (s_dropped s) <= bs_known sp <= zlen (s_hist s);
  ei_limit : NumBlockedStreams (e_bm e) <= e_maximumBlockedStreams e;
  ei_huffman : ie_huffman (ss_encoder (e_sender e)) = e_huffmanEncoding e
}.
(** A table never has more entries than [maxEntries]. *)
Lemma live_count b s : base_rep b (s_hist s) (s_dropped s) -> implements b s -> zlen (s_hist s) - Z.of_nat (s_dropped s) <= tb_maxEntries b <= 2 ^ 59 /\ 0 <= s_max s < 2 ^ 64 /\ tb_maxEntries b = s_max s / 32.
Proof.
  intros Hb [I1 I2 I3]. pose proof (br_cap _ _ _ Hb) as Hc. pose proof (br_max _ _ _ Hb) as Hm. rewrite (br_maxEntries _ _ _ Hb). rewrite I1, I2 in *. pose proof (sizes_length (drop (s_dropped s) (s_hist s))) as Ht. pose proof (br_le _ _ _ Hb). unfold zlen in *. rewrite length_drop in Ht. split; [split; [apply Z.div_le_lower_bound; lia|lia]|]. split; [lia|reflexivity].
Qed.
Lemma encode_ric b s refs : base_rep b (s_hist s) (s_dropped s) -> implements b s -> Forall (fun i => 0 <= i < 2 ^ 62) refs -> (forall i, i ∈ refs -> Z.of_nat (s_dropped s) <= i < zlen (s_hist s)) ->
  EncodeRequiredInsertCount (E := Empty_set) (ric refs) (tb_maxEntries b) = Ok (if bool_decide (refs = []) then 0 else ric refs mod (2 * tb_maxEntries b) + 1).
Proof.
  intros Hb Hi Hr Hlive. destruct (live_count b s Hb Hi) as [Hn _]. unfold EncodeRequiredInsertCount. destruct refs as [|x refs]; [done|]. assert (Hx : x ∈ x :: refs) by left. destruct (ric_range _ Hr) as [Hric Hin]. specialize (Hin x Hx). specialize (Hlive x Hx).
  replace (ric (x :: refs) =? 0) with false by lia. rewrite (u64_small (2 * _)) by (unfold is_u64; lia). replace (2 * tb_maxEntries b =? 0) with false by lia. rewrite bool_decide_eq_false_2 by done. pose proof (Z.mod_pos_bound (ric (x :: refs)) (2 * tb_maxEntries b) ltac:(lia)). by rewrite u64_small by (unfold is_u64; lia).
Qed.
Lemma sent_blocked m st l : refs_ok l -> bm_blockedStreams (OnHeaderBlockSent m st l) = if ric l >? bm_knownReceivedCount m then {[st]} ∪ bm_blockedStreams m else bm_blockedStreams m.
Proof.
  intros Hl. unfold OnHeaderBlockSent. rewrite header_data by done. cbn [hd_hasMinIndex hd_minIndex hd_requiredInsertCount]. set (m1 := { m with bm_streamMap := _ }). destruct (add_same m1 (lmin l)) as (_ & S2 & S3 & _). match goal with |- context [ric l >? ?y] => change y with (bm_knownReceivedCount (addMinIndex m1 (lmin l))) end. rewrite S3. change (bm_knownReceivedCount m1) with (bm_knownReceivedCount m).
  destruct (ric l >? bm_knownReceivedCount m); [|exact S2]. change ({[st]} ∪ bm_blockedStreams (addMinIndex m1 (lmin l)) = {[st]} ∪ bm_blockedStreams m). by rewrite S2.
Qed.
(** A block that may block keeps the number of blocked streams within the limit. *)
Lemma sent_limit m st l mx : refs_ok l -> NumBlockedStreams m <= mx -> (BlockingAllowedOnStream m st [mx] = false -> ric l <= bm_knownReceivedCount m) -> NumBlockedStreams (OnHeaderBlockSent m st l) <= mx.
Proof.
  intros Hl Hn Ha. unfold NumBlockedStreams. rewrite sent_blocked by done. fold (NumBlockedStreams m) in *. destruct (ric l >? bm_knownReceivedCount m) eqn:E; bool_simpl; [|exact Hn]. unfold BlockingAllowedOnStream, IsBlocked in Ha. destruct (decide (st ∈ bm_blockedStreams m)) as [Hin|Hin].
  - replace ({[st]} ∪ bm_blockedStreams m) with (bm_blockedStreams m); [exact Hn|]. apply set_eq. intros x. rewrite elem_of_union, elem_of_singleton. split; [by right|]. by intros [-> |?].
  - rewrite bool_decide_eq_false_2 in Ha by done. destruct (NumBlockedStreams m <? mx) eqn:E2; bool_simpl; [|specialize (Ha eq_refl); lia]. rewrite size_union by (apply disjoint_singleton_l; exact Hin). rewrite size_singleton. unfold NumBlockedStreams in *. lia.
Qed.

(** ** A header block *)
Definition prefix_of_block (mx : Z) (refs : list Z) : Z := if bool_decide (refs = []) then 0 else ric refs mod (2 * (mx / 32)) + 1.
Definition sent_spec (sp : block_spec) (st : Z) (refs : list Z) : block_spec := if bool_decide (refs = []) then sp else fst (spec_event sp (Sent st refs)).
Record encoded (e : Encoder) (s : table_spec) (fs : list HeaderField) (e' : Encoder) (block : bytes)
    (vs : list InstructionWithValues) (refs : list Z) (s' : table_spec) (reps : list InstructionWithValues) : Prop := {
  en_run : stream_run s vs s';
  en_vs : Forall (sendable langEncoderStream) vs;
  en_sent : ss_written (e_sender e') ++ ss_buffer (e_sender e') = ss_written (e_sender e) ++ ss_buffer (e_sender e) ++ images (e_huffmanEncoding e) vs;
  en_block : block = images (e_huffmanEncoding e) (VPrefix (prefix_of_block (s_max s') refs) :: reps);
  en_reps : Forall2 (wire_denotes (s_hist s') refs) reps fs;
  en_refs : Forall (fun i => 0 <= i < 2 ^ 62) refs;
  en_live : forall i, i ∈ refs -> Z.of_nat (s_dropped s') <= i < zlen (s_hist s');
  en_count : zlen (s_hist s') <= zlen (s_hist s) + zlen fs;
  en_hist : s_hist s `prefix_of` s_hist s';
  en_used : forall i, i ∈ refs -> exists v, v ∈ reps /\ is_relative v = true /\ ric refs - w_varint v - 1 = i
}.
Lemma small_ok e s sp n : enc_inv e s sp n -> Z.of_nat (s_dropped s) <= Z.min (bm_knownReceivedCount (e_bm e)) (bm_smallestBlockingIndex (e_bm e)) <= bs_known sp.
Proof.
  intros H. destruct (ei_known _ _ _ _ H) as [H1 H2]. rewrite (proj1 (bl_known _ _ _ (ei_blocks _ _ _ _ H))). destruct (smallest_spec _ _ _ (ei_blocks _ _ _ _ H)) as [_ [[-> _]|(st & l & Hl & Hi)]].
  - pose proof (br_count _ _ _ (er_base _ _ _ (ei_table _ _ _ _ H))). unfold MaxUint64. lia.
  - pose proof (ei_refs _ _ _ _ H st l _ Hl Hi). lia.
Qed.
Lemma encode_first e s sp n st l nb : enc_inv e s sp n -> Forall field_ok (flatten (e_cookieCrumbling e) l) -> zlen (s_hist s) + zlen (flatten (e_cookieCrumbling e) l) < 2 ^ 62 ->
  exists p vs refs s', let K := bm_knownReceivedCount (e_bm e) in let small := Z.min K (bm_smallestBlockingIndex (e_bm e)) in let cw := CanWrite (e_sender e) nb in
    firstPassEncode e st l nb = Ok ({ e with e_sender := if cw then Flush (p_sender p) else p_sender p; e_table := p_table p; e_headerListCount := e_headerListCount e + 1 }, p_reps p, p_refs p, u64 (BufferedByteCount (p_sender p) - BufferedByteCount (e_sender e)))
    /\ pass_inv s (e_sender e) K small (BlockingAllowedOnStream (e_bm e) st [e_maximumBlockedStreams e]) cw p (flatten (e_cookieCrumbling e) l) vs refs s' /\ zlen (s_hist s') <= zlen (s_hist s) + zlen (flatten (e_cookieCrumbling e) l).
Proof.
  intros H Hf Hz. pose proof (small_ok _ _ _ _ H) as Hsm. destruct (draining_bounds (e_table e) _ _ DrainingFraction (ei_table _ _ _ _ H)) as (dr & Edr & _). pose proof (bl_known _ _ _ (ei_blocks _ _ _ _ H)) as [Hk Hkr]. destruct (ei_known _ _ _ _ H) as [Hk1 Hk2].
  set (K := bm_knownReceivedCount (e_bm e)) in *. set (small := Z.min K (bm_smallestBlockingIndex (e_bm e))) in *.
  destruct (fields_step s (e_sender e) K small (BlockingAllowedOnStream (e_bm e) st [e_maximumBlockedStreams e]) (CanWrite (e_sender e) nb) dr ltac:(lia) ltac:(lia) (flatten (e_cookieCrumbling e) l)
    (mkPass (e_sender e) (SetSmallestAllowedIndex (e_table e) small) small NewIndexSet []) [] [] [] s) as (p & vs & refs & s' & Ep & Hp & Hz'); [|exact Hf|exact Hz|].
  - destruct H as [[B E2 E3] I _ _ _ _ _]. split; try done; try (apply Forall_nil_2).
    + exists (ss_encoder (e_sender e)). split; [reflexivity|]. change (images _ []) with (@nil Z). rewrite app_nil_r. reflexivity.
    + cbn [p_small]. lia.
    + intros i Hi. by apply not_elem_of_nil in Hi.
    + intros _ i Hi. by apply not_elem_of_nil in Hi.
    + intros i Hi. by apply not_elem_of_nil in Hi.
  - exists p, vs, refs, s'. cbv zeta. split; [|done]. unfold firstPassEncode. rewrite Edr. cbn [res_bind]. fold K. fold small. rewrite Ep. reflexivity.
Qed.
Lemma flush_all s : ss_written (Flush s) ++ ss_buffer (Flush s) = if ss_delegate s || (zlen (ss_buffer s) =? 0) then ss_written s ++ ss_buffer s else ss_written s.
Proof.
  unfold Flush. destruct (zlen (ss_buffer s) =? 0) eqn:E; [by rewrite orb_true_r|]. rewrite orb_false_r. match goal with |- context [if ?b then _ else _] => change b with (ss_delegate s) end. destruct (ss_delegate s); apply app_nil_r.
Qed.

Lemma encode_block e s sp n st l nb : enc_inv e s sp n -> n < 2 ^ 62 -> Forall field_ok (flatten (e_cookieCrumbling e) l) -> zlen (s_hist s) + zlen (flatten (e_cookieCrumbling e) l) < 2 ^ 62 ->
  exists e' block sent vs refs s' reps, EncodeHeaderList e st l nb = Ok (e', block, sent) /\ encoded e s (flatten (e_cookieCrumbling e) l) e' block vs refs s' reps
    /\ enc_inv e' s' (sent_spec sp st refs) (n + 1) /\ s_max s' = s_max s /\ s_cap s' = s_cap s
    /\ e_huffmanEncoding e' = e_huffmanEncoding e /\ e_cookieCrumbling e' = e_cookieCrumbling e /\ e_maximumBlockedStreams e' = e_maximumBlockedStreams e /\ e_errors e' = e_errors e
    /\ e_receiver e' = e_receiver e /\ e_receiverError e' = e_receiverError e /\ (vs <> [] -> ss_buffer (e_sender e') = []) /\ ss_delegate (e_sender e') = ss_delegate (e_sender e) /\ ss_written (e_sender e) `prefix_of` ss_written (e_sender e').
Proof.
  intros H Hn Hf Hz. destruct (encode_first e s sp n st l nb H Hf Hz) as (p & vs & refs & s' & Efirst & Hp & Hz'). set (fs := flatten (e_cookieCrumbling e) l) in *.
  unfold EncodeHeaderList. rewrite Efirst. cbn [res_bind]. destruct (is_count _ _ (pi_refs _ _ _ _ _ _ _ _ _ _ _ Hp)) as (Hric & Hempty & Hidx). rewrite Hempty, Hidx, Hric.
  assert (Er : (if negb (bool_decide (refs = [])) then ric refs else 0) = ric refs) by (destruct refs; [reflexivity|by rewrite bool_decide_eq_false_2]). rewrite Er. clear Er.
  set (cw := CanWrite (e_sender e) nb) in *. set (e1 := { e with e_sender := if cw then Flush (p_sender p) else p_sender p; e_table := p_table p; e_headerListCount := e_headerListCount e + 1 }).
  set (e2 := if negb (bool_decide (refs = [])) then { e1 with e_bm := OnHeaderBlockSent (e_bm e1) st refs } else e1).
  assert (He2 : e_table e2 = p_table p /\ e_huffmanEncoding e2 = e_huffmanEncoding e /\ e_sender e2 = e_sender e1 /\ e_maximumBlockedStreams e2 = e_maximumBlockedStreams e /\ e_errors e2 = e_errors e /\ e_cookieCrumbling e2 = e_cookieCrumbling e /\ e_receiver e2 = e_receiver e /\ e_receiverError e2 = e_receiverError e) by (unfold e2; destruct (bool_decide (refs = [])); done).
  destruct He2 as (Et & Eh & Es & Em & Eerr & Ecc & Erc & Ere). destruct Hp as [P1 P2 (ie & Pie & Psend) P4 P5 P6 P7 P8 P9 P10 P11 P12 [P13 P14] P15]. pose proof (proj1 P6) as Hrefs.
  assert (Hlive : forall i, i ∈ refs -> Z.of_nat (s_dropped s') <= i < zlen (s_hist s')) by (intros i Hi; specialize (P8 i Hi); lia).
  unfold secondPassEncode. rewrite Et, (encode_ric _ s' refs (er_base _ _ _ P1) P2 Hrefs Hlive). cbn [res_bind]. destruct (live_count _ s' (er_base _ _ _ P1) P2) as (Hlc & Hmx & Hme). rewrite Hme in *. fold (prefix_of_block (s_max s') refs). rewrite Eh.
  assert (Hpv : values_ok (VPrefix (prefix_of_block (s_max s') refs))).
  { apply values_int; [by do 5 right|]. unfold prefix_of_block, is_u64. destruct (bool_decide (refs = [])) eqn:Eb; [lia|]. destruct refs as [|x refs']; [done|]. pose proof (Hlive x ltac:(left)). pose proof (Z.mod_pos_bound (ric (x :: refs')) (2 * (s_max s' / 32)) ltac:(lia)). lia. }
  destruct (EncodeTo_image (NewInstructionEncoder (e_huffmanEncoding e)) _ [] Hpv) as (ie2 & -> & Hie2). cbn [res_bind fst snd app]. destruct (second_loop_ok (s_hist s') refs (p_reps p) fs Hrefs P10 ie2 (image (e_huffmanEncoding e) (VPrefix (prefix_of_block (s_max s') refs)))) as (reps & E2 & Hreps & Hsec). change (ie_huffman (NewInstructionEncoder (e_huffmanEncoding e))) with (e_huffmanEncoding e) in *. rewrite E2. cbn [res_bind]. rewrite Hie2.
  assert (Hcw : cw = true -> ss_delegate (e_sender e) = true) by (unfold cw, CanWrite; intros Hc; by apply andb_true_iff in Hc as [Hc _]).
  assert (Hsnd : ss_written (e_sender e1) ++ ss_buffer (e_sender e1) = ss_written (e_sender e) ++ ss_buffer (e_sender e) ++ images (e_huffmanEncoding e) vs /\ ie_huffman (ss_encoder (e_sender e1)) = e_huffmanEncoding e /\ (vs <> [] -> ss_buffer (e_sender e1) = []) /\ ss_delegate (e_sender e1) = ss_delegate (e_sender e) /\ ss_written (e_sender e) `prefix_of` ss_written (e_sender e1)).
  { pose proof (ei_huffman _ _ _ _ H) as Hh. rewrite Hh in *. change (e_sender e1) with (if cw then Flush (p_sender p) else p_sender p). rewrite Psend. set (s1 := { (e_sender e) with ss_encoder := ie; ss_buffer := ss_buffer (e_sender e) ++ images (e_huffmanEncoding e) vs }). destruct cw.
    - rewrite flush_all. change (ss_delegate s1) with (ss_delegate (e_sender e)). rewrite (Hcw eq_refl). cbn [orb]. split; [reflexivity|]. unfold Flush. destruct (zlen (ss_buffer s1) =? 0) eqn:E0; bool_simpl; [split; [exact Pie|split; [intros _; by apply zlen_zero|split; [exact (Hcw eq_refl)|done]]]|]. match goal with |- context [if ?b then _ else _] => change b with (ss_delegate (e_sender e)) end. rewrite (Hcw eq_refl). split; [exact Pie|split; [reflexivity|split; [exact (Hcw eq_refl)|by apply prefix_app_r]]].
    - split; [reflexivity|]. split; [exact Pie|]. split; [|by split]. intros Hvs. by specialize (P12 eq_refl). }
  destruct Hsnd as (Hsnd & Hhuff & Hbuf & Hdel & Hpre). exists e2. eexists _, _, vs, refs, s', reps. split; [reflexivity|]. split; [|split; [|split_and!; try done; by rewrite Es]].
  - split; try assumption; [by rewrite Es|reflexivity|]. intros i Hi. destruct (P15 i Hi) as (v & Hv & Hrel & Hvi). apply list_elem_of_lookup in Hv as (k & Hk). destruct (Forall2_lookup_l _ _ _ _ _ Hsec Hk) as (v' & Hk' & Hs'). exists v'. split; [by apply list_elem_of_lookup; exists k|]. subst i. by apply (second_rel refs v).
  - assert (Hsmk : Z.of_nat (s_dropped s') <= bs_known sp <= zlen (s_hist s')).
    { pose proof (small_ok _ _ _ _ H). pose proof (ei_known _ _ _ _ H). pose proof (prefix_length _ _ P11). unfold zlen in *. lia. }
    assert (Hall : BlockingAllowedOnStream (e_bm e) st [e_maximumBlockedStreams e] = false -> refs <> [] -> ric refs <= bm_knownReceivedCount (e_bm e)).
    { intros Hb Hne. specialize (P9 Hb). destruct (lmax_in refs (conj Hne Hrefs)) as (Hm & _ & _). specialize (P9 _ Hm). unfold ric. lia. }
    assert (Hold : forall st' l' i, l' ∈ bs_out sp st' -> i ∈ l' -> Z.of_nat (s_dropped s') <= i < zlen (s_hist s')).
    { intros st' l' i Hl Hi. pose proof (ei_refs _ _ _ _ H st' l' i Hl Hi). destruct (smallest_spec _ _ _ (ei_blocks _ _ _ _ H)) as [Hleast _]. specialize (Hleast st' l' i Hl Hi). pose proof (prefix_length _ _ P11). unfold zlen in *. lia. }
    destruct H as [_ _ Hb _ _ Hlim _]. unfold sent_spec, e2. destruct (bool_decide (refs = [])) eqn:Eb; cbn [negb].
    + split; try assumption. exact (bm_rep_up _ _ _ Hb).
    + apply bool_decide_eq_false in Eb. split; try assumption; [by apply sent_rep| |].
      * intros st' l' i Hl Hi. cbn [fst spec_event bs_out] in Hl. unfold upd in Hl. destruct (st' =? st) eqn:E; [|by eapply Hold]. apply elem_of_app in Hl as [Hl|Hl]; [by eapply Hold|]. apply list_elem_of_singleton in Hl. subst l'. by apply Hlive.
      * change (NumBlockedStreams (OnHeaderBlockSent (e_bm e) st refs) <= e_maximumBlockedStreams e). apply sent_limit; [done|exact Hlim|]. intros Hb'. by apply Hall.
Qed.

(** ** Feedback *)
Lemma blocked_subset m m' sp sp' n n' : bm_rep m sp n -> bm_rep m' sp' n' -> (forall s, waits (bs_known sp') (bs_out sp' s) -> waits (bs_known sp) (bs_out sp s)) -> NumBlockedStreams m' <= NumBlockedStreams m.
Proof.
  intros H H' Hw. unfold NumBlockedStreams. apply inj_le. apply subseteq_size. intros s Hs. apply (bl_blocked _ _ _ H). apply Hw. by apply (bl_blocked _ _ _ H').
Qed.
(** An encoder that differs only in the manager of blocks. *)
Definition enc_same (e e' : Encoder) : Prop := e' = { e with e_bm := e_bm e' }.
Lemma ack_inv e s sp n st l ls : enc_inv e s sp n -> n < 2 ^ 62 -> bs_out sp st = l :: ls ->
  enc_inv (enc_OnHeaderAcknowledgement e st) s (mkBS (upd (bs_out sp) st ls) (Z.max (bs_known sp) (ric l))) n /\ enc_same e (enc_OnHeaderAcknowledgement e st).
Proof.
  intros H Hn Hl. destruct (acked_rep (e_bm e) sp n st (ei_blocks _ _ _ _ H) Hn) as [Hr Hok]. unfold enc_OnHeaderAcknowledgement. cbn [spec_event] in Hr, Hok. rewrite Hl in Hr, Hok. cbn [fst snd] in Hr, Hok. destruct (OnHeaderAcknowledgement (e_bm e) st) as [bm ok]. cbn [fst snd] in Hr, Hok. rewrite Hok. cbn [negb]. split; [|reflexivity].
  assert (Hlin : l ∈ bs_out sp st) by (rewrite Hl; left). pose proof (bl_ok _ _ _ (ei_blocks _ _ _ _ H) st) as Hoks. rewrite Hl in Hoks. apply Forall_cons_1 in Hoks as [Hlok _]. destruct (lmax_in l Hlok) as (Hmx & _ & _). pose proof (ei_refs _ _ _ _ H st l _ Hlin Hmx) as Hr1. pose proof (ei_known _ _ _ _ H) as Hk. pose proof (ei_limit _ _ _ _ H) as Hlim.
  split; try apply H; [exact Hr| | |].
  - intros st' l' i Hl' Hi. cbn [bs_out] in Hl'. unfold upd in Hl'. destruct (st' =? st) eqn:E; bool_simpl; [subst; apply (ei_refs _ _ _ _ H st l'); [rewrite Hl; by right|done]|]. by apply (ei_refs _ _ _ _ H st' l').
  - cbn [bs_known]. unfold ric. lia.
  - change (NumBlockedStreams bm <= e_maximumBlockedStreams e). etransitivity; [|exact Hlim]. apply (blocked_subset _ _ _ _ _ _ (ei_blocks _ _ _ _ H) Hr). intros s' Hw. cbn [bs_known bs_out] in Hw. apply (waits_le (bs_known sp)) in Hw; [|lia]. unfold upd in Hw. destruct (s' =? st) eqn:E; bool_simpl; [|exact Hw]. subst. rewrite Hl. by apply Exists_cons_tl.
Qed.
Lemma incr_inv e s sp n i : enc_inv e s sp n -> 0 < i -> bs_known sp + i <= zlen (s_hist s) ->
  enc_inv (enc_OnInsertCountIncrement e i) s (mkBS (bs_out sp) (bs_known sp + i)) n /\ enc_same e (enc_OnInsertCountIncrement e i).
Proof.
  intros H Hi Hk. pose proof (br_count _ _ _ (er_base _ _ _ (ei_table _ _ _ _ H))) as Hc. pose proof (ei_known _ _ _ _ H) as Hkn. destruct (increment_rep (e_bm e) sp n i (ei_blocks _ _ _ _ H) ltac:(unfold is_u64; lia)) as [Hr Hok]. unfold enc_OnInsertCountIncrement. replace (i =? 0) with false by lia.
  unfold spec_event in Hr, Hok. replace (bs_known sp + i <=? MaxUint64) with true in Hr, Hok by (unfold MaxUint64; lia). cbn [fst snd] in Hr, Hok. destruct (OnInsertCountIncrement (e_bm e) i) as [bm ok]. cbn [fst snd] in Hr, Hok. rewrite Hok. cbn [negb].
  match goal with |- context [?x >? ?y] => change x with (bm_knownReceivedCount bm); change y with (InsertedEntryCount (et_base (e_table e))) end. rewrite (proj1 (bl_known _ _ _ Hr)), (inserted_count _ _ _ (er_base _ _ _ (ei_table _ _ _ _ H))). cbn [bs_known]. replace (bs_known sp + i >? zlen (s_hist s)) with false by lia. split; [|reflexivity].
  pose proof (ei_limit _ _ _ _ H) as Hlim. split; try apply H; [exact Hr| |].
  - cbn [bs_known]. lia.
  - change (NumBlockedStreams bm <= e_maximumBlockedStreams e). etransitivity; [|exact Hlim]. apply (blocked_subset _ _ _ _ _ _ (ei_blocks _ _ _ _ H) Hr). intros s'. cbn [bs_known bs_out]. apply waits_le. lia.
Qed.

(** ** Splitting keeps fields sendable *)
Lemma str_part s k t : str_ok s -> s = k ++ t -> str_ok k /\ str_ok t.
Proof.
  intros [Hb Hz] ->. apply bytes_ok_app in Hb as [H1 H2]. rewrite zlen_app in Hz. pose proof (zlen_nonneg k). pose proof (zlen_nonneg t). split; (split; [assumption|lia]).
Qed.
Lemma str_take s n : str_ok s -> str_ok (take n s) /\ str_ok (drop n s).
Proof. intros H. apply (str_part s); [done|]. by rewrite take_drop. Qed.
Lemma crumbs_ok fuel name : forall value, str_ok name -> str_ok value -> Forall field_ok (crumbs fuel name value).
Proof.
  induction fuel as [|fuel IH]; intros value Hn Hv; [apply Forall_nil_2|]. cbn [crumbs]. destruct value as [|b value]; [apply Forall_nil_2|]. destruct (index_byte 59 (b :: value)) as [idx|]; [|apply Forall_cons_2; [done|apply Forall_nil_2]].
  apply Forall_cons_2; [split; [done|apply (str_take _ idx Hv)]|]. apply IH; [done|]. destruct (str_take _ (S idx) Hv) as [_ Hd]. destruct (drop (S idx) (b :: value)) as [|c rest]; [done|]. destruct (c =? 32); [|done]. by apply (str_part (c :: rest) [c] rest).
Qed.
Lemma split_zero_ok value : forall cur, str_ok (cur ++ value) -> Forall str_ok (split_zero value cur).
Proof.
  induction value as [|b value IH]; intros cur H; cbn [split_zero].
  - rewrite app_nil_r in H. apply Forall_cons_2; [done|apply Forall_nil_2].
  - destruct (str_part _ _ _ H eq_refl) as [Hc Hr]. destruct (b =? 0).
    + apply Forall_cons_2; [done|]. apply IH. cbn [app]. by apply (str_part (b :: value) [b] value).
    + apply IH. rewrite <- app_assoc. exact H.
Qed.
Lemma flatten_ok c l : Forall field_ok l -> Forall field_ok (flatten c l).
Proof.
  induction 1 as [|hf l [Hn Hv] _ IH]; [apply Forall_nil_2|]. unfold flatten. cbn [map concat]. apply Forall_app. split; [|exact IH]. unfold splitHeaderField. assert (H1 : Forall field_ok [mkHF (Name hf) (Value hf)]) by (apply Forall_cons_2; [done|apply Forall_nil_2]).
  destruct (bool_decide (Name hf = cookie_name)).
  - destruct c; [|exact H1]. pose proof (crumbs_ok (S (length (Value hf))) (Name hf) (Value hf) Hn Hv) as Hc. destruct (crumbs _ _ _); [|exact Hc]. apply Forall_cons_2; [split; [done|apply str_nil]|apply Forall_nil_2].
  - destruct (negb _); [exact H1|]. apply Forall_map. pose proof (split_zero_ok (Value hf) [] Hv) as Hs. revert Hs. apply Forall_impl. intros x Hx. done.
Qed.
(** A cookie that ends in a semicolon loses it: the last crumb is empty and not sent. *)
Example trailing_crumb_lost : splitHeaderField cookie_name [97; 61; 49; 59] true = [mkHF cookie_name [97; 61; 49]].
Proof. vm_compute. reflexivity. Qed.
