(* ===== verification/QpackDecoder.v ===== *)
(** * QPACK: the decoder

    Models [src/proto/codec/qpack/decoder.go], [progressive_decoder.go] and the receiver
    of the encoder stream ([stream_receiver.go]).  The progressive decoders share the
    decoder's table, blocked streams and sender, and the table calls them back: they
    are a heap of the decoder, known by number.  What a handler of header fields is told
    is the list [pd_handler]; the calls of the error handler are [d_errors].

    The theorems: a header block whose references are live is decoded to the fields it
    denotes however it is cut, at once or when the entries it waits for arrive, and
    acknowledged; instructions of the encoder stream have the meaning the encoder gave
    them. *)

From stdpp Require Import gmap.
From S2P Require Import Prelude HpackInt Huffman QpackBase QpackInstr QpackTable QpackBlocking QpackEncoder.
Open Scope Z_scope.

(** ** Errors *)
Definition QPACK_DECOMPRESSION_FAILED : Z := 0x0200.
Definition ErrCodeEncoderStreamError : Z := 0x0201.
Definition ErrCodeInternalError : Z := 1.
Definition ErrCodeEncoderIntegerTooLarge : Z := 174.
Definition ErrCodeEncoderStringLiteralTooLong : Z := 175.
Definition ErrCodeEncoderHuffmanEncodingError : Z := 176.
Definition ErrCodeEncoderInvalidStaticEntry : Z := 177.
Definition ErrCodeEncoderErrorInsertingStatic : Z := 178.
Definition ErrCodeEncoderInsertionInvalidRelativeIndex : Z := 179.
Definition ErrCodeEncoderInsertionDynamicEntryNotFound : Z := 180.
Definition ErrCodeEncoderErrorInsertingDynamic : Z := 181.
Definition ErrCodeEncoderErrorInsertingLiteral : Z := 182.
Definition ErrCodeEncoderDuplicateInvalidRelativeIndex : Z := 183.
Definition ErrCodeEncoderDuplicateDynamicEntryNotFound : Z := 184.
Definition ErrCodeEncoderSetDynamicTableCapacity : Z := 185.

(** ** State *)
Inductive handler_event := HeaderDecoded (hf : HeaderField) | DecodingCompleted | DecodingErrorDetected (code : Z).
#[projections(primitive)]
Record ProgressiveDecoder := mkPD {
  pd_streamID : Z; pd_maxBufferedData : Z; pd_prefixDecoder : InstructionDecoder; pd_instructionDecoder : InstructionDecoder;
  pd_handler : list handler_event; pd_requiredInsertCount : Z; pd_base : Z; pd_requiredInsertCountSoFar : Z;
  pd_prefixDecoded : bool; pd_blocked : bool; pd_buffer : bytes; pd_decoding : bool; pd_errorDetected : bool; pd_cancelled : bool
}.
Definition NewProgressiveDecoder (streamID maxBufferedData : Z) : ProgressiveDecoder :=
  mkPD streamID maxBufferedData (NewInstructionDecoder langPrefix) (NewInstructionDecoder langRequestStream) [] 0 0 0 false false [] true false false.
#[projections(primitive)]
Record Decoder := mkDec {
  d_receiver : InstructionDecoder; d_receiverError : bool; d_sender : StreamSender; d_table : DecoderHeaderTable;
  d_blockedStreams : gset Z; d_maximumBlockedStreams : Z; d_knownReceivedCount : Z; d_errors : list Z;
  d_pds : gmap nat ProgressiveDecoder
}.
Definition NewDecoder (maximumDynamicTableCapacity maximumBlockedStreams : Z) : Decoder :=
  let t := NewDecoderHeaderTable in
  mkDec (NewInstructionDecoder langEncoderStream) false (NewDecoderStreamSender false)
    { t with dt_base := fst (tb_SetMaximumDynamicTableCapacity (dt_base t) maximumDynamicTableCapacity) } ∅ maximumBlockedStreams 0 [] ∅.

Definition get_pd (d : Decoder) (o : nat) : run ProgressiveDecoder := match d_pds d !! o with Some p => Ok p | None => Panic end.
Definition set_pd (d : Decoder) (o : nat) (p : ProgressiveDecoder) : Decoder := { d with d_pds := <[o := p]> (d_pds d) }.
Definition set_base (d : Decoder) (b : HeaderTableBase) : Decoder := { d with d_table := { (d_table d) with dt_base := b } }.

(** ** The connection's decoder *)
Definition OnStreamReset (d : Decoder) (streamID : Z) : run Decoder :=
  let d := { d with d_blockedStreams := d_blockedStreams d ∖ {[ streamID ]} } in
  if tb_maximum (dt_base (d_table d)) >? 0 then let* s := SendStreamCancellation (d_sender d) streamID in Ok { d with d_sender := s } else Ok d.
Definition OnStreamBlocked (d : Decoder) (streamID : Z) : Decoder * bool :=
  let d := { d with d_blockedStreams := {[ streamID ]} ∪ d_blockedStreams d } in
  (d, Z.of_nat (base.size (d_blockedStreams d)) <=? d_maximumBlockedStreams d).
Definition OnStreamUnblocked (d : Decoder) (streamID : Z) : Decoder := { d with d_blockedStreams := d_blockedStreams d ∖ {[ streamID ]} }.
Definition OnDecodingCompleted (d : Decoder) (streamID requiredInsertCount : Z) : run Decoder :=
  let* d :=
    if requiredInsertCount >? 0 then
      let* s := SendSectionAcknowledgement (d_sender d) streamID in
      let d := { d with d_sender := s } in
      Ok (if d_knownReceivedCount d <? requiredInsertCount then { d with d_knownReceivedCount := requiredInsertCount } else d)
    else Ok d in
  let inserted := InsertedEntryCount (dt_base (d_table d)) in
  if d_knownReceivedCount d <? inserted then
    let increment := u64 (inserted - d_knownReceivedCount d) in
    let* s := SendInsertCountIncrement (d_sender d) increment in
    Ok { { d with d_sender := s } with d_knownReceivedCount := inserted }
  else Ok d.
Definition dec_OnErrorDetected (d : Decoder) (errorCode : Z) : Decoder := { d with d_errors := d_errors d ++ [errorCode] }.

(** ** Progressive decoders *)
Definition pd_onError (d : Decoder) (o : nat) : run Decoder :=
  let* p := get_pd d o in
  if pd_errorDetected p then Ok d
  else Ok (set_pd d o { p with pd_errorDetected := true; pd_handler := pd_handler p ++ [DecodingErrorDetected QPACK_DECOMPRESSION_FAILED] }).
(** [d.onError(...); return false] *)
Definition pd_fail (d : Decoder) (o : nat) : run (Decoder * bool) := let* d := pd_onError d o in Ok (d, false).
Definition deltaBaseToBase (requiredInsertCount : Z) (sign : bool) (deltaBase : Z) : option Z :=
  if sign then
    if (deltaBase =? MaxUint64) || (requiredInsertCount <? u64 (deltaBase + 1)) then None else Some (u64 (requiredInsertCount - deltaBase - 1))
  else if deltaBase >? u64 (MaxUint64 - requiredInsertCount) then None else Some (u64 (requiredInsertCount + deltaBase)).
Definition doPrefixInstruction (d : Decoder) (o : nat) (v : InstructionWithValues) : run (Decoder * bool) :=
  let* p := get_pd d o in
  let b := dt_base (d_table d) in
  let* oric := DecodeRequiredInsertCount (w_varint v) (tb_maxEntries b) (InsertedEntryCount b) in
  match oric with
  | None => pd_fail d o
  | Some ric =>
      let p := { p with pd_requiredInsertCount := ric } in
      match deltaBaseToBase ric (w_sBit v) (w_varint2 v) with
      | None => pd_fail (set_pd d o p) o
      | Some base =>
          let p := { p with pd_base := base; pd_prefixDecoded := true } in
          if pd_requiredInsertCount p >? InsertedEntryCount b then
            let '(d, ok) := OnStreamBlocked d (pd_streamID p) in
            if negb ok then pd_fail (set_pd d o p) o
            else
              let p := { p with pd_blocked := true } in
              let* t := RegisterObserver (d_table d) (pd_requiredInsertCount p) o in
              Ok (set_pd { d with d_table := t } o p, true)
          else Ok (set_pd d o p, true)
      end
  end.
Definition pd_onHeaderDecoded (d : Decoder) (o : nat) (name value : bytes) : run (Decoder * bool) :=
  let* p := get_pd d o in Ok (set_pd d o { p with pd_handler := pd_handler p ++ [HeaderDecoded (mkHF name value)] }, true).
(** The entry at an absolute index given by a representation, and what is done with it. *)
Definition with_dynamic (d : Decoder) (o : nat) (oidx : option Z) (k : Decoder -> Entry -> run (Decoder * bool)) : run (Decoder * bool) :=
  match oidx with
  | None => pd_fail d o
  | Some absoluteIndex =>
      let* p := get_pd d o in
      if absoluteIndex >=? pd_requiredInsertCount p then pd_fail d o
      else
        let p := if u64 (absoluteIndex + 1) >? pd_requiredInsertCountSoFar p then { p with pd_requiredInsertCountSoFar := u64 (absoluteIndex + 1) } else p in
        let d := set_pd d o p in
        let* entry := LookupEntry (d_table d) false absoluteIndex in
        match entry with
        | None => pd_fail d o
        | Some e => k (set_base d (SetDynamicTableEntryReferenced (dt_base (d_table d)))) e
        end
  end.
Definition with_static (d : Decoder) (o : nat) (index : Z) (k : Decoder -> Entry -> run (Decoder * bool)) : run (Decoder * bool) :=
  let* entry := LookupEntry (d_table d) true index in
  match entry with None => pd_fail d o | Some e => k d e end.
Definition doIndexedHeaderFieldInstruction (d : Decoder) (o : nat) (v : InstructionWithValues) : run (Decoder * bool) :=
  let* p := get_pd d o in
  let k := fun d e => pd_onHeaderDecoded d o (Name e) (Value e) in
  if negb (w_sBit v) then with_dynamic d o (RequestStreamRelativeIndexToAbsoluteIndex (w_varint v) (pd_base p)) k
  else with_static d o (w_varint v) k.
Definition doIndexedHeaderFieldPostBaseInstruction (d : Decoder) (o : nat) (v : InstructionWithValues) : run (Decoder * bool) :=
  let* p := get_pd d o in
  with_dynamic d o (PostBaseIndexToAbsoluteIndex (w_varint v) (pd_base p)) (fun d e => pd_onHeaderDecoded d o (Name e) (Value e)).
Definition doLiteralHeaderFieldNameReferenceInstruction (d : Decoder) (o : nat) (v : InstructionWithValues) : run (Decoder * bool) :=
  let* p := get_pd d o in
  let k := fun d e => pd_onHeaderDecoded d o (Name e) (w_value v) in
  if negb (w_sBit v) then with_dynamic d o (RequestStreamRelativeIndexToAbsoluteIndex (w_varint v) (pd_base p)) k
  else with_static d o (w_varint v) k.
Definition doLiteralHeaderFieldPostBaseInstruction (d : Decoder) (o : nat) (v : InstructionWithValues) : run (Decoder * bool) :=
  let* p := get_pd d o in
  with_dynamic d o (PostBaseIndexToAbsoluteIndex (w_varint v) (pd_base p)) (fun d e => pd_onHeaderDecoded d o (Name e) (w_value v)).
Definition doLiteralHeaderFieldInstruction (d : Decoder) (o : nat) (v : InstructionWithValues) : run (Decoder * bool) :=
  pd_onHeaderDecoded d o (w_name v) (w_value v).
Definition pd_OnInstructionDecoded (o : nat) (v : InstructionWithValues) (d : Decoder) : run (Decoder * bool) :=
  match w_instruction v with
  | Prefix => doPrefixInstruction d o v
  | IndexedHeaderField => doIndexedHeaderFieldInstruction d o v
  | IndexedHeaderFieldPostBase => doIndexedHeaderFieldPostBaseInstruction d o v
  | LiteralHeaderFieldNameReference => doLiteralHeaderFieldNameReferenceInstruction d o v
  | LiteralHeaderFieldPostBaseNameReference => doLiteralHeaderFieldPostBaseInstruction d o v
  | LiteralHeaderField => doLiteralHeaderFieldInstruction d o v
  | _ => Ok (d, false)
  end.
(** The progressive decoder [o] as the delegate of its instruction decoders. *)
Definition PD_delegate (o : nat) : InstructionDecoderDelegate Decoder := {|
  OnInstructionDecoded := pd_OnInstructionDecoded o;
  OnInstructionDecodingError := fun _ _ d => match pd_onError d o with Ok d => d | _ => d end
|}.
(** [d.instructionDecoder.Decode] and [d.prefixDecoder.Decode]. *)
Definition pd_decode_instructions (d : Decoder) (o : nat) (data : bytes) : run (Decoder * bool) :=
  let* p := get_pd d o in
  let* r := @id_Decode _ (PD_delegate o) (pd_instructionDecoder p) d data in
  let '(id, d, ok) := r in
  let* p := get_pd d o in Ok (set_pd d o { p with pd_instructionDecoder := id }, ok).
Definition pd_decode_prefix (d : Decoder) (o : nat) (data : bytes) : run (Decoder * bool) :=
  let* p := get_pd d o in
  let* r := @id_Decode _ (PD_delegate o) (pd_prefixDecoder p) d data in
  let '(id, d, ok) := r in
  let* p := get_pd d o in Ok (set_pd d o { p with pd_prefixDecoder := id }, ok).
(** The loop over the prefix: what is left of the data, or [None] if [Decode] returns. *)
Fixpoint prefix_loop (d : Decoder) (o : nat) (data : bytes) : run (Decoder * option bytes) :=
  let* p := get_pd d o in
  if pd_prefixDecoded p then Ok (d, Some data)
  else
    match data with
    | [] => Panic
    | b :: data' =>
        let* r := pd_decode_prefix d o [b] in
        let '(d, ok) := r in
        if negb ok then Ok (d, None)
        else
          let* p := get_pd d o in
          if pd_errorDetected p then Ok (d, None)
          else match data' with [] => Ok (d, None) | _ => prefix_loop d o data' end
    end.
Definition pd_Decode (d : Decoder) (o : nat) (data : bytes) : run Decoder :=
  let* p := get_pd d o in
  if negb (pd_decoding p) || (zlen data =? 0) || pd_errorDetected p then Ok d
  else
    let* r := prefix_loop d o data in
    let '(d, rest) := r in
    match rest with
    | None => Ok d
    | Some data =>
        let* p := get_pd d o in
        if pd_blocked p then
          if (pd_maxBufferedData p >? 0) && (zlen (pd_buffer p) + zlen data >? pd_maxBufferedData p) then pd_onError d o
          else Ok (set_pd d o { p with pd_buffer := pd_buffer p ++ data })
        else let* r := pd_decode_instructions d o data in Ok (fst r)
    end.
Definition finishDecoding (d : Decoder) (o : nat) : run Decoder :=
  let* p := get_pd d o in
  if pd_errorDetected p then Ok d
  else if negb (AtInstructionBoundary (pd_instructionDecoder p)) then pd_onError d o
  else if negb (pd_prefixDecoded p) then pd_onError d o
  else if negb (pd_requiredInsertCount p =? pd_requiredInsertCountSoFar p) then pd_onError d o
  else
    let* d := OnDecodingCompleted d (pd_streamID p) (pd_requiredInsertCount p) in
    let* p := get_pd d o in Ok (set_pd d o { p with pd_handler := pd_handler p ++ [DecodingCompleted] }).
Definition EndHeaderBlock (d : Decoder) (o : nat) : run Decoder :=
  let* p := get_pd d o in
  let d := set_pd d o { p with pd_decoding := false } in
  if negb (pd_blocked p) then finishDecoding d o else Ok d.
Definition OnInsertCountReachedThreshold (d : Decoder) (o : nat) : run Decoder :=
  let* p := get_pd d o in
  let d := set_pd d o { p with pd_blocked := false } in
  let d := OnStreamUnblocked d (pd_streamID p) in
  let* r :=
    if zlen (pd_buffer p) >? 0 then
      let* p := get_pd d o in
      pd_decode_instructions (set_pd d o { p with pd_buffer := [] }) o (pd_buffer p)
    else Ok (d, true) in
  let '(d, ok) := r in
  if negb ok then Ok d
  else let* p := get_pd d o in if negb (pd_decoding p) then finishDecoding d o else Ok d.
Definition pd_Cancel (d : Decoder) (o : nat) : run Decoder := let* p := get_pd d o in Ok (set_pd d o { p with pd_cancelled := true }).
Definition pd_Close (d : Decoder) (o : nat) : run (Decoder * bool) :=
  let* p := get_pd d o in
  let* d := if pd_decoding p && negb (pd_cancelled p) && negb (pd_blocked p) then EndHeaderBlock d o else Ok d in
  let* p := get_pd d o in
  let d :=
    if pd_blocked p then
      let d := OnStreamUnblocked d (pd_streamID p) in
      let d := if negb (pd_cancelled p) then { d with d_table := UnregisterObserver (d_table d) (pd_requiredInsertCount p) o } else d in
      set_pd d o { p with pd_blocked := false; pd_buffer := [] }
    else d in
  Ok (d, pd_errorDetected p).
(** [Write]: the number of bytes taken, or [None] for an error. *)
Definition pd_Write (d : Decoder) (o : nat) (data : bytes) : run (Decoder * option Z) :=
  let* p := get_pd d o in
  if pd_errorDetected p then Ok (d, None)
  else
    let* d := pd_Decode d o data in
    let* p := get_pd d o in Ok (d, if pd_errorDetected p then None else Some (zlen data)).
(** A new progressive decoder, under a number that is not in use. *)
Definition CreateProgressiveDecoderWithMaxBufferedData (d : Decoder) (streamID maxBufferedData : Z) : Decoder * nat :=
  let o := fresh (dom (d_pds d)) in (set_pd d o (NewProgressiveDecoder streamID maxBufferedData), o).
Definition CreateProgressiveDecoder (d : Decoder) (streamID : Z) : Decoder * nat := CreateProgressiveDecoderWithMaxBufferedData d streamID 0.
Definition DecodeHeaderBlock (d : Decoder) (streamID : Z) (block : bytes) : run (Decoder * nat) :=
  let '(d, o) := CreateProgressiveDecoder d streamID in
  let* d := pd_Decode d o block in
  let* d := EndHeaderBlock d o in Ok (d, o).

(** ** The encoder stream *)

(** [DecoderHeaderTable.InsertEntry]: insert, then call the observers that are ready.
    Each pass removes one; the callback adds none. *)
Fixpoint notify_loop (fuel : nat) (d : Decoder) (insertedCount : Z) : run Decoder :=
  match next_observer (d_table d) insertedCount with
  | None => Ok d
  | Some (o, t) =>
      match fuel with
      | O => Panic
      | S fuel' => let* d := OnInsertCountReachedThreshold { d with d_table := t } o in notify_loop fuel' d insertedCount
      end
  end.
Definition dt_InsertEntry (d : Decoder) (name value : bytes) : run Decoder :=
  let* r := tb_InsertEntry (d_table d) name value in
  let d := { d with d_table := fst r } in
  notify_loop (List.length (dt_observers (d_table d))) d (InsertedEntryCount (dt_base (d_table d))).
(** [DecoderHeaderTable.Cancel] and [Close]. *)
Definition dt_Cancel (d : Decoder) : run Decoder :=
  let observers := dt_observers (d_table d) in
  let d := { d with d_table := { (d_table d) with dt_observers := [] } } in
  fold_left (fun r x => let* d := r in pd_Cancel d (snd x)) observers (Ok d).
Definition fits_table (d : Decoder) (name value : bytes) : bool := tb_EntryFits (dt_base (d_table d)) name value.
Definition dec_InsertWithNameReference (d : Decoder) (isStatic : bool) (nameIndex : Z) (value : bytes) : run Decoder :=
  if isStatic then
    let* entry := LookupEntry (d_table d) true nameIndex in
    match entry with
    | None => Ok (dec_OnErrorDetected d ErrCodeEncoderInvalidStaticEntry)
    | Some e =>
        if negb (fits_table d (Name e) value) then Ok (dec_OnErrorDetected d ErrCodeEncoderErrorInsertingStatic)
        else dt_InsertEntry d (Name e) value
    end
  else
    match EncoderStreamRelativeIndexToAbsoluteIndex nameIndex (InsertedEntryCount (dt_base (d_table d))) with
    | None => Ok (dec_OnErrorDetected d ErrCodeEncoderInsertionInvalidRelativeIndex)
    | Some absoluteIndex =>
        let* entry := LookupEntry (d_table d) false absoluteIndex in
        match entry with
        | None => Ok (dec_OnErrorDetected d ErrCodeEncoderInsertionDynamicEntryNotFound)
        | Some e =>
            if negb (fits_table d (Name e) value) then Ok (dec_OnErrorDetected d ErrCodeEncoderErrorInsertingDynamic)
            else dt_InsertEntry d (Name e) value
        end
    end.
Definition dec_InsertWithoutNameReference (d : Decoder) (name value : bytes) : run Decoder :=
  if negb (fits_table d name value) then Ok (dec_OnErrorDetected d ErrCodeEncoderErrorInsertingLiteral) else dt_InsertEntry d name value.
Definition dec_Duplicate (d : Decoder) (index : Z) : run Decoder :=
  match EncoderStreamRelativeIndexToAbsoluteIndex index (InsertedEntryCount (dt_base (d_table d))) with
  | None => Ok (dec_OnErrorDetected d ErrCodeEncoderDuplicateInvalidRelativeIndex)
  | Some absoluteIndex =>
      let* entry := LookupEntry (d_table d) false absoluteIndex in
      match entry with
      | None => Ok (dec_OnErrorDetected d ErrCodeEncoderDuplicateDynamicEntryNotFound)
      | Some e =>
          if negb (fits_table d (Name e) (Value e)) then Ok (dec_OnErrorDetected d ErrCodeInternalError)
          else dt_InsertEntry d (Name e) (Value e)
      end
  end.
Definition dec_SetDynamicTableCapacity (d : Decoder) (capacity : Z) : run Decoder :=
  let* r := tb_SetDynamicTableCapacity (d_table d) capacity in
  let d := { d with d_table := fst r } in
  Ok (if snd r then d else dec_OnErrorDetected d ErrCodeEncoderSetDynamicTableCapacity).
Definition dec_Error (d : Decoder) (qpackError : Z) (m : message) : Decoder :=
  dec_OnErrorDetected d
    (if qpackError =? ErrCodeEncoderStreamError then
       match m with
       | MsgIntegerTooLarge => ErrCodeEncoderIntegerTooLarge
       | MsgStringTooLong => ErrCodeEncoderStringLiteralTooLong
       | MsgHuffman => ErrCodeEncoderHuffmanEncodingError
       | _ => qpackError
       end
     else qpackError).
Definition dec_instruction (v : InstructionWithValues) (d : Decoder) : run (Decoder * bool) :=
  match w_instruction v with
  | InsertWithNameReference => let* d := dec_InsertWithNameReference d (w_sBit v) (w_varint v) (w_value v) in Ok (d, true)
  | InsertWithoutNameReference => let* d := dec_InsertWithoutNameReference d (w_name v) (w_value v) in Ok (d, true)
  | Duplicate => let* d := dec_Duplicate d (w_varint v) in Ok (d, true)
  | SetDynamicTableCapacity => let* d := dec_SetDynamicTableCapacity d (w_varint v) in Ok (d, true)
  | _ => Ok (d, false)
  end.
#[export] Instance EncoderStreamReceiver : InstructionDecoderDelegate Decoder := {|
  OnInstructionDecoded := dec_instruction;
  OnInstructionDecodingError := fun _ m d =>
    if d_receiverError d then d else dec_Error { d with d_receiverError := true } ErrCodeEncoderStreamError m
|}.
Definition dec_receive (d : Decoder) (data : bytes) : run Decoder :=
  if (zlen data =? 0) || d_receiverError d then Ok d
  else let* r := id_Decode (d_receiver d) d data in let '(id, d, _) := r in Ok { d with d_receiver := id }.
Definition dec_receive_end (d : Decoder) : Decoder :=
  if d_receiverError d then d else let '(id, d) := id_EndDecoding (d_receiver d) d in { d with d_receiver := id }.
Definition dec_SetStreamSenderDelegate (d : Decoder) (delegate : bool) : Decoder := { d with d_sender := ss_SetDelegate (d_sender d) delegate }.
Definition dec_SendInsertCountIncrement (d : Decoder) (increment : Z) : run Decoder := let* s := SendInsertCountIncrement (d_sender d) increment in Ok { d with d_sender := s }.
Definition dec_SendSectionAcknowledgement (d : Decoder) (streamID : Z) : run Decoder := let* s := SendSectionAcknowledgement (d_sender d) streamID in Ok { d with d_sender := s }.
Definition dec_SendStreamCancellation (d : Decoder) (streamID : Z) : run Decoder := let* s := SendStreamCancellation (d_sender d) streamID in Ok { d with d_sender := s }.
Definition FlushDecoderStream (d : Decoder) : Decoder := { d with d_sender := Flush (d_sender d) }.

(** ** What a call leaves alone *)
Record dec_rep (d : Decoder) (s : table_spec) : Prop := {
  dr_base : base_rep (dt_base (d_table d)) (s_hist s) (s_dropped s);
  dr_impl : implements (dt_base (d_table d)) s
}.
(** [d'] differs from [d] in the progressive decoder [o] and in the mark that entries
    were referred to. *)
Record frame (o : nat) (d d' : Decoder) : Prop := {
  fr_receiver : d_receiver d' = d_receiver d /\ d_receiverError d' = d_receiverError d;
  fr_sender : d_sender d' = d_sender d;
  fr_blocked : d_blockedStreams d' = d_blockedStreams d /\ d_maximumBlockedStreams d' = d_maximumBlockedStreams d;
  fr_known : d_knownReceivedCount d' = d_knownReceivedCount d;
  fr_errors : d_errors d' = d_errors d;
  fr_observers : dt_observers (d_table d') = dt_observers (d_table d);
  fr_pds : forall o', o' <> o -> d_pds d' !! o' = d_pds d !! o';
  fr_table : forall s, dec_rep d s -> dec_rep d' s
}.
Lemma frame_refl o d : frame o d d.
Proof. by split. Qed.
Lemma frame_trans o d d1 d2 : frame o d d1 -> frame o d1 d2 -> frame o d d2.
Proof. intros [[A1 A1'] A2 [A3 A3'] A4 A5 A6 A7 A8] [[B1 B1'] B2 [B3 B3'] B4 B5 B6 B7 B8]. split; try congruence; [split; congruence|split; congruence|intros o' Ho; rewrite B7, A7 by done; done|auto]. Qed.
Lemma frame_set o d p : frame o d (set_pd d o p).
Proof. split; try done; [|intros s [H1 H2]; by split]. intros o' Ho. change (<[o := p]> (d_pds d) !! o' = d_pds d !! o'). by rewrite lookup_insert_ne. Qed.
Lemma frame_referenced o d : frame o d (set_base d (SetDynamicTableEntryReferenced (dt_base (d_table d)))).
Proof. split; try done. intros s [[B1 B2 B3 B4 B5 B6 B7 B8 B9 B10] [I1 I2 I3]]. split; by split. Qed.
Lemma get_set d o p : get_pd (set_pd d o p) o = Ok p.
Proof. unfold get_pd. change (match <[o := p]> (d_pds d) !! o with Some p0 => Ok p0 | None => Panic end = Ok (E := Empty_set) p). by rewrite lookup_insert_eq. Qed.
Lemma get_some d o p : d_pds d !! o = Some p -> get_pd d o = Ok p.
Proof. unfold get_pd. by intros ->. Qed.
Lemma pds_set d o p : d_pds (set_pd d o p) !! o = Some p.
Proof. change (<[o := p]> (d_pds d) !! o = Some p). apply lookup_insert_eq. Qed.

(** ** One representation *)
Definition so_far (R : Z) (x : Z) (v : InstructionWithValues) : Z := if is_relative v then Z.max x (R - w_varint v) else x.
Definition told (p : ProgressiveDecoder) (hfs : list HeaderField) (x : Z) : ProgressiveDecoder :=
  { p with pd_handler := pd_handler p ++ map HeaderDecoded hfs; pd_requiredInsertCountSoFar := x }.
(** The entries a block refers to are live, with the values the encoder saw. *)
Definition sees (hist : list Entry) (refs : list Z) (s : table_spec) : Prop :=
  forall i e, i ∈ refs -> hist !! Z.to_nat i = Some e -> Z.of_nat (s_dropped s) <= i /\ s_hist s !! Z.to_nat i = Some e.
Lemma header_decoded d o p hf x : d_pds d !! o = Some p ->
  pd_onHeaderDecoded (set_pd d o { p with pd_requiredInsertCountSoFar := x }) o (Name hf) (Value hf) = Ok (set_pd (set_pd d o { p with pd_requiredInsertCountSoFar := x }) o (told p [hf] x), true).
Proof. intros Hp. unfold pd_onHeaderDecoded. rewrite get_set. cbn [res_bind]. replace (mkHF (Name hf) (Value hf)) with hf by (by destruct hf). reflexivity. Qed.
Section calls.
Context (o : nat) (s : table_spec) (hist : list Entry) (refs : list Z).
Context (Hrefs : Forall (fun i => 0 <= i < 2 ^ 62) refs) (Hsees : sees hist refs s).
Lemma dynamic_call d p i e hf (nv : Entry -> bytes * bytes) : d_pds d !! o = Some p -> dec_rep d s -> pd_requiredInsertCount p = ric refs -> i ∈ refs -> hist !! Z.to_nat i = Some e -> nv e = (Name hf, Value hf) ->
  exists d', with_dynamic d o (Some i) (fun d e => pd_onHeaderDecoded d o (fst (nv e)) (snd (nv e))) = Ok (d', true) /\ frame o d d' /\ d_pds d' !! o = Some (told p [hf] (Z.max (pd_requiredInsertCountSoFar p) (i + 1))).
Proof.
  intros Hp Hd Hric Hi He Hnv. destruct (ric_range refs Hrefs) as [Hr Hin]. specialize (Hin i Hi). destruct (Hsees i e Hi He) as [Hl He']. unfold with_dynamic. rewrite (get_some _ _ _ Hp). cbn [res_bind]. rewrite Hric. replace (i >=? ric refs) with false by lia. rewrite u64_small by (unfold is_u64; lia).
  set (x := Z.max (pd_requiredInsertCountSoFar p) (i + 1)). assert (Ep : (if i + 1 >? pd_requiredInsertCountSoFar p then { p with pd_requiredInsertCountSoFar := i + 1 } else p) = { p with pd_requiredInsertCountSoFar := x }).
  { unfold x. destruct (i + 1 >? pd_requiredInsertCountSoFar p) eqn:E; bool_simpl; [by replace (Z.max _ _) with (i + 1) by lia|]. replace (Z.max _ _) with (pd_requiredInsertCountSoFar p) by lia. reflexivity. }
  rewrite Ep. set (d1 := set_pd d o { p with pd_requiredInsertCountSoFar := x }). change (d_table d1) with (d_table d). rewrite (lookup_dynamic (d_table d) _ _ i (dr_base _ _ Hd)) by (unfold is_u64; lia). cbn [res_bind]. replace (Z.of_nat (s_dropped s) <=? i) with true by lia. rewrite He', Hnv. cbn [fst snd].
  set (d2 := set_base d1 (SetDynamicTableEntryReferenced (dt_base (d_table d)))). assert (Hd2 : d_pds d2 !! o = Some { p with pd_requiredInsertCountSoFar := x }) by (exact (pds_set d o _)).
  unfold pd_onHeaderDecoded. rewrite (get_some _ _ _ Hd2). cbn [res_bind]. eexists. split; [reflexivity|]. split; [|replace (mkHF (Name hf) (Value hf)) with hf by (by destruct hf); exact (pds_set d2 o _)].
  eapply frame_trans; [|apply frame_set]. eapply frame_trans; [apply frame_set|]. exact (frame_referenced o d1).
Qed.
Lemma static_call d p i e hf (nv : Entry -> bytes * bytes) : d_pds d !! o = Some p -> 0 <= i < 99 -> staticTable !! Z.to_nat i = Some e -> nv e = (Name hf, Value hf) ->
  exists d', with_static d o i (fun d e => pd_onHeaderDecoded d o (fst (nv e)) (snd (nv e))) = Ok (d', true) /\ frame o d d' /\ d_pds d' !! o = Some (told p [hf] (pd_requiredInsertCountSoFar p)).
Proof.
  intros Hp Hi He Hnv. unfold with_static, LookupEntry. replace (i >=? 99) with false by lia. rewrite He. cbn [res_bind]. rewrite Hnv. cbn [fst snd]. unfold pd_onHeaderDecoded. rewrite (get_some _ _ _ Hp). cbn [res_bind]. eexists. split; [reflexivity|]. split; [apply frame_set|]. replace (mkHF (Name hf) (Value hf)) with hf by (destruct hf; reflexivity). exact (pds_set d o _).
Qed.
Lemma rep_call d p v hf : d_pds d !! o = Some p -> dec_rep d s -> pd_requiredInsertCount p = ric refs -> pd_base p = ric refs -> wire_denotes hist refs v hf ->
  exists d', pd_OnInstructionDecoded o v d = Ok (d', true) /\ frame o d d' /\ d_pds d' !! o = Some (told p [hf] (so_far (ric refs) (pd_requiredInsertCountSoFar p) v)).
Proof.
  intros Hp Hd Hric Hbase (u & (Hf & [Hlang Hu] & Hrel & Hst) & Hsec & _). unfold so_far.
  destruct (is_relative u) eqn:Er.
  - specialize (Hrel eq_refl). destruct (second_rel refs u v Hrefs Hrel Er Hsec) as [Hv Hvi]. rewrite Hv. destruct (ric_range refs Hrefs) as [Hr Hin]. specialize (Hin _ Hrel).
    assert (Hw : w_instruction v = w_instruction u /\ w_sBit v = w_sBit u /\ w_value v = w_value u).
    { unfold second_rep in Hsec. rewrite Er in Hsec. destruct (AbsoluteIndexToRequestStreamRelativeIndex _ _) as [r|[]|]; cbn [res_bind] in Hsec; [|discriminate]. injection Hsec as <-. done. }
    destruct Hw as (Hw1 & Hw2 & Hw3). assert (Habs : RequestStreamRelativeIndexToAbsoluteIndex (w_varint v) (ric refs) = Some (w_varint u)).
    { unfold RequestStreamRelativeIndexToAbsoluteIndex. replace (w_varint v >=? ric refs) with false by lia. f_equal. rewrite u64_small by (unfold is_u64; lia). lia. }
    replace (ric refs - w_varint v) with (w_varint u + 1) by lia. unfold is_relative in Er. unfold rep_field in Hf. unfold pd_OnInstructionDecoded. rewrite Hw1. destruct (w_instruction u); try discriminate; (assert (Hs : w_sBit u = false) by (by destruct (w_sBit u))); rewrite Hs in Hf.
    + unfold doIndexedHeaderFieldInstruction. rewrite (get_some _ _ _ Hp). cbn [res_bind]. rewrite Hw2, Hs, Hbase, Habs. cbn [negb]. apply (dynamic_call d p (w_varint u) hf hf (fun e => (Name e, Value e))); done.
    + unfold doLiteralHeaderFieldNameReferenceInstruction. rewrite (get_some _ _ _ Hp). cbn [res_bind]. rewrite Hw2, Hs, Hbase, Habs. cbn [negb]. destruct (hist !! Z.to_nat (w_varint u)) as [e|] eqn:Ee; [|discriminate]. injection Hf as <-. apply (dynamic_call d p (w_varint u) e _ (fun e => (Name e, w_value v))); try done. cbn [Name Value]. by rewrite Hw3.
  - unfold second_rep in Hsec. rewrite Er in Hsec. injection Hsec as <-. rewrite Er. unfold is_relative in Er. unfold rep_field in Hf. unfold pd_OnInstructionDecoded. unfold langRequestStream in Hlang. destruct Hu as [Hu _ _ _ _ _]. unfold is_u64 in Hu.
    destruct (w_instruction u); try discriminate.
    + apply negb_false_iff in Er. rewrite Er in Hf. specialize (Hst Er). unfold doIndexedHeaderFieldInstruction. rewrite (get_some _ _ _ Hp). cbn [res_bind]. rewrite Er. cbn [negb]. apply (static_call d p (w_varint u) hf hf (fun e => (Name e, Value e))); [exact Hp|lia|exact Hf|reflexivity].
    + apply negb_false_iff in Er. rewrite Er in Hf. specialize (Hst Er). unfold doLiteralHeaderFieldNameReferenceInstruction. rewrite (get_some _ _ _ Hp). cbn [res_bind]. rewrite Er. cbn [negb]. revert Hf. destruct (staticTable !! Z.to_nat (w_varint u)) as [e|] eqn:Ee; intros Hf; [|discriminate]. injection Hf as <-. apply (static_call d p (w_varint u) e _ (fun e => (Name e, w_value u))); [exact Hp|lia|exact Ee|reflexivity].
    + injection Hf as <-. unfold doLiteralHeaderFieldInstruction, pd_onHeaderDecoded. rewrite (get_some _ _ _ Hp). cbn [res_bind]. eexists. split; [reflexivity|]. split; [apply frame_set|]. exact (pds_set d o _).
Qed.
(** All of them. *)
Lemma reps_calls reps fs : Forall2 (wire_denotes hist refs) reps fs -> forall d p, d_pds d !! o = Some p -> dec_rep d s -> pd_requiredInsertCount p = ric refs -> pd_base p = ric refs ->
  exists d', @interp _ (PD_delegate o) (map Called reps) d = Ok (d', true) /\ frame o d d' /\ d_pds d' !! o = Some (told p fs (fold_left (so_far (ric refs)) reps (pd_requiredInsertCountSoFar p))).
Proof.
  induction 1 as [|v hf reps fs Hv _ IH]; intros d p Hp Hd Hric Hbase; cbn [map interp fold_left].
  - exists d. split; [done|]. split; [apply frame_refl|]. rewrite Hp. f_equal. unfold told. cbn [map]. rewrite app_nil_r. reflexivity.
  - destruct (rep_call d p v hf Hp Hd Hric Hbase Hv) as (d1 & E1 & F1 & Hp1). cbn [OnInstructionDecoded PD_delegate]. rewrite E1. cbn [res_bind fst snd]. destruct (IH d1 _ Hp1 (fr_table _ _ _ F1 _ Hd) Hric Hbase) as (d2 & E2 & F2 & Hp2). exists d2. split; [exact E2|]. split; [by eapply frame_trans|]. rewrite Hp2. f_equal. unfold told. cbn [pd_handler pd_requiredInsertCountSoFar map].
    change (pd_handler { p with pd_handler := pd_handler p ++ [HeaderDecoded hf]; pd_requiredInsertCountSoFar := so_far (ric refs) (pd_requiredInsertCountSoFar p) v }) with (pd_handler p ++ [HeaderDecoded hf]). rewrite <- app_assoc. reflexivity.
Qed.
End calls.

(** ** The representations of a block *)
Lemma so_far_spec R reps : forall x, fold_left (so_far R) reps x = Z.max x (fold_left (so_far R) reps x)
  /\ (forall v, v ∈ reps -> is_relative v = true -> R - w_varint v <= fold_left (so_far R) reps x)
  /\ (forall y, x <= y -> (forall v, v ∈ reps -> is_relative v = true -> R - w_varint v <= y) -> fold_left (so_far R) reps x <= y).
Proof.
  induction reps as [|v reps IH]; intros x; cbn [fold_left].
  - split; [lia|]. split; [intros v Hv; by apply not_elem_of_nil in Hv|]. intros y Hy _. exact Hy.
  - destruct (IH (so_far R x v)) as (H1 & H2 & H3). assert (Hx : x <= so_far R x v /\ (is_relative v = true -> R - w_varint v <= so_far R x v)) by (unfold so_far; destruct (is_relative v); split; try lia; discriminate). split; [lia|]. split.
    + intros w Hw Hr. apply elem_of_cons in Hw as [-> |Hw]; [|by apply H2]. destruct Hx as [_ Hx]. specialize (Hx Hr). lia.
    + intros y Hy Hall. apply H3; [|intros w Hw; apply Hall; by right]. unfold so_far. destruct (is_relative v) eqn:E; [|exact Hy]. pose proof (Hall v ltac:(left) E). lia.
Qed.
(** A block whose references are all used counts up to its Required Insert Count. *)
Lemma so_far_all hist refs reps fs : Forall (fun i => 0 <= i < 2 ^ 62) refs -> Forall2 (wire_denotes hist refs) reps fs ->
  (forall i, i ∈ refs -> exists v, v ∈ reps /\ is_relative v = true /\ ric refs - w_varint v - 1 = i) -> fold_left (so_far (ric refs)) reps 0 = ric refs.
Proof.
  intros Hr Hd Hu. destruct (so_far_spec (ric refs) reps 0) as (H1 & H2 & H3). destruct (ric_range refs Hr) as [H0 Hin]. apply Z.le_antisymm.
  - apply H3; [lia|]. intros v Hv Hrel. apply list_elem_of_lookup in Hv as (k & Hk). destruct (Forall2_lookup_l _ _ _ _ _ Hd Hk) as (hf & _ & u & (_ & [Hl _] & Hrefs & _) & Hs & _).
    destruct (is_relative u) eqn:Eu; [|unfold second_rep in Hs; rewrite Eu in Hs; injection Hs as <-; by rewrite Eu in Hrel]. destruct (second_rel refs u v Hr (Hrefs eq_refl) Eu Hs) as [_ Hv]. specialize (Hin _ (Hrefs eq_refl)). lia.
  - destruct refs as [|x refs]; [change (ric []) with 0 in *; lia|]. destruct (lmax_in (x :: refs) ltac:(split; [discriminate|exact Hr])) as (Hm & _ & _). destruct (Hu _ Hm) as (v & Hv & Hrel & Hvi). specialize (H2 v Hv Hrel). change (ric (x :: refs)) with (lmax (x :: refs) + 1) in *. lia.
Qed.
Lemma wire_sendable hist refs reps fs : Forall2 (wire_denotes hist refs) reps fs -> Forall (sendable langRequestStream) reps.
Proof. induction 1 as [|v hf reps fs (_ & _ & _ & Hv) _ IH]; [apply Forall_nil_2|]. by apply Forall_cons_2. Qed.
Lemma request_language : langRequestStream ∈ languages.
Proof. apply (bool_decide_unpack _). vm_compute. exact I. Qed.
Lemma prefix_language : langPrefix ∈ languages.
Proof. apply (bool_decide_unpack _). vm_compute. exact I. Qed.
Section block.
Context (o : nat) (hist : list Entry) (refs : list Z) (reps : list InstructionWithValues) (fs : list HeaderField) (h : bool).
Context (Hrefs : Forall (fun i => 0 <= i < 2 ^ 62) refs) (Hreps : Forall2 (wire_denotes hist refs) reps fs).
Context (Hused : forall i, i ∈ refs -> exists v, v ∈ reps /\ is_relative v = true /\ ric refs - w_varint v - 1 = i).
(** The decoder after the representations: all fields told, all references counted. *)
Lemma body_decoded s d p : sees hist refs s -> d_pds d !! o = Some p -> dec_rep d s -> pd_requiredInsertCount p = ric refs -> pd_base p = ric refs -> pd_requiredInsertCountSoFar p = 0 -> boundary (pd_instructionDecoder p) langRequestStream ->
  exists d' id, pd_decode_instructions d o (images h reps) = Ok (d', true) /\ frame o d d' /\ boundary id langRequestStream /\ d_pds d' !! o = Some { (told p fs (ric refs)) with pd_instructionDecoder := id }.
Proof.
  intros Hsees Hp Hd Hric Hbase H0 Hb. destruct (decode_images h langRequestStream reps _ request_language (wire_sendable _ _ _ _ Hreps) Hb) as (id & Hid & Hdec). destruct (reps_calls o s hist refs Hrefs Hsees reps fs Hreps d p Hp Hd Hric Hbase) as (d1 & E1 & F1 & Hp1).
  destruct (Hdec Decoder (PD_delegate o) d) as (d3 & E3). unfold pd_decode_instructions. rewrite (get_some _ _ _ Hp). cbn [res_bind]. rewrite E3, E1. cbn [res_bind fst snd]. rewrite (get_some _ _ _ Hp1). cbn [res_bind]. rewrite H0, (so_far_all hist refs reps fs Hrefs Hreps Hused).
  eexists _, id. split; [reflexivity|]. split; [eapply frame_trans; [exact F1|apply frame_set]|]. split; [exact Hid|]. exact (pds_set d1 o _).
Qed.
End block.

(** ** The prefix of a block *)
Definition begun (p : ProgressiveDecoder) (R : Z) : ProgressiveDecoder := { p with pd_requiredInsertCount := R; pd_base := R; pd_prefixDecoded := true }.
Definition wait_for (d : Decoder) (o : nat) (st R : Z) : Decoder :=
  { d with d_blockedStreams := {[ st ]} ∪ d_blockedStreams d; d_table := { (d_table d) with dt_observers := insert_observer R o (dt_observers (d_table d)) } }.
Definition prefix_effect (d : Decoder) (o : nat) (p : ProgressiveDecoder) (R T : Z) : Decoder :=
  if R >? T then set_pd (wait_for d o (pd_streamID p) R) o { (begun p R) with pd_blocked := true } else set_pd d o (begun p R).
(** The count is within reach of a decoder with this table, and its stream may wait. *)
Record decodable (d : Decoder) (s : table_spec) (st R : Z) : Prop := {
  dc_range : 0 <= R <= 2 ^ 62;
  dc_window : 0 < R -> 0 < s_max s / 32 /\ ric_window R (s_max s / 32) (zlen (s_hist s));
  dc_room : R > zlen (s_hist s) -> Z.of_nat (base.size ({[ st ]} ∪ d_blockedStreams d)) <= d_maximumBlockedStreams d
}.
Lemma ric_pos refs : Forall (fun i => 0 <= i < 2 ^ 62) refs -> if bool_decide (refs = []) then ric refs = 0 else 0 < ric refs.
Proof. intros Hr. destruct refs as [|x refs]; [done|]. rewrite bool_decide_eq_false_2 by done. destruct (ric_range _ Hr) as [_ Hin]. specialize (Hin x ltac:(left)). lia. Qed.
Lemma prefix_call o refs d s p : Forall (fun i => 0 <= i < 2 ^ 62) refs -> d_pds d !! o = Some p -> dec_rep d s -> decodable d s (pd_streamID p) (ric refs) ->
  doPrefixInstruction d o (VPrefix (prefix_of_block (s_max s) refs)) = Ok (prefix_effect d o p (ric refs) (zlen (s_hist s)), true).
Proof.
  intros Hr Hp [Hb Hi] [Hrg Hw Hroom]. destruct (live_count _ s Hb Hi) as (Hn & Hmx & Hme). pose proof (br_count _ _ _ Hb) as Hc. pose proof (zlen_nonneg (s_hist s)). unfold doPrefixInstruction. rewrite (get_some _ _ _ Hp). cbn [res_bind]. rewrite (inserted_count _ _ _ Hb), Hme.
  assert (Hdec : DecodeRequiredInsertCount (E := Empty_set) (prefix_of_block (s_max s) refs) (s_max s / 32) (zlen (s_hist s)) = Ok (Some (ric refs))).
  { pose proof (ric_pos refs Hr) as Hpos. unfold prefix_of_block. destruct (bool_decide (refs = [])); [rewrite Hpos; reflexivity|]. destruct (Hw Hpos) as [HM Hwin]. apply ric_decode; try assumption; lia. }
  change (w_varint (VPrefix (prefix_of_block (s_max s) refs))) with (prefix_of_block (s_max s) refs). rewrite Hdec. cbn [res_bind]. change (w_sBit (VPrefix _)) with false. change (w_varint2 (VPrefix _)) with 0. unfold deltaBaseToBase. rewrite (u64_small (MaxUint64 - _)) by (unfold is_u64, MaxUint64; lia). replace (0 >? MaxUint64 - ric refs) with false by (unfold MaxUint64; lia). rewrite Z.add_0_r, u64_small by (unfold is_u64; lia).
  unfold prefix_effect. match goal with |- context [?x >? zlen (s_hist s)] => change x with (ric refs) end. destruct (ric refs >? zlen (s_hist s)) eqn:E; bool_simpl; [|reflexivity]. unfold OnStreamBlocked. match goal with |- context [?x <=? ?y] => change x with (Z.of_nat (base.size ({[ pd_streamID p ]} ∪ d_blockedStreams d))); change y with (d_maximumBlockedStreams d) end.
  replace (_ <=? d_maximumBlockedStreams d) with true by (specialize (Hroom ltac:(lia)); lia). cbn [negb]. unfold RegisterObserver. match goal with |- context [?x =? 0] => change x with (ric refs) end. replace (ric refs =? 0) with false by lia. cbn [res_bind]. reflexivity.
Qed.
(** The prefix decoder is fed byte by byte, and calls once it has the whole prefix. *)
Definition with_decoder (p : ProgressiveDecoder) (id : InstructionDecoder) : ProgressiveDecoder := { p with pd_prefixDecoder := id }.
Lemma set_set d o p q : set_pd (set_pd d o p) o q = set_pd d o q.
Proof. unfold set_pd. change ({ d with d_pds := <[o := q]> (<[o := p]> (d_pds d)) } = { d with d_pds := <[o := q]> (d_pds d) }). by rewrite insert_insert_eq. Qed.
Lemma effect_pd d o p R T : d_pds (prefix_effect d o p R T) !! o = Some (if R >? T then { (begun p R) with pd_blocked := true } else begun p R).
Proof. unfold prefix_effect. destruct (R >? T); [exact (pds_set (wait_for d o (pd_streamID p) R) o _)|exact (pds_set d o _)]. Qed.
Lemma effect_set d o p q id R T : set_pd (prefix_effect (set_pd d o q) o p R T) o (with_decoder (if R >? T then { (begun p R) with pd_blocked := true } else begun p R) id) = prefix_effect d o (with_decoder p id) R T.
Proof.
  unfold prefix_effect. change (pd_streamID (with_decoder p id)) with (pd_streamID p). destruct (R >? T); [|exact (eq_trans (set_set _ o _ _) (set_set d o _ _))]. rewrite set_set. change (wait_for (set_pd d o q) o (pd_streamID p) R) with (set_pd (wait_for d o (pd_streamID p) R) o q). by rewrite set_set.
Qed.
Lemma image_complete h L v d calls : L ∈ languages -> sendable L v -> at_bytes L d (image h v) calls -> calls = [Called v].
Proof.
  intros HL Hv [Hrun _ _ _ _]. destruct (images_read h L [v] HL _ [] ltac:(by apply Forall_cons_2; [|apply Forall_nil_2]) (new_boundary L)) as (df & _ & Hfull). unfold images in Hfull. cbn [map concat app] in Hfull. rewrite app_nil_r in Hfull. by destruct (runs_fun _ _ _ _ _ _ _ _ _ Hfull Hrun) as (_ & <- & _).
Qed.
Lemma prefix_loop_done d o p data : d_pds d !! o = Some p -> pd_prefixDecoded p = true -> prefix_loop d o data = Ok (d, Some data).
Proof. intros Hp Hd. destruct data; cbn [prefix_loop]; rewrite (get_some _ _ _ Hp); cbn [res_bind]; rewrite Hd; reflexivity. Qed.
Lemma effect_over d o q p R T : prefix_effect (set_pd d o q) o p R T = prefix_effect d o p R T.
Proof.
  unfold prefix_effect. destruct (R >? T); [|exact (set_set d o _ _)]. change (wait_for (set_pd d o q) o (pd_streamID p) R) with (set_pd (wait_for d o (pd_streamID p) R) o q). by rewrite set_set.
Qed.
Section prefix.
Context (o : nat) (refs : list Z) (s : table_spec) (h : bool) (body : bytes).
Abbreviation R := (ric refs).
Abbreviation T := (zlen (s_hist s)).
Abbreviation v := (VPrefix (prefix_of_block (s_max s) refs)).
Context (Hrefs : Forall (fun i => 0 <= i < 2 ^ 62) refs) (Hv : values_ok v).
Lemma prefix_sendable : sendable langPrefix v.
Proof. split; [|exact Hv]. change (Prefix ∈ langPrefix). left. Qed.
(** One byte of the prefix. *)
Lemma prefix_byte fed b rest d p : image h v = fed ++ b :: rest -> d_pds d !! o = Some p -> at_bytes langPrefix (pd_prefixDecoder p) fed [] -> dec_rep d s -> decodable d s (pd_streamID p) R ->
  exists id, pd_decode_prefix d o [b] = Ok (match rest with [] => prefix_effect d o (with_decoder p id) R T | _ => set_pd d o (with_decoder p id) end, true)
    /\ (rest <> [] -> at_bytes langPrefix id (fed ++ [b]) []).
Proof.
  intros Himg Hp Hat Hd Hdc. assert (Hall : Forall (sendable langPrefix) [v]) by (apply Forall_cons_2; [exact prefix_sendable|apply Forall_nil_2]). assert (Him : fed ++ [b] ++ rest = images h [v]) by (unfold images; cbn [map concat]; rewrite app_nil_r; by rewrite Himg).
  destruct (stream_chunk h langPrefix [v] (pd_prefixDecoder p) fed 0 [b] rest prefix_language Hall Hat Him ltac:(lia)) as (id & k' & Hk & Hat' & Hdec). exists id. destruct (Hdec Decoder (PD_delegate o) d) as (d3 & E3). unfold pd_decode_prefix. rewrite (get_some _ _ _ Hp). cbn [res_bind]. rewrite E3. clear E3 Hdec. cbn [length] in Hk.
  destruct k' as [|[|k']]; [..|lia].
  - change (take (0 - 0) (drop 0 [v])) with (@nil InstructionWithValues). change (take 0 [v]) with (@nil InstructionWithValues) in Hat'. cbn [map interp res_bind fst snd] in *. rewrite (get_some _ _ _ Hp). cbn [res_bind]. destruct rest as [|c rest]; [|split; [reflexivity|done]]. exfalso. rewrite <- Himg in Hat'. by apply image_complete in Hat'; [|exact prefix_language|exact prefix_sendable].
  - change (take (1 - 0) (drop 0 [v])) with [v]. change (take 1 [v]) with [v] in Hat'. cbn [map] in *. assert (rest = []) as ->. { apply (no_early_call h langPrefix v id (fed ++ [b]) rest prefix_language prefix_sendable Hat'). rewrite <- app_assoc. exact (eq_sym Himg). }
    cbn [interp OnInstructionDecoded PD_delegate]. change (pd_OnInstructionDecoded o v d) with (doPrefixInstruction d o v). rewrite (prefix_call o refs d s p Hrefs Hp Hd Hdc). cbn [res_bind fst snd]. rewrite (get_some _ _ _ (effect_pd d o p R T)). cbn [res_bind]. split; [|done]. f_equal. f_equal. rewrite <- (effect_set d o p p id R T). rewrite <- (effect_over d o p p R T). reflexivity.
Qed.
Lemma prefix_loop_ok rest : forall fed d p, image h v = fed ++ rest -> rest <> [] -> d_pds d !! o = Some p -> at_bytes langPrefix (pd_prefixDecoder p) fed [] -> pd_prefixDecoded p = false -> pd_errorDetected p = false -> dec_rep d s -> decodable d s (pd_streamID p) R ->
  exists id, prefix_loop d o (rest ++ body) = Ok (prefix_effect d o (with_decoder p id) R T, match body with [] => None | _ => Some body end).
Proof.
  induction rest as [|b rest IH]; intros fed d p Himg Hne Hp Hat Hpd Herr Hd Hdc; [done|]. destruct (prefix_byte fed b rest d p Himg Hp Hat Hd Hdc) as (id & Eb & Hat'). cbn [app prefix_loop]. rewrite (get_some _ _ _ Hp). cbn [res_bind]. rewrite Hpd, Eb. cbn [res_bind negb]. destruct rest as [|c rest].
  - rewrite (get_some _ _ _ (effect_pd d o (with_decoder p id) R T)). cbn [res_bind]. match goal with |- context [pd_errorDetected ?x] => replace (pd_errorDetected x) with false by (destruct (R >? T); exact (eq_sym Herr)) end. exists id. cbn [app]. destruct body as [|x body']; [reflexivity|].
    rewrite (prefix_loop_done _ o _ (x :: body') (effect_pd d o (with_decoder p id) R T)) by (destruct (R >? T); reflexivity). reflexivity.
  - rewrite get_set. cbn [res_bind]. change (pd_errorDetected (with_decoder p id)) with (pd_errorDetected p). rewrite Herr. destruct (IH (fed ++ [b]) (set_pd d o (with_decoder p id)) (with_decoder p id)) as (id' & E'); try assumption; try done.
    + rewrite <- app_assoc. exact Himg.
    + apply pds_set.
    + by apply Hat'.
    + exact (fr_table _ _ _ (frame_set o d _) s Hd).
    + destruct Hdc as [D1 D2 D3]. split; assumption.
    + exists id'. change ((c :: rest) ++ body) with (c :: rest ++ body) in E'. cbn [app]. rewrite E'. rewrite effect_over. reflexivity.
Qed.
End prefix.

(** ** The end of a block *)
Definition acks (known st R T : Z) : list InstructionWithValues :=
  (if R >? 0 then [VHeaderAcknowledgement st] else []) ++ (if Z.max known R <? T then [VInsertCountIncrement (T - Z.max known R)] else []).
Record sent_more (s s' : StreamSender) (vs : list InstructionWithValues) : Prop := {
  sm_delegate : ss_delegate s' = ss_delegate s; sm_huffman : ie_huffman (ss_encoder s') = ie_huffman (ss_encoder s);
  sm_written : ss_written s' = ss_written s; sm_buffer : ss_buffer s' = ss_buffer s ++ images (ie_huffman (ss_encoder s)) vs
}.
Lemma sent_none s : sent_more s s [].
Proof. split; try done. change (images _ []) with (@nil Z). by rewrite app_nil_r. Qed.
Lemma sent_trans s s1 s2 vs ws : sent_more s s1 vs -> sent_more s1 s2 ws -> sent_more s s2 (vs ++ ws).
Proof. intros [A1 A2 A3 A4] [B1 B2 B3 B4]. split; try congruence. rewrite B4, A4, A2, <- app_assoc. unfold images. by rewrite map_app, concat_app. Qed.
Lemma sent_one s v : values_ok v -> exists s', ss_send s v = Ok s' /\ sent_more s s' [v].
Proof. intros Hv. destruct (ss_send_ok s v Hv) as (ie & E & Hh). eexists. split; [exact E|]. split; try done. unfold images. cbn [map concat]. by rewrite app_nil_r. Qed.
(** What a call that ends or suspends the block [o] does to the connection's decoder. *)
Record after (o : nat) (vs : list InstructionWithValues) (known : Z) (blocked : gset Z) (obs : list (Z * nat)) (d d' : Decoder) : Prop := {
  af_receiver : d_receiver d' = d_receiver d /\ d_receiverError d' = d_receiverError d;
  af_sender : sent_more (d_sender d) (d_sender d') vs;
  af_known : d_knownReceivedCount d' = known;
  af_blocked : d_blockedStreams d' = blocked /\ d_maximumBlockedStreams d' = d_maximumBlockedStreams d;
  af_errors : d_errors d' = d_errors d;
  af_observers : dt_observers (d_table d') = obs;
  af_pds : forall o', o' <> o -> d_pds d' !! o' = d_pds d !! o';
  af_table : forall s, dec_rep d s -> dec_rep d' s
}.
Lemma frame_after o vs k b obs d d1 d2 : frame o d d1 -> after o vs k b obs d1 d2 -> after o vs k b obs d d2.
Proof.
  intros [[A1 A1'] A2 [A3 A3'] A4 A5 A6 A7 A8] [[B1 B1'] B2 B3 [B4 B4'] B5 B6 B7 B8]. rewrite A2 in B2. split; try (split; congruence); try congruence; auto. intros o' Ho. by rewrite B7, A7.
Qed.
Lemma after_frame o vs k b obs d d1 d2 : after o vs k b obs d d1 -> frame o d1 d2 -> after o vs k b obs d d2.
Proof.
  intros [[B1 B1'] B2 B3 [B4 B4'] B5 B6 B7 B8] [[A1 A1'] A2 [A3 A3'] A4 A5 A6 A7 A8]. rewrite <- A2 in B2. split; try (split; congruence); try congruence; auto. intros o' Ho. by rewrite A7, B7.
Qed.
Lemma completed o d st R T s : is_u64 st -> 0 <= R -> 0 <= d_knownReceivedCount d < 2 ^ 63 -> T = zlen (s_hist s) -> dec_rep d s ->
  exists d', OnDecodingCompleted d st R = Ok d' /\ after o (acks (d_knownReceivedCount d) st R T) (Z.max (Z.max (d_knownReceivedCount d) R) T) (d_blockedStreams d) (dt_observers (d_table d)) d d' /\ d_pds d' = d_pds d.
Proof.
  intros Hst HR HK -> [Hb Hi]. pose proof (br_count _ _ _ Hb) as Hc. pose proof (zlen_nonneg (s_hist s)). unfold OnDecodingCompleted, acks. set (K := d_knownReceivedCount d) in *.
  match goal with |- context [res_bind ?x _] => assert (Hfirst : exists d1, x = Ok d1 /\ d1 = { { d with d_sender := d_sender d1 } with d_knownReceivedCount := Z.max K R } /\ sent_more (d_sender d) (d_sender d1) (if R >? 0 then [VHeaderAcknowledgement st] else [])) end.
  { destruct (R >? 0) eqn:E; bool_simpl.
    - destruct (sent_one (d_sender d) (VHeaderAcknowledgement st) ltac:(apply values_int; [by do 2 right; left|exact Hst])) as (s' & Es & Hs). unfold SendSectionAcknowledgement. rewrite Es. cbn [res_bind]. eexists. split; [reflexivity|]. match goal with |- context [?x <? R] => change x with K end. destruct (K <? R) eqn:E2; bool_simpl.
      + replace (Z.max K R) with R by lia. split; [reflexivity|exact Hs].
      + replace (Z.max K R) with K by lia. split; [reflexivity|exact Hs].
    - exists d. split; [reflexivity|]. replace (Z.max K R) with K by lia. split; [reflexivity|apply sent_none]. }
  destruct Hfirst as (d1 & E1 & Ed1 & Hs1). rewrite E1. clear E1. cbn [res_bind]. set (sd1 := d_sender d1) in *. clearbody sd1. subst d1. set (d1 := { { d with d_sender := sd1 } with d_knownReceivedCount := Z.max K R }).
  change (dt_base (d_table d1)) with (dt_base (d_table d)). rewrite (inserted_count _ _ _ Hb). change (d_knownReceivedCount d1) with (Z.max K R). destruct (Z.max K R <? zlen (s_hist s)) eqn:E; bool_simpl.
  - rewrite u64_small by (unfold is_u64; lia). destruct (sent_one (d_sender d1) (VInsertCountIncrement (zlen (s_hist s) - Z.max K R)) ltac:(apply values_int; [by do 4 right; left|unfold is_u64; lia])) as (s' & Es & Hs). unfold SendInsertCountIncrement. match goal with |- context [ss_send ?x ?y] => change (ss_send x y) with (ss_send (d_sender d1) (VInsertCountIncrement (zlen (s_hist s) - Z.max K R))) end. rewrite Es. cbn [res_bind]. eexists. split; [reflexivity|].
    split; [|reflexivity]. replace (Z.max (Z.max K R) (zlen (s_hist s))) with (zlen (s_hist s)) by lia. split; try done; [by eapply sent_trans|by intros s0 [H1 H2]; split].
  - eexists. split; [reflexivity|]. split; [|reflexivity]. replace (Z.max (Z.max K R) (zlen (s_hist s))) with (Z.max K R) by lia. split; try done; [rewrite app_nil_r; exact Hs1|by intros s0 [H1 H2]; split].
Qed.
Definition ended (p : ProgressiveDecoder) (fs : list HeaderField) : Prop :=
  pd_handler p = map HeaderDecoded fs ++ [DecodingCompleted] /\ pd_blocked p = false.
Lemma finished o d p st R T s fs : is_u64 st -> 0 <= R -> 0 <= d_knownReceivedCount d < 2 ^ 63 -> T = zlen (s_hist s) -> dec_rep d s ->
  d_pds d !! o = Some p -> pd_errorDetected p = false -> boundary (pd_instructionDecoder p) langRequestStream -> pd_prefixDecoded p = true -> pd_requiredInsertCount p = R -> pd_requiredInsertCountSoFar p = R -> pd_streamID p = st -> pd_blocked p = false -> pd_handler p = map HeaderDecoded fs ->
  exists d' p', finishDecoding d o = Ok d' /\ after o (acks (d_knownReceivedCount d) st R T) (Z.max (Z.max (d_knownReceivedCount d) R) T) (d_blockedStreams d) (dt_observers (d_table d)) d d' /\ d_pds d' !! o = Some p' /\ ended p' fs.
Proof.
  intros Hst HR HK HT Hd Hp He Hb Hpd H1 H2 H3 Hbl Hh. destruct (completed o d st R T s Hst HR HK HT Hd) as (d1 & E1 & Ha & Hpds). unfold finishDecoding. rewrite (get_some _ _ _ Hp). cbn [res_bind]. rewrite He. unfold AtInstructionBoundary. rewrite (bd_state _ _ Hb), Hpd, H1, H2, H3, Z.eqb_refl. cbn [bool_decide]. rewrite bool_decide_eq_true_2 by done. cbn [negb].
  rewrite E1. cbn [res_bind]. rewrite <- Hpds in Hp. rewrite (get_some _ _ _ Hp). cbn [res_bind]. eexists _, _. split; [reflexivity|]. split; [eapply after_frame; [exact Ha|apply frame_set]|]. split; [exact (pds_set d1 o _)|]. split; [|exact Hbl]. cbn [pd_handler]. change (pd_handler p ++ [DecodingCompleted] = map HeaderDecoded fs ++ [DecodingCompleted]). by rewrite Hh.
Qed.
(** A block that waits for entries. *)
Record waiting (p : ProgressiveDecoder) (st R : Z) (body : bytes) : Prop := {
  wt_stream : pd_streamID p = st; wt_ric : pd_requiredInsertCount p = R; wt_base : pd_base p = R; wt_far : pd_requiredInsertCountSoFar p = 0;
  wt_blocked : pd_blocked p = true; wt_prefix : pd_prefixDecoded p = true; wt_buffer : pd_buffer p = body; wt_decoding : pd_decoding p = false; wt_handler : pd_handler p = [];
  wt_error : pd_errorDetected p = false; wt_instr : boundary (pd_instructionDecoder p) langRequestStream
}.
Lemma images_nil h L vs : Forall (sendable L) vs -> images h vs = [] -> vs = [].
Proof. intros Hv. destruct Hv as [|v vs [_ Hv] _]; [done|]. unfold images. cbn [map concat]. destruct (image_head h v Hv) as (y & tl & -> & _). done. Qed.
Section whole_block.
Context (hist : list Entry) (refs : list Z) (reps : list InstructionWithValues) (fs : list HeaderField) (h : bool) (s : table_spec) (st : Z).
Context (Hrefs : Forall (fun i => 0 <= i < 2 ^ 62) refs) (Hreps : Forall2 (wire_denotes hist refs) reps fs).
Context (Hused : forall i, i ∈ refs -> exists v, v ∈ reps /\ is_relative v = true /\ ric refs - w_varint v - 1 = i).
Context (Hst : is_u64 st) (Hv : values_ok (VPrefix (prefix_of_block (s_max s) refs))).
Abbreviation R := (ric refs).
Abbreviation T := (zlen (s_hist s)).
Abbreviation block := (images h (VPrefix (prefix_of_block (s_max s) refs) :: reps)).
(** The prefix and the table decide whether the rest is read now or later. *)
Lemma decode_begins d o : dec_rep d s -> decodable d s st R -> d_pds d !! o = Some (NewProgressiveDecoder st 0) -> exists id,
  let p := with_decoder (NewProgressiveDecoder st 0) id in let d1 := prefix_effect d o p R T in
  pd_Decode d o block = match images h reps with [] => Ok d1 | _ => if R >? T then Ok (set_pd d1 o { (begun p R) with pd_blocked := true; pd_buffer := images h reps }) else let* r := pd_decode_instructions d1 o (images h reps) in Ok (fst r) end.
Proof.
  intros Hd Hdc Hp. destruct (prefix_loop_ok o refs s h (images h reps) Hrefs Hv (image h (VPrefix (prefix_of_block (s_max s) refs))) [] d (NewProgressiveDecoder st 0) eq_refl) as (id & E); try done; [by destruct (image_head h _ Hv) as (y & tl & -> & _)|apply at_start_bytes|]. exists id. cbv zeta. unfold pd_Decode. rewrite (get_some _ _ _ Hp). cbn [res_bind].
  change (pd_decoding (NewProgressiveDecoder st 0)) with true. change (pd_errorDetected (NewProgressiveDecoder st 0)) with false. cbn [negb orb]. rewrite orb_false_r.
  assert (Hne : (zlen block =? 0) = false). { unfold images. cbn [map concat]. destruct (image_head h _ Hv) as (y & tl & -> & _). cbn [app]. rewrite zlen_cons. pose proof (zlen_nonneg (tl ++ concat (map (image h) reps))). lia. } rewrite Hne.
  change block with (image h (VPrefix (prefix_of_block (s_max s) refs)) ++ images h reps). rewrite E. cbn [res_bind]. destruct (images h reps) as [|x body] eqn:Eb; [reflexivity|]. rewrite (get_some _ _ _ (effect_pd d o _ R T)). cbn [res_bind]. destruct (R >? T); reflexivity.
Qed.
(** The references are there: the fields are told and the block is acknowledged. *)
Lemma block_now d : dec_rep d s -> decodable d s st R -> sees hist refs s -> R <= T -> 0 <= d_knownReceivedCount d < 2 ^ 63 ->
  exists d' o p, DecodeHeaderBlock d st block = Ok (d', o) /\ d_pds d !! o = None /\ after o (acks (d_knownReceivedCount d) st R T) (Z.max (d_knownReceivedCount d) T) (d_blockedStreams d) (dt_observers (d_table d)) d d' /\ d_pds d' !! o = Some p /\ ended p fs.
Proof.
  intros Hd Hdc Hsees Hle HK. unfold DecodeHeaderBlock, CreateProgressiveDecoder, CreateProgressiveDecoderWithMaxBufferedData. set (o := fresh (dom (d_pds d))). assert (Hfresh : d_pds d !! o = None) by (apply not_elem_of_dom; apply is_fresh).
  set (d0 := set_pd d o (NewProgressiveDecoder st 0)). assert (Hd0 : dec_rep d0 s) by exact (fr_table _ _ _ (frame_set o d _) s Hd). assert (Hdc0 : decodable d0 s st R) by (by destruct Hdc; split).
  destruct (decode_begins d0 o Hd0 Hdc0 (pds_set d o _)) as (id & E). cbv zeta in E. rewrite E. clear E. set (p := with_decoder (NewProgressiveDecoder st 0) id). unfold prefix_effect. replace (R >? T) with false by lia. repeat match goal with |- context [if false then ?a else ?b] => change (if false then a else b) with b end. unfold d0. rewrite set_set. set (d1 := set_pd d o (begun p R)). assert (F1 : frame o d d1) by apply frame_set.
  match goal with |- context [res_bind ?x _] => assert (Hread : exists d2 id2, x = Ok d2 /\ frame o d1 d2 /\ boundary id2 langRequestStream /\ d_pds d2 !! o = Some { (told (begun p R) fs R) with pd_instructionDecoder := id2 }) end.
  { destruct (images h reps) as [|x body] eqn:Eb.
    - apply (images_nil h langRequestStream) in Eb; [|exact (wire_sendable _ _ _ _ Hreps)]. rewrite Eb in Hreps. apply Forall2_nil_inv_l in Hreps. assert (refs = []) as Er. { destruct refs as [|i refs']; [done|]. exfalso. destruct (Hused i ltac:(left)) as (w & Hw & _). rewrite Eb in Hw. by apply not_elem_of_nil in Hw. }
      exists d1, (NewInstructionDecoder langRequestStream). split; [done|]. split; [apply frame_refl|]. split; [apply new_boundary|]. etransitivity; [exact (pds_set d o (begun p R))|]. rewrite Er, Hreps. reflexivity.
    - rewrite <- Eb. clear x body Eb. destruct (body_decoded o hist refs reps fs h Hrefs Hreps Hused s d1 (begun p R) Hsees (pds_set d o _) (fr_table _ _ _ F1 s Hd) eq_refl eq_refl eq_refl (new_boundary _)) as (d2 & id2 & E2 & F2 & Hb2 & Hp2). exists d2, id2. rewrite E2. split; [|done]. by destruct (images h reps). }
  destruct Hread as (d2 & id2 & -> & F2 & Hb2 & Hp2). cbn [res_bind]. unfold EndHeaderBlock. rewrite (get_some _ _ _ Hp2). cbn [res_bind]. match goal with |- context [negb (pd_blocked ?x)] => change (pd_blocked x) with false end. cbn [negb]. set (p2 := { (told (begun p R) fs R) with pd_instructionDecoder := id2 }) in *.
  assert (F02 : frame o d (set_pd d2 o { p2 with pd_decoding := false })) by (eapply frame_trans; [exact F1|]; eapply frame_trans; [exact F2|apply frame_set]). destruct (ric_range refs Hrefs) as [HR _].
  destruct (finished o (set_pd d2 o { p2 with pd_decoding := false }) { p2 with pd_decoding := false } st R T s fs Hst ltac:(lia)) as (d' & p' & E' & Ha & Hp' & Hen); try done; [by rewrite (fr_known _ _ _ F02)|exact (fr_table _ _ _ F02 s Hd)|exact (pds_set d2 o _)|].
  rewrite E'. cbn [res_bind]. exists d', o, p'. split; [reflexivity|]. split; [exact Hfresh|]. split; [|done]. rewrite (fr_known _ _ _ F02), (proj1 (fr_blocked _ _ _ F02)), (fr_observers _ _ _ F02) in Ha. replace (Z.max (Z.max (d_knownReceivedCount d) R) T) with (Z.max (d_knownReceivedCount d) T) in Ha by lia. by eapply frame_after.
Qed.
(** They are not: the rest of the block is kept, and an observer registered. *)
Lemma block_later d : dec_rep d s -> decodable d s st R -> R > T ->
  exists d' o p, DecodeHeaderBlock d st block = Ok (d', o) /\ d_pds d !! o = None /\ after o [] (d_knownReceivedCount d) ({[ st ]} ∪ d_blockedStreams d) (insert_observer R o (dt_observers (d_table d))) d d' /\ d_pds d' !! o = Some p /\ waiting p st R (images h reps).
Proof.
  intros Hd Hdc Hgt. unfold DecodeHeaderBlock, CreateProgressiveDecoder, CreateProgressiveDecoderWithMaxBufferedData. set (o := fresh (dom (d_pds d))). assert (Hfresh : d_pds d !! o = None) by (apply not_elem_of_dom; apply is_fresh).
  set (d0 := set_pd d o (NewProgressiveDecoder st 0)). assert (Hd0 : dec_rep d0 s) by exact (fr_table _ _ _ (frame_set o d _) s Hd). assert (Hdc0 : decodable d0 s st R) by (by destruct Hdc; split).
  destruct (decode_begins d0 o Hd0 Hdc0 (pds_set d o _)) as (id & E). cbv zeta in E. rewrite E. clear E. set (p := with_decoder (NewProgressiveDecoder st 0) id). unfold prefix_effect. replace (R >? T) with true by lia. repeat match goal with |- context [if true then ?a else ?b] => change (if true then a else b) with a end. change (pd_streamID p) with st. change (wait_for d0 o st R) with (set_pd (wait_for d o st R) o (NewProgressiveDecoder st 0)). rewrite set_set.
  assert (Hne : images h reps <> []). { intros Eb. apply (images_nil h langRequestStream) in Eb; [|exact (wire_sendable _ _ _ _ Hreps)]. pose proof (zlen_nonneg (s_hist s)). pose proof (ric_pos refs Hrefs) as Hpos. destruct refs as [|i refs']; [rewrite bool_decide_eq_true_2 in Hpos by done; lia|]. destruct (Hused i ltac:(left)) as (w & Hw & _). rewrite Eb in Hw. by apply not_elem_of_nil in Hw. }
  destruct (images h reps) as [|x body] eqn:Eb; [done|]. cbn [res_bind]. rewrite set_set. unfold EndHeaderBlock. rewrite get_set. cbn [res_bind]. match goal with |- context [negb (pd_blocked ?x)] => change (pd_blocked x) with true end. cbn [negb res_bind]. rewrite set_set. eexists _, o, _. split; [reflexivity|]. split; [exact Hfresh|]. split; [|split; [exact (pds_set (wait_for d o st R) o _)|by split; try done; apply new_boundary]].
  eapply after_frame; [|apply frame_set]. split; try done; [apply sent_none|by intros s0 [H1 H2]; split].
Qed.
End whole_block.

(** ** Blocks that wait *)
Lemma block_resumed o hist refs reps fs h s st d p : Forall (fun i => 0 <= i < 2 ^ 62) refs -> Forall2 (wire_denotes hist refs) reps fs ->
  (forall i, i ∈ refs -> exists v, v ∈ reps /\ is_relative v = true /\ ric refs - w_varint v - 1 = i) -> is_u64 st ->
  dec_rep d s -> d_pds d !! o = Some p -> waiting p st (ric refs) (images h reps) -> sees hist refs s -> ric refs <= zlen (s_hist s) -> 0 < ric refs -> 0 <= d_knownReceivedCount d < 2 ^ 63 ->
  exists d' p', OnInsertCountReachedThreshold d o = Ok d' /\ after o (acks (d_knownReceivedCount d) st (ric refs) (zlen (s_hist s))) (Z.max (d_knownReceivedCount d) (zlen (s_hist s))) (d_blockedStreams d ∖ {[ st ]}) (dt_observers (d_table d)) d d' /\ d_pds d' !! o = Some p' /\ ended p' fs.
Proof.
  intros Hrefs Hreps Hused Hst Hd Hp [W1 W2 W3 W4 W5 W6 W7 W8 W9 W10 W11] Hsees Hle Hpos HK. unfold OnInsertCountReachedThreshold. rewrite (get_some _ _ _ Hp). cbn [res_bind]. rewrite W1, W7.
  assert (Hne : (zlen (images h reps) >? 0) = true). { destruct (images h reps) as [|x body] eqn:Eb; [|rewrite zlen_cons; pose proof (zlen_nonneg body); lia]. exfalso. apply (images_nil h langRequestStream) in Eb; [|exact (wire_sendable _ _ _ _ Hreps)]. pose proof (ric_pos refs Hrefs) as Hp'. destruct refs as [|i refs']; [rewrite bool_decide_eq_true_2 in Hp' by done; lia|]. destruct (Hused i ltac:(left)) as (w & Hw & _). rewrite Eb in Hw. by apply not_elem_of_nil in Hw. } rewrite Hne.
  set (p1 := { p with pd_blocked := false }). change (OnStreamUnblocked (set_pd d o p1) st) with (set_pd (OnStreamUnblocked d st) o p1). rewrite get_set. cbn [res_bind]. rewrite set_set. change (pd_buffer p1) with (pd_buffer p). rewrite W7. set (p2 := { p1 with pd_buffer := [] }). set (d1 := set_pd (OnStreamUnblocked d st) o p2).
  assert (Hd1 : dec_rep d1 s) by (by destruct Hd; split). destruct (body_decoded o hist refs reps fs h Hrefs Hreps Hused s d1 p2 Hsees (pds_set _ o p2) Hd1 W2 W3 W4 W11) as (d2 & id2 & E2 & F2 & Hb2 & Hp2). rewrite E2. cbn [res_bind negb]. rewrite (get_some _ _ _ Hp2). cbn [res_bind]. match goal with |- context [negb ?x] => change x with (pd_decoding p) end. rewrite W8. cbn [negb].
  pose proof (fr_known _ _ _ F2) as Fk. pose proof (proj1 (fr_blocked _ _ _ F2)) as Fb. pose proof (fr_observers _ _ _ F2) as Fo. change (d_knownReceivedCount d1) with (d_knownReceivedCount d) in Fk. change (d_blockedStreams d1) with (d_blockedStreams d ∖ {[ st ]}) in Fb. change (dt_observers (d_table d1)) with (dt_observers (d_table d)) in Fo.
  destruct (finished o d2 _ st (ric refs) (zlen (s_hist s)) s fs Hst ltac:(lia) ltac:(by rewrite Fk) eq_refl (fr_table _ _ _ F2 s Hd1) Hp2) as (d' & p' & E' & Ha & Hp' & Hen); try done.
  { change (pd_handler p ++ map HeaderDecoded fs = map HeaderDecoded fs). by rewrite W9. }
  exists d', p'. split; [exact E'|]. split; [|done]. rewrite Fk, Fb, Fo in Ha. replace (Z.max (Z.max (d_knownReceivedCount d) (ric refs)) (zlen (s_hist s))) with (Z.max (d_knownReceivedCount d) (zlen (s_hist s))) in Ha by lia.
  pose proof (frame_after _ _ _ _ _ _ _ _ F2 Ha) as [B1 B2 B3 B4 B5 B6 B7 B8]. split; try done.
  - intros o' Ho. rewrite B7 by done. change (<[o := p2]> (d_pds d) !! o' = d_pds d !! o'). by rewrite lookup_insert_ne.
  - intros s0 [H1 H2]. apply B8. by split.
Qed.

(** Blocks in ghost form: the table when it was written, its references, its
    representations and its fields. *)
Record blk := mkBlk { b_stream : Z; b_hist : list Entry; b_refs : list Z; b_reps : list InstructionWithValues; b_fields : list HeaderField }.
Definition b_ric (b : blk) : Z := ric (b_refs b).
Record blk_ok (b : blk) : Prop := {
  bk_stream : is_u64 (b_stream b);
  bk_refs : Forall (fun i => 0 <= i < 2 ^ 62) (b_refs b);
  bk_reps : Forall2 (wire_denotes (b_hist b) (b_refs b)) (b_reps b) (b_fields b);
  bk_used : forall i, i ∈ b_refs b -> exists v, v ∈ b_reps b /\ is_relative v = true /\ b_ric b - w_varint v - 1 = i
}.
(** The blocks that wait, in the order of their observers. *)
Definition pending := list (nat * blk).
Definition p_observers (l : pending) : list (Z * nat) := map (fun x => (b_ric (snd x), fst x)) l.
Definition p_streams (l : pending) : gset Z := list_to_set (map (fun x => b_stream (snd x)) l).
Record pend_ok (h : bool) (d : Decoder) (l : pending) : Prop := {
  po_observers : dt_observers (d_table d) = p_observers l;
  po_blocked : d_blockedStreams d = p_streams l;
  po_once : NoDup (map fst l) /\ NoDup (map (fun x => b_stream (snd x)) l);
  po_blocks : forall o b, (o, b) ∈ l -> blk_ok b /\ 0 < b_ric b /\ exists p, d_pds d !! o = Some p /\ waiting p (b_stream b) (b_ric b) (images h (b_reps b))
}.
Fixpoint notify_acks (known T : Z) (l : pending) : list InstructionWithValues :=
  match l with [] => [] | (_, b) :: l' => acks known (b_stream b) (b_ric b) T ++ notify_acks (Z.max known T) T l' end.
Record notified (d d' : Decoder) (vs : list InstructionWithValues) (known : Z) (done : pending) : Prop := {
  nt_receiver : d_receiver d' = d_receiver d /\ d_receiverError d' = d_receiverError d;
  nt_sender : sent_more (d_sender d) (d_sender d') vs;
  nt_known : d_knownReceivedCount d' = known;
  nt_max : d_maximumBlockedStreams d' = d_maximumBlockedStreams d;
  nt_errors : d_errors d' = d_errors d;
  nt_pds : forall o, o ∉ map fst done -> d_pds d' !! o = d_pds d !! o;
  nt_done : forall o b, (o, b) ∈ done -> exists p, d_pds d' !! o = Some p /\ ended p (b_fields b)
}.
(** The first does not have its entries; the others have. *)
Definition head_waits (T : Z) (l : pending) : Prop := match l with [] => True | (_, b) :: _ => T < b_ric b end.
Definition ready (T : Z) (l : pending) : Prop := forall o b, (o, b) ∈ l -> b_ric b <= T.
Lemma ready_nil T : ready T [].
Proof. intros o b Hb. by apply not_elem_of_nil in Hb. Qed.
Lemma streams_cons o b l : p_streams ((o, b) :: l) = {[ b_stream b ]} ∪ p_streams l.
Proof. reflexivity. Qed.
Lemma elem_streams st l : st ∈ p_streams l <-> st ∈ map (fun x : nat * blk => b_stream (snd x)) l.
Proof. unfold p_streams. by rewrite elem_of_list_to_set. Qed.
Lemma pend_step h d d1 o b l vs k : pend_ok h d ((o, b) :: l) -> after o vs k (d_blockedStreams d ∖ {[ b_stream b ]}) (p_observers l) d d1 -> pend_ok h d1 l.
Proof.
  intros [P1 P2 [P3 P3'] P4] [A1 A2 A3 [A4 A4'] A5 A6 A7 A8]. cbn [map fst snd] in P3, P3'. apply list.NoDup_cons in P3 as [Ho P3]. apply list.NoDup_cons in P3' as [Hst P3']. split; [exact A6| |done|].
  - rewrite A4, P2, streams_cons. apply set_eq. intros x. rewrite elem_of_difference, elem_of_union, elem_of_singleton, elem_streams. split; [by intros [[?|?] ?]|]. intros Hx. split; [by right|]. intros ->. by apply Hst.
  - intros o' b' Hb'. destruct (P4 o' b' ltac:(by right)) as (H1 & H2 & p & H3 & H4). split; [done|]. split; [done|]. exists p. split; [|done]. rewrite A7; [done|]. intros ->. apply Ho. apply list_elem_of_fmap. exists (o, b'). split; [done|exact Hb'].
Qed.
Lemma notify_ok h s l : forall d fuel, (length l <= fuel)%nat -> pend_ok h d l -> dec_rep d s -> 0 <= d_knownReceivedCount d <= zlen (s_hist s) ->
  (forall o b, (o, b) ∈ l -> b_ric b <= zlen (s_hist s) -> sees (b_hist b) (b_refs b) s) ->
  exists d' done rest, l = done ++ rest /\ notify_loop fuel d (zlen (s_hist s)) = Ok d' /\ pend_ok h d' rest /\ dec_rep d' s
    /\ notified d d' (notify_acks (d_knownReceivedCount d) (zlen (s_hist s)) done) (if bool_decide (done = []) then d_knownReceivedCount d else zlen (s_hist s)) done
    /\ head_waits (zlen (s_hist s)) rest /\ ready (zlen (s_hist s)) done.
Proof.
  induction l as [|[o b] l IH]; intros d fuel Hf Hpo Hd HK Hsees.
  - exists d, [], []. split; [done|]. split. { pose proof (po_observers _ _ _ Hpo) as Ho. destruct fuel; cbn [notify_loop]; unfold next_observer; rewrite Ho; reflexivity. }
    split; [done|]. split; [done|]. split; [|split; [done|apply ready_nil]]. split; try done; [apply sent_none|]. intros o b Hb. by apply not_elem_of_nil in Hb.
  - pose proof (po_observers _ _ _ Hpo) as Ho. cbn [p_observers map fst snd] in Ho. destruct fuel as [|fuel]; [cbn in Hf; lia|]. pose proof (br_count _ _ _ (dr_base _ _ Hd)) as Hc. cbn [notify_loop]. unfold next_observer. rewrite Ho. destruct (b_ric b >? zlen (s_hist s)) eqn:E; bool_simpl.
    + exists d, [], ((o, b) :: l). split; [done|]. split; [done|]. split; [done|]. split; [done|]. split; [|split; [cbn; lia|apply ready_nil]]. split; try done; [apply sent_none|]. intros o' b' Hb. by apply not_elem_of_nil in Hb.
    + set (d0 := { d with d_table := { (d_table d) with dt_observers := map (fun x : nat * blk => (b_ric (snd x), fst x)) l } }). destruct (po_blocks _ _ _ Hpo o b ltac:(left)) as ([K1 K2 K3 K4] & Hpos & p & Hp & Hw).
      destruct (block_resumed o (b_hist b) (b_refs b) (b_reps b) (b_fields b) h s (b_stream b) d0 p K2 K3 K4 K1 ltac:(by destruct Hd; split) Hp Hw (Hsees o b ltac:(left) E) E Hpos ltac:(change (0 <= d_knownReceivedCount d < 2 ^ 63); lia)) as (d1 & p1 & E1 & Ha & Hp1 & Hen). fold (b_ric b) in *. rewrite E1. cbn [res_bind].
      change (d_knownReceivedCount d0) with (d_knownReceivedCount d) in Ha. replace (Z.max (d_knownReceivedCount d) (zlen (s_hist s))) with (zlen (s_hist s)) in Ha by lia.
      assert (Ha' : after o (acks (d_knownReceivedCount d) (b_stream b) (b_ric b) (zlen (s_hist s))) (zlen (s_hist s)) (d_blockedStreams d ∖ {[ b_stream b ]}) (p_observers l) d d1) by (destruct Ha as [A1 A2 A3 A4 A5 A6 A7 A8]; split; try done; intros s0 [H1 H2]; apply A8; by split).
      pose proof (pend_step _ _ _ _ _ _ _ _ Hpo Ha') as Hpo1. pose proof (af_known _ _ _ _ _ _ _ Ha') as Hk1.
      destruct (IH d1 fuel ltac:(cbn in Hf; lia) Hpo1 (af_table _ _ _ _ _ _ _ Ha' s Hd) ltac:(rewrite Hk1; lia) ltac:(intros o' b' Hb'; apply (Hsees o'); by right)) as (d2 & done & rest & -> & E2 & Hpo2 & Hd2 & Hnt & Hrest & Hready).
      exists d2, ((o, b) :: done), rest. split; [done|]. split; [exact E2|]. split; [exact Hpo2|]. split; [exact Hd2|]. split; [|split; [exact Hrest|intros o' b' Hb'; apply elem_of_cons in Hb' as [[= -> ->]|Hb']; [exact E|by eapply Hready]]]. rewrite bool_decide_eq_false_2 by done. rewrite Hk1 in Hnt. destruct Hnt as [[N1 N1'] N2 N3 N4 N5 N6 N7], Ha' as [[A1 A1'] A2 A3 [A4 A4'] A5 A6 A7 A8].
      assert (Hod : o ∉ map fst done). { destruct (po_once _ _ _ Hpo) as [Hnd _]. cbn [map fst] in Hnd. apply list.NoDup_cons in Hnd as [Hnd _]. intros Hin. apply Hnd. rewrite map_app. apply elem_of_app. by left. }
      split; try congruence; [split; congruence| | | |].
      * cbn [notify_acks]. replace (Z.max (d_knownReceivedCount d) (zlen (s_hist s))) with (zlen (s_hist s)) by lia. by eapply sent_trans.
      * rewrite N3. by destruct (bool_decide (done = [])).
      * intros o' Ho'. cbn [map fst] in Ho'. apply not_elem_of_cons in Ho' as [Ho1 Ho2]. by rewrite N6, A7.
      * intros o' b' Hb'. apply elem_of_cons in Hb' as [[= -> ->]|Hb']; [|by apply N7]. exists p1. split; [|done]. by rewrite N6.
Qed.

(** ** Instructions of the encoder stream *)
Section instructions.
Context (h : bool) (s : table_spec) (d : Decoder) (l : pending).
Context (Hd : dec_rep d s) (Hpo : pend_ok h d l) (HK : 0 <= d_knownReceivedCount d <= zlen (s_hist s)).
(** What an instruction leads to: the new table, and the blocks that can go on. *)
Definition leads_to (s' : table_spec) (r : run Decoder) : Prop :=
  exists d' done rest, l = done ++ rest /\ r = Ok d' /\ pend_ok h d' rest /\ dec_rep d' s'
    /\ notified d d' (notify_acks (d_knownReceivedCount d) (zlen (s_hist s')) done) (if bool_decide (done = []) then d_knownReceivedCount d else zlen (s_hist s')) done
    /\ head_waits (zlen (s_hist s')) rest /\ ready (zlen (s_hist s')) done.
Lemma insert_leads e : op_ok s (OpInsert e) -> (forall o b, (o, b) ∈ l -> b_ric b <= zlen (s_hist s) + 1 -> sees (b_hist b) (b_refs b) (spec_op s (OpInsert e))) ->
  leads_to (spec_op s (OpInsert e)) (dt_InsertEntry d (Name e) (Value e)).
Proof.
  intros (He & Hfit & Hz) Hsees. destruct Hd as [Hb [I1 I2 I3]]. rewrite <- I1 in Hfit. destruct (dt_insert (d_table d) _ _ e Hb He Hz Hfit) as (t' & E & Hb' & Hs & Ho & Ht). unfold dt_InsertEntry. rewrite E. cbn [res_bind fst]. set (d1 := { d with d_table := t' }). set (s' := spec_op s (OpInsert e)) in *.
  apply settings_eq in Hs as [Hs1 Hs2]. rewrite I1 in *. assert (Hd1 : dec_rep d1 s') by (split; [exact Hb'|]; split; [exact Hs1|exact (eq_trans Hs2 I2)|exact Ht]).
  assert (Hlen : zlen (s_hist s') = zlen (s_hist s) + 1) by (change (zlen (s_hist s ++ [e]) = zlen (s_hist s) + 1); by rewrite zlen_app, zlen_cons, zlen_nil).
  assert (Hpo1 : pend_ok h d1 l) by (destruct Hpo as [P1 P2 P3 P4]; split; try done; exact (eq_trans Ho P1)). change (dt_base (d_table d1)) with (dt_base t'). rewrite (inserted_count _ _ _ Hb'). change (zlen (s_hist s ++ [e])) with (zlen (s_hist s')).
  destruct (notify_ok h s' l d1 (List.length (dt_observers (d_table d1))) ltac:(change (d_table d1) with t'; rewrite Ho, (po_observers _ _ _ Hpo); unfold p_observers; by rewrite length_map) Hpo1 Hd1 ltac:(change (0 <= d_knownReceivedCount d <= zlen (s_hist s')); lia) ltac:(intros o b Hob Hle; apply (Hsees o b Hob); lia)) as (d' & done & rest & Hl & En & Hpo' & Hd' & Hnt & Hrest).
  exists d', done, rest. split; [exact Hl|]. split; [exact En|]. split; [exact Hpo'|]. split; [exact Hd'|]. split; [|exact Hrest]. destruct Hnt as [N1 N2 N3 N4 N5 N6 N7]. by split.
Qed.
Lemma capacity_leads c : is_u64 c -> c <= s_max s -> head_waits (zlen (s_hist s)) l -> leads_to (spec_op s (OpCapacity c)) (dec_SetDynamicTableCapacity d c).
Proof.
  intros Hc Hle Hw. destruct Hd as [Hb [I1 I2 I3]]. unfold is_u64 in Hc. destruct (@set_capacity _ _ DecoderHeaderTable_rep (d_table d) _ _ c Hb ltac:(change (0 <= c <= tb_maximum (dt_base (d_table d))); rewrite I2; lia)) as (t' & E & Hr' & Hs & Ho). unfold dec_SetDynamicTableCapacity. rewrite E. cbn [res_bind fst snd]. injection Hs as Hs1 Hs2 _ _. cbn [spec_op]. replace (c >? s_max s) with false by lia.
  exists { d with d_table := t' }, [], l. split; [done|]. split; [reflexivity|]. split; [destruct Hpo as [P1 P2 P3 P4]; split; try done; exact (eq_trans Ho P1)|]. split.
  { split; [exact Hr'|]. split; [exact Hs1|exact (eq_trans Hs2 I2)|cbn [s_hist s_dropped s_cap]; rewrite <- drop_drop; apply evict_fits; lia]. }
  split; [|split; [exact Hw|apply ready_nil]]. split; try done; [apply sent_none|]. intros o b Hb'. by apply not_elem_of_nil in Hb'.
Qed.
Lemma fits_ok e : op_ok s (OpInsert e) -> fits_table d (Name e) (Value e) = true.
Proof.
  intros (He & Hfit & _). destruct (entry_bytes_ok e He) as [Hes _]. unfold fits_table, tb_EntryFits. rewrite <- entry_size_of, Hes. pose proof (im_cap _ _ (dr_impl _ _ Hd)) as I1. match goal with |- context [_ <=? ?y] => change y with (tb_capacity (dt_base (d_table d))) end. rewrite I1. lia.
Qed.
Lemma live_lookup x e : 0 <= x < 2 ^ 62 -> live s (zlen (s_hist s) - x - 1) = Some e ->
  EncoderStreamRelativeIndexToAbsoluteIndex x (InsertedEntryCount (dt_base (d_table d))) = Some (zlen (s_hist s) - x - 1) /\ LookupEntry (d_table d) false (zlen (s_hist s) - x - 1) = Ok (Some e).
Proof.
  intros Hx Hl. destruct Hd as [Hb _]. pose proof (br_count _ _ _ Hb). unfold live in Hl. destruct (Z.of_nat (s_dropped s) <=? zlen (s_hist s) - x - 1) eqn:E; [|done]. bool_simpl. rewrite (inserted_count _ _ _ Hb). unfold EncoderStreamRelativeIndexToAbsoluteIndex. replace (x >=? zlen (s_hist s)) with false by lia. rewrite u64_small by (unfold is_u64; lia). split; [done|]. rewrite (lookup_dynamic _ _ _ _ Hb) by (unfold is_u64; lia). replace (Z.of_nat (s_dropped s) <=? zlen (s_hist s) - x - 1) with true by lia. by rewrite Hl.
Qed.
(** An instruction the encoder may send is carried out as the encoder means it. *)
Lemma instruction_leads v s' : stream_step s v s' -> head_waits (zlen (s_hist s)) l -> (forall o b, (o, b) ∈ l -> b_ric b <= zlen (s_hist s') -> sees (b_hist b) (b_refs b) s') ->
  exists r, leads_to s' r /\ dec_instruction v d = let* d' := r in Ok (d', true).
Proof.
  intros (op & Hop & Hok & Hcap & -> & Hx & Hst) Hw Hsees. assert (Hins : forall e, op = OpInsert e -> leads_to (spec_op s op) (dt_InsertEntry d (Name e) (Value e)) /\ fits_table d (Name e) (Value e) = true).
  { intros e ->. split; [|by apply fits_ok]. apply insert_leads; [done|]. intros o b Hob Hle. apply (Hsees o b Hob). change (b_ric b <= zlen (s_hist s ++ [e])). by rewrite zlen_app, zlen_cons, zlen_nil. }
  unfold stream_op in Hop. unfold dec_instruction. destruct (w_instruction v); try discriminate.
  - unfold dec_InsertWithNameReference. destruct (w_sBit v).
    + unfold LookupEntry. specialize (Hst eq_refl). replace (w_varint v >=? 99) with false by lia. cbn [res_bind]. revert Hop. destruct (staticTable !! Z.to_nat (w_varint v)) as [e|]; intros Hop; [|discriminate]. injection Hop as <-. destruct (Hins _ eq_refl) as [H1 H2]. cbn [Name Value] in H1, H2. rewrite H2. cbn [negb]. by eexists.
    + destruct (live s _) as [e|] eqn:El; [|discriminate]. injection Hop as <-. destruct (live_lookup _ e Hx El) as [E1 E2]. rewrite E1, E2. cbn [res_bind]. destruct (Hins _ eq_refl) as [H1 H2]. cbn [Name Value] in H1, H2. rewrite H2. cbn [negb]. by eexists.
  - injection Hop as <-. destruct (Hins _ eq_refl) as [H1 H2]. cbn [Name Value] in H1, H2. unfold dec_InsertWithoutNameReference. rewrite H2. cbn [negb]. by eexists.
  - destruct (live s _) as [e|] eqn:El; [|discriminate]. injection Hop as <-. destruct (live_lookup _ e Hx El) as [E1 E2]. unfold dec_Duplicate. rewrite E1, E2. cbn [res_bind]. destruct (Hins _ eq_refl) as [H1 H2]. rewrite H2. cbn [negb]. by eexists.
  - injection Hop as <-. cbn [op_ok] in Hok. eexists. split; [by apply capacity_leads|done].
Qed.
End instructions.
