(* ===== verification/QpackSession.v ===== *)
(** * QPACK: an encoder and a decoder that are connected

    Composes [QpackEncoder] and [QpackDecoder] the way a connection uses
    [src/proto/codec/qpack/encoder.go] and [decoder.go]: header blocks on request streams,
    the instructions of the encoder on one control stream, the feedback of the decoder on
    another.  The three kinds of stream are not synchronised: a block can arrive before
    the instructions it depends on, bytes of the control streams arrive in any pieces, and
    the decoder flushes its feedback when it likes.

    The theorem: whatever the schedule, nothing panics and neither side reports an error;
    every block that was handed to the decoder is either waiting for entries or has been
    told to its handler exactly, field for field; and none waits once the control stream
    has arrived. *)

From stdpp Require Import gmap sorting.
From S2P Require Import Prelude HpackInt Huffman QpackBase QpackInstr QpackTable QpackBlocking QpackEncoder QpackDecoder.
Open Scope Z_scope.

(** ** Instructions on the control streams *)
Lemma step_grows s v s' : stream_step s v s' -> s_hist s `prefix_of` s_hist s' /\ (s_dropped s <= s_dropped s')%nat /\ s_max s' = s_max s.
Proof.
  intros (o & Hop & _ & _ & -> & _). destruct o as [e|c|m]; cbn [spec_op].
  - cbn [s_hist s_dropped s_max]. unfold after_insert. split; [by apply prefix_app_r|]. split; [lia|done].
  - destruct (_ >? _); cbn [s_hist s_dropped s_max]; split_and!; try done; lia.
  - unfold stream_op in Hop. destruct (w_instruction v); try discriminate; [|destruct (live s _); discriminate]. revert Hop. destruct (w_sBit v); [generalize (staticTable !! Z.to_nat (w_varint v))|generalize (live s (zlen (s_hist s) - w_varint v - 1))]; intros [e|]; discriminate.
Qed.
Lemma run_grows vs : forall s s', stream_run s vs s' -> s_hist s `prefix_of` s_hist s' /\ (s_dropped s <= s_dropped s')%nat /\ s_max s' = s_max s.
Proof.
  induction vs as [|v vs IH]; intros s s'; cbn [stream_run]; [intros ->; done|]. intros (s1 & H1 & H2). apply step_grows in H1 as (A1 & A2 & A3). apply IH in H2 as (B1 & B2 & B3). split; [by etransitivity|]. split; [lia|congruence].
Qed.
Lemma run_app vs ws : forall s s', stream_run s (vs ++ ws) s' <-> exists s1, stream_run s vs s1 /\ stream_run s1 ws s'.
Proof.
  induction vs as [|v vs IH]; intros s s'; cbn [stream_run app]; [split; [by exists s|by intros (s1 & -> & H)]|]. split.
  - intros (s1 & H1 & H2). apply IH in H2 as (s2 & H2 & H3). exists s2. split; [by exists s1|done].
  - intros (s2 & (s1 & H1 & H2) & H3). exists s1. split; [done|]. apply IH. by exists s2.
Qed.

(** The feedback of the decoder, on the specification of the encoder's blocks. *)
Definition fb_step (sp : block_spec) (v : InstructionWithValues) (sp' : block_spec) : Prop :=
  match w_instruction v with
  | HeaderAcknowledgement => exists l ls, bs_out sp (w_varint v) = l :: ls /\ sp' = mkBS (upd (bs_out sp) (w_varint v) ls) (Z.max (bs_known sp) (ric l))
  | InsertCountIncrement => 0 < w_varint v /\ sp' = mkBS (bs_out sp) (bs_known sp + w_varint v)
  | _ => False
  end.
Fixpoint fb_run (sp : block_spec) (vs : list InstructionWithValues) (sp' : block_spec) : Prop :=
  match vs with [] => sp' = sp | v :: vs' => exists sp1, fb_step sp v sp1 /\ fb_run sp1 vs' sp' end.
Lemma fb_app vs ws : forall sp sp', fb_run sp (vs ++ ws) sp' <-> exists sp1, fb_run sp vs sp1 /\ fb_run sp1 ws sp'.
Proof.
  induction vs as [|v vs IH]; intros sp sp'; cbn [fb_run app]; [split; [by exists sp|by intros (sp1 & -> & H)]|]. split.
  - intros (sp1 & H1 & H2). apply IH in H2 as (sp2 & H2 & H3). exists sp2. split; [by exists sp1|done].
  - intros (sp2 & (sp1 & H1 & H2) & H3). exists sp1. split; [done|]. apply IH. by exists sp2.
Qed.
Lemma fb_shrinks vs : forall sp sp', fb_run sp vs sp' -> bs_known sp <= bs_known sp' /\ forall st, exists a, bs_out sp st = a ++ bs_out sp' st.
Proof.
  induction vs as [|v vs IH]; intros sp sp'; cbn [fb_run]; [intros ->; split; [lia|]; intros st; by exists []|]. intros (sp1 & H1 & H2). apply IH in H2 as [B1 B2]. unfold fb_step in H1. destruct (w_instruction v); try done.
  - destruct H1 as (l & ls & Hl & ->). cbn [bs_known bs_out] in *. split; [lia|]. intros st. destruct (B2 st) as (a & Ha). unfold upd in Ha. destruct (st =? w_varint v) eqn:E; bool_simpl; [|by exists a]. subst st. exists (l :: a). rewrite Hl, Ha. done.
  - destruct H1 as [H1 ->]. cbn [bs_known bs_out] in *. split; [lia|done].
Qed.
(** More blocks behind those outstanding do not change what feedback means. *)
Definition extends (sp sp1 : block_spec) (f : Z -> list (list Z)) : Prop := bs_known sp1 = bs_known sp /\ forall st, bs_out sp1 st = bs_out sp st ++ f st.
Lemma fb_extends vs f : forall sp sp' sp1, fb_run sp vs sp' -> extends sp sp1 f -> exists sp1', fb_run sp1 vs sp1' /\ extends sp' sp1' f.
Proof.
  induction vs as [|v vs IH]; intros sp sp' sp1; cbn [fb_run]; [intros -> He; by exists sp1|]. intros (sp2 & H1 & H2) [E1 E2]. unfold fb_step in *. destruct (w_instruction v); try done.
  - destruct H1 as (l & ls & Hl & ->). destruct (IH _ _ (mkBS (upd (bs_out sp1) (w_varint v) (ls ++ f (w_varint v))) (Z.max (bs_known sp1) (ric l))) H2) as (sp1' & H3 & H4).
    + split; cbn [bs_known bs_out]; [by rewrite E1|]. intros st. unfold upd. destruct (st =? w_varint v) eqn:E; bool_simpl; [by subst|apply E2].
    + exists sp1'. split; [|done]. eexists. split; [|exact H3]. exists l, (ls ++ f (w_varint v)). split; [|done]. by rewrite E2, Hl.
  - destruct H1 as [H1 ->]. destruct (IH _ _ (mkBS (bs_out sp1) (bs_known sp1 + w_varint v)) H2) as (sp1' & H3 & H4); [split; cbn [bs_known bs_out]; [by rewrite E1|apply E2]|]. exists sp1'. split; [|done]. by eexists.
Qed.
(** The encoder takes it in. *)
Lemma fb_received us sE n : forall e sp sp', enc_inv e sE sp n -> n < 2 ^ 62 -> fb_run sp us sp' -> bs_known sp' <= zlen (s_hist sE) ->
  exists e', interp (map Called us) e = Ok (e', true) /\ enc_inv e' sE sp' n /\ enc_same e e'.
Proof.
  induction us as [|v us IH]; intros e sp sp' Hi Hn; cbn [fb_run map interp]; [intros -> _; by exists e|]. intros (sp1 & H1 & H2) Hk. destruct (fb_shrinks _ _ _ H2) as [Hk1 _].
  assert (Hstep : exists e1, OnInstructionDecoded v e = Ok (e1, true) /\ enc_inv e1 sE sp1 n /\ enc_same e e1).
  { unfold fb_step in H1. cbn [OnInstructionDecoded DecoderStreamReceiver]. destruct (w_instruction v); try done.
    - destruct H1 as (l & ls & Hl & ->). destruct (ack_inv e sE sp n _ l ls Hi Hn Hl) as [A1 A2]. eexists. by split.
    - destruct H1 as [Hp ->]. cbn [bs_known] in Hk1. destruct (incr_inv e sE sp n (w_varint v) Hi Hp ltac:(lia)) as [A1 A2]. eexists. by split. }
  destruct Hstep as (e1 & E1 & Hi1 & Hs1). rewrite E1. destruct (IH e1 sp1 sp' Hi1 Hn H2 Hk) as (e2 & E2 & Hi2 & Hs2). exists e2. split; [exact E2|]. split; [exact Hi2|]. unfold enc_same in *. rewrite Hs2, Hs1. reflexivity.
Qed.
(** The acknowledgement of one block. *)
Lemma acks_run sp K st R T : bs_known sp = K -> 0 <= K -> 0 <= R -> (0 < R -> exists l ls, bs_out sp st = l :: ls /\ ric l = R) ->
  exists sp', fb_run sp (acks K st R T) sp' /\ bs_known sp' = Z.max (Z.max K R) T /\ forall st', bs_out sp' st' = if (st' =? st) && (R >? 0) then tail (bs_out sp st) else bs_out sp st'.
Proof.
  intros HK HK0 HR Hl. unfold acks. assert (H1 : exists sp1, fb_run sp (if R >? 0 then [VHeaderAcknowledgement st] else []) sp1 /\ bs_known sp1 = Z.max K R /\ forall st', bs_out sp1 st' = if (st' =? st) && (R >? 0) then tail (bs_out sp st) else bs_out sp st').
  { destruct (R >? 0) eqn:E; bool_simpl.
    - destruct (Hl ltac:(lia)) as (l & ls & Hout & Hric). eexists. split; [cbn [fb_run]; eexists; split; [|reflexivity]; exists l, ls; split; [exact Hout|reflexivity]|]. cbn [bs_known bs_out]. split; [by rewrite HK, Hric|]. intros st'. rewrite andb_true_r, Hout. reflexivity.
    - exists sp. split; [done|]. split; [lia|]. intros st'. by rewrite andb_false_r. }
  destruct H1 as (sp1 & F1 & K1 & O1). destruct (Z.max K R <? T) eqn:E; bool_simpl.
  - eexists (mkBS (bs_out sp1) (bs_known sp1 + (T - Z.max K R))). split; [|cbn [bs_known bs_out]; split; [lia|exact O1]]. apply fb_app. exists sp1. split; [exact F1|]. cbn [fb_run]. eexists. split; [|reflexivity]. split; [|reflexivity]. change (0 < T - Z.max K R). lia.
  - exists sp1. rewrite app_nil_r. split; [exact F1|]. split; [lia|exact O1].
Qed.

(** ** The blocks that the decoder has not finished *)

(** Per stream, the references of the blocks that wait or are on their way, oldest first. *)
Definition on_stream (st : Z) (b : blk) : bool := (b_stream b =? st) && negb (bool_decide (b_refs b = [])).
Definition ledger (bs : list blk) (st : Z) : list (list Z) := map b_refs (List.filter (on_stream st) bs).
Lemma ledger_app a b st : ledger (a ++ b) st = ledger a st ++ ledger b st.
Proof. unfold ledger. by rewrite filter_app, map_app. Qed.
Lemma ledger_cons b bs st : ledger (b :: bs) st = if on_stream st b then b_refs b :: ledger bs st else ledger bs st.
Proof. unfold ledger. cbn [List.filter]. by destruct (on_stream st b). Qed.
Lemma ledger_none bs st : (forall b, b ∈ bs -> b_stream b <> st) -> ledger bs st = [].
Proof.
  intros H. induction bs as [|b bs IH]; [done|]. rewrite ledger_cons. unfold on_stream. replace (b_stream b =? st) with false by (specialize (H b ltac:(left)); lia). cbn [andb]. apply IH. intros b' Hb. apply H. by right.
Qed.
Lemma ledger_in bs st l : l ∈ ledger bs st <-> exists b, b ∈ bs /\ b_stream b = st /\ b_refs b <> [] /\ b_refs b = l.
Proof.
  unfold ledger. rewrite list_elem_of_In, in_map_iff. split.
  - intros (b & Hl & Hb). apply filter_In in Hb as [Hb Hs]. exists b. unfold on_stream in Hs. apply andb_true_iff in Hs as [Hs1 Hs2]. bool_simpl. apply bool_decide_eq_false in Hs2. split; [by apply list_elem_of_In|done].
  - intros (b & Hb & Hst & Hne & Hl). exists b. split; [done|]. apply filter_In. split; [by apply list_elem_of_In|]. unfold on_stream. rewrite bool_decide_eq_false_2 by done. rewrite Hst, Z.eqb_refl. done.
Qed.
Lemma ric_refs b : blk_ok b -> (0 < b_ric b <-> b_refs b <> []).
Proof. intros [_ Hr _ _]. pose proof (ric_pos _ Hr) as Hp. unfold b_ric. destruct (b_refs b); [rewrite bool_decide_eq_true_2 in Hp by done; split; [lia|done]|rewrite bool_decide_eq_false_2 in Hp by done; split; [done|lia]]. Qed.
(** Completing the blocks at the front is a run of feedback. *)
Lemma notify_run T done : forall sp K bs, bs_known sp = K -> 0 <= K <= T -> (forall o b, (o, b) ∈ done -> blk_ok b /\ 0 < b_ric b <= T) -> (forall st, bs_out sp st = ledger (map snd done ++ bs) st) ->
  exists sp', fb_run sp (notify_acks K T done) sp' /\ bs_known sp' = (if bool_decide (done = []) then K else T) /\ forall st, bs_out sp' st = ledger bs st.
Proof.
  induction done as [|[o b] done IH]; intros sp K bs HK HT Hok Hout; cbn [notify_acks]; [exists sp; by split_and!|]. destruct (Hok o b ltac:(left)) as [Hb HR]. pose proof (proj1 (ric_refs b Hb) ltac:(lia)) as Hne.
  assert (Hhead : bs_out sp (b_stream b) = b_refs b :: ledger (map snd done ++ bs) (b_stream b)). { rewrite Hout. cbn [map snd app]. rewrite ledger_cons. unfold on_stream. by rewrite Z.eqb_refl, bool_decide_eq_false_2. }
  destruct (acks_run sp K (b_stream b) (b_ric b) T HK ltac:(lia) ltac:(lia)) as (sp1 & F1 & K1 & O1); [intros _; by eexists _, _|]. replace (Z.max (Z.max K (b_ric b)) T) with T in K1 by lia. replace (Z.max K T) with T by lia. rewrite bool_decide_eq_false_2 by done.
  destruct (IH sp1 T bs K1 ltac:(lia) ltac:(intros o' b' Hb'; apply (Hok o'); by right)) as (sp' & F2 & K2 & O2).
  - intros st. rewrite O1. replace (b_ric b >? 0) with true by lia. rewrite andb_true_r. destruct (st =? b_stream b) eqn:E; bool_simpl; [subst; by rewrite Hhead|]. rewrite Hout. cbn [map snd app]. rewrite ledger_cons. unfold on_stream. by replace (b_stream b =? st) with false by lia.
  - exists sp'. split; [apply fb_app; by exists sp1|]. split; [rewrite K2; by destruct (bool_decide (done = []))|exact O2].
Qed.

(** The order in which they wait. *)
Fixpoint insert_pending (o : nat) (b : blk) (l : pending) : pending :=
  match l with [] => [(o, b)] | x :: l' => if b_ric (snd x) >? b_ric b then (o, b) :: l else x :: insert_pending o b l' end.
Lemma insert_pending_observers o b l : p_observers (insert_pending o b l) = insert_observer (b_ric b) o (p_observers l).
Proof. induction l as [|[o' b'] l IH]; [done|]. cbn [insert_pending p_observers map insert_observer fst snd]. destruct (b_ric b' >? b_ric b); [done|]. cbn [map fst snd]. f_equal. exact IH. Qed.
Lemma insert_pending_perm o b l : insert_pending o b l ≡ₚ (o, b) :: l.
Proof. induction l as [|x l IH]; [done|]. cbn [insert_pending]. destruct (_ >? _); [done|]. rewrite IH. apply Permutation_swap. Qed.
Definition in_order (l : pending) : Prop := StronglySorted (fun x y : nat * blk => b_ric (snd x) <= b_ric (snd y)) l.
Lemma insert_pending_order o b l : in_order l -> in_order (insert_pending o b l).
Proof.
  unfold in_order. induction 1 as [|x l Hs IH Hx]; cbn [insert_pending]; [by repeat constructor|]. destruct (_ >? _) eqn:E; bool_simpl.
  - constructor; [by constructor|]. apply Forall_cons_2; [cbn [snd]; lia|]. revert Hx. apply Forall_impl. intros y. cbn [snd]. lia.
  - constructor; [exact IH|]. rewrite insert_pending_perm. apply Forall_cons_2; [cbn [snd]; lia|exact Hx].
Qed.
Lemma order_tail a l : in_order (a ++ l) -> in_order l.
Proof. induction a as [|x a IH]; [done|]. cbn [app]. intros H. inversion H; subst. by apply IH. Qed.
Lemma all_wait T l : in_order l -> head_waits T l -> forall o b, (o, b) ∈ l -> T < b_ric b.
Proof.
  intros H Hh o b Hb. destruct H as [|[o' b'] l _ Hx]; [by apply not_elem_of_nil in Hb|]. cbn in Hh. apply elem_of_cons in Hb as [[= -> ->]|Hb]; [done|]. rewrite Forall_forall in Hx. specialize (Hx _ (proj1 (list_elem_of_In _ _) Hb)). cbn [snd] in Hx. lia.
Qed.

(** ** The encoder stream, against the table of the encoder *)
Definition safe (H : list Entry) (dropped : nat) (b : blk) : Prop := b_hist b `prefix_of` H /\ forall i, i ∈ b_refs b -> Z.of_nat dropped <= i < zlen (b_hist b).
Lemma safe_sees H dr b s : safe H dr b -> blk_ok b -> s_hist s `prefix_of` H -> (s_dropped s <= dr)%nat -> b_ric b <= zlen (s_hist s) -> sees (b_hist b) (b_refs b) s.
Proof.
  intros [Hp Hl] [_ Hr _ _] Hs Hd Hle i e Hi He. specialize (Hl i Hi). split; [lia|]. destruct (ric_range _ Hr) as [_ Hin]. specialize (Hin i Hi). unfold b_ric in Hle. pose proof (prefix_lookup_Some _ _ _ _ He Hp) as HeH.
  destruct (lookup_lt_is_Some_2 (s_hist s) (Z.to_nat i) ltac:(unfold zlen in *; lia)) as [e' He']. pose proof (prefix_lookup_Some _ _ _ _ He' Hs) as He''. congruence.
Qed.
Lemma notified_trans d d1 d2 vs ws k k' a b : notified d d1 vs k a -> notified d1 d2 ws k' b -> (forall o x, (o, x) ∈ a -> o ∉ map fst b) -> notified d d2 (vs ++ ws) k' (a ++ b).
Proof.
  intros [[A1 A1'] A2 A3 A4 A5 A6 A7] [[B1 B1'] B2 B3 B4 B5 B6 B7] Hab. split; try congruence; [split; congruence|by eapply sent_trans| |].
  - intros o Ho. rewrite map_app in Ho. apply not_elem_of_app in Ho as [Ho1 Ho2]. by rewrite B6, A6.
  - intros o x Hx. apply elem_of_app in Hx as [Hx|Hx]; [|by apply B7]. destruct (A7 o x Hx) as (p & Hp & Hen). exists p. split; [|done]. by rewrite B6 by (by eapply Hab).
Qed.
Lemma acks_sendable K st R T : is_u64 st -> 0 <= K -> T < 2 ^ 64 -> Forall (sendable langDecoderStream) (acks K st R T).
Proof.
  intros Hst HK HT. unfold acks. apply Forall_app. split.
  - destruct (R >? 0); [|apply Forall_nil_2]. apply Forall_cons_2; [|apply Forall_nil_2]. split; [change (HeaderAcknowledgement ∈ langDecoderStream); left|]. apply values_int; [by do 2 right; left|exact Hst].
  - destruct (Z.max K R <? T) eqn:E; bool_simpl; [|apply Forall_nil_2]. apply Forall_cons_2; [|apply Forall_nil_2]. split; [change (InsertCountIncrement ∈ langDecoderStream); do 2 right; left|]. apply values_int; [by do 4 right; left|unfold is_u64; lia].
Qed.
Lemma notify_sendable T done : forall K, 0 <= K -> T < 2 ^ 64 -> (forall o b, (o, b) ∈ done -> blk_ok b) -> Forall (sendable langDecoderStream) (notify_acks K T done).
Proof.
  induction done as [|[o b] done IH]; intros K HK HT Hok; cbn [notify_acks]; [apply Forall_nil_2|]. apply Forall_app. split; [apply acks_sendable; [apply (Hok o b); left|lia..]|]. apply IH; [lia..|]. intros o' b' Hb. apply (Hok o'). by right.
Qed.
(** What the decoder has done once it has taken in instructions: blocks completed,
    feedback given. *)
Record caught_up (h : bool) (d : Decoder) (l : pending) (sp : block_spec) (bs : list blk) (s' : table_spec) (d' : Decoder) (done rest : pending) (us : list InstructionWithValues) (sp' : block_spec) : Prop := {
  cu_split : l = done ++ rest;
  cu_pend : pend_ok h d' rest;
  cu_table : dec_rep d' s';
  cu_notified : notified d d' us (d_knownReceivedCount d') done;
  cu_known : 0 <= d_knownReceivedCount d' <= zlen (s_hist s');
  cu_waits : head_waits (zlen (s_hist s')) rest;
  cu_fb : fb_run sp us sp' /\ bs_known sp' = d_knownReceivedCount d' /\ forall st, bs_out sp' st = ledger (map snd rest ++ bs) st;
  cu_us : Forall (sendable langDecoderStream) us
}.
Lemma stream_received h H dr bs ws : forall s s' d l sp, stream_run s ws s' -> dec_rep d s -> pend_ok h d l -> 0 <= d_knownReceivedCount d <= zlen (s_hist s) -> head_waits (zlen (s_hist s)) l ->
  s_hist s' `prefix_of` H -> (s_dropped s' <= dr)%nat -> (forall o b, (o, b) ∈ l -> safe H dr b) -> bs_known sp = d_knownReceivedCount d -> (forall st, bs_out sp st = ledger (map snd l ++ bs) st) -> in_order l ->
  exists d' done rest us sp', interp (map Called ws) d = Ok (d', true) /\ caught_up h d l sp bs s' d' done rest us sp'.
Proof.
  induction ws as [|v ws IH]; intros s s' d l sp; cbn [stream_run map interp].
  - intros -> Hd Hpo HK Hw HH Hdr Hsafe Hkn Hout Ho. exists d, [], l, [], sp. split; [done|]. split; try done. split; try done; [apply sent_none|]. intros o b Hb. by apply not_elem_of_nil in Hb.
  - intros (s1 & H1 & H2) Hd Hpo HK Hw HH Hdr Hsafe Hkn Hout Ho. destruct (run_grows _ _ _ H2) as (G1 & G2 & _). assert (HH1 : s_hist s1 `prefix_of` H) by (by etransitivity).
    destruct (instruction_leads h s d l Hd Hpo HK v s1 H1 Hw) as (r & (d1 & done1 & rest1 & -> & -> & Hpo1 & Hd1 & Hnt1 & Hw1 & Hr1) & Ev).
    { intros o b Hb Hle. apply (safe_sees H dr); [by eapply Hsafe|apply (po_blocks _ _ _ Hpo o b Hb)|done|lia|done]. }
    cbn [OnInstructionDecoded EncoderStreamReceiver]. rewrite Ev. cbn [res_bind]. pose proof (step_grows _ _ _ H1) as (S1 & _ & _). apply prefix_length in S1. pose proof (br_count _ _ _ (dr_base _ _ Hd1)) as Hc. assert (HT1 : zlen (s_hist s) <= zlen (s_hist s1)) by (unfold zlen; lia).
    assert (Hdone1 : forall o b, (o, b) ∈ done1 -> blk_ok b /\ 0 < b_ric b <= zlen (s_hist s1)).
    { intros o b Hb. destruct (po_blocks _ _ _ Hpo o b ltac:(apply elem_of_app; by left)) as (K1 & K2 & _). specialize (Hr1 o b Hb). done. }
    set (K := d_knownReceivedCount d) in *. destruct (notify_run (zlen (s_hist s1)) done1 sp K (map snd rest1 ++ bs) Hkn ltac:(lia) Hdone1 ltac:(intros st; rewrite Hout, map_app, <- app_assoc; done)) as (sp1 & F1 & K1 & O1).
    pose proof (nt_known _ _ _ _ _ Hnt1) as Hk1. assert (Hkn1 : 0 <= d_knownReceivedCount d1 <= zlen (s_hist s1)) by (rewrite Hk1; destruct (bool_decide _); lia).
    destruct (IH s1 s' d1 rest1 sp1 H2 Hd1 Hpo1 Hkn1 Hw1 HH Hdr ltac:(intros o b Hb; apply (Hsafe o); apply elem_of_app; by right) ltac:(congruence) O1 (order_tail _ _ Ho)) as (d2 & done2 & rest2 & us & sp2 & E2 & [C1 C2 C3 C4 C5 C6 (C7 & C7' & C7'') C8]). subst rest1.
    exists d2, (done1 ++ done2), rest2, (notify_acks K (zlen (s_hist s1)) done1 ++ us), sp2. split; [exact E2|]. split; try done; [by rewrite app_assoc| |split; [|done]|].
    + eapply notified_trans; [exact Hnt1|exact C4|]. intros o x Hx Hin. destruct (po_once _ _ _ Hpo) as [Hnd _]. rewrite !map_app in Hnd. apply list.NoDup_app in Hnd as (_ & Hnd & _). apply (Hnd o); [apply list_elem_of_fmap; by exists (o, x)|]. apply elem_of_app. by left.
    + apply fb_app. by exists sp1.
    + apply Forall_app. split; [|exact C8]. apply notify_sendable; [lia..|]. intros o b Hb. by apply (Hdone1 o).
Qed.

(** ** A control stream between two sides *)
Record stream_at (L : Language) (h : bool) (snd : StreamSender) (rcv : InstructionDecoder) (pos : nat) (vs : list InstructionWithValues) (k : nat) : Prop := {
  sa_sent : ss_written snd ++ ss_buffer snd = images h vs;
  sa_vs : Forall (sendable L) vs;
  sa_k : (k <= length vs)%nat;
  sa_pos : (pos <= length (ss_written snd))%nat;
  sa_at : at_bytes L rcv (take pos (ss_written snd)) (map Called (take k vs))
}.
Lemma stream_more L h s s' rcv pos vs us k : stream_at L h s rcv pos vs k -> ss_written s' ++ ss_buffer s' = ss_written s ++ ss_buffer s ++ images h us -> ss_written s `prefix_of` ss_written s' -> Forall (sendable L) us ->
  stream_at L h s' rcv pos (vs ++ us) k.
Proof.
  intros [A1 A2 A3 A4 A5] Hs [more Hp] Hus. split.
  - rewrite Hs, app_assoc, A1. unfold images. by rewrite map_app, concat_app.
  - apply Forall_app. done.
  - rewrite length_app. lia.
  - rewrite Hp, length_app. lia.
  - rewrite Hp, take_app_le by lia. rewrite (take_app_le vs us) by lia. exact A5.
Qed.
(** The bytes that arrive next. *)
Definition arriving (n pos : nat) (written : bytes) : bytes := take n (drop pos written).
Lemma stream_arrives L h snd rcv pos vs k n : L ∈ languages -> stream_at L h snd rcv pos vs k ->
  let chunk := arriving n pos (ss_written snd) in
  exists rcv' k', (k <= k')%nat /\ stream_at L h snd rcv' (pos + length chunk) vs k'
    /\ forall (T : Type) (D : InstructionDecoderDelegate T) (s : T), exists d3, id_Decode rcv s chunk = let* r := interp (map Called (take (k' - k) (drop k vs))) s in Ok (if r.2 then rcv' else d3, r.1, r.2).
Proof.
  intros HL [A1 A2 A3 A4 A5] chunk. assert (Hsplit : take pos (ss_written snd) ++ chunk = take (pos + length chunk) (ss_written snd)).
  { unfold chunk, arriving. rewrite length_take, length_drop. rewrite <- take_take_drop. f_equal. rewrite <- (take_take (drop pos (ss_written snd)) n). f_equal. rewrite firstn_all2; [done|]. rewrite length_drop. lia. }
  destruct (stream_chunk h L vs rcv (take pos (ss_written snd)) k chunk (drop n (drop pos (ss_written snd)) ++ ss_buffer snd) HL A2 A5) as (rcv' & k' & Hk & Hat & Hdec); [|done|].
  { rewrite <- A1. rewrite (app_assoc chunk). unfold chunk, arriving. rewrite take_drop. rewrite app_assoc, take_drop. done. }
  exists rcv', k'. split; [lia|]. split; [|exact Hdec]. split; try done; [lia| |by rewrite <- Hsplit]. unfold chunk, arriving. rewrite length_take, length_drop. lia.
Qed.
Lemma stream_complete L h snd rcv vs k : L ∈ languages -> stream_at L h snd rcv (length (ss_written snd)) vs k -> ss_buffer snd = [] -> k = length vs.
Proof.
  intros HL [A1 A2 A3 _ [Hrun _ _ _ _]] Hb. rewrite Hb, app_nil_r in A1. rewrite firstn_all, A1 in Hrun. destruct (images_read h L vs HL _ [] A2 (new_boundary L)) as (df & _ & Hfull). destruct (runs_fun _ _ _ _ _ _ _ _ _ Hfull Hrun) as (_ & Hc & _). cbn [app] in Hc. apply (f_equal List.length) in Hc. rewrite !length_map, length_take in Hc. lia.
Qed.

(** ** The session *)
Record packet := mkPk { pk_stream : Z; pk_block : bytes; pk_fields : list HeaderField }.
(** Both ends, how much of the control streams has arrived, the blocks on their way (per
    stream in order) and the blocks handed to the decoder, with what they were made of. *)
Record session := mkSes { ses_e : Encoder; ses_d : Decoder; ses_fwd : nat; ses_back : nat; ses_net : list packet; ses_open : list (nat * list HeaderField) }.
Inductive action :=
  | AEncode (streamID : Z) (headerList : list HeaderField) (numBytesBuffered : Z)
  | AForward (n : nat) | AFlush | ABack (n : nat) | ADeliver (k : nat).
(** A block is handed over when those before it on its stream have been decoded. *)
Definition may_deliver (s : session) (k : nat) (pk : packet) : bool :=
  bool_decide (pk_stream pk ∉ d_blockedStreams (ses_d s)) && forallb (fun q => negb (pk_stream q =? pk_stream pk)) (take k (ses_net s)).
Definition act (s : session) (a : action) : run session :=
  match a with
  | AEncode st l nb =>
      let* r := EncodeHeaderList (ses_e s) st l nb in let '(e, block, _) := r in
      Ok (mkSes e (ses_d s) (ses_fwd s) (ses_back s) (ses_net s ++ [mkPk st block (flatten (e_cookieCrumbling (ses_e s)) l)]) (ses_open s))
  | AForward n =>
      let chunk := arriving n (ses_fwd s) (ss_written (e_sender (ses_e s))) in
      let* d := dec_receive (ses_d s) chunk in Ok (mkSes (ses_e s) d (ses_fwd s + length chunk) (ses_back s) (ses_net s) (ses_open s))
  | AFlush => Ok (mkSes (ses_e s) (FlushDecoderStream (ses_d s)) (ses_fwd s) (ses_back s) (ses_net s) (ses_open s))
  | ABack n =>
      let chunk := arriving n (ses_back s) (ss_written (d_sender (ses_d s))) in
      let* e := enc_receive (ses_e s) chunk in Ok (mkSes e (ses_d s) (ses_fwd s) (ses_back s + length chunk) (ses_net s) (ses_open s))
  | ADeliver k =>
      match ses_net s !! k with
      | Some pk =>
          if may_deliver s k pk then
            let* r := DecodeHeaderBlock (ses_d s) (pk_stream pk) (pk_block pk) in
            Ok (mkSes (ses_e s) (fst r) (ses_fwd s) (ses_back s) (delete k (ses_net s)) (ses_open s ++ [(snd r, pk_fields pk)]))
          else Ok s
      | None => Ok s
      end
  end.
Fixpoint acts (s : session) (l : list action) : run session := match l with [] => Ok s | a :: l' => let* s := act s a in acts s l' end.
(** Both sides with the same maximum capacity, the capacity chosen by the encoder, and at
    most as many blocked streams as the decoder allows. *)
Definition connect (huffman crumbling : bool) (maximum capacity blockedE blockedD : Z) : run session :=
  let e := SetStreamSenderDelegate (NewEncoder huffman crumbling) true in
  let '(e, _) := enc_SetMaximumDynamicTableCapacity e maximum in
  let '(e, _) := SetMaximumBlockedStreams e blockedE in
  let* e := enc_SetDynamicTableCapacity e capacity in
  Ok (mkSes e (dec_SetStreamSenderDelegate (NewDecoder maximum blockedD) true) 0 0 [] []).

(** ** The invariant *)
Record carries (h : bool) (mx : Z) (pk : packet) (b : blk) : Prop := {
  ca_stream : pk_stream pk = b_stream b; ca_fields : pk_fields pk = b_fields b;
  ca_block : pk_block pk = images h (VPrefix (prefix_of_block mx (b_refs b)) :: b_reps b)
}.
(** The ghost state: both tables, the outstanding blocks as the encoder sees them and as
    it will when all feedback has arrived, all instructions of both control streams and
    how many have been received, the blocks that wait and those on their way. *)
Record ghost := mkGhost {
  g_E : table_spec; g_D : table_spec; g_sp : block_spec; g_spD : block_spec;
  g_vs : list InstructionWithValues; g_k : nat; g_ws : list InstructionWithValues; g_j : nat; g_l : pending; g_net : list blk
}.
Definition unfinished (g : ghost) : list blk := map snd (g_l g) ++ g_net g.
Record ses_inv (s : session) (g : ghost) (n : Z) : Prop := {
  si_enc : enc_inv (ses_e s) (g_E g) (g_sp g) n;
  si_fwd : stream_at langEncoderStream (e_huffmanEncoding (ses_e s)) (e_sender (ses_e s)) (d_receiver (ses_d s)) (ses_fwd s) (g_vs g) (g_k g);
  si_run : stream_run (g_D g) (drop (g_k g) (g_vs g)) (g_E g);
  si_dec : dec_rep (ses_d s) (g_D g);
  si_pend : pend_ok (e_huffmanEncoding (ses_e s)) (ses_d s) (g_l g);
  si_order : in_order (g_l g) /\ head_waits (zlen (s_hist (g_D g))) (g_l g);
  si_known : 0 <= d_knownReceivedCount (ses_d s) <= zlen (s_hist (g_D g));
  si_back : stream_at langDecoderStream (ie_huffman (ss_encoder (d_sender (ses_d s)))) (d_sender (ses_d s)) (e_receiver (ses_e s)) (ses_back s) (g_ws g) (g_j g);
  si_fb : fb_run (g_sp g) (drop (g_j g) (g_ws g)) (g_spD g) /\ bs_known (g_spD g) = d_knownReceivedCount (ses_d s) /\ forall st, bs_out (g_spD g) st = ledger (unfinished g) st;
  si_blocks : forall b, b ∈ unfinished g -> blk_ok b /\ b_hist b `prefix_of` s_hist (g_E g) /\ forall i, i ∈ b_refs b -> i < zlen (b_hist b);
  si_net : Forall2 (carries (e_huffmanEncoding (ses_e s)) (s_max (g_E g))) (ses_net s) (g_net g);
  si_open : forall o fs, (o, fs) ∈ ses_open s -> (exists b, (o, b) ∈ g_l g /\ b_fields b = fs) \/ (exists p, d_pds (ses_d s) !! o = Some p /\ ended p fs);
  si_limits : e_maximumBlockedStreams (ses_e s) <= d_maximumBlockedStreams (ses_d s);
  si_clean : e_errors (ses_e s) = [] /\ d_errors (ses_d s) = [] /\ e_receiverError (ses_e s) = false /\ d_receiverError (ses_d s) = false;
  si_delegates : ss_delegate (e_sender (ses_e s)) = true /\ ss_delegate (d_sender (ses_d s)) = true
}.
Lemma encoder_language : langEncoderStream ∈ languages.
Proof. apply (bool_decide_unpack _). vm_compute. exact I. Qed.
Lemma decoder_language : langDecoderStream ∈ languages.
Proof. apply (bool_decide_unpack _). vm_compute. exact I. Qed.
Lemma prefix_values mx refs : 0 <= mx < 2 ^ 64 -> Forall (fun i => 0 <= i < 2 ^ 62) refs -> values_ok (VPrefix (prefix_of_block mx refs)).
Proof.
  intros Hm Hr. apply values_int; [by do 5 right|]. unfold prefix_of_block, is_u64. destruct (bool_decide (refs = [])); [lia|]. destruct (ric_range refs Hr) as [Hric _]. assert (0 <= mx / 32 < 2 ^ 59) by (split; [apply Z.div_pos; lia|apply Z.div_lt_upper_bound; lia]).
  destruct (decide (mx / 32 = 0)) as [-> |Hne]; [rewrite Z.mod_0_r; lia|]. pose proof (Z.mod_pos_bound (ric refs) (2 * (mx / 32)) ltac:(lia)). lia.
Qed.
Section facts.
Context (s : session) (g : ghost) (n : Z) (Hi : ses_inv s g n).
(** A block the decoder has not finished is outstanding for the encoder. *)
Lemma unfinished_out b : b ∈ unfinished g -> b_refs b <> [] -> b_refs b ∈ bs_out (g_sp g) (b_stream b).
Proof.
  intros Hb Hne. destruct (si_fb _ _ _ Hi) as (Hf & _ & Ho). destruct (fb_shrinks _ _ _ Hf) as [_ Hs]. destruct (Hs (b_stream b)) as (a & ->). apply elem_of_app. right. rewrite Ho. apply ledger_in. by exists b.
Qed.
Lemma unfinished_safe b : b ∈ unfinished g -> safe (s_hist (g_E g)) (s_dropped (g_E g)) b.
Proof.
  intros Hb. destruct (si_blocks _ _ _ Hi b Hb) as (_ & Hp & Hl). split; [done|]. intros i Hib. split; [|by apply Hl]. assert (Hne : b_refs b <> []) by (intros E; rewrite E in Hib; by apply not_elem_of_nil in Hib).
  apply (ei_refs _ _ _ _ (si_enc _ _ _ Hi) (b_stream b) (b_refs b) i (unfinished_out b Hb Hne) Hib).
Qed.
Lemma counts : Z.of_nat (s_dropped (g_E g)) <= bs_known (g_sp g) <= d_knownReceivedCount (ses_d s) /\ zlen (s_hist (g_D g)) <= zlen (s_hist (g_E g)) /\ s_max (g_E g) = s_max (g_D g)
  /\ zlen (s_hist (g_E g)) - Z.of_nat (s_dropped (g_E g)) <= s_max (g_E g) / 32 /\ 0 <= s_max (g_E g) < 2 ^ 64 /\ zlen (s_hist (g_E g)) < 2 ^ 62 /\ (s_dropped (g_D g) <= s_dropped (g_E g))%nat /\ s_hist (g_D g) `prefix_of` s_hist (g_E g).
Proof.
  destruct (run_grows _ _ _ (si_run _ _ _ Hi)) as (G1 & G2 & G3). destruct (si_fb _ _ _ Hi) as (Hf & Hk & _). destruct (fb_shrinks _ _ _ Hf) as [Hk' _]. pose proof (ei_known _ _ _ _ (si_enc _ _ _ Hi)) as He. pose proof (er_base _ _ _ (ei_table _ _ _ _ (si_enc _ _ _ Hi))) as Hb. destruct (live_count _ _ Hb (ei_impl _ _ _ _ (si_enc _ _ _ Hi))) as (L1 & L2 & L3). pose proof (br_count _ _ _ Hb). pose proof (prefix_length _ _ G1). unfold zlen in *. split_and!; try done; lia.
Qed.
(** Its Required Insert Count is in the window of the decoder, and the decoder may block. *)
Lemma unfinished_decodable b : b ∈ unfinished g -> decodable (ses_d s) (g_D g) (b_stream b) (b_ric b).
Proof.
  intros Hb. destruct (si_blocks _ _ _ Hi b Hb) as (Hok & Hp & Hl). pose proof (bk_refs _ Hok) as Hr. destruct (ric_range _ Hr) as [Hric _]. destruct counts as (C1 & C2 & C3 & C4 & C5 & C6 & C7 & C8). pose proof (si_known _ _ _ Hi) as HK. split; [exact Hric| |].
  - intros Hpos. pose proof (proj1 (ric_refs b Hok) Hpos) as Hne. destruct (lmax_in (b_refs b) (conj Hne Hr)) as (Hm & _ & _). pose proof (proj2 (unfinished_safe b Hb) _ Hm) as Hs. pose proof (prefix_length _ _ Hp) as Hpl. rewrite C3 in *. change (b_ric b) with (lmax (b_refs b) + 1) in *. unfold ric_window, zlen in *. lia.
  - intros Hgt. etransitivity; [|exact (si_limits _ _ _ Hi)]. etransitivity; [|exact (ei_limit _ _ _ _ (si_enc _ _ _ Hi))]. unfold NumBlockedStreams. apply inj_le, subseteq_size. rewrite (po_blocked _ _ _ (si_pend _ _ _ Hi)). intros st Hst. apply (bl_blocked _ _ _ (ei_blocks _ _ _ _ (si_enc _ _ _ Hi))).
    assert (Hwait : forall b', b' ∈ unfinished g -> b_stream b' = st -> zlen (s_hist (g_D g)) < b_ric b' -> waits (bs_known (g_sp g)) (bs_out (g_sp g) st)).
    { intros b' Hb' Hs' Hlt. destruct (si_blocks _ _ _ Hi b' Hb') as (Hok' & _). pose proof (zlen_nonneg (s_hist (g_D g))). pose proof (proj1 (ric_refs b' Hok') ltac:(lia)) as Hne. apply Exists_exists. exists (b_refs b'). split; [apply list_elem_of_In; rewrite <- Hs'; by apply unfinished_out|]. change (ric (b_refs b')) with (b_ric b'). lia. }
    apply elem_of_union in Hst as [Hst|Hst]; [apply elem_of_singleton in Hst; apply (Hwait b); [done|done|lia]|]. apply elem_streams, list_elem_of_fmap in Hst as ([o b'] & -> & Hb'). destruct (si_order _ _ _ Hi) as [Ho Hw]. apply (Hwait b'); [|done|exact (all_wait _ _ Ho Hw o b' Hb')]. apply elem_of_app. left. apply list_elem_of_fmap. by exists (o, b').
Qed.
End facts.

(** ** Every action keeps it *)
Lemma flush_kept s g n : ses_inv s g n -> exists s', act s AFlush = Ok s' /\ ses_inv s' g n.
Proof.
  intros Hi. eexists. split; [reflexivity|]. set (d := ses_d s) in *. assert (Hdel : ss_delegate (d_sender d) = true) by apply (si_delegates _ _ _ Hi).
  assert (HF : ie_huffman (ss_encoder (Flush (d_sender d))) = ie_huffman (ss_encoder (d_sender d)) /\ ss_delegate (Flush (d_sender d)) = true /\ ss_written (Flush (d_sender d)) ++ ss_buffer (Flush (d_sender d)) = ss_written (d_sender d) ++ ss_buffer (d_sender d) ++ [] /\ ss_written (d_sender d) `prefix_of` ss_written (Flush (d_sender d))).
  { rewrite app_nil_r, flush_all, Hdel. cbn [orb]. unfold Flush. destruct (_ =? 0); [by split_and!|]. match goal with |- context [if ?b then _ else _] => change b with (ss_delegate (d_sender d)) end. rewrite Hdel. split_and!; try done. by apply prefix_app_r. }
  destruct HF as (F1 & F2 & F3 & F4). destruct Hi as [I1 I2 I3 I4 I5 I6 I7 I8 I9 I10 I11 I12 I13 I14 I15]. split; cbn [ses_e ses_d ses_fwd ses_back ses_net ses_open]; try assumption.
  - destruct I4. by split.
  - destruct I5. by split.
  - change (d_sender (FlushDecoderStream d)) with (Flush (d_sender d)). rewrite F1. rewrite <- (app_nil_r (g_ws g)). eapply stream_more; [exact I8|exact F3|exact F4|apply Forall_nil_2].
  - split; [apply I15|exact F2].
Qed.
Lemma forward_kept s g n m : ses_inv s g n -> exists s' g', act s (AForward m) = Ok s' /\ ses_inv s' g' n /\ g_E g' = g_E g.
Proof.
  intros Hi. cbn [act]. set (chunk := arriving m (ses_fwd s) (ss_written (e_sender (ses_e s)))). destruct (stream_arrives _ _ _ _ _ _ _ m encoder_language (si_fwd _ _ _ Hi)) as (rcv' & k' & Hk & Hat & Hdec). fold chunk in Hat, Hdec. destruct (counts s g n Hi) as (_ & _ & _ & _ & _ & _ & Cd & Cp). pose proof (si_clean _ _ _ Hi) as (X1 & X2 & X3 & X4).
  unfold dec_receive. rewrite X4, orb_false_r. destruct (zlen chunk =? 0) eqn:Ez.
  { bool_simpl. apply zlen_zero in Ez. exists s, g. rewrite Ez. cbn [length res_bind]. rewrite Nat.add_0_r. split; [by destruct s|done]. }
  set (h := e_huffmanEncoding (ses_e s)) in *. set (ws := take (k' - g_k g) (drop (g_k g) (g_vs g))) in *.
  assert (Hsplit : drop (g_k g) (g_vs g) = ws ++ drop k' (g_vs g)). { unfold ws. rewrite <- (take_drop (k' - g_k g) (drop (g_k g) (g_vs g))) at 1. f_equal. rewrite drop_drop. f_equal. lia. }
  pose proof (si_run _ _ _ Hi) as Hrun. rewrite Hsplit in Hrun. apply run_app in Hrun as (sD' & R1 & R2). destruct (run_grows _ _ _ R2) as (G1 & G2 & _). destruct (si_fb _ _ _ Hi) as (Hf & Hkn & Hout).
  destruct (stream_received h (s_hist (g_E g)) (s_dropped (g_E g)) (g_net g) ws (g_D g) sD' (ses_d s) (g_l g) (g_spD g) R1 (si_dec _ _ _ Hi) (si_pend _ _ _ Hi) (si_known _ _ _ Hi) (proj2 (si_order _ _ _ Hi)) G1 G2) as (d' & done & rest & us & spD' & E & [U1 U2 U3 [[N1 N1'] N2 N3 N4 N5 N6 N7] U5 U6 (U7 & U7' & U7'') U8]).
  { intros o b Hb. apply (unfinished_safe s g n Hi). apply elem_of_app. left. apply list_elem_of_fmap. by exists (o, b). }
  { exact Hkn. } { exact Hout. } { apply (si_order _ _ _ Hi). }
  destruct (Hdec Decoder EncoderStreamReceiver (ses_d s)) as (d3 & Ed). rewrite Ed, E. cbn [res_bind fst snd]. eexists _, (mkGhost (g_E g) sD' (g_sp g) spD' (g_vs g) k' (g_ws g ++ us) (g_j g) rest (g_net g)). split; [reflexivity|]. split; [|reflexivity].
  destruct Hi as [I1 I2 I3 I4 I5 I6 I7 I8 I9 I10 I11 I12 I13 I14 I15]. set (d1 := { d' with d_receiver := rcv' }). change (d_sender d') with (d_sender d1) in N2. split; cbn [ses_e ses_d ses_fwd ses_back ses_net ses_open g_E g_D g_sp g_spD g_vs g_k g_ws g_j g_l g_net]; try assumption.
  - destruct U3. by split.
  - destruct U2. by split.
  - split; [|exact U6]. apply (order_tail done). rewrite <- U1. apply I6.
  - rewrite (sm_huffman _ _ _ N2). eapply stream_more; [exact I8| | |exact U8].
    + rewrite (sm_written _ _ _ N2), (sm_buffer _ _ _ N2). done.
    + by rewrite (sm_written _ _ _ N2).
  - split; [|split; [exact U7'|exact U7'']]. rewrite drop_app_le by apply (sa_k _ _ _ _ _ _ _ I8). apply fb_app. by exists (g_spD g).
  - intros b Hb. apply I10. unfold unfinished in *. cbn [g_l g_net] in Hb. rewrite U1, map_app, <- app_assoc. apply elem_of_app. by right.
  - intros o fs Hof. destruct (I12 o fs Hof) as [(b & Hb & Hfs)|(p & Hp & Hen)].
    + rewrite U1 in Hb. apply elem_of_app in Hb as [Hb|Hb]; [|left; by exists b]. right. destruct (N7 o b Hb) as (p & Hp & Hen). exists p. rewrite <- Hfs. done.
    + right. exists p. split; [|done]. etransitivity; [|exact Hp]. apply N6. intros Hin. apply list_elem_of_fmap in Hin as ([o' b] & -> & Hb). destruct (po_blocks _ _ _ I5 o' b ltac:(rewrite U1; apply elem_of_app; by left)) as (_ & _ & p' & Hp' & Hw). cbn [fst] in Hp. rewrite Hp in Hp'. injection Hp' as <-. destruct Hen as [_ Hbl]. rewrite (wt_blocked _ _ _ _ Hw) in Hbl. done.
  - change (e_maximumBlockedStreams (ses_e s) <= d_maximumBlockedStreams d'). by rewrite N4.
  - split_and!; [exact X1|exact (eq_trans N5 X2)|exact X3|exact (eq_trans N1' X4)].
  - split; [apply I15|]. rewrite (sm_delegate _ _ _ N2). apply I15.
Qed.
Lemma back_kept s g n m : ses_inv s g n -> n < 2 ^ 62 -> exists s' g', act s (ABack m) = Ok s' /\ ses_inv s' g' n /\ g_E g' = g_E g /\ e_cookieCrumbling (ses_e s') = e_cookieCrumbling (ses_e s).
Proof.
  intros Hi Hn. cbn [act]. set (chunk := arriving m (ses_back s) (ss_written (d_sender (ses_d s)))). destruct (stream_arrives _ _ _ _ _ _ _ m decoder_language (si_back _ _ _ Hi)) as (rcv' & j' & Hj & Hat & Hdec). fold chunk in Hat, Hdec. destruct (counts s g n Hi) as (C1 & C2 & _). pose proof (si_clean _ _ _ Hi) as (X1 & X2 & X3 & X4). pose proof (si_known _ _ _ Hi) as HK.
  unfold enc_receive. rewrite X3, orb_false_r. destruct (zlen chunk =? 0) eqn:Ez.
  { bool_simpl. apply zlen_zero in Ez. exists s, g. rewrite Ez. cbn [length res_bind]. rewrite Nat.add_0_r. split; [by destruct s|done]. }
  set (us := take (j' - g_j g) (drop (g_j g) (g_ws g))) in *. assert (Hsplit : drop (g_j g) (g_ws g) = us ++ drop j' (g_ws g)). { unfold us. rewrite <- (take_drop (j' - g_j g) (drop (g_j g) (g_ws g))) at 1. f_equal. rewrite drop_drop. f_equal. lia. }
  destruct (si_fb _ _ _ Hi) as (Hf & Hkn & Hout). rewrite Hsplit in Hf. apply fb_app in Hf as (sp' & F1 & F2). destruct (fb_shrinks _ _ _ F2) as [Hk2 _].
  destruct (fb_received us (g_E g) n (ses_e s) (g_sp g) sp' (si_enc _ _ _ Hi) Hn F1 ltac:(lia)) as (e' & E & He' & Hsame). destruct (Hdec Encoder DecoderStreamReceiver (ses_e s)) as (d3 & Ed). rewrite Ed, E. cbn [res_bind fst snd].
  eexists _, (mkGhost (g_E g) (g_D g) sp' (g_spD g) (g_vs g) (g_k g) (g_ws g) j' (g_l g) (g_net g)). split; [reflexivity|]. unfold enc_same in Hsame. set (bm := e_bm e') in *. clearbody bm. subst e'. split; [|split; reflexivity].
  destruct Hi as [I1 I2 I3 I4 I5 I6 I7 I8 I9 I10 I11 I12 I13 I14 I15]. split; cbn [ses_e ses_d ses_fwd ses_back ses_net ses_open g_E g_D g_sp g_spD g_vs g_k g_ws g_j g_l g_net]; try assumption; [destruct He'; by split|by split_and!].
Qed.
(** The references of a new block go behind those outstanding. *)
Lemma sent_extends sp st refs : extends sp (sent_spec sp st refs) (fun st' => if (st' =? st) && negb (bool_decide (refs = [])) then [refs] else []).
Proof.
  unfold sent_spec, extends. destruct (bool_decide (refs = [])) eqn:E; cbn [negb]; [split; [done|]; intros st'; by rewrite andb_false_r, app_nil_r|]. cbn [spec_event fst bs_known bs_out]. split; [done|]. intros st'. rewrite andb_true_r. unfold upd. destruct (st' =? st) eqn:E2; bool_simpl; [by subst|by rewrite app_nil_r].
Qed.
Lemma encode_kept s g n st l nb : ses_inv s g n -> n < 2 ^ 62 -> is_u64 st -> Forall field_ok (flatten (e_cookieCrumbling (ses_e s)) l) -> zlen (s_hist (g_E g)) + zlen (flatten (e_cookieCrumbling (ses_e s)) l) < 2 ^ 62 ->
  exists s' g', act s (AEncode st l nb) = Ok s' /\ ses_inv s' g' (n + 1) /\ zlen (s_hist (g_E g')) <= zlen (s_hist (g_E g)) + zlen (flatten (e_cookieCrumbling (ses_e s)) l) /\ e_cookieCrumbling (ses_e s') = e_cookieCrumbling (ses_e s).
Proof.
  intros Hi Hn Hst Hf Hz. destruct (encode_block (ses_e s) (g_E g) (g_sp g) n st l nb (si_enc _ _ _ Hi) Hn Hf Hz) as (e' & block & sent & vs & refs & sE' & reps & E & [N1 N2 N3 N4 N5 N6 N7 N8 N9 N10] & He' & Hmx & Hcap & Hh & Hcc & Hmb & Herr & Hrcv & Hre & Hbuf & Hdel & Hpre). set (fs := flatten (e_cookieCrumbling (ses_e s)) l) in *.
  cbn [act]. rewrite E. cbn [res_bind]. fold fs. set (b := mkBlk st (s_hist sE') refs reps fs).
  destruct (si_fb _ _ _ Hi) as (Hfb & Hkn & Hout). destruct (fb_extends _ _ _ _ _ Hfb (sent_extends (g_sp g) st refs)) as (spD' & Hfb' & [Hk' Ho']).
  eexists _, (mkGhost sE' (g_D g) (sent_spec (g_sp g) st refs) spD' (g_vs g ++ vs) (g_k g) (g_ws g) (g_j g) (g_l g) (g_net g ++ [b])). split; [reflexivity|]. split; [|split; [exact N8|exact Hcc]]. pose proof (si_clean _ _ _ Hi) as (X1 & X2 & X3 & X4).
  destruct Hi as [I1 I2 I3 I4 I5 I6 I7 I8 I9 I10 I11 I12 I13 I14 I15]. split; cbn [ses_e ses_d ses_fwd ses_back ses_net ses_open g_E g_D g_sp g_spD g_vs g_k g_ws g_j g_l g_net]; try assumption.
  - rewrite Hh. eapply stream_more; [exact I2|exact N3|exact Hpre|exact N2].
  - rewrite drop_app_le by apply (sa_k _ _ _ _ _ _ _ I2). apply run_app. by exists (g_E g).
  - by rewrite Hh.
  - by rewrite Hrcv.
  - split; [exact Hfb'|]. split; [by rewrite Hk'|]. intros st'. rewrite Ho', Hout. unfold unfinished. cbn [g_l g_net]. rewrite (app_assoc (map snd (g_l g))). rewrite (ledger_app _ [b]). f_equal. rewrite ledger_cons. unfold on_stream. cbn [b_stream b_refs b]. rewrite (Z.eqb_sym st st'). by destruct (_ && _).
  - intros b' Hb'. unfold unfinished in Hb'. cbn [g_l g_net] in Hb'. rewrite app_assoc in Hb'. apply elem_of_app in Hb' as [Hb'|Hb'].
    + destruct (I10 b' Hb') as (B1 & B2 & B3). split; [done|]. split; [by etransitivity|done].
    + apply list_elem_of_singleton in Hb'. subst b'. cbn [b_hist b_refs b]. split; [by split|]. split; [done|]. intros i Hi'. apply (N7 i Hi').
  - rewrite Hh, Hmx. apply Forall2_app; [exact I11|]. apply Forall2_cons; [|apply Forall2_nil]. rewrite Hmx in N4. by split.
  - by rewrite Hmb.
  - rewrite Herr, Hre. done.
  - rewrite Hdel. done.
Qed.
(** A block that is first on its stream is first in the ledger of its stream. *)
Lemma ledger_first a c1 b c2 st : (forall x, x ∈ a -> b_stream x <> b_stream b) -> (forall x, x ∈ c1 -> b_stream x <> b_stream b) ->
  ledger (a ++ c1 ++ b :: c2) st = (if on_stream st b then [b_refs b] else []) ++ ledger (a ++ c1 ++ c2) st.
Proof.
  intros Ha Hc. rewrite !ledger_app, ledger_cons. destruct (on_stream st b) eqn:E; [|done]. unfold on_stream in E. apply andb_true_iff in E as [E _]. bool_simpl. subst st. by rewrite (ledger_none a), (ledger_none c1).
Qed.
Lemma after_pend h d d' l o vs k : pend_ok h d l -> d_pds d !! o = None -> after o vs k (d_blockedStreams d) (dt_observers (d_table d)) d d' -> pend_ok h d' l.
Proof.
  intros [P1 P2 P3 P4] Hfr [A1 A2 A3 [A4 A4'] A5 A6 A7 A8]. split; [congruence|congruence|done|]. intros o' b Hb. destruct (P4 o' b Hb) as (H1 & H2 & p & H3 & H4). split; [done|]. split; [done|]. exists p. split; [|done]. rewrite A7; [done|]. intros ->. congruence.
Qed.
Lemma after_pend_later h d d' l o b vs k p : pend_ok h d l -> d_pds d !! o = None -> after o vs k ({[ b_stream b ]} ∪ d_blockedStreams d) (insert_observer (b_ric b) o (dt_observers (d_table d))) d d' ->
  blk_ok b -> 0 < b_ric b -> b_stream b ∉ d_blockedStreams d -> d_pds d' !! o = Some p -> waiting p (b_stream b) (b_ric b) (images h (b_reps b)) -> pend_ok h d' (insert_pending o b l).
Proof.
  intros [P1 P2 [P3 P3'] P4] Hfr [A1 A2 A3 [A4 A4'] A5 A6 A7 A8] Hok Hpos Hnb Hp Hw. pose proof (insert_pending_perm o b l) as Hperm. assert (Hne : forall o' b', (o', b') ∈ l -> o' <> o) by (intros o' b' Hb' ->; destruct (P4 o b' Hb') as (_ & _ & p' & H3 & _); congruence). split.
  - by rewrite A6, P1, insert_pending_observers.
  - rewrite A4, P2. change ({[b_stream b]} ∪ p_streams l) with (p_streams ((o, b) :: l)). unfold p_streams. apply set_eq. intros x. rewrite !elem_of_list_to_set. by rewrite Hperm.
  - split; rewrite Hperm; cbn [map fst snd]; apply list.NoDup_cons; (split; [|done]).
    + intros Hin. apply list_elem_of_fmap in Hin as ([o' b'] & -> & Hb'). by apply (Hne o' b' Hb').
    + intros Hin. apply Hnb. rewrite P2. by apply elem_streams.
  - intros o' b' Hb'. rewrite Hperm in Hb'. apply elem_of_cons in Hb' as [[= -> ->]|Hb']; [split; [done|]; split; [done|]; by exists p|]. destruct (P4 o' b' Hb') as (H1 & H2 & p' & H3 & H4). split; [done|]. split; [done|]. exists p'. split; [|done]. rewrite A7; [done|]. by eapply Hne.
Qed.
(** The block [b] of the packet [k] comes next on its stream. *)
Record in_turn (s : session) (g : ghost) (k : nat) (b : blk) (rest : list blk) : Prop := {
  it_block : b ∈ unfinished g;
  it_net : Forall2 (carries (e_huffmanEncoding (ses_e s)) (s_max (g_E g))) (delete k (ses_net s)) rest;
  it_free : b_stream b ∉ d_blockedStreams (ses_d s);
  it_ledger : forall st, ledger (unfinished g) st = (if on_stream st b then [b_refs b] else []) ++ ledger (map snd (g_l g) ++ rest) st;
  it_sub : forall x, x ∈ map snd (g_l g) ++ rest -> x ∈ unfinished g
}.
Lemma in_turn_of s g n k pk : ses_inv s g n -> ses_net s !! k = Some pk -> may_deliver s k pk = true -> exists b rest, carries (e_huffmanEncoding (ses_e s)) (s_max (g_E g)) pk b /\ in_turn s g k b rest.
Proof.
  intros Hi Ek Em. unfold may_deliver in Em. apply andb_true_iff in Em as [Hnb Hfirst]. apply bool_decide_eq_true in Hnb. destruct (Forall2_lookup_l _ _ _ _ _ (si_net _ _ _ Hi) Ek) as (b & Hb & Hc). pose proof (ca_stream _ _ _ _ Hc) as Hc1. rewrite Hc1 in Hnb. pose proof (take_drop_middle _ _ _ Hb) as Hmid. set (c1 := take k (g_net g)) in *. set (c2 := drop (S k) (g_net g)) in *.
  exists b, (c1 ++ c2). split; [exact Hc|].
  assert (Ha : forall x, x ∈ map snd (g_l g) -> b_stream x <> b_stream b).
  { intros x Hx E. apply Hnb. rewrite (po_blocked _ _ _ (si_pend _ _ _ Hi)). apply elem_streams. rewrite <- E. apply list_elem_of_fmap in Hx as (y & -> & Hy). apply list_elem_of_fmap. by exists y. }
  assert (Hc' : forall x, x ∈ c1 -> b_stream x <> b_stream b).
  { intros x Hx E. apply list_elem_of_lookup in Hx as (m & Hm). unfold c1 in Hm. pose proof (Forall2_take _ _ _ k (si_net _ _ _ Hi)) as Ht. destruct (Forall2_lookup_r _ _ _ _ _ Ht Hm) as (q & Hq & [Hq1 _ _]). rewrite forallb_forall in Hfirst. specialize (Hfirst q ltac:(apply list_elem_of_In; apply list_elem_of_lookup; by exists m)). bool_simpl. congruence. }
  split.
  - apply elem_of_app. right. apply list_elem_of_lookup. by exists k.
  - rewrite delete_take_drop. apply Forall2_app; [apply Forall2_take|apply Forall2_drop]; apply (si_net _ _ _ Hi).
  - exact Hnb.
  - intros st. unfold unfinished. rewrite <- Hmid. by apply ledger_first.
  - intros x Hx. unfold unfinished. rewrite <- Hmid. apply elem_of_app in Hx as [Hx|Hx]; apply elem_of_app; [by left|right]. apply elem_of_app in Hx as [Hx|Hx]; apply elem_of_app; [by left|right; by right].
Qed.
Lemma insert_ledger o b l st : (forall x, x ∈ map snd l -> b_stream x <> b_stream b) -> ledger (map snd (insert_pending o b l)) st = (if on_stream st b then [b_refs b] else []) ++ ledger (map snd l) st.
Proof.
  intros Hl. induction l as [|x l IH]; cbn [insert_pending]; [cbn [map snd]; rewrite ledger_cons; by destruct (on_stream st b)|]. destruct (_ >? _); [cbn [map snd]; rewrite ledger_cons; by destruct (on_stream st b)|]. cbn [map]. rewrite !ledger_cons, IH by (intros y Hy; apply Hl; by right).
  destruct (on_stream st b) eqn:E; [|done]. unfold on_stream in *. apply andb_true_iff in E as [E _]. bool_simpl. replace (b_stream x.2 =? st) with false; [done|]. specialize (Hl x.2 ltac:(left)). lia.
Qed.
Section deliver.
Context (s : session) (g : ghost) (n : Z) (k : nat) (b : blk) (rest : list blk) (Hi : ses_inv s g n) (Ht : in_turn s g k b rest).
Abbreviation d := (ses_d s).
Abbreviation h := (e_huffmanEncoding (ses_e s)).
Abbreviation block := (images h (VPrefix (prefix_of_block (s_max (g_D g)) (b_refs b)) :: b_reps b)).
Definition delivered (o : nat) (d' : Decoder) : session := mkSes (ses_e s) d' (ses_fwd s) (ses_back s) (delete k (ses_net s)) (ses_open s ++ [(o, b_fields b)]).
Lemma open_kept o d' (l' : pending) : (forall o', o' <> o -> d_pds d' !! o' = d_pds d !! o') -> d_pds d !! o = None -> (forall x, x ∈ g_l g -> x ∈ l') -> ((exists p, d_pds d' !! o = Some p /\ ended p (b_fields b)) \/ (o, b) ∈ l') ->
  forall o' fs, (o', fs) ∈ ses_open s ++ [(o, b_fields b)] -> (exists b', (o', b') ∈ l' /\ b_fields b' = fs) \/ (exists p, d_pds d' !! o' = Some p /\ ended p fs).
Proof.
  intros Hpds Hfr Hsub Hnew o' fs Hof. apply elem_of_app in Hof as [Hof|Hof].
  - destruct (si_open _ _ _ Hi o' fs Hof) as [(b' & Hb' & Hfs)|(p' & Hp' & Hen')]; [left; exists b'; auto|]. right. exists p'. split; [|done]. rewrite Hpds; [done|]. intros ->. congruence.
  - apply list_elem_of_singleton in Hof. injection Hof as -> ->. destruct Hnew as [Hnew|Hnew]; [by right|]. left. by exists b.
Qed.
Lemma deliver_now : b_ric b <= zlen (s_hist (g_D g)) -> exists d' o g', DecodeHeaderBlock d (b_stream b) block = Ok (d', o) /\ ses_inv (delivered o d') g' n /\ g_E g' = g_E g.
Proof.
  intros Hle. destruct Ht as [T1 T2 T3 T4 T5]. destruct (si_blocks _ _ _ Hi b T1) as (Hok & Hbp & Hbl). pose proof (unfinished_decodable s g n Hi b T1) as Hdc. destruct (counts s g n Hi) as (C1 & C2 & C3 & _ & C5 & C6 & C7 & C8). pose proof (si_known _ _ _ Hi) as HK. destruct (si_fb _ _ _ Hi) as (Hf & Hkn & Hout).
  pose proof (prefix_values (s_max (g_D g)) (b_refs b) ltac:(lia) (bk_refs _ Hok)) as Hpv. pose proof (safe_sees _ _ b (g_D g) (unfinished_safe s g n Hi b T1) Hok C8 C7 Hle) as Hsees.
  destruct (block_now (b_hist b) (b_refs b) (b_reps b) (b_fields b) h (g_D g) (b_stream b) (bk_refs _ Hok) (bk_reps _ Hok) (bk_used _ Hok) (bk_stream _ Hok) Hpv d (si_dec _ _ _ Hi) Hdc Hsees Hle ltac:(lia)) as (d' & o & p & E & Hfr & Haf & Hp & Hen). fold (b_ric b) in Haf.
  set (K := d_knownReceivedCount d) in *. set (T := zlen (s_hist (g_D g))) in *. replace (Z.max K T) with T in Haf by lia. destruct (ric_range _ (bk_refs _ Hok)) as [Hrr _]. fold (b_ric b) in Hrr. pose proof (ric_refs b Hok) as Hrb.
  assert (Hon : forall st, on_stream st b = (st =? b_stream b) && (b_ric b >? 0)).
  { intros st. unfold on_stream. rewrite (Z.eqb_sym (b_stream b) st). f_equal. destruct (bool_decide (b_refs b = [])) eqn:Eb; cbn [negb]; [apply bool_decide_eq_true in Eb|apply bool_decide_eq_false in Eb; apply Hrb in Eb; lia]. destruct (b_ric b >? 0) eqn:Er; [|done]. bool_simpl. exfalso. apply Hrb; [lia|done]. }
  destruct (acks_run (g_spD g) K (b_stream b) (b_ric b) T Hkn ltac:(lia) ltac:(lia)) as (spD' & F1 & K1 & O1).
  { intros Hpos. exists (b_refs b). eexists. split; [|reflexivity]. rewrite Hout, T4, Hon, Z.eqb_refl. replace (b_ric b >? 0) with true by lia. reflexivity. }
  replace (Z.max (Z.max K (b_ric b)) T) with T in K1 by lia. pose proof (af_sender _ _ _ _ _ _ _ Haf) as Hsm. exists d', o.
  exists (mkGhost (g_E g) (g_D g) (g_sp g) spD' (g_vs g) (g_k g) (g_ws g ++ acks K (b_stream b) (b_ric b) T) (g_j g) (g_l g) rest). split; [exact E|]. split; [|reflexivity]. pose proof (open_kept o d' (g_l g) (af_pds _ _ _ _ _ _ _ Haf) Hfr ltac:(done) ltac:(left; by exists p)) as Hopen.
  destruct Hi as [I1 I2 I3 I4 I5 I6 I7 I8 I9 I10 I11 I12 I13 I14 I15]. split; cbn [delivered ses_e ses_d ses_fwd ses_back ses_net ses_open g_E g_D g_sp g_spD g_vs g_k g_ws g_j g_l g_net]; try assumption.
  - by rewrite (proj1 (af_receiver _ _ _ _ _ _ _ Haf)).
  - exact (af_table _ _ _ _ _ _ _ Haf _ I4).
  - by eapply after_pend.
  - rewrite (af_known _ _ _ _ _ _ _ Haf). fold T. pose proof (zlen_nonneg (s_hist (g_D g))). lia.
  - rewrite (sm_huffman _ _ _ Hsm). eapply stream_more; [exact I8|by rewrite (sm_written _ _ _ Hsm), (sm_buffer _ _ _ Hsm)|by rewrite (sm_written _ _ _ Hsm)|]. apply acks_sendable; [apply (bk_stream _ Hok)|lia|lia].
  - split; [rewrite drop_app_le by apply (sa_k _ _ _ _ _ _ _ I8); apply fb_app; by exists (g_spD g)|]. split; [by rewrite K1, (af_known _ _ _ _ _ _ _ Haf)|]. intros st. rewrite O1, (Hout (b_stream b)), (Hout st), !T4, !Hon, Z.eqb_refl. destruct (st =? b_stream b) eqn:Es; cbn [andb]; [|done]. bool_simpl. subst st. by destruct (b_ric b >? 0).
  - intros x Hx. apply I10. by apply T5.
  - by rewrite (proj2 (af_blocked _ _ _ _ _ _ _ Haf)).
  - rewrite (af_errors _ _ _ _ _ _ _ Haf), (proj2 (af_receiver _ _ _ _ _ _ _ Haf)). done.
  - rewrite (sm_delegate _ _ _ Hsm). done.
Qed.
Lemma deliver_later : zlen (s_hist (g_D g)) < b_ric b -> exists d' o g', DecodeHeaderBlock d (b_stream b) block = Ok (d', o) /\ ses_inv (delivered o d') g' n /\ g_E g' = g_E g.
Proof.
  intros Hgt. destruct Ht as [T1 T2 T3 T4 T5]. destruct (si_blocks _ _ _ Hi b T1) as (Hok & Hbp & Hbl). pose proof (unfinished_decodable s g n Hi b T1) as Hdc. destruct (counts s g n Hi) as (_ & _ & C3 & _ & C5 & _). pose proof (zlen_nonneg (s_hist (g_D g))) as Hz. destruct (si_fb _ _ _ Hi) as (Hf & Hkn & Hout).
  pose proof (prefix_values (s_max (g_D g)) (b_refs b) ltac:(lia) (bk_refs _ Hok)) as Hpv. destruct (block_later (b_hist b) (b_refs b) (b_reps b) (b_fields b) h (g_D g) (b_stream b) (bk_refs _ Hok) (bk_reps _ Hok) (bk_used _ Hok) Hpv d (si_dec _ _ _ Hi) Hdc ltac:(unfold b_ric in Hgt; lia)) as (d' & o & p & E & Hfr & Haf & Hp & Hw). fold (b_ric b) in Haf, Hw.
  pose proof (insert_pending_perm o b (g_l g)) as Hperm. pose proof (after_pend_later h d d' (g_l g) o b _ _ p (si_pend _ _ _ Hi) Hfr Haf Hok ltac:(lia) T3 Hp Hw) as Hpo. pose proof (af_sender _ _ _ _ _ _ _ Haf) as Hsm. pose proof (ric_refs b Hok) as Hrb.
  exists d', o, (mkGhost (g_E g) (g_D g) (g_sp g) (g_spD g) (g_vs g) (g_k g) (g_ws g) (g_j g) (insert_pending o b (g_l g)) rest). split; [exact E|]. split; [|reflexivity]. pose proof (open_kept o d' (insert_pending o b (g_l g)) (af_pds _ _ _ _ _ _ _ Haf) Hfr ltac:(intros x Hx; rewrite Hperm; by right) ltac:(right; rewrite Hperm; left)) as Hopen.
  assert (Hled : forall st, ledger (map snd (insert_pending o b (g_l g)) ++ rest) st = ledger (unfinished g) st).
  { intros st. rewrite T4, !ledger_app, app_assoc. f_equal. apply insert_ledger. intros x Hx Es. apply T3. rewrite (po_blocked _ _ _ (si_pend _ _ _ Hi)). apply elem_streams. rewrite <- Es. apply list_elem_of_fmap in Hx as (y & -> & Hy). apply list_elem_of_fmap. by exists y. }
  destruct Hi as [I1 I2 I3 I4 I5 [I6 I6'] I7 I8 I9 I10 I11 I12 I13 I14 I15]. split; cbn [delivered ses_e ses_d ses_fwd ses_back ses_net ses_open g_E g_D g_sp g_spD g_vs g_k g_ws g_j g_l g_net]; try assumption.
  - by rewrite (proj1 (af_receiver _ _ _ _ _ _ _ Haf)).
  - exact (af_table _ _ _ _ _ _ _ Haf _ I4).
  - split; [by apply insert_pending_order|]. destruct (g_l g) as [|[o' b'] l']; cbn [insert_pending head_waits]; [done|]. by destruct (_ >? _).
  - by rewrite (af_known _ _ _ _ _ _ _ Haf).
  - rewrite (sm_huffman _ _ _ Hsm). rewrite <- (app_nil_r (g_ws g)). eapply stream_more; [exact I8|by rewrite (sm_written _ _ _ Hsm), (sm_buffer _ _ _ Hsm)|by rewrite (sm_written _ _ _ Hsm)|apply Forall_nil_2].
  - split; [done|]. split; [by rewrite (af_known _ _ _ _ _ _ _ Haf)|]. intros st. rewrite Hout. symmetry. apply Hled.
  - intros x Hx. apply I10. unfold unfinished in Hx. cbn [g_l g_net] in Hx. apply elem_of_app in Hx as [Hx|Hx]; [|apply T5; apply elem_of_app; by right]. rewrite Hperm in Hx. cbn [map snd] in Hx. apply elem_of_cons in Hx as [-> |Hx]; [done|]. apply T5. apply elem_of_app. by left.
  - by rewrite (proj2 (af_blocked _ _ _ _ _ _ _ Haf)).
  - rewrite (af_errors _ _ _ _ _ _ _ Haf), (proj2 (af_receiver _ _ _ _ _ _ _ Haf)). done.
  - rewrite (sm_delegate _ _ _ Hsm). done.
Qed.
End deliver.
Lemma deliver_kept s g n k : ses_inv s g n -> exists s' g', act s (ADeliver k) = Ok s' /\ ses_inv s' g' n /\ g_E g' = g_E g /\ ses_e s' = ses_e s.
Proof.
  intros Hi. cbn [act]. destruct (ses_net s !! k) as [pk|] eqn:Ek; [|exists s, g; done]. destruct (may_deliver s k pk) eqn:Em; [|exists s, g; done]. destruct (in_turn_of s g n k pk Hi Ek Em) as (b & rest & [Hc1 Hc2 Hc3] & Ht). destruct (counts s g n Hi) as (_ & _ & C3 & _). rewrite Hc1, Hc2, Hc3, C3.
  assert (H : exists d' o g', DecodeHeaderBlock (ses_d s) (b_stream b) (images (e_huffmanEncoding (ses_e s)) (VPrefix (prefix_of_block (s_max (g_D g)) (b_refs b)) :: b_reps b)) = Ok (d', o) /\ ses_inv (delivered s k b o d') g' n /\ g_E g' = g_E g) by (destruct (Z.le_gt_cases (b_ric b) (zlen (s_hist (g_D g)))); [by eapply deliver_now|by eapply deliver_later]).
  destruct H as (d' & o & g' & -> & Hi' & HE). cbn [res_bind fst snd]. eexists _, g'. split; [reflexivity|]. split; [exact Hi'|]. split; [exact HE|reflexivity].
Qed.

(** ** All schedules *)
Definition action_ok (a : action) : Prop := match a with AEncode st l _ => is_u64 st /\ Forall field_ok l | _ => True end.
(** The blocks and fields that are encoded. *)
Definition weight (crumbling : bool) (a : action) : Z := match a with AEncode _ l _ => 1 + zlen (flatten crumbling l) | _ => 0 end.
Fixpoint weights (crumbling : bool) (l : list action) : Z := match l with [] => 0 | a :: l' => weight crumbling a + weights crumbling l' end.
Lemma weights_nonneg c l : 0 <= weights c l.
Proof. induction l as [|a l IH]; cbn [weights]; [lia|]. destruct a as [st hl nb| | | |]; cbn [weight]; try lia. pose proof (zlen_nonneg (flatten c hl)). lia. Qed.
Lemma act_kept s g n a : ses_inv s g n -> n < 2 ^ 62 -> action_ok a -> zlen (s_hist (g_E g)) + weight (e_cookieCrumbling (ses_e s)) a < 2 ^ 62 ->
  exists s' g' n', act s a = Ok s' /\ ses_inv s' g' n' /\ n' <= n + weight (e_cookieCrumbling (ses_e s)) a /\ zlen (s_hist (g_E g')) <= zlen (s_hist (g_E g)) + weight (e_cookieCrumbling (ses_e s)) a /\ e_cookieCrumbling (ses_e s') = e_cookieCrumbling (ses_e s).
Proof.
  intros Hi Hn Hok Hw. destruct a as [st l nb|m| |m|k]; cbn [weight action_ok] in *.
  - pose proof (zlen_nonneg (flatten (e_cookieCrumbling (ses_e s)) l)). destruct (encode_kept s g n st l nb Hi Hn (proj1 Hok) (flatten_ok _ _ (proj2 Hok)) ltac:(lia)) as (s' & g' & E & Hi' & Hz & Hc). exists s', g', (n + 1). split; [exact E|]. split; [exact Hi'|]. split; [lia|]. split; [lia|exact Hc].
  - destruct (forward_kept s g n m Hi) as (s' & g' & E & Hi' & HE). exists s', g', n. split; [exact E|]. split; [exact Hi'|]. rewrite HE. split; [lia|]. split; [lia|]. cbn [act] in E. destruct (dec_receive _ _) as [d|[]|]; [|done]. cbn [res_bind] in E. by injection E as <-.
  - destruct (flush_kept s g n Hi) as (s' & E & Hi'). exists s', g, n. split; [exact E|]. split; [exact Hi'|]. split; [lia|]. split; [lia|]. cbn [act] in E. by injection E as <-.
  - destruct (back_kept s g n m Hi Hn) as (s' & g' & E & Hi' & HE & Hc). exists s', g', n. split; [exact E|]. split; [exact Hi'|]. rewrite HE. split; [lia|]. split; [lia|exact Hc].
  - destruct (deliver_kept s g n k Hi) as (s' & g' & E & Hi' & HE & Hc). exists s', g', n. split; [exact E|]. split; [exact Hi'|]. rewrite HE, Hc. split; [lia|]. split; [lia|done].
Qed.
Lemma acts_kept l : forall s g n, ses_inv s g n -> Forall action_ok l -> n + weights (e_cookieCrumbling (ses_e s)) l < 2 ^ 62 -> zlen (s_hist (g_E g)) + weights (e_cookieCrumbling (ses_e s)) l < 2 ^ 62 ->
  exists s' g' n', acts s l = Ok s' /\ ses_inv s' g' n'.
Proof.
  induction l as [|a l IH]; intros s g n Hi Hok Hn Hz; cbn [acts weights] in *; [by exists s, g, n|]. apply Forall_cons_1 in Hok as [Ha Hok]. pose proof (weights_nonneg (e_cookieCrumbling (ses_e s)) l). assert (0 <= weight (e_cookieCrumbling (ses_e s)) a) by (destruct a as [st hl nb| | | |]; cbn [weight]; try lia; pose proof (zlen_nonneg (flatten (e_cookieCrumbling (ses_e s)) hl)); lia).
  destruct (act_kept s g n a Hi ltac:(lia) Ha ltac:(lia)) as (s1 & g1 & n1 & -> & Hi1 & Hn1 & Hz1 & Hc). cbn [res_bind]. apply (IH s1 g1 n1 Hi1 Hok); rewrite Hc; lia.
Qed.
(** The beginning. *)
Lemma connected huffman crumbling mx cap bE bD : 0 <= cap <= mx -> mx < 2 ^ 62 -> 0 <= bE <= bD ->
  exists s g, connect huffman crumbling mx cap bE bD = Ok s /\ ses_inv s g 0 /\ e_cookieCrumbling (ses_e s) = crumbling /\ s_hist (g_E g) = [] /\ ses_open s = [].
Proof.
  intros Hcap Hmx Hb. unfold connect. set (e0 := SetStreamSenderDelegate (NewEncoder huffman crumbling) true). set (sD := mkSpec [] 0 0 mx). set (sE := mkSpec [] 0 cap mx).
  assert (H0 : implements initBase spec_zero) by (by split). destruct (et_op_spec NewEncoderHeaderTable spec_zero (OpMaximum mx) et_new H0 ltac:(cbn; unfold is_u64; lia)) as (t1 & E1 & R1 & M1). cbn [et_op] in E1. injection E1 as <-. change (spec_op spec_zero (OpMaximum mx)) with sD in R1, M1.
  unfold enc_SetMaximumDynamicTableCapacity. change (et_base (e_table e0)) with initBase. set (r := tb_SetMaximumDynamicTableCapacity initBase mx) in *. change (tb_SetMaximumDynamicTableCapacity (et_base NewEncoderHeaderTable) mx) with r in R1, M1.
  assert (Er : r = (fst r, snd r)) by (by destruct r). rewrite Er. cbv iota beta. unfold SetMaximumBlockedStreams. match goal with |- context [bE <? ?y] => change y with 0 end. replace (bE <? 0) with false by lia. set (t := { NewEncoderHeaderTable with et_base := fst r }) in *.
  unfold enc_SetDynamicTableCapacity, SendSetDynamicTableCapacity. destruct (sent_one (e_sender e0) (VSetDynamicTableCapacity cap) ltac:(apply values_int; [by right; left|unfold is_u64; lia])) as (snd1 & Es & [S1 S2 S3 S4]).
  match goal with |- context [ss_send ?x _] => change x with (e_sender e0) end. rewrite Es. cbn [res_bind].
  assert (HM : 0 <= cap <= tb_maximum (et_base t)) by (split; [lia|]; etransitivity; [apply Hcap|]; apply Z.eq_le_incl; symmetry; exact (im_max _ _ M1)). destruct (@set_capacity _ _ EncoderHeaderTable_rep t [] 0 cap R1 HM) as (t' & Et & Rt & Hs & _). match goal with |- context [tb_SetDynamicTableCapacity ?x cap] => change x with t end. rewrite Et. cbn [res_bind fst snd]. injection Hs as Hs1 Hs2 _ _.
  assert (MD : implements (et_base t') sE) by (split; [exact Hs1|exact (eq_trans Hs2 (im_max _ _ M1))|cbn; lia]).
  eexists _, (mkGhost sE sD (mkBS (fun _ => []) 0) (mkBS (fun _ => []) 0) [VSetDynamicTableCapacity cap] 0 [] 0 [] []). split; [reflexivity|]. split; [|done].
  assert (Hvs : Forall (sendable langEncoderStream) [VSetDynamicTableCapacity cap]) by (apply Forall_cons_2; [|apply Forall_nil_2]; split; [apply (bool_decide_unpack _); vm_compute; exact I|apply values_int; [by right; left|unfold is_u64; lia]]).
  split; cbn [ses_e ses_d ses_fwd ses_back ses_net ses_open g_E g_D g_sp g_spD g_vs g_k g_ws g_j g_l g_net].
  - split; [exact Rt|exact MD|exact (new_rep [])| | |change (0 <= bE); lia|exact S2].
    + intros st l i Hl. by apply not_elem_of_nil in Hl.
    + change (0 <= 0 <= 0). lia.
  - split; [|exact Hvs|lia|lia|exact (at_start_bytes langEncoderStream)]. etransitivity; [exact (f_equal2 app S3 S4)|]. reflexivity.
  - exists sE. split; [|reflexivity]. exists (OpCapacity cap). split; [reflexivity|]. split; [cbn; unfold is_u64; lia|]. split; [cbn; lia|]. split; [|split; [change (0 <= cap < 2 ^ 62); lia|discriminate]]. unfold spec_op. change (s_max sD) with mx. replace (cap >? mx) with false by lia. reflexivity.
  - destruct (set_maximum initBase [] 0 mx init_rep ltac:(unfold is_u64; lia)) as (B1 & B2 & B3). split; [exact B1|]. split; [exact B2|exact B3|cbn; lia].
  - split; [reflexivity|reflexivity|split; apply NoDup_nil_2|]. intros o b Hob. by apply not_elem_of_nil in Hob.
  - split; [constructor|exact I].
  - change (0 <= 0 <= 0). lia.
  - split; [reflexivity|apply Forall_nil_2|lia|cbn; lia|exact (at_start_bytes langDecoderStream)].
  - split_and!; reflexivity.
  - intros b Hob. by apply not_elem_of_nil in Hob.
  - apply Forall2_nil.
  - intros o fs Hof. by apply not_elem_of_nil in Hof.
  - change (bE <= bD). lia.
  - split_and!; reflexivity.
  - split; [exact S1|reflexivity].
Qed.

(** C6: QPACK end to end.  An encoder and a decoder are set up with the same maximum
    capacity, and the encoder with a capacity within it and at most as many blocked
    streams as the decoder allows.  Then under every schedule (header lists are encoded on
    any streams; bytes of the encoder's and the decoder's control stream arrive in any
    pieces, at any time; feedback is flushed at any time; blocks arrive in any order
    across streams, each stream's in order, before or after the instructions they need)
    nothing panics and neither side reports an error; the handler of every block given
    to the decoder has been told either nothing yet, the block being blocked, or exactly
    the fields that were encoded, in order, and then completion; and once the encoder's
    control stream has arrived, no block is left waiting.  The fields encoded are those
    [splitHeaderField] makes of the header list; capacities stay as they were set up,
    and no stream is reset. *)
Theorem qpack_session (huffman crumbling : bool) (maximum capacity blockedE blockedD : Z) (Hcap : 0 <= capacity <= maximum) (Hmax : maximum < 2 ^ 62) (Hblocked : 0 <= blockedE <= blockedD)
  (l : list action) (Hl : Forall action_ok l) (Hw : weights crumbling l < 2 ^ 62) :
  exists s0 s, connect huffman crumbling maximum capacity blockedE blockedD = Ok s0 /\ acts s0 l = Ok s
    /\ e_errors (ses_e s) = [] /\ d_errors (ses_d s) = []
    /\ (forall o fs, (o, fs) ∈ ses_open s -> exists p, d_pds (ses_d s) !! o = Some p
         /\ ((pd_handler p = [] /\ pd_blocked p = true) \/ pd_handler p = map HeaderDecoded fs ++ [DecodingCompleted]))
    /\ (ses_fwd s = length (ss_written (e_sender (ses_e s))) -> ss_buffer (e_sender (ses_e s)) = [] ->
        forall o fs, (o, fs) ∈ ses_open s -> exists p, d_pds (ses_d s) !! o = Some p /\ pd_handler p = map HeaderDecoded fs ++ [DecodingCompleted]).
Proof.
  destruct (connected huffman crumbling maximum capacity blockedE blockedD Hcap Hmax Hblocked) as (s0 & g0 & E0 & Hi0 & Hc & Hh & _). destruct (acts_kept l s0 g0 0 Hi0 Hl ltac:(rewrite Hc; lia) ltac:(rewrite Hc, Hh; exact Hw)) as (s & g & n & E & Hi). exists s0, s. split; [exact E0|]. split; [exact E|]. destruct (si_clean _ _ _ Hi) as (X1 & X2 & _). split; [exact X1|]. split; [exact X2|]. split.
  - intros o fs Hof. destruct (si_open _ _ _ Hi o fs Hof) as [(b & Hb & _)|(p & Hp & Hen & _)].
    + destruct (po_blocks _ _ _ (si_pend _ _ _ Hi) o b Hb) as (_ & _ & p & Hp & Hwt). exists p. split; [exact Hp|]. left. split; [apply (wt_handler _ _ _ _ Hwt)|apply (wt_blocked _ _ _ _ Hwt)].
    + exists p. split; [exact Hp|]. by right.
  - intros Hpos Hbuf o fs Hof. pose proof (si_fwd _ _ _ Hi) as Hat. rewrite Hpos in Hat. pose proof (stream_complete _ _ _ _ _ _ encoder_language Hat Hbuf) as Hk. pose proof (si_run _ _ _ Hi) as Hrun. rewrite Hk, drop_all in Hrun. cbn [stream_run] in Hrun.
    destruct (si_open _ _ _ Hi o fs Hof) as [(b & Hb & _)|(p & Hp & Hen & _)]; [|by exists p]. exfalso. destruct (si_order _ _ _ Hi) as [Ho Hwt]. pose proof (all_wait _ _ Ho Hwt o b Hb) as Hlt. assert (Hbu : b ∈ unfinished g) by (apply elem_of_app; left; apply list_elem_of_fmap; by exists (o, b)).
    destruct (si_blocks _ _ _ Hi b Hbu) as (Hok & Hp & Hbl). pose proof (zlen_nonneg (s_hist (g_D g))). pose proof (proj1 (ric_refs b Hok) ltac:(lia)) as Hne. destruct (lmax_in (b_refs b) (conj Hne (bk_refs _ Hok))) as (Hm & _ & _). specialize (Hbl _ Hm). apply prefix_length in Hp. rewrite Hrun in Hp. unfold b_ric, ric, zlen in *. lia.
Qed.
(** Two blocks on two streams; the second one overtakes the instructions it needs. *)
Definition sample_headers : list HeaderField := [mkHF [120; 45; 97] [49]; mkHF [120; 45; 98] [50; 51]].
Definition sample_schedule : list action :=
  [AEncode 0 sample_headers 0; ADeliver 0; AForward 3; AEncode 4 sample_headers 0; ADeliver 0; AForward 100; AFlush; ABack 1; ABack 100; AEncode 4 sample_headers 0; AForward 100; ADeliver 0].
Lemma qpack_session_witness :
  0 <= 200 <= 4096 /\ Forall action_ok sample_schedule /\ weights true sample_schedule < 2 ^ 62
  /\ exists s0 s, connect true true 4096 200 2 10 = Ok s0 /\ acts s0 sample_schedule = Ok s
    /\ e_errors (ses_e s) = [] /\ d_errors (ses_d s) = []
    /\ (forall o fs, (o, fs) ∈ ses_open s -> exists p, d_pds (ses_d s) !! o = Some p
         /\ ((pd_handler p = [] /\ pd_blocked p = true) \/ pd_handler p = map HeaderDecoded fs ++ [DecodingCompleted]))
    /\ (ses_fwd s = length (ss_written (e_sender (ses_e s))) -> ss_buffer (e_sender (ses_e s)) = [] ->
        forall o fs, (o, fs) ∈ ses_open s -> exists p, d_pds (ses_d s) !! o = Some p /\ pd_handler p = map HeaderDecoded fs ++ [DecodingCompleted]).
Proof.
  assert (Hs : forall x, bool_decide (bytes_ok x) = true -> zlen x <= 100 -> str_ok x) by (intros x H1 H2; split; [exact (bool_decide_eq_true_1 _ H1)|unfold qpackStringLiteralLengthLimit; lia]).
  assert (Hf : Forall field_ok sample_headers) by (repeat apply Forall_cons_2; try apply Forall_nil_2; (split; (apply Hs; [reflexivity|vm_compute; congruence]))).
  assert (Ha : Forall action_ok sample_schedule) by (repeat apply Forall_cons_2; try apply Forall_nil_2; try exact I; (split; [unfold is_u64; lia|exact Hf])).
  assert (Hw : weights true sample_schedule < 2 ^ 62) by (vm_compute; reflexivity).
  split; [lia|]. split; [exact Ha|]. split; [exact Hw|]. exact (qpack_session true true 4096 200 2 10 ltac:(lia) ltac:(lia) ltac:(lia) sample_schedule Ha Hw).
Defined.
(** In that schedule the first block waits until the stream arrives, and in the end all
    three have been decoded. *)
Definition handlers (s : session) : list (list handler_event) := map (fun x => match d_pds (ses_d s) !! fst x with Some p => pd_handler p | None => [] end) (ses_open s).
Example session_runs :
  (let* s := connect true true 4096 200 2 10 in let* s := acts s (take 2 sample_schedule) in let* s' := acts s (drop 2 sample_schedule) in @Ok Empty_set _ (handlers s, handlers s'))
  = Ok ([[]], let done := map HeaderDecoded sample_headers ++ [DecodingCompleted] in [done; done; done]).
Proof. vm_compute. reflexivity. Qed.

(** ** What the invariant excludes *)
Definition with_d (s : session) (d : Decoder) : session := mkSes (ses_e s) d (ses_fwd s) (ses_back s) (ses_net s) (ses_open s).
Definition with_e (s : session) (e : Encoder) : session := mkSes e (ses_d s) (ses_fwd s) (ses_back s) (ses_net s) (ses_open s).
(** A blocked stream that is reset is decoded and acknowledged all the same when its
    entries arrive; to the encoder, which has seen the cancellation, that is an error. *)
Example reset_stream_acknowledged :
  (let* s := connect true true 4096 200 2 10 in
   let* s := acts s [AEncode 0 sample_headers 0; ADeliver 0] in
   let* d := OnStreamReset (ses_d s) 0 in
   let* s := acts (with_d s d) [AForward 100; AFlush; ABack 100] in
   @Ok Empty_set _ (handlers s, e_errors (ses_e s)))
  = Ok ([map HeaderDecoded sample_headers ++ [DecodingCompleted]], [ErrCodeDecoderIncorrectAcknowledgement]).
Proof. vm_compute. reflexivity. Qed.
(** Reducing the capacity evicts entries that a block on its way refers to. *)
Example capacity_reduction_breaks_block :
  (let* s := connect true true 4096 200 2 10 in
   let* s := acts s [AEncode 0 sample_headers 0] in
   let* e := enc_SetDynamicTableCapacity (ses_e s) 0 in
   let* s := acts (with_e s e) [AEncode 4 [] 0; AForward 100; ADeliver 0] in
   @Ok Empty_set _ (handlers s))
  = Ok [[DecodingErrorDetected QPACK_DECOMPRESSION_FAILED]].
Proof. vm_compute. reflexivity. Qed.
