(* ===== verification/H1Base.v ===== *)
(** * HTTP/1.1: buffered readers, vector primitives and tokens

    What the HTTP/1.1 codec [src/proto/h1] stands on.

    - [Silicon]: the functions of the packages [simd], [hexkit] and [bytesconv] of
      the foundation module that [vector.go] wraps, as parameters, and [SiliconLaws],
      what the comments and tests of [vector.go] say they do.  [plain_silicon] is a
      plain implementation that satisfies the laws.
    - [bufreader]: the standard library's [bufio.Reader] over a connection that
      delivers its bytes in pieces of any size, with the four operations the codec
      uses.  The lemmas give each operation on the undelivered bytes as a whole
      ([flat]), so that a client's theorems do not see the pieces.
    - the table of token characters and [isValidHeaderKey], from [headerscanner.go]. *)

From Stdlib Require Import Ascii String.
From S2P Require Import Prelude Intern.
Open Scope Z_scope.

(** ** Errors *)
Inductive hex_error := ErrEmptyHexNum | ErrHexOverflow | HexMalformed.

Inductive h1_error :=
| IoEOF
| IoUnexpectedEOF
| IoNoProgress
| ErrBufferFull
| NetError (code : Z)
| HexError (e : hex_error)
| ErrInvalidChunkSize
| ErrChunkBoundaryError
| ErrForbiddenTrailer
| ErrInvalidTrailer
| ErrBodyTooLarge
| Wrapped (outer inner : h1_error).

#[export] Instance hex_error_eq_dec : EqDecision hex_error.
Proof. solve_decision. Defined.
#[export] Instance h1_error_eq_dec : EqDecision h1_error.
Proof. solve_decision. Defined.

(** [errors.Is]. *)
Fixpoint errors_Is (e target : h1_error) : bool :=
  bool_decide (e = target) || match e with Wrapped a b => errors_Is a target || errors_Is b target | _ => false end.

(** ** Searching and trimming *)
Fixpoint index_where (f : Z -> bool) (b : bytes) : Z :=
  match b with
  | [] => -1
  | c :: b' => if f c then 0 else let i := index_where f b' in if i <? 0 then -1 else i + 1
  end.

Definition is_ows (c : Z) : bool := (c =? 32) || (c =? 9).
Fixpoint trim_left (b : bytes) : bytes :=
  match b with
  | [] => []
  | c :: b' => if is_ows c then trim_left b' else b
  end.
Definition trim_right (b : bytes) : bytes := reverse (trim_left (reverse b)).

Definition hex_value (c : Z) : option Z :=
  if (48 <=? c) && (c <=? 57) then Some (c - 48)
  else if (97 <=? c) && (c <=? 102) then Some (c - 87)
  else if (65 <=? c) && (c <=? 70) then Some (c - 55)
  else None.
Definition is_hex (c : Z) : bool := match hex_value c with Some _ => true | None => false end.
Definition hex_number (b : bytes) : Z := fold_left (fun a c => 16 * a + default 0 (hex_value c)) b 0.

(** The foundation's primitives.  [FormatHexUint_] is what is written to the buffer;
    [ParseHexUint_] gives the value and the number of bytes consumed. *)
Class Silicon := {
  TrimSpaceSWAR : bytes -> bytes;
  TrimLeadingSpaceSWAR : bytes -> bytes;
  TrimTrailingSpaceSWAR : bytes -> bytes;
  IndexColonSWAR : bytes -> Z;
  IndexByteVector : bytes -> Z -> Z;
  IndexTwoBytesVector : bytes -> Z -> Z -> Z;
  IndexCRLFCRLF_ : bytes -> Z;
  FormatHexUint_ : Z -> bytes;
  ParseHexUint_ : bytes -> res hex_error (Z * Z);
  FromHexChar : Z -> option Z;
  EqualFoldASCII : bytes -> bytes -> bool;
}.

(** A blank line: CR LF CR LF, or two line feeds in a row, which a lenient scanner may
    take for one as well. *)
Definition blank_at (b : bytes) : bool :=
  match b with
  | 13 :: 10 :: 13 :: 10 :: _ => true
  | 10 :: 10 :: _ => true
  | _ => false
  end.
Fixpoint has_blank (b : bytes) : bool :=
  match b with [] => false | _ :: b' => blank_at b || has_blank b' end.

Class SiliconLaws `{Silicon} : Prop := {
  trim_leading_law b : TrimLeadingSpaceSWAR b = trim_left b;
  trim_trailing_law b : TrimTrailingSpaceSWAR b = trim_right b;
  trim_space_law b : TrimSpaceSWAR b = trim_right (trim_left b);
  index_colon_law b : IndexColonSWAR b = index_where (fun c => c =? 58) b;
  index_byte_law b t : IndexByteVector b t = index_where (fun c => c =? t) b;
  index_two_law b t u : IndexTwoBytesVector b t u = index_where (fun c => (c =? t) || (c =? u)) b;
  index_blank_law x y : has_blank (x ++ [13; 10; 13]) = false -> IndexCRLFCRLF_ (x ++ 13 :: 10 :: 13 :: 10 :: y) = zlen x + 4;
  index_blank_none b : has_blank b = false -> IndexCRLFCRLF_ b = -1;
  index_blank_range b : -1 <= IndexCRLFCRLF_ b <= zlen b;
  format_hex_law n : 0 <= n < 2 ^ 63 -> (1 <= length (FormatHexUint_ n) <= 16)%nat /\ Forall (fun c => is_hex c = true) (FormatHexUint_ n) /\ hex_number (FormatHexUint_ n) = n;
  parse_hex_sound b v : ParseHexUint_ b = Ok (v, zlen b) -> b <> [] /\ Forall (fun c => is_hex c = true) b /\ v = hex_number b;
  parse_hex_complete b : (1 <= length b <= 16)%nat -> Forall (fun c => is_hex c = true) b -> hex_number b < 2 ^ 63 -> ParseHexUint_ b = Ok (hex_number b, zlen b);
  parse_hex_panics b : ParseHexUint_ b <> Panic;
  from_hex_law c : FromHexChar c = hex_value c;
  equal_fold_law a b : EqualFoldASCII a b = bool_decide (map lower a = map lower b);
}.

(** ** The wrappers of [vector.go] *)
Section Vector.
Context `{Silicon}.
Definition TrimSpace (b : bytes) : bytes := TrimSpaceSWAR b.
Definition TrimLeadingSpace (b : bytes) : bytes := TrimLeadingSpaceSWAR b.
Definition TrimTrailingSpace (b : bytes) : bytes := TrimTrailingSpaceSWAR b.
Definition IndexColon (b : bytes) : Z := IndexColonSWAR b.
Definition IndexByte (b : bytes) (target : Z) : Z := IndexByteVector b target.
Definition IndexTwoBytes (b : bytes) (b1 b2 : Z) : Z := IndexTwoBytesVector b b1 b2.
Definition IndexCRLFCRLF (b : bytes) : Z := IndexCRLFCRLF_ b.
Definition FormatHexUint (val : Z) : res h1_error bytes := if val <? 0 then Panic else Ok (FormatHexUint_ val).
Definition ParseHexUint (src : bytes) : res h1_error (Z * Z) :=
  match ParseHexUint_ src with
  | Ok (val, n) => Ok (val, n)
  | Err ErrHexOverflow => Err ErrInvalidChunkSize
  | Err e => Err (HexError e)
  | Panic => Panic
  end.
End Vector.

(** ** Token characters *)
Definition token_chars : bytes :=
  bytes_of_string "!#$%&'*+-.^_`|~0123456789abcdefghijklmnopqrstuvwxyzABCDEFGHIJKLMNOPQRSTUVWXYZ".
Definition validTokenTable : list Z := Eval vm_compute in map (fun c => if bool_decide (c ∈ token_chars) then 1 else 0) all_bytes.
Definition token_at (c : Z) : Z := znth validTokenTable c.

(** [isValidHeaderKey]: four characters at a time, then the rest. *)
Fixpoint key_tail (a : bytes) : bool :=
  match a with
  | [] => true
  | c :: a' => if token_at c =? 0 then false else key_tail a'
  end.
Fixpoint key_fours (a : bytes) : bool :=
  match a with
  | c0 :: c1 :: c2 :: c3 :: a' =>
      if (token_at c0 =? 0) || (token_at c1 =? 0) || (token_at c2 =? 0) || (token_at c3 =? 0) then false else key_fours a'
  | _ => key_tail a
  end.
Definition isValidHeaderKey (a : bytes) : bool := if zlen a =? 0 then false else key_fours a.

(** ** [bufio.Reader]

    The connection under it: the pieces that are still to arrive, and the error after
    the last.  A [Read] returns the next piece, or as much of it as there is room. *)
#[projections(primitive)]
Record source := mkSource { pieces : list bytes; final : h1_error }.
Definition source_read (s : source) (cap : Z) : source * bytes * option h1_error :=
  match pieces s with
  | [] => (s, [], Some (final s))
  | p :: ps => if zlen p <=? cap then (mkSource ps (final s), p, None) else (mkSource (zdrop cap p :: ps) (final s), ztake cap p, None)
  end.

(** [b_buf] is [b.buf[b.r:b.w]]; [b_size] is [len(b.buf)]. *)
#[projections(primitive)]
Record bufreader := mkBuf { b_size : Z; b_buf : bytes; b_src : source; b_err : option h1_error }.

Definition b_readErr (b : bufreader) : bufreader * option h1_error := ({ b with b_err := None }, b_err b).

Definition maxConsecutiveEmptyReads : nat := 100.
Fixpoint b_fill_loop (i : nat) (b : bufreader) : bufreader :=
  match i with
  | O => { b with b_err := Some IoNoProgress }
  | S i' =>
      let '(s, x, err) := source_read (b_src b) (b_size b - zlen (b_buf b)) in
      let b := { b with b_src := s; b_buf := b_buf b ++ x } in
      match err with
      | Some e => { b with b_err := Some e }
      | None => if zlen x >? 0 then b else b_fill_loop i' b
      end
  end.
Definition b_fill (b : bufreader) : res h1_error bufreader :=
  if zlen (b_buf b) >=? b_size b then Panic else Ok (b_fill_loop maxConsecutiveEmptyReads b).

(** [ReadSlice(delim)]: the line, and the error that comes with it. *)
Fixpoint b_ReadSlice_loop (fuel : nat) (b : bufreader) (delim : Z) : res h1_error (bufreader * bytes * option h1_error) :=
  match fuel with
  | O => Panic
  | S fuel' =>
      let i := index_where (fun c => c =? delim) (b_buf b) in
      if i >=? 0 then Ok ({ b with b_buf := zdrop (i + 1) (b_buf b) }, ztake (i + 1) (b_buf b), None)
      else match b_err b with
           | Some _ => let '(b', e) := b_readErr b in Ok ({ b' with b_buf := [] }, b_buf b, e)
           | None =>
               if zlen (b_buf b) >=? b_size b then Ok ({ b with b_buf := [] }, b_buf b, Some ErrBufferFull)
               else let* b' := b_fill b in b_ReadSlice_loop fuel' b' delim
           end
  end.
Definition b_ReadSlice (b : bufreader) (delim : Z) : res h1_error (bufreader * bytes * option h1_error) :=
  b_ReadSlice_loop (length (pieces (b_src b)) + 3) b delim.

(** [Read(p)] with [n = len(p)]: what is copied to [p]. *)
Definition b_Read (b : bufreader) (n : Z) : bufreader * bytes * option h1_error :=
  if n =? 0 then
    if zlen (b_buf b) >? 0 then (b, [], None) else let '(b', e) := b_readErr b in (b', [], e)
  else if zlen (b_buf b) =? 0 then
    match b_err b with
    | Some _ => let '(b', e) := b_readErr b in (b', [], e)
    | None =>
        if n >=? b_size b then
          let '(s, x, err) := source_read (b_src b) n in
          ({ b with b_src := s; b_err := None }, x, err)
        else
          let '(s, x, err) := source_read (b_src b) (b_size b) in
          if zlen x =? 0 then ({ b with b_src := s; b_err := None }, [], err)
          else ({ b with b_src := s; b_buf := zdrop n x; b_err := err }, ztake n x, None)
    end
  else ({ b with b_buf := zdrop n (b_buf b) }, ztake n (b_buf b), None).

(** [ReadByte]. *)
Fixpoint b_ReadByte_loop (fuel : nat) (b : bufreader) : bufreader * res h1_error Z :=
  match b_buf b with
  | c :: rest => ({ b with b_buf := rest }, Ok c)
  | [] =>
      match b_err b with
      | Some e => ({ b with b_err := None }, Err e)
      | None =>
          match fuel with
          | O => (b, Panic)
          | S fuel' => match b_fill b with Ok b' => b_ReadByte_loop fuel' b' | _ => (b, Panic) end
          end
      end
  end.
Definition b_ReadByte (b : bufreader) : bufreader * res h1_error Z := b_ReadByte_loop 1 b.

(** ** Lemmas: searching *)
Lemma index_where_range f b : -1 <= index_where f b < zlen b.
Proof.
  induction b as [|c b IH]; cbn [index_where]; [rewrite zlen_nil; lia|]. rewrite zlen_cons. pose proof (zlen_nonneg b). repeat case_test; lia.
Qed.
Lemma index_where_none f b : index_where f b < 0 <-> Forall (fun c => f c = false) b.
Proof.
  induction b as [|c b IH]; cbn [index_where]; [split; [constructor|lia]|]. rewrite Forall_cons_iff, <- IH.
  destruct (f c) eqn:E; [split; [lia|intros [? _]; done]|]. case_test; split; intros; [split; [done|lia]|lia|lia|lia].
Qed.
Lemma index_where_app f x c y :
  Forall (fun c => f c = false) x -> f c = true -> index_where f (x ++ c :: y) = zlen x.
Proof.
  intros Hx Hc. induction Hx as [|d x Hd Hx IH]; cbn [app index_where]; [by rewrite Hc|]. rewrite Hd, IH, zlen_cons.
  pose proof (zlen_nonneg x). case_test; lia.
Qed.
Lemma index_where_split f b :
  0 <= index_where f b -> exists x c y, b = x ++ c :: y /\ f c = true /\ Forall (fun c => f c = false) x /\ zlen x = index_where f b.
Proof.
  induction b as [|c b IH]; cbn [index_where]; [lia|]. destruct (f c) eqn:E; [intros _; by exists [], c, b|].
  case_test; [lia|]. intros _. destruct IH as (x & d & y & -> & Hd & Hx & Hl); [lia|].
  exists (c :: x), d, y. rewrite zlen_cons, Hl. repeat split; [done|by constructor|lia].
Qed.
(** A search through a prefix that does not find anything goes on behind it. *)
Lemma index_where_skip f x y :
  Forall (fun c => f c = false) x -> index_where f (x ++ y) = if index_where f y <? 0 then -1 else zlen x + index_where f y.
Proof.
  induction 1 as [|c x Hc Hx IH]; cbn [app index_where].
  - change (zlen (@nil Z)) with 0. case_test; [|lia]. pose proof (index_where_range f y); lia.
  - rewrite Hc, IH, zlen_cons. pose proof (zlen_nonneg x). repeat case_test; lia.
Qed.
Lemma index_where_prefix f x y : 0 <= index_where f x -> index_where f (x ++ y) = index_where f x.
Proof.
  intros H. destruct (index_where_split f x H) as (a & c & b & -> & Hc & Ha & Hl). rewrite <- Hl, <- app_assoc. cbn [app]. by apply index_where_app.
Qed.

Lemma trim_left_none b : match b with [] => True | c :: _ => is_ows c = false end -> trim_left b = b.
Proof. destruct b as [|c b]; cbn; [done|]. by intros ->. Qed.
Lemma trim_left_ows w b : Forall (fun c => is_ows c = true) w -> trim_left (w ++ b) = trim_left b.
Proof. induction 1 as [|c w Hc Hw IH]; cbn; [done|]. by rewrite Hc. Qed.
Lemma trim_left_split b : exists w, b = w ++ trim_left b /\ Forall (fun c => is_ows c = true) w.
Proof.
  induction b as [|c b (w & Hb & Hw)]; cbn; [by exists []|]. destruct (is_ows c) eqn:E; [|by exists []].
  exists (c :: w). cbn. rewrite <- Hb. split; [done|by constructor].
Qed.
Lemma trim_right_split b : exists w, b = trim_right b ++ w /\ Forall (fun c => is_ows c = true) w.
Proof.
  unfold trim_right. destruct (trim_left_split (reverse b)) as (w & Hb & Hw). exists (reverse w). split.
  - rewrite <- reverse_app, <- Hb. by rewrite reverse_involutive.
  - by apply Forall_reverse.
Qed.
Lemma trim_right_ows b w : Forall (fun c => is_ows c = true) w -> trim_right (b ++ w) = trim_right b.
Proof. intros Hw. unfold trim_right. rewrite reverse_app, trim_left_ows; [done|]. by apply Forall_reverse. Qed.
Lemma trim_right_none b : match reverse b with c :: _ => is_ows c = false | [] => True end -> trim_right b = b.
Proof. intros H. unfold trim_right. by rewrite trim_left_none, reverse_involutive. Qed.

(** ** Lemmas: tokens *)
Definition is_token (c : Z) : bool := bool_decide (c ∈ token_chars).
Lemma token_at_spec c : is_byte c -> (token_at c =? 0) = negb (is_token c).
Proof.
  intros Hc. apply (eqb_true_iff (token_at c =? 0)).
  revert c Hc. apply (all_bytes_spec (fun c => Bool.eqb (token_at c =? 0) (negb (is_token c)))). vm_compute. reflexivity.
Qed.
Lemma key_tail_spec a : bytes_ok a -> key_tail a = forallb is_token a.
Proof. induction 1 as [|c a Hc Ha IH]; cbn [key_tail forallb]; [done|]. rewrite token_at_spec, IH by done. by destruct (is_token c). Qed.
Lemma key_fours_spec n : forall a, (length a <= n)%nat -> bytes_ok a -> key_fours a = forallb is_token a.
Proof.
  induction n as [|n IH]; intros a Hn Ha; [destruct a; [done|cbn in Hn; lia]|].
  destruct a as [|c0 [|c1 [|c2 [|c3 a]]]]; try by apply key_tail_spec.
  apply Forall_cons_iff in Ha as [H0 Ha]. apply Forall_cons_iff in Ha as [H1 Ha]. apply Forall_cons_iff in Ha as [H2 Ha]. apply Forall_cons_iff in Ha as [H3 Ha].
  cbn [key_fours forallb]. rewrite !token_at_spec, IH by (done || (cbn in Hn; lia)).
  destruct (is_token c0), (is_token c1), (is_token c2), (is_token c3); done.
Qed.
(** The unrolled check is the plain one: a non-empty sequence of token characters. *)
Lemma isValidHeaderKey_spec a : bytes_ok a -> isValidHeaderKey a = negb (zlen a =? 0) && forallb is_token a.
Proof. intros Ha. unfold isValidHeaderKey. destruct (zlen a =? 0); [done|]. cbn. by apply (key_fours_spec (length a)). Qed.

(** ** Lemmas: [bufio.Reader]

    Between operations no error is held back, the buffer fits, and the connection
    does not deliver empty pieces. *)
Definition flat (b : bufreader) : bytes := b_buf b ++ concat (pieces (b_src b)).
Definition buf_end (b : bufreader) : h1_error := final (b_src b).
Record buf_ok (b : bufreader) : Prop := mkBufOk {
  bo_size : 16 <= b_size b;
  bo_room : zlen (b_buf b) <= b_size b;
  bo_err : b_err b = None;
  bo_pieces : Forall (fun p => p <> []) (pieces (b_src b));
}.
(** The same reader later: size and final error stay. *)
Definition same_reader (b b' : bufreader) : Prop := b_size b' = b_size b /\ buf_end b' = buf_end b.

Lemma source_read_spec s cap :
  0 < cap -> Forall (fun p => p <> []) (pieces s) -> pieces s <> [] ->
  exists s' x, source_read s cap = (s', x, None) /\ concat (pieces s) = x ++ concat (pieces s') /\ 0 < zlen x <= cap
    /\ Forall (fun p => p <> []) (pieces s') /\ final s' = final s
    /\ (zlen x = cap \/ (length (pieces s') < length (pieces s))%nat).
Proof.
  intros Hc Hp Hne. unfold source_read. destruct s as [[|p ps] e]; [done|]. cbn [pieces final] in *. apply Forall_cons_iff in Hp as [Hp Hps].
  assert (0 < zlen p) by (destruct p; [done|rewrite zlen_cons; pose proof (zlen_nonneg p); lia]).
  case_test; eexists _, _; (split; [reflexivity|]); cbn [pieces final concat length].
  - repeat split; [lia|lia|done|right; lia].
  - rewrite app_assoc, ztake_zdrop, zlen_ztake by lia. repeat split; [lia|lia| |by left].
    constructor; [|done]. intros Hz. apply (f_equal zlen) in Hz. rewrite zlen_zdrop in Hz by lia. change (zlen (@nil Z)) with 0 in Hz. lia.
Qed.

Lemma fill_loop_S i b :
  b_fill_loop (S i) b =
    let '(s, x, err) := source_read (b_src b) (b_size b - zlen (b_buf b)) in
    let b := { b with b_src := s; b_buf := b_buf b ++ x } in
    match err with
    | Some e => { b with b_err := Some e }
    | None => if zlen x >? 0 then b else b_fill_loop i b
    end.
Proof. reflexivity. Qed.
Lemma fill_end b : buf_ok b -> pieces (b_src b) = [] -> zlen (b_buf b) < b_size b -> b_fill b = Ok {b with b_err := Some (buf_end b)}.
Proof.
  intros [] Hp Hl. unfold b_fill. case_test; [lia|]. unfold maxConsecutiveEmptyReads. rewrite fill_loop_S. unfold source_read. rewrite Hp.
  destruct b as [sz buf [ps e] err]. cbn in *. subst. by rewrite app_nil_r.
Qed.
Lemma fill_more b :
  buf_ok b -> pieces (b_src b) <> [] -> zlen (b_buf b) < b_size b ->
  exists b', b_fill b = Ok b' /\ buf_ok b' /\ same_reader b b' /\ flat b' = flat b /\ zlen (b_buf b) < zlen (b_buf b')
    /\ (zlen (b_buf b') = b_size b \/ (length (pieces (b_src b')) < length (pieces (b_src b)))%nat).
Proof.
  intros [] Hp Hl. unfold b_fill. case_test; [lia|]. unfold maxConsecutiveEmptyReads. rewrite fill_loop_S.
  destruct (source_read_spec (b_src b) (b_size b - zlen (b_buf b))) as (s' & x & -> & Hc & Hx & Hps & Hf & Hor); [lia|done|done|].
  case_test; [|lia]. eexists. split; [reflexivity|]. unfold same_reader, flat, buf_end. destruct b as [sz buf s err]; cbn in *.
  rewrite Hc, zlen_app, <- app_assoc. repeat split; cbn; try done; try lia. rewrite zlen_app; lia.
Qed.

(** [ReadSlice] on the undelivered bytes: a line that fits the buffer, a full buffer,
    or what is left with the final error. *)
Definition flat_ReadSlice (size : Z) (e : h1_error) (delim : Z) (F : bytes) : bytes * option h1_error * bytes :=
  let i := index_where (fun c => c =? delim) F in
  if (0 <=? i) && (i <? size) then (ztake (i + 1) F, None, zdrop (i + 1) F)
  else if size <=? zlen F then (ztake size F, Some ErrBufferFull, zdrop size F)
  else (F, Some e, []).

Lemma buf_ok_next b b' rest :
  buf_ok b -> b_size b' = b_size b -> b_err b' = None -> buf_end b' = buf_end b -> zlen (b_buf b') <= b_size b ->
  Forall (fun p => p <> []) (pieces (b_src b')) -> b_buf b' ++ concat (pieces (b_src b')) = rest ->
  buf_ok b' /\ same_reader b b' /\ flat b' = rest.
Proof. intros [] ? ? ? ? ? ?. repeat split; try done; congruence. Qed.
Lemma ReadSlice_now b d fuel i :
  index_where (fun c => c =? d) (b_buf b) = i -> 0 <= i ->
  b_ReadSlice_loop (S fuel) b d = Ok ({ b with b_buf := zdrop (i + 1) (b_buf b) }, ztake (i + 1) (b_buf b), None).
Proof. intros <- Hi. cbn [b_ReadSlice_loop]. case_test; [done|lia]. Qed.

Lemma ReadSlice_failed b d fuel e :
  index_where (fun c => c =? d) (b_buf b) < 0 -> b_err b = Some e ->
  b_ReadSlice_loop (S fuel) b d = Ok ({ b with b_err := None; b_buf := [] }, b_buf b, Some e).
Proof. intros Hi He. cbn [b_ReadSlice_loop]. case_test; [lia|]. unfold b_readErr. by rewrite He. Qed.
Lemma ReadSlice_loop_spec d fuel : forall b,
  buf_ok b -> (length (pieces (b_src b)) + 2 <= fuel)%nat \/ (zlen (b_buf b) = b_size b /\ (1 <= fuel)%nat) ->
  let '(line, err, rest) := flat_ReadSlice (b_size b) (buf_end b) d (flat b) in
  exists b', b_ReadSlice_loop fuel b d = Ok (b', line, err) /\ buf_ok b' /\ same_reader b b' /\ flat b' = rest.
Proof.
  induction fuel as [|fuel IH]; intros b Hb Hf; [lia|].
  pose proof (index_where_range (fun c => c =? d) (b_buf b)) as Hr. pose proof Hb as [Hsz Hroom Herr Hps].
  set (i := index_where (fun c => c =? d) (b_buf b)) in *.
  destruct (Z_lt_le_dec i 0) as [Hn|Hi].
  - pose proof Hn as Hn'. apply index_where_none in Hn'. destruct (Z_lt_le_dec (zlen (b_buf b)) (b_size b)) as [Hlt|Hge].
    + assert (Estep : b_ReadSlice_loop (S fuel) b d = let* b' := b_fill b in b_ReadSlice_loop fuel b' d).
      { cbn [b_ReadSlice_loop]. fold i. case_test; [lia|]. rewrite Herr. case_test; [lia|done]. }
      rewrite Estep. destruct (decide (pieces (b_src b) = [])) as [Hp|Hp].
      * rewrite fill_end by done. cbn [res_bind]. unfold flat_ReadSlice, flat. rewrite Hp. cbn [concat]. rewrite app_nil_r. fold i.
        case_test; [lia|]. case_test; [lia|]. destruct fuel as [|fuel]; [lia|]. rewrite (ReadSlice_failed _ _ _ (buf_end b)) by (cbn [b_buf b_err]; done). eexists. split; [reflexivity|].
        apply buf_ok_next; try done; [change (0 <= b_size b); lia|change (concat (pieces (b_src b)) = []); by rewrite Hp].
      * destruct (fill_more b Hb Hp Hlt) as (b' & -> & Hb' & Hs & Hfl & Hgt & Hor). cbn [res_bind].
        specialize (IH b' Hb'). destruct Hs as [Hs1 Hs2]. rewrite Hs1, Hs2, Hfl in IH.
        destruct (flat_ReadSlice _ _ _ _) as [[line err] rest]. destruct IH as (b'' & -> & Hok & [] & Hr'').
        { destruct Hor; [right|left]; lia. }
        exists b''. split; [done|]. split; [done|]. split; [|done]. split; congruence.
    + unfold flat_ReadSlice, flat. rewrite index_where_skip by done.
      pose proof (zlen_nonneg (concat (pieces (b_src b)))). rewrite zlen_app.
      assert (E : (0 <=? (if index_where (fun c => c =? d) (concat (pieces (b_src b))) <? 0 then -1 else zlen (b_buf b) + index_where (fun c => c =? d) (concat (pieces (b_src b))))) && ((if index_where (fun c => c =? d) (concat (pieces (b_src b))) <? 0 then -1 else zlen (b_buf b) + index_where (fun c => c =? d) (concat (pieces (b_src b)))) <? b_size b) = false).
      { apply andb_false_iff. rewrite Z.leb_gt, Z.ltb_ge. destruct (_ <? 0) eqn:?; bool_simpl; lia. }
      rewrite E. test_true (b_size b <=? zlen (b_buf b) + zlen (concat (pieces (b_src b)))).
      cbn [b_ReadSlice_loop]. fold i. case_test; [lia|]. rewrite Herr. case_test; [|lia].
      rewrite ztake_app_eq, zdrop_app_eq by lia. eexists. split; [reflexivity|].
      apply buf_ok_next; try done. change (0 <= b_size b). lia.
  - rewrite (ReadSlice_now b d fuel i eq_refl Hi). unfold flat_ReadSlice, flat. rewrite index_where_prefix by done. fold i.
    test_true ((0 <=? i) && (i <? b_size b)). eexists. split.
    + do 3 f_equal. unfold ztake. rewrite take_app_le; [done|]. unfold zlen in *. lia.
    + apply buf_ok_next; try done; [change (zlen (zdrop (i + 1) (b_buf b)) <= b_size b); rewrite zlen_zdrop; lia|].
      change (zdrop (i + 1) (b_buf b) ++ concat (pieces (b_src b)) = zdrop (i + 1) (b_buf b ++ concat (pieces (b_src b)))). unfold zdrop. rewrite drop_app_le; [done|]. unfold zlen in *. lia.
Qed.
Lemma ReadSlice_spec b d line err rest :
  buf_ok b -> flat_ReadSlice (b_size b) (buf_end b) d (flat b) = (line, err, rest) ->
  exists b', b_ReadSlice b d = Ok (b', line, err) /\ buf_ok b' /\ same_reader b b' /\ flat b' = rest.
Proof. intros Hb E. pose proof (ReadSlice_loop_spec d (length (pieces (b_src b)) + 3) b Hb) as HS. rewrite E in HS. apply HS. left. lia. Qed.

(** [Read] into a non-empty buffer: some bytes, at least one, or the final error. *)
Lemma buf_Read_spec b n :
  buf_ok b -> 0 < n ->
  match flat b with
  | [] => exists b', b_Read b n = (b', [], Some (buf_end b)) /\ buf_ok b' /\ same_reader b b' /\ flat b' = []
  | _ => exists b' x, b_Read b n = (b', x, None) /\ buf_ok b' /\ same_reader b b' /\ flat b = x ++ flat b' /\ 0 < zlen x <= n
  end.
Proof.
  intros Hb Hn. pose proof Hb as [Hsz Hroom Herr Hps]. unfold b_Read. test_false (n =? 0).
  destruct (zlen (b_buf b) =? 0) eqn:Hz; bool_simpl.
  - apply zlen_zero in Hz. rewrite Herr. unfold flat at 1. rewrite Hz. cbn [app].
    destruct (decide (pieces (b_src b) = [])) as [Hp|Hp].
    + rewrite Hp. cbn [concat]. unfold source_read. rewrite Hp. assert (zlen (b_buf b) <= b_size b /\ b_buf b ++ concat (pieces (b_src b)) = []) as [? ?] by (split; [done|by rewrite Hz, Hp]).
      case_test; eexists; (split; [reflexivity|]); by apply buf_ok_next.
    + destruct (n >=? b_size b) eqn:?; bool_simpl.
      * destruct (source_read_spec (b_src b) n) as (s' & x & -> & Hc & Hx & Hps' & Hf & _); [lia|done|done|].
        rewrite Hc. assert (x <> []) by (intros ->; change (zlen (@nil Z)) with 0 in *; lia).
        destruct (x ++ concat (pieces s')) eqn:E; [by apply app_nil in E as [-> _]|].
        destruct (buf_ok_next b { b with b_src := s'; b_err := None } (concat (pieces s'))) as (H1 & H2 & H3); try done; [change (b_buf b ++ concat (pieces s') = concat (pieces s')); by rewrite Hz|].
        eexists _, _. split; [reflexivity|]. unfold flat at 1. rewrite Hz, Hc, H3. repeat split; try done; try apply H1; try apply H2; lia.
      * destruct (source_read_spec (b_src b) (b_size b)) as (s' & x & -> & Hc & Hx & Hps' & Hf & _); [lia|done|done|].
        test_false (zlen x =? 0). rewrite Hc. assert (x <> []) by (intros ->; change (zlen (@nil Z)) with 0 in *; lia).
        destruct (x ++ concat (pieces s')) eqn:E; [by apply app_nil in E as [-> _]|].
        assert (zlen (zdrop n x) <= b_size b) by (unfold zdrop, zlen in *; rewrite length_drop; lia).
        destruct (buf_ok_next b { b with b_src := s'; b_buf := zdrop n x; b_err := None } (zdrop n x ++ concat (pieces s'))) as (H1 & H2 & H3); try done.
        eexists _, _. split; [reflexivity|]. unfold flat at 1. rewrite Hz, Hc, H3, app_assoc, ztake_zdrop.
        repeat split; try done; try apply H1; try apply H2; unfold ztake, zlen in *; rewrite length_take; lia.
  - assert (0 < zlen (b_buf b)) by (pose proof (zlen_nonneg (b_buf b)); lia).
    assert (zlen (zdrop n (b_buf b)) <= b_size b) by (unfold zdrop, zlen in *; rewrite length_drop; lia).
    destruct (buf_ok_next b { b with b_buf := zdrop n (b_buf b) } (zdrop n (b_buf b) ++ concat (pieces (b_src b)))) as (H1 & H2 & H3); try done.
    destruct (flat b) eqn:E; [apply app_nil in E as [E _]; rewrite E in *; done|]. rewrite <- E.
    eexists _, _. split; [reflexivity|]. unfold flat at 1. rewrite H3, app_assoc, ztake_zdrop.
    repeat split; try done; try apply H1; try apply H2; unfold ztake, zlen in *; rewrite length_take; lia.
Qed.

Lemma ReadByte_spec b :
  buf_ok b ->
  exists b', buf_ok b' /\ same_reader b b' /\
    match flat b with
    | [] => b_ReadByte b = (b', Err (buf_end b)) /\ flat b' = []
    | c :: rest => b_ReadByte b = (b', Ok c) /\ flat b' = rest
    end.
Proof.
  intros Hb. assert (Hnow : forall fuel b c buf, buf_ok b -> b_buf b = c :: buf ->
    exists b', buf_ok b' /\ same_reader b b' /\ b_ReadByte_loop fuel b = (b', Ok c) /\ flat b = c :: flat b').
  { clear. intros fuel b c buf Hb Ec. pose proof Hb as [Hsz Hroom Herr Hps]. rewrite Ec, zlen_cons in Hroom.
    destruct (buf_ok_next b { b with b_buf := buf } (buf ++ concat (pieces (b_src b)))) as (H1 & H2 & H3); try done.
    { change (zlen buf <= b_size b). lia. }
    exists { b with b_buf := buf }. split; [done|]. split; [done|]. unfold flat at 1. rewrite H3, Ec. by destruct fuel; cbn [b_ReadByte_loop]; rewrite Ec. }
  destruct (b_buf b) as [|c buf] eqn:Ec.
  - pose proof Hb as [Hsz Hroom Herr Hps]. assert (Hlt : zlen (b_buf b) < b_size b) by (rewrite Ec; change (zlen (@nil Z)) with 0; lia).
    unfold b_ReadByte. cbn [b_ReadByte_loop]. rewrite Ec, Herr. destruct (decide (pieces (b_src b) = [])) as [Hp|Hp].
    + rewrite fill_end by done. unfold flat. rewrite Ec, Hp.
      destruct (buf_ok_next b { b with b_err := None } (b_buf b ++ concat (pieces (b_src b)))) as (H1 & H2 & H3); try done.
      exists { b with b_err := None }. split; [done|]. split; [done|]. split; [|unfold flat in H3; rewrite H3, Ec, Hp; done].
      change (match b_buf b with [] => ({ b with b_err := None }, @Err h1_error Z (buf_end b)) | c :: rest => ({ { b with b_err := Some (buf_end b) } with b_buf := rest }, Ok c) end = ({ b with b_err := None }, Err (buf_end b))).
      by rewrite Ec.
    + destruct (fill_more b Hb Hp Hlt) as (b' & -> & Hb' & [Hs1 Hs2] & Hfl & Hgt & _).
      destruct (b_buf b') as [|c buf] eqn:Ec'; [rewrite Ec in Hgt; done|].
      destruct (Hnow 0%nat b' c buf Hb' Ec') as (b'' & ? & [] & E & Hfl'). exists b''. split; [done|]. split; [split; congruence|].
      cbn [b_ReadByte_loop] in E. rewrite Ec' in E. rewrite <- Hfl, Hfl'. done.
  - destruct (Hnow 1%nat b c buf Hb Ec) as (b' & ? & ? & E & Hfl). exists b'. split; [done|]. split; [done|]. by rewrite Hfl.
Qed.

(** ** A plain implementation of the primitives *)
Definition crlf_crlf_at (b : bytes) : bool := match b with 13 :: 10 :: 13 :: 10 :: _ => true | _ => false end.
Fixpoint plain_index_blank (b : bytes) : Z :=
  match b with
  | [] => -1
  | _ :: b' => if crlf_crlf_at b then 4 else let i := plain_index_blank b' in if i <? 0 then -1 else i + 1
  end.
Definition plain_digit (d : Z) : Z := if d <? 10 then 48 + d else 87 + d.
Fixpoint plain_format (fuel : nat) (n : Z) (acc : bytes) : bytes :=
  match fuel with
  | O => acc
  | S fuel' => let acc := plain_digit (n mod 16) :: acc in if n <? 16 then acc else plain_format fuel' (n / 16) acc
  end.
Fixpoint leading_hex (b : bytes) : bytes :=
  match b with [] => [] | c :: b' => if is_hex c then c :: leading_hex b' else [] end.
Definition plain_parse (b : bytes) : res hex_error (Z * Z) :=
  let ds := leading_hex b in
  if zlen ds =? 0 then Err ErrEmptyHexNum
  else if hex_number ds >=? 2 ^ 63 then Err ErrHexOverflow else Ok (hex_number ds, zlen ds).
#[local] Instance plain_silicon : Silicon := {
  TrimSpaceSWAR b := trim_right (trim_left b);
  TrimLeadingSpaceSWAR := trim_left;
  TrimTrailingSpaceSWAR := trim_right;
  IndexColonSWAR := index_where (fun c => c =? 58);
  IndexByteVector b t := index_where (fun c => c =? t) b;
  IndexTwoBytesVector b t u := index_where (fun c => (c =? t) || (c =? u)) b;
  IndexCRLFCRLF_ := plain_index_blank;
  FormatHexUint_ n := plain_format 16 n [];
  ParseHexUint_ := plain_parse;
  FromHexChar := hex_value;
  EqualFoldASCII a b := bool_decide (map lower a = map lower b);
}.

Lemma crlf_crlf_blank b : blank_at b = false -> crlf_crlf_at b = false.
Proof. unfold blank_at, crlf_crlf_at. intros Hb. repeat case_match; by subst. Qed.
Lemma plain_blank_found x y :
  has_blank (x ++ [13; 10; 13]) = false -> plain_index_blank (x ++ 13 :: 10 :: 13 :: 10 :: y) = zlen x + 4.
Proof.
  induction x as [|c x IH]; [done|]. cbn [app has_blank]. intros [Hc Hx]%orb_false_iff. cbn [plain_index_blank].
  replace (crlf_crlf_at (c :: x ++ 13 :: 10 :: 13 :: 10 :: y)) with (crlf_crlf_at (c :: x ++ [13; 10; 13])) by (destruct x as [|? [|? [|? ?]]]; done).
  rewrite crlf_crlf_blank, IH, zlen_cons by done. pose proof (zlen_nonneg x). case_test; lia.
Qed.
Lemma plain_blank_none b : has_blank b = false -> plain_index_blank b = -1.
Proof.
  induction b as [|c b IH]; [done|]. cbn [has_blank plain_index_blank]. intros [Hc Hb]%orb_false_iff. by rewrite crlf_crlf_blank, IH.
Qed.
Lemma plain_blank_range b : -1 <= plain_index_blank b <= zlen b.
Proof.
  induction b as [|c b IH]; [done|]. cbn [plain_index_blank]. rewrite zlen_cons. pose proof (zlen_nonneg b).
  destruct (crlf_crlf_at (c :: b)) eqn:E; [|case_test; lia].
  destruct b as [|d2 [|d3 [|d4 b]]]; try (unfold crlf_crlf_at in E; repeat case_match; done).
  rewrite !zlen_cons in *. pose proof (zlen_nonneg b). lia.
Qed.
Lemma hex_number_acc l a :
  fold_left (fun a c => 16 * a + default 0 (hex_value c)) l a = a * 16 ^ zlen l + hex_number l.
Proof.
  unfold hex_number. revert a. induction l as [|c l IH]; intros a; cbn [fold_left]; [rewrite zlen_nil; lia|].
  rewrite IH, (IH (16 * 0 + _)), zlen_cons, Z.pow_add_r by (pose proof (zlen_nonneg l); lia). lia.
Qed.
Lemma plain_digit_spec d : 0 <= d < 16 -> hex_value (plain_digit d) = Some d.
Proof.
  intros Hd. unfold plain_digit, hex_value. destruct (d <? 10) eqn:?; bool_simpl.
  - test_true ((48 <=? 48 + d) && (48 + d <=? 57)). f_equal. lia.
  - replace ((48 <=? 87 + d) && (87 + d <=? 57)) with false by (symmetry; apply andb_false_iff; rewrite !Z.leb_gt; lia).
    test_true ((97 <=? 87 + d) && (87 + d <=? 102)). f_equal. lia.
Qed.
Lemma plain_format_spec fuel : forall n acc,
  0 <= n < 16 ^ Z.of_nat fuel -> (0 < fuel)%nat -> exists ds, plain_format fuel n acc = ds ++ acc /\ (1 <= length ds <= fuel)%nat
    /\ Forall (fun c => is_hex c = true) ds /\ hex_number ds = n.
Proof.
  induction fuel as [|fuel IH]; intros n acc Hn Hf; [lia|]. cbn [plain_format].
  assert (Hd : hex_value (plain_digit (n mod 16)) = Some (n mod 16)) by (apply plain_digit_spec; lia).
  assert (Hx : is_hex (plain_digit (n mod 16)) = true) by (unfold is_hex; by rewrite Hd).
  destruct (n <? 16) eqn:?; bool_simpl.
  - eexists [_]. split; [done|]. split; [cbn; lia|]. split; [by repeat constructor|]. unfold hex_number. cbn [fold_left]. rewrite Hd. cbn. lia.
  - rewrite Nat2Z.inj_succ, Z.pow_succ_r in Hn by lia.
    destruct (IH (n / 16) (plain_digit (n mod 16) :: acc)) as (ds & -> & Hl & Hds & Hv).
    { split; [lia|]. apply Z.div_lt_upper_bound; lia. }
    { destruct fuel; [cbn in Hn|]; lia. }
    exists (ds ++ [plain_digit (n mod 16)]). rewrite <- app_assoc. split; [done|]. rewrite length_app. split; [cbn; lia|].
    split; [apply Forall_app; split; [done|by repeat constructor]|].
    unfold hex_number in *. rewrite fold_left_app, Hv. cbn [fold_left]. rewrite Hd. change (default 0 (Some (n mod 16))) with (n mod 16). lia.
Qed.
Lemma leading_hex_all b : Forall (fun c => is_hex c = true) b -> leading_hex b = b.
Proof. induction 1 as [|c b Hc Hb IH]; cbn [leading_hex]; [done|]. by rewrite Hc, IH. Qed.
Lemma leading_hex_full b : zlen (leading_hex b) = zlen b -> Forall (fun c => is_hex c = true) b /\ leading_hex b = b.
Proof.
  induction b as [|c b IH]; cbn [leading_hex]; [done|]. destruct (is_hex c) eqn:E.
  - rewrite !zlen_cons. intros Hl. destruct IH as [? ->]; [lia|]. split; [by constructor|done].
  - rewrite zlen_cons. change (zlen (@nil Z)) with 0. pose proof (zlen_nonneg b). lia.
Qed.
#[local] Instance plain_laws : SiliconLaws.
Proof.
  split; try done.
  - apply plain_blank_found.
  - apply plain_blank_none.
  - apply plain_blank_range.
  - intros n Hn. destruct (plain_format_spec 16 n []) as (ds & E & H); [cbn; lia|lia|]. cbn [FormatHexUint_ plain_silicon]. rewrite E, app_nil_r. done.
  - intros b v. cbn [ParseHexUint_ plain_silicon]. unfold plain_parse. intros Hp. repeat case_hyp Hp; try discriminate.
    assert (Hz : zlen (leading_hex b) = zlen b) by congruence. destruct (leading_hex_full b Hz) as [Ha He]. rewrite He in *.
    split; [by intros ->|]. split; [done|congruence].
  - intros b Hl Ha Hv. cbn [ParseHexUint_ plain_silicon]. unfold plain_parse. rewrite leading_hex_all by done.
    replace (zlen b =? 0) with false by (symmetry; apply Z.eqb_neq; unfold zlen; lia). destruct (hex_number b >=? 2 ^ 63) eqn:?; bool_simpl; [lia|done].
  - intros b. cbn [ParseHexUint_ plain_silicon]. unfold plain_parse. by repeat case_test.
Qed.
