(* ===== verification/H1Chunked.v ===== *)
(** * HTTP/1.1: chunked transfer coding

    Models [src/proto/h1/chunked.go]: the [ChunkedReader] over a [bufio.Reader], the
    validation of chunk extensions and of trailers, [ReadAllChunked] with its limit,
    and the [ChunkedWriter].

    The specification of the reader is [decode], which works on the whole input at
    once, and the grammar of messages ([chunk], [trailer], [message]).  The theorems:
    however the connection cuts the bytes and whatever the sizes of the buffers the
    application reads into, the reader gives what [decode] gives; a message is
    accepted exactly when it is in the grammar, and its bytes are consumed to the last
    and no further; what the writer writes is read back; a body over the limit is
    refused; nothing panics.  And a defect: a connection that is closed inside a body
    ends the body like the last chunk does. *)

From Stdlib Require Import Ascii String.
From S2P Require Import Prelude Intern H1Base.
Open Scope Z_scope.

Definition hdrCRLF : bytes := [13; 10].
Definition maxChunkLineLen : Z := 16384.

(** ** Chunk extensions *)
Fixpoint skip_bws (ext : bytes) : bytes :=
  match ext with
  | [] => []
  | c :: ext' => if (c =? 32) || (c =? 9) then skip_bws ext' else ext
  end.

(** The loops that count the characters of a token, up to a character that ends it. *)
Fixpoint token_len (stop : Z -> bool) (ext : bytes) : res h1_error Z :=
  match ext with
  | [] => Ok 0
  | c :: ext' =>
      if stop c then Ok 0
      else if (c >=? 128) || (token_at c =? 0) then Err ErrInvalidChunkSize
      else let* n := token_len stop ext' in Ok (n + 1)
  end.
Definition name_stop (c : Z) : bool := (c =? 59) || (c =? 61) || (c =? 32) || (c =? 9).
Definition value_stop (c : Z) : bool := (c =? 59) || (c =? 32) || (c =? 9).

(** The loop over a quoted string, behind its opening quote: what follows it. *)
Fixpoint quoted_rest (ext : bytes) : res h1_error bytes :=
  match ext with
  | [] => Err ErrInvalidChunkSize
  | c :: ext' =>
      if c =? 34 then Ok ext'
      else if c =? 92 then match ext' with [] => Err ErrInvalidChunkSize | _ :: ext'' => quoted_rest ext'' end
      else if (c <? 32) && negb (c =? 9) then Err ErrInvalidChunkSize
      else quoted_rest ext'
  end.

Definition ext_value_rest (ext : bytes) : res h1_error bytes :=
  match ext with
  | [] => Err ErrInvalidChunkSize
  | q :: ext' =>
      if q =? 34 then quoted_rest ext'
      else let* valLen := token_len value_stop ext in
           if valLen =? 0 then Err ErrInvalidChunkSize else Ok (zdrop valLen ext)
  end.

Fixpoint validate_loop (fuel : nat) (ext : bytes) : res h1_error unit :=
  match ext with
  | [] => Ok tt
  | c :: ext1 =>
      match fuel with
      | O => Panic
      | S fuel' =>
          if negb (c =? 59) then Err ErrInvalidChunkSize
          else
            let ext2 := skip_bws ext1 in
            if zlen ext2 =? 0 then Err ErrInvalidChunkSize
            else
              let* nameLen := token_len name_stop ext2 in
              if nameLen =? 0 then Err ErrInvalidChunkSize
              else
                let ext3 := skip_bws (zdrop nameLen ext2) in
                match ext3 with
                | [] => Ok tt
                | d :: ext4 =>
                    if d =? 59 then validate_loop fuel' ext3
                    else if negb (d =? 61) then Err ErrInvalidChunkSize
                    else
                      let* ext5 := ext_value_rest (skip_bws ext4) in
                      validate_loop fuel' (skip_bws ext5)
                end
      end
  end.
Definition validateChunkExtensions (ext : bytes) : res h1_error unit := validate_loop (length ext) ext.

(** ** The reader *)
#[projections(primitive)]
Record ChunkedReader := mkChunked { cr_r : bufreader; cr_remaining : Z; cr_done : bool }.
Definition NewChunkedReader (r : bufreader) : ChunkedReader := mkChunked r 0 false.
Definition Reset (cr : ChunkedReader) (r : bufreader) : ChunkedReader := { cr with cr_r := r; cr_remaining := 0; cr_done := false }.

(** How a call ends: with a nil error, with an error, or in a panic. *)
Inductive status := Fine | Fails (e : h1_error) | Panics.
Definition status_of {A} (r : res h1_error A) : status :=
  match r with Ok _ => Fine | Err e => Fails e | Panic => Panics end.

Section Code.
Context `{Silicon}.

(** The loop of [readChunkLine] for a line longer than the buffer. *)
Fixpoint long_line (fuel : nat) (r : bufreader) (total : Z) : bufreader * res h1_error bytes :=
  match fuel with
  | O => (r, Panic)
  | S fuel' =>
      match b_ReadSlice r 10 with
      | Ok (r', part, pErr) =>
          let total := total + zlen part in
          if total >? maxChunkLineLen then (r', Err ErrInvalidChunkSize)
          else match pErr with
               | None => (r', Err ErrInvalidChunkSize)
               | Some e => if negb (errors_Is e ErrBufferFull) then (r', Err e) else long_line fuel' r' total
               end
      | _ => (r, Panic)
      end
  end.
Definition readChunkLine (r : bufreader) : bufreader * res h1_error bytes :=
  match b_ReadSlice r 10 with
  | Ok (r', line, None) => if zlen line >? maxChunkLineLen then (r', Err ErrInvalidChunkSize) else (r', Ok line)
  | Ok (r', line, Some e) =>
      if errors_Is e ErrBufferFull then long_line (Z.to_nat maxChunkLineLen) r' (zlen line) else (r', Err e)
  | _ => (r, Panic)
  end.

(** The test that a line ends in CR LF. *)
Definition lacks_crlf (line : bytes) : bool :=
  (zlen line <? 2) || negb (znth line (zlen line - 2) =? 13) || negb (znth line (zlen line - 1) =? 10).

(** The chunk size of a line. *)
Definition chunk_size (line : bytes) : res h1_error Z :=
  if lacks_crlf line then Err ErrChunkBoundaryError
  else
    let line := ztake (zlen line - 2) line in
    let idx := IndexByte line 59 in
    let* line :=
      (if negb (idx =? -1) then
         let* extPart := slice line idx (zlen line) in
         let* head := slice line 0 idx in
         let* _ := validateChunkExtensions extPart in
         Ok (TrimTrailingSpace head)
       else Ok line) in
    if zlen line =? 0 then Err ErrInvalidChunkSize
    else match ParseHexUint line with
         | Err e => Err (Wrapped ErrInvalidChunkSize e)
         | Panic => Panic
         | Ok (chunkSize, consumed) =>
             if (chunkSize <? 0) || negb (consumed =? zlen line) then Err ErrInvalidChunkSize else Ok chunkSize
         end.

Definition isForbiddenTrailer (name : bytes) : bool :=
  if zlen name =? 4 then EqualFoldASCII name (bytes_of_string "Host")
  else if zlen name =? 7 then EqualFoldASCII name (bytes_of_string "Trailer")
  else if zlen name =? 14 then EqualFoldASCII name (bytes_of_string "Content-Length")
  else if zlen name =? 17 then EqualFoldASCII name (bytes_of_string "Transfer-Encoding")
  else false.

(** The checks on a trailer line without its CR LF, which is not empty. *)
Definition check_trailer (trimmed : bytes) : res h1_error unit :=
  let* c := index trimmed 0 in
  if (c =? 32) || (c =? 9) then Err ErrInvalidTrailer
  else
    let colonIdx := IndexColon trimmed in
    if colonIdx <=? 0 then Err ErrInvalidTrailer
    else
      let* p := index trimmed (colonIdx - 1) in
      if (p =? 32) || (p =? 9) then Err ErrInvalidTrailer
      else
        let* fieldName := slice trimmed 0 colonIdx in
        if negb (isValidHeaderKey fieldName) then Err ErrInvalidTrailer
        else if isForbiddenTrailer fieldName then Err ErrForbiddenTrailer
        else Ok tt.

(** The trailer section; [left] is how many more trailers are allowed. *)
Fixpoint drain_trailers (left : nat) (r : bufreader) : bufreader * res h1_error unit :=
  match b_ReadSlice r 10 with
  | Ok (r', _, Some tErr) => (r', Err (if errors_Is tErr IoEOF then IoUnexpectedEOF else tErr))
  | Ok (r', tLine, None) =>
      if lacks_crlf tLine then (r', Err ErrChunkBoundaryError)
      else
        let trimmed := ztake (zlen tLine - 2) tLine in
        if zlen trimmed =? 0 then (r', Ok tt)
        else match left with
             | O => (r', Err ErrInvalidTrailer)
             | S left' =>
                 match check_trailer trimmed with
                 | Ok _ => drain_trailers left' r'
                 | Err e => (r', Err e)
                 | Panic => (r', Panic)
                 end
             end
  | _ => (r, Panic)
  end.
Definition maxTrailers : nat := 64.

(** The part of [Read] behind the chunk size: data, and CR LF when the chunk ends. *)
Definition read_data (cr : ChunkedReader) (n : Z) : ChunkedReader * bytes * status :=
  let toRead := Z.min n (cr_remaining cr) in
  let '(r, x, err) := b_Read (cr_r cr) toRead in
  let remaining := cr_remaining cr - zlen x in
  let cr := { cr with cr_r := r; cr_remaining := remaining } in
  match err with
  | None =>
      if remaining =? 0 then
        let '(r1, b1) := b_ReadByte r in
        let '(r2, b2) := b_ReadByte r1 in
        let cr := { cr with cr_r := r2 } in
        match b1, b2 with
        | Ok 13, Ok 10 => (cr, x, Fine)
        | Panic, _ | _, Panic => (cr, x, Panics)
        | _, _ => (cr, x, Fails ErrChunkBoundaryError)
        end
      else (cr, x, Fine)
  | Some e => (cr, x, Fails e)
  end.

Definition Read (cr : ChunkedReader) (n : Z) : ChunkedReader * bytes * status :=
  if cr_done cr then (cr, [], Fails IoEOF)
  else if cr_remaining cr =? 0 then
    let '(r, line) := readChunkLine (cr_r cr) in
    let cr := { cr with cr_r := r } in
    match (let* line := line in chunk_size line) with
    | Err e => (cr, [], Fails e)
    | Panic => (cr, [], Panics)
    | Ok chunkSize =>
        if chunkSize =? 0 then
          let '(r', t) := drain_trailers maxTrailers (cr_r cr) in
          let cr := { cr with cr_r := r'; cr_done := true } in
          match t with
          | Ok _ => (cr, [], Fails IoEOF)
          | Err e => (cr, [], Fails e)
          | Panic => (cr, [], Panics)
          end
        else read_data { cr with cr_remaining := chunkSize } n
    end
  else read_data cr n.

(** [io.LimitReader]. *)
#[projections(primitive)]
Record LimitedReader := mkLimited { lr_R : ChunkedReader; lr_N : Z }.
Definition lr_Read (l : LimitedReader) (n : Z) : LimitedReader * bytes * status :=
  if lr_N l <=? 0 then (l, [], Fails IoEOF)
  else
    let n := if n >? lr_N l then lr_N l else n in
    let '(cr, x, st) := Read (lr_R l) n in
    ({ l with lr_R := cr; lr_N := lr_N l - zlen x }, x, st).

(** [ReadFrom] of the byte buffer, as the contract of [io.ReaderFrom] has it: read
    until the end of file or an error and append.  [caps] are the sizes of the slices
    it reads into. *)
Fixpoint ReadFrom (fuel : nat) (caps : nat -> Z) (l : LimitedReader) (acc : bytes) : LimitedReader * bytes * status :=
  match fuel with
  | O => (l, acc, Panics)
  | S fuel' =>
      let '(l', x, st) := lr_Read l (caps fuel') in
      match st with
      | Fine => ReadFrom fuel' caps l' (acc ++ x)
      | Fails IoEOF => (l', acc ++ x, Fine)
      | _ => (l', acc ++ x, st)
      end
  end.

Definition ReadAllChunked (caps : nat -> Z) (r : bufreader) (maxBodySize : Z) : bufreader * res h1_error bytes :=
  let '(l, B, st) := ReadFrom (length (flat r) + 1) caps (mkLimited (NewChunkedReader r) (i64 (maxBodySize + 1))) [] in
  let r' := cr_r (lr_R l) in
  match st with
  | Fails e => (r', Err e)
  | Panics => (r', Panic)
  | Fine => if zlen B >? maxBodySize then (r', Err ErrBodyTooLarge) else (r', Ok B)
  end.

(** ** The writer: what has been written to its byte buffer, and what flushing it returns *)
Definition Write (w p : bytes) (flush : option h1_error) : bytes * res h1_error (Z * option h1_error) :=
  if zlen p =? 0 then (w, Ok (0, None))
  else match FormatHexUint (zlen p) with
       | Ok hexBuf => (w ++ hexBuf ++ hdrCRLF ++ p ++ hdrCRLF, Ok (zlen p, flush))
       | Err e => (w, Err e)
       | Panic => (w, Panic)
       end.
Definition Close (w : bytes) (flush : option h1_error) : bytes * option h1_error :=
  (w ++ bytes_of_string "0" ++ hdrCRLF ++ hdrCRLF, flush).
End Code.

(** ** The grammar of chunk extensions *)
Inductive qelem := QText (c : Z) | QPair (c : Z).
Inductive ext_value := VToken (b : bytes) | VQuoted (l : list qelem).
Record chunk_ext := mkExt { x_pre : bytes; x_name : bytes; x_post : bytes; x_val : option (bytes * ext_value * bytes) }.

Definition render_qelem (q : qelem) : bytes := match q with QText c => [c] | QPair c => [92; c] end.
Definition render_value (v : ext_value) : bytes :=
  match v with VToken b => b | VQuoted l => 34 :: concat (map render_qelem l) ++ [34] end.
Definition render_ext (x : chunk_ext) : bytes :=
  59 :: x_pre x ++ x_name x ++ x_post x
     ++ match x_val x with None => [] | Some (w, v, w') => 61 :: w ++ render_value v ++ w' end.
Definition render_exts (l : list chunk_ext) : bytes := concat (map render_ext l).

Definition bws (w : bytes) : Prop := Forall (fun c => is_ows c = true) w.
Definition token (b : bytes) : Prop := b <> [] /\ Forall (fun c => is_token c = true) b.
Definition qelem_wf (q : qelem) : Prop :=
  match q with QText c => (32 <= c < 256 \/ c = 9) /\ c <> 34 /\ c <> 92 | QPair c => is_byte c end.
Definition value_wf (v : ext_value) : Prop :=
  match v with VToken b => token b | VQuoted l => Forall qelem_wf l end.
Definition ext_wf (x : chunk_ext) : Prop :=
  bws (x_pre x) /\ token (x_name x) /\ bws (x_post x)
  /\ match x_val x with None => True | Some (w, v, w') => bws w /\ value_wf v /\ bws w' end.

Lemma skip_bws_eq b : skip_bws b = trim_left b.
Proof. induction b as [|c b IH]; cbn; [done|]. unfold is_ows. by rewrite IH. Qed.
Lemma skip_bws_app w b : bws w -> skip_bws (w ++ b) = skip_bws b.
Proof. rewrite !skip_bws_eq. apply trim_left_ows. Qed.
Lemma skip_bws_stop c b : is_ows c = false -> skip_bws (c :: b) = c :: b.
Proof. intros Hc. rewrite skip_bws_eq. by apply trim_left_none. Qed.
Lemma skip_bws_split b : exists w, b = w ++ skip_bws b /\ bws w.
Proof. rewrite skip_bws_eq. apply trim_left_split. Qed.
Lemma skip_bws_length b : (length (skip_bws b) <= length b)%nat.
Proof. destruct (skip_bws_split b) as (w & E & _). rewrite E at 2. rewrite length_app. lia. Qed.

(** Token characters are ASCII, and none ends a token. *)
Lemma is_token_spec c : is_token c = true -> is_byte c /\ c < 128 /\ c <> 10 /\ c <> 13 /\ c <> 34 /\ c <> 58 /\ is_ows c = false /\ name_stop c = false /\ value_stop c = false.
Proof.
  unfold is_token. intros H%bool_decide_eq_true.
  assert (HF : Forall (fun c => is_byte c /\ c < 128 /\ c <> 10 /\ c <> 13 /\ c <> 34 /\ c <> 58 /\ is_ows c = false /\ name_stop c = false /\ value_stop c = false) token_chars).
  { apply (bool_decide_unpack _). vm_compute. exact I. }
  rewrite List.Forall_forall in HF. apply HF. by apply list_elem_of_In.
Qed.
Lemma token_len_app stop t rest :
  (forall c, is_token c = true -> stop c = false) -> Forall (fun c => is_token c = true) t ->
  match rest with [] => True | c :: _ => stop c = true end -> token_len stop (t ++ rest) = Ok (zlen t).
Proof.
  intros Hs Ht Hr. induction Ht as [|c t Hc Ht IH]; cbn [app token_len].
  - destruct rest as [|c rest]; cbn [token_len]; [done|by rewrite Hr].
  - rewrite Hs, IH by done. destruct (is_token_spec c Hc) as (Hb & ? & _). rewrite token_at_spec, Hc, zlen_cons by done.
    destruct (c >=? 128) eqn:?; bool_simpl; [lia|]. cbn [orb negb res_bind]. f_equal. lia.
Qed.
Lemma token_len_split stop ext n :
  bytes_ok ext -> token_len stop ext = Ok n ->
  exists t rest, ext = t ++ rest /\ zlen t = n /\ Forall (fun c => is_token c = true) t /\ match rest with [] => True | c :: _ => stop c = true end.
Proof.
  intros Hb. revert n. induction Hb as [|c ext Hc Hb IH]; cbn [token_len]; intros n Hn.
  - exists [], []. injection Hn as <-. done.
  - destruct (stop c) eqn:Es; [injection Hn as <-; exists [], (c :: ext); done|]. rewrite token_at_spec in Hn by done.
    destruct (c >=? 128); [done|]. destruct (is_token c) eqn:Et; [|done]. cbn in Hn.
    destruct (token_len stop ext) as [m| |] eqn:Em; try done. injection Hn as <-. destruct (IH m eq_refl) as (t & rest & -> & Hl & Ht & Hr).
    exists (c :: t), rest. rewrite zlen_cons. repeat split; [lia|by constructor|done].
Qed.

Lemma quoted_rest_app l rest : Forall qelem_wf l -> quoted_rest (concat (map render_qelem l) ++ 34 :: rest) = Ok rest.
Proof.
  induction 1 as [|q l Hq Hl IH]; [done|]. cbn [map concat]. rewrite <- app_assoc.
  destruct q as [c|c]; cbn [render_qelem app quoted_rest]; [|exact IH]. destruct Hq as (Hc & H1 & H2).
  test_false (c =? 34). test_false (c =? 92). replace ((c <? 32) && negb (c =? 9)) with false; [exact IH|].
  symmetry. apply andb_false_iff. rewrite Z.ltb_ge, negb_false_iff, Z.eqb_eq. lia.
Qed.
Lemma quoted_rest_split n : forall ext rest,
  (length ext <= n)%nat -> bytes_ok ext -> quoted_rest ext = Ok rest -> exists l, Forall qelem_wf l /\ ext = concat (map render_qelem l) ++ 34 :: rest.
Proof.
  induction n as [|n IH]; intros ext rest Hn Hb; (destruct ext as [|c ext]; cbn [quoted_rest]; [done|]); [cbn in Hn; lia|].
  apply Forall_cons_iff in Hb as [Hc Hb]. cbn in Hn. destruct (c =? 34) eqn:E1; bool_simpl; [intros [= ->]; exists []; by subst|].
  destruct (c =? 92) eqn:E2; bool_simpl.
  - destruct ext as [|d ext]; [done|]. apply Forall_cons_iff in Hb as [Hd Hb]. cbn in Hn. intros Hq.
    destruct (IH ext rest) as (l & Hl & ->); [lia|done|done|]. exists (QPair d :: l). subst. split; [by constructor|done].
  - destruct ((c <? 32) && negb (c =? 9)) eqn:E3; [done|]. intros Hq.
    destruct (IH ext rest) as (l & Hl & ->); [lia|done|done|]. exists (QText c :: l). split; [|done]. constructor; [|done].
    apply andb_false_iff in E3. rewrite Z.ltb_ge, negb_false_iff, Z.eqb_eq in E3. unfold is_byte in Hc. cbn. lia.
Qed.

(** What a value may be followed by. *)
Definition ext_next (rest : bytes) : Prop := match rest with [] => True | c :: _ => c = 59 end.

Lemma value_rest_app v w rest :
  value_wf v -> bws w -> ext_next rest -> exists rest', ext_value_rest (render_value v ++ w ++ rest) = Ok rest' /\ skip_bws rest' = rest.
Proof.
  assert (Hskip : forall w rest, bws w -> ext_next rest -> skip_bws (w ++ rest) = rest).
  { clear. intros w rest Hw Hr. rewrite skip_bws_app by done. destruct rest as [|c rest]; [done|]. cbn in Hr. subst c. by apply skip_bws_stop. }
  intros Hv Hw Hr. destruct v as [b|l]; cbn [render_value].
  - destruct Hv as [Hb Ht]. destruct b as [|c b]; [done|]. unfold ext_value_rest. cbn [app].
    pose proof Ht as [Hc _]%Forall_cons_iff. destruct (is_token_spec c Hc) as (_ & _ & _ & _ & H34 & _). test_false (c =? 34).
    change (c :: b ++ w ++ rest) with ((c :: b) ++ w ++ rest). rewrite token_len_app; [|by intros d (_ & _ & _ & _ & _ & _ & _ & _ & ?)%is_token_spec|done|].
    + cbn [res_bind]. replace (zlen (c :: b) =? 0) with false by (symmetry; apply Z.eqb_neq; rewrite zlen_cons; pose proof (zlen_nonneg b); lia).
      rewrite zdrop_app. eexists. split; [done|]. by apply Hskip.
    + destruct Hw as [|d w Hd Hw]; cbn [app].
      * destruct rest as [|d rest]; [done|]. cbn in Hr. by subst.
      * unfold value_stop. unfold is_ows in Hd. rewrite <- orb_assoc, Hd. by rewrite orb_true_r.
  - unfold ext_value_rest. cbn [app]. change (34 =? 34) with true. cbn iota. rewrite <- app_assoc. cbn [app]. rewrite quoted_rest_app by done.
    eexists. split; [done|]. by apply Hskip.
Qed.
Lemma value_rest_split ext rest :
  bytes_ok ext -> ext_value_rest ext = Ok rest -> exists v, value_wf v /\ ext = render_value v ++ rest.
Proof.
  unfold ext_value_rest. intros Hb. destruct ext as [|c ext]; [done|]. destruct (c =? 34) eqn:E; bool_simpl.
  - intros Hq. apply Forall_cons_iff in Hb as [_ Hb]. destruct (quoted_rest_split (length ext) ext rest) as (l & Hl & ->); [lia|done|done|].
    exists (VQuoted l). cbn [render_value app]. rewrite <- app_assoc. by subst.
  - destruct (token_len value_stop (c :: ext)) as [m| |] eqn:Em; cbn [res_bind]; try done. destruct (m =? 0) eqn:Ez; bool_simpl; [done|]. intros [= <-].
    destruct (token_len_split _ _ _ Hb Em) as (t & rest & Ht & <- & Htok & _). rewrite Ht, zdrop_app.
    exists (VToken t). split; [split; [by intros ->|done]|done].
Qed.
Lemma render_exts_cons x l : render_exts (x :: l) = render_ext x ++ render_exts l.
Proof. reflexivity. Qed.
Lemma render_exts_next l : ext_next (render_exts l).
Proof. destruct l as [|x l]; [done|]. by destruct x. Qed.
Lemma validate_app l : forall fuel, Forall ext_wf l -> (length (render_exts l) <= fuel)%nat -> validate_loop fuel (render_exts l) = Ok tt.
Proof.
  induction l as [|x l IH]; intros fuel Hl Hf; [by destruct fuel|]. apply Forall_cons_iff in Hl as [(Hpre & [Hne Hname] & Hpost & Hval) Hl].
  unfold render_exts in *. cbn [map concat] in *. fold (render_exts l) in *. rewrite length_app in Hf. pose proof (render_exts_next l) as Hnext.
  destruct fuel as [|fuel]; [destruct x; cbn in Hf; lia|]. unfold render_ext in *. cbn [app validate_loop length] in *. change (59 =? 59) with true. cbn [negb].
  rewrite <- !app_assoc. rewrite skip_bws_app by done.
  destruct (x_name x) as [|c name] eqn:En; [done|]. pose proof Hname as [Hc _]%Forall_cons_iff.
  rewrite <- app_comm_cons, skip_bws_stop by apply (is_token_spec c Hc). cbv zeta. rewrite zlen_cons.
  replace (1 + _ =? 0) with false by (symmetry; apply Z.eqb_neq; match goal with |- 1 + zlen ?l <> 0 => pose proof (zlen_nonneg l); lia end).
  set (tail := match x_val x with None => [] | Some (w, v, w') => 61 :: w ++ render_value v ++ w' end ++ render_exts l).
  assert (Htail : match tail with [] => True | d :: _ => d = 59 \/ d = 61 end).
  { subst tail. destruct (x_val x) as [[[w v] w']|]; cbn [app]; [by right|]. destruct (render_exts l); [done|by left]. }
  assert (Etail : skip_bws (x_post x ++ tail) = tail).
  { rewrite skip_bws_app by done. destruct tail as [|d tail]; [done|]. apply skip_bws_stop. by destruct Htail as [->| ->]. }
  change (c :: name ++ x_post x ++ tail) with ((c :: name) ++ x_post x ++ tail).
  rewrite token_len_app; [|by intros d (_ & _ & _ & _ & _ & _ & _ & ? & _)%is_token_spec|done|].
  2:{ destruct Hpost as [|d w Hd Hw]; cbn [app]; [destruct tail as [|d t]; [done|]; by destruct Htail as [->| ->]|].
      unfold name_stop. unfold is_ows in Hd. rewrite <- orb_assoc, Hd. by rewrite orb_true_r. }
  cbn [res_bind]. replace (zlen (c :: name) =? 0) with false by (symmetry; apply Z.eqb_neq; rewrite zlen_cons; pose proof (zlen_nonneg name); lia).
  rewrite zdrop_app, Etail. subst tail. rewrite !length_app in Hf. destruct (x_val x) as [[[w v] w']|] eqn:Ev; cbn [app].
  - change (61 =? 59) with false. change (61 =? 61) with true. cbn [negb]. destruct Hval as (Hw & Hv & Hw').
    rewrite <- app_assoc, <- app_assoc, skip_bws_app by done.
    assert (Es : skip_bws (render_value v ++ w' ++ render_exts l) = render_value v ++ w' ++ render_exts l).
    { destruct v as [[|d t]|q]; cbn [render_value app]; [by destruct Hv| |by apply skip_bws_stop]. apply skip_bws_stop.
      destruct Hv as [_ [Hd _]%Forall_cons_iff]. apply (is_token_spec d Hd). }
    rewrite Es. destruct (value_rest_app v w' (render_exts l) Hv Hw' Hnext) as (rest & -> & Hrest). cbn [res_bind]. rewrite Hrest. apply IH; [done|lia].
  - destruct (render_exts l) as [|d t] eqn:Er; [done|]. cbn in Hnext. subst d. change (59 =? 59) with true. cbn iota. rewrite <- Er in *. apply IH; [done|]. lia.
Qed.
(** The only error is [ErrInvalidChunkSize]. *)
Definition size_error {A} (r : res h1_error A) : Prop :=
  match r with Ok _ => True | Err e => e = ErrInvalidChunkSize | Panic => False end.
Lemma token_len_error stop b : size_error (token_len stop b).
Proof. induction b as [|c b IH]; cbn [token_len]; [done|]. repeat case_test; try done. by destruct (token_len stop b). Qed.
Lemma quoted_rest_error n : forall b, (length b <= n)%nat -> size_error (quoted_rest b).
Proof.
  induction n as [|n IH]; intros [|c b] Hn; cbn [quoted_rest length] in *; try done; [lia|]. repeat case_test; try done; [|apply IH; lia].
  destruct b; [done|]. apply IH. cbn in Hn. lia.
Qed.
Lemma value_rest_error b : size_error (ext_value_rest b).
Proof.
  destruct b as [|c b]; cbn [ext_value_rest]; [done|]. case_test; [apply (quoted_rest_error (length b)); lia|].
  pose proof (token_len_error value_stop (c :: b)). destruct (token_len _ _); cbn [res_bind]; [by case_test|done..].
Qed.
Lemma validate_split fuel : forall ext,
  bytes_ok ext -> (length ext <= fuel)%nat ->
  match validate_loop fuel ext with Ok _ => exists l, Forall ext_wf l /\ ext = render_exts l | Err e => e = ErrInvalidChunkSize | Panic => False end.
Proof.
  induction fuel as [|fuel IH]; intros ext Hb Hf; (destruct ext as [|c ext1]; cbn [validate_loop]; [by exists []|]); [cbn in Hf; lia|].
  apply Forall_cons_iff in Hb as [_ Hb]. cbn in Hf. destruct (c =? 59) eqn:Ec; bool_simpl; cbn [negb]; [|done].
  destruct (skip_bws_split ext1) as (w1 & E1 & Hw1). set (ext2 := skip_bws ext1) in *. cbv zeta. destruct (zlen ext2 =? 0) eqn:Ez; [done|].
  pose proof (token_len_error name_stop ext2). destruct (token_len name_stop ext2) as [m|e|] eqn:Em; cbn [res_bind]; [|done..].
  destruct (m =? 0) eqn:Em0; bool_simpl; [done|]. rewrite E1 in Hb. apply Forall_app in Hb as [_ Hb2].
  destruct (token_len_split _ _ _ Hb2 Em) as (name & r2 & E2 & <- & Hname & _). rewrite E2, zdrop_app. rewrite E2 in Hb2. apply Forall_app in Hb2 as [_ Hb3].
  destruct (skip_bws_split r2) as (w2 & E3 & Hw2). set (ext3 := skip_bws r2) in *. rewrite E3 in Hb3. apply Forall_app in Hb3 as [_ Hb3].
  assert (Hne : name <> []) by (by intros ->).
  assert (Hl : (length ext1 = length w1 + (length name + (length w2 + length ext3)))%nat) by (rewrite E1, E2, E3, !length_app; lia).
  destruct ext3 as [|d ext4] eqn:E4.
  - exists [mkExt w1 name w2 None]. split; [by repeat constructor|]. unfold render_exts, render_ext. cbn. rewrite app_nil_r. subst c. rewrite E1, E2, E3. done.
  - rewrite <- E4 in *. destruct (d =? 59) eqn:Ed; bool_simpl.
    + specialize (IH ext3 Hb3). assert (length ext3 <= fuel)%nat by (destruct name; [done|]; cbn in Hl; lia). specialize (IH ltac:(lia)).
      destruct (validate_loop fuel ext3); [|done..]. destruct IH as (l & Hwf & El).
      exists (mkExt w1 name w2 None :: l). split; [by repeat constructor|]. rewrite render_exts_cons. unfold render_ext. cbn [x_pre x_name x_post x_val].
      rewrite <- El, app_nil_r. subst c. rewrite E1, E2, E3. cbn [app]. by rewrite <- !app_assoc.
    + destruct (d =? 61) eqn:Ed1; bool_simpl; cbn [negb]; [|done]. destruct (skip_bws_split ext4) as (w3 & E5 & Hw3).
      rewrite E4 in Hb3. apply Forall_cons_iff in Hb3 as [_ Hb4]. rewrite E5 in Hb4. apply Forall_app in Hb4 as [_ Hb5].
      pose proof (value_rest_error (skip_bws ext4)). destruct (ext_value_rest (skip_bws ext4)) as [r5| |] eqn:Ev; cbn [res_bind]; [|done..].
      destruct (value_rest_split _ _ Hb5 Ev) as (v & Hvwf & E6). rewrite E6 in Hb5. apply Forall_app in Hb5 as [_ Hb5].
      destruct (skip_bws_split r5) as (w4 & E7 & Hw4). rewrite E7 in Hb5. apply Forall_app in Hb5 as [_ Hb6].
      specialize (IH (skip_bws r5) Hb6). assert (Hl4 : (length ext3 = 1 + (length w3 + (length (render_value v) + length r5)))%nat) by (rewrite E4, E5, E6; cbn; rewrite !length_app; lia).
      pose proof (skip_bws_length r5). specialize (IH ltac:(lia)). destruct (validate_loop fuel (skip_bws r5)); [|done..]. destruct IH as (l & Hwf & El).
      exists (mkExt w1 name w2 (Some (w3, v, w4)) :: l). split; [by repeat constructor|]. rewrite render_exts_cons. unfold render_ext. cbn [x_pre x_name x_post x_val].
      rewrite <- El. subst c d. rewrite E1, E2, E3, E4, E5, E6, E7 at 1. cbn [app]. by rewrite <- !app_assoc, <- app_comm_cons, <- !app_assoc.
Qed.

(** ** The specification of the reader: the whole input at once

    [size] is the size of the read buffer and [e] the error behind the input. *)
Definition is_lf (c : Z) : bool := c =? 10.
Definition flat_line (size : Z) (e : h1_error) (F : bytes) : res h1_error bytes :=
  let i := index_where is_lf F in
  if 0 <=? i then
    if (i <? size) && (i <? maxChunkLineLen) then Ok (ztake (i + 1) F) else Err ErrInvalidChunkSize
  else if (size <=? zlen F) && (maxChunkLineLen <? zlen F) then Err ErrInvalidChunkSize
  else Err e.

(** How the input ends: a complete message with what follows it, or an error. *)
Inductive verdict := Done (rest : bytes) | Broken (e : h1_error).

Definition after_data (k : bytes -> bytes * verdict) (e : h1_error) (n : Z) (F : bytes) : bytes * verdict :=
  if zlen F <? n then (F, Broken e)
  else match zdrop n F with
       | 13 :: 10 :: rest => let '(b, v) := k rest in (ztake n F ++ b, v)
       | _ => (ztake n F, Broken ErrChunkBoundaryError)
       end.

Section Spec.
Context `{Silicon}.
Fixpoint flat_trailers (left : nat) (size : Z) (e : h1_error) (F : bytes) : res h1_error bytes :=
  let '(tLine, err, rest) := flat_ReadSlice size e 10 F in
  match err with
  | Some tErr => Err (if errors_Is tErr IoEOF then IoUnexpectedEOF else tErr)
  | None =>
      if lacks_crlf tLine then Err ErrChunkBoundaryError
      else
        let trimmed := ztake (zlen tLine - 2) tLine in
        if zlen trimmed =? 0 then Ok rest
        else match left with
             | O => Err ErrInvalidTrailer
             | S left' => let* _ := check_trailer trimmed in flat_trailers left' size e rest
             end
  end.

Fixpoint decode_loop (fuel : nat) (size : Z) (e : h1_error) (F : bytes) : bytes * verdict :=
  match fuel with
  | O => ([], Broken e)
  | S fuel' =>
      match (let* line := flat_line size e F in let* n := chunk_size line in Ok (n, zdrop (zlen line) F)) with
      | Err e' => ([], Broken e')
      | Panic => ([], Broken e)
      | Ok (n, rest) =>
          if n =? 0 then
            match flat_trailers maxTrailers size e rest with
            | Ok rest' => ([], Done rest')
            | Err e' => ([], Broken e')
            | Panic => ([], Broken e)
            end
          else after_data (decode_loop fuel' size e) e n rest
      end
  end.
Definition decode (size : Z) (e : h1_error) (F : bytes) : bytes * verdict := decode_loop (S (length F)) size e F.
End Spec.

(** ** The parts of the reader against the specification *)
Definition conn_ok (r : bufreader) : Prop := buf_ok r /\ (buf_end r = IoEOF \/ exists code, buf_end r = NetError code).
Lemma conn_ok_next r r' : conn_ok r -> buf_ok r' -> same_reader r r' -> conn_ok r'.
Proof. intros [_ He] Hb [_ Hs]. split; [done|]. by rewrite Hs. Qed.
Lemma conn_not_full r : conn_ok r -> errors_Is (buf_end r) ErrBufferFull = false.
Proof. by intros [_ [->|[code ->]]]. Qed.
Lemma same_reader_trans a b c : same_reader a b -> same_reader b c -> same_reader a c.
Proof. intros [] []. split; congruence. Qed.

Lemma index_where_drop f k F i :
  0 <= k <= zlen F -> index_where f F = i -> i < 0 \/ k <= i ->
  index_where f (zdrop k F) = if i <? 0 then -1 else i - k.
Proof.
  intros Hk Hi Hor. rewrite <- (ztake_zdrop k F) in Hi.
  assert (Hnone : Forall (fun c => f c = false) (ztake k F)).
  { apply index_where_none. destruct (Z_lt_le_dec (index_where f (ztake k F)) 0) as [|Hge]; [done|].
    rewrite index_where_prefix in Hi by done. pose proof (index_where_range f (ztake k F)). rewrite zlen_ztake in * by done. lia. }
  rewrite index_where_skip, zlen_ztake in Hi by done. pose proof (index_where_range f (zdrop k F)). case_hyp Hi; case_test; lia.
Qed.

Definition long_line_error (total : Z) (e : h1_error) (F : bytes) : h1_error :=
  if (index_where is_lf F <? 0) && (total + zlen F <=? maxChunkLineLen) then e else ErrInvalidChunkSize.
Lemma long_line_spec fuel : forall r total,
  conn_ok r -> (1 <= fuel)%nat -> 0 <= total -> (total <= maxChunkLineLen -> maxChunkLineLen < 16 * Z.of_nat fuel + total) ->
  exists r', conn_ok r' /\ same_reader r r' /\ long_line fuel r total = (r', Err (long_line_error total (buf_end r) (flat r))).
Proof.
  induction fuel as [|fuel IH]; intros r total Hr Hf Ht Hm; [lia|]. cbn [long_line].
  destruct (flat_ReadSlice (b_size r) (buf_end r) 10 (flat r)) as [[part err] rest] eqn:E.
  destruct (ReadSlice_spec r 10 part err rest (proj1 Hr) E) as (r' & -> & Hb & Hs & Hrest). pose proof (conn_ok_next _ _ Hr Hb Hs) as Hr'.
  pose proof (index_where_range is_lf (flat r)) as Hi. pose proof (bo_size _ (proj1 Hr)) as Hsz. unfold long_line_error.
  unfold flat_ReadSlice in E. fold is_lf in E. case_hyp E; [|case_hyp E]; injection E as <- <- <-.
  - exists r'. split; [done|]. split; [done|]. case_test; (destruct (index_where is_lf (flat r) <? 0) eqn:?; bool_simpl; [lia|done]).
  - apply andb_false_iff in Heqb. rewrite Z.leb_gt, Z.ltb_ge in Heqb. rewrite zlen_ztake by lia. case_test.
    + exists r'. split; [done|]. split; [done|]. do 2 f_equal. destruct (_ && _) eqn:?; bool_simpl; [lia|done].
    + cbn [errors_Is]. rewrite bool_decide_eq_true_2 by done. cbn [orb negb]. destruct (IH r' (total + b_size r) Hr') as (r'' & Hr'' & Hs'' & ->); [lia|lia|lia|].
      exists r''. split; [done|]. split; [by eapply same_reader_trans|]. do 2 f_equal. unfold long_line_error. rewrite Hrest.
      rewrite (index_where_drop is_lf (b_size r) (flat r) _ ltac:(lia) eq_refl) by lia. rewrite zlen_zdrop by lia.
      destruct Hs as [_ ->]. replace (total + b_size r + (zlen (flat r) - b_size r)) with (total + zlen (flat r)) by lia.
      destruct (index_where is_lf (flat r) <? 0) eqn:?; bool_simpl; [done|]. destruct (_ <? 0) eqn:?; bool_simpl; [lia|done].
  - exists r'. split; [done|]. split; [done|]. apply andb_false_iff in Heqb. rewrite Z.leb_gt, Z.ltb_ge in Heqb. rewrite conn_not_full by done. cbn [negb].
    destruct (index_where is_lf (flat r) <? 0) eqn:?; bool_simpl; [|lia]. cbn [andb]. case_test; [by test_false (total + zlen (flat r) <=? maxChunkLineLen)|by test_true (total + zlen (flat r) <=? maxChunkLineLen)].
Qed.

Lemma readChunkLine_spec r :
  conn_ok r -> exists r', conn_ok r' /\ same_reader r r' /\ readChunkLine r = (r', flat_line (b_size r) (buf_end r) (flat r))
    /\ forall line, flat_line (b_size r) (buf_end r) (flat r) = Ok line -> flat r = line ++ flat r'.
Proof.
  intros Hr. unfold readChunkLine, flat_line.
  destruct (flat_ReadSlice (b_size r) (buf_end r) 10 (flat r)) as [[part err] rest] eqn:E.
  destruct (ReadSlice_spec r 10 part err rest (proj1 Hr) E) as (r' & -> & Hb & Hs & Hrest). pose proof (conn_ok_next _ _ Hr Hb Hs) as Hr'.
  pose proof (index_where_range is_lf (flat r)) as Hi. pose proof (bo_size _ (proj1 Hr)) as Hsz.
  unfold flat_ReadSlice in E. fold is_lf in E. set (i := index_where is_lf (flat r)) in *. case_hyp E; [|case_hyp E]; injection E as <- <- <-.
  - exists r'. split; [done|]. split; [done|]. rewrite zlen_ztake by lia. test_true (0 <=? i). test_true (i <? b_size r). cbn [andb].
    destruct (i + 1 >? maxChunkLineLen) eqn:?, (i <? maxChunkLineLen) eqn:?; bool_simpl; try lia; (split; [done|]); intros line; [done|].
    intros [= <-]. by rewrite Hrest, ztake_zdrop.
  - apply andb_false_iff in Heqb. rewrite Z.leb_gt, Z.ltb_ge in Heqb. rewrite zlen_ztake by lia. cbn [errors_Is]. rewrite bool_decide_eq_true_2 by done. cbn [orb].
    destruct (long_line_spec (Z.to_nat maxChunkLineLen) r' (b_size r) Hr') as (r'' & Hr'' & Hs'' & ->); [unfold maxChunkLineLen; lia|lia|unfold maxChunkLineLen; lia|].
    exists r''. split; [done|]. split; [by eapply same_reader_trans|]. unfold long_line_error. rewrite Hrest.
    rewrite (index_where_drop is_lf (b_size r) (flat r) i ltac:(lia) eq_refl) by lia. rewrite zlen_zdrop by lia. destruct Hs as [_ ->].
    replace (b_size r + (zlen (flat r) - b_size r)) with (zlen (flat r)) by lia. split; [|intros line; repeat case_test; try done; lia].
    f_equal. destruct (0 <=? i) eqn:?; bool_simpl.
    + test_false (i <? b_size r). cbn [andb]. test_false (i <? 0). by test_false (i - b_size r <? 0).
    + test_true (i <? 0). cbn [andb]. test_true (b_size r <=? zlen (flat r)). cbn [andb].
      destruct (maxChunkLineLen <? zlen (flat r)) eqn:?; bool_simpl; [by test_false (zlen (flat r) <=? maxChunkLineLen)|by test_true (zlen (flat r) <=? maxChunkLineLen)].
  - apply andb_false_iff in Heqb. rewrite Z.leb_gt, Z.ltb_ge in Heqb. rewrite conn_not_full by done. exists r'. split; [done|]. split; [done|].
    test_false (0 <=? i). test_false (b_size r <=? zlen (flat r)). by split.
Qed.

Section Refine.
Context {S0 : Silicon} {L : SiliconLaws}.

Lemma chunk_size_total line : bytes_ok line -> match chunk_size line with Ok n => 0 <= n | Err e => e <> IoEOF | Panic => False end.
Proof.
  intros Hb. unfold chunk_size. case_test; [done|]. pose proof (bytes_ok_ztake (zlen line - 2) line Hb) as Hl. set (l := ztake _ line) in *. cbv zeta.
  assert (Hparse : forall l', match (if zlen l' =? 0 then Err ErrInvalidChunkSize else match ParseHexUint l' with Err e => Err (Wrapped ErrInvalidChunkSize e) | Panic => Panic
      | Ok (chunkSize, consumed) => if (chunkSize <? 0) || negb (consumed =? zlen l') then Err ErrInvalidChunkSize else Ok chunkSize end) with Ok n => 0 <= n | Err e => e <> IoEOF | Panic => False end).
  { intros l'. case_test; [done|]. unfold ParseHexUint. pose proof (parse_hex_panics l'). destruct (ParseHexUint_ l') as [[v k]|[]|]; try done. case_test; [done|]. lia. }
  case_test; [|cbn [res_bind]; apply Hparse]. unfold IndexByte in *. rewrite index_byte_law in *. pose proof (index_where_range (fun c => c =? 59) l) as Hr.
  rewrite !slice_ok by lia. cbn [res_bind]. rewrite ztake_all by (rewrite zlen_zdrop; lia).
  pose proof (validate_split (length (zdrop (index_where (fun c => c =? 59) l) l)) _ (bytes_ok_zdrop (index_where (fun c => c =? 59) l) l Hl) ltac:(lia)) as Hv.
  unfold validateChunkExtensions. destruct (validate_loop _ _); cbn [res_bind]; [apply Hparse|by subst|done].
Qed.
Lemma check_trailer_total trimmed : trimmed <> [] -> match check_trailer trimmed with Ok _ => True | Err e => e <> IoEOF | Panic => False end.
Proof.
  intros Hne. assert (0 < zlen trimmed) by (destruct trimmed; [done|rewrite zlen_cons; pose proof (zlen_nonneg trimmed); lia]).
  unfold check_trailer, IndexColon. rewrite index_colon_law. pose proof (index_where_range (fun c => c =? 58) trimmed).
  unfold index at 1. test_true ((0 <=? 0) && (0 <? zlen trimmed)). cbn [res_bind]. case_test; [done|]. case_test; [done|].
  unfold index. test_true ((0 <=? index_where (fun c => c =? 58) trimmed - 1) && (index_where (fun c => c =? 58) trimmed - 1 <? zlen trimmed)). cbn [res_bind].
  case_test; [done|]. rewrite slice_ok by lia. cbn [res_bind]. by repeat case_test.
Qed.
Lemma flat_trailers_total left size e : forall F, match flat_trailers left size e F with Ok _ => True | Err e => e <> IoEOF | Panic => False end.
Proof.
  assert (Herr : forall tErr, (if errors_Is tErr IoEOF then IoUnexpectedEOF else tErr) <> IoEOF) by (intros []; cbn; try done; by case_test).
  induction left as [|left IH]; intros F; cbn [flat_trailers]; destruct (flat_ReadSlice size e 10 F) as [[tLine [err|]] rest]; try apply Herr; (destruct (lacks_crlf tLine); [done|]); cbv zeta.
  - by case_test.
  - destruct (zlen _ =? 0) eqn:Ez; [done|]. pose proof (check_trailer_total (ztake (zlen tLine - 2) tLine)) as Hc.
    assert (Hne : ztake (zlen tLine - 2) tLine <> []) by (intros E; by rewrite E in Ez). specialize (Hc Hne). destruct (check_trailer _); cbn [res_bind]; [apply IH|done|done].
Qed.
Lemma drain_spec left : forall r, conn_ok r ->
  exists r', conn_ok r' /\ same_reader r r' /\ drain_trailers left r = (r', let* _ := flat_trailers left (b_size r) (buf_end r) (flat r) in Ok tt)
    /\ forall rest, flat_trailers left (b_size r) (buf_end r) (flat r) = Ok rest -> flat r' = rest.
Proof.
  induction left as [|left IH]; intros r Hr; cbn [drain_trailers flat_trailers];
    destruct (flat_ReadSlice (b_size r) (buf_end r) 10 (flat r)) as [[tLine err] rest] eqn:E;
    destruct (ReadSlice_spec r 10 tLine err rest (proj1 Hr) E) as (r' & -> & Hb & Hs & Hrest); pose proof (conn_ok_next _ _ Hr Hb Hs) as Hr';
    (destruct err as [tErr|]; [by exists r'|]); (destruct (lacks_crlf tLine); [by exists r'|]); cbv zeta;
    (destruct (zlen (ztake (zlen tLine - 2) tLine) =? 0); [exists r'; split; [done|split; [done|split; [done|by intros ? [= <-]]]]|]).
  - by exists r'.
  - destruct (check_trailer (ztake (zlen tLine - 2) tLine)); cbn [res_bind]; [|by exists r'..].
    destruct (IH r' Hr') as (r'' & Hr'' & Hs'' & E'' & Hrest''). destruct Hs as [Hs1 Hs2]. rewrite Hs1, Hs2, Hrest in *.
    exists r''. split; [done|]. split; [by eapply same_reader_trans; [split|]|]. by split.
Qed.

(** *** The specification does not depend on its fuel *)
Lemma after_data_ext k k' e n F :
  0 <= n -> (forall x rest, F = x ++ rest -> (length rest < length F)%nat -> k rest = k' rest) -> after_data k e n F = after_data k' e n F.
Proof.
  intros Hn Hk. unfold after_data. case_test; [done|]. destruct (zdrop n F) as [|a [|b rest]] eqn:E; try done.
  rewrite (Hk (ztake n F ++ [a; b])); [done| |].
  - rewrite <- app_assoc. cbn [app]. by rewrite <- E, ztake_zdrop.
  - apply (f_equal length) in E. unfold zdrop in E. rewrite length_drop in E. cbn in E. lia.
Qed.
Lemma flat_line_split size e F line :
  flat_line size e F = Ok line -> exists l, line = l ++ [10] /\ F = line ++ zdrop (zlen line) F /\ Forall (fun c => is_lf c = false) l
    /\ zlen line <= size /\ zlen line <= maxChunkLineLen.
Proof.
  unfold flat_line. repeat case_test; try done. intros [= <-]. destruct (index_where_split is_lf F) as (l & c & y & E & Hc & Hl & Hi); [done|].
  assert (c = 10) as -> by (unfold is_lf in Hc; lia). rewrite <- Hi.
  assert (Et : ztake (zlen l + 1) F = l ++ [10]).
  { rewrite E. replace (l ++ 10 :: y) with ((l ++ [10]) ++ y) by (by rewrite <- app_assoc). apply ztake_app_eq. rewrite zlen_app. done. }
  exists l. rewrite Et. repeat split; try done; rewrite ?zlen_app; change (zlen [10]) with 1; try lia.
  rewrite <- Et at 1. by rewrite ztake_zdrop.
Qed.
Lemma decode_fuel size e fuel : forall fuel' F,
  bytes_ok F -> (length F < fuel)%nat -> (length F < fuel')%nat -> decode_loop fuel size e F = decode_loop fuel' size e F.
Proof.
  induction fuel as [|fuel IH]; intros [|fuel'] F Hb Hf Hf'; try lia. cbn [decode_loop].
  destruct (flat_line size e F) as [line| |] eqn:El; cbn [res_bind]; try done.
  destruct (flat_line_split _ _ _ _ El) as (l & El' & EF & _). rewrite EF in Hb. apply Forall_app in Hb as [Hbl Hbr].
  pose proof (chunk_size_total line Hbl) as Hn. destruct (chunk_size line) as [n| |]; cbn [res_bind]; try done. case_test; [done|].
  assert (Hlen : (length (zdrop (zlen line) F) < length F)%nat) by (rewrite EF at 2; rewrite El', !length_app; cbn; lia).
  apply after_data_ext; [done|]. intros x rest Ex Hr. apply IH; [|lia|lia]. rewrite Ex in Hbr. by apply Forall_app in Hbr as [_ ?].
Qed.
Lemma decode_eq size e F :
  bytes_ok F ->
  decode size e F =
    match (let* line := flat_line size e F in let* n := chunk_size line in Ok (n, zdrop (zlen line) F)) with
    | Err e' => ([], Broken e')
    | Panic => ([], Broken e)
    | Ok (n, rest) =>
        if n =? 0 then
          match flat_trailers maxTrailers size e rest with
          | Ok rest' => ([], Done rest')
          | Err e' => ([], Broken e')
          | Panic => ([], Broken e)
          end
        else after_data (decode size e) e n rest
    end.
Proof.
  intros Hb. unfold decode at 1. cbn [decode_loop]. destruct (flat_line size e F) as [line| |] eqn:El; cbn [res_bind]; try done.
  destruct (flat_line_split _ _ _ _ El) as (l & El' & EF & _). rewrite EF in Hb. apply Forall_app in Hb as [Hbl Hbr].
  pose proof (chunk_size_total line Hbl) as Hn. destruct (chunk_size line) as [n| |]; cbn [res_bind]; try done. case_test; [done|].
  assert (Hlen : (length (zdrop (zlen line) F) < length F)%nat) by (rewrite EF at 2; rewrite El', !length_app; cbn; lia).
  apply after_data_ext; [done|]. intros x rest Ex Hr. apply decode_fuel; [|lia|lia]. rewrite Ex in Hbr. by apply Forall_app in Hbr as [_ ?].
Qed.

(** *** One [Read]

    What is still to come from a reader, and what one call makes of it. *)
Definition expected (cr : ChunkedReader) : bytes * verdict :=
  let r := cr_r cr in
  if cr_remaining cr =? 0 then decode (b_size r) (buf_end r) (flat r)
  else after_data (decode (b_size r) (buf_end r)) (buf_end r) (cr_remaining cr) (flat r).
Record reading (cr : ChunkedReader) : Prop := mkReading {
  rg_conn : conn_ok (cr_r cr);
  rg_bytes : bytes_ok (flat (cr_r cr));
  rg_rem : 0 <= cr_remaining cr;
  rg_done : cr_done cr = false;
}.
(** [x] and [st] are what the call returned. *)
Definition read_step (cr cr' : ChunkedReader) (x : bytes) (st : status) : Prop :=
  let '(body, v) := expected cr in
  match st with
  | Fine => x <> [] /\ reading cr' /\ same_reader (cr_r cr) (cr_r cr') /\ (length (flat (cr_r cr')) < length (flat (cr_r cr)))%nat
      /\ exists body', expected cr' = (body', v) /\ body = x ++ body'
  | Fails e => x = body /\ (x = [] \/ e = ErrChunkBoundaryError) /\ (v = Broken e \/ e = IoEOF /\ v = Done (flat (cr_r cr')))
  | Panics => False
  end.

Lemma after_data_part k e n x F :
  0 <= n -> zlen x < n -> after_data k e n (x ++ F) = let '(b, v) := after_data k e (n - zlen x) F in (x ++ b, v).
Proof.
  intros Hn Hx. unfold after_data. rewrite zlen_app. pose proof (zlen_nonneg x).
  destruct (zlen x + zlen F <? n) eqn:?, (zlen F <? n - zlen x) eqn:?; bool_simpl; try lia; [done|].
  assert (Et : ztake n (x ++ F) = x ++ ztake (n - zlen x) F).
  { unfold ztake, zlen in *. rewrite take_app_ge by lia. do 2 f_equal. lia. }
  assert (Ed : zdrop n (x ++ F) = zdrop (n - zlen x) F).
  { unfold zdrop, zlen in *. rewrite drop_app_ge by lia. f_equal. lia. }
  rewrite Et, Ed. repeat case_match; simplify_eq; by rewrite ?app_assoc.
Qed.
Lemma after_data_whole k e x F :
  after_data k e (zlen x) (x ++ F) =
    match F with 13 :: 10 :: rest => let '(b, v) := k rest in (x ++ b, v) | _ => (x, Broken ErrChunkBoundaryError) end.
Proof.
  unfold after_data. rewrite zlen_app, zdrop_app, ztake_app. pose proof (zlen_nonneg F). case_test; [lia|]. done.
Qed.
Lemma match_crlf {A} (a b : Z) (rest : bytes) (f : bytes -> A) (d : A) :
  match a :: b :: rest with 13 :: 10 :: rest => f rest | _ => d end = if (a =? 13) && (b =? 10) then f rest else d.
Proof. destruct ((a =? 13) && (b =? 10)) eqn:E; bool_simpl; [by subst|]. repeat case_match; simplify_eq; try done. Qed.
Lemma match_crlf_short {A} (a : Z) (f : bytes -> A) (d : A) : match [a] with 13 :: 10 :: rest => f rest | _ => d end = d.
Proof. repeat case_match; simplify_eq; done. Qed.
Lemma match_crlf_bytes {A} (a b : Z) (f g d : A) :
  match @Ok h1_error Z a, @Ok h1_error Z b with Ok 13, Ok 10 => f | Panic, _ | _, Panic => g | _, _ => d end = if (a =? 13) && (b =? 10) then f else d.
Proof. destruct ((a =? 13) && (b =? 10)) eqn:E; bool_simpl; [by subst|]. repeat case_match; simplify_eq; try done. Qed.

Lemma read_data_step cr n :
  reading cr -> 0 < cr_remaining cr -> 0 < n ->
  exists cr' x st, read_data cr n = (cr', x, st) /\ zlen x <= n /\ read_step cr cr' x st.
Proof.
  intros [Hr Hb Hrem Hd] Hpos Hn. unfold read_data, read_step, expected. test_false (cr_remaining cr =? 0).
  destruct cr as [r rem done]; cbn [cr_r cr_remaining cr_done] in *. subst done.
  pose proof (buf_Read_spec r (Z.min n rem) (proj1 Hr) ltac:(lia)) as HR. destruct (flat r) as [|c F] eqn:EF.
  - destruct HR as (r' & -> & Hb' & Hs & Hf). eexists _, [], (Fails (buf_end r)). split; [reflexivity|]. split; [change (zlen (@nil Z)) with 0; lia|].
    unfold after_data. change (zlen (@nil Z)) with 0. test_true (0 <? rem). split; [done|]. split; by left.
  - rewrite <- EF in *. clear c F EF. destruct HR as (r' & x & -> & Hb' & Hs & Hf & Hx). pose proof (conn_ok_next _ _ Hr Hb' Hs) as Hr'.
    rewrite Hf in Hb. apply Forall_app in Hb as [_ Hbr]. assert (Hxne : x <> []) by (intros ->; change (zlen (@nil Z)) with 0 in *; lia).
    destruct (rem - zlen x =? 0) eqn:Ez; bool_simpl.
    + assert (zlen x = rem) as <- by lia. rewrite Hf, after_data_whole.
      destruct (ReadByte_spec r' Hb') as (r1 & Hb1 & Hs1 & H1). destruct (ReadByte_spec r1 Hb1) as (r2 & Hb2 & Hs2 & H2).
      assert (Hbad : forall F, flat r' = F -> (match F with [] | [_] => True | _ => False end) ->
        exists r1 b1 r2 b2, b_ReadByte r' = (r1, b1) /\ b_ReadByte r1 = (r2, b2) /\ b1 <> Panic /\ exists e, b2 = Err e).
      { intros F EF HF. exists r1. rewrite EF in H1. destruct F as [|a [|b F]]; [| |done]; destruct H1 as [-> H1]; rewrite H1 in H2; destruct H2 as [-> _]; eauto 10. }
      destruct (flat r') as [|a [|b rest]] eqn:Er.
      1: set (a := 0).
      1,2: destruct (Hbad _ eq_refl I) as (r1' & b1 & r2' & b2 & -> & -> & Hp & e & ->); eexists _, x, (Fails ErrChunkBoundaryError);
        (split; [destruct b1 as [z| |]; [|reflexivity|done]; repeat case_match; simplify_eq; reflexivity|]); (split; [lia|]); rewrite ?(match_crlf_short a (fun rest => let '(b0, v) := decode (b_size r) (buf_end r) rest in (x ++ b0, v))); (split; [done|]); (split; [by right|by left]).
      destruct H1 as [-> H1]. rewrite H1 in H2. destruct H2 as [-> H2]. rewrite (match_crlf_bytes a b _ (mkChunked r 0 false, x, Panics)), (match_crlf a b rest (fun rest => let '(b0, v) := decode (b_size r) (buf_end r) rest in (x ++ b0, v))).
      assert (Hs' : same_reader r r2) by (eapply same_reader_trans; [done|by eapply same_reader_trans]).
      destruct ((a =? 13) && (b =? 10)); eexists _, x, _; (split; [reflexivity|]); (split; [lia|]); [|split; [done|]; split; [by right|by left]].
      destruct (decode (b_size r) (buf_end r) rest) as [b' v] eqn:Ed. split; [done|].
      match goal with |- reading ?c /\ _ => change c with (mkChunked r2 (zlen x - zlen x) false) end. cbn [cr_r cr_remaining cr_done].
      split; [|split; [done|split]].
      * split; cbn [cr_r cr_remaining cr_done]; [by eapply conn_ok_next; [exact Hr|..]| |lia|done]. rewrite H2. by apply Forall_cons_iff in Hbr as [_ [_ ?]%Forall_cons_iff].
      * rewrite H2, length_app. cbn. lia.
      * exists b'. rewrite Z.sub_diag. cbn. rewrite H2. destruct Hs' as [-> ->]. done.
    + eexists _, x, Fine. split; [reflexivity|]. split; [lia|]. rewrite Hf, after_data_part by lia.
      match goal with |- context [reading ?c] => change c with (mkChunked r' (rem - zlen x) false) end. cbn [cr_r cr_remaining cr_done].
      destruct Hs as [Hs1 Hs2]. rewrite Hs1, Hs2. test_false (rem - zlen x =? 0). destruct (after_data _ _ _ _) as [b v] eqn:Ea.
      split; [done|]. split; [by split; cbn [cr_r cr_remaining cr_done]; try done; lia|]. split; [done|]. split; [rewrite length_app; destruct x; [done|cbn; lia]|].
      by exists b.
Qed.

Lemma Read_step cr n :
  reading cr -> 0 < n -> exists cr' x st, Read cr n = (cr', x, st) /\ zlen x <= n /\ read_step cr cr' x st.
Proof.
  intros Hg Hn. pose proof Hg as [Hr Hb Hrem Hd]. unfold Read. rewrite Hd. destruct (cr_remaining cr =? 0) eqn:Ez; [|apply read_data_step; [done| |done]; bool_simpl; lia].
  destruct (readChunkLine_spec (cr_r cr) Hr) as (r' & Hr' & Hs & -> & Hflat).
  assert (Ex : expected cr = decode (b_size (cr_r cr)) (buf_end (cr_r cr)) (flat (cr_r cr))) by (unfold expected; by rewrite Ez).
  rewrite decode_eq in Ex by done. assert (H0 : zlen (@nil Z) <= n) by (change (zlen (@nil Z)) with 0; lia).
  destruct (flat_line (b_size (cr_r cr)) (buf_end (cr_r cr)) (flat (cr_r cr))) as [line|e|] eqn:El; cbn [res_bind] in *.
  2: { eexists _, [], (Fails e). split; [reflexivity|]. split; [done|]. unfold read_step. rewrite Ex. split; [done|]. split; by left. }
  2: { unfold flat_line in El. by repeat case_hyp El. }
  specialize (Hflat line eq_refl). destruct (flat_line_split _ _ _ _ El) as (l & El' & EF & _).
  assert (Er : zdrop (zlen line) (flat (cr_r cr)) = flat r') by (rewrite Hflat; apply zdrop_app). rewrite Er in Ex.
  pose proof Hb as Hb'. rewrite Hflat in Hb'. apply Forall_app in Hb' as [Hbl Hbr]. pose proof (chunk_size_total line Hbl) as Hc.
  destruct (chunk_size line) as [m|e|] eqn:Ec; cbn [res_bind] in *; [|eexists _, [], (Fails e); (split; [reflexivity|]); (split; [done|]); unfold read_step; rewrite Ex; (split; [done|]); split; by left|done].
  destruct (m =? 0) eqn:Em; bool_simpl.
  - change (cr_r { cr with cr_r := r' }) with r'. destruct (drain_spec maxTrailers r' Hr') as (r'' & Hr'' & Hs'' & -> & Hrest). destruct Hs as [Hs1 Hs2]. rewrite Hs1, Hs2 in *.
    pose proof (flat_trailers_total maxTrailers (b_size (cr_r cr)) (buf_end (cr_r cr)) (flat r')).
    destruct (flat_trailers maxTrailers (b_size (cr_r cr)) (buf_end (cr_r cr)) (flat r')) as [rest|e|] eqn:Et; cbn [res_bind]; [| |done];
      eexists _, [], _; (split; [reflexivity|]); (split; [done|]); unfold read_step; rewrite Ex; (split; [done|]); (split; [by left|]); [right|by left].
    split; [done|]. f_equal. symmetry. by apply Hrest.
  - set (cr1 := { { cr with cr_r := r' } with cr_remaining := m }). assert (Hg1 : reading cr1) by (by split).
    destruct (read_data_step cr1 n Hg1) as (cr' & x & st & -> & Hx & Hstep); [change (0 < m); lia|done|].
    exists cr', x, st. split; [done|]. split; [done|]. unfold read_step in *.
    assert (E1 : expected cr1 = expected cr).
    { rewrite Ex. unfold expected. change (cr_remaining cr1) with m. change (cr_r cr1) with r'. test_false (m =? 0). by destruct Hs as [-> ->]. }
    rewrite E1 in Hstep. change (cr_r cr1) with r' in Hstep. destruct (expected cr) as [body v]. destruct st; [|done..].
    destruct Hstep as (? & ? & ? & Hlen & ?). split; [done|]. split; [done|]. split; [by eapply same_reader_trans|]. split; [|done].
    rewrite Hflat, length_app. lia.
Qed.

Lemma ReadFrom_spec caps fuel : (forall k, 0 < caps k) -> forall l acc,
  reading (lr_R l) -> 0 <= lr_N l -> (length (flat (cr_r (lr_R l))) < fuel)%nat ->
  let '(body, v) := expected (lr_R l) in
  exists l' B st, ReadFrom fuel caps l acc = (l', acc ++ B, st)
    /\ (zlen body < lr_N l -> B = body /\
          match v with
          | Done rest => st = Fine /\ flat (cr_r (lr_R l')) = rest
          | Broken e => st = if decide (e = IoEOF) then Fine else Fails e
          end)
    /\ (lr_N l <= zlen body -> B = ztake (lr_N l) body /\
          (st = Fine \/ st = Fails ErrChunkBoundaryError /\ v = Broken ErrChunkBoundaryError /\ zlen body = lr_N l)).
Proof.
  intros Hcaps. induction fuel as [|fuel IH]; intros l acc Hg HN Hf; [lia|]. destruct (expected (lr_R l)) as [body v] eqn:Ex.
  cbn [ReadFrom]. unfold lr_Read. pose proof (zlen_nonneg body). destruct (lr_N l <=? 0) eqn:Ez; bool_simpl.
  { exists l, [], Fine. split; [done|]. split; [lia|]. intros _. replace (lr_N l) with 0 by lia. split; [done|by left]. }
  set (n := if caps fuel >? lr_N l then lr_N l else caps fuel). assert (Hn : 0 < n <= lr_N l) by (specialize (Hcaps fuel); subst n; case_test; lia).
  destruct (Read_step (lr_R l) n Hg) as (cr' & x & st & -> & Hx & Hstep); [lia|]. unfold read_step in Hstep. rewrite Ex in Hstep.
  destruct st as [|e|]; [| |done].
  - destruct Hstep as (Hne & Hg' & Hs & Hlen & body' & Ex' & ->). set (l1 := { l with lr_R := cr'; lr_N := lr_N l - zlen x }).
    specialize (IH l1 (acc ++ x) Hg' ltac:(change (0 <= lr_N l - zlen x); lia)). change (lr_R l1) with cr' in IH. change (lr_N l1) with (lr_N l - zlen x) in IH.
    rewrite Ex' in IH. destruct IH as (l' & B & st & -> & H1 & H2); [lia|]. exists l', (x ++ B), st. rewrite app_assoc. split; [done|]. rewrite zlen_app. split.
    + intros Hlt. destruct H1 as [-> ?]; [lia|]. done.
    + intros Hge. destruct H2 as [-> Hor]; [lia|]. split; [|destruct Hor as [|(? & ? & ?)]; [by left|right; repeat split; try done; lia]].
      pose proof (zlen_nonneg x). unfold ztake, zlen in *. rewrite take_app_ge by lia. do 2 f_equal. lia.
  - destruct Hstep as (-> & Hor & Hv). eexists _, body, (if decide (e = IoEOF) then Fine else Fails e).
    split; [by destruct e; repeat case_decide|]. split.
    + intros _. split; [done|]. destruct Hv as [->|[-> ->]]; [done|]. by rewrite decide_True.
    + intros Hge. destruct Hor as [->| ->]; [change (zlen (@nil Z)) with 0 in *; lia|]. assert (zlen body = lr_N l) as El by lia. rewrite <- El, ztake_all by lia.
      split; [done|]. right. destruct Hv as [->|[? _]]; [|done]. by rewrite decide_False.
Qed.

(** *** The grammar of messages *)
Record chunk_head := mkHead { h_digits : bytes; h_bws : bytes; h_exts : list chunk_ext }.
Definition render_head (h : chunk_head) : bytes := h_digits h ++ h_bws h ++ render_exts (h_exts h).
Record trailer := mkTrailer { t_name : bytes; t_value : bytes }.
Definition render_trailer (t : trailer) : bytes := t_name t ++ 58 :: t_value t.
Record message := mkMessage { m_chunks : list (chunk_head * bytes); m_last : chunk_head; m_trailers : list trailer }.
Definition render_chunk (c : chunk_head * bytes) : bytes := render_head (fst c) ++ hdrCRLF ++ snd c ++ hdrCRLF.
Definition render_trailers (ts : list trailer) : bytes := concat (map (fun t => render_trailer t ++ hdrCRLF) ts) ++ hdrCRLF.
Definition render (m : message) : bytes :=
  concat (map render_chunk (m_chunks m)) ++ render_head (m_last m) ++ hdrCRLF ++ render_trailers (m_trailers m).
Definition m_body (m : message) : bytes := concat (map snd (m_chunks m)).

(** The size of a chunk is a hexadecimal number that the parser takes whole; white
    space only stands before extensions; the line fits the buffer and the limit. *)
Record head_wf (size n : Z) (h : chunk_head) : Prop := mkHeadWf {
  hw_size : ParseHexUint_ (h_digits h) = Ok (n, zlen (h_digits h));
  hw_nonneg : 0 <= n;
  hw_bws : bws (h_bws h) /\ (h_exts h = [] -> h_bws h = []);
  hw_exts : Forall ext_wf (h_exts h);
  hw_line : Forall (fun c => is_lf c = false) (render_exts (h_exts h));
  hw_fits : zlen (render_head h) + 2 <= size /\ zlen (render_head h) + 2 <= maxChunkLineLen;
}.
Definition forbidden_names : list bytes := map bytes_of_string ["host"; "trailer"; "content-length"; "transfer-encoding"]%string.
Record trailer_wf (size : Z) (t : trailer) : Prop := mkTrailerWf {
  tw_name : token (t_name t);
  tw_allowed : ~ In (map lower (t_name t)) forbidden_names;
  tw_line : Forall (fun c => is_lf c = false) (t_value t);
  tw_fits : zlen (render_trailer t) + 2 <= size;
}.
Record message_wf (size : Z) (m : message) : Prop := mkMessageWf {
  mw_chunks : Forall (fun c => head_wf size (zlen (snd c)) (fst c) /\ snd c <> []) (m_chunks m);
  mw_last : head_wf size 0 (m_last m);
  mw_trailers : Forall (trailer_wf size) (m_trailers m) /\ (length (m_trailers m) <= maxTrailers)%nat;
}.

(** *** Chunk lines *)
Lemma is_hex_spec c : is_hex c = true -> is_byte c /\ c <> 59 /\ is_lf c = false /\ is_ows c = false.
Proof. unfold is_hex, hex_value, is_byte, is_lf, is_ows. repeat case_test; intros; try done; bool_simpl; rewrite ?orb_false_iff, ?Z.eqb_neq; lia. Qed.
Lemma lacks_crlf_app k a b : lacks_crlf (k ++ [a; b]) = negb (a =? 13) || negb (b =? 10).
Proof.
  unfold lacks_crlf. rewrite zlen_app. change (zlen [a; b]) with 2. pose proof (zlen_nonneg k). test_false (zlen k + 2 <? 2). cbn [orb].
  assert (Hn : forall i, 0 <= i < 2 -> znth (k ++ [a; b]) (zlen k + i) = znth [a; b] i).
  { intros i Hi. unfold znth, zlen in *. rewrite app_nth2 by lia. f_equal. lia. }
  replace (zlen k + 2 - 2) with (zlen k + 0) by lia. replace (zlen k + 2 - 1) with (zlen k + 1) by lia. by rewrite !Hn by lia.
Qed.
Lemma lacks_crlf_spec line : lacks_crlf line = false <-> exists l, line = l ++ hdrCRLF.
Proof.
  split; [|intros (l & ->); apply lacks_crlf_app].
  destruct line as [|b k _] using rev_ind; [done|]. destruct k as [|a k _] using rev_ind; [done|]. rewrite <- app_assoc. cbn [app].
  rewrite lacks_crlf_app. intros Hl. bool_simpl. subst. by exists k.
Qed.
Lemma crlf_trim l : ztake (zlen (l ++ hdrCRLF) - 2) (l ++ hdrCRLF) = l.
Proof. apply ztake_app_eq. rewrite zlen_app. change (zlen hdrCRLF) with 2. lia. Qed.

(** A line of the grammar has the size it says, and only such lines have one. *)
Lemma chunk_size_head size n h : head_wf size n h -> chunk_size (render_head h ++ hdrCRLF) = Ok n.
Proof.
  intros [Hp Hn [Hw Hw'] He _ _]. destruct (parse_hex_sound _ _ Hp) as (Hne & Hhex & _). unfold chunk_size.
  rewrite (proj2 (lacks_crlf_spec _)) by eauto. rewrite crlf_trim. unfold IndexByte. rewrite index_byte_law.
  assert (Hparse : forall l, l = h_digits h -> (if zlen l =? 0 then Err ErrInvalidChunkSize else match ParseHexUint l with Err e => Err (Wrapped ErrInvalidChunkSize e) | Panic => Panic
      | Ok (chunkSize, consumed) => if (chunkSize <? 0) || negb (consumed =? zlen l) then Err ErrInvalidChunkSize else Ok chunkSize end) = Ok n).
  { intros l ->. replace (zlen (h_digits h) =? 0) with false by (symmetry; apply Z.eqb_neq; intros Hz; by apply zlen_zero in Hz).
    unfold ParseHexUint. rewrite Hp. test_false (n <? 0). by rewrite Z.eqb_refl. }
  assert (Hd : Forall (fun c => (c =? 59) = false) (h_digits h)).
  { eapply Forall_impl; [|exact Hhex]. intros c Hc. destruct (is_hex_spec c Hc) as (_ & ? & _). by apply Z.eqb_neq. }
  unfold render_head. destruct (h_exts h) as [|x xs] eqn:Ex.
  - rewrite Hw' by done. cbn [app render_exts map concat]. rewrite !app_nil_r.
    assert (Hi : index_where (fun c => c =? 59) (h_digits h) = -1) by (pose proof (index_where_range (fun c => c =? 59) (h_digits h)); apply index_where_none in Hd; lia).
    rewrite Hi. cbn [negb Z.eqb Pos.eqb res_bind]. by apply Hparse.
  - rewrite <- Ex in *. assert (Es : exists tl, render_exts (h_exts h) = 59 :: tl) by (rewrite Ex, render_exts_cons; by eexists). destruct Es as (tl & Es).
    rewrite app_assoc. set (pre := h_digits h ++ h_bws h). pose proof (zlen_nonneg pre). pose proof (zlen_nonneg (render_exts (h_exts h))).
    assert (Ei : index_where (fun c => c =? 59) (pre ++ render_exts (h_exts h)) = zlen pre).
    { rewrite Es. apply index_where_app; [|done]. apply Forall_app. split; [done|]. eapply Forall_impl; [|exact Hw].
      intros c Hc. unfold is_ows in Hc. destruct (c =? 59) eqn:?; bool_simpl; [by subst|done]. }
    rewrite Ei. test_false (zlen pre =? -1). cbn [negb].
    rewrite slice_ok by (rewrite ?zlen_app; lia). cbn [res_bind]. rewrite slice_ok by (rewrite ?zlen_app; lia). cbn [res_bind].
    rewrite zdrop_app, zdrop_0, Z.sub_0_r, ztake_app, ztake_all by (rewrite zlen_app; lia).
    unfold validateChunkExtensions. rewrite validate_app by done. cbn [res_bind]. apply Hparse. unfold TrimTrailingSpace. rewrite trim_trailing_law. subst pre.
    rewrite trim_right_ows by done. apply trim_right_none. destruct (reverse (h_digits h)) as [|c k] eqn:Er; [done|].
    apply (is_hex_spec c). eapply (proj1 (List.Forall_forall _ _) Hhex). apply list_elem_of_In, elem_of_reverse. rewrite Er. left.
Qed.
Lemma no_lf_snoc l : Forall (fun c => is_lf c = false) l -> forall y, index_where is_lf (l ++ 10 :: y) = zlen l.
Proof. intros Hl y. by apply index_where_app. Qed.
Lemma cut_line l y : ztake (zlen l + 1) (l ++ 10 :: y) = l ++ [10] /\ zdrop (zlen l + 1) (l ++ 10 :: y) = y.
Proof.
  replace (l ++ 10 :: y) with ((l ++ [10]) ++ y) by (by rewrite <- app_assoc).
  rewrite ztake_app_eq, zdrop_app_eq by (by rewrite zlen_app). done.
Qed.
Lemma chunk_size_sound size n l :
  bytes_ok (l ++ [10]) -> Forall (fun c => is_lf c = false) l -> zlen (l ++ [10]) <= size -> zlen (l ++ [10]) <= maxChunkLineLen ->
  chunk_size (l ++ [10]) = Ok n -> exists h, head_wf size n h /\ l ++ [10] = render_head h ++ hdrCRLF.
Proof.
  intros Hb Hl Hs Hm. unfold chunk_size. destruct (lacks_crlf (l ++ [10])) eqn:E; [done|]. apply lacks_crlf_spec in E as (k & E). rewrite E in *. rewrite crlf_trim.
  assert (El : l = k ++ [13]) by (apply (app_inj_tail l (k ++ [13]) 10 10); by rewrite E, <- app_assoc). rewrite El in Hl. apply Forall_app in Hl as [Hl _].
  apply Forall_app in Hb as [Hb _]. rewrite zlen_app in Hs, Hm. change (zlen hdrCRLF) with 2 in *.
  assert (Hparse : forall d, (if zlen d =? 0 then Err ErrInvalidChunkSize else match ParseHexUint d with Err e => Err (Wrapped ErrInvalidChunkSize e) | Panic => Panic
      | Ok (chunkSize, consumed) => if (chunkSize <? 0) || negb (consumed =? zlen d) then Err ErrInvalidChunkSize else Ok chunkSize end) = Ok n ->
      ParseHexUint_ d = Ok (n, zlen d) /\ 0 <= n).
  { intros d. case_test; [done|]. unfold ParseHexUint. destruct (ParseHexUint_ d) as [[v c]|[]|]; try done. case_test; [done|]. intros [= ->]. by subst c. }
  cbv zeta. unfold IndexByte. rewrite index_byte_law. pose proof (index_where_range (fun c => c =? 59) k) as Hr. destruct (negb (_ =? -1)) eqn:Ei; bool_simpl.
  - destruct (index_where_split (fun c => c =? 59) k) as (pre & c & y & Ek & Hc & Hpre & Hi); [lia|]. bool_simpl. subst c. rewrite <- Hi in *.
    rewrite slice_ok by lia. cbn [res_bind]. rewrite slice_ok by lia. cbn [res_bind]. rewrite zdrop_0, Z.sub_0_r, ztake_all by (rewrite zlen_zdrop; lia).
    rewrite Ek, zdrop_app, ztake_app. unfold validateChunkExtensions. rewrite Ek in Hb. apply Forall_app in Hb as [_ Hb].
    pose proof (validate_split (length (59 :: y)) (59 :: y) Hb ltac:(done)) as Hv. destruct (validate_loop _ _) as [[]| |]; cbn [res_bind]; [|done..].
    destruct Hv as (xs & Hxs & Exs). unfold TrimTrailingSpace. rewrite trim_trailing_law. destruct (trim_right_split pre) as (w & Ew & Hw). intros Hp. destruct (Hparse _ Hp) as [Hp1 Hp2].
    exists (mkHead (trim_right pre) w xs). assert (Eh : render_head (mkHead (trim_right pre) w xs) = k) by (unfold render_head; cbn [h_digits h_bws h_exts]; by rewrite app_assoc, <- Ew, <- Exs).
    rewrite Eh, Ek. split; [|done]. split; rewrite ?Eh; cbn [h_digits h_bws h_exts]; try done; [split; [done|by intros ->]|]. rewrite <- Exs. rewrite Ek in Hl. by apply Forall_app in Hl as [_ ?].
  - cbn [res_bind]. intros Hp. destruct (Hparse _ Hp) as [Hp1 Hp2]. exists (mkHead k [] []).
    assert (Eh : render_head (mkHead k [] []) = k) by (unfold render_head; cbn; by rewrite app_nil_r). rewrite Eh. split; [|done]. split; rewrite ?Eh; cbn [h_digits h_bws h_exts]; try done. split; [constructor|done].
Qed.
Lemma flat_line_app size e l y :
  Forall (fun c => is_lf c = false) l -> zlen l + 1 <= size -> zlen l + 1 <= maxChunkLineLen -> flat_line size e (l ++ 10 :: y) = Ok (l ++ [10]).
Proof.
  intros Hl Hs Hm. unfold flat_line. rewrite no_lf_snoc by done. pose proof (zlen_nonneg l). test_true (0 <=? zlen l). test_true ((zlen l <? size) && (zlen l <? maxChunkLineLen)).
  by rewrite (proj1 (cut_line l y)).
Qed.
Lemma flat_ReadSlice_app size e l y :
  Forall (fun c => is_lf c = false) l -> zlen l + 1 <= size -> flat_ReadSlice size e 10 (l ++ 10 :: y) = (l ++ [10], None, y).
Proof.
  intros Hl Hs. unfold flat_ReadSlice. fold is_lf. rewrite no_lf_snoc by done. pose proof (zlen_nonneg l). test_true ((0 <=? zlen l) && (zlen l <? size)).
  by destruct (cut_line l y) as [-> ->].
Qed.
Lemma flat_ReadSlice_split size e F line rest :
  flat_ReadSlice size e 10 F = (line, None, rest) ->
  exists l, line = l ++ [10] /\ F = l ++ 10 :: rest /\ Forall (fun c => is_lf c = false) l /\ zlen l + 1 <= size.
Proof.
  unfold flat_ReadSlice. fold is_lf. repeat case_test; try done. intros [= <- <-]. destruct (index_where_split is_lf F) as (l & c & y & E & Hc & Hl & Hi); [done|].
  assert (c = 10) as -> by (unfold is_lf in Hc; lia). exists l. rewrite <- Hi in *. rewrite E. destruct (cut_line l y) as [-> ->]. repeat split; try done. lia.
Qed.

(** *** Trailers *)
Lemma isForbiddenTrailer_spec name : isForbiddenTrailer name = true <-> In (map lower name) forbidden_names.
Proof.
  assert (Hlen : forall l, map lower name = l -> zlen name = zlen l) by (intros l <-; unfold zlen; by rewrite length_map).
  unfold isForbiddenTrailer. rewrite !equal_fold_law. split.
  - repeat case_test; try done; intros E%bool_decide_eq_true; rewrite E; vm_compute; tauto.
  - unfold forbidden_names. cbn [map In]. intros [E|[E|[E|[E|[]]]]]; symmetry in E; pose proof (Hlen _ E) as Hz; rewrite Hz; rewrite E; vm_compute; done.
Qed.
Lemma check_trailer_render size t : trailer_wf size t -> check_trailer (render_trailer t) = Ok tt.
Proof.
  intros [[Hne Ht] Ha _ _]. unfold check_trailer, render_trailer, IndexColon. rewrite index_colon_law. destruct (t_name t) as [|c name] eqn:En; [done|]. rewrite <- En in *.
  assert (Hl : 0 < zlen (t_name t)) by (rewrite En, zlen_cons; pose proof (zlen_nonneg name); lia). pose proof (zlen_nonneg (t_value t)).
  assert (Hows : forall i, 0 <= i < zlen (t_name t) -> exists d, @index h1_error (t_name t ++ 58 :: t_value t) i = Ok d /\ (d =? 32) || (d =? 9) = false).
  { intros i Hi. unfold index. rewrite zlen_app, zlen_cons. test_true ((0 <=? i) && (i <? zlen (t_name t) + (1 + zlen (t_value t)))). eexists. split; [done|].
    assert (Hin : In (znth (t_name t ++ 58 :: t_value t) i) (t_name t)) by (unfold znth, zlen in *; rewrite app_nth1 by lia; apply nth_In; lia).
    apply (proj1 (List.Forall_forall _ _) Ht) in Hin. apply (is_token_spec _ Hin). }
  destruct (Hows 0 ltac:(lia)) as (d0 & -> & Hd0). cbn [res_bind]. rewrite Hd0. rewrite index_where_app; [|eapply Forall_impl; [|exact Ht]; intros x Hx; apply Z.eqb_neq; apply (is_token_spec x Hx)|done].
  test_false (zlen (t_name t) <=? 0). destruct (Hows (zlen (t_name t) - 1) ltac:(lia)) as (d1 & -> & Hd1). cbn [res_bind]. rewrite Hd1.
  rewrite slice_ok by (rewrite ?zlen_app, ?zlen_cons; lia). cbn [res_bind]. rewrite zdrop_0, Z.sub_0_r, ztake_app.
  rewrite isValidHeaderKey_spec by (eapply Forall_impl; [|exact Ht]; intros x Hx; apply (is_token_spec x Hx)). test_false (zlen (t_name t) =? 0).
  rewrite (proj2 (forallb_forall is_token (t_name t))) by (intros x Hx; by apply (proj1 (List.Forall_forall _ _) Ht)). cbn [negb andb].
  destruct (isForbiddenTrailer (t_name t)) eqn:Ef; [by apply isForbiddenTrailer_spec in Ef|done].
Qed.
Lemma check_trailer_sound size trimmed :
  bytes_ok trimmed -> Forall (fun c => is_lf c = false) trimmed -> zlen trimmed + 2 <= size -> check_trailer trimmed = Ok tt ->
  exists t, trailer_wf size t /\ trimmed = render_trailer t.
Proof.
  intros Hb Hl Hs. unfold check_trailer, IndexColon. rewrite index_colon_law. destruct (@index h1_error trimmed 0); cbn [res_bind]; try done. case_test; [done|].
  destruct (_ <=? 0) eqn:Ei; bool_simpl; [done|]. destruct (@index h1_error trimmed _); cbn [res_bind]; try done. case_test; [done|].
  destruct (index_where_split (fun c => c =? 58) trimmed) as (name & c & value & E & Hc & _ & Hi); [lia|]. bool_simpl. subst c. rewrite <- Hi in *. pose proof (zlen_nonneg value).
  rewrite slice_ok by (rewrite ?E, ?zlen_app, ?zlen_cons; lia). cbn [res_bind]. rewrite zdrop_0, Z.sub_0_r. rewrite E, ztake_app.
  rewrite E in Hb, Hl. apply Forall_app in Hb as [Hb _]. apply Forall_app in Hl as [_ [_ Hl]%Forall_cons_iff]. rewrite isValidHeaderKey_spec by done.
  destruct (forallb is_token name) eqn:Et; [|by rewrite andb_false_r]. test_false (zlen name =? 0). cbn [negb andb]. destruct (isForbiddenTrailer name) eqn:Ef; [done|]. intros _.
  exists (mkTrailer name value). split; [|done]. split; cbn [t_name t_value]; [split| |done|].
  - intros ->. change (zlen (@nil Z)) with 0 in *. lia.
  - apply List.Forall_forall. intros x Hx. by eapply forallb_forall.
  - intros Hin. apply isForbiddenTrailer_spec in Hin. congruence.
  - unfold render_trailer. cbn [t_name t_value]. by rewrite <- E.
Qed.
Lemma trailer_line size t : trailer_wf size t -> render_trailer t <> [] /\ Forall (fun c => is_lf c = false) (render_trailer t ++ [13]).
Proof.
  intros [[Hne Ht] _ Hl _]. unfold render_trailer. split; [by destruct (t_name t)|]. rewrite <- app_assoc. cbn [app]. apply Forall_app. split.
  - eapply Forall_impl; [|exact Ht]. intros x Hx. destruct (is_token_spec x Hx) as (_ & _ & ? & _). unfold is_lf. by apply Z.eqb_neq.
  - constructor; [done|]. apply Forall_app. split; [done|by repeat constructor].
Qed.
Lemma render_trailers_cons t ts : render_trailers (t :: ts) = render_trailer t ++ hdrCRLF ++ render_trailers ts.
Proof. unfold render_trailers. cbn [map concat]. by rewrite <- !app_assoc. Qed.
Lemma line_crlf l y : l ++ hdrCRLF ++ y = (l ++ [13]) ++ 10 :: y.
Proof. by rewrite <- app_assoc. Qed.

Lemma flat_trailers_render size e ts : forall left y,
  2 <= size -> Forall (trailer_wf size) ts -> (length ts <= left)%nat -> flat_trailers left size e (render_trailers ts ++ y) = Ok y.
Proof.
  induction ts as [|t ts IH]; intros left y Hs Ht Hl.
  - assert (E : flat_ReadSlice size e 10 (render_trailers [] ++ y) = (hdrCRLF, None, y)) by (apply (flat_ReadSlice_app size e [13] y); [by repeat constructor|change (zlen [13]) with 1; lia]).
    destruct left; cbn [flat_trailers]; rewrite E; reflexivity.
  - apply Forall_cons_iff in Ht as [Ht Hts]. destruct (trailer_line size t Ht) as [Hne Hline]. pose proof (tw_fits _ _ Ht). destruct left as [|left]; [cbn in Hl; lia|].
    rewrite render_trailers_cons, <- !app_assoc, line_crlf. cbn [flat_trailers]. rewrite flat_ReadSlice_app; [|done|rewrite zlen_app; change (zlen [13]) with 1; lia].
    rewrite <- app_assoc. cbn [app]. rewrite (proj2 (lacks_crlf_spec _)) by (by exists (render_trailer t)). change [13; 10] with hdrCRLF. rewrite crlf_trim. cbv zeta.
    replace (zlen (render_trailer t) =? 0) with false by (symmetry; apply Z.eqb_neq; intros Hz; by apply zlen_zero in Hz).
    rewrite (check_trailer_render size t Ht). cbn [res_bind]. apply IH; [done|done|]. cbn in Hl. lia.
Qed.
Lemma flat_trailers_sound size e : forall left F y,
  bytes_ok F -> flat_trailers left size e F = Ok y -> exists ts, Forall (trailer_wf size) ts /\ (length ts <= left)%nat /\ F = render_trailers ts ++ y.
Proof.
  assert (Hline : forall F line rest, flat_ReadSlice size e 10 F = (line, None, rest) -> lacks_crlf line = false ->
    exists l, line = l ++ hdrCRLF /\ F = l ++ hdrCRLF ++ rest /\ Forall (fun c => is_lf c = false) l /\ zlen l + 2 <= size).
  { intros F line rest E (l & El)%lacks_crlf_spec. destruct (flat_ReadSlice_split _ _ _ _ _ E) as (k & Ek & EF & Hk & Hs). exists l.
    assert (k = l ++ [13]) as -> by (apply (app_inj_tail k (l ++ [13]) 10 10); rewrite <- Ek, El, <- app_assoc; done).
    rewrite <- app_assoc in EF. apply Forall_app in Hk as [Hk _]. rewrite zlen_app in Hs. change (zlen [13]) with 1 in Hs. repeat split; try done. lia. }
  induction left as [|left IH]; intros F y Hb; cbn [flat_trailers]; destruct (flat_ReadSlice size e 10 F) as [[line [err|]] rest] eqn:E; try done;
    (destruct (lacks_crlf line) eqn:Ec; [done|]); destruct (Hline F line rest E Ec) as (l & -> & -> & Hl & Hs); rewrite crlf_trim; cbv zeta;
    (destruct (zlen l =? 0) eqn:Ez; [bool_simpl; apply zlen_zero in Ez; subst l; intros [= ->]; exists []; split; [constructor|]; split; [cbn; lia|done]|done || idtac]).
  destruct (check_trailer l) as [[]| |] eqn:Et; cbn [res_bind]; try done. apply Forall_app in Hb as [Hb [_ Hbr]%Forall_app]. intros Hr.
  destruct (check_trailer_sound size l Hb Hl Hs Et) as (t & Ht & ->). destruct (IH rest y Hbr Hr) as (ts & Hts & Hlen & ->).
  exists (t :: ts). split; [by constructor|]. split; [cbn; lia|]. rewrite render_trailers_cons. by rewrite <- !app_assoc.
Qed.

(** *** Messages *)
Lemma head_line size n h : head_wf size n h -> Forall (fun c => is_lf c = false) (render_head h ++ [13]).
Proof.
  intros [Hp _ [Hw _] _ Hl _]. destruct (parse_hex_sound _ _ Hp) as (_ & Hhex & _). unfold render_head. rewrite !Forall_app. repeat split; [| |done|by repeat constructor].
  - eapply Forall_impl; [|exact Hhex]. intros c Hc. apply (is_hex_spec c Hc).
  - eapply Forall_impl; [|exact Hw]. intros c Hc. unfold is_ows, is_lf in *. destruct (c =? 10) eqn:?; bool_simpl; [by subst|done].
Qed.
(** What the specification makes of a line of the grammar. *)
Lemma decode_head size e n h y :
  bytes_ok (render_head h ++ hdrCRLF ++ y) -> head_wf size n h ->
  decode size e (render_head h ++ hdrCRLF ++ y) =
    if n =? 0 then match flat_trailers maxTrailers size e y with Ok rest' => ([], Done rest') | Err e' => ([], Broken e') | Panic => ([], Broken e) end
    else after_data (decode size e) e n y.
Proof.
  intros Hb Hh. pose proof (head_line size n h Hh) as Hl. pose proof (hw_fits _ _ _ Hh) as [Hs Hm]. rewrite decode_eq by done. rewrite line_crlf.
  rewrite flat_line_app; [|done|rewrite zlen_app; change (zlen [13]) with 1; lia|rewrite zlen_app; change (zlen [13]) with 1; lia]. cbn [res_bind].
  rewrite <- app_assoc. change ([13] ++ [10]) with hdrCRLF. rewrite (chunk_size_head size n h Hh). cbn [res_bind].
  replace (zdrop (zlen (render_head h ++ hdrCRLF)) ((render_head h ++ [13]) ++ 10 :: y)) with y; [done|].
  symmetry. rewrite <- line_crlf, app_assoc. apply zdrop_app.
Qed.
Lemma decode_render size e cs last ts rest :
  2 <= size -> message_wf size (mkMessage cs last ts) -> bytes_ok (render (mkMessage cs last ts) ++ rest) ->
  decode size e (render (mkMessage cs last ts) ++ rest) = (m_body (mkMessage cs last ts), Done rest).
Proof.
  intros Hs [Hcs Hlast [Hts Hlen]]. unfold render, m_body. cbn [m_chunks m_last m_trailers] in *. induction Hcs as [|[h data] cs [Hh Hd] Hcs IH]; cbn [map concat app]; intros Hb.
  - rewrite <- !app_assoc in *. rewrite (decode_head size e 0) by done. cbn iota. by rewrite flat_trailers_render.
  - unfold render_chunk at 1 in Hb. unfold render_chunk at 1. cbn [fst snd] in *. rewrite <- !app_assoc in *. rewrite (decode_head size e (zlen data)) by done.
    replace (zlen data =? 0) with false by (symmetry; apply Z.eqb_neq; intros Hz; by apply zlen_zero in Hz).
    rewrite after_data_whole. do 4 (apply Forall_app in Hb as [_ Hb]). specialize (IH Hb).
    set (T := concat (map render_chunk cs) ++ _) in *. cbn [app hdrCRLF]. by rewrite IH.
Qed.
Lemma after_data_done k e n F body rest :
  0 <= n -> after_data k e n F = (body, Done rest) ->
  exists data F' b, F = data ++ hdrCRLF ++ F' /\ zlen data = n /\ k F' = (b, Done rest) /\ body = data ++ b.
Proof.
  intros Hn. unfold after_data. case_test; [done|]. destruct (zdrop n F) as [|a [|b F']] eqn:Ed; [done|by rewrite (match_crlf_short a (fun rest => let '(b0, v) := k rest in (ztake n F ++ b0, v)))|].
  rewrite (match_crlf a b F' (fun rest => let '(b0, v) := k rest in (ztake n F ++ b0, v))). case_test; [|done]. destruct (k F') as [b0 v] eqn:Ek. intros [= <- ->]. subst.
  exists (ztake n F), F', b0. split; [|by rewrite zlen_ztake]. change (hdrCRLF ++ F') with (13 :: 10 :: F'). by rewrite <- Ed, ztake_zdrop.
Qed.
Lemma decode_sound size e len : forall F body rest,
  (length F <= len)%nat -> bytes_ok F -> decode size e F = (body, Done rest) -> exists m, message_wf size m /\ F = render m ++ rest /\ body = m_body m.
Proof.
  induction len as [|len IH]; intros F body rest Hlen Hb; rewrite decode_eq by done.
  { destruct (flat_line size e F) as [line| |] eqn:El; cbn [res_bind]; try done. destruct (flat_line_split _ _ _ _ El) as (l & -> & EF & _).
    rewrite EF, !length_app in Hlen. cbn in Hlen. lia. }
  destruct (flat_line size e F) as [line| |] eqn:El; cbn [res_bind]; try done. destruct (flat_line_split _ _ _ _ El) as (l & -> & EF & Hl & Hs & Hm).
  set (y := zdrop (zlen (l ++ [10])) F) in *. pose proof Hb as Hb'. rewrite EF in Hb'. apply Forall_app in Hb' as [Hbl Hby].
  pose proof (chunk_size_total _ Hbl) as Hn. destruct (chunk_size (l ++ [10])) as [n| |] eqn:Ec; cbn [res_bind]; try done.
  destruct (chunk_size_sound size n l Hbl Hl Hs Hm Ec) as (h & Hh & Eh). rewrite Eh in EF. destruct (n =? 0) eqn:En; bool_simpl.
  - destruct (flat_trailers maxTrailers size e y) as [y'| |] eqn:Et; try done. intros [= <- ->]. destruct (flat_trailers_sound size e _ _ _ Hby Et) as (ts & Hts & Hlts & Ey).
    exists (mkMessage [] h ts). subst n. split; [by split|]. split; [|done]. unfold render. cbn [m_chunks m_last m_trailers map concat app]. rewrite EF, Ey. by rewrite <- !app_assoc.
  - intros (data & F' & b & Ey & Hdata & Hk & ->)%after_data_done; [|done].
    destruct (IH F' b rest) as (m & [Hcs Hlast Hts] & EF' & ->); [|rewrite Ey in Hby; by apply Forall_app in Hby as [_ [_ ?]%Forall_app]|done|].
    { rewrite EF, Ey in Hlen. rewrite !length_app in Hlen. cbn in Hlen. lia. }
    exists (mkMessage ((h, data) :: m_chunks m) (m_last m) (m_trailers m)). split; [|split; [|done]].
    + split; cbn [m_chunks m_last m_trailers]; [|done|done]. constructor; [|done]. cbn [fst snd]. rewrite Hdata. split; [done|]. intros ->. change (zlen (@nil Z)) with 0 in *. lia.
    + unfold render in *. cbn [m_chunks m_last m_trailers map concat]. rewrite EF, Ey, EF'. unfold render_chunk at 2. cbn [fst snd]. by rewrite <- !app_assoc.
Qed.

(** Only the connection itself ends a body with [io.EOF]. *)
Lemma decode_eof size e len : forall F body,
  (length F <= len)%nat -> bytes_ok F -> decode size e F = (body, Broken IoEOF) -> e = IoEOF.
Proof.
  induction len as [|len IH]; intros F body Hlen Hb; rewrite decode_eq by done;
    (destruct (flat_line size e F) as [line|e'|] eqn:El; cbn [res_bind]; [|intros [= _ ->]; unfold flat_line in El; repeat case_hyp El; congruence|by intros [= _ ->]]);
    destruct (flat_line_split _ _ _ _ El) as (l & -> & EF & _); pose proof Hlen as Hlen'; rewrite EF, !length_app in Hlen'; cbn in Hlen'; [lia|].
  set (y := zdrop (zlen (l ++ [10])) F) in *. pose proof Hb as Hb'. rewrite EF in Hb'. apply Forall_app in Hb' as [Hbl Hby].
  pose proof (chunk_size_total _ Hbl) as Hn. destruct (chunk_size (l ++ [10])) as [n| |]; cbn [res_bind]; [|intros [= _ ->]; done|done].
  destruct (n =? 0).
  - pose proof (flat_trailers_total maxTrailers size e y) as Ht. destruct (flat_trailers _ _ _ _); [done|intros [= _ ->]; done|done].
  - unfold after_data. case_test; [by intros [= _ ->]|]. destruct (zdrop n y) as [|a [|b F']] eqn:Ed; [done|by rewrite (match_crlf_short a (fun rest => let '(b0, v) := decode size e rest in (ztake n y ++ b0, v)))|].
    rewrite (match_crlf a b F' (fun rest => let '(b0, v) := decode size e rest in (ztake n y ++ b0, v))). case_test; [|done].
    destruct (decode size e F') as [b0 v] eqn:Ek. intros [= _ ->]. assert (Ey : y = (ztake n y ++ [a; b]) ++ F') by (rewrite <- app_assoc; cbn [app]; by rewrite <- Ed, ztake_zdrop).
    apply (IH F' b0); [|rewrite Ey in Hby; by apply Forall_app in Hby as [_ ?]|done]. rewrite Ey, !length_app in Hlen'. lia.
Qed.

(** *** [ReadAllChunked] *)
Lemma ReadAll_spec caps r max :
  conn_ok r -> bytes_ok (flat r) -> (forall k, 0 < caps k) -> 0 <= max < 2 ^ 63 - 1 ->
  let '(body, v) := decode (b_size r) (buf_end r) (flat r) in
  exists r' X, ReadAllChunked caps r max = (r', X)
    /\ (zlen body <= max ->
          match v with
          | Done rest => X = Ok body /\ flat r' = rest
          | Broken e => X = if decide (e = IoEOF) then Ok body else Err e
          end)
    /\ (max < zlen body ->
          X = Err ErrBodyTooLarge \/ X = Err ErrChunkBoundaryError /\ v = Broken ErrChunkBoundaryError /\ zlen body = max + 1).
Proof.
  intros Hr Hb Hcaps Hmax. set (l := mkLimited (NewChunkedReader r) (i64 (max + 1))).
  assert (HN : i64 (max + 1) = max + 1) by (apply i64_small; lia).
  assert (Hg : reading (lr_R l)) by (by split; cbn; try lia).
  pose proof (ReadFrom_spec caps (length (flat r) + 1) Hcaps l [] Hg ltac:(change (0 <= i64 (max + 1)); lia) ltac:(change (length (flat r) < length (flat r) + 1)%nat; lia)) as HS.
  change (expected (lr_R l)) with (decode (b_size r) (buf_end r) (flat r)) in HS. change (lr_N l) with (i64 (max + 1)) in HS. rewrite HN in HS.
  destruct (decode (b_size r) (buf_end r) (flat r)) as [body v]. destruct HS as (l' & B & st & E & H1 & H2).
  exists (cr_r (lr_R l')). unfold ReadAllChunked. fold l. rewrite E. cbn [app]. destruct (Z_lt_le_dec max (zlen body)) as [Hlt|Hle].
  - destruct H2 as [-> Hor]; [lia|]. assert (zlen (ztake (max + 1) body) = max + 1) as Hz by (apply zlen_ztake; lia).
    destruct Hor as [->|(-> & -> & Hl)]; [rewrite Hz; test_true (max + 1 >? max)|]; eexists; (split; [reflexivity|]); (split; [lia|]); intros _; [by left|by right].
  - destruct H1 as [-> Hv]; [lia|]. destruct v as [rest|e].
    + destruct Hv as [-> Hrest]. exists (Ok body). split; [by test_false (zlen body >? max)|]. split; [done|lia].
    + subst st. exists (if decide (e = IoEOF) then Ok body else Err e). split; [case_decide; [by test_false (zlen body >? max)|done]|]. split; [done|lia].
Qed.

(** *** What the writer writes *)
Definition chunk_of (p : bytes) : chunk_head * bytes := (mkHead (FormatHexUint_ (zlen p)) [] [], p).
Definition last_head : chunk_head := mkHead [48] [] [].
(** A sequence of writes, each with the outcome of its flush, and [Close]. *)
Definition write_all (ps : list (bytes * option h1_error)) (w : bytes) : bytes := fold_left (fun w pf => fst (Write w (fst pf) (snd pf))) ps w.
Definition nonempty (b : bytes) : bool := negb (zlen b =? 0).
Definition message_of (ps : list (bytes * option h1_error)) : message :=
  mkMessage (map chunk_of (List.filter nonempty (map fst ps))) last_head [].

Lemma write_all_render ps w : write_all ps w = w ++ concat (map render_chunk (m_chunks (message_of ps))).
Proof.
  revert w. induction ps as [|[p f] ps IH]; intros w; [by rewrite app_nil_r|]. unfold write_all in *. cbn [fold_left fst snd]. rewrite IH.
  unfold Write, message_of. cbn [map fst List.filter m_chunks]. unfold nonempty at 2. destruct (zlen p =? 0); cbn [negb map concat fst]; [done|].
  unfold FormatHexUint. pose proof (zlen_nonneg p). test_false (zlen p <? 0). cbn [fst]. unfold render_chunk at 2, chunk_of, render_head. cbn [fst snd h_digits h_bws h_exts app render_exts map concat].
  by rewrite app_nil_r, <- !app_assoc.
Qed.
Lemma message_of_render ps f : fst (Close (write_all ps []) f) = render (message_of ps).
Proof. rewrite write_all_render. cbn [app fst Close]. done. Qed.
Lemma nonempty_concat ls : concat (List.filter nonempty ls) = concat ls.
Proof.
  induction ls as [|b ls IH]; cbn [List.filter concat]; [done|]. unfold nonempty at 1. destruct (zlen b =? 0) eqn:E; cbn [negb concat]; [|by rewrite IH].
  bool_simpl. apply zlen_zero in E. by subst.
Qed.
Lemma message_of_body ps : m_body (message_of ps) = concat (map fst ps).
Proof. unfold m_body, message_of. cbn [m_chunks]. rewrite map_map. cbn [snd chunk_of]. rewrite map_id. apply nonempty_concat. Qed.
Lemma message_of_wf size ps : 18 <= size -> Forall (fun pf => zlen (fst pf) < 2 ^ 63) ps -> message_wf size (message_of ps).
Proof.
  intros Hs Hps. assert (Hhead : forall n ds, (1 <= length ds <= 16)%nat -> ParseHexUint_ ds = Ok (n, zlen ds) -> 0 <= n -> head_wf size n (mkHead ds [] [])).
  { intros n ds Hl Hp Hn. assert (zlen (render_head (mkHead ds [] [])) <= 16) by (unfold render_head; cbn [h_digits h_bws h_exts app render_exts map concat]; rewrite app_nil_r; unfold zlen; lia).
    split; cbn [h_digits h_bws h_exts]; try done; [split; [constructor|done]|]. unfold maxChunkLineLen. lia. }
  split; cbn [message_of m_chunks m_last m_trailers].
  - apply List.Forall_forall. intros c Hc. apply in_map_iff in Hc as (p & <- & Hp). apply filter_In in Hp as [Hp Hne]. apply in_map_iff in Hp as ([q f] & Eq & Hq). cbn in Eq. subst q.
    apply (proj1 (List.Forall_forall _ _) Hps) in Hq. cbn in Hq. unfold nonempty in Hne. bool_simpl. pose proof (zlen_nonneg p). cbn [chunk_of fst snd].
    destruct (format_hex_law (zlen p)) as (Hl & Hhex & Hv); [lia|]. split; [|by intros ->]. apply Hhead; [done| |done].
    rewrite parse_hex_complete by (done || lia). by rewrite Hv.
  - apply Hhead; [cbn; lia| |lia]. apply (parse_hex_complete [48]); [cbn; lia|by repeat constructor|done].
  - split; [constructor|cbn; lia].
Qed.

(** A body that is cut off, and the connection closed: the chunks so far and what
    there is of the next. *)
Lemma decode_truncated size e cs h n part :
  Forall (fun c => head_wf size (zlen (snd c)) (fst c) /\ snd c <> []) cs -> head_wf size n h -> zlen part < n ->
  bytes_ok (concat (map render_chunk cs) ++ render_head h ++ hdrCRLF ++ part) ->
  decode size e (concat (map render_chunk cs) ++ render_head h ++ hdrCRLF ++ part) = (concat (map snd cs) ++ part, Broken e).
Proof.
  intros Hcs Hh Hp. induction Hcs as [|[h0 data] cs [Hh0 Hd] Hcs IH]; cbn [map concat app]; intros Hb.
  - rewrite (decode_head size e n) by done. pose proof (zlen_nonneg part). test_false (n =? 0). unfold after_data. by test_true (zlen part <? n).
  - unfold render_chunk at 1 in Hb. unfold render_chunk at 1. cbn [fst snd] in *. rewrite <- !app_assoc in *. rewrite (decode_head size e (zlen data)) by done.
    replace (zlen data =? 0) with false by (symmetry; apply Z.eqb_neq; intros Hz; by apply zlen_zero in Hz).
    rewrite after_data_whole. do 4 (apply Forall_app in Hb as [_ Hb]). specialize (IH Hb).
    set (T := concat (map render_chunk cs) ++ _) in *. cbn [app hdrCRLF]. by rewrite IH.
Qed.

(** C36: a chunked body is read the same however the network cuts it and whatever
    slices the application reads into: the outcome is that of [decode] on the bytes
    as a whole.  A complete message gives its body and leaves the next byte of the
    connection unread; an error is reported; a body over the limit, which is below
    2^63 - 1, is refused.  (A body that ends in [io.EOF] counts as complete.) *)
Theorem chunked_any_split caps r max :
  conn_ok r -> bytes_ok (flat r) -> (forall k, 0 < caps k) -> 0 <= max < 2 ^ 63 - 1 ->
  let '(body, v) := decode (b_size r) (buf_end r) (flat r) in
  exists r' X, ReadAllChunked caps r max = (r', X)
    /\ (zlen body <= max ->
          match v with
          | Done rest => X = Ok body /\ flat r' = rest
          | Broken e => X = if decide (e = IoEOF) then Ok body else Err e
          end)
    /\ (max < zlen body ->
          X = Err ErrBodyTooLarge \/ X = Err ErrChunkBoundaryError /\ v = Broken ErrChunkBoundaryError /\ zlen body = max + 1).
Proof. apply ReadAll_spec. Qed.

(** C35: unless the connection ends in EOF before a complete message has arrived,
    [ReadAllChunked] with a limit below 2^63 - 1 returns a body exactly when the
    input starts with a well-formed chunked message of that body within the limit:
    sizes that are hexadecimal and right, CR LF behind every line and chunk, valid
    extensions, at most 64 valid trailers and none that frames or routes; and it
    consumes exactly that message.  What it does with a message that is cut short by
    EOF is [chunked_truncation_accepted]. *)
Theorem chunked_accepts_exactly caps r max body rest :
  conn_ok r -> bytes_ok (flat r) -> (forall k, 0 < caps k) -> 0 <= max < 2 ^ 63 - 1 ->
  (buf_end r = IoEOF -> exists m after, message_wf (b_size r) m /\ flat r = render m ++ after) ->
  (exists r', ReadAllChunked caps r max = (r', Ok body) /\ flat r' = rest)
  <-> exists m, message_wf (b_size r) m /\ flat r = render m ++ rest /\ body = m_body m /\ zlen body <= max.
Proof.
  intros Hr Hb Hcaps Hmax He. pose proof (ReadAll_spec caps r max Hr Hb Hcaps Hmax) as HS. pose proof (bo_size _ (proj1 Hr)) as Hsize. split.
  - intros (r' & Ex & Hrest). destruct (decode _ _ _) as [b v] eqn:Ed. destruct HS as (r'' & X & E & H1 & H2). rewrite E in Ex. injection Ex as -> ->.
    destruct (Z_lt_le_dec max (zlen b)) as [Hlt|Hle]; [destruct (H2 Hlt) as [?|[? _]]; done|]. specialize (H1 Hle). destruct v as [rest'|e].
    + destruct H1 as [[= ->] <-]. destruct (decode_sound _ _ (length (flat r)) _ _ _ (Nat.le_refl _) Hb Ed) as (m & Hm & EF & ->). exists m. by subst rest.
    + case_decide; [|done]. subst e. pose proof (decode_eof _ _ (length (flat r)) _ _ (Nat.le_refl _) Hb Ed) as Hend.
      destruct (He Hend) as ([cs last ts] & after & Hm & EF). rewrite EF in Ed, Hb. rewrite decode_render in Ed by (done || lia). done.
  - intros ([cs last ts] & Hm & EF & -> & Hl). pose proof Hb as Hb'. rewrite EF in HS, Hb'. rewrite decode_render in HS by (done || lia).
    destruct HS as (r' & X & E & H1 & _). destruct (H1 Hl) as [-> <-]. by exists r'.
Qed.


(** Defect: when the connection is closed inside a chunk, what has arrived of the body
    is returned as if it were the whole. *)
Theorem chunked_truncation_accepted caps r max cs h n part :
  conn_ok r -> bytes_ok (flat r) -> (forall k, 0 < caps k) -> 0 <= max < 2 ^ 63 - 1 -> buf_end r = IoEOF ->
  Forall (fun c => head_wf (b_size r) (zlen (snd c)) (fst c) /\ snd c <> []) cs -> head_wf (b_size r) n h -> zlen part < n ->
  flat r = concat (map render_chunk cs) ++ render_head h ++ hdrCRLF ++ part -> zlen (concat (map snd cs) ++ part) <= max ->
  exists r', ReadAllChunked caps r max = (r', Ok (concat (map snd cs) ++ part)).
Proof.
  intros Hr Hb Hcaps Hmax He Hcs Hh Hp EF Hl. pose proof (ReadAll_spec caps r max Hr Hb Hcaps Hmax) as HS. rewrite EF in HS, Hb.
  rewrite (decode_truncated _ _ cs h n part) in HS by done. destruct HS as (r' & X & E & H1 & _). specialize (H1 Hl). rewrite decide_True in H1 by done. subst X. by exists r'.
Qed.

(** Defect: with the largest limit the limit of the reader underneath wraps around,
    and every body is empty; not even its first byte is read. *)
Theorem largest_limit_loses_body caps r : ReadAllChunked caps r (2 ^ 63 - 1) = (r, Ok []).
Proof. unfold ReadAllChunked. rewrite Nat.add_1_r. cbn [ReadFrom]. reflexivity. Qed.
End Refine.

(** [validateChunkExtensions] accepts exactly the extensions of RFC 9112 7.1.1:
    any number of semicolons, each with a name that is a token and perhaps a value
    that is a token or a quoted string, with optional white space around. *)
Theorem chunk_extensions_exact ext :
  bytes_ok ext ->
  (validateChunkExtensions ext = Ok tt <-> exists l, Forall ext_wf l /\ ext = render_exts l)
  /\ (validateChunkExtensions ext <> Ok tt -> validateChunkExtensions ext = Err ErrInvalidChunkSize).
Proof.
  intros Hb. unfold validateChunkExtensions. pose proof (validate_split (length ext) ext Hb ltac:(lia)) as Hv. split; [split|].
  - intros E. by rewrite E in Hv.
  - intros (l & Hl & ->). by apply validate_app.
  - destruct (validate_loop _ _) as [[]|e|]; [done|by subst|done].
Qed.

(** ** Runs *)
#[local] Existing Instance plain_silicon.
#[local] Existing Instance plain_laws.
Definition over (e : h1_error) (ps : list bytes) : bufreader := mkBuf 4096 [] (mkSource ps e) None.
Definition crlf_lines (ls : list string) : bytes := concat (map (fun l => bytes_of_string l ++ hdrCRLF) ls).
Definition threes : nat -> Z := fun _ => 3.
Definition hello : bytes := bytes_of_string "hello".

(** A message with extensions and trailers, one byte at a time, and the next request. *)
Definition rich_message : bytes :=
  crlf_lines ["5;ext=foo"; "hello"; "0A ;a; b = c"; "0123456789"; "0;terminal"; "Foo: 1"; "Bar: 2"; ""; "GET / HTTP/1.1"]%string.
Definition rich_reader : bufreader := over (NetError 1) (map (fun c => [c]) rich_message).
Example rich_run :
  (let '(r, X) := ReadAllChunked threes rich_reader 100 in (flat r, X)) = (crlf_lines ["GET / HTTP/1.1"]%string, Ok (bytes_of_string "hello0123456789")).
Proof. vm_compute. reflexivity. Qed.
Example forbidden_trailer_refused :
  snd (ReadAllChunked threes (over IoEOF [crlf_lines ["0"; "Content-Length: 5"; ""]%string]) 100) = Err ErrForbiddenTrailer.
Proof. vm_compute. reflexivity. Qed.
Example size_overflow_refused :
  snd (ReadAllChunked threes (over IoEOF [crlf_lines ["7fffffffffffffff0"; "hello"; "0"; ""]%string]) 100) = Err (Wrapped ErrInvalidChunkSize ErrInvalidChunkSize).
Proof. vm_compute. reflexivity. Qed.
(** The same loss inside a body and between chunks is reported differently from a loss
    in the trailers. *)
Example truncations :
  map (fun F => snd (ReadAllChunked threes (over IoEOF [F]) 100))
    [crlf_lines ["5"]%string ++ bytes_of_string "hel"; crlf_lines ["5"; "hello"]%string; crlf_lines ["5"; "hello"; "0"]%string]
  = [Ok (bytes_of_string "hel"); Ok hello; Err IoUnexpectedEOF].
Proof. vm_compute. reflexivity. Qed.

Lemma over_conn e ps : (e = IoEOF \/ exists code, e = NetError code) -> Forall (fun p => p <> []) ps -> conn_ok (over e ps).
Proof. intros He Hp. split; [by split|done]. Qed.
Lemma rich_conn : conn_ok rich_reader /\ bytes_ok (flat rich_reader).
Proof.
  split; [apply over_conn; [right; by exists 1|]|apply (bool_decide_unpack _); vm_compute; exact I].
  apply Forall_map, List.Forall_forall. by intros x _.
Qed.
Lemma chunked_any_split_witness :
  decode 4096 (NetError 1) rich_message = (bytes_of_string "hello0123456789", Done (crlf_lines ["GET / HTTP/1.1"]%string))
  /\ exists r' X, ReadAllChunked threes rich_reader 100 = (r', X) /\ X = Ok (bytes_of_string "hello0123456789").
Proof.
  split; [vm_compute; reflexivity|]. pose proof (chunked_any_split threes rich_reader 100 (proj1 rich_conn) (proj2 rich_conn) ltac:(done) ltac:(lia)) as HS.
  replace (decode (b_size rich_reader) (buf_end rich_reader) (flat rich_reader)) with (bytes_of_string "hello0123456789", Done (crlf_lines ["GET / HTTP/1.1"]%string)) in HS by (vm_compute; reflexivity).
  destruct HS as (r' & X & E & H1 & _). exists r', X. split; [exact E|]. apply H1. vm_compute. discriminate.
Defined.
Lemma chunked_accepts_exactly_witness :
  exists m, message_wf 4096 m /\ rich_message = render m ++ crlf_lines ["GET / HTTP/1.1"]%string /\ bytes_of_string "hello0123456789" = m_body m /\ 15 <= 100.
Proof.
  apply (chunked_accepts_exactly threes rich_reader 100 (bytes_of_string "hello0123456789") (crlf_lines ["GET / HTTP/1.1"]%string) (proj1 rich_conn) (proj2 rich_conn)); [done|lia|discriminate|].
  eexists. split; vm_compute; reflexivity.
Defined.
Definition sample_writes : list (bytes * option h1_error) := [(bytes_of_string "Hello, ", None); ([], None); (bytes_of_string "World!", Some (NetError 7))].
Definition sample_written : bytes := fst (Close (write_all sample_writes []) None) ++ [71; 69; 84].
Lemma chunk_extensions_exact_witness : exists l, Forall ext_wf l /\ bytes_of_string ";a; b = c" = render_exts l.
Proof. apply (chunk_extensions_exact (bytes_of_string ";a; b = c")); [apply (bool_decide_unpack _); vm_compute; exact I|vm_compute; reflexivity]. Defined.
