(* ===== verification/UriArgs.v ===== *)
(** * Query arguments

    Models [src/proto/semantic/uri]: [args.go], [args_decode.go], [escape.go] and the
    integers of [num.go]; and the copies of the two decoders in
    [src/proto/h1/vector.go].

    [Args] is a slice of key-value slots that is reused: behind its length are slots
    of earlier use with their old contents, and slots of fresh memory that have never
    been used.  The model keeps the slots, so that what an operation finds in a
    recycled slot is in view, and takes the growth of a slice as an argument.

    The theorems: the four decoders, written as searches for the next special
    character, are one simple function; encoding and decoding are inverse; the
    operations on recycled slots implement operations on a list of pairs; and a query
    string that is parsed gives the arguments it was made of. *)

From Stdlib Require Import Ascii String.
From S2P Require Import Prelude Intern H1Base.
Open Scope Z_scope.

(** ** Escaping: [escape.go] *)
Definition upperhex (d : Z) : Z := znth (bytes_of_string "0123456789ABCDEF") d.
Definition quotedArgShouldEscapeTable : bytes :=
  [1; 1; 1; 1; 1; 1; 1; 1; 1; 1; 1; 1; 1; 1; 1; 1; 1; 1; 1; 1; 1; 1; 1; 1; 1; 1; 1; 1; 1; 1; 1; 1;
   1; 1; 1; 1; 1; 1; 1; 1; 1; 1; 1; 1; 1; 0; 0; 1; 0; 0; 0; 0; 0; 0; 0; 0; 0; 0; 1; 1; 1; 1; 1; 1;
   1; 0; 0; 0; 0; 0; 0; 0; 0; 0; 0; 0; 0; 0; 0; 0; 0; 0; 0; 0; 0; 0; 0; 0; 0; 0; 0; 1; 1; 1; 1; 0;
   1; 0; 0; 0; 0; 0; 0; 0; 0; 0; 0; 0; 0; 0; 0; 0; 0; 0; 0; 0; 0; 0; 0; 0; 0; 0; 0; 1; 1; 1; 0; 1;
   1; 1; 1; 1; 1; 1; 1; 1; 1; 1; 1; 1; 1; 1; 1; 1; 1; 1; 1; 1; 1; 1; 1; 1; 1; 1; 1; 1; 1; 1; 1; 1;
   1; 1; 1; 1; 1; 1; 1; 1; 1; 1; 1; 1; 1; 1; 1; 1; 1; 1; 1; 1; 1; 1; 1; 1; 1; 1; 1; 1; 1; 1; 1; 1;
   1; 1; 1; 1; 1; 1; 1; 1; 1; 1; 1; 1; 1; 1; 1; 1; 1; 1; 1; 1; 1; 1; 1; 1; 1; 1; 1; 1; 1; 1; 1; 1;
   1; 1; 1; 1; 1; 1; 1; 1; 1; 1; 1; 1; 1; 1; 1; 1; 1; 1; 1; 1; 1; 1; 1; 1; 1; 1; 1; 1; 1; 1; 1; 1].
Definition quotedPathShouldEscapeTable : bytes :=
  [1; 1; 1; 1; 1; 1; 1; 1; 1; 1; 1; 1; 1; 1; 1; 1; 1; 1; 1; 1; 1; 1; 1; 1; 1; 1; 1; 1; 1; 1; 1; 1;
   1; 1; 1; 1; 0; 1; 0; 1; 1; 1; 1; 0; 0; 0; 0; 0; 0; 0; 0; 0; 0; 0; 0; 0; 0; 0; 0; 0; 1; 0; 1; 1;
   0; 0; 0; 0; 0; 0; 0; 0; 0; 0; 0; 0; 0; 0; 0; 0; 0; 0; 0; 0; 0; 0; 0; 0; 0; 0; 0; 1; 1; 1; 1; 0;
   1; 0; 0; 0; 0; 0; 0; 0; 0; 0; 0; 0; 0; 0; 0; 0; 0; 0; 0; 0; 0; 0; 0; 0; 0; 0; 0; 1; 1; 1; 0; 1;
   1; 1; 1; 1; 1; 1; 1; 1; 1; 1; 1; 1; 1; 1; 1; 1; 1; 1; 1; 1; 1; 1; 1; 1; 1; 1; 1; 1; 1; 1; 1; 1;
   1; 1; 1; 1; 1; 1; 1; 1; 1; 1; 1; 1; 1; 1; 1; 1; 1; 1; 1; 1; 1; 1; 1; 1; 1; 1; 1; 1; 1; 1; 1; 1;
   1; 1; 1; 1; 1; 1; 1; 1; 1; 1; 1; 1; 1; 1; 1; 1; 1; 1; 1; 1; 1; 1; 1; 1; 1; 1; 1; 1; 1; 1; 1; 1;
   1; 1; 1; 1; 1; 1; 1; 1; 1; 1; 1; 1; 1; 1; 1; 1; 1; 1; 1; 1; 1; 1; 1; 1; 1; 1; 1; 1; 1; 1; 1; 1].

Definition escaped (c : Z) : bytes := [37; upperhex (Z.shiftr c 4); upperhex (Z.land c 15)].
Fixpoint AppendQuotedArg (dst src : bytes) : bytes :=
  match src with
  | [] => dst
  | c :: src' =>
      AppendQuotedArg
        (if c =? 32 then dst ++ [43]
         else if negb (znth quotedArgShouldEscapeTable c =? 0) then dst ++ escaped c
         else dst ++ [c]) src'
  end.
Fixpoint quoted_path_loop (dst src : bytes) : bytes :=
  match src with
  | [] => dst
  | c :: src' =>
      quoted_path_loop (if negb (znth quotedPathShouldEscapeTable c =? 0) then dst ++ escaped c else dst ++ [c]) src'
  end.
Definition AppendQuotedPath (dst src : bytes) : bytes :=
  if (zlen src =? 1) && (znth src 0 =? 42) then dst ++ [42] else quoted_path_loop dst src.

Section Decoders.
Context `{Silicon}.

(** ** Decoding: [args_decode.go]

    [rem] is [src[i:]]; running out of fuel or an index out of range is a panic. *)
Fixpoint decode_arg_loop (fuel : nat) (dst rem : bytes) : res h1_error bytes :=
  match rem with
  | [] => Ok dst
  | _ :: _ =>
      match fuel with
      | O => Panic
      | S fuel' =>
          let next := IndexTwoBytesVector rem 37 43 in
          if next <? 0 then Ok (dst ++ rem)
          else
            let '(dst, rem) := if next >? 0 then (dst ++ ztake next rem, zdrop next rem) else (dst, rem) in
            match rem with
            | [] => Panic
            | c :: rem1 =>
                if c =? 43 then decode_arg_loop fuel' (dst ++ [32]) rem1
                else if zlen rem <=? 2 then Ok (dst ++ rem)
                else match FromHexChar (znth rem 1) with
                     | None => decode_arg_loop fuel' (dst ++ [37]) rem1
                     | Some h1 =>
                         match FromHexChar (znth rem 2) with
                         | None => decode_arg_loop fuel' (dst ++ [37]) rem1
                         | Some h2 => decode_arg_loop fuel' (dst ++ [Z.lor (Z.shiftl h1 4) h2]) (zdrop 3 rem)
                         end
                     end
            end
      end
  end.
Definition DecodeArgAppend (dst src : bytes) : res h1_error bytes :=
  if zlen src =? 0 then Ok dst
  else
    let idx := IndexTwoBytesVector src 37 43 in
    if idx <? 0 then Ok (dst ++ src)
    else decode_arg_loop (length src) (dst ++ ztake idx src) (zdrop idx src).

Fixpoint decode_noplus_loop (fuel : nat) (dst rem : bytes) : res h1_error bytes :=
  match rem with
  | [] => Ok dst
  | _ :: _ =>
      match fuel with
      | O => Panic
      | S fuel' =>
          let next := IndexByteVector rem 37 in
          if next <? 0 then Ok (dst ++ rem)
          else
            let '(dst, rem) := if next >? 0 then (dst ++ ztake next rem, zdrop next rem) else (dst, rem) in
            if zlen rem <=? 2 then Ok (dst ++ rem)
            else match FromHexChar (znth rem 1) with
                 | None => decode_noplus_loop fuel' (dst ++ [37]) (zdrop 1 rem)
                 | Some h1 =>
                     match FromHexChar (znth rem 2) with
                     | None => decode_noplus_loop fuel' (dst ++ [37]) (zdrop 1 rem)
                     | Some h2 => decode_noplus_loop fuel' (dst ++ [Z.lor (Z.shiftl h1 4) h2]) (zdrop 3 rem)
                     end
                 end
      end
  end.
Definition DecodeArgAppendNoPlus (dst src : bytes) : res h1_error bytes :=
  if zlen src =? 0 then Ok dst
  else
    let idx := IndexByteVector src 37 in
    if idx <? 0 then Ok (dst ++ src)
    else decode_noplus_loop (length src) (dst ++ ztake idx src) (zdrop idx src).

(** The copies of [vector.go], which look at both digits at once. *)
Fixpoint h1_decode_arg_loop (fuel : nat) (dst rem : bytes) : res h1_error bytes :=
  match rem with
  | [] => Ok dst
  | _ :: _ =>
      match fuel with
      | O => Panic
      | S fuel' =>
          let next := IndexTwoBytesVector rem 37 43 in
          if next <? 0 then Ok (dst ++ rem)
          else
            let '(dst, rem) := if next >? 0 then (dst ++ ztake next rem, zdrop next rem) else (dst, rem) in
            match rem with
            | [] => Panic
            | c :: rem1 =>
                if c =? 43 then h1_decode_arg_loop fuel' (dst ++ [32]) rem1
                else if zlen rem <=? 2 then Ok (dst ++ rem)
                else match FromHexChar (znth rem 1), FromHexChar (znth rem 2) with
                     | Some h1, Some h2 => h1_decode_arg_loop fuel' (dst ++ [Z.lor (Z.shiftl h1 4) h2]) (zdrop 3 rem)
                     | _, _ => h1_decode_arg_loop fuel' (dst ++ [37]) rem1
                     end
            end
      end
  end.
Definition h1_DecodeArgAppend (dst src : bytes) : res h1_error bytes :=
  if zlen src =? 0 then Ok dst
  else
    let idx := IndexTwoBytesVector src 37 43 in
    if idx <? 0 then Ok (dst ++ src)
    else h1_decode_arg_loop (length src) (dst ++ ztake idx src) (zdrop idx src).

Fixpoint h1_decode_noplus_loop (fuel : nat) (dst rem : bytes) : res h1_error bytes :=
  match rem with
  | [] => Ok dst
  | _ :: _ =>
      match fuel with
      | O => Panic
      | S fuel' =>
          let next := IndexByteVector rem 37 in
          if next <? 0 then Ok (dst ++ rem)
          else
            let '(dst, rem) := if next >? 0 then (dst ++ ztake next rem, zdrop next rem) else (dst, rem) in
            if zlen rem <=? 2 then Ok (dst ++ rem)
            else match FromHexChar (znth rem 1), FromHexChar (znth rem 2) with
                 | Some h1, Some h2 => h1_decode_noplus_loop fuel' (dst ++ [Z.lor (Z.shiftl h1 4) h2]) (zdrop 3 rem)
                 | _, _ => h1_decode_noplus_loop fuel' (dst ++ [37]) (zdrop 1 rem)
                 end
      end
  end.
Definition h1_DecodeArgAppendNoPlus (dst src : bytes) : res h1_error bytes :=
  if zlen src =? 0 then Ok dst
  else
    let idx := IndexByteVector src 37 in
    if idx <? 0 then Ok (dst ++ src)
    else h1_decode_noplus_loop (length src) (dst ++ ztake idx src) (zdrop idx src).
Definition AppendUnquotedArg (dst src : bytes) : res h1_error bytes := DecodeArgAppend dst src.
End Decoders.

(** ** The reference decoder *)
Fixpoint pct_decode (plus : bool) (b : bytes) : bytes :=
  match b with
  | [] => []
  | c :: b' =>
      if plus && (c =? 43) then 32 :: pct_decode plus b'
      else if c =? 37 then
        match b' with
        | h :: l :: b'' =>
            match hex_value h, hex_value l with
            | Some x, Some y => (16 * x + y) :: pct_decode plus b''
            | _, _ => 37 :: pct_decode plus b'
            end
        | _ => b
        end
      else c :: pct_decode plus b'
  end.

Definition special (plus : bool) (c : Z) : bool := (plus && (c =? 43)) || (c =? 37).
Lemma pct_plain plus x y : Forall (fun c => special plus c = false) x -> pct_decode plus (x ++ y) = x ++ pct_decode plus y.
Proof.
  induction 1 as [|c x Hc Hx IH]; [done|]. unfold special in Hc. apply orb_false_iff in Hc as [H1 H2]. cbn [app pct_decode]. rewrite H1, H2. by rewrite IH.
Qed.
Lemma pct_none plus x : Forall (fun c => special plus c = false) x -> pct_decode plus x = x.
Proof. intros Hx. rewrite <- (app_nil_r x) at 1. rewrite pct_plain by done. apply app_nil_r. Qed.
Lemma hex_value_range c x : hex_value c = Some x -> 0 <= x < 16.
Proof. unfold hex_value. repeat case_test; intros E; simplify_eq; lia. Qed.
(** An escape, as the loops look at it. *)
Lemma pct_percent plus y :
  pct_decode plus (37 :: y) =
    if zlen (37 :: y) <=? 2 then 37 :: y
    else match hex_value (znth (37 :: y) 1), hex_value (znth (37 :: y) 2) with
         | Some h1, Some h2 => Z.lor (Z.shiftl h1 4) h2 :: pct_decode plus (zdrop 3 (37 :: y))
         | _, _ => 37 :: pct_decode plus y
         end.
Proof.
  cbn [pct_decode]. replace (plus && (37 =? 43)) with false by (by destruct plus). change (37 =? 37) with true. cbn iota.
  destruct y as [|a [|b y]]; [done|done|]. rewrite !zlen_cons. pose proof (zlen_nonneg y). destruct (1 + (1 + (1 + zlen y)) <=? 2) eqn:E; bool_simpl; [lia|].
  change (znth (37 :: a :: b :: y) 1) with a. change (znth (37 :: a :: b :: y) 2) with b. change (zdrop 3 (37 :: a :: b :: y)) with y.
  destruct (hex_value a) as [x|] eqn:Ea; [|done]. destruct (hex_value b) as [z|] eqn:Eb; [|done].
  apply hex_value_range in Ea. apply hex_value_range in Eb. rewrite lor_shiftl by lia. f_equal. lia.
Qed.

Section DecoderProofs.
Context {S0 : Silicon} {L : SiliconLaws}.
(** The search for the next special character. *)
Lemma next_special plus find rem :
  (forall b, find b = index_where (special plus) b) ->
  (find rem < 0 /\ pct_decode plus rem = rem)
  \/ (exists x c y, rem = x ++ c :: y /\ find rem = zlen x /\ special plus c = true /\ Forall (fun c => special plus c = false) x).
Proof.
  intros Hf. rewrite Hf. pose proof (index_where_range (special plus) rem). destruct (Z_lt_le_dec (index_where (special plus) rem) 0) as [Hlt|Hge].
  - left. split; [done|]. apply pct_none. by apply index_where_none.
  - right. destruct (index_where_split _ _ Hge) as (x & c & y & -> & Hc & Hx & Hl). by exists x, c, y.
Qed.
Lemma find_two b : IndexTwoBytesVector b 37 43 = index_where (special true) b.
Proof. rewrite index_two_law. induction b as [|c b IH]; cbn [index_where]; [done|]. unfold special at 1. cbn [andb]. by rewrite (orb_comm (c =? 43)), IH. Qed.
Lemma find_one b : IndexByteVector b 37 = index_where (special false) b.
Proof. by rewrite index_byte_law. Qed.

(** The slice before and behind the character found. *)
Lemma skip_to {A} (x : list A) (c : A) (y : list A) (dst : list A) :
  (if zlen x >? 0 then (dst ++ ztake (zlen x) (x ++ c :: y), zdrop (zlen x) (x ++ c :: y)) else (dst, x ++ c :: y)) = (dst ++ x, c :: y).
Proof.
  rewrite ztake_app, zdrop_app. destruct (zlen x >? 0) eqn:E; bool_simpl; [done|]. pose proof (zlen_nonneg x). assert (x = []) as -> by (apply zlen_zero; lia). by rewrite app_nil_r.
Qed.
(** One pass of a loop over [rem] with the search [find]; [IH] is for the rest. *)
Ltac decoder_pass plus find IH rem Hf :=
  let x := fresh "x" in let c := fresh "c" in let y := fresh "y" in let E := fresh "E" in let Hn := fresh "Hn" in let Hc := fresh "Hc" in let Hx := fresh "Hx" in
  let Hz := fresh "Hz" in
  destruct (next_special plus _ rem find) as [[Hn E]|(x & c & y & E & Hn & Hc & Hx)];
  [ rewrite E; rewrite (proj2 (Z.ltb_lt _ 0) Hn); done
  | rewrite Hn; pose proof (zlen_nonneg x) as Hz; rewrite (proj2 (Z.ltb_ge (zlen x) 0) Hz); rewrite E in *; rewrite skip_to, pct_plain by done;
    rewrite length_app in Hf; cbn [length] in Hf; unfold special in Hc; cbn [andb orb] in Hc;
    lazymatch plus with
    | true => destruct (c =? 43) eqn:?; bool_simpl; [rewrite IH by lia; subst; cbn [pct_decode]; by rewrite <- !app_assoc|cbn [orb] in Hc]
    | false => idtac
    end;
    assert (c = 37) by lia; subst c; rewrite pct_percent, !from_hex_law; destruct (zlen (37 :: y) <=? 2); [by rewrite <- app_assoc|];
    assert (length (zdrop 3 (37%Z :: y)) <= length y)%nat by (unfold zdrop; rewrite length_drop; cbn; lia); change (zdrop 1 (37 :: y)) with y;
    destruct (hex_value (znth (37 :: y) 1)); [destruct (hex_value (znth (37 :: y) 2))|]; rewrite IH by lia; by rewrite <- !app_assoc ].
Tactic Notation "decoder_loop" reference(loop) constr(plus) constr(find) :=
  let fuel := fresh "fuel" in let IH := fresh "IH" in let dst := fresh "dst" in let r := fresh "r" in let rem := fresh "rem" in let Hf := fresh "Hf" in
  intros fuel; induction fuel as [|fuel IH]; intros dst [|r rem] Hf; cbn [loop]; rewrite ?app_nil_r; try done; [cbn in Hf; lia|]; decoder_pass plus find IH (r :: rem) Hf.

Lemma decode_arg_loop_spec : forall fuel dst rem, (length rem <= fuel)%nat -> decode_arg_loop fuel dst rem = Ok (dst ++ pct_decode true rem).
Proof. decoder_loop decode_arg_loop true find_two. Qed.
Lemma decode_noplus_loop_spec : forall fuel dst rem, (length rem <= fuel)%nat -> decode_noplus_loop fuel dst rem = Ok (dst ++ pct_decode false rem).
Proof. decoder_loop decode_noplus_loop false find_one. Qed.
Lemma h1_decode_arg_loop_spec : forall fuel dst rem, (length rem <= fuel)%nat -> h1_decode_arg_loop fuel dst rem = Ok (dst ++ pct_decode true rem).
Proof. decoder_loop h1_decode_arg_loop true find_two. Qed.
Lemma h1_decode_noplus_loop_spec : forall fuel dst rem, (length rem <= fuel)%nat -> h1_decode_noplus_loop fuel dst rem = Ok (dst ++ pct_decode false rem).
Proof. decoder_loop h1_decode_noplus_loop false find_one. Qed.

(** The part before the loops. *)
Lemma decoder_entry plus find loop dst src :
  (forall b, find b = index_where (special plus) b) -> (forall fuel dst rem, (length rem <= fuel)%nat -> loop fuel dst rem = Ok (dst ++ pct_decode plus rem)) ->
  (if zlen src =? 0 then Ok dst else if find src <? 0 then Ok (dst ++ src) else loop (length src) (dst ++ ztake (find src) src) (zdrop (find src) src))
  = @Ok h1_error bytes (dst ++ pct_decode plus src).
Proof.
  intros Hf Hl. destruct (zlen src =? 0) eqn:Ez; bool_simpl; [apply zlen_zero in Ez; subst; by rewrite app_nil_r|].
  destruct (next_special plus find src Hf) as [[Hn E]|(x & c & y & E & Hn & _ & Hx)].
  - rewrite E. by test_true (find src <? 0).
  - rewrite Hn. pose proof (zlen_nonneg x). test_false (zlen x <? 0). rewrite E, ztake_app, zdrop_app. rewrite Hl by (rewrite length_app; lia).
    rewrite pct_plain by done. by rewrite <- app_assoc.
Qed.

Lemma DecodeArgAppend_spec dst src : DecodeArgAppend dst src = Ok (dst ++ pct_decode true src).
Proof. apply (decoder_entry true (fun b => IndexTwoBytesVector b 37 43)); [apply find_two|apply decode_arg_loop_spec]. Qed.
Lemma DecodeArgAppendNoPlus_spec dst src : DecodeArgAppendNoPlus dst src = Ok (dst ++ pct_decode false src).
Proof. apply (decoder_entry false (fun b => IndexByteVector b 37)); [apply find_one|apply decode_noplus_loop_spec]. Qed.

(** The four decoders of query arguments, two of each package, are the plain
    left-to-right decoder with and without plus signs; they never panic. *)
Theorem decoders_exact dst src :
  DecodeArgAppend dst src = Ok (dst ++ pct_decode true src)
  /\ h1_DecodeArgAppend dst src = Ok (dst ++ pct_decode true src)
  /\ DecodeArgAppendNoPlus dst src = Ok (dst ++ pct_decode false src)
  /\ h1_DecodeArgAppendNoPlus dst src = Ok (dst ++ pct_decode false src).
Proof.
  split; [|split; [|split]]; [apply DecodeArgAppend_spec| |apply DecodeArgAppendNoPlus_spec|].
  - apply (decoder_entry true (fun b => IndexTwoBytesVector b 37 43)); [apply find_two|apply h1_decode_arg_loop_spec].
  - apply (decoder_entry false (fun b => IndexByteVector b 37)); [apply find_one|apply h1_decode_noplus_loop_spec].
Qed.
End DecoderProofs.

(** ** Arguments: [args.go]

    [None] is a nil slice.  [refill x y] is [append(x[:0], y...)], which leaves a nil
    slice nil when there is nothing to append. *)
#[projections(primitive)]
Record ArgsKV := mkKV { Key : option bytes; Value : option bytes; NoValue : bool }.
Definition zero_kv : ArgsKV := mkKV None None false.
Definition refill (x : option bytes) (y : bytes) : option bytes :=
  match x, y with None, [] => None | _, _ => Some y end.
Definition contents (x : option bytes) : bytes := default [] x.

(** A slice of slots: the memory up to its capacity, and its length. *)
#[projections(primitive)]
Record kv_slice := mkSlots { slots : list ArgsKV; used : nat }.
#[projections(primitive)]
Record Args := mkArgs { args : kv_slice; args_buf : bytes }.

Definition Reset (a : Args) : Args := mkArgs { args a with used := 0%nat } [].
Definition Len (a : Args) : Z := Z.of_nat (used (args a)).
Definition kv_at (h : kv_slice) (i : nat) : ArgsKV := nth i (slots h) zero_kv.
Definition kv_set (h : kv_slice) (i : nat) (kv : ArgsKV) : kv_slice := { h with slots := <[i := kv]> (slots h) }.

(** [grow n] is how many spare slots [append] leaves when it reallocates. *)
Section Args.
Context `{Silicon} (grow : nat -> nat).

(** [AllocArg]; the new element is at the old length. *)
Definition AllocArg (h : kv_slice) : kv_slice :=
  if (used h <? length (slots h))%nat then { h with used := S (used h) }
  else mkSlots (slots h ++ mkKV None (Some []) false :: repeat zero_kv (grow (used h))) (S (used h)).
(** [ReleaseArg] of an empty slice panics. *)
Definition ReleaseArg (h : kv_slice) : res h1_error kv_slice :=
  match used h with O => Panic | S n => Ok { h with used := n } end.

Definition fill_kv (kv : ArgsKV) (key value : bytes) (noValue : bool) : ArgsKV :=
  mkKV (refill (Key kv) key) (if noValue then refill (Value kv) [] else refill (Value kv) value) noValue.
Definition AppendArg (h : kv_slice) (key value : bytes) (noValue : bool) : kv_slice :=
  let h' := AllocArg h in kv_set h' (used h) (fill_kv (kv_at h' (used h)) key value noValue).

(** The search that the accessors share: the first slot in use with this key. *)
Fixpoint find_key (l : list ArgsKV) (key : bytes) : option nat :=
  match l with
  | [] => None
  | kv :: l' => if decide (contents (Key kv) = key) then Some O else S <$> find_key l' key
  end.
Definition in_use (h : kv_slice) : list ArgsKV := take (used h) (slots h).
Definition SetArg (h : kv_slice) (key value : bytes) (noValue : bool) : kv_slice :=
  match find_key (in_use h) key with
  | Some i =>
      let kv := kv_at h i in
      kv_set h i (mkKV (Key kv) (if noValue then refill (Value kv) [] else refill (Value kv) value) noValue)
  | None => AppendArg h key value noValue
  end.
Definition HasArg (h : kv_slice) (key : bytes) : bool := match find_key (in_use h) key with Some _ => true | None => false end.
Definition PeekArg (h : kv_slice) (key : bytes) : option bytes :=
  match find_key (in_use h) key with Some i => Value (kv_at h i) | None => None end.
(** [generic.From(val, val != nil)]. *)
Definition PeekOptional (h : kv_slice) (key : bytes) : option bytes := PeekArg h key.
Definition PeekMulti (h : kv_slice) (key : bytes) : list (option bytes) :=
  map Value (List.filter (fun kv => bool_decide (contents (Key kv) = key)) (in_use h)).

(** [DelAllArgsStable]: each deletion shifts the rest and puts the slot at the end. *)
Fixpoint del_stable_loop (fuel : nat) (h : kv_slice) (i : nat) (key : bytes) : kv_slice :=
  match fuel with
  | O => h
  | S fuel' =>
      if (i <? used h)%nat then
        let kv := kv_at h i in
        if decide (contents (Key kv) = key) then
          del_stable_loop fuel'
            (mkSlots (take i (slots h) ++ drop (S i) (in_use h) ++ kv :: drop (used h) (slots h)) (pred (used h))) i key
        else del_stable_loop fuel' h (S i) key
      else h
  end.
Definition DelAllArgsStable (h : kv_slice) (key : bytes) : kv_slice := del_stable_loop (S (used h)) h 0 key.

(** [DelAllArgs]: the last slot takes the place of the deleted one. *)
Fixpoint del_swap_loop (fuel : nat) (sl : list ArgsKV) (n i : nat) (key : bytes) : kv_slice :=
  match fuel with
  | O => mkSlots sl n
  | S fuel' =>
      if (i <? n)%nat then
        if decide (contents (Key (nth i sl zero_kv)) = key) then
          del_swap_loop fuel' (<[i := nth (pred n) sl zero_kv]> (<[pred n := nth i sl zero_kv]> sl)) (pred n) i key
        else del_swap_loop fuel' sl n (S i) key
      else mkSlots sl n
  end.
Definition DelAllArgs (h : kv_slice) (key : bytes) : kv_slice := del_swap_loop (S (used h)) (slots h) (used h) 0 key.

(** [CopyArgs]. *)
Fixpoint copy_kvs (dst src : list ArgsKV) : list ArgsKV :=
  match src, dst with
  | [], _ => dst
  | s :: src', d :: dst' => fill_kv d (contents (Key s)) (contents (Value s)) (NoValue s) :: copy_kvs dst' src'
  | _ :: _, [] => []
  end.
Definition CopyArgs (dst src : kv_slice) : kv_slice :=
  let dst_slots :=
    if (length (slots dst) <? used src)%nat then
      take (used dst) (slots dst) ++ map (fun kv => mkKV (Some []) (Some []) (NoValue kv)) (drop (used dst) (slots dst))
      ++ repeat (mkKV (Some []) (Some []) false) (used src - length (slots dst))
    else slots dst in
  mkSlots (copy_kvs dst_slots (in_use src)) (used src).

(** ** Parsing and printing *)

(** The scan of [argsScanner.next] over [s.b]: [i] is the position, [k] where the value
    starts once [isKey] is false. *)
Fixpoint next_loop (rest b : bytes) (i k : Z) (isKey : bool) (kv : ArgsKV) : res h1_error (ArgsKV * bytes) :=
  match rest with
  | c :: rest' =>
      if c =? 61 then
        if isKey then
          let* key := DecodeArgAppend [] (ztake i b) in
          next_loop rest' b (i + 1) (i + 1) false (mkKV (refill (Key kv) key) (Value kv) (NoValue kv))
        else next_loop rest' b (i + 1) k isKey kv
      else if c =? 38 then
        if isKey then
          let* key := DecodeArgAppend [] (ztake i b) in
          Ok (mkKV (refill (Key kv) key) (refill (Value kv) []) true, zdrop (i + 1) b)
        else
          let* s := slice b k i in
          let* value := DecodeArgAppend [] s in
          Ok (mkKV (Key kv) (refill (Value kv) value) (NoValue kv), zdrop (i + 1) b)
      else next_loop rest' b (i + 1) k isKey kv
  | [] =>
      if isKey then
        let* key := DecodeArgAppend [] b in
        Ok (mkKV (refill (Key kv) key) (refill (Value kv) []) true, [])
      else
        let* s := slice b k (zlen b) in
        let* value := DecodeArgAppend [] s in
        Ok (mkKV (Key kv) (refill (Value kv) value) (NoValue kv), [])
  end.
(** [None] when there is nothing left. *)
Definition scanner_next (b : bytes) (kv : ArgsKV) : res h1_error (option (ArgsKV * bytes)) :=
  if zlen b =? 0 then Ok None
  else let* r := next_loop b b 0 0 true (mkKV (Key kv) (Value kv) false) in Ok (Some r).

Fixpoint parse_loop (fuel : nat) (b : bytes) (h : kv_slice) : res h1_error kv_slice :=
  match fuel with
  | O => Panic
  | S fuel' =>
      let p := pred (used h) in
      let* r := scanner_next b (kv_at h p) in
      match r with
      | None => ReleaseArg h
      | Some (kv, b') =>
          let h := kv_set h p kv in
          parse_loop fuel' b'
            (if (zlen (contents (Key kv)) >? 0) || (zlen (contents (Value kv)) >? 0) then AllocArg h else h)
      end
  end.
(** [Parse]; a string is first copied to [a.buf]. *)
Definition Parse (a : Args) (src : bytes) (is_string : bool) : res h1_error Args :=
  let a := Reset a in
  let* h := parse_loop (length src + 1) src (AllocArg (args a)) in
  Ok (mkArgs h (if is_string then src else args_buf a)).

Fixpoint append_kvs (dst : bytes) (l : list ArgsKV) : bytes :=
  match l with
  | [] => dst
  | kv :: l' =>
      let dst := AppendQuotedArg dst (contents (Key kv)) in
      let dst :=
        if NoValue kv then dst
        else
          let dst := dst ++ [61] in
          if zlen (contents (Value kv)) >? 0 then AppendQuotedArg dst (contents (Value kv)) else dst in
      append_kvs (match l' with [] => dst | _ :: _ => dst ++ [38] end) l'
  end.
Definition AppendBytes (a : Args) (dst : bytes) : bytes := append_kvs dst (in_use (args a)).
Definition QueryString (a : Args) : Args * bytes := let b := AppendBytes a [] in ({ a with args_buf := b }, b).

(** ** The methods *)
Definition Del (a : Args) (key : bytes) : Args := { a with args := DelAllArgsStable (args a) key }.
Definition Add (a : Args) (key value : bytes) : Args := { a with args := AppendArg (args a) key value false }.
Definition AddNoValue (a : Args) (key : bytes) : Args := { a with args := AppendArg (args a) key [] true }.
Definition Set_ (a : Args) (key value : bytes) : Args := { a with args := SetArg (args a) key value false }.
Definition SetNoValue (a : Args) (key : bytes) : Args := { a with args := SetArg (args a) key [] true }.
Definition CopyTo (a dst : Args) : Args := { dst with args := CopyArgs (args dst) (args a) }.
End Args.

(** ** Numbers: [num.go] *)
Inductive num_error := errEmptyInt | errUnexpectedFirstChar | errUnexpectedTrailingChar | errTooLongInt.
Definition maxIntDiv10 : Z := (2 ^ 63 - 1) / 10.
Definition maxSafeIntDigits : Z := 18.
(** Value, position and error. *)
Fixpoint parseUintBuf_loop (b : bytes) (i v : Z) : Z * Z * option num_error :=
  match b with
  | [] => (v, i, None)
  | c :: b' =>
      let k := u8 (c - 48) in
      if k >? 9 then if i =? 0 then (-1, i, Some errUnexpectedFirstChar) else (v, i, None)
      else
        let vNew := i64 (10 * v + k) in
        if (i >=? maxSafeIntDigits) && ((v >? maxIntDiv10) || (vNew <? 0)) then (-1, i, Some errTooLongInt)
        else parseUintBuf_loop b' (i + 1) vNew
  end.
Definition parseUintBuf (b : bytes) : Z * Z * option num_error :=
  if zlen b =? 0 then (-1, 0, Some errEmptyInt) else parseUintBuf_loop b 0 0.
Definition parseUint (buf : bytes) : Z * option num_error :=
  let '(v, n, err) := parseUintBuf buf in
  if negb (n =? zlen buf) then (-1, Some errUnexpectedTrailingChar) else (v, err).

(** [strconv.AppendUint] in base ten. *)
Fixpoint decimal (fuel : nat) (n : Z) (acc : bytes) : bytes :=
  match fuel with
  | O => acc
  | S fuel' => let acc := 48 + n mod 10 :: acc in if n <? 10 then acc else decimal fuel' (n / 10) acc
  end.
Definition appendUint (dst : bytes) (n : Z) : res h1_error bytes := if n <? 0 then Panic else Ok (dst ++ decimal 20 n []).

Inductive args_error := ErrNoArgValue | NumError (e : num_error).
Definition GetUint (a : Args) (key : bytes) : Z * option args_error :=
  let value := contents (PeekArg (args a) key) in
  if zlen value =? 0 then (-1, Some ErrNoArgValue) else let '(v, e) := parseUint value in (v, NumError <$> e).
Definition SetUint (grow : nat -> nat) (a : Args) (key : bytes) (value : Z) : res h1_error Args :=
  let* buf := appendUint [] value in
  Ok (Set_ grow { a with args_buf := buf } key buf).
Definition GetBool (a : Args) (key : bytes) : bool :=
  bool_decide (contents (PeekArg (args a) key) ∈ map bytes_of_string ["1"; "t"; "T"; "true"; "TRUE"; "True"; "y"; "yes"; "Y"; "YES"; "Yes"]%string).

(** ** The abstract arguments: a list of pairs

    A pair is a key, a value and whether there is no value at all. *)
Definition pair_view (kv : ArgsKV) : bytes * bytes * bool := (contents (Key kv), contents (Value kv), NoValue kv).
Definition args_view (h : kv_slice) : list (bytes * bytes * bool) := map pair_view (in_use h).
Definition slots_ok (h : kv_slice) : Prop := (used h <= length (slots h))%nat.
Definition new_pair (key value : bytes) (noValue : bool) : bytes * bytes * bool := (key, if noValue then [] else value, noValue).
Fixpoint set_first (l : list (bytes * bytes * bool)) (key value : bytes) (noValue : bool) : list (bytes * bytes * bool) :=
  match l with
  | [] => [new_pair key value noValue]
  | p :: l' => if decide (p.1.1 = key) then new_pair key value noValue :: l' else p :: set_first l' key value noValue
  end.
Definition has_key (key : bytes) (p : bytes * bytes * bool) : bool := bool_decide (p.1.1 = key).
(** Every entry of the key replaced, or one added when there is none. *)
Definition replace_entries (l : list (bytes * bytes * bool)) (key value : bytes) (noValue : bool) : list (bytes * bytes * bool) :=
  if existsb (has_key key) l then map (fun p => if has_key key p then new_pair key value noValue else p) l else l ++ [new_pair key value noValue].

Lemma contents_refill x y : contents (refill x y) = y.
Proof. by destruct x, y. Qed.
Lemma fill_kv_view kv key value nv : pair_view (fill_kv kv key value nv) = new_pair key value nv.
Proof. unfold pair_view, fill_kv, new_pair. cbn. rewrite contents_refill. by destruct nv; rewrite contents_refill. Qed.
Lemma in_use_length h : slots_ok h -> length (in_use h) = used h.
Proof. intros Ho. unfold in_use. rewrite length_take. unfold slots_ok in Ho. lia. Qed.
Lemma kv_at_in_use h i : (i < used h)%nat -> slots_ok h -> in_use h !! i = Some (kv_at h i).
Proof.
  intros Hi Ho. unfold in_use, kv_at. rewrite lookup_take_lt by lia. unfold slots_ok in Ho.
  destruct (lookup_lt_is_Some_2 (slots h) i) as [x Hx]; [lia|]. rewrite Hx. f_equal. symmetry. by apply nth_lookup_Some.
Qed.
Lemma alloc_view grow h : slots_ok h -> exists kv, used (AllocArg grow h) = S (used h) /\ slots_ok (AllocArg grow h) /\ in_use (AllocArg grow h) = in_use h ++ [kv].
Proof.
  intros Ho. unfold AllocArg, slots_ok, in_use in *. destruct (used h <? length (slots h))%nat eqn:E.
  - apply Nat.ltb_lt in E. destruct (lookup_lt_is_Some_2 (slots h) (used h) E) as [kv Hkv]. exists kv. split; [done|]. split; [change (S (used h) <= length (slots h))%nat; lia|]. by apply take_S_r.
  - apply Nat.ltb_ge in E. eexists. split; [done|]. cbn [slots used]. rewrite length_app. cbn [length]. split; [lia|].
    rewrite take_app, (firstn_all2 (slots h)) by lia. rewrite (firstn_all2 (slots h)) by lia. replace (S (used h) - length (slots h))%nat with 1%nat by lia. done.
Qed.
Lemma kv_set_view h i kv : slots_ok (kv_set h i kv) <-> slots_ok h.
Proof. unfold slots_ok, kv_set. cbn. by rewrite length_insert. Qed.
Lemma kv_set_in_use h i kv : (i < used h)%nat -> in_use (kv_set h i kv) = <[i := kv]> (in_use h).
Proof. intros Hi. unfold in_use, kv_set. cbn. by rewrite take_insert_lt. Qed.

Lemma AppendArg_view grow h key value nv :
  slots_ok h -> slots_ok (AppendArg grow h key value nv) /\ args_view (AppendArg grow h key value nv) = args_view h ++ [new_pair key value nv].
Proof.
  intros Ho. destruct (alloc_view grow h Ho) as (kv & Hu & Ho' & Hi). unfold AppendArg. split; [by apply kv_set_view|].
  unfold args_view. rewrite kv_set_in_use by lia. rewrite Hi, insert_app_r_alt by (rewrite in_use_length by done; lia).
  rewrite in_use_length, Nat.sub_diag by done. rewrite map_app. cbn [map list_insert insert]. by rewrite fill_kv_view.
Qed.
Lemma find_key_spec l key :
  match find_key l key with
  | Some i => exists kv, l !! i = Some kv /\ contents (Key kv) = key
      /\ forall value nv v, contents v = (if nv : bool then [] else value) -> map pair_view (<[i := mkKV (Key kv) v nv]> l) = set_first (map pair_view l) key value nv
  | None => (forall value nv, set_first (map pair_view l) key value nv = map pair_view l ++ [new_pair key value nv]) /\ List.filter (has_key key) (map pair_view l) = []
  end.
Proof.
  induction l as [|kv l IH]; cbn [find_key map]; [done|]. case_decide as Hk.
  - exists kv. split; [done|]. split; [done|]. intros value nv v Hv. cbn [insert list_insert map set_first pair_view fst]. rewrite decide_True by done.
    f_equal. unfold pair_view, new_pair. cbn [Key Value NoValue]. by rewrite Hk, Hv.
  - destruct (find_key l key) as [i|]; cbn [fmap option_fmap option_map].
    + destruct IH as (kv' & Hl & Hk' & IH). exists kv'. split; [done|]. split; [done|]. intros value nv v Hv.
      cbn [insert list_insert map set_first pair_view fst]. rewrite decide_False by done. f_equal. by apply IH.
    + destruct IH as [IH IH']. split.
      * intros value nv. cbn [set_first pair_view fst app]. rewrite decide_False by done. f_equal. apply IH.
      * cbn [List.filter]. unfold has_key at 1. cbn [pair_view fst]. by rewrite bool_decide_eq_false_2.
Qed.
Lemma SetArg_view grow h key value nv :
  slots_ok h -> slots_ok (SetArg grow h key value nv) /\ args_view (SetArg grow h key value nv) = set_first (args_view h) key value nv.
Proof.
  intros Ho. unfold SetArg. pose proof (find_key_spec (in_use h) key) as Hf. destruct (find_key (in_use h) key) as [i|].
  - destruct Hf as (kv & Hl & _ & Hset). split; [by apply kv_set_view|]. assert (Hi : (i < used h)%nat) by (apply lookup_lt_Some in Hl; rewrite in_use_length in Hl; done).
    unfold args_view. rewrite kv_set_in_use by done. rewrite kv_at_in_use in Hl by done. injection Hl as ->. apply Hset. by destruct nv; apply contents_refill.
  - destruct Hf as [Hf _]. destruct (AppendArg_view grow h key value nv Ho) as [? ->]. split; [done|]. by rewrite Hf.
Qed.
(** With one entry of the key, setting the first is replacing all. *)
Lemma replace_none l key x : List.filter (has_key key) l = [] -> map (fun p => if has_key key p then x else p) l = l /\ existsb (has_key key) l = false.
Proof.
  induction l as [|p l IH]; [done|]. cbn [List.filter map existsb]. destruct (has_key key p) eqn:E; [done|]. intros H. destruct (IH H) as [-> ->]. done.
Qed.
Lemma set_first_replace l key value nv : (length (List.filter (has_key key) l) <= 1)%nat -> set_first l key value nv = replace_entries l key value nv.
Proof.
  induction l as [|p l IH]; [done|]. cbn [List.filter set_first]. unfold replace_entries. cbn [existsb map]. destruct (has_key key p) eqn:E; unfold has_key in E.
  - intros H. cbn [length] in H. apply bool_decide_eq_true in E. rewrite decide_True by done. cbn [orb]. f_equal. symmetry. apply replace_none.
    destruct (List.filter (has_key key) l); [done|cbn [length] in H; lia].
  - intros H. apply bool_decide_eq_false in E. rewrite decide_False by done. cbn [orb]. rewrite (IH H). unfold replace_entries. by destruct (existsb (has_key key) l).
Qed.
(** The accessors. *)
Lemma PeekArg_none h key : HasArg h key = false -> PeekArg h key = None.
Proof. unfold HasArg, PeekArg. by destruct (find_key (in_use h) key). Qed.
Lemma PeekArg_view h key :
  slots_ok h -> HasArg h key = existsb (has_key key) (args_view h)
  /\ contents (PeekArg h key) = match List.filter (has_key key) (args_view h) with p :: _ => p.1.2 | [] => [] end.
Proof.
  intros Ho. unfold HasArg, PeekArg, args_view.
  assert (Hat : forall i kv, in_use h !! i = Some kv -> kv_at h i = kv).
  { intros i kv Hi. assert (i < used h)%nat by (apply lookup_lt_Some in Hi; by rewrite in_use_length in Hi). rewrite kv_at_in_use in Hi by done. by injection Hi. }
  revert Hat. generalize (kv_at h). induction (in_use h) as [|kv l IH]; intros f Hat; cbn [find_key map existsb List.filter]; [done|].
  unfold has_key at 1 3. cbn [pair_view fst]. case_decide as Hk.
  - rewrite bool_decide_eq_true_2 by done. split; [done|]. rewrite (Hat O kv eq_refl). done.
  - rewrite bool_decide_eq_false_2 by done. cbn [orb]. destruct (IH (fun i => f (S i))) as [IH1 IH2]; [intros i kv' Hi; by apply Hat|].
    destruct (find_key l key); cbn [fmap option_fmap option_map]; done.
Qed.
Lemma PeekMulti_view h key : map contents (PeekMulti h key) = map (fun p => p.1.2) (List.filter (has_key key) (args_view h)).
Proof.
  unfold PeekMulti, args_view. rewrite map_map. induction (in_use h) as [|kv l IH]; cbn [List.filter map]; [done|]. unfold has_key at 1. cbn [pair_view fst].
  destruct (bool_decide (contents (Key kv) = key)); cbn [map]; [f_equal|]; apply IH.
Qed.

(** Deleting. *)
Lemma del_stable_spec key fuel : forall h i,
  slots_ok h -> (i <= used h)%nat -> (used h - i < fuel)%nat ->
  slots_ok (del_stable_loop fuel h i key) /\ length (slots (del_stable_loop fuel h i key)) = length (slots h)
  /\ args_view (del_stable_loop fuel h i key) = map pair_view (take i (in_use h)) ++ List.filter (fun p => negb (has_key key p)) (map pair_view (drop i (in_use h))).
Proof.
  induction fuel as [|fuel IH]; intros h i Ho Hi Hf; [lia|]. cbn [del_stable_loop]. destruct (i <? used h)%nat eqn:Ei.
  - apply Nat.ltb_lt in Ei. pose proof (kv_at_in_use h i Ei Ho) as Hl. set (kv := kv_at h i) in *. pose proof (in_use_length h Ho) as Hlen.
    assert (Hdrop : drop i (in_use h) = kv :: drop (S i) (in_use h)) by (by apply drop_S). case_decide as Hk.
    + set (h' := mkSlots _ _). assert (Hsl : length (slots h') = length (slots h)).
      { cbn [slots h']. rewrite !length_app. cbn [length]. rewrite !length_drop, length_take, Hlen. unfold slots_ok in Ho. lia. }
      assert (Hin : in_use h' = take i (in_use h) ++ drop (S i) (in_use h)).
      { unfold in_use at 1. cbn [slots used h']. unfold slots_ok in Ho. rewrite app_assoc, take_app_le by (rewrite length_app, length_take, length_drop, Hlen; lia).
        rewrite firstn_all2 by (rewrite length_app, length_take, length_drop, Hlen; lia). f_equal. unfold in_use. rewrite take_take. f_equal. lia. }
      assert (Ho' : slots_ok h') by (unfold slots_ok in *; rewrite Hsl; cbn [used h']; lia).
      destruct (IH h' i Ho') as (H1 & H2 & H3); [cbn [used h']; lia|cbn [used h']; lia|]. split; [done|]. split; [lia|]. rewrite H3, Hin.
      assert (Hti : length (take i (in_use h)) = i) by (rewrite length_take; lia).
      rewrite take_app_le by lia. rewrite (firstn_all2 (take i (in_use h))) by lia. rewrite drop_app_ge by lia. rewrite Hti, Nat.sub_diag, drop_0.
      rewrite Hdrop. cbn [map List.filter]. unfold has_key at 2. cbn [pair_view fst]. by rewrite bool_decide_eq_true_2.
    + destruct (IH h (S i) Ho) as (H1 & H2 & H3); [lia|lia|]. split; [done|]. split; [done|]. rewrite H3, Hdrop. cbn [map List.filter]. unfold has_key at 2. cbn [pair_view fst].
      rewrite bool_decide_eq_false_2 by done. cbn [negb]. rewrite (take_S_r (in_use h) i kv) by done. rewrite map_app, <- app_assoc. done.
  - apply Nat.ltb_ge in Ei. split; [done|]. split; [done|]. rewrite (firstn_all2 (in_use h)) by (rewrite in_use_length by done; lia).
    rewrite (skipn_all2 (in_use h)) by (rewrite in_use_length by done; lia). by rewrite app_nil_r.
Qed.
Lemma Del_view h key :
  slots_ok h -> slots_ok (DelAllArgsStable h key) /\ args_view (DelAllArgsStable h key) = List.filter (fun p => negb (has_key key p)) (args_view h).
Proof. intros Ho. destruct (del_stable_spec key (S (used h)) h 0 Ho) as (? & _ & H); [lia|lia|]. split; [done|]. unfold DelAllArgsStable. rewrite H. done. Qed.
Lemma filter_perm {A} (f : A -> bool) l k : l ≡ₚ k -> List.filter f l ≡ₚ List.filter f k.
Proof. induction 1; cbn [List.filter]; repeat case_match; try done; [by constructor|by constructor|by etransitivity]. Qed.
Lemma filter_kv_cons key kv l :
  List.filter (fun p => negb (has_key key p)) (pair_view kv :: l) =
    if decide (contents (Key kv) = key) then List.filter (fun p => negb (has_key key p)) l else pair_view kv :: List.filter (fun p => negb (has_key key p)) l.
Proof. cbn [List.filter]. unfold has_key at 1. cbn [pair_view fst]. case_decide; [by rewrite bool_decide_eq_true_2|by rewrite bool_decide_eq_false_2]. Qed.
(** Moving the last of [n] slots to [i] leaves the same slots, less that of [i]. *)
Lemma swap_last (sl : list ArgsKV) n i kv z :
  (i < n <= length sl)%nat -> sl !! i = Some kv -> sl !! pred n = Some z ->
  drop i (take (pred n) (<[i := z]> (<[pred n := kv]> sl))) ≡ₚ drop (S i) (take n sl).
Proof.
  intros Hn Hkv Hz. destruct (decide (i = pred n)) as [->|Hne].
  - rewrite drop_ge by (rewrite length_take; lia). rewrite drop_ge by (rewrite length_take; lia). done.
  - assert (Hl : drop i (take (pred n) (<[i := z]> (<[pred n := kv]> sl))) = z :: drop (S i) (take (pred n) sl)).
    { rewrite (drop_S _ z); [|rewrite lookup_take_lt by lia; rewrite list_lookup_insert_eq; [done|rewrite length_insert; lia]].
      f_equal. rewrite take_insert_lt by lia. rewrite drop_insert_lt by lia. rewrite take_insert_ge by lia. done. }
    rewrite Hl. replace n with (S (pred n)) at 2 by lia. rewrite (take_S_r sl (pred n) z) by done. rewrite drop_app_le by (rewrite length_take; lia).
    by rewrite Permutation_cons_append.
Qed.
Lemma del_swap_spec key fuel : forall sl n i,
  (i <= n <= length sl)%nat -> (n - i < fuel)%nat ->
  slots_ok (del_swap_loop fuel sl n i key)
  /\ exists X, args_view (del_swap_loop fuel sl n i key) = map pair_view (take i sl) ++ X
       /\ X ≡ₚ List.filter (fun p => negb (has_key key p)) (map pair_view (drop i (take n sl))).
Proof.
  induction fuel as [|fuel IH]; intros sl n i Hn Hf; [lia|]. cbn [del_swap_loop]. destruct (i <? n)%nat eqn:Ei.
  - apply Nat.ltb_lt in Ei. destruct (lookup_lt_is_Some_2 sl i) as [kv Hkv]; [lia|]. rewrite (nth_lookup_Some _ _ _ _ Hkv).
    assert (Hdrop : drop i (take n sl) = kv :: drop (S i) (take n sl)) by (apply drop_S; by rewrite lookup_take_lt by lia). rewrite Hdrop. cbn [map]. rewrite filter_kv_cons. case_decide as Hk.
    + destruct (lookup_lt_is_Some_2 sl (pred n)) as [z Hz]; [lia|]. rewrite (nth_lookup_Some _ _ _ _ Hz).
      destruct (IH (<[i := z]> (<[pred n := kv]> sl)) (pred n) i) as (Ho & X & HX & HP); [rewrite !length_insert; lia|lia|]. split; [done|]. exists X.
      rewrite HX. rewrite take_insert_ge, take_insert_ge by lia. split; [done|]. rewrite HP. apply filter_perm, Permutation_map, swap_last; done || lia.
    + destruct (IH sl n (S i)) as (Ho & X & HX & HP); [lia|lia|]. split; [done|]. exists (pair_view kv :: X). rewrite HX, (take_S_r sl i kv), map_app, <- app_assoc by done.
      split; [done|]. by rewrite HP.
  - apply Nat.ltb_ge in Ei. replace i with n by lia. split; [unfold slots_ok; cbn; lia|]. exists []. rewrite app_nil_r. split; [done|].
    rewrite drop_ge by (rewrite length_take; lia). done.
Qed.

Lemma copy_kvs_view src : forall dst,
  (length src <= length dst)%nat -> length (copy_kvs dst src) = length dst /\ map pair_view (take (length src) (copy_kvs dst src)) = map (fun kv => new_pair (contents (Key kv)) (contents (Value kv)) (NoValue kv)) src.
Proof.
  induction src as [|s src IH]; intros [|d dst] Hl; cbn [copy_kvs length] in *; try done; [lia|]. destruct (IH dst) as [H1 H2]; [lia|]. split; [by rewrite H1|].
  cbn [take map]. by rewrite fill_kv_view, H2.
Qed.
Lemma CopyArgs_view dst src :
  slots_ok dst -> slots_ok src ->
  slots_ok (CopyArgs dst src) /\ args_view (CopyArgs dst src) = map (fun p => new_pair p.1.1 p.1.2 p.2) (args_view src).
Proof.
  intros Hd Hs. unfold CopyArgs. match goal with |- context [copy_kvs ?d _] => set (ds := d) end. assert (Hl : (used src <= length ds)%nat).
  { subst ds. unfold slots_ok in *. destruct (length (slots dst) <? used src)%nat eqn:E; [apply Nat.ltb_lt in E|apply Nat.ltb_ge in E; lia].
    rewrite !length_app, length_map, length_take, length_drop, repeat_length. lia. }
  pose proof (in_use_length src Hs) as Hu. destruct (copy_kvs_view (in_use src) ds) as [H1 H2]; [lia|]. unfold slots_ok, args_view. rewrite Hu in H2.
  change (in_use (mkSlots (copy_kvs ds (in_use src)) (used src))) with (take (used src) (copy_kvs ds (in_use src))). cbn [slots used].
  split; [lia|]. rewrite H2, map_map. done.
Qed.

(** ** Parsing, as a function of the whole query *)
Fixpoint cut (d : Z) (b : bytes) : bytes * option bytes :=
  match b with
  | [] => ([], None)
  | c :: b' => if c =? d then ([], Some b') else let '(x, y) := cut d b' in (c :: x, y)
  end.
Definition parse_pair (s : bytes) : bytes * bytes * bool :=
  match cut 61 s with
  | (k, Some v) => (pct_decode true k, pct_decode true v, false)
  | (k, None) => (pct_decode true k, [], true)
  end.
Definition pair_kept (p : bytes * bytes * bool) : bool := (zlen p.1.1 >? 0) || (zlen p.1.2 >? 0).
Fixpoint parse_pairs (fuel : nat) (b : bytes) : list (bytes * bytes * bool) :=
  match fuel, b with
  | S fuel', _ :: _ =>
      let '(s, r) := cut 38 b in
      (if pair_kept (parse_pair s) then [parse_pair s] else []) ++ parse_pairs fuel' (default [] r)
  | _, _ => []
  end.

Lemma cut_app d x y : Forall (fun c => (c =? d) = false) x -> cut d (x ++ y) = let '(s, r) := cut d y in (x ++ s, r).
Proof. induction 1 as [|c x Hc Hx IH]; cbn [app cut]; [by destruct (cut d y)|]. rewrite Hc, IH. by destruct (cut d y). Qed.
Lemma cut_at d x y : Forall (fun c => (c =? d) = false) x -> cut d (x ++ d :: y) = (x, Some y).
Proof. intros Hx. rewrite cut_app by done. cbn [cut]. rewrite Z.eqb_refl. by rewrite app_nil_r. Qed.
Lemma cut_none d x : Forall (fun c => (c =? d) = false) x -> cut d x = (x, None).
Proof. intros Hx. rewrite <- (app_nil_r x) at 1. rewrite cut_app by done. cbn. by rewrite app_nil_r. Qed.
Lemma cut_shorter d b s r : b <> [] -> cut d b = (s, r) -> (length (default [] r) < length b)%nat.
Proof.
  revert s. induction b as [|c b IH]; intros s Hne; [done|]. cbn [cut]. case_test; [intros [= <- <-]; cbn; lia|].
  destruct (cut d b) as [x y] eqn:E. intros [= <- <-]. destruct b as [|c' b]; [cbn in E; injection E as <- <-; cbn; lia|]. specialize (IH x ltac:(done) eq_refl). cbn [length] in *. lia.
Qed.
Lemma parse_pairs_fuel f : forall f' b, (length b <= f)%nat -> (length b <= f')%nat -> parse_pairs f b = parse_pairs f' b.
Proof.
  induction f as [|f IH]; intros f' b H1 H2; [destruct b; [by destruct f'|cbn in H1; lia]|]. destruct b as [|c b]; [by destruct f'|]. destruct f' as [|f']; [cbn in H2; lia|].
  cbn [parse_pairs]. destruct (cut 38 (c :: b)) as [s r] eqn:E. pose proof (cut_shorter 38 (c :: b) s r ltac:(done) E) as Hl. cbn [length] in *. f_equal. apply IH; lia.
Qed.

Section ParseProofs.
Context {S0 : Silicon} {L : SiliconLaws} (grow : nat -> nat).

Lemma next_value kp rest : forall vp kv,
  next_loop rest (kp ++ 61 :: vp ++ rest) (zlen kp + 1 + zlen vp) (zlen kp + 1) false kv =
    let '(s, r) := cut 38 rest in Ok (mkKV (Key kv) (refill (Value kv) (pct_decode true (vp ++ s))) (NoValue kv), default [] r).
Proof.
  assert (Hslice : forall vp rest, @slice h1_error Z (kp ++ 61 :: vp ++ rest) (zlen kp + 1) (zlen kp + 1 + zlen vp) = Ok vp).
  { intros vp rest0. pose proof (zlen_nonneg kp). pose proof (zlen_nonneg vp). pose proof (zlen_nonneg rest0). rewrite slice_ok by (rewrite ?zlen_app, ?zlen_cons, ?zlen_app; lia). f_equal.
    replace (kp ++ 61 :: vp ++ rest0) with ((kp ++ [61]) ++ vp ++ rest0) by (by rewrite <- app_assoc). rewrite zdrop_app_eq by (rewrite zlen_app; done). apply ztake_app_eq. lia. }
  induction rest as [|c rest IH]; intros vp kv; cbn [next_loop cut].
  - replace (zlen (kp ++ 61 :: vp ++ [])) with (zlen kp + 1 + zlen vp) by (rewrite app_nil_r, zlen_app, zlen_cons; lia). rewrite Hslice. cbn [res_bind].
    rewrite DecodeArgAppend_spec. cbn [res_bind app]. by rewrite app_nil_r.
  - specialize (IH (vp ++ [c]) kv). rewrite <- !app_assoc in IH. cbn [app] in IH. replace (zlen (vp ++ [c])) with (zlen vp + 1) in IH by (by rewrite zlen_app).
    replace (zlen kp + 1 + (zlen vp + 1)) with (zlen kp + 1 + zlen vp + 1) in IH by lia.
    destruct (c =? 61) eqn:E1; bool_simpl.
    + test_false (c =? 38). rewrite IH. destruct (cut 38 rest) as [s r]. by rewrite <- app_assoc.
    + destruct (c =? 38) eqn:E2; bool_simpl; [|rewrite IH; destruct (cut 38 rest) as [s r]; by rewrite <- app_assoc]. subst c.
      rewrite Hslice. cbn [res_bind]. rewrite DecodeArgAppend_spec. cbn [res_bind app]. rewrite app_nil_r. do 2 f_equal.
      replace (kp ++ 61 :: vp ++ 38 :: rest) with ((kp ++ 61 :: vp ++ [38]) ++ rest) by (rewrite <- app_assoc; cbn [app]; by rewrite <- app_assoc).
      apply zdrop_app_eq. rewrite zlen_app, zlen_cons, zlen_app. change (zlen [38]) with 1. lia.
Qed.
Lemma next_key rest : forall pre kv,
  Forall (fun c => (c =? 61) = false) pre -> NoValue kv = false ->
  exists kv', next_loop rest (pre ++ rest) (zlen pre) 0 true kv = Ok (kv', default [] (cut 38 rest).2) /\ pair_view kv' = parse_pair (pre ++ (cut 38 rest).1).
Proof.
  induction rest as [|c rest IH]; intros pre kv Hpre Hnv; cbn [next_loop cut].
  - rewrite app_nil_r, DecodeArgAppend_spec. cbn [res_bind]. eexists. split; [reflexivity|]. cbn [fst]. rewrite app_nil_r. unfold parse_pair. rewrite cut_none by done.
    unfold pair_view. cbn [Key Value NoValue]. by rewrite !contents_refill.
  - destruct (c =? 61) eqn:E1; bool_simpl; [|destruct (c =? 38) eqn:E2; bool_simpl].
    + subst c. change (61 =? 38) with false. cbn iota. rewrite ztake_app, DecodeArgAppend_spec. cbn [res_bind]. pose proof (next_value pre rest [] (mkKV (refill (Key kv) ([] ++ pct_decode true pre)) (Value kv) (NoValue kv))) as HV.
      change (zlen (@nil Z)) with 0 in HV. rewrite Z.add_0_r in HV. cbn [app] in *. rewrite HV. destruct (cut 38 rest) as [s r]. eexists. split; [reflexivity|]. cbn [fst].
      unfold parse_pair. rewrite cut_at by done. unfold pair_view. cbn [Key Value NoValue app]. by rewrite !contents_refill, Hnv.
    + subst c. rewrite ztake_app, DecodeArgAppend_spec. cbn [res_bind fst snd default]. eexists. split; [f_equal; f_equal; change (Some rest) with (Some rest)|].
      * replace (pre ++ 38 :: rest) with ((pre ++ [38]) ++ rest) by (by rewrite <- app_assoc). rewrite zdrop_app_eq by (by rewrite zlen_app). reflexivity.
      * rewrite app_nil_r. unfold parse_pair. rewrite cut_none by done. unfold pair_view. cbn [Key Value NoValue]. by rewrite !contents_refill.
    + destruct (IH (pre ++ [c]) kv) as (kv' & Hn & Hv); [apply Forall_app; split; [done|]; constructor; [by apply Z.eqb_neq|constructor]|done|].
      rewrite <- app_assoc in Hn. cbn [app] in Hn. replace (zlen (pre ++ [c])) with (zlen pre + 1) in Hn by (by rewrite zlen_app). rewrite Hn. exists kv'.
      destruct (cut 38 rest) as [s r]. cbn [fst snd] in *. split; [done|]. rewrite Hv. by rewrite <- app_assoc.
Qed.

(** The loop of [Parse]: the last slot in use is the one being filled. *)
Lemma parse_loop_spec fuel : forall b h,
  slots_ok h -> (1 <= used h)%nat -> (length b < fuel)%nat ->
  exists h', parse_loop grow fuel b h = Ok h' /\ slots_ok h' /\ args_view h' = map pair_view (take (pred (used h)) (slots h)) ++ parse_pairs fuel b.
Proof.
  induction fuel as [|fuel IH]; intros b h Ho Hu Hf; [lia|]. cbn [parse_loop]. unfold scanner_next. destruct (zlen b =? 0) eqn:Ez; bool_simpl.
  - apply zlen_zero in Ez. subst b. cbn [res_bind]. unfold ReleaseArg. destruct (used h) as [|n] eqn:En; [lia|]. eexists. split; [reflexivity|]. rewrite app_nil_r.
    unfold slots_ok in *. split; [change (n <= length (slots h))%nat; lia|done].
  - destruct (next_key b [] (mkKV (Key (kv_at h (pred (used h)))) (Value (kv_at h (pred (used h)))) false)) as (kv & Hn & Hv); [constructor|done|].
    change (zlen (@nil Z)) with 0 in Hn. cbn [app] in *. rewrite Hn. cbn [res_bind]. set (p := pred (used h)) in *. assert (Hp : (p < used h)%nat) by (subst p; lia).
    destruct b as [|c b]; [done|]. cbn [parse_pairs]. destruct (cut 38 (c :: b)) as [s r] eqn:Ec. cbn [fst snd] in *. pose proof (cut_shorter 38 (c :: b) s r ltac:(done) Ec) as Hl.
    assert (Ho' : slots_ok (kv_set h p kv)) by (by apply kv_set_view). assert (Hu' : used (kv_set h p kv) = used h) by done.
    assert (Htake : take p (slots (kv_set h p kv)) = take p (slots h)) by (unfold kv_set; cbn; by rewrite take_insert_ge by lia).
    replace (zlen (contents (Key kv)) >? 0) with (zlen (parse_pair s).1.1 >? 0) by (by rewrite <- Hv). replace (zlen (contents (Value kv)) >? 0) with (zlen (parse_pair s).1.2 >? 0) by (by rewrite <- Hv).
    fold (pair_kept (parse_pair s)). destruct (pair_kept (parse_pair s)).
    + destruct (alloc_view grow (kv_set h p kv) Ho') as (x & Hua & Hoa & Hia). destruct (IH (default [] r) (AllocArg grow (kv_set h p kv)) Hoa) as (h' & -> & Hh' & Hview); [lia|lia|].
      exists h'. split; [done|]. split; [done|]. rewrite Hview. rewrite Hua, Hu'. cbn [pred]. cbn [app]. rewrite cons_middle, app_assoc. f_equal.
      assert (Htk : take (used h) (slots (AllocArg grow (kv_set h p kv))) = in_use (kv_set h p kv)).
      { pose proof (in_use_length _ Ho') as Hil. unfold in_use at 1 in Hia. rewrite Hua, Hu' in Hia. apply (f_equal (take (used h))) in Hia. rewrite take_take, take_app_le, (firstn_all2 (in_use _)) in Hia by lia.
        rewrite <- Hia. f_equal. lia. }
      rewrite Htk. unfold in_use. rewrite Hu'. replace (used h) with (S p) by (subst p; lia). rewrite (take_S_r _ p kv), map_app, Htake; [cbn [map]; by rewrite Hv|].
      unfold kv_set. cbn. rewrite list_lookup_insert_eq; [done|]. unfold slots_ok in Ho. lia.
    + destruct (IH (default [] r) (kv_set h p kv) Ho') as (h' & -> & Hh' & Hview); [lia|lia|]. exists h'. split; [done|]. split; [done|]. rewrite Hview, Hu'. fold p. by rewrite Htake.
Qed.
Lemma Parse_view a src is_string :
  slots_ok (args a) -> exists a', Parse grow a src is_string = Ok a' /\ slots_ok (args a') /\ args_view (args a') = parse_pairs (length src) src.
Proof.
  intros Ho. unfold Parse. set (h := AllocArg grow (args (Reset a))). assert (Ho0 : slots_ok (args (Reset a))) by (unfold slots_ok; cbn; lia).
  destruct (alloc_view grow (args (Reset a)) Ho0) as (kv & Hu & Hoh & _). fold h in Hu, Hoh. change (used (args (Reset a))) with 0%nat in Hu.
  destruct (parse_loop_spec (length src + 1) src h Hoh) as (h' & -> & Hh' & Hv); [lia|lia|]. cbn [res_bind]. eexists. split; [reflexivity|]. cbn [args]. split; [done|].
  rewrite Hv, Hu. cbn [pred take map app]. apply parse_pairs_fuel; lia.
Qed.

(** ** Printing *)
Definition quote_char (c : Z) : bytes :=
  if c =? 32 then [43] else if negb (znth quotedArgShouldEscapeTable c =? 0) then escaped c else [c].
Definition quote_arg (s : bytes) : bytes := concat (map quote_char s).
Definition render_pair (p : bytes * bytes * bool) : bytes := quote_arg p.1.1 ++ if p.2 then [] else 61 :: quote_arg p.1.2.
Fixpoint query (l : list (bytes * bytes * bool)) : bytes :=
  match l with [] => [] | p :: l' => render_pair p ++ match l' with [] => [] | _ :: _ => 38 :: query l' end end.

Lemma AppendQuotedArg_spec src : forall dst, AppendQuotedArg dst src = dst ++ quote_arg src.
Proof.
  induction src as [|c src IH]; intros dst; cbn [AppendQuotedArg]; [by rewrite app_nil_r|]. rewrite IH. unfold quote_arg. cbn [map concat]. unfold quote_char at 2.
  repeat case_test; by rewrite <- app_assoc.
Qed.
Lemma append_kvs_spec l : forall dst, append_kvs dst l = dst ++ query (map pair_view l).
Proof.
  induction l as [|kv l IH]; intros dst; cbn [append_kvs map query]; [by rewrite app_nil_r|]. rewrite IH, AppendQuotedArg_spec. unfold render_pair. cbn [pair_view fst snd].
  assert (E : (if NoValue kv then dst ++ quote_arg (contents (Key kv)) else let dst0 := (dst ++ quote_arg (contents (Key kv))) ++ [61] in if zlen (contents (Value kv)) >? 0 then AppendQuotedArg dst0 (contents (Value kv)) else dst0)
    = dst ++ quote_arg (contents (Key kv)) ++ (if NoValue kv then [] else 61 :: quote_arg (contents (Value kv)))).
  { destruct (NoValue kv); [by rewrite app_nil_r|]. cbv zeta. destruct (zlen (contents (Value kv)) >? 0) eqn:Ez; bool_simpl.
    - rewrite AppendQuotedArg_spec. by rewrite <- !app_assoc.
    - pose proof (zlen_nonneg (contents (Value kv))). assert (contents (Value kv) = []) as -> by (apply zlen_zero; lia). by rewrite <- app_assoc. }
  cbv zeta in E. rewrite E. destruct l; cbn [map]; by rewrite <- !app_assoc.
Qed.
(** A quoted character is decoded to itself and has no delimiter. *)
Lemma quote_char_spec c y : is_byte c -> pct_decode true (quote_char c ++ y) = c :: pct_decode true y.
Proof.
  intros Hc. assert (Hok : (if c =? 32 then true else if negb (znth quotedArgShouldEscapeTable c =? 0)
      then match hex_value (upperhex (Z.shiftr c 4)), hex_value (upperhex (Z.land c 15)) with Some x, Some z => 16 * x + z =? c | _, _ => false end
      else negb (special true c)) = true).
  { revert c Hc. apply all_bytes_spec. vm_compute. reflexivity. }
  unfold quote_char. destruct (c =? 32) eqn:E; bool_simpl; [subst; done|]. destruct (negb (znth quotedArgShouldEscapeTable c =? 0)).
  - unfold escaped. cbn [app pct_decode]. change (true && (37 =? 43)) with false. change (37 =? 37) with true. cbn iota.
    destruct (hex_value (upperhex (Z.shiftr c 4))), (hex_value (upperhex (Z.land c 15))); try done. bool_simpl. by subst.
  - apply (pct_plain true [c]). constructor; [by apply negb_true_iff|constructor].
Qed.
Lemma quote_arg_decode s y : bytes_ok s -> pct_decode true (quote_arg s ++ y) = s ++ pct_decode true y.
Proof.
  induction 1 as [|c s Hc Hs IH]; [done|]. unfold quote_arg in *. cbn [map concat]. rewrite <- app_assoc, quote_char_spec by done. by rewrite IH.
Qed.
Lemma quote_arg_clean s : bytes_ok s -> Forall (fun c => (c =? 61) = false /\ (c =? 38) = false) (quote_arg s).
Proof.
  intros Hs. unfold quote_arg. apply Forall_concat, Forall_map. eapply Forall_impl; [|exact Hs]. intros c Hc.
  assert (Hall : forallb (fun x => negb (x =? 61) && negb (x =? 38)) (quote_char c) = true) by (revert c Hc; apply all_bytes_spec; vm_compute; reflexivity).
  apply List.Forall_forall. intros x Hx. apply (proj1 (forallb_forall _ _) Hall) in Hx. bool_simpl. split; by apply Z.eqb_neq.
Qed.

Definition pair_ok (p : bytes * bytes * bool) : Prop :=
  bytes_ok p.1.1 /\ bytes_ok p.1.2 /\ pair_kept p = true /\ (p.2 = true -> p.1.2 = []).
Lemma decode_quoted s : bytes_ok s -> pct_decode true (quote_arg s) = s.
Proof. intros Hs. rewrite <- (app_nil_r (quote_arg s)), quote_arg_decode by done. apply app_nil_r. Qed.
Lemma parse_render p : pair_ok p -> parse_pair (render_pair p) = p /\ Forall (fun c => (c =? 38) = false) (render_pair p) /\ render_pair p <> [].
Proof.
  destruct p as [[k v] nv]. intros (Hk & Hv & Hkept & Hnv). unfold render_pair, parse_pair, pair_kept in *. cbn [fst snd] in *.
  pose proof (quote_arg_clean k Hk) as Ck. pose proof (quote_arg_clean v Hv) as Cv.
  assert (Hne : nv = true -> quote_arg k <> []).
  { intros ->. rewrite Hnv in Hkept by done. destruct k as [|c k]; [done|]. unfold quote_arg. cbn [map concat]. unfold quote_char. by repeat case_test. }
  split; [|split].
  - destruct nv.
    + rewrite app_nil_r, cut_none by (eapply Forall_impl; [|exact Ck]; by intros x []). rewrite decode_quoted by done. by rewrite Hnv.
    + rewrite cut_at by (eapply Forall_impl; [|exact Ck]; by intros x []). by rewrite !decode_quoted.
  - apply Forall_app. split; [eapply Forall_impl; [|exact Ck]; by intros x []|]. destruct nv; constructor; [done|]. eapply Forall_impl; [|exact Cv]; by intros x [].
  - destruct nv; [rewrite app_nil_r; by apply Hne|]. intros E%app_nil. by destruct E.
Qed.
Lemma parse_query l : forall fuel, Forall pair_ok l -> (length (query l) <= fuel)%nat -> parse_pairs fuel (query l) = l.
Proof.
  induction l as [|p l IH]; intros fuel Hl Hf; [by destruct fuel|]. apply Forall_cons_iff in Hl as [Hp Hl]. destruct (parse_render p Hp) as (Hpp & Hclean & Hne). destruct Hp as (_ & _ & Hkept & _).
  cbn [query] in *. assert (Hstep : forall r, (length (render_pair p ++ r) <= fuel)%nat -> parse_pairs fuel (render_pair p ++ r) = let '(s, r') := cut 38 (render_pair p ++ r) in (if pair_kept (parse_pair s) then [parse_pair s] else []) ++ parse_pairs (pred fuel) (default [] r')).
  { intros r Hr. destruct (render_pair p ++ r) as [|c b] eqn:E; [apply app_nil in E; by destruct E|]. destruct fuel as [|fuel]; [cbn in Hr; lia|]. done. }
  rewrite Hstep by done. destruct l as [|p' l'].
  - rewrite app_nil_r, cut_none by done. rewrite Hpp, Hkept. cbn [default]. by destruct (pred fuel).
  - rewrite cut_at by done. rewrite Hpp, Hkept. cbn [app default]. f_equal. apply IH; [done|]. rewrite length_app in Hf. cbn [length] in Hf. change (default [] (Some ?x)) with x. lia.
Qed.

(** C38: a query string that is parsed gives the arguments it was made of: whatever the
    arguments, the state of the parser's [Args] and the growth of its memory, as
    long as no pair is empty and a pair without a value stores none. *)
Theorem query_roundtrip a a' is_string :
  slots_ok (args a) -> slots_ok (args a') -> Forall pair_ok (args_view (args a)) ->
  exists a'', Parse grow a' (snd (QueryString a)) is_string = Ok a'' /\ slots_ok (args a'') /\ args_view (args a'') = args_view (args a).
Proof.
  intros Ho Ho' Hp. destruct (Parse_view a' (snd (QueryString a)) is_string Ho') as (a'' & Hparse & Hok & Hv). exists a''. split; [done|]. split; [done|]. rewrite Hv.
  unfold QueryString, AppendBytes. cbn [snd]. rewrite append_kvs_spec. cbn [app]. by apply parse_query.
Qed.
End ParseProofs.

(** C39: operations on recycled slots are operations on a list of pairs, whatever the
    slots behind the length hold and however slices grow: append; delete (in order, or
    in any order); copy; look up, where an absent key is reported as absent and a value
    that is not empty as present; and set, for a key with at most one entry, which
    replaces it.  (With several entries [SetArg] replaces the first only, and whether
    an empty value is reported as present depends on the memory: see below.) *)
Theorem args_refine grow h dst key value nv :
  slots_ok h -> slots_ok dst ->
  (slots_ok (AppendArg grow h key value nv) /\ args_view (AppendArg grow h key value nv) = args_view h ++ [new_pair key value nv])
  /\ (slots_ok (SetArg grow h key value nv)
      /\ ((length (List.filter (has_key key) (args_view h)) <= 1)%nat -> args_view (SetArg grow h key value nv) = replace_entries (args_view h) key value nv))
  /\ (slots_ok (DelAllArgsStable h key) /\ args_view (DelAllArgsStable h key) = List.filter (fun p => negb (has_key key p)) (args_view h))
  /\ (slots_ok (DelAllArgs h key) /\ args_view (DelAllArgs h key) ≡ₚ List.filter (fun p => negb (has_key key p)) (args_view h))
  /\ (slots_ok (CopyArgs dst h) /\ args_view (CopyArgs dst h) = map (fun p => new_pair p.1.1 p.1.2 p.2) (args_view h))
  /\ HasArg h key = existsb (has_key key) (args_view h)
  /\ match List.filter (has_key key) (args_view h) with
     | [] => PeekOptional h key = None
     | p :: _ => if decide (p.1.2 = []) then contents (PeekArg h key) = [] else PeekOptional h key = Some p.1.2
     end
  /\ map contents (PeekMulti h key) = map (fun p => p.1.2) (List.filter (has_key key) (args_view h)).
Proof.
  intros Ho Hd. split; [by apply AppendArg_view|]. split.
  { destruct (SetArg_view grow h key value nv Ho) as [? E]. split; [done|]. intros Hone. by rewrite E, set_first_replace. }
  split; [by apply Del_view|]. split.
  - unfold DelAllArgs. destruct (del_swap_spec key (S (used h)) (slots h) (used h) 0) as (H1 & X & HX & HP); [unfold slots_ok in Ho; lia|lia|]. split; [done|]. rewrite HX, HP. done.
  - split; [by apply CopyArgs_view|]. destruct (PeekArg_view h key Ho) as [Hhas Hpeek]. split; [done|]. split; [|apply PeekMulti_view].
    unfold PeekOptional. destruct (List.filter (has_key key) (args_view h)) as [|p l] eqn:Ef.
    + apply PeekArg_none. rewrite Hhas. by apply (replace_none _ key (new_pair key value nv)).
    + case_decide as E; [by rewrite Hpeek|]. rewrite <- Hpeek in E |- *. by destruct (PeekArg h key).
Qed.

(** ** Paths and numbers *)
Definition quote_path_char (c : Z) : bytes := if negb (znth quotedPathShouldEscapeTable c =? 0) then escaped c else [c].
Lemma quoted_path_loop_spec src : forall dst, quoted_path_loop dst src = dst ++ concat (map quote_path_char src).
Proof.
  induction src as [|c src IH]; intros dst; cbn [quoted_path_loop]; [by rewrite app_nil_r|]. rewrite IH. cbn [map concat]. unfold quote_path_char at 2.
  case_test; by rewrite <- app_assoc.
Qed.
Lemma quote_path_char_spec c y : is_byte c -> pct_decode false (quote_path_char c ++ y) = c :: pct_decode false y.
Proof.
  intros Hc. assert (Hok : (if negb (znth quotedPathShouldEscapeTable c =? 0)
      then match hex_value (upperhex (Z.shiftr c 4)), hex_value (upperhex (Z.land c 15)) with Some x, Some z => 16 * x + z =? c | _, _ => false end
      else negb (special false c)) = true).
  { revert c Hc. apply all_bytes_spec. vm_compute. reflexivity. }
  unfold quote_path_char. destruct (negb (znth quotedPathShouldEscapeTable c =? 0)).
  - unfold escaped. cbn [app pct_decode andb]. change (37 =? 37) with true. cbn iota.
    destruct (hex_value (upperhex (Z.shiftr c 4))), (hex_value (upperhex (Z.land c 15))); try done. bool_simpl. by subst.
  - apply (pct_plain false [c]). constructor; [by apply negb_true_iff|constructor].
Qed.
(** A quoted path is decoded to itself. *)
Theorem path_roundtrip {S0 : Silicon} {L : SiliconLaws} p :
  bytes_ok p -> DecodeArgAppendNoPlus [] (AppendQuotedPath [] p) = Ok p.
Proof.
  intros Hp. rewrite DecodeArgAppendNoPlus_spec. cbn [app]. f_equal. unfold AppendQuotedPath. case_test.
  - destruct p as [|c [|d p]]; [done| |rewrite !zlen_cons in *; pose proof (zlen_nonneg p); lia]. change (znth [c] 0) with c in *. by subst.
  - rewrite quoted_path_loop_spec. cbn [app]. clear Heqb. induction Hp as [|c p Hc Hp IH]; [done|]. cbn [map concat]. by rewrite quote_path_char_spec, IH.
Qed.

Definition dec_value (v : Z) (ds : bytes) : Z := fold_left (fun a c => 10 * a + (c - 48)) ds v.
Definition is_digit (c : Z) : Prop := 48 <= c <= 57.
Lemma dec_value_mono ds : forall v, 0 <= v -> Forall is_digit ds -> v <= dec_value v ds.
Proof.
  induction ds as [|c ds IH]; intros v Hv Hd; [cbn; lia|]. apply Forall_cons_iff in Hd as [Hc Hd]. unfold is_digit in Hc. unfold dec_value in *. cbn [fold_left].
  specialize (IH (10 * v + (c - 48)) ltac:(lia) Hd). lia.
Qed.
Lemma parse_digits ds : forall i v, Forall is_digit ds -> 0 <= v -> dec_value v ds < 2 ^ 63 -> parseUintBuf_loop ds i v = (dec_value v ds, i + zlen ds, None).
Proof.
  induction ds as [|c ds IH]; intros i v Hd Hv Hlt; cbn [parseUintBuf_loop]; [change (zlen (@nil Z)) with 0; by rewrite Z.add_0_r|].
  apply Forall_cons_iff in Hd as [Hc Hd]. unfold is_digit in Hc. rewrite u8_small by (unfold is_byte; lia). test_false (c - 48 >? 9).
  pose proof (dec_value_mono ds (10 * v + (c - 48)) ltac:(lia) Hd) as Hm. unfold dec_value in *. cbn [fold_left] in *. rewrite i64_small by lia.
  replace (v >? maxIntDiv10) with false by (symmetry; rewrite Z.gtb_ltb, Z.ltb_ge; unfold maxIntDiv10; lia). test_false (10 * v + (c - 48) <? 0).
  rewrite andb_false_r, IH by (done || lia). rewrite zlen_cons. f_equal. f_equal. lia.
Qed.
Lemma decimal_spec fuel : forall n acc,
  0 <= n < 10 ^ Z.of_nat fuel -> (0 < fuel)%nat -> exists ds, decimal fuel n acc = ds ++ acc /\ ds <> [] /\ Forall is_digit ds /\ dec_value 0 ds = n.
Proof.
  induction fuel as [|fuel IH]; intros n acc Hn Hf; [lia|]. cbn [decimal]. assert (Hd : is_digit (48 + n mod 10)) by (unfold is_digit; lia). destruct (n <? 10) eqn:E; bool_simpl.
  - exists [48 + n mod 10]. split; [done|]. split; [done|]. split; [constructor; [done|constructor]|]. unfold dec_value. cbn [fold_left]. lia.
  - rewrite Nat2Z.inj_succ, Z.pow_succ_r in Hn by lia. destruct (IH (n / 10) (48 + n mod 10 :: acc)) as (ds & -> & Hne & Hds & Hv).
    { split; [lia|]. apply Z.div_lt_upper_bound; lia. }
    { destruct fuel; [cbn in Hn|]; lia. }
    exists (ds ++ [48 + n mod 10]). rewrite <- app_assoc. split; [done|]. split; [by destruct ds|]. split; [apply Forall_app; split; [done|constructor; [done|constructor]]|].
    unfold dec_value in *. rewrite fold_left_app, Hv. cbn [fold_left]. lia.
Qed.
Lemma parseUint_decimal n : 0 <= n < 2 ^ 63 -> decimal 20 n [] <> [] /\ parseUint (decimal 20 n []) = (n, None).
Proof.
  intros Hn. destruct (decimal_spec 20 n []) as (ds & -> & Hne & Hds & Hv); [split; [lia|]; etransitivity; [apply Hn|done]|lia|]. rewrite app_nil_r. split; [done|].
  unfold parseUint, parseUintBuf. replace (zlen ds =? 0) with false by (symmetry; apply Z.eqb_neq; intros Hz; by apply zlen_zero in Hz).
  rewrite parse_digits by (done || lia). rewrite Hv, Z.add_0_l, Z.eqb_refl. done.
Qed.
Lemma set_first_filter l key value nv : exists l', List.filter (has_key key) (set_first l key value nv) = new_pair key value nv :: l'.
Proof.
  induction l as [|p l [l' IH]]; cbn [set_first]; [|case_decide as Hk]; cbn [List.filter]; unfold has_key at 1; cbn [new_pair fst].
  - rewrite bool_decide_eq_true_2 by done. by eexists.
  - rewrite bool_decide_eq_true_2 by done. by eexists.
  - rewrite bool_decide_eq_false_2 by done. by exists l'.
Qed.
(** A number that is set is read back. *)
Theorem uint_roundtrip grow a key n :
  slots_ok (args a) -> 0 <= n < 2 ^ 63 -> exists a', SetUint grow a key n = Ok a' /\ slots_ok (args a') /\ GetUint a' key = (n, None).
Proof.
  intros Ho Hn. destruct (parseUint_decimal n Hn) as [Hne Hp]. unfold SetUint, appendUint. test_false (n <? 0). cbn [res_bind app]. set (buf := decimal 20 n []) in *.
  eexists. split; [reflexivity|]. unfold Set_. cbn [args]. destruct (SetArg_view grow (args a) key buf false Ho) as [Ho' Hv]. split; [done|].
  unfold GetUint. destruct (PeekArg_view (SetArg grow (args a) key buf false) key Ho') as [_ Hpk]. rewrite Hv in Hpk. destruct (set_first_filter (args_view (args a)) key buf false) as [l' Hl].
  rewrite Hl in Hpk. cbn [new_pair fst snd] in Hpk. change (args (mkArgs ?x ?y)) with x.
  match goal with |- context [PeekArg ?h key] => change h with (SetArg grow (args a) key buf false) end. rewrite Hpk.
  replace (zlen buf =? 0) with false by (symmetry; apply Z.eqb_neq; intros Hz; by apply zlen_zero in Hz). by rewrite Hp.
Qed.
(** Two of the errors for numbers are never reported: [parseUint] replaces them. *)
Theorem parse_errors_replaced buf : parseUint buf <> (-1, Some errUnexpectedFirstChar) /\ parseUint buf <> (-1, Some errTooLongInt).
Proof.
  assert (Hloop : forall b i v v' n e, parseUintBuf_loop b i v = (v', n, Some e) -> i <= n < i + zlen b).
  { induction b as [|c b IH]; intros i v v' n e; cbn [parseUintBuf_loop]; [done|]. rewrite zlen_cons. pose proof (zlen_nonneg b). repeat case_test; try done.
    - intros [= <- <- <-]. lia.
    - intros [= <- <- <-]. lia.
    - intros E. apply IH in E. lia. }
  unfold parseUint, parseUintBuf. destruct (zlen buf =? 0) eqn:Ez; bool_simpl; [by rewrite Ez|].
  destruct (parseUintBuf_loop buf 0 0) as [[v n] [e|]] eqn:E.
  - apply Hloop in E. by test_false (n =? zlen buf).
  - by case_test.
Qed.

(** ** Runs *)
#[local] Existing Instance plain_silicon.
#[local] Existing Instance plain_laws.
Definition no_args : Args := mkArgs (mkSlots [] 0) [].
(** A slice that is full doubles. *)
Definition doubling (n : nat) : nat := pred n.
Definition lit (s : string) : bytes := bytes_of_string s.
Definition sample_args : Args := AddNoValue doubling (Add doubling (Add doubling no_args (lit "na me") (lit "a&b=c+d")) (lit "") (lit "x")) (lit "flag").
(** Arguments that have been used before: stale slots behind the length. *)
Definition used_args : Args := Reset (Add doubling (AddNoValue doubling no_args (lit "old")) (lit "stale") (lit "data")).
Example sample_query : snd (QueryString sample_args) = lit "na+me=a%26b%3Dc%2Bd&=x&flag".
Proof. vm_compute. reflexivity. Qed.
Lemma query_roundtrip_witness :
  exists a'', Parse doubling used_args (lit "na+me=a%26b%3Dc%2Bd&=x&flag") true = Ok a''
    /\ slots_ok (args a'') /\ args_view (args a'') = [(lit "na me", lit "a&b=c+d", false); ([], lit "x", false); (lit "flag", [], true)].
Proof.
  rewrite <- sample_query. apply (query_roundtrip doubling sample_args used_args true); [vm_compute; lia|vm_compute; lia|].
  change (args_view (args sample_args)) with [(lit "na me", lit "a&b=c+d", false); ([], lit "x", false); (lit "flag", @nil Z, true)].
  repeat constructor; try (apply (bool_decide_unpack _); vm_compute; exact I); vm_compute; done.
Defined.
Lemma args_refine_witness :
  args_view (DelAllArgsStable (args sample_args) (lit "flag")) = [(lit "na me", lit "a&b=c+d", false); ([], lit "x", false)].
Proof.
  destruct (args_refine doubling (args sample_args) (args used_args) (lit "flag") [] false) as (_ & _ & [_ H] & _); [vm_compute; lia|vm_compute; lia|].
  rewrite H. vm_compute. reflexivity.
Defined.
Lemma decoders_exact_witness : DecodeArgAppend [] (lit "a+b%20c%21%2B") = Ok (lit "a b c!+").
Proof. destruct (decoders_exact [] (lit "a+b%20c%21%2B")) as [H _]. rewrite H. vm_compute. reflexivity. Defined.

(** Defect: whether a key that is present without a value is reported as absent
    depends on the history of the memory.  The fourth key is stored in a slot that
    [append] has left zero, whose value stays nil. *)
Definition four_flags : Args := fold_left (fun a k => AddNoValue doubling a (lit k)) ["a"; "b"; "c"; "d"]%string no_args.
Example optional_depends_on_capacity :
  args_view (args four_flags) = map (fun k => (lit k, [], true)) ["a"; "b"; "c"; "d"]%string
  /\ map (fun k => PeekOptional (args four_flags) (lit k)) ["a"; "b"; "c"; "d"]%string = [Some []; Some []; Some []; None]
  /\ HasArg (args four_flags) (lit "d") = true.
Proof. vm_compute. done. Qed.
(** Defect: [SetArg] replaces the first entry of the key and leaves the others. *)
Example set_leaves_duplicates :
  args_view (args (Set_ doubling (Add doubling (Add doubling no_args (lit "a") (lit "1")) (lit "a") (lit "2")) (lit "a") (lit "3"))) = [(lit "a", lit "3", false); (lit "a", lit "2", false)].
Proof. vm_compute. reflexivity. Qed.
(** Defect: a plus sign behind an incomplete escape at the end is not decoded. *)
Example last_plus_kept : DecodeArgAppend [] (lit "a+%+") = Ok (lit "a %+").
Proof. vm_compute. reflexivity. Qed.
(** Defect: a number that is too long is reported as having a trailing character. *)
Example long_number_error : parseUint (lit "99999999999999999999") = (-1, Some errUnexpectedTrailingChar).
Proof. vm_compute. reflexivity. Qed.
