(* ===== verification/H1Scanner.v ===== *)
(** * HTTP/1.1: the header scanner

    Models [src/proto/h1/headerscanner.go].  The scanner walks over a block of header
    lines in a buffer.  A folded line is joined in place: the continuation is moved
    forward in the buffer, behind the part that was scanned.  The model keeps the
    buffer and writes to it, and a key or a value is what the buffer holds.

    The theorems: scanning any buffer terminates without a panic, and no write goes
    beyond what has been read; the fields of a block arrive, folded or not, and the
    scanner stops behind the block. *)

From Stdlib Require Import Ascii String.
From S2P Require Import Prelude Intern H1Base.
Open Scope Z_scope.

Inductive scan_error :=
| ErrNeedMore
| ErrInvalidHeaderLeadingWhitespace
| MissingColon (line : bytes)
| MalformedLine (kv : bytes).

#[projections(primitive)]
Record HeaderScanner := mkScanner {
  hs_B : bytes;
  hs_R : Z;
  hs_BlockEnd : Z;
  hs_Key : bytes;
  hs_Val : bytes;
  hs_Err : option scan_error;
  hs_Init : bool;
}.
Definition NewHeaderScanner (b : bytes) : HeaderScanner := mkScanner b 0 0 [] [] None false.
Definition Reset (s : HeaderScanner) (b : bytes) : HeaderScanner := mkScanner b 0 0 [] [] None false.
Definition Key (s : HeaderScanner) : bytes := hs_Key s.
Definition Value (s : HeaderScanner) : bytes := hs_Val s.
Definition Err_ (s : HeaderScanner) : option scan_error := hs_Err s.

(** A slice of the buffer: where it starts and how long it is. *)
Record region := mkRegion { rg_at : Z; rg_len : Z }.
Definition region_bytes (B : bytes) (r : region) : bytes := ztake (rg_len r) (zdrop (rg_at r) B).

(** [append] to a region that ends inside the buffer overwrites what follows it. *)
Definition append_at {E} (B : bytes) (r : region) (x : bytes) : res E (bytes * region) :=
  if rg_at r + rg_len r + zlen x <=? zlen B then
    Ok (ztake (rg_at r + rg_len r) B ++ x ++ zdrop (rg_at r + rg_len r + zlen x) B, mkRegion (rg_at r) (rg_len r + zlen x))
  else Panic.

Section Code.
Context `{Silicon}.

(** [readLine]: the line without its end, [None] for nil. *)
Definition readLine (s : HeaderScanner) : HeaderScanner * option region :=
  let i := IndexByte (zdrop (hs_R s) (hs_B s)) 10 in
  if i <? 0 then (s, None)
  else
    let at_ := hs_R s in
    let s := { s with hs_R := hs_R s + i + 1 } in
    if (i >? 0) && (znth (hs_B s) (at_ + i - 1) =? 13) then (s, Some (mkRegion at_ (i - 1))) else (s, Some (mkRegion at_ i)).

Definition skipSpace (s : HeaderScanner) : HeaderScanner * bool :=
  if hs_R s >=? zlen (hs_B s) then (s, false)
  else
    let rest := zdrop (hs_R s) (hs_B s) in
    let skipped := zlen rest - zlen (TrimLeadingSpace rest) in
    if skipped >? 0 then ({ s with hs_R := hs_R s + skipped }, true) else (s, false).

(** The loop that joins continuation lines to [mline]. *)
Fixpoint fold_loop (fuel : nat) (s : HeaderScanner) (mline : region) : res scan_error (HeaderScanner * region) :=
  match fuel with
  | O => Panic
  | S fuel' =>
      let '(s, more) := skipSpace s in
      if negb more then Ok (s, mline)
      else
        let* (B, mline) := append_at (hs_B s) mline [32] in
        let '(s, nxt) := readLine { s with hs_B := B } in
        let x := TrimSpace (match nxt with Some r => region_bytes (hs_B s) r | None => [] end) in
        let* (B, mline) := append_at (hs_B s) mline x in
        fold_loop fuel' { s with hs_B := B } mline
  end.

(** [readContinuedLineSlice]: the line with what was joined, the position of its colon,
    and the error. *)
Definition readContinuedLineSlice (s : HeaderScanner) : res scan_error (HeaderScanner * option region * Z * option scan_error) :=
  let '(s, line) := readLine s in
  match line with
  | None => Ok (s, None, -1, None)
  | Some line =>
      if rg_len line =? 0 then Ok (s, Some line, -1, None)
      else
        let colon := IndexColon (region_bytes (hs_B s) line) in
        if colon <? 0 then Ok (s, None, -1, Some (MissingColon (region_bytes (hs_B s) line)))
        else if zlen (hs_B s) - hs_R s >? 0 then
          let peekChar := znth (hs_B s) (hs_R s) in
          if negb (peekChar =? 32) && negb (peekChar =? 9) then Ok (s, Some line, colon, None)
          else
            let* (s, mline) := fold_loop (S (length (hs_B s))) s line in
            Ok (s, Some mline, colon, None)
        else Ok (s, Some line, colon, None)
  end.

(** The value: one leading space and no other white space at the ends is the common
    case. *)
Definition trim_value (v : bytes) : bytes :=
  if (zlen v >? 1) && (znth v 0 =? 32) && (znth v 1 >? 32) && (znth v (zlen v - 1) >? 32) then zdrop 1 v else TrimSpace v.

(** The first call cuts the buffer at the end of the block. *)
Definition init_scanner (s : HeaderScanner) : res scan_error (HeaderScanner * bool) :=
  let e := hs_BlockEnd s in
  if (zlen (hs_B s) >=? 2) && (znth (hs_B s) 0 =? 13) && (znth (hs_B s) 1 =? 10) then Ok ({ s with hs_R := 2 }, false)
  else
    let* (s, found) :=
      (if (e >=? 4) && (e <=? zlen (hs_B s)) && (znth (hs_B s) (e - 4) =? 13) && (znth (hs_B s) (e - 3) =? 10)
          && (znth (hs_B s) (e - 2) =? 13) && (znth (hs_B s) (e - 1) =? 10)
       then let* B := slice (hs_B s) 0 e in Ok ({ s with hs_B := B }, true)
       else
         let i := IndexCRLFCRLF (hs_B s) in
         if i <? 0 then Ok ({ s with hs_Err := Some ErrNeedMore }, false)
         else let* B := slice (hs_B s) 0 i in Ok ({ s with hs_B := B }, true)) in
    if negb found then Ok (s, false)
    else if (zlen (hs_B s) >? 0) && ((znth (hs_B s) 0 =? 32) || (znth (hs_B s) 0 =? 9))
    then Ok ({ s with hs_Err := Some ErrInvalidHeaderLeadingWhitespace }, false)
    else Ok ({ s with hs_Init := true }, true).

Definition Next (s : HeaderScanner) : res scan_error (HeaderScanner * bool) :=
  let* (s, ready) := (if hs_Init s then Ok (s, true) else init_scanner s) in
  if negb ready then Ok (s, false)
  else
    let* (s, kv, colon, err) := readContinuedLineSlice s in
    match kv with
    | None => Ok ({ s with hs_Err := err }, false)
    | Some kv =>
        if rg_len kv =? 0 then Ok ({ s with hs_Err := err }, false)
        else
          let l := region_bytes (hs_B s) kv in
          let* k := slice l 0 colon in
          let* v := slice l (colon + 1) (zlen l) in
          if negb (isValidHeaderKey k) then Ok ({ s with hs_Err := Some (MalformedLine l) }, false)
          else
            let s := { s with hs_Key := k; hs_Val := trim_value v } in
            match err with
            | Some e => Ok ({ s with hs_Err := Some e }, false)
            | None => Ok (s, true)
            end
    end.

(** The loop of a caller, which copies each field. *)
Fixpoint scan_all (fuel : nat) (s : HeaderScanner) : res scan_error (HeaderScanner * list (bytes * bytes)) :=
  match fuel with
  | O => Panic
  | S fuel' =>
      let* (s, more) := Next s in
      if negb more then Ok (s, [])
      else let* (s', l) := scan_all fuel' s in Ok (s', (Key s, Value s) :: l)
  end.
End Code.

(** ** The buffer as what has been read and what has not *)
Section Lemmas.
Context {S0 : Silicon} {L : SiliconLaws}.

Lemma append_at_ok {E} A l C T x :
  zlen x <= zlen C ->
  @append_at E ((A ++ l ++ C) ++ T) (mkRegion (zlen A) (zlen l)) x = Ok ((A ++ (l ++ x) ++ zdrop (zlen x) C) ++ T, mkRegion (zlen A) (zlen (l ++ x))).
Proof.
  intros Hx. unfold append_at. cbn [rg_at rg_len]. rewrite !zlen_app. pose proof (zlen_nonneg T). test_true (zlen A + zlen l + zlen x <=? zlen A + (zlen l + zlen C) + zlen T). do 2 f_equal.
  replace ((A ++ l ++ C) ++ T) with ((A ++ l) ++ C ++ T) by (by rewrite <- !app_assoc). rewrite ztake_app_eq by (rewrite zlen_app; lia).
  replace (zdrop (zlen A + zlen l + zlen x) ((A ++ l) ++ C ++ T)) with (zdrop (zlen x) C ++ T); [by rewrite <- !app_assoc|].
  pose proof (zlen_nonneg A). pose proof (zlen_nonneg l). pose proof (zlen_nonneg x). unfold zdrop, zlen in *.
  rewrite (drop_app_ge (A ++ l)) by (rewrite length_app; lia). rewrite drop_app_le by (rewrite length_app; lia). do 2 f_equal. rewrite length_app. lia.
Qed.
Lemma region_in A l C T : region_bytes ((A ++ l ++ C) ++ T) (mkRegion (zlen A) (zlen l)) = l.
Proof. unfold region_bytes. cbn [rg_at rg_len]. rewrite <- !app_assoc, zdrop_app. by rewrite ztake_app. Qed.

Definition at_pos (s : HeaderScanner) (P T : bytes) : Prop := hs_B s = P ++ T /\ hs_R s = zlen P.
Definition is_nl (c : Z) : bool := c =? 10.
Definition no_nl (l : bytes) : Prop := Forall (fun c => is_nl c = false) l.
(** A line ends in CR LF or LF. *)
Definition chop (l : bytes) : bytes := match reverse l with 13 :: k => reverse k | _ => l end.

Lemma chop_spec l : exists k, l = chop l ++ k /\ (k = [] \/ k = [13]).
Proof.
  unfold chop. destruct (reverse l) as [|c k] eqn:E; [exists []; rewrite app_nil_r; split; [done|by left]|].
  destruct (decide (c = 13)) as [->|Hc].
  - exists [13]. split; [|by right]. rewrite <- reverse_cons, <- E. by rewrite reverse_involutive.
  - exists []. rewrite app_nil_r. split; [|by left]. repeat case_match; simplify_eq; done.
Qed.
Lemma chop_cr l : chop (l ++ [13]) = l.
Proof. unfold chop. rewrite reverse_snoc. apply reverse_involutive. Qed.

Lemma readLine_at s P l T :
  at_pos s P (l ++ 10 :: T) -> no_nl l ->
  exists s', readLine s = (s', Some (mkRegion (zlen P) (zlen (chop l)))) /\ s' = { s with hs_R := zlen P + zlen l + 1 } /\ at_pos s' (P ++ l ++ [10]) T.
Proof.
  intros [HB HR] Hl. unfold readLine. rewrite HB, HR, zdrop_app. unfold IndexByte. rewrite index_byte_law, index_where_app by done. pose proof (zlen_nonneg l). test_false (zlen l <? 0).
  set (s' := { s with hs_R := zlen P + zlen l + 1 }). assert (Hat : at_pos s' (P ++ l ++ [10]) T).
  { split; [change (hs_B s = (P ++ l ++ [10]) ++ T); rewrite HB, <- !app_assoc; done|change (zlen P + zlen l + 1 = zlen (P ++ l ++ [10])); rewrite !zlen_app; change (zlen [10]) with 1; lia]. }
  change (hs_B s') with (hs_B s). rewrite HB. exists s'. split; [|done].
  assert (Hlast : (zlen l >? 0) && (znth (P ++ l ++ 10 :: T) (zlen P + zlen l - 1) =? 13) = match reverse l with 13 :: _ => true | _ => false end).
  { destruct l as [|c l _] using rev_ind; [done|]. rewrite zlen_app. change (zlen [c]) with 1. pose proof (zlen_nonneg l). replace (zlen l + 1 >? 0) with true by (symmetry; rewrite Z.gtb_ltb; apply Z.ltb_lt; lia). cbn [andb].
    replace (znth (P ++ (l ++ [c]) ++ 10 :: T) (zlen P + (zlen l + 1) - 1)) with c.
    - rewrite reverse_snoc. destruct (c =? 13) eqn:E; bool_simpl; [by subst|]. repeat case_match; simplify_eq; done.
    - unfold znth, zlen in *. rewrite app_nth2 by lia. rewrite app_nth1 by (rewrite length_app; cbn; lia). rewrite app_nth2 by lia.
      replace (Z.to_nat _ - length P - length l)%nat with 0%nat by lia. done. }
  rewrite Hlast. unfold chop. destruct (reverse l) as [|c k] eqn:E; [apply (f_equal reverse) in E; rewrite reverse_involutive in E; subst l; done|].
  assert (El : zlen l = zlen k + 1) by (apply (f_equal reverse) in E; rewrite reverse_involutive, reverse_cons in E; rewrite E, zlen_app; unfold zlen; by rewrite length_reverse).
  assert (Er : zlen (reverse k) = zlen l - 1) by (rewrite El; unfold zlen; rewrite length_reverse; lia).
  destruct (decide (c = 13)) as [->|Hc]; [by rewrite Er|]. repeat case_match; simplify_eq; done.
Qed.
Lemma skipSpace_at s P w T :
  at_pos s P (w ++ T) -> Forall (fun c => is_ows c = true) w -> match T with [] => True | c :: _ => is_ows c = false end ->
  skipSpace s = ({ s with hs_R := zlen P + zlen w }, negb (zlen w =? 0)) /\ at_pos { s with hs_R := zlen P + zlen w } (P ++ w) T.
Proof.
  intros [HB HR] Hw HT. split; [|split; [change (hs_B s = (P ++ w) ++ T); by rewrite HB, <- app_assoc|change (zlen P + zlen w = zlen (P ++ w)); by rewrite zlen_app]].
  unfold skipSpace. rewrite HB, HR, !zlen_app. pose proof (zlen_nonneg w). pose proof (zlen_nonneg T).
  assert (Hsame : w = [] -> { s with hs_R := zlen P + zlen w } = s) by (intros ->; change (zlen (@nil Z)) with 0; rewrite Z.add_0_r, <- HR; done).
  destruct (zlen P >=? zlen P + (zlen w + zlen T)) eqn:E; bool_simpl.
  - assert (w = []) as -> by (apply zlen_zero; lia). by rewrite Hsame.
  - rewrite zdrop_app. unfold TrimLeadingSpace. rewrite trim_leading_law, trim_left_ows, trim_left_none, zlen_app by done. replace (zlen w + zlen T - zlen T) with (zlen w) by lia.
    destruct (zlen w >? 0) eqn:E2; bool_simpl; [by test_false (zlen w =? 0)|]. assert (w = []) as -> by (apply zlen_zero; lia). by rewrite Hsame.
Qed.

(** What the scanner does not touch while it reads a line. *)
Definition same_scan (s s' : HeaderScanner) : Prop := hs_Init s' = hs_Init s /\ hs_Err s' = hs_Err s /\ zlen (hs_B s') = zlen (hs_B s).
Lemma same_scan_trans a b c : same_scan a b -> same_scan b c -> same_scan a c.
Proof. intros (? & ? & ?) (? & ? & ?). repeat split; congruence. Qed.
Definition plain_head (T : bytes) : Prop := match T with [] => True | c :: _ => is_ows c = false end.
Definition trim (b : bytes) : bytes := trim_right (trim_left b).
Lemma trim_length b : zlen (trim b) <= zlen b.
Proof.
  unfold trim. destruct (trim_left_split b) as (w & E & _). destruct (trim_right_split (trim_left b)) as (w' & E' & _).
  apply (f_equal zlen) in E. apply (f_equal zlen) in E'. rewrite zlen_app in *. pose proof (zlen_nonneg w). pose proof (zlen_nonneg w'). lia.
Qed.

(** One continuation line: skipped white space, then [c] up to a line feed ([nl]), or
    to the end of the buffer. *)
Lemma fold_step fuel s A l C w c nl T :
  at_pos s (A ++ l ++ C) (w ++ c ++ nl ++ T) -> 1 <= zlen C -> Forall (fun c => is_ows c = true) w -> w <> [] -> plain_head (c ++ nl ++ T) ->
  no_nl c -> (nl = [10] \/ nl = [] /\ c = [] /\ no_nl T) ->
  exists s1 C1, fold_loop (S fuel) s (mkRegion (zlen A) (zlen l)) = fold_loop fuel s1 (mkRegion (zlen A) (zlen (l ++ 32 :: trim (chop c))))
    /\ at_pos s1 (A ++ (l ++ 32 :: trim (chop c)) ++ C1) T /\ 1 <= zlen C1 /\ same_scan s s1.
Proof.
  intros Hat HC Hw Hwne Hhead Hc Hnl. cbn [fold_loop]. destruct (skipSpace_at s (A ++ l ++ C) w (c ++ nl ++ T) Hat Hw Hhead) as [-> Hat1].
  replace (negb (zlen w =? 0)) with true by (symmetry; apply negb_true_iff, Z.eqb_neq; intros Hz; by apply zlen_zero in Hz). cbn [negb].
  set (s1 := { s with hs_R := zlen (A ++ l ++ C) + zlen w }) in *. destruct Hat1 as [HB1 HR1]. rewrite HB1.
  assert (Hwl : 1 <= zlen w) by (destruct w as [|x w]; [done|rewrite zlen_cons; pose proof (zlen_nonneg w); lia]).
  replace ((A ++ l ++ C) ++ w) with (A ++ l ++ (C ++ w)) by (by rewrite <- !app_assoc). rewrite append_at_ok by (change (zlen [32]) with 1; rewrite zlen_app; lia). cbn [res_bind].
  change (zlen [32]) with 1. set (C2 := zdrop 1 (C ++ w)). set (B2 := (A ++ (l ++ [32]) ++ C2) ++ c ++ nl ++ T). set (s2 := { s1 with hs_B := B2 }).
  assert (HC2 : zlen C2 = zlen C + zlen w - 1) by (subst C2; rewrite zlen_zdrop; rewrite zlen_app; lia).
  assert (Hat2 : at_pos s2 (A ++ (l ++ [32]) ++ C2) (c ++ nl ++ T)).
  { split; [done|]. change (hs_R s1 = zlen (A ++ (l ++ [32]) ++ C2)). rewrite HR1, !zlen_app, HC2. change (zlen [32]) with 1. lia. }
  assert (Hsc2 : same_scan s s2). { split; [done|]. split; [done|]. change (zlen B2 = zlen (hs_B s)). destruct Hat as [-> _]. subst B2. rewrite !zlen_app, HC2. change (zlen [32]) with 1. lia. }
  destruct Hnl as [->|(-> & -> & HT)].
  - cbn [app] in Hat2. destruct (readLine_at s2 _ c T Hat2 Hc) as (s3 & -> & Es3 & Hat3). destruct (chop_spec c) as (k & Ek & Hk).
    assert (Hkl : zlen k <= 1) by (destruct Hk as [->| ->]; done). assert (Hcl : zlen c = zlen (chop c) + zlen k) by (rewrite Ek at 1; apply zlen_app).
    assert (EB3 : hs_B s3 = ((A ++ (l ++ [32]) ++ C2) ++ chop c ++ k ++ [10]) ++ T) by (destruct Hat3 as [-> _]; by rewrite (app_assoc (chop c)), <- Ek).
    rewrite EB3, region_in. unfold TrimSpace. rewrite trim_space_law. fold (trim (chop c)). set (x := trim (chop c)). pose proof (trim_length (chop c)) as Hx. fold x in Hx.
    pose proof (zlen_nonneg x). pose proof (zlen_nonneg k).
    replace (((A ++ (l ++ [32]) ++ C2) ++ chop c ++ k ++ [10]) ++ T) with ((A ++ (l ++ [32]) ++ (C2 ++ chop c ++ k ++ [10])) ++ T) by (by rewrite <- !app_assoc).
    rewrite append_at_ok by (rewrite !zlen_app; change (zlen [10]) with 1; lia). cbn [res_bind].
    eexists _, (zdrop (zlen x) (C2 ++ chop c ++ k ++ [10])). replace (l ++ 32 :: x) with ((l ++ [32]) ++ x) by (by rewrite <- app_assoc). split; [reflexivity|].
    assert (HC3 : zlen (zdrop (zlen x) (C2 ++ chop c ++ k ++ [10])) = zlen C2 + zlen (chop c) + zlen k + 1 - zlen x) by (rewrite zlen_zdrop; rewrite !zlen_app; change (zlen [10]) with 1; lia).
    split; [|split; [lia|]].
    + split; [done|]. match goal with |- hs_R ?t = _ => change (hs_R t) with (hs_R s3) end. rewrite (proj2 Hat3). rewrite !zlen_app, HC3. change (zlen [32]) with 1. change (zlen [10]) with 1. lia.
    + eapply same_scan_trans; [exact Hsc2|]. split; [by rewrite Es3|]. split; [by rewrite Es3|].
      match goal with |- zlen ?t = _ => change t with ((A ++ ((l ++ [32]) ++ x) ++ zdrop (zlen x) (C2 ++ chop c ++ k ++ [10])) ++ T) end.
      destruct Hat2 as [-> _]. rewrite !zlen_app, HC3, !zlen_cons. change (zlen (@nil Z)) with 0. lia.
  - cbn [app] in *. assert (Hr : readLine s2 = (s2, None)).
    { unfold readLine. destruct Hat2 as [-> ->]. rewrite zdrop_app. unfold IndexByte. rewrite index_byte_law. apply index_where_none in HT. fold is_nl. by rewrite (proj2 (Z.ltb_lt _ 0) HT). }
    rewrite Hr. unfold TrimSpace. rewrite trim_space_law. change (trim_right (trim_left [])) with (@nil Z). destruct Hat2 as [HB2 HR2]. rewrite HB2.
    rewrite append_at_ok by (change (zlen (@nil Z)) with 0; apply zlen_nonneg). cbn [res_bind]. rewrite app_nil_r. change (zdrop (zlen []) C2) with C2.
    change (trim (chop [])) with (@nil Z). eexists _, C2. split; [reflexivity|]. split; [split; [done|]|split; [lia|]].
    + match goal with |- hs_R ?t = _ => change (hs_R t) with (hs_R s2) end. done.
    + done.
Qed.

Lemma fold_stop fuel s P T r :
  at_pos s P T -> plain_head T -> exists s', fold_loop (S fuel) s r = Ok (s', r) /\ at_pos s' P T /\ same_scan s s'.
Proof.
  intros Hat Hhead. cbn [fold_loop]. destruct (skipSpace_at s P [] T Hat (List.Forall_nil _) Hhead) as [-> Hat']. change (negb (zlen [] =? 0)) with false. cbn [negb].
  eexists. split; [reflexivity|]. rewrite app_nil_r in Hat'. by split.
Qed.
Lemma trim_left_head b : plain_head (trim_left b).
Proof. induction b as [|c b IH]; [done|]. cbn [trim_left]. by destruct (is_ows c) eqn:E. Qed.
(** Joining always ends, and never writes beyond what was read. *)
Lemma fold_total fuel : forall s A l C T,
  at_pos s (A ++ l ++ C) T -> 1 <= zlen C -> (length T < fuel)%nat ->
  exists s' l' C' T', fold_loop fuel s (mkRegion (zlen A) (zlen l)) = Ok (s', mkRegion (zlen A) (zlen (l ++ l'))) /\ at_pos s' (A ++ (l ++ l') ++ C') T'
    /\ same_scan s s' /\ (length T' <= length T)%nat.
Proof.
  induction fuel as [|fuel IH]; intros s A l C T Hat HC Hf; [lia|]. destruct (trim_left_split T) as (w & ET & Hw). pose proof (trim_left_head T) as Hh.
  destruct (decide (w = [])) as [->|Hwne].
  - cbn [app] in ET. destruct (fold_stop fuel s (A ++ l ++ C) T (mkRegion (zlen A) (zlen l)) Hat) as (s' & E & Hat' & Hsc); [by rewrite ET|].
    exists s', [], C, T. rewrite app_nil_r. done.
  - assert (Hstep : exists c nl T1, trim_left T = c ++ nl ++ T1 /\ no_nl c /\ (nl = [10] \/ nl = [] /\ c = [] /\ no_nl T1)).
    { pose proof (index_where_range is_nl (trim_left T)). destruct (Z_lt_le_dec (index_where is_nl (trim_left T)) 0) as [Hlt|Hge].
      - exists [], [], (trim_left T). split; [done|]. split; [constructor|]. right. split; [done|]. split; [done|]. by apply index_where_none.
      - destruct (index_where_split _ _ Hge) as (c & x & y & E & Hx & Hc & _). assert (x = 10) as -> by (unfold is_nl in Hx; lia). exists c, [10], y. split; [done|]. split; [done|by left]. }
    destruct Hstep as (c & nl & T1 & Et & Hc & Hnl). rewrite Et in *. rewrite ET in Hat.
    destruct (fold_step fuel s A l C w c nl T1 Hat HC Hw Hwne Hh Hc Hnl) as (s1 & C1 & -> & Hat1 & HC1 & Hsc1).
    assert (Hl : (length T1 < length T)%nat) by (rewrite ET, !length_app; destruct w; [done|cbn; lia]).
    destruct (IH s1 A _ C1 T1 Hat1 HC1) as (s' & l' & C' & T' & E & Hat' & Hsc' & HT'); [lia|]. exists s', (32 :: trim (chop c) ++ l'), C', T'.
    replace (l ++ 32 :: trim (chop c) ++ l') with ((l ++ 32 :: trim (chop c)) ++ l') by (by rewrite <- app_assoc). split; [done|]. split; [done|].
    split; [by eapply same_scan_trans|lia].
Qed.

(** ** Every call terminates without a panic *)
Definition scan_ok (s : HeaderScanner) : Prop := 0 <= hs_R s <= zlen (hs_B s).
Lemma scan_split s : scan_ok s -> exists P T, at_pos s P T.
Proof.
  intros Hok. exists (ztake (hs_R s) (hs_B s)), (zdrop (hs_R s) (hs_B s)). split; [by rewrite ztake_zdrop|]. unfold scan_ok in Hok. by rewrite zlen_ztake.
Qed.
Lemma at_pos_ok s P T : at_pos s P T -> scan_ok s.
Proof. intros [HB HR]. unfold scan_ok. rewrite HB, HR, zlen_app. pose proof (zlen_nonneg P). pose proof (zlen_nonneg T). lia. Qed.

(** A line is read to its end; the colon lies in it. *)
Lemma read_continued_total s P T :
  at_pos s P T ->
  exists s' kv colon err P' T', readContinuedLineSlice s = Ok (s', kv, colon, err) /\ at_pos s' P' T' /\ same_scan s s' /\ (length T' <= length T)%nat
    /\ match kv with
       | None => True
       | Some r => rg_len r = 0 \/ (err = None /\ (length T' < length T)%nat /\ 0 <= colon < rg_len r /\ zlen (region_bytes (hs_B s') r) = rg_len r)
       end.
Proof.
  intros Hat. unfold readContinuedLineSlice. pose proof (index_where_range is_nl T) as Hr. destruct (Z_lt_le_dec (index_where is_nl T) 0) as [Hlt|Hge].
  - assert (Hrl : readLine s = (s, None)).
    { unfold readLine. destruct Hat as [-> ->]. rewrite zdrop_app. unfold IndexByte. rewrite index_byte_law. fold is_nl. by rewrite (proj2 (Z.ltb_lt _ 0) Hlt). }
    rewrite Hrl. eexists _, None, _, _, P, T. split; [reflexivity|]. split; [done|]. split; [done|]. split; [lia|done].
  - destruct (index_where_split _ _ Hge) as (l & x & T1 & ET & Hx & Hl & _). assert (x = 10) as -> by (unfold is_nl in Hx; lia). rewrite ET in Hat.
    destruct (readLine_at s P l T1 Hat Hl) as (s1 & -> & Es1 & Hat1). destruct (chop_spec l) as (k & Ek & Hk).
    assert (Hsc : same_scan s s1) by (by rewrite Es1). assert (HT1 : (length T1 < length T)%nat) by (rewrite ET, length_app; cbn; lia). cbn [rg_len].
    assert (HP1 : P ++ l ++ [10] = P ++ chop l ++ (k ++ [10])) by (rewrite Ek at 1; by rewrite <- !app_assoc). rewrite HP1 in Hat1.
    destruct (zlen (chop l) =? 0) eqn:Ez; bool_simpl; [eexists _, _, _, _, _, _; split; [reflexivity|]; split; [done|]; split; [done|]; split; [lia|by left]|].
    assert (Hreg : region_bytes (hs_B s1) (mkRegion (zlen P) (zlen (chop l))) = chop l) by (destruct Hat1 as [-> _]; apply region_in). rewrite Hreg.
    unfold IndexColon. rewrite index_colon_law. pose proof (index_where_range (fun c => c =? 58) (chop l)) as Hc.
    destruct (index_where (fun c => c =? 58) (chop l) <? 0) eqn:Ec; bool_simpl; [eexists _, None, _, _, _, _; split; [reflexivity|]; split; [done|]; split; [done|]; split; [lia|done]|].
    assert (Hplain : exists s' kv colon err P' T', @Ok scan_error _ (s1, Some (mkRegion (zlen P) (zlen (chop l))), index_where (fun c => c =? 58) (chop l), @None scan_error) = Ok (s', kv, colon, err)
      /\ at_pos s' P' T' /\ same_scan s s' /\ (length T' <= length T)%nat /\ match kv with None => True | Some r => rg_len r = 0 \/ (err = None /\ (length T' < length T)%nat /\ 0 <= colon < rg_len r /\ zlen (region_bytes (hs_B s') r) = rg_len r) end).
    { eexists _, _, _, _, _, _. split; [reflexivity|]. split; [done|]. split; [done|]. split; [lia|]. right. rewrite Hreg. cbn [rg_len]. repeat split; lia. }
    destruct (zlen (hs_B s1) - hs_R s1 >? 0); [|done]. destruct (negb _ && negb _); [done|].
    destruct (fold_total (S (length (hs_B s1))) s1 P (chop l) (k ++ [10]) T1 Hat1) as (s2 & l' & C' & T2 & -> & Hat2 & Hsc2 & HT2).
    { rewrite zlen_app. change (zlen [10]) with 1. pose proof (zlen_nonneg k). lia. }
    { destruct Hat1 as [-> _]. rewrite length_app. lia. }
    cbn [res_bind]. eexists _, _, _, _, _, _. split; [reflexivity|]. split; [exact Hat2|]. split; [by eapply same_scan_trans|]. split; [lia|]. right. cbn [rg_len].
    assert (Hreg2 : region_bytes (hs_B s2) (mkRegion (zlen P) (zlen (chop l ++ l'))) = chop l ++ l') by (destruct Hat2 as [-> _]; apply region_in). rewrite Hreg2, zlen_app. pose proof (zlen_nonneg l').
    repeat split; lia.
Qed.

(** The first call starts at the beginning; what is left is measured in bytes. *)
Definition left_over (s : HeaderScanner) : Z := zlen (hs_B s) - hs_R s.
Definition scan_inv (s : HeaderScanner) : Prop := scan_ok s /\ (hs_Init s = false -> hs_R s = 0).
Lemma init_total s :
  scan_inv s -> hs_Init s = false ->
  exists s' ready, init_scanner s = Ok (s', ready) /\ (ready = true -> hs_Init s' = true /\ scan_ok s' /\ left_over s' <= left_over s).
Proof.
  intros [Hok HR] Hi. specialize (HR Hi). unfold init_scanner, scan_ok, left_over in *. case_test; [eexists _, false; by split|].
  set (e := hs_BlockEnd s). pose proof (index_blank_range (hs_B s)) as Hrange.
  assert (Htail : forall n, 0 <= n <= zlen (hs_B s) -> exists s' ready,
    (let* (s, found) := (let* B := slice (hs_B s) 0 n in Ok ({ s with hs_B := B }, true)) in
     if negb found then Ok (s, false)
     else if (zlen (hs_B s) >? 0) && ((znth (hs_B s) 0 =? 32) || (znth (hs_B s) 0 =? 9)) then Ok ({ s with hs_Err := Some ErrInvalidHeaderLeadingWhitespace }, false)
     else Ok ({ s with hs_Init := true }, true)) = @Ok scan_error _ (s', ready)
    /\ (ready = true -> hs_Init s' = true /\ 0 <= hs_R s' <= zlen (hs_B s') /\ zlen (hs_B s') - hs_R s' <= zlen (hs_B s) - hs_R s)).
  { intros n Hn. rewrite slice_ok by lia. cbn [res_bind negb]. set (B := ztake (n - 0) (zdrop 0 (hs_B s))).
    assert (HB : zlen B = n) by (subst B; rewrite zdrop_0, zlen_ztake; lia). change (hs_B { s with hs_B := B }) with B.
    case_test; eexists _, _; (split; [reflexivity|]); [done|]. intros _. split; [done|].
    match goal with |- context [hs_R ?t] => change (hs_R t) with (hs_R s); change (hs_B t) with B end. lia. }
  destruct ((e >=? 4) && _ && _ && _ && _ && _) eqn:E; bool_simpl.
  - apply Htail. lia.
  - unfold IndexCRLFCRLF. destruct (IndexCRLFCRLF_ (hs_B s) <? 0) eqn:Ei; bool_simpl; [eexists _, false; by split|]. apply Htail. lia.
Qed.
Lemma Next_total s :
  scan_inv s -> exists s' more, Next s = Ok (s', more) /\ (more = true -> scan_inv s' /\ left_over s' < left_over s).
Proof.
  intros Hinv. unfold Next. assert (H1 : exists s1 ready, (if hs_Init s then Ok (s, true) else init_scanner s) = Ok (s1, ready) /\ (ready = true -> hs_Init s1 = true /\ scan_ok s1 /\ left_over s1 <= left_over s)).
  { destruct (hs_Init s) eqn:Hi; [|by apply init_total]. exists s, true. split; [done|]. intros _. split; [done|]. split; [apply Hinv|lia]. }
  destruct H1 as (s1 & ready & -> & Hready). cbn [res_bind]. destruct ready; [|eexists _, false; by split]. destruct (Hready eq_refl) as (Hi1 & Hok1 & Hleft). cbn [negb].
  destruct (scan_split s1 Hok1) as (P & T & Hat). destruct (read_continued_total s1 P T Hat) as (s2 & kv & colon & err & P' & T' & -> & Hat2 & Hsc & HT & Hkv). cbn [res_bind].
  destruct kv as [r|]; [|eexists _, false; by split]. destruct (rg_len r =? 0) eqn:Ez; [eexists _, false; by split|]. bool_simpl.
  destruct Hkv as [Hz|(-> & HT' & Hcol & Hreg)]; [done|]. rewrite !slice_ok by lia. cbn [res_bind]. case_test; [eexists _, false; by split|].
  eexists _, true. split; [reflexivity|]. intros _. split; [split|].
  - apply (at_pos_ok s2 P' T' Hat2).
  - intros Hf. exfalso. destruct Hsc as (Hi2 & _ & _). match type of Hf with hs_Init ?t = _ => change (hs_Init t) with (hs_Init s2) in Hf end. congruence.
  - match goal with |- left_over ?t < _ => change (left_over t) with (left_over s2) end. unfold left_over in *. destruct Hat as [HB HR]. destruct Hat2 as [HB2 HR2].
    rewrite HB, HR, zlen_app in Hleft. rewrite HB2, HR2, zlen_app. unfold zlen in *. lia.
Qed.
Lemma scan_all_total fuel : forall s, scan_inv s -> left_over s < Z.of_nat fuel -> exists s' l, scan_all fuel s = Ok (s', l).
Proof.
  induction fuel as [|fuel IH]; intros s Hinv Hl; [destruct Hinv as [Hok _]; unfold scan_ok, left_over in *; lia|]. cbn [scan_all].
  destruct (Next_total s Hinv) as (s1 & more & -> & Hm). cbn [res_bind]. destruct more; [|by eexists _, _]. cbn [negb]. destruct (Hm eq_refl) as [Hinv1 Hlt].
  destruct (IH s1 Hinv1) as (s' & l & ->); [lia|]. by eexists _, _.
Qed.

(** ** Blocks of fields

    A field is a name, the rest of its line, and continuation lines, each with the
    white space it starts with. *)
Record hfield := mkField { f_name : bytes; f_first : bytes; f_conts : list (bytes * bytes) }.
Definition eol : bytes := [13; 10].
Definition render_cont (wc : bytes * bytes) : bytes := wc.1 ++ wc.2 ++ eol.
Definition render_field (f : hfield) : bytes := (f_name f ++ 58 :: f_first f) ++ eol ++ concat (map render_cont (f_conts f)).
Definition joined (conts : list (bytes * bytes)) : bytes := concat (map (fun wc => 32 :: trim wc.2) conts).
Definition field_value (f : hfield) : bytes := trim (f_first f ++ joined (f_conts f)).
Definition cont_wf (wc : bytes * bytes) : Prop :=
  wc.1 <> [] /\ Forall (fun c => is_ows c = true) wc.1 /\ no_nl wc.2 /\ plain_head wc.2.
Definition field_wf (f : hfield) : Prop :=
  f_name f <> [] /\ Forall (fun c => is_token c = true) (f_name f) /\ no_nl (f_first f) /\ Forall cont_wf (f_conts f).

Lemma fold_conts conts : forall fuel s A l C T,
  Forall cont_wf conts -> at_pos s (A ++ l ++ C) (concat (map render_cont conts) ++ T) -> 1 <= zlen C -> plain_head T -> (length conts < fuel)%nat ->
  exists s' C', fold_loop fuel s (mkRegion (zlen A) (zlen l)) = Ok (s', mkRegion (zlen A) (zlen (l ++ joined conts))) /\ at_pos s' (A ++ (l ++ joined conts) ++ C') T /\ same_scan s s'.
Proof.
  induction conts as [|[w c] conts IH]; intros fuel s A l C T Hwf Hat HC HT Hf; (destruct fuel as [|fuel]; [lia|]).
  - destruct (fold_stop fuel s _ T (mkRegion (zlen A) (zlen l)) Hat HT) as (s' & E & Hat' & Hsc). exists s', C. unfold joined. cbn [map concat]. by rewrite app_nil_r.
  - apply Forall_cons_iff in Hwf as [(Hwne & Hw & Hc & Hh) Hwf]. cbn [fst snd] in *. cbn [map concat] in Hat. unfold render_cont at 1, eol in Hat. cbn [fst snd] in Hat. rewrite <- !app_assoc in Hat.
    replace (w ++ c ++ [13; 10] ++ concat (map render_cont conts) ++ T) with (w ++ (c ++ [13]) ++ [10] ++ concat (map render_cont conts) ++ T) in Hat by (by rewrite <- !app_assoc).
    destruct (fold_step fuel s A l C w (c ++ [13]) [10] _ Hat HC Hw Hwne) as (s1 & C1 & -> & Hat1 & HC1 & Hsc1); [by destruct c|apply Forall_app; split; [done|by repeat constructor]|by left|].
    rewrite chop_cr in *. destruct (IH fuel s1 A _ C1 T Hwf Hat1 HC1 HT) as (s' & C' & E & Hat' & Hsc); [cbn in Hf; lia|]. exists s', C'.
    replace (l ++ joined ((w, c) :: conts)) with ((l ++ 32 :: trim c) ++ joined conts) by (unfold joined; cbn [map concat snd]; by rewrite <- !app_assoc).
    split; [done|]. split; [done|]. by eapply same_scan_trans.
Qed.
Lemma trim_value_spec v : trim_value v = trim v.
Proof.
  unfold trim_value. case_test; [|unfold TrimSpace; by rewrite trim_space_law]. destruct v as [|c v]; [done|]. change (znth (c :: v) 0) with c in *. subst c.
  rewrite zlen_cons in *. pose proof (zlen_nonneg v). change (zdrop 1 (32 :: v)) with v. unfold trim. cbn [trim_left]. change (is_ows 32) with true. cbn iota.
  assert (Hlast : znth (32 :: v) (1 + zlen v - 1) = znth v (zlen v - 1)) by (unfold znth; replace (Z.to_nat (1 + zlen v - 1)) with (S (Z.to_nat (zlen v - 1))) by lia; done). rewrite Hlast in *.
  rewrite trim_left_none; [symmetry; apply trim_right_none|].
  - destruct v as [|d v _] using rev_ind; [done|]. rewrite reverse_snoc. rewrite zlen_app in *. change (zlen [d]) with 1 in *. replace (znth (v ++ [d]) (zlen v + 1 - 1)) with d in *.
    + unfold is_ows. apply orb_false_iff. rewrite !Z.eqb_neq. lia.
    + unfold znth, zlen. rewrite app_nth2 by lia. replace (Z.to_nat (Z.of_nat (length v) + 1 - 1) - length v)%nat with 0%nat by lia. done.
  - destruct v as [|d v]; [done|]. change (znth (32 :: d :: v) 1) with d in *. unfold is_ows. apply orb_false_iff. rewrite !Z.eqb_neq. lia.
Qed.

(** Names have no colon and no line end, and are no white space. *)
Lemma name_clean name : Forall (fun c => is_token c = true) name -> Forall (fun c => (c =? 58) = false) name /\ no_nl name /\ bytes_ok name /\ forallb is_token name = true.
Proof.
  intros Hn. assert (Ht : forall c, is_token c = true -> (c =? 58) = false /\ is_nl c = false /\ is_byte c).
  { intros c Hc. assert (HF : Forall (fun c => (c =? 58) = false /\ is_nl c = false /\ is_byte c) token_chars) by (apply (bool_decide_unpack _); vm_compute; exact I).
    unfold is_token in Hc. apply bool_decide_eq_true in Hc. rewrite List.Forall_forall in HF. apply HF. by apply list_elem_of_In. }
  repeat split; try (eapply Forall_impl; [|exact Hn]; intros c Hc; apply (Ht c Hc)). apply forallb_forall. intros c Hc. by apply (proj1 (List.Forall_forall _ _) Hn).
Qed.
Lemma read_continued_field s P f T :
  field_wf f -> at_pos s P (render_field f ++ T) -> plain_head T ->
  exists s' C', readContinuedLineSlice s = Ok (s', Some (mkRegion (zlen P) (zlen (f_name f ++ 58 :: f_first f ++ joined (f_conts f)))), zlen (f_name f), None)
    /\ at_pos s' (P ++ (f_name f ++ 58 :: f_first f ++ joined (f_conts f)) ++ C') T /\ same_scan s s'.
Proof.
  intros (Hne & Hname & Hfirst & Hconts) Hat HT. destruct (name_clean _ Hname) as (Hcol & Hnl & _ & _). unfold readContinuedLineSlice. set (l := f_name f ++ 58 :: f_first f) in *.
  assert (Hline : no_nl (l ++ [13])) by (subst l; rewrite <- app_assoc; cbn [app]; apply Forall_app; split; [done|]; constructor; [done|]; apply Forall_app; split; [done|by repeat constructor]).
  unfold render_field, eol in Hat. fold l in Hat. replace ((l ++ [13; 10] ++ concat (map render_cont (f_conts f))) ++ T) with ((l ++ [13]) ++ 10 :: concat (map render_cont (f_conts f)) ++ T) in Hat by (by rewrite <- !app_assoc).
  destruct (readLine_at s P _ _ Hat Hline) as (s1 & -> & Es1 & Hat1). rewrite chop_cr in *. assert (Hsc : same_scan s s1) by (by rewrite Es1). cbn [rg_len].
  assert (Hl : 0 < zlen l) by (subst l; rewrite zlen_app, zlen_cons; pose proof (zlen_nonneg (f_name f)); pose proof (zlen_nonneg (f_first f)); lia). test_false (zlen l =? 0).
  rewrite <- app_assoc in Hat1. change ([13] ++ [10]) with eol in Hat1.
  assert (Hreg : region_bytes (hs_B s1) (mkRegion (zlen P) (zlen l)) = l) by (destruct Hat1 as [-> _]; apply region_in). rewrite Hreg.
  unfold IndexColon. rewrite index_colon_law. subst l. rewrite index_where_app by done. pose proof (zlen_nonneg (f_name f)). test_false (zlen (f_name f) <? 0).
  assert (Ej : f_name f ++ 58 :: f_first f ++ joined (f_conts f) = (f_name f ++ 58 :: f_first f) ++ joined (f_conts f)) by (by rewrite <- app_assoc). rewrite Ej.
  destruct (f_conts f) as [|[w c] conts] eqn:Ec.
  - cbn [map concat app] in Hat1. unfold joined. cbn [map concat]. rewrite app_nil_r. exists s1, eol. assert (Hret : forall (b1 b2 : bool) X, (b1 = true -> b2 = false -> False) ->
      (if b1 then if b2 then Ok (s1, Some (mkRegion (zlen P) (zlen (f_name f ++ 58 :: f_first f))), zlen (f_name f), None) else X else Ok (s1, Some (mkRegion (zlen P) (zlen (f_name f ++ 58 :: f_first f))), zlen (f_name f), None))
      = @Ok scan_error _ (s1, Some (mkRegion (zlen P) (zlen (f_name f ++ 58 :: f_first f))), zlen (f_name f), @None scan_error)) by (intros [] [] X Hx; try done; exfalso; by apply Hx).
    split; [|done]. apply Hret. destruct Hat1 as [-> ->]. rewrite zlen_app. intros H1 H2. bool_simpl. destruct T as [|t T]; [change (zlen (@nil Z)) with 0 in *; lia|].
    cbn in HT. unfold is_ows in HT. replace (znth _ _) with t in H2; [destruct (t =? 32), (t =? 9); done|]. unfold znth. rewrite app_nth2 by (unfold zlen; lia).
    unfold zlen. by rewrite Nat2Z.id, Nat.sub_diag.
  - rewrite <- Ec in *. assert (Hwc : exists x tl, concat (map render_cont (f_conts f)) ++ T = x :: tl /\ is_ows x = true).
    { rewrite Ec in *. apply Forall_cons_iff in Hconts as [(Hwne & Hw & _ & _) _]. cbn [fst] in *. destruct w as [|x w]; [done|]. apply Forall_cons_iff in Hw as [Hx _]. cbn [map concat]. by eexists x, _. }
    destruct Hwc as (x & tl & Ex & Hx). assert (Hpeek : (zlen (hs_B s1) - hs_R s1 >? 0) = true /\ znth (hs_B s1) (hs_R s1) = x).
    { destruct Hat1 as [-> ->]. rewrite zlen_app, Ex, zlen_cons. pose proof (zlen_nonneg tl). split; [rewrite Z.gtb_ltb; apply Z.ltb_lt; lia|].
      unfold znth. rewrite app_nth2 by (unfold zlen; lia). unfold zlen. by rewrite Nat2Z.id, Nat.sub_diag. }
    destruct Hpeek as [-> ->]. replace (negb (x =? 32) && negb (x =? 9)) with false by (unfold is_ows in Hx; destruct (x =? 32), (x =? 9); done).
    destruct (fold_conts (f_conts f) (S (length (hs_B s1))) s1 P (f_name f ++ 58 :: f_first f) eol T Hconts Hat1) as (s2 & C2 & -> & Hat2 & Hsc2); [done|done| |].
    { destruct Hat1 as [-> _]. rewrite !length_app. assert (length (f_conts f) <= length (concat (map render_cont (f_conts f))))%nat; [|lia].
      clear. induction (f_conts f) as [|wc l IH]; [done|]. cbn [map concat length]. rewrite length_app. unfold render_cont at 1, eol. rewrite !length_app. cbn [length]. lia. }
    cbn [res_bind]. exists s2, C2. split; [done|]. split; [done|]. by eapply same_scan_trans.
Qed.

Lemma Next_field s P f T :
  field_wf f -> hs_Init s = true -> at_pos s P (render_field f ++ T) -> plain_head T ->
  exists s' P', Next s = Ok (s', true) /\ Key s' = f_name f /\ Value s' = field_value f /\ at_pos s' P' T /\ same_scan s s'.
Proof.
  intros Hf Hi Hat HT. unfold Next. rewrite Hi. cbn [res_bind negb]. destruct (read_continued_field s P f T Hf Hat HT) as (s1 & C & -> & Hat1 & Hsc). cbn [res_bind rg_len].
  destruct Hf as (Hne & Hname & _ & _). destruct (name_clean _ Hname) as (_ & _ & Hb & Htok). set (v := f_first f ++ joined (f_conts f)) in *.
  pose proof (zlen_nonneg (f_name f)). pose proof (zlen_nonneg v). assert (Hl : zlen (f_name f ++ 58 :: v) = zlen (f_name f) + (1 + zlen v)) by (by rewrite zlen_app, zlen_cons).
  test_false (zlen (f_name f ++ 58 :: v) =? 0). assert (Hreg : region_bytes (hs_B s1) (mkRegion (zlen P) (zlen (f_name f ++ 58 :: v))) = f_name f ++ 58 :: v) by (destruct Hat1 as [-> _]; apply region_in).
  rewrite Hreg. rewrite !slice_ok by lia. cbn [res_bind]. rewrite zdrop_0, Z.sub_0_r, ztake_app.
  assert (Ev : ztake (zlen (f_name f ++ 58 :: v) - (zlen (f_name f) + 1)) (zdrop (zlen (f_name f) + 1) (f_name f ++ 58 :: v)) = v).
  { replace (f_name f ++ 58 :: v) with ((f_name f ++ [58]) ++ v) by (by rewrite <- app_assoc). rewrite zdrop_app_eq by (by rewrite zlen_app). apply ztake_all. rewrite !zlen_app. change (zlen [58]) with 1. lia. }
  rewrite Ev, isValidHeaderKey_spec, Htok by done. replace (zlen (f_name f) =? 0) with false by (symmetry; apply Z.eqb_neq; intros Hz; by apply zlen_zero in Hz). cbn [negb andb].
  eexists _, _. split; [reflexivity|]. split; [done|]. split; [|by split]. match goal with |- Value ?t = _ => change (Value t) with (trim_value v) end. apply trim_value_spec.
Qed.

Definition render_block (fs : list hfield) : bytes := concat (map render_field fs) ++ eol.
Lemma field_head f fs T : field_wf f -> exists c tl, concat (map render_field (f :: fs)) ++ T = c :: tl /\ is_token c = true.
Proof.
  intros (Hne & Hname & _). cbn [map concat]. unfold render_field at 1. destruct (f_name f) as [|c k]; [done|]. apply Forall_cons_iff in Hname as [Hc _]. by eexists c, _.
Qed.
Lemma token_plain c : is_token c = true -> is_ows c = false /\ c <> 10 /\ c <> 13.
Proof.
  intros Hc. assert (HF : Forall (fun c => is_ows c = false /\ c <> 10 /\ c <> 13) token_chars) by (apply (bool_decide_unpack _); vm_compute; exact I).
  unfold is_token in Hc. apply bool_decide_eq_true in Hc. rewrite List.Forall_forall in HF. apply HF. by apply list_elem_of_In.
Qed.
Lemma block_plain fs : Forall field_wf fs -> plain_head (concat (map render_field fs) ++ eol).
Proof.
  intros [|f fs' Hf _]; [done|]. destruct (field_head f fs' eol Hf) as (c & tl & -> & Hc). apply (token_plain c Hc).
Qed.
Lemma scan_fields fs : forall fuel s P,
  Forall field_wf fs -> hs_Init s = true -> hs_Err s = None -> at_pos s P (render_block fs) -> (length fs < fuel)%nat ->
  exists s' P', scan_all fuel s = Ok (s', map (fun f => (f_name f, field_value f)) fs) /\ hs_Err s' = None /\ at_pos s' P' [] /\ zlen (hs_B s') = zlen (hs_B s).
Proof.
  induction fs as [|f fs IH]; intros fuel s P Hfs Hi He Hat Hf; (destruct fuel as [|fuel]; [lia|]); cbn [scan_all].
  - unfold render_block, eol in Hat. cbn [map concat app] in Hat. change [13; 10] with ([13] ++ 10 :: []) in Hat.
    destruct (readLine_at s P [13] [] Hat) as (s1 & Hrl & Es1 & Hat1); [by repeat constructor|]. unfold Next, readContinuedLineSlice. rewrite Hi. cbn [res_bind negb]. rewrite Hrl.
    change (zlen (chop [13])) with 0. cbn [res_bind rg_len Z.eqb negb]. eexists _, _. split; [reflexivity|]. split; [done|]. split; [exact Hat1|]. by rewrite Es1.
  - apply Forall_cons_iff in Hfs as [Hff Hfs]. unfold render_block in Hat. cbn [map concat] in Hat. rewrite <- app_assoc in Hat.
    destruct (Next_field s P f _ Hff Hi Hat (block_plain fs Hfs)) as (s1 & P1 & -> & Hk & Hv & Hat1 & (Hi1 & He1 & HB1)). cbn [res_bind negb].
    destruct (IH fuel s1 P1 Hfs) as (s' & P' & -> & He' & Hat' & HB'); [congruence|congruence|done|cbn in Hf; lia|]. cbn [res_bind]. exists s', P'. rewrite Hk, Hv. split; [done|]. split; [done|]. split; [done|]. congruence.
Qed.

(** No blank line before the end of the block. *)
Lemma has_blank_line l y :
  no_nl l -> match y with [] => True | c :: y' => c <> 10 /\ (c <> 13 \/ y' = []) end -> has_blank (l ++ 13 :: 10 :: y) = has_blank y.
Proof.
  intros Hl Hy. induction Hl as [|c l Hc Hl IH]; cbn [app].
  - cbn [has_blank]. replace (blank_at (13 :: 10 :: y)) with false by (destruct y as [|a [|b y]]; try done; [|destruct Hy as [_ [Hy|Hy]]; [|done]]; unfold blank_at; repeat case_match; simplify_eq; done).
    cbn [orb]. replace (blank_at (10 :: y)) with false; [done|]. destruct y as [|a y]; [done|]. unfold blank_at. repeat case_match; simplify_eq; try done. by destruct Hy.
  - cbn [has_blank]. rewrite IH. replace (blank_at (c :: l ++ 13 :: 10 :: y)) with false; [done|]. unfold is_nl in Hc. bool_simpl. symmetry. unfold blank_at.
    destruct (l ++ 13 :: 10 :: y) as [|d r] eqn:E; [repeat case_match; simplify_eq; done|]. assert (Hd : d <> 10).
    { destruct l as [|e l]; cbn [app] in E; injection E as <- _; [done|]. apply Forall_cons_iff in Hl as [He _]. unfold is_nl in He. by bool_simpl. }
    repeat case_match; simplify_eq; done.
Qed.
Lemma block_no_blank fs : Forall field_wf fs -> has_blank (concat (map render_field fs) ++ [13]) = false.
Proof.
  intros Hfs. assert (Hhead : forall fs, Forall field_wf fs -> match concat (map render_field fs) ++ [13] with [] => True | c :: y' => c <> 10 /\ (c <> 13 \/ y' = []) end).
  { intros [|f gs] Hg; [split; [done|by right]|]. apply Forall_cons_iff in Hg as [Hf _]. destruct (field_head f gs [13] Hf) as (c & tl & -> & Hc). destruct (token_plain c Hc) as (_ & ? & ?). split; [done|by left]. }
  induction Hfs as [|f fs Hf Hfs IH]; [done|]. specialize (Hhead fs Hfs). cbn [map concat]. rewrite <- app_assoc. set (R := concat (map render_field fs) ++ [13]) in *. destruct Hf as (_ & Hname & Hfirst & Hconts).
  destruct (name_clean _ Hname) as (_ & Hnl & _ & _). unfold render_field, eol. rewrite <- !app_assoc. cbn [app]. rewrite app_comm_cons, app_assoc.
  assert (Hc : has_blank (concat (map render_cont (f_conts f)) ++ R) = false /\ match concat (map render_cont (f_conts f)) ++ R with [] => True | c :: y' => c <> 10 /\ (c <> 13 \/ y' = []) end).
  { induction Hconts as [|[w c] l (Hwne & Hw & Hcl & _) Hl IHl]; [done|]. cbn [fst snd] in *. destruct IHl as [IH1 IH2]. cbn [map concat]. unfold render_cont at 1 3, eol. cbn [fst snd]. rewrite <- !app_assoc. cbn [app]. split.
    - rewrite app_assoc. rewrite has_blank_line; [done| |done]. apply Forall_app. split; [|done]. eapply Forall_impl; [|exact Hw]. intros x Hx. unfold is_ows, is_nl in *. destruct (x =? 10) eqn:?; bool_simpl; [by subst|done].
    - destruct w as [|x w]; [done|]. apply Forall_cons_iff in Hw as [Hx _]. cbn [app]. unfold is_ows in Hx. assert (x = 32 \/ x = 9) as [->| ->] by lia; split; [done|by left|done|by left]. }
  destruct Hc as [Hc1 Hc2]. rewrite has_blank_line; [done| |done]. apply Forall_app. split; [done|]. by constructor.
Qed.

Lemma block_end fs : fs <> [] -> exists x, concat (map render_field fs) = x ++ eol.
Proof.
  destruct fs as [|f fs _] using rev_ind; [done|]. intros _. rewrite map_app, concat_app. cbn [map concat]. rewrite app_nil_r. unfold render_field at 2.
  destruct (f_conts f) as [|wc conts _] using rev_ind; [cbn [map concat]; rewrite app_nil_r; eexists; by rewrite app_assoc|].
  rewrite map_app, concat_app. cbn [map concat]. rewrite app_nil_r. unfold render_cont at 2. eexists. by rewrite !app_assoc.
Qed.
Lemma init_block fs rest :
  fs <> [] -> Forall field_wf fs ->
  init_scanner (NewHeaderScanner (render_block fs ++ rest)) = Ok ({ { NewHeaderScanner (render_block fs ++ rest) with hs_B := render_block fs } with hs_Init := true }, true).
Proof.
  intros Hne Hfs. set (s := NewHeaderScanner _). unfold init_scanner. change (hs_BlockEnd s) with 0. change (hs_B s) with (render_block fs ++ rest).
  assert (Hhead : exists c tl, render_block fs = c :: tl /\ is_token c = true) by (destruct fs as [|f gs]; [done|]; apply Forall_cons_iff in Hfs as [Hf _]; apply (field_head f gs eol Hf)).
  destruct Hhead as (c & tl & Ec & Hc). destruct (token_plain c Hc) as (Hows & _ & H13). rewrite Ec at 1 2 3. cbn [app]. change (znth (c :: tl ++ rest) 0) with c. test_false (c =? 13). rewrite andb_false_r. cbn [andb].
  change (0 >=? 4) with false. cbn [andb]. destruct (block_end fs Hne) as (x & Ex). unfold IndexCRLFCRLF.
  assert (Ei : IndexCRLFCRLF_ (render_block fs ++ rest) = zlen (render_block fs)).
  { assert (EB : render_block fs ++ rest = x ++ 13 :: 10 :: 13 :: 10 :: rest) by (unfold render_block; rewrite Ex, <- !app_assoc; done). rewrite EB, index_blank_law.
    - unfold render_block. rewrite Ex, !zlen_app. change (zlen eol) with 2. lia.
    - replace (x ++ [13; 10; 13]) with (concat (map render_field fs) ++ [13]) by (by rewrite Ex, <- app_assoc). by apply block_no_blank. }
  rewrite Ei. pose proof (zlen_nonneg (render_block fs)). test_false (zlen (render_block fs) <? 0). pose proof (zlen_nonneg rest). rewrite slice_ok by (rewrite ?zlen_app; lia). cbn [res_bind negb].
  rewrite zdrop_0, Z.sub_0_r, ztake_app. change (hs_B { s with hs_B := render_block fs }) with (render_block fs). rewrite Ec at 1 2 3. change (znth (c :: tl) 0) with c.
  replace ((c =? 32) || (c =? 9)) with false by (unfold is_ows in Hows; done). by rewrite andb_false_r.
Qed.


(** Scanning any bytes, with any claim about where the block ends, terminates
    without a panic: no index is out of range and no write leaves what was read. *)
Theorem header_scan_total b e :
  exists s' l, scan_all (length b + 1) { NewHeaderScanner b with hs_BlockEnd := e } = Ok (s', l).
Proof.
  pose proof (zlen_nonneg b). apply scan_all_total.
  - split; [|done]. change (0 <= 0 <= zlen b). lia.
  - change (zlen b - 0 < Z.of_nat (length b + 1)). unfold zlen. lia.
Qed.
End Lemmas.

(** ** Runs *)
#[local] Existing Instance plain_silicon.
#[local] Existing Instance plain_laws.
Definition sample_fields : list hfield :=
  [mkField (bytes_of_string "2FA-Code") (bytes_of_string " 123 ") []; mkField (bytes_of_string "X-Long") (bytes_of_string " one") [([32], bytes_of_string "two  "); ([9; 32], []); ([32], bytes_of_string "three")]].
Example sample_scan :
  (let* (_, l) := scan_all 10 (NewHeaderScanner (render_block sample_fields ++ bytes_of_string "body")) in Ok l)
  = Ok [(bytes_of_string "2FA-Code", bytes_of_string "123"); (bytes_of_string "X-Long", bytes_of_string "one two  three")].
Proof. vm_compute. reflexivity. Qed.
Lemma sample_fields_wf : Forall field_wf sample_fields.
Proof. repeat constructor; try (apply (bool_decide_unpack _); vm_compute; exact I); vm_compute; done. Qed.
Lemma header_scan_total_witness : exists s' l, scan_all 8 { NewHeaderScanner [65; 58; 13; 13; 10; 13; 10] with hs_BlockEnd := 6 } = Ok (s', l).
Proof. apply (header_scan_total [65; 58; 13; 13; 10; 13; 10] 6). Defined.
